(* ===== verification/_CoqProject ===== *)
-Q . S2P
Prelude.v
BigFloat.v
Common.v
Params.v
Uint256.v
Machine.v
Tx.v
Vm.v
Evm.v
Interpreter.v
Gas.v
Instructions.v
JumpTable.v
RecorderFacts.v
CallFacts.v
ReadOnlyFacts.v
Changes.v
ChainConfig.v
Types.v
Transition.v
VmFacts.v
DemoState.v
GasFacts.v
GasOps.v
GasTables.v
ChainConfigFacts.v
EvmSpec.v
Rlp.v
RlpFacts.v
RlpDecode.v
RlpStreamFacts.v
RlpDecodeFacts.v
RlpRoundTrip.v
RlpSpec.v
State.v
Statedb.v
StateTx.v
StateView.v
StateUndo.v
StateOps.v
StateSim.v
StateTxFacts.v
OffTheChainFacts.v
DemoDatabase.v
StateSpec.v
EvmState.v
TransitionSpec.v
CommitFacts.v
Recording.v
ReplaySpec.v
Codec.v
Transactions.v
Consensus.v
TxSpec.v
Substate.v
SubstateRlp.v
SubstateFacts.v
SubstateSpec.v
TaskPool.v
ReplayTasks.v
Processor.v
Precompiles.v
MerkleTrie.v
TrieFacts.v
TrieSpec.v
TrieDisk.v
Text.v
Abi.v
Extractor.v
Fuzz.v
ExtractorFacts.v
Flow.v
Approx.v
RelatedFacts.v
FlowFacts.v
CheckFacts.v
DetectFacts.v
HunterSpec.v
HunterMain.v
FuzzTask.v
