(* ===== verification/Prelude.v ===== *)
(** * IDWDetector: a verification development

    IDWDetector is a fork of go-ethereum that looks for abnormal withdrawals in
    the history of DeFi applications.  Its own parts are these.

    - The recorder: an instrumented virtual machine (core/vm) that writes the
      internal calls of a transaction and their events as a tree ([InternalTx]
      in core/vm/tx.go), and an instrumented state (core/state) that records
      what a transaction read and wrote.
    - Substates (research): the record of one transaction, with its accounts,
      environment, message and result; their stored form, their database, and
      the pool of workers that replays them.
    - The replay commands (cmd/substate-cli): they make a state of the recorded
      accounts, apply the recorded message, compare the outcome, and collect the
      call trees and the environments.
    - The detector (hunter/defi): it loads the applications' configuration,
      walks the recorded trees, classifies the methods of the application as
      actions, attributes token transfers to users, merges the transfers of a
      transaction into flows, and compares what a user and its related users
      put in with what they took out.
    - The fuzzer (hunter/fuzz and test_hunter.go): it collects the calls of the
      history as seeds, generates messages from them, applies them, and gives
      the recorded trees to the detector.

    They rely on accounts/abi to decode the inputs and events of calls, on rlp
    for the stored form, on core for applying messages, on params for the forks,
    and on common for addresses, hashes and their text.

    ** Files

    General:
    - [Prelude]: panics of Go and the monad of computations that may panic,
      loops over them, the unspecified order of Go maps ([RangeOracle]),
      sort.Sort ([Sorter]), fixed-width integers, sums, automation.
    - [BigFloat], [Approx]: the part of math/big.Float the detector computes
      with, at precision 64 with rounding to nearest even, and its error bounds.
    - [Common], [Text]: common/types.go, common/bytes.go; the parts of strconv,
      strings and math/big that read and write the texts of files.
    - [Abi]: accounts/abi: types, decoding, method lookup, encoding.
    - [Rlp], [RlpDecode]: rlp/encode.go and raw.go, rlp/decode.go.  [Codec]: the
      structs that are encoded, as records.
    - [Tx]: core/vm/tx.go, the recorded tree.

    The detector and the fuzzer:
    - [Extractor]: hunter/defi/extractor.go, defi.go, token.go, collector.go.
      [Flow]: hunter/defi/check.go: user flows, related users, the
      verdict.  [HunterMain]: hunter/main.go, the detector from its files to its
      reports.
    - [Fuzz]: hunter/fuzz: pools, argument generation, messages, seeds.
    - [FuzzTask]: cmd/substate-cli/replay/test_hunter.go, a round of the fuzzer.

    The machine:
    - [Params], [Uint256]: the gas schedule; the interface to the third-party
      library of 256-bit words.
    - [Machine], [Vm], [Evm], [Interpreter], [Gas], [Instructions], [JumpTable]:
      core/vm: stack, memory and sizes; the bitmap of data bytes, the state of
      the machine, contracts and the StateDB interface; calls and creations with
      the recorder; the interpreter loop; dynamic gas; the instructions; the
      instruction sets of the forks.
    - [Precompiles]: core/vm/contracts.go and crypto/blake2b: the precompiled
      contracts, with their prices.
    - [ChainConfig]: params/config.go.  [Transition]: core/state_transition.go
      and core/gaspool.go.

    Blocks:
    - [Types]: the parts of core/types in use, with the filter of logs of
      bloom9.go.  [Transactions]: transactions, their hashes and signatures.
    - [Consensus]: consensus/misc and consensus/ethash: the rules of headers,
      difficulty, base fees, proof of work.
    - [Processor]: core/state_processor.go and core/evm.go: processing the
      transactions of a block and recording their substates.

    The state and its records:
    - [State], [Statedb], [StateTx]: core/state: accounts, the journal, the
      access list; the operations of the StateDB; the end of a transaction, the
      roots and the commit, and off_the_chain.go, the state of a replay.
      [StateView] is the specification: a state that copies itself at every
      snapshot.
    - [MerkleTrie]: trie and ethdb/memorydb: tries, their hashes, their nodes in
      memory and on the disk.
    - [Substate], [SubstateRlp]: research: substates, with [StateDB.Copy], their
      stored form and database.
    - [TaskPool]: research/substate_task.go.  [ReplayTasks]:
      cmd/substate-cli/replay: the tasks that replay a substate.

    [DemoState] and [DemoDatabase] are an in-memory state and database, for
    examples only.  A file named [...Facts] proves lemmas about the definitions
    of the file it is named after.  [RelatedFacts], [CheckFacts], [DetectFacts] (detection),
    [RecorderFacts], [CallFacts] (the recorder), [ReadOnlyFacts] (static calls),
    [GasOps], [GasTables] (gas), [Changes] (what execution does to a state),
    [StateUndo], [StateOps], [StateSim] (the journal), [CommitFacts],
    [Recording] (the records), [RlpStreamFacts], [RlpRoundTrip] (rlp) prove the
    parts of the main theorems.  The properties, each with a number C<n>, are in
    [HunterSpec] (C1 to C5, C7 to C10), [HunterMain] (C6), [TxSpec] (C11, C12),
    [Consensus] (C13, C22), [EvmSpec] (C14 to C19, C24), [Precompiles] (C20),
    [TrieSpec] (C21), [TrieDisk] (C30, C37), [FuzzTask] (C23), [Processor] (C25), [RlpSpec] (C26,
    C27), [StateSpec] (C28, C29), [ReplaySpec] (C31 to C33), [SubstateSpec]
    (C34), [EvmState] (C35, C36), [TransitionSpec] (C38), [TaskPool] (C39) and
    [ReplayTasks] (C40).

    ** Interfaces

    The machine is proved against the class [StateDB]; [EvmState] gives the
    instance that copies itself ([Spec]), which the journaled state refines.
    [SnapshotLaws] and [RefundLaws] say what calls and transitions need of a
    state, [ReplayState] and [ReplayLaws] what the replay tasks need, and
    [ProcessorState] and [ProcessorLaws] what the processor of blocks needs.
    [Database] with [DatabaseLaws] and [MemoryDatabase] is the trie and the code
    store behind the state; [Backend] with [StoreLaws] the store of substates.
    [Uint256], [Externals], [Secp256k1], [PowData] and [PrecompileLibs] are
    libraries, with the ranges and laws of their results; [KeccakLaws] says that
    a hash has 32 bytes.  [precompiled_externals] makes the [Externals] of a
    machine of the contracts of [Precompiles].  [Codec] with [CodecLaws] says
    which values rlp encodes and gets back.

    ** How state and operations correspond to the code

    Functions have the names of the code.  A Go struct is a record; a method
    that writes its receiver returns the new record.  Go maps are stdpp's gmap,
    and a range over one visits the entries in an order that an oracle picks,
    over which the theorems quantify, where the order can matter.  Nil maps and
    nil pointers the code can meet are options.  Run-time panics are values
    ([Panic], [Crash]), errors are sums or options.  Pointers that are shared
    and written through are kept in a store (the jump-destination maps of
    contracts); where the code shares pointers it never writes through, the
    model has values.  Goroutines and channels are a step relation.  Files are
    inputs: the loops over their records are modelled, opening them is not.
    Printing is left out.

    The recorder's call stack holds the nodes of pending calls, the innermost
    first.  The calls of the machine take the interpreter as an argument, and
    [Run] ties the knot.

    ** What the theorems show

    - Detection (C1 to C4): a report of [CheckAttack] is justified by, and a
      clear case is never missed for, the exact sums of what a user and its
      related users deposited and withdrew of a token, up to the rounding of
      big.Float, which the bounds of [Approx] make explicit; it always returns.
      Of a related user the code reads running totals at some flow of the last
      block before the one it checks: which one, among flows of one block, depends on
      the sort, which is not stable ([sort_decides_report] of [HunterSpec] shows a
      history reported under one sort and not under another).  So C1 and C2, which
      hold for every sort, speak of the transfers that were, or can be, read.
    - Related users (C5), token flows (C7): the traversal visits what is
      reachable; totals of tokens.
    - The detector as a program (C6): it ends exactly when every Transfer event
      among its files decodes, and it then has checked every user once.
    - Extraction (C8 to C10): every transfer of a tree is kept exactly once, in
      an action or in the rest; when extraction and attribution panic and what
      they compute whatever the map order.
    - Transactions (C11, C12): who signed a transaction is found again, under
      the rules of the chain; transactions are encoded and read back.
    - Headers (C13, C22): the difficulty computed on words is the one computed on
      integers; which headers are accepted.
    - Recording of calls (C14 to C16): in every instruction set and at every
      depth the call tree is well bracketed; a transaction leaves one root;
      plain transfers panic.
    - The machine (C17 to C20, C24): static calls only touch the state;
      constructing the instruction sets never panics, their tables are those of
      their forks, and the rules choose the newest; the data bitmap marks operands; precompiled
      contracts have bounded prices and give what they promise; every call ends,
      within its gas.
    - Tries (C21, C30, C37): a trie represents a map, its root hash depends on
      nothing else; proofs of values are complete and cannot lie; a trie that is
      committed and written to the disk is read back.
    - The fuzzer (C23): a round ends and never reports an attack, because it
      panics as soon as a transfer is attributed to a user.
    - Blocks (C25): processing a block that does not panic applies its
      transactions in order, each in the state the one before it left, and
      records a substate of each, with the accounts it touched; a refused
      transaction ends it, for a reason.
    - Encoding (C26, C27): what is written is read back; what is read is
      canonical.
    - The state (C28, C29): the journal refines copies at every snapshot, and a
      revert restores what was seen.
    - Records (C31 to C34): a replay on the recorded accounts observes the same;
      the state of a replay holds exactly what it was given; what is recorded is
      exact; a substate is stored and read back.
    - Machine and state together (C35, C36): a failed call leaves the state as
      it was; a call over the specification is a call over the journal.
    - Messages (C38): a message is settled to the last unit of gas and price.
    - Replay (C39, C40): the pool returns; replaying for the detector collects a
      transaction exactly when its message succeeded.

    ** Bounds and fuel

    [CheckAttack]'s traversal has a fuel of the number of users, which suffices
    as each is expanded once ([get_related_total]).  [codeBitmap] has a fuel of
    one more than the length of the code, which suffices as every turn advances
    ([codeBitmap_spec]).  A run has one turn of fuel more than its gas, which
    suffices as every turn costs gas or ends the run, and [Run] has a fuel of
    nested calls, [levels], which suffices above 1024, the depth the machine
    refuses (C24).  [GetHashFn] follows at most as many parents as the block has
    ancestors.  The operations of a trie have a fuel of twice the length of the
    key and two, since every nibble loads at most one node (C21); decoding a node
    has a fuel of its length ([decodeNode_ends]); writing a trie to the disk ends
    with any fuel above the height of the tree (C37).  The other loops recurse on
    their lists.  Integers keep their width where the code can wrap: 64-bit gas
    and offsets, 256-bit words, signed conversions.  The counters of blocks of
    the task pool do not wrap: its last block is below 2^64 - 1, as the commands
    read it as a signed number.

    ** What is not modelled

    Keccak and the other hash functions except BLAKE2b, the curves, their
    pairings and signatures, and the 256-bit arithmetic are parameters with their
    documented laws.  So are the trie and the store behind the state: [State] is
    proved for every [Database], and [MerkleTrie] on its own, since a trie can be
    committed without loss only while no two nodes have the same hash, which no
    law can state of all tries.  Of the trie, iterators, proofs of ranges, the
    stack trie, synchronisation and the reference counts of its database are left
    out; of ethash, making the
    data sets and sealing; of the precompiled contracts, the memory that huge
    lengths would take.  Tracing, the extra-EIP option, the snapshot tree, the
    prefetcher and the metrics of the state, JSON, reading and writing of files,
    LevelDB, the flags of commands, and the rest of go-ethereum (networking, the
    chain of blocks, the pool of transactions, mining, RPC, wallets) are left
    out. *)

From stdpp Require Export base gmap sets list strings pretty sorting.
From Stdlib Require Export ZArith Lia.
#[export] Set Warnings "-register-all,-clear-no-such-hyp".

Declare Scope idw_scope.
Delimit Scope idw_scope with idw.
#[global] Open Scope Z_scope.

Create HintDb idw.
Create Rewrite HintDb idw_rw.

(** ** Run-time panics of Go and the error monad over them *)

(** The ways in which the modelled code can panic. *)
Inductive GoPanic :=
| IndexOutOfRange
| SliceOutOfRange
| NilDereference
| NilMapWrite
| DivideByZero
| TypeAssertion
| ErrNaN
| ExplicitPanic.

(** A computation that returns or panics. *)
Inductive Go (A : Type) :=
| Ret (a : A)
| Panic (p : GoPanic).
Arguments Ret {A} a.
Arguments Panic {A} p.

#[export] Instance Go_ret : MRet Go := @Ret.
#[export] Instance Go_bind : MBind Go :=
  λ A B (k : A → Go B) (m : Go A),
    match m with Ret a => k a | Panic p => Panic p end.
#[export] Instance Go_fmap : FMap Go :=
  λ A B (f : A → B) (m : Go A),
    match m with Ret a => Ret (f a) | Panic p => Panic p end.

#[export] Instance GoPanic_eq_dec : EqDecision GoPanic.
Proof. solve_decision. Defined.

(** A loop over a list whose body may panic. *)
Fixpoint go_foldl {A S : Type} (body : S → A → Go S) (s : S) (l : list A) : Go S :=
  match l with
  | [] => Ret s
  | x :: l' => match body s x with
               | Ret s' => go_foldl body s' l'
               | Panic p => Panic p
               end
  end.

Lemma go_foldl_app {A S} (body : S → A → Go S) s l1 l2 :
  go_foldl body s (l1 ++ l2) = (s' ← go_foldl body s l1; go_foldl body s' l2).
Proof.
  revert s; induction l1 as [|x l1 IH]; intros s; simpl; [done|].
  destruct (body s x); simpl; [apply IH|done].
Qed.

(** A body that never panics makes the loop an ordinary fold. *)
Lemma go_foldl_ret {A S} (body : S → A → S) s l :
  go_foldl (λ s x, Ret (body s x)) s l = Ret (foldl body s l).
Proof. revert s; induction l as [|x l IH]; intros s; simpl; auto. Qed.

Lemma foldl_ext {A S} (f g : S → A → S) l s :
  (∀ s x, f s x = g s x) → foldl f s l = foldl g s l.
Proof. intros H. revert s; induction l as [|x l IH]; intros s; simpl; [done|]. by rewrite H. Qed.

Lemma go_foldl_ext {A S} (f g : S → A → Go S) s l :
  (∀ s x, x ∈ l → f s x = g s x) → go_foldl f s l = go_foldl g s l.
Proof.
  revert s; induction l as [|x l IH]; intros s H; simpl; [done|].
  rewrite H by set_solver. destruct (g s x); [|done].
  apply IH; intros; apply H; set_solver.
Qed.

(** The invariant rule for a loop that may panic. *)
Lemma go_foldl_ind {A S} (P : S → Prop) (body : S → A → Go S) s l s' :
  P s →
  (∀ s x s', x ∈ l → P s → body s x = Ret s' → P s') →
  go_foldl body s l = Ret s' → P s'.
Proof.
  revert s; induction l as [|x l IH]; intros s Hs Hstep; simpl; [by intros [= <-]|].
  destruct (body s x) as [s1|] eqn:E; [|done].
  apply IH.
  - eapply Hstep; eauto; set_solver.
  - intros; eapply Hstep; eauto; set_solver.
Qed.

(** Computations that may run out of fuel ([None]), panic or return. *)
Definition run_bind {A B : Type} (m : option (Go A)) (k : A → option (Go B)) : option (Go B) :=
  match m with
  | None => None
  | Some (Panic p) => Some (Panic p)
  | Some (Ret a) => k a
  end.

Fixpoint run_foldl {A S : Type} (body : S → A → option (Go S)) (s : S) (l : list A) : option (Go S) :=
  match l with
  | [] => Some (Ret s)
  | x :: l' => run_bind (body s x) (λ s', run_foldl body s' l')
  end.

(** A loop whose body always returns returns, and keeps what its body keeps. *)
Lemma run_foldl_total {A S} (P : S → Prop) (body : S → A → option (Go S)) l s :
  (∀ s x, x ∈ l → P s → ∃ s', body s x = Some (Ret s') ∧ P s') → P s →
  ∃ s', run_foldl body s l = Some (Ret s') ∧ P s'.
Proof.
  revert s. induction l as [|x l IH]; intros s Hb Hs; [by exists s|]. cbn.
  destruct (Hb s x) as (s1 & -> & Hs1); [by left|done|]. cbn.
  apply IH; [|done]. intros; apply Hb; [by right|done].
Qed.

Lemma run_foldl_returns {A S} (body : S → A → option (Go S)) l s :
  (∀ s x, x ∈ l → ∃ s', body s x = Some (Ret s')) → ∃ s', run_foldl body s l = Some (Ret s').
Proof.
  intros Hb. destruct (run_foldl_total (λ _, True) body l s) as (s' & E & _); [|done|by exists s'].
  intros s0 x Hx _. destruct (Hb s0 x Hx) as [s' E]. by exists s'.
Qed.

(** The computation does not panic. *)
Definition is_ret {A : Type} (m : Go A) : Prop := ∃ a, m = Ret a.

Lemma is_ret_Ret {A} (a : A) : is_ret (Ret a).
Proof. by exists a. Qed.

Lemma is_ret_Panic {A} (p : GoPanic) : ¬ is_ret (Panic (A:=A) p).
Proof. by intros [a ?]. Qed.

Lemma is_ret_bind {A B} (m : Go A) (k : A → Go B) (P : Prop) :
  (∀ a, is_ret (k a) ↔ P) → is_ret (m ≫= k) ↔ is_ret m ∧ P.
Proof.
  intros Hk. destruct m as [a|p]; simpl.
  - rewrite Hk. split; [intros; split; [apply is_ret_Ret|done]|by intros []].
  - split; [by intros ?%is_ret_Panic|by intros [?%is_ret_Panic _]].
Qed.

(** A loop panics exactly if its body does on some element. *)
Lemma go_foldl_is_ret {A S} (P : A → Prop) (body : S → A → Go S) l :
  (∀ s x, x ∈ l → is_ret (body s x) ↔ P x) →
  ∀ s, is_ret (go_foldl body s l) ↔ Forall P l.
Proof.
  intros Hb. induction l as [|x l IH]; intros s; simpl.
  - split; [constructor|intros; apply is_ret_Ret].
  - rewrite Forall_cons, <- (Hb s x) by (by left).
    destruct (body s x) as [s'|p].
    + rewrite IH by (intros; apply Hb; by right).
      split; [intros; split; [apply is_ret_Ret|done]|by intros []].
    + split; [by intros ?%is_ret_Panic|by intros [?%is_ret_Panic _]].
Qed.

#[export] Hint Resolve is_ret_Ret is_ret_Panic : idw.

(** Close a goal that assumes a panicking computation to return. *)
Ltac no_panic :=
  match goal with H : is_ret (Panic _) |- _ => destruct (is_ret_Panic _ H) end.

(** ** The iteration order of Go maps

    A [range] over a map visits its entries in an unspecified order that may
    differ from one execution of the loop to the next.  An oracle fixes the
    order: [pick n l] is the order in which the [n]-th loop visits the entries
    [l].  Theorems quantify over all oracles. *)
Record RangeOracle := {
  pick : ∀ {A : Type}, nat → list A → list A;
  pick_perm : ∀ {A : Type} (n : nat) (l : list A), pick n l ≡ₚ l
}.

Definition range_id : RangeOracle :=
  {| pick := λ _ _ l, l; pick_perm := λ _ _ l, reflexivity l |}.

Definition range_rev : RangeOracle :=
  {| pick := λ A _ l, reverse l; pick_perm := λ A _ l, reverse_Permutation l |}.

(** [for k, v := range m] *)
Definition range_map {K V : Type} `{Countable K} (o : RangeOracle) (n : nat)
    (m : gmap K V) : list (K * V) :=
  pick o n (map_to_list m).

Lemma elem_of_pick {A} (o : RangeOracle) n (l : list A) x : x ∈ pick o n l ↔ x ∈ l.
Proof. by rewrite (pick_perm o n l). Qed.

Lemma elem_of_range_map {K V} `{Countable K} (o : RangeOracle) n (m : gmap K V) k v :
  (k, v) ∈ range_map o n m ↔ m !! k = Some v.
Proof. unfold range_map. rewrite elem_of_pick. apply elem_of_map_to_list. Qed.

Lemma range_map_NoDup {K V} `{Countable K} (o : RangeOracle) n (m : gmap K V) :
  NoDup (range_map o n m).*1.
Proof. unfold range_map. rewrite (pick_perm o n). apply NoDup_fst_map_to_list. Qed.

(** ** Counting maps: [m\[k\] += 1] *)
Definition map_incr {K : Type} `{Countable K} (k : K) (m : gmap K Z) : gmap K Z :=
  <[k := default 0 (m !! k) + 1]> m.

Lemma map_incr_lookup {K} `{Countable K} (k : K) (m : gmap K Z) j :
  default 0 (map_incr k m !! j) = default 0 (m !! j) + (if decide (k = j) then 1 else 0).
Proof.
  unfold map_incr. rewrite lookup_insert. case_decide; subst; simpl; lia.
Qed.

(** ** [sort.Sort]

    The standard library promises a permutation that is sorted, and no
    stability; [less] is a strict weak order in every use. *)
Definition le_of {A} (less : A → A → bool) (x y : A) : Prop := less y x = false.

Record StrictWeak {A} (less : A → A → bool) : Prop := {
  sw_irrefl : ∀ x, less x x = false;
  sw_asym : ∀ x y, less x y = true → less y x = false;
  sw_trans : ∀ x y z, le_of less x y → le_of less y z → le_of less x z
}.

Record Sorter := {
  sort_by : ∀ {A : Type}, (A → A → bool) → list A → list A;
  sort_perm : ∀ {A} (less : A → A → bool) l, sort_by less l ≡ₚ l;
  sort_sorted : ∀ {A} (less : A → A → bool) l,
    StrictWeak less → StronglySorted (le_of less) (sort_by less l)
}.

(** The insertion sort the library uses on short slices. *)
Fixpoint insert_by {A} (less : A → A → bool) (x : A) (l : list A) : list A :=
  match l with
  | [] => [x]
  | y :: l' => if less x y then x :: y :: l' else y :: insert_by less x l'
  end.

Definition insertion_sort {A} (less : A → A → bool) (l : list A) : list A :=
  foldl (λ acc x, insert_by less x acc) [] l.

Lemma insert_by_perm {A} (less : A → A → bool) x l : insert_by less x l ≡ₚ x :: l.
Proof.
  induction l as [|y l IH]; simpl; [done|].
  destruct (less x y); [done|]. rewrite IH. apply Permutation_swap.
Qed.

Lemma insert_by_sorted {A} (less : A → A → bool) x l :
  StrictWeak less →
  StronglySorted (le_of less) l → StronglySorted (le_of less) (insert_by less x l).
Proof.
  intros Hsw. induction 1 as [|y l Hl IH Hall]; simpl; [by repeat constructor|].
  destruct (less x y) eqn:E.
  - constructor; [by constructor|]. constructor.
    + by apply (sw_asym _ Hsw).
    + eapply Forall_impl; [exact Hall|]. intros z Hz. simpl in Hz.
      eapply (sw_trans _ Hsw); [|exact Hz]. by apply (sw_asym _ Hsw).
  - constructor; [done|].
    rewrite insert_by_perm. by constructor.
Qed.

Lemma insertion_sort_perm {A} (less : A → A → bool) l : insertion_sort less l ≡ₚ l.
Proof.
  unfold insertion_sort.
  enough (∀ acc, foldl (λ acc x, insert_by less x acc) acc l ≡ₚ l ++ acc) as H
    by (rewrite H; by rewrite app_nil_r).
  induction l as [|x l IH]; intros acc; simpl; [done|].
  rewrite IH, insert_by_perm. by rewrite <- Permutation_middle.
Qed.

Lemma insertion_sort_sorted {A} (less : A → A → bool) l :
  StrictWeak less → StronglySorted (le_of less) (insertion_sort less l).
Proof.
  intros Hsw. unfold insertion_sort.
  enough (∀ acc, StronglySorted (le_of less) acc →
    StronglySorted (le_of less) (foldl (λ acc x, insert_by less x acc) acc l)) as H
    by (apply H; constructor).
  induction l as [|x l IH]; intros acc Hacc; simpl; [done|].
  apply IH. by apply insert_by_sorted.
Qed.

Definition insertion_sorter : Sorter := {|
  sort_by := @insertion_sort;
  sort_perm := @insertion_sort_perm;
  sort_sorted := @insertion_sort_sorted
|}.

Lemma filter_none {A} (P : A → Prop) `{∀ x, Decision (P x)} l : Forall (λ x, ¬ P x) l → filter P l = [].
Proof. induction 1 as [|x l Hx _ IH]; [done|]. rewrite filter_cons. by rewrite decide_False. Qed.

Lemma StronglySorted_filter {A} (R : A → A → Prop) (P : A → Prop) `{∀ x, Decision (P x)} l :
  StronglySorted R l → StronglySorted R (filter P l).
Proof.
  induction 1 as [|x l _ IH Hall]; [constructor|]. rewrite filter_cons. case_decide; [|done].
  constructor; [done|]. apply Forall_forall. intros y [_ Hy]%list_elem_of_filter.
  rewrite Forall_forall in Hall. by apply Hall.
Qed.

Lemma StronglySorted_fmap {A B} (f : A → B) (R : B → B → Prop) l :
  StronglySorted R (f <$> l) ↔ StronglySorted (λ x y, R (f x) (f y)) l.
Proof.
  induction l as [|x l IH]; [split; constructor|]. cbn. split; intros H; inversion H as [|? ? Hs Ha];
    subst; constructor; try by apply IH.
  - by apply (proj1 (Forall_fmap _ _ _)) in Ha.
  - by apply Forall_fmap.
Qed.

Lemma StronglySorted_impl {A} (R S : A → A → Prop) l :
  (∀ x y, R x y → S x y) → StronglySorted R l → StronglySorted S l.
Proof.
  intros HRS. induction 1 as [|x l _ IH Hall]; constructor; [done|].
  eapply Forall_impl; [exact Hall|]. auto.
Qed.

Lemma StronglySorted_lookup {A} (R : A → A → Prop) l i j x y :
  StronglySorted R l → (i < j)%nat → l !! i = Some x → l !! j = Some y → R x y.
Proof.
  intros Hl. revert i j. induction Hl as [|z l Hl IH Hz]; intros i j Hij Hi Hj; [done|].
  destruct j as [|j]; [lia|]. cbn in Hj. destruct i as [|i]; cbn in Hi.
  - injection Hi as ->. rewrite Forall_forall in Hz. apply Hz. by eapply list_elem_of_lookup_2.
  - apply (IH i j); [lia|done..].
Qed.

(** ** Fixed-width integers *)
Definition wrapU (w x : Z) : Z := x mod 2 ^ w.
Definition wrapS (w x : Z) : Z :=
  let y := x mod 2 ^ w in if y <? 2 ^ (w - 1) then y else y - 2 ^ w.

Lemma wrapU_small w x : 0 ≤ x < 2 ^ w → wrapU w x = x.
Proof. apply Z.mod_small. Qed.

Lemma wrapU_range w x : 0 ≤ w → 0 ≤ wrapU w x < 2 ^ w.
Proof. intros. apply Z.mod_pos_bound. lia. Qed.

Lemma wrapS_small w x : 0 < w → - 2 ^ (w - 1) ≤ x < 2 ^ (w - 1) → wrapS w x = x.
Proof.
  intros Hw Hx. unfold wrapS.
  assert (2 ^ w = 2 * 2 ^ (w - 1)) as Hp
    by (rewrite <- Z.pow_succ_r by lia; f_equal; lia).
  destruct (Z.ltb_spec x 0).
  - assert (x mod 2 ^ w = x + 2 ^ w) as ->.
    { symmetry; apply (Z.mod_unique_pos x (2 ^ w) (-1)); lia. }
    destruct (Z.ltb_spec (x + 2 ^ w) (2 ^ (w - 1))); lia.
  - rewrite Z.mod_small by lia.
    destruct (Z.ltb_spec x (2 ^ (w - 1))); lia.
Qed.

(** ** Sums *)
Definition sumZ (l : list Z) : Z := foldr Z.add 0 l.

Lemma sumZ_app l1 l2 : sumZ (l1 ++ l2) = sumZ l1 + sumZ l2.
Proof. induction l1; simpl; lia. Qed.

#[export] Instance sumZ_perm : Proper ((≡ₚ) ==> (=)) sumZ.
Proof. induction 1; simpl; lia. Qed.

Lemma sumZ_nonneg l : Forall (λ x, 0 ≤ x) l → 0 ≤ sumZ l.
Proof. induction 1; simpl; lia. Qed.

(** ** Automation *)
#[export] Hint Resolve wrapU_range sumZ_nonneg range_map_NoDup : idw.
#[export] Hint Rewrite @map_incr_lookup sumZ_app @elem_of_pick : idw_rw.

(** Case analysis on the innermost discriminee of the goal or a hypothesis. *)
Ltac go_case :=
  match goal with
  | H : context [match ?x with _ => _ end] |- _ => destruct x eqn:?; simplify_eq/=
  | |- context [match ?x with _ => _ end] => destruct x eqn:?; simplify_eq/=
  end.

(** Decide a closed proposition by evaluation. *)
Ltac decide_now := match goal with |- ?P => refine (proj1 (bool_decide_eq_true P) _); vm_compute; reflexivity end.
