(* ===== verification/BigFloat.v ===== *)
(** * math/big.Float and float64

    The part of Go's standard library that the flow computation of
    [hunter/defi/check.go] uses: floats with a per-value precision and rounding
    to nearest even ([SetInt], [SetInt64], [SetFloat64], [Add], [Mul], [Quo],
    [Cmp], [Float64]).  A finite value is [mant * 2 ^ exp]; the sign of zero is
    not represented, and exponents are unbounded where Go's are 32 bits wide. *)

From S2P Require Import Prelude.
From Stdlib Require Import QArith Qpower Lqa.
#[local] Open Scope Z_scope.

(** ** Data *)

Record Float := mkFloat { f_prec : Z; f_mant : Z; f_exp : Z }.

(** Values that division and conversion to [float64] can also produce. *)
Inductive ExtFloat :=
| FinF (x : Float)
| InfF (neg : bool).

(** A finite [float64], as [mant * 2 ^ exp] with a mantissa of at most 53 bits. *)
Record float64 := mkF64 { d_mant : Z; d_exp : Z }.

(** ** Rounding *)

Definition bitlen (a : Z) : Z := if a <=? 0 then 0 else Z.log2 a + 1.

(** Round [a >= 0] divided by [2 ^ s] to the nearest integer, ties to even. *)
Definition round_even (a s : Z) : Z :=
  let q := a / 2 ^ s in
  let r := a mod 2 ^ s in
  let h := 2 ^ (s - 1) in
  if (h <? r) || ((r =? h) && Z.odd q) then q + 1 else q.

Definition rnd (p m e : Z) : Z * Z :=
  let s := bitlen (Z.abs m) - p in
  if s <=? 0 then (m, e) else (Z.sgn m * round_even (Z.abs m) s, e + s).

Definition mk_rounded (p m e : Z) : Float :=
  let '(m', e') := rnd p m e in mkFloat p m' e'.

(** ** Operations *)

Definition newFloat : Float := mkFloat 0 0 0.

Definition umax32 (x y : Z) : Z := if x >? y then x else y.

Definition SetInt (x : Z) : Float :=
  mk_rounded (umax32 (bitlen (Z.abs x)) 64) x 0.

Definition SetInt64 (x : Z) : Float := mk_rounded 64 x 0.

Definition SetFloat64 (x : float64) : Float := mk_rounded 53 (d_mant x) (d_exp x).

(** The precision an operation on receiver [z] rounds to. *)
Definition op_prec (z x y : Float) : Z :=
  if f_prec z =? 0 then umax32 (f_prec x) (f_prec y) else f_prec z.

(** [z.Add(x, y)] *)
Definition Add (z x y : Float) : Float :=
  let i := Z.min (f_exp x) (f_exp y) in
  mk_rounded (op_prec z x y)
    (f_mant x * 2 ^ (f_exp x - i) + f_mant y * 2 ^ (f_exp y - i)) i.

(** [z.Mul(x, y)] *)
Definition Mul (z x y : Float) : Float :=
  mk_rounded (op_prec z x y) (f_mant x * f_mant y) (f_exp x + f_exp y).

(** [z.Quo(x, y)]: the quotient is computed to two bits more than the precision
    and a sticky bit, and rounded once. *)
Definition quo_shift (p mx my : Z) : Z := Z.max 0 (p + 2 + bitlen my - bitlen mx).

Definition quo_pos (p mx ex my ey : Z) : Z * Z :=
  let k := quo_shift p mx my in
  let q := (mx * 2 ^ k) / my in
  let sticky := if (mx * 2 ^ k) mod my =? 0 then 0 else 1 in
  rnd p (2 * q + sticky) (ex - ey - k - 1).

Definition Quo (z x y : Float) : Go ExtFloat :=
  if f_mant y =? 0 then
    if f_mant x =? 0 then Panic ErrNaN else Ret (InfF (f_mant x <? 0))
  else
    let p := op_prec z x y in
    let '(m, e) := quo_pos p (Z.abs (f_mant x)) (f_exp x) (Z.abs (f_mant y)) (f_exp y) in
    Ret (FinF (mkFloat p (Z.sgn (f_mant x) * Z.sgn (f_mant y) * m) e)).

(** [x.Cmp(y)] *)
Definition cmp_at (m1 e1 m2 e2 : Z) : comparison :=
  let i := Z.min e1 e2 in
  Z.compare (m1 * 2 ^ (e1 - i)) (m2 * 2 ^ (e2 - i)).

Definition Cmp (x y : Float) : comparison :=
  cmp_at (f_mant x) (f_exp x) (f_mant y) (f_exp y).

(** The nearest [float64], with gradual underflow and overflow to infinity. *)
Definition f64_prec (m e : Z) : Z :=
  let E := bitlen (Z.abs m) + e in
  if E <? -1021 then E + 1074 else 53.

Definition Float64_fin (m e : Z) : ExtFloat :=
  let '(m', e') := rnd (f64_prec m e) m e in
  if (1024 <? bitlen (Z.abs m') + e') && negb (m' =? 0) then InfF (m <? 0)
  else FinF (mkFloat 53 m' e').

Definition Float64 (x : ExtFloat) : ExtFloat :=
  match x with
  | InfF neg => InfF neg
  | FinF f => Float64_fin (f_mant f) (f_exp f)
  end.

(** Comparison of [float64] values with a constant integer [c]. *)
Definition f64_ge (x : ExtFloat) (c : Z) : bool :=
  match x with
  | InfF neg => negb neg
  | FinF f => match cmp_at (f_mant f) (f_exp f) c 0 with Lt => false | _ => true end
  end.

Definition f64_gt (x : ExtFloat) (c : Z) : bool :=
  match x with
  | InfF neg => negb neg
  | FinF f => match cmp_at (f_mant f) (f_exp f) c 0 with Gt => true | _ => false end
  end.

(** ** Values *)

Definition dyad (m e : Z) : Q := (inject_Z m * (2 # 1) ^ e)%Q.
Definition toQ (x : Float) : Q := dyad (f_mant x) (f_exp x).

(** Non-negative values whose mantissa fits their precision. *)
Definition wf_nonneg (x : Float) : Prop :=
  0 ≤ f_prec x ∧ 0 ≤ f_mant x ∧ (0 < f_mant x → 1 ≤ f_prec x).

(** ** Dyadic arithmetic *)

Lemma two_pow_pos e : (0 < (2 # 1) ^ e)%Q.
Proof. apply Qpower_0_lt. reflexivity. Qed.

Lemma dyad_shift m e k : 0 ≤ k → (dyad (m * 2 ^ k) (e - k) == dyad m e)%Q.
Proof.
  intros Hk. unfold dyad. rewrite inject_Z_mult.
  replace e with ((e - k) + k) at 2 by lia.
  rewrite Qpower_plus by discriminate.
  rewrite Zpower_Qpower by done. change (inject_Z 2) with (2 # 1)%Q. ring.
Qed.

Lemma dyad_to m e i : i ≤ e → (dyad m e == dyad (m * 2 ^ (e - i)) i)%Q.
Proof.
  intros. rewrite <- (dyad_shift m e (e - i)) by lia.
  by replace (e - (e - i)) with i by lia.
Qed.

Lemma dyad_le_same a b e : (dyad a e <= dyad b e)%Q ↔ a ≤ b.
Proof.
  unfold dyad. pose proof (two_pow_pos e). rewrite (Zle_Qle a b). split; intros.
  - eapply Qmult_lt_0_le_reg_r; eauto.
  - apply Qmult_le_compat_r; [done | by apply Qlt_le_weak].
Qed.

Lemma dyad_lt_same a b e : (dyad a e < dyad b e)%Q ↔ a < b.
Proof.
  split; intros H.
  - destruct (Z.lt_ge_cases a b) as [|C]; [done|].
    apply (dyad_le_same b a e) in C. exfalso. by apply (Qlt_not_le _ _ H).
  - apply Qnot_le_lt. rewrite dyad_le_same. lia.
Qed.

Lemma dyad_add a b e : (dyad (a + b) e == dyad a e + dyad b e)%Q.
Proof. unfold dyad. rewrite inject_Z_plus. ring. Qed.

Lemma dyad_mul a b e f : (dyad (a * b) (e + f) == dyad a e * dyad b f)%Q.
Proof. unfold dyad. rewrite inject_Z_mult, Qpower_plus by discriminate. ring. Qed.

Lemma cmp_at_le m1 e1 m2 e2 : cmp_at m1 e1 m2 e2 ≠ Gt ↔ (dyad m1 e1 <= dyad m2 e2)%Q.
Proof.
  unfold cmp_at. set (i := Z.min e1 e2).
  rewrite (dyad_to m1 e1 i), (dyad_to m2 e2 i), dyad_le_same by lia. done.
Qed.

Lemma cmp_at_lt m1 e1 m2 e2 : cmp_at m1 e1 m2 e2 = Lt ↔ (dyad m1 e1 < dyad m2 e2)%Q.
Proof.
  unfold cmp_at. set (i := Z.min e1 e2).
  rewrite (dyad_to m1 e1 i), (dyad_to m2 e2 i), dyad_lt_same by lia. done.
Qed.

Lemma cmp_at_gt m1 e1 m2 e2 : cmp_at m1 e1 m2 e2 = Gt ↔ (dyad m2 e2 < dyad m1 e1)%Q.
Proof.
  unfold cmp_at. set (i := Z.min e1 e2).
  rewrite (dyad_to m1 e1 i), (dyad_to m2 e2 i), dyad_lt_same by lia.
  by rewrite Z.compare_gt_iff.
Qed.

(** ** Bit lengths *)

Lemma bitlen_nonneg a : 0 ≤ bitlen a.
Proof. unfold bitlen. destruct (Z.leb_spec a 0); [lia|]. pose proof (Z.log2_nonneg a). lia. Qed.

Lemma bitlen_bounds a : 0 < a → 2 ^ (bitlen a - 1) ≤ a < 2 ^ bitlen a.
Proof.
  intros Ha. unfold bitlen. destruct (Z.leb_spec a 0); [lia|].
  pose proof (Z.log2_spec a Ha).
  replace (Z.log2 a + 1 - 1) with (Z.log2 a) by lia.
  by replace (Z.log2 a + 1) with (Z.succ (Z.log2 a)) by lia.
Qed.

Lemma bitlen_le a p : 0 ≤ p → a < 2 ^ p → bitlen a ≤ p.
Proof.
  intros Hp Ha. unfold bitlen. destruct (Z.leb_spec a 0); [lia|].
  apply Z.log2_lt_pow2 in Ha; lia.
Qed.

Lemma bitlen_pos a : 0 < a → 1 ≤ bitlen a.
Proof. intros. unfold bitlen. destruct (Z.leb_spec a 0); [lia|]. pose proof (Z.log2_nonneg a). lia. Qed.

(** ** Rounding respects every representable bound *)

Lemma round_even_lower a s K : 0 < s → K * 2 ^ s ≤ a → K ≤ round_even a s.
Proof.
  intros Hs HK. unfold round_even.
  assert (0 < 2 ^ s) by (apply Z.pow_pos_nonneg; lia).
  assert (K ≤ a / 2 ^ s) by (apply Z.div_le_lower_bound; lia).
  case_match; lia.
Qed.

Lemma round_even_upper a s K : 0 < s → a ≤ K * 2 ^ s → round_even a s ≤ K.
Proof.
  intros Hs HK. unfold round_even.
  assert (0 < 2 ^ s) by (apply Z.pow_pos_nonneg; lia).
  assert (0 < 2 ^ (s - 1)) by (apply Z.pow_pos_nonneg; lia).
  pose proof (Z.div_mod a (2 ^ s) ltac:(lia)) as Hdm.
  pose proof (Z.mod_pos_bound a (2 ^ s) ltac:(lia)) as Hr.
  assert (a / 2 ^ s ≤ K) by (apply Z.div_le_upper_bound; lia).
  destruct (Z.eq_dec (a / 2 ^ s) K) as [Heq|Hne].
  - assert (a mod 2 ^ s = 0) as -> by nia.
    destruct (Z.ltb_spec (2 ^ (s - 1)) 0); [lia|].
    destruct (Z.eqb_spec 0 (2 ^ (s - 1))); [lia|]. simpl. lia.
  - case_match; lia.
Qed.

Lemma round_even_nonneg a s : 0 < s → 0 ≤ a → 0 ≤ round_even a s.
Proof. intros. apply round_even_lower; lia. Qed.

Lemma dyad_exp_mono a e e' : 0 ≤ a → e ≤ e' → (dyad a e <= dyad a e')%Q.
Proof.
  intros. rewrite (dyad_to a e' e), dyad_le_same by done.
  assert (0 < 2 ^ (e' - e)) by (apply Z.pow_pos_nonneg; lia). nia.
Qed.

(** The two parts of a rounded positive mantissa. *)
Lemma rnd_pos p m e :
  0 < m → rnd p m e =
    if bitlen m - p <=? 0 then (m, e)
    else (round_even m (bitlen m - p), e + (bitlen m - p)).
Proof.
  intros. unfold rnd. rewrite Z.abs_eq, Z.sgn_pos by lia. by rewrite Z.mul_1_l.
Qed.

Lemma rnd_0 p e : rnd p 0 e = if 0 - p <=? 0 then (0, e) else (0, e + (0 - p)).
Proof. done. Qed.

Lemma rnd_ge p m e k j :
  1 ≤ p → 0 < m → 0 ≤ k < 2 ^ p →
  (dyad k j <= dyad m e)%Q → (dyad k j <= dyad (rnd p m e).1 (rnd p m e).2)%Q.
Proof.
  intros Hp Hm Hk Hle. rewrite rnd_pos by done.
  destruct (Z.leb_spec (bitlen m - p) 0) as [|Hs]; [done|]. simpl.
  set (s := bitlen m - p) in *.
  destruct (Z.le_gt_cases (e + s) j) as [Hj|Hj].
  - rewrite (dyad_to k j (e + s)), dyad_le_same by done.
    apply round_even_lower; [done|].
    rewrite (dyad_to k j e), dyad_le_same in Hle by lia.
    rewrite <- Z.mul_assoc, <- Z.pow_add_r by lia.
    by replace (j - (e + s) + s) with (j - e) by lia.
  - apply Qle_trans with (dyad (2 ^ (p - 1)) (j + 1)).
    + rewrite (dyad_to (2 ^ (p - 1)) (j + 1) j), dyad_le_same by lia.
      rewrite <- Z.pow_add_r by lia. replace (p - 1 + (j + 1 - j)) with p by lia. lia.
    + eapply Qle_trans; [apply (dyad_exp_mono _ (j + 1) (e + s)); [apply Z.pow_nonneg; lia|lia]|].
      rewrite dyad_le_same. apply round_even_lower; [done|].
      rewrite <- Z.pow_add_r by lia.
      pose proof (bitlen_bounds m Hm) as [? _].
      by replace (p - 1 + s) with (bitlen m - 1) by lia.
Qed.

Lemma rnd_le p m e k j :
  0 < m → 0 ≤ k < 2 ^ p →
  (dyad m e <= dyad k j)%Q → (dyad (rnd p m e).1 (rnd p m e).2 <= dyad k j)%Q.
Proof.
  intros Hm Hk Hle. rewrite rnd_pos by done.
  destruct (Z.leb_spec (bitlen m - p) 0) as [|Hs]; [done|]. simpl.
  set (s := bitlen m - p) in *.
  assert (0 ≤ p) by (destruct (Z.le_gt_cases 0 p); [done|]; rewrite Z.pow_neg_r in Hk by done; lia).
  destruct (Z.le_gt_cases (e + s) j) as [Hj|Hj].
  - rewrite (dyad_to k j (e + s)), dyad_le_same by done.
    apply round_even_upper; [done|].
    rewrite (dyad_to k j e), dyad_le_same in Hle by lia.
    rewrite <- Z.mul_assoc, <- Z.pow_add_r by lia.
    by replace (j - (e + s) + s) with (j - e) by lia.
  - exfalso. apply (Qle_not_lt _ _ Hle).
    set (i := Z.min j e).
    rewrite (dyad_to k j i), (dyad_to m e i), dyad_lt_same by lia.
    pose proof (bitlen_bounds m Hm) as [Hb _].
    apply Z.lt_le_trans with (2 ^ p * 2 ^ (j - i)).
    + apply Z.mul_lt_mono_pos_r; [apply Z.pow_pos_nonneg; lia|lia].
    + etransitivity; [|apply Z.mul_le_mono_nonneg_r; [apply Z.pow_nonneg; lia|exact Hb]].
      rewrite <- !Z.pow_add_r by lia. apply Z.pow_le_mono_r; lia.
Qed.

(** Tiny values, and values rounded to no bits at all, stay below one half of the
    range of normal numbers. *)
Lemma rnd_le_pow2 p m e k :
  0 < m → (dyad m e <= dyad 1 k)%Q → e + (bitlen m - p) ≤ k →
  (dyad (rnd p m e).1 (rnd p m e).2 <= dyad 1 k)%Q.
Proof.
  intros Hm Hle Hp. rewrite rnd_pos by done.
  destruct (Z.leb_spec (bitlen m - p) 0) as [|Hs]; [done|]. simpl.
  set (s := bitlen m - p) in *.
  rewrite (dyad_to 1 k (e + s)), dyad_le_same by lia.
  apply round_even_upper; [done|].
  rewrite (dyad_to 1 k e), dyad_le_same in Hle by lia.
  rewrite <- Z.mul_assoc, <- Z.pow_add_r by lia.
  by replace (k - (e + s) + s) with (k - e) by lia.
Qed.

Lemma rnd_nonneg p m e : 0 ≤ m → 0 ≤ (rnd p m e).1.
Proof.
  intros Hm. destruct (Z.eq_dec m 0) as [->|]; [rewrite rnd_0; destruct (0 - p <=? 0); simpl; lia|].
  rewrite rnd_pos by lia. destruct (Z.leb_spec (bitlen m - p) 0); simpl; [lia|].
  by apply round_even_nonneg.
Qed.

Lemma rnd_zero p e : (rnd p 0 e).1 = 0.
Proof. rewrite rnd_0. by destruct (0 - p <=? 0). Qed.

(** Values that fit the precision are not rounded. *)
Lemma rnd_exact p m e : bitlen (Z.abs m) ≤ p → rnd p m e = (m, e).
Proof. intros. unfold rnd. destruct (Z.leb_spec (bitlen (Z.abs m) - p) 0); [done|lia]. Qed.

(** ** Division *)

(** The mantissa, with the sticky bit, that division rounds. *)
Definition quo_mant (p mx my : Z) : Z :=
  let k := quo_shift p mx my in
  2 * ((mx * 2 ^ k) / my) + (if (mx * 2 ^ k) mod my =? 0 then 0 else 1).

Lemma quo_pos_eq p mx ex my ey :
  quo_pos p mx ex my ey = rnd p (quo_mant p mx my) (ex - ey - quo_shift p mx my - 1).
Proof. done. Qed.

Lemma quo_shift_nonneg p mx my : 0 ≤ quo_shift p mx my.
Proof. unfold quo_shift. lia. Qed.

Section quotient.
Context (p mx ex my ey : Z).
Context (Hp : 1 ≤ p) (Hmx : 0 < mx) (Hmy : 0 < my).
#[local] Abbreviation k := (quo_shift p mx my).
#[local] Abbreviation E := (ex - ey - k - 1).

Lemma quo_floor_large : 2 ^ (p + 1) * my ≤ mx * 2 ^ k.
Proof using Hp Hmx Hmy.
  pose proof (bitlen_bounds mx Hmx) as [Hx _].
  pose proof (bitlen_bounds my Hmy) as [_ Hy].
  pose proof (bitlen_pos mx Hmx). pose proof (bitlen_pos my Hmy).
  assert (0 ≤ k) by apply quo_shift_nonneg.
  transitivity (2 ^ (p + 1) * 2 ^ bitlen my).
  { apply Z.mul_le_mono_nonneg_l; [apply Z.pow_nonneg; lia|lia]. }
  transitivity (2 ^ (bitlen mx - 1) * 2 ^ k).
  - rewrite <- !Z.pow_add_r by lia. apply Z.pow_le_mono_r; [lia|]. unfold quo_shift. lia.
  - apply Z.mul_le_mono_nonneg_r; [apply Z.pow_nonneg; lia|done].
Qed.

Lemma quo_mant_large : 2 ^ (p + 2) ≤ quo_mant p mx my.
Proof using Hp Hmx Hmy.
  pose proof quo_floor_large. unfold quo_mant.
  assert (2 ^ (p + 1) ≤ mx * 2 ^ k / my) by (apply Z.div_le_lower_bound; lia).
  replace (p + 2) with (Z.succ (p + 1)) by lia. rewrite Z.pow_succ_r by lia.
  case_match; lia.
Qed.

Lemma quo_mant_pos : 0 < quo_mant p mx my.
Proof using Hp Hmx Hmy.
  pose proof quo_mant_large. assert (0 < 2 ^ (p + 2)) by (apply Z.pow_pos_nonneg; lia). lia.
Qed.

(** A threshold of at most [p] bits, and the exact quotient, compare as the
    threshold and the mantissa that is rounded. *)
Lemma quo_mant_ge c j :
  0 ≤ c < 2 ^ p → (dyad c j * dyad my ey <= dyad mx ex)%Q →
  (dyad c j <= dyad (quo_mant p mx my) E)%Q.
Proof using Hp Hmx Hmy.
  intros Hc Hle. assert (0 ≤ k) by apply quo_shift_nonneg.
  destruct (Z.le_gt_cases (E + 1) j) as [Hj|Hj].
  - rewrite (dyad_to c j E), dyad_le_same by lia.
    rewrite <- dyad_mul, (dyad_to _ (j + ey) (ex - k)), (dyad_to mx ex (ex - k)),
      dyad_le_same in Hle by lia.
    replace (ex - (ex - k)) with k in Hle by lia.
    replace (j + ey - (ex - k)) with (j - (E + 1)) in Hle by lia.
    replace (j - E) with (Z.succ (j - (E + 1))) by lia. rewrite Z.pow_succ_r by lia.
    set (T := 2 ^ (j - (E + 1))) in *. unfold quo_mant.
    assert (c * T ≤ mx * 2 ^ k / my) by (apply Z.div_le_lower_bound; lia).
    case_match; lia.
  - apply Qle_trans with (dyad (2 ^ p) j); [rewrite dyad_le_same; lia|].
    apply Qle_trans with (dyad (2 ^ p) E).
    + apply dyad_exp_mono; [apply Z.pow_nonneg; lia|lia].
    + rewrite dyad_le_same. pose proof quo_mant_large.
      etransitivity; [|done]. apply Z.pow_le_mono_r; lia.
Qed.

Lemma quo_mant_le c j :
  0 ≤ c < 2 ^ p → (dyad mx ex <= dyad c j * dyad my ey)%Q →
  (dyad (quo_mant p mx my) E <= dyad c j)%Q.
Proof using Hp Hmx Hmy.
  intros Hc Hle. assert (0 ≤ k) by apply quo_shift_nonneg.
  destruct (Z.le_gt_cases (E + 1) j) as [Hj|Hj].
  - rewrite (dyad_to c j E), dyad_le_same by lia.
    rewrite <- dyad_mul, (dyad_to _ (j + ey) (ex - k)), (dyad_to mx ex (ex - k)),
      dyad_le_same in Hle by lia.
    replace (ex - (ex - k)) with k in Hle by lia.
    replace (j + ey - (ex - k)) with (j - (E + 1)) in Hle by lia.
    replace (j - E) with (Z.succ (j - (E + 1))) by lia. rewrite Z.pow_succ_r by lia.
    set (T := 2 ^ (j - (E + 1))) in *. unfold quo_mant. set (N := mx * 2 ^ k) in *.
    pose proof (Z.div_mod N my ltac:(lia)). pose proof (Z.mod_pos_bound N my Hmy).
    destruct (Z.eqb_spec (N mod my) 0); nia.
  - exfalso. apply (Qle_not_lt _ _ Hle). rewrite <- dyad_mul.
    set (i := Z.min (j + ey) (ex - k)).
    apply Qlt_le_trans with (dyad (2 ^ p * my) (ex - k)).
    + apply Qlt_le_trans with (dyad (2 ^ p * my) (j + ey)).
      * rewrite dyad_lt_same. nia.
      * apply dyad_exp_mono; [|lia].
        apply Z.mul_nonneg_nonneg; [apply Z.pow_nonneg|]; lia.
    + rewrite (dyad_to mx ex (ex - k)), dyad_le_same by lia.
      replace (ex - (ex - k)) with k by lia.
      etransitivity; [|apply quo_floor_large].
      apply Z.mul_le_mono_nonneg_r; [lia|]. apply Z.pow_le_mono_r; lia.
Qed.
End quotient.

(** ** The rate of two totals *)

(** [rate, _ := new(big.Float).Quo(w, d).Float64()] *)
Definition rate_of (w d : Float) : Go ExtFloat :=
  q ← Quo newFloat w d; Ret (Float64 q).

Definition ext_ge (r : ExtFloat) (c j : Z) : Prop :=
  match r with InfF neg => neg = false | FinF f => (dyad c j <= toQ f)%Q end.
Definition ext_le (r : ExtFloat) (c j : Z) : Prop :=
  match r with InfF _ => False | FinF f => (toQ f <= dyad c j)%Q end.

Lemma dyad_1_le_bitlen m e k :
  0 < m → (dyad 1 k <= dyad m e)%Q → k + 1 ≤ bitlen m + e.
Proof.
  intros Hm Hle. destruct (Z.le_gt_cases (k + 1) (bitlen m + e)) as [|Hgt]; [done|].
  exfalso. apply (Qle_not_lt _ _ Hle).
  pose proof (bitlen_bounds m Hm) as [_ Hb]. pose proof (bitlen_nonneg m).
  apply Qlt_le_trans with (dyad (2 ^ bitlen m) e); [by rewrite dyad_lt_same|].
  rewrite (dyad_to 1 k e), dyad_le_same by lia. rewrite Z.mul_1_l.
  apply Z.pow_le_mono_r; lia.
Qed.

Lemma Float64_ge m e c j :
  0 < m → 0 ≤ c < 2 ^ 53 → (dyad 1 0 <= dyad c j)%Q →
  (dyad c j <= dyad m e)%Q → ext_ge (Float64_fin m e) c j.
Proof.
  intros Hm Hc H1 Hle. unfold Float64_fin, f64_prec.
  pose proof (dyad_1_le_bitlen m e 0 Hm (Qle_trans _ _ _ H1 Hle)) as Hb.
  rewrite Z.abs_eq by lia.
  destruct (Z.ltb_spec (bitlen m + e) (-1021)); [lia|].
  pose proof (rnd_ge 53 m e c j ltac:(lia) Hm Hc Hle) as Hr.
  destruct (rnd 53 m e) as [m' e']. simpl in Hr.
  case_match; simpl; [by apply Z.ltb_ge; lia|done].
Qed.

Lemma Float64_le m e c j :
  0 < m → 0 ≤ c < 2 ^ 53 → (dyad 1 0 <= dyad c j)%Q → (dyad c j < dyad 1 1024)%Q →
  (dyad m e <= dyad c j)%Q → ext_le (Float64_fin m e) c j.
Proof.
  intros Hm Hc H1 Hmax Hle. unfold Float64_fin, f64_prec. rewrite Z.abs_eq by lia.
  set (p := if bitlen m + e <? -1021 then bitlen m + e + 1074 else 53).
  assert (dyad (rnd p m e).1 (rnd p m e).2 <= dyad c j)%Q as Hr.
  { subst p. destruct (Z.ltb_spec (bitlen m + e) (-1021)) as [Hsmall|]; [|by apply rnd_le].
    eapply Qle_trans; [|exact H1]. apply rnd_le_pow2; [done| |lia].
    apply Qle_trans with (dyad (2 ^ bitlen m) e).
    - rewrite dyad_le_same. pose proof (bitlen_bounds m Hm). lia.
    - pose proof (bitlen_nonneg m).
      rewrite (dyad_to 1 0 e), dyad_le_same, Z.mul_1_l by lia. apply Z.pow_le_mono_r; lia. }
  pose proof (rnd_nonneg p m e ltac:(lia)) as Hnn.
  destruct (rnd p m e) as [m' e']. simpl in *.
  rewrite Z.abs_eq by done.
  destruct (Z.ltb_spec 1024 (bitlen m' + e')) as [Hov|]; simpl; [|done].
  destruct (Z.eqb_spec m' 0); simpl; [done|].
  assert (0 < m') as Hpos by lia.
  apply (Qle_not_lt _ _ Hr). eapply Qlt_le_trans; [exact Hmax|].
  pose proof (bitlen_bounds m' Hpos) as [Hb _]. pose proof (bitlen_pos m' Hpos).
  set (i := Z.min 1024 e').
  rewrite (dyad_to 1 1024 i), (dyad_to m' e' i), dyad_le_same, Z.mul_1_l by lia.
  etransitivity; [|apply Z.mul_le_mono_nonneg_r; [apply Z.pow_nonneg; lia|exact Hb]].
  rewrite <- Z.pow_add_r by lia. apply Z.pow_le_mono_r; lia.
Qed.

(** The computed rate is on the same side of every threshold [c * 2 ^ j] in
    [1, 2 ^ 1024) of at most 53 bits as the exact quotient of the totals: neither
    the rounding of the quotient nor the conversion to [float64] crosses one. *)
Section rate.
Context (w d : Float) (c j : Z).
Context (Hw : 0 < f_mant w) (Hd : 0 < f_mant d).
Context (Hprec : 53 ≤ op_prec newFloat w d).
Context (Hc : 0 ≤ c < 2 ^ 53) (Hone : (dyad 1 0 <= dyad c j)%Q).
#[local] Abbreviation p := (op_prec newFloat w d).

Lemma rate_of_pos :
  rate_of w d = Ret (let '(m, e) := rnd p (quo_mant p (f_mant w) (f_mant d))
      (f_exp w - f_exp d - quo_shift p (f_mant w) (f_mant d) - 1) in Float64_fin m e).
Proof using Hw Hd.
  unfold rate_of, Quo. destruct (Z.eqb_spec (f_mant d) 0); [lia|].
  rewrite !Z.abs_eq, !Z.sgn_pos, quo_pos_eq by lia.
  destruct (rnd _ _ _) as [m e]. simpl. by rewrite Z.mul_1_l.
Qed.

Lemma c_fits : 0 ≤ c < 2 ^ p.
Proof using Hc Hprec.
  split; [lia|]. apply Z.lt_le_trans with (2 ^ 53); [lia|]. apply Z.pow_le_mono_r; lia.
Qed.

Lemma rate_ge :
  (dyad c j * toQ d <= toQ w)%Q → ∃ r, rate_of w d = Ret r ∧ ext_ge r c j.
Proof using All.
  intros Hle. rewrite rate_of_pos. eexists; split; [reflexivity|].
  pose proof c_fits as Hcp.
  pose proof (quo_mant_ge p (f_mant w) (f_exp w) (f_mant d) (f_exp d)
    ltac:(lia) Hw Hd c j Hcp Hle) as Hq.
  pose proof (quo_mant_pos p (f_mant w) (f_mant d) ltac:(lia) Hw Hd) as Hpos.
  pose proof (rnd_ge p _ _ c j ltac:(lia) Hpos Hcp Hq) as Hr.
  pose proof (rnd_nonneg p _ (f_exp w - f_exp d - quo_shift p (f_mant w) (f_mant d) - 1)
    (Z.lt_le_incl _ _ Hpos)) as Hnn.
  destruct (rnd p _ _) as [m e]. simpl in *.
  apply Float64_ge; try done.
  destruct (Z.eq_dec m 0) as [->|]; [|lia]. exfalso.
  apply (Qle_not_lt _ _ (Qle_trans _ _ _ Hone Hr)).
  unfold dyad. rewrite Qmult_0_l. reflexivity.
Qed.

Lemma rate_le :
  (dyad c j < dyad 1 1024)%Q → (toQ w <= dyad c j * toQ d)%Q →
  ∃ r, rate_of w d = Ret r ∧ ext_le r c j.
Proof using All.
  intros Hmax Hle. rewrite rate_of_pos. eexists; split; [reflexivity|].
  pose proof c_fits as Hcp.
  pose proof (quo_mant_le p (f_mant w) (f_exp w) (f_mant d) (f_exp d)
    ltac:(lia) Hw Hd c j Hcp Hle) as Hq.
  pose proof (quo_mant_pos p (f_mant w) (f_mant d) ltac:(lia) Hw Hd) as Hpos.
  pose proof (rnd_le p _ _ c j Hpos Hcp Hq) as Hr.
  pose proof (rnd_nonneg p _ (f_exp w - f_exp d - quo_shift p (f_mant w) (f_mant d) - 1)
    (Z.lt_le_incl _ _ Hpos)) as Hnn.
  destruct (rnd p _ _) as [m e]. simpl in *.
  destruct (Z.eq_dec m 0) as [->|].
  - unfold Float64_fin. pose proof (rnd_zero (f64_prec 0 e) e) as Hz.
    destruct (rnd _ 0 e) as [m' e']. simpl in Hz. subst m'. rewrite andb_false_r.
    unfold ext_le, toQ. simpl. apply Qle_trans with (dyad 0 e); [|done].
    unfold dyad. rewrite !Qmult_0_l. apply Qle_refl.
  - apply Float64_le; try done. lia.
Qed.
End rate.

(** ** Exactness and relative error *)

Lemma rnd_exact_Q p m e :
  1 ≤ p → 0 ≤ m ≤ 2 ^ p → (dyad (rnd p m e).1 (rnd p m e).2 == dyad m e)%Q.
Proof.
  intros Hp Hm. destruct (Z.eq_dec m 0) as [->|Hm0].
  { rewrite rnd_zero. unfold dyad. by rewrite !Qmult_0_l. }
  assert (∃ k j, 0 ≤ k < 2 ^ p ∧ (dyad k j == dyad m e)%Q) as (k & j & Hk & Heq).
  { destruct (Z.eq_dec m (2 ^ p)) as [->|].
    - exists 1, (e + p). split.
      + split; [lia|]. apply Z.lt_le_trans with (2 ^ 1); [done|]. apply Z.pow_le_mono_r; lia.
      + rewrite (dyad_to 1 (e + p) e), Z.mul_1_l by lia.
        by replace (e + p - e) with p by lia.
    - by exists m, e; split; [lia|]. }
  rewrite <- Heq. apply Qle_antisym.
  - apply rnd_le; [lia|done|]. rewrite Heq. apply Qle_refl.
  - apply rnd_ge; [lia|lia|done|]. rewrite Heq. apply Qle_refl.
Qed.

Lemma SetInt_exact x : 0 ≤ x → (toQ (SetInt x) == inject_Z x)%Q.
Proof.
  intros Hx. unfold SetInt, mk_rounded, umax32. rewrite Z.abs_eq by done.
  rewrite Z.gtb_ltb. rewrite rnd_exact.
  - unfold toQ, dyad. simpl. rewrite Qmult_1_r. reflexivity.
  - rewrite Z.abs_eq by done. destruct (Z.ltb_spec 64 (bitlen x)); lia.
Qed.

(** The unit roundoff of precision [p]. *)
Definition roundoff (p : Z) : Q := ((2 # 1) ^ (- p))%Q.

Lemma round_even_near a s :
  0 < s → 0 ≤ a → Z.abs (round_even a s * 2 ^ s - a) ≤ 2 ^ (s - 1).
Proof.
  intros Hs Ha. unfold round_even.
  assert (2 ^ s = 2 * 2 ^ (s - 1)) as Hp
    by (rewrite <- Z.pow_succ_r by lia; f_equal; lia).
  assert (0 < 2 ^ (s - 1)) by (apply Z.pow_pos_nonneg; lia).
  pose proof (Z.div_mod a (2 ^ s) ltac:(lia)) as Hdm.
  pose proof (Z.mod_pos_bound a (2 ^ s) ltac:(lia)) as Hr.
  set (q := a / 2 ^ s) in *. set (r := a mod 2 ^ s) in *.
  destruct (Z.ltb_spec (2 ^ (s - 1)) r); simpl; [nia|].
  destruct (Z.eqb_spec r (2 ^ (s - 1))); simpl; [destruct (Z.odd q)|]; nia.
Qed.

(** Rounding a positive value to [p] bits changes it by a factor within
    [1 - 2^-p, 1 + 2^-p]. *)
Lemma rnd_relative p m e :
  1 ≤ p → 0 ≤ m →
  (dyad m e * (1 - roundoff p) <= dyad (rnd p m e).1 (rnd p m e).2)%Q ∧
  (dyad (rnd p m e).1 (rnd p m e).2 <= dyad m e * (1 + roundoff p))%Q.
Proof.
  intros Hp Hm0.
  assert (0 < roundoff p)%Q as Hu by apply two_pow_pos.
  destruct (Z.eq_dec m 0) as [->|Hne].
  { rewrite rnd_zero. unfold dyad. rewrite !Qmult_0_l. split; apply Qle_refl. }
  assert (0 < m) as Hm by lia. rewrite rnd_pos by done.
  assert (0 <= dyad m e)%Q as Hd.
  { apply Qmult_le_0_compat; [by rewrite <- (Zle_Qle 0)|apply Qlt_le_weak, two_pow_pos]. }
  destruct (Z.leb_spec (bitlen m - p) 0) as [|Hs]; simpl; [nra|].
  set (s := bitlen m - p) in *.
  assert (dyad m e * roundoff p == dyad m (e - p))%Q as Hmr.
  { unfold dyad, roundoff. replace (e - p) with (e + - p) by lia.
    rewrite Qpower_plus by discriminate. ring. }
  assert (dyad (2 ^ (s - 1)) e <= dyad m (e - p))%Q as Hhalf.
  { rewrite (dyad_to _ e (e - p)), dyad_le_same by lia.
    pose proof (bitlen_bounds m Hm) as [Hb _].
    rewrite <- Z.pow_add_r by lia.
    by replace (s - 1 + (e - (e - p))) with (bitlen m - 1) by lia. }
  pose proof (round_even_near m s Hs ltac:(lia)) as Hn.
  assert (dyad (round_even m s) (e + s) == dyad (round_even m s * 2 ^ s) e)%Q as Hv.
  { rewrite (dyad_to _ (e + s) e) by lia. by replace (e + s - e) with s by lia. }
  rewrite Hv.
  assert (dyad (round_even m s * 2 ^ s) e <= dyad (m + 2 ^ (s - 1)) e)%Q as H1
    by (rewrite dyad_le_same; lia).
  assert (dyad m e <= dyad (round_even m s * 2 ^ s + 2 ^ (s - 1)) e)%Q as H2
    by (rewrite dyad_le_same; lia).
  rewrite dyad_add in H1. rewrite dyad_add in H2. split; lra.
Qed.

Lemma toQ_mk_rounded p m e : toQ (mk_rounded p m e) = dyad (rnd p m e).1 (rnd p m e).2.
Proof. unfold mk_rounded. by destruct (rnd p m e). Qed.

Lemma f_prec_mk_rounded p m e : f_prec (mk_rounded p m e) = p.
Proof. unfold mk_rounded. by destruct (rnd p m e). Qed.

Lemma f_mant_mk_rounded p m e : f_mant (mk_rounded p m e) = (rnd p m e).1.
Proof. unfold mk_rounded. by destruct (rnd p m e). Qed.

(** The exact sum and product that [Add] and [Mul] round. *)
Lemma Add_sum x y :
  let i := Z.min (f_exp x) (f_exp y) in
  (dyad (f_mant x * 2 ^ (f_exp x - i) + f_mant y * 2 ^ (f_exp y - i)) i == toQ x + toQ y)%Q.
Proof.
  intros i. rewrite dyad_add. unfold toQ.
  rewrite (dyad_to (f_mant x) (f_exp x) i), (dyad_to (f_mant y) (f_exp y) i) by lia.
  reflexivity.
Qed.

Lemma Add_relative z x y :
  1 ≤ op_prec z x y → 0 ≤ f_mant x → 0 ≤ f_mant y →
  ((toQ x + toQ y) * (1 - roundoff (op_prec z x y)) <= toQ (Add z x y))%Q ∧
  (toQ (Add z x y) <= (toQ x + toQ y) * (1 + roundoff (op_prec z x y)))%Q.
Proof.
  intros Hp Hx Hy. unfold Add. rewrite toQ_mk_rounded, <- !Add_sum.
  apply rnd_relative; [done|].
  apply Z.add_nonneg_nonneg; apply Z.mul_nonneg_nonneg; auto; apply Z.pow_nonneg; lia.
Qed.

Lemma Add_nonneg z x y : 0 ≤ f_mant x → 0 ≤ f_mant y → 0 ≤ f_mant (Add z x y).
Proof.
  intros. unfold Add. rewrite f_mant_mk_rounded. apply rnd_nonneg.
  apply Z.add_nonneg_nonneg; apply Z.mul_nonneg_nonneg; auto; apply Z.pow_nonneg; lia.
Qed.

Lemma Add_prec z x y : f_prec (Add z x y) = op_prec z x y.
Proof. apply f_prec_mk_rounded. Qed.

Lemma SetInt_nonneg x : 0 ≤ x → 0 ≤ f_mant (SetInt x).
Proof. intros. unfold SetInt. rewrite f_mant_mk_rounded. by apply rnd_nonneg. Qed.

Lemma SetInt_prec x : 64 ≤ f_prec (SetInt x).
Proof.
  unfold SetInt, umax32. rewrite f_prec_mk_rounded, Z.gtb_ltb.
  destruct (Z.ltb_spec 64 (bitlen (Z.abs x))); lia.
Qed.

Lemma newFloat_val : (toQ newFloat == 0)%Q.
Proof. reflexivity. Qed.

Lemma toQ_nonneg x : 0 ≤ f_mant x → (0 <= toQ x)%Q.
Proof.
  intros. apply Qmult_le_0_compat; [by rewrite <- (Zle_Qle 0)|apply Qlt_le_weak, two_pow_pos].
Qed.

Lemma toQ_pos x : 0 < f_mant x ↔ (0 < toQ x)%Q.
Proof.
  unfold toQ.
  assert (dyad 0 (f_exp x) == 0)%Q as E by (unfold dyad; by rewrite Qmult_0_l).
  rewrite <- E, dyad_lt_same. done.
Qed.

#[export] Hint Resolve Add_nonneg SetInt_nonneg toQ_nonneg : idw.

(** ** Products with a float64 constant

    [float64(c) > float64(n) * k], each operation rounded to 53 bits. *)
Definition f64_gt_scaled (c n : Z) (k : float64) : bool :=
  let '(mn, en) := rnd 53 n 0 in
  let '(mp, ep) := rnd 53 (mn * d_mant k) (en + d_exp k) in
  let '(mc, ec) := rnd 53 c 0 in
  match cmp_at mc ec mp ep with Gt => true | _ => false end.

(** The doubles nearest to 0.8 and 0.9. *)
Definition f64_0_8 : float64 := mkF64 7205759403792794 (-53).
Definition f64_0_9 : float64 := mkF64 8106479329266893 (-53).

Lemma small_exact c : 0 ≤ c < 2 ^ 53 → rnd 53 c 0 = (c, 0).
Proof. intros. apply rnd_exact. apply bitlen_le; [lia|]. rewrite Z.abs_eq; lia. Qed.

(** The constant is just above [num / den], and the test decides the exact
    comparison for counts below [2 ^ 49]. *)
Lemma f64_gt_scaled_spec num den M c n :
  0 < den ≤ 10 → 0 < num → den * M = num * 2 ^ 53 + 2 →
  0 ≤ c < 2 ^ 49 → 0 ≤ n < 2 ^ 49 →
  f64_gt_scaled c n (mkF64 M (-53)) = (den * c >? num * n).
Proof.
  intros Hden Hnum HM Hc Hn. unfold f64_gt_scaled. rewrite !small_exact by lia.
  cbn [d_mant d_exp]. replace (0 + -53) with (-53) by lia.
  assert (0 < M) by nia.
  destruct (Z.eq_dec n 0) as [->|Hn0].
  { rewrite Z.mul_0_l. pose proof (rnd_zero 53 (-53)) as Hz.
    destruct (rnd 53 0 (-53)) as [mp ep]. simpl in Hz. subst mp.
    rewrite Z.mul_0_r. unfold cmp_at. rewrite Z.mul_0_l.
    set (P := 2 ^ (0 - Z.min 0 ep)). assert (0 < P) by (apply Z.pow_pos_nonneg; lia).
    destruct (Z.compare_spec (c * P) 0); destruct (Z.gtb_spec (den * c) 0); nia. }
  assert (0 < n * M) as HP by nia.
  pose proof (rnd_ge 53 (n * M) (-53) c 0 ltac:(lia) HP ltac:(lia)) as Hge.
  pose proof (rnd_le 53 (n * M) (-53) (16 * c - 1) (-4) HP) as Hle.
  destruct (rnd 53 (n * M) (-53)) as [mp ep]. simpl in Hge, Hle.
  destruct (Z.gtb_spec (den * c) (num * n)) as [Hgt|Hng].
  - assert (cmp_at c 0 mp ep = Gt) as ->; [|done].
    apply cmp_at_gt. eapply Qle_lt_trans; [apply Hle; [nia|]|].
    + rewrite (dyad_to (16 * c - 1) (-4) (-53)), dyad_le_same by lia.
      change (2 ^ (-4 - -53)) with (2 ^ 49). nia.
    + rewrite (dyad_to c 0 (-4)), dyad_lt_same by lia. change (2 ^ (0 - -4)) with 16. lia.
  - assert (cmp_at c 0 mp ep ≠ Gt) as Hcmp.
    { apply cmp_at_le, Hge. rewrite (dyad_to c 0 (-53)), dyad_le_same by lia.
      change (2 ^ (0 - -53)) with (2 ^ 53). nia. }
    by destruct (cmp_at c 0 mp ep).
Qed.

Lemma f64_gt_0_8 c n :
  0 ≤ c < 2 ^ 49 → 0 ≤ n < 2 ^ 49 → f64_gt_scaled c n f64_0_8 = (5 * c >? 4 * n).
Proof. intros. by apply f64_gt_scaled_spec. Qed.

Lemma f64_gt_0_9 c n :
  0 ≤ c < 2 ^ 49 → 0 ≤ n < 2 ^ 49 → f64_gt_scaled c n f64_0_9 = (10 * c >? 9 * n).
Proof. intros. by apply f64_gt_scaled_spec. Qed.
