(* ===== verification/Common.v ===== *)
(** * common: addresses, hashes and their hexadecimal text

    [common/types.go], [common/bytes.go] and the functions of the standard
    packages [encoding/hex] and [strings] they are used with.  An [Address] (20
    bytes) and a [Hash] (32 bytes) are the big-endian numbers of their bytes;
    byte slices are lists of integers in [0, 256). *)

From S2P Require Import Prelude.

Abbreviation Address := Z.
Abbreviation Hash := Z.
Abbreviation bytes := (list Z).

Definition AddressLength : nat := 20.
Definition HashLength : nat := 32.

Definition is_byte (b : Z) : Prop := 0 ≤ b < 256.
Definition is_address (a : Address) : Prop := 0 ≤ a < 2 ^ 160.
Definition is_hash (h : Hash) : Prop := 0 ≤ h < 2 ^ 256.

(** ** Big-endian numbers *)

Definition be_val (l : bytes) : Z := foldl (λ acc b, acc * 256 + b) 0 l.

Fixpoint to_be (n : nat) (x : Z) : bytes :=
  match n with
  | O => []
  | S n' => to_be n' (x / 256) ++ [x mod 256]
  end.

Lemma be_val_app l1 l2 : be_val (l1 ++ l2) = be_val l1 * 256 ^ Z.of_nat (length l2) + be_val l2.
Proof.
  unfold be_val. rewrite foldl_app. generalize (foldl (λ acc b, acc * 256 + b) 0 l1).
  induction l2 as [|b l2 IH] using rev_ind; intros v.
  - simpl. lia.
  - rewrite !foldl_app, length_app. simpl. rewrite IH.
    replace (Z.of_nat (length l2 + 1)) with (Z.succ (Z.of_nat (length l2))) by lia.
    rewrite Z.pow_succ_r by lia. lia.
Qed.

Lemma to_be_length n x : length (to_be n x) = n.
Proof. revert x; induction n; intros x; simpl; [done|]. rewrite length_app, IHn. simpl. lia. Qed.

Lemma to_be_bytes n x : Forall is_byte (to_be n x).
Proof.
  revert x; induction n; intros x; simpl; [constructor|].
  apply Forall_app; split; [done|]. repeat constructor; apply Z.mod_pos_bound; lia.
Qed.

Lemma be_val_to_be n x : be_val (to_be n x) = x mod 256 ^ Z.of_nat n.
Proof.
  revert x; induction n as [|n IH]; intros x.
  - cbn. by rewrite Z.mod_1_r.
  - cbn [to_be]. rewrite be_val_app, IH. change (be_val [x mod 256]) with (x mod 256).
    change (256 ^ Z.of_nat (length [x mod 256])) with 256.
    rewrite Nat2Z.inj_succ, Z.pow_succ_r by lia.
    assert (0 < 256 ^ Z.of_nat n) by (apply Z.pow_pos_nonneg; lia).
    rewrite (Z.rem_mul_r x 256 (256 ^ Z.of_nat n)) by lia. lia.
Qed.

Lemma be_val_bound l : Forall is_byte l → 0 ≤ be_val l < 256 ^ Z.of_nat (length l).
Proof.
  induction l as [|b l IH] using rev_ind; intros Hl; [done|].
  apply Forall_app in Hl as [Hl [Hb _]%Forall_cons].
  rewrite be_val_app, length_app.
  change (be_val [b]) with b. change (256 ^ Z.of_nat (length [b])) with 256.
  change (length [b]) with 1%nat.
  replace (Z.of_nat (length l + 1)) with (Z.succ (Z.of_nat (length l))) by lia.
  rewrite Z.pow_succ_r by lia. unfold is_byte in Hb. specialize (IH Hl). lia.
Qed.

Lemma to_be_be_val l : Forall is_byte l → to_be (length l) (be_val l) = l.
Proof.
  induction l as [|b l IH] using rev_ind; intros Hl; [done|].
  apply Forall_app in Hl as [Hl [Hb _]%Forall_cons].
  rewrite length_app, Nat.add_1_r. cbn [to_be]. rewrite be_val_app.
  change (be_val [b]) with b. change (256 ^ Z.of_nat (length [b])) with 256.
  unfold is_byte in Hb.
  rewrite Z.div_add_l by lia. rewrite Z.div_small, Z.add_0_r, IH by done.
  rewrite Z.add_comm, Z.mod_add, Z.mod_small by lia. done.
Qed.

(** [big.Int.BitLen] *)
Definition big_BitLen (x : Z) : Z := if x =? 0 then 0 else Z.log2 (Z.abs x) + 1.

Lemma big_BitLen_le x n : 0 ≤ n → big_BitLen x ≤ n ↔ Z.abs x < 2 ^ n.
Proof.
  intros Hn. unfold big_BitLen. destruct (Z.eqb_spec x 0) as [->|Hx].
  - split; [|done]. intros _. cbn. by apply Z.pow_pos_nonneg.
  - rewrite Z.log2_lt_pow2 by lia. lia.
Qed.

(** [big.Int.Uint64]: the low bits of the absolute value. *)
Definition big_Uint64 (x : Z) : Z := wrapU 64 (Z.abs x).

(** ** Conversions from bytes *)

(** The bytes [SetBytes] keeps: the last [n], left-padded by zeros. *)
Definition crop_left (n : nat) (b : bytes) : bytes :=
  if decide (n < length b)%nat then drop (length b - n) b else b.

Definition BytesToAddress (b : bytes) : Address := be_val (crop_left AddressLength b).
Definition BytesToHash (b : bytes) : Hash := be_val (crop_left HashLength b).
Definition Address_Bytes (a : Address) : bytes := to_be AddressLength a.
Definition Hash_Bytes (h : Hash) : bytes := to_be HashLength h.

(** [RightPadBytes]: zeros up to a length of [l]. *)
Definition RightPadBytes (slice : bytes) (l : Z) : bytes :=
  if l <=? Z.of_nat (length slice) then slice
  else slice ++ replicate (Z.to_nat l - length slice) 0.

(** [LeftPadBytes] *)
Definition LeftPadBytes (s : bytes) (l : nat) : bytes :=
  if decide (l <= length s)%nat then s else replicate (l - length s) 0 ++ s.

(** ** Hexadecimal text *)

Definition chr (x : Z) : Ascii.ascii := Ascii.ascii_of_N (Z.to_N x).
Definition code (c : Ascii.ascii) : Z := Z.of_N (Ascii.N_of_ascii c).

Definition hexdigit (d : Z) : Ascii.ascii := if d <? 10 then chr (48 + d) else chr (87 + d).

(** [hex.EncodeToString] *)
Fixpoint EncodeToString (b : bytes) : string :=
  match b with
  | [] => ""
  | x :: b' => String (hexdigit (x / 16)) (String (hexdigit (x mod 16)) (EncodeToString b'))
  end.

Definition fromHexChar (c : Ascii.ascii) : option Z :=
  let x := code c in
  if (48 <=? x) && (x <=? 57) then Some (x - 48)
  else if (97 <=? x) && (x <=? 102) then Some (x - 87)
  else if (65 <=? x) && (x <=? 70) then Some (x - 55)
  else None.

(** [hex.DecodeString], keeping the bytes decoded before an error. *)
Fixpoint DecodeString (s : string) : bytes :=
  match s with
  | String c1 (String c2 s') =>
      match fromHexChar c1, fromHexChar c2 with
      | Some h, Some l => (h * 16 + l) :: DecodeString s'
      | _, _ => []
      end
  | _ => []
  end.

Definition Hex2Bytes (s : string) : bytes := DecodeString s.

Definition has0xPrefix (s : string) : bool :=
  match s with
  | String c1 (String c2 _) => (code c1 =? 48) && ((code c2 =? 120) || (code c2 =? 88))
  | _ => false
  end.

(** [s\[2:\]], for a string of at least two bytes. *)
Definition strip2 (s : string) : string :=
  match s with String _ (String _ s') => s' | _ => "" end.

Definition FromHex (s : string) : bytes :=
  let s := if has0xPrefix s then strip2 s else s in
  let s := if Nat.odd (String.length s) then String (chr 48) s else s in
  Hex2Bytes s.

Definition HexToAddress (s : string) : Address := BytesToAddress (FromHex s).
Definition HexToHash (s : string) : Hash := BytesToHash (FromHex s).

(** [hexutil.Encode] *)
Definition Encode (b : bytes) : string := String.append "0x" (EncodeToString b).

Definition Hash_Hex (h : Hash) : string := Encode (Hash_Bytes h).
Definition Hash_String (h : Hash) : string := Hash_Hex h.

Definition Address_hex (a : Address) : string := String.append "0x" (EncodeToString (Address_Bytes a)).

(** [strings.ToLower] and [strings.Contains], on ASCII text. *)
Definition lower_char (c : Ascii.ascii) : Ascii.ascii :=
  let x := code c in if (65 <=? x) && (x <=? 90) then chr (x + 32) else c.

Fixpoint ToLower (s : string) : string :=
  match s with
  | EmptyString => EmptyString
  | String c s' => String (lower_char c) (ToLower s')
  end.

Fixpoint Contains (s sub : string) : bool :=
  String.prefix sub s || match s with EmptyString => false | String _ s' => Contains s' sub end.

(** The EIP-55 checksum: [keccak256] (golang.org/x/crypto/sha3) is a parameter. *)
Section checksum.
Context (keccak256 : bytes → bytes).

Fixpoint str_bytes (s : string) : bytes :=
  match s with EmptyString => [] | String c s' => code c :: str_bytes s' end.

Definition nibble (hash : bytes) (i : nat) : Z :=
  let hashByte := default 0 (hash !! (i / 2)%nat) in
  if Nat.even i then Z.shiftr hashByte 4 else Z.land hashByte 15.

Fixpoint checksum_loop (hash : bytes) (i : nat) (s : string) : string :=
  match s with
  | EmptyString => EmptyString
  | String c s' =>
      String (if (57 <? code c) && (7 <? nibble hash i) then chr (code c - 32) else c)
             (checksum_loop hash (S i) s')
  end.

Definition checksumHex (a : Address) : string :=
  let buf := Address_hex a in
  let hash := keccak256 (str_bytes (strip2 buf)) in
  String.append "0x" (checksum_loop hash 0 (strip2 buf)).

Definition Address_String (a : Address) : string := checksumHex a.
End checksum.

(** ** Facts *)

Lemma code_chr x : 0 ≤ x < 256 → code (chr x) = x.
Proof.
  intros. unfold code, chr. rewrite Ascii.N_ascii_embedding by lia. lia.
Qed.

Lemma code_bound c : 0 ≤ code c < 256.
Proof. unfold code. pose proof (Ascii.N_ascii_bounded c). lia. Qed.

Lemma chr_code c : chr (code c) = c.
Proof. unfold chr, code. by rewrite N2Z.id, Ascii.ascii_N_embedding. Qed.

Lemma hexdigit_code d : 0 ≤ d < 16 → code (hexdigit d) = if d <? 10 then 48 + d else 87 + d.
Proof. intros. unfold hexdigit. case_match; apply code_chr; lia. Qed.

Lemma fromHexChar_hexdigit d : 0 ≤ d < 16 → fromHexChar (hexdigit d) = Some d.
Proof.
  intros. unfold fromHexChar. rewrite hexdigit_code by done.
  destruct (Z.ltb_spec d 10).
  - rewrite (proj2 (Z.leb_le 48 _)), (proj2 (Z.leb_le _ 57)) by lia. simpl. f_equal. lia.
  - rewrite (proj2 (Z.leb_le 48 _)), (proj2 (Z.leb_gt _ 57)) by lia. simpl.
    rewrite (proj2 (Z.leb_le 97 _)), (proj2 (Z.leb_le _ 102)) by lia. simpl. f_equal. lia.
Qed.

Lemma DecodeString_EncodeToString b : Forall is_byte b → DecodeString (EncodeToString b) = b.
Proof.
  induction 1 as [|x b Hx Hb IH]; simpl; [done|]. unfold is_byte in Hx.
  rewrite !fromHexChar_hexdigit, IH.
  - f_equal. pose proof (Z.div_mod x 16). lia.
  - apply Z.mod_pos_bound. lia.
  - split; [apply Z.div_pos|apply Z.div_lt_upper_bound]; lia.
Qed.

Lemma EncodeToString_length b : String.length (EncodeToString b) = (2 * length b)%nat.
Proof. induction b as [|x b IH]; simpl; [done|]. rewrite IH. lia. Qed.

Lemma FromHex_Encode b : Forall is_byte b → FromHex (Encode b) = b.
Proof.
  intros Hb. unfold FromHex, Encode.
  change (has0xPrefix (String.append "0x" (EncodeToString b))) with true.
  change (strip2 (String.append "0x" (EncodeToString b))) with (EncodeToString b).
  cbv beta iota zeta. rewrite EncodeToString_length, Nat.odd_mul. simpl (Nat.odd 2). cbn [andb].
  by apply DecodeString_EncodeToString.
Qed.

(** Hexadecimal digits are lower-case, and the checksum only raises letters. *)
Lemma lower_hexdigit d : 0 ≤ d < 16 → lower_char (hexdigit d) = hexdigit d.
Proof.
  intros. unfold lower_char. rewrite hexdigit_code by done.
  destruct (Z.ltb_spec d 10).
  - by rewrite (proj2 (Z.leb_gt 65 _)) by lia.
  - by rewrite (proj2 (Z.leb_gt _ 90)), andb_false_r by lia.
Qed.

Lemma lower_raised d hash i :
  0 ≤ d < 16 →
  lower_char (if (57 <? code (hexdigit d)) && (7 <? nibble hash i)
              then chr (code (hexdigit d) - 32) else hexdigit d) = hexdigit d.
Proof.
  intros Hd. case_match eqn:E; [|by apply lower_hexdigit].
  apply andb_true_iff in E as [E _]. apply Z.ltb_lt in E.
  rewrite hexdigit_code in E |- * by done.
  destruct (Z.ltb_spec d 10); [lia|].
  unfold lower_char. rewrite code_chr by lia.
  rewrite (proj2 (Z.leb_le 65 _)), (proj2 (Z.leb_le _ 90)) by lia. simpl.
  unfold hexdigit. destruct (Z.ltb_spec d 10); [lia|]. f_equal. lia.
Qed.

Lemma byte_digits x : is_byte x → 0 ≤ x / 16 < 16 ∧ 0 ≤ x mod 16 < 16.
Proof.
  intros []. split; [split; [apply Z.div_pos|apply Z.div_lt_upper_bound]|apply Z.mod_pos_bound]; lia.
Qed.

Lemma ToLower_checksum_loop hash i b :
  Forall is_byte b → ToLower (checksum_loop hash i (EncodeToString b)) = EncodeToString b.
Proof.
  intros Hb. revert i. induction Hb as [|x b Hx Hb IH]; intros i; simpl; [done|].
  destruct (byte_digits x Hx). by rewrite !lower_raised, IH.
Qed.

(** [strings.ToLower(a.String())] does not depend on the checksum. *)
Lemma ToLower_Address_String keccak256 a : ToLower (Address_String keccak256 a) = Address_hex a.
Proof.
  unfold Address_String, checksumHex, Address_hex.
  set (s := EncodeToString (Address_Bytes a)).
  change (strip2 (String.append "0x" s)) with s.
  set (hash := keccak256 _).
  change (ToLower (String.append "0x" (checksum_loop hash 0 s)))
    with (String.append "0x" (ToLower (checksum_loop hash 0 s))).
  subst s. by rewrite ToLower_checksum_loop by apply to_be_bytes.
Qed.

Lemma crop_left_to_be n m x :
  (n ≤ m)%nat → crop_left n (to_be m x) = to_be n x.
Proof.
  intros Hn. unfold crop_left. rewrite to_be_length.
  assert (∀ k x, drop k (to_be (k + n) x) = to_be n x) as Hdrop.
  { clear. induction n as [|n IH]; intros k x.
    - rewrite Nat.add_0_r. apply drop_ge. by rewrite to_be_length.
    - rewrite Nat.add_succ_r. cbn [to_be]. rewrite drop_app_le by (rewrite to_be_length; lia).
      by rewrite IH. }
  case_decide.
  - replace m with ((m - n) + n)%nat at 2 by lia. apply Hdrop.
  - by assert (m = n) as -> by lia.
Qed.

Lemma BytesToAddress_bound b : Forall is_byte b → is_address (BytesToAddress b).
Proof.
  intros Hb. unfold is_address, BytesToAddress.
  assert (length (crop_left AddressLength b) ≤ AddressLength)%nat.
  { unfold crop_left. case_decide; [rewrite length_drop|]; lia. }
  pose proof (be_val_bound (crop_left AddressLength b)) as Hv.
  assert (Forall is_byte (crop_left AddressLength b)) as Hc.
  { unfold crop_left. case_decide; [by apply Forall_drop|done]. }
  specialize (Hv Hc). split; [lia|]. eapply Z.lt_le_trans; [apply Hv|].
  change (2 ^ 160) with (256 ^ Z.of_nat AddressLength). apply Z.pow_le_mono_r; lia.
Qed.

(** Text and back. *)
Lemma HexToAddress_hex a : is_address a → HexToAddress (Address_hex a) = a.
Proof.
  intros Ha. unfold HexToAddress. change (Address_hex a) with (Encode (Address_Bytes a)).
  rewrite FromHex_Encode by apply to_be_bytes.
  unfold BytesToAddress, Address_Bytes. rewrite crop_left_to_be, be_val_to_be by done.
  by apply Z.mod_small.
Qed.

(** [common.HexToAddress(topic.String())]: the low 20 bytes of the topic. *)
Lemma HexToAddress_Hash_String h : HexToAddress (Hash_String h) = h mod 2 ^ 160.
Proof.
  unfold HexToAddress, Hash_String, Hash_Hex. rewrite FromHex_Encode by apply to_be_bytes.
  unfold BytesToAddress, Hash_Bytes, HashLength, AddressLength.
  by rewrite crop_left_to_be, be_val_to_be by lia.
Qed.

Lemma Address_hex_inj a a' : is_address a → is_address a' → Address_hex a = Address_hex a' → a = a'.
Proof. intros Ha Ha' E. by rewrite <- (HexToAddress_hex a Ha), E, HexToAddress_hex. Qed.

Lemma Hash_String_inj h h' : is_hash h → is_hash h' → Hash_String h = Hash_String h' → h = h'.
Proof.
  intros Hh Hh' E. assert (FromHex (Hash_String h) = FromHex (Hash_String h')) as E' by by rewrite E.
  unfold Hash_String, Hash_Hex in E'. rewrite !FromHex_Encode in E' by apply to_be_bytes.
  assert (be_val (Hash_Bytes h) = be_val (Hash_Bytes h')) as E2 by by rewrite E'.
  unfold Hash_Bytes in E2. rewrite !be_val_to_be in E2.
  rewrite !Z.mod_small in E2 by done. done.
Qed.

(** Bytes of the full length and back. *)
Lemma BytesToHash_round b : length b = HashLength → Forall is_byte b → is_hash (BytesToHash b) ∧ Hash_Bytes (BytesToHash b) = b.
Proof.
  intros Hl Hb. unfold BytesToHash, Hash_Bytes, crop_left. rewrite decide_False by lia. split.
  - pose proof (be_val_bound b Hb) as Hv. by rewrite Hl in Hv.
  - rewrite <- Hl. by apply to_be_be_val.
Qed.
Lemma BytesToAddress_round b :
  length b = AddressLength → Forall is_byte b → is_address (BytesToAddress b) ∧ Address_Bytes (BytesToAddress b) = b.
Proof.
  intros Hl Hb. unfold BytesToAddress, Address_Bytes, crop_left. rewrite decide_False by lia. split.
  - pose proof (be_val_bound b Hb) as Hv. by rewrite Hl in Hv.
  - rewrite <- Hl. by apply to_be_be_val.
Qed.

Lemma BytesToHash_Bytes h : is_hash h → BytesToHash (Hash_Bytes h) = h.
Proof.
  intros Hh. unfold BytesToHash, Hash_Bytes. rewrite crop_left_to_be, be_val_to_be by done. by apply Z.mod_small.
Qed.

Lemma BytesToAddress_Bytes a : is_address a → BytesToAddress (Address_Bytes a) = a.
Proof.
  intros Ha. unfold BytesToAddress, Address_Bytes, crop_left. rewrite decide_False by (rewrite to_be_length; lia).
  rewrite be_val_to_be. by apply Z.mod_small.
Qed.

#[export] Hint Resolve to_be_bytes BytesToAddress_bound : idw.
#[export] Hint Rewrite to_be_length be_val_to_be HexToAddress_Hash_String : idw_rw.
