(* ===== verification/Params.v ===== *)
(** * params/protocol_params.go: the gas schedule the virtual machine uses *)

From S2P Require Import Prelude.

Definition CallValueTransferGas : Z := 9000.
Definition CallNewAccountGas : Z := 25000.
Definition QuadCoeffDiv : Z := 512.
Definition LogDataGas : Z := 8.
Definition CallStipend : Z := 2300.
Definition Keccak256Gas : Z := 30.
Definition Keccak256WordGas : Z := 6.
Definition SstoreSetGas : Z := 20000.
Definition SstoreResetGas : Z := 5000.
Definition SstoreClearGas : Z := 5000.
Definition SstoreRefundGas : Z := 15000.
Definition NetSstoreNoopGas : Z := 200.
Definition NetSstoreInitGas : Z := 20000.
Definition NetSstoreCleanGas : Z := 5000.
Definition NetSstoreDirtyGas : Z := 200.
Definition NetSstoreClearRefund : Z := 15000.
Definition NetSstoreResetRefund : Z := 4800.
Definition NetSstoreResetClearRefund : Z := 19800.
Definition SstoreSentryGasEIP2200 : Z := 2300.
Definition SstoreSetGasEIP2200 : Z := 20000.
Definition SstoreResetGasEIP2200 : Z := 5000.
Definition SstoreClearsScheduleRefundEIP2200 : Z := 15000.
Definition ColdAccountAccessCostEIP2929 : Z := 2600.
Definition ColdSloadCostEIP2929 : Z := 2100.
Definition WarmStorageReadCostEIP2929 : Z := 100.
Definition JumpdestGas : Z := 1.
Definition CreateDataGas : Z := 200.
Definition CallCreateDepth : Z := 1024.
Definition ExpGas : Z := 10.
Definition LogGas : Z := 375.
Definition CopyGas : Z := 3.
Definition StackLimit : Z := 1024.
Definition LogTopicGas : Z := 375.
Definition CreateGas : Z := 32000.
Definition Create2Gas : Z := 32000.
Definition SelfdestructRefundGas : Z := 24000.
Definition MemoryGas : Z := 3.
Definition TxAccessListStorageKeyGas : Z := 1900.
Definition SstoreClearsScheduleRefundEIP3529 : Z := SstoreResetGasEIP2200 - ColdSloadCostEIP2929 + TxAccessListStorageKeyGas.
Definition CallGasFrontier : Z := 40.
Definition CallGasEIP150 : Z := 700.
Definition BalanceGasFrontier : Z := 20.
Definition BalanceGasEIP150 : Z := 400.
Definition BalanceGasEIP1884 : Z := 700.
Definition ExtcodeSizeGasFrontier : Z := 20.
Definition ExtcodeSizeGasEIP150 : Z := 700.
Definition SloadGasFrontier : Z := 50.
Definition SloadGasEIP150 : Z := 200.
Definition SloadGasEIP1884 : Z := 800.
Definition SloadGasEIP2200 : Z := 800.
Definition ExtcodeHashGasConstantinople : Z := 400.
Definition ExtcodeHashGasEIP1884 : Z := 700.
Definition SelfdestructGasEIP150 : Z := 5000.
Definition ExpByteFrontier : Z := 10.
Definition ExpByteEIP158 : Z := 50.
Definition ExtcodeCopyBaseFrontier : Z := 20.
Definition ExtcodeCopyBaseEIP150 : Z := 700.
Definition CreateBySelfdestructGas : Z := 25000.
Definition MaxCodeSize : Z := 24576.
Definition TxGas : Z := 21000.
Definition TxGasContractCreation : Z := 53000.
Definition TxDataZeroGas : Z := 4.
Definition TxDataNonZeroGasFrontier : Z := 68.
Definition TxDataNonZeroGasEIP2028 : Z := 16.
Definition TxAccessListAddressGas : Z := 2400.
Definition RefundQuotient : Z := 2.
Definition RefundQuotientEIP3529 : Z := 5.

(** * core/vm/opcodes.go: the numbers of the instructions *)

Definition STOP : Z := 0x00.
Definition ADD : Z := 0x01.
Definition MUL : Z := 0x02.
Definition SUB : Z := 0x03.
Definition DIV : Z := 0x04.
Definition SDIV : Z := 0x05.
Definition MOD : Z := 0x06.
Definition SMOD : Z := 0x07.
Definition ADDMOD : Z := 0x08.
Definition MULMOD : Z := 0x09.
Definition EXP : Z := 0x0a.
Definition SIGNEXTEND : Z := 0x0b.
Definition LT : Z := 0x10.
Definition GT : Z := 0x11.
Definition SLT : Z := 0x12.
Definition SGT : Z := 0x13.
Definition EQ : Z := 0x14.
Definition ISZERO : Z := 0x15.
Definition AND : Z := 0x16.
Definition OR : Z := 0x17.
Definition XOR : Z := 0x18.
Definition NOT : Z := 0x19.
Definition BYTE : Z := 0x1a.
Definition SHL : Z := 0x1b.
Definition SHR : Z := 0x1c.
Definition SAR : Z := 0x1d.
Definition KECCAK256 : Z := 0x20.
Definition ADDRESS : Z := 0x30.
Definition BALANCE : Z := 0x31.
Definition ORIGIN : Z := 0x32.
Definition CALLER : Z := 0x33.
Definition CALLVALUE : Z := 0x34.
Definition CALLDATALOAD : Z := 0x35.
Definition CALLDATASIZE : Z := 0x36.
Definition CALLDATACOPY : Z := 0x37.
Definition CODESIZE : Z := 0x38.
Definition CODECOPY : Z := 0x39.
Definition GASPRICE : Z := 0x3a.
Definition EXTCODESIZE : Z := 0x3b.
Definition EXTCODECOPY : Z := 0x3c.
Definition RETURNDATASIZE : Z := 0x3d.
Definition RETURNDATACOPY : Z := 0x3e.
Definition EXTCODEHASH : Z := 0x3f.
Definition BLOCKHASH : Z := 0x40.
Definition COINBASE : Z := 0x41.
Definition TIMESTAMP : Z := 0x42.
Definition NUMBER : Z := 0x43.
Definition DIFFICULTY : Z := 0x44.
Definition GASLIMIT : Z := 0x45.
Definition CHAINID : Z := 0x46.
Definition SELFBALANCE : Z := 0x47.
Definition BASEFEE : Z := 0x48.
Definition POP : Z := 0x50.
Definition MLOAD : Z := 0x51.
Definition MSTORE : Z := 0x52.
Definition MSTORE8 : Z := 0x53.
Definition SLOAD : Z := 0x54.
Definition SSTORE : Z := 0x55.
Definition JUMP : Z := 0x56.
Definition JUMPI : Z := 0x57.
Definition PC : Z := 0x58.
Definition MSIZE : Z := 0x59.
Definition GAS : Z := 0x5a.
Definition JUMPDEST : Z := 0x5b.
Definition PUSH1 : Z := 0x60.
Definition PUSH2 : Z := 0x61.
Definition PUSH3 : Z := 0x62.
Definition PUSH4 : Z := 0x63.
Definition PUSH5 : Z := 0x64.
Definition PUSH6 : Z := 0x65.
Definition PUSH7 : Z := 0x66.
Definition PUSH8 : Z := 0x67.
Definition PUSH9 : Z := 0x68.
Definition PUSH10 : Z := 0x69.
Definition PUSH11 : Z := 0x6a.
Definition PUSH12 : Z := 0x6b.
Definition PUSH13 : Z := 0x6c.
Definition PUSH14 : Z := 0x6d.
Definition PUSH15 : Z := 0x6e.
Definition PUSH16 : Z := 0x6f.
Definition PUSH17 : Z := 0x70.
Definition PUSH18 : Z := 0x71.
Definition PUSH19 : Z := 0x72.
Definition PUSH20 : Z := 0x73.
Definition PUSH21 : Z := 0x74.
Definition PUSH22 : Z := 0x75.
Definition PUSH23 : Z := 0x76.
Definition PUSH24 : Z := 0x77.
Definition PUSH25 : Z := 0x78.
Definition PUSH26 : Z := 0x79.
Definition PUSH27 : Z := 0x7a.
Definition PUSH28 : Z := 0x7b.
Definition PUSH29 : Z := 0x7c.
Definition PUSH30 : Z := 0x7d.
Definition PUSH31 : Z := 0x7e.
Definition PUSH32 : Z := 0x7f.
Definition DUP1 : Z := 0x80.
Definition DUP2 : Z := 0x81.
Definition DUP3 : Z := 0x82.
Definition DUP4 : Z := 0x83.
Definition DUP5 : Z := 0x84.
Definition DUP6 : Z := 0x85.
Definition DUP7 : Z := 0x86.
Definition DUP8 : Z := 0x87.
Definition DUP9 : Z := 0x88.
Definition DUP10 : Z := 0x89.
Definition DUP11 : Z := 0x8a.
Definition DUP12 : Z := 0x8b.
Definition DUP13 : Z := 0x8c.
Definition DUP14 : Z := 0x8d.
Definition DUP15 : Z := 0x8e.
Definition DUP16 : Z := 0x8f.
Definition SWAP1 : Z := 0x90.
Definition SWAP2 : Z := 0x91.
Definition SWAP3 : Z := 0x92.
Definition SWAP4 : Z := 0x93.
Definition SWAP5 : Z := 0x94.
Definition SWAP6 : Z := 0x95.
Definition SWAP7 : Z := 0x96.
Definition SWAP8 : Z := 0x97.
Definition SWAP9 : Z := 0x98.
Definition SWAP10 : Z := 0x99.
Definition SWAP11 : Z := 0x9a.
Definition SWAP12 : Z := 0x9b.
Definition SWAP13 : Z := 0x9c.
Definition SWAP14 : Z := 0x9d.
Definition SWAP15 : Z := 0x9e.
Definition SWAP16 : Z := 0x9f.
Definition LOG0 : Z := 0xa0.
Definition LOG1 : Z := 0xa1.
Definition LOG2 : Z := 0xa2.
Definition LOG3 : Z := 0xa3.
Definition LOG4 : Z := 0xa4.
Definition CREATE : Z := 0xf0.
Definition CALL : Z := 0xf1.
Definition CALLCODE : Z := 0xf2.
Definition RETURN : Z := 0xf3.
Definition DELEGATECALL : Z := 0xf4.
Definition CREATE2 : Z := 0xf5.
Definition STATICCALL : Z := 0xfa.
Definition REVERT : Z := 0xfd.
Definition SELFDESTRUCT : Z := 0xff.
