(* ===== verification/Uint256.v ===== *)
(** * 256-bit words: what the virtual machine uses of holiman/uint256

    The library is third-party code.  A word is the number of its four limbs, in
    [0, 2^256); the operations are parameters of the model and their documented
    results are the laws of [Uint256Laws]. *)

From S2P Require Import Prelude Common.

Definition is_word (x : Z) : Prop := 0 ≤ x < 2 ^ 256.

Class Uint256 := {
  IsUint64 : Z → bool;
  Uint64 : Z → Z;
  Uint64WithOverflow : Z → Z * bool;
  IsZero : Z → bool;
  Sign : Z → Z;
  BitLen : Z → Z;
  Bytes32 : Z → bytes;
  Bytes20 : Z → bytes;
  WriteToSlice : Z → bytes → bytes;
  SetBytes : bytes → Z;
  FromBig : Z → Z;
  Add : Z → Z → Z;
  Sub : Z → Z → Z;
  Mul : Z → Z → Z;
  Div : Z → Z → Z;
  SDiv : Z → Z → Z;
  Mod : Z → Z → Z;
  SMod : Z → Z → Z;
  Exp : Z → Z → Z;
  ExtendSign : Z → Z → Z;
  Not : Z → Z;
  Lt : Z → Z → bool;
  Gt : Z → Z → bool;
  Slt : Z → Z → bool;
  Sgt : Z → Z → bool;
  Eq : Z → Z → bool;
  And : Z → Z → Z;
  Or : Z → Z → Z;
  Xor : Z → Z → Z;
  Byte : Z → Z → Z;
  AddMod : Z → Z → Z → Z;
  MulMod : Z → Z → Z → Z;
  Lsh : Z → Z → Z;
  Rsh : Z → Z → Z;
  SRsh : Z → Z → Z;
  AllOne : Z
}.

(** The two's complement reading of a word, and the word of an integer. *)
Definition signed (x : Z) : Z := if x <? 2 ^ 255 then x else x - 2 ^ 256.
Definition word (x : Z) : Z := x mod 2 ^ 256.


Class Uint256Laws (U : Uint256) : Prop := {
  IsUint64_spec x : is_word x → IsUint64 x = (x <? 2 ^ 64);
  Uint64_spec x : is_word x → Uint64 x = x mod 2 ^ 64;
  Uint64WithOverflow_spec x : is_word x → Uint64WithOverflow x = (x mod 2 ^ 64, 2 ^ 64 <=? x);
  IsZero_spec x : is_word x → IsZero x = (x =? 0);
  Sign_spec x : is_word x → Sign x = if x =? 0 then 0 else if x <? 2 ^ 255 then 1 else -1;
  BitLen_spec x : is_word x → BitLen x = if x =? 0 then 0 else Z.log2 x + 1;
  Bytes32_spec x : is_word x → Bytes32 x = to_be 32 x;
  Bytes20_spec x : is_word x → Bytes20 x = to_be 20 x;
  WriteToSlice_spec x dest : is_word x → (32 ≤ length dest)%nat →
    WriteToSlice x dest = to_be 32 x ++ drop 32 dest;
  SetBytes_spec b : Forall is_byte b → SetBytes b = be_val (crop_left 32 b);
  FromBig_spec x : FromBig x = word x;
  Add_spec x y : is_word x → is_word y → Add x y = word (x + y);
  Sub_spec x y : is_word x → is_word y → Sub x y = word (x - y);
  Mul_spec x y : is_word x → is_word y → Mul x y = word (x * y);
  Div_spec x y : is_word x → is_word y → Div x y = x / y;
  SDiv_spec x y : is_word x → is_word y → SDiv x y = word (Z.quot (signed x) (signed y));
  Mod_spec x y : is_word x → is_word y → Mod x y = if y =? 0 then 0 else x mod y;
  SMod_spec x y : is_word x → is_word y →
    SMod x y = if y =? 0 then 0 else word (Z.rem (signed x) (signed y));
  Exp_spec x y : is_word x → is_word y → Exp x y = word (x ^ y);
  ExtendSign_spec num b : is_word num → is_word b →
    ExtendSign num b = if b <? 31 then word (wrapS (8 * (b + 1)) num) else num;
  Not_spec x : is_word x → Not x = 2 ^ 256 - 1 - x;
  Lt_spec x y : is_word x → is_word y → Lt x y = (x <? y);
  Gt_spec x y : is_word x → is_word y → Gt x y = (y <? x);
  Slt_spec x y : is_word x → is_word y → Slt x y = (signed x <? signed y);
  Sgt_spec x y : is_word x → is_word y → Sgt x y = (signed y <? signed x);
  Eq_spec x y : is_word x → is_word y → Eq x y = (x =? y);
  And_spec x y : is_word x → is_word y → And x y = Z.land x y;
  Or_spec x y : is_word x → is_word y → Or x y = Z.lor x y;
  Xor_spec x y : is_word x → is_word y → Xor x y = Z.lxor x y;
  Byte_spec val th : is_word val → is_word th →
    Byte val th = if th <? 32 then (val / 256 ^ (31 - th)) mod 256 else 0;
  AddMod_spec x y m : is_word x → is_word y → is_word m → m ≠ 0 → AddMod x y m = (x + y) mod m;
  MulMod_spec x y m : is_word x → is_word y → is_word m →
    MulMod x y m = if m =? 0 then 0 else (x * y) mod m;
  Lsh_spec x n : is_word x → 0 ≤ n → Lsh x n = word (x * 2 ^ n);
  Rsh_spec x n : is_word x → 0 ≤ n → Rsh x n = x / 2 ^ n;
  SRsh_spec x n : is_word x → 0 ≤ n → SRsh x n = word (signed x / 2 ^ n);
  AllOne_spec : AllOne = 2 ^ 256 - 1
}.

(** What the Go types of the results promise, and that [Sign] and [IsZero] agree. *)
Class Uint256Range (U : Uint256) : Prop := {
  Uint64_range x : 0 ≤ Uint64 x < 2 ^ 64;
  Uint64WithOverflow_range x : 0 ≤ fst (Uint64WithOverflow x) < 2 ^ 64;
  BitLen_range x : 0 ≤ BitLen x ≤ 256;
  WriteToSlice_length x dest : length (WriteToSlice x dest) = length dest;
  Sign_IsZero x : Sign x = 0 ↔ IsZero x = true
}.

(** A concrete implementation, for examples. *)
#[export] Instance z_uint256 : Uint256 := {|
  IsUint64 x := x <? 2 ^ 64;
  Uint64 x := x mod 2 ^ 64;
  Uint64WithOverflow x := (x mod 2 ^ 64, 2 ^ 64 <=? x);
  IsZero x := x =? 0;
  Sign x := if x =? 0 then 0 else if x <? 2 ^ 255 then 1 else -1;
  BitLen x := if x =? 0 then 0 else Z.min 256 (Z.log2 x + 1);
  Bytes32 := to_be 32;
  Bytes20 := to_be 20;
  WriteToSlice x dest := take (length dest) (to_be 32 x) ++ drop 32 dest;
  SetBytes b := be_val (crop_left 32 b);
  FromBig x := word x;
  Add x y := word (x + y);
  Sub x y := word (x - y);
  Mul x y := word (x * y);
  Div x y := x / y;
  SDiv x y := word (Z.quot (signed x) (signed y));
  Mod x y := if y =? 0 then 0 else x mod y;
  SMod x y := if y =? 0 then 0 else word (Z.rem (signed x) (signed y));
  Exp x y := word (x ^ y);
  ExtendSign num b := if b <? 31 then word (wrapS (8 * (b + 1)) num) else num;
  Not x := 2 ^ 256 - 1 - x;
  Lt x y := x <? y;
  Gt x y := y <? x;
  Slt x y := signed x <? signed y;
  Sgt x y := signed y <? signed x;
  Eq x y := x =? y;
  And := Z.land;
  Or := Z.lor;
  Xor := Z.lxor;
  Byte val th := if th <? 32 then (val / 256 ^ (31 - th)) mod 256 else 0;
  AddMod x y m := (x + y) mod m;
  MulMod x y m := if m =? 0 then 0 else (x * y) mod m;
  Lsh x n := word (x * 2 ^ n);
  Rsh x n := x / 2 ^ n;
  SRsh x n := word (signed x / 2 ^ n);
  AllOne := 2 ^ 256 - 1
|}.

#[export] Instance z_uint256_laws : Uint256Laws z_uint256.
Proof.
  split; try done.
  - intros x [Hx Hlt]. cbn [BitLen z_uint256]. destruct (Z.eqb_spec x 0); [done|].
    rewrite Z.min_r; [done|]. assert (Z.log2 x < 256); [|lia]. apply Z.log2_lt_pow2; lia.
  - intros x dest _ Hd. cbn [WriteToSlice z_uint256]. by rewrite take_ge by (by rewrite to_be_length).
Qed.

#[export] Instance z_uint256_range : Uint256Range z_uint256.
Proof.
  split; intros x; cbn [Uint64 Uint64WithOverflow BitLen Sign IsZero z_uint256 fst].
  - by apply Z.mod_pos_bound.
  - by apply Z.mod_pos_bound.
  - destruct (Z.eqb_spec x 0); [done|]. pose proof (Z.log2_nonneg x). lia.
  - intros dest. cbn [WriteToSlice z_uint256]. rewrite length_app, length_take, length_drop, to_be_length. lia.
  - destruct (Z.eqb_spec x 0); [done|]. by destruct (x <? 2 ^ 255).
Qed.
