(* ===== verification/Machine.v ===== *)
(** * core/vm: the stack, the memory and their size functions

    [stack.go], [stack_table.go], [memory.go], [memory_table.go], [common.go],
    [errors.go] and [gas.go].  A slice of a slice that reaches beyond the length
    panics here; Go allows it up to the capacity, which the interpreter never
    relies on because it resizes the memory first. *)

From S2P Require Import Prelude Common Params Uint256.

Definition MaxUint64 : Z := 2 ^ 64 - 1.

(** ** errors.go *)

Inductive VmError :=
| ErrOutOfGas
| ErrCodeStoreOutOfGas
| ErrDepth
| ErrInsufficientBalance
| ErrContractAddressCollision
| ErrExecutionReverted
| ErrMaxCodeSizeExceeded
| ErrInvalidJump
| ErrWriteProtection
| ErrReturnDataOutOfBounds
| ErrGasUintOverflow
| ErrInvalidCode
| ErrNonceUintOverflow
| errStopToken
| ErrStackUnderflow (stackLen required : Z)
| ErrStackOverflow (stackLen limit : Z)
| ErrInvalidOpCode (opcode : Z)
| ErrReentrancySentry
| ErrPrecompile (msg : string).

#[export] Instance VmError_eq_dec : EqDecision VmError.
Proof. solve_decision. Defined.

(** ** common/math/integer.go *)

Definition SafeAdd (x y : Z) : Z * bool := (wrapU 64 (x + y), 2 ^ 64 <=? x + y).
Definition SafeMul (x y : Z) : Z * bool := (wrapU 64 (x * y), 2 ^ 64 <=? x * y).

(** ** stack.go: the top of the stack is the end of the list *)

Record Stack := { st_data : list Z }.

Definition newstack : Stack := {| st_data := [] |}.
Definition st_len (st : Stack) : Z := Z.of_nat (length (st_data st)).

Definition st_push (st : Stack) (d : Z) : Stack := {| st_data := st_data st ++ [d] |}.

(** [st.data\[i\]] *)
Definition st_at (st : Stack) (i : Z) : Go Z :=
  if i <? 0 then Panic IndexOutOfRange
  else match st_data st !! Z.to_nat i with Some x => Ret x | None => Panic IndexOutOfRange end.

Definition st_set (st : Stack) (i x : Z) : Stack := {| st_data := <[Z.to_nat i := x]> (st_data st) |}.

Definition pop (st : Stack) : Go (Stack * Z) :=
  ret ← st_at st (st_len st - 1);
  Ret ({| st_data := take (length (st_data st) - 1) (st_data st) |}, ret).

Definition swap (st : Stack) (n : Z) : Go Stack :=
  x ← st_at st (st_len st - n);
  y ← st_at st (st_len st - 1);
  Ret (st_set (st_set st (st_len st - n) y) (st_len st - 1) x).

Definition dup (st : Stack) (n : Z) : Go Stack :=
  x ← st_at st (st_len st - n);
  Ret (st_push st x).

Definition peek (st : Stack) : Go Z := st_at st (st_len st - 1).
Definition Back (st : Stack) (n : Z) : Go Z := st_at st (st_len st - n - 1).

(** ** stack_table.go *)

Definition maxStack (pop push : Z) : Z := StackLimit + pop - push.
Definition minStack (pops push : Z) : Z := pops.
Definition minSwapStack (n : Z) : Z := minStack n n.
Definition maxSwapStack (n : Z) : Z := maxStack n n.
Definition minDupStack (n : Z) : Z := minStack n (n + 1).
Definition maxDupStack (n : Z) : Z := maxStack n (n + 1).

(** ** Slices of bytes *)

Definition len (b : bytes) : Z := Z.of_nat (length b).

(** [b\[i:j\]] *)
Definition subslice (b : bytes) (i j : Z) : Go bytes :=
  if (0 <=? i) && (i <=? j) && (j <=? len b) then Ret (take (Z.to_nat (j - i)) (drop (Z.to_nat i) b))
  else Panic SliceOutOfRange.

(** [copy(b\[i:j\], value)] *)
Definition copy_at (b : bytes) (i j : Z) (value : bytes) : Go bytes :=
  if (0 <=? i) && (i <=? j) && (j <=? len b) then
    let value := take (Z.to_nat (j - i)) value in
    Ret (take (Z.to_nat i) b ++ value ++ drop (Z.to_nat i + length value) b)
  else Panic SliceOutOfRange.

Definition zeros (n : Z) : bytes := replicate (Z.to_nat n) 0.

Section machine.
Context `{Uint256}.

(** ** memory.go *)

Record Memory := { store : bytes; lastGasCost : Z }.

Definition NewMemory : Memory := {| store := []; lastGasCost := 0 |}.

Definition mem_Set (m : Memory) (offset size : Z) (value : bytes) : Go Memory :=
  if 0 <? size then
    if len (store m) <? wrapU 64 (offset + size) then Panic ExplicitPanic
    else s ← copy_at (store m) offset (wrapU 64 (offset + size)) value;
         Ret {| store := s; lastGasCost := lastGasCost m |}
  else Ret m.

Definition mem_Set32 (m : Memory) (offset val : Z) : Go Memory :=
  if len (store m) <? wrapU 64 (offset + 32) then Panic ExplicitPanic
  else
    s ← copy_at (store m) offset (wrapU 64 (offset + 32)) (zeros 32);
    Ret {| store := take (Z.to_nat offset) s ++ WriteToSlice val (drop (Z.to_nat offset) s);
           lastGasCost := lastGasCost m |}.

Definition Resize (m : Memory) (size : Z) : Memory :=
  if len (store m) <? size then
    {| store := store m ++ zeros (size - len (store m)); lastGasCost := lastGasCost m |}
  else m.

(** A nil slice is the empty list: no user of the result tells them apart. *)
Definition GetCopy (m : Memory) (offset size : Z) : Go bytes :=
  if size =? 0 then Ret []
  else if offset <? len (store m) then
    if size <? 0 then Panic SliceOutOfRange else subslice (store m) offset (wrapS 64 (offset + size))
  else Ret [].

Definition GetPtr (m : Memory) (offset size : Z) : Go bytes :=
  if size =? 0 then Ret []
  else if offset <? len (store m) then subslice (store m) offset (wrapS 64 (offset + size))
  else Ret [].

Definition mem_Len (m : Memory) : Z := len (store m).

(** ** common.go *)

Definition calcMemSize64WithUint (off length64 : Z) : Z * bool :=
  if length64 =? 0 then (0, false)
  else
    let '(offset64, overflow) := Uint64WithOverflow off in
    if overflow then (0, true)
    else
      let val := wrapU 64 (offset64 + length64) in
      (val, val <? offset64).

Definition calcMemSize64 (off l : Z) : Z * bool :=
  if negb (IsUint64 l) then (0, true) else calcMemSize64WithUint off (Uint64 l).

Definition getData (data : bytes) (start size : Z) : Go bytes :=
  let length := len data in
  let start := if length <? start then length else start in
  let end_ := wrapU 64 (start + size) in
  let end_ := if length <? end_ then length else end_ in
  s ← subslice data start end_;
  Ret (RightPadBytes s (wrapS 64 size)).

Definition toWordSize (size : Z) : Z :=
  if MaxUint64 - 31 <? size then MaxUint64 / 32 + 1 else (size + 31) / 32.

Definition allZero (b : bytes) : bool := forallb (λ x, x =? 0) b.

(** ** memory_table.go *)

Definition mem_size (st : Stack) (i j : Z) : Go (Z * bool) :=
  off ← Back st i; l ← Back st j; Ret (calcMemSize64 off l).

Definition mem_word (st : Stack) (i length64 : Z) : Go (Z * bool) :=
  off ← Back st i; Ret (calcMemSize64WithUint off length64).

Definition mem_size2 (st : Stack) (i j k l : Z) : Go (Z * bool) :=
  '(x, overflow) ← mem_size st i j;
  if overflow : bool then Ret (0, true)
  else
    '(y, overflow) ← mem_size st k l;
    if overflow : bool then Ret (0, true)
    else if y <? x then Ret (x, false) else Ret (y, false).

Definition memoryKeccak256 (stack : Stack) : Go (Z * bool) := mem_size stack 0 1.
Definition memoryCallDataCopy (stack : Stack) : Go (Z * bool) := mem_size stack 0 2.
Definition memoryReturnDataCopy (stack : Stack) : Go (Z * bool) := mem_size stack 0 2.
Definition memoryCodeCopy (stack : Stack) : Go (Z * bool) := mem_size stack 0 2.
Definition memoryExtCodeCopy (stack : Stack) : Go (Z * bool) := mem_size stack 1 3.
Definition memoryMLoad (stack : Stack) : Go (Z * bool) := mem_word stack 0 32.
Definition memoryMStore8 (stack : Stack) : Go (Z * bool) := mem_word stack 0 1.
Definition memoryMStore (stack : Stack) : Go (Z * bool) := mem_word stack 0 32.
Definition memoryCreate (stack : Stack) : Go (Z * bool) := mem_size stack 1 2.
Definition memoryCreate2 (stack : Stack) : Go (Z * bool) := mem_size stack 1 2.
Definition memoryCall (stack : Stack) : Go (Z * bool) := mem_size2 stack 5 6 3 4.
Definition memoryDelegateCall (stack : Stack) : Go (Z * bool) := mem_size2 stack 4 5 2 3.
Definition memoryStaticCall (stack : Stack) : Go (Z * bool) := mem_size2 stack 4 5 2 3.
Definition memoryReturn (stack : Stack) : Go (Z * bool) := mem_size stack 0 1.
Definition memoryRevert (stack : Stack) : Go (Z * bool) := mem_size stack 0 1.
Definition memoryLog (stack : Stack) : Go (Z * bool) := mem_size stack 0 1.

(** ** gas.go *)

Definition GasQuickStep : Z := 2.
Definition GasFastestStep : Z := 3.
Definition GasFastStep : Z := 5.
Definition GasMidStep : Z := 8.
Definition GasSlowStep : Z := 10.
Definition GasExtStep : Z := 20.

Definition callGas (isEip150 : bool) (availableGas base callCost : Z) : VmError + Z :=
  let availableGas := if isEip150 then wrapU 64 (availableGas - base) else availableGas in
  let gas := availableGas - availableGas / 64 in
  if isEip150 && (negb (IsUint64 callCost) || (gas <? Uint64 callCost)) then inr gas
  else if negb (IsUint64 callCost) then inl ErrGasUintOverflow
  else inr (Uint64 callCost).

(** ** gas_table.go: the functions of the stack and the memory alone

    The result is the memory, whose [lastGasCost] the function updates, with the
    gas or the error. *)
Definition memoryGasCost (mem : Memory) (newMemSize : Z) : Memory * (VmError + Z) :=
  if newMemSize =? 0 then (mem, inr 0)
  else if 0x1FFFFFFFE0 <? newMemSize then (mem, inl ErrGasUintOverflow)
  else
    let newMemSizeWords := toWordSize newMemSize in
    let newMemSize := wrapU 64 (newMemSizeWords * 32) in
    if mem_Len mem <? newMemSize then
      let square := wrapU 64 (newMemSizeWords * newMemSizeWords) in
      let linCoef := wrapU 64 (newMemSizeWords * MemoryGas) in
      let quadCoef := square / QuadCoeffDiv in
      let newTotalFee := wrapU 64 (linCoef + quadCoef) in
      let fee := wrapU 64 (newTotalFee - lastGasCost mem) in
      ({| store := store mem; lastGasCost := newTotalFee |}, inr fee)
    else (mem, inr 0).
End machine.

(** * core/vm/analysis.go: which bytes of a program are data

    The bit vector [codeBitmap] computes marks the operands of PUSHn
    instructions.  A bit vector is the list of its bytes; an index outside it
    panics, as in the code. *)

Abbreviation bitvec := bytes.

Definition set2BitsMask : Z := 3.
Definition set3BitsMask : Z := 7.
Definition set4BitsMask : Z := 15.
Definition set5BitsMask : Z := 31.
Definition set6BitsMask : Z := 63.
Definition set7BitsMask : Z := 127.

(** [b\[i\]] and [b\[i\] = x], on a slice of bytes. *)
Definition index (b : bytes) (i : Z) : Go Z :=
  match b !! Z.to_nat i with Some x => Ret x | None => Panic IndexOutOfRange end.

Definition store_at (b : bytes) (i x : Z) : Go bytes :=
  if decide (Z.to_nat i < length b)%nat then Ret (<[Z.to_nat i := x]> b) else Panic IndexOutOfRange.

Definition or_at (b : bytes) (i x : Z) : Go bytes :=
  y ← index b i; store_at b i (Z.lor y x).

(** [^a], on a byte. *)
Definition not8 (a : Z) : Z := 255 - a.

Definition set1 (bits : bitvec) (pos : Z) : Go bitvec :=
  or_at bits (pos / 8) (wrapU 8 (Z.shiftl 1 (pos mod 8))).

Definition setN (bits : bitvec) (flag pos : Z) : Go bitvec :=
  let a := wrapU 16 (Z.shiftl flag (pos mod 8)) in
  bits ← or_at bits (pos / 8) (wrapU 8 a);
  let b := wrapU 8 (Z.shiftr a 8) in
  if b =? 0 then Ret bits else store_at bits (pos / 8 + 1) b.

Definition set8 (bits : bitvec) (pos : Z) : Go bitvec :=
  let a := wrapU 8 (Z.shiftl 255 (pos mod 8)) in
  bits ← or_at bits (pos / 8) a;
  store_at bits (pos / 8 + 1) (not8 a).

Definition set16 (bits : bitvec) (pos : Z) : Go bitvec :=
  let a := wrapU 8 (Z.shiftl 255 (pos mod 8)) in
  bits ← or_at bits (pos / 8) a;
  bits ← store_at bits (pos / 8 + 1) 255;
  store_at bits (pos / 8 + 2) (not8 a).

Definition codeSegment (bits : bitvec) (pos : Z) : Go bool :=
  b ← index bits (pos / 8);
  Ret (Z.land (Z.shiftr b (pos mod 8)) 1 =? 0).

(** [for ; numbits >= step; numbits -= step]; [numbits] is at most 32, so a fuel
    of 4 is enough for both loops. *)
Fixpoint set_loop (fuel : nat) (step : Z) (set : bitvec → Z → Go bitvec)
    (bits : bitvec) (pc numbits : Z) : option (Go (bitvec * Z * Z)) :=
  match fuel with
  | O => None
  | S fuel' =>
      if step <=? numbits then
        run_bind (Some (set bits pc)) (λ bits, set_loop fuel' step set bits (pc + step) (numbits - step))
      else Some (Ret (bits, pc, numbits))
  end.

Definition set_rest (bits : bitvec) (pc numbits : Z) : Go (bitvec * Z) :=
  match numbits with
  | 1 => bits ← set1 bits pc; Ret (bits, pc + 1)
  | 2 => bits ← setN bits set2BitsMask pc; Ret (bits, pc + 2)
  | 3 => bits ← setN bits set3BitsMask pc; Ret (bits, pc + 3)
  | 4 => bits ← setN bits set4BitsMask pc; Ret (bits, pc + 4)
  | 5 => bits ← setN bits set5BitsMask pc; Ret (bits, pc + 5)
  | 6 => bits ← setN bits set6BitsMask pc; Ret (bits, pc + 6)
  | 7 => bits ← setN bits set7BitsMask pc; Ret (bits, pc + 7)
  | _ => Ret (bits, pc)
  end.

(** One instruction: the vector and the position of the next one. *)
Definition mark_push (bits : bitvec) (pc numbits : Z) : option (Go (bitvec * Z)) :=
  run_bind
    (if 8 <=? numbits then
       run_bind (set_loop 4 16 set16 bits pc numbits) (λ '(bits, pc, numbits),
         set_loop 4 8 set8 bits pc numbits)
     else Some (Ret (bits, pc, numbits)))
    (λ '(bits, pc, numbits), Some (set_rest bits pc numbits)).

(** The loop over the code; every turn moves [pc] forward, so a fuel of one more
    than the length of the code is enough. *)
Fixpoint bitmap_loop (fuel : nat) (code : bytes) (bits : bitvec) (pc : Z) : option (Go bitvec) :=
  match fuel with
  | O => None
  | S fuel' =>
      match code !! Z.to_nat pc with
      | None => Some (Ret bits)
      | Some op =>
          if (op <? PUSH1) || (PUSH32 <? op) then bitmap_loop fuel' code bits (pc + 1)
          else run_bind (mark_push bits (pc + 1) (op - PUSH1 + 1)) (λ '(bits, pc),
                 bitmap_loop fuel' code bits pc)
      end
  end.

Definition codeBitmapInternal (code : bytes) (bits : bitvec) : option (Go bitvec) :=
  bitmap_loop (S (length code)) code bits 0.

Definition codeBitmap (code : bytes) : option (Go bitvec) :=
  codeBitmapInternal code (replicate (length code / 8 + 1 + 4) 0).
