(* ===== verification/Tx.v ===== *)
(** * core/vm/tx.go: recorded transactions

    The call tree that the instrumented EVM builds and the detector reads.  The
    pointers of the tree are never shared and never nil in a recorded
    transaction, so a tree of values is the same data; [*big.Int] fields that
    can be nil are options. *)

From S2P Require Import Prelude Common.

Record Event := {
  ev_Address : Address;
  ev_Topics : list Hash;
  ev_Data : bytes;
  ev_Index : Z
}.

Inductive InternalTx := mkInternalTx {
  itx_From : Address;
  itx_To : Address;
  itx_IsContract : bool;
  itx_Value : option Z;
  itx_CallType : string;
  itx_Input : bytes;
  itx_Events : list Event;
  itx_InTxs : list InternalTx
}.

Record ExternalTx := {
  etx_BlockNumber : Z;
  etx_Timestamp : Z;
  etx_TxIndex : Z;
  etx_InTxs : list InternalTx
}.

(** Induction over a call tree. *)
Lemma InternalTx_ind' (P : InternalTx → Prop) :
  (∀ f t c v ty i evs txs, Forall P txs → P (mkInternalTx f t c v ty i evs txs)) →
  ∀ tx, P tx.
Proof.
  intros H. refine (fix IH tx := match tx with
    | mkInternalTx f t c v ty i evs txs => H f t c v ty i evs txs _ end).
  induction txs; constructor; auto.
Qed.

(** The calls of a tree in the order they are entered, the root first. *)
Fixpoint tx_preorder (tx : InternalTx) : list InternalTx :=
  tx :: (fix go (l : list InternalTx) : list InternalTx :=
           match l with [] => [] | t :: l' => tx_preorder t ++ go l' end) (itx_InTxs tx).

Lemma tx_preorder_eq tx : tx_preorder tx = tx :: (itx_InTxs tx ≫= tx_preorder).
Proof.
  by destruct tx.
Qed.
