(* ===== verification/Vm.v ===== *)
(** * core/vm: the state of the virtual machine

    The [StateDB] interface ([interface.go]), contracts ([contract.go]), the
    [EVM] object with the recorder's [CallStack] and [ExTx] ([evm.go]), and the
    computations over them.  Pointers: the pending nodes of [CallStack] are
    reached from nowhere else until they are popped, so the stack holds values,
    its top first; the jump-destination maps, which contracts share with their
    callers, live in a store of the [EVM] and contracts hold locations.  The map
    of the recorded block hashes, which BLOCKHASH reaches through the state but no
    snapshot covers, is a field of the [EVM] too.  Tracing ([Config.Debug]) is
    off. *)

From S2P Require Import Prelude Common Params Uint256 Machine Tx.

(** ** Results *)

Inductive Res (A : Type) :=
| Done (a : A)
| Crash (p : GoPanic)
| OutOfFuel.
Arguments Done {A} a.
Arguments Crash {A} p.
Arguments OutOfFuel {A}.

#[export] Instance Res_ret : MRet Res := @Done.
#[export] Instance Res_bind : MBind Res :=
  λ A B (k : A → Res B) (m : Res A),
    match m with Done a => k a | Crash p => Crash p | OutOfFuel => OutOfFuel end.

Definition of_go {A} (m : Go A) : Res A :=
  match m with Ret a => Done a | Panic p => Crash p end.

Definition of_run {A} (m : option (Go A)) : Res A :=
  match m with Some m => of_go m | None => OutOfFuel end.

(** A loop that may crash. *)
Fixpoint res_foldl {A B : Type} (body : B → A → Res B) (b : B) (l : list A) : Res B :=
  match l with
  | [] => Done b
  | x :: l => b ← body b x; res_foldl body b l
  end.

(** What a computation that may crash ends with. *)
Definition finishes {A : Type} (P : A → Prop) (m : Res A) : Prop :=
  match m with Done a => P a | Crash _ => True | OutOfFuel => False end.

Lemma finishes_bind {A B : Type} (P : A → Prop) (Q : B → Prop) (m : Res A) (k : A → Res B) :
  finishes P m → (∀ a, P a → finishes Q (k a)) → finishes Q (m ≫= k).
Proof. destruct m; cbn; auto. Qed.

Lemma finishes_go {A : Type} (P : A → Prop) (m : Go A) : (∀ a, m = Ret a → P a) → finishes P (of_go m).
Proof. destruct m; cbn; auto. Qed.

Lemma finishes_foldl {A B : Type} (P : B → Prop) (body : B → A → Res B) b (l : list A) :
  P b → (∀ b x, P b → finishes P (body b x)) → finishes P (res_foldl body b l).
Proof.
  intros Hb Hs. revert b Hb. induction l as [|x l IH]; intros b Hb; [done|].
  eapply finishes_bind; [apply Hs, Hb|exact IH].
Qed.

(** ** interface.go *)

Record Log := {
  log_Address : Address;
  log_Topics : list Hash;
  log_Data : bytes;
  log_BlockNumber : Z;
  log_TxHash : Hash;
  log_TxIndex : Z;
  log_BlockHash : Hash;
  log_Index : Z
}.

Class StateDB (S : Type) := {
  CreateAccount : Address → S → S;
  SubBalance : Address → Z → S → S;
  AddBalance : Address → Z → S → S;
  GetBalance : S → Address → Z;
  GetNonce : S → Address → Z;
  SetNonce : Address → Z → S → S;
  GetCodeHash : S → Address → Hash;
  GetCode : S → Address → bytes;
  SetCode : Address → bytes → S → S;
  GetCodeSize : S → Address → Z;
  AddRefund : Z → S → S;
  SubRefund : Z → S → Go S;
  GetRefund : S → Z;
  GetCommittedState : S → Address → Hash → Hash;
  GetState : S → Address → Hash → Hash;
  SetState : Address → Hash → Hash → S → S;
  Suicide : Address → S → S * bool;
  HasSuicided : S → Address → bool;
  Exist : S → Address → bool;
  Empty : S → Address → bool;
  AddressInAccessList : S → Address → bool;
  SlotInAccessList : S → Address → Hash → bool * bool;
  AddAddressToAccessList : Address → S → S;
  AddSlotToAccessList : Address → Hash → S → S;
  RevertToSnapshot : Z → S → Go S;
  Snapshot : S → S * Z;
  AddLog : Log → S → S;
  AddLogSu : Log → S → S * Log;
  AddPreimage : Hash → bytes → S → S
}.

(** ** Libraries behind the virtual machine: Keccak and the precompiled contracts *)

Record PrecompiledContract := {
  RequiredGas : bytes → Z;
  run_precompile : bytes → bytes * option VmError
}.

Class Externals := {
  Keccak256 : bytes → bytes;
  PrecompiledContractsHomestead : gmap Address PrecompiledContract;
  PrecompiledContractsByzantium : gmap Address PrecompiledContract;
  PrecompiledContractsIstanbul : gmap Address PrecompiledContract;
  PrecompiledContractsBerlin : gmap Address PrecompiledContract
}.

Definition Keccak256Hash `{Externals} (b : bytes) : Hash := BytesToHash (Keccak256 b).
Definition emptyCodeHash `{Externals} : Hash := Keccak256Hash [].

(** ** Chain rules and block context *)

Record Rules := {
  ChainID : Z;
  IsHomestead : bool;
  IsEIP150 : bool;
  IsEIP155 : bool;
  IsEIP158 : bool;
  IsByzantium : bool;
  IsConstantinople : bool;
  IsPetersburg : bool;
  IsIstanbul : bool;
  IsBerlin : bool;
  IsLondon : bool
}.

Record BlockContext := {
  GetHash : Z → Hash;
  Coinbase : Address;
  GasLimit : Z;
  BlockNumber : Z;
  Time : Z;
  Difficulty : Z;
  BaseFee : Z
}.

Record TxContext := { Origin : Address; GasPrice : Z }.

(** ** contract.go: the record *)

Abbreviation loc := nat.

Inductive ContractRef (C : Type) :=
| AccountRef (a : Address)
| OfContract (c : C).
Arguments AccountRef {C} a.
Arguments OfContract {C} c.

Inductive Contract := mkContract {
  CallerAddress : Address;
  caller : ContractRef Contract;
  self : ContractRef Contract;
  jumpdests : loc;
  analysis : option bitvec;
  Code : bytes;
  CodeHash : Hash;
  CodeAddr : option Address;
  Input : bytes;
  Gas : Z;
  value : option Z
}.

(** [ContractRef.Address()]; the [self] of a contract is an [AccountRef]. *)
Fixpoint contract_Address (c : Contract) : Address :=
  match self c with AccountRef a => a | OfContract c' => contract_Address c' end.

Definition ref_Address (r : ContractRef Contract) : Address :=
  match r with AccountRef a => a | OfContract c => contract_Address c end.

Definition set_Gas (c : Contract) (g : Z) : Contract :=
  mkContract (CallerAddress c) (caller c) (self c) (jumpdests c) (analysis c) (Code c) (CodeHash c)
    (CodeAddr c) (Input c) g (value c).
Definition set_Input (c : Contract) (i : bytes) : Contract :=
  mkContract (CallerAddress c) (caller c) (self c) (jumpdests c) (analysis c) (Code c) (CodeHash c)
    (CodeAddr c) i (Gas c) (value c).
Definition set_analysis (c : Contract) (a : option bitvec) : Contract :=
  mkContract (CallerAddress c) (caller c) (self c) (jumpdests c) a (Code c) (CodeHash c)
    (CodeAddr c) (Input c) (Gas c) (value c).

Definition SetCallCode (c : Contract) (addr : option Address) (hash : Hash) (code : bytes) : Contract :=
  mkContract (CallerAddress c) (caller c) (self c) (jumpdests c) (analysis c) code hash
    addr (Input c) (Gas c) (value c).

Definition AsDelegate (c : Contract) : Go Contract :=
  match caller c with
  | OfContract parent =>
      Ret (mkContract (CallerAddress parent) (caller c) (self c) (jumpdests c) (analysis c) (Code c)
             (CodeHash c) (CodeAddr c) (Input c) (Gas c) (value parent))
  | AccountRef _ => Panic TypeAssertion
  end.

Definition GetOp (c : Contract) (n : Z) : Z :=
  if n <? len (Code c) then default STOP (Code c !! Z.to_nat n) else STOP.

(** [UseGas]: the contract, and whether there was enough gas. *)
Definition UseGas (c : Contract) (gas : Z) : Contract * bool :=
  if Gas c <? gas then (c, false) else (set_Gas c (Gas c - gas), true).

(** ** Jump destinations, over the store of the maps *)

Abbreviation JumpMaps := (list (gmap Hash bitvec)).

Definition isCode (m : JumpMaps) (c : Contract) (udest : Z) : Res (JumpMaps * Contract * bool) :=
  match analysis c with
  | Some a => b ← of_go (codeSegment a udest); Done (m, c, b)
  | None =>
      if negb (CodeHash c =? 0) then
        match m !! jumpdests c with
        | None => Crash NilMapWrite
        | Some known =>
            '(m, a) ← match known !! CodeHash c with
                      | Some a => Done (m, a)
                      | None =>
                          a ← of_run (codeBitmap (Code c));
                          Done (<[jumpdests c := <[CodeHash c := a]> known]> m, a)
                      end;
            b ← of_go (codeSegment a udest);
            Done (m, set_analysis c (Some a), b)
        end
      else
        a ← of_run (codeBitmap (Code c));
        b ← of_go (codeSegment a udest);
        Done (m, set_analysis c (Some a), b)
  end.

Definition validJumpdest `{Uint256} (m : JumpMaps) (c : Contract) (dest : Z) : Res (JumpMaps * Contract * bool) :=
  let '(udest, overflow) := Uint64WithOverflow dest in
  if overflow || (len (Code c) <=? udest) then Done (m, c, false)
  else if negb (default 0 (Code c !! Z.to_nat udest) =? JUMPDEST) then Done (m, c, false)
  else isCode m c udest.

(** ** evm.go: the EVM and its interpreter's fields *)

Record EVM (S : Type) := {
  Context : BlockContext;
  TxCtx : TxContext;
  statedb : S;
  depth : Z;
  chainRules : Rules;
  abort : bool;
  callGasTemp : Z;
  CallStack : list InternalTx;
  ExTx : ExternalTx;
  readOnly : bool;
  returnData : bytes;
  jumpmaps : JumpMaps;
  block_hashes : gmap Z Hash;
  hashes_asked : gset Z
}.
Arguments Context {S}. Arguments TxCtx {S}. Arguments statedb {S}. Arguments depth {S}.
Arguments chainRules {S}. Arguments abort {S}. Arguments callGasTemp {S}. Arguments CallStack {S}.
Arguments ExTx {S}. Arguments readOnly {S}. Arguments returnData {S}. Arguments jumpmaps {S}.
Arguments block_hashes {S}. Arguments hashes_asked {S}.

Section evm.
Context {S : Type}.

Definition set_statedb (e : EVM S) (s : S) : EVM S :=
  Build_EVM S (Context e) (TxCtx e) s (depth e) (chainRules e) (abort e) (callGasTemp e)
    (CallStack e) (ExTx e) (readOnly e) (returnData e) (jumpmaps e) (block_hashes e) (hashes_asked e).
Definition set_depth (e : EVM S) (d : Z) : EVM S :=
  Build_EVM S (Context e) (TxCtx e) (statedb e) d (chainRules e) (abort e) (callGasTemp e)
    (CallStack e) (ExTx e) (readOnly e) (returnData e) (jumpmaps e) (block_hashes e) (hashes_asked e).
Definition set_callGasTemp (e : EVM S) (g : Z) : EVM S :=
  Build_EVM S (Context e) (TxCtx e) (statedb e) (depth e) (chainRules e) (abort e) g
    (CallStack e) (ExTx e) (readOnly e) (returnData e) (jumpmaps e) (block_hashes e) (hashes_asked e).
Definition set_recording (e : EVM S) (cs : list InternalTx) (ex : ExternalTx) : EVM S :=
  Build_EVM S (Context e) (TxCtx e) (statedb e) (depth e) (chainRules e) (abort e) (callGasTemp e)
    cs ex (readOnly e) (returnData e) (jumpmaps e) (block_hashes e) (hashes_asked e).
Definition set_readOnly (e : EVM S) (b : bool) : EVM S :=
  Build_EVM S (Context e) (TxCtx e) (statedb e) (depth e) (chainRules e) (abort e) (callGasTemp e)
    (CallStack e) (ExTx e) b (returnData e) (jumpmaps e) (block_hashes e) (hashes_asked e).
Definition set_returnData (e : EVM S) (r : bytes) : EVM S :=
  Build_EVM S (Context e) (TxCtx e) (statedb e) (depth e) (chainRules e) (abort e) (callGasTemp e)
    (CallStack e) (ExTx e) (readOnly e) r (jumpmaps e) (block_hashes e) (hashes_asked e).
Definition set_jumpmaps (e : EVM S) (m : JumpMaps) : EVM S :=
  Build_EVM S (Context e) (TxCtx e) (statedb e) (depth e) (chainRules e) (abort e) (callGasTemp e)
    (CallStack e) (ExTx e) (readOnly e) (returnData e) m (block_hashes e) (hashes_asked e).

Definition set_hashes (e : EVM S) (hashes : gmap Z Hash) (asked : gset Z) : EVM S :=
  Build_EVM S (Context e) (TxCtx e) (statedb e) (depth e) (chainRules e) (abort e) (callGasTemp e)
    (CallStack e) (ExTx e) (readOnly e) (returnData e) (jumpmaps e) hashes asked.

(** [NewContract]: a caller that is a contract shares its map, any other caller
    gets a new one. *)
Definition NewContract (e : EVM S) (caller object : ContractRef Contract) (value : option Z) (gas : Z)
    : EVM S * Contract :=
  let '(e, l) := match caller with
                 | OfContract parent => (e, jumpdests parent)
                 | AccountRef _ => (set_jumpmaps e (jumpmaps e ++ [∅]), length (jumpmaps e))
                 end in
  (e, mkContract (ref_Address caller) caller object l None [] 0 None [] gas value).
End evm.
