(* ===== verification/Evm.v ===== *)
(** * core/vm/evm.go and core/vm/interpreter.go: calls, creations and the interpreter

    The calls take the interpreter's [Run] as an argument; [Run] gives the
    instructions the calls over itself, one level less deep. *)

From S2P Require Import Prelude Common Params Uint256 Machine Tx Vm.

Section evm.
Context {S : Type} `{StateDB S} `{Uint256} `{Externals}.

(** ** core/evm.go *)

Definition CanTransfer (db : S) (addr : Address) (amount : Z) : bool := amount <=? GetBalance db addr.

Definition Transfer (db : S) (sender recipient : Address) (amount : Z) : S :=
  AddBalance recipient amount (SubBalance sender amount db).

(** ** contracts.go *)

Definition precompile (rules : Rules) (addr : Address) : option PrecompiledContract :=
  let precompiles :=
    if IsBerlin rules then PrecompiledContractsBerlin
    else if IsIstanbul rules then PrecompiledContractsIstanbul
    else if IsByzantium rules then PrecompiledContractsByzantium
    else PrecompiledContractsHomestead in
  precompiles !! addr.

Definition RunPrecompiledContract (p : PrecompiledContract) (input : bytes) (suppliedGas : Z)
    : bytes * Z * option VmError :=
  let gasCost := RequiredGas p input in
  if suppliedGas <? gasCost then ([], 0, Some ErrOutOfGas)
  else let '(output, err) := run_precompile p input in (output, suppliedGas - gasCost, err).

(** ** crypto.go: the addresses of created contracts

    [rlp_address_nonce] is [rlp.EncodeToBytes] of an address and a number. *)
Fixpoint be_bytes (fuel : nat) (x : Z) : bytes :=
  match fuel with
  | O => []
  | Datatypes.S fuel' => if x =? 0 then [] else be_bytes fuel' (x / 256) ++ [x mod 256]
  end.

Definition rlp_uint64 (x : Z) : bytes :=
  if x =? 0 then [128]
  else if x <? 128 then [x]
  else let b := be_bytes 8 x in (128 + len b) :: b.

Definition rlp_address_nonce (b : Address) (nonce : Z) : bytes :=
  let payload := (128 + 20) :: Address_Bytes b ++ rlp_uint64 nonce in
  (192 + len payload) :: payload.

Definition CreateAddress (b : Address) (nonce : Z) : Address :=
  BytesToAddress (drop 12 (Keccak256 (rlp_address_nonce b nonce))).

Definition CreateAddress2 (b : Address) (salt : bytes) (inithash : bytes) : Address :=
  BytesToAddress (drop 12 (Keccak256 ([255] ++ Address_Bytes b ++ salt ++ inithash))).

(** ** The recorder: the nodes of pending calls *)

Definition set_IsContract (n : InternalTx) : InternalTx :=
  mkInternalTx (itx_From n) (itx_To n) true (itx_Value n) (itx_CallType n) (itx_Input n)
    (itx_Events n) (itx_InTxs n).
Definition set_Events (n : InternalTx) (evs : list Event) : InternalTx :=
  mkInternalTx (itx_From n) (itx_To n) (itx_IsContract n) (itx_Value n) (itx_CallType n) (itx_Input n)
    evs (itx_InTxs n).
Definition add_InTx (n child : InternalTx) : InternalTx :=
  mkInternalTx (itx_From n) (itx_To n) (itx_IsContract n) (itx_Value n) (itx_CallType n) (itx_Input n)
    (itx_Events n) (itx_InTxs n ++ [child]).
Definition add_root (ex : ExternalTx) (child : InternalTx) : ExternalTx :=
  {| etx_BlockNumber := etx_BlockNumber ex; etx_Timestamp := etx_Timestamp ex;
     etx_TxIndex := etx_TxIndex ex; etx_InTxs := etx_InTxs ex ++ [child] |}.

Definition push_node (e : EVM S) (n : InternalTx) : EVM S := set_recording e (n :: CallStack e) (ExTx e).

(** The call of an account without code is added to the top node. *)
Definition attach_leaf (e : EVM S) (n : InternalTx) : Res (EVM S) :=
  match CallStack e with
  | top :: rest => Done (set_recording e (add_InTx top n :: rest) (ExTx e))
  | [] => Crash IndexOutOfRange
  end.

(** The top node is popped and added to the node below, or to the transaction. *)
Definition pop_node (e : EVM S) : Res (EVM S) :=
  match CallStack e with
  | top :: parent :: rest => Done (set_recording e (add_InTx parent top :: rest) (ExTx e))
  | [top] => Done (set_recording e [] (add_root (ExTx e) top))
  | [] => Crash IndexOutOfRange
  end.

(** ** Calls *)

Definition Runner : Type :=
  Contract → bytes → bool → EVM S → Res (EVM S * (Contract * bytes * option VmError)).

Definition CallResult : Type := Res (EVM S * (bytes * Z * option VmError)).

(** The end of every call: an error reverts, and takes the gas unless it is a revert. *)
Definition settle (snapshot : Z) (e : EVM S) (ret : bytes) (gas : Z) (err : option VmError) : CallResult :=
  match err with
  | None => Done (e, (ret, gas, None))
  | Some x =>
      s ← of_go (RevertToSnapshot snapshot (statedb e));
      Done (set_statedb e s, (ret, if decide (x = ErrExecutionReverted) then gas else 0, Some x))
  end.

Section with_run.
Context (run : Runner).

(** Run a contract under a node of the recorder. *)
Definition run_recorded (e : EVM S) (node : InternalTx) (contract : Contract) (input : bytes) (ro : bool)
    : Res (EVM S * (Contract * bytes * option VmError)) :=
  '(e, r) ← run contract input ro (push_node e node);
  e ← pop_node e;
  Done (e, r).

Definition Call (caller : ContractRef Contract) (addr : Address) (input : bytes) (gas value : Z)
    (e : EVM S) : CallResult :=
  let node := mkInternalTx (ref_Address caller) addr false (Some value) "Call" input [] [] in
  if CallCreateDepth <? depth e then Done (e, ([], gas, Some ErrDepth))
  else if negb (value =? 0) && negb (CanTransfer (statedb e) (ref_Address caller) value) then
    Done (e, ([], gas, Some ErrInsufficientBalance))
  else
    let '(s, snapshot) := Snapshot (statedb e) in
    let p := precompile (chainRules e) addr in
    if negb (Exist s addr) && (negb (bool_decide (is_Some p)) && IsEIP158 (chainRules e) && (value =? 0)) then
      Done (set_statedb e s, ([], gas, None))
    else
      let s := if Exist s addr then s else CreateAccount addr s in
      let e := set_statedb e (Transfer s (ref_Address caller) addr value) in
      '(e, (ret, gas, err)) ←
        match p with
        | Some p => Done (e, RunPrecompiledContract p input gas)
        | None =>
            let code := GetCode (statedb e) addr in
            if len code =? 0 then
              e ← attach_leaf e node;
              Done (e, ([], gas, None))
            else
              let '(e, contract) := NewContract e caller (AccountRef addr) (Some value) gas in
              let contract := SetCallCode contract (Some addr) (GetCodeHash (statedb e) addr) code in
              '(e, (contract, ret, err)) ← run_recorded e (set_IsContract node) contract input false;
              Done (e, (ret, Gas contract, err))
        end;
      settle snapshot e ret gas err.

Definition CallCode (caller : ContractRef Contract) (addr : Address) (input : bytes) (gas value : Z)
    (e : EVM S) : CallResult :=
  let node := mkInternalTx (ref_Address caller) addr false (Some value) "CallCode" input [] [] in
  if CallCreateDepth <? depth e then Done (e, ([], gas, Some ErrDepth))
  else if negb (CanTransfer (statedb e) (ref_Address caller) value) then
    Done (e, ([], gas, Some ErrInsufficientBalance))
  else
    let '(s, snapshot) := Snapshot (statedb e) in
    let e := set_statedb e s in
    '(e, (ret, gas, err)) ←
      match precompile (chainRules e) addr with
      | Some p => Done (e, RunPrecompiledContract p input gas)
      | None =>
          let '(e, contract) := NewContract e caller (AccountRef (ref_Address caller)) (Some value) gas in
          let contract :=
            SetCallCode contract (Some addr) (GetCodeHash (statedb e) addr) (GetCode (statedb e) addr) in
          '(e, (contract, ret, err)) ← run_recorded e (set_IsContract node) contract input false;
          Done (e, (ret, Gas contract, err))
      end;
    settle snapshot e ret gas err.

Definition DelegateCall (caller : ContractRef Contract) (addr : Address) (input : bytes) (gas : Z)
    (e : EVM S) : CallResult :=
  let node := mkInternalTx (ref_Address caller) addr false None "DelegateCall" input [] [] in
  if CallCreateDepth <? depth e then Done (e, ([], gas, Some ErrDepth))
  else
    let '(s, snapshot) := Snapshot (statedb e) in
    let e := set_statedb e s in
    '(e, (ret, gas, err)) ←
      match precompile (chainRules e) addr with
      | Some p => Done (e, RunPrecompiledContract p input gas)
      | None =>
          let '(e, contract) := NewContract e caller (AccountRef (ref_Address caller)) None gas in
          contract ← of_go (AsDelegate contract);
          let contract :=
            SetCallCode contract (Some addr) (GetCodeHash (statedb e) addr) (GetCode (statedb e) addr) in
          '(e, (contract, ret, err)) ← run_recorded e (set_IsContract node) contract input false;
          Done (e, (ret, Gas contract, err))
      end;
    settle snapshot e ret gas err.

Definition StaticCall (caller : ContractRef Contract) (addr : Address) (input : bytes) (gas : Z)
    (e : EVM S) : CallResult :=
  let node := mkInternalTx (ref_Address caller) addr false None "StaticCall" input [] [] in
  if CallCreateDepth <? depth e then Done (e, ([], gas, Some ErrDepth))
  else
    let '(s, snapshot) := Snapshot (statedb e) in
    let e := set_statedb e (AddBalance addr 0 s) in
    '(e, (ret, gas, err)) ←
      match precompile (chainRules e) addr with
      | Some p => Done (e, RunPrecompiledContract p input gas)
      | None =>
          let '(e, contract) := NewContract e caller (AccountRef addr) (Some 0) gas in
          let contract :=
            SetCallCode contract (Some addr) (GetCodeHash (statedb e) addr) (GetCode (statedb e) addr) in
          '(e, (contract, ret, err)) ← run_recorded e (set_IsContract node) contract input true;
          Done (e, (ret, Gas contract, err))
      end;
    settle snapshot e ret gas err.

(** ** Creations *)

Definition CreateResult : Type := Res (EVM S * (bytes * Address * Z * option VmError)).

(** Whether the returned code is accepted, and the gas of storing it. *)
Definition store_code (e : EVM S) (contract : Contract) (address : Address) (ret : bytes)
    (err : option VmError) : EVM S * Contract * option VmError :=
  let err := if bool_decide (err = None) && IsEIP158 (chainRules e) && (MaxCodeSize <? len ret)
             then Some ErrMaxCodeSizeExceeded else err in
  let err := if bool_decide (err = None) && (1 <=? len ret) && (default 0 (ret !! 0%nat) =? 0xEF)
                && IsLondon (chainRules e)
             then Some ErrInvalidCode else err in
  match err with
  | None =>
      let createDataGas := wrapU 64 (len ret * CreateDataGas) in
      let '(contract, ok) := UseGas contract createDataGas in
      if ok : bool then (set_statedb e (SetCode address ret (statedb e)), contract, None)
      else (e, contract, Some ErrCodeStoreOutOfGas)
  | Some _ => (e, contract, err)
  end.

(** [codeAndHash]: the code with the hash [Create2] computed, or none. *)
Definition create (caller : ContractRef Contract) (code : bytes) (hash : Hash) (gas value : Z)
    (address : Address) (e : EVM S) : CreateResult :=
  let node := mkInternalTx (ref_Address caller) 0 false None "Create" [] [] [] in
  if CallCreateDepth <? depth e then Done (e, ([], 0, gas, Some ErrDepth))
  else if negb (CanTransfer (statedb e) (ref_Address caller) value) then
    Done (e, ([], 0, gas, Some ErrInsufficientBalance))
  else
    let nonce := GetNonce (statedb e) (ref_Address caller) in
    if wrapU 64 (nonce + 1) <? nonce then Done (e, ([], 0, gas, Some ErrNonceUintOverflow))
    else
      let s := SetNonce (ref_Address caller) (wrapU 64 (nonce + 1)) (statedb e) in
      let s := if IsBerlin (chainRules e) then AddAddressToAccessList address s else s in
      let contractHash := GetCodeHash s address in
      if negb (GetNonce s address =? 0) || (negb (contractHash =? 0) && negb (contractHash =? emptyCodeHash)) then
        Done (set_statedb e s, ([], 0, 0, Some ErrContractAddressCollision))
      else
        let '(s, snapshot) := Snapshot s in
        let s := CreateAccount address s in
        let s := if IsEIP158 (chainRules e) then SetNonce address 1 s else s in
        let e := set_statedb e (Transfer s (ref_Address caller) address value) in
        let '(e, contract) := NewContract e caller (AccountRef address) (Some value) gas in
        let contract := SetCallCode contract (Some address) hash code in
        '(e, (contract, ret, err)) ← run_recorded e (set_IsContract node) contract [] false;
        let '(e, contract, err) := store_code e contract address ret err in
        match err with
        | Some x =>
            if IsHomestead (chainRules e) || bool_decide (x ≠ ErrCodeStoreOutOfGas) then
              s ← of_go (RevertToSnapshot snapshot (statedb e));
              let contract := if decide (x = ErrExecutionReverted) then contract
                              else fst (UseGas contract (Gas contract)) in
              Done (set_statedb e s, (ret, address, Gas contract, Some x))
            else Done (e, (ret, address, Gas contract, Some x))
        | None => Done (e, (ret, address, Gas contract, None))
        end.

Definition Create (caller : ContractRef Contract) (code : bytes) (gas value : Z) (e : EVM S) : CreateResult :=
  create caller code 0 gas value
    (CreateAddress (ref_Address caller) (GetNonce (statedb e) (ref_Address caller))) e.

Definition Create2 (caller : ContractRef Contract) (code : bytes) (gas endowment salt : Z) (e : EVM S)
    : CreateResult :=
  let hash := Keccak256Hash code in
  create caller code hash gas endowment
    (CreateAddress2 (ref_Address caller) (Bytes32 salt) (Hash_Bytes hash)) e.
End with_run.
End evm.
