(* ===== verification/Interpreter.v ===== *)
(** * core/vm/interpreter.go: the interpreter loop

    A frame is what the loop and its instructions read and change: the EVM, the
    program counter, the memory, the stack and the contract. *)

From S2P Require Import Prelude Common Params Uint256 Machine Tx Vm Evm.

Record Frame (S : Type) := {
  f_evm : EVM S;
  f_pc : Z;
  f_mem : Memory;
  f_stack : Stack;
  f_contract : Contract
}.
Arguments f_evm {S}. Arguments f_pc {S}. Arguments f_mem {S}. Arguments f_stack {S}. Arguments f_contract {S}.
Arguments Build_Frame {S}.

(** ** Computations over a frame: they may panic, and may end with an error *)

Definition Exec (S A : Type) : Type := Frame S → Res (Frame S * (VmError + A)).

#[export] Instance Exec_ret {S} : MRet (Exec S) := λ A a f, Done (f, inr a).
#[export] Instance Exec_bind {S} : MBind (Exec S) :=
  λ A B k m f,
    '(f, r) ← m f;
    match r with inl err => Done (f, inl err) | inr a => k a f end.

Section exec.
Context {S : Type}.

Definition throw {A} (err : VmError) : Exec S A := λ f, Done (f, inl err).
Definition lift {A} (m : Go A) : Exec S A := λ f, a ← of_go m; Done (f, inr a).
Definition gets {A} (g : Frame S → A) : Exec S A := λ f, Done (f, inr (g f)).
Definition modify_evm (h : EVM S → EVM S) : Exec S unit :=
  λ f, Done (Build_Frame (h (f_evm f)) (f_pc f) (f_mem f) (f_stack f) (f_contract f), inr tt).
Definition put_pc (pc : Z) : Exec S unit :=
  λ f, Done (Build_Frame (f_evm f) pc (f_mem f) (f_stack f) (f_contract f), inr tt).
Definition put_mem (m : Memory) : Exec S unit :=
  λ f, Done (Build_Frame (f_evm f) (f_pc f) m (f_stack f) (f_contract f), inr tt).
Definition put_stack (st : Stack) : Exec S unit :=
  λ f, Done (Build_Frame (f_evm f) (f_pc f) (f_mem f) st (f_contract f), inr tt).
Definition put_contract (c : Contract) : Exec S unit :=
  λ f, Done (Build_Frame (f_evm f) (f_pc f) (f_mem f) (f_stack f) c, inr tt).

Definition get_db : Exec S S := gets (λ f, statedb (f_evm f)).
Definition put_db (s : S) : Exec S unit := modify_evm (λ e, set_statedb e s).
Definition rules : Exec S Rules := gets (λ f, chainRules (f_evm f)).
Definition back (n : Z) : Exec S Z := st ← gets f_stack; lift (Back st n).
End exec.

Section interpreter.
Context {S : Type} `{StateDB S} `{Uint256} `{Externals}.

(** ** The calls an instruction can make *)
Record Calls := {
  evm_Call : ContractRef Contract → Address → bytes → Z → Z → EVM S → CallResult (S := S);
  evm_CallCode : ContractRef Contract → Address → bytes → Z → Z → EVM S → CallResult (S := S);
  evm_DelegateCall : ContractRef Contract → Address → bytes → Z → EVM S → CallResult (S := S);
  evm_StaticCall : ContractRef Contract → Address → bytes → Z → EVM S → CallResult (S := S);
  evm_Create : ContractRef Contract → bytes → Z → Z → EVM S → CreateResult (S := S);
  evm_Create2 : ContractRef Contract → bytes → Z → Z → Z → EVM S → CreateResult (S := S)
}.

Definition calls_of (run : Runner (S := S)) : Calls := {|
  evm_Call := Call run;
  evm_CallCode := CallCode run;
  evm_DelegateCall := DelegateCall run;
  evm_StaticCall := StaticCall run;
  evm_Create := Create run;
  evm_Create2 := Create2 run
|}.

(** ** jump_table.go: operations

    [execute] returns the result with the error of the instruction; an error
    raised in between returns no result.  [executeLog] also returns the event. *)
Record operation := {
  execute : option (Calls → Exec S (bytes * option VmError));
  executeLog : option (Exec S (Event * (bytes * option VmError)));
  constantGas : Z;
  dynamicGas : option (Z → Exec S Z);
  op_minStack : Z;
  op_maxStack : Z;
  memorySize : option (Stack → Go (Z * bool))
}.

Definition JumpTable : Type := Z → operation.

(** ** One turn of the loop *)

Inductive StepResult :=
| Next (ev : option Event)
| Return (err : VmError)
| Break (ev : option Event) (ret : bytes) (err : VmError).

Definition use_gas (gas : Z) : Exec S unit :=
  c ← gets f_contract;
  let '(c, ok) := UseGas c gas in
  _ ← put_contract c;
  if ok : bool then mret tt else throw ErrOutOfGas.

Definition check_stack (op : operation) : Exec S unit :=
  st ← gets f_stack;
  if st_len st <? op_minStack op then throw (ErrStackUnderflow (st_len st) (op_minStack op))
  else if op_maxStack op <? st_len st then throw (ErrStackOverflow (st_len st) (op_maxStack op))
  else mret tt.

Definition memory_size (op : operation) : Exec S Z :=
  match memorySize op with
  | None => mret 0
  | Some size =>
      st ← gets f_stack;
      '(memSize, overflow) ← lift (size st);
      if overflow : bool then throw ErrGasUintOverflow
      else
        let '(memorySize, overflow) := SafeMul (toWordSize memSize) 32 in
        if overflow : bool then throw ErrGasUintOverflow else mret memorySize
  end.

(** An error of the gas function is an out-of-gas error. *)
Definition charge_dynamic (op : operation) : Exec S unit :=
  match dynamicGas op with
  | None => mret tt
  | Some dyn =>
      memorySize ← memory_size op;
      dynamicCost ← (λ f,
        '(f, r) ← dyn memorySize f;
        Done (f, match r with inl _ => inl ErrOutOfGas | inr cost => inr cost end));
      _ ← use_gas dynamicCost;
      if 0 <? memorySize then
        m ← gets f_mem; put_mem (Resize m memorySize)
      else mret tt
  end.

Definition is_log (op : Z) : bool := (LOG0 <=? op) && (op <=? LOG4).

(** The event of a log instruction is recorded even if the instruction fails;
    it is the zero [Event] then. *)
Definition zero_event : Event := {| ev_Address := 0; ev_Topics := []; ev_Data := []; ev_Index := 0 |}.

Definition perform (op : Z) (oper : operation) (calls : Calls) (f : Frame S)
    : Res (Frame S * (option Event * (bytes * option VmError))) :=
  if is_log op then
    match executeLog oper with
    | None => Crash NilDereference
    | Some ex =>
        '(f, r) ← ex f;
        Done (f, match r with
                 | inl err => (Some zero_event, ([], Some err))
                 | inr (ev, r) => (Some ev, r)
                 end)
    end
  else
    match execute oper with
    | None => Crash NilDereference
    | Some ex =>
        '(f, r) ← ex calls f;
        Done (f, match r with
                 | inl err => (None, ([], Some err))
                 | inr r => (None, r)
                 end)
    end.

Definition step (tbl : JumpTable) (calls : Calls) (f : Frame S) : Res (Frame S * StepResult) :=
  let op := GetOp (f_contract f) (f_pc f) in
  let oper := tbl op in
  '(f, r) ← (_ ← check_stack oper; _ ← use_gas (constantGas oper); charge_dynamic oper) f;
  match r with
  | inl err => Done (f, Return err)
  | inr _ =>
      '(f, (ev, (ret, err))) ← perform op oper calls f;
      match err with
      | Some err => Done (f, Break ev ret err)
      | None =>
          Done (Build_Frame (f_evm f) (wrapU 64 (f_pc f + 1)) (f_mem f) (f_stack f) (f_contract f), Next ev)
      end
  end.

(** ** The loop

    The result is the returned bytes and error, and the events if the loop was
    left by [break]. *)
Definition opt_list {A} (o : option A) : list A := match o with Some a => [a] | None => [] end.

Fixpoint loop (fuel : nat) (tbl : JumpTable) (calls : Calls) (f : Frame S) (events : list Event)
    : Res (Frame S * (option (list Event) * bytes * VmError)) :=
  match fuel with
  | O => OutOfFuel
  | Datatypes.S fuel' =>
      '(f, r) ← step tbl calls f;
      match r with
      | Return err => Done (f, (None, [], err))
      | Break ev ret err => Done (f, (Some (events ++ opt_list ev), ret, err))
      | Next ev => loop fuel' tbl calls f (events ++ opt_list ev)
      end
  end.

(** The events become those of the node on top of the call stack. *)
Definition set_top_events (e : EVM S) (events : list Event) : Res (EVM S) :=
  match CallStack e with
  | top :: rest => Done (set_recording e (set_Events top events :: rest) (ExTx e))
  | [] => Crash IndexOutOfRange
  end.

(** The start of [Run] and its deferred end: the depth, the read-only flag and
    the return data. *)
Definition resets (e : EVM S) (ro : bool) : bool := ro && negb (readOnly e).

Definition enter_run (e : EVM S) (ro : bool) : EVM S :=
  let e := set_depth e (depth e + 1) in
  set_returnData (if resets e ro then set_readOnly e true else e) [].

Definition leave_run (reset : bool) (e : EVM S) : EVM S :=
  let e := if reset then set_readOnly e false else e in
  set_depth e (depth e - 1).

(** The body of [Run]; the turns are bounded by [S gas], as every instruction
    that does not end the loop uses gas. *)
Definition run_body (tbl : JumpTable) (calls : Calls) : Runner (S := S) := λ contract input ro e,
  let leave := leave_run (resets e ro) in
  let e := enter_run e ro in
  if len (Code contract) =? 0 then Done (leave e, (contract, [], None))
  else
    let contract := set_Input contract input in
    '(f, (events, ret, err)) ←
      loop (Datatypes.S (Z.to_nat (Gas contract))) tbl calls
        {| f_evm := e; f_pc := 0; f_mem := NewMemory; f_stack := newstack; f_contract := contract |} [];
    match events with
    | None => Done (leave (f_evm f), (f_contract f, [], Some err))
    | Some events =>
        e ← set_top_events (f_evm f) events;
        Done (leave e, (f_contract f, ret, if decide (err = errStopToken) then None else Some err))
    end.

(** [Run] to a given number of nested calls. *)
Fixpoint Run (levels : nat) (tbl : JumpTable) : Runner (S := S) := λ contract input ro e,
  match levels with
  | O => OutOfFuel
  | Datatypes.S levels => run_body tbl (calls_of (Run levels tbl)) contract input ro e
  end.
End interpreter.
