(* ===== verification/Gas.v ===== *)
(** * core/vm/gas_table.go and core/vm/operations_acl.go: dynamic gas

    Each function takes the requested memory size and runs over the frame whose
    stack, memory, contract and state it consults. *)

From S2P Require Import Prelude Common Params Uint256 Machine Tx Vm Interpreter.

Section gas.
Context {S : Type} `{StateDB S} `{Uint256}.

Definition gasFunc : Type := Z → Exec S Z.

Definition safe_add (x y : Z) : Exec S Z :=
  let '(r, overflow) := SafeAdd x y in if overflow : bool then throw ErrGasUintOverflow else mret r.
Definition safe_mul (x y : Z) : Exec S Z :=
  let '(r, overflow) := SafeMul x y in if overflow : bool then throw ErrGasUintOverflow else mret r.
Definition uint64_or_overflow (x : Z) : Exec S Z :=
  let '(r, overflow) := Uint64WithOverflow x in if overflow : bool then throw ErrGasUintOverflow else mret r.

Definition of_sum {A} (r : VmError + A) : Exec S A :=
  match r with inl err => throw err | inr a => mret a end.

Definition memory_gas (memorySize : Z) : Exec S Z :=
  m ← gets f_mem;
  let '(m, r) := memoryGasCost m memorySize in
  _ ← put_mem m;
  of_sum r.

Definition self_Address : Exec S Address := gets (λ f, contract_Address (f_contract f)).
Definition contract_Gas : Exec S Z := gets (λ f, Gas (f_contract f)).
Definition AddRefund_ (g : Z) : Exec S unit := db ← get_db; put_db (AddRefund g db).
Definition SubRefund_ (g : Z) : Exec S unit := db ← get_db; db ← lift (SubRefund g db); put_db db.
Definition when (b : bool) (m : Exec S unit) : Exec S unit := if b then m else mret tt.

(** [common.Address(x.Bytes20())] and [common.Hash(x.Bytes32())] *)
Definition to_address (x : Z) : Address := be_val (Bytes20 x).
Definition to_hash (x : Z) : Hash := be_val (Bytes32 x).

Definition memoryCopierGas (stackpos : Z) : gasFunc := λ memorySize,
  gas ← memory_gas memorySize;
  words ← back stackpos;
  words ← uint64_or_overflow words;
  words ← safe_mul (toWordSize words) CopyGas;
  safe_add gas words.

Definition gasCallDataCopy : gasFunc := memoryCopierGas 2.
Definition gasCodeCopy : gasFunc := memoryCopierGas 2.
Definition gasExtCodeCopy : gasFunc := memoryCopierGas 3.
Definition gasReturnDataCopy : gasFunc := memoryCopierGas 2.

(** The refunds of a dirty slot, common to the net-metered schedules. *)
Definition dirty_refunds (original current value clear reset_clear reset : Z) : Exec S unit :=
  _ ← when (negb (original =? 0))
        (if current =? 0 then SubRefund_ clear else when (value =? 0) (AddRefund_ clear));
  when (original =? value)
    (if original =? 0 then AddRefund_ reset_clear else AddRefund_ reset).

Definition gasSStore : gasFunc := λ _,
  y ← back 1; x ← back 0;
  addr ← self_Address;
  db ← get_db;
  r ← rules;
  let current := GetState db addr (to_hash x) in
  if IsPetersburg r || negb (IsConstantinople r) then
    if (current =? 0) && negb (Sign y =? 0) then mret SstoreSetGas
    else if negb (current =? 0) && (Sign y =? 0) then
      _ ← AddRefund_ SstoreRefundGas; mret SstoreClearGas
    else mret SstoreResetGas
  else
    let value := to_hash y in
    if current =? value then mret NetSstoreNoopGas
    else
      let original := GetCommittedState db addr (to_hash x) in
      if original =? current then
        if original =? 0 then mret NetSstoreInitGas
        else _ ← when (value =? 0) (AddRefund_ NetSstoreClearRefund); mret NetSstoreCleanGas
      else
        _ ← dirty_refunds original current value NetSstoreClearRefund NetSstoreResetClearRefund NetSstoreResetRefund;
        mret NetSstoreDirtyGas.

Definition gasSStoreEIP2200 : gasFunc := λ _,
  g ← contract_Gas;
  if g <=? SstoreSentryGasEIP2200 then throw ErrReentrancySentry
  else
    y ← back 1; x ← back 0;
    addr ← self_Address;
    db ← get_db;
    let current := GetState db addr (to_hash x) in
    let value := to_hash y in
    if current =? value then mret SloadGasEIP2200
    else
      let original := GetCommittedState db addr (to_hash x) in
      if original =? current then
        if original =? 0 then mret SstoreSetGasEIP2200
        else _ ← when (value =? 0) (AddRefund_ SstoreClearsScheduleRefundEIP2200); mret SstoreResetGasEIP2200
      else
        _ ← dirty_refunds original current value SstoreClearsScheduleRefundEIP2200
              (SstoreSetGasEIP2200 - SloadGasEIP2200) (SstoreResetGasEIP2200 - SloadGasEIP2200);
        mret SloadGasEIP2200.

Definition makeGasLog (n : Z) : gasFunc := λ memorySize,
  requestedSize ← back 1;
  requestedSize ← uint64_or_overflow requestedSize;
  gas ← memory_gas memorySize;
  gas ← safe_add gas LogGas;
  gas ← safe_add gas (n * LogTopicGas);
  memorySizeGas ← safe_mul requestedSize LogDataGas;
  safe_add gas memorySizeGas.

Definition gasKeccak256 : gasFunc := λ memorySize,
  gas ← memory_gas memorySize;
  wordGas ← back 1;
  wordGas ← uint64_or_overflow wordGas;
  wordGas ← safe_mul (toWordSize wordGas) Keccak256WordGas;
  safe_add gas wordGas.

Definition pureMemoryGascost : gasFunc := memory_gas.

Definition gasCreate2 : gasFunc := λ memorySize,
  gas ← memory_gas memorySize;
  wordGas ← back 2;
  wordGas ← uint64_or_overflow wordGas;
  wordGas ← safe_mul (toWordSize wordGas) Keccak256WordGas;
  safe_add gas wordGas.

Definition gasExp (perByte : Z) : gasFunc := λ _,
  st ← gets f_stack;
  exponent ← lift (st_at st (st_len st - 2));
  let expByteLen := (BitLen exponent + 7) / 8 in
  safe_add (expByteLen * perByte) ExpGas.

Definition gasExpFrontier : gasFunc := gasExp ExpByteFrontier.
Definition gasExpEIP158 : gasFunc := gasExp ExpByteEIP158.

(** ** Calls: the gas given to the callee is kept in [callGasTemp] *)

Definition call_gas (gas : Z) : Exec S Z :=
  r ← rules;
  available ← contract_Gas;
  requested ← back 0;
  g ← of_sum (callGas (IsEIP150 r) available gas requested);
  _ ← modify_evm (λ e, set_callGasTemp e g);
  safe_add gas g.

Definition gasCall : gasFunc := λ memorySize,
  v ← back 2;
  a ← back 1;
  let transfersValue := negb (IsZero v) in
  let address := to_address a in
  r ← rules;
  db ← get_db;
  let gas := if IsEIP158 r then
               if transfersValue && Empty db address then CallNewAccountGas else 0
             else if negb (Exist db address) then CallNewAccountGas else 0 in
  let gas := gas + (if transfersValue then CallValueTransferGas else 0) in
  memoryGas ← memory_gas memorySize;
  gas ← safe_add gas memoryGas;
  call_gas gas.

Definition gasCallCode : gasFunc := λ memorySize,
  memoryGas ← memory_gas memorySize;
  v ← back 2;
  let gas := if negb (Sign v =? 0) then CallValueTransferGas else 0 in
  gas ← safe_add gas memoryGas;
  call_gas gas.

Definition gasDelegateCall : gasFunc := λ memorySize, gas ← memory_gas memorySize; call_gas gas.
Definition gasStaticCall : gasFunc := λ memorySize, gas ← memory_gas memorySize; call_gas gas.

Definition gasSelfdestruct : gasFunc := λ _,
  r ← rules;
  addr ← self_Address;
  db ← get_db;
  gas ← (if IsEIP150 r then
           a ← back 0;
           let address := to_address a in
           mret (SelfdestructGasEIP150 +
             (if IsEIP158 r then
                if Empty db address && negb (GetBalance db addr =? 0) then CreateBySelfdestructGas else 0
              else if negb (Exist db address) then CreateBySelfdestructGas else 0))
         else mret 0);
  _ ← when (negb (HasSuicided db addr)) (AddRefund_ SelfdestructRefundGas);
  mret gas.

(** ** operations_acl.go *)

Definition makeGasSStoreFunc (clearingRefund : Z) : gasFunc := λ _,
  g ← contract_Gas;
  if g <=? SstoreSentryGasEIP2200 then throw ErrReentrancySentry
  else
    y ← back 1; x ← back 0;
    addr ← self_Address;
    let slot := to_hash x in
    db ← get_db;
    let current := GetState db addr slot in
    let '(addrPresent, slotPresent) := SlotInAccessList db addr slot in
    let cost := if slotPresent : bool then 0 else ColdSloadCostEIP2929 in
    _ ← when (negb slotPresent)
          (_ ← put_db (AddSlotToAccessList addr slot db);
           if addrPresent : bool then mret tt else lift (Panic ExplicitPanic));
    let value := to_hash y in
    if current =? value then mret (cost + WarmStorageReadCostEIP2929)
    else
      db ← get_db;
      let original := GetCommittedState db addr slot in
      if original =? current then
        if original =? 0 then mret (cost + SstoreSetGasEIP2200)
        else
          _ ← when (value =? 0) (AddRefund_ clearingRefund);
          mret (cost + (SstoreResetGasEIP2200 - ColdSloadCostEIP2929))
      else
        _ ← dirty_refunds original current value clearingRefund
              (SstoreSetGasEIP2200 - WarmStorageReadCostEIP2929)
              ((SstoreResetGasEIP2200 - ColdSloadCostEIP2929) - WarmStorageReadCostEIP2929);
        mret (cost + WarmStorageReadCostEIP2929).

Definition gasSLoadEIP2929 : gasFunc := λ _,
  loc ← back 0;
  addr ← self_Address;
  db ← get_db;
  let slot := to_hash loc in
  if snd (SlotInAccessList db addr slot) then mret WarmStorageReadCostEIP2929
  else _ ← put_db (AddSlotToAccessList addr slot db); mret ColdSloadCostEIP2929.

Definition gasExtCodeCopyEIP2929 : gasFunc := λ memorySize,
  gas ← gasExtCodeCopy memorySize;
  a ← back 0;
  db ← get_db;
  let addr := to_address a in
  if negb (AddressInAccessList db addr) then
    _ ← put_db (AddAddressToAccessList addr db);
    safe_add gas (ColdAccountAccessCostEIP2929 - WarmStorageReadCostEIP2929)
  else mret gas.

Definition gasEip2929AccountCheck : gasFunc := λ _,
  a ← back 0;
  db ← get_db;
  let addr := to_address a in
  if negb (AddressInAccessList db addr) then
    _ ← put_db (AddAddressToAccessList addr db);
    mret (ColdAccountAccessCostEIP2929 - WarmStorageReadCostEIP2929)
  else mret 0.

Definition makeCallVariantGasCallEIP2929 (oldCalculator : gasFunc) : gasFunc := λ memorySize,
  a ← back 1;
  db ← get_db;
  let addr := to_address a in
  let warmAccess := AddressInAccessList db addr in
  let coldCost := ColdAccountAccessCostEIP2929 - WarmStorageReadCostEIP2929 in
  _ ← when (negb warmAccess)
        (_ ← put_db (AddAddressToAccessList addr db); use_gas coldCost);
  gas ← oldCalculator memorySize;
  if warmAccess then mret gas
  else
    c ← gets f_contract;
    _ ← put_contract (set_Gas c (wrapU 64 (Gas c + coldCost)));
    mret (wrapU 64 (gas + coldCost)).

Definition gasCallEIP2929 : gasFunc := makeCallVariantGasCallEIP2929 gasCall.
Definition gasDelegateCallEIP2929 : gasFunc := makeCallVariantGasCallEIP2929 gasDelegateCall.
Definition gasStaticCallEIP2929 : gasFunc := makeCallVariantGasCallEIP2929 gasStaticCall.
Definition gasCallCodeEIP2929 : gasFunc := makeCallVariantGasCallEIP2929 gasCallCode.

Definition makeSelfdestructGasFn (refundsEnabled : bool) : gasFunc := λ _,
  a ← back 0;
  addr ← self_Address;
  db ← get_db;
  let address := to_address a in
  let cold := negb (AddressInAccessList db address) in
  _ ← when cold (put_db (AddAddressToAccessList address db));
  db ← get_db;
  let gas := (if cold then ColdAccountAccessCostEIP2929 else 0) +
    (if Empty db address && negb (GetBalance db addr =? 0) then CreateBySelfdestructGas else 0) in
  _ ← when (refundsEnabled && negb (HasSuicided db addr)) (AddRefund_ SelfdestructRefundGas);
  mret gas.

Definition gasSelfdestructEIP2929 : gasFunc := makeSelfdestructGasFn true.
Definition gasSelfdestructEIP3529 : gasFunc := makeSelfdestructGasFn false.
Definition gasSStoreEIP2929 : gasFunc := makeGasSStoreFunc SstoreClearsScheduleRefundEIP2200.
Definition gasSStoreEIP3529 : gasFunc := makeGasSStoreFunc SstoreClearsScheduleRefundEIP3529.
End gas.
