(* ===== verification/Instructions.v ===== *)
(** * core/vm/instructions.go and the instructions of core/vm/eips.go *)

From S2P Require Import Prelude Common Params Uint256 Machine Tx Vm Evm Interpreter Gas.

Section instructions.
Context {S : Type} `{StateDB S} `{Uint256} `{Externals}.

Definition executionFunc : Type := Calls (S := S) → Exec S (bytes * option VmError).

Definition done : Exec S (bytes * option VmError) := mret ([], None).

Definition pop_ : Exec S Z :=
  st ← gets f_stack; '(st, x) ← lift (pop st); _ ← put_stack st; mret x.
Definition push_ (x : Z) : Exec S unit := st ← gets f_stack; put_stack (st_push st x).
Definition peek_ : Exec S Z := st ← gets f_stack; lift (peek st).

(** Write through the pointer [peek] returned. *)
Definition set_peek (x : Z) : Exec S unit :=
  st ← gets f_stack; put_stack (st_set st (st_len st - 1) x).

Definition pushes (x : Z) : executionFunc := λ _, _ ← push_ x; done.

Definition unop (op : Z → Z) : executionFunc := λ _,
  x ← peek_; _ ← set_peek (op x); done.
Definition binop (op : Z → Z → Z) : executionFunc := λ _,
  x ← pop_; y ← peek_; _ ← set_peek (op x y); done.
Definition of_bool (b : bool) : Z := if b then 1 else 0.

(** ** Arithmetic and comparison *)

Definition opAdd : executionFunc := binop Add.
Definition opSub : executionFunc := binop Sub.
Definition opMul : executionFunc := binop Mul.
Definition opDiv : executionFunc := binop Div.
Definition opSdiv : executionFunc := binop SDiv.
Definition opMod : executionFunc := binop Mod.
Definition opSmod : executionFunc := binop SMod.
Definition opExp : executionFunc := binop Exp.
Definition opSignExtend : executionFunc := binop (λ b num, ExtendSign num b).
Definition opNot : executionFunc := unop Not.
Definition opLt : executionFunc := binop (λ x y, of_bool (Lt x y)).
Definition opGt : executionFunc := binop (λ x y, of_bool (Gt x y)).
Definition opSlt : executionFunc := binop (λ x y, of_bool (Slt x y)).
Definition opSgt : executionFunc := binop (λ x y, of_bool (Sgt x y)).
Definition opEq : executionFunc := binop (λ x y, of_bool (Eq x y)).
Definition opIszero : executionFunc := unop (λ x, of_bool (IsZero x)).
Definition opAnd : executionFunc := binop And.
Definition opOr : executionFunc := binop Or.
Definition opXor : executionFunc := binop Xor.
Definition opByte : executionFunc := binop (λ th val, Byte val th).

Definition opAddmod : executionFunc := λ _,
  x ← pop_; y ← pop_; z ← peek_;
  _ ← set_peek (if IsZero z then 0 else AddMod x y z); done.
Definition opMulmod : executionFunc := λ _,
  x ← pop_; y ← pop_; z ← peek_; _ ← set_peek (MulMod x y z); done.

Definition opSHL : executionFunc := binop (λ shift value, if Lt shift 256 then Lsh value (Uint64 shift) else 0).
Definition opSHR : executionFunc := binop (λ shift value, if Lt shift 256 then Rsh value (Uint64 shift) else 0).
Definition opSAR : executionFunc := binop (λ shift value,
  if Gt shift 256 then (if 0 <=? Sign value then 0 else AllOne) else SRsh value (Uint64 shift)).

(** ** Environment *)

(** [int64(x.Uint64())] *)
Definition to_int64 (x : Z) : Z := wrapS 64 (Uint64 x).

(** [Config.EnablePreimageRecording] is off. *)
Definition opKeccak256 : executionFunc := λ _,
  offset ← pop_; size ← peek_;
  m ← gets f_mem;
  data ← lift (GetPtr m (to_int64 offset) (to_int64 size));
  _ ← set_peek (SetBytes (Keccak256 data)); done.

Definition addr_word (a : Address) : Z := SetBytes (Address_Bytes a).

Definition opAddress : executionFunc := λ c, a ← self_Address; pushes (addr_word a) c.
Definition opBalance : executionFunc := λ _,
  slot ← peek_; db ← get_db; _ ← set_peek (FromBig (GetBalance db (to_address slot))); done.
Definition opOrigin : executionFunc := λ c, e ← gets f_evm; pushes (addr_word (Origin (TxCtx e))) c.
Definition opCaller : executionFunc := λ c, k ← gets f_contract; pushes (addr_word (CallerAddress k)) c.
Definition opCallValue : executionFunc := λ c,
  k ← gets f_contract;
  match value k with None => lift (Panic NilDereference) | Some v => pushes (FromBig v) c end.

Definition opCallDataLoad : executionFunc := λ _,
  x ← peek_;
  let '(offset, overflow) := Uint64WithOverflow x in
  if overflow : bool then _ ← set_peek 0; done
  else
    k ← gets f_contract;
    data ← lift (getData (Input k) offset 32);
    _ ← set_peek (SetBytes data); done.

Definition opCallDataSize : executionFunc := λ c, k ← gets f_contract; pushes (len (Input k)) c.

Definition mem_write (offset size : Z) (data : bytes) : Exec S unit :=
  m ← gets f_mem; m ← lift (mem_Set m offset size data); put_mem m.

Definition saturated (x : Z) : Z :=
  let '(v, overflow) := Uint64WithOverflow x in if overflow : bool then MaxUint64 else v.

Definition opCallDataCopy : executionFunc := λ _,
  memOffset ← pop_; dataOffset ← pop_; length ← pop_;
  k ← gets f_contract;
  data ← lift (getData (Input k) (saturated dataOffset) (Uint64 length));
  _ ← mem_write (Uint64 memOffset) (Uint64 length) data; done.

Definition opReturnDataSize : executionFunc := λ c, e ← gets f_evm; pushes (len (returnData e)) c.

Definition opReturnDataCopy : executionFunc := λ _,
  memOffset ← pop_; dataOffset ← pop_; length ← pop_;
  let '(offset64, overflow) := Uint64WithOverflow dataOffset in
  if overflow : bool then throw ErrReturnDataOutOfBounds
  else
    let '(end64, overflow) := Uint64WithOverflow (Add dataOffset length) in
    e ← gets f_evm;
    if overflow || (len (returnData e) <? end64) then throw ErrReturnDataOutOfBounds
    else
      data ← lift (subslice (returnData e) offset64 end64);
      _ ← mem_write (Uint64 memOffset) (Uint64 length) data; done.

Definition opExtCodeSize : executionFunc := λ _,
  slot ← peek_; db ← get_db; _ ← set_peek (GetCodeSize db (to_address slot)); done.
Definition opCodeSize : executionFunc := λ c, k ← gets f_contract; pushes (len (Code k)) c.

Definition opCodeCopy : executionFunc := λ _,
  memOffset ← pop_; codeOffset ← pop_; length ← pop_;
  k ← gets f_contract;
  data ← lift (getData (Code k) (saturated codeOffset) (Uint64 length));
  _ ← mem_write (Uint64 memOffset) (Uint64 length) data; done.

Definition opExtCodeCopy : executionFunc := λ _,
  a ← pop_; memOffset ← pop_; codeOffset ← pop_; length ← pop_;
  db ← get_db;
  data ← lift (getData (GetCode db (to_address a)) (saturated codeOffset) (Uint64 length));
  _ ← mem_write (Uint64 memOffset) (Uint64 length) data; done.

Definition opExtCodeHash : executionFunc := λ _,
  slot ← peek_; db ← get_db;
  let address := to_address slot in
  _ ← set_peek (if Empty db address then 0 else SetBytes (Hash_Bytes (GetCodeHash db address))); done.

Definition opGasprice : executionFunc := λ c, e ← gets f_evm; pushes (FromBig (GasPrice (TxCtx e))) c.

(** The block hashes recorded for replay are left out. *)
(** The block hashes of a transaction: what BLOCKHASH answered, by the low 64
    bits of the number it was asked for, and the numbers [GetHash] was asked for. *)
Definition record_hash (num64 hash : Z) : Exec S unit :=
  modify_evm (λ e, set_hashes e (<[num64 := hash]> (block_hashes e)) (hashes_asked e)).
Definition ask_hash (num64 : Z) : Exec S Z :=
  e ← gets f_evm;
  _ ← modify_evm (λ e, set_hashes e (block_hashes e) ({[num64]} ∪ hashes_asked e));
  mret (SetBytes (Hash_Bytes (GetHash (Context e) num64))).

Definition opBlockhash : executionFunc := λ _,
  num ← peek_;
  let '(num64, overflow) := Uint64WithOverflow num in
  hash ← (if overflow : bool then mret 0
          else
            e ← gets f_evm;
            let upper := wrapU 64 (BlockNumber (Context e)) in
            let lower := if upper <? 257 then 0 else upper - 256 in
            if (lower <=? num64) && (num64 <? upper) then ask_hash num64 else mret 0);
  _ ← set_peek hash;
  _ ← record_hash num64 hash;
  done.

Definition opCoinbase : executionFunc := λ c, e ← gets f_evm; pushes (addr_word (Coinbase (Context e))) c.
Definition opTimestamp : executionFunc := λ c, e ← gets f_evm; pushes (FromBig (Time (Context e))) c.
Definition opNumber : executionFunc := λ c, e ← gets f_evm; pushes (FromBig (BlockNumber (Context e))) c.
Definition opDifficulty : executionFunc := λ c, e ← gets f_evm; pushes (FromBig (Difficulty (Context e))) c.
Definition opGasLimit : executionFunc := λ c, e ← gets f_evm; pushes (GasLimit (Context e)) c.
Definition opSelfBalance : executionFunc := λ c,
  a ← self_Address; db ← get_db; pushes (FromBig (GetBalance db a)) c.
Definition opChainID : executionFunc := λ c, r ← rules; pushes (FromBig (ChainID r)) c.
Definition opBaseFee : executionFunc := λ c, e ← gets f_evm; pushes (FromBig (BaseFee (Context e))) c.

(** ** Memory, storage and control *)

Definition opPop : executionFunc := λ _, _ ← pop_; done.

Definition opMload : executionFunc := λ _,
  v ← peek_; m ← gets f_mem;
  data ← lift (GetPtr m (to_int64 v) 32);
  _ ← set_peek (SetBytes data); done.

Definition opMstore : executionFunc := λ _,
  mStart ← pop_; val ← pop_;
  m ← gets f_mem; m ← lift (mem_Set32 m (Uint64 mStart) val); _ ← put_mem m; done.

(** [Memory.store\[off\] = x] *)
Definition mem_Set8 (m : Memory) (off x : Z) : Go Memory :=
  s ← store_at (store m) off x; Ret {| store := s; lastGasCost := lastGasCost m |}.

Definition opMstore8 : executionFunc := λ _,
  off ← pop_; val ← pop_;
  m ← gets f_mem; m ← lift (mem_Set8 m (Uint64 off) (wrapU 8 (Uint64 val))); _ ← put_mem m; done.

Definition opSload : executionFunc := λ _,
  loc ← peek_; a ← self_Address; db ← get_db;
  _ ← set_peek (SetBytes (Hash_Bytes (GetState db a (to_hash loc)))); done.

Definition writable {A} (m : Exec S A) : Exec S A :=
  e ← gets f_evm; if readOnly e then throw ErrWriteProtection else m.

Definition opSstore : executionFunc := λ _, writable (
  loc ← pop_; val ← pop_; a ← self_Address; db ← get_db;
  _ ← put_db (SetState a (to_hash loc) (to_hash val) db); done).

Definition valid_dest (pos : Z) : Exec S bool := λ f,
  '(m, c, b) ← validJumpdest (jumpmaps (f_evm f)) (f_contract f) pos;
  Done (Build_Frame (set_jumpmaps (f_evm f) m) (f_pc f) (f_mem f) (f_stack f) c, inr b).

Definition jump_to (pos : Z) : Exec S (bytes * option VmError) :=
  ok ← valid_dest pos;
  if ok : bool then _ ← put_pc (wrapU 64 (Uint64 pos - 1)); done else throw ErrInvalidJump.

Definition opJump : executionFunc := λ _,
  e ← gets f_evm;
  if abort e then throw errStopToken
  else pos ← pop_; jump_to pos.

Definition opJumpi : executionFunc := λ _,
  e ← gets f_evm;
  if abort e then throw errStopToken
  else
    pos ← pop_; cond ← pop_;
    if negb (IsZero cond) then jump_to pos else done.

Definition opJumpdest : executionFunc := λ _, done.
Definition opPc : executionFunc := λ c, pc ← gets f_pc; pushes pc c.
Definition opMsize : executionFunc := λ c, m ← gets f_mem; pushes (mem_Len m) c.
Definition opGas : executionFunc := λ c, g ← contract_Gas; pushes g c.

(** ** Calls and creations *)

Definition add_gas (g : Z) : Exec S unit :=
  c ← gets f_contract; put_contract (set_Gas c (wrapU 64 (Gas c + g))).
Definition put_returnData (b : bytes) : Exec S unit := modify_evm (λ e, set_returnData e b).

(** [scope.Contract.UseGas(gas)], its result ignored. *)
Definition spend (gas : Z) : Exec S unit :=
  c ← gets f_contract; put_contract (fst (UseGas c gas)).

(** [bigVal]: [big0], or the word as a big integer. *)
Definition bigVal (value : Z) : Z := if IsZero value then 0 else value.

(** The frame's contract is the caller. *)
Definition self_ref : Exec S (ContractRef Contract) := gets (λ f, OfContract (f_contract f)).

Definition in_evm {A} (m : EVM S → Res (EVM S * A)) : Exec S A := λ f,
  '(e, a) ← m (f_evm f);
  Done (Build_Frame e (f_pc f) (f_mem f) (f_stack f) (f_contract f), inr a).

Definition end_create (res : bytes) (returnGas : Z) (stackvalue : Z) (suberr : option VmError)
    : Exec S (bytes * option VmError) :=
  _ ← push_ stackvalue;
  _ ← add_gas returnGas;
  if decide (suberr = Some ErrExecutionReverted) then _ ← put_returnData res; mret (res, None)
  else _ ← put_returnData []; done.

Definition opCreate : executionFunc := λ calls, writable (
  value ← pop_; offset ← pop_; size ← pop_;
  m ← gets f_mem;
  input ← lift (GetCopy m (to_int64 offset) (to_int64 size));
  gas ← contract_Gas;
  r ← rules;
  let gas := if IsEIP150 r then gas - gas / 64 else gas in
  _ ← spend gas;
  me ← self_ref;
  '(res, addr, returnGas, suberr) ← in_evm (evm_Create calls me input gas (bigVal value));
  let stackvalue :=
    if IsHomestead r && bool_decide (suberr = Some ErrCodeStoreOutOfGas) then 0
    else if bool_decide (suberr ≠ None) && bool_decide (suberr ≠ Some ErrCodeStoreOutOfGas) then 0
    else addr_word addr in
  end_create res returnGas stackvalue suberr).

Definition opCreate2 : executionFunc := λ calls, writable (
  endowment ← pop_; offset ← pop_; size ← pop_; salt ← pop_;
  m ← gets f_mem;
  input ← lift (GetCopy m (to_int64 offset) (to_int64 size));
  gas ← contract_Gas;
  let gas := gas - gas / 64 in
  _ ← spend gas;
  me ← self_ref;
  '(res, addr, returnGas, suberr) ← in_evm (evm_Create2 calls me input gas (bigVal endowment) salt);
  end_create res returnGas (if bool_decide (suberr = None) then addr_word addr else 0) suberr).

Definition end_call (retOffset retSize : Z) (r : bytes * Z * option VmError)
    : Exec S (bytes * option VmError) :=
  let '(ret, returnGas, err) := r in
  _ ← push_ (if bool_decide (err = None) then 1 else 0);
  _ ← (if decide (err = None ∨ err = Some ErrExecutionReverted)
       then mem_write (Uint64 retOffset) (Uint64 retSize) ret else mret tt);
  _ ← add_gas returnGas;
  _ ← put_returnData ret;
  mret (ret, None).

Definition get_args (inOffset inSize : Z) : Exec S bytes :=
  m ← gets f_mem; lift (GetPtr m (to_int64 inOffset) (to_int64 inSize)).

Definition call_gas_temp : Exec S Z := gets (λ f, callGasTemp (f_evm f)).

Definition opCall : executionFunc := λ calls,
  _ ← pop_;
  gas ← call_gas_temp;
  addr ← pop_; value ← pop_; inOffset ← pop_; inSize ← pop_; retOffset ← pop_; retSize ← pop_;
  args ← get_args inOffset inSize;
  e ← gets f_evm;
  if readOnly e && negb (IsZero value) then throw ErrWriteProtection
  else
    let gas := if IsZero value then gas else wrapU 64 (gas + CallStipend) in
    me ← self_ref;
    r ← in_evm (evm_Call calls me (to_address addr) args gas (bigVal value));
    end_call retOffset retSize r.

Definition opCallCode : executionFunc := λ calls,
  _ ← pop_;
  gas ← call_gas_temp;
  addr ← pop_; value ← pop_; inOffset ← pop_; inSize ← pop_; retOffset ← pop_; retSize ← pop_;
  args ← get_args inOffset inSize;
  let gas := if IsZero value then gas else wrapU 64 (gas + CallStipend) in
  me ← self_ref;
  r ← in_evm (evm_CallCode calls me (to_address addr) args gas (bigVal value));
  end_call retOffset retSize r.

Definition opDelegateCall : executionFunc := λ calls,
  _ ← pop_;
  gas ← call_gas_temp;
  addr ← pop_; inOffset ← pop_; inSize ← pop_; retOffset ← pop_; retSize ← pop_;
  args ← get_args inOffset inSize;
  me ← self_ref;
  r ← in_evm (evm_DelegateCall calls me (to_address addr) args gas);
  end_call retOffset retSize r.

Definition opStaticCall : executionFunc := λ calls,
  _ ← pop_;
  gas ← call_gas_temp;
  addr ← pop_; inOffset ← pop_; inSize ← pop_; retOffset ← pop_; retSize ← pop_;
  args ← get_args inOffset inSize;
  me ← self_ref;
  r ← in_evm (evm_StaticCall calls me (to_address addr) args gas);
  end_call retOffset retSize r.

Definition mem_slice : Exec S bytes :=
  offset ← pop_; size ← pop_; get_args offset size.

Definition opReturn : executionFunc := λ _, ret ← mem_slice; mret (ret, Some errStopToken).
Definition opRevert : executionFunc := λ _,
  ret ← mem_slice; _ ← put_returnData ret; mret (ret, Some ErrExecutionReverted).

(** [Code\[pc\]] *)
Definition opUndefined : executionFunc := λ _,
  c ← gets f_contract; pc ← gets f_pc;
  op ← lift (index (Code c) pc);
  throw (ErrInvalidOpCode op).

Definition opStop : executionFunc := λ _, throw errStopToken.

Definition opSelfdestruct : executionFunc := λ _, writable (
  beneficiary ← pop_;
  a ← self_Address; db ← get_db;
  let balance := GetBalance db a in
  _ ← put_db (fst (Suicide a (AddBalance (to_address beneficiary) balance db)));
  throw errStopToken).

(** ** Logs *)

Fixpoint pop_topics (size : nat) : Exec S (list Hash) :=
  match size with
  | O => mret []
  | Datatypes.S size => t ← pop_; ts ← pop_topics size; mret (to_hash t :: ts)
  end.

Definition log_of (e : EVM S) (a : Address) (topics : list Hash) (d : bytes) : Log :=
  {| log_Address := a; log_Topics := topics; log_Data := d;
     log_BlockNumber := wrapU 64 (BlockNumber (Context e));
     log_TxHash := 0; log_TxIndex := 0; log_BlockHash := 0; log_Index := 0 |}.

Definition log_operands (size : nat) : Exec S (Address * list Hash * bytes) :=
  mStart ← pop_; mSize ← pop_;
  topics ← pop_topics size;
  m ← gets f_mem;
  d ← lift (GetCopy m (to_int64 mStart) (to_int64 mSize));
  a ← self_Address;
  mret (a, topics, d).

Definition makeLog (size : nat) : executionFunc := λ _, writable (
  '(a, topics, d) ← log_operands size;
  e ← gets f_evm;
  _ ← put_db (AddLog (log_of e a topics d) (statedb e)); done).

Definition makeLogSu (size : nat) : Exec S (Event * (bytes * option VmError)) := writable (
  '(a, topics, d) ← log_operands size;
  e ← gets f_evm;
  let '(db, temp_log) := AddLogSu (log_of e a topics d) (statedb e) in
  _ ← put_db db;
  mret ({| ev_Address := a; ev_Topics := topics; ev_Data := d; ev_Index := log_Index temp_log |}, ([], None))).

(** ** Stack instructions *)

Definition opPush1 : executionFunc := λ calls,
  k ← gets f_contract; pc ← gets f_pc;
  let pc := wrapU 64 (pc + 1) in
  _ ← put_pc pc;
  pushes (if pc <? len (Code k) then default 0 (Code k !! Z.to_nat pc) else 0) calls.

Definition makePush (size pushByteSize : Z) : executionFunc := λ _,
  k ← gets f_contract; pc ← gets f_pc;
  let codeLen := len (Code k) in
  let startMin := Z.min (wrapS 64 (pc + 1)) codeLen in
  let endMin := Z.min (startMin + pushByteSize) codeLen in
  s ← lift (subslice (Code k) startMin endMin);
  _ ← push_ (SetBytes (RightPadBytes s pushByteSize));
  _ ← put_pc (wrapU 64 (pc + size)); done.

Definition makeDup (size : Z) : executionFunc := λ _,
  st ← gets f_stack; st ← lift (dup st size); _ ← put_stack st; done.
Definition makeSwap (size : Z) : executionFunc := λ _,
  st ← gets f_stack; st ← lift (swap st (size + 1)); _ ← put_stack st; done.
End instructions.
