(* ===== verification/JumpTable.v ===== *)
(** * core/vm/jump_table.go and core/vm/eips.go: the instruction sets of the forks

    A table has 256 slots, each nil or a pointer to an operation: here a map of the
    slots that are not nil.  The constructors of the sets assign slots and fields of
    operations, which panics on a nil slot, fill the slots left nil, and validate the
    table.  Each constructor builds operations of its own, so the updates in place of
    a later fork are updates of the map. *)

From S2P Require Import Prelude Common Params Uint256 Machine Tx Vm Evm Interpreter Gas Instructions.

Abbreviation InstructionSet S := (gmap Z (operation (S := S))).

Section tables.
Context {S : Type} `{StateDB S} `{Uint256} `{Externals}.

Definition oper (ex : option (executionFunc (S := S))) (lg : option (Exec S (Event * (bytes * option VmError))))
    (constant : Z) (dyn : option (gasFunc (S := S))) (minS maxS : Z)
    (size : option (Stack → Go (Z * bool))) : operation (S := S) :=
  {| execute := ex; executeLog := lg; constantGas := constant; dynamicGas := dyn;
     op_minStack := minS; op_maxStack := maxS; memorySize := size |}.

Definition undefined : operation (S := S) := oper (Some opUndefined) None 0 None 0 (maxStack 0 0) None.

(** Running a nil slot is a nil dereference: [perform] finds no function. *)
Definition nil_slot : operation (S := S) := oper None None 0 None 0 StackLimit None.

(** The interpreter's view of a table, by opcode. *)
Definition table (jt : InstructionSet S) : JumpTable (S := S) := λ op, default nil_slot (jt !! op).

(** The slots of a composite literal, or assigned one after the other. *)
Definition set_ops (l : list (Z * operation (S := S))) (jt : InstructionSet S) : InstructionSet S :=
  foldr (λ '(op, o) (m : gmap Z operation), <[op := o]> m) jt l.

Definition with_constantGas (g : Z) (o : operation (S := S)) : operation (S := S) :=
  oper (execute o) (executeLog o) g (dynamicGas o) (op_minStack o) (op_maxStack o) (memorySize o).
Definition with_dynamicGas (d : gasFunc) (o : operation (S := S)) : operation (S := S) :=
  oper (execute o) (executeLog o) (constantGas o) (Some d) (op_minStack o) (op_maxStack o) (memorySize o).

(** An assignment to a table: [jt\[op\] = &operation{...}], [jt\[op\].constantGas = g]
    and [jt\[op\].dynamicGas = d]. *)
Inductive Assignment :=
| Slot (op : Z) (o : operation (S := S))
| ConstantGas (op g : Z)
| DynamicGas (op : Z) (d : gasFunc (S := S)).

Definition assign_field (h : operation (S := S) → operation (S := S)) (op : Z) (jt : InstructionSet S)
    : Go (InstructionSet S) :=
  match jt !! op with
  | None => Panic NilDereference
  | Some o => Ret (<[op := h o]> jt)
  end.

Definition assign1 (jt : InstructionSet S) (a : Assignment) : Go (InstructionSet S) :=
  match a with
  | Slot op o => Ret (<[op := o]> jt)
  | ConstantGas op g => assign_field (with_constantGas g) op jt
  | DynamicGas op d => assign_field (with_dynamicGas d) op jt
  end.

Definition assign (l : list Assignment) (jt : InstructionSet S) : Go (InstructionSet S) := go_foldl assign1 jt l.

Definition opcodes : list Z := seqZ 0 256.

(** The loop that fills the unassigned slots. *)
Definition fill_undefined (tbl : InstructionSet S) : InstructionSet S :=
  foldl (λ (t : gmap Z operation) i, match tbl !! i with None => <[i := undefined]> t | Some _ => t end) tbl opcodes.

(** A slot that is nil, or has a memory size and no dynamic gas, is a panic. *)
Definition validate_slot (jt : InstructionSet S) (_ : unit) (i : Z) : Go unit :=
  match jt !! i with
  | None => Panic ExplicitPanic
  | Some op =>
      match memorySize op, dynamicGas op with
      | Some _, None => Panic ExplicitPanic
      | _, _ => Ret tt
      end
  end.

Definition validate (jt : InstructionSet S) : Go (InstructionSet S) :=
  _ ← go_foldl (validate_slot jt) tt opcodes; Ret jt.

Definition frontier_arithmetic : list (Z * operation (S := S)) :=
  [(STOP, oper (Some opStop) None 0 None (minStack 0 0) (maxStack 0 0) None);
   (ADD, oper (Some opAdd) None GasFastestStep None (minStack 2 1) (maxStack 2 1) None);
   (MUL, oper (Some opMul) None GasFastStep None (minStack 2 1) (maxStack 2 1) None);
   (SUB, oper (Some opSub) None GasFastestStep None (minStack 2 1) (maxStack 2 1) None);
   (DIV, oper (Some opDiv) None GasFastStep None (minStack 2 1) (maxStack 2 1) None);
   (SDIV, oper (Some opSdiv) None GasFastStep None (minStack 2 1) (maxStack 2 1) None);
   (MOD, oper (Some opMod) None GasFastStep None (minStack 2 1) (maxStack 2 1) None);
   (SMOD, oper (Some opSmod) None GasFastStep None (minStack 2 1) (maxStack 2 1) None);
   (ADDMOD, oper (Some opAddmod) None GasMidStep None (minStack 3 1) (maxStack 3 1) None);
   (MULMOD, oper (Some opMulmod) None GasMidStep None (minStack 3 1) (maxStack 3 1) None);
   (EXP, oper (Some opExp) None 0 (Some gasExpFrontier) (minStack 2 1) (maxStack 2 1) None);
   (SIGNEXTEND, oper (Some opSignExtend) None GasFastStep None (minStack 2 1) (maxStack 2 1) None);
   (LT, oper (Some opLt) None GasFastestStep None (minStack 2 1) (maxStack 2 1) None);
   (GT, oper (Some opGt) None GasFastestStep None (minStack 2 1) (maxStack 2 1) None);
   (SLT, oper (Some opSlt) None GasFastestStep None (minStack 2 1) (maxStack 2 1) None);
   (SGT, oper (Some opSgt) None GasFastestStep None (minStack 2 1) (maxStack 2 1) None);
   (EQ, oper (Some opEq) None GasFastestStep None (minStack 2 1) (maxStack 2 1) None);
   (ISZERO, oper (Some opIszero) None GasFastestStep None (minStack 1 1) (maxStack 1 1) None);
   (AND, oper (Some opAnd) None GasFastestStep None (minStack 2 1) (maxStack 2 1) None);
   (XOR, oper (Some opXor) None GasFastestStep None (minStack 2 1) (maxStack 2 1) None);
   (OR, oper (Some opOr) None GasFastestStep None (minStack 2 1) (maxStack 2 1) None);
   (NOT, oper (Some opNot) None GasFastestStep None (minStack 1 1) (maxStack 1 1) None);
   (BYTE, oper (Some opByte) None GasFastestStep None (minStack 2 1) (maxStack 2 1) None);
   (KECCAK256, oper (Some opKeccak256) None Keccak256Gas (Some gasKeccak256) (minStack 2 1) (maxStack 2 1) (Some memoryKeccak256))].

Definition frontier_environment : list (Z * operation (S := S)) :=
  [(ADDRESS, oper (Some opAddress) None GasQuickStep None (minStack 0 1) (maxStack 0 1) None);
   (BALANCE, oper (Some opBalance) None BalanceGasFrontier None (minStack 1 1) (maxStack 1 1) None);
   (ORIGIN, oper (Some opOrigin) None GasQuickStep None (minStack 0 1) (maxStack 0 1) None);
   (CALLER, oper (Some opCaller) None GasQuickStep None (minStack 0 1) (maxStack 0 1) None);
   (CALLVALUE, oper (Some opCallValue) None GasQuickStep None (minStack 0 1) (maxStack 0 1) None);
   (CALLDATALOAD, oper (Some opCallDataLoad) None GasFastestStep None (minStack 1 1) (maxStack 1 1) None);
   (CALLDATASIZE, oper (Some opCallDataSize) None GasQuickStep None (minStack 0 1) (maxStack 0 1) None);
   (CALLDATACOPY, oper (Some opCallDataCopy) None GasFastestStep (Some gasCallDataCopy) (minStack 3 0) (maxStack 3 0) (Some memoryCallDataCopy));
   (CODESIZE, oper (Some opCodeSize) None GasQuickStep None (minStack 0 1) (maxStack 0 1) None);
   (CODECOPY, oper (Some opCodeCopy) None GasFastestStep (Some gasCodeCopy) (minStack 3 0) (maxStack 3 0) (Some memoryCodeCopy));
   (GASPRICE, oper (Some opGasprice) None GasQuickStep None (minStack 0 1) (maxStack 0 1) None);
   (EXTCODESIZE, oper (Some opExtCodeSize) None ExtcodeSizeGasFrontier None (minStack 1 1) (maxStack 1 1) None);
   (EXTCODECOPY, oper (Some opExtCodeCopy) None ExtcodeCopyBaseFrontier (Some gasExtCodeCopy) (minStack 4 0) (maxStack 4 0) (Some memoryExtCodeCopy));
   (BLOCKHASH, oper (Some opBlockhash) None GasExtStep None (minStack 1 1) (maxStack 1 1) None);
   (COINBASE, oper (Some opCoinbase) None GasQuickStep None (minStack 0 1) (maxStack 0 1) None);
   (TIMESTAMP, oper (Some opTimestamp) None GasQuickStep None (minStack 0 1) (maxStack 0 1) None);
   (NUMBER, oper (Some opNumber) None GasQuickStep None (minStack 0 1) (maxStack 0 1) None);
   (DIFFICULTY, oper (Some opDifficulty) None GasQuickStep None (minStack 0 1) (maxStack 0 1) None);
   (GASLIMIT, oper (Some opGasLimit) None GasQuickStep None (minStack 0 1) (maxStack 0 1) None)].

Definition frontier_memory : list (Z * operation (S := S)) :=
  [(POP, oper (Some opPop) None GasQuickStep None (minStack 1 0) (maxStack 1 0) None);
   (MLOAD, oper (Some opMload) None GasFastestStep (Some pureMemoryGascost) (minStack 1 1) (maxStack 1 1) (Some memoryMLoad));
   (MSTORE, oper (Some opMstore) None GasFastestStep (Some pureMemoryGascost) (minStack 2 0) (maxStack 2 0) (Some memoryMStore));
   (MSTORE8, oper (Some opMstore8) None GasFastestStep (Some pureMemoryGascost) (minStack 2 0) (maxStack 2 0) (Some memoryMStore8));
   (SLOAD, oper (Some opSload) None SloadGasFrontier None (minStack 1 1) (maxStack 1 1) None);
   (SSTORE, oper (Some opSstore) None 0 (Some gasSStore) (minStack 2 0) (maxStack 2 0) None);
   (JUMP, oper (Some opJump) None GasMidStep None (minStack 1 0) (maxStack 1 0) None);
   (JUMPI, oper (Some opJumpi) None GasSlowStep None (minStack 2 0) (maxStack 2 0) None);
   (PC, oper (Some opPc) None GasQuickStep None (minStack 0 1) (maxStack 0 1) None);
   (MSIZE, oper (Some opMsize) None GasQuickStep None (minStack 0 1) (maxStack 0 1) None);
   (GAS, oper (Some opGas) None GasQuickStep None (minStack 0 1) (maxStack 0 1) None);
   (JUMPDEST, oper (Some opJumpdest) None JumpdestGas None (minStack 0 0) (maxStack 0 0) None)].

Definition frontier_push_1_16 : list (Z * operation (S := S)) :=
  [(PUSH1, oper (Some opPush1) None GasFastestStep None (minStack 0 1) (maxStack 0 1) None);
   (PUSH2, oper (Some (makePush 2 2)) None GasFastestStep None (minStack 0 1) (maxStack 0 1) None);
   (PUSH3, oper (Some (makePush 3 3)) None GasFastestStep None (minStack 0 1) (maxStack 0 1) None);
   (PUSH4, oper (Some (makePush 4 4)) None GasFastestStep None (minStack 0 1) (maxStack 0 1) None);
   (PUSH5, oper (Some (makePush 5 5)) None GasFastestStep None (minStack 0 1) (maxStack 0 1) None);
   (PUSH6, oper (Some (makePush 6 6)) None GasFastestStep None (minStack 0 1) (maxStack 0 1) None);
   (PUSH7, oper (Some (makePush 7 7)) None GasFastestStep None (minStack 0 1) (maxStack 0 1) None);
   (PUSH8, oper (Some (makePush 8 8)) None GasFastestStep None (minStack 0 1) (maxStack 0 1) None);
   (PUSH9, oper (Some (makePush 9 9)) None GasFastestStep None (minStack 0 1) (maxStack 0 1) None);
   (PUSH10, oper (Some (makePush 10 10)) None GasFastestStep None (minStack 0 1) (maxStack 0 1) None);
   (PUSH11, oper (Some (makePush 11 11)) None GasFastestStep None (minStack 0 1) (maxStack 0 1) None);
   (PUSH12, oper (Some (makePush 12 12)) None GasFastestStep None (minStack 0 1) (maxStack 0 1) None);
   (PUSH13, oper (Some (makePush 13 13)) None GasFastestStep None (minStack 0 1) (maxStack 0 1) None);
   (PUSH14, oper (Some (makePush 14 14)) None GasFastestStep None (minStack 0 1) (maxStack 0 1) None);
   (PUSH15, oper (Some (makePush 15 15)) None GasFastestStep None (minStack 0 1) (maxStack 0 1) None);
   (PUSH16, oper (Some (makePush 16 16)) None GasFastestStep None (minStack 0 1) (maxStack 0 1) None)].

Definition frontier_push_17_32 : list (Z * operation (S := S)) :=
  [(PUSH17, oper (Some (makePush 17 17)) None GasFastestStep None (minStack 0 1) (maxStack 0 1) None);
   (PUSH18, oper (Some (makePush 18 18)) None GasFastestStep None (minStack 0 1) (maxStack 0 1) None);
   (PUSH19, oper (Some (makePush 19 19)) None GasFastestStep None (minStack 0 1) (maxStack 0 1) None);
   (PUSH20, oper (Some (makePush 20 20)) None GasFastestStep None (minStack 0 1) (maxStack 0 1) None);
   (PUSH21, oper (Some (makePush 21 21)) None GasFastestStep None (minStack 0 1) (maxStack 0 1) None);
   (PUSH22, oper (Some (makePush 22 22)) None GasFastestStep None (minStack 0 1) (maxStack 0 1) None);
   (PUSH23, oper (Some (makePush 23 23)) None GasFastestStep None (minStack 0 1) (maxStack 0 1) None);
   (PUSH24, oper (Some (makePush 24 24)) None GasFastestStep None (minStack 0 1) (maxStack 0 1) None);
   (PUSH25, oper (Some (makePush 25 25)) None GasFastestStep None (minStack 0 1) (maxStack 0 1) None);
   (PUSH26, oper (Some (makePush 26 26)) None GasFastestStep None (minStack 0 1) (maxStack 0 1) None);
   (PUSH27, oper (Some (makePush 27 27)) None GasFastestStep None (minStack 0 1) (maxStack 0 1) None);
   (PUSH28, oper (Some (makePush 28 28)) None GasFastestStep None (minStack 0 1) (maxStack 0 1) None);
   (PUSH29, oper (Some (makePush 29 29)) None GasFastestStep None (minStack 0 1) (maxStack 0 1) None);
   (PUSH30, oper (Some (makePush 30 30)) None GasFastestStep None (minStack 0 1) (maxStack 0 1) None);
   (PUSH31, oper (Some (makePush 31 31)) None GasFastestStep None (minStack 0 1) (maxStack 0 1) None);
   (PUSH32, oper (Some (makePush 32 32)) None GasFastestStep None (minStack 0 1) (maxStack 0 1) None)].

Definition frontier_dup : list (Z * operation (S := S)) :=
  [(DUP1, oper (Some (makeDup 1)) None GasFastestStep None (minDupStack 1) (maxDupStack 1) None);
   (DUP2, oper (Some (makeDup 2)) None GasFastestStep None (minDupStack 2) (maxDupStack 2) None);
   (DUP3, oper (Some (makeDup 3)) None GasFastestStep None (minDupStack 3) (maxDupStack 3) None);
   (DUP4, oper (Some (makeDup 4)) None GasFastestStep None (minDupStack 4) (maxDupStack 4) None);
   (DUP5, oper (Some (makeDup 5)) None GasFastestStep None (minDupStack 5) (maxDupStack 5) None);
   (DUP6, oper (Some (makeDup 6)) None GasFastestStep None (minDupStack 6) (maxDupStack 6) None);
   (DUP7, oper (Some (makeDup 7)) None GasFastestStep None (minDupStack 7) (maxDupStack 7) None);
   (DUP8, oper (Some (makeDup 8)) None GasFastestStep None (minDupStack 8) (maxDupStack 8) None);
   (DUP9, oper (Some (makeDup 9)) None GasFastestStep None (minDupStack 9) (maxDupStack 9) None);
   (DUP10, oper (Some (makeDup 10)) None GasFastestStep None (minDupStack 10) (maxDupStack 10) None);
   (DUP11, oper (Some (makeDup 11)) None GasFastestStep None (minDupStack 11) (maxDupStack 11) None);
   (DUP12, oper (Some (makeDup 12)) None GasFastestStep None (minDupStack 12) (maxDupStack 12) None);
   (DUP13, oper (Some (makeDup 13)) None GasFastestStep None (minDupStack 13) (maxDupStack 13) None);
   (DUP14, oper (Some (makeDup 14)) None GasFastestStep None (minDupStack 14) (maxDupStack 14) None);
   (DUP15, oper (Some (makeDup 15)) None GasFastestStep None (minDupStack 15) (maxDupStack 15) None);
   (DUP16, oper (Some (makeDup 16)) None GasFastestStep None (minDupStack 16) (maxDupStack 16) None)].

Definition frontier_swap : list (Z * operation (S := S)) :=
  [(SWAP1, oper (Some (makeSwap 1)) None GasFastestStep None (minSwapStack 2) (maxSwapStack 2) None);
   (SWAP2, oper (Some (makeSwap 2)) None GasFastestStep None (minSwapStack 3) (maxSwapStack 3) None);
   (SWAP3, oper (Some (makeSwap 3)) None GasFastestStep None (minSwapStack 4) (maxSwapStack 4) None);
   (SWAP4, oper (Some (makeSwap 4)) None GasFastestStep None (minSwapStack 5) (maxSwapStack 5) None);
   (SWAP5, oper (Some (makeSwap 5)) None GasFastestStep None (minSwapStack 6) (maxSwapStack 6) None);
   (SWAP6, oper (Some (makeSwap 6)) None GasFastestStep None (minSwapStack 7) (maxSwapStack 7) None);
   (SWAP7, oper (Some (makeSwap 7)) None GasFastestStep None (minSwapStack 8) (maxSwapStack 8) None);
   (SWAP8, oper (Some (makeSwap 8)) None GasFastestStep None (minSwapStack 9) (maxSwapStack 9) None);
   (SWAP9, oper (Some (makeSwap 9)) None GasFastestStep None (minSwapStack 10) (maxSwapStack 10) None);
   (SWAP10, oper (Some (makeSwap 10)) None GasFastestStep None (minSwapStack 11) (maxSwapStack 11) None);
   (SWAP11, oper (Some (makeSwap 11)) None GasFastestStep None (minSwapStack 12) (maxSwapStack 12) None);
   (SWAP12, oper (Some (makeSwap 12)) None GasFastestStep None (minSwapStack 13) (maxSwapStack 13) None);
   (SWAP13, oper (Some (makeSwap 13)) None GasFastestStep None (minSwapStack 14) (maxSwapStack 14) None);
   (SWAP14, oper (Some (makeSwap 14)) None GasFastestStep None (minSwapStack 15) (maxSwapStack 15) None);
   (SWAP15, oper (Some (makeSwap 15)) None GasFastestStep None (minSwapStack 16) (maxSwapStack 16) None);
   (SWAP16, oper (Some (makeSwap 16)) None GasFastestStep None (minSwapStack 17) (maxSwapStack 17) None)].

Definition frontier_log_and_system : list (Z * operation (S := S)) :=
  [(LOG0, oper (Some (makeLog 0)) (Some (makeLogSu 0)) 0 (Some (makeGasLog 0)) (minStack 2 0) (maxStack 2 0) (Some memoryLog));
   (LOG1, oper (Some (makeLog 1)) (Some (makeLogSu 1)) 0 (Some (makeGasLog 1)) (minStack 3 0) (maxStack 3 0) (Some memoryLog));
   (LOG2, oper (Some (makeLog 2)) (Some (makeLogSu 2)) 0 (Some (makeGasLog 2)) (minStack 4 0) (maxStack 4 0) (Some memoryLog));
   (LOG3, oper (Some (makeLog 3)) (Some (makeLogSu 3)) 0 (Some (makeGasLog 3)) (minStack 5 0) (maxStack 5 0) (Some memoryLog));
   (LOG4, oper (Some (makeLog 4)) (Some (makeLogSu 4)) 0 (Some (makeGasLog 4)) (minStack 6 0) (maxStack 6 0) (Some memoryLog));
   (CREATE, oper (Some opCreate) None CreateGas (Some pureMemoryGascost) (minStack 3 1) (maxStack 3 1) (Some memoryCreate));
   (CALL, oper (Some opCall) None CallGasFrontier (Some gasCall) (minStack 7 1) (maxStack 7 1) (Some memoryCall));
   (CALLCODE, oper (Some opCallCode) None CallGasFrontier (Some gasCallCode) (minStack 7 1) (maxStack 7 1) (Some memoryCall));
   (RETURN, oper (Some opReturn) None 0 (Some pureMemoryGascost) (minStack 2 0) (maxStack 2 0) (Some memoryReturn));
   (SELFDESTRUCT, oper (Some opSelfdestruct) None 0 (Some gasSelfdestruct) (minStack 1 0) (maxStack 1 0) None)].

Definition frontier_ops : list (Z * operation (S := S)) :=
  frontier_arithmetic ++ frontier_environment ++ frontier_memory ++ frontier_push_1_16 ++ frontier_push_17_32 ++ frontier_dup ++ frontier_swap ++ frontier_log_and_system.

Definition newFrontierInstructionSet : Go (InstructionSet S) :=
  validate (fill_undefined (set_ops frontier_ops ∅)).

Definition homestead_changes : list Assignment :=
  [Slot DELEGATECALL (oper (Some opDelegateCall) None CallGasFrontier (Some gasDelegateCall) (minStack 6 1) (maxStack 6 1) (Some memoryDelegateCall))].

Definition newHomesteadInstructionSet : Go (InstructionSet S) :=
  instructionSet ← newFrontierInstructionSet;
  instructionSet ← assign homestead_changes instructionSet;
  validate instructionSet.

Definition tangerineWhistle_changes : list Assignment :=
  [ConstantGas BALANCE BalanceGasEIP150;
   ConstantGas EXTCODESIZE ExtcodeSizeGasEIP150;
   ConstantGas SLOAD SloadGasEIP150;
   ConstantGas EXTCODECOPY ExtcodeCopyBaseEIP150;
   ConstantGas CALL CallGasEIP150;
   ConstantGas CALLCODE CallGasEIP150;
   ConstantGas DELEGATECALL CallGasEIP150].

Definition newTangerineWhistleInstructionSet : Go (InstructionSet S) :=
  instructionSet ← newHomesteadInstructionSet;
  instructionSet ← assign tangerineWhistle_changes instructionSet;
  validate instructionSet.

Definition spuriousDragon_changes : list Assignment := [DynamicGas EXP gasExpEIP158].

Definition newSpuriousDragonInstructionSet : Go (InstructionSet S) :=
  instructionSet ← newTangerineWhistleInstructionSet;
  instructionSet ← assign spuriousDragon_changes instructionSet;
  validate instructionSet.

Definition byzantium_changes : list Assignment :=
  [Slot STATICCALL (oper (Some opStaticCall) None CallGasEIP150 (Some gasStaticCall) (minStack 6 1) (maxStack 6 1) (Some memoryStaticCall));
   Slot RETURNDATASIZE (oper (Some opReturnDataSize) None GasQuickStep None (minStack 0 1) (maxStack 0 1) None);
   Slot RETURNDATACOPY (oper (Some opReturnDataCopy) None GasFastestStep (Some gasReturnDataCopy) (minStack 3 0) (maxStack 3 0) (Some memoryReturnDataCopy));
   Slot REVERT (oper (Some opRevert) None 0 (Some pureMemoryGascost) (minStack 2 0) (maxStack 2 0) (Some memoryRevert))].

Definition newByzantiumInstructionSet : Go (InstructionSet S) :=
  instructionSet ← newSpuriousDragonInstructionSet;
  instructionSet ← assign byzantium_changes instructionSet;
  validate instructionSet.

Definition constantinople_changes : list Assignment :=
  [Slot SHL (oper (Some opSHL) None GasFastestStep None (minStack 2 1) (maxStack 2 1) None);
   Slot SHR (oper (Some opSHR) None GasFastestStep None (minStack 2 1) (maxStack 2 1) None);
   Slot SAR (oper (Some opSAR) None GasFastestStep None (minStack 2 1) (maxStack 2 1) None);
   Slot EXTCODEHASH (oper (Some opExtCodeHash) None ExtcodeHashGasConstantinople None (minStack 1 1) (maxStack 1 1) None);
   Slot CREATE2 (oper (Some opCreate2) None Create2Gas (Some gasCreate2) (minStack 4 1) (maxStack 4 1) (Some memoryCreate2))].

Definition newConstantinopleInstructionSet : Go (InstructionSet S) :=
  instructionSet ← newByzantiumInstructionSet;
  instructionSet ← assign constantinople_changes instructionSet;
  validate instructionSet.

(** ** eips.go: the assignments of each EIP *)

Definition eip1884_changes : list Assignment :=
  [ConstantGas SLOAD SloadGasEIP1884;
   ConstantGas BALANCE BalanceGasEIP1884;
   ConstantGas EXTCODEHASH ExtcodeHashGasEIP1884;
   Slot SELFBALANCE (oper (Some opSelfBalance) None GasFastStep None (minStack 0 1) (maxStack 0 1) None)].
Definition enable1884 : InstructionSet S → Go (InstructionSet S) := assign eip1884_changes.

Definition eip1344_changes : list Assignment :=
  [Slot CHAINID (oper (Some opChainID) None GasQuickStep None (minStack 0 1) (maxStack 0 1) None)].
Definition enable1344 : InstructionSet S → Go (InstructionSet S) := assign eip1344_changes.

Definition eip2200_changes : list Assignment :=
  [ConstantGas SLOAD SloadGasEIP2200;
   DynamicGas SSTORE gasSStoreEIP2200].
Definition enable2200 : InstructionSet S → Go (InstructionSet S) := assign eip2200_changes.

Definition eip2929_changes : list Assignment :=
  [DynamicGas SSTORE gasSStoreEIP2929;
   ConstantGas SLOAD 0;
   DynamicGas SLOAD gasSLoadEIP2929;
   ConstantGas EXTCODECOPY WarmStorageReadCostEIP2929;
   DynamicGas EXTCODECOPY gasExtCodeCopyEIP2929;
   ConstantGas EXTCODESIZE WarmStorageReadCostEIP2929;
   DynamicGas EXTCODESIZE gasEip2929AccountCheck;
   ConstantGas EXTCODEHASH WarmStorageReadCostEIP2929;
   DynamicGas EXTCODEHASH gasEip2929AccountCheck;
   ConstantGas BALANCE WarmStorageReadCostEIP2929;
   DynamicGas BALANCE gasEip2929AccountCheck;
   ConstantGas CALL WarmStorageReadCostEIP2929;
   DynamicGas CALL gasCallEIP2929;
   ConstantGas CALLCODE WarmStorageReadCostEIP2929;
   DynamicGas CALLCODE gasCallCodeEIP2929;
   ConstantGas STATICCALL WarmStorageReadCostEIP2929;
   DynamicGas STATICCALL gasStaticCallEIP2929;
   ConstantGas DELEGATECALL WarmStorageReadCostEIP2929;
   DynamicGas DELEGATECALL gasDelegateCallEIP2929;
   ConstantGas SELFDESTRUCT SelfdestructGasEIP150;
   DynamicGas SELFDESTRUCT gasSelfdestructEIP2929].
Definition enable2929 : InstructionSet S → Go (InstructionSet S) := assign eip2929_changes.

Definition eip3529_changes : list Assignment :=
  [DynamicGas SSTORE gasSStoreEIP3529;
   DynamicGas SELFDESTRUCT gasSelfdestructEIP3529].
Definition enable3529 : InstructionSet S → Go (InstructionSet S) := assign eip3529_changes.

Definition eip3198_changes : list Assignment :=
  [Slot BASEFEE (oper (Some opBaseFee) None GasQuickStep None (minStack 0 1) (maxStack 0 1) None)].
Definition enable3198 : InstructionSet S → Go (InstructionSet S) := assign eip3198_changes.

Definition newIstanbulInstructionSet : Go (InstructionSet S) :=
  instructionSet ← newConstantinopleInstructionSet;
  instructionSet ← enable1344 instructionSet;
  instructionSet ← enable1884 instructionSet;
  instructionSet ← enable2200 instructionSet;
  validate instructionSet.

Definition newBerlinInstructionSet : Go (InstructionSet S) :=
  instructionSet ← newIstanbulInstructionSet;
  instructionSet ← enable2929 instructionSet;
  validate instructionSet.

Definition newLondonInstructionSet : Go (InstructionSet S) :=
  instructionSet ← newBerlinInstructionSet;
  instructionSet ← enable3529 instructionSet;
  instructionSet ← enable3198 instructionSet;
  validate instructionSet.

(** The value of a package variable.  A panic of its initialisation ends the program
    before it starts; here it leaves a table of nil slots. *)
Definition initialised (g : Go (InstructionSet S)) : InstructionSet S :=
  match g with Ret jt => jt | Panic _ => ∅ end.

Definition frontierInstructionSet := initialised newFrontierInstructionSet.
Definition homesteadInstructionSet := initialised newHomesteadInstructionSet.
Definition tangerineWhistleInstructionSet := initialised newTangerineWhistleInstructionSet.
Definition spuriousDragonInstructionSet := initialised newSpuriousDragonInstructionSet.
Definition byzantiumInstructionSet := initialised newByzantiumInstructionSet.
Definition constantinopleInstructionSet := initialised newConstantinopleInstructionSet.
Definition istanbulInstructionSet := initialised newIstanbulInstructionSet.
Definition berlinInstructionSet := initialised newBerlinInstructionSet.
Definition londonInstructionSet := initialised newLondonInstructionSet.

(** The set [NewEVMInterpreter] chooses when no table and no extra EIP is configured. *)
Definition instruction_set (r : Rules) : InstructionSet S :=
  if IsLondon r then londonInstructionSet
  else if IsBerlin r then berlinInstructionSet
  else if IsIstanbul r then istanbulInstructionSet
  else if IsConstantinople r then constantinopleInstructionSet
  else if IsByzantium r then byzantiumInstructionSet
  else if IsEIP158 r then spuriousDragonInstructionSet
  else if IsEIP150 r then tangerineWhistleInstructionSet
  else if IsHomestead r then homesteadInstructionSet
  else frontierInstructionSet.
End tables.

(** The interpreter with the instruction set of the rules [r]. *)
Definition machine {S : Type} `{StateDB S} `{Uint256} `{Externals} (r : Rules) (levels : nat) : Runner (S := S) :=
  Run levels (table (instruction_set r)).

(** * The sets without panics

    The slots that the constructors assign, without the filled ones.  Every table is
    its assigned slots with the others filled, as no assignment meets a nil slot. *)
Section slots.
Context {S : Type} `{StateDB S} `{Uint256} `{Externals}.
#[local] Abbreviation Changes := (list (Assignment (S := S))).

Definition slots1 (jt : InstructionSet S) (a : Assignment) : InstructionSet S :=
  match a with
  | Slot op o => set_ops [(op, o)] jt
  | ConstantGas op g => alter (with_constantGas g) op jt
  | DynamicGas op d => alter (with_dynamicGas d) op jt
  end.

Definition slots (l : Changes) (jt : InstructionSet S) : InstructionSet S := foldl slots1 jt l.

Definition frontier_slots : InstructionSet S := set_ops frontier_ops ∅.
Definition homestead_slots : InstructionSet S := slots homestead_changes frontier_slots.
Definition tangerineWhistle_slots : InstructionSet S := slots tangerineWhistle_changes homestead_slots.
Definition spuriousDragon_slots : InstructionSet S := slots spuriousDragon_changes tangerineWhistle_slots.
Definition byzantium_slots : InstructionSet S := slots byzantium_changes spuriousDragon_slots.
Definition constantinople_slots : InstructionSet S := slots constantinople_changes byzantium_slots.
Definition istanbul_slots : InstructionSet S := slots eip2200_changes (slots eip1884_changes (slots eip1344_changes constantinople_slots)).
Definition berlin_slots : InstructionSet S := slots eip2929_changes istanbul_slots.
Definition london_slots : InstructionSet S := slots eip3198_changes (slots eip3529_changes berlin_slots).

Definition instruction_slots (r : Rules) : InstructionSet S :=
  if IsLondon r then london_slots
  else if IsBerlin r then berlin_slots
  else if IsIstanbul r then istanbul_slots
  else if IsConstantinople r then constantinople_slots
  else if IsByzantium r then byzantium_slots
  else if IsEIP158 r then spuriousDragon_slots
  else if IsEIP150 r then tangerineWhistle_slots
  else if IsHomestead r then homestead_slots
  else frontier_slots.

Lemma elem_of_opcodes op : op ∈ opcodes ↔ 0 ≤ op < 256.
Proof. unfold opcodes. rewrite elem_of_seqZ. lia. Qed.

Lemma fill_lookup (jt : InstructionSet S) op :
  fill_undefined jt !! op = if decide (0 ≤ op < 256) then Some (default undefined (jt !! op)) else jt !! op.
Proof.
  unfold fill_undefined.
  enough (∀ l (t : InstructionSet S), (∀ i o, jt !! i = Some o → t !! i = Some o) →
    foldl (λ (t : gmap Z operation) i, match jt !! i with None => <[i := undefined]> t | Some _ => t end) t l !! op =
    if decide (op ∈ l) then Some (default undefined (jt !! op)) else t !! op) as Hfill.
  { rewrite Hfill by done. destruct (decide (op ∈ opcodes)) as [Hin|Hin]; rewrite elem_of_opcodes in Hin; by case_decide. }
  induction l as [|i l IH]; intros t Ht; cbn [foldl]; [by rewrite decide_False by apply not_elem_of_nil|].
  destruct (jt !! i) as [o|] eqn:Ei.
  - rewrite IH by done. destruct (decide (op ∈ l)) as [Hin|Hin].
    + by rewrite decide_True by by right.
    + destruct (decide (op = i)) as [->|Hne]; [|by rewrite decide_False by set_solver].
      rewrite decide_True by by left. rewrite Ei. by apply Ht.
  - rewrite IH.
    2:{ intros i' o Hi. rewrite lookup_insert_ne; [by apply Ht|]. intros ->. congruence. }
    destruct (decide (op ∈ l)) as [Hin|Hin]; [by rewrite decide_True by by right|].
    destruct (decide (op = i)) as [->|Hne].
    + rewrite decide_True by by left. by rewrite lookup_insert_eq, Ei.
    + rewrite decide_False by set_solver. by rewrite lookup_insert_ne.
Qed.

Lemma fill_insert (jt : InstructionSet S) op o : <[op := o]> (fill_undefined jt) = fill_undefined (<[op := o]> jt).
Proof.
  apply map_eq. intros i. rewrite fill_lookup. destruct (decide (op = i)) as [->|Hne].
  - rewrite !lookup_insert_eq. by case_decide.
  - rewrite !lookup_insert_ne by done. apply fill_lookup.
Qed.

(** No assignment of the list meets a slot that is not assigned. *)
Definition assignable (jt : InstructionSet S) (a : Assignment (S := S)) : bool :=
  match a with
  | Slot _ _ => true
  | ConstantGas op _ | DynamicGas op _ => bool_decide (0 ≤ op < 256) && bool_decide (is_Some (jt !! op))
  end.

Fixpoint all_assignable (jt : InstructionSet S) (l : Changes) : bool :=
  match l with
  | [] => true
  | a :: l' => assignable jt a && all_assignable (slots1 jt a) l'
  end.

Lemma assign_field_fill h (jt : InstructionSet S) op :
  bool_decide (0 ≤ op < 256) && bool_decide (is_Some (jt !! op)) = true →
  assign_field h op (fill_undefined jt) = Ret (fill_undefined (alter h op jt)).
Proof.
  rewrite andb_true_iff, !bool_decide_eq_true. intros [Hop [o Ho]].
  unfold assign_field. rewrite fill_lookup, decide_True by done. rewrite Ho. cbn. f_equal.
  rewrite fill_insert. apply (f_equal fill_undefined).
  apply map_eq. intros i. destruct (decide (op = i)) as [->|Hne].
  - by rewrite lookup_insert_eq, lookup_alter_eq, Ho.
  - by rewrite lookup_insert_ne, lookup_alter_ne.
Qed.

Lemma assign_fill (l : Changes) jt :
  all_assignable jt l = true → assign l (fill_undefined jt) = Ret (fill_undefined (slots l jt)).
Proof.
  unfold assign, slots. revert jt. induction l as [|a l IH]; intros jt; cbn [all_assignable go_foldl foldl]; [done|].
  intros [Ha Hl]%andb_true_iff. assert (assign1 (fill_undefined jt) a = Ret (fill_undefined (slots1 jt a))) as ->; [|by apply IH].
  destruct a as [op o|op g|op d]; cbn in Ha |- *; [by rewrite fill_insert|by apply assign_field_fill..].
Qed.

(** The check of [validate] on the assigned slots. *)
Definition slots_valid (jt : InstructionSet S) : bool :=
  forallb (λ '(_, o), match memorySize o, dynamicGas o with Some _, None => false | _, _ => true end)
    (map_to_list jt).

Lemma validate_ret (jt : InstructionSet S) :
  (∀ op, 0 ≤ op < 256 → ∃ o, jt !! op = Some o ∧ (is_Some (memorySize o) → is_Some (dynamicGas o))) →
  validate jt = Ret jt.
Proof.
  intros Hjt. unfold validate.
  assert (∀ l, (∀ op, op ∈ l → 0 ≤ op < 256) → go_foldl (validate_slot jt) tt l = Ret tt) as ->; [|done|by intros; apply elem_of_opcodes].
  induction l as [|i l IH]; intros Hl; cbn [go_foldl]; [done|].
  destruct (Hjt i) as (o & Ho & Hm); [apply Hl; by left|]. unfold validate_slot at 1. rewrite Ho.
  assert (match memorySize o, dynamicGas o with Some _, None => Panic ExplicitPanic | _, _ => Ret tt end = Ret tt) as ->.
  { destruct (memorySize o), (dynamicGas o); try done. by destruct Hm as [? [=]]. }
  apply IH. intros op Hin. apply Hl. by right.
Qed.

Lemma fill_valid (jt : InstructionSet S) :
  slots_valid jt = true →
  ∀ op, 0 ≤ op < 256 → ∃ o, fill_undefined jt !! op = Some o ∧ (is_Some (memorySize o) → is_Some (dynamicGas o)).
Proof.
  unfold slots_valid. rewrite forallb_forall. intros Hv op Hop. rewrite fill_lookup, decide_True by done.
  eexists. split; [done|]. destruct (jt !! op) as [o|] eqn:E; cbn; [|by intros [? [=]]].
  apply elem_of_map_to_list, list_elem_of_In, Hv in E. destruct (memorySize o), (dynamicGas o); try done; by intros [? [=]].
Qed.

Lemma validate_fill (jt : InstructionSet S) :
  slots_valid jt = true → validate (fill_undefined jt) = Ret (fill_undefined jt).
Proof. intros Hv. by apply validate_ret, fill_valid. Qed.

(** The tables. *)
Ltac new_set base := rewrite base; cbn [mbind Go_bind];
  unfold enable1344, enable1884, enable2200, enable2929, enable3198, enable3529;
  repeat (rewrite assign_fill by (vm_compute; reflexivity); cbn [mbind Go_bind]);
  rewrite validate_fill by (vm_compute; reflexivity); reflexivity.

Lemma newFrontier_slots : newFrontierInstructionSet (S := S) = Ret (fill_undefined frontier_slots).
Proof. apply validate_fill. vm_compute. reflexivity. Qed.
Lemma newHomestead_slots : newHomesteadInstructionSet (S := S) = Ret (fill_undefined homestead_slots).
Proof. unfold newHomesteadInstructionSet. new_set newFrontier_slots. Qed.
Lemma newTangerineWhistle_slots : newTangerineWhistleInstructionSet (S := S) = Ret (fill_undefined tangerineWhistle_slots).
Proof. unfold newTangerineWhistleInstructionSet. new_set newHomestead_slots. Qed.
Lemma newSpuriousDragon_slots : newSpuriousDragonInstructionSet (S := S) = Ret (fill_undefined spuriousDragon_slots).
Proof. unfold newSpuriousDragonInstructionSet. new_set newTangerineWhistle_slots. Qed.
Lemma newByzantium_slots : newByzantiumInstructionSet (S := S) = Ret (fill_undefined byzantium_slots).
Proof. unfold newByzantiumInstructionSet. new_set newSpuriousDragon_slots. Qed.
Lemma newConstantinople_slots : newConstantinopleInstructionSet (S := S) = Ret (fill_undefined constantinople_slots).
Proof. unfold newConstantinopleInstructionSet. new_set newByzantium_slots. Qed.
Lemma newIstanbul_slots : newIstanbulInstructionSet (S := S) = Ret (fill_undefined istanbul_slots).
Proof. unfold newIstanbulInstructionSet. new_set newConstantinople_slots. Qed.
Lemma newBerlin_slots : newBerlinInstructionSet (S := S) = Ret (fill_undefined berlin_slots).
Proof. unfold newBerlinInstructionSet. new_set newIstanbul_slots. Qed.
Lemma newLondon_slots : newLondonInstructionSet (S := S) = Ret (fill_undefined london_slots).
Proof. unfold newLondonInstructionSet. new_set newBerlin_slots. Qed.

Lemma instruction_set_slots r : instruction_set (S := S) r = fill_undefined (instruction_slots r).
Proof.
  unfold instruction_set, instruction_slots, londonInstructionSet, berlinInstructionSet, istanbulInstructionSet,
    constantinopleInstructionSet, byzantiumInstructionSet, spuriousDragonInstructionSet,
    tangerineWhistleInstructionSet, homesteadInstructionSet, frontierInstructionSet.
  rewrite newLondon_slots, newBerlin_slots, newIstanbul_slots, newConstantinople_slots, newByzantium_slots,
    newSpuriousDragon_slots, newTangerineWhistle_slots, newHomestead_slots, newFrontier_slots.
  by repeat case_match.
Qed.
End slots.
