(* ===== verification/RecorderFacts.v ===== *)
(** * The recorder's call stack is well bracketed

    What every instruction, call and run leaves of the pending nodes: those
    below the top one unchanged, and the top one with more children. *)

From S2P Require Import Prelude Common Params Uint256 Machine Tx Vm.
From S2P Require Import Evm Interpreter Gas Instructions JumpTable.

Create HintDb vm.

Definition add_InTxs (n : InternalTx) (txs : list InternalTx) : InternalTx :=
  mkInternalTx (itx_From n) (itx_To n) (itx_IsContract n) (itx_Value n) (itx_CallType n) (itx_Input n)
    (itx_Events n) (itx_InTxs n ++ txs).

(** The header of a node: what its creator wrote in it. *)
Definition header (n : InternalTx) : Address * Address * bool * option Z * string * bytes :=
  (itx_From n, itx_To n, itx_IsContract n, itx_Value n, itx_CallType n, itx_Input n).

Lemma add_InTxs_nil n : add_InTxs n [] = n.
Proof. destruct n. unfold add_InTxs. cbn. by rewrite app_nil_r. Qed.

Lemma add_InTxs_app n l1 l2 : add_InTxs (add_InTxs n l1) l2 = add_InTxs n (l1 ++ l2).
Proof. unfold add_InTxs. cbn. by rewrite app_assoc. Qed.

Lemma add_InTx_InTxs n c : add_InTx n c = add_InTxs n [c].
Proof. done. Qed.

Section recorder.
Context {S : Type} `{StateDB S} `{Uint256} `{Externals}.

(** The fields no instruction changes. *)
Definition same_env (e e' : EVM S) : Prop :=
  depth e' = depth e ∧ readOnly e' = readOnly e ∧ ExTx e' = ExTx e ∧ chainRules e' = chainRules e ∧
  Context e' = Context e ∧ TxCtx e' = TxCtx e ∧ abort e' = abort e.

Definition grows (cs cs' : list InternalTx) : Prop :=
  ∃ top rest txs, cs = top :: rest ∧ cs' = add_InTxs top txs :: rest.

Definition keeps (e e' : EVM S) : Prop := same_env e e' ∧ grows (CallStack e) (CallStack e').

Lemma same_env_refl e : same_env e e.
Proof. done. Qed.

Lemma same_env_trans e1 e2 e3 : same_env e1 e2 → same_env e2 e3 → same_env e1 e3.
Proof. unfold same_env. intuition congruence. Qed.

Lemma grows_refl cs : cs ≠ [] → grows cs cs.
Proof. destruct cs as [|top rest]; [done|]. exists top, rest, []. by rewrite add_InTxs_nil. Qed.

Lemma grows_trans cs1 cs2 cs3 : grows cs1 cs2 → grows cs2 cs3 → grows cs1 cs3.
Proof.
  intros (t & r & l1 & -> & ->) (t' & r' & l2 & [= <- <-] & ->).
  exists t, r, (l1 ++ l2). by rewrite add_InTxs_app.
Qed.

Lemma grows_nonempty cs cs' : grows cs cs' → cs' ≠ [].
Proof. by intros (t & r & l & -> & ->). Qed.

Lemma keeps_trans e1 e2 e3 : keeps e1 e2 → keeps e2 e3 → keeps e1 e3.
Proof. intros [? ?] [? ?]. split; [by eapply same_env_trans|by eapply grows_trans]. Qed.

Lemma keeps_same e e' : CallStack e ≠ [] → same_env e e' → CallStack e' = CallStack e → keeps e e'.
Proof. intros Hne Hs Hc. split; [done|]. rewrite Hc. by apply grows_refl. Qed.

(** ** Computations over a frame *)

Definition framed {A} (m : Exec S A) : Prop :=
  ∀ f f' r, CallStack (f_evm f) ≠ [] → m f = Done (f', r) → keeps (f_evm f) (f_evm f').

Definition evm_framed {A} (m : EVM S → Res (EVM S * A)) : Prop :=
  ∀ e e' a, CallStack e ≠ [] → m e = Done (e', a) → keeps e e'.

Lemma framed_pure {A} (m : Exec S A) :
  (∀ f f' r, m f = Done (f', r) → f_evm f' = f_evm f) → framed m.
Proof. intros Hm f f' r Hne E. rewrite (Hm _ _ _ E). by apply keeps_same. Qed.

Lemma framed_ret {A} (a : A) : framed (mret a).
Proof. apply framed_pure. by intros f f' r [= <- _]. Qed.
Lemma framed_throw {A} err : framed (throw (A:=A) err).
Proof. apply framed_pure. by intros f f' r [= <- _]. Qed.
Lemma framed_gets {A} (g : Frame S → A) : framed (gets g).
Proof. apply framed_pure. by intros f f' r [= <- _]. Qed.
Lemma framed_lift {A} (m : Go A) : framed (lift m).
Proof. apply framed_pure. intros f f' r. destruct m; [by intros [= <- _]|done]. Qed.
Lemma framed_put_pc pc : framed (put_pc pc).
Proof. apply framed_pure. by intros f f' r [= <- _]. Qed.
Lemma framed_put_mem m : framed (put_mem m).
Proof. apply framed_pure. by intros f f' r [= <- _]. Qed.
Lemma framed_put_stack st : framed (put_stack st).
Proof. apply framed_pure. by intros f f' r [= <- _]. Qed.
Lemma framed_put_contract c : framed (put_contract c).
Proof. apply framed_pure. by intros f f' r [= <- _]. Qed.

Lemma framed_modify (h : EVM S → EVM S) :
  (∀ e, same_env e (h e) ∧ CallStack (h e) = CallStack e) → framed (modify_evm h).
Proof. intros Hh f f' r Hne [= <- _]. destruct (Hh (f_evm f)). by apply keeps_same. Qed.

Lemma framed_put_db db : framed (put_db db).
Proof. by apply framed_modify. Qed.

Lemma framed_bind {A B} (m : Exec S A) (k : A → Exec S B) :
  framed m → (∀ a, framed (k a)) → framed (m ≫= k).
Proof.
  intros Hm Hk f f' r Hne. unfold mbind, Exec_bind, Res_bind, mbind.
  destruct (m f) as [[f1 r1]|p|] eqn:E; [|done|done]. intros E'.
  pose proof (Hm _ _ _ Hne E) as K1. destruct r1 as [err|a].
  - by injection E' as <- _.
  - eapply keeps_trans; [exact K1|]. eapply Hk; [|exact E']. destruct K1 as [_ G]. by eapply grows_nonempty.
Qed.

Lemma framed_if {A} (b : bool) (m1 m2 : Exec S A) : framed m1 → framed m2 → framed (if b then m1 else m2).
Proof. by destruct b. Qed.

Lemma framed_in_evm {A} (m : EVM S → Res (EVM S * A)) : evm_framed m → framed (in_evm m).
Proof.
  intros Hm f f' r Hne. unfold in_evm. cbn.
  destruct (m (f_evm f)) as [[e a]|p|] eqn:E; cbn; [|done|done]. intros [= <- _]. by eapply Hm.
Qed.
End recorder.

#[export] Hint Resolve framed_ret framed_throw framed_gets framed_lift framed_put_pc framed_put_mem
  framed_put_stack framed_put_contract framed_put_db : vm.

(** Prove that a computation is framed by following its binds and branches. *)
Ltac head_of t := match t with ?f _ => head_of f | _ => t end.
Ltac framed_step :=
  match goal with
  | |- framed (_ ≫= _) => apply framed_bind; [|intros ?]
  | |- framed (if ?b then _ else _) => destruct b
  | |- framed (match ?x with _ => _ end) => destruct x
  | |- framed (modify_evm _) => apply framed_modify; done
  | |- framed (in_evm _) => apply framed_in_evm
  | |- framed ?m => let h := head_of m in unfold h; cbv beta zeta
  end.
Ltac framed := repeat (cbv beta; first [solve [eauto with vm nocore] | framed_step]).

Section ops.
Context {S : Type} `{StateDB S} `{Uint256} `{Externals}.

(** The calls an instruction makes keep the pending nodes. *)
Record calls_keep (calls : Calls (S := S)) : Prop := {
  keep_Call c a i g v : evm_framed (evm_Call calls c a i g v);
  keep_CallCode c a i g v : evm_framed (evm_CallCode calls c a i g v);
  keep_DelegateCall c a i g : evm_framed (evm_DelegateCall calls c a i g);
  keep_StaticCall c a i g : evm_framed (evm_StaticCall calls c a i g);
  keep_Create c i g v : evm_framed (evm_Create calls c i g v);
  keep_Create2 c i g v t : evm_framed (evm_Create2 calls c i g v t)
}.

(** An operation that keeps the pending nodes if the calls do. *)
Definition op_framed (o : operation (S := S)) : Prop :=
  (∀ ex calls, execute o = Some ex → calls_keep calls → framed (ex calls)) ∧
  (∀ ex, executeLog o = Some ex → framed ex) ∧
  (∀ dyn n, dynamicGas o = Some dyn → framed (dyn n)).

Lemma op_framed_oper ex lg g dyn minS maxS size :
  (∀ ex' calls, ex = Some ex' → calls_keep calls → framed (ex' calls)) →
  (∀ ex', lg = Some ex' → framed ex') →
  (∀ dyn' n, dyn = Some dyn' → framed (dyn' n)) →
  op_framed (oper ex lg g dyn minS maxS size).
Proof. done. Qed.

Lemma framed_pop_topics n : framed (S := S) (pop_topics n).
Proof. induction n; cbn [pop_topics]; framed. Qed.

Lemma framed_valid_dest pos : framed (S := S) (valid_dest pos).
Proof.
  intros f f' r Hne. unfold valid_dest. cbn.
  destruct (validJumpdest _ _ _) as [[[m c] b]|p|]; cbn; [|done|done]. intros [= <- _]. by apply keeps_same.
Qed.
End ops.

#[export] Hint Resolve framed_pop_topics framed_valid_dest keep_Call keep_CallCode keep_DelegateCall
  keep_StaticCall keep_Create keep_Create2 : vm.

Ltac framed_op :=
  apply op_framed_oper; [intros ? ? [= <-] ?|intros ? [=]; subst|intros ? ? [=]; subst]; framed.

(** ** Properties of all operations of an instruction set *)
Section sets.
Context {S : Type} `{StateDB S} `{Uint256} `{Externals}.
Context (P : Z → operation (S := S) → Prop).

Definition set_all (jt : InstructionSet S) : Prop := map_Forall P jt.

Lemma set_all_ops l (jt : InstructionSet S) :
  Forall (λ '(op, o), P op o) l → set_all jt → set_all (set_ops l jt).
Proof.
  unfold set_all. induction 1 as [|[op o] l Ho _ IH]; intros Hjt; [done|].
  intros i x. cbn. rewrite lookup_insert_Some. intros [[<- <-]|[_ Hx]]; [done|]. by eapply IH.
Qed.

Lemma set_all_alter (h : operation (S := S) → operation (S := S)) op (jt : InstructionSet S) :
  (∀ o, P op o → P op (h o)) → set_all jt → set_all (alter h op jt).
Proof.
  intros Hh Hjt op' o. destruct (decide (op = op')) as [->|Hne].
  - rewrite lookup_alter_eq. intros (o' & Ho' & ->)%fmap_Some. apply Hh, (Hjt op' o' Ho').
  - rewrite lookup_alter_ne by done. apply Hjt.
Qed.

Lemma set_all_constantGas op g (jt : InstructionSet S) :
  (∀ o, P op o → P op (oper (execute o) (executeLog o) g (dynamicGas o) (op_minStack o) (op_maxStack o) (memorySize o))) →
  set_all jt → set_all (alter (with_constantGas g) op jt).
Proof. apply set_all_alter. Qed.

Lemma set_all_dynamicGas op d (jt : InstructionSet S) :
  (∀ o, P op o → P op (oper (execute o) (executeLog o) (constantGas o) (Some d) (op_minStack o) (op_maxStack o) (memorySize o))) →
  set_all jt → set_all (alter (with_dynamicGas d) op jt).
Proof. apply set_all_alter. Qed.

Lemma set_all_both op g d (jt : InstructionSet S) :
  (∀ o, P op o → P op (oper (execute o) (executeLog o) g (Some d) (op_minStack o) (op_maxStack o) (memorySize o))) →
  set_all jt → set_all (alter (with_dynamicGas d) op (alter (with_constantGas g) op jt)).
Proof.
  intros Hh Hjt op' o. destruct (decide (op = op')) as [->|Hne].
  - rewrite !lookup_alter_eq. intros (o2 & (o1 & Ho1 & ->)%fmap_Some & ->)%fmap_Some. exact (Hh o1 (Hjt op' o1 Ho1)).
  - rewrite !lookup_alter_ne by done. apply Hjt.
Qed.

Lemma table_all (jt : InstructionSet S) op :
  P op undefined → P op nil_slot → set_all jt → P op (table (fill_undefined jt) op).
Proof.
  intros Hu Hn Hjt. unfold table. rewrite fill_lookup.
  destruct (jt !! op) as [o|] eqn:E; case_decide; cbn; [by apply (Hjt op o)|by apply (Hjt op o)|done|done].
Qed.
End sets.

(** Follow the constructors of an instruction set, with tactics for its lists of
    operations and for the two updates. *)
Create HintDb vm_sets.
Ltac set_all ops constant dynamic := repeat first
  [ solve [auto with vm_sets nocore]
  | apply set_all_constantGas; [intros ? ?; cbv beta in *; constant|]
  | apply set_all_dynamicGas; [intros ? ?; cbv beta in *; dynamic|]
  | apply set_all_ops; [repeat (constructor; [cbv beta; ops|]); constructor|]
  | match goal with |- set_all _ (slots ?l _) => let h := head_of l in unfold slots at 1, h; cbn [foldl slots1] end
  | match goal with |- set_all _ ?jt => let h := head_of jt in unfold h; cbv beta zeta end ].

Section tables.
Context {S : Type} `{StateDB S} `{Uint256} `{Externals}.

Lemma frontier_framed : Forall (λ '(_, o), op_framed o) (frontier_ops (S := S)).
Proof.
  unfold frontier_ops. rewrite !Forall_app.
  split_and!; unfold frontier_arithmetic, frontier_environment, frontier_memory, frontier_push_1_16,
    frontier_push_17_32, frontier_dup, frontier_swap, frontier_log_and_system;
    repeat (constructor; [framed_op|]); constructor.
Qed.

Lemma frontier_set_framed : set_all (λ _, op_framed) frontier_slots.
Proof. apply set_all_ops; [apply frontier_framed|]. by intros ? ?. Qed.
#[local] Hint Resolve frontier_set_framed : vm_sets.

Ltac set_framed := set_all framed_op ltac:(idtac; match goal with Ho : op_framed _ |- _ => exact Ho end)
  ltac:(idtac; match goal with Ho : op_framed _ |- _ => destruct Ho as (? & ? & _) end;
        apply op_framed_oper; [done|done|intros ? ? [= <-]; framed]).

Lemma homestead_set_framed : set_all (λ _, op_framed) homestead_slots.
Proof. set_framed. Qed.
#[local] Hint Resolve homestead_set_framed : vm_sets.
Lemma tangerineWhistle_set_framed : set_all (λ _, op_framed) tangerineWhistle_slots.
Proof. set_framed. Qed.
#[local] Hint Resolve tangerineWhistle_set_framed : vm_sets.
Lemma spuriousDragon_set_framed : set_all (λ _, op_framed) spuriousDragon_slots.
Proof. set_framed. Qed.
#[local] Hint Resolve spuriousDragon_set_framed : vm_sets.
Lemma byzantium_set_framed : set_all (λ _, op_framed) byzantium_slots.
Proof. set_framed. Qed.
#[local] Hint Resolve byzantium_set_framed : vm_sets.
Lemma constantinople_set_framed : set_all (λ _, op_framed) constantinople_slots.
Proof. set_framed. Qed.
#[local] Hint Resolve constantinople_set_framed : vm_sets.
Lemma istanbul_set_framed : set_all (λ _, op_framed) istanbul_slots.
Proof. set_framed. Qed.
#[local] Hint Resolve istanbul_set_framed : vm_sets.
Lemma berlin_set_framed : set_all (λ _, op_framed) berlin_slots.
Proof. set_framed. Qed.
#[local] Hint Resolve berlin_set_framed : vm_sets.
Lemma london_set_framed : set_all (λ _, op_framed) london_slots.
Proof. set_framed. Qed.
#[local] Hint Resolve london_set_framed : vm_sets.

(** The instruction sets of every fork. *)
Lemma instruction_slots_framed r : set_all (λ _, op_framed) (instruction_slots r).
Proof.
  unfold instruction_slots. repeat (match goal with |- set_all _ (if ?b then _ else _) => destruct b end);
    set_framed.
Qed.

Lemma undefined_framed : op_framed (S := S) undefined.
Proof. framed_op. Qed.

Lemma nil_slot_framed : op_framed (S := S) nil_slot.
Proof. framed_op. Qed.

Lemma table_framed r op : op_framed (table (instruction_set r) op).
Proof. rewrite instruction_set_slots. apply (table_all (λ _, op_framed)); [apply undefined_framed|apply nil_slot_framed|apply instruction_slots_framed]. Qed.
End tables.
