(* ===== verification/CallFacts.v ===== *)
(** * Calls and runs record exactly one node per executed callee

    [records P e e'] says that between [e] and [e'] at most one node was
    recorded, under the pending node on top if there is one and as a new root of
    the transaction otherwise, and that the node satisfies [P]. *)

From S2P Require Import Prelude Common Params Uint256 Machine Tx Vm.
From S2P Require Import Evm Interpreter Gas Instructions JumpTable RecorderFacts.

Section calls.
Context {S : Type} `{StateDB S} `{Uint256} `{Externals}.

Definition same_ctx (e e' : EVM S) : Prop :=
  depth e' = depth e ∧ readOnly e' = readOnly e ∧ chainRules e' = chainRules e ∧
  Context e' = Context e ∧ TxCtx e' = TxCtx e ∧ abort e' = abort e.

Definition quiet (e e' : EVM S) : Prop :=
  same_ctx e e' ∧ CallStack e' = CallStack e ∧ ExTx e' = ExTx e.

Definition add_roots (ex : ExternalTx) (txs : list InternalTx) : ExternalTx := foldl add_root ex txs.

Definition new_nodes (e e' : EVM S) (new : list InternalTx) : Prop :=
  match CallStack e with
  | top :: rest => CallStack e' = add_InTxs top new :: rest ∧ ExTx e' = ExTx e
  | [] => CallStack e' = [] ∧ ExTx e' = add_roots (ExTx e) new
  end.

Definition records (P : InternalTx → Prop) (e e' : EVM S) : Prop :=
  same_ctx e e' ∧ ∃ new, (new = [] ∨ ∃ n, new = [n] ∧ P n) ∧ new_nodes e e' new.

Lemma quiet_refl e : quiet e e.
Proof. done. Qed.

Lemma quiet_set_statedb e s : quiet e (set_statedb e s).
Proof. done. Qed.

Lemma same_ctx_trans e1 e2 e3 : same_ctx e1 e2 → same_ctx e2 e3 → same_ctx e1 e3.
Proof. unfold same_ctx. intuition congruence. Qed.

Lemma quiet_trans e1 e2 e3 : quiet e1 e2 → quiet e2 e3 → quiet e1 e3.
Proof.
  intros (Hc & Q1 & Q2) (Hc' & Q3 & Q4). split; [by eapply same_ctx_trans|]. split; congruence.
Qed.

Lemma quiet_records P e e' : quiet e e' → records P e e'.
Proof.
  intros (Hc & Q1 & Q2). split; [done|]. exists []. split; [by left|]. unfold new_nodes.
  destruct (CallStack e) as [|top rest] eqn:E; [done|]. by rewrite add_InTxs_nil.
Qed.

Lemma records_quiet_l P e1 e2 e3 : quiet e1 e2 → records P e2 e3 → records P e1 e3.
Proof.
  intros (Hc & Q1 & Q2) (Hc' & new & Hnew & Hr). split; [by eapply same_ctx_trans|]. exists new.
  split; [done|]. unfold new_nodes in *. rewrite Q1 in Hr. rewrite <- Q2. done.
Qed.

Lemma records_quiet_r P e1 e2 e3 : records P e1 e2 → quiet e2 e3 → records P e1 e3.
Proof.
  intros (Hc' & new & Hnew & Hr) (Hc & Q1 & Q2). split; [by eapply same_ctx_trans|]. exists new.
  split; [done|]. unfold new_nodes in *. rewrite Q1, Q2. done.
Qed.

Lemma records_keeps P e e' : CallStack e ≠ [] → records P e e' → keeps e e'.
Proof.
  intros Hne (Hc & new & _ & Hr). unfold new_nodes in Hr. destruct (CallStack e) as [|top rest] eqn:E; [done|].
  destruct Hr as [Q1 Q2]. split.
  - unfold same_env, same_ctx in *. intuition.
  - rewrite E, Q1. by exists top, rest, new.
Qed.

(** What a run leaves of the node it runs under. *)
Definition ran (n n' : InternalTx) : Prop :=
  ∃ txs evs, n' = set_Events (add_InTxs n txs) evs.

Definition runner_ok (run : Runner (S := S)) : Prop :=
  ∀ c i ro e e' r, CallStack e ≠ [] → run c i ro e = Done (e', r) →
    same_env e e' ∧ ∃ top rest top', CallStack e = top :: rest ∧ CallStack e' = top' :: rest ∧ ran top top'.

Lemma ran_header n n' : ran n n' → header n' = header n.
Proof. by intros (txs & evs & ->). Qed.

Lemma run_recorded_by run e node c i ro e' r :
  runner_ok run → run_recorded run e node c i ro = Done (e', r) →
  records (λ n, header n = header node) e e'.
Proof.
  intros Hrun. unfold run_recorded.
  destruct (run c i ro (push_node e node)) as [[e1 r1]|p|] eqn:E; cbn; [|done|done].
  apply Hrun in E as (Hs & top & rest & top' & Ht & Ht' & Hran); [|done].
  injection Ht as <- <-. unfold pop_node. rewrite Ht'. apply ran_header in Hran.
  unfold records, new_nodes, same_ctx. unfold same_env in Hs.
  destruct (CallStack e) as [|parent rest] eqn:Ec; cbn; intros [= <- <-]; cbn.
  - split; [intuition|]. exists [top']. split; [right; by exists top'|].
    destruct Hs as (_ & _ & -> & _). done.
  - split; [intuition|]. exists [top']. split; [right; by exists top'|]. intuition.
Qed.

Lemma NewContract_quiet (e : EVM S) c o v g e' k : NewContract e c o v g = (e', k) → quiet e e'.
Proof. unfold NewContract. by destruct c; intros [= <- <-]. Qed.

Lemma settle_quiet sn (e : EVM S) ret gas err e' r : settle sn e ret gas err = Done (e', r) → quiet e e'.
Proof.
  unfold settle. destruct err as [x|]; [|by intros [= <- _]].
  destruct (RevertToSnapshot _ _); cbn; [|done]. by intros [= <- _].
Qed.

Lemma attach_leaf_by (e : EVM S) n e' : attach_leaf e n = Done e' → records (λ m, m = n) e e'.
Proof.
  unfold attach_leaf, records, new_nodes. destruct (CallStack e) as [|top rest] eqn:E; [done|].
  intros [= <-]. split; [done|]. exists [n]. split; [right; by exists n|]. done.
Qed.

Lemma records_impl (P Q : InternalTx → Prop) e e' :
  (∀ n, P n → Q n) → records P e e' → records Q e e'.
Proof.
  intros HPQ (Hc & new & Hnew & Hr). split; [done|]. exists new. split; [|done].
  destruct Hnew as [->|(n & -> & Hn)]; [by left|right; eauto].
Qed.

(** The end of a call whose middle part recorded at most one node. *)
Lemma settled_by P sn (e : EVM S) (m : Res (EVM S * (bytes * Z * option VmError))) e' r :
  (∀ e1 r1, m = Done (e1, r1) → records P e e1) →
  mbind (M:=Res) (λ '(e1, (ret, gas, err)), settle sn e1 ret gas err) m = Done (e', r) →
  records P e e'.
Proof.
  intros Hm. destruct m as [[e1 [[ret gas] err]]|p|]; cbn; [|done|done]. intros Hs.
  eapply records_quiet_r; [by eapply Hm|by eapply settle_quiet].
Qed.

(** Running a new contract under a node. *)
Lemma new_contract_by run (e e1 : EVM S) c o v g k k' node i ro e' r :
  runner_ok run → NewContract e c o v g = (e1, k') →
  ('(e2, (k2, ret, err)) ← run_recorded run e1 node k i ro; Done (e2, (ret, Gas k2, err)))
    = Done (e', r) →
  records (λ n, header n = header node) e e'.
Proof.
  intros Hrun HN. destruct (run_recorded _ _ _ _ _ _) as [[e2 [[k2 ret] err]]|p|] eqn:E; cbn; [|done|done].
  intros [= <- <-]. eapply records_quiet_l; [by eapply NewContract_quiet|]. by eapply run_recorded_by.
Qed.

Definition call_node (from to : Address) (is_contract : bool) (v : option Z) (ty : string) (input : bytes)
    (n : InternalTx) : Prop :=
  header n = (from, to, is_contract, v, ty, input).

Context (run : Runner (S := S)) (Hrun : runner_ok run).

Lemma Call_recorded caller addr input gas v e e' r :
  Call run caller addr input gas v e = Done (e', r) →
  records (λ n, ∃ b, call_node (ref_Address caller) addr b (Some v) "Call" input n) e e'.
Proof.
  unfold Call. destruct (_ <? depth e); [intros [= <- _]; by apply quiet_records|].
  destruct (negb _ && _); [intros [= <- _]; by apply quiet_records|].
  destruct (Snapshot _) as [s sn]. destruct (negb _ && _); [intros [= <- _]; by apply quiet_records|].
  intros E. eapply records_quiet_l; [|eapply settled_by; [|exact E]]; [apply quiet_set_statedb|].
  intros e1 r1. destruct (precompile _ _).
  - intros [= <- _]. by apply quiet_records.
  - destruct (len _ =? 0).
    + destruct (attach_leaf _ _) as [e2|p|] eqn:Ea; cbn; [|done|done]. intros [= <- _].
      eapply records_impl; [|by eapply attach_leaf_by]. intros n ->. by exists false.
    + destruct (NewContract _ _ _ _ _) as [e2 k] eqn:EN. intros E'.
      eapply records_impl; [|by eapply new_contract_by]. intros n Hn. by exists true.
Qed.

(** The three calls that run code without a transfer share one proof. *)
Ltac plain_call E :=
  eapply records_quiet_l; [|eapply settled_by; [|exact E]]; [apply quiet_set_statedb|];
  intros ? ?; destruct (precompile _ _); [intros [= <- _]; by apply quiet_records|];
  destruct (NewContract _ _ _ _ _) as [? ?] eqn:?;
  try (destruct (AsDelegate _); cbn; [|done]);
  intros ?; eapply records_impl; [|by eapply new_contract_by]; intros ? Hn; exact Hn.

Lemma CallCode_recorded caller addr input gas v e e' r :
  CallCode run caller addr input gas v e = Done (e', r) →
  records (call_node (ref_Address caller) addr true (Some v) "CallCode" input) e e'.
Proof.
  unfold CallCode. destruct (_ <? depth e); [intros [= <- _]; by apply quiet_records|].
  destruct (negb _); [intros [= <- _]; by apply quiet_records|].
  destruct (Snapshot _) as [s sn]. intros E. plain_call E.
Qed.

Lemma DelegateCall_recorded caller addr input gas e e' r :
  DelegateCall run caller addr input gas e = Done (e', r) →
  records (call_node (ref_Address caller) addr true None "DelegateCall" input) e e'.
Proof.
  unfold DelegateCall. destruct (_ <? depth e); [intros [= <- _]; by apply quiet_records|].
  destruct (Snapshot _) as [s sn]. intros E. plain_call E.
Qed.

Lemma StaticCall_recorded caller addr input gas e e' r :
  StaticCall run caller addr input gas e = Done (e', r) →
  records (call_node (ref_Address caller) addr true None "StaticCall" input) e e'.
Proof.
  unfold StaticCall. destruct (_ <? depth e); [intros [= <- _]; by apply quiet_records|].
  destruct (Snapshot _) as [s sn]. intros E. plain_call E.
Qed.

Lemma store_code_quiet (e : EVM S) c a ret err e' c' err' :
  store_code e c a ret err = (e', c', err') → quiet e e'.
Proof.
  unfold store_code. cbv zeta. destruct (if _ : bool then Some ErrInvalidCode else _); [by intros [= <- _ _]|].
  destruct (UseGas _ _) as [? []]; by intros [= <- _ _].
Qed.

Lemma create_recorded caller code hash gas v addr e e' r :
  create run caller code hash gas v addr e = Done (e', r) →
  records (call_node (ref_Address caller) 0 true None "Create" []) e e'.
Proof.
  unfold create. destruct (_ <? depth e); [intros [= <- _]; by apply quiet_records|].
  destruct (negb _); [intros [= <- _]; by apply quiet_records|].
  cbv zeta. destruct (wrapU _ _ <? _); [intros [= <- _]; by apply quiet_records|].
  destruct (negb _ || _); [intros [= <- _]; by apply quiet_records|].
  destruct (Snapshot _) as [s sn]. destruct (NewContract _ _ _ _ _) as [e1 k] eqn:EN.
  destruct (run_recorded _ _ _ _ _ _) as [[e2 [[k2 ret] err]]|p|] eqn:E; cbn; [|done|done].
  destruct (store_code _ _ _ _ _) as [[e3 k3] err3] eqn:Es. intros Hend.
  assert (records (call_node (ref_Address caller) 0 true None "Create" []) e e3) as Hr.
  { eapply records_quiet_r; [|by eapply store_code_quiet].
    eapply records_quiet_l; [|eapply records_impl; [|by eapply run_recorded_by]; by intros ? Hn].
    eapply quiet_trans; [apply quiet_set_statedb|by eapply NewContract_quiet]. }
  eapply records_quiet_r; [exact Hr|]. revert Hend. destruct err3 as [x|]; [|by intros [= <- _]].
  destruct (_ || _); [|by intros [= <- _]].
  destruct (RevertToSnapshot _ _); cbn; [|done]. by intros [= <- _].
Qed.

Lemma calls_of_keep : calls_keep (calls_of run).
Proof.
  split; intros; intros e e' [] Hne E; cbn in E; eapply records_keeps; try done.
  - by eapply Call_recorded.
  - by eapply CallCode_recorded.
  - by eapply DelegateCall_recorded.
  - by eapply StaticCall_recorded.
  - unfold Create in E. by eapply create_recorded.
  - unfold Create2 in E. by eapply create_recorded.
Qed.
End calls.

Section runs.
Context {S : Type} `{StateDB S} `{Uint256} `{Externals}.
Context (tbl : JumpTable (S := S)) (Htbl : ∀ op, op_framed (tbl op)).

Lemma framed_charge o : op_framed o → framed (charge_dynamic (S := S) o).
Proof.
  intros (_ & _ & Hdyn). unfold charge_dynamic. destruct (dynamicGas o) as [dyn|] eqn:Ed; [|framed].
  apply framed_bind; [framed|]. intros n. apply framed_bind; [|intros ?; framed].
  intros f f' r Hne. cbn. destruct (dyn n f) as [[f1 r1]|p|] eqn:E; cbn; [|done|done].
  intros [= <- _]. by eapply Hdyn.
Qed.

Lemma perform_keeps op o calls (f f' : Frame S) r :
  op_framed o → calls_keep calls → CallStack (f_evm f) ≠ [] → perform op o calls f = Done (f', r) →
  keeps (f_evm f) (f_evm f').
Proof.
  intros (He & Hl & _) Hc Hne. unfold perform. destruct (is_log op).
  - destruct (executeLog o) as [ex|] eqn:Ex; [|done].
    destruct (ex f) as [[f1 r1]|p|] eqn:E; cbn; [|done|done]. intros [= <- _]. by eapply Hl.
  - destruct (execute o) as [ex|] eqn:Ex; [|done].
    destruct (ex calls f) as [[f1 r1]|p|] eqn:E; cbn; [|done|done]. intros [= <- _]. by eapply He.
Qed.

Lemma step_keeps calls (f f' : Frame S) r :
  calls_keep calls → CallStack (f_evm f) ≠ [] → step tbl calls f = Done (f', r) →
  keeps (f_evm f) (f_evm f').
Proof.
  intros Hc Hne. unfold step. set (o := tbl _).
  destruct ((_ ← check_stack o; _ ← use_gas (constantGas o); charge_dynamic o) f) as [[f1 r1]|p|] eqn:E;
    cbn; [|done|done].
  assert (keeps (f_evm f) (f_evm f1)) as K1.
  { refine (framed_bind _ _ _ _ _ _ _ Hne E); [framed|intros _].
    apply framed_bind; [framed|intros _]. apply framed_charge, Htbl. }
  destruct r1 as [err|[]]; [by intros [= <- _]|].
  destruct (perform _ _ _ _) as [[f2 [ev [ret err]]]|p|] eqn:E2; cbn; [|done|done].
  apply perform_keeps in E2; [|apply Htbl|done|by destruct K1 as [_ ?%grows_nonempty]].
  destruct err; intros [= <- _]; by eapply keeps_trans.
Qed.

Lemma loop_keeps fuel calls (f f' : Frame S) evs r :
  calls_keep calls → CallStack (f_evm f) ≠ [] → loop fuel tbl calls f evs = Done (f', r) →
  keeps (f_evm f) (f_evm f').
Proof.
  intros Hc. revert f evs. induction fuel as [|fuel IH]; intros f evs Hne; [done|]. cbn [loop].
  destruct (step _ _ _) as [[f1 r1]|p|] eqn:E; cbn; [|done|done]. apply step_keeps in E; [|done..].
  destruct r1; try by intros [= <- _]. intros E'. eapply keeps_trans; [exact E|].
  eapply IH; [|exact E']. by destruct E as [_ ?%grows_nonempty].
Qed.

Lemma set_Events_same n : set_Events n (itx_Events n) = n.
Proof. by destruct n. Qed.

Lemma enter_leave (e e1 : EVM S) ro :
  same_env (enter_run e ro) e1 → same_env e (leave_run (resets e ro) e1).
Proof.
  unfold same_env, enter_run, leave_run, resets. destruct ro, (readOnly e) eqn:Er; cbn; rewrite ?Er; cbn;
    intuition (congruence || lia).
Qed.

Lemma enter_CallStack (e : EVM S) ro : CallStack (enter_run e ro) = CallStack e.
Proof. unfold enter_run. by destruct (resets _ _). Qed.

Lemma leave_CallStack (e : EVM S) b : CallStack (leave_run b e) = CallStack e.
Proof. by destruct b. Qed.

Lemma run_body_ok calls : calls_keep calls → runner_ok (run_body tbl calls).
Proof.
  intros Hc c i ro e e' r Hne. unfold run_body. cbv zeta.
  destruct (len _ =? 0).
  { intros [= <- _]. split; [by apply enter_leave|]. rewrite leave_CallStack, enter_CallStack.
    destruct (CallStack e) as [|top rest]; [done|]. exists top, rest, top. split; [done|]. split; [done|].
    exists [], (itx_Events top). by rewrite add_InTxs_nil, set_Events_same. }
  destruct (loop _ _ _ _ _) as [[f [[evs ret] err]]|p|] eqn:El; cbn; [|done|done].
  apply loop_keeps in El as [Hs (top & rest & txs & Ht & Ht')]; [|done|by cbn [f_evm]; rewrite enter_CallStack].
  cbn [f_evm] in Hs, Ht. rewrite enter_CallStack in Ht. destruct evs as [evs|].
  - unfold set_top_events. rewrite Ht'. cbn. intros [= <- _]. split; [by apply enter_leave|].
    rewrite leave_CallStack. exists top, rest. eexists. split; [done|]. split; [done|]. by exists txs, evs.
  - intros [= <- _]. split; [by apply enter_leave|].
    rewrite leave_CallStack. exists top, rest. eexists. split; [done|]. split; [done|].
    exists txs, (itx_Events (add_InTxs top txs)). by rewrite set_Events_same.
Qed.

Lemma Run_ok levels : runner_ok (Run levels tbl).
Proof.
  induction levels as [|levels IH]; intros c i ro e e' r Hne; cbn [Run]; [done|].
  apply run_body_ok; [|done]. by apply calls_of_keep.
Qed.
End runs.
