(* ===== verification/ReadOnlyFacts.v ===== *)
(** * A read-only frame only touches the state

    [touch s s'] lists what code under STATICCALL can do to the state: access
    lists, refunds, snapshots with reverts to them, new empty accounts and
    transfers of nothing. *)

From S2P Require Import Prelude Common Params Uint256 Machine Tx Vm.
From S2P Require Import Evm Interpreter Gas Instructions JumpTable RecorderFacts.

Create HintDb ro.

Section touch.
Context {S : Type} `{StateDB S}.

Inductive touch : S → S → Prop :=
| touch_refl s : touch s s
| touch_trans s1 s2 s3 : touch s1 s2 → touch s2 s3 → touch s1 s3
| touch_address a s : touch s (AddAddressToAccessList a s)
| touch_slot a k s : touch s (AddSlotToAccessList a k s)
| touch_add_refund g s : touch s (AddRefund g s)
| touch_sub_refund g s s' : SubRefund g s = Ret s' → touch s s'
| touch_create a s : touch s (CreateAccount a s)
| touch_add_zero a s : touch s (AddBalance a 0 s)
| touch_sub_zero a s : touch s (SubBalance a 0 s)
| touch_snapshot s s' n : Snapshot s = (s', n) → touch s s'
| touch_revert s s0 n s1 s2 :
    Snapshot s = (s0, n) → touch s0 s1 → RevertToSnapshot n s1 = Ret s2 → touch s s2.
End touch.

#[export] Hint Constructors touch : ro.

Section readonly.
Context {S : Type} `{StateDB S} `{Uint256} `{Externals}.

(** Computations that leave the state and the flag alone. *)
Definition pure {A} (m : Exec S A) : Prop :=
  ∀ f f' r, m f = Done (f', r) →
    statedb (f_evm f') = statedb (f_evm f) ∧ readOnly (f_evm f') = readOnly (f_evm f).

(** Computations that, from a read-only frame over [db], touch the state. *)
Definition ro_db {A} (db : S) (m : Exec S A) : Prop :=
  ∀ f f' r, statedb (f_evm f) = db → readOnly (f_evm f) = true → m f = Done (f', r) →
    readOnly (f_evm f') = true ∧ touch db (statedb (f_evm f')).
Definition ro {A} (m : Exec S A) : Prop := ∀ db, ro_db db m.

Definition evm_ro {A} (m : EVM S → Res (EVM S * A)) : Prop :=
  ∀ e e' a, readOnly e = true → m e = Done (e', a) → readOnly e' = true ∧ touch (statedb e) (statedb e').

Lemma bind_inv {A B} (m : Exec S A) (k : A → Exec S B) f f' r :
  (m ≫= k) f = Done (f', r) →
  (∃ err, m f = Done (f', inl err)) ∨ ∃ f1 a, m f = Done (f1, inr a) ∧ k a f1 = Done (f', r).
Proof.
  unfold mbind, Exec_bind, Res_bind, mbind. destruct (m f) as [[f1 [err|a]]|p|]; [|eauto|done|done].
  intros [= <- _]. eauto.
Qed.

Lemma pure_bind {A B} (m : Exec S A) (k : A → Exec S B) : pure m → (∀ a, pure (k a)) → pure (m ≫= k).
Proof.
  intros Hm Hk f f' r [(err & E)|(f1 & a & E & E')]%bind_inv; [by eapply Hm|].
  destruct (Hm _ _ _ E) as [<- <-]. by eapply Hk.
Qed.

Lemma pure_at {A} (m : Exec S A) : (∀ f f' r, m f = Done (f', r) → f_evm f' = f_evm f) → pure m.
Proof. intros Hm f f' r E. by rewrite (Hm _ _ _ E). Qed.

Lemma pure_ret {A} (a : A) : pure (mret a).
Proof. apply pure_at. by intros f f' r [= <- _]. Qed.
Lemma pure_throw {A} err : pure (throw (A:=A) err).
Proof. apply pure_at. by intros f f' r [= <- _]. Qed.
Lemma pure_gets {A} (g : Frame S → A) : pure (gets g).
Proof. apply pure_at. by intros f f' r [= <- _]. Qed.
Lemma pure_lift {A} (m : Go A) : pure (lift m).
Proof. apply pure_at. intros f f' r. destruct m; [by intros [= <- _]|done]. Qed.
Lemma pure_put_pc pc : pure (put_pc pc).
Proof. apply pure_at. by intros f f' r [= <- _]. Qed.
Lemma pure_put_mem m : pure (put_mem m).
Proof. apply pure_at. by intros f f' r [= <- _]. Qed.
Lemma pure_put_stack st : pure (put_stack st).
Proof. apply pure_at. by intros f f' r [= <- _]. Qed.
Lemma pure_put_contract c : pure (put_contract c).
Proof. apply pure_at. by intros f f' r [= <- _]. Qed.

Lemma pure_modify (h : EVM S → EVM S) :
  (∀ e, statedb (h e) = statedb e ∧ readOnly (h e) = readOnly e) → pure (modify_evm h).
Proof. intros Hh f f' r [= <- _]. apply Hh. Qed.

Lemma pure_valid_dest pos : pure (valid_dest pos).
Proof.
  intros f f' r. unfold valid_dest. cbn.
  destruct (validJumpdest _ _ _) as [[[m c] b]|p|]; cbn; [|done|done]. by intros [= <- _].
Qed.

Lemma pure_ro {A} (m : Exec S A) db : pure m → ro_db db m.
Proof. intros Hm f f' r <- Hro E. destruct (Hm _ _ _ E) as [-> ->]. split; [done|constructor]. Qed.

Lemma ro_bind_pure {A B} (m : Exec S A) (k : A → Exec S B) db :
  pure m → (∀ a, ro_db db (k a)) → ro_db db (m ≫= k).
Proof.
  intros Hm Hk f f' r Hdb Hro [(err & E)|(f1 & a & E & E')]%bind_inv;
    destruct (Hm _ _ _ E) as [Q1 Q2].
  - rewrite Q1, Q2, Hdb. split; [done|constructor].
  - eapply Hk; [..|exact E']; congruence.
Qed.

Lemma ro_bind {A B} (m : Exec S A) (k : A → Exec S B) db :
  ro_db db m → (∀ a, ro (k a)) → ro_db db (m ≫= k).
Proof.
  intros Hm Hk f f' r Hdb Hro [(err & E)|(f1 & a & E & E')]%bind_inv;
    destruct (Hm _ _ _ Hdb Hro E) as [Q1 Q2]; [done|].
  destruct (Hk a _ _ _ _ eq_refl Q1 E') as [Q3 Q4]. split; [done|]. by eapply touch_trans.
Qed.

Lemma ro_get {B} (k : S → Exec S B) db : ro_db db (k db) → ro_db db (get_db ≫= k).
Proof. intros Hk f f' r <- Hro E. by eapply Hk. Qed.

Lemma ro_gets_evm {B} (k : EVM S → Exec S B) db :
  (∀ e, readOnly e = true → ro_db db (k e)) → ro_db db (gets f_evm ≫= k).
Proof. intros Hk f f' r <- Hro E. by eapply Hk. Qed.

Lemma ro_put db db' : touch db db' → ro_db db (put_db db').
Proof. intros Ht f f' r <- Hro [= <- _]. done. Qed.

Lemma ro_writable {A} (m : Exec S A) db : ro_db db (writable m).
Proof.
  intros f f' r Hdb Hro. unfold writable, mbind, Exec_bind, gets. cbn. rewrite Hro.
  intros [= <- _]. rewrite Hdb. split; [done|constructor].
Qed.

Lemma ro_SubRefund g db : ro_db db (SubRefund_ g).
Proof.
  intros f f' r Hdb Hro. unfold SubRefund_, mbind, Exec_bind, get_db, gets, lift. cbn. rewrite Hdb.
  destruct (SubRefund g db) as [db'|p] eqn:E; cbn; [|done]. intros [= <- _]. cbn. eauto with ro.
Qed.

Lemma ro_in_evm {A} (m : EVM S → Res (EVM S * A)) db : evm_ro m → ro_db db (in_evm m).
Proof.
  intros Hm f f' r <- Hro. unfold in_evm. cbn. destruct (m (f_evm f)) as [[e a]|p|] eqn:E; cbn; [|done|done].
  intros [= <- _]. by eapply Hm.
Qed.

(** The calls an instruction makes from a read-only frame only touch the state;
    a call with value is refused. *)
Record calls_ro (calls : Calls (S := S)) : Prop := {
  ro_Call c a i g : evm_ro (evm_Call calls c a i g 0);
  ro_CallCode c a i g v : evm_ro (evm_CallCode calls c a i g v);
  ro_DelegateCall c a i g : evm_ro (evm_DelegateCall calls c a i g);
  ro_StaticCall c a i g : evm_ro (evm_StaticCall calls c a i g)
}.

Definition op_ro (o : operation (S := S)) : Prop :=
  (∀ ex calls, execute o = Some ex → calls_ro calls → ro (ex calls)) ∧
  (∀ ex, executeLog o = Some ex → ro ex) ∧
  (∀ dyn n, dynamicGas o = Some dyn → ro (dyn n)).
End readonly.

#[export] Hint Resolve pure_ret pure_throw pure_gets pure_lift pure_put_pc pure_put_mem pure_put_stack
  pure_put_contract pure_valid_dest : ro.

Ltac pure_step :=
  match goal with
  | |- pure (_ ≫= _) => apply pure_bind; [|intros ?]
  | |- pure (if ?b then _ else _) => destruct b
  | |- pure (match ?x with _ => _ end) => destruct x
  | |- pure (modify_evm _) => apply pure_modify; done
  | |- pure (put_db _) => fail 1
  | |- pure ?m => let h := head_of m in unfold h; cbv beta zeta
  end.
Ltac pure := repeat (cbv beta; first [solve [eauto with ro nocore] | pure_step]).

Section pures.
Context {S : Type} `{StateDB S} `{Uint256} `{Externals}.

Lemma pure_pop : pure (S := S) pop_. Proof. pure. Qed.
Lemma pure_peek : pure (S := S) peek_. Proof. pure. Qed.
Lemma pure_set_peek x : pure (S := S) (set_peek x). Proof. pure. Qed.
Lemma pure_push x : pure (S := S) (push_ x). Proof. pure. Qed.
Lemma pure_back n : pure (S := S) (back n). Proof. pure. Qed.
Lemma pure_memory_gas n : pure (S := S) (memory_gas n). Proof. pure. Qed.
Lemma pure_call_gas g : pure (S := S) (call_gas g). Proof. pure. Qed.
Lemma pure_copier p n : pure (S := S) (memoryCopierGas p n). Proof. pure. Qed.
Lemma pure_use_gas g : pure (S := S) (use_gas g). Proof. pure. Qed.
Lemma pure_topics n : pure (S := S) (pop_topics n).
Proof. induction n; cbn [pop_topics]; pure. Qed.
End pures.

#[export] Hint Resolve pure_pop pure_peek pure_set_peek pure_push pure_back pure_memory_gas pure_call_gas
  pure_copier pure_use_gas pure_topics : ro.

Ltac ro_step :=
  match goal with
  | |- ro _ => intros ?
  | |- ro_db _ (get_db ≫= _) => apply ro_get
  | |- ro_db _ (gets f_evm ≫= _) => apply ro_gets_evm; intros ? ?
  | |- ro_db _ (writable _) => apply ro_writable
  | |- ro_db _ (put_db _) => apply ro_put; solve [eauto with ro]
  | |- ro_db _ (SubRefund_ _) => apply ro_SubRefund
  | |- ro_db _ (in_evm _) => apply ro_in_evm; solve [eauto using ro_Call, ro_CallCode, ro_DelegateCall, ro_StaticCall]
  | |- ro_db _ (if ?b then _ else _) => destruct b eqn:?
  | |- ro_db _ (match ?x with _ => _ end) => destruct x
  | |- ro_db _ ?m => apply pure_ro; solve [pure]
  | |- ro_db _ (_ ≫= _) => apply ro_bind_pure; [solve [pure]|intros ?]
  | |- ro_db _ (_ ≫= _) => apply ro_bind; [|intros ?]
  | |- ro_db _ ?m => let h := head_of m in unfold h; cbv beta zeta
  end.
Ltac ro := repeat (cbv beta; ro_step).

Section ops.
Context {S : Type} `{StateDB S} `{Uint256} `{Externals}.

Lemma ro_opCall calls : calls_ro (S := S) calls → ro (opCall calls).
Proof.
  intros Hc. unfold opCall. ro. apply ro_in_evm.
  match goal with Hr : readOnly ?e = true, Hb : readOnly ?e && negb (IsZero ?v) = false |- _ =>
    rewrite Hr in Hb; destruct (IsZero v) eqn:Ez; [|done] end.
  unfold bigVal. rewrite Ez. by apply ro_Call.
Qed.

Lemma op_ro_oper ex lg g dyn minS maxS size :
  (∀ ex' calls, ex = Some ex' → calls_ro calls → ro (ex' calls)) →
  (∀ ex', lg = Some ex' → ro ex') →
  (∀ dyn' n, dyn = Some dyn' → ro (dyn' n)) →
  op_ro (oper ex lg g dyn minS maxS size).
Proof. done. Qed.
End ops.

#[export] Hint Resolve ro_opCall : ro.

Ltac ro_op :=
  apply op_ro_oper; [intros ? ? [= <-] ?|intros ? [=]; subst|intros ? ? [=]; subst];
  first [solve [eauto with ro nocore] | ro].

Section tables.
Context {S : Type} `{StateDB S} `{Uint256} `{Externals}.

Lemma frontier_ro : Forall (λ '(_, o), op_ro o) (frontier_ops (S := S)).
Proof.
  unfold frontier_ops. rewrite !Forall_app.
  split_and!; unfold frontier_arithmetic, frontier_environment, frontier_memory, frontier_push_1_16,
    frontier_push_17_32, frontier_dup, frontier_swap, frontier_log_and_system;
    repeat (constructor; [ro_op|]); constructor.
Qed.

Lemma frontier_set_ro : set_all (λ _, op_ro) frontier_slots.
Proof. apply set_all_ops; [apply frontier_ro|]. by intros ? ?. Qed.
#[local] Hint Resolve frontier_set_ro : vm_sets.

Ltac set_ro := set_all ro_op ltac:(idtac; match goal with Ho : op_ro _ |- _ => exact Ho end)
  ltac:(idtac; match goal with Ho : op_ro _ |- _ => destruct Ho as (? & ? & _) end;
        apply op_ro_oper; [done|done|intros ? ? [= <-]; ro]).

Lemma homestead_set_ro : set_all (λ _, op_ro) homestead_slots.
Proof. set_ro. Qed.
#[local] Hint Resolve homestead_set_ro : vm_sets.
Lemma tangerineWhistle_set_ro : set_all (λ _, op_ro) tangerineWhistle_slots.
Proof. set_ro. Qed.
#[local] Hint Resolve tangerineWhistle_set_ro : vm_sets.
Lemma spuriousDragon_set_ro : set_all (λ _, op_ro) spuriousDragon_slots.
Proof. set_ro. Qed.
#[local] Hint Resolve spuriousDragon_set_ro : vm_sets.
Lemma byzantium_set_ro : set_all (λ _, op_ro) byzantium_slots.
Proof. set_ro. Qed.
#[local] Hint Resolve byzantium_set_ro : vm_sets.
Lemma constantinople_set_ro : set_all (λ _, op_ro) constantinople_slots.
Proof. set_ro. Qed.
#[local] Hint Resolve constantinople_set_ro : vm_sets.
Lemma istanbul_set_ro : set_all (λ _, op_ro) istanbul_slots.
Proof. set_ro. Qed.
#[local] Hint Resolve istanbul_set_ro : vm_sets.
Lemma berlin_set_ro : set_all (λ _, op_ro) berlin_slots.
Proof. set_ro. Qed.
#[local] Hint Resolve berlin_set_ro : vm_sets.
Lemma london_set_ro : set_all (λ _, op_ro) london_slots.
Proof. set_ro. Qed.
#[local] Hint Resolve london_set_ro : vm_sets.

Lemma instruction_slots_ro r : set_all (λ _, op_ro) (instruction_slots r).
Proof.
  unfold instruction_slots. repeat (match goal with |- set_all _ (if ?b then _ else _) => destruct b end); set_ro.
Qed.

Lemma undefined_ro : op_ro (S := S) undefined.
Proof. ro_op. Qed.

Lemma nil_slot_ro : op_ro (S := S) nil_slot.
Proof. ro_op. Qed.

Lemma table_ro r op : op_ro (table (instruction_set r) op).
Proof. rewrite instruction_set_slots. apply (table_all (λ _, op_ro)); [apply undefined_ro|apply nil_slot_ro|apply instruction_slots_ro]. Qed.
End tables.

(** * Runs and calls from a read-only frame only touch the state *)

Section runs.
Context {S : Type} `{StateDB S} `{Uint256} `{Externals}.
Context (tbl : JumpTable (S := S)) (Htbl : ∀ op, op_ro (tbl op)).

Lemma ro_charge o : op_ro o → ro (charge_dynamic (S := S) o).
Proof.
  intros (_ & _ & Hdyn) db. unfold charge_dynamic. destruct (dynamicGas o) as [dyn|] eqn:Ed; [|apply pure_ro; pure].
  apply ro_bind_pure; [pure|]. intros n. apply ro_bind; [|intros ? db'; apply pure_ro; pure].
  intros f f' r Hdb Hro. cbn. destruct (dyn n f) as [[f1 r1]|p|] eqn:E; cbn; [|done|done].
  intros [= <- _]. by eapply Hdyn.
Qed.

(** The same notion for a turn of the loop, whose result is not an [Exec]. *)
Definition touched (f f' : Frame S) : Prop :=
  readOnly (f_evm f') = true ∧ touch (statedb (f_evm f)) (statedb (f_evm f')).

Lemma perform_ro op o calls (f f' : Frame S) r :
  op_ro o → calls_ro calls → readOnly (f_evm f) = true → perform op o calls f = Done (f', r) → touched f f'.
Proof.
  intros (He & Hl & _) Hc Hro. unfold perform. destruct (is_log op).
  - destruct (executeLog o) as [ex|] eqn:Ex; [|done].
    destruct (ex f) as [[f1 r1]|p|] eqn:E; cbn; [|done|done]. intros [= <- _]. by eapply Hl.
  - destruct (execute o) as [ex|] eqn:Ex; [|done].
    destruct (ex calls f) as [[f1 r1]|p|] eqn:E; cbn; [|done|done]. intros [= <- _]. by eapply He.
Qed.

Lemma step_ro calls (f f' : Frame S) r :
  calls_ro calls → readOnly (f_evm f) = true → step tbl calls f = Done (f', r) → touched f f'.
Proof.
  intros Hc Hro. unfold step. set (o := tbl _).
  destruct ((_ ← check_stack o; _ ← use_gas (constantGas o); charge_dynamic o) f) as [[f1 r1]|p|] eqn:E;
    cbn; [|done|done].
  assert (touched f f1) as [Q1 Q2].
  { assert (ro (_ ← check_stack o; _ ← use_gas (constantGas o); charge_dynamic o)) as Hr.
    { intros db. apply ro_bind_pure; [pure|intros _]. apply ro_bind_pure; [pure|intros _].
      apply ro_charge, Htbl. }
    by eapply Hr. }
  destruct r1 as [err|[]]; [by intros [= <- _]|].
  destruct (perform _ _ _ _) as [[f2 [ev [ret err]]]|p|] eqn:E2; cbn; [|done|done].
  apply perform_ro in E2 as [Q3 Q4]; [|apply Htbl|done|done].
  destruct err; intros [= <- _]; (split; [done|by eapply touch_trans]).
Qed.

Lemma loop_ro fuel calls (f f' : Frame S) evs r :
  calls_ro calls → readOnly (f_evm f) = true → loop fuel tbl calls f evs = Done (f', r) → touched f f'.
Proof.
  intros Hc. revert f evs. induction fuel as [|fuel IH]; intros f evs Hro; [done|]. cbn [loop].
  destruct (step _ _ _) as [[f1 r1]|p|] eqn:E; cbn; [|done|done]. apply step_ro in E as [Q1 Q2]; [|done..].
  destruct r1; try by intros [= <- _]. intros [Q3 Q4]%IH; [|done]. split; [done|by eapply touch_trans].
Qed.

(** A run that is read-only, by its argument or by the frame it starts from. *)
Definition runner_ro (run : Runner (S := S)) : Prop :=
  ∀ c i ro e e' r, readOnly e || ro = true → run c i ro e = Done (e', r) →
    readOnly e' = readOnly e ∧ touch (statedb e) (statedb e').

Lemma set_top_events_state (e e' : EVM S) evs :
  set_top_events e evs = Done e' → statedb e' = statedb e ∧ readOnly e' = readOnly e.
Proof. unfold set_top_events. destruct (CallStack e); [done|]. by intros [= <-]. Qed.

Lemma run_body_ro calls : calls_ro calls → runner_ro (run_body tbl calls).
Proof.
  intros Hc c i ro e e' r Hro. unfold run_body. cbv zeta.
  assert (readOnly (enter_run e ro) = true ∧ statedb (enter_run e ro) = statedb e) as [He Hs].
  { unfold enter_run, resets. destruct ro, (readOnly e) eqn:Er; cbn; rewrite ?Er; cbn; done. }
  assert (∀ e1 : EVM S, readOnly e1 = true →
            readOnly (leave_run (resets e ro) e1) = readOnly e ∧ statedb (leave_run (resets e ro) e1) = statedb e1) as Hl.
  { intros e1 Q. unfold leave_run, resets. destruct ro, (readOnly e) eqn:Er; cbn; try done. }
  destruct (len _ =? 0).
  { intros [= <- _]. destruct (Hl _ He) as [-> ->]. rewrite Hs. split; [done|constructor]. }
  destruct (loop _ _ _ _ _) as [[f [[evs ret] err]]|p|] eqn:El; cbn; [|done|done].
  apply loop_ro in El as [Q1 Q2]; [|done|done]. cbn [f_evm] in Q2. rewrite Hs in Q2.
  destruct evs as [evs|]; cbn.
  - destruct (set_top_events _ _) as [e2|p|] eqn:E2; cbn; [|done|done]. intros [= <- _].
    apply set_top_events_state in E2 as [Hs2 Hr2]. rewrite Q1 in Hr2. destruct (Hl _ Hr2) as [-> ->].
    by rewrite Hs2.
  - intros [= <- _]. by destruct (Hl _ Q1) as [-> ->].
Qed.
End runs.

Section calls.
Context {S : Type} `{StateDB S} `{Uint256} `{Externals}.
Context (run : Runner (S := S)) (Hrun : runner_ro run).

(** The state and the flag after the middle part of a call and after its end. *)
Definition held (s : S) (e e' : EVM S) : Prop := readOnly e' = readOnly e ∧ touch s (statedb e').

Lemma settled_ro s sn (e : EVM S) (m : Res (EVM S * (bytes * Z * option VmError))) e' r :
  Snapshot (statedb e) = (s, sn) →
  (∀ e1 r1, m = Done (e1, r1) → held s e e1) →
  mbind (M:=Res) (λ '(e1, (ret, gas, err)), settle sn e1 ret gas err) m = Done (e', r) →
  held (statedb e) e e'.
Proof.
  intros Hsn Hm. destruct m as [[e1 [[ret gas] err]]|p|]; cbn; [|done|done].
  destruct (Hm _ _ eq_refl) as [Q1 Q2]. unfold settle. destruct err as [x|].
  - destruct (RevertToSnapshot sn (statedb e1)) as [s2|p] eqn:Er; cbn; [|done]. intros [= <- _].
    split; [done|]. cbn. by eapply touch_revert.
  - intros [= <- _]. split; [done|]. eapply touch_trans; [by eapply touch_snapshot|done].
Qed.

Lemma NewContract_state (e : EVM S) c o v g e' k :
  NewContract e c o v g = (e', k) → statedb e' = statedb e ∧ readOnly e' = readOnly e.
Proof. unfold NewContract. by destruct c; intros [= <- <-]. Qed.

Lemma pop_node_state (e e' : EVM S) : pop_node e = Done e' → statedb e' = statedb e ∧ readOnly e' = readOnly e.
Proof. unfold pop_node. destruct (CallStack e) as [|? []]; [done|..]; by intros [= <-]. Qed.

Lemma new_contract_ro (e e1 : EVM S) c o v g k k' node i b e' r :
  readOnly e || b = true → NewContract e c o v g = (e1, k') →
  ('(e2, (k2, ret, err)) ← run_recorded run e1 node k i b; Done (e2, (ret, Gas k2, err))) = Done (e', r) →
  held (statedb e) e e'.
Proof.
  intros Hro [Q1 Q2]%NewContract_state. unfold run_recorded.
  destruct (run k i b (push_node e1 node)) as [[e2 [[k2 ret] err]]|p|] eqn:E; cbn; [|done|done].
  apply Hrun in E as [Q3 Q4]; [|by cbn; rewrite Q2]. cbn in Q3, Q4.
  destruct (pop_node e2) as [e3|p|] eqn:Ep; cbn; [|done|done]. intros [= <- _].
  apply pop_node_state in Ep as [Q5 Q6]. split; [congruence|]. by rewrite Q5, <- Q1.
Qed.

Lemma held_refl (e : EVM S) s : touch s (statedb e) → held s e e.
Proof. done. Qed.

Lemma held_from s (e e1 : EVM S) s1 : touch s s1 → held s1 e e1 → held s e e1.
Proof. intros Ht [? ?]. split; [done|]. by eapply touch_trans. Qed.

Lemma StaticCall_held caller addr input gas e e' r :
  StaticCall run caller addr input gas e = Done (e', r) → held (statedb e) e e'.
Proof.
  unfold StaticCall. destruct (_ <? depth e); [intros [= <- _]; by apply held_refl, touch_refl|].
  destruct (Snapshot (statedb e)) as [s sn] eqn:Esn. intros E. eapply settled_ro; [exact Esn| |exact E].
  intros e1 r1. destruct (precompile _ _).
  - intros [= <- _]. split; [done|]. apply touch_add_zero.
  - destruct (NewContract _ _ _ _ _) as [e2 k] eqn:EN. intros Hr.
    apply (held_from s e e1 (AddBalance addr 0 s)); [apply touch_add_zero|].
    eapply (new_contract_ro (set_statedb e (AddBalance addr 0 s))); [by rewrite orb_true_r|done|exact Hr].
Qed.

Lemma DelegateCall_ro caller addr input gas : evm_ro (DelegateCall run caller addr input gas).
Proof.
  intros e e' r Hro. unfold DelegateCall.
  destruct (_ <? depth e); [intros [= <- _]; split; [done|constructor]|].
  destruct (Snapshot (statedb e)) as [s sn] eqn:Esn. intros E. rewrite <- Hro.
  eapply settled_ro; [exact Esn| |exact E].
  intros e1 r1. destruct (precompile _ _); [intros [= <- _]; split; [done|constructor]|].
  destruct (NewContract _ _ _ _ _) as [e2 k] eqn:EN. destruct (AsDelegate k); cbn; [|done]. intros Hr.
  eapply (new_contract_ro (set_statedb e s)); [by cbn; rewrite Hro|done|exact Hr].
Qed.

Lemma CallCode_ro caller addr input gas v : evm_ro (CallCode run caller addr input gas v).
Proof.
  intros e e' r Hro. unfold CallCode.
  destruct (_ <? depth e); [intros [= <- _]; split; [done|constructor]|].
  destruct (negb _); [intros [= <- _]; split; [done|constructor]|].
  destruct (Snapshot (statedb e)) as [s sn] eqn:Esn. intros E. rewrite <- Hro.
  eapply settled_ro; [exact Esn| |exact E].
  intros e1 r1. destruct (precompile _ _); [intros [= <- _]; split; [done|constructor]|].
  destruct (NewContract _ _ _ _ _) as [e2 k] eqn:EN. intros Hr.
  eapply (new_contract_ro (set_statedb e s)); [by cbn; rewrite Hro|done|exact Hr].
Qed.

Lemma Transfer_zero (s : S) a b : touch s (Transfer s a b 0).
Proof. unfold Transfer. eapply touch_trans; [apply touch_sub_zero|apply touch_add_zero]. Qed.

Lemma Call_ro caller addr input gas : evm_ro (Call run caller addr input gas 0).
Proof.
  intros e e' r Hro. unfold Call.
  destruct (_ <? depth e); [intros [= <- _]; split; [done|constructor]|].
  destruct (negb _ && _); [intros [= <- _]; split; [done|constructor]|].
  destruct (Snapshot (statedb e)) as [s sn] eqn:Esn. cbv zeta.
  destruct (negb _ && _); [intros [= <- _]; split; [done|by eapply touch_snapshot]|].
  set (s1 := Transfer _ _ _ _). intros E.
  assert (touch s s1) as Ht.
  { unfold s1. destruct (Exist s addr); [apply Transfer_zero|].
    eapply touch_trans; [apply touch_create|apply Transfer_zero]. }
  rewrite <- Hro. eapply settled_ro; [exact Esn| |exact E].
  intros e1 r1. destruct (precompile _ _); [intros [= <- _]; by split|].
  destruct (len _ =? 0).
  - destruct (attach_leaf _ _) as [e2|p|] eqn:Ea; cbn; [|done|done]. intros [= <- _].
    unfold attach_leaf in Ea. cbn in Ea. destruct (CallStack e); [done|]. injection Ea as <-. by split.
  - destruct (NewContract _ _ _ _ _) as [e2 k] eqn:EN. intros Hr.
    apply (held_from s e e1 s1); [done|].
    eapply (new_contract_ro (set_statedb e s1)); [by cbn; rewrite Hro|done|exact Hr].
Qed.

Lemma calls_of_ro : calls_ro (calls_of run).
Proof.
  split; intros; [apply Call_ro|apply CallCode_ro|apply DelegateCall_ro|].
  intros e e' r Hro E. destruct (StaticCall_held _ _ _ _ _ _ _ E) as [Q1 Q2]. by rewrite Q1.
Qed.
End calls.

Lemma Run_ro {S} `{StateDB S} `{Uint256} `{Externals} (tbl : JumpTable (S := S)) levels :
  (∀ op, op_ro (tbl op)) → runner_ro (Run levels tbl).
Proof.
  intros Htbl. induction levels as [|levels IH]; intros c i ro e e' r Hro; cbn [Run]; [done|].
  apply run_body_ro; [done| |done]. by apply calls_of_ro.
Qed.
