(* ===== verification/Changes.v ===== *)
(** * What execution does to the state

    [changes s s'] lists what the machine can do to the state: the writing
    operations, and snapshots with reverts to them after which only further
    changes were made.  Every instruction set, run, call and creation stays
    within it, and a call that fails ends with the revert of the snapshot it
    began with.  [SnapshotLaws] is what the machine relies on a state for. *)

From S2P Require Import Prelude Common Params Uint256 Machine Tx Vm.
From S2P Require Import Evm Interpreter Gas Instructions JumpTable RecorderFacts ReadOnlyFacts.

Create HintDb chg.

Section changes.
Context {S : Type} `{StateDB S}.

Inductive changes : S → S → Prop :=
| chg_refl s : changes s s
| chg_trans s1 s2 s3 : changes s1 s2 → changes s2 s3 → changes s1 s3
| chg_create a s : changes s (CreateAccount a s)
| chg_sub a x s : changes s (SubBalance a x s)
| chg_add a x s : changes s (AddBalance a x s)
| chg_nonce a n s : changes s (SetNonce a n s)
| chg_code a c s : changes s (SetCode a c s)
| chg_add_refund g s : changes s (AddRefund g s)
| chg_sub_refund g s s' : 0 ≤ g → SubRefund g s = Ret s' → changes s s'
| chg_state a k v s : changes s (SetState a k v s)
| chg_suicide a s s' b : Suicide a s = (s', b) → changes s s'
| chg_address a s : changes s (AddAddressToAccessList a s)
| chg_slot a k s : changes s (AddSlotToAccessList a k s)
| chg_add_log l s : changes s (AddLog l s)
| chg_log l s s' l' : AddLogSu l s = (s', l') → changes s s'
| chg_preimage h b s : changes s (AddPreimage h b s)
| chg_snapshot s s' n : Snapshot s = (s', n) → changes s s'
| chg_revert s s0 n s1 s2 :
    Snapshot s = (s0, n) → changes s0 s1 → RevertToSnapshot n s1 = Ret s2 → changes s s2.

Lemma chg_suicided a s : changes s (fst (Suicide a s)).
Proof. apply (chg_suicide a s _ (snd (Suicide a s))), surjective_pairing. Qed.
End changes.

#[export] Hint Resolve chg_refl chg_create chg_sub chg_add chg_nonce chg_code chg_add_refund chg_state
  chg_suicide chg_suicided chg_address chg_slot chg_add_log chg_log chg_preimage chg_snapshot : chg.

(** A state whose snapshots work: what [obs] sees of it at a snapshot is what it
    sees after the revert, whatever changed in between.  [sound] is the invariant
    of the state. *)
Class SnapshotLaws (S : Type) `{StateDB S} (V : Type) := {
  obs : S → V;
  sound : S → Prop;
  sound_changes s s' : sound s → changes s s' → sound s';
  revert_restores s s0 n s1 s2 :
    sound s → Snapshot s = (s0, n) → changes s0 s1 → RevertToSnapshot n s1 = Ret s2 → obs s2 = obs s
}.

(** A state whose refund counter is an unsigned word. *)
Class RefundLaws (S : Type) `{StateDB S} := {
  refund_ok : S → Prop;
  refund_changes s s' : refund_ok s → changes s s' → refund_ok s';
  refund_range s : refund_ok s → 0 ≤ GetRefund s < 2 ^ 64
}.

Section chg.
Context {S : Type} `{StateDB S} `{Uint256} `{Externals}.

(** Computations that change the state from [db]. *)
Definition chg_db {A} (db : S) (m : Exec S A) : Prop :=
  ∀ f f' r, statedb (f_evm f) = db → m f = Done (f', r) → changes db (statedb (f_evm f')).
Definition chg {A} (m : Exec S A) : Prop := ∀ db, chg_db db m.
Definition evm_chg {A} (m : EVM S → Res (EVM S * A)) : Prop :=
  ∀ e e' a, m e = Done (e', a) → changes (statedb e) (statedb e').

Lemma chg_pure {A} (m : Exec S A) db : pure m → chg_db db m.
Proof. intros Hm f f' r <- E. destruct (Hm _ _ _ E) as [-> _]. constructor. Qed.

Lemma chg_bind_pure {A B} (m : Exec S A) (k : A → Exec S B) db :
  pure m → (∀ a, chg_db db (k a)) → chg_db db (m ≫= k).
Proof.
  intros Hm Hk f f' r Hdb [(err & E)|(f1 & a & E & E')]%bind_inv; destruct (Hm _ _ _ E) as [Q _].
  - rewrite Q, Hdb. constructor.
  - eapply Hk; [|exact E']; congruence.
Qed.

Lemma chg_bind {A B} (m : Exec S A) (k : A → Exec S B) db :
  chg_db db m → (∀ a, chg (k a)) → chg_db db (m ≫= k).
Proof.
  intros Hm Hk f f' r Hdb [(err & E)|(f1 & a & E & E')]%bind_inv; pose proof (Hm _ _ _ Hdb E) as Q; [done|].
  eapply chg_trans; [exact Q|]. by eapply Hk.
Qed.

Lemma chg_get {B} (k : S → Exec S B) db : chg_db db (k db) → chg_db db (get_db ≫= k).
Proof. intros Hk f f' r <- E. by eapply Hk. Qed.

Lemma chg_gets_evm {B} (k : EVM S → Exec S B) db :
  (∀ e, statedb e = db → chg_db db (k e)) → chg_db db (gets f_evm ≫= k).
Proof. intros Hk f f' r Hdb E. by eapply Hk. Qed.

Lemma chg_put db db' : changes db db' → chg_db db (put_db db').
Proof. intros Ht f f' r <- [= <- _]. done. Qed.

Lemma chg_writable {A} (m : Exec S A) db : chg_db db m → chg_db db (writable m).
Proof.
  intros Hm f f' r Hdb. unfold writable, mbind, Exec_bind, gets. cbn. destruct (readOnly (f_evm f)).
  - intros [= <- _]. rewrite Hdb. constructor.
  - by apply Hm.
Qed.

Lemma chg_SubRefund g db : 0 ≤ g → chg_db db (SubRefund_ g).
Proof.
  intros Hg f f' r Hdb. unfold SubRefund_, mbind, Exec_bind, get_db, gets, lift. cbn. rewrite Hdb.
  destruct (SubRefund g db) as [db'|p] eqn:E; cbn; [|done]. intros [= <- _]. cbn. by eapply chg_sub_refund.
Qed.

Lemma chg_in_evm {A} (m : EVM S → Res (EVM S * A)) db : evm_chg m → chg_db db (in_evm m).
Proof.
  intros Hm f f' r <-. unfold in_evm. cbn. destruct (m (f_evm f)) as [[e a]|p|] eqn:E; cbn; [|done|done].
  intros [= <- _]. by eapply Hm.
Qed.

(** The calls and creations of an instruction. *)
Record calls_chg (calls : Calls (S := S)) : Prop := {
  chg_Call c a i g v : evm_chg (evm_Call calls c a i g v);
  chg_CallCode c a i g v : evm_chg (evm_CallCode calls c a i g v);
  chg_DelegateCall c a i g : evm_chg (evm_DelegateCall calls c a i g);
  chg_StaticCall c a i g : evm_chg (evm_StaticCall calls c a i g);
  chg_Create c i g v : evm_chg (evm_Create calls c i g v);
  chg_Create2 c i g v s : evm_chg (evm_Create2 calls c i g v s)
}.

Definition op_chg (o : operation (S := S)) : Prop :=
  (∀ ex calls, execute o = Some ex → calls_chg calls → chg (ex calls)) ∧
  (∀ ex, executeLog o = Some ex → chg ex) ∧
  (∀ dyn n, dynamicGas o = Some dyn → chg (dyn n)).
End chg.

Ltac chg_step :=
  match goal with
  | |- chg _ => intros ?
  | |- chg_db _ (get_db ≫= _) => apply chg_get
  | |- chg_db _ (gets f_evm ≫= _) => apply chg_gets_evm; intros ? <-
  | |- chg_db _ (writable _) => apply chg_writable
  | |- chg_db _ (put_db _) => apply chg_put; solve [eauto 2 with chg nocore | eapply chg_trans; [apply chg_add|apply chg_suicided]]
  | |- chg_db _ (SubRefund_ _) => apply chg_SubRefund; vm_compute; discriminate
  | |- chg_db _ (in_evm _) => apply chg_in_evm; solve [eauto using chg_Call, chg_CallCode, chg_DelegateCall, chg_StaticCall, chg_Create, chg_Create2]
  | |- chg_db _ (if ?b then _ else _) => destruct b
  | |- chg_db _ (match ?x with _ => _ end) => destruct x eqn:?
  | |- chg_db _ ?m => apply chg_pure; solve [pure]
  | |- chg_db _ (_ ≫= _) => apply chg_bind_pure; [solve [pure]|intros ?]
  | |- chg_db _ (_ ≫= _) => apply chg_bind; [|intros ?]
  | |- chg_db _ ?m => let h := head_of m in unfold h; cbv beta zeta
  end.
Ltac chg := repeat (cbv beta; chg_step).

Section ops.
Context {S : Type} `{StateDB S} `{Uint256} `{Externals}.

Lemma op_chg_oper ex lg g dyn minS maxS size :
  (∀ ex' calls, ex = Some ex' → calls_chg calls → chg (ex' calls)) →
  (∀ ex', lg = Some ex' → chg ex') →
  (∀ dyn' n, dyn = Some dyn' → chg (dyn' n)) →
  op_chg (S := S) (oper ex lg g dyn minS maxS size).
Proof. done. Qed.
End ops.

Ltac chg_op := apply op_chg_oper; [intros ? ? [= <-] ?|intros ? [=]; subst|intros ? ? [=]; subst]; chg.

Section tables.
Context {S : Type} `{StateDB S} `{Uint256} `{Externals}.

Lemma frontier_chg : Forall (λ '(_, o), op_chg o) (frontier_ops (S := S)).
Proof.
  unfold frontier_ops. rewrite !Forall_app.
  split_and!; unfold frontier_arithmetic, frontier_environment, frontier_memory, frontier_push_1_16,
    frontier_push_17_32, frontier_dup, frontier_swap, frontier_log_and_system;
    repeat (apply Forall_cons_2; [solve [chg_op]|]); apply Forall_nil_2.
Qed.

Lemma frontier_set_chg : set_all (λ _, op_chg) frontier_slots.
Proof. apply set_all_ops; [apply frontier_chg|]. by intros ? ?. Qed.
#[local] Hint Resolve frontier_set_chg : vm_sets.

Ltac set_chg := set_all chg_op ltac:(idtac; match goal with Ho : op_chg _ |- _ => exact Ho end)
  ltac:(idtac; match goal with Ho : op_chg _ |- _ => destruct Ho as (? & ? & _) end;
        apply op_chg_oper; [done|done|intros ? ? [= <-]; chg]).

Lemma homestead_set_chg : set_all (λ _, op_chg) homestead_slots.
Proof. set_chg. Qed.
#[local] Hint Resolve homestead_set_chg : vm_sets.
Lemma tangerineWhistle_set_chg : set_all (λ _, op_chg) tangerineWhistle_slots.
Proof. set_chg. Qed.
#[local] Hint Resolve tangerineWhistle_set_chg : vm_sets.
Lemma spuriousDragon_set_chg : set_all (λ _, op_chg) spuriousDragon_slots.
Proof. set_chg. Qed.
#[local] Hint Resolve spuriousDragon_set_chg : vm_sets.
Lemma byzantium_set_chg : set_all (λ _, op_chg) byzantium_slots.
Proof. set_chg. Qed.
#[local] Hint Resolve byzantium_set_chg : vm_sets.
Lemma constantinople_set_chg : set_all (λ _, op_chg) constantinople_slots.
Proof. set_chg. Qed.
#[local] Hint Resolve constantinople_set_chg : vm_sets.
Lemma istanbul_set_chg : set_all (λ _, op_chg) istanbul_slots.
Proof. set_chg. Qed.
#[local] Hint Resolve istanbul_set_chg : vm_sets.
Lemma berlin_set_chg : set_all (λ _, op_chg) berlin_slots.
Proof. set_chg. Qed.
#[local] Hint Resolve berlin_set_chg : vm_sets.
Lemma london_set_chg : set_all (λ _, op_chg) london_slots.
Proof. set_chg. Qed.
#[local] Hint Resolve london_set_chg : vm_sets.

Lemma instruction_slots_chg r : set_all (λ _, op_chg) (instruction_slots r).
Proof.
  unfold instruction_slots. repeat (match goal with |- set_all _ (if ?b then _ else _) => destruct b end); set_chg.
Qed.

Lemma undefined_chg : op_chg (S := S) undefined.
Proof. chg_op. Qed.

Lemma nil_slot_chg : op_chg (S := S) nil_slot.
Proof. chg_op. Qed.

Lemma table_chg r op : op_chg (table (instruction_set r) op).
Proof. rewrite instruction_set_slots. apply (table_all (λ _, op_chg)); [apply undefined_chg|apply nil_slot_chg|apply instruction_slots_chg]. Qed.
End tables.

(** ** Runs *)

Section runs.
Context {S : Type} `{StateDB S} `{Uint256} `{Externals}.
Context (tbl : JumpTable (S := S)) (Htbl : ∀ op, op_chg (tbl op)).

Lemma chg_charge o : op_chg o → chg (charge_dynamic (S := S) o).
Proof.
  intros (_ & _ & Hdyn) db. unfold charge_dynamic. destruct (dynamicGas o) as [dyn|] eqn:Ed; [|apply chg_pure; pure].
  apply chg_bind_pure; [pure|]. intros n. apply chg_bind; [|intros ? db'; apply chg_pure; pure].
  intros f f' r Hdb. cbn. destruct (dyn n f) as [[f1 r1]|p|] eqn:E; cbn; [|done|done].
  intros [= <- _]. by eapply Hdyn.
Qed.

Definition changed (f f' : Frame S) : Prop := changes (statedb (f_evm f)) (statedb (f_evm f')).

Lemma perform_chg op o calls (f f' : Frame S) r :
  op_chg o → calls_chg calls → perform op o calls f = Done (f', r) → changed f f'.
Proof.
  intros (He & Hl & _) Hc. unfold perform. destruct (is_log op).
  - destruct (executeLog o) as [ex|] eqn:Ex; [|done].
    destruct (ex f) as [[f1 r1]|p|] eqn:E; cbn; [|done|done]. intros [= <- _]. by eapply Hl.
  - destruct (execute o) as [ex|] eqn:Ex; [|done].
    destruct (ex calls f) as [[f1 r1]|p|] eqn:E; cbn; [|done|done]. intros [= <- _]. by eapply He.
Qed.

Lemma step_chg calls (f f' : Frame S) r : calls_chg calls → step tbl calls f = Done (f', r) → changed f f'.
Proof.
  intros Hc. unfold step. set (o := tbl _).
  destruct ((_ ← check_stack o; _ ← use_gas (constantGas o); charge_dynamic o) f) as [[f1 r1]|p|] eqn:E;
    cbn; [|done|done].
  assert (changed f f1) as Q.
  { assert (chg (_ ← check_stack o; _ ← use_gas (constantGas o); charge_dynamic o)) as Hr.
    { intros db. apply chg_bind_pure; [pure|intros _]. apply chg_bind_pure; [pure|intros _]. apply chg_charge, Htbl. }
    by eapply Hr. }
  destruct r1 as [err|[]]; [by intros [= <- _]|].
  destruct (perform _ _ _ _) as [[f2 [ev [ret err]]]|p|] eqn:E2; cbn; [|done|done].
  apply perform_chg in E2 as Q2; [|apply Htbl|done]. destruct err; intros [= <- _]; by eapply chg_trans.
Qed.

Lemma loop_chg fuel calls (f f' : Frame S) evs r :
  calls_chg calls → loop fuel tbl calls f evs = Done (f', r) → changed f f'.
Proof.
  intros Hc. revert f evs. induction fuel as [|fuel IH]; intros f evs; [done|]. cbn [loop].
  destruct (step _ _ _) as [[f1 r1]|p|] eqn:E; cbn; [|done|done]. apply step_chg in E as Q; [|done].
  destruct r1; try by intros [= <- _]. intros Q'%IH. by eapply chg_trans.
Qed.

Definition runner_chg (run : Runner (S := S)) : Prop :=
  ∀ c i ro e e' r, run c i ro e = Done (e', r) → changes (statedb e) (statedb e').

Lemma enter_state (e : EVM S) b : statedb (enter_run e b) = statedb e.
Proof. unfold enter_run. by destruct (resets _ _). Qed.
Lemma leave_state (e : EVM S) b : statedb (leave_run b e) = statedb e.
Proof. unfold leave_run. by destruct b. Qed.

Lemma run_body_chg calls : calls_chg calls → runner_chg (run_body tbl calls).
Proof.
  intros Hc c i ro e e' r. unfold run_body. cbv zeta. destruct (len _ =? 0).
  { intros [= <- _]. rewrite leave_state, enter_state. constructor. }
  destruct (loop _ _ _ _ _) as [[f [[evs ret] err]]|p|] eqn:El; cbn; [|done|done].
  apply loop_chg in El; [|done]. unfold changed in El. cbn [f_evm] in El. rewrite enter_state in El.
  destruct evs as [evs|]; cbn.
  - destruct (set_top_events _ _) as [e2|p|] eqn:E2; cbn; [|done|done]. intros [= <- _].
    apply set_top_events_state in E2 as [Hs2 _]. by rewrite leave_state, Hs2.
  - intros [= <- _]. by rewrite leave_state.
Qed.
End runs.

(** ** Calls and creations *)

Section calls.
Context {S : Type} `{StateDB S} `{Uint256} `{Externals}.
Context (run : Runner (S := S)) (Hrun : runner_chg run).

(** The state is the one before, or was reverted to the snapshot taken of it. *)
Definition undone (s s' : S) : Prop :=
  s' = s ∨ ∃ s0 n s1, Snapshot s = (s0, n) ∧ changes s0 s1 ∧ RevertToSnapshot n s1 = Ret s'.

Lemma undone_changes s s' : undone s s' → changes s s'.
Proof. intros [->|(s0 & n & s1 & ? & ? & ?)]; [constructor|by eapply chg_revert]. Qed.

(** What a call does: changes, and none that last when it reports an error. *)
Definition call_chg (s : S) (s' : S) (err : option VmError) : Prop :=
  changes s s' ∧ (err ≠ None → undone s s').

Lemma call_same s err : call_chg s s err.
Proof. split; [constructor|by left]. Qed.

Lemma settled_chg s sn (e : EVM S) (m : Res (EVM S * (bytes * Z * option VmError))) e' r :
  Snapshot (statedb e) = (s, sn) →
  (∀ e1 r1, m = Done (e1, r1) → changes s (statedb e1)) →
  mbind (M:=Res) (λ '(e1, (ret, gas, err)), settle sn e1 ret gas err) m = Done (e', r) →
  call_chg (statedb e) (statedb e') (snd r).
Proof.
  intros Hsn Hm. destruct m as [[e1 [[ret gas] err]]|p|]; cbn; [|done|done].
  pose proof (Hm _ _ eq_refl) as Q. unfold settle. destruct err as [x|].
  - destruct (RevertToSnapshot sn (statedb e1)) as [s2|p] eqn:Er; cbn; [|done]. intros [= <- <-]. cbn.
    assert (undone (statedb e) s2) as Hu by (right; eauto 6). split; [by apply undone_changes|done].
  - intros [= <- <-]. split; [|done]. eapply chg_trans; [by eapply chg_snapshot|done].
Qed.

Lemma recorded_chg (e : EVM S) node k i b e' r :
  run_recorded run e node k i b = Done (e', r) → changes (statedb e) (statedb e').
Proof.
  unfold run_recorded. destruct (run k i b (push_node e node)) as [[e2 r2]|p|] eqn:E; cbn; [|done|done].
  destruct r2 as [[k2 ret] err]. apply Hrun in E as Q. cbn in Q.
  destruct (pop_node e2) as [e3|p|] eqn:Ep; cbn; [|done|done]. intros [= <- _].
  apply pop_node_state in Ep as [-> _]. done.
Qed.

(** The run of a call's contract, from the state the call left it. *)
Lemma new_contract_chg (e e1 : EVM S) c o v g k k' node i b e' r :
  NewContract e c o v g = (e1, k') →
  ('(e2, (k2, ret, err)) ← run_recorded run e1 node k i b; Done (e2, (ret, Gas k2, err))) = Done (e', r) →
  changes (statedb e) (statedb e').
Proof.
  intros [<- _]%NewContract_state.
  destruct (run_recorded run e1 node k i b) as [[e2 [[k2 ret] err]]|p|] eqn:E; cbn; [|done|done].
  intros [= <- _]. by eapply recorded_chg.
Qed.

Lemma transfer_chg (s : S) a b v : changes s (Transfer s a b v).
Proof. unfold Transfer. eapply chg_trans; [apply chg_sub|apply chg_add]. Qed.

Lemma Call_chg caller addr input gas value e e' r :
  Call run caller addr input gas value e = Done (e', r) → call_chg (statedb e) (statedb e') (snd r).
Proof.
  unfold Call. destruct (_ <? depth e); [intros [= <- _]; apply call_same|].
  destruct (negb _ && _); [intros [= <- _]; apply call_same|].
  destruct (Snapshot (statedb e)) as [s sn] eqn:Esn. cbv zeta.
  destruct (negb _ && _); [intros [= <- <-]; split; [by eapply chg_snapshot|done]|].
  set (s1 := Transfer _ _ _ _). intros E.
  assert (changes s s1) as Ht.
  { unfold s1. destruct (Exist s addr); [apply transfer_chg|].
    eapply chg_trans; [apply chg_create|apply transfer_chg]. }
  eapply settled_chg; [exact Esn| |exact E].
  intros e1 r1. destruct (precompile _ _); [by intros [= <- _]|].
  destruct (len _ =? 0).
  - destruct (attach_leaf _ _) as [e2|p|] eqn:Ea; cbn; [|done|done]. intros [= <- _].
    unfold attach_leaf in Ea. cbn in Ea. destruct (CallStack e); [done|]. by injection Ea as <-.
  - destruct (NewContract _ _ _ _ _) as [e2 k] eqn:EN. intros Hr.
    eapply chg_trans; [exact Ht|]. by eapply (new_contract_chg (set_statedb e s1)).
Qed.

Lemma CallCode_chg caller addr input gas value e e' r :
  CallCode run caller addr input gas value e = Done (e', r) → call_chg (statedb e) (statedb e') (snd r).
Proof.
  unfold CallCode. destruct (_ <? depth e); [intros [= <- _]; apply call_same|].
  destruct (negb _); [intros [= <- _]; apply call_same|].
  destruct (Snapshot (statedb e)) as [s sn] eqn:Esn. cbv zeta. intros E.
  eapply settled_chg; [exact Esn| |exact E].
  intros e1 r1. destruct (precompile _ _); [intros [= <- _]; constructor|].
  destruct (NewContract _ _ _ _ _) as [e2 k] eqn:EN. by eapply (new_contract_chg (set_statedb e s)).
Qed.

Lemma DelegateCall_chg caller addr input gas e e' r :
  DelegateCall run caller addr input gas e = Done (e', r) → call_chg (statedb e) (statedb e') (snd r).
Proof.
  unfold DelegateCall. destruct (_ <? depth e); [intros [= <- _]; apply call_same|].
  destruct (Snapshot (statedb e)) as [s sn] eqn:Esn. cbv zeta. intros E.
  eapply settled_chg; [exact Esn| |exact E].
  intros e1 r1. destruct (precompile _ _); [intros [= <- _]; constructor|].
  destruct (NewContract _ _ _ _ _) as [e2 k] eqn:EN. destruct (AsDelegate k); cbn; [|done].
  by eapply (new_contract_chg (set_statedb e s)).
Qed.

Lemma StaticCall_chg caller addr input gas e e' r :
  StaticCall run caller addr input gas e = Done (e', r) → call_chg (statedb e) (statedb e') (snd r).
Proof.
  unfold StaticCall. destruct (_ <? depth e); [intros [= <- _]; apply call_same|].
  destruct (Snapshot (statedb e)) as [s sn] eqn:Esn. cbv zeta. intros E.
  eapply settled_chg; [exact Esn| |exact E].
  intros e1 r1. destruct (precompile _ _); [intros [= <- _]; apply chg_add|].
  destruct (NewContract _ _ _ _ _) as [e2 k] eqn:EN. intros Hr.
  eapply chg_trans; [apply (chg_add addr 0)|]. by eapply (new_contract_chg (set_statedb e (AddBalance addr 0 s))).
Qed.

(** The state in which a creation takes its snapshot: the creator's nonce is used
    and, from Berlin on, the new address is warm. *)
Definition create_entered (berlin : bool) (creator address : Address) (s : S) : S :=
  let s := SetNonce creator (wrapU 64 (GetNonce s creator + 1)) s in
  if berlin then AddAddressToAccessList address s else s.

Lemma entered_chg berlin creator address s : changes s (create_entered berlin creator address s).
Proof.
  unfold create_entered. cbv zeta. destruct berlin; [|apply chg_nonce].
  eapply chg_trans; [apply chg_nonce|apply chg_address].
Qed.

(** What a creation does: a failed one leaves at most the entered state, except
    that before Homestead a contract whose code cannot be paid for stays. *)
Definition create_chg (berlin homestead : bool) (creator address : Address) (s s' : S)
    (err : option VmError) : Prop :=
  changes s s' ∧
  (err ≠ None → undone s s' ∨ undone (create_entered berlin creator address s) s' ∨
                (homestead = false ∧ err = Some ErrCodeStoreOutOfGas)).

Lemma store_code_chg (e : EVM S) k a ret err :
  changes (statedb e) (statedb (fst (fst (store_code e k a ret err)))).
Proof.
  unfold store_code. cbv zeta.
  match goal with |- context [match ?x with Some _ => _ | None => _ end] => destruct x end; [constructor|].
  destruct (UseGas _ _) as [k' []]; [apply chg_code|constructor].
Qed.

Lemma create_created caller code hash gas value address e e' r :
  create run caller code hash gas value address e = Done (e', r) →
  create_chg (IsBerlin (chainRules e)) (IsHomestead (chainRules e')) (ref_Address caller) address
    (statedb e) (statedb e') (snd r).
Proof.
  unfold create. destruct (_ <? depth e); [intros [= <- _]; split; [constructor|by left; left]|].
  destruct (negb _); [intros [= <- _]; split; [constructor|by left; left]|]. cbv zeta.
  destruct (_ <? _); [intros [= <- _]; split; [constructor|by left; left]|].
  match goal with |- context [GetCodeHash ?s' _] => change s' with
    (create_entered (IsBerlin (chainRules e)) (ref_Address caller) address (statedb e)) end.
  pose proof (entered_chg (IsBerlin (chainRules e)) (ref_Address caller) address (statedb e)) as Hc.
  set (s := create_entered _ _ _ _) in *.
  destruct (negb _ || _); [intros [= <- _]; split; [done|by right; left; left]|].
  destruct (Snapshot s) as [s0 sn] eqn:Esn. set (s1 := Transfer _ _ _ _).
  assert (changes s0 s1) as Ht.
  { unfold s1. eapply chg_trans; [apply (chg_create address)|]. destruct (IsEIP158 _); [|apply transfer_chg].
    eapply chg_trans; [apply chg_nonce|apply transfer_chg]. }
  destruct (NewContract _ _ _ _ _) as [e2 k] eqn:EN. apply NewContract_state in EN as [EN _]. cbn in EN.
  destruct (run_recorded _ _ _ _ _ _) as [[e3 [[k3 ret] err]]|p|] eqn:Er; cbn; [|done|done].
  apply recorded_chg in Er. rewrite EN in Er.
  pose proof (store_code_chg e3 k3 address ret err) as Hst.
  destruct (store_code _ _ _ _ _) as [[e4 k4] err4]. cbn in Hst.
  assert (changes s0 (statedb e4)) as Q by (eapply chg_trans; [exact Ht|]; by eapply chg_trans).
  assert (changes (statedb e) (statedb e4)) as Q'.
  { eapply chg_trans; [exact Hc|]. eapply chg_trans; [by eapply chg_snapshot|done]. }
  destruct err4 as [x|]; [|intros [= <- <-]; split; [done|by intros []]].
  destruct (IsHomestead (chainRules e4) || _) eqn:Eh; cbn.
  - destruct (RevertToSnapshot sn (statedb e4)) as [s5|p] eqn:E5; cbn; [|done]. intros [= <- <-]. cbn.
    assert (undone s s5) as Hu by (right; eauto 6).
    split; [|by right; left]. eapply chg_trans; [exact Hc|by apply undone_changes].
  - intros [= <- <-]. cbn. split; [done|]. intros _. right. right.
    apply orb_false_iff in Eh as [-> Eh%bool_decide_eq_false]. split; [done|]. f_equal. by apply dec_stable.
Qed.

Lemma calls_of_chg : calls_chg (calls_of run).
Proof.
  split; intros; intros e e' r E; cbn in E.
  - by apply Call_chg in E as [? _].
  - by apply CallCode_chg in E as [? _].
  - by apply DelegateCall_chg in E as [? _].
  - by apply StaticCall_chg in E as [? _].
  - by apply create_created in E as [? _].
  - by apply create_created in E as [? _].
Qed.
End calls.

Lemma Run_chg {S} `{StateDB S} `{Uint256} `{Externals} (tbl : JumpTable (S := S)) levels :
  (∀ op, op_chg (tbl op)) → runner_chg (Run levels tbl).
Proof.
  intros Htbl. induction levels as [|levels IH]; intros c i ro e e' r; cbn [Run]; [done|].
  apply run_body_chg; [done|]. by apply calls_of_chg.
Qed.
