(* ===== verification/ChainConfig.v ===== *)
(** * params/config.go: the forks of a chain

    A fork is scheduled at a block or never ([None]).  [Rules] says which forks
    are active at a block; it is what the virtual machine is configured with. *)

From S2P Require Import Prelude Common Uint256 Machine Vm.

Record ChainConfig := mkChainConfig {
  cfg_ChainID : option Z;
  HomesteadBlock : option Z;
  DAOForkBlock : option Z;
  DAOForkSupport : bool;
  EIP150Block : option Z;
  EIP150Hash : Hash;
  EIP155Block : option Z;
  EIP158Block : option Z;
  ByzantiumBlock : option Z;
  ConstantinopleBlock : option Z;
  PetersburgBlock : option Z;
  IstanbulBlock : option Z;
  MuirGlacierBlock : option Z;
  BerlinBlock : option Z;
  LondonBlock : option Z;
  ArrowGlacierBlock : option Z;
  MergeForkBlock : option Z;
  TerminalTotalDifficulty : option Z
}.

Definition MainnetChainConfig : ChainConfig := {|
  cfg_ChainID := Some 1;
  HomesteadBlock := Some 1150000;
  DAOForkBlock := Some 1920000;
  DAOForkSupport := true;
  EIP150Block := Some 2463000;
  EIP150Hash := 0x2086799aeebeae135c246c65021c82b4e15a2c451340993aacfd2751886514f0;
  EIP155Block := Some 2675000;
  EIP158Block := Some 2675000;
  ByzantiumBlock := Some 4370000;
  ConstantinopleBlock := Some 7280000;
  PetersburgBlock := Some 7280000;
  IstanbulBlock := Some 9069000;
  MuirGlacierBlock := Some 9200000;
  BerlinBlock := Some 12244000;
  LondonBlock := Some 12965000;
  ArrowGlacierBlock := Some 13773000;
  MergeForkBlock := None;
  TerminalTotalDifficulty := None
|}.

Definition isForked (s : option Z) (head : Z) : bool := match s with None => false | Some s => s <=? head end.

(** ** The active forks *)

Module Config.
Definition IsHomestead (c : ChainConfig) (num : Z) : bool := isForked (HomesteadBlock c) num.
Definition IsDAOFork (c : ChainConfig) (num : Z) : bool := isForked (DAOForkBlock c) num.
Definition IsEIP150 (c : ChainConfig) (num : Z) : bool := isForked (EIP150Block c) num.
Definition IsEIP155 (c : ChainConfig) (num : Z) : bool := isForked (EIP155Block c) num.
Definition IsEIP158 (c : ChainConfig) (num : Z) : bool := isForked (EIP158Block c) num.
Definition IsByzantium (c : ChainConfig) (num : Z) : bool := isForked (ByzantiumBlock c) num.
Definition IsConstantinople (c : ChainConfig) (num : Z) : bool := isForked (ConstantinopleBlock c) num.
Definition IsMuirGlacier (c : ChainConfig) (num : Z) : bool := isForked (MuirGlacierBlock c) num.
Definition IsPetersburg (c : ChainConfig) (num : Z) : bool :=
  isForked (PetersburgBlock c) num || bool_decide (PetersburgBlock c = None) && isForked (ConstantinopleBlock c) num.
Definition IsIstanbul (c : ChainConfig) (num : Z) : bool := isForked (IstanbulBlock c) num.
Definition IsBerlin (c : ChainConfig) (num : Z) : bool := isForked (BerlinBlock c) num.
Definition IsLondon (c : ChainConfig) (num : Z) : bool := isForked (LondonBlock c) num.
Definition IsArrowGlacier (c : ChainConfig) (num : Z) : bool := isForked (ArrowGlacierBlock c) num.

Definition IsTerminalPoWBlock (c : ChainConfig) (parentTotalDiff totalDiff : Z) : bool :=
  match TerminalTotalDifficulty c with
  | None => false
  | Some d => (parentTotalDiff <? d) && (d <=? totalDiff)
  end.

Definition Rules (c : ChainConfig) (num : Z) : Vm.Rules := {|
  ChainID := default 0 (cfg_ChainID c);
  Vm.IsHomestead := IsHomestead c num;
  Vm.IsEIP150 := IsEIP150 c num;
  Vm.IsEIP155 := IsEIP155 c num;
  Vm.IsEIP158 := IsEIP158 c num;
  Vm.IsByzantium := IsByzantium c num;
  Vm.IsConstantinople := IsConstantinople c num;
  Vm.IsPetersburg := IsPetersburg c num;
  Vm.IsIstanbul := IsIstanbul c num;
  Vm.IsBerlin := IsBerlin c num;
  Vm.IsLondon := IsLondon c num
|}.
End Config.

(** ** The order of the forks *)

Record fork := mkFork { fork_name : string; fork_block : option Z; fork_optional : bool }.

Definition config_forks (c : ChainConfig) : list fork :=
  [mkFork "homesteadBlock" (HomesteadBlock c) false;
   mkFork "daoForkBlock" (DAOForkBlock c) true;
   mkFork "eip150Block" (EIP150Block c) false;
   mkFork "eip155Block" (EIP155Block c) false;
   mkFork "eip158Block" (EIP158Block c) false;
   mkFork "byzantiumBlock" (ByzantiumBlock c) false;
   mkFork "constantinopleBlock" (ConstantinopleBlock c) false;
   mkFork "petersburgBlock" (PetersburgBlock c) false;
   mkFork "istanbulBlock" (IstanbulBlock c) false;
   mkFork "muirGlacierBlock" (MuirGlacierBlock c) true;
   mkFork "berlinBlock" (BerlinBlock c) false;
   mkFork "londonBlock" (LondonBlock c) false;
   mkFork "arrowGlacierBlock" (ArrowGlacierBlock c) true;
   mkFork "mergeStartBlock" (MergeForkBlock c) true].

Inductive ForkOrderError :=
| NotEnabled (last cur : string) (block : Z)
| EnabledLater (last : string) (lastBlock : Z) (cur : string) (block : Z).

Definition fork_step (lastFork cur : fork) : option ForkOrderError :=
  if bool_decide (fork_name lastFork = ""%string) then None
  else match fork_block lastFork, fork_block cur with
       | None, Some b => Some (NotEnabled (fork_name lastFork) (fork_name cur) b)
       | Some a, Some b =>
           if b <? a then Some (EnabledLater (fork_name lastFork) a (fork_name cur) b) else None
       | _, None => None
       end.

Fixpoint fork_order (lastFork : fork) (forks : list fork) : option ForkOrderError :=
  match forks with
  | [] => None
  | cur :: forks =>
      match fork_step lastFork cur with
      | Some err => Some err
      | None =>
          fork_order (if negb (fork_optional cur) || bool_decide (is_Some (fork_block cur)) then cur else lastFork) forks
      end
  end.

Definition CheckConfigForkOrder (c : ChainConfig) : option ForkOrderError :=
  fork_order (mkFork "" None false) (config_forks c).

(** ** Changing the configuration of a chain *)

Definition configNumEqual (x y : option Z) : bool :=
  match x, y with
  | None, None => true
  | Some x, Some y => x =? y
  | _, _ => false
  end.

Definition isForkIncompatible (s1 s2 : option Z) (head : Z) : bool :=
  (isForked s1 head || isForked s2 head) && negb (configNumEqual s1 s2).

Record ConfigCompatError := mkCompatError {
  What : string;
  StoredConfig : option Z;
  NewConfig : option Z;
  RewindTo : Z
}.

(** [rew.Uint64()] is the low word of the block. *)
Definition newCompatError (what : string) (storedblock newblock : option Z) : ConfigCompatError :=
  let rew := match storedblock, newblock with
             | None, _ => newblock
             | Some s, None => Some s
             | Some s, Some n => if s <? n then Some s else Some n
             end in
  mkCompatError what storedblock newblock
    (match rew with Some r => if 0 <? r then wrapU 64 (wrapU 64 r - 1) else 0 | None => 0 end).

Definition compat_if (b : bool) (err : ConfigCompatError) (next : option ConfigCompatError) : option ConfigCompatError :=
  if b then Some err else next.

Definition compat_fork (what : string) (get : ChainConfig → option Z) (c newcfg : ChainConfig) (head : Z)
    : option ConfigCompatError → option ConfigCompatError :=
  compat_if (isForkIncompatible (get c) (get newcfg) head) (newCompatError what (get c) (get newcfg)).

Definition checkCompatible (c newcfg : ChainConfig) (head : Z) : option ConfigCompatError :=
  compat_fork "Homestead fork block" HomesteadBlock c newcfg head $
  compat_fork "DAO fork block" DAOForkBlock c newcfg head $
  compat_if (Config.IsDAOFork c head && negb (eqb (DAOForkSupport c) (DAOForkSupport newcfg)))
    (newCompatError "DAO fork support flag" (DAOForkBlock c) (DAOForkBlock newcfg)) $
  compat_fork "EIP150 fork block" EIP150Block c newcfg head $
  compat_fork "EIP155 fork block" EIP155Block c newcfg head $
  compat_fork "EIP158 fork block" EIP158Block c newcfg head $
  compat_if (Config.IsEIP158 c head && negb (configNumEqual (cfg_ChainID c) (cfg_ChainID newcfg)))
    (newCompatError "EIP158 chain ID" (EIP158Block c) (EIP158Block newcfg)) $
  compat_fork "Byzantium fork block" ByzantiumBlock c newcfg head $
  compat_fork "Constantinople fork block" ConstantinopleBlock c newcfg head $
  compat_if (isForkIncompatible (PetersburgBlock c) (PetersburgBlock newcfg) head &&
             isForkIncompatible (ConstantinopleBlock c) (PetersburgBlock newcfg) head)
    (newCompatError "Petersburg fork block" (PetersburgBlock c) (PetersburgBlock newcfg)) $
  compat_fork "Istanbul fork block" IstanbulBlock c newcfg head $
  compat_fork "Muir Glacier fork block" MuirGlacierBlock c newcfg head $
  compat_fork "Berlin fork block" BerlinBlock c newcfg head $
  compat_fork "London fork block" LondonBlock c newcfg head $
  compat_fork "Arrow Glacier fork block" ArrowGlacierBlock c newcfg head $
  compat_fork "Merge Start fork block" MergeForkBlock c newcfg head None.

(** The loop of [CheckCompatible], with fuel; [None] is no fuel left. *)
Fixpoint compat_loop (fuel : nat) (c newcfg : ChainConfig) (bhead : Z) (lasterr : option ConfigCompatError)
    : option (option ConfigCompatError) :=
  match fuel with
  | O => None
  | S fuel =>
      match checkCompatible c newcfg bhead with
      | None => Some lasterr
      | Some err =>
          if match lasterr with Some l => RewindTo err =? RewindTo l | None => false end then Some lasterr
          else compat_loop fuel c newcfg (RewindTo err) (Some err)
      end
  end.

Definition CheckCompatible (c newcfg : ChainConfig) (height : Z) : option (option ConfigCompatError) :=
  compat_loop (Z.to_nat height + 3) c newcfg height None.
