(* ===== verification/Types.v ===== *)
(** * core/types: headers, messages and receipts

    Big integers that are set are numbers; the base fee is nil before London.
    Nil slices are empty lists. *)

From S2P Require Import Prelude Common Uint256 Machine Vm.

(** The header of a block. *)
Record Header := mkHeader {
  hd_ParentHash : Hash;
  hd_UncleHash : Hash;
  hd_Coinbase : Address;
  hd_Root : Hash;
  hd_TxHash : Hash;
  hd_ReceiptHash : Hash;
  hd_Bloom : bytes;
  hd_Difficulty : Z;
  hd_Number : Z;
  hd_GasLimit : Z;
  hd_GasUsed : Z;
  hd_Time : Z;
  hd_Extra : bytes;
  hd_MixDigest : Hash;
  hd_Nonce : bytes;
  hd_BaseFee : option Z
}.

Definition NumberU64 (b : Header) : Z := wrapU 64 (hd_Number b).

Definition AccessList : Type := list (Address * list Hash).

Record Message := mkMessage {
  msg_to : option Address;
  msg_from : Address;
  msg_nonce : Z;
  msg_amount : Z;
  msg_gasLimit : Z;
  msg_gasPrice : Z;
  msg_gasFeeCap : Z;
  msg_gasTipCap : Z;
  msg_data : bytes;
  msg_accessList : AccessList;
  msg_isFake : bool
}.

Definition NewMessage (from : Address) (to : option Address) (nonce amount gasLimit gasPrice gasFeeCap gasTipCap : Z)
    (data : bytes) (accessList : AccessList) (isFake : bool) : Message :=
  mkMessage to from nonce amount gasLimit gasPrice gasFeeCap gasTipCap data accessList isFake.

(** The bytes of a log filter. *)
Definition BloomByteLength : nat := 256.

Record Receipt := mkReceipt {
  rcpt_Type : Z;
  rcpt_PostState : bytes;
  rcpt_Status : Z;
  rcpt_CumulativeGasUsed : Z;
  rcpt_Bloom : bytes;
  rcpt_Logs : list Log;
  rcpt_TxHash : Hash;
  rcpt_ContractAddress : Address;
  rcpt_GasUsed : Z;
  rcpt_BlockHash : Hash;
  rcpt_BlockNumber : Z;
  rcpt_TransactionIndex : Z
}.

(** * core/types/bloom9.go: log filters

    A filter is its 256 bytes, most significant first.  An item sets three bits,
    which the first six bytes of its Keccak hash choose. *)

Definition zero_bloom : bytes := replicate BloomByteLength 0.

(** [copy] into the end of an empty filter. *)
Definition SetBytes (d : bytes) : Go bytes :=
  if Z.of_nat BloomByteLength <? len d then Panic ExplicitPanic else Ret (replicate (BloomByteLength - length d) 0 ++ d).

Definition BytesToBloom (b : bytes) : Go bytes := SetBytes b.

(** [binary.BigEndian.Uint16] *)
Definition Uint16 (hi lo : Z) : Z := Z.lor (Z.shiftl hi 8) lo.

(** The byte and the bit that two bytes of the hash choose. *)
Definition bloom_value (hi lo : Z) : nat * Z :=
  (Z.to_nat (Z.of_nat BloomByteLength - Z.shiftr (Z.land (Uint16 hi lo) 0x7ff) 3 - 1), Z.shiftl 1 (Z.land lo 0x7)).

Section bloom.
Context `{Externals}.

Definition bloomValues (data : bytes) : list (nat * Z) :=
  let hashbuf := take 6 (Keccak256 data) in
  let b i := default 0 (hashbuf !! i) in
  [bloom_value (b 0%nat) (b 1%nat); bloom_value (b 2%nat) (b 3%nat); bloom_value (b 4%nat) (b 5%nat)].

Definition or_byte (bin : bytes) (iv : nat * Z) : bytes := <[fst iv := Z.lor (default 0 (bin !! fst iv)) (snd iv)]> bin.

Definition Bloom_Add (bin d : bytes) : bytes := foldl or_byte bin (bloomValues d).

Definition Bloom_Test (bin topic : bytes) : bool :=
  forallb (λ '(i, v), v =? Z.land v (default 0 (bin !! i))) (bloomValues topic).

Definition add_log (bin : bytes) (log : Log) : bytes :=
  foldl (λ bin topic, Bloom_Add bin (Hash_Bytes topic)) (Bloom_Add bin (Address_Bytes (log_Address log))) (log_Topics log).

Definition LogsBloom (logs : list Log) : bytes := foldl add_log zero_bloom logs.

Definition CreateBloom (receipts : list Receipt) : bytes :=
  foldl (λ bin receipt, foldl add_log bin (rcpt_Logs receipt)) zero_bloom receipts.

Definition Bloom9 (data : bytes) : Go bytes := SetBytes data.

Definition BloomLookup (bin topic : bytes) : bool := Bloom_Test bin topic.

(** ** What is added is found *)

Definition covers (bin : bytes) (iv : nat * Z) : Prop := Z.land (snd iv) (default 0 (bin !! fst iv)) = snd iv.

Lemma covers_or bin iv iv' : covers bin iv → covers (or_byte bin iv') iv.
Proof.
  unfold covers, or_byte. destruct iv as [i v], iv' as [j w]. cbn. intros Hc.
  destruct (decide (i = j)) as [->|Hne]; [|by rewrite list_lookup_insert_ne].
  destruct (bin !! j) as [x|] eqn:Hj.
  - rewrite list_lookup_insert_eq by by apply lookup_lt_Some in Hj. cbn in *.
    rewrite Z.land_lor_distr_r, Hc. apply Z.bits_inj'. intros n _. rewrite Z.lor_spec, Z.land_spec.
    by destruct (Z.testbit v n), (Z.testbit w n).
  - rewrite list_insert_ge by by apply lookup_ge_None. by rewrite Hj.
Qed.

Lemma covers_self bin iv : (fst iv < length bin)%nat → covers (or_byte bin iv) iv.
Proof.
  unfold covers, or_byte. destruct iv as [i v]. cbn. intros Hi. rewrite list_lookup_insert_eq by done. cbn.
  apply Z.bits_inj'. intros n _. rewrite Z.land_spec, Z.lor_spec. by destruct (Z.testbit v n), (Z.testbit (default 0 (bin !! i)) n).
Qed.

Lemma length_or bin iv : length (or_byte bin iv) = length bin.
Proof. apply length_insert. Qed.

Lemma covers_foldl bin l iv : covers bin iv → covers (foldl or_byte bin l) iv.
Proof. revert bin. induction l as [|iv' l IH]; intros bin Hc; [done|]. by apply IH, covers_or. Qed.

Lemma length_foldl bin l : length (foldl or_byte bin l) = length bin.
Proof. revert bin. induction l as [|iv l IH]; intros bin; [done|]. cbn. by rewrite IH, length_or. Qed.

Lemma foldl_covers bin l : Forall (λ iv, (fst iv < length bin)%nat) l → Forall (covers (foldl or_byte bin l)) l.
Proof.
  revert bin. induction l as [|iv l IH]; intros bin Hl; [constructor|]. apply Forall_cons in Hl as [Hi Hl]. cbn. constructor.
  - by apply covers_foldl, covers_self.
  - apply IH. eapply Forall_impl; [exact Hl|]. intros x. by rewrite length_or.
Qed.

Lemma bloom_value_in hi lo : (fst (bloom_value hi lo) < 256)%nat.
Proof.
  unfold bloom_value, BloomByteLength. cbn [fst].
  assert (0 ≤ Z.shiftr (Z.land (Uint16 hi lo) 0x7ff) 3).
  { apply Z.shiftr_nonneg, Z.land_nonneg. by right. }
  lia.
Qed.

Definition bloom_ok (bin : bytes) : Prop := length bin = 256%nat.

Lemma Bloom_Add_ok bin d : bloom_ok bin → bloom_ok (Bloom_Add bin d).
Proof. unfold bloom_ok, Bloom_Add. by rewrite length_foldl. Qed.

Lemma Bloom_Test_covers bin d : Bloom_Test bin d = true ↔ Forall (covers bin) (bloomValues d).
Proof.
  unfold Bloom_Test. rewrite forallb_forall, Forall_forall. unfold covers. split.
  - intros Hf [i v] Hin. apply list_elem_of_In in Hin. apply Hf in Hin. cbn. lia.
  - intros Hf [i v] Hin. apply list_elem_of_In in Hin. apply Hf in Hin. cbn in Hin. lia.
Qed.

(** An item that was added is found, whatever is added later. *)
Lemma Bloom_Add_Test bin d : bloom_ok bin → Bloom_Test (Bloom_Add bin d) d = true.
Proof.
  intros Hb. apply Bloom_Test_covers, foldl_covers. rewrite Hb.
  unfold bloomValues. repeat (apply Forall_cons_2; [apply bloom_value_in|]). apply Forall_nil_2.
Qed.

Lemma Bloom_Add_keeps bin d d' : Bloom_Test bin d = true → Bloom_Test (Bloom_Add bin d') d = true.
Proof.
  rewrite !Bloom_Test_covers. intros Hf. eapply Forall_impl; [exact Hf|]. intros iv. apply covers_foldl.
Qed.

Lemma foldl_Add_keeps {A} (f : A → bytes) l bin d :
  Bloom_Test bin d = true → Bloom_Test (foldl (λ bin a, Bloom_Add bin (f a)) bin l) d = true.
Proof. revert bin. induction l as [|a l IH]; intros bin Hd; [done|]. by apply IH, Bloom_Add_keeps. Qed.

Lemma foldl_Add_ok {A} (f : A → bytes) l bin : bloom_ok bin → bloom_ok (foldl (λ bin a, Bloom_Add bin (f a)) bin l).
Proof. revert bin. induction l as [|a l IH]; intros bin Hb; [done|]. by apply IH, Bloom_Add_ok. Qed.

Lemma foldl_Add_Test {A} (f : A → bytes) l bin a :
  bloom_ok bin → a ∈ l → Bloom_Test (foldl (λ bin a, Bloom_Add bin (f a)) bin l) (f a) = true.
Proof.
  intros Hb Ha. revert bin Hb. induction Ha as [a l|a b l _ IH]; intros bin Hb; cbn.
  - by apply foldl_Add_keeps, Bloom_Add_Test.
  - by apply IH, Bloom_Add_ok.
Qed.

Lemma add_log_ok bin l : bloom_ok bin → bloom_ok (add_log bin l).
Proof. intros Hb. by apply foldl_Add_ok, Bloom_Add_ok. Qed.

Lemma add_log_keeps bin l d : Bloom_Test bin d = true → Bloom_Test (add_log bin l) d = true.
Proof. intros Hd. by apply foldl_Add_keeps, Bloom_Add_keeps. Qed.

(** The items of a log: its address and its topics. *)
Definition log_items (l : Log) : list bytes := Address_Bytes (log_Address l) :: (Hash_Bytes <$> log_Topics l).

Lemma add_log_Test bin l d : bloom_ok bin → d ∈ log_items l → Bloom_Test (add_log bin l) d = true.
Proof.
  intros Hb Hd. unfold log_items in Hd. apply elem_of_cons in Hd as [->|Hd].
  - by apply foldl_Add_keeps, Bloom_Add_Test.
  - apply list_elem_of_fmap in Hd as (t & -> & Ht). by apply foldl_Add_Test; [apply Bloom_Add_ok|].
Qed.

(** The filter of some logs has no false negatives. *)
Lemma LogsBloom_Test logs l d : l ∈ logs → d ∈ log_items l → bloom_ok (LogsBloom logs) ∧ BloomLookup (LogsBloom logs) d = true.
Proof.
  intros Hl Hd. unfold LogsBloom, BloomLookup.
  assert (∀ logs bin, Bloom_Test bin d = true → Bloom_Test (foldl add_log bin logs) d = true) as Hkeep.
  { intros l'. induction l' as [|x l' IH]; intros bin Hb; [done|]. by apply IH, add_log_keeps. }
  assert (∀ logs bin, bloom_ok bin → bloom_ok (foldl add_log bin logs)) as Hok.
  { intros l'. induction l' as [|x l' IH]; intros bin Hb; [done|]. by apply IH, add_log_ok. }
  split; [by apply Hok|]. assert (bloom_ok zero_bloom) as H0 by done. revert H0. generalize zero_bloom as bin.
  induction Hl as [l logs|l x logs _ IH]; intros bin Hb; cbn.
  - apply Hkeep. by apply add_log_Test.
  - apply IH; [done|]. by apply add_log_ok.
Qed.

(** The bytes [LogsBloom] gives fit a filter: [BytesToBloom] never panics on them. *)
Lemma BytesToBloom_LogsBloom logs : BytesToBloom (LogsBloom logs) = Ret (LogsBloom logs).
Proof.
  assert (length (LogsBloom logs) = 256%nat) as Hl.
  { unfold LogsBloom. assert (bloom_ok zero_bloom) as H0 by done. revert H0. generalize zero_bloom as bin.
    induction logs as [|l logs IH]; intros bin Hb; [done|]. cbn. by apply IH, add_log_ok. }
  unfold BytesToBloom, SetBytes, len. by rewrite Hl.
Qed.
End bloom.
