(* ===== verification/Transition.v ===== *)
(** * core/state_transition.go and core/gaspool.go: applying a message

    A transition checks the message, buys its gas from the pool and from the
    sender, makes the call or the creation, and gives back what is left.  The
    pool and the state are shared with the caller, so an error leaves behind what
    was done before it.  The forks are those of the rules of the virtual machine,
    which are computed from the same configuration and block. *)

From S2P Require Import Prelude Common Params Uint256 Machine Tx Vm Evm Interpreter Gas Instructions JumpTable Types.

(** ** gaspool.go *)

Definition AddGas (gp amount : Z) : Go Z :=
  if MaxUint64 - amount <? gp then Panic ExplicitPanic else Ret (wrapU 64 (gp + amount)).

Inductive CoreError :=
| ErrNonceTooHigh
| ErrNonceTooLow
| ErrNonceMax
| ErrGasLimitReached
| ErrInsufficientFundsForTransfer
| ErrInsufficientFunds
| ErrGasUintOverflow
| ErrIntrinsicGas
| ErrTipAboveFeeCap
| ErrTipVeryHigh
| ErrFeeCapVeryHigh
| ErrFeeCapTooLow
| ErrSenderNoEOA
| ErrCallStackLength (n : Z).

#[export] Instance CoreError_eq_dec : EqDecision CoreError.
Proof. solve_decision. Defined.

Definition SubGas (gp amount : Z) : CoreError + Z :=
  if gp <? amount then inl ErrGasLimitReached else inr (wrapU 64 (gp - amount)).

(** ** Intrinsic gas *)

(** [AccessList.StorageKeys] *)
Definition StorageKeys (al : AccessList) : Z := foldl (λ sum '(_, keys), sum + Z.of_nat (length keys)) 0 al.

(** [n] units of [price] on top of [gas], if they fit. *)
Definition add_data_gas (gas price n : Z) : CoreError + Z :=
  if (MaxUint64 - gas) / price <? n then inl ErrGasUintOverflow else inr (wrapU 64 (gas + n * price)).

Definition non_zero (data : bytes) : Z := foldl (λ nz byt, if byt =? 0 then nz else nz + 1) 0 data.

Definition IntrinsicGas (data : bytes) (accessList : AccessList) (isContractCreation isHomestead isEIP2028 : bool)
    : CoreError + Z :=
  let gas := if isContractCreation && isHomestead then TxGasContractCreation else TxGas in
  match
    (if 0 <? len data then
       let nz := non_zero data in
       let nonZeroGas := if isEIP2028 then TxDataNonZeroGasEIP2028 else TxDataNonZeroGasFrontier in
       match add_data_gas gas nonZeroGas nz with
       | inl err => inl err
       | inr gas => add_data_gas gas TxDataZeroGas (len data - nz)
       end
     else inr gas)
  with
  | inl err => inl err
  | inr gas =>
      let gas := wrapU 64 (gas + wrapU 64 (Z.of_nat (length accessList) * TxAccessListAddressGas)) in
      inr (wrapU 64 (gas + wrapU 64 (StorageKeys accessList * TxAccessListStorageKeyGas)))
  end.

(** ** The transition *)

Section transition.
Context {S : Type} `{StateDB S} `{Uint256} `{Externals}.

(** [Config.NoBaseFee], and the nesting the interpreter is given. *)
Context (NoBaseFee : bool) (levels : nat).

Record StateTransition := mkTransition {
  st_gp : Z;
  st_msg : Message;
  st_gas : Z;
  st_initialGas : Z;
  st_evm : EVM S
}.

Record ExecutionResult := mkResult { UsedGas : Z; Err : option VmError; ReturnData : bytes }.

Definition Failed (r : ExecutionResult) : bool := bool_decide (Err r ≠ None).
Definition Return (r : ExecutionResult) : bytes := match Err r with None => ReturnData r | Some _ => [] end.
Definition Revert (r : ExecutionResult) : bytes :=
  if decide (Err r = Some ErrExecutionReverted) then ReturnData r else [].

(** Steps of a transition: they may fail, having changed it. *)
Definition Tx (A : Type) : Type := StateTransition → Res (StateTransition * (CoreError + A)).

#[export] Instance Tx_ret : MRet Tx := λ A a st, Done (st, inr a).
#[export] Instance Tx_bind : MBind Tx := λ A B k m st,
  match m st with
  | Done (st, inr a) => k a st
  | Done (st, inl err) => Done (st, inl err)
  | Crash p => Crash p
  | OutOfFuel => OutOfFuel
  end.
Definition fail {A} (err : CoreError) : Tx A := λ st, Done (st, inl err).
Definition fail_if (b : bool) (err : CoreError) : Tx () := if b then fail err else mret tt.
Definition st_get {A} (f : StateTransition → A) : Tx A := λ st, Done (st, inr (f st)).
Definition of_error {A} (m : CoreError + A) : Tx A := match m with inl err => fail err | inr a => mret a end.

Definition put_gp (gp : Z) : Tx () :=
  λ st, Done (mkTransition gp (st_msg st) (st_gas st) (st_initialGas st) (st_evm st), inr tt).
Definition put_gas (gas : Z) : Tx () :=
  λ st, Done (mkTransition (st_gp st) (st_msg st) gas (st_initialGas st) (st_evm st), inr tt).
Definition put_initialGas (gas : Z) : Tx () :=
  λ st, Done (mkTransition (st_gp st) (st_msg st) (st_gas st) gas (st_evm st), inr tt).
Definition put_evm (e : EVM S) : Tx () :=
  λ st, Done (mkTransition (st_gp st) (st_msg st) (st_gas st) (st_initialGas st) e, inr tt).
Definition on_state (f : S → S) : Tx () := e ← st_get st_evm; put_evm (set_statedb e (f (statedb e))).

Definition NewStateTransition (evm : EVM S) (msg : Message) (gp : Z) : StateTransition :=
  mkTransition gp msg 0 0 evm.

(** The recipient; the zero address for a creation. *)
Definition to (msg : Message) : Address := default 0 (msg_to msg).

Definition buyGas : Tx () :=
  msg ← st_get st_msg;
  let mgval := msg_gasLimit msg * msg_gasPrice msg in
  let balanceCheck := msg_gasLimit msg * msg_gasFeeCap msg + msg_amount msg in
  have ← st_get (λ st, GetBalance (statedb (st_evm st)) (msg_from msg));
  _ ← fail_if (have <? balanceCheck) ErrInsufficientFunds;
  gp ← st_get st_gp;
  gp ← of_error (SubGas gp (msg_gasLimit msg));
  _ ← put_gp gp;
  gas ← st_get st_gas;
  _ ← put_gas (wrapU 64 (gas + msg_gasLimit msg));
  _ ← put_initialGas (msg_gasLimit msg);
  on_state (SubBalance (msg_from msg) mgval).

(** The nonce of the sender is that of the message, and is not the last one. *)
Definition check_nonce : Tx () :=
  msg ← st_get st_msg;
  stNonce ← st_get (λ st, GetNonce (statedb (st_evm st)) (msg_from msg));
  _ ← fail_if (stNonce <? msg_nonce msg) ErrNonceTooHigh;
  _ ← fail_if (msg_nonce msg <? stNonce) ErrNonceTooLow;
  fail_if (wrapU 64 (stNonce + 1) <? stNonce) ErrNonceMax.

(** The sender has no code. *)
Definition check_sender : Tx () :=
  msg ← st_get st_msg;
  codeHash ← st_get (λ st, GetCodeHash (statedb (st_evm st)) (msg_from msg));
  fail_if (negb (codeHash =? emptyCodeHash) && negb (codeHash =? 0)) ErrSenderNoEOA.

(** From London on the fee covers the base fee. *)
Definition check_fees : Tx () :=
  msg ← st_get st_msg;
  e ← st_get st_evm;
  if IsLondon (chainRules e) then
    if negb NoBaseFee || (0 <? big_BitLen (msg_gasFeeCap msg)) || (0 <? big_BitLen (msg_gasTipCap msg)) then
      _ ← fail_if (256 <? big_BitLen (msg_gasFeeCap msg)) ErrFeeCapVeryHigh;
      _ ← fail_if (256 <? big_BitLen (msg_gasTipCap msg)) ErrTipVeryHigh;
      _ ← fail_if (msg_gasFeeCap msg <? msg_gasTipCap msg) ErrTipAboveFeeCap;
      fail_if (msg_gasFeeCap msg <? BaseFee (Context e)) ErrFeeCapTooLow
    else mret tt
  else mret tt.

Definition preCheck : Tx () :=
  msg ← st_get st_msg;
  _ ← (if msg_isFake msg then mret tt else _ ← check_nonce; check_sender);
  _ ← check_fees;
  buyGas.

(** Without the check of the nonce. *)
Definition preCheckSu : Tx () :=
  msg ← st_get st_msg;
  _ ← (if msg_isFake msg then mret tt else check_sender);
  _ ← check_fees;
  buyGas.

Definition gasUsed (st : StateTransition) : Z := wrapU 64 (st_initialGas st - st_gas st).

Definition refundGas (refundQuotient : Z) : Tx () :=
  used ← st_get gasUsed;
  counter ← st_get (λ st, GetRefund (statedb (st_evm st)));
  let refund := used / refundQuotient in
  let refund := if counter <? refund then counter else refund in
  gas ← st_get st_gas;
  let gas := wrapU 64 (gas + refund) in
  _ ← put_gas gas;
  msg ← st_get st_msg;
  _ ← on_state (AddBalance (msg_from msg) (gas * msg_gasPrice msg));
  gp ← st_get st_gp;
  gp ← (λ st, match AddGas gp gas with Ret gp => Done (st, inr gp) | Panic p => Crash p end);
  put_gp gp.

(** ** statedb.go and contracts.go *)

Definition ActivePrecompiles (rules : Rules) : list Address :=
  elements (dom (if IsBerlin rules then PrecompiledContractsBerlin
                 else if IsIstanbul rules then PrecompiledContractsIstanbul
                 else if IsByzantium rules then PrecompiledContractsByzantium
                 else PrecompiledContractsHomestead)).

Definition PrepareAccessList (sender : Address) (dst : option Address) (precompiles : list Address) (list : AccessList)
    (s : S) : S :=
  let s := AddAddressToAccessList sender s in
  let s := match dst with Some dst => AddAddressToAccessList dst s | None => s end in
  let s := foldl (λ s addr, AddAddressToAccessList addr s) s precompiles in
  foldl (λ s '(a, keys), foldl (λ s key, AddSlotToAccessList a key s) (AddAddressToAccessList a s) keys) s list.

(** The call or the creation: what it returns, and the gas left. *)
Definition run_message : Tx (bytes * option VmError) :=
  msg ← st_get st_msg;
  e ← st_get st_evm;
  gas ← st_get st_gas;
  let run := machine (chainRules e) levels in
  let sender := AccountRef (msg_from msg) in
  match msg_to msg with
  | None =>
      '(e, (ret, gas, err)) ← (λ st,
        match Create run sender (msg_data msg) gas (msg_amount msg) e with
        | Done (e, (ret, _, gas, err)) => Done (st, inr (e, (ret, gas, err)))
        | Crash p => Crash p
        | OutOfFuel => OutOfFuel
        end);
      _ ← put_evm e;
      _ ← put_gas gas;
      mret (ret, err)
  | Some addr =>
      let e := set_statedb e
        (SetNonce (msg_from msg) (wrapU 64 (GetNonce (statedb e) (ref_Address sender) + 1)) (statedb e)) in
      '(e, (ret, gas, err)) ← (λ st,
        match Call run sender addr (msg_data msg) gas (msg_amount msg) e with
        | Done (e, r) => Done (st, inr (e, r))
        | Crash p => Crash p
        | OutOfFuel => OutOfFuel
        end);
      _ ← put_evm e;
      _ ← put_gas gas;
      mret (ret, err)
  end.

(** What [TransitionDb] and [TransitionDbTest] share: everything after the checks. *)
Definition transition : Tx ExecutionResult :=
  msg ← st_get st_msg;
  e ← st_get st_evm;
  let rules := chainRules e in
  let contractCreation := bool_decide (msg_to msg = None) in
  gas ← of_error (IntrinsicGas (msg_data msg) (msg_accessList msg) contractCreation (IsHomestead rules) (IsIstanbul rules));
  have ← st_get st_gas;
  _ ← fail_if (have <? gas) ErrIntrinsicGas;
  _ ← put_gas (wrapU 64 (have - gas));
  _ ← fail_if ((0 <? msg_amount msg) && negb (CanTransfer (statedb e) (msg_from msg) (msg_amount msg)))
        ErrInsufficientFundsForTransfer;
  _ ← (if IsBerlin rules then
         on_state (PrepareAccessList (msg_from msg) (msg_to msg) (ActivePrecompiles rules) (msg_accessList msg))
       else mret tt);
  '(ret, vmerr) ← run_message;
  _ ← refundGas (if IsLondon rules then RefundQuotientEIP3529 else RefundQuotient);
  let effectiveTip :=
    if IsLondon rules then Z.min (msg_gasTipCap msg) (msg_gasFeeCap msg - BaseFee (Context e)) else msg_gasPrice msg in
  used ← st_get gasUsed;
  _ ← on_state (AddBalance (Coinbase (Context e)) (used * effectiveTip));
  pending ← st_get (λ st, CallStack (st_evm st));
  _ ← fail_if (0 <? Z.of_nat (length pending)) (ErrCallStackLength (Z.of_nat (length pending)));
  mret (mkResult used vmerr ret).

Definition TransitionDb : Tx ExecutionResult := _ ← preCheck; transition.
Definition TransitionDbTest : Tx ExecutionResult := _ ← preCheckSu; transition.

Definition ApplyMessage (evm : EVM S) (msg : Message) (gp : Z) : Res (StateTransition * (CoreError + ExecutionResult)) :=
  TransitionDb (NewStateTransition evm msg gp).
Definition ApplyMessageTest (evm : EVM S) (msg : Message) (gp : Z)
    : Res (StateTransition * (CoreError + ExecutionResult)) :=
  TransitionDbTest (NewStateTransition evm msg gp).
End transition.
Arguments StateTransition S : clear implicits.
