(* ===== verification/VmFacts.v ===== *)
(** * Properties of jump destinations, memory sizes and their gas

    [opcode_at code pos] says that a walk over the instructions of [code] from
    its first byte stops at [pos]; the data bitmap marks the operands of PUSH and
    nothing else.  Then jump destinations, the sizes of memory and what they
    cost, the gas of a callee, and reading past the end of data. *)

From S2P Require Import Prelude Common Params Uint256 Machine Tx Vm.

Definition push_size (op : Z) : Z := if (op <? PUSH1) || (PUSH32 <? op) then 0 else op - PUSH1 + 1.

Inductive opcode_at (code : bytes) : Z → Prop :=
| opcode_first : opcode_at code 0
| opcode_next pos op :
    opcode_at code pos → code !! Z.to_nat pos = Some op → opcode_at code (pos + 1 + push_size op).

(** ** Bits of a vector *)

Definition bit (bits : bitvec) (q : Z) : bool :=
  match bits !! Z.to_nat (q / 8) with Some b => Z.testbit b (q mod 8) | None => false end.

(** The vector [bits'] is [bits] with [n] more bits set from [pos] on. *)
Definition marks (bits : bitvec) (pos n : Z) (bits' : bitvec) : Prop :=
  length bits' = length bits ∧
  ∀ q, 0 ≤ q → bit bits' q = bit bits q || ((pos <=? q) && (q <? pos + n)).

Definition zero_from (bits : bitvec) (pos : Z) : Prop := ∀ q, pos ≤ q → bit bits q = false.

Lemma marks_zero bits pos n bits' :
  0 ≤ pos → 0 ≤ n → zero_from bits pos → marks bits pos n bits' → zero_from bits' (pos + n).
Proof.
  intros Hp Hn Hz [_ Hm] q Hq. rewrite Hm, Hz by lia.
  destruct (Z.leb_spec pos q), (Z.ltb_spec q (pos + n)); simpl; lia || done.
Qed.

Lemma marks_trans bits pos n m bits1 bits2 :
  0 ≤ n → 0 ≤ m → marks bits pos n bits1 → marks bits1 (pos + n) m bits2 → marks bits pos (n + m) bits2.
Proof.
  intros Hn Hm0 [Hl1 H1] [Hl2 H2]. split; [congruence|]. intros q Hq. rewrite H2, H1 by done.
  rewrite <- orb_assoc. f_equal.
  destruct (Z.leb_spec pos q), (Z.ltb_spec q (pos + n)), (Z.leb_spec (pos + n) q),
    (Z.ltb_spec q (pos + n + m)), (Z.ltb_spec q (pos + (n + m))); simpl; lia || done.
Qed.

Lemma marks_refl bits pos : marks bits pos 0 bits.
Proof.
  split; [done|]. intros q _.
  destruct (Z.leb_spec pos q), (Z.ltb_spec q (pos + 0)); simpl; rewrite ?orb_false_r; lia || done.
Qed.

Lemma bit_insert bits i v q :
  0 ≤ i → (Z.to_nat i < length bits)%nat → 0 ≤ q →
  bit (<[Z.to_nat i := v]> bits) q = if q / 8 =? i then Z.testbit v (q mod 8) else bit bits q.
Proof.
  intros Hi Hlen Hq. unfold bit. destruct (Z.eqb_spec (q / 8) i) as [->|Hne].
  - by rewrite list_lookup_insert_eq.
  - rewrite list_lookup_insert_ne; [done|]. pose proof (Z.div_pos q 8). lia.
Qed.

Lemma or_at_Ret bits i x :
  (Z.to_nat i < length bits)%nat →
  ∃ y, bits !! Z.to_nat i = Some y ∧ or_at bits i x = Ret (<[Z.to_nat i := Z.lor y x]> bits).
Proof.
  intros Hi. destruct (lookup_lt_is_Some_2 bits _ Hi) as [y Hy]. exists y. split; [done|].
  unfold or_at, index, store_at. rewrite Hy. cbn. by rewrite decide_True.
Qed.

Lemma store_at_Ret bits i x :
  (Z.to_nat i < length bits)%nat → store_at bits i x = Ret (<[Z.to_nat i := x]> bits).
Proof. intros Hi. unfold store_at. by rewrite decide_True. Qed.

(** The bits of the masks. *)
Lemma low_mask n r j :
  0 ≤ n → 0 ≤ r → 0 ≤ j < 8 →
  Z.testbit (wrapU 8 (Z.shiftl (Z.ones n) r)) j = (r <=? j) && (j <? r + n).
Proof.
  intros. unfold wrapU. rewrite Z.mod_pow2_bits_low, Z.shiftl_spec, Z.testbit_ones by lia.
  destruct (Z.leb_spec 0 (j - r)), (Z.leb_spec r j), (Z.ltb_spec (j - r) n), (Z.ltb_spec j (r + n)); lia || done.
Qed.

Lemma high_mask n r j :
  0 ≤ n → 0 ≤ r → 0 ≤ j < 8 →
  Z.testbit (wrapU 8 (Z.shiftr (wrapU 16 (Z.shiftl (Z.ones n) r)) 8)) j = (r <=? j + 8) && (j + 8 <? r + n).
Proof.
  intros. unfold wrapU. rewrite Z.mod_pow2_bits_low, Z.shiftr_spec by lia.
  rewrite Z.mod_pow2_bits_low, Z.shiftl_spec, Z.testbit_ones by lia.
  destruct (Z.leb_spec 0 (j + 8 - r)), (Z.leb_spec r (j + 8)), (Z.ltb_spec (j + 8 - r) n),
    (Z.ltb_spec (j + 8) (r + n)); lia || done.
Qed.

Lemma not_mask r j :
  0 ≤ r < 8 → 0 ≤ j < 8 → Z.testbit (not8 (wrapU 8 (Z.shiftl 255 r))) j = (j <? r).
Proof.
  intros Hr Hj.
  assert (r = 0 ∨ r = 1 ∨ r = 2 ∨ r = 3 ∨ r = 4 ∨ r = 5 ∨ r = 6 ∨ r = 7) as Hr' by lia.
  assert (j = 0 ∨ j = 1 ∨ j = 2 ∨ j = 3 ∨ j = 4 ∨ j = 5 ∨ j = 6 ∨ j = 7) as Hj' by lia.
  destruct_or! Hr'; destruct_or! Hj'; by subst.
Qed.

Lemma bit255 j : 0 ≤ j < 8 → Z.testbit 255 j = true.
Proof.
  intros. assert (j = 0 ∨ j = 1 ∨ j = 2 ∨ j = 3 ∨ j = 4 ∨ j = 5 ∨ j = 6 ∨ j = 7) as Hj by lia.
  destruct_or! Hj; by subst.
Qed.

(** Compare positions through the index of their byte and of their bit. *)
Ltac bit_arith :=
  repeat match goal with
  | |- context [?x / 8] =>
      lazymatch goal with H : x = 8 * (x / 8) + x mod 8 |- _ => fail | _ => idtac end;
      pose proof (Z.div_mod x 8 ltac:(lia)); pose proof (Z.mod_pos_bound x 8 ltac:(lia))
  end;
  repeat match goal with
  | |- context [Z.leb ?x ?y] => destruct (Z.leb_spec x y)
  | |- context [Z.ltb ?x ?y] => destruct (Z.ltb_spec x y)
  | |- context [Z.eqb ?x ?y] => destruct (Z.eqb_spec x y)
  end; rewrite ?andb_true_r, ?andb_false_r, ?orb_true_r, ?orb_false_r; simpl; try done; try lia.

Lemma bit_of bits q y : bits !! Z.to_nat (q / 8) = Some y → bit bits q = Z.testbit y (q mod 8).
Proof. unfold bit. by intros ->. Qed.

(** The byte that holds [pos], after its bits [pos ..] were set by a mask. *)
Lemma or_at_marks bits pos n x :
  0 ≤ pos → (Z.to_nat (pos / 8) < length bits)%nat →
  (∀ j, 0 ≤ j < 8 → Z.testbit x j = (pos mod 8 <=? j) && (j <? pos mod 8 + n)) →
  ∃ bits', or_at bits (pos / 8) x = Ret bits' ∧ length bits' = length bits ∧
    ∀ q, 0 ≤ q → bit bits' q =
      if q / 8 =? pos / 8 then bit bits q || ((pos <=? q) && (q <? pos + n)) else bit bits q.
Proof.
  intros Hp Hlen Hx. destruct (or_at_Ret bits (pos / 8) x Hlen) as (y & Hy & ->).
  eexists. split; [done|]. rewrite length_insert. split; [done|]. intros q Hq.
  rewrite bit_insert by (done || apply Z.div_pos; lia).
  destruct (Z.eqb_spec (q / 8) (pos / 8)) as [He|]; [|done].
  rewrite (bit_of _ _ y) by (by rewrite He).
  rewrite Z.lor_spec, Hx by (apply Z.mod_pos_bound; lia). f_equal.
  pose proof (Z.div_mod q 8 ltac:(lia)). pose proof (Z.div_mod pos 8 ltac:(lia)).
  bit_arith.
Qed.

Lemma store_at_bits bits i x :
  0 ≤ i → (Z.to_nat i < length bits)%nat →
  ∃ bits', store_at bits i x = Ret bits' ∧ length bits' = length bits ∧
    ∀ q, 0 ≤ q → bit bits' q = if q / 8 =? i then Z.testbit x (q mod 8) else bit bits q.
Proof.
  intros Hi Hlen. rewrite store_at_Ret by done. eexists. split; [done|].
  rewrite length_insert. split; [done|]. intros. by apply bit_insert.
Qed.

(** [bits] has room for the bytes up to and including the [k]-th after [pos]. *)
Definition room (bits : bitvec) (pos k : Z) : Prop := pos / 8 + k < Z.of_nat (length bits).

Lemma room_lt bits pos k i :
  0 ≤ pos → 0 ≤ i ≤ k → room bits pos k → (Z.to_nat (pos / 8 + i) < length bits)%nat.
Proof. unfold room. pose proof (Z.div_pos pos 8). lia. Qed.

Lemma set1_marks bits pos :
  0 ≤ pos → room bits pos 0 → ∃ bits', set1 bits pos = Ret bits' ∧ marks bits pos 1 bits'.
Proof.
  intros Hp Hr. apply (room_lt _ _ _ 0) in Hr; [|done..]. rewrite Z.add_0_r in Hr.
  destruct (or_at_marks bits pos 1 (wrapU 8 (Z.shiftl 1 (pos mod 8))) Hp Hr) as (b1 & E1 & L1 & B1).
  { intros j Hj. apply (low_mask 1); [lia|by apply Z.mod_pos_bound|done]. }
  unfold set1. rewrite E1. eexists; split; [done|]. split; [done|]. intros q Hq. rewrite B1 by done.
  bit_arith.
Qed.

Lemma setN_marks bits pos n :
  0 ≤ pos → 1 ≤ n ≤ 8 → room bits pos 1 → zero_from bits pos →
  ∃ bits', setN bits (Z.ones n) pos = Ret bits' ∧ marks bits pos n bits'.
Proof.
  intros Hp Hn Hr Hz. pose proof (Z.mod_pos_bound pos 8 ltac:(lia)) as Hm.
  destruct (or_at_marks bits pos n (wrapU 8 (wrapU 16 (Z.shiftl (Z.ones n) (pos mod 8)))) Hp)
    as (b1 & E1 & L1 & B1).
  { apply (room_lt _ _ _ 0) in Hr; [|lia..]. by rewrite Z.add_0_r in Hr. }
  { intros j Hj. rewrite <- low_mask by lia. unfold wrapU. by rewrite !Z.mod_pow2_bits_low by lia. }
  unfold setN. rewrite E1. cbn.
  set (hi := wrapU 8 (Z.shiftr (wrapU 16 (Z.shiftl (Z.ones n) (pos mod 8))) 8)).
  assert (∀ j, 0 ≤ j < 8 → Z.testbit hi j = (pos mod 8 <=? j + 8) && (j + 8 <? pos mod 8 + n)) as Hhi
    by (intros; apply high_mask; lia).
  destruct (Z.eqb_spec hi 0) as [Hh|Hh].
  - exists b1. split; [done|]. split; [done|]. intros q Hq. rewrite B1 by done.
    assert (pos mod 8 + n ≤ 8 + 0) as Hno.
    { destruct (Z.le_gt_cases (pos mod 8 + n) 8); [lia|]. exfalso.
      specialize (Hhi 0 ltac:(lia)). rewrite Hh, Z.testbit_0_l in Hhi. revert Hhi. bit_arith. }
    bit_arith.
  - destruct (store_at_bits b1 (pos / 8 + 1) hi) as (b2 & E2 & L2 & B2).
    { pose proof (Z.div_pos pos 8). lia. }
    { rewrite L1. apply (room_lt _ _ 1); [lia..|done]. }
    exists b2. split; [done|]. split; [congruence|]. intros q Hq. rewrite B2, B1 by done.
    rewrite Hhi by (apply Z.mod_pos_bound; lia).
    pose proof (Hz q). bit_arith; rewrite H by lia; done.
Qed.

(** Eight or sixteen bits: the rest of the first byte, whole bytes, and the
    complement of the first mask. *)
Lemma first_mask r j : 0 ≤ r < 8 → 0 ≤ j < 8 → Z.testbit (wrapU 8 (Z.shiftl 255 r)) j = (r <=? j).
Proof.
  intros. change 255 with (Z.ones 8). rewrite low_mask by lia. bit_arith.
Qed.

Lemma set8_marks bits pos :
  0 ≤ pos → room bits pos 1 → zero_from bits pos →
  ∃ bits', set8 bits pos = Ret bits' ∧ marks bits pos 8 bits'.
Proof.
  intros Hp Hr Hz. pose proof (Z.mod_pos_bound pos 8 ltac:(lia)) as Hm.
  destruct (or_at_marks bits pos 8 (wrapU 8 (Z.shiftl 255 (pos mod 8))) Hp) as (b1 & E1 & L1 & B1).
  { apply (room_lt _ _ _ 0) in Hr; [|lia..]. by rewrite Z.add_0_r in Hr. }
  { intros j Hj. rewrite first_mask by done. bit_arith. }
  destruct (store_at_bits b1 (pos / 8 + 1) (not8 (wrapU 8 (Z.shiftl 255 (pos mod 8)))))
    as (b2 & E2 & L2 & B2).
  { pose proof (Z.div_pos pos 8). lia. }
  { rewrite L1. apply (room_lt _ _ 1); [lia..|done]. }
  exists b2. unfold set8. rewrite E1. cbn. split; [done|]. split; [congruence|]. intros q Hq.
  rewrite B2, B1, not_mask by (done || apply Z.mod_pos_bound; lia).
  pose proof (Hz q). bit_arith; rewrite H by lia; done.
Qed.

Lemma set16_marks bits pos :
  0 ≤ pos → room bits pos 2 → zero_from bits pos →
  ∃ bits', set16 bits pos = Ret bits' ∧ marks bits pos 16 bits'.
Proof.
  intros Hp Hr Hz. pose proof (Z.mod_pos_bound pos 8 ltac:(lia)) as Hm.
  pose proof (Z.div_pos pos 8) as Hd.
  destruct (or_at_marks bits pos 16 (wrapU 8 (Z.shiftl 255 (pos mod 8))) Hp) as (b1 & E1 & L1 & B1).
  { apply (room_lt _ _ _ 0) in Hr; [|lia..]. by rewrite Z.add_0_r in Hr. }
  { intros j Hj. rewrite first_mask by done. bit_arith. }
  destruct (store_at_bits b1 (pos / 8 + 1) 255) as (b2 & E2 & L2 & B2); [lia| |].
  { rewrite L1. apply (room_lt _ _ 2); [lia..|done]. }
  destruct (store_at_bits b2 (pos / 8 + 2) (not8 (wrapU 8 (Z.shiftl 255 (pos mod 8)))))
    as (b3 & E3 & L3 & B3); [lia| |].
  { rewrite L2, L1. apply (room_lt _ _ 2); [lia..|done]. }
  exists b3. unfold set16. rewrite E1. cbn. rewrite E2. cbn. split; [done|]. split; [congruence|].
  intros q Hq. rewrite B3, B2, B1, not_mask, bit255 by (done || apply Z.mod_pos_bound; lia).
  pose proof (Hz q). bit_arith; rewrite H by lia; done.
Qed.

(** ** Loops *)

Lemma set_loop_marks fuel step set bits pos N :
  0 < step → 0 ≤ N < Z.of_nat fuel * step → 0 ≤ pos → zero_from bits pos →
  (∀ bits1 p, length bits1 = length bits → pos ≤ p → p + step ≤ pos + N → zero_from bits1 p →
     ∃ bits', set bits1 p = Ret bits' ∧ marks bits1 p step bits') →
  ∃ bits' m, set_loop fuel step set bits pos N = Some (Ret (bits', pos + m, N - m)) ∧
    marks bits pos m bits' ∧ 0 ≤ m ≤ N ∧ N - m < step ∧ (step | m).
Proof.
  intros Hs. revert bits pos N. induction fuel as [|fuel IH]; intros bits pos N HN Hp Hz Hset; [lia|].
  cbn [set_loop]. destruct (Z.leb_spec step N) as [Hle|Hgt].
  - destruct (Hset bits pos) as (b1 & E1 & M1); [done|lia|lia|done|]. rewrite E1. cbn [run_bind].
    destruct (IH b1 (pos + step) (N - step)) as (b2 & m & E2 & M2 & Hm & Hlt & Hdiv).
    + rewrite Nat2Z.inj_succ in HN. lia.
    + lia.
    + eapply marks_zero; [| |exact Hz|exact M1]; lia.
    + intros b' p Hl Hp1 Hp2 Hz'. apply Hset; [by rewrite Hl; apply M1|lia|lia|done].
    + exists b2, (step + m). split; [by rewrite E2, Z.add_assoc, Z.sub_add_distr|].
      split; [eapply marks_trans; [lia..|exact M1|done]|].
      split; [lia|]. split; [lia|]. apply Z.divide_add_r; [done|done].
  - exists bits, 0. split; [by rewrite Z.add_0_r, Z.sub_0_r|]. split; [apply marks_refl|].
    split; [lia|]. split; [lia|]. by exists 0.
Qed.

Lemma set_rest_marks bits pos n :
  0 ≤ pos → 0 ≤ n < 8 → (n ≠ 0 → room bits pos 1) → zero_from bits pos →
  ∃ bits', set_rest bits pos n = Ret (bits', pos + n) ∧ marks bits pos n bits'.
Proof.
  intros Hp Hn Hr Hz.
  assert (n = 0 ∨ n = 1 ∨ n = 2 ∨ n = 3 ∨ n = 4 ∨ n = 5 ∨ n = 6 ∨ n = 7) as Hn' by lia.
  destruct (decide (n = 0)) as [->|Hne].
  { exists bits. rewrite Z.add_0_r. split; [done|apply marks_refl]. }
  specialize (Hr Hne). assert (room bits pos 0) as Hr0 by (unfold room in *; lia).
  destruct (decide (n = 1)) as [->|Hne1].
  { destruct (set1_marks bits pos Hp Hr0) as (b & E & M). exists b. cbn. by rewrite E. }
  destruct (setN_marks bits pos n Hp ltac:(lia) Hr Hz) as (b & E & M). exists b. split; [|done].
  destruct_or! Hn'; subst; try done; change (Z.ones _) with
    set2BitsMask in E || change (Z.ones _) with set3BitsMask in E ||
    change (Z.ones _) with set4BitsMask in E || change (Z.ones _) with set5BitsMask in E ||
    change (Z.ones _) with set6BitsMask in E || change (Z.ones _) with set7BitsMask in E;
    cbn; by rewrite E.
Qed.

Lemma mark_push_marks bits pos N :
  0 ≤ pos → 1 ≤ N ≤ 32 → room bits pos 4 → zero_from bits pos →
  ∃ bits', mark_push bits pos N = Some (Ret (bits', pos + N)) ∧ marks bits pos N bits'.
Proof.
  intros Hp HN Hr Hz. unfold mark_push.
  assert (∀ b p k i, length b = length bits → pos ≤ p ≤ pos + 8 * i → i + k ≤ 4 → room b p k) as Hroom.
  { unfold room in *. intros b p k i -> Hpi Hik.
    assert (p / 8 ≤ pos / 8 + i); [|lia]. rewrite <- Z.div_add by lia. apply Z.div_le_mono; lia. }
  destruct (Z.leb_spec 8 N) as [H8|H8].
  - destruct (set_loop_marks 4 16 set16 bits pos N) as (b1 & m1 & E1 & M1 & Hm1 & Hr1 & D1);
      [lia|lia|done|done| |].
    { intros b p Hl Hp1 Hp2 Hz'. apply set16_marks; [lia| |done]. apply (Hroom _ _ _ 2); [done|lia..]. }
    rewrite E1. cbn [run_bind].
    assert (zero_from b1 (pos + m1)) as Hz1 by (eapply marks_zero; [..|exact M1]; [lia..|done]).
    destruct (set_loop_marks 4 8 set8 b1 (pos + m1) (N - m1)) as (b2 & m2 & E2 & M2 & Hm2 & Hr2 & D2);
      [lia|lia|lia|done| |].
    { intros b p Hl Hp1 Hp2 Hz'. destruct M1 as [L1 _].
      apply set8_marks; [lia| |done]. apply (Hroom _ _ _ 3); [congruence|lia..]. }
    rewrite E2. cbn [run_bind].
    assert (zero_from b2 (pos + m1 + m2)) as Hz2 by (eapply marks_zero; [..|exact M2]; [lia..|done]).
    destruct (set_rest_marks b2 (pos + m1 + m2) (N - m1 - m2)) as (b3 & E3 & M3); [lia|lia| |done|].
    { destruct M1 as [L1 _], M2 as [L2 _]. intros Hrest. apply (Hroom _ _ _ 3); [congruence| |lia].
      destruct D1 as [c1 ->], D2 as [c2 ->]. lia. }
    rewrite E3. exists b3. split; [by replace (pos + m1 + m2 + (N - m1 - m2)) with (pos + N) by lia|].
    assert (marks bits pos (m1 + m2) b2) as M12 by (eapply marks_trans; [lia..|exact M1|exact M2]).
    rewrite <- Z.add_assoc in M3. replace N with (m1 + m2 + (N - m1 - m2)) by lia.
    eapply marks_trans; [lia..|exact M12|exact M3].
  - cbn [run_bind]. destruct (set_rest_marks bits pos N) as (b3 & E3 & M3); [lia|lia| |done|].
    { intros _. apply (Hroom _ _ _ 3); [done|lia..]. }
    rewrite E3. by exists b3.
Qed.

(** ** The walk over the instructions *)

Lemma push_size_range op : 0 ≤ push_size op ≤ 32.
Proof.
  unfold push_size, PUSH1, PUSH32.
  destruct (Z.ltb_spec op 96), (Z.ltb_spec 127 op); simpl; lia.
Qed.

Lemma opcode_at_nonneg code pos : opcode_at code pos → 0 ≤ pos.
Proof. induction 1 as [|pos op _ IH _]; [done|]. pose proof (push_size_range op). lia. Qed.

(** No instruction starts inside another. *)
Lemma opcode_at_apart code p q op :
  opcode_at code p → opcode_at code q → p < q → code !! Z.to_nat p = Some op →
  p + 1 + push_size op ≤ q.
Proof.
  intros Hp Hq. remember (Z.to_nat (p + q)) as n eqn:Hn. revert p q op Hp Hq Hn.
  induction (lt_wf n) as [n _ IH]; intros p q op Hp Hq Hn Hlt Hop.
  inversion Hq as [|q' op' Hq' Hop']; subst q; [apply opcode_at_nonneg in Hp; lia|].
  pose proof (push_size_range op'). pose proof (opcode_at_nonneg _ _ Hp).
  pose proof (opcode_at_nonneg _ _ Hq').
  destruct (Z.lt_trichotomy p q') as [Hc|[->|Hc]].
  - enough (p + 1 + push_size op ≤ q') by lia. eapply (IH (Z.to_nat (p + q'))); eauto; lia.
  - assert (op' = op) as -> by congruence. done.
  - enough (q' + 1 + push_size op' ≤ p) by lia. eapply (IH (Z.to_nat (q' + p))); eauto; lia.
Qed.

(** The vector is right below [pc] and empty from there on. *)
Definition marked_to (code : bytes) (bits : bitvec) (pc : Z) : Prop :=
  length bits = (length code / 8 + 1 + 4)%nat ∧ opcode_at code pc ∧ zero_from bits pc ∧
  ∀ q, 0 ≤ q < pc → bit bits q = false ↔ opcode_at code q.

Lemma marked_step code bits bits' pc op :
  marked_to code bits pc → code !! Z.to_nat pc = Some op →
  marks bits (pc + 1) (push_size op) bits' → marked_to code bits' (pc + 1 + push_size op).
Proof.
  intros (Hl & Hat & Hz & Hq) Hop M. pose proof (opcode_at_nonneg _ _ Hat) as Hpc.
  pose proof (push_size_range op) as Hps.
  assert (zero_from bits (pc + 1)) as Hz1 by (intros q Hq'; apply Hz; lia).
  split; [by destruct M; congruence|]. split; [by apply opcode_next|].
  split; [by eapply marks_zero; [| |exact Hz1|exact M]; lia|].
  intros q Hq'. destruct M as [_ M]. rewrite M by lia.
  destruct (Z.lt_trichotomy q pc) as [Hc|[->|Hc]].
  - rewrite <- Hq by lia. destruct (bit bits q); bit_arith.
  - rewrite Hz by lia. bit_arith.
  - rewrite Hz by lia. simpl. split.
    + bit_arith.
    + intros Hat'. pose proof (opcode_at_apart _ _ _ _ Hat Hat' Hc Hop). lia.
Qed.

Lemma bitmap_loop_spec fuel code bits pc :
  marked_to code bits pc → (0 < fuel)%nat → Z.of_nat (length code) < pc + Z.of_nat fuel →
  ∃ bits' pc', bitmap_loop fuel code bits pc = Some (Ret bits') ∧
    marked_to code bits' pc' ∧ Z.of_nat (length code) ≤ pc'.
Proof.
  revert bits pc. induction fuel as [|fuel IH]; intros bits pc Hm H0 Hf; [lia|].
  pose proof (opcode_at_nonneg _ _ (proj1 (proj2 Hm))) as Hpc.
  cbn [bitmap_loop]. destruct (code !! Z.to_nat pc) as [op|] eqn:Hop.
  - pose proof (push_size_range op) as Hps. apply lookup_lt_Some in Hop as Hlt.
    destruct ((op <? PUSH1) || (PUSH32 <? op)) eqn:Hpush.
    + assert (push_size op = 0) as Hs by (unfold push_size; by rewrite Hpush).
      apply IH; [|lia..]. replace (pc + 1) with (pc + 1 + push_size op) by lia.
      eapply marked_step; eauto. rewrite Hs. apply marks_refl.
    + assert (push_size op = op - PUSH1 + 1) as Hs by (unfold push_size; by rewrite Hpush).
      rewrite <- Hs. apply orb_false_iff in Hpush as [H1%Z.ltb_ge H2%Z.ltb_ge].
      destruct Hm as (Hl & Hat & Hz & Hq).
      destruct (mark_push_marks bits (pc + 1) (push_size op)) as (b1 & E1 & M1).
      * lia.
      * unfold PUSH1 in *. lia.
      * unfold room. rewrite Hl, !Nat2Z.inj_add, Nat2Z.inj_div.
        assert ((pc + 1) / 8 ≤ Z.of_nat (length code) / 8) by (apply Z.div_le_mono; lia). simpl. lia.
      * intros q Hq'. apply Hz. lia.
      * rewrite E1. cbn [run_bind]. apply IH; [|lia..]. by eapply marked_step.
  - exists bits, pc. split; [done|]. split; [done|]. apply lookup_ge_None in Hop. lia.
Qed.

Lemma land_1 x : Z.land x 1 = Z.b2z (Z.testbit x 0).
Proof. change (Z.land x 1) with (Z.land x (Z.ones 1)). by rewrite Z.land_ones, Z.bit0_mod by lia. Qed.

(** [codeBitmap] always returns; its vector marks exactly the bytes of the code
    at which no instruction starts. *)
Lemma codeBitmap_spec code :
  ∃ bits, codeBitmap code = Some (Ret bits) ∧
    ∀ pos, 0 ≤ pos < Z.of_nat (length code) →
      ∃ b, codeSegment bits pos = Ret b ∧ (b = true ↔ opcode_at code pos).
Proof.
  destruct (bitmap_loop_spec (S (length code)) code (replicate (length code / 8 + 1 + 4) 0) 0)
    as (bits & pc & E & (Hl & _ & _ & Hq) & Hpc); [|lia..|].
  - split; [by rewrite length_replicate|]. split; [constructor|]. split; [|lia].
    intros q _. unfold bit. destruct (_ !! _) as [y|] eqn:Ey; [|done].
    apply lookup_replicate in Ey as [-> _]. apply Z.testbit_0_l.
  - exists bits. split; [done|]. intros pos Hpos. specialize (Hq pos ltac:(lia)).
    unfold bit in Hq. unfold codeSegment, index.
    assert (Z.to_nat (pos / 8) < length bits)%nat as Hlt.
    { rewrite Hl. assert (pos / 8 ≤ Z.of_nat (length code) / 8) by (apply Z.div_le_mono; lia).
      pose proof (Z.div_pos pos 8). rewrite <- (Nat2Z.inj_div _ 8) in H. lia. }
    destruct (lookup_lt_is_Some_2 bits _ Hlt) as [y Hy]. rewrite Hy in Hq |- *. cbn. eexists. split; [done|].
    rewrite <- Hq, land_1, Z.shiftr_spec by lia. by destruct (Z.testbit _ _).
Qed.

(** * Jump destinations, memory sizes and their gas *)

(** ** Jump destinations

    The caches of a contract are coherent if they hold the bitmap of its code. *)
Definition coherent (m : JumpMaps) (c : Contract) : Prop :=
  (∀ a, analysis c = Some a → codeBitmap (Code c) = Some (Ret a)) ∧
  (CodeHash c ≠ 0 → ∃ known, m !! jumpdests c = Some known ∧
     ∀ a, known !! CodeHash c = Some a → codeBitmap (Code c) = Some (Ret a)).

(** An instruction starts at [dest], and it is a JUMPDEST. *)
Definition is_jumpdest (code : bytes) (dest : Z) : Prop :=
  code !! Z.to_nat dest = Some JUMPDEST ∧ opcode_at code dest.

Lemma codeBitmap_segment code a pos :
  codeBitmap code = Some (Ret a) → 0 ≤ pos < len code →
  ∃ b, codeSegment a pos = Ret b ∧ (b = true ↔ opcode_at code pos).
Proof.
  intros Ha Hpos. destruct (codeBitmap_spec code) as (a' & Ha' & Hb).
  rewrite Ha in Ha'. injection Ha' as <-. by apply Hb.
Qed.

Lemma isCode_spec m c pos :
  coherent m c → 0 ≤ pos < len (Code c) →
  ∃ m' c' b, isCode m c pos = Done (m', c', b) ∧ (b = true ↔ opcode_at (Code c) pos) ∧
    coherent m' c' ∧ (∃ a, c' = set_analysis c a).
Proof.
  intros [Ha Hk] Hpos. unfold isCode. destruct (analysis c) as [a|] eqn:Ea.
  { destruct (codeBitmap_segment (Code c) a pos) as (b & Hb & Hiff); [by apply Ha|done|].
    exists m, c, b. rewrite Hb. cbn. split; [done|]. split; [done|]. split.
    - split; [rewrite Ea; exact Ha|exact Hk].
    - exists (Some a). destruct c; cbn in *. by subst. }
  destruct (codeBitmap_spec (Code c)) as (a0 & Ha0 & _).
  destruct (codeBitmap_segment (Code c) a0 pos Ha0 Hpos) as (b & Hb & Hiff).
  destruct (Z.eqb_spec (CodeHash c) 0) as [Hz|Hnz].
  { cbn [negb]. rewrite Ha0. cbn. rewrite Hb. cbn.
    exists m, (set_analysis c (Some a0)), b. split; [done|]. split; [done|]. split; [|by eexists].
    split; [by intros a [= <-]|done]. }
  destruct (Hk Hnz) as (known & Hm & Hknown). cbn [negb]. rewrite Hm.
  destruct (known !! CodeHash c) as [a|] eqn:Ec.
  - rewrite (Hknown a eq_refl) in Ha0. injection Ha0 as ->. cbn. rewrite Hb. cbn.
    exists m, (set_analysis c (Some a0)), b. split; [done|]. split; [done|]. split; [|by eexists].
    split; [|done]. intros a [= <-]. by apply Hknown.
  - rewrite Ha0. cbn. rewrite Hb. cbn. do 3 eexists. split; [done|]. split; [done|]. split; [|by eexists].
    split; [by intros a [= <-]|]. intros _. eexists. split.
    + apply list_lookup_insert_eq. by eapply lookup_lt_Some.
    + intros a. cbn. rewrite lookup_insert_eq. by intros [= <-].
Qed.

Lemma coherent_set_analysis m c a :
  coherent m c → codeBitmap (Code c) = Some (Ret a) → coherent m (set_analysis c (Some a)).
Proof. intros [_ Hk] Ha. split; [by intros ? [= <-]|done]. Qed.

Section sizes.
Context `{U : Uint256} `{!Uint256Laws U}.

Lemma validJumpdest_spec m c dest :
  coherent m c → is_word dest → len (Code c) < 2 ^ 64 →
  ∃ m' c' b, validJumpdest m c dest = Done (m', c', b) ∧ (b = true ↔ is_jumpdest (Code c) dest) ∧
    coherent m' c' ∧ (∃ a, c' = set_analysis c a).
Proof.
  intros Hco Hd Hlen. unfold validJumpdest. rewrite Uint64WithOverflow_spec by done.
  assert (∃ a, c = set_analysis c a) as Hself by (exists (analysis c); by destruct c).
  unfold is_word in Hd.
  destruct (Z.leb_spec (2 ^ 64) dest) as [Hov|Hov]; cbn [orb].
  { exists m, c, false. split; [done|]. split; [|done]. split; [done|]. intros [Hl _].
    apply lookup_lt_Some in Hl. unfold len in Hlen. lia. }
  rewrite Z.mod_small by lia.
  destruct (Z.leb_spec (len (Code c)) dest) as [Hge|Hlt].
  { exists m, c, false. split; [done|]. split; [|done]. split; [done|]. intros [Hl _].
    apply lookup_lt_Some in Hl. unfold len in Hge. lia. }
  destruct (lookup_lt_is_Some_2 (Code c) (Z.to_nat dest)) as [op Hop]; [unfold len in Hlt; lia|].
  rewrite Hop. change (default 0 (Some op)) with op. destruct (Z.eqb_spec op JUMPDEST) as [->|Hne]; cbn [negb].
  - destruct (isCode_spec m c dest Hco) as (m' & c' & b & E & Hiff & Hco' & Ha); [lia|].
    exists m', c', b. split; [done|]. split; [|done]. unfold is_jumpdest. rewrite Hiff, Hop. naive_solver.
  - exists m, c, false. split; [done|]. split; [|done]. split; [done|]. intros [Hl _]. congruence.
Qed.

(** ** Memory sizes *)

Lemma calcMemSize64_spec off l :
  is_word off → is_word l →
  calcMemSize64 off l =
    if l =? 0 then (0, false)
    else if (off <? 2 ^ 64) && (l <? 2 ^ 64) && (off + l <? 2 ^ 64) then (off + l, false)
    else (fst (calcMemSize64 off l), true).
Proof.
  unfold is_word. intros Ho Hl. unfold calcMemSize64. rewrite IsUint64_spec by done.
  destruct (Z.ltb_spec l (2 ^ 64)) as [Hs|Hs]; cbn [negb].
  2:{ rewrite andb_false_r. by destruct (Z.eqb_spec l 0); [lia|]. }
  rewrite Uint64_spec, Z.mod_small by (done || lia). unfold calcMemSize64WithUint.
  destruct (Z.eqb_spec l 0) as [|Hne]; [done|].
  rewrite Uint64WithOverflow_spec by done.
  destruct (Z.leb_spec (2 ^ 64) off) as [Hov|Hov], (Z.ltb_spec off (2 ^ 64)); try lia; [done|].
  rewrite (Z.mod_small off) by lia. cbn [andb fst]. unfold wrapU.
  destruct (Z.ltb_spec (off + l) (2 ^ 64)) as [Hf|Hf].
  - rewrite Z.mod_small by lia. f_equal. apply Z.ltb_ge. lia.
  - f_equal. apply Z.ltb_lt. rewrite (Z.mod_eq _ (2 ^ 64)) by lia.
    assert ((off + l) / 2 ^ 64 = 1) as ->; [|lia].
    symmetry. apply (Z.div_unique _ _ _ (off + l - 2 ^ 64)); lia.
Qed.

Lemma toWordSize_spec n : 0 ≤ n ≤ MaxUint64 → toWordSize n = (n + 31) / 32.
Proof.
  unfold toWordSize, MaxUint64. intros Hn. destruct (Z.ltb_spec (2 ^ 64 - 1 - 31) n) as [Hl|]; [|done].
  change ((2 ^ 64 - 1) / 32) with (2 ^ 59 - 1). apply (Z.div_unique _ _ _ (n + 31 - 2 ^ 64)); lia.
Qed.

(** The cost of [w] words of memory. *)
Definition words_cost (w : Z) : Z := w * MemoryGas + w * w / QuadCoeffDiv.

(** The size of the memory is a number of words, whose cost was charged. *)
Definition mem_ok (m : Memory) (w : Z) : Prop :=
  0 ≤ w < 2 ^ 32 ∧ len (store m) = 32 * w ∧ lastGasCost m = words_cost w.

Lemma words_cost_bound w : 0 ≤ w < 2 ^ 32 → 0 ≤ words_cost w < 2 ^ 56.
Proof.
  unfold words_cost, MemoryGas, QuadCoeffDiv. intros Hw.
  assert (0 ≤ w * w < 2 ^ 64) by nia.
  assert (0 ≤ w * w / 512 < 2 ^ 55); [|lia].
  split; [apply Z.div_pos; lia|]. apply Z.div_lt_upper_bound; lia.
Qed.

Lemma words_cost_mono w w' : 0 ≤ w ≤ w' → words_cost w ≤ words_cost w'.
Proof.
  unfold words_cost, MemoryGas, QuadCoeffDiv. intros Hw.
  assert (w * w / 512 ≤ w' * w' / 512); [|lia]. apply Z.div_le_mono; nia.
Qed.

Lemma NewMemory_ok : mem_ok NewMemory 0.
Proof. done. Qed.

Lemma memoryGasCost_spec m w k :
  mem_ok m w → 0 ≤ k →
  memoryGasCost m (32 * k) =
    if k <? 2 ^ 32 then
      ({| store := store m; lastGasCost := words_cost (Z.max w k) |}, inr (words_cost (Z.max w k) - words_cost w))
    else (m, inl ErrGasUintOverflow).
Proof.
  intros (Hw & Hlen & Hlast) Hk. unfold memoryGasCost.
  assert (m = {| store := store m; lastGasCost := words_cost w |}) as Hm by (destruct m; cbn in *; by subst).
  destruct (Z.eqb_spec (32 * k) 0) as [Hz|Hnz].
  { replace k with 0 by lia. rewrite Z.max_l by lia. cbn. by rewrite Z.sub_diag, <- Hm. }
  destruct (Z.ltb_spec 0x1FFFFFFFE0 (32 * k)) as [Hbig|Hsmall].
  { destruct (Z.ltb_spec k (2 ^ 32)); [lia|done]. }
  destruct (Z.ltb_spec k (2 ^ 32)); [|lia].
  rewrite toWordSize_spec by (unfold MaxUint64; lia).
  assert ((32 * k + 31) / 32 = k) as -> by (symmetry; apply (Z.div_unique _ _ _ 31); lia).
  unfold mem_Len. rewrite Hlen, (wrapU_small 64 (k * 32)) by lia.
  destruct (Z.ltb_spec (32 * w) (k * 32)) as [Hgrow|Hno].
  - rewrite Z.max_r by lia.
    assert (k * k < 2 ^ 64) by nia.
    rewrite (wrapU_small 64 (k * k)), (wrapU_small 64 (k * MemoryGas)) by (unfold MemoryGas; nia).
    fold (words_cost k). pose proof (words_cost_bound k ltac:(lia)). pose proof (words_cost_bound w Hw).
    pose proof (words_cost_mono w k ltac:(lia)).
    rewrite (wrapU_small 64 (words_cost k)) by lia. by rewrite Hlast, wrapU_small by lia.
  - rewrite Z.max_l by lia. by rewrite Z.sub_diag, <- Hm.
Qed.

Lemma len_zeros n : 0 ≤ n → len (zeros n) = n.
Proof. intros. unfold len, zeros. rewrite length_replicate. lia. Qed.

Lemma len_app b1 b2 : len (b1 ++ b2) = len b1 + len b2.
Proof. unfold len. rewrite length_app. lia. Qed.

(** Charging and then resizing keeps the memory well formed. *)
Lemma Resize_ok m w k :
  mem_ok m w → 0 ≤ k < 2 ^ 32 →
  mem_ok (Resize {| store := store m; lastGasCost := words_cost (Z.max w k) |} (32 * k)) (Z.max w k).
Proof.
  intros (Hw & Hlen & Hlast) Hk. unfold Resize. cbn [store lastGasCost]. rewrite Hlen.
  destruct (Z.ltb_spec (32 * w) (32 * k)) as [Hgrow|Hno].
  - rewrite Z.max_r by lia. split; [done|]. split; [|done]. cbn [store].
    rewrite len_app, len_zeros by lia. lia.
  - rewrite Z.max_l by lia. done.
Qed.

(** ** The gas passed to a callee *)

Definition all_but_64th (g : Z) : Z := g - g / 64.

Lemma callGas_spec available base cost :
  0 ≤ base ≤ available → available < 2 ^ 64 → is_word cost →
  callGas true available base cost = inr (Z.min cost (all_but_64th (available - base))).
Proof.
  intros Hb Ha Hc. unfold callGas. rewrite wrapU_small by lia. fold (all_but_64th (available - base)).
  set (g := all_but_64th (available - base)).
  assert (0 ≤ g < 2 ^ 64) as Hg.
  { unfold g, all_but_64th. pose proof (Z.div_pos (available - base) 64).
    assert ((available - base) / 64 ≤ available - base) by (apply Z.div_le_upper_bound; lia). lia. }
  rewrite IsUint64_spec by done. unfold is_word in Hc.
  destruct (Z.ltb_spec cost (2 ^ 64)) as [Hs|Hs]; cbn [negb andb orb].
  - rewrite Uint64_spec, Z.mod_small by (done || lia).
    destruct (Z.ltb_spec g cost); f_equal; lia.
  - f_equal. lia.
Qed.

(** ** Reading past the end of data *)

Lemma getData_spec data start size :
  0 ≤ start → 0 ≤ size < 2 ^ 63 → len data + size < 2 ^ 64 →
  getData data start size =
    Ret (take (Z.to_nat size) (drop (Z.to_nat start) data) ++
         zeros (size - Z.min size (len data - Z.min start (len data)))).
Proof.
  intros Hst Hsz Hlen. unfold getData.
  set (start' := if len data <? start then len data else start).
  assert (start' = Z.min start (len data)) as Es.
  { unfold start'. destruct (Z.ltb_spec (len data) start); lia. }
  assert (drop (Z.to_nat start) data = drop (Z.to_nat start') data) as Hd.
  { rewrite Es. destruct (Z.le_gt_cases start (len data)) as [Hle|Hgt].
    - by rewrite Z.min_l by lia.
    - rewrite Z.min_r by lia. unfold len in *. rewrite !drop_ge by lia. done. }
  assert (0 ≤ start' ≤ len data) as Hs' by (rewrite Es; unfold len in *; lia).
  rewrite Hd, <- Es. clearbody start'. rewrite wrapU_small by lia.
  set (end' := if len data <? start' + size then len data else start' + size).
  assert (end' = Z.min (start' + size) (len data)) as Ee.
  { unfold end'. destruct (Z.ltb_spec (len data) (start' + size)); lia. }
  unfold subslice. rewrite (proj2 (Z.leb_le 0 start')), (proj2 (Z.leb_le start' end')),
    (proj2 (Z.leb_le end' (len data))) by lia. cbn [andb mbind Go_bind].
  rewrite wrapS_small by lia. f_equal. unfold RightPadBytes. rewrite length_take, length_drop.
  assert (take (Z.to_nat (end' - start')) (drop (Z.to_nat start') data)
          = take (Z.to_nat size) (drop (Z.to_nat start') data)) as ->.
  { destruct (Z.le_gt_cases (start' + size) (len data)).
    - f_equal. lia.
    - rewrite !take_ge by (rewrite length_drop; unfold len in *; lia). done. }
  unfold zeros, len in *.
  destruct (Z.leb_spec size (Z.of_nat (Z.to_nat (end' - start') `min` (length data - Z.to_nat start')))).
  - replace (Z.to_nat (size - _)) with 0%nat by lia. by rewrite app_nil_r.
  - do 2 f_equal. lia.
Qed.
End sizes.
