(* ===== verification/DemoState.v ===== *)
(** * An in-memory state and a small world, for examples

    [MemState] implements the [StateDB] interface by copying the state at every
    snapshot.  It is used to evaluate the model on concrete programs; no theorem
    about the virtual machine depends on it. *)

From S2P Require Import Prelude Common Params Uint256 Machine Tx Vm.
From S2P Require Import Evm Interpreter Gas Instructions JumpTable.

Record Account := { acc_balance : Z; acc_nonce : Z; acc_code : bytes }.
Definition no_account : Account := {| acc_balance := 0; acc_nonce := 0; acc_code := [] |}.

Record Core := {
  accounts : gmap Address Account;
  slots : gmap (Address * Hash) Hash;
  committed : gmap (Address * Hash) Hash;
  refund : Z;
  warm : gset Address;
  warm_slots : gset (Address * Hash);
  suicided : gset Address;
  logs : list Log
}.

Record MemState := { now : Core; snapshots : list Core }.

Definition set_accounts (a : gmap Address Account) (s : MemState) : MemState :=
  {| now := {| accounts := a; slots := slots (now s); committed := committed (now s); refund := refund (now s);
               warm := warm (now s); warm_slots := warm_slots (now s); suicided := suicided (now s);
               logs := logs (now s) |}; snapshots := snapshots s |}.
Definition set_slots (x : gmap (Address * Hash) Hash) (s : MemState) : MemState :=
  {| now := {| accounts := accounts (now s); slots := x; committed := committed (now s); refund := refund (now s);
               warm := warm (now s); warm_slots := warm_slots (now s); suicided := suicided (now s);
               logs := logs (now s) |}; snapshots := snapshots s |}.
Definition set_refund (x : Z) (s : MemState) : MemState :=
  {| now := {| accounts := accounts (now s); slots := slots (now s); committed := committed (now s); refund := x;
               warm := warm (now s); warm_slots := warm_slots (now s); suicided := suicided (now s);
               logs := logs (now s) |}; snapshots := snapshots s |}.
Definition set_warm (x : gset Address) (y : gset (Address * Hash)) (s : MemState) : MemState :=
  {| now := {| accounts := accounts (now s); slots := slots (now s); committed := committed (now s);
               refund := refund (now s); warm := x; warm_slots := y; suicided := suicided (now s);
               logs := logs (now s) |}; snapshots := snapshots s |}.
Definition set_suicided (x : gset Address) (s : MemState) : MemState :=
  {| now := {| accounts := accounts (now s); slots := slots (now s); committed := committed (now s);
               refund := refund (now s); warm := warm (now s); warm_slots := warm_slots (now s); suicided := x;
               logs := logs (now s) |}; snapshots := snapshots s |}.
Definition set_logs (x : list Log) (s : MemState) : MemState :=
  {| now := {| accounts := accounts (now s); slots := slots (now s); committed := committed (now s);
               refund := refund (now s); warm := warm (now s); warm_slots := warm_slots (now s);
               suicided := suicided (now s); logs := x |}; snapshots := snapshots s |}.

Definition account (s : MemState) (a : Address) : Account := default no_account (accounts (now s) !! a).
Definition update (a : Address) (f : Account → Account) (s : MemState) : MemState :=
  set_accounts (<[a := f (account s a)]> (accounts (now s))) s.
Definition add_balance (x : Z) (a : Account) : Account :=
  {| acc_balance := acc_balance a + x; acc_nonce := acc_nonce a; acc_code := acc_code a |}.
Definition with_code (c : bytes) (a : Account) : Account :=
  {| acc_balance := acc_balance a; acc_nonce := acc_nonce a; acc_code := c |}.
Definition with_nonce (n : Z) (a : Account) : Account :=
  {| acc_balance := acc_balance a; acc_nonce := n; acc_code := acc_code a |}.

(** A stand-in for Keccak: injective on short inputs, which the examples use. *)
#[export] Instance demo_externals : Externals := {|
  Keccak256 b := to_be 32 (be_val (1 :: b));
  PrecompiledContractsHomestead := ∅;
  PrecompiledContractsByzantium := ∅;
  PrecompiledContractsIstanbul := ∅;
  PrecompiledContractsBerlin := ∅
|}.

#[export] Instance mem_statedb : StateDB MemState := {|
  CreateAccount a s := update a (λ acc, {| acc_balance := acc_balance acc; acc_nonce := 0; acc_code := [] |}) s;
  SubBalance a x s := update a (add_balance (- x)) s;
  AddBalance a x s := update a (add_balance x) s;
  GetBalance s a := acc_balance (account s a);
  GetNonce s a := acc_nonce (account s a);
  SetNonce a n s := update a (with_nonce n) s;
  GetCodeHash s a := if decide (is_Some (accounts (now s) !! a)) then Keccak256Hash (acc_code (account s a)) else 0;
  GetCode s a := acc_code (account s a);
  SetCode a c s := update a (with_code c) s;
  GetCodeSize s a := len (acc_code (account s a));
  AddRefund g s := set_refund (refund (now s) + g) s;
  SubRefund g s := if refund (now s) <? g then Panic ExplicitPanic else Ret (set_refund (refund (now s) - g) s);
  GetRefund s := refund (now s);
  GetCommittedState s a k := default 0 (committed (now s) !! (a, k));
  GetState s a k := default 0 (slots (now s) !! (a, k));
  SetState a k v s := set_slots (<[(a, k) := v]> (slots (now s))) s;
  Suicide a s := (set_suicided ({[a]} ∪ suicided (now s)) (update a (λ acc, add_balance (- acc_balance acc) acc) s), true);
  HasSuicided s a := bool_decide (a ∈ suicided (now s));
  Exist s a := bool_decide (is_Some (accounts (now s) !! a));
  Empty s a := (acc_balance (account s a) =? 0) && (acc_nonce (account s a) =? 0) && (len (acc_code (account s a)) =? 0);
  AddressInAccessList s a := bool_decide (a ∈ warm (now s));
  SlotInAccessList s a k := (bool_decide (a ∈ warm (now s)), bool_decide ((a, k) ∈ warm_slots (now s)));
  AddAddressToAccessList a s := set_warm ({[a]} ∪ warm (now s)) (warm_slots (now s)) s;
  AddSlotToAccessList a k s := set_warm ({[a]} ∪ warm (now s)) ({[(a, k)]} ∪ warm_slots (now s)) s;
  RevertToSnapshot n s :=
    match snapshots s !! Z.to_nat n with
    | Some c => Ret {| now := c; snapshots := take (Z.to_nat n) (snapshots s) |}
    | None => Panic ExplicitPanic
    end;
  Snapshot s := ({| now := now s; snapshots := snapshots s ++ [now s] |}, Z.of_nat (length (snapshots s)));
  AddLog l s := set_logs (logs (now s) ++ [l]) s;
  AddLogSu l s :=
    let l := {| log_Address := log_Address l; log_Topics := log_Topics l; log_Data := log_Data l;
                log_BlockNumber := log_BlockNumber l; log_TxHash := log_TxHash l; log_TxIndex := log_TxIndex l;
                log_BlockHash := log_BlockHash l; log_Index := Z.of_nat (length (logs (now s))) |} in
    (set_logs (logs (now s) ++ [l]) s, l);
  AddPreimage _ _ s := s
|}.

(** Two contracts under the London rules: [outer_addr] calls [inner_addr]. *)
Definition london : Rules :=
  {| ChainID := 1; IsHomestead := true; IsEIP150 := true; IsEIP155 := true; IsEIP158 := true; IsByzantium := true;
     IsConstantinople := true; IsPetersburg := true; IsIstanbul := true; IsBerlin := true; IsLondon := true |}.

Definition sender_addr : Address := 0x50.
Definition outer_addr : Address := 0xAA.
Definition inner_addr : Address := 0xBB.

Definition mk_state (outer inner : bytes) : MemState :=
  {| now := {| accounts := list_to_map
                 [(sender_addr, {| acc_balance := 1000; acc_nonce := 1; acc_code := [] |});
                  (outer_addr, {| acc_balance := 0; acc_nonce := 1; acc_code := outer |});
                  (inner_addr, {| acc_balance := 0; acc_nonce := 1; acc_code := inner |})];
               slots := ∅; committed := ∅; refund := 0; warm := {[sender_addr; outer_addr]}; warm_slots := ∅;
               suicided := ∅; logs := [] |};
     snapshots := [] |}.

Definition mk_evm (outer inner : bytes) : EVM MemState :=
  {| Context := {| GetHash := λ _, 0; Coinbase := 0; GasLimit := 30000000; BlockNumber := 100; Time := 0;
                   Difficulty := 0; BaseFee := 0 |};
     TxCtx := {| Origin := sender_addr; GasPrice := 0 |};
     statedb := mk_state outer inner;
     depth := 0; chainRules := london; abort := false; callGasTemp := 0;
     CallStack := []; ExTx := {| etx_BlockNumber := 100; etx_Timestamp := 0; etx_TxIndex := 0; etx_InTxs := [] |};
     readOnly := false; returnData := []; jumpmaps := []; block_hashes := ∅; hashes_asked := ∅ |}.

(** A transaction of 20000 gas from the sender to the outer contract. *)
Definition demo_run (levels : nat) (outer inner : bytes) :=
  Call (S := MemState) (Run levels (table (instruction_set london))) (AccountRef sender_addr) outer_addr [] 20000 0
    (mk_evm outer inner).

(** CALL or STATICCALL of the inner contract with 10000 gas, then STOP. *)
Definition call_inner : bytes := [0x60; 0; 0x60; 0; 0x60; 0; 0x60; 0; 0x60; 0; 0x60; 0xBB; 0x61; 0x27; 0x10; 0xF1; 0x00].
Definition static_inner : bytes := [0x60; 0; 0x60; 0; 0x60; 0; 0x60; 0; 0x60; 0xBB; 0x61; 0x27; 0x10; 0xFA; 0x00].

(** LOG0 of no data, then STOP or REVERT. *)
Definition log_stop : bytes := [0x60; 0; 0x60; 0; 0xA0; 0x00].
Definition log_revert : bytes := [0x60; 0; 0x60; 0; 0xA0; 0x60; 0; 0x60; 0; 0xFD].

(** The same world inside a pending call of the outer contract. *)
Definition demo_node : InternalTx := mkInternalTx sender_addr outer_addr true None "Call" [] [] [].
Definition nested_evm (outer inner : bytes) : EVM MemState := push_node (mk_evm outer inner) demo_node.
