(* ===== verification/GasFacts.v ===== *)
(** * Gas only decreases

    Triples over frames that follow the contract's gas, the charged memory and
    the environment, and exclude running out of fuel. *)

From S2P Require Import Prelude Common Params Uint256 VmFacts Machine Tx.
From S2P Require Import Vm Evm Interpreter Gas Instructions JumpTable RecorderFacts CallFacts.

(** ** The memory: no more was charged than the cost of its words *)

Definition charged (m : Memory) : Prop := 0 ≤ lastGasCost m ≤ words_cost (len (store m) / 32).
Definition resized (n : Z) (m : Memory) : Memory := if 0 <? n then Resize m n else m.

Lemma len_nonneg b : 0 ≤ len b.
Proof. unfold len. lia. Qed.

Lemma Resize_len m n : len (store (Resize m n)) = Z.max n (len (store m)).
Proof.
  unfold Resize. pose proof (len_nonneg (store m)). destruct (Z.ltb_spec (len (store m)) n); cbn [store].
  - rewrite len_app, len_zeros by lia. lia.
  - lia.
Qed.

Lemma Resize_last m n : lastGasCost (Resize m n) = lastGasCost m.
Proof. unfold Resize. by destruct (_ <? _). Qed.

Lemma charged_grow m m' :
  lastGasCost m' = lastGasCost m → len (store m) ≤ len (store m') → charged m → charged m'.
Proof.
  intros Hl Hs [H0 H1]. rewrite <- Hl in *. split; [lia|]. etrans; [exact H1|].
  apply words_cost_mono. pose proof (len_nonneg (store m)).
  split; [apply Z.div_pos; lia|apply Z.div_le_mono; lia].
Qed.

Lemma charged_resized n m : charged m → charged (resized n m).
Proof.
  intros Hm. unfold resized. destruct (0 <? n); [|done].
  eapply charged_grow; [apply Resize_last|rewrite Resize_len; lia|done].
Qed.

Lemma memoryGasCost_charged m n m' r :
  charged m → 0 ≤ n → (32 | n) → memoryGasCost m n = (m', r) →
  charged (resized n m') ∧ (∀ g, r = inr g → 0 ≤ g < 2 ^ 56).
Proof.
  intros Hm Hn [k Hk]. unfold memoryGasCost. destruct (Z.eqb_spec n 0) as [->|Hnz].
  { intros [= <- <-]. split; [by apply charged_resized|]. intros g [= <-]. lia. }
  destruct (Z.ltb_spec 0x1FFFFFFFE0 n) as [Hb|Hs].
  { intros [= <- <-]. split; [by apply charged_resized|]. done. }
  rewrite toWordSize_spec by (unfold MaxUint64; lia).
  assert ((n + 31) / 32 = k) as -> by (symmetry; apply (Z.div_unique _ _ _ 31); lia). rename k into w.
  rewrite (wrapU_small 64 (w * 32)) by lia. unfold mem_Len.
  destruct (Z.ltb_spec (len (store m)) (w * 32)) as [Hg|Hng].
  2:{ intros [= <- <-]. split; [by apply charged_resized|]. intros g [= <-]. lia. }
  assert (w * w < 2 ^ 64) by nia.
  rewrite (wrapU_small 64 (w * w)), (wrapU_small 64 (w * MemoryGas)) by (unfold MemoryGas; nia).
  fold (words_cost w). pose proof (words_cost_bound w ltac:(lia)) as Hc. rewrite (wrapU_small 64 (words_cost w)) by lia.
  destruct Hm as [Hm0 Hm1].
  assert (lastGasCost m ≤ words_cost w) as Hlast.
  { etrans; [exact Hm1|]. apply words_cost_mono. pose proof (len_nonneg (store m)).
    split; [apply Z.div_pos; lia|]. apply Z.div_le_upper_bound; lia. }
  intros [= <- <-]. split; [|intros g [= <-]; rewrite wrapU_small by lia; lia].
  unfold resized. rewrite (proj2 (Z.ltb_lt 0 n)) by lia.
  split; rewrite Resize_last; cbn [lastGasCost]; [lia|]. rewrite Resize_len. cbn [store].
  rewrite Z.max_l by lia. by rewrite Hk, Z.div_mul by lia.
Qed.

Lemma copy_at_len b i j v b' : copy_at b i j v = Ret b' → len b' = len b.
Proof.
  unfold copy_at. destruct ((0 <=? i) && (i <=? j) && (j <=? len b)) eqn:E; [|done]. intros [= <-].
  apply andb_prop in E as [[E1%Z.leb_le E2%Z.leb_le]%andb_prop E3%Z.leb_le]. unfold len in *.
  rewrite !length_app, !length_take, length_drop. lia.
Qed.

Lemma mem_Set_charged m o s v m' : mem_Set m o s v = Ret m' → charged m → charged m'.
Proof.
  unfold mem_Set. destruct (0 <? s); [|by intros [= <-]]. destruct (_ <? _); [done|].
  destruct (copy_at _ _ _ _) as [b|] eqn:E; [|done]. intros [= <-]. apply charged_grow; [done|].
  cbn [store]. by rewrite (copy_at_len _ _ _ _ _ E).
Qed.

Lemma store_at_len b i x b' : store_at b i x = Ret b' → len b' = len b.
Proof. unfold store_at. case_decide; [|done]. intros [= <-]. unfold len. by rewrite length_insert. Qed.

(** ** Triples *)
Section triples.
Context {S : Type} `{StateDB S} `{U : Uint256} `{!Uint256Range U} `{Externals}.
Context (d : Z) (r0 : Rules).

Definition env_ok (e : EVM S) : Prop := depth e = d ∧ chainRules e = r0.

(** A frame with [g] gas, whose memory will be charged once resized to [n]. *)
Definition fr (n g : Z) (f : Frame S) : Prop :=
  env_ok (f_evm f) ∧ Gas (f_contract f) = g ∧ 0 ≤ g < 2 ^ 64 ∧ charged (resized n (f_mem f)).

(** A frame an error leaves. *)
Definition ended (g : Z) (f : Frame S) : Prop := env_ok (f_evm f) ∧ 0 ≤ Gas (f_contract f) ≤ g.

(** From [I], [m] does not run out of fuel; it ends in [Q], or in [E] with an error. *)
Definition hoare {A} (I : Frame S → Prop) (Q : A → Frame S → Prop) (E : Frame S → Prop) (m : Exec S A) : Prop :=
  ∀ f, I f →
    match m f with
    | OutOfFuel => False
    | Crash _ => True
    | Done (f', inl _) => E f'
    | Done (f', inr a) => Q a f'
    end.

Definition tri {A} (I J E : Frame S → Prop) (P : A → Prop) (m : Exec S A) : Prop :=
  hoare I (λ a f, J f ∧ P a) E m.

Lemma hoare_bind {A B} I (J : A → Frame S → Prop) (Q : B → Frame S → Prop) E (m : Exec S A) (k : A → Exec S B) :
  hoare I J E m → (∀ a, hoare (J a) Q E (k a)) → hoare I Q E (m ≫= k).
Proof.
  intros Hm Hk f Hf. specialize (Hm f Hf). unfold mbind, Exec_bind, Res_bind, mbind.
  destruct (m f) as [[f1 [err|a]]|p|]; [done| |done|done]. by apply Hk.
Qed.

Lemma hoare_ret_bind {A B} I (Q : B → Frame S → Prop) E (a : A) (k : A → Exec S B) :
  hoare I Q E (k a) → hoare I Q E (mret a ≫= k).
Proof. exact id. Qed.

Lemma hoare_weaken {A} (I I' : Frame S → Prop) (Q Q' : A → Frame S → Prop) (E E' : Frame S → Prop) m :
  hoare I Q E m → (∀ f, I' f → I f) → (∀ a f, Q a f → Q' a f) → (∀ f, E f → E' f) → hoare I' Q' E' m.
Proof.
  intros Hm HI HQ HE f Hf. specialize (Hm f (HI _ Hf)). destruct (m f) as [[f1 [err|a]]|p|]; eauto.
Qed.

Lemma hoare_pre {A} (I I' : Frame S → Prop) (Q : A → Frame S → Prop) E m :
  (∀ f, I' f → I f) → hoare I Q E m → hoare I' Q E m.
Proof. intros HI Hm. by eapply hoare_weaken. Qed.

Lemma hoare_fact {A} (F : Prop) (I : Frame S → Prop) (Q : A → Frame S → Prop) E m :
  (F → hoare I Q E m) → hoare (λ f, I f ∧ F) Q E m.
Proof. intros Hm f [Hi Hf]. by apply Hm. Qed.

Lemma hoare_exists {A X} (I : X → Frame S → Prop) (Q : A → Frame S → Prop) E m :
  (∀ x, hoare (I x) Q E m) → hoare (λ f, ∃ x, I x f) Q E m.
Proof. intros Hm f [x Hx]. by apply (Hm x). Qed.

Lemma tri_bind {A B} I J K E (P : A → Prop) (Q : B → Prop) (m : Exec S A) (k : A → Exec S B) :
  tri I J E P m → (∀ a, P a → tri J K E Q (k a)) → tri I K E Q (m ≫= k).
Proof. intros Hm Hk. eapply hoare_bind; [exact Hm|]. intros a. apply hoare_fact. apply Hk. Qed.

Lemma tri_weaken {A} I J J' E (P Q : A → Prop) (m : Exec S A) :
  tri I J E P m → (∀ f, J f → J' f) → (∀ a, P a → Q a) → tri I J' E Q m.
Proof. intros Hm HJ HP. eapply hoare_weaken; [exact Hm|done|naive_solver|done]. Qed.

Lemma fr_ended n g f : fr n g f → ended g f.
Proof. intros (He & <- & Hg & _). split; [done|lia]. Qed.

Lemma fr_charged n g f : fr 0 g f → fr n g f.
Proof. intros (He & Hg & Hr & Hc). do 3 (split; [done|]). by apply charged_resized. Qed.

(** Computations that leave gas, memory and environment alone. *)
Definition still {A} (P : A → Prop) (m : Exec S A) : Prop := ∀ n g, tri (fr n g) (fr n g) (ended g) P m.

Lemma still_bind {A B} (P : A → Prop) (Q : B → Prop) (m : Exec S A) (k : A → Exec S B) :
  still P m → (∀ a, P a → still Q (k a)) → still Q (m ≫= k).
Proof. intros Hm Hk n g. eapply tri_bind; [apply Hm|]. intros a Ha. by apply Hk. Qed.

Lemma still_weaken {A} (P Q : A → Prop) (m : Exec S A) : still P m → (∀ a, P a → Q a) → still Q m.
Proof. intros Hm HPQ n g. by eapply tri_weaken. Qed.

Lemma still_ret {A} (P : A → Prop) a : P a → still P (mret a).
Proof. intros Ha n g f Hf. by split. Qed.
Lemma still_throw {A} (P : A → Prop) err : still P (throw err).
Proof. intros n g f Hf. by eapply fr_ended. Qed.
Lemma still_gets {A} (P : A → Prop) (h : Frame S → A) : (∀ f, P (h f)) → still P (gets h).
Proof. intros Hp n g f Hf. by split. Qed.
Lemma still_lift {A} (P : A → Prop) (m : Go A) : (∀ a, m = Ret a → P a) → still P (lift m).
Proof. intros Hp n g f Hf. unfold lift. cbn. destruct m; cbn; [|done]. split; [done|by apply Hp]. Qed.
Lemma still_put_pc pc : still (λ _, True) (put_pc pc).
Proof. intros n g f Hf. by split. Qed.
Lemma still_put_stack st : still (λ _, True) (put_stack st).
Proof. intros n g f Hf. by split. Qed.
Lemma still_modify (h : EVM S → EVM S) :
  (∀ e, depth (h e) = depth e ∧ chainRules (h e) = chainRules e) → still (λ _, True) (modify_evm h).
Proof.
  intros Hh n g f ((Hd & Hr) & Hg & Hm). cbn. destruct (Hh (f_evm f)) as (Q1 & Q2).
  split; [|done]. split; [|done]. unfold env_ok. cbn [f_evm]. by rewrite Q1, Q2.
Qed.
Lemma still_put_db db : still (λ _, True) (put_db db).
Proof. by apply still_modify. Qed.

Lemma isCode_fuel m c pos : isCode m c pos ≠ OutOfFuel ∧
  ∀ m' c' b, isCode m c pos = Done (m', c', b) → Gas c' = Gas c.
Proof.
  unfold isCode. destruct (codeBitmap_spec (Code c)) as (a0 & Ha0 & _).
  destruct (analysis c) as [a|].
  { cbn. destruct (codeSegment a pos); cbn; (split; [done|]); by intros ? ? ? [= _ <- _]. }
  rewrite Ha0. destruct (negb _).
  - destruct (m !! jumpdests c) as [known|]; [|done]. destruct (known !! CodeHash c) as [a|]; cbn;
      (destruct (codeSegment _ pos); cbn; (split; [done|]); by intros ? ? ? [= _ <- _]).
  - cbn. destruct (codeSegment a0 pos); cbn; (split; [done|]); by intros ? ? ? [= _ <- _].
Qed.

Lemma still_valid_dest pos : still (λ _, True) (valid_dest pos).
Proof.
  intros n g f ((Hd & Hr) & Hg & Hrg & Hm). unfold valid_dest, validJumpdest.
  destruct (Uint64WithOverflow pos) as [u ov]. destruct (ov || _); [split; [by do 3 (split; [done|])|done]|].
  destruct (negb _); [split; [by do 3 (split; [done|])|done]|].
  destruct (isCode_fuel (jumpmaps (f_evm f)) (f_contract f) u) as [Hf Hgas].
  destruct (isCode _ _ _) as [[[m c] b]|p|]; cbn; [|done|done].
  split; [|done]. split; [done|]. cbn [f_contract f_mem]. by rewrite (Hgas m c b eq_refl).
Qed.

(** Writing the memory, when nothing was charged in advance. *)
Definition calm {A} (m : Exec S A) : Prop := ∀ g, tri (fr 0 g) (fr 0 g) (ended g) (λ _, True) m.

Lemma still_calm {A} (P : A → Prop) (m : Exec S A) : still P m → calm m.
Proof. intros Hm g. by eapply tri_weaken; [apply Hm|..]. Qed.

Lemma calm_bind {A B} (m : Exec S A) (k : A → Exec S B) : calm m → (∀ a, calm (k a)) → calm (m ≫= k).
Proof. intros Hm Hk g. eapply tri_bind; [apply Hm|]. intros a _. apply Hk. Qed.

Lemma calm_update_mem (h : Memory → Go Memory) :
  (∀ m m', h m = Ret m' → charged m → charged m') →
  calm (m ← gets f_mem; m ← lift (h m); put_mem m).
Proof.
  intros Hh g f (He & Hg & Hr & Hc). unfold mbind, Exec_bind, Res_bind, gets, lift, mbind. cbn.
  destruct (h (f_mem f)) as [m'|p] eqn:E; cbn; [|done].
  split; [|done]. do 3 (split; [done|]). exact (Hh _ _ E Hc).
Qed.

Lemma calm_mem_write o s v : calm (mem_write o s v).
Proof. unfold mem_write. apply calm_update_mem. intros m m'. apply mem_Set_charged. Qed.
End triples.
