(* ===== verification/GasOps.v ===== *)
(** * The gas of the instructions other than calls and creations *)

From S2P Require Import Prelude Common Params Uint256 VmFacts Machine Tx.
From S2P Require Import Vm Evm Interpreter Gas Instructions JumpTable RecorderFacts CallFacts.
From S2P Require Import GasFacts.

Create HintDb gas.

Section calm.
Context {S : Type} `{StateDB S} `{U : Uint256} `{!Uint256Range U} `{Externals}.
Context (d : Z) (r0 : Rules).

Lemma calm_ret {A} (a : A) : calm (S := S) d r0 (mret a).
Proof. by eapply (still_calm _ _ (λ _, True)), still_ret. Qed.
Lemma calm_throw {A} err : calm (S := S) d r0 (throw (A:=A) err).
Proof. by eapply (still_calm _ _ (λ _, True)), still_throw. Qed.
Lemma calm_gets {A} (h : Frame S → A) : calm d r0 (gets h).
Proof. by eapply (still_calm _ _ (λ _, True)), still_gets. Qed.
Lemma calm_lift {A} (m : Go A) : calm (S := S) d r0 (lift m).
Proof. by eapply (still_calm _ _ (λ _, True)), still_lift. Qed.
Lemma calm_put_pc pc : calm (S := S) d r0 (put_pc pc).
Proof. by eapply still_calm, still_put_pc. Qed.
Lemma calm_put_stack st : calm (S := S) d r0 (put_stack st).
Proof. by eapply still_calm, still_put_stack. Qed.
Lemma calm_put_db db : calm (S := S) d r0 (put_db db).
Proof. by eapply still_calm, still_put_db. Qed.
Lemma calm_modify (h : EVM S → EVM S) :
  (∀ e, depth (h e) = depth e ∧ chainRules (h e) = chainRules e) →
  calm d r0 (modify_evm h).
Proof. intros. by eapply still_calm, still_modify. Qed.
Lemma calm_valid_dest pos : calm (S := S) d r0 (valid_dest pos).
Proof. by eapply still_calm, still_valid_dest. Qed.
End calm.

#[export] Hint Resolve calm_ret calm_throw calm_gets calm_lift calm_put_pc calm_put_stack calm_put_db
  calm_valid_dest calm_mem_write : gas.

Ltac calm_step :=
  match goal with
  | |- calm _ _ (_ ≫= _) => apply calm_bind; [|intros ?]
  | |- calm _ _ (if ?b then _ else _) => destruct b
  | |- calm _ _ (match ?x with _ => _ end) => destruct x
  | |- calm _ _ (modify_evm _) => apply calm_modify; done
  | |- calm _ _ ?m => let h := head_of m in unfold h; cbv beta zeta
  end.
Ltac calm := repeat (cbv beta; first [solve [eauto with gas nocore] | calm_step]).

Section instructions.
Context {S : Type} `{StateDB S} `{U : Uint256} `{!Uint256Range U} `{Externals}.
Context (d : Z) (r0 : Rules).

Lemma calm_pop : calm (S := S) d r0 pop_. Proof. calm. Qed.
Lemma calm_peek : calm (S := S) d r0 peek_. Proof. calm. Qed.
Lemma calm_push x : calm (S := S) d r0 (push_ x). Proof. calm. Qed.
Lemma calm_set_peek x : calm (S := S) d r0 (set_peek x). Proof. calm. Qed.
Lemma calm_topics n : calm (S := S) d r0 (pop_topics n).
Proof. induction n; cbn [pop_topics]; calm; try apply calm_pop; calm. Qed.

Lemma calm_update_mem_done (h : Memory → Go Memory) (k : Exec S (bytes * option VmError)) :
  (∀ m m', h m = Ret m' → charged m → charged m') → calm d r0 k →
  calm d r0 (m ← gets f_mem; m ← lift (h m); _ ← put_mem m; k).
Proof.
  intros Hh Hk g f (He & Hg & Hr & Hc). unfold mbind, Exec_bind, Res_bind, gets, lift, mbind. cbn.
  destruct (h (f_mem f)) as [m'|p] eqn:E; cbn; [|done].
  apply (Hk g). do 3 (split; [done|]). exact (Hh _ _ E Hc).
Qed.

Lemma mem_Set32_charged m o v m' : mem_Set32 m o v = Ret m' → charged m → charged m'.
Proof.
  unfold mem_Set32. destruct (_ <? _); [done|].
  destruct (copy_at _ _ _ _) as [b|] eqn:E; [|done]. intros [= <-]. apply charged_grow; [done|]. cbn [store].
  rewrite <- (copy_at_len _ _ _ _ _ E). unfold len.
  rewrite length_app, length_take, WriteToSlice_length, length_drop. lia.
Qed.

Lemma mem_Set8_charged m o x m' : mem_Set8 m o x = Ret m' → charged m → charged m'.
Proof.
  unfold mem_Set8. destruct (store_at _ _ _) as [b|] eqn:E; [|done]. intros [= <-].
  apply charged_grow; [done|]. cbn [store]. by rewrite (store_at_len _ _ _ _ E).
Qed.

Lemma calm_opMstore c : calm (S := S) d r0 (opMstore c).
Proof.
  unfold opMstore. apply calm_bind; [apply calm_pop|intros o]. apply calm_bind; [apply calm_pop|intros v].
  apply (calm_update_mem_done (λ m, mem_Set32 m (Uint64 o) v)); [|calm]. intros m m'. apply mem_Set32_charged.
Qed.

Lemma calm_opMstore8 c : calm (S := S) d r0 (opMstore8 c).
Proof.
  unfold opMstore8. apply calm_bind; [apply calm_pop|intros o]. apply calm_bind; [apply calm_pop|intros v].
  apply (calm_update_mem_done (λ m, mem_Set8 m (Uint64 o) (wrapU 8 (Uint64 v)))); [|calm].
  intros m m'. apply mem_Set8_charged.
Qed.

(** ** Dynamic gas: a cost of at least [lo], with the memory charged for the requested size *)
Definition costs (lo : Z) (dyn : Z → Exec S Z) : Prop :=
  ∀ n g, 0 ≤ n → (32 | n) → tri (fr d r0 0 g) (fr d r0 n g) (ended d r0 g) (λ c, lo ≤ c) (dyn n).

Lemma still_from {A} (P : A → Prop) n g (m : Exec S A) :
  still d r0 P m → tri (fr d r0 0 g) (fr d r0 n g) (ended d r0 g) P m.
Proof. intros Hm. eapply tri_weaken; [apply Hm|apply fr_charged|done]. Qed.

Lemma costs_still lo dyn : (∀ n, still d r0 (λ c, lo ≤ c) (dyn n)) → costs lo dyn.
Proof. intros Hd n g _ _. by apply still_from. Qed.

Lemma memory_gas_tri n g :
  0 ≤ n → (32 | n) →
  tri (fr d r0 0 g) (fr d r0 n g) (ended d r0 g) (λ c, 0 ≤ c < 2 ^ 56) (memory_gas (S := S) n).
Proof.
  intros Hn Hdiv f (He & Hg & Hr & Hc). unfold memory_gas, mbind, Exec_bind, Res_bind, gets, mbind. cbn.
  destruct (memoryGasCost (f_mem f) n) as [m' r] eqn:E. apply memoryGasCost_charged in E as [Hc' Hr']; [|done..].
  cbn. destruct r as [err|c]; cbn.
  - split; [done|]. cbn. lia.
  - split; [by do 3 (split; [done|])|]. by apply Hr'.
Qed.

Lemma costs_memory lo (k : Z → Exec S Z) :
  (∀ c, 0 ≤ c < 2 ^ 56 → still d r0 (λ c, lo ≤ c) (k c)) → costs lo (λ n, memory_gas n ≫= k).
Proof.
  intros Hk n g Hn Hdiv. eapply tri_bind; [by apply memory_gas_tri|]. intros c Hc. by apply Hk.
Qed.

Lemma still_safe_add x y : 0 ≤ x → 0 ≤ y → still (S := S) d r0 (λ c, c = x + y) (safe_add x y).
Proof.
  intros Hx Hy. unfold safe_add, SafeAdd. destruct (Z.leb_spec (2 ^ 64) (x + y)); [apply still_throw|].
  apply still_ret. apply wrapU_small. lia.
Qed.

Lemma still_safe_mul x y : 0 ≤ x → 0 ≤ y → still (S := S) d r0 (λ c, c = x * y) (safe_mul x y).
Proof.
  intros Hx Hy. unfold safe_mul, SafeMul. destruct (Z.leb_spec (2 ^ 64) (x * y)); [apply still_throw|].
  apply still_ret. apply wrapU_small. nia.
Qed.

Lemma still_uint64 x : still (S := S) d r0 (λ c, 0 ≤ c < 2 ^ 64) (uint64_or_overflow x).
Proof.
  unfold uint64_or_overflow. pose proof (Uint64WithOverflow_range x).
  destruct (Uint64WithOverflow x) as [r []]; [apply still_throw|by apply still_ret].
Qed.

Lemma still_back n : still (S := S) d r0 (λ _, True) (back n).
Proof. eapply still_bind; [by apply (still_gets _ _ (λ _, True))|]. intros st _. by apply still_lift. Qed.

Lemma still_get {A} (h : Frame S → A) : still d r0 (λ _, True) (gets h).
Proof. by apply still_gets. Qed.

Lemma toWordSize_nonneg n : 0 ≤ n < 2 ^ 64 → 0 ≤ toWordSize n.
Proof. intros. rewrite toWordSize_spec by (unfold MaxUint64; lia). apply Z.div_pos; lia. Qed.

Lemma still_AddRefund x : still (S := S) d r0 (λ _, True) (AddRefund_ x).
Proof. eapply still_bind; [apply still_get|]. intros db _. apply still_put_db. Qed.
Lemma still_SubRefund x : still (S := S) d r0 (λ _, True) (SubRefund_ x).
Proof.
  eapply still_bind; [apply still_get|]. intros db _.
  eapply still_bind; [by apply (still_lift _ _ (λ _, True))|]. intros db' _. apply still_put_db.
Qed.
Lemma still_when b (m : Exec S unit) : still d r0 (λ _, True) m → still d r0 (λ _, True) (when b m).
Proof. intros Hm. destruct b; [done|by apply still_ret]. Qed.
Lemma still_dirty a b c x y z : still (S := S) d r0 (λ _, True) (dirty_refunds a b c x y z).
Proof.
  eapply still_bind; [|intros _ _].
  - apply still_when. destruct (_ =? _); [apply still_SubRefund|apply still_when, still_AddRefund].
  - apply still_when. destruct (_ =? _); apply still_AddRefund.
Qed.
End instructions.

(** * What the dynamic gas functions charge at least *)

(** Follow a gas function; what is left is that the gas it returns is large enough. *)
Ltac gas_bound := unfold CopyGas, Keccak256WordGas, LogGas, LogTopicGas, LogDataGas, ExpGas, ExpByteFrontier,
  ExpByteEIP158, SstoreSetGas, SstoreResetGas, SstoreClearGas, NetSstoreNoopGas, NetSstoreInitGas,
  NetSstoreCleanGas, NetSstoreDirtyGas, SstoreSetGasEIP2200, SstoreResetGasEIP2200, SloadGasEIP2200,
  ColdSloadCostEIP2929, WarmStorageReadCostEIP2929, ColdAccountAccessCostEIP2929, SelfdestructGasEIP150,
  CreateBySelfdestructGas in *; try lia; try nia.
Ltac still_prim := first
  [ apply still_get | apply still_back | apply still_uint64
  | apply still_safe_add; [gas_bound|gas_bound] | apply still_safe_mul; [gas_bound|gas_bound]
  | apply still_put_db | apply still_dirty | apply still_AddRefund
  | apply still_when; still_prim ].
Ltac still_step :=
  match goal with
  | |- still _ _ _ (mret _) => apply still_ret
  | |- still _ _ _ (throw _) => apply still_throw
  | |- still _ _ _ (if ?b then _ else _) => destruct b eqn:?
  | |- still _ _ _ (match ?x with _ => _ end) => destruct x
  | |- still _ _ _ (_ ≫= _) => eapply still_bind; [still_prim|intros ? ?]
  | |- still _ _ _ _ => eapply still_weaken; [still_prim|intros ? ?]
  end.
Ltac still := repeat (cbv beta zeta; still_step).

Section costs.
Context {S : Type} `{StateDB S} `{U : Uint256} `{!Uint256Range U} `{Externals}.
Context (d : Z) (r0 : Rules).

Lemma costs_copier pos : costs (S := S) d r0 0 (memoryCopierGas pos).
Proof.
  apply costs_memory. intros gas Hgas. eapply still_bind; [still_prim|intros words _].
  eapply still_bind; [still_prim|intros w Hw]. pose proof (toWordSize_nonneg w Hw). still; subst; gas_bound.
Qed.

Lemma costs_keccak : costs (S := S) d r0 0 gasKeccak256.
Proof.
  apply costs_memory. intros gas Hgas. eapply still_bind; [still_prim|intros words _].
  eapply still_bind; [still_prim|intros w Hw]. pose proof (toWordSize_nonneg w Hw). still; subst; gas_bound.
Qed.

Lemma costs_create2 : costs (S := S) d r0 0 gasCreate2.
Proof.
  apply costs_memory. intros gas Hgas. eapply still_bind; [still_prim|intros words _].
  eapply still_bind; [still_prim|intros w Hw]. pose proof (toWordSize_nonneg w Hw). still; subst; gas_bound.
Qed.

Lemma costs_memory_only : costs (S := S) d r0 0 pureMemoryGascost.
Proof. intros n g Hn Hd. eapply tri_weaken; [by apply memory_gas_tri|done|]. cbn. lia. Qed.

Lemma costs_log k : 0 ≤ k → costs (S := S) d r0 LogGas (makeGasLog k).
Proof.
  intros Hk n g Hn Hd. unfold makeGasLog.
  eapply tri_bind; [apply still_back|intros size _]. eapply tri_bind; [apply still_uint64|intros size' Hs].
  eapply tri_bind; [by apply memory_gas_tri|intros gas Hgas].
  match goal with |- tri _ _ _ _ ?m => enough (still d r0 (λ c, LogGas ≤ c) m) by auto end.
  still; subst; gas_bound.
Qed.

Lemma costs_exp b : 0 ≤ b → costs (S := S) d r0 ExpGas (gasExp b).
Proof.
  intros Hb. apply costs_still. intros ?. unfold gasExp. eapply still_bind; [still_prim|intros st _].
  eapply still_bind; [by apply (still_lift _ _ (λ _, True))|intros x _]. pose proof (BitLen_range x).
  assert (0 ≤ (BitLen x + 7) / 8) by (apply Z.div_pos; lia). still; subst; gas_bound.
Qed.

Lemma costs_sstore : costs (S := S) d r0 1 gasSStore.
Proof. apply costs_still. intros ?. unfold gasSStore. still; gas_bound. Qed.

Lemma costs_sstore_2200 : costs (S := S) d r0 1 gasSStoreEIP2200.
Proof. apply costs_still. intros ?. unfold gasSStoreEIP2200. still; gas_bound. Qed.

Lemma still_add_slot a k s b :
  still (S := S) d r0 (λ _, True)
    (_ ← put_db (AddSlotToAccessList a k s); if b : bool then mret tt else lift (Panic ExplicitPanic)).
Proof. eapply still_bind; [still_prim|intros _ _]. destruct b; [by apply still_ret|by apply still_lift]. Qed.

Lemma costs_sstore_2929 refund : costs (S := S) d r0 1 (makeGasSStoreFunc refund).
Proof.
  apply costs_still. intros ?. unfold makeGasSStoreFunc.
  eapply still_bind; [still_prim|intros g _]. destruct (g <=? _); [apply still_throw|].
  do 4 (eapply still_bind; [still_prim|intros ? _]). cbv zeta.
  destruct (SlotInAccessList _ _ _) as [addrPresent slotPresent].
  eapply still_bind; [apply still_when, still_add_slot|intros _ _]. destruct slotPresent; still; gas_bound.
Qed.

Lemma costs_sload_2929 : costs (S := S) d r0 1 gasSLoadEIP2929.
Proof. apply costs_still. intros ?. unfold gasSLoadEIP2929. still; gas_bound. Qed.

Lemma costs_account_2929 : costs (S := S) d r0 0 gasEip2929AccountCheck.
Proof. apply costs_still. intros ?. unfold gasEip2929AccountCheck. still; gas_bound. Qed.

Lemma costs_extcodecopy_2929 : costs (S := S) d r0 0 gasExtCodeCopyEIP2929.
Proof.
  intros n g Hn Hd. eapply tri_bind; [by apply costs_copier|intros gas Hgas]. cbv beta in Hgas.
  match goal with |- tri _ _ _ _ ?m => enough (still d r0 (λ c, 0 ≤ c) m) by auto end.
  still; subst; gas_bound.
Qed.

Lemma costs_selfdestruct : costs (S := S) d r0 0 gasSelfdestruct.
Proof.
  apply costs_still. intros ?. unfold gasSelfdestruct. do 3 (eapply still_bind; [still_prim|intros ? _]).
  eapply (still_bind _ _ (λ c, 0 ≤ c)).
  - still; gas_bound; repeat case_match; gas_bound.
  - intros gas Hgas. still; gas_bound.
Qed.

Lemma costs_selfdestruct_2929 b : costs (S := S) d r0 0 (makeSelfdestructGasFn b).
Proof.
  apply costs_still. intros ?. unfold makeSelfdestructGasFn. still; repeat case_match; gas_bound.
Qed.
End costs.

(** * The gas of calls and creations

    The gas function of a call charges at least the gas it puts aside for the
    callee and, when value is transferred, more than the stipend; the callee gives
    back no more than it got. *)

(** Computations that leave the stack alone. *)
Section stack.
Context {S : Type}.

Definition fixed_stack {A} (m : Exec S A) : Prop := ∀ f f' a, m f = Done (f', inr a) → f_stack f' = f_stack f.

Lemma fixed_bind {A B} (m : Exec S A) (k : A → Exec S B) :
  fixed_stack m → (∀ a, fixed_stack (k a)) → fixed_stack (m ≫= k).
Proof.
  intros Hm Hk f f' b. unfold mbind, Exec_bind, Res_bind, mbind.
  destruct (m f) as [[f1 [err|a]]|p|] eqn:E; [done| |done|done]. intros E'.
  rewrite (Hk _ _ _ _ E'). by eapply Hm.
Qed.
Lemma fixed_ret {A} (a : A) : fixed_stack (mret a).
Proof. by intros f f' b [= <- _]. Qed.
Lemma fixed_throw {A} err : fixed_stack (throw (A:=A) err).
Proof. done. Qed.
Lemma fixed_gets {A} (h : Frame S → A) : fixed_stack (gets h).
Proof. by intros f f' b [= <- _]. Qed.
Lemma fixed_lift {A} (m : Go A) : fixed_stack (lift m).
Proof. intros f f' b. destruct m; [by intros [= <- _]|done]. Qed.
Lemma fixed_put_mem m : fixed_stack (put_mem m).
Proof. by intros f f' b [= <- _]. Qed.
Lemma fixed_put_contract c : fixed_stack (put_contract c).
Proof. by intros f f' b [= <- _]. Qed.
Lemma fixed_modify h : fixed_stack (modify_evm h).
Proof. by intros f f' b [= <- _]. Qed.

Lemma hoare_stack {A} I (Q : A → Frame S → Prop) E (m : Exec S A) st :
  fixed_stack m → hoare I Q E m →
  hoare (λ f, I f ∧ f_stack f = st) (λ a f, Q a f ∧ f_stack f = st) E m.
Proof.
  intros Hm Hh f [Hf Hst]. specialize (Hh f Hf). destruct (m f) as [[f1 [err|a]]|p|] eqn:E1; [done| |done|done].
  split; [done|]. by rewrite (Hm _ _ _ E1).
Qed.
End stack.

#[export] Hint Resolve fixed_ret fixed_throw fixed_gets fixed_lift fixed_put_mem fixed_put_contract
  fixed_modify : gas.

Ltac fixed_step :=
  match goal with
  | |- fixed_stack (_ ≫= _) => apply fixed_bind; [|intros ?]
  | |- fixed_stack (if ?b then _ else _) => destruct b
  | |- fixed_stack (match ?x with _ => _ end) => destruct x
  | |- fixed_stack ?m => let h := head_of m in unfold h; cbv beta zeta
  end.
Ltac fixed := repeat (cbv beta; first [solve [eauto with gas nocore] | fixed_step]).

Section dynamic.
Context {S : Type} `{StateDB S} `{U : Uint256} `{!Uint256Range U} `{Externals}.
Context (d : Z) (r0 : Rules).

(** What a call with value costs more, and what it gives to the callee. *)
Definition surcharge (with_value : bool) (st : Stack) (x : Z) : Z :=
  if with_value then match Back st 2 with Ret v => if IsZero v then 0 else x | Panic _ => 0 end else 0.

Definition call_charged (extra n g c : Z) (f : Frame S) : Prop :=
  fr d r0 n g f ∧ 0 ≤ callGasTemp (f_evm f) < 2 ^ 64 ∧ callGasTemp (f_evm f) + extra ≤ c.

(** After EIP-150 there is room for the cost of a cold account. *)
Definition cold : Z := ColdAccountAccessCostEIP2929 - WarmStorageReadCostEIP2929.
Definition fits (g c : Z) : Prop := IsEIP150 r0 = true → g + cold < 2 ^ 64 → c + cold < 2 ^ 64.

Definition call_pays (b : bool) (dyn : Z → Exec S Z) : Prop :=
  ∀ st n g, 0 ≤ n → (32 | n) →
    hoare (λ f, fr d r0 0 g f ∧ f_stack f = st)
      (λ c f, call_charged (surcharge b st CallValueTransferGas) n g c f ∧ f_stack f = st)
      (ended d r0 g) (dyn n).
Definition call_fits (b : bool) (dyn : Z → Exec S Z) : Prop :=
  ∀ st n g, 0 ≤ n → (32 | n) →
    hoare (λ f, fr d r0 0 g f ∧ f_stack f = st)
      (λ c f, (call_charged (surcharge b st CallValueTransferGas) n g c f ∧ fits g c) ∧ f_stack f = st)
      (ended d r0 g) (dyn n).

Lemma call_fits_pays b dyn : call_fits b dyn → call_pays b dyn.
Proof. intros Hf st n g Hn Hd. eapply hoare_weaken; [by apply (Hf st n g)|done|naive_solver|done]. Qed.

Lemma callGas_range b available base cost g :
  callGas b available base cost = inr g → 0 ≤ available < 2 ^ 64 → 0 ≤ g < 2 ^ 64.
Proof.
  intros Hg Ha. pose proof (Uint64_range cost) as Hc. unfold callGas in Hg. cbv zeta in Hg.
  set (a := if b then wrapU 64 (available - base) else available) in *.
  assert (0 ≤ a < 2 ^ 64) as Hr by (unfold a; destruct b; [by apply wrapU_range|done]).
  assert (0 ≤ a - a / 64 ≤ a).
  { pose proof (Z.div_pos a 64). assert (a / 64 ≤ a) by (apply Z.div_le_upper_bound; lia). lia. }
  destruct (b && _); [injection Hg; lia|]. destruct (negb _); [done|]. injection Hg. lia.
Qed.

Lemma callGas_fits available base cost g :
  callGas true available base cost = inr g → 0 ≤ base < 2 ^ 57 → 0 ≤ available → available + cold < 2 ^ 64 →
  base + g + cold < 2 ^ 64.
Proof.
  unfold cold, ColdAccountAccessCostEIP2929, WarmStorageReadCostEIP2929.
  intros Hg Hb Ha Hc. unfold callGas in Hg. cbn [andb] in Hg. cbv zeta in Hg.
  set (a := wrapU 64 (available - base)) in *.
  assert (g ≤ a - a / 64) as Hle.
  { destruct (negb (IsUint64 cost)); cbn [orb] in Hg; [injection Hg; lia|].
    destruct (Z.ltb_spec (a - a / 64) (Uint64 cost)); injection Hg; lia. }
  assert (0 ≤ a < 2 ^ 64) by (by apply wrapU_range).
  assert (a = available - base ∨ a = available - base + 2 ^ 64 ∧ available < base) as [Ea|[Ea Hlt]].
  { destruct (Z.le_gt_cases base available).
    - left. apply wrapU_small. lia.
    - right. split; [|lia]. unfold a, wrapU. rewrite <- (Z.mod_add _ 1), Z.mod_small by lia. lia. }
  - assert (0 ≤ a / 64) by (apply Z.div_pos; lia). lia.
  - assert (2 ^ 57 + 2 ^ 56 ≤ a / 64) by (apply Z.div_le_lower_bound; lia). lia.
Qed.

Lemma call_gas_charges n g gas :
  0 ≤ gas < 2 ^ 57 →
  hoare (fr d r0 n g) (λ c f, call_charged gas n g c f ∧ fits g c) (ended d r0 g) (call_gas gas).
Proof.
  intros Hgas f ((Hd & Hr) & Hg & Hrg & Hc). unfold call_gas, back, mbind, Exec_bind, Res_bind, mbind, gets, lift. cbn.
  rewrite Hr, Hg. destruct (Back (f_stack f) 0) as [requested|p]; cbn; [|done].
  destruct (callGas _ _ _ _) as [err|t] eqn:E; cbn; [split; [done|cbn; lia]|].
  pose proof (callGas_range _ _ _ _ _ E Hrg) as Ht. unfold safe_add, SafeAdd.
  destruct (Z.leb_spec (2 ^ 64) (gas + t)); cbn; [split; [done|cbn; lia]|]. rewrite wrapU_small by lia.
  split; [split; [by do 3 (split; [done|])|cbn; lia]|]. intros H150 Hroom. rewrite H150 in E.
  eapply callGas_fits; eauto; lia.
Qed.

Lemma back_value st n g i :
  hoare (λ f, fr d r0 n g f ∧ f_stack f = st) (λ v f, (fr d r0 n g f ∧ f_stack f = st) ∧ Back st i = Ret v)
    (ended d r0 g) (back (S := S) i).
Proof.
  intros f [Hf Hst]. unfold back, mbind, Exec_bind, Res_bind, mbind, gets, lift. cbn. rewrite Hst.
  by destruct (Back st i); cbn.
Qed.

(** A base cost, the memory and the callee's gas. *)
Lemma memory_then_call extra n g gas :
  0 ≤ n → (32 | n) → 0 ≤ extra ≤ gas → gas < 2 ^ 56 →
  hoare (fr d r0 0 g) (λ c f, call_charged extra n g c f ∧ fits g c) (ended d r0 g)
    (memoryGas ← memory_gas n; gas ← safe_add gas memoryGas; call_gas gas).
Proof.
  intros Hn Hd He Hgas. eapply hoare_bind; [by apply memory_gas_tri|intros m]. apply hoare_fact. intros Hm.
  eapply hoare_bind; [apply still_safe_add; lia|intros c]. apply hoare_fact. intros ->.
  eapply hoare_weaken; [apply call_gas_charges; lia|done| |done].
  intros c f [(Hf & Ht & Hc) Hfit]. split; [|done]. split; [done|]. lia.
Qed.

Lemma call_fits_Call : call_fits true gasCall.
Proof.
  intros st n g Hn Hd. eapply hoare_bind; [apply back_value|intros v]. apply hoare_fact. intros Hv.
  unfold surcharge. rewrite Hv. apply hoare_stack; [fixed|].
  do 3 (eapply hoare_bind; [apply still_back || apply still_get|intros ?]; apply hoare_fact; intros _).
  cbv zeta. apply memory_then_call; [done..| |];
    unfold CallNewAccountGas, CallValueTransferGas; repeat case_match; cbn in *; simplify_eq; lia.
Qed.

Lemma call_fits_CallCode : call_fits true gasCallCode.
Proof.
  intros st n g Hn Hd.
  eapply hoare_bind; [apply hoare_stack; [fixed|by apply memory_gas_tri]|intros m].
  apply (hoare_pre (λ f, (fr d r0 n g f ∧ f_stack f = st) ∧ 0 ≤ m < 2 ^ 56)); [tauto|].
  apply hoare_fact. intros Hm. eapply hoare_bind; [apply back_value|intros v]. apply hoare_fact. intros Hv.
  unfold surcharge. rewrite Hv. apply hoare_stack; [fixed|]. cbv zeta. pose proof (Sign_IsZero v) as Hz.
  set (gas := if negb (Sign v =? 0) then CallValueTransferGas else 0).
  assert ((if IsZero v then 0 else CallValueTransferGas) ≤ gas < 2 ^ 56 ∧ 0 ≤ gas) as Hgas.
  { unfold gas, CallValueTransferGas. destruct (Z.eqb_spec (Sign v) 0), (IsZero v); cbn; intuition (lia || congruence). }
  clearbody gas. eapply hoare_bind; [apply still_safe_add; lia|intros c]. apply hoare_fact. intros ->.
  eapply hoare_weaken; [apply call_gas_charges; lia|done| |done].
  intros c f [(Hf & Ht & Hc) Hfit]. split; [|done]. split; [done|]. split; [done|]. lia.
Qed.

Lemma call_fits_plain : call_fits false (λ n, gas ← memory_gas n; call_gas gas).
Proof.
  intros st n g Hn Hd. apply hoare_stack; [fixed|].
  eapply hoare_bind; [by apply memory_gas_tri|intros m]. apply hoare_fact. intros Hm.
  eapply hoare_weaken; [apply call_gas_charges; lia|done| |done].
  intros c f [(Hf & Ht & Hc) Hfit]. split; [|done]. split; [done|]. split; [done|]. cbn [surcharge]. lia.
Qed.

Lemma tri_use_gas n g c :
  0 ≤ c → tri (fr d r0 n g) (fr d r0 n (g - c)) (ended d r0 g) (λ _, c ≤ g) (use_gas (S := S) c).
Proof.
  intros Hc f Hf. pose proof (fr_ended _ _ _ _ _ Hf) as He. destruct Hf as (Henv & Hg & Hr & Hm).
  unfold use_gas, UseGas, mbind, Exec_bind, Res_bind, mbind, gets. cbn. rewrite Hg.
  destruct (Z.ltb_spec g c); cbn.
  - exact He.
  - split; [|lia]. split; [done|]. cbn. split; [by rewrite <- Hg|]. split; [lia|done].
Qed.

Lemma hoare_mret {A} (I : Frame S → Prop) (Q : A → Frame S → Prop) E a :
  (∀ f, I f → Q a f) → hoare I Q E (mret a).
Proof. intros HQ f Hf. by apply HQ. Qed.

Lemma surcharge_nonneg b st x : 0 ≤ x → 0 ≤ surcharge b st x.
Proof. unfold surcharge. repeat case_match; lia. Qed.

Lemma hoare_bounded {A} n g (I : Frame S → Prop) (Q : A → Frame S → Prop) E m :
  (∀ f, I f → fr d r0 n g f) → (0 ≤ g < 2 ^ 64 → hoare I Q E m) → hoare I Q E m.
Proof. intros HI Hm f Hf. apply Hm; [|done]. by destruct (HI f Hf) as (_ & _ & ? & _). Qed.

Lemma restore_cold extra n g c f st :
  IsEIP150 r0 = true → 0 ≤ extra → g < 2 ^ 64 →
  call_charged extra n (g - cold) c f → fits (g - cold) c → f_stack f = st →
  let f' := Build_Frame (f_evm f) (f_pc f) (f_mem f) (f_stack f)
              (set_Gas (f_contract f) (wrapU 64 (Gas (f_contract f) + cold))) in
  call_charged extra n g (wrapU 64 (c + cold)) f' ∧ f_stack f' = st.
Proof.
  assert (0 < cold) as Hc0 by done.
  intros H150 Hx Hg64 ((Henv & Hg & Hr & Hm) & Ht & Hc) Hfit <-. split; [|done].
  specialize (Hfit H150 ltac:(lia)). cbn [f_evm]. rewrite (wrapU_small 64 (c + cold)) by lia.
  split; [|cbn; lia]. split; [done|]. cbn. rewrite Hg, wrapU_small by lia. split; [lia|]. split; [lia|done].
Qed.

(** The schedule of EIP-2929 takes the cold cost before it computes the callee's
    gas, and gives it back as part of the cost. *)
Lemma call_pays_2929 b old :
  IsEIP150 r0 = true → call_fits b old → call_pays b (makeCallVariantGasCallEIP2929 old).
Proof.
  intros H150 Hold st n g Hn Hd. apply (hoare_bounded 0 g); [tauto|]. intros Hg64.
  unfold makeCallVariantGasCallEIP2929. fold cold.
  eapply hoare_bind; [apply back_value|intros a]. apply hoare_fact. intros _.
  eapply hoare_bind; [apply hoare_stack; [fixed|apply still_get]|intros db]. cbv zeta.
  apply (hoare_pre (λ f, fr d r0 0 g f ∧ f_stack f = st)); [tauto|].
  destruct (AddressInAccessList _ _); cbn [negb when].
  - apply hoare_ret_bind. eapply hoare_bind; [by apply call_fits_pays|intros c]. by apply hoare_mret.
  - eapply hoare_bind; [|intros ?].
    { apply hoare_stack; [fixed|].
      eapply hoare_bind; [apply still_put_db|intros ?]. apply hoare_fact. intros _.
      apply (tri_use_gas 0 g cold). done. }
    apply (hoare_pre (λ f, (fr d r0 0 (g - cold) f ∧ f_stack f = st) ∧ cold ≤ g)); [tauto|].
    apply hoare_fact. intros Hcold.
    eapply hoare_bind; [eapply hoare_weaken; [by apply (Hold st n (g - cold))|done|done|]|intros c].
    + intros f (He & Hlo & Hhi). split; [done|]. assert (0 < cold) by done. lia.
    + intros f [[Hf Hfit] Hst]. apply restore_cold; try done; [|lia]. by apply surcharge_nonneg.
Qed.
End dynamic.

(** * Executing an instruction gives back no gas beyond what its callee got *)

Section exec.
Context {S : Type} `{StateDB S} `{U : Uint256} `{!Uint256Range U} `{Externals}.
Context (d : Z) (r0 : Rules).

(** A call with [gas] does not run out of fuel, and what it leaves is within [gas]. *)
Definition gives_back {A} (gas : Z) (left : A → Z) (m : Res (EVM S * A)) : Prop :=
  match m with
  | OutOfFuel => False
  | Crash _ => True
  | Done (e, a) => env_ok d r0 e ∧ 0 ≤ left a ≤ gas
  end.

Definition call_left (r : bytes * Z * option VmError) : Z := r.1.2.
Definition create_left (r : bytes * Address * Z * option VmError) : Z := r.1.2.

Record calls_gas (calls : Calls (S := S)) : Prop := {
  gas_of_Call c a i g v e :
    env_ok d r0 e → 0 ≤ g < 2 ^ 64 → gives_back g call_left (evm_Call calls c a i g v e);
  gas_of_CallCode c a i g v e :
    env_ok d r0 e → 0 ≤ g < 2 ^ 64 → gives_back g call_left (evm_CallCode calls c a i g v e);
  gas_of_DelegateCall c a i g e :
    env_ok d r0 e → 0 ≤ g < 2 ^ 64 → gives_back g call_left (evm_DelegateCall calls c a i g e);
  gas_of_StaticCall c a i g e :
    env_ok d r0 e → 0 ≤ g < 2 ^ 64 → gives_back g call_left (evm_StaticCall calls c a i g e);
  gas_of_Create c i g v e :
    env_ok d r0 e → 0 ≤ g < 2 ^ 64 → gives_back g create_left (evm_Create calls c i g v e);
  gas_of_Create2 c i g v t e :
    env_ok d r0 e → 0 ≤ g < 2 ^ 64 → gives_back g create_left (evm_Create2 calls c i g v t e)
}.

(** From [g] gas, at most [B] afterwards. *)
Definition within (B : Z) (f : Frame S) : Prop := ∃ g, fr d r0 0 g f ∧ g ≤ B.
Definition spends {A} (g B : Z) (m : Exec S A) : Prop :=
  hoare (fr d r0 0 g) (λ _, within B) (ended d r0 B) m.

Lemma ended_le g B f : g ≤ B → ended (S := S) d r0 g f → ended d r0 B f.
Proof. intros Hle [He Hg]. split; [done|lia]. Qed.

Lemma spends_calm {A} g B (m : Exec S A) : g ≤ B → calm d r0 m → spends g B m.
Proof.
  intros Hle Hm. eapply hoare_weaken; [apply Hm|done| |].
  - intros a f [Hf _]. by exists g.
  - intros f. by apply ended_le.
Qed.

Lemma spends_bind {A B'} g B (m : Exec S A) (k : A → Exec S B') :
  g ≤ B → calm d r0 m → (∀ a, spends g B (k a)) → spends g B (m ≫= k).
Proof.
  intros Hle Hm Hk. eapply (hoare_bind _ (λ _, fr d r0 0 g)).
  - eapply hoare_weaken; [apply Hm|done|naive_solver|]. intros f. by apply ended_le.
  - apply Hk.
Qed.

(** ** The tails of the instructions *)

Lemma add_gas_tri g left :
  0 ≤ left → g + left < 2 ^ 64 →
  hoare (fr d r0 0 g) (λ _, fr d r0 0 (g + left)) (ended d r0 (g + left)) (add_gas (S := S) left).
Proof.
  intros Hl Hlt f (He & Hg & Hr & Hc). unfold add_gas, gets, put_contract, mbind, Exec_bind, Res_bind, mbind. cbn.
  split; [done|]. cbn. rewrite Hg, wrapU_small by lia. split; [done|]. split; [lia|done].
Qed.

Lemma calm_put_returnData b : calm (S := S) d r0 (put_returnData b).
Proof. calm. Qed.

Lemma spends_from {A} g g' B (m : Exec S A) :
  hoare (fr d r0 0 g) (λ _, fr d r0 0 g') (ended d r0 g') m → g' ≤ B → spends g B m.
Proof.
  intros Hm Hle. eapply hoare_weaken; [exact Hm|done| |].
  - intros a f Hf. by exists g'.
  - intros f. by apply ended_le.
Qed.

Lemma spends_end_call ro rs r g B :
  0 ≤ call_left r → g + call_left r ≤ B → B < 2 ^ 64 → spends g B (end_call ro rs r).
Proof.
  destruct r as [[ret left] err]. unfold call_left. cbn [fst snd]. intros Hl Hle Hlt. unfold end_call.
  apply spends_bind; [lia|apply calm_push|intros _].
  apply spends_bind; [lia|destruct (decide _); [apply calm_mem_write|apply calm_ret]|intros _].
  eapply (hoare_bind _ (λ _, fr d r0 0 (g + left))).
  - eapply hoare_weaken; [apply (add_gas_tri g left); lia|done|done|]. intros f. apply ended_le. lia.
  - intros _. apply spends_bind; [lia|apply calm_put_returnData|intros _]. apply spends_calm; [lia|apply calm_ret].
Qed.

Lemma spends_end_create res left w err g B :
  0 ≤ left → g + left ≤ B → B < 2 ^ 64 → spends g B (end_create res left w err).
Proof.
  intros Hl Hle Hlt. unfold end_create. apply spends_bind; [lia|apply calm_push|intros _].
  eapply (hoare_bind _ (λ _, fr d r0 0 (g + left))).
  - eapply hoare_weaken; [apply (add_gas_tri g left); lia|done|done|]. intros f. apply ended_le. lia.
  - intros _. apply spends_calm; [lia|]. destruct (decide _); calm.
Qed.

Lemma in_evm_left {A B'} g gas B (left : A → Z) (m : EVM S → Res (EVM S * A)) (k : A → Exec S B') :
  (∀ e, env_ok d r0 e → gives_back gas left (m e)) →
  (∀ a, 0 ≤ left a ≤ gas → spends g B (k a)) →
  spends g B (in_evm m ≫= k).
Proof.
  intros Hm Hk f ((He & Hr) & Hg & Hc). specialize (Hm (f_evm f) (conj He Hr)).
  unfold mbind, Exec_bind, Res_bind, in_evm, mbind. cbn.
  destruct (m (f_evm f)) as [[e a]|p|]; cbn; [|done|done]. destruct Hm as [He' Ha].
  by apply (Hk a Ha).
Qed.
(** ** Creations *)

Lemma contract_Gas_tri g :
  hoare (fr d r0 0 g) (λ a f, fr (S := S) d r0 0 g f ∧ a = g) (ended d r0 g) contract_Gas.
Proof. intros f Hf. split; [done|]. by destruct Hf as (_ & <- & _). Qed.

Lemma spend_tri g c :
  0 ≤ c ≤ g → hoare (fr d r0 0 g) (λ _, fr d r0 0 (g - c)) (ended d r0 g) (spend (S := S) c).
Proof.
  intros Hc f (He & Hg & Hr & Hm). unfold spend, UseGas, gets, put_contract, mbind, Exec_bind, Res_bind, mbind. cbn.
  rewrite Hg. destruct (Z.ltb_spec g c); [lia|]. split; [done|]. cbn. split; [by rewrite ?Hg|]. split; [lia|done].
Qed.

(** Put [part] of the gas aside, and give the creation that much. *)
Lemma spends_create {A B'} g part (left : A → Z) (m : ContractRef Contract → EVM S → Res (EVM S * A)) (k : A → Exec S B') :
  (g < 2 ^ 64 → 0 ≤ part ≤ g) →
  (∀ me e, env_ok d r0 e → 0 ≤ part < 2 ^ 64 → gives_back part left (m me e)) →
  (∀ a, 0 ≤ left a ≤ part → g < 2 ^ 64 → spends (g - part) g (k a)) →
  spends g g (_ ← spend part; me ← self_ref; r ← in_evm (m me); k r).
Proof.
  intros Hpart Hm Hk. apply (hoare_bounded d r0 0 g); [done|]. intros Hg. specialize (Hpart ltac:(lia)).
  eapply hoare_bind; [by apply spend_tri|intros ?].
  apply spends_bind; [lia|apply calm_gets|intros me].
  eapply in_evm_left; [intros e He; apply Hm; [done|lia]|]. intros x Hx. apply Hk; lia.
Qed.

Lemma part_64 g : 0 ≤ g → 0 ≤ g - g / 64 ≤ g.
Proof.
  intros Hg. pose proof (Z.div_pos g 64). assert (g / 64 ≤ g) by (apply Z.div_le_upper_bound; lia). lia.
Qed.

Lemma spends_writable {A} g (m : Exec S A) : spends g g m → spends g g (writable m).
Proof.
  intros Hm. unfold writable. apply spends_bind; [lia|apply calm_gets|intros e].
  destruct (readOnly e); [|done]. apply spends_calm; [lia|apply calm_throw].
Qed.

Lemma spends_opCreate calls g : calls_gas calls → spends g g (opCreate calls).
Proof.
  intros Hc. unfold opCreate. apply spends_writable. apply (hoare_bounded d r0 0 g); [done|]. intros Hg.
  do 3 (apply spends_bind; [lia|apply calm_pop|intros ?]).
  apply spends_bind; [lia|apply calm_gets|intros m]. apply spends_bind; [lia|apply calm_lift|intros input].
  eapply hoare_bind; [apply contract_Gas_tri|intros gas]. apply hoare_fact. intros ->.
  apply spends_bind; [lia|apply calm_gets|intros r]. cbv zeta.
  apply (spends_create g _ create_left).
  - intros _. destruct (IsEIP150 r); [apply part_64|]; lia.
  - intros me e He Hp. by apply gas_of_Create.
  - intros [[[res addr] left] err] Hl Hlt. unfold create_left in Hl. cbn [fst snd] in Hl.
    apply spends_end_create; lia.
Qed.

Lemma spends_opCreate2 calls g : calls_gas calls → spends g g (opCreate2 calls).
Proof.
  intros Hc. unfold opCreate2. apply spends_writable. apply (hoare_bounded d r0 0 g); [done|]. intros Hg.
  do 4 (apply spends_bind; [lia|apply calm_pop|intros ?]).
  apply spends_bind; [lia|apply calm_gets|intros m]. apply spends_bind; [lia|apply calm_lift|intros input].
  eapply hoare_bind; [apply contract_Gas_tri|intros gas]. apply hoare_fact. intros ->. cbv zeta.
  apply (spends_create g _ create_left).
  - intros _. apply part_64. lia.
  - intros me e He Hp. by apply gas_of_Create2.
  - intros [[[res addr] left] err] Hl Hlt. unfold create_left in Hl. cbn [fst snd] in Hl.
    apply spends_end_create; lia.
Qed.
(** ** Calls *)

Lemma pop_Back st st' x n : pop st = Ret (st', x) → 0 ≤ n → Back st (n + 1) = Back st' n.
Proof.
  unfold pop. destruct (st_at st (st_len st - 1)) as [y|] eqn:E; [|done]. intros [= <- <-] Hn.
  assert (0 < length (st_data st))%nat as Hlen.
  { unfold st_at, st_len in E. destruct (_ <? 0) eqn:El; [done|]. apply Z.ltb_ge in El. lia. }
  unfold Back, st_at, st_len. cbn [st_data]. rewrite length_take, Nat.min_l by lia.
  replace (Z.of_nat (length (st_data st) - 1) - n - 1) with (Z.of_nat (length (st_data st)) - (n + 1) - 1) by lia.
  destruct (Z.ltb_spec (Z.of_nat (length (st_data st)) - (n + 1) - 1) 0); [done|].
  by rewrite lookup_take_lt by lia.
Qed.

Lemma pop_Back_0 st st' x : pop st = Ret (st', x) → Back st 0 = Ret x.
Proof.
  unfold pop, Back. rewrite Z.sub_0_r. by destruct (st_at _ _); [intros [= <- <-]|].
Qed.

Lemma third_popped st st0 st1 st2 x y v :
  pop st = Ret (st0, x) → pop st0 = Ret (st1, y) → pop st1 = Ret (st2, v) → Back st 2 = Ret v.
Proof.
  intros E0 E1 E2. change 2 with (1 + 1). rewrite (pop_Back _ _ _ 1 E0) by lia.
  change 1 with (0 + 1). rewrite (pop_Back _ _ _ 0 E1) by lia. by eapply pop_Back_0.
Qed.

Lemma stipend_bound t g st v B :
  Back st 2 = Ret v → 0 ≤ t → 0 ≤ g → g + t + surcharge true st CallValueTransferGas = B → B < 2 ^ 64 →
  let gas := if IsZero v then t else wrapU 64 (t + CallStipend) in 0 ≤ gas ∧ g + gas ≤ B.
Proof.
  intros Hv Ht Hg <-. unfold surcharge, CallStipend, CallValueTransferGas. rewrite Hv. intros Hlt.
  destruct (IsZero v); cbv zeta; [lia|]. rewrite wrapU_small; lia.
Qed.

(** A frame whose stack and whose gas for the callee are known. *)
Definition at_call (t g : Z) (st : Stack) (f : Frame S) : Prop :=
  fr d r0 0 g f ∧ callGasTemp (f_evm f) = t ∧ f_stack f = st.

Lemma pop_at_call {A} t g st (Q : A → Frame S → Prop) E (k : Z → Exec S A) :
  (∀ x st', pop st = Ret (st', x) → hoare (at_call t g st') Q E (k x)) →
  hoare (at_call t g st) Q E (pop_ ≫= k).
Proof.
  intros Hk f (Hf & Ht & Hst). unfold pop_, gets, lift, put_stack, mbind, Exec_bind, Res_bind, mbind. cbn.
  rewrite Hst. destruct (pop st) as [[st' x]|p] eqn:E1; cbn; [|done]. by apply (Hk x st').
Qed.

Lemma temp_at_call {A} t g st (Q : A → Frame S → Prop) E (k : Z → Exec S A) :
  hoare (at_call t g st) Q E (k t) → hoare (at_call t g st) Q E (call_gas_temp ≫= k).
Proof.
  intros Hk f Hf. unfold call_gas_temp, gets, mbind, Exec_bind, Res_bind, mbind. cbn.
  destruct Hf as (Hf & Ht & Hst). rewrite Ht. by apply Hk.
Qed.

Lemma at_call_fr {A} t g st (Q : A → Frame S → Prop) E (m : Exec S A) :
  hoare (fr d r0 0 g) Q E m → hoare (at_call t g st) Q E m.
Proof. apply hoare_pre. by intros f [? _]. Qed.

(** With [t] put aside, the executor spends from [g] to at most what it gave. *)
Definition call_exec (b : bool) (ex : executionFunc (S := S)) : Prop :=
  ∀ calls t g st, calls_gas calls → 0 ≤ t → g + t + surcharge b st CallValueTransferGas < 2 ^ 64 →
    hoare (at_call t g st) (λ _, within (g + t + surcharge b st CallValueTransferGas))
      (ended d r0 (g + t + surcharge b st CallValueTransferGas)) (ex calls).

(** The rest of the operands, the call and the end. *)
Lemma spends_call g gas B (m : ContractRef Contract → EVM S → Res (EVM S * (bytes * Z * option VmError))) ro rs :
  (∀ me e, env_ok d r0 e → gives_back gas call_left (m me e)) →
  0 ≤ gas → g + gas ≤ B → B < 2 ^ 64 →
  spends g B (me ← self_ref; r ← in_evm (m me); end_call ro rs r).
Proof.
  intros Hm Hgas Hle Hlt. apply spends_bind; [lia|apply calm_gets|intros me].
  eapply in_evm_left; [by apply Hm|]. intros r Hr. apply spends_end_call; lia.
Qed.

Lemma calm_get_args o s : calm (S := S) d r0 (get_args o s).
Proof. unfold get_args. apply calm_bind; [apply calm_gets|intros m]. apply calm_lift. Qed.

Lemma call_exec_Call : call_exec true opCall.
Proof.
  intros calls t g st Hc Ht Hlt. unfold opCall.
  apply pop_at_call. intros x0 st0 E0. apply temp_at_call.
  apply pop_at_call. intros addr st1 E1. apply pop_at_call. intros value st2 E2. apply at_call_fr.
  pose proof (third_popped _ _ _ _ _ _ _ E0 E1 E2) as Hv.
  pose proof (surcharge_nonneg true st CallValueTransferGas ltac:(done)) as Hs0.
  remember (g + t + surcharge true st CallValueTransferGas) as B eqn:HB.
  apply (hoare_bounded d r0 0 g); [done|]. intros Hg.
  do 4 (apply spends_bind; [lia|apply calm_pop|intros ?]).
  apply spends_bind; [lia|apply calm_get_args|intros args].
  apply spends_bind; [lia|apply calm_gets|intros e].
  destruct (_ && _); [apply spends_calm; [lia|apply calm_throw]|]. cbv zeta.
  destruct (stipend_bound t g st value B Hv Ht ltac:(lia) (eq_sym HB) Hlt) as [Hgas Hle].
  eapply spends_call; [|exact Hgas|exact Hle|lia].
  intros me e' He. apply gas_of_Call; [done|done|lia].
Qed.

Lemma call_exec_CallCode : call_exec true opCallCode.
Proof.
  intros calls t g st Hc Ht Hlt. unfold opCallCode.
  apply pop_at_call. intros x0 st0 E0. apply temp_at_call.
  apply pop_at_call. intros addr st1 E1. apply pop_at_call. intros value st2 E2. apply at_call_fr.
  pose proof (third_popped _ _ _ _ _ _ _ E0 E1 E2) as Hv.
  pose proof (surcharge_nonneg true st CallValueTransferGas ltac:(done)) as Hs0.
  remember (g + t + surcharge true st CallValueTransferGas) as B eqn:HB.
  apply (hoare_bounded d r0 0 g); [done|]. intros Hg.
  do 4 (apply spends_bind; [lia|apply calm_pop|intros ?]).
  apply spends_bind; [lia|apply calm_get_args|intros args]. cbv zeta.
  destruct (stipend_bound t g st value B Hv Ht ltac:(lia) (eq_sym HB) Hlt) as [Hgas Hle].
  eapply spends_call; [|exact Hgas|exact Hle|lia].
  intros me e' He. apply gas_of_CallCode; [done|done|lia].
Qed.

Lemma call_exec_DelegateCall : call_exec false opDelegateCall.
Proof.
  intros calls t g st Hc Ht Hlt. cbn [surcharge] in *. unfold opDelegateCall.
  apply pop_at_call. intros x0 st0 E0. apply temp_at_call. apply at_call_fr.
  apply (hoare_bounded d r0 0 g); [done|]. intros Hg.
  do 5 (apply spends_bind; [lia|apply calm_pop|intros ?]).
  apply spends_bind; [lia|apply calm_get_args|intros args].
  apply (spends_call g t); [|lia..]. intros me e' He. apply gas_of_DelegateCall; [done|done|lia].
Qed.

Lemma call_exec_StaticCall : call_exec false opStaticCall.
Proof.
  intros calls t g st Hc Ht Hlt. cbn [surcharge] in *. unfold opStaticCall.
  apply pop_at_call. intros x0 st0 E0. apply temp_at_call. apply at_call_fr.
  apply (hoare_bounded d r0 0 g); [done|]. intros Hg.
  do 5 (apply spends_bind; [lia|apply calm_pop|intros ?]).
  apply spends_bind; [lia|apply calm_get_args|intros args].
  apply (spends_call g t); [|lia..]. intros me e' He. apply gas_of_StaticCall; [done|done|lia].
Qed.
End exec.

(** * Every turn of the loop that goes on uses gas *)

Section turn.
Context {S : Type} `{StateDB S} `{U : Uint256} `{!Uint256Range U} `{Externals}.
Context (d : Z) (r0 : Rules).

(** ** Charging an instruction *)

Lemma wrapU_32 x : 0 ≤ wrapU 64 (x * 32) ∧ (32 | wrapU 64 (x * 32)).
Proof.
  split; [by apply wrapU_range|].
  unfold wrapU. apply Z.mod_divide; [done|]. rewrite Z.mod_mod_divide by by exists (2 ^ 59). by apply Z.mod_mul.
Qed.

Lemma memory_size_ok (I E : Frame S → Prop) o :
  (∀ f, I f → E f) → hoare I (λ n f, I f ∧ 0 ≤ n ∧ (32 | n)) E (memory_size o).
Proof.
  intros HE f Hf. unfold memory_size. destruct (memorySize o) as [size|].
  2:{ cbn. split; [done|]. split; [done|]. by exists 0. }
  unfold gets, lift, mbind, Exec_bind, Res_bind, mbind. cbn. destruct (size (f_stack f)) as [[n ov]|p]; cbn; [|done]. destruct ov; cbn; [exact (HE _ Hf)|].
  destruct (2 ^ 64 <=? _); cbn; [exact (HE _ Hf)|]. split; [done|]. apply wrapU_32.
Qed.

(** The dynamic part: [J] may depend on the cost, the EVM and the stack. *)
Lemma charge_dynamic_ok (I : Frame S → Prop) (J : Z → EVM S → Stack → Prop) g o dyn :
  (∀ f, I f → fr d r0 0 g f) → dynamicGas o = Some dyn →
  (∀ n, 0 ≤ n → (32 | n) →
     hoare I (λ c f, (fr d r0 n g f ∧ 0 ≤ c) ∧ J c (f_evm f) (f_stack f)) (ended d r0 g) (dyn n)) →
  hoare I (λ _ f, ∃ c, fr d r0 0 (g - c) f ∧ 0 ≤ c ∧ J c (f_evm f) (f_stack f)) (ended d r0 g) (charge_dynamic o).
Proof.
  intros HI Hdyn Hd. unfold charge_dynamic. rewrite Hdyn.
  eapply hoare_bind; [apply memory_size_ok; intros f Hf; by eapply fr_ended, HI|intros n].
  apply hoare_fact. intros [Hn H32].
  eapply (hoare_bind _ (λ c f, (fr d r0 n g f ∧ 0 ≤ c) ∧ J c (f_evm f) (f_stack f))).
  { intros f Hf. specialize (Hd n Hn H32 f Hf). unfold mbind, Res_bind.
    by destruct (dyn n f) as [[f1 [err|c]]|p|]. }
  intros c f [[Hf Hc] HJ]. pose proof (tri_use_gas d r0 n g c Hc f Hf) as Hu.
  unfold use_gas, gets, put_contract, mbind, Exec_bind, Res_bind, mbind in *. cbn in *.
  destruct (UseGas (f_contract f) c) as [k []]; cbn in *; [|done]. destruct Hu as [(He & Hg & Hr & Hm) _].
  destruct (0 <? n) eqn:En; cbn.
  - exists c. split; [|done]. do 3 (split; [done|]). cbn [f_mem resized Z.ltb Z.compare] in *.
    unfold resized in Hm. by rewrite En in Hm.
  - exists c. split; [|done]. do 3 (split; [done|]). unfold resized in Hm. by rewrite En in Hm.
Qed.

Definition costs_opt (lo : Z) (dyn : option (Z → Exec S Z)) : Prop :=
  match dyn with Some dyn => costs d r0 lo dyn | None => lo = 0 end.

Lemma charge_plain lo g o :
  0 ≤ lo → costs_opt lo (dynamicGas o) →
  hoare (fr d r0 0 g) (λ _ f, ∃ c, fr d r0 0 (g - c) f ∧ lo ≤ c) (ended d r0 g) (charge_dynamic o).
Proof.
  intros Hlo Hc. destruct (dynamicGas o) as [dyn|] eqn:Hd; cbn in Hc.
  - eapply hoare_weaken; [eapply (charge_dynamic_ok _ (λ c _ _, lo ≤ c)); [done|exact Hd|]|done| |done].
    + intros n Hn H32. eapply hoare_weaken; [by apply Hc|done| |done]. cbn. intros c f [Hf Hle].
      split; [split; [done|lia]|done].
    + intros a f (c & Hf & _ & Hle). eauto.
  - unfold charge_dynamic. rewrite Hd. intros f Hf. cbn. exists 0. split; [by rewrite Z.sub_0_r|lia].
Qed.

(** ** The kinds of operations *)

Definition stops (op : Z) (o : operation (S := S)) : Prop :=
  ∀ calls f f' ev ret, perform op o calls f ≠ Done (f', (ev, (ret, None))).

Definition executes (o : operation (S := S)) : Prop :=
  (∀ ex calls g, execute o = Some ex → calls_gas d r0 calls → spends d r0 g g (ex calls)) ∧
  (∀ ex g, executeLog o = Some ex → spends d r0 g g ex).

Definition plain (o : operation (S := S)) : Prop :=
  executes o ∧ 0 ≤ constantGas o ∧ ∃ lo, 0 ≤ lo ∧ costs_opt lo (dynamicGas o) ∧ 1 ≤ constantGas o + lo.

Definition halting (op : Z) (o : operation (S := S)) : Prop :=
  executes o ∧ 0 ≤ constantGas o ∧ costs_opt 0 (dynamicGas o) ∧ stops op o.

Definition calling (b : bool) (o : operation (S := S)) : Prop :=
  (∃ ex, execute o = Some ex ∧ call_exec d r0 b ex) ∧ executeLog o = None ∧
  (∃ dyn, dynamicGas o = Some dyn ∧ call_pays d r0 b dyn) ∧ 1 ≤ constantGas o.

(** ** A turn *)

Definition turn (op : Z) (o : operation (S := S)) (calls : Calls) (f : Frame S) : Res (Frame S * StepResult) :=
  '(f, r) ← (_ ← check_stack o; _ ← use_gas (constantGas o); charge_dynamic o) f;
  match r with
  | inl err => Done (f, Return err)
  | inr _ =>
      '(f, (ev, (ret, err))) ← perform op o calls f;
      match err with
      | Some err => Done (f, Break ev ret err)
      | None =>
          Done (Build_Frame (f_evm f) (wrapU 64 (f_pc f + 1)) (f_mem f) (f_stack f) (f_contract f), Next ev)
      end
  end.

Lemma step_turn tbl calls (f : Frame S) :
  step tbl calls f = turn (GetOp (f_contract f) (f_pc f)) (tbl (GetOp (f_contract f) (f_pc f))) calls f.
Proof. done. Qed.

Definition turn_post (g : Z) (m : Res (Frame S * StepResult)) : Prop :=
  match m with
  | OutOfFuel => False
  | Crash _ => True
  | Done (f, Next _) => within d r0 (g - 1) f
  | Done (f, _) => ended d r0 g f
  end.

Definition turn_ok (op : Z) (o : operation (S := S)) : Prop :=
  ∀ calls g f, calls_gas d r0 calls → fr d r0 0 g f → turn_post g (turn op o calls f).

Definition perform_post (B : Z) (last : bool) (m : Res (Frame S * (option Event * (bytes * option VmError)))) : Prop :=
  match m with
  | OutOfFuel => False
  | Crash _ => True
  | Done (f, (_, (_, None))) => if last then False else within d r0 B f
  | Done (f, (_, (_, Some _))) => ended d r0 B f
  end.

Lemma within_ended B f : within (S := S) d r0 B f → ended d r0 B f.
Proof. intros (g & Hf & Hle). eapply ended_le; [exact Hle|]. by eapply fr_ended. Qed.

Lemma perform_ok op o calls (I : Frame S → Prop) B f :
  (∀ ex, execute o = Some ex → hoare I (λ _, within d r0 B) (ended d r0 B) (ex calls)) →
  (∀ ex, executeLog o = Some ex → hoare I (λ _, within d r0 B) (ended d r0 B) ex) →
  I f → perform_post B false (perform op o calls f).
Proof.
  intros He Hl Hf. unfold perform. destruct (is_log op).
  - destruct (executeLog o) as [ex|]; [|done]. specialize (Hl ex eq_refl f Hf).
    destruct (ex f) as [[f1 [err|[ev [ret [err|]]]]]|p|]; cbn; try done. by apply within_ended.
  - destruct (execute o) as [ex|]; [|done]. specialize (He ex eq_refl f Hf).
    destruct (ex calls f) as [[f1 [err|[ret [err|]]]]|p|]; cbn; try done. by apply within_ended.
Qed.

Lemma perform_stops op o calls B f :
  stops op o → perform_post B false (perform op o calls f) → perform_post B true (perform op o calls f).
Proof.
  intros Hs. specialize (Hs calls f). destruct (perform op o calls f) as [[f1 [ev [ret [err|]]]]|p|]; try done.
  exfalso. by eapply Hs.
Qed.

(** A charge that leaves a frame with at most [g'] gas, and an execution from it. *)
Lemma turn_from op o calls g (Q : Frame S → Prop) f :
  0 ≤ constantGas o → fr d r0 0 g f →
  (constantGas o ≤ g →
   hoare (λ f1, fr d r0 0 (g - constantGas o) f1 ∧ f_stack f1 = f_stack f) (λ _, Q) (ended d r0 (g - constantGas o)) (charge_dynamic o)) →
  (∀ f1, Q f1 → ∃ B last, B ≤ g ∧ (last = false → B < g) ∧ perform_post B last (perform op o calls f1)) →
  turn_post g (turn op o calls f).
Proof.
  intros Hc0 Hf Hch Hp. unfold turn, check_stack, gets, mbind, Exec_bind, Res_bind, mbind. cbn -[use_gas charge_dynamic].
  assert (ended d r0 g f) as He by by eapply fr_ended.
  destruct (_ <? _); [done|]. destruct (_ <? _); [done|]. cbn -[use_gas charge_dynamic].
  pose proof (tri_use_gas d r0 0 g (constantGas o) Hc0 f Hf) as Hu.
  assert (fixed_stack (use_gas (S := S) (constantGas o))) as Hfix by fixed. specialize (Hfix f).
  destruct (use_gas (constantGas o) f) as [[f1 [err|[]]]|p|]; [done| |done|done]. destruct Hu as [Hf1 Hle].
  specialize (Hch Hle f1 (conj Hf1 (Hfix _ _ eq_refl))).
  destruct (charge_dynamic o f1) as [[f2 [err|[]]]|p|]; [eapply ended_le; [|exact Hch]; lia| |done|done].
  destruct (Hp f2 Hch) as (B & last & HB & Hlast & Hpp).
  destruct (perform op o calls f2) as [[f3 [ev [ret [err|]]]]|p|]; cbn in *; try done.
  - by eapply ended_le.
  - destruct last; [done|]. destruct Hpp as (g3 & (Henv & Hg3) & Hle3). exists g3. split; [done|].
    specialize (Hlast eq_refl). lia.
Qed.

Lemma plain_turn op o : plain o → turn_ok op o.
Proof.
  intros ((Hex & Hlg) & Hc & lo & Hlo & Hcost & Hpos) calls g f Hcalls Hf.
  eapply (turn_from _ _ _ _ (λ f, ∃ c, fr d r0 0 (g - constantGas o - c) f ∧ lo ≤ c)); [done..| |].
  - intros _. eapply hoare_pre; [|by eapply charge_plain]. tauto.
  - intros f1 (c & Hf1 & Hlec). exists (g - constantGas o - c), false. split; [lia|]. split; [lia|].
    eapply (perform_ok _ _ _ (fr d r0 0 (g - constantGas o - c))); [|by intros; apply Hlg|done].
    intros ex Ex. by apply Hex.
Qed.

Lemma halting_turn op o : halting op o → turn_ok op o.
Proof.
  intros ((Hex & Hlg) & Hc & Hcost & Hstop) calls g f Hcalls Hf.
  eapply (turn_from _ _ _ _ (λ f, ∃ c, fr d r0 0 (g - constantGas o - c) f ∧ 0 ≤ c)); [done..| |].
  - intros _. eapply hoare_pre; [|by eapply charge_plain]. tauto.
  - intros f1 (c & Hf1 & Hlec). exists (g - constantGas o - c), true. split; [lia|]. split; [done|].
    apply perform_stops; [done|].
    eapply (perform_ok _ _ _ (fr d r0 0 (g - constantGas o - c))); [|by intros; apply Hlg|done].
    intros ex Ex. by apply Hex.
Qed.

Lemma calling_turn b op o : calling b o → turn_ok op o.
Proof.
  intros ((ex & Hex & Hcx) & Hlg & (dyn & Hdyn & Hpay) & Hc) calls g f Hcalls Hf.
  set (st := f_stack f). set (sur := surcharge b st CallValueTransferGas).
  assert (0 ≤ sur) as Hsur by by apply surcharge_nonneg.
  set (J := λ c (e : EVM S) st', (0 ≤ callGasTemp e ∧ callGasTemp e + sur ≤ c) ∧ st' = st).
  eapply (turn_from _ _ _ _
    (λ f1, ∃ c, fr d r0 0 (g - constantGas o - c) f1 ∧ 0 ≤ c ∧ J c (f_evm f1) (f_stack f1))); [lia|done| |].
  - intros _. eapply charge_dynamic_ok; [tauto|exact Hdyn|]. intros n Hn H32.
    eapply hoare_weaken; [by apply (Hpay st n (g - constantGas o))|done| |done].
    intros c f1 [(Hf1 & Ht & Hle) Hst]. unfold J. fold sur in Hle. split; [split; [done|lia]|]. split; [lia|done].
  - intros f1 (c & Hf1 & Hc0 & (Ht & Hle) & Hst). destruct Hf as (_ & _ & Hg & _).
    set (g1 := g - constantGas o - c) in *. set (t := callGasTemp (f_evm f1)) in *.
    exists (g1 + t + sur), false. split; [lia|]. split; [lia|].
    eapply (perform_ok _ _ _ (at_call d r0 t g1 st)); [|by rewrite Hlg|by split].
    intros ex' [= <-]%(eq_trans (eq_sym Hex)). apply Hcx; [done|lia|]. fold sur. lia.
Qed.
End turn.
