(* ===== verification/GasTables.v ===== *)
(** * The instruction sets use gas *)

From S2P Require Import Prelude Common Params Uint256 VmFacts Machine Tx.
From S2P Require Import Vm Evm Interpreter Gas Instructions JumpTable RecorderFacts CallFacts.
From S2P Require Import GasFacts GasOps.

Create HintDb gas_dyn.
#[export] Hint Resolve calm_pop calm_peek calm_push calm_set_peek calm_topics calm_opMstore calm_opMstore8
  calm_get_args : gas.
#[export] Hint Resolve costs_copier costs_keccak costs_create2 costs_memory_only costs_log costs_exp costs_sstore
  costs_sstore_2200 costs_sstore_2929 costs_sload_2929 costs_account_2929 costs_extcodecopy_2929
  costs_selfdestruct costs_selfdestruct_2929 : gas_dyn.
#[export] Hint Resolve call_exec_Call call_exec_CallCode call_exec_DelegateCall call_exec_StaticCall
  call_fits_Call call_fits_CallCode call_fits_plain call_fits_pays call_pays_2929 : gas_dyn.

Inductive GasKind := KCall (with_value : bool) | KHalt | KPlain.

Definition gas_kind (op : Z) : GasKind :=
  if (op =? CALL) || (op =? CALLCODE) then KCall true
  else if (op =? DELEGATECALL) || (op =? STATICCALL) then KCall false
  else if (op =? STOP) || (op =? RETURN) || (op =? REVERT) || (op =? SELFDESTRUCT) then KHalt
  else KPlain.

Section tables.
Context {S : Type} `{StateDB S} `{U : Uint256} `{!Uint256Range U} `{Externals}.
Context (d : Z) (r0 : Rules).

Definition uses_gas (op : Z) (o : operation (S := S)) : Prop :=
  match gas_kind op with
  | KCall b => calling d r0 b o
  | KHalt => halting d r0 op o
  | KPlain => plain d r0 o
  end.

Lemma uses_gas_turn op o : uses_gas op o → turn_ok d r0 op o.
Proof.
  unfold uses_gas. destruct (gas_kind op).
  - apply calling_turn.
  - apply halting_turn.
  - apply plain_turn.
Qed.

Lemma executes_oper ex lg g dyn minS maxS size :
  (∀ ex' calls g, ex = Some ex' → calls_gas d r0 calls → spends d r0 g g (ex' calls)) →
  (∀ ex' g, lg = Some ex' → spends d r0 g g ex') →
  executes (S := S) d r0 (oper ex lg g dyn minS maxS size).
Proof. done. Qed.

Lemma undefined_stops op : stops op (undefined (S := S)).
Proof.
  intros calls f f' ev ret. unfold perform. destruct (is_log op); [done|]. cbn.
  unfold opUndefined, gets, lift, mbind, Exec_bind, Res_bind, mbind. cbn. by destruct (index _ _).
Qed.

(** An execution that never returns to the loop. *)
Definition ends (m : Exec S (bytes * option VmError)) : Prop := ∀ f f' r, m f ≠ Done (f', inr (r, None)).

Lemma ends_bind {A} (m : Exec S A) k : (∀ a, ends (k a)) → ends (m ≫= k).
Proof.
  intros Hk f f' r. unfold mbind, Exec_bind, Res_bind, mbind.
  destruct (m f) as [[f1 [err|a]]|p|]; [done| |done|done]. apply Hk.
Qed.
Lemma ends_throw err : ends (throw err).
Proof. done. Qed.
Lemma ends_error ret err : ends (mret (ret, Some err)).
Proof. done. Qed.
Lemma ends_writable m : ends m → ends (writable m).
Proof. intros Hm. apply ends_bind. intros e. by destruct (readOnly e). Qed.

Lemma stops_oper op ex g dyn minS maxS size :
  (∀ calls, ends (ex calls)) → stops op (oper (Some ex) None g dyn minS maxS size).
Proof.
  intros He calls f f' ev ret. unfold perform. destruct (is_log op); [done|]. cbn.
  specialize (He calls f). destruct (ex calls f) as [[f1 [err|[r [err|]]]]|p|]; cbn; try done.
  intros [= -> _ ->]. by eapply He.
Qed.
End tables.

Section logs.
Context {S : Type} `{StateDB S} `{U : Uint256} `{!Uint256Range U} `{Externals}.
Context (d : Z) (r0 : Rules).

Lemma calm_writable {A} (m : Exec S A) : calm d r0 m → calm d r0 (writable m).
Proof. intros Hm. apply calm_bind; [apply calm_gets|intros e]. destruct (readOnly e); [apply calm_throw|done]. Qed.

Lemma calm_log_operands n : calm (S := S) d r0 (log_operands n).
Proof.
  unfold log_operands. do 3 (apply calm_bind; [eauto with gas nocore|intros ?]).
  do 3 (apply calm_bind; [first [apply calm_gets | apply calm_lift]|intros ?]). apply calm_ret.
Qed.

Lemma calm_makeLog n c : calm (S := S) d r0 (makeLog n c).
Proof.
  apply calm_writable, calm_bind; [apply calm_log_operands|intros [[a topics] dt]].
  apply calm_bind; [apply calm_gets|intros e]. apply calm_bind; [apply calm_put_db|intros _]. apply calm_ret.
Qed.

Lemma calm_makeLogSu n : calm (S := S) d r0 (makeLogSu n).
Proof.
  apply calm_writable, calm_bind; [apply calm_log_operands|intros [[a topics] dt]].
  apply calm_bind; [apply calm_gets|intros e]. destruct (AddLogSu _ _) as [db l].
  apply calm_bind; [apply calm_put_db|intros _]. apply calm_ret.
Qed.
End logs.
#[export] Hint Resolve calm_makeLog calm_makeLogSu : gas.

(** Reduce the kind of a concrete opcode. *)
Ltac gas_kind := unfold uses_gas;
  match goal with |- context [gas_kind ?op] =>
    let k := eval vm_compute in (gas_kind op) in change (gas_kind op) with k; cbv iota beta in * end.

Ltac spends := first
  [ simple apply spends_opCreate; assumption | simple apply spends_opCreate2; assumption
  | apply spends_calm; [done|calm] ].
Ltac executes :=
  apply executes_oper; [intros ? ? ? [= <-] ?; spends|intros ? ? [=]; subst; spends].
Ltac dyn_cost := cbn [dynamicGas oper costs_opt];
  lazymatch goal with
  | |- costs _ _ _ ?dyn =>
      lazymatch dyn with
      | gasExpFrontier => by apply (costs_exp _ _ ExpByteFrontier)
      | gasExpEIP158 => by apply (costs_exp _ _ ExpByteEIP158)
      | makeGasLog _ => by apply costs_log
      | gasSelfdestructEIP2929 => apply costs_selfdestruct_2929
      | gasSelfdestructEIP3529 => apply costs_selfdestruct_2929
      | gasSStoreEIP2929 => apply costs_sstore_2929
      | gasSStoreEIP3529 => apply costs_sstore_2929
      | gasCallDataCopy => apply costs_copier
      | gasCodeCopy => apply costs_copier
      | gasExtCodeCopy => apply costs_copier
      | gasReturnDataCopy => apply costs_copier
      | _ => solve [eauto with gas_dyn nocore]
      end
  | |- _ => reflexivity
  end.
Ltac plain_op := split; [executes|split; [done|eexists; split; [|split; [dyn_cost|done]]; done]].

Ltac ends := repeat first [apply ends_writable | apply ends_throw | apply ends_error | apply ends_bind; intros ?
  | match goal with |- ends ?m => let h := head_of m in unfold h end].
Ltac halt_op := split; [executes|split; [done|split; [dyn_cost|apply stops_oper; intros ?; ends]]].
Ltac call_op := split; [eexists; split; [reflexivity|eauto with gas_dyn]|split; [done|split;
  [eexists; split; [reflexivity|eauto with gas_dyn]|done]]].
Ltac gas_op := gas_kind;
  match goal with
  | |- plain _ _ _ => plain_op
  | |- halting _ _ _ _ => halt_op
  | |- calling _ _ _ _ => call_op
  end.

Section tables.
Context {S : Type} `{StateDB S} `{U : Uint256} `{!Uint256Range U} `{Externals}.
Context (d : Z) (r0 : Rules).

Lemma frontier_gas : Forall (λ '(op, o), uses_gas d r0 op o) (frontier_ops (S := S)).
Proof.
  unfold frontier_ops. rewrite !Forall_app.
  split_and!; unfold frontier_arithmetic, frontier_environment, frontier_memory, frontier_push_1_16,
    frontier_push_17_32, frontier_dup, frontier_swap, frontier_log_and_system;
    repeat (constructor; [gas_op|]); constructor.
Qed.

(** Updates of the gas of an operation, by its kind. *)
Lemma plain_gas (o : operation (S := S)) g dyn :
  0 ≤ g → plain d r0 o → (∃ lo, 0 ≤ lo ∧ costs_opt d r0 lo dyn ∧ 1 ≤ g + lo) →
  plain d r0 (oper (execute o) (executeLog o) g dyn (op_minStack o) (op_maxStack o) (memorySize o)).
Proof. by intros Hg ((? & ?) & _) Hd. Qed.

Lemma plain_constant (o : operation (S := S)) g :
  1 ≤ g → plain d r0 o →
  plain d r0 (oper (execute o) (executeLog o) g (dynamicGas o) (op_minStack o) (op_maxStack o) (memorySize o)).
Proof.
  intros Hg Ho. apply plain_gas; [lia|done|]. destruct Ho as (_ & _ & lo & Hlo & Hc & _).
  exists lo. split; [done|]. split; [done|lia].
Qed.

Lemma plain_dynamic lo (o : operation (S := S)) dyn :
  1 ≤ lo → costs d r0 lo dyn → plain d r0 o →
  plain d r0 (oper (execute o) (executeLog o) (constantGas o) (Some dyn) (op_minStack o) (op_maxStack o) (memorySize o)).
Proof.
  intros Hlo Hd Ho. assert (0 ≤ constantGas o) by by destruct Ho as (_ & ? & _).
  apply plain_gas; [done|done|]. exists lo. split; [lia|]. split; [done|lia].
Qed.

Lemma halting_gas op (o : operation (S := S)) g dyn :
  0 ≤ g → halting d r0 op o → costs_opt d r0 0 dyn →
  halting d r0 op (oper (execute o) (executeLog o) g dyn (op_minStack o) (op_maxStack o) (memorySize o)).
Proof. by intros Hg ((? & ?) & _ & _ & Hs) Hd. Qed.

Lemma halting_constant op (o : operation (S := S)) g :
  0 ≤ g → halting d r0 op o →
  halting d r0 op (oper (execute o) (executeLog o) g (dynamicGas o) (op_minStack o) (op_maxStack o) (memorySize o)).
Proof. intros Hg Ho. apply halting_gas; [done..|]. by destruct Ho as (_ & _ & ? & _). Qed.

Lemma halting_dynamic op (o : operation (S := S)) dyn :
  halting d r0 op o → costs d r0 0 dyn →
  halting d r0 op (oper (execute o) (executeLog o) (constantGas o) (Some dyn) (op_minStack o) (op_maxStack o) (memorySize o)).
Proof. intros Ho Hd. apply halting_gas; [|done..]. by destruct Ho as (_ & ? & _). Qed.

Lemma calling_gas b (o : operation (S := S)) g dyn :
  1 ≤ g → calling d r0 b o → call_pays d r0 b dyn →
  calling d r0 b (oper (execute o) (executeLog o) g (Some dyn) (op_minStack o) (op_maxStack o) (memorySize o)).
Proof. intros Hg (Hex & Hlg & _) Hd. split; [done|]. split; [done|]. split; [by exists dyn|done]. Qed.

Lemma calling_constant b (o : operation (S := S)) g :
  1 ≤ g → calling d r0 b o →
  calling d r0 b (oper (execute o) (executeLog o) g (dynamicGas o) (op_minStack o) (op_maxStack o) (memorySize o)).
Proof. by intros Hg (Hex & Hlg & Hd & _). Qed.

Lemma frontier_set_gas : set_all (uses_gas d r0) frontier_slots.
Proof. apply set_all_ops; [apply frontier_gas|]. by intros ? ?. Qed.
#[local] Hint Resolve frontier_set_gas : vm_sets.

Ltac gas_constant := gas_kind; first
  [ apply plain_constant; [done|assumption] | apply halting_constant; [done|assumption]
  | apply calling_constant; [done|assumption] ].
Ltac gas_dynamic := gas_kind; first
  [ eapply plain_dynamic; [|dyn_cost|assumption]; done | apply halting_dynamic; [assumption|dyn_cost] ].
Ltac gas_both := gas_kind; first
  [ apply plain_gas; [done|assumption|eexists; split; [|split; [dyn_cost|done]]; done]
  | apply halting_gas; [done|assumption|dyn_cost]
  | apply calling_gas; [done|assumption|apply call_pays_2929; [assumption|eauto with gas_dyn]] ].
Ltac set_gas := repeat first
  [ solve [auto with vm_sets nocore]
  | apply set_all_both; [intros ? ?; gas_both|]
  | apply set_all_constantGas; [intros ? ?; gas_constant|]
  | apply set_all_dynamicGas; [intros ? ?; gas_dynamic|]
  | apply set_all_ops; [repeat (constructor; [cbv beta; gas_op|]); constructor|]
  | match goal with |- set_all _ (slots ?l _) => let h := head_of l in unfold slots at 1, h; cbn [foldl slots1] end
  | match goal with |- set_all _ ?jt => let h := head_of jt in unfold h; cbv beta zeta end ].

Lemma homestead_set_gas : set_all (uses_gas d r0) homestead_slots.
Proof. set_gas. Qed.
#[local] Hint Resolve homestead_set_gas : vm_sets.
Lemma tangerineWhistle_set_gas : set_all (uses_gas d r0) tangerineWhistle_slots.
Proof. set_gas. Qed.
#[local] Hint Resolve tangerineWhistle_set_gas : vm_sets.
Lemma spuriousDragon_set_gas : set_all (uses_gas d r0) spuriousDragon_slots.
Proof. set_gas. Qed.
#[local] Hint Resolve spuriousDragon_set_gas : vm_sets.
Lemma byzantium_set_gas : set_all (uses_gas d r0) byzantium_slots.
Proof. set_gas. Qed.
#[local] Hint Resolve byzantium_set_gas : vm_sets.
Lemma constantinople_set_gas : set_all (uses_gas d r0) constantinople_slots.
Proof. set_gas. Qed.
#[local] Hint Resolve constantinople_set_gas : vm_sets.
Lemma istanbul_set_gas : set_all (uses_gas d r0) istanbul_slots.
Proof. set_gas. Qed.
#[local] Hint Resolve istanbul_set_gas : vm_sets.

Lemma berlin_set_gas : IsEIP150 r0 = true → set_all (uses_gas d r0) berlin_slots.
Proof. intros H150. set_gas. Qed.
#[local] Hint Resolve berlin_set_gas : vm_sets.
Lemma london_set_gas : IsEIP150 r0 = true → set_all (uses_gas d r0) london_slots.
Proof. intros H150. set_gas. Qed.

(** The rules are those of a chain where Berlin and London come after EIP-150. *)
Definition ordered_rules (r : Rules) : Prop := IsBerlin r || IsLondon r = true → IsEIP150 r = true.

Lemma instruction_slots_gas r : r = r0 → ordered_rules r → set_all (uses_gas d r0) (instruction_slots r).
Proof.
  intros -> Hr. unfold ordered_rules in Hr. unfold instruction_slots.
  destruct (IsLondon r0); [apply london_set_gas, Hr, orb_true_r|].
  destruct (IsBerlin r0); [by apply berlin_set_gas, Hr|].
  repeat (match goal with |- set_all _ (if ?b then _ else _) => destruct b end); auto with vm_sets nocore.
Qed.

Lemma undefined_turn op : turn_ok d r0 op (undefined (S := S)).
Proof.
  apply halting_turn. split; [executes|]. split; [done|]. split; [done|apply undefined_stops].
Qed.

Lemma nil_slot_turn op : turn_ok d r0 op (nil_slot (S := S)).
Proof.
  apply halting_turn. split; [executes|]. split; [done|]. split; [done|].
  intros calls f f' ev ret. unfold perform. by destruct (is_log op).
Qed.

Lemma table_turn r op : r = r0 → ordered_rules r → turn_ok d r0 op (table (instruction_set r) op).
Proof.
  intros Hr Ho. rewrite instruction_set_slots. apply table_all; [apply undefined_turn|apply nil_slot_turn|].
  intros k o Hk. apply uses_gas_turn. by eapply instruction_slots_gas.
Qed.
End tables.

(** * Calls and runs end, with no more gas than they got *)

(** The gas of a precompiled contract is an unsigned integer. *)
Class ExternalsRange (X : Externals) : Prop :=
  { RequiredGas_range r addr p input : precompile r addr = Some p → 0 ≤ RequiredGas p input }.

Section runs.
Context {S : Type} `{StateDB S} `{U : Uint256} `{!Uint256Range U} `{X : Externals} `{!ExternalsRange X}.
Context (r0 : Rules).

Definition run_gas (d : Z) (run : Runner (S := S)) : Prop :=
  ∀ c i ro e, env_ok d r0 e → 0 ≤ Gas c < 2 ^ 64 →
    gives_back d r0 (Gas c) (λ '(c', _, _), Gas c') (run c i ro e).

Lemma loop_ends d tbl calls fuel g (f : Frame S) evs :
  (∀ op, turn_ok d r0 op (tbl op)) → calls_gas d r0 calls → fr d r0 0 g f → g < Z.of_nat fuel →
  match loop fuel tbl calls f evs with
  | OutOfFuel => False
  | Crash _ => True
  | Done (f', _) => ended d r0 g f'
  end.
Proof.
  intros Htbl Hc. revert g f evs. induction fuel as [|fuel IH]; intros g f evs Hf Hlt.
  { destruct Hf as (_ & _ & Hg & _). lia. }
  cbn [loop]. rewrite step_turn. pose proof (Htbl (GetOp (f_contract f) (f_pc f)) calls g f Hc Hf) as Ht.
  destruct (turn _ _ calls f) as [[f1 [ev|err|ev ret err]]|p|]; cbn in *; try done.
  destruct Ht as (g1 & Hf1 & Hle). specialize (IH g1 f1 (evs ++ opt_list ev) Hf1 ltac:(lia)).
  destruct (loop fuel tbl calls f1 _) as [[f2 res]|p|]; [|done|done]. eapply ended_le; [|exact IH]. lia.
Qed.

Lemma enter_env d (e : EVM S) ro : env_ok d r0 e → env_ok (d + 1) r0 (enter_run e ro).
Proof. intros [Hd Hr]. unfold enter_run, env_ok. cbv zeta. destruct (resets _ ro); cbn [depth chainRules set_returnData set_readOnly set_depth]; by rewrite Hd. Qed.

Lemma leave_env d (e : EVM S) b : env_ok (d + 1) r0 e → env_ok d r0 (leave_run b e).
Proof. intros [Hd Hr]. unfold leave_run, env_ok. destruct b; cbn [depth chainRules set_readOnly set_depth]; rewrite Hd; (split; [lia|done]). Qed.

Lemma set_top_events_env d (e e' : EVM S) evs : set_top_events e evs = Done e' → env_ok d r0 e → env_ok d r0 e'.
Proof. unfold set_top_events. destruct (CallStack e); [done|]. by intros [= <-]. Qed.

Lemma run_body_gas d tbl calls :
  (∀ op, turn_ok (d + 1) r0 op (tbl op)) → calls_gas (d + 1) r0 calls → run_gas d (run_body tbl calls).
Proof.
  intros Htbl Hc c i ro e He Hg. unfold run_body. cbv zeta.
  destruct (len (Code c) =? 0).
  { cbn. split; [by apply leave_env, enter_env|lia]. }
  set (f0 := {| f_evm := enter_run e ro; f_pc := 0; f_mem := NewMemory; f_stack := newstack; f_contract := set_Input c i |}).
  assert (fr (d + 1) r0 0 (Gas c) f0) as Hf0.
  { split; [by apply enter_env|]. split; [done|]. split; [done|]. by split. }
  pose proof (loop_ends (d + 1) tbl calls (Datatypes.S (Z.to_nat (Gas (set_Input c i)))) _ f0 [] Htbl Hc Hf0) as Hl.
  specialize (Hl ltac:(cbn; lia)). destruct (loop _ _ _ _ _) as [[f1 [[evs ret] err]]|p|]; [|done|done].
  destruct Hl as [He1 Hg1]. cbn. destruct evs as [evs|].
  - destruct (set_top_events _ _) as [e2|p|] eqn:E; cbn; [|done|].
    + split; [|lia]. eapply leave_env, set_top_events_env; [exact E|done].
    + unfold set_top_events in E. by destruct (CallStack _).
  - cbn. split; [by apply leave_env|lia].
Qed.

(** ** Calls *)

Lemma settle_gas d sn (e : EVM S) ret gas err B :
  env_ok d r0 e → 0 ≤ gas ≤ B → gives_back d r0 B call_left (settle sn e ret gas err).
Proof.
  intros He Hg. unfold settle. destruct err as [x|]; [|by split].
  destruct (RevertToSnapshot _ _); cbn; [|done]. split; [done|]. unfold call_left. cbn. destruct (decide _); lia.
Qed.

Lemma settled_gas d sn B (m : Res (EVM S * (bytes * Z * option VmError))) :
  gives_back d r0 B call_left m →
  gives_back d r0 B call_left (mbind (M:=Res) (λ '(e1, (ret, gas, err)), settle sn e1 ret gas err) m).
Proof. destruct m as [[e [[ret gas] err]]|p|]; [|done|done]. intros [He Hg]. by apply settle_gas. Qed.

Lemma precompile_gas d (e : EVM S) r addr p input gas :
  precompile r addr = Some p → env_ok d r0 e → 0 ≤ gas → gives_back d r0 gas call_left (Done (e, RunPrecompiledContract p input gas)).
Proof.
  intros Hp He Hg. unfold RunPrecompiledContract, gives_back, call_left.
  pose proof (RequiredGas_range r addr p input Hp). destruct (Z.ltb_spec gas (RequiredGas p input)); cbn; [split; [done|lia]|].
  destruct (run_precompile p input). cbn. split; [done|lia].
Qed.

Lemma pop_node_env d (e e' : EVM S) : pop_node e = Done e' → env_ok d r0 e → env_ok d r0 e'.
Proof. unfold pop_node. destruct (CallStack e) as [|? []]; by intros [= <-]. Qed.

Lemma NewContract_env d (e e' : EVM S) c o v g k :
  NewContract e c o v g = (e', k) → env_ok d r0 e → env_ok d r0 e' ∧ Gas k = g.
Proof. unfold NewContract. destruct c; intros [= <- <-]; done. Qed.

Section with_run.
Context (d : Z) (run : Runner (S := S)) (Hrun : d ≤ CallCreateDepth → run_gas d run).

Lemma run_recorded_gas e node c i ro :
  d ≤ CallCreateDepth → env_ok d r0 e → 0 ≤ Gas c < 2 ^ 64 →
  gives_back d r0 (Gas c) (λ '(c', _, _), Gas c') (run_recorded run e node c i ro).
Proof.
  intros Hd He Hg. unfold run_recorded. specialize (Hrun Hd c i ro (push_node e node) He Hg).
  destruct (run c i ro (push_node e node)) as [[e1 [[c1 ret] err]]|p|]; cbn in *; [|done|done].
  destruct Hrun as [He1 Hg1]. destruct (pop_node e1) as [e2|p|] eqn:E; cbn; [|done|].
  - split; [by eapply pop_node_env|done].
  - unfold pop_node in E. by destruct (CallStack e1) as [|? []].
Qed.

Lemma recorded_gas e node c i ro g :
  d ≤ CallCreateDepth → env_ok d r0 e → 0 ≤ g < 2 ^ 64 → Gas c = g →
  gives_back d r0 g call_left
    ('(e2, (k2, ret, err)) ← run_recorded run e node c i ro; Done (e2, (ret, Gas k2, err))).
Proof.
  intros Hd He Hg <-. pose proof (run_recorded_gas e node c i ro Hd He Hg) as Hr.
  by destruct (run_recorded run e node c i ro) as [[e2 [[k2 ret] err]]|p|].
Qed.

Lemma depth_check (e : EVM S) : env_ok d r0 e → (CallCreateDepth <? depth e) = false → d ≤ CallCreateDepth.
Proof. intros [<- _] Hd. by apply Z.ltb_ge in Hd. Qed.

Lemma Call_gas c a i g v e : env_ok d r0 e → 0 ≤ g < 2 ^ 64 → gives_back d r0 g call_left (Call run c a i g v e).
Proof.
  intros He Hg. unfold Call. destruct (CallCreateDepth <? depth e) eqn:Ed; [by split; [|cbn; lia]|].
  pose proof (depth_check e He Ed) as Hd. destruct (negb _ && _); [by split; [|cbn; lia]|].
  destruct (Snapshot _) as [s sn]. destruct (negb _ && _); [by split; [|cbn; lia]|]. apply settled_gas.
  destruct (precompile _ _) eqn:Ep; [eapply precompile_gas; [exact Ep|done|lia]|]. destruct (len _ =? 0).
  - unfold attach_leaf. destruct (CallStack _); cbn; [done|]. split; [done|]. unfold call_left. cbn. lia.
  - match goal with |- context [NewContract ?e ?c ?o ?v ?g] => destruct (NewContract e c o v g) as [e1 k] eqn:EN end.
    eapply (NewContract_env d) in EN as [He1 Hk]; [|exact He]. by apply recorded_gas.
Qed.

Lemma CallCode_gas c a i g v e :
  env_ok d r0 e → 0 ≤ g < 2 ^ 64 → gives_back d r0 g call_left (CallCode run c a i g v e).
Proof.
  intros He Hg. unfold CallCode. destruct (CallCreateDepth <? depth e) eqn:Ed; [by split; [|cbn; lia]|].
  pose proof (depth_check e He Ed) as Hd. destruct (negb _); [by split; [|cbn; lia]|].
  destruct (Snapshot _) as [s sn]. apply settled_gas. destruct (precompile _ _) eqn:Ep; [eapply precompile_gas; [exact Ep|done|lia]|].
  match goal with |- context [NewContract ?e ?c ?o ?v ?g] => destruct (NewContract e c o v g) as [e1 k] eqn:EN end.
  eapply (NewContract_env d) in EN as [He1 Hk]; [|exact He]. by apply recorded_gas.
Qed.

Lemma AsDelegate_Gas k k' : AsDelegate k = Ret k' → Gas k' = Gas k.
Proof. unfold AsDelegate. destruct (caller k); [done|]. by intros [= <-]. Qed.

Lemma DelegateCall_gas c a i g e :
  env_ok d r0 e → 0 ≤ g < 2 ^ 64 → gives_back d r0 g call_left (DelegateCall run c a i g e).
Proof.
  intros He Hg. unfold DelegateCall. destruct (CallCreateDepth <? depth e) eqn:Ed; [by split; [|cbn; lia]|].
  pose proof (depth_check e He Ed) as Hd.
  destruct (Snapshot _) as [s sn]. apply settled_gas. destruct (precompile _ _) eqn:Ep; [eapply precompile_gas; [exact Ep|done|lia]|].
  match goal with |- context [NewContract ?e ?c ?o ?v ?g] => destruct (NewContract e c o v g) as [e1 k] eqn:EN end.
  eapply (NewContract_env d) in EN as [He1 Hk]; [|exact He].
  destruct (AsDelegate k) as [k'|p] eqn:EA; cbn -[run_recorded]; [|done]. apply AsDelegate_Gas in EA.
  apply recorded_gas; [done..|]. cbn. congruence.
Qed.

Lemma StaticCall_gas c a i g e :
  env_ok d r0 e → 0 ≤ g < 2 ^ 64 → gives_back d r0 g call_left (StaticCall run c a i g e).
Proof.
  intros He Hg. unfold StaticCall. destruct (CallCreateDepth <? depth e) eqn:Ed; [by split; [|cbn; lia]|].
  pose proof (depth_check e He Ed) as Hd.
  destruct (Snapshot _) as [s sn]. apply settled_gas. destruct (precompile _ _) eqn:Ep; [eapply precompile_gas; [exact Ep|done|lia]|].
  match goal with |- context [NewContract ?e ?c ?o ?v ?g] => destruct (NewContract e c o v g) as [e1 k] eqn:EN end.
  eapply (NewContract_env d) in EN as [He1 Hk]; [|exact He]. by apply recorded_gas.
Qed.

Lemma store_code_gas (e : EVM S) k a ret err e' k' err' :
  env_ok d r0 e → 0 ≤ Gas k → store_code e k a ret err = (e', k', err') → env_ok d r0 e' ∧ 0 ≤ Gas k' ≤ Gas k.
Proof.
  intros He Hg. unfold store_code. cbv zeta. destruct (if _ : bool then Some ErrInvalidCode else _).
  { intros [= <- <- _]. split; [done|lia]. }
  unfold UseGas. destruct (Z.ltb_spec (Gas k) (wrapU 64 (len ret * CreateDataGas))); intros [= <- <- _]; (split; [done|]).
  - lia.
  - cbn. pose proof (wrapU_range 64 (len ret * CreateDataGas) ltac:(done)). lia.
Qed.

Lemma create_gas c code h g v addr e :
  env_ok d r0 e → 0 ≤ g < 2 ^ 64 → gives_back d r0 g create_left (create run c code h g v addr e).
Proof.
  intros He Hg. unfold create. destruct (CallCreateDepth <? depth e) eqn:Ed; [by split; [|cbn; lia]|].
  pose proof (depth_check e He Ed) as Hd. destruct (negb _); [by split; [|cbn; lia]|].
  cbv zeta. destruct (wrapU _ _ <? _); [by split; [|cbn; lia]|].
  destruct (negb _ || _); [by split; [|cbn; lia]|]. destruct (Snapshot _) as [s sn].
  match goal with |- context [NewContract ?e ?c ?o ?v ?g] => destruct (NewContract e c o v g) as [e1 k] eqn:EN end.
  eapply (NewContract_env d) in EN as [He1 <-]; [|exact He].
  match goal with |- context [run_recorded run ?e ?n ?k ?i ?ro] =>
    pose proof (run_recorded_gas e n k i ro Hd He1 Hg) as Hr; destruct (run_recorded run e n k i ro) as [[e2 [[k2 ret] err]]|p|] end;
    cbn in *; [|done|done].
  destruct Hr as [He2 Hg2]. destruct (store_code e2 k2 addr ret err) as [[e3 k3] err3] eqn:Es.
  apply store_code_gas in Es as [He3 Hg3]; [|done|lia]. destruct err3 as [x|]; [|split; [done|unfold create_left; cbn; lia]].
  destruct (_ || _); [|split; [done|unfold create_left; cbn; lia]].
  destruct (RevertToSnapshot _ _); cbn; [|done]. split; [done|]. unfold create_left. cbn.
  destruct (decide _); [lia|]. unfold UseGas. rewrite Z.ltb_irrefl. cbn. lia.
Qed.

Lemma calls_of_gas : calls_gas d r0 (calls_of run).
Proof.
  split; intros; cbn.
  - by apply Call_gas.
  - by apply CallCode_gas.
  - by apply DelegateCall_gas.
  - by apply StaticCall_gas.
  - by apply create_gas.
  - by apply create_gas.
Qed.
End with_run.

(** Deep enough, every call ends. *)
Lemma levels_gas r levels d :
  r = r0 → ordered_rules r → CallCreateDepth + 1 - d ≤ Z.of_nat levels →
  calls_gas d r0 (calls_of (Run levels (table (instruction_set r)))).
Proof.
  intros Hr Ho. revert d. induction levels as [|levels IH]; intros d Hl; apply calls_of_gas.
  - lia.
  - intros Hd. cbn [Run]. apply run_body_gas; [intros op; by apply table_turn|apply IH; lia].
Qed.
End runs.
