(* ===== verification/ChainConfigFacts.v ===== *)
(** * Properties of the forks of a chain *)

From S2P Require Import Prelude Common Params Uint256 VmFacts Machine Tx.
From S2P Require Import Vm Evm Interpreter Gas Instructions JumpTable GasFacts GasOps GasTables ChainConfig.

(** ** Order *)

(** [t] is active only where [s] is. *)
Definition before (s t : option Z) : Prop := ∀ n, isForked t n = true → isForked s n = true.

#[export] Instance before_preorder : PreOrder before.
Proof. split; [by intros s n|]. intros s t u Hst Htu n Hn. by apply Hst, Htu. Qed.

Definition kept (f : fork) : bool := negb (fork_optional f) || bool_decide (is_Some (fork_block f)).

Lemma fork_step_before f g :
  fork_name f ≠ ""%string → fork_step f g = None → before (fork_block f) (fork_block g).
Proof.
  unfold fork_step. intros Hf. rewrite bool_decide_false by done. unfold before, isForked.
  destruct (fork_block f) as [a|], (fork_block g) as [b|]; try done.
  destruct (Z.ltb_spec b a); [done|]. intros _ n Hn. lia.
Qed.

Definition named (f : fork) : Prop := fork_name f ≠ ""%string.

Lemma fork_order_last last forks g :
  named last → Forall named forks → fork_order last forks = None → g ∈ forks → before (fork_block last) (fork_block g).
Proof.
  intros Hl Hn. revert last Hl. induction Hn as [|cur forks Hc Hn IH]; intros last Hl E Hg; [by apply elem_of_nil in Hg|].
  cbn in E. destruct (fork_step last cur) eqn:Es; [done|]. apply fork_step_before in Es; [|done].
  apply elem_of_cons in Hg as [->|Hg]; [done|]. fold (kept cur) in E. destruct (kept cur).
  - etrans; [exact Es|]. by apply IH.
  - by apply IH.
Qed.

Lemma fork_order_lookup last forks i j f g :
  Forall named forks → fork_order last forks = None →
  forks !! i = Some f → kept f = true → forks !! j = Some g → (i < j)%nat → before (fork_block f) (fork_block g).
Proof.
  intros Hn. revert last i j. induction Hn as [|cur forks Hc Hn IH]; intros last i j E Hi Hk Hj Hlt; [done|].
  cbn in E. destruct (fork_step last cur) eqn:Es; [done|]. fold (kept cur) in E. destruct j as [|j]; [lia|].
  destruct i as [|i]; cbn in Hi, Hj.
  - injection Hi as ->. rewrite Hk in E. eapply fork_order_last; [exact Hc|exact Hn|exact E|].
    by eapply list_elem_of_lookup_2.
  - eapply (IH _ i j); [exact E|done..|lia].
Qed.

(** The forks whose rules the machine follows, in their order. *)
Definition active_forks (r : Vm.Rules) : list bool :=
  [IsHomestead r; IsEIP150 r; IsEIP155 r; IsEIP158 r; IsByzantium r; IsConstantinople r; IsPetersburg r; IsIstanbul r;
   IsBerlin r; IsLondon r].

Definition implied (a b : bool) : Prop := b = true → a = true.

#[export] Instance implied_trans : Transitive implied.
Proof. intros a b c Hab Hbc Hc. by apply Hab, Hbc. Qed.

Section order.
Context (c : ChainConfig) (Hc : CheckConfigForkOrder c = None).

Lemma config_before i j f g :
  config_forks c !! i = Some f → kept f = true → config_forks c !! j = Some g → (i < j)%nat →
  before (fork_block f) (fork_block g).
Proof. apply fork_order_lookup with (last := mkFork "" None false); [by repeat constructor|exact Hc]. Qed.

(** A configuration that [CheckConfigForkOrder] accepts activates its forks
    in order: at every block the rules of a fork are active only with those of
    all earlier ones.  In particular the gas schedules of Berlin and London never
    run without the call rules of EIP-150 on which termination rests. *)
Theorem CheckConfigForkOrder_rules n :
  StronglySorted implied (active_forks (Config.Rules c n)) ∧ ordered_rules (Config.Rules c n).
Proof.
  assert (Sorted implied (active_forks (Config.Rules c n))) as Hs.
  { repeat constructor; cbn; unfold implied.
    - exact (config_before 10 11 _ _ eq_refl eq_refl eq_refl ltac:(lia) n).
    - exact (config_before 8 10 _ _ eq_refl eq_refl eq_refl ltac:(lia) n).
    - intros H. apply orb_true_iff. left. exact (config_before 7 8 _ _ eq_refl eq_refl eq_refl ltac:(lia) n H).
    - intros [H|[_ H]%andb_true_iff]%orb_true_iff; [|done]. exact (config_before 6 7 _ _ eq_refl eq_refl eq_refl ltac:(lia) n H).
    - exact (config_before 5 6 _ _ eq_refl eq_refl eq_refl ltac:(lia) n).
    - exact (config_before 4 5 _ _ eq_refl eq_refl eq_refl ltac:(lia) n).
    - exact (config_before 3 4 _ _ eq_refl eq_refl eq_refl ltac:(lia) n).
    - exact (config_before 2 3 _ _ eq_refl eq_refl eq_refl ltac:(lia) n).
    - exact (config_before 0 2 _ _ eq_refl eq_refl eq_refl ltac:(lia) n). }
  split; [apply Sorted_StronglySorted; [exact _|exact Hs]|].
  intros [H|H]%orb_true_iff; cbn in *; [exact (config_before 2 10 _ _ eq_refl eq_refl eq_refl ltac:(lia) n H)|exact (config_before 2 11 _ _ eq_refl eq_refl eq_refl ltac:(lia) n H)].
Qed.
End order.

Lemma CheckConfigForkOrder_rules_witness :
  CheckConfigForkOrder MainnetChainConfig = None ∧ ordered_rules (Config.Rules MainnetChainConfig 13000000).
Proof.
  split; [reflexivity|]. exact (proj2 (CheckConfigForkOrder_rules MainnetChainConfig eq_refl 13000000)).
Defined.

(** A skipped fork is refused. *)
Example fork_order_skips :
  CheckConfigForkOrder (mkChainConfig (Some 1) (Some 0) None false None 0 (Some 5) (Some 5) None None None None None None None
    None None None) = Some (NotEnabled "eip150Block" "eip155Block" 5).
Proof. reflexivity. Qed.

(** ** Changing the configuration *)

Lemma rewind_below what s1 s2 head :
  0 ≤ head < 2 ^ 64 → isForkIncompatible s1 s2 head = true ∨ isForked s1 head = true →
  0 ≤ RewindTo (newCompatError what s1 s2) ∧
  (RewindTo (newCompatError what s1 s2) < head ∨ RewindTo (newCompatError what s1 s2) = 0).
Proof.
  intros Hh Hor.
  set (rew := match s1, s2 with None, _ => s2 | Some s, None => Some s | Some s, Some n => if s <? n then Some s else Some n end).
  assert (∀ r, rew = Some r → r ≤ head) as Hr.
  { intros r. unfold rew, isForkIncompatible, isForked in *.
    destruct s1 as [a|], s2 as [b|]; try (intros [= <-]); try done; destruct Hor as [[H _]%andb_true_iff|H];
      try apply orb_true_iff in H; try lia; try done; destruct (Z.ltb_spec a b); intros [= <-]; lia. }
  unfold newCompatError. fold rew. cbn [RewindTo]. destruct rew as [r|]; [|lia]. specialize (Hr r eq_refl).
  destruct (Z.ltb_spec 0 r); [|lia]. rewrite (wrapU_small 64 r), wrapU_small by lia. lia.
Qed.

Definition rewinds (head : Z) (m : option ConfigCompatError) : Prop :=
  ∀ err, m = Some err → 0 ≤ RewindTo err ∧ (RewindTo err < head ∨ RewindTo err = 0).

Lemma rewinds_if b err next head :
  (b = true → rewinds head (Some err)) → rewinds head next → rewinds head (compat_if b err next).
Proof. unfold compat_if. destruct b; auto. Qed.

Lemma rewinds_fork what get c n next head :
  0 ≤ head < 2 ^ 64 → rewinds head next → rewinds head (compat_fork what get c n head next).
Proof.
  intros Hh. apply rewinds_if. intros Hb err [= <-]. apply rewind_below; [done|by left].
Qed.

Lemma checkCompatible_rewinds c n head : 0 ≤ head < 2 ^ 64 → rewinds head (checkCompatible c n head).
Proof.
  intros Hh. unfold checkCompatible.
  repeat first [apply rewinds_fork; [done|] | apply rewinds_if]; [..|done].
  - intros [Hb _]%andb_true_iff err [= <-]. apply rewind_below; [done|by right].
  - intros [Hb _]%andb_true_iff err [= <-]. apply rewind_below; [done|by right].
  - intros [Hb _]%andb_true_iff err [= <-]. apply rewind_below; [done|by left].
Qed.

Lemma compat_loop_ends c n fuel head last :
  0 ≤ head < 2 ^ 64 → (∀ l, last = Some l → head = RewindTo l) →
  head + (if last is Some _ then 1 else 2) < Z.of_nat fuel →
  ∃ res, compat_loop fuel c n head last = Some res ∧
    (res = last ∧ (checkCompatible c n head = None ∨ (is_Some last ∧ head = 0)) ∨
     ∃ l, res = Some l ∧ 0 ≤ RewindTo l ≤ head ∧ (checkCompatible c n (RewindTo l) = None ∨ RewindTo l = 0)).
Proof.
  revert head last. induction fuel as [|fuel IH]; intros head last Hh Hl Hf; [destruct last; lia|]. cbn [compat_loop].
  destruct (checkCompatible c n head) as [err|] eqn:E; [|exists last; auto].
  destruct (checkCompatible_rewinds c n head Hh err E) as [H0 Hr].
  assert (match last with Some l => RewindTo err =? RewindTo l | None => false end = true → is_Some last ∧ head = 0) as Hend.
  { destruct last as [l|]; [|done]. intros Heq%Z.eqb_eq. pose proof (Hl l eq_refl). split; [by eexists|]. destruct Hr; lia. }
  destruct (match last with Some l => RewindTo err =? RewindTo l | None => false end) eqn:Eq.
  - exists last. split; [done|]. left. split; [done|]. right. by apply Hend.
  - destruct (IH (RewindTo err) (Some err)) as (res & Hres & Hcase); [lia|by intros l [= <-]| |].
    { destruct last as [l|]; [|destruct Hr; lia]. specialize (Hl l eq_refl). apply Z.eqb_neq in Eq. destruct Hr; lia. }
    exists res. split; [done|]. right. destruct Hcase as [[-> [Hn|[_ Hz]]]|(l & -> & Hle & Hn)].
    + exists err. split; [done|]. split; [lia|by left].
    + exists err. split; [done|]. split; [lia|by right].
    + exists l. split; [done|]. split; [lia|done].
Qed.

(** What compatibility means: a block that is not past [head] has the same rules
    under both configurations.  Petersburg alone may move, to the block of
    Constantinople. *)
Lemma compat_if_none b err next : compat_if b err next = None → b = false ∧ next = None.
Proof. by destruct b. Qed.

Lemma same_forks s1 s2 head num :
  isForkIncompatible s1 s2 head = false → num ≤ head → isForked s1 num = isForked s2 num.
Proof.
  unfold isForkIncompatible, isForked, configNumEqual. destruct s1 as [a|], s2 as [b|]; intros H Hn; lia.
Qed.

Definition with_Petersburg (b : bool) (r : Vm.Rules) : Vm.Rules := {|
  ChainID := 0; IsHomestead := IsHomestead r; IsEIP150 := IsEIP150 r; IsEIP155 := IsEIP155 r; IsEIP158 := IsEIP158 r;
  IsByzantium := IsByzantium r; IsConstantinople := IsConstantinople r; IsPetersburg := b;
  IsIstanbul := IsIstanbul r; IsBerlin := IsBerlin r; IsLondon := IsLondon r |}.

Lemma checkCompatible_rules c n head num :
  checkCompatible c n head = None → num ≤ head →
  (∀ b, with_Petersburg b (Config.Rules c num) = with_Petersburg b (Config.Rules n num)) ∧
  (before (ConstantinopleBlock c) (PetersburgBlock c) → PetersburgBlock n ≠ ConstantinopleBlock c →
   isForked (PetersburgBlock c) num = isForked (PetersburgBlock n) num).
Proof.
  intros E Hn. unfold checkCompatible in E.
  repeat match type of E with compat_fork _ _ _ _ _ _ = None =>
           let Q := fresh "Q" in apply compat_if_none in E as [Q E]; apply (same_forks _ _ _ num) in Q; [|done]
         | compat_if _ _ _ = None => let Q := fresh "Q" in apply compat_if_none in E as [Q E] end.
  split.
  - intros b. unfold with_Petersburg, Config.Rules, Config.IsHomestead, Config.IsEIP150, Config.IsEIP155, Config.IsEIP158,
      Config.IsByzantium, Config.IsConstantinople, Config.IsIstanbul, Config.IsBerlin, Config.IsLondon. cbn. congruence.
  - intros Hb Hne. match goal with H : isForkIncompatible _ _ _ && _ = false |- _ => rename H into Hp end.
    apply andb_false_iff in Hp as [Hp|Hp]; [by eapply same_forks|].
    assert (isForked (PetersburgBlock n) head = false ∧ isForked (ConstantinopleBlock c) head = false) as [P1 P2].
    { revert Hp Hne. clear. unfold isForkIncompatible, configNumEqual, isForked.
      destruct (ConstantinopleBlock c) as [a|], (PetersburgBlock n) as [d|]; intros Hp Hne; try lia; try done; try (split; lia).
      destruct (Z.eqb_spec a d) as [->|]; [done|lia]. }
    apply (same_forks _ _ head); [|done]. unfold isForkIncompatible. rewrite P1.
    destruct (isForked (PetersburgBlock c) head) eqn:P3; [|done]. apply Hb in P3. congruence.
Qed.

(** [CheckCompatible] ends.  It reports nothing when the configurations agree up
    to [height]; otherwise they agree up to the block it says to go back to,
    unless that is the first one. *)
Lemma CheckCompatible_ends c n height :
  0 ≤ height < 2 ^ 64 →
  ∃ res, CheckCompatible c n height = Some res ∧
    match res with
    | None => checkCompatible c n height = None
    | Some err => 0 ≤ RewindTo err ≤ height ∧ (checkCompatible c n (RewindTo err) = None ∨ RewindTo err = 0)
    end.
Proof.
  intros Hh. destruct (compat_loop_ends c n (Z.to_nat height + 3) height None) as (res & E & Hres); [done|done|lia|].
  exists res. split; [done|]. destruct Hres as [[-> [?|[[? [=]] _]]]|(l & -> & ?)]; done.
Qed.
