(* ===== verification/EvmSpec.v ===== *)
(** * Properties of the virtual machine and of its recorder *)

From S2P Require Import Prelude Common Params Uint256 VmFacts Machine Tx.
From S2P Require Import Vm Evm Interpreter Gas Instructions JumpTable RecorderFacts CallFacts ReadOnlyFacts.
From S2P Require Import DemoState.
From S2P Require Import GasFacts GasOps GasTables.

(** ** The opcodes, after their specification *)

(** The fork that introduces an opcode, by its place among the nine sets. *)
Definition opcode_fork (op : Z) : option nat :=
  if op <=? 0x0b then Some 0%nat
  else if op <? 0x10 then None
  else if op <=? 0x1a then Some 0%nat
  else if op <=? 0x1d then Some 5%nat                        (* EIP-145 *)
  else if op =? 0x20 then Some 0%nat
  else if op <? 0x30 then None
  else if op <=? 0x3c then Some 0%nat
  else if op <=? 0x3e then Some 4%nat                        (* EIP-211 *)
  else if op =? 0x3f then Some 5%nat                         (* EIP-1052 *)
  else if op <=? 0x45 then Some 0%nat
  else if op <=? 0x47 then Some 6%nat                        (* EIP-1344, EIP-1884 *)
  else if op =? 0x48 then Some 8%nat                         (* EIP-3198 *)
  else if op <? 0x50 then None
  else if op <=? 0x5b then Some 0%nat
  else if op <? 0x60 then None
  else if op <=? 0xa4 then Some 0%nat
  else if op <? 0xf0 then None
  else if op <=? 0xf3 then Some 0%nat
  else if op =? 0xf4 then Some 1%nat                         (* EIP-7 *)
  else if op =? 0xf5 then Some 5%nat                         (* EIP-1014 *)
  else if (op =? 0xfa) || (op =? 0xfd) then Some 4%nat       (* EIP-214, EIP-140 *)
  else if op =? 0xff then Some 0%nat
  else None.

Definition introduced (fork : nat) (op : Z) : bool :=
  match opcode_fork op with Some n => (n <=? fork)%nat | None => false end.

(** The words an instruction takes from the stack and pushes on it. *)
Definition stack_effect (op : Z) : Z * Z :=
  if (op =? 0x00) || (op =? 0x5b) then (0, 0)
  else if (op =? 0x08) || (op =? 0x09) then (3, 1)
  else if (op =? 0x15) || (op =? 0x19) then (1, 1)
  else if op <=? 0x20 then (2, 1)
  else if (op =? 0x31) || (op =? 0x35) || (op =? 0x3b) || (op =? 0x3f) || (op =? 0x40) then (1, 1)
  else if (op =? 0x37) || (op =? 0x39) || (op =? 0x3e) then (3, 0)
  else if op =? 0x3c then (4, 0)
  else if op <=? 0x48 then (0, 1)
  else if (op =? 0x50) || (op =? 0x56) then (1, 0)
  else if (op =? 0x51) || (op =? 0x54) then (1, 1)
  else if op <=? 0x57 then (2, 0)
  else if op <=? 0x7f then (0, 1)
  else if op <=? 0x8f then (op - 0x7f, op - 0x7f + 1)
  else if op <=? 0x9f then (op - 0x8e, op - 0x8e)
  else if op <=? 0xa4 then (op - 0x9e, 0)
  else if op =? 0xf0 then (3, 1)
  else if (op =? 0xf1) || (op =? 0xf2) then (7, 1)
  else if (op =? 0xf3) || (op =? 0xfd) then (2, 0)
  else if (op =? 0xf4) || (op =? 0xfa) then (6, 1)
  else if op =? 0xf5 then (4, 1)
  else (1, 0).

Section recorder.
Context {S : Type} `{StateDB S} `{Uint256} `{Externals}.

(** Under the pending node [top], a call leaves the nodes below and the
    transaction alone and adds at most one child, with the header [P] says. *)
Definition bracketed (top : InternalTx) (rest : list InternalTx) (P : InternalTx → Prop) (e e' : EVM S) : Prop :=
  depth e' = depth e ∧ readOnly e' = readOnly e ∧ ExTx e' = ExTx e ∧
  ∃ new, (new = [] ∨ ∃ n, new = [n] ∧ P n) ∧ CallStack e' = add_InTxs top new :: rest.

Lemma records_bracketed top rest P e e' :
  CallStack e = top :: rest → records P e e' → bracketed top rest P e e'.
Proof.
  intros Ht ((Hd & Hr & _) & new & Hnew & Hn). unfold new_nodes in Hn. rewrite Ht in Hn.
  destruct Hn as [H2 H3]. split_and!; [done..|]. by exists new.
Qed.

(** C14: In every instruction set, however deep the nesting, each of the six
    kinds of call made under a pending node returns with the depth, the
    read-only flag, the nodes below and the transaction unchanged, and with at
    most one more child under the node: that child carries the caller's
    address, the callee, the value and the input as its kind records them. *)
Theorem calls_well_bracketed r levels caller e top rest :
  CallStack e = top :: rest →
  let calls := calls_of (machine r levels) in
  let from := ref_Address caller in
  (∀ a i g v e' res, evm_Call calls caller a i g v e = Done (e', res) →
     bracketed top rest (λ n, ∃ b, call_node from a b (Some v) "Call" i n) e e') ∧
  (∀ a i g v e' res, evm_CallCode calls caller a i g v e = Done (e', res) →
     bracketed top rest (call_node from a true (Some v) "CallCode" i) e e') ∧
  (∀ a i g e' res, evm_DelegateCall calls caller a i g e = Done (e', res) →
     bracketed top rest (call_node from a true None "DelegateCall" i) e e') ∧
  (∀ a i g e' res, evm_StaticCall calls caller a i g e = Done (e', res) →
     bracketed top rest (call_node from a true None "StaticCall" i) e e') ∧
  (∀ i g v e' res, evm_Create calls caller i g v e = Done (e', res) →
     bracketed top rest (call_node from 0 true None "Create" []) e e') ∧
  (∀ i g v t e' res, evm_Create2 calls caller i g v t e = Done (e', res) →
     bracketed top rest (call_node from 0 true None "Create" []) e e').
Proof.
  intros Ht calls from. pose proof (Run_ok _ (table_framed r) levels) as Hrun. fold (machine r levels) in Hrun.
  subst calls from. cbn [evm_Call evm_CallCode evm_DelegateCall evm_StaticCall evm_Create evm_Create2 calls_of].
  split_and!; intros; (apply records_bracketed; [done|]).
  - by eapply Call_recorded.
  - by eapply CallCode_recorded.
  - by eapply DelegateCall_recorded.
  - by eapply StaticCall_recorded.
  - by eapply create_recorded.
  - by eapply create_recorded.
Qed.

(** C15: A transaction starts with no pending node.  When its call returns, no
    node is pending, the depth is what it was, and the transaction gained at
    most one root: the call itself, with its sender, callee, value and input. *)
Theorem transaction_recorded r levels caller a i g v e e' res :
  CallStack e = [] → Call (machine r levels) caller a i g v e = Done (e', res) →
  CallStack e' = [] ∧ depth e' = depth e ∧
  ∃ new, (new = [] ∨ ∃ n b, new = [n] ∧ call_node (ref_Address caller) a b (Some v) "Call" i n) ∧
    etx_InTxs (ExTx e') = etx_InTxs (ExTx e) ++ new.
Proof.
  intros Hc E. apply Call_recorded in E as ((Hd & _) & new & Hnew & Hn); [|apply Run_ok, table_framed].
  unfold new_nodes in Hn. rewrite Hc in Hn. destruct Hn as [Q1 Q2]. split_and!; [done..|].
  exists new. split; [destruct Hnew as [->|(n & -> & b & Hb)]; eauto|].
  rewrite Q2. destruct Hnew as [->|(n & -> & _)]; cbn; [by rewrite app_nil_r|done].
Qed.

(** C16: A transaction to an account without code that is not a precompiled
    contract, once it passes the depth and balance checks and the account
    exists, makes the recorder read below the empty call stack and panic. *)
Theorem plain_transfer_panics run caller a i g v e :
  CallStack e = [] → depth e ≤ CallCreateDepth →
  v = 0 ∨ CanTransfer (statedb e) (ref_Address caller) v = true →
  precompile (chainRules e) a = None →
  (let s := fst (Snapshot (statedb e)) in
   Exist s a = true ∧ GetCode (Transfer s (ref_Address caller) a v) a = []) →
  Call run caller a i g v e = Crash IndexOutOfRange.
Proof.
  intros Hc Hd Hv Hp. unfold Call. destruct (Snapshot (statedb e)) as [s sn]. cbn [fst]. intros [Hex Hcode].
  destruct (Z.ltb_spec CallCreateDepth (depth e)); [lia|].
  assert (negb (v =? 0) && negb (CanTransfer (statedb e) (ref_Address caller) v) = false) as ->.
  { destruct Hv as [->| ->]; [done|by rewrite andb_false_r]. }
  rewrite Hex, Hp. cbn [negb andb]. cbn [statedb set_statedb]. rewrite Hcode. cbn.
  unfold attach_leaf. cbn. by rewrite Hc.
Qed.

(** C17: Code run by STATICCALL, in every instruction set and however deep it
    nests, changes the state only by access lists, refunds, new empty accounts,
    transfers of nothing, and reverts to snapshots it took itself; the caller's
    read-only flag is restored. *)
Theorem static_call_touches r levels caller a i g e e' res :
  StaticCall (machine r levels) caller a i g e = Done (e', res) →
  touch (statedb e) (statedb e') ∧ readOnly e' = readOnly e.
Proof.
  intros E. apply StaticCall_held in E as [Q1 Q2]; [done|]. apply Run_ro, table_ro.
Qed.

(** The constructors of the nine instruction sets, in the order of the forks. *)
Definition constructors : list (Go (InstructionSet S)) :=
  [newFrontierInstructionSet; newHomesteadInstructionSet; newTangerineWhistleInstructionSet;
   newSpuriousDragonInstructionSet; newByzantiumInstructionSet; newConstantinopleInstructionSet;
   newIstanbulInstructionSet; newBerlinInstructionSet; newLondonInstructionSet].

(** The forks the rules know, in the same order. *)
Definition fork_flags (r : Rules) : list bool :=
  [true; IsHomestead r; IsEIP150 r; IsEIP158 r; IsByzantium r; IsConstantinople r; IsIstanbul r; IsBerlin r; IsLondon r].

(** What a table promises: every slot is set and has the function that the
    interpreter calls for its opcode, an operation with a memory size has a dynamic gas
    function, the opcodes that the fork does not have are [opUndefined], and the bounds
    on the stack of the others are those of their effect. *)
Definition has_function (op : Z) (o : operation (S := S)) : Prop :=
  if is_log op then is_Some (executeLog o) else is_Some (execute o).

Definition valid_table (fork : nat) (jt : InstructionSet S) : Prop :=
  ∀ op, 0 ≤ op < 256 → ∃ o, jt !! op = Some o ∧ has_function op o ∧
    (is_Some (memorySize o) → is_Some (dynamicGas o)) ∧
    (introduced fork op = false → o = undefined) ∧
    (introduced fork op = true →
       op_minStack o = (stack_effect op).1 ∧ op_maxStack o = 1024 + (stack_effect op).1 - (stack_effect op).2).

Definition is_set {A} (x : option A) : bool := match x with Some _ => true | None => false end.

Lemma is_set_spec {A} (x : option A) : is_set x = true → is_Some x.
Proof. destruct x; by eauto. Qed.

Definition table_check (fork : nat) (slots : InstructionSet S) : bool :=
  slots_valid slots &&
  forallb (λ op, match slots !! op with
    | Some o => (if is_log op then is_set (executeLog o) else is_set (execute o)) && (introduced fork op &&
        (op_minStack o =? (stack_effect op).1) && (op_maxStack o =? 1024 + (stack_effect op).1 - (stack_effect op).2))
    | None => negb (is_log op) && negb (introduced fork op)
    end) opcodes.

Lemma table_check_ok fork new slots :
  new = Ret (fill_undefined slots) → table_check fork slots = true →
  ∃ jt, new = Ret jt ∧ valid_table fork jt.
Proof.
  unfold table_check. rewrite andb_true_iff, forallb_forall. intros -> [Hv Hc]. eexists. split; [done|].
  intros op Hop. destruct (fill_valid slots Hv op Hop) as (o & Ho & Hm). exists o. split; [done|].
  specialize (Hc op). rewrite fill_lookup, decide_True in Ho by done. injection Ho as <-.
  assert (In op opcodes) as Hin by by apply list_elem_of_In, elem_of_opcodes. specialize (Hc Hin). unfold has_function.
  destruct (slots !! op) as [o|]; cbn.
  - apply andb_true_iff in Hc as [Hx [[Hi ?%Z.eqb_eq]%andb_true_iff ?%Z.eqb_eq]%andb_true_iff]. rewrite Hi.
    split; [|done]. destruct (is_log op); by apply is_set_spec.
  - apply andb_true_iff in Hc as [Hl%negb_true_iff Hi%negb_true_iff]. rewrite Hl, Hi. by split; [eexists|].
Qed.

(** The table of the newest fork of a chain. *)
Definition newest (r : Rules) (k : nat) : Prop :=
  fork_flags r !! k = Some true ∧ ∀ j, (k < j)%nat → fork_flags r !! j ≠ Some true.

Definition chosen (r : Rules) (jt : InstructionSet S) : Prop :=
  ∃ k, newest r k ∧ constructors !! k = Some (Ret jt).

Lemma chosen_initialised r k new jt :
  newest r k → new = Ret jt → constructors !! k = Some new → chosen r (initialised new).
Proof. intros Hk -> Hc. by exists k. Qed.

Ltac next new := apply Forall_cons_2; [cbv beta iota; apply (table_check_ok _ _ _ new); vm_compute; reflexivity|].

(** Fork [k] is the newest: the flags above it are false. *)
Ltac chosen_at k new :=
  refine (chosen_initialised _ k _ _ _ new _); [|reflexivity]; split; [cbn; by f_equal|];
  intros j Hj; do 9 (destruct j as [|j]; [first [lia|cbn; congruence]|]); done.

(** C18: The construction of none of the nine instruction sets panics: no field of a
    nil slot is assigned, and [validate] accepts each table.  Every slot of a table is
    set, those of opcodes that the fork does not have to [opUndefined], and has the
    function that the interpreter calls; an operation with a memory size has a dynamic
    gas function; the bounds on the stack of the other operations are those of the
    numbers of words they take and push.  The rules of a block choose the table of the
    newest fork that they know. *)
Theorem instruction_sets_valid :
  Forall (λ '(fork, new), ∃ jt, new = Ret jt ∧ valid_table fork jt) (imap pair constructors) ∧
  ∀ r, chosen r (instruction_set r).
Proof.
  split.
  - cbn [imap constructors]. unfold compose.
    next newFrontier_slots. next newHomestead_slots. next newTangerineWhistle_slots. next newSpuriousDragon_slots.
    next newByzantium_slots. next newConstantinople_slots. next newIstanbul_slots. next newBerlin_slots.
    next newLondon_slots. apply Forall_nil_2.
  - intros r. unfold instruction_set.
    destruct (IsLondon r) eqn:?; [chosen_at 8%nat newLondon_slots|].
    destruct (IsBerlin r) eqn:?; [chosen_at 7%nat newBerlin_slots|].
    destruct (IsIstanbul r) eqn:?; [chosen_at 6%nat newIstanbul_slots|].
    destruct (IsConstantinople r) eqn:?; [chosen_at 5%nat newConstantinople_slots|].
    destruct (IsByzantium r) eqn:?; [chosen_at 4%nat newByzantium_slots|].
    destruct (IsEIP158 r) eqn:?; [chosen_at 3%nat newSpuriousDragon_slots|].
    destruct (IsEIP150 r) eqn:?; [chosen_at 2%nat newTangerineWhistle_slots|].
    destruct (IsHomestead r) eqn:?; [chosen_at 1%nat newHomestead_slots|].
    chosen_at 0%nat newFrontier_slots.
Qed.
End recorder.

Lemma calls_well_bracketed_witness :
  ∃ e' res, evm_Call (calls_of (machine london 2)) (AccountRef outer_addr) inner_addr [1; 2] 10000 0
      (nested_evm call_inner log_stop) = Done (e', res) ∧
    bracketed demo_node [] (λ n, ∃ b, call_node outer_addr inner_addr b (Some 0) "Call" [1; 2] n)
      (nested_evm call_inner log_stop) e'.
Proof.
  destruct (evm_Call (calls_of (machine london 2)) (AccountRef outer_addr) inner_addr [1; 2] 10000 0
    (nested_evm call_inner log_stop)) as [[e' res]|p|] eqn:E; [|by vm_compute in E..].
  exists e', res. split; [done|].
  exact (proj1 (calls_well_bracketed london 2 (AccountRef outer_addr) (nested_evm call_inner log_stop)
    demo_node [] eq_refl) _ _ _ _ _ _ E).
Defined.

Lemma transaction_recorded_witness :
  ∃ e' res, demo_run 3 call_inner log_stop = Done (e', res) ∧ CallStack e' = [] ∧
    length (etx_InTxs (ExTx e')) = 1%nat.
Proof.
  destruct (demo_run 3 call_inner log_stop) as [[e' res]|p|] eqn:E; [|by vm_compute in E..].
  exists e', res. split; [done|].
  destruct (transaction_recorded london 3 _ _ _ _ _ (mk_evm call_inner log_stop) _ _ eq_refl E) as (Q & _ & new & _ & _).
  split; [exact Q|]. vm_compute in E. by injection E as <- _.
Defined.

Lemma plain_transfer_panics_witness :
  Call (S := MemState) (machine london 3) (AccountRef outer_addr) sender_addr [] 20000 0
    (mk_evm call_inner log_stop) = Crash IndexOutOfRange.
Proof.
  apply plain_transfer_panics; [reflexivity|vm_compute; discriminate|left; reflexivity|reflexivity|].
  split; vm_compute; reflexivity.
Defined.

Lemma static_call_touches_witness :
  ∃ e' res, StaticCall (S := MemState) (machine london 3) (AccountRef sender_addr) outer_addr [] 20000
      (nested_evm static_inner log_stop) = Done (e', res) ∧
    touch (mk_state static_inner log_stop) (statedb e').
Proof.
  destruct (StaticCall (S := MemState) (machine london 3) (AccountRef sender_addr) outer_addr [] 20000
    (nested_evm static_inner log_stop))
    as [[e' res]|p|] eqn:E; [|by vm_compute in E..].
  exists e', res. split; [done|]. exact (proj1 (static_call_touches london 3 _ _ _ _ _ _ _ E)).
Defined.

(** The recorder keeps the event of a call that reverted, which the state drops. *)
Example reverted_event_recorded :
  match demo_run 3 call_inner log_revert with
  | Done (e, _) =>
      logs (now (statedb e)) = [] ∧
      (etx_InTxs (ExTx e) ≫= λ n, itx_InTxs n ≫= itx_Events)
        = [{| ev_Address := inner_addr; ev_Topics := []; ev_Data := []; ev_Index := 0 |}]
  | _ => False
  end.
Proof. vm_compute. split; reflexivity. Qed.

(** A log instruction refused in a static call is recorded as an empty event. *)
Example refused_log_recorded :
  match demo_run 3 static_inner log_stop with
  | Done (e, _) => (etx_InTxs (ExTx e) ≫= λ n, itx_InTxs n ≫= itx_Events) = [zero_event]
  | _ => False
  end.
Proof. vm_compute. reflexivity. Qed.

Section machine.
Context `{U : Uint256} `{!Uint256Laws U}.

(** C19: [codeBitmap] returns for every program without an index out of range,
    and [codeSegment] of its bits says of every position of the program whether
    an instruction starts there, which is what a walk over the program finds. *)
Theorem bitmap_marks_operands code :
  ∃ bits, codeBitmap code = Some (Ret bits) ∧
    ∀ pos, 0 ≤ pos < len code → ∃ b, codeSegment bits pos = Ret b ∧ (b = true ↔ opcode_at code pos).
Proof. apply codeBitmap_spec. Qed.

(** [validJumpdest] accepts exactly the positions of JUMPDEST instructions,
    whichever of the caches answers, and leaves the caches coherent. *)
Theorem jump_destinations m c dest :
  coherent m c → is_word dest → len (Code c) < 2 ^ 64 →
  ∃ m' c' b, validJumpdest m c dest = Done (m', c', b) ∧
    (b = true ↔ is_jumpdest (Code c) dest) ∧ coherent m' c' ∧ Code c' = Code c.
Proof.
  intros Hco Hd Hl. destruct (validJumpdest_spec m c dest Hco Hd Hl) as (m' & c' & b & E & Hiff & Hco' & a & ->).
  by exists m', (set_analysis c a), b.
Qed.

(** Growing the memory to [k] words costs the difference of the quadratic
    cost of its words, overflows exactly from 2^32 words on, and leaves after
    [Resize] a memory of that many words whose cost is charged. *)
Theorem memory_charge m w k :
  mem_ok m w → 0 ≤ k →
  match memoryGasCost m (32 * k) with
  | (m', inr gas) =>
      k < 2 ^ 32 ∧ gas = words_cost (Z.max w k) - words_cost w ∧ 0 ≤ gas ∧
      mem_ok (Resize m' (32 * k)) (Z.max w k)
  | (m', inl err) => 2 ^ 32 ≤ k ∧ err = ErrGasUintOverflow ∧ m' = m
  end.
Proof.
  intros Hm Hk. rewrite (memoryGasCost_spec m w k) by done. destruct (Z.ltb_spec k (2 ^ 32)); [|done].
  pose proof (words_cost_mono w (Z.max w k)). destruct Hm as (Hw & Hm).
  split_and!; [done|done|lia|]. apply Resize_ok; [by split|lia].
Qed.

(** Under EIP-150 a callee gets what was asked for, but at most all but one
    64th of what remains after the base cost. *)
Theorem call_gas_63_64 available base cost :
  0 ≤ base ≤ available → available < 2 ^ 64 → is_word cost →
  ∃ g, callGas true available base cost = inr g ∧ g ≤ cost ∧
    0 ≤ g ≤ (available - base) - (available - base) / 64 ∧
    (cost ≤ (available - base) - (available - base) / 64 → g = cost).
Proof.
  intros Hb Ha Hc. exists (Z.min cost (all_but_64th (available - base))).
  rewrite callGas_spec by done. unfold all_but_64th, is_word in *.
  assert ((available - base) / 64 ≤ available - base) by (apply Z.div_le_upper_bound; lia).
  split_and!; [done|lia..].
Qed.

(** [getData] returns a window of exactly [size] bytes: those of the data
    from [start] on, and zeros beyond its end. *)
Lemma getData_window data start size :
  0 ≤ start → 0 ≤ size < 2 ^ 63 → len data + size < 2 ^ 64 →
  ∃ w, getData data start size = Ret w ∧ len w = size ∧
    ∀ i, 0 ≤ i < size → w !! Z.to_nat i = Some (default 0 (data !! Z.to_nat (start + i))).
Proof.
  intros Hst Hsz Hlen. rewrite getData_spec by done. eexists. split; [done|].
  set (t := take (Z.to_nat size) (drop (Z.to_nat start) data)).
  assert (len t = Z.min size (len data - Z.min start (len data))) as Ht.
  { unfold t, len. rewrite length_take, length_drop. lia. }
  split; [rewrite len_app, Ht, len_zeros; lia|]. intros i Hi.
  assert (start + i < len data → t !! Z.to_nat i = data !! Z.to_nat (start + i)) as Hin.
  { intros Hl. unfold t. rewrite lookup_take_lt, lookup_drop by lia. f_equal. lia. }
  destruct (Z.lt_ge_cases (start + i) (len data)) as [Hl|Hg].
  - rewrite lookup_app_l by (unfold len in *; lia). rewrite Hin by done.
    destruct (lookup_lt_is_Some_2 data (Z.to_nat (start + i))) as [x ->]; [unfold len in *; lia|done].
  - rewrite (lookup_ge_None_2 data) by (unfold len in *; lia).
    rewrite lookup_app_r by (unfold len in *; lia). apply lookup_replicate. split; [done|].
    unfold len in *. lia.
Qed.
End machine.

Lemma jump_destinations_witness :
  ∃ m' c' b, validJumpdest [∅] (mkContract 0 (AccountRef 0) (AccountRef 0) 0 None [0x5B; 0x60; 0x5B; 0x00] 7 None [] 0 None) 0
      = Done (m', c', b) ∧ b = true.
Proof.
  destruct (jump_destinations [∅] (mkContract 0 (AccountRef 0) (AccountRef 0) 0 None [0x5B; 0x60; 0x5B; 0x00] 7 None [] 0 None) 0)
    as (m' & c' & b & E & Hb & _).
  - split; [done|]. intros _. exists ∅. by split.
  - done.
  - done.
  - exists m', c', b. split; [done|]. apply Hb. split; [done|constructor].
Defined.

Lemma memory_charge_witness :
  mem_ok NewMemory 0 ∧ memoryGasCost NewMemory (32 * 40) = ({| store := []; lastGasCost := 123 |}, inr 123).
Proof.
  split; [done|]. pose proof (memory_charge NewMemory 0 40 NewMemory_ok ltac:(lia)) as Hc.
  destruct (memoryGasCost NewMemory (32 * 40)) as [m' [err|gas]] eqn:E.
  - exfalso. lia.
  - destruct Hc as (_ & -> & _). vm_compute in E |- *. by injection E as <-.
Defined.

Lemma call_gas_63_64_witness : ∃ g, callGas true 1000 100 (2 ^ 255) = inr g ∧ g ≤ 900 - 900 / 64.
Proof.
  destruct (call_gas_63_64 1000 100 (2 ^ 255)) as (g & E & _ & Hg & _); [lia|lia|done|].
  exists g. split; [exact E|]. exact (proj2 Hg).
Defined.

(** A size near 2^64 makes the end of the window wrap around below its start. *)
Example getData_overflow : getData [1; 2; 3] 1 MaxUint64 = Panic SliceOutOfRange.
Proof. reflexivity. Qed.

(** ** Termination *)

(** The call is not cut short, and what it leaves of its gas is within what it got. *)
Definition terminates {S A : Type} (gas : Z) (left : A → Z) (m : Res (EVM S * A)) : Prop :=
  match m with
  | OutOfFuel => False
  | Crash _ => True
  | Done (_, a) => 0 ≤ left a ≤ gas
  end.

Section termination.
Context {S : Type} `{StateDB S} `{U : Uint256} `{!Uint256Range U} `{X : Externals} `{!ExternalsRange X}.

Lemma gives_back_terminates d r {A} gas (left : A → Z) (m : Res (EVM S * A)) :
  gives_back d r gas left m → terminates gas left m.
Proof. destruct m as [[e a]|p|]; [|done|done]. by intros [_ ?]. Qed.

(** C24: Under rules whose forks are in order, whatever the code, the state and
    the nesting, each kind of call ends: the turns bounded by the gas and the
    levels bounded by the call depth are never exhausted, and the gas that
    remains is between zero and the gas given. *)
Theorem execution_terminates r levels caller gas e :
  chainRules e = r → ordered_rules r → 0 ≤ gas < 2 ^ 64 →
  CallCreateDepth + 1 - depth e ≤ Z.of_nat levels →
  let calls := calls_of (machine r levels) in
  (∀ a i v, terminates gas call_left (evm_Call calls caller a i gas v e)) ∧
  (∀ a i v, terminates gas call_left (evm_CallCode calls caller a i gas v e)) ∧
  (∀ a i, terminates gas call_left (evm_DelegateCall calls caller a i gas e)) ∧
  (∀ a i, terminates gas call_left (evm_StaticCall calls caller a i gas e)) ∧
  (∀ i v, terminates gas create_left (evm_Create calls caller i gas v e)) ∧
  (∀ i v t, terminates gas create_left (evm_Create2 calls caller i gas v t e)).
Proof.
  intros Hr Ho Hg Hl. cbv zeta.
  pose proof (levels_gas r r levels (depth e) eq_refl Ho Hl) as [Q1 Q2 Q3 Q4 Q5 Q6].
  assert (env_ok (depth e) r e) as He by by split.
  split_and!; intros; eapply gives_back_terminates; eauto.
Qed.
End termination.

#[export] Instance demo_range : ExternalsRange demo_externals.
Proof. split. intros r addr p input. unfold precompile. by repeat (destruct (_ : bool); rewrite ?lookup_empty). Qed.

(** A program that jumps to itself. *)
Definition spin : bytes := [0x5B; 0x60; 0; 0x56].

Lemma execution_terminates_witness :
  terminates 20000 call_left
    (evm_Call (calls_of (machine london 1025)) (AccountRef sender_addr) outer_addr [] 20000 0 (mk_evm spin [])) ∧
  match evm_Call (calls_of (machine london 1)) (AccountRef sender_addr) outer_addr [] 20000 0 (mk_evm spin []) with
  | Done (_, (_, rest, err)) => rest = 0 ∧ err = Some ErrOutOfGas
  | _ => False
  end.
Proof.
  split; [|vm_compute; split; reflexivity].
  refine (proj1 (execution_terminates london 1025 (AccountRef sender_addr) 20000 (mk_evm spin []) eq_refl _ _ _)
    outer_addr [] 0); [done|lia|vm_compute; discriminate].
Defined.

(** ** Recorded block hashes *)

Section blockhash.
Context {S : Type} `{StateDB S} `{U : Uint256} `{!Uint256Laws U} `{Externals}.

Lemma peek_top st x : peek {| st_data := st ++ [x] |} = Ret x.
Proof.
  unfold peek, st_at, st_len. cbn [st_data]. rewrite length_app. cbn [length].
  destruct (Z.ltb_spec (Z.of_nat (length st + 1) - 1) 0); [lia|].
  replace (Z.to_nat _) with (length st) by lia. by rewrite lookup_app_r, Nat.sub_diag.
Qed.

(** BLOCKHASH of [2 ^ 64 + num] records zero for [num], whatever it was before:
    a transaction that asked for the hash of [num] is replayed without it. *)
Lemma opBlockhash_forgets calls (f : Frame S) st num :
  f_stack f = {| st_data := st ++ [2 ^ 64 + num] |} → 0 ≤ num < 2 ^ 64 →
  ∃ f', opBlockhash calls f = Done (f', inr ([], None)) ∧ block_hashes (f_evm f') !! num = Some 0.
Proof.
  intros Hst Hn.
  pose proof (Uint64WithOverflow_spec (2 ^ 64 + num) ltac:(unfold is_word; lia)) as Ho.
  replace (2 ^ 64 <=? 2 ^ 64 + num) with true in Ho by lia. eexists. split.
  - unfold opBlockhash, peek_, mbind, Exec_bind, gets, lift. cbn [mbind Res_bind]. rewrite Hst, peek_top. cbn [mbind Res_bind].
    cbv beta iota delta [of_go mbind Res_bind]. rewrite Ho. reflexivity.
  - cbn -[Z.pow]. replace ((2 ^ 64 + num) mod 2 ^ 64) with num by (apply (Z.mod_unique_pos _ _ 1); lia).
    by rewrite lookup_insert_eq.
Qed.
End blockhash.
