(* ===== verification/Rlp.v ===== *)
(** * rlp/encode.go and rlp/raw.go: encoding values

    Reflection chooses a writer by the type of the value; here a value carries
    the choice in its constructor.  Structs with optional fields, custom
    encoders and readers over a pooled buffer are left out. *)

From S2P Require Import Prelude Common Uint256 Machine.

(** ** decode.go: errors and kinds *)

Inductive RlpError :=
| EOL
| ErrExpectedString
| ErrExpectedList
| ErrCanonInt
| ErrCanonSize
| ErrElemTooLarge
| ErrValueTooLarge
| ErrMoreThanOneValue
| errNotInList
| errNotAtEOL
| errUintOverflow
| ErrUnexpectedEOF
| EOF
| ErrNegativeBigInt
| ErrInvalidBool (n : Z)
| decodeError (msg : string).

#[export] Instance RlpError_eq_dec : EqDecision RlpError.
Proof. solve_decision. Defined.

Inductive Kind := KByte | KString | KList.

#[export] Instance Kind_eq_dec : EqDecision Kind.
Proof. solve_decision. Defined.

(** ** Integers and heads *)

Definition byte (x : Z) : Z := wrapU 8 x.

(** A 64-bit integer is zero after eight shifts. *)
Fixpoint intsize_loop (fuel : nat) (i size : Z) : Z :=
  match fuel with
  | O => size
  | S fuel => let i := Z.shiftr i 8 in if i =? 0 then size else intsize_loop fuel i (size + 1)
  end.
Definition intsize (i : Z) : Z := intsize_loop 7 i 1.

(** The bytes [putint] writes. *)
Definition putint (i : Z) : bytes :=
  if i <? Z.shiftl 1 8 then [byte i]
  else if i <? Z.shiftl 1 16 then [byte (Z.shiftr i 8); byte i]
  else if i <? Z.shiftl 1 24 then [byte (Z.shiftr i 16); byte (Z.shiftr i 8); byte i]
  else if i <? Z.shiftl 1 32 then
    [byte (Z.shiftr i 24); byte (Z.shiftr i 16); byte (Z.shiftr i 8); byte i]
  else if i <? Z.shiftl 1 40 then
    [byte (Z.shiftr i 32); byte (Z.shiftr i 24); byte (Z.shiftr i 16); byte (Z.shiftr i 8); byte i]
  else if i <? Z.shiftl 1 48 then
    [byte (Z.shiftr i 40); byte (Z.shiftr i 32); byte (Z.shiftr i 24); byte (Z.shiftr i 16);
     byte (Z.shiftr i 8); byte i]
  else if i <? Z.shiftl 1 56 then
    [byte (Z.shiftr i 48); byte (Z.shiftr i 40); byte (Z.shiftr i 32); byte (Z.shiftr i 24);
     byte (Z.shiftr i 16); byte (Z.shiftr i 8); byte i]
  else
    [byte (Z.shiftr i 56); byte (Z.shiftr i 48); byte (Z.shiftr i 40); byte (Z.shiftr i 32);
     byte (Z.shiftr i 24); byte (Z.shiftr i 16); byte (Z.shiftr i 8); byte i].

Definition headsize (size : Z) : Z := if size <? 56 then 1 else 1 + intsize size.

(** The bytes [puthead] writes. *)
Definition puthead (smalltag largetag size : Z) : bytes :=
  if size <? 56 then [byte (smalltag + byte size)]
  else let b := putint size in byte (largetag + byte (len b)) :: b.

(** ** raw.go *)

Definition ListSize (contentSize : Z) : Z := wrapU 64 (headsize contentSize + contentSize).
Definition IntSize (x : Z) : Z := if x <? 128 then 1 else 1 + intsize x.

Definition AppendUint64 (b : bytes) (i : Z) : bytes :=
  if i =? 0 then b ++ [128]
  else if i <? 128 then b ++ [byte i]
  else let bs := putint i in b ++ (128 + len bs) :: bs.

(** [readSize]: the bytes are read before the length of [b] is compared only if
    there are enough of them. *)
Definition readSize (b : bytes) (slen : Z) : Go (RlpError + Z) :=
  if len b <? slen then Ret (inl ErrUnexpectedEOF)
  else
    let s := be_val (take (Z.to_nat slen) b) in
    if s <? 56 then Ret (inl ErrCanonSize)
    else b0 ← index b 0; Ret (if b0 =? 0 then inl ErrCanonSize else inr s).

Definition readKind (buf : bytes) : Go (RlpError + (Kind * Z * Z)) :=
  match buf with
  | [] => Ret (inl ErrUnexpectedEOF)
  | b :: rest =>
      r ← (if b <? 128 then Ret (inr (KByte, 0, 1))
           else if b <? 184 then
             let contentsize := b - 128 in
             if (contentsize =? 1) && (1 <? len buf) && (default 0 (buf !! 1%nat) <? 128)
             then Ret (inl ErrCanonSize)
             else Ret (inr (KString, 1, contentsize))
           else if b <? 192 then
             r ← readSize rest (b - 183);
             Ret (match r with inl err => inl err | inr s => inr (KString, b - 183 + 1, s) end)
           else if b <? 248 then Ret (inr (KList, 1, b - 192))
           else
             r ← readSize rest (b - 247);
             Ret (match r with inl err => inl err | inr s => inr (KList, b - 247 + 1, s) end));
      match r with
      | inl err => Ret (inl err)
      | inr (k, tagsize, contentsize) =>
          if wrapU 64 (len buf - tagsize) <? contentsize then Ret (inl ErrValueTooLarge)
          else Ret (inr (k, tagsize, contentsize))
      end
  end.

(** The kind, the content and the rest. *)
Definition Split (b : bytes) : Go (RlpError + (Kind * bytes * bytes)) :=
  r ← readKind b;
  match r with
  | inl err => Ret (inl err)
  | inr (k, ts, cs) =>
      content ← subslice b ts (wrapU 64 (ts + cs));
      rest ← subslice b (wrapU 64 (ts + cs)) (len b);
      Ret (inr (k, content, rest))
  end.

Definition SplitString (b : bytes) : Go (RlpError + (bytes * bytes)) :=
  r ← Split b;
  Ret (match r with
       | inl err => inl err
       | inr (KList, _, _) => inl ErrExpectedString
       | inr (_, content, rest) => inr (content, rest)
       end).

Definition SplitList (b : bytes) : Go (RlpError + (bytes * bytes)) :=
  r ← Split b;
  Ret (match r with
       | inl err => inl err
       | inr (KList, content, rest) => inr (content, rest)
       | inr _ => inl ErrExpectedList
       end).

Definition SplitUint64 (b : bytes) : Go (RlpError + (Z * bytes)) :=
  r ← SplitString b;
  match r with
  | inl err => Ret (inl err)
  | inr (content, rest) =>
      if len content =? 0 then Ret (inr (0, rest))
      else if len content =? 1 then
        c0 ← index content 0;
        Ret (if c0 =? 0 then inl ErrCanonInt else inr (c0, rest))
      else if 8 <? len content then Ret (inl errUintOverflow)
      else
        x ← readSize content (byte (len content));
        Ret (match x with inl _ => inl ErrCanonInt | inr x => inr (x, rest) end)
  end.

(** Every value takes at least one byte of [b]. *)
Fixpoint CountValues_loop (fuel : nat) (b : bytes) (i : Z) : option (Go (RlpError + Z)) :=
  match fuel with
  | O => None
  | S fuel =>
      if len b =? 0 then Some (Ret (inr i))
      else
        match readKind b with
        | Panic p => Some (Panic p)
        | Ret (inl err) => Some (Ret (inl err))
        | Ret (inr (_, tagsize, size)) =>
            match subslice b (wrapU 64 (tagsize + size)) (len b) with
            | Panic p => Some (Panic p)
            | Ret b => CountValues_loop fuel b (i + 1)
            end
        end
  end.
Definition CountValues (b : bytes) : option (Go (RlpError + Z)) := CountValues_loop (S (length b)) b 0.

(** ** encode.go: the buffer

    Strings are written to [eb_str]; a list leaves a head with its offset in
    [eb_str], whose size is known when the list ends. *)
Record listhead := mkHead { lh_offset : Z; lh_size : Z }.
Record encbuf := mkEncbuf { eb_str : bytes; eb_lheads : list listhead; eb_lhsize : Z }.

Definition reset_buf : encbuf := mkEncbuf [] [] 0.
Definition eb_write (b : bytes) (w : encbuf) : encbuf := mkEncbuf (eb_str w ++ b) (eb_lheads w) (eb_lhsize w).

Definition encodeStringHeader (size : Z) (w : encbuf) : encbuf :=
  if size <? 56 then eb_write [byte (128 + byte size)] w
  else let b := putint size in eb_write (byte (183 + byte (len b)) :: b) w.

Definition encodeString (b : bytes) (w : encbuf) : encbuf :=
  match b with
  | [x] => if x <=? 127 then eb_write [x] w else eb_write b (encodeStringHeader (len b) w)
  | _ => eb_write b (encodeStringHeader (len b) w)
  end.

Definition encodeUint (i : Z) (w : encbuf) : encbuf :=
  if i =? 0 then eb_write [128] w
  else if i <? 128 then eb_write [byte i] w
  else let b := putint i in eb_write (byte (128 + byte (len b)) :: b) w.

Definition eb_size (w : encbuf) : Z := len (eb_str w) + eb_lhsize w.

Definition eb_list (w : encbuf) : encbuf * Z :=
  (mkEncbuf (eb_str w) (eb_lheads w ++ [mkHead (len (eb_str w)) (eb_lhsize w)]) (eb_lhsize w),
   Z.of_nat (length (eb_lheads w))).

Definition listEnd (index : Z) (w : encbuf) : Go encbuf :=
  match eb_lheads w !! Z.to_nat index with
  | None => Panic IndexOutOfRange
  | Some lh =>
      let size := eb_size w - lh_offset lh - lh_size lh in
      Ret (mkEncbuf (eb_str w) (<[Z.to_nat index := mkHead (lh_offset lh) size]> (eb_lheads w))
             (if size <? 56 then eb_lhsize w + 1 else eb_lhsize w + (1 + intsize size)))
  end.

(** [copy(out\[pos:\], src)]: the buffer and the number of bytes copied. *)
Definition copy_from (out : bytes) (pos : Z) (src : bytes) : Go (bytes * Z) :=
  if len out <? pos then Panic SliceOutOfRange
  else
    let n := Z.min (len out - pos) (len src) in
    Ret (take (Z.to_nat pos) out ++ take (Z.to_nat n) src ++ drop (Z.to_nat (pos + n)) out, n).

(** [puthead] on [out\[pos:\]]: it writes all its bytes or panics. *)
Definition put_at (out : bytes) (pos : Z) (b : bytes) : Go bytes :=
  if len out <? pos + len b then Panic IndexOutOfRange
  else Ret (take (Z.to_nat pos) out ++ b ++ drop (Z.to_nat (pos + len b)) out).

Definition toBytes_step (str : bytes) (s : bytes * Z * Z) (head : listhead) : Go (bytes * Z * Z) :=
  let '(out, pos, strpos) := s in
  src ← subslice str strpos (lh_offset head);
  '(out, n) ← copy_from out pos src;
  let pos := pos + n in
  let strpos := strpos + n in
  let enc := puthead 192 247 (lh_size head) in
  out ← put_at out pos enc;
  Ret (out, pos + len enc, strpos).

Definition toBytes (w : encbuf) : Go bytes :=
  '(out, pos, strpos) ← go_foldl (toBytes_step (eb_str w)) (zeros (eb_size w), 0, 0) (eb_lheads w);
  src ← subslice (eb_str w) strpos (len (eb_str w));
  '(out, _) ← copy_from out pos src;
  Ret out.

(** ** Values and their writers *)

Inductive rval :=
| VRaw (b : bytes)
| VUint (n : Z)
| VBool (b : bool)
| VBig (z : Z)
| VBigPtr (z : option Z)
| VString (s : bytes)
| VBytes (b : bytes)
| VByteArray (b : bytes)
| VSlice (l : list rval)
| VTail (l : list rval)
| VStruct (fields : list rval)
| VPtr (nilKind : Kind) (v : option rval)
| VNilInterface.

(** The big-endian bytes of a big integer, as many as its bit length needs. *)
Definition big_bytes (z : Z) : bytes :=
  let bitlen := if z =? 0 then 0 else Z.log2 z + 1 in
  to_be (Z.to_nat ((bitlen + 7) / 8)) z.

Definition writeBigInt (z : Z) (w : encbuf) : RlpError + encbuf :=
  if z <? 0 then inl ErrNegativeBigInt
  else if z <? 2 ^ 64 then inr (encodeUint z w)
  else let b := big_bytes z in inr (eb_write b (encodeStringHeader (len b) w)).

Definition writeByteArray (b : bytes) (w : encbuf) : encbuf :=
  match b with
  | [] => eb_write [128] w
  | [x] => if x <=? 127 then eb_write [x] w else eb_write [129; x] w
  | _ => eb_write b (encodeStringHeader (len b) w)
  end.

Definition nilEncoding (k : Kind) : Z := match k with KList => 192 | _ => 128 end.

Definition Enc : Type := Go (RlpError + encbuf).
Definition enc_bind (m : Enc) (k : encbuf → Enc) : Enc :=
  r ← m; match r with inl err => Ret (inl err) | inr w => k w end.

(** The writers of a list of elements, one after the other. *)
Fixpoint encode (v : rval) (w : encbuf) : Enc :=
  let elems := fix elems (l : list rval) (w : encbuf) : Enc :=
    match l with
    | [] => Ret (inr w)
    | v :: l => enc_bind (encode v w) (elems l)
    end in
  match v with
  | VRaw b => Ret (inr (eb_write b w))
  | VUint n => Ret (inr (encodeUint n w))
  | VBool b => Ret (inr (eb_write [if b then 1 else 128] w))
  | VBig z => Ret (writeBigInt z w)
  | VBigPtr None => Ret (inr (eb_write [128] w))
  | VBigPtr (Some z) => Ret (writeBigInt z w)
  | VString b | VBytes b => Ret (inr (encodeString b w))
  | VByteArray b => Ret (inr (writeByteArray b w))
  | VSlice [] => Ret (inr (eb_write [192] w))
  | VSlice l =>
      let '(w, index) := eb_list w in
      enc_bind (elems l w) (λ w, w ← listEnd index w; Ret (inr w))
  | VTail l => elems l w
  | VStruct l =>
      let '(w, index) := eb_list w in
      enc_bind (elems l w) (λ w, w ← listEnd index w; Ret (inr w))
  | VPtr k None => Ret (inr (eb_write [nilEncoding k] w))
  | VPtr _ (Some v) => encode v w
  | VNilInterface => Ret (inr (eb_write [192] w))
  end.

Definition EncodeToBytes (v : rval) : Go (RlpError + bytes) :=
  r ← encode v reset_buf;
  match r with
  | inl err => Ret (inl err)
  | inr w => b ← toBytes w; Ret (inr b)
  end.
