(* ===== verification/RlpFacts.v ===== *)
(** * The encoder computes the recursive encoding

    [rlp] is the encoding of the Yellow Paper, by recursion on the value; the
    buffer of the code writes the strings first and inserts the heads of the lists
    afterwards. *)

From S2P Require Import Prelude Common Uint256 Machine VmFacts Rlp.

(** ** The reference *)

(** The number of bytes of a number, and these bytes. *)
Definition nbytes (n : Z) : Z := if n =? 0 then 0 else Z.log2 n / 8 + 1.
Definition min_be (n : Z) : bytes := to_be (Z.to_nat (nbytes n)) n.

Definition rlp_head (small large n : Z) : bytes :=
  if n <? 56 then [small + n] else let b := min_be n in (large + len b) :: b.

Definition rlp_string (b : bytes) : bytes :=
  match b with
  | [x] => if x <? 128 then [x] else [129; x]
  | _ => rlp_head 128 183 (len b) ++ b
  end.
Definition rlp_list (payload : bytes) : bytes := rlp_head 192 247 (len payload) ++ payload.

Fixpoint rlp (v : rval) : bytes :=
  match v with
  | VRaw b => b
  | VUint n => rlp_string (min_be n)
  | VBool b => rlp_string (if b then [1] else [])
  | VBig z => rlp_string (min_be z)
  | VBigPtr z => rlp_string (min_be (default 0 z))
  | VString b | VBytes b | VByteArray b => rlp_string b
  | VSlice l => rlp_list (concat (map rlp l))
  | VTail l => concat (map rlp l)
  | VStruct l => rlp_list (concat (map rlp l))
  | VPtr k None => [nilEncoding k]
  | VPtr _ (Some v) => rlp v
  | VNilInterface => rlp_list []
  end.

(** What the Go types promise of a value, and a size that fits 64 bits. *)
Fixpoint wf (v : rval) : Prop :=
  match v with
  | VRaw b | VString b | VBytes b | VByteArray b => Forall is_byte b
  | VUint n => 0 ≤ n < 2 ^ 64
  | VBig z => 0 ≤ z
  | VBigPtr (Some z) => 0 ≤ z
  | VSlice l | VTail l | VStruct l => (fix all l := match l with [] => True | v :: l => wf v ∧ all l end) l
  | VPtr _ (Some v) => wf v
  | _ => True
  end.

(** ** Induction on values *)
Section induction.
Context (P : rval → Prop).
Context (Hraw : ∀ b, P (VRaw b)) (Huint : ∀ n, P (VUint n)) (Hbool : ∀ b, P (VBool b)) (Hbig : ∀ z, P (VBig z)).
Context (Hbigp : ∀ z, P (VBigPtr z)) (Hstr : ∀ b, P (VString b)) (Hbytes : ∀ b, P (VBytes b)).
Context (Harr : ∀ b, P (VByteArray b)) (Hslice : ∀ l, Forall P l → P (VSlice l)) (Htail : ∀ l, Forall P l → P (VTail l)).
Context (Hstruct : ∀ l, Forall P l → P (VStruct l)) (Hnil : ∀ k, P (VPtr k None)).
Context (Hptr : ∀ k v, P v → P (VPtr k (Some v))) (Hni : P VNilInterface).

Fixpoint rval_nested_ind (v : rval) : P v :=
  let all := fix all (l : list rval) : Forall P l :=
    match l with [] => Forall_nil_2 P | v :: l => Forall_cons_2 P v l (rval_nested_ind v) (all l) end in
  match v with
  | VRaw b => Hraw b | VUint n => Huint n | VBool b => Hbool b | VBig z => Hbig z
  | VBigPtr z => Hbigp z | VString b => Hstr b | VBytes b => Hbytes b | VByteArray b => Harr b
  | VSlice l => Hslice l (all l) | VTail l => Htail l (all l) | VStruct l => Hstruct l (all l)
  | VPtr k None => Hnil k | VPtr k (Some v) => Hptr k v (rval_nested_ind v)
  | VNilInterface => Hni
  end.
End induction.

Lemma wf_list l : (fix all l := match l with [] => True | v :: l => wf v ∧ all l end) l ↔ Forall wf l.
Proof.
  induction l as [|v l IH]; [split; [constructor|done]|]. rewrite Forall_cons, <- IH. done.
Qed.

(** ** Numbers *)

Lemma nbytes_pos k n : 0 < k → 2 ^ (8 * (k - 1)) ≤ n < 2 ^ (8 * k) → nbytes n = k.
Proof.
  intros Hk [Hl Hu]. assert (0 < 2 ^ (8 * (k - 1))) by (apply Z.pow_pos_nonneg; lia).
  unfold nbytes. destruct (Z.eqb_spec n 0); [lia|].
  assert (8 * (k - 1) ≤ Z.log2 n) by (apply Z.log2_le_pow2; lia).
  assert (Z.log2 n < 8 * k) by (apply Z.log2_lt_pow2; lia).
  assert (Z.log2 n / 8 = k - 1) as ->; [|lia].
  symmetry. apply (Z.div_unique _ _ _ (Z.log2 n - 8 * (k - 1))); lia.
Qed.

Lemma byte_shiftr i k : 0 ≤ k → byte (Z.shiftr i k) = i / 2 ^ k mod 256.
Proof. intros. unfold byte, wrapU. by rewrite Z.shiftr_div_pow2. Qed.

Lemma putint_min_be i : 0 < i < 2 ^ 64 → putint i = min_be i.
Proof.
  intros Hi. unfold putint. rewrite !Z.shiftl_1_l.
  assert (∀ k l, 0 < k → 2 ^ (8 * (k - 1)) ≤ i < 2 ^ (8 * k) → l = to_be (Z.to_nat k) i → l = min_be i) as Hk.
  { intros k l H1 H2 ->. unfold min_be. by rewrite (nbytes_pos k). }
  rewrite !byte_shiftr by lia. change (byte i) with (i mod 256).
  repeat match goal with
  | |- (if ?x <? 2 ^ ?k then _ else _) = _ => destruct (Z.ltb_spec x (2 ^ k));
      [let b := eval vm_compute in (k / 8) in apply (Hk b); [done|split; cbn; lia|]|]
  end; [..|apply (Hk 8); [done|split; cbn; lia|]].
  all: match goal with |- _ = to_be ?k _ => let k' := eval vm_compute in k in change k with k' end.
  all: cbn [to_be app]; rewrite ?Z.div_div by lia; reflexivity.
Qed.

Lemma nbytes_range n : 0 < n < 2 ^ 64 → 1 ≤ nbytes n ≤ 8.
Proof.
  intros Hn. unfold nbytes. destruct (Z.eqb_spec n 0); [lia|].
  assert (Z.log2 n < 64) by (apply Z.log2_lt_pow2; lia). pose proof (Z.log2_nonneg n).
  pose proof (Z.div_pos (Z.log2 n) 8). assert (Z.log2 n / 8 ≤ 7); [|lia].
  apply Z.lt_succ_r, Z.div_lt_upper_bound; lia.
Qed.

Lemma nbytes_nonneg n : 0 ≤ nbytes n.
Proof.
  unfold nbytes. destruct (_ =? _); [lia|]. pose proof (Z.log2_nonneg n). pose proof (Z.div_pos (Z.log2 n) 8). lia.
Qed.

Lemma len_min_be n : len (min_be n) = nbytes n.
Proof. unfold len, min_be. rewrite to_be_length. pose proof (nbytes_nonneg n). lia. Qed.

Lemma nbytes_step n : 256 ≤ n → nbytes n = 1 + nbytes (Z.shiftr n 8).
Proof.
  intros Hn. rewrite Z.shiftr_div_pow2 by done. change (2 ^ 8) with 256.
  assert (1 ≤ n / 256) by (apply Z.div_le_lower_bound; lia). unfold nbytes.
  destruct (Z.eqb_spec n 0); [lia|]. destruct (Z.eqb_spec (n / 256) 0); [lia|].
  assert (Z.log2 (n / 256) = Z.log2 n - 8) as ->.
  { change 256 with (2 ^ 8). rewrite <- Z.shiftr_div_pow2, Z.log2_shiftr by lia.
    assert (8 ≤ Z.log2 n) by (apply Z.log2_le_pow2; lia). lia. }
  replace (Z.log2 n) with (Z.log2 n - 8 + 1 * 8) at 1 by lia. rewrite Z.div_add by lia. lia.
Qed.

Lemma intsize_loop_spec fuel n size :
  0 < n < 2 ^ (8 * Z.of_nat (S fuel)) → intsize_loop fuel n size = size + nbytes n - 1.
Proof.
  revert n size. induction fuel as [|fuel IH]; intros n size Hn.
  - cbn. rewrite (nbytes_pos 1) by (done || (split; cbn; lia)). lia.
  - cbn [intsize_loop]. destruct (Z.lt_ge_cases n 256) as [Hs|Hb].
    + rewrite Z.shiftr_div_pow2, Z.div_small by lia. cbn.
      rewrite (nbytes_pos 1) by (done || (split; cbn; lia)). lia.
    + assert (1 ≤ Z.shiftr n 8).
      { rewrite Z.shiftr_div_pow2 by done. apply Z.div_le_lower_bound; lia. }
      destruct (Z.eqb_spec (Z.shiftr n 8) 0); [lia|]. rewrite (nbytes_step n Hb), IH; [lia|].
      split; [lia|]. rewrite Z.shiftr_div_pow2 by done. apply Z.div_lt_upper_bound; [done|].
      rewrite <- Z.pow_add_r by lia. replace (8 + 8 * Z.of_nat (S fuel)) with (8 * Z.of_nat (S (S fuel))) by lia. lia.
Qed.

Lemma intsize_spec n : 0 < n < 2 ^ 64 → intsize n = nbytes n.
Proof. intros Hn. unfold intsize. rewrite (intsize_loop_spec 7 n 1) by done. lia. Qed.

(** ** Heads *)

Lemma byte_small x : 0 ≤ x < 256 → byte x = x.
Proof. intros. by apply wrapU_small. Qed.

Lemma puthead_head small large n :
  0 ≤ n < 2 ^ 64 → 0 ≤ small ≤ 200 → 0 ≤ large ≤ 247 → puthead small large n = rlp_head small large n.
Proof.
  intros Hn Hs Hl. unfold puthead, rlp_head. destruct (Z.ltb_spec n 56).
  - rewrite (byte_small n), byte_small by lia. done.
  - rewrite putint_min_be by lia. cbv zeta. rewrite len_min_be. pose proof (nbytes_range n ltac:(lia)).
    rewrite (byte_small (nbytes n)), byte_small by lia. done.
Qed.

Lemma len_head small large n : 0 ≤ n < 2 ^ 64 → len (rlp_head small large n) = headsize n.
Proof.
  intros Hn. unfold rlp_head, headsize. destruct (Z.ltb_spec n 56); [done|].
  rewrite intsize_spec by lia. cbv zeta. rewrite <- len_min_be. unfold len. cbn [length]. lia.
Qed.

Lemma encodeStringHeader_head n w :
  0 ≤ n < 2 ^ 64 → encodeStringHeader n w = eb_write (rlp_head 128 183 n) w.
Proof.
  intros Hn. rewrite <- puthead_head by lia. unfold encodeStringHeader, puthead. by destruct (n <? 56).
Qed.

(** ** Strings *)

Lemma eb_write_write b1 b2 w : eb_write b2 (eb_write b1 w) = eb_write (b1 ++ b2) w.
Proof. unfold eb_write. cbn. by rewrite app_assoc. Qed.

Lemma len_0 b : 0 ≤ len b.
Proof. unfold len. lia. Qed.

Lemma len_cons x b : len (x :: b) = 1 + len b.
Proof. unfold len. cbn [length]. lia. Qed.

Lemma len_rlp_head small large n : 0 ≤ n < 2 ^ 64 → len (rlp_head small large n) ≤ 9.
Proof.
  intros Hn. unfold rlp_head. destruct (Z.ltb_spec n 56); [done|]. cbv zeta. rewrite len_cons, len_min_be.
  pose proof (nbytes_range n ltac:(lia)). lia.
Qed.

Lemma len_rlp_string_le b : len b < 2 ^ 64 → len (rlp_string b) ≤ len b + 9.
Proof.
  intros Hb. assert (len (rlp_head 128 183 (len b) ++ b) ≤ len b + 9) as Hh.
  { rewrite len_app. pose proof (len_rlp_head 128 183 (len b) ltac:(unfold len in *; lia)). lia. }
  destruct b as [|x [|y b]]; [exact Hh| |exact Hh]. cbn. destruct (x <? 128); unfold len; cbn; lia.
Qed.

Lemma len_rlp_list_le out : len out < 2 ^ 64 → len (rlp_list out) ≤ len out + 9.
Proof. intros. unfold rlp_list. rewrite len_app. pose proof (len_rlp_head 192 247 (len out) ltac:(unfold len in *; lia)). lia. Qed.

Lemma rlp_string_long b : 2 ≤ len b → rlp_string b = rlp_head 128 183 (len b) ++ b.
Proof. by destruct b as [|x [|y b]]. Qed.

Lemma len_rlp_string b : len b ≤ len (rlp_string b).
Proof.
  destruct b as [|x [|y b]]; [done| |].
  - cbn. by destruct (x <? 128).
  - unfold rlp_string. rewrite len_app. unfold len at 2. lia.
Qed.

Lemma encodeString_spec b w : len b < 2 ^ 64 → encodeString b w = eb_write (rlp_string b) w.
Proof.
  intros Hb. destruct b as [|x [|y b]].
  - cbn [encodeString rlp_string]. by rewrite encodeStringHeader_head, eb_write_write.
  - cbn. destruct (Z.leb_spec x 127), (Z.ltb_spec x 128); try lia; [done|].
    rewrite encodeStringHeader_head by done. by rewrite eb_write_write.
  - cbn [encodeString rlp_string]. rewrite encodeStringHeader_head, eb_write_write; [done|]. unfold len in *. lia.
Qed.

Lemma min_be_small n : 0 < n < 256 → min_be n = [n].
Proof.
  intros Hn. unfold min_be. rewrite (nbytes_pos 1) by (done || (split; cbn; lia)).
  change (to_be (Z.to_nat 1) n) with [n mod 256]. by rewrite Z.mod_small by lia.
Qed.

Lemma encodeUint_spec n w : 0 ≤ n < 2 ^ 64 → encodeUint n w = eb_write (rlp_string (min_be n)) w.
Proof.
  intros Hn. unfold encodeUint. destruct (Z.eqb_spec n 0) as [->|Hz]; [done|].
  destruct (Z.ltb_spec n 128).
  - rewrite min_be_small, byte_small by lia. cbn. by destruct (Z.ltb_spec n 128); [|lia].
  - rewrite putint_min_be by lia. cbv zeta. rewrite len_min_be. pose proof (nbytes_range n ltac:(lia)).
    rewrite (byte_small (nbytes n)), byte_small by lia. f_equal.
    destruct (Z.lt_ge_cases n 256) as [Hs|Hb].
    + rewrite min_be_small, (nbytes_pos 1) by (lia || (split; cbn; lia)). cbn.
      by destruct (Z.ltb_spec n 128); [lia|].
    + assert (2 ≤ nbytes n).
      { rewrite nbytes_step by done. pose proof (nbytes_range (Z.shiftr n 8)) as Hr. rewrite Z.shiftr_div_pow2 in * by done.
        change (2 ^ 8) with 256 in *. assert (1 ≤ n / 256) by (apply Z.div_le_lower_bound; lia).
        assert (n / 256 ≤ n) by (apply Z.div_le_upper_bound; lia). lia. }
      rewrite rlp_string_long by (rewrite len_min_be; lia). unfold rlp_head. rewrite len_min_be.
      by destruct (Z.ltb_spec (nbytes n) 56); [|lia].
Qed.

Lemma big_bytes_min_be z : 0 ≤ z → big_bytes z = min_be z.
Proof.
  intros Hz. unfold big_bytes, min_be, nbytes. destruct (Z.eqb_spec z 0) as [->|]; [done|].
  replace (Z.log2 z + 1 + 7) with (Z.log2 z + 1 * 8) by lia. by rewrite Z.div_add by lia.
Qed.

Lemma nbytes_ge k n : 0 ≤ k → 2 ^ (8 * k) ≤ n → k + 1 ≤ nbytes n.
Proof.
  intros Hk Hn. assert (0 < 2 ^ (8 * k)) by (apply Z.pow_pos_nonneg; lia). unfold nbytes.
  destruct (Z.eqb_spec n 0); [lia|]. assert (8 * k ≤ Z.log2 n) by (apply Z.log2_le_pow2; lia).
  assert (k ≤ Z.log2 n / 8); [apply Z.div_le_lower_bound; lia|lia].
Qed.

Lemma writeBigInt_spec z w :
  0 ≤ z → len (min_be z) < 2 ^ 64 → writeBigInt z w = inr (eb_write (rlp_string (min_be z)) w).
Proof.
  intros Hz Hlen. unfold writeBigInt. destruct (Z.ltb_spec z 0); [lia|].
  destruct (Z.ltb_spec z (2 ^ 64)); [by rewrite encodeUint_spec|].
  rewrite big_bytes_min_be by done. cbv zeta. pose proof (nbytes_ge 8 z ltac:(lia) ltac:(cbn; lia)) as H9.
  rewrite <- len_min_be in H9. rewrite encodeStringHeader_head, eb_write_write by lia.
  by rewrite rlp_string_long by lia.
Qed.

Lemma writeByteArray_spec b w : len b < 2 ^ 64 → writeByteArray b w = eb_write (rlp_string b) w.
Proof.
  intros Hb. destruct b as [|x [|y b]].
  - done.
  - cbn. by destruct (Z.leb_spec x 127), (Z.ltb_spec x 128); try lia.
  - cbn [writeByteArray rlp_string]. rewrite encodeStringHeader_head, eb_write_write; [done|]. unfold len in *. lia.
Qed.

(** ** Lists: strings and heads merged *)

Definition shift (n : Z) (hs : list listhead) : list listhead :=
  (λ h, mkHead (n + lh_offset h) (lh_size h)) <$> hs.

Inductive merged : bytes → list listhead → bytes → Prop :=
| merged_nil s : merged s [] s
| merged_head s1 s2 n hs out :
    merged s2 hs out → 0 ≤ n < 2 ^ 64 →
    merged (s1 ++ s2) (mkHead (len s1) n :: shift (len s1) hs) (s1 ++ rlp_head 192 247 n ++ out).

Lemma shift_shift n m hs : shift n (shift m hs) = shift (n + m) hs.
Proof.
  unfold shift. rewrite <- list_fmap_compose. apply list_fmap_ext. intros i [o s] _. cbn. f_equal. lia.
Qed.

Lemma shift_0 hs : shift 0 hs = hs.
Proof. unfold shift. rewrite <- (list_fmap_id hs) at 2. apply list_fmap_ext. by intros i [o s] _. Qed.

Lemma shift_app n hs1 hs2 : shift n (hs1 ++ hs2) = shift n hs1 ++ shift n hs2.
Proof. apply fmap_app. Qed.

Lemma merged_prefix s1 s2 hs out : merged s2 hs out → merged (s1 ++ s2) (shift (len s1) hs) (s1 ++ out).
Proof.
  intros Hm. destruct Hm as [s|a s2 n hs out Hm Hn]; [constructor|].
  rewrite !app_assoc, <- (app_assoc (s1 ++ a)). cbn [shift fmap list_fmap]. fold (shift (len s1) (shift (len a) hs)).
  rewrite shift_shift. cbn [lh_offset lh_size]. rewrite <- !len_app. by apply merged_head.
Qed.

Lemma merged_app s1 hs1 o1 s2 hs2 o2 :
  merged s1 hs1 o1 → merged s2 hs2 o2 → merged (s1 ++ s2) (hs1 ++ shift (len s1) hs2) (o1 ++ o2).
Proof.
  intros H1 H2. induction H1 as [s|a s1 n hs out _ IH Hn].
  - by apply merged_prefix.
  - rewrite <- !app_assoc. cbn [app]. rewrite len_app, <- shift_shift, <- shift_app.
    by apply merged_head.
Qed.

Lemma merged_len s hs out : merged s hs out → len s ≤ len out.
Proof.
  induction 1 as [s|a s n hs out _ IH Hn]; [done|]. rewrite !len_app. unfold len in *. lia.
Qed.

(** ** The encoder *)

Fixpoint encode_elems (l : list rval) (w : encbuf) : Enc :=
  match l with
  | [] => Ret (inr w)
  | v :: l => enc_bind (encode v w) (encode_elems l)
  end.

Lemma encode_tail l w : encode (VTail l) w = encode_elems l w.
Proof. revert w. induction l as [|v l IH]; intros w; [done|]. cbn. by destruct (encode v w) as [[]|]; cbn; [|rewrite <- IH|]. Qed.

Definition encode_list (l : list rval) (w : encbuf) : Enc :=
  let '(w, index) := eb_list w in
  enc_bind (encode_elems l w) (λ w, w ← listEnd index w; Ret (inr w)).

Lemma encode_struct l w : encode (VStruct l) w = encode_list l w.
Proof. unfold encode_list. cbn [eb_list]. rewrite <- encode_tail. done. Qed.

Lemma encode_slice l w : l ≠ [] → encode (VSlice l) w = encode_list l w.
Proof. intros Hl. rewrite <- encode_struct. by destruct l. Qed.

(** What an encoder adds to the buffer. *)
Definition adds (m : Enc) (w : encbuf) (out : bytes) : Prop :=
  ∃ s hs, merged s hs out ∧
    m = Ret (inr (mkEncbuf (eb_str w ++ s) (eb_lheads w ++ shift (len (eb_str w)) hs)
                    (eb_lhsize w + (len out - len s)))).

Lemma adds_write b w : adds (Ret (inr (eb_write b w))) w b.
Proof.
  exists b, []. split; [constructor|]. unfold eb_write. cbn. by rewrite app_nil_r, Z.sub_diag, Z.add_0_r.
Qed.

Lemma adds_nil w : adds (Ret (inr w)) w [].
Proof. pose proof (adds_write [] w) as Ha. unfold eb_write in Ha. rewrite app_nil_r in Ha. by destruct w. Qed.

Lemma adds_bind m w out1 k out2 :
  adds m w out1 → (∀ w', adds (k w') w' out2) → adds (enc_bind m k) w (out1 ++ out2).
Proof.
  intros (s1 & hs1 & Hm1 & ->) Hk. cbn. destruct (Hk (mkEncbuf (eb_str w ++ s1)
    (eb_lheads w ++ shift (len (eb_str w)) hs1) (eb_lhsize w + (len out1 - len s1)))) as (s2 & hs2 & Hm2 & ->).
  exists (s1 ++ s2), (hs1 ++ shift (len s1) hs2). split; [by apply merged_app|].
  cbn. rewrite !app_assoc, shift_app, shift_shift, !len_app, app_assoc. do 3 f_equal. lia.
Qed.

Lemma list_lookup_here {A} (l k : list A) x : (l ++ x :: k) !! length l = Some x.
Proof. by rewrite lookup_app_r, Nat.sub_diag by lia. Qed.
Lemma list_insert_here {A} (l k : list A) x y : <[length l := y]> (l ++ x :: k) = l ++ y :: k.
Proof. by rewrite insert_app_r_alt, Nat.sub_diag by lia. Qed.

Lemma adds_list l w out :
  (∀ w, adds (encode_elems l w) w out) → 0 ≤ len out < 2 ^ 64 → adds (encode_list l w) w (rlp_list out).
Proof.
  intros He Hlen. unfold encode_list, eb_list.
  destruct (He (mkEncbuf (eb_str w) (eb_lheads w ++ [mkHead (len (eb_str w)) (eb_lhsize w)]) (eb_lhsize w)))
    as (s & hs & Hm & ->). cbn [enc_bind eb_str eb_lheads eb_lhsize mbind Go_bind].
  unfold listEnd. cbn [eb_lheads eb_str eb_lhsize]. rewrite Nat2Z.id, <- app_assoc. cbn [app].
  rewrite list_lookup_here, list_insert_here. cbn [lh_offset lh_size]. unfold eb_size. cbn [eb_str eb_lhsize].
  rewrite len_app.
  replace (len (eb_str w) + len s + (eb_lhsize w + (len out - len s)) - len (eb_str w) - eb_lhsize w)
    with (len out) by lia.
  exists s, (mkHead 0 (len out) :: hs). split.
  - pose proof (merged_head [] s (len out) hs out Hm Hlen) as Hh. by rewrite shift_0 in Hh.
  - cbn [mbind Go_bind]. do 3 f_equal.
    + cbn. by rewrite Z.add_0_r.
    + unfold rlp_list. rewrite len_app, len_head by done. unfold headsize. destruct (len out <? 56); lia.
Qed.

Lemma len_concat_in v l : v ∈ l → len (rlp v) ≤ len (concat (map rlp l)).
Proof.
  induction 1 as [l|u x l _ IH]; cbn; rewrite len_app; unfold len in *; lia.
Qed.

Lemma len_rlp_list c : len c < len (rlp_list c).
Proof.
  unfold rlp_list. rewrite len_app. unfold rlp_head. destruct (_ <? _); cbv zeta; rewrite len_cons;
    match goal with |- _ < 1 + len ?l + _ => pose proof (len_0 l) end; lia.
Qed.

Lemma adds_elems l :
  Forall (λ v, wf v → len (rlp v) < 2 ^ 64 → ∀ w, adds (encode v w) w (rlp v)) l → Forall wf l →
  len (concat (map rlp l)) < 2 ^ 64 → ∀ w, adds (encode_elems l w) w (concat (map rlp l)).
Proof.
  intros Hl Hwf Hlen. assert (∀ v, v ∈ l → len (rlp v) < 2 ^ 64) as Hv.
  { intros v Hin. pose proof (len_concat_in v l Hin). lia. }
  clear Hlen. induction Hl as [|v l Hv0 _ IH]; intros w; cbn; [apply adds_nil|].
  apply Forall_cons in Hwf as [Hwv Hwl]. apply adds_bind.
  - apply Hv0; [done|apply Hv; by left].
  - apply IH; [done|]. intros u Hu. apply Hv. by right.
Qed.

Lemma encode_adds v : wf v → len (rlp v) < 2 ^ 64 → ∀ w, adds (encode v w) w (rlp v).
Proof.
  induction v using rval_nested_ind; intros Hwf Hlen w; cbn [rlp wf] in *.
  - apply adds_write.
  - cbn [encode]. rewrite encodeUint_spec by done. apply adds_write.
  - destruct b; apply adds_write.
  - pose proof (len_rlp_string (min_be z)). cbn [encode]. rewrite writeBigInt_spec by (done || lia). apply adds_write.
  - destruct z as [z|]; [change (default 0 (Some z)) with z in *|apply adds_write]. pose proof (len_rlp_string (min_be z)).
    cbn [encode]. rewrite writeBigInt_spec by (done || lia). apply adds_write.
  - pose proof (len_rlp_string b). cbn [encode]. rewrite encodeString_spec by lia. apply adds_write.
  - pose proof (len_rlp_string b). cbn [encode]. rewrite encodeString_spec by lia. apply adds_write.
  - pose proof (len_rlp_string b). cbn [encode]. rewrite writeByteArray_spec by lia. apply adds_write.
  - destruct (decide (l = [])) as [->|Hne]; [apply adds_write|].
    pose proof (len_rlp_list (concat (map rlp l))). pose proof (len_0 (concat (map rlp l))).
    rewrite encode_slice by done. apply adds_list; [|lia].
    apply adds_elems; [done|by apply wf_list|lia].
  - rewrite encode_tail. apply adds_elems; [done|by apply wf_list|done].
  - pose proof (len_rlp_list (concat (map rlp l))). pose proof (len_0 (concat (map rlp l))).
    rewrite encode_struct. apply adds_list; [|lia].
    apply adds_elems; [done|by apply wf_list|lia].
  - apply adds_write.
  - by apply IHv.
  - apply adds_write.
Qed.

(** ** Merging the heads into the strings *)

Lemma subslice_mid (a b c : bytes) : subslice (a ++ b ++ c) (len a) (len a + len b) = Ret b.
Proof.
  unfold subslice. pose proof (len_0 a). pose proof (len_0 b). pose proof (len_0 c).
  rewrite (proj2 (Z.leb_le 0 (len a))), (proj2 (Z.leb_le (len a) (len a + len b))),
    (proj2 (Z.leb_le (len a + len b) (len (a ++ b ++ c)))) by (rewrite ?len_app; lia).
  cbn [andb]. f_equal. unfold len. rewrite Nat2Z.id, drop_app_length.
  replace (Z.to_nat _) with (length b) by lia. apply take_app_length.
Qed.

Lemma zeros_app n m : 0 ≤ n → 0 ≤ m → zeros (n + m) = zeros n ++ zeros m.
Proof. intros. unfold zeros. by rewrite Z2Nat.inj_add, replicate_add by lia. Qed.

Lemma replace_mid (a b b' c : bytes) k :
  len b = k → take (Z.to_nat (len a)) (a ++ b ++ c) ++ b' ++ drop (Z.to_nat (len a + k)) (a ++ b ++ c) = a ++ b' ++ c.
Proof.
  intros Hk. unfold len in *. rewrite Nat2Z.id, take_app_length. do 2 f_equal.
  rewrite (app_assoc a b c). replace (Z.to_nat _) with (length (a ++ b)) by (rewrite length_app; lia).
  apply drop_app_length.
Qed.

Lemma copy_from_mid (a b c s : bytes) :
  len b = len s → copy_from (a ++ b ++ c) (len a) s = Ret (a ++ s ++ c, len s).
Proof.
  intros Hb. unfold copy_from. pose proof (len_0 s). pose proof (len_0 c). rewrite !len_app.
  destruct (Z.ltb_spec (len a + (len b + len c)) (len a)); [lia|].
  rewrite Z.min_r by lia. do 2 f_equal. rewrite (replace_mid a b _ c) by done. do 2 f_equal.
  unfold len. rewrite Nat2Z.id. by apply take_ge.
Qed.

Lemma put_at_mid (a b c s : bytes) : len b = len s → put_at (a ++ b ++ c) (len a) s = Ret (a ++ s ++ c).
Proof.
  intros Hb. unfold put_at. pose proof (len_0 c). rewrite !len_app.
  destruct (Z.ltb_spec (len a + (len b + len c)) (len a + len s)); [lia|]. by rewrite (replace_mid a b _ c).
Qed.

Definition toBytes_end (str : bytes) (s : bytes * Z * Z) : Go bytes :=
  let '(out, pos, strpos) := s in
  src ← subslice str strpos (len str); '(out, _) ← copy_from out pos src; Ret out.

Lemma toBytes_loop s hs out : merged s hs out → ∀ pre written,
  (r ← go_foldl (toBytes_step (pre ++ s)) (written ++ zeros (len out), len written, len pre) (shift (len pre) hs);
   toBytes_end (pre ++ s) r) = Ret (written ++ out).
Proof.
  induction 1 as [s|s1 s2 n hs out Hm IH Hn]; intros pre written.
  - cbn [shift fmap list_fmap go_foldl mbind Go_bind toBytes_end].
    rewrite <- (app_nil_r (pre ++ s)) at 1. rewrite <- app_assoc, len_app, subslice_mid. cbn [mbind Go_bind].
    rewrite <- (app_nil_r (zeros (len s))), copy_from_mid; [by rewrite app_nil_r|].
    by rewrite len_zeros by apply len_0.
  - pose proof (len_0 s1). pose proof (len_0 out). pose proof (len_0 (rlp_head 192 247 n)).
    assert (shift (len pre) (mkHead (len s1) n :: shift (len s1) hs)
      = mkHead (len pre + len s1) n :: shift (len (pre ++ s1)) hs) as ->.
    { cbn. f_equal. rewrite len_app. apply shift_shift. }
    cbn [go_foldl]. unfold toBytes_step at 1. cbn [lh_offset lh_size].
    rewrite subslice_mid. cbn [mbind Go_bind].
    rewrite !len_app, zeros_app, zeros_app, copy_from_mid by (rewrite ?len_zeros; lia). cbn [mbind Go_bind].
    rewrite puthead_head by lia. rewrite <- (len_app written s1), (app_assoc written s1).
    rewrite put_at_mid by (rewrite len_zeros; lia). cbn [mbind Go_bind].
    specialize (IH (pre ++ s1) (written ++ s1 ++ rlp_head 192 247 n)).
    rewrite !len_app, ?Z.add_assoc, <- !(app_assoc written), <- !app_assoc in IH.
    rewrite ?len_app, ?Z.add_assoc, <- ?(app_assoc written), <- ?app_assoc. exact IH.
Qed.

Lemma EncodeToBytes_rlp v : wf v → len (rlp v) < 2 ^ 64 → EncodeToBytes v = Ret (inr (rlp v)).
Proof.
  intros Hwf Hlen. unfold EncodeToBytes. destruct (encode_adds v Hwf Hlen reset_buf) as (s & hs & Hm & ->).
  cbn [mbind Go_bind]. cbn [reset_buf eb_str eb_lheads eb_lhsize app]. unfold toBytes, eb_size.
  cbn [eb_str eb_lheads eb_lhsize]. replace (len s + (0 + (len (rlp v) - len s))) with (len (rlp v)) by lia.
  pose proof (toBytes_loop s hs (rlp v) Hm [] []) as Hl. cbn [app] in Hl. change (len []) with 0 in Hl.
  fold (toBytes_end s) in *. unfold mbind at 1, Go_bind at 1 in Hl.
  destruct (go_foldl _ _ _) as [[[o p] q]|p]; [|done]. cbn [mbind Go_bind]. by rewrite Hl.
Qed.
