(* ===== verification/RlpDecode.v ===== *)
(** * rlp/decode.go: streams and typed decoders

    A [Stream] reads from a byte slice ([bytes.Reader]).  Reflection chooses a
    decoder by a type: [rtype] is what [makeDecoder] looks at.  The target of a
    decoder is its result; what a failed decoder leaves in its target, the path in
    the message of a [decodeError], structs with optional fields and types with a
    decoder of their own are left out.  [None] is a loop that ran out of fuel. *)

From S2P Require Import Prelude Common Uint256 Machine Rlp.

(** ** The stream

    [st_kind] is [None] for the code's -1: nothing has been read ahead.  The top
    of [st_stack] comes first. *)
Record Stream := mkStream {
  st_r : bytes;
  st_remaining : Z;
  st_size : Z;
  st_kinderr : option RlpError;
  st_stack : list Z;
  st_kind : option Kind;
  st_byteval : Z;
  st_limited : bool
}.

Definition Dec (A : Type) : Type := Stream → option ((RlpError + A) * Stream).
Definition dec_ret {A} (a : A) : Dec A := λ s, Some (inr a, s).
Definition dec_err {A} (e : RlpError) : Dec A := λ s, Some (inl e, s).
Definition dec_try {A B} (m : Dec A) (k : RlpError + A → Dec B) : Dec B :=
  λ s, match m s with None => None | Some (r, s) => k r s end.
#[export] Instance Dec_ret : MRet Dec := @dec_ret.
#[export] Instance Dec_bind : MBind Dec :=
  λ A B k m, dec_try m (λ r, match r with inl e => dec_err e | inr a => k a end).
Definition dec_wrap {A} (f : RlpError → RlpError) (m : Dec A) : Dec A :=
  dec_try m (λ r, match r with inl e => dec_err (f e) | inr a => dec_ret a end).
Definition dec_get : Dec Stream := λ s, Some (inr s, s).
Definition dec_set (f : Stream → Stream) : Dec () := λ s, Some (inr tt, f s).

Definition set_kind (k : option Kind) (s : Stream) : Stream :=
  mkStream (st_r s) (st_remaining s) (st_size s) (st_kinderr s) (st_stack s) k (st_byteval s) (st_limited s).
Definition set_size (n : Z) (s : Stream) : Stream :=
  mkStream (st_r s) (st_remaining s) n (st_kinderr s) (st_stack s) (st_kind s) (st_byteval s) (st_limited s).
Definition set_stack (l : list Z) (s : Stream) : Stream :=
  mkStream (st_r s) (st_remaining s) (st_size s) (st_kinderr s) l (st_kind s) (st_byteval s) (st_limited s).
Definition set_remaining (n : Z) (s : Stream) : Stream :=
  mkStream (st_r s) n (st_size s) (st_kinderr s) (st_stack s) (st_kind s) (st_byteval s) (st_limited s).
Definition set_r (r : bytes) (s : Stream) : Stream :=
  mkStream r (st_remaining s) (st_size s) (st_kinderr s) (st_stack s) (st_kind s) (st_byteval s) (st_limited s).
Definition set_byteval (b : Z) (s : Stream) : Stream :=
  mkStream (st_r s) (st_remaining s) (st_size s) (st_kinderr s) (st_stack s) (st_kind s) b (st_limited s).
Definition rearm : Dec () := dec_set (set_kind None).

(** A reader over [r]; the limit is the input's length unless one is given. *)
Definition Stream_Reset (r : bytes) (inputLimit : Z) : Stream :=
  mkStream r (if 0 <? inputLimit then inputLimit else len r) 0 None [] None 0 true.

Definition listLimit (s : Stream) : option Z := head (st_stack s).

Definition willRead (n : Z) : Dec () := λ s,
  let s := set_kind None s in
  let limited s :=
    if st_limited s then
      if st_remaining s <? n then Some (inl ErrValueTooLarge, s)
      else Some (inr tt, set_remaining (st_remaining s - n) s)
    else Some (inr tt, s) in
  match st_stack s with
  | [] => limited s
  | limit :: outer =>
      if limit <? n then Some (inl ErrElemTooLarge, s)
      else limited (set_stack (limit - n :: outer) s)
  end.

Definition readByte : Dec Z :=
  _ ← willRead 1;
  (λ s, match st_r s with
        | [] => Some (inl ErrUnexpectedEOF, s)
        | b :: r => Some (inr b, set_r r s)
        end) : Dec Z.

(** A [bytes.Reader] gives what it has and then [io.EOF]. *)
Definition readFull (n : Z) : Dec bytes :=
  _ ← willRead n;
  (λ s, if len (st_r s) <? n then Some (inl ErrUnexpectedEOF, set_r [] s)
        else Some (inr (take (Z.to_nat n) (st_r s)), set_r (drop (Z.to_nat n) (st_r s)) s)) : Dec bytes.

Definition readUint (size : Z) : Dec Z :=
  if size =? 0 then _ ← rearm; dec_ret 0
  else if size =? 1 then readByte
  else
    buffer ← readFull size;
    if default 0 (head buffer) =? 0 then dec_err ErrCanonSize else dec_ret (be_val buffer).

(** The kind and the size come with the error. *)
Definition readKind_size (k : Kind) (n : Z) : Dec (Kind * Z * option RlpError) :=
  dec_try (readUint n) (λ r, dec_ret
    match r with
    | inl err => (k, 0, Some err)
    | inr size => (k, size, if size <? 56 then Some ErrCanonSize else None)
    end).

Definition Stream_readKind : Dec (Kind * Z * option RlpError) :=
  dec_try readByte (λ r,
    match r with
    | inl err =>
        s ← dec_get;
        let err := match st_stack s, err with
                   | [], (ErrUnexpectedEOF | ErrValueTooLarge) => EOF
                   | _, _ => err
                   end in
        dec_ret (KByte, 0, Some err)
    | inr b =>
        _ ← dec_set (set_byteval 0);
        if b <? 128 then _ ← dec_set (set_byteval b); dec_ret (KByte, 0, None)
        else if b <? 184 then dec_ret (KString, b - 128, None)
        else if b <? 192 then readKind_size KString (b - 183)
        else if b <? 248 then dec_ret (KList, b - 192, None)
        else readKind_size KList (b - 247)
    end).

Definition kind_result (k : Kind) (size : Z) (err : option RlpError) : Dec (Kind * Z) :=
  match err with Some err => dec_err err | None => dec_ret (k, size) end.

(** [listLimit] is the limit before the tag was read. *)
Definition Stream_Kind : Dec (Kind * Z) := λ s,
  match st_kind s with
  | Some k => kind_result k (st_size s) (st_kinderr s) s
  | None =>
      let limit := listLimit s in
      if bool_decide (limit = Some 0) then Some (inl EOL, s)
      else
        match Stream_readKind s with
        | None => None
        | Some (inl err, s) => Some (inl err, s)
        | Some (inr (k, size, kinderr), s) =>
            let kinderr :=
              match kinderr with
              | Some err => Some err
              | None =>
                  if match limit with Some l => l <? size | None => false end then Some ErrElemTooLarge
                  else if st_limited s && (st_remaining s <? size) then Some ErrValueTooLarge
                  else None
              end in
            kind_result k size kinderr
              (mkStream (st_r s) (st_remaining s) size kinderr (st_stack s) (Some k) (st_byteval s) (st_limited s))
        end
  end.

Definition byteval : Dec Z := s ← dec_get; dec_ret (st_byteval s).

Definition Stream_Bytes : Dec bytes :=
  '(kind, size) ← Stream_Kind;
  match kind with
  | KByte => _ ← rearm; b ← byteval; dec_ret [b]
  | KString =>
      b ← readFull size;
      if (size =? 1) && (default 0 (head b) <? 128) then dec_err ErrCanonSize else dec_ret b
  | KList => dec_err ErrExpectedString
  end.

Definition Stream_Raw : Dec bytes :=
  '(kind, size) ← Stream_Kind;
  match kind with
  | KByte => _ ← rearm; b ← byteval; dec_ret [b]
  | KString => b ← readFull size; dec_ret (puthead 128 183 size ++ b)
  | KList => b ← readFull size; dec_ret (puthead 192 247 size ++ b)
  end.

Definition Stream_uint (maxbits : Z) : Dec Z :=
  '(kind, size) ← Stream_Kind;
  match kind with
  | KByte =>
      b ← byteval;
      if b =? 0 then dec_err ErrCanonInt else _ ← rearm; dec_ret b
  | KString =>
      if maxbits / 8 <? size then dec_err errUintOverflow
      else
        dec_try (readUint (byte size)) (λ r,
          match r with
          | inl ErrCanonSize => dec_err ErrCanonInt
          | inl err => dec_err err
          | inr v => if (0 <? size) && (v <? 128) then dec_err ErrCanonSize else dec_ret v
          end)
  | KList => dec_err ErrExpectedString
  end.

Definition Stream_Bool : Dec bool :=
  num ← Stream_uint 8;
  if num =? 0 then dec_ret false
  else if num =? 1 then dec_ret true
  else dec_err (ErrInvalidBool num).

Definition Stream_List : Dec Z :=
  '(kind, size) ← Stream_Kind;
  match kind with
  | KList =>
      _ ← dec_set (λ s,
        let stack := match st_stack s with
                     | [] => []
                     | limit :: outer => wrapU 64 (limit - size) :: outer
                     end in
        set_size 0 (set_kind None (set_stack (size :: stack) s)));
      dec_ret size
  | _ => dec_err ErrExpectedList
  end.

Definition Stream_ListEnd : Dec () := λ s,
  match st_stack s with
  | [] => Some (inl errNotInList, s)
  | limit :: outer =>
      if 0 <? limit then Some (inl errNotAtEOL, s)
      else Some (inr tt, set_size 0 (set_kind None (set_stack outer s)))
  end.

(** ** Typed decoders *)

Definition wrapStreamError (err : RlpError) : RlpError :=
  match err with
  | ErrCanonInt => decodeError "non-canonical integer (leading zero bytes)"
  | ErrCanonSize => decodeError "non-canonical size information"
  | ErrExpectedList => decodeError "expected input list"
  | ErrExpectedString => decodeError "expected input string or byte"
  | errUintOverflow => decodeError "input string too long"
  | errNotAtEOL => decodeError "input list has too many elements"
  | err => err
  end.
Abbreviation wrapped := (dec_wrap wrapStreamError).

(** What [makeDecoder] looks at: [TBig] is a [big.Int], [TBigPtr] a pointer to
    one, [TBytes] and [TByteArray] slices and arrays of bytes, [TTail] a slice
    field with the tag [tail], [TPtr true k] a pointer field with a nil tag.  The
    kind of a pointer is the one its encoder writes for nil. *)
Inductive rtype :=
| TRaw
| TUint (bits : Z)
| TBool
| TBig
| TBigPtr
| TString
| TBytes
| TByteArray (n : nat)
| TSlice (t : rtype)
| TArray (n : nat) (t : rtype)
| TTail (t : rtype)
| TStruct (fields : list rtype)
| TPtr (nilOK : bool) (nilKind : Kind) (t : rtype)
| TInterface.

Definition bigint_bytes : Dec bytes :=
  '(kind, size) ← Stream_Kind;
  match kind with
  | KList => dec_err ErrExpectedString
  | KByte => b ← byteval; _ ← rearm; dec_ret [b]
  | KString =>
      if size =? 0 then _ ← rearm; dec_ret []
      else
        buffer ← readFull size;
        if (size <=? 32) && (size =? 1) && (default 0 (head buffer) <? 128) then dec_err ErrCanonSize
        else dec_ret buffer
  end.

Definition decodeBigInt : Dec Z := wrapped (
  buffer ← bigint_bytes;
  if (0 <? len buffer) && (default 0 (head buffer) =? 0) then dec_err ErrCanonInt
  else dec_ret (be_val buffer)).

(** The errors of [Kind] and of reading are returned as they are. *)
Definition decodeByteArray (n : nat) : Dec bytes :=
  '(kind, size) ← Stream_Kind;
  match kind with
  | KByte =>
      if Z.of_nat n =? 0 then dec_err (decodeError "input string too long")
      else if 1 <? Z.of_nat n then dec_err (decodeError "input string too short")
      else b ← byteval; _ ← rearm; dec_ret [b]
  | KString =>
      if Z.of_nat n <? size then dec_err (decodeError "input string too long")
      else if size <? Z.of_nat n then dec_err (decodeError "input string too short")
      else
        slice ← readFull (Z.of_nat n);
        if (size =? 1) && (default 0 (head slice) <? 128) then dec_err (wrapStreamError ErrCanonSize)
        else dec_ret slice
  | KList => dec_err (wrapStreamError ErrExpectedString)
  end.

(** The loop ends at the end of the list. *)
Fixpoint decodeSliceElems (elemdec : Dec rval) (fuel : nat) : Dec (list rval) :=
  match fuel with
  | O => λ _, None
  | S fuel =>
      dec_try elemdec (λ r,
        match r with
        | inl EOL => dec_ret []
        | inl err => dec_err err
        | inr v => l ← decodeSliceElems elemdec fuel; dec_ret (v :: l)
        end)
  end.

Definition decodeListSlice (elemdec : Dec rval) (fuel : nat) : Dec (list rval) :=
  size ← wrapped Stream_List;
  if size =? 0 then _ ← Stream_ListEnd; dec_ret []
  else l ← decodeSliceElems elemdec fuel; _ ← Stream_ListEnd; dec_ret l.

Fixpoint array_elems (elemdec : Dec rval) (vlen : nat) : Dec (list rval) :=
  match vlen with
  | O => dec_ret []
  | S vlen =>
      dec_try elemdec (λ r,
        match r with
        | inl EOL => dec_err (decodeError "input list has too few elements")
        | inl err => dec_err err
        | inr v => l ← array_elems elemdec vlen; dec_ret (v :: l)
        end)
  end.

Definition decodeListArray (elemdec : Dec rval) (vlen : nat) : Dec (list rval) :=
  _ ← wrapped Stream_List;
  l ← array_elems elemdec vlen;
  _ ← wrapped Stream_ListEnd; dec_ret l.

Definition makeNilPtrDecoder (nilKind : Kind) (etype_decoder : Dec rval) : Dec rval :=
  '(kind, size) ← wrapped Stream_Kind;
  if bool_decide (kind ≠ KByte) && (size =? 0) then
    if bool_decide (kind ≠ nilKind) then dec_err (decodeError "wrong kind of empty value")
    else _ ← rearm; dec_ret (VPtr nilKind None)
  else v ← etype_decoder; dec_ret (VPtr nilKind (Some v)).

(** Fuel for the nesting of lists and for the elements of each. *)
Fixpoint decodeInterface (fuel : nat) : Dec rval :=
  match fuel with
  | O => λ _, None
  | S fuel =>
      '(kind, _) ← Stream_Kind;
      match kind with
      | KList => l ← decodeListSlice (decodeInterface fuel) fuel; dec_ret (VSlice l)
      | _ => b ← Stream_Bytes; dec_ret (VBytes b)
      end
  end.

(** The decoders of [makeDecoder]; the one of a struct runs over its fields. *)
Fixpoint decode (fuel : nat) (t : rtype) : Dec rval :=
  let fields := fix fields (ts : list rtype) : Dec (list rval) :=
    match ts with
    | [] => dec_ret []
    | t :: ts =>
        dec_try (decode fuel t) (λ r,
          match r with
          | inl EOL => dec_err (decodeError "too few elements")
          | inl err => dec_err err
          | inr v => l ← fields ts; dec_ret (v :: l)
          end)
    end in
  match t with
  | TRaw => b ← Stream_Raw; dec_ret (VRaw b)
  | TUint bits => n ← wrapped (Stream_uint bits); dec_ret (VUint n)
  | TBool => b ← wrapped Stream_Bool; dec_ret (VBool b)
  | TBig => z ← decodeBigInt; dec_ret (VBig z)
  | TBigPtr => z ← decodeBigInt; dec_ret (VBigPtr (Some z))
  | TString => b ← wrapped Stream_Bytes; dec_ret (VString b)
  | TBytes => b ← wrapped Stream_Bytes; dec_ret (VBytes b)
  | TByteArray n => b ← decodeByteArray n; dec_ret (VByteArray b)
  | TSlice t => l ← decodeListSlice (decode fuel t) fuel; dec_ret (VSlice l)
  | TArray n t => l ← decodeListArray (decode fuel t) n; dec_ret (VSlice l)
  | TTail t => l ← decodeSliceElems (decode fuel t) fuel; dec_ret (VTail l)
  | TStruct ts =>
      _ ← wrapped Stream_List;
      l ← fields ts;
      _ ← wrapped Stream_ListEnd; dec_ret (VStruct l)
  | TPtr false k t => v ← decode fuel t; dec_ret (VPtr k (Some v))
  | TPtr true k t => makeNilPtrDecoder k (decode fuel t)
  | TInterface => decodeInterface fuel
  end.

(** Every element of a list takes a byte of the input. *)
Definition DecodeBytes (b : bytes) (t : rtype) : option (RlpError + rval) :=
  match decode (S (length b)) t (Stream_Reset b (len b)) with
  | None => None
  | Some (inl err, _) => Some (inl err)
  | Some (inr v, s) => Some (if 0 <? len (st_r s) then inl ErrMoreThanOneValue else inr v)
  end.
