(* ===== verification/RlpStreamFacts.v ===== *)
(** * The stream of the decoder

    [mk] is a stream over the bytes it may still read.  The lemmas say what the
    reading operations give on it, and [good] and [peeks] what a decoder built
    from them promises. *)

From S2P Require Import Prelude Common Uint256 Machine VmFacts Rlp RlpFacts RlpDecode.

(** ** Minimal big-endian bytes *)

Lemma min_be_bytes n : Forall is_byte (min_be n).
Proof. apply to_be_bytes. Qed.

Lemma pow256 n : 0 ≤ n → 256 ^ n = 2 ^ (8 * n).
Proof. intros. by rewrite Z.pow_mul_r by lia. Qed.

Lemma be_val_min_be n : 0 ≤ n → be_val (min_be n) = n.
Proof.
  intros Hn. unfold min_be. rewrite be_val_to_be. pose proof (nbytes_nonneg n). rewrite Z2Nat.id by done.
  apply Z.mod_small. split; [done|]. unfold nbytes in *. destruct (Z.eqb_spec n 0) as [->|]; [done|].
  rewrite pow256 by done. apply Z.log2_lt_cancel. rewrite Z.log2_pow2 by lia.
  pose proof (Z.div_mod (Z.log2 n) 8 ltac:(lia)). pose proof (Z.mod_pos_bound (Z.log2 n) 8 ltac:(lia)). lia.
Qed.

Definition canon (b : bytes) : Prop := match b with [] => True | x :: _ => x ≠ 0 end.

Lemma min_be_be_val b : Forall is_byte b → canon b → min_be (be_val b) = b.
Proof.
  intros Hb Hc. destruct b as [|x b]; [done|]. pose proof Hb as Hb0. apply Forall_cons in Hb as [Hx Hb].
  assert (nbytes (be_val (x :: b)) = Z.of_nat (length (x :: b))) as Hn.
  { apply nbytes_pos; [cbn [length]; lia|]. pose proof (be_val_bound _ Hb0) as Hv. rewrite pow256 in Hv by lia.
    split; [|lia]. change (x :: b) with ([x] ++ b). rewrite be_val_app. pose proof (be_val_bound _ Hb).
    change (be_val [x]) with x. cbn in Hc. unfold is_byte in Hx.
    replace (Z.of_nat (length ([x] ++ b)) - 1) with (Z.of_nat (length b)) by (cbn [app length]; lia).
    rewrite <- pow256 by lia. nia. }
  unfold min_be. rewrite Hn, Nat2Z.id. by apply to_be_be_val.
Qed.

Lemma canon_min_be n : 0 < n → canon (min_be n).
Proof.
  intros Hn. pose proof (be_val_min_be n ltac:(lia)) as Hv. pose proof (len_min_be n) as Hl.
  pose proof (min_be_bytes n) as Hb. destruct (min_be n) as [|x b] eqn:He; [done|]. cbn. intros ->.
  change (0 :: b) with ([0] ++ b) in Hv. rewrite be_val_app in Hv. change (be_val [0]) with 0 in Hv.
  apply Forall_cons in Hb as [_ Hb]. pose proof (be_val_bound _ Hb) as [_ Hu].
  rewrite len_cons in Hl. unfold len in Hl. unfold nbytes in Hl. destruct (Z.eqb_spec n 0); [lia|].
  assert (Z.log2 n < 8 * Z.of_nat (length b)).
  { apply Z.log2_lt_pow2; [lia|]. rewrite <- pow256 by lia. lia. }
  pose proof (Z.div_mod (Z.log2 n) 8 ltac:(lia)). pose proof (Z.mod_pos_bound (Z.log2 n) 8 ltac:(lia)). lia.
Qed.

Lemma rlp_string_head b : ¬ (len b = 1 ∧ default 0 (head b) < 128) → rlp_string b = rlp_head 128 183 (len b) ++ b.
Proof.
  intros Hb. destruct b as [|x [|y b]]; [done| |done]. cbn in *. destruct (Z.ltb_spec x 128); [|done].
  exfalso. apply Hb. done.
Qed.

(** ** Streams *)

Definition mk (r : bytes) (size : Z) (err : option RlpError) (stk : list Z) (k : option Kind) (bv : Z) : Stream :=
  mkStream r (len r) size err stk k bv true.

Definition fits (n : Z) (stk : list Z) : bool := match stk with [] => true | l :: _ => n <=? l end.
(** Limits are 64-bit integers. *)
Definition charge (n : Z) (stk : list Z) : list Z := match stk with [] => [] | l :: ls => wrapU 64 (l - n) :: ls end.

Definition limits (stk : list Z) : Prop := Forall (λ l, 0 ≤ l < 2 ^ 64) stk.
Definition input (r : bytes) : Prop := Forall is_byte r ∧ len r < 2 ^ 64.

Lemma charge_fits n stk : limits stk → 0 ≤ n → fits n stk = true →
  charge n stk = match stk with [] => [] | l :: ls => l - n :: ls end.
Proof.
  intros Hs Hn Hf. destruct stk as [|l ls]; [done|]. apply Forall_cons in Hs as [Hl _]. cbn in *.
  apply Z.leb_le in Hf. by rewrite wrapU_small by lia.
Qed.

Lemma charge_0 stk : limits stk → charge 0 stk = stk.
Proof. intros Hs. rewrite charge_fits; destruct stk as [|l ls]; try done; [by rewrite Z.sub_0_r|]. apply Forall_cons in Hs as [? _]. apply Z.leb_le. lia. Qed.

Lemma charge_charge m n stk : charge n (charge m stk) = charge (m + n) stk.
Proof.
  destruct stk as [|l ls]; [done|]. cbn. f_equal. unfold wrapU. rewrite Zminus_mod_idemp_l. f_equal. lia.
Qed.

Lemma charge_limits n stk : limits stk → limits (charge n stk).
Proof.
  intros Hs. destruct stk as [|l ls]; [done|]. apply Forall_cons in Hs as [_ Hs]. constructor; [|done].
  by apply wrapU_range.
Qed.

Lemma input_app a r : input (a ++ r) → Forall is_byte a ∧ len a < 2 ^ 64 ∧ input r.
Proof.
  intros [Hb Hl]. apply Forall_app in Hb as [? ?]. rewrite len_app in Hl. pose proof (len_0 a). pose proof (len_0 r).
  repeat split; try done; lia.
Qed.

Definition ready (s : Stream) (r : bytes) (stk : list Z) : Prop :=
  (∃ size err bv, s = mk r size err stk None bv) ∧ input r ∧ limits stk.

(** A reading operation on [mk]. *)
Lemma willRead_mk n r size err stk k bv :
  limits stk → 0 ≤ n → fits n stk = true → n ≤ len r →
  willRead n (mk r size err stk k bv) = Some (inr tt, mkStream r (len r - n) size err (charge n stk) None bv true).
Proof.
  intros Hs Hn Hf Hr. rewrite charge_fits by done. unfold willRead, mk. destruct stk as [|l ls]; cbn in *.
  - by destruct (Z.ltb_spec (len r) n); [lia|].
  - apply Z.leb_le in Hf. destruct (Z.ltb_spec l n); [lia|]. by destruct (Z.ltb_spec (len r) n); [lia|].
Qed.

Lemma willRead_short n r size err stk k bv :
  (fits n stk = true → len r < n) →
  ∃ e s, willRead n (mk r size err stk k bv) = Some (inl e, s) ∧ (e = ErrElemTooLarge ∨ e = ErrValueTooLarge).
Proof.
  intros Hf. unfold willRead, mk. destruct stk as [|l ls]; cbn in *.
  - specialize (Hf eq_refl). destruct (Z.ltb_spec (len r) n); [eauto|lia].
  - destruct (Z.ltb_spec l n); [eauto|]. rewrite (proj2 (Z.leb_le n l)) in Hf by done. specialize (Hf eq_refl).
    destruct (Z.ltb_spec (len r) n); [eauto|lia].
Qed.

Lemma readFull_mk n a r size err stk k bv :
  limits stk → len a = n → fits n stk = true →
  readFull n (mk (a ++ r) size err stk k bv) = Some (inr a, mk r size err (charge n stk) None bv).
Proof.
  intros Hs Hn Hf. pose proof (len_0 a). pose proof (len_0 r). unfold readFull, mbind, Dec_bind, dec_try.
  rewrite willRead_mk by (rewrite ?len_app; done || lia). cbn [st_r]. rewrite len_app.
  destruct (Z.ltb_spec (len a + len r) n); [lia|]. unfold set_r, mk. cbn.
  replace (Z.to_nat n) with (length a) by (unfold len in *; lia). rewrite take_app_length, drop_app_length.
  do 3 f_equal. lia.
Qed.

Lemma readFull_cases n r size err stk k bv :
  limits stk → 0 ≤ n →
  (∃ a r', r = a ++ r' ∧ len a = n ∧ fits n stk = true ∧
     readFull n (mk r size err stk k bv) = Some (inr a, mk r' size err (charge n stk) None bv))
  ∨ ∃ e s, readFull n (mk r size err stk k bv) = Some (inl e, s) ∧ (e = ErrElemTooLarge ∨ e = ErrValueTooLarge).
Proof.
  intros Hs Hn. destruct (fits n stk) eqn:Hf; [destruct (Z_le_gt_dec n (len r)) as [Hl|Hl]|].
  - left. pose proof (take_drop (Z.to_nat n) r) as Htd.
    assert (len (take (Z.to_nat n) r) = n) as Hta by (unfold len in *; rewrite length_take; lia).
    exists (take (Z.to_nat n) r), (drop (Z.to_nat n) r). rewrite Htd. repeat split; try done.
    rewrite <- Htd at 1. by apply readFull_mk.
  - right. destruct (willRead_short n r size err stk k bv) as (e & s & Hw & He); [intros _; lia|].
    exists e, s. split; [|done]. unfold readFull, mbind, Dec_bind, dec_try. by rewrite Hw.
  - right. destruct (willRead_short n r size err stk k bv) as (e & s & Hw & He); [congruence|].
    exists e, s. split; [|done]. unfold readFull, mbind, Dec_bind, dec_try. by rewrite Hw.
Qed.

Lemma readByte_mk b r size err stk k bv :
  limits stk → fits 1 stk = true →
  readByte (mk (b :: r) size err stk k bv) = Some (inr b, mk r size err (charge 1 stk) None bv).
Proof.
  intros Hs Hf. pose proof (len_0 r). unfold readByte, mbind, Dec_bind, dec_try.
  rewrite willRead_mk by (rewrite ?len_cons; done || lia). cbn [st_r]. unfold set_r, mk. cbn. rewrite len_cons.
  do 3 f_equal. lia.
Qed.

Lemma readByte_cases r size err stk k bv :
  limits stk →
  (∃ b r', r = b :: r' ∧ fits 1 stk = true ∧
     readByte (mk r size err stk k bv) = Some (inr b, mk r' size err (charge 1 stk) None bv))
  ∨ ∃ e s, readByte (mk r size err stk k bv) = Some (inl e, s) ∧ (e = ErrElemTooLarge ∨ e = ErrValueTooLarge).
Proof.
  intros Hs. destruct (fits 1 stk) eqn:Hf; [destruct r as [|b r]|].
  - right. destruct (willRead_short 1 [] size err stk k bv) as (e & s & Hw & He); [done|].
    exists e, s. split; [|done]. unfold readByte, mbind, Dec_bind, dec_try. by rewrite Hw.
  - left. exists b, r. repeat split. by apply readByte_mk.
  - right. destruct (willRead_short 1 r size err stk k bv) as (e & s & Hw & He); [congruence|].
    exists e, s. split; [|done]. unfold readByte, mbind, Dec_bind, dec_try. by rewrite Hw.
Qed.

(** A number of [n] bytes; a number of one byte may be 0. *)
Lemma readUint_mk n a r size err stk k bv :
  limits stk → len a = n → fits n stk = true → canon a ∨ n = 1 →
  readUint n (mk (a ++ r) size err stk k bv) = Some (inr (be_val a), mk r size err (charge n stk) None bv).
Proof.
  intros Hs Hn Hf Hc. pose proof (len_0 a). unfold readUint. destruct (Z.eqb_spec n 0) as [->|].
  { destruct a; [|rewrite len_cons in Hn; pose proof (len_0 a); lia]. cbn. unfold mk, set_kind. cbn. by rewrite charge_0. }
  destruct (Z.eqb_spec n 1) as [->|].
  { destruct a as [|x [|y a]]; [done| |rewrite !len_cons in Hn; pose proof (len_0 a); lia]. cbn [app]. by rewrite readByte_mk. }
  unfold mbind, Dec_bind, dec_try. rewrite readFull_mk by done. destruct a as [|x a]; [by destruct Hn|]. change (default 0 (head (x :: a))) with x.
  destruct Hc as [Hc|]; [|done]. cbn in Hc. by destruct (Z.eqb_spec x 0).
Qed.

Lemma readUint_cases n r size err stk k bv :
  limits stk → 0 ≤ n →
  (∃ a r', r = a ++ r' ∧ len a = n ∧ fits n stk = true ∧ (canon a ∨ n = 1) ∧
     readUint n (mk r size err stk k bv) = Some (inr (be_val a), mk r' size err (charge n stk) None bv))
  ∨ ∃ e s, readUint n (mk r size err stk k bv) = Some (inl e, s) ∧ e ≠ EOL.
Proof.
  intros Hs Hn. unfold readUint. destruct (Z.eqb_spec n 0) as [->|].
  { left. exists [], r. repeat split; [destruct stk; [done|]|by left|cbn; by rewrite charge_0].
    apply Forall_cons in Hs as [? _]. apply Z.leb_le. lia. }
  destruct (Z.eqb_spec n 1) as [->|].
  { destruct (readByte_cases r size err stk k bv Hs) as [(b & r' & -> & Hf & ->)|(e & s & -> & He)].
    - left. exists [b], r'. repeat split; [done|by right].
    - right. exists e, s. split; [done|]. by destruct He as [-> | ->]. }
  unfold mbind, Dec_bind, dec_try.
  destruct (readFull_cases n r size err stk k bv Hs Hn) as [(a & r' & -> & Ha & Hf & ->)|(e & s & -> & He)].
  - destruct a as [|x a]; [by destruct Ha|]. change (default 0 (head (x :: a))) with x. destruct (Z.eqb_spec x 0) as [->|Hx].
    + right. by eexists _, _.
    + left. exists (x :: a), r'. repeat split; try done. by left.
  - right. exists e, s. split; [done|]. by destruct He as [-> | ->].
Qed.

(** ** Kinds *)

(** The head [h] of a value whose content has [size] bytes. *)
Definition headed (k : Kind) (size bv : Z) (h : bytes) : Prop :=
  match k with
  | KByte => size = 0 ∧ h = [bv] ∧ 0 ≤ bv < 128
  | KString => bv = 0 ∧ 0 ≤ size < 2 ^ 64 ∧ h = rlp_head 128 183 size
  | KList => bv = 0 ∧ 0 ≤ size < 2 ^ 64 ∧ h = rlp_head 192 247 size
  end.

Lemma len_headed k size bv h : headed k size bv h → 1 ≤ len h.
Proof.
  destruct k; [intros (_ & -> & _); done|..]; intros (_ & _ & ->); unfold rlp_head;
    destruct (_ <? _); cbv zeta; rewrite len_cons; apply (Z.add_le_mono_l 0 _ 1), len_0.
Qed.

Lemma fits_le m n stk : fits n stk = true → m ≤ n → fits m stk = true.
Proof. destruct stk; [done|]. cbn. rewrite !Z.leb_le. lia. Qed.

Lemma fits_charge m n stk : limits stk → 0 ≤ m → 0 ≤ n → fits (m + n) stk = true → fits n (charge m stk) = true.
Proof.
  intros Hs Hm Hn Hf. rewrite charge_fits by (done || (eapply fits_le; [done|lia])). destruct stk; [done|]. cbn in *.
  apply Z.leb_le in Hf. apply Z.leb_le. lia.
Qed.

Lemma fits_charged m n stk :
  limits stk → 0 ≤ m → fits m stk = true → fits n (charge m stk) = true → fits (m + n) stk = true.
Proof.
  intros Hs Hm Hf. rewrite charge_fits by done. destruct stk; [done|]. cbn in *. rewrite !Z.leb_le. lia.
Qed.

Lemma rlp_head_small small large n : n < 56 → rlp_head small large n = [small + n].
Proof. intros. unfold rlp_head. by destruct (Z.ltb_spec n 56); [|lia]. Qed.
Lemma rlp_head_large small large n : 56 ≤ n → rlp_head small large n = large + nbytes n :: min_be n.
Proof. intros. unfold rlp_head. destruct (Z.ltb_spec n 56); [lia|]. cbv zeta. by rewrite len_min_be. Qed.

Lemma readKind_size_mk k0 sz r size err stk k bv :
  limits stk → 56 ≤ sz < 2 ^ 64 → fits (nbytes sz) stk = true →
  readKind_size k0 (nbytes sz) (mk (min_be sz ++ r) size err stk k bv)
  = Some (inr (k0, sz, None), mk r size err (charge (nbytes sz) stk) None bv).
Proof.
  intros Hs Hz Hf. unfold readKind_size, dec_try.
  rewrite readUint_mk by (rewrite ?len_min_be; try done; left; apply canon_min_be; lia).
  rewrite be_val_min_be by lia. by destruct (Z.ltb_spec sz 56); [lia|].
Qed.

Lemma readKind_size_cases k0 n r size err stk k bv :
  limits stk → input r → 1 ≤ n ≤ 8 →
  (∃ sz r', r = min_be sz ++ r' ∧ nbytes sz = n ∧ 56 ≤ sz < 2 ^ 64 ∧ fits n stk = true ∧
     readKind_size k0 n (mk r size err stk k bv) = Some (inr (k0, sz, None), mk r' size err (charge n stk) None bv))
  ∨ ∃ sz e s, readKind_size k0 n (mk r size err stk k bv) = Some (inr (k0, sz, Some e), s) ∧ e ≠ EOL.
Proof.
  intros Hs Hi Hn. unfold readKind_size, dec_try.
  destruct (readUint_cases n r size err stk k bv Hs) as [(a & r' & -> & Ha & Hf & Hc & ->)|(e & s & -> & He)];
    [lia| |right; by eexists _, _, _].
  destruct (Z.ltb_spec (be_val a) 56); [right; by eexists _, _, _|].
  left. apply input_app in Hi as (Hb & _ & _).
  assert (canon a) as Hca.
  { destruct Hc as [?| ->]; [done|]. destruct a as [|x [|y a]]; [done| |rewrite !len_cons in Ha; pose proof (len_0 a); lia].
    cbn in *. lia. }
  pose proof (min_be_be_val a Hb Hca) as Hm. pose proof (be_val_bound a Hb) as Hv.
  exists (be_val a), r'. rewrite Hm, <- len_min_be, Hm. repeat split; try done.
  eapply Z.lt_le_trans; [apply Hv|]. rewrite pow256 by lia. apply Z.pow_le_mono_r; [done|]. unfold len in Ha. lia.
Qed.

(** After the tag byte. *)
Lemma Stream_readKind_tag b r size err stk k0 bv0 :
  limits stk → fits 1 stk = true →
  Stream_readKind (mk (b :: r) size err stk k0 bv0)
  = (if b <? 128 then dec_ret (KByte, 0, None)
     else if b <? 184 then dec_ret (KString, b - 128, None)
     else if b <? 192 then readKind_size KString (b - 183)
     else if b <? 248 then dec_ret (KList, b - 192, None)
     else readKind_size KList (b - 247))
      (mk r size err (charge 1 stk) None (if b <? 128 then b else 0)).
Proof.
  intros Hs Hf. unfold Stream_readKind, dec_try. rewrite readByte_mk by done.
  unfold mbind, Dec_bind, dec_try, dec_set.
  by destruct (b <? 128), (b <? 184), (b <? 192), (b <? 248).
Qed.

Lemma Stream_readKind_mk k sz bv h r size err stk k0 bv0 :
  limits stk → headed k sz bv h → fits (len h) stk = true →
  Stream_readKind (mk (h ++ r) size err stk k0 bv0) = Some (inr (k, sz, None), mk r size err (charge (len h) stk) None bv).
Proof.
  intros Hs Hh Hf. pose proof (len_headed _ _ _ _ Hh) as Hlen.
  assert (fits 1 stk = true) as Hf1 by (eapply fits_le; [done|lia]).
  destruct k; [destruct Hh as (-> & -> & Hb)|destruct Hh as (-> & Hb & ->)|destruct Hh as (-> & Hb & ->)].
  - cbn [app]. rewrite Stream_readKind_tag by done. by destruct (Z.ltb_spec bv 128); [|lia].
  - destruct (Z.lt_ge_cases sz 56).
    + rewrite rlp_head_small in * by done. cbn [app]. rewrite Stream_readKind_tag by done.
      destruct (Z.ltb_spec (128 + sz) 128); [lia|]. destruct (Z.ltb_spec (128 + sz) 184); [|lia].
      unfold dec_ret. by replace (128 + sz - 128) with sz by lia.
    + rewrite rlp_head_large in * by done. pose proof (nbytes_range sz ltac:(lia)).
      rewrite len_cons, len_min_be in *. cbn [app]. rewrite Stream_readKind_tag by done.
      destruct (Z.ltb_spec (183 + nbytes sz) 128); [lia|]. destruct (Z.ltb_spec (183 + nbytes sz) 184); [lia|].
      destruct (Z.ltb_spec (183 + nbytes sz) 192); [|lia]. replace (183 + nbytes sz - 183) with (nbytes sz) by lia.
      rewrite readKind_size_mk by (first [done | by apply charge_limits | apply fits_charge; (done || lia) | lia]).
      by rewrite charge_charge.
  - destruct (Z.lt_ge_cases sz 56).
    + rewrite rlp_head_small in * by done. cbn [app]. rewrite Stream_readKind_tag by done.
      destruct (Z.ltb_spec (192 + sz) 128); [lia|]. destruct (Z.ltb_spec (192 + sz) 184); [lia|].
      destruct (Z.ltb_spec (192 + sz) 192); [lia|]. destruct (Z.ltb_spec (192 + sz) 248); [|lia].
      unfold dec_ret. by replace (192 + sz - 192) with sz by lia.
    + rewrite rlp_head_large in * by done. pose proof (nbytes_range sz ltac:(lia)).
      rewrite len_cons, len_min_be in *. cbn [app]. rewrite Stream_readKind_tag by done.
      destruct (Z.ltb_spec (247 + nbytes sz) 128); [lia|]. destruct (Z.ltb_spec (247 + nbytes sz) 184); [lia|].
      destruct (Z.ltb_spec (247 + nbytes sz) 192); [lia|]. destruct (Z.ltb_spec (247 + nbytes sz) 248); [lia|].
      replace (247 + nbytes sz - 247) with (nbytes sz) by lia.
      rewrite readKind_size_mk by (first [done | by apply charge_limits | apply fits_charge; (done || lia) | lia]).
      by rewrite charge_charge.
Qed.

Lemma readKind_error (stk : list Z) (e : RlpError) :
  (e = ErrElemTooLarge ∨ e = ErrValueTooLarge) →
  match stk, e with [], (ErrUnexpectedEOF | ErrValueTooLarge) => EOF | _, _ => e end ≠ EOL.
Proof. by destruct stk; intros [-> | ->]. Qed.

Lemma Stream_readKind_cases r size err stk k0 bv0 :
  limits stk → input r →
  (∃ k sz bv h r', r = h ++ r' ∧ headed k sz bv h ∧ fits (len h) stk = true ∧
     Stream_readKind (mk r size err stk k0 bv0) = Some (inr (k, sz, None), mk r' size err (charge (len h) stk) None bv))
  ∨ ∃ k sz e s, Stream_readKind (mk r size err stk k0 bv0) = Some (inr (k, sz, Some e), s) ∧ e ≠ EOL.
Proof.
  intros Hs Hi. pose proof (charge_limits 1 stk Hs) as Hs1.
  destruct (readByte_cases r size err stk k0 bv0 Hs) as [(b & r' & -> & Hf & _)|(e & s & Hr & He)].
  2: { right. unfold Stream_readKind, dec_try. rewrite Hr. cbn. eexists _, _, _, _. split; [done|]. by apply readKind_error. }
  destruct Hi as [Hb Hl]. apply Forall_cons in Hb as [Hb Hr]. unfold is_byte in Hb.
  rewrite len_cons in Hl. assert (input r') as Hi by (split; [done|lia]). rewrite Stream_readKind_tag by done.
  destruct (Z.ltb_spec b 128); [left|destruct (Z.ltb_spec b 184); [left|destruct (Z.ltb_spec b 192);
    [|destruct (Z.ltb_spec b 248); [left|]]]].
  - exists KByte, 0, b, [b], r'. repeat split; try done; lia.
  - exists KString, (b - 128), 0, [b], r'. repeat split; try done; try lia.
    rewrite rlp_head_small by lia. f_equal. lia.
  - destruct (readKind_size_cases KString (b - 183) r' size err (charge 1 stk) None 0 Hs1 Hi)
      as [(sz & r2 & -> & Hn & Hz & Hf2 & ->)|(sz & e & s & -> & He)]; [lia| |right; by eexists _, _, _, _].
    left. exists KString, sz, 0, (b :: min_be sz), r2. rewrite len_cons, len_min_be, Hn, charge_charge.
    repeat split; try done; try lia; [by rewrite rlp_head_large by lia; f_equal; lia|]. by apply fits_charged.
  - exists KList, (b - 192), 0, [b], r'. repeat split; try done; try lia.
    rewrite rlp_head_small by lia. f_equal. lia.
  - destruct (readKind_size_cases KList (b - 247) r' size err (charge 1 stk) None 0 Hs1 Hi)
      as [(sz & r2 & -> & Hn & Hz & Hf2 & ->)|(sz & e & s & -> & He)]; [lia| |right; by eexists _, _, _, _].
    left. exists KList, sz, 0, (b :: min_be sz), r2. rewrite len_cons, len_min_be, Hn, charge_charge.
    repeat split; try done; try lia; [by rewrite rlp_head_large by lia; f_equal; lia|]. by apply fits_charged.
Qed.

Lemma Kind_mk k sz bv h r stk s :
  ready s (h ++ r) stk → headed k sz bv h → fits (len h + sz) stk = true → sz ≤ len r →
  Stream_Kind s = Some (inr (k, sz), mk r sz None (charge (len h) stk) (Some k) bv).
Proof.
  intros [(size & err & bv0 & ->) [Hi Hs]] Hh Hf Hsz. pose proof (len_headed _ _ _ _ Hh) as Hlen.
  assert (0 ≤ sz) as Hz by (destruct k, Hh as (? & ? & ?); lia).
  unfold Stream_Kind. cbn [st_kind mk]. rewrite bool_decide_eq_false_2.
  2: { destruct stk as [|l ls]; [done|]. cbn in *. apply Z.leb_le in Hf. intros [= ->]. lia. }
  fold (mk (h ++ r) size err stk None bv0).
  rewrite (Stream_readKind_mk k sz bv h) by (done || (eapply fits_le; [done|lia])). cbn.
  destruct (Z.ltb_spec (len r) sz); [lia|]. destruct stk as [|l ls]; [done|]. cbn in *. apply Z.leb_le in Hf.
  by destruct (Z.ltb_spec l sz); [lia|].
Qed.

Lemma Kind_cases s r stk :
  ready s r stk →
  (∃ k sz bv h r', r = h ++ r' ∧ headed k sz bv h ∧ sz ≤ len r' ∧
     Stream_Kind s = Some (inr (k, sz), mk r' sz None (charge (len h) stk) (Some k) bv))
  ∨ ∃ e s', Stream_Kind s = Some (inl e, s') ∧ (e = EOL → s' = s).
Proof.
  intros [(size & err & bv0 & ->) [Hi Hs]]. unfold Stream_Kind. cbn [st_kind mk].
  destruct (bool_decide _); [right; by eexists _, _|]. fold (mk r size err stk None bv0).
  destruct (Stream_readKind_cases r size err stk None bv0 Hs Hi)
    as [(k & sz & bv & h & r' & -> & Hh & Hf & ->)|(k & sz & e & s & -> & He)]; cbn; [|right; by eexists _, _].
  destruct (match listLimit _ with Some l => l <? sz | None => false end); [right; by eexists _, _|].
  destruct (Z.ltb_spec (len r') sz); [right; by eexists _, _|]. left. by eexists _, _, _, _, _.
Qed.

(** At the end of a list there is nothing to read. *)
Lemma Kind_end s r stk : ready s r (0 :: stk) → Stream_Kind s = Some (inl EOL, s).
Proof. by intros [(size & err & bv0 & ->) _]. Qed.

Lemma Kind_again s x s' : Stream_Kind s = Some (inr x, s') → Stream_Kind s' = Some (inr x, s').
Proof.
  unfold Stream_Kind. destruct (st_kind s) as [k|] eqn:Hk.
  - destruct (st_kinderr s) as [e|] eqn:He; [done|]. intros [= <- <-]. rewrite Hk. cbn. by rewrite He.
  - destruct (bool_decide _); [done|]. destruct (Stream_readKind s) as [[[e|[[k sz] e]] s1]|]; [done| |done].
    match goal with |- kind_result _ _ ?e _ = _ → _ => destruct e as [e'|] end; [done|]. by intros [= <- <-].
Qed.
