(* ===== verification/RlpDecodeFacts.v ===== *)
(** * What the decoders accept

    [typed] are the values of a type that the decoder gives.  A decoder that
    succeeds has read the encoding of such a value, every loop ends, and the
    encoding of a value is decoded to it. *)

From S2P Require Import Prelude Common Uint256 Machine VmFacts Rlp RlpFacts RlpDecode RlpStreamFacts.

(** ** Values of a type *)

(** The head of a raw value is canonical; its content is not looked at. *)
Definition raw_value (b : bytes) : Prop :=
  ∃ k bv h c, headed k (len c) bv h ∧ b = h ++ c ∧ Forall is_byte c.

Fixpoint iface (v : rval) : Prop :=
  match v with
  | VBytes b => Forall is_byte b
  | VSlice l => (fix all l := match l with [] => True | v :: l => iface v ∧ all l end) l
  | _ => False
  end.

Definition empty_value (b : bytes) : Prop := b = [128] ∨ b = [192].

Fixpoint typed (t : rtype) (v : rval) : Prop :=
  match t, v with
  | TRaw, VRaw b => raw_value b
  | TUint bits, VUint n => 0 ≤ n < 2 ^ bits
  | TBool, VBool _ => True
  | TBig, VBig z | TBigPtr, VBigPtr (Some z) => 0 ≤ z
  | TString, VString b | TBytes, VBytes b => Forall is_byte b
  | TByteArray n, VByteArray b => length b = n ∧ Forall is_byte b
  | TSlice t, VSlice l | TTail t, VTail l => Forall (typed t) l
  | TArray n t, VSlice l => length l = n ∧ Forall (typed t) l
  | TStruct ts, VStruct l =>
      (fix all2 (ts : list rtype) (l : list rval) : Prop :=
         match ts, l with
         | [], [] => True
         | t :: ts, v :: l => typed t v ∧ all2 ts l
         | _, _ => False
         end) ts l
  | TPtr nilOK k _, VPtr k' None => k' = k ∧ nilOK = true
  | TPtr nilOK k t, VPtr k' (Some v) => k' = k ∧ typed t v ∧ (nilOK = true → ¬ empty_value (rlp v))
  | TInterface, v => iface v
  | _, _ => False
  end.

Definition tail (t : rtype) : bool := match t with TTail _ => true | _ => false end.

(** The types that have a decoder. *)
Fixpoint valid (t : rtype) : Prop :=
  match t with
  | TUint bits => bits = 8 ∨ bits = 16 ∨ bits = 32 ∨ bits = 64
  | TSlice t | TArray _ t | TTail t => valid t ∧ tail t = false
  | TPtr _ k t => k ≠ KByte ∧ valid t ∧ tail t = false
  | TStruct ts =>
      (fix all (ts : list rtype) : Prop :=
         match ts with
         | [] => True
         | t :: ts => valid t ∧ (tail t = true → ts = []) ∧ all ts
         end) ts
  | _ => True
  end.

Section induction.
Context (P : rtype → Prop).
Context (Hraw : P TRaw) (Huint : ∀ n, P (TUint n)) (Hbool : P TBool) (Hbig : P TBig) (Hbigp : P TBigPtr).
Context (Hstr : P TString) (Hbytes : P TBytes) (Harr : ∀ n, P (TByteArray n)).
Context (Hslice : ∀ t, P t → P (TSlice t)) (Harray : ∀ n t, P t → P (TArray n t)) (Htail : ∀ t, P t → P (TTail t)).
Context (Hstruct : ∀ ts, Forall P ts → P (TStruct ts)) (Hptr : ∀ b k t, P t → P (TPtr b k t)) (Hif : P TInterface).

Fixpoint rtype_nested_ind (t : rtype) : P t :=
  let all := fix all (l : list rtype) : Forall P l :=
    match l with [] => Forall_nil_2 P | t :: l => Forall_cons_2 P t l (rtype_nested_ind t) (all l) end in
  match t with
  | TRaw => Hraw | TUint n => Huint n | TBool => Hbool | TBig => Hbig | TBigPtr => Hbigp
  | TString => Hstr | TBytes => Hbytes | TByteArray n => Harr n
  | TSlice t => Hslice t (rtype_nested_ind t) | TArray n t => Harray n t (rtype_nested_ind t)
  | TTail t => Htail t (rtype_nested_ind t) | TStruct ts => Hstruct ts (all ts)
  | TPtr b k t => Hptr b k t (rtype_nested_ind t) | TInterface => Hif
  end.
End induction.

(** ** What a decoder does

    [good]: it returns a value and the bytes of it, or an error other than the
    end of the list. *)
Definition good {A} (r : bytes) (stk : list Z) (Q : A → bytes → Prop) (o : option ((RlpError + A) * Stream)) : Prop :=
  match o with
  | None => False
  | Some (inr a, s') => ∃ c r', r = c ++ r' ∧ ready s' r' (charge (len c) stk) ∧ Q a c
  | Some (inl e, _) => e ≠ EOL
  end.

Lemma good_bind {A B} (m : Dec A) (k : A → Dec B) s r stk Q R :
  good r stk Q (m s) →
  (∀ a c r' s', r = c ++ r' → ready s' r' (charge (len c) stk) → Q a c →
     good r' (charge (len c) stk) (λ b c', R b (c ++ c')) (k a s')) →
  good r stk R ((m ≫= k) s).
Proof.
  unfold mbind, Dec_bind, dec_try. destruct (m s) as [[[e|a] s']|]; try done.
  intros (c & r' & -> & Hr & Hq) Hk. specialize (Hk a c r' s' eq_refl Hr Hq).
  destruct (k a s') as [[[e|b] s2]|]; try done. destruct Hk as (c' & r2 & -> & Hr2 & Hq2).
  exists (c ++ c'), r2. rewrite app_assoc, len_app, <- charge_charge. done.
Qed.

Lemma good_ret {A} (a : A) s r stk Q : ready s r stk → Q a [] → good r stk Q (dec_ret a s).
Proof. intros Hr Hq. exists [], r. rewrite charge_0 by apply Hr. done. Qed.

Lemma good_err {A} e s r stk (Q : A → bytes → Prop) : e ≠ EOL → good r stk Q (dec_err e s).
Proof. done. Qed.

Lemma good_impl {A} (o : option ((RlpError + A) * Stream)) r stk Q R :
  good r stk Q o → (∀ a c, Q a c → R a c) → good r stk R o.
Proof. destruct o as [[[e|a] s]|]; try done. intros (c & r' & -> & Hr & Hq) Hi. exists c, r'. auto. Qed.

Lemma wrapStreamError_EOL e : wrapStreamError e = EOL ↔ e = EOL.
Proof. by destruct e. Qed.

Lemma good_wrapped {A} (m : Dec A) s r stk Q : good r stk Q (m s) → good r stk Q (wrapped m s).
Proof.
  unfold dec_wrap, dec_try. destruct (m s) as [[[e|a] s']|]; try done. cbn. by rewrite wrapStreamError_EOL.
Qed.

Lemma ready_mk r size err stk bv : input r → limits stk → ready (mk r size err stk None bv) r stk.
Proof. intros Hi Hs. split_and!; [by eexists _, _, _|done..]. Qed.

Lemma readFull_good n r size err stk k bv :
  input r → limits stk → 0 ≤ n →
  good r stk (λ a c, c = a ∧ len a = n) (readFull n (mk r size err stk k bv)).
Proof.
  intros Hi Hs Hn. destruct (readFull_cases n r size err stk k bv Hs Hn) as [(a & r' & -> & <- & Hf & ->)|(e & s & -> & He)].
  - exists a, r'. split_and!; try done. apply ready_mk; [by apply input_app in Hi as (_ & _ & Hi)|by apply charge_limits].
  - by destruct He as [-> | ->].
Qed.

(** The decoder is at a value whose head has been read. *)
Definition peeked (s : Stream) (k : Kind) (sz bv : Z) (h r : bytes) (stk : list Z) : Prop :=
  s = mk r sz None stk (Some k) bv ∧ headed k sz bv h ∧ sz ≤ len r ∧ input r ∧ limits stk.

Lemma Kind_peeked s k sz bv h r stk : peeked s k sz bv h r stk → Stream_Kind s = Some (inr (k, sz), s).
Proof. by intros [-> _]. Qed.

Lemma bind_peeked {A} (f : Kind * Z → Dec A) s k sz bv h r stk :
  peeked s k sz bv h r stk → (Stream_Kind ≫= f) s = f (k, sz) s.
Proof. intros Hp. unfold mbind, Dec_bind, dec_try. by rewrite (Kind_peeked _ _ _ _ _ _ _ Hp). Qed.

Lemma bind_byteval {A} (f : Z → Dec A) s : (byteval ≫= f) s = f (st_byteval s) s.
Proof. done. Qed.

Lemma ready_rearm r size err stk k bv : input r → limits stk → ready (set_kind None (mk r size err stk k bv)) r stk.
Proof. apply ready_mk. Qed.

(** ** Strings *)

(** [h] and [c] are the encoding of the string [b]. *)
Definition str (k : Kind) (sz bv : Z) (h c b : bytes) : Prop :=
  (k = KByte ∧ sz = 0 ∧ h = [bv] ∧ c = [] ∧ b = [bv] ∧ 0 ≤ bv < 128) ∨
  (k = KString ∧ bv = 0 ∧ sz = len b ∧ h = rlp_head 128 183 sz ∧ c = b ∧ ¬ (len b = 1 ∧ default 0 (head b) < 128)).

Lemma str_rlp k sz bv h c b : str k sz bv h c b → rlp_string b = h ++ c.
Proof.
  intros [(-> & -> & -> & -> & -> & Hb)|(-> & -> & -> & -> & -> & Hb)].
  - cbn. by destruct (Z.ltb_spec bv 128); [|lia].
  - by apply rlp_string_head.
Qed.

Lemma str_exists b : Forall is_byte b → len b < 2 ^ 64 →
  ∃ k sz bv h c, str k sz bv h c b ∧ headed k sz bv h ∧ len c = sz.
Proof.
  intros Hb Hl. destruct (decide (len b = 1 ∧ default 0 (head b) < 128)) as [[H1 H2]|Hn].
  - destruct b as [|x [|y b]]; [done| |rewrite !len_cons in H1; pose proof (len_0 b); lia]. cbn in H2.
    apply Forall_cons in Hb as [Hx _]. unfold is_byte in Hx. exists KByte, 0, x, [x], [].
    repeat split; try done; try lia. left. repeat split; try done; lia.
  - exists KString, (len b), 0, (rlp_head 128 183 (len b)), b. pose proof (len_0 b).
    repeat split; try done; try lia. right. done.
Qed.

Lemma single_small (sz : Z) (b : bytes) : len b = sz →
  (sz =? 1) && (default 0 (head b) <? 128) = false ↔ ¬ (len b = 1 ∧ default 0 (head b) < 128).
Proof. intros <-. rewrite andb_false_iff, Z.eqb_neq, Z.ltb_nlt. destruct (decide (len b = 1)); tauto. Qed.

Lemma Bytes_good s k sz bv h r stk :
  peeked s k sz bv h r stk → good r stk (λ b c, str k sz bv h c b ∧ Forall is_byte b) (Stream_Bytes s).
Proof.
  intros Hp. unfold Stream_Bytes. rewrite (bind_peeked _ _ _ _ _ _ _ _ Hp). destruct Hp as (-> & Hh & Hsz & Hi & Hs).
  destruct k; [destruct Hh as (-> & -> & Hb)|destruct Hh as (-> & Hb & ->)|done].
  - apply good_ret; [by apply ready_rearm|]. split; [by left|]. constructor; [|done]. cbn. unfold is_byte. lia.
  - eapply good_bind; [apply readFull_good; try done; lia|]. intros a c r' s' -> Hr [-> Ha].
    destruct ((sz =? 1) && _) eqn:He; [done|]. apply good_ret; [done|]. rewrite app_nil_r.
    split; [|by apply input_app in Hi as (? & _)]. right. repeat split; try done. by apply (single_small sz).
Qed.

Lemma Raw_good s k sz bv h r stk :
  peeked s k sz bv h r stk → good r stk (λ b c, b = h ++ c ∧ raw_value b) (Stream_Raw s).
Proof.
  intros Hp. unfold Stream_Raw. rewrite (bind_peeked _ _ _ _ _ _ _ _ Hp). destruct Hp as (-> & Hh & Hsz & Hi & Hs).
  destruct k.
  - apply good_ret; [by apply ready_rearm|]. destruct Hh as (-> & -> & Hb). split; [done|].
    by exists KByte, bv, [bv], [].
  - pose proof Hh as (-> & Hb & ->). eapply good_bind; [apply readFull_good; try done; lia|].
    intros a c r' s' -> Hr [-> Ha]. apply good_ret; [done|]. rewrite app_nil_r, puthead_head by lia. split; [done|].
    exists KString, 0, (rlp_head 128 183 sz), a. rewrite Ha. repeat split; try done; try lia. by apply input_app in Hi as (? & _).
  - pose proof Hh as (-> & Hb & ->). eapply good_bind; [apply readFull_good; try done; lia|].
    intros a c r' s' -> Hr [-> Ha]. apply good_ret; [done|]. rewrite app_nil_r, puthead_head by lia. split; [done|].
    exists KList, 0, (rlp_head 192 247 sz), a. rewrite Ha. repeat split; try done; try lia. by apply input_app in Hi as (? & _).
Qed.

(** ** Numbers *)

(** [h] and [c] are the encoding of a number. *)
Definition num (k : Kind) (sz bv : Z) (h c : bytes) (n : Z) : Prop := 0 ≤ n ∧ str k sz bv h c (min_be n).

Lemma num_byte n : 0 < n < 128 → num KByte 0 n [n] [] n.
Proof. intros Hn. split; [lia|]. left. rewrite min_be_small by lia. repeat split; try done; lia. Qed.

Lemma num_string b :
  Forall is_byte b → canon b → ¬ (len b = 1 ∧ default 0 (head b) < 128) →
  num KString (len b) 0 (rlp_head 128 183 (len b)) b (be_val b).
Proof.
  intros Hb Hc Hs. pose proof (be_val_bound b Hb) as [? _]. split; [done|]. right. by rewrite min_be_be_val.
Qed.

Lemma be_val_bits b bits : Forall is_byte b → 0 ≤ bits → len b ≤ bits / 8 → be_val b < 2 ^ bits.
Proof.
  intros Hb Hn Hl. pose proof (be_val_bound b Hb) as [_ Hv]. eapply Z.lt_le_trans; [apply Hv|].
  rewrite pow256 by lia. apply Z.pow_le_mono_r; [done|]. unfold len in Hl. pose proof (Z.mul_div_le bits 8). lia.
Qed.

(** A number that is not below 128 is not in a single small byte. *)
Lemma large_single b sz :
  len b = sz → Forall is_byte b → (0 <? sz) && (be_val b <? 128) = false →
  ¬ (len b = 1 ∧ default 0 (head b) < 128).
Proof.
  intros <- _ Hv [H1 H2]. destruct b as [|x [|y b]]; [done| |rewrite !len_cons in H1; pose proof (len_0 b); lia].
  change (default 0 (head [x])) with x in H2. change (be_val [x]) with x in Hv.
  cbn in Hv. destruct (Z.ltb_spec x 128); [done|lia].
Qed.

Definition width (bits : Z) : Prop := bits = 8 ∨ bits = 16 ∨ bits = 32 ∨ bits = 64.

Lemma uint_good bits s k sz bv h r stk :
  width bits → peeked s k sz bv h r stk → good r stk (λ n c, num k sz bv h c n ∧ n < 2 ^ bits) (Stream_uint bits s).
Proof.
  intros Hbits Hp. unfold Stream_uint. rewrite (bind_peeked _ _ _ _ _ _ _ _ Hp). destruct Hp as (-> & Hh & Hsz & Hi & Hs).
  destruct k; [destruct Hh as (-> & -> & Hb)|destruct Hh as (-> & Hb & ->)|done].
  - rewrite bind_byteval. cbn [st_byteval mk]. destruct (Z.eqb_spec bv 0); [done|].
    apply good_ret; [by apply ready_rearm|]. split; [apply num_byte; lia|].
    destruct Hbits as [-> |[-> |[-> | ->]]]; lia.
  - destruct (Z.ltb_spec (bits / 8) sz) as [|Hsz8]; [done|]. unfold dec_try.
    assert (0 ≤ bits ∧ bits / 8 ≤ 8) as [H0 H8] by (by destruct Hbits as [-> |[-> |[-> | ->]]]).
    rewrite byte_small by lia.
    destruct (readUint_cases sz r sz None stk (Some KString) 0 Hs) as [(b & r' & -> & Hl & Hf & Hc & ->)|(e & s & -> & He)];
      [lia| |by destruct e].
    destruct ((0 <? sz) && _) eqn:Hv; [done|]. apply input_app in Hi as (Hbb & _ & Hi).
    pose proof (large_single b sz Hl Hbb Hv) as Hsmall.
    assert (canon b) as Hcb.
    { destruct Hc as [Hc | ->]; [done|]. destruct b as [|x b]; [done|]. cbn. intros ->. apply Hsmall. split; [done|]. cbn. lia. }
    exists b, r'. rewrite Hl. split_and!; try done.
    + apply ready_mk; [done|by apply charge_limits].
    + subst sz. by apply num_string.
    + apply be_val_bits; [done|lia|lia].
Qed.

Definition bool_num (b : bool) : Z := if b then 1 else 0.

Lemma Bool_good s k sz bv h r stk :
  peeked s k sz bv h r stk → good r stk (λ b c, num k sz bv h c (bool_num b)) (Stream_Bool s).
Proof.
  intros Hp. eapply good_bind; [apply (uint_good 8); [by left|done]|].
  intros n c r' s' -> Hr [Hn _]. destruct (Z.eqb_spec n 0) as [->|]; [|destruct (Z.eqb_spec n 1) as [->|]; [|done]].
  - apply good_ret; [done|]. by rewrite app_nil_r.
  - apply good_ret; [done|]. by rewrite app_nil_r.
Qed.

Lemma bigint_bytes_good s k sz bv h r stk :
  peeked s k sz bv h r stk → good r stk (λ b c, str k sz bv h c b ∧ Forall is_byte b) (bigint_bytes s).
Proof.
  intros Hp. unfold bigint_bytes. rewrite (bind_peeked _ _ _ _ _ _ _ _ Hp). destruct Hp as (-> & Hh & Hsz & Hi & Hs).
  destruct k; [destruct Hh as (-> & -> & Hb)|destruct Hh as (-> & Hb & ->)|done].
  - apply good_ret; [by apply ready_rearm|]. split; [by left|]. constructor; [|done]. cbn. unfold is_byte. lia.
  - destruct (Z.eqb_spec sz 0) as [->|Hz].
    { apply good_ret; [by apply ready_rearm|]. split; [|done]. right. repeat split; try done. by intros [? _]. }
    eapply good_bind; [apply readFull_good; try done; lia|]. intros a c r' s' -> Hr [-> Ha].
    destruct ((sz <=? 32) && (sz =? 1) && _) eqn:He; [done|]. apply good_ret; [done|]. rewrite app_nil_r.
    split; [|by apply input_app in Hi as (? & _)]. right. repeat split; try done.
    apply (single_small sz); [done|]. destruct (Z.eqb_spec sz 1) as [->|]; [|done].
    by destruct (Z.ltb_spec (default 0 (head a)) 128).
Qed.

Lemma BigInt_good s k sz bv h r stk :
  peeked s k sz bv h r stk → good r stk (λ n c, num k sz bv h c n) (decodeBigInt s).
Proof.
  intros Hp. unfold decodeBigInt. apply good_wrapped.
  eapply good_bind; [by apply bigint_bytes_good|]. intros b c r' s' -> Hr [Hb Hbb].
  destruct ((0 <? len b) && _) eqn:He; [done|]. apply good_ret; [done|]. rewrite app_nil_r.
  assert (canon b) as Hc.
  { destruct b as [|x b]; [done|]. cbn in He. by destruct (Z.eqb_spec x 0). }
  split; [apply be_val_bound; done|]. by rewrite min_be_be_val.
Qed.

Lemma ByteArray_good n s k sz bv h r stk :
  peeked s k sz bv h r stk →
  good r stk (λ b c, str k sz bv h c b ∧ length b = n ∧ Forall is_byte b) (decodeByteArray n s).
Proof.
  intros Hp. unfold decodeByteArray. rewrite (bind_peeked _ _ _ _ _ _ _ _ Hp). destruct Hp as (-> & Hh & Hsz & Hi & Hs).
  destruct k; [destruct Hh as (-> & -> & Hb)|destruct Hh as (-> & Hb & ->)|done].
  - destruct (Z.eqb_spec (Z.of_nat n) 0); [done|]. destruct (Z.ltb_spec 1 (Z.of_nat n)); [done|].
    apply good_ret; [by apply ready_rearm|]. split_and!; [by left|cbn; lia|]. constructor; [|done]. cbn. unfold is_byte. lia.
  - destruct (Z.ltb_spec (Z.of_nat n) sz); [done|]. destruct (Z.ltb_spec sz (Z.of_nat n)); [done|].
    eapply good_bind; [apply readFull_good; try done; lia|]. intros a c r' s' -> Hr [-> Ha].
    destruct ((sz =? 1) && _) eqn:He; [done|]. apply good_ret; [done|]. rewrite app_nil_r.
    assert (len a = sz) as Hl by lia.
    split_and!; [|unfold len in Ha; lia|by apply input_app in Hi as (? & _)].
    right. repeat split; try done. by apply (single_small sz).
Qed.

(** ** Decoders look at the kind first *)

Definition peeks {A} (d : Dec A) : Prop :=
  ∃ w : RlpError → RlpError, (∀ e, w e = EOL ↔ e = EOL) ∧
    ∀ s, match Stream_Kind s with
         | None => d s = None
         | Some (inl e, s') => d s = Some (inl (w e), s')
         | Some (inr _, s') => d s = d s'
         end.

Lemma peeks_Kind : peeks Stream_Kind.
Proof.
  exists id. split; [done|]. intros s. destruct (Stream_Kind s) as [[[e|x] s']|] eqn:Hk; [done| |done].
  by rewrite (Kind_again _ _ _ Hk).
Qed.

Lemma peeks_bind {A B} (m : Dec A) (k : A → Dec B) : peeks m → peeks (m ≫= k).
Proof.
  intros (w & Hw & Hm). exists w. split; [done|]. intros s. specialize (Hm s). unfold mbind, Dec_bind, dec_try.
  destruct (Stream_Kind s) as [[[e|x] s']|]; by rewrite Hm.
Qed.

Lemma peeks_wrapped {A} (m : Dec A) : peeks m → peeks (wrapped m).
Proof.
  intros (w & Hw & Hm). exists (λ e, wrapStreamError (w e)). split; [intros e; by rewrite wrapStreamError_EOL|].
  intros s. specialize (Hm s). unfold dec_wrap, dec_try. destruct (Stream_Kind s) as [[[e|x] s']|]; by rewrite Hm.
Qed.

Create HintDb peeks.
#[local] Hint Resolve peeks_Kind peeks_bind peeks_wrapped : peeks.

Lemma peeks_interface fuel : peeks (decodeInterface (S fuel)).
Proof. apply peeks_bind, peeks_Kind. Qed.

Lemma peeks_decode fuel t : valid t → tail t = false → peeks (decode (S fuel) t).
Proof.
  induction t using rtype_nested_ind; intros Hv Ht; cbn [decode]; try done;
    try (apply peeks_bind; unfold Stream_Raw, Stream_uint, Stream_Bool, Stream_Bytes, decodeBigInt, decodeByteArray,
      decodeListSlice, decodeListArray, Stream_List, bigint_bytes; by eauto 10 with peeks).
  - destruct Hv as (_ & Hv & Ht'). destruct b; [apply peeks_bind; by eauto with peeks|].
    apply peeks_bind. by apply IHt.
Qed.

(** The encoding [Q] of a value has a head, and the decoder reads it. *)
Definition reads {A} (Q : A → bytes → Prop) (n : nat) (d : Dec A) : Prop :=
  ∀ s r stk, ready s r stk → (length r < n)%nat →
    match d s with
    | None => False
    | Some (inl e, s') => e = EOL → s' = s
    | Some (inr a, s') => ∃ c r', r = c ++ r' ∧ ready s' r' (charge (len c) stk) ∧ Q a c
    end.

Lemma reads_peeked {A} (Q : A → bytes → Prop) n (d : Dec A) :
  peeks d →
  (∀ s k sz bv h r stk, peeked s k sz bv h r stk → (length (h ++ r) < n)%nat →
     good r stk (λ a c, Q a (h ++ c)) (d s)) →
  reads Q n d.
Proof.
  intros (w & Hw & Hd) Hg s r stk Hr Hn. specialize (Hd s).
  destruct (Kind_cases s r stk Hr) as [(k & sz & bv & h & r' & -> & Hh & Hsz & Hk)|(e & s' & Hk & He)]; rewrite Hk in Hd; rewrite Hd.
  - destruct Hr as (_ & Hi & Hs). apply input_app in Hi as (_ & _ & Hi).
    specialize (Hg _ k sz bv h r' (charge (len h) stk)
      (conj eq_refl (conj Hh (conj Hsz (conj Hi (charge_limits _ _ Hs))))) Hn).
    unfold good in Hg.
    destruct (d (mk r' _ _ _ _ _)) as [[[e|a] s']|]; [by intros -> | |done]. destruct Hg as (c & r2 & -> & Hr2 & Hq).
    exists (h ++ c), r2. rewrite charge_charge in Hr2. rewrite <- app_assoc, len_app. done.
  - rewrite Hw. done.
Qed.

(** ** Lists *)

(** The bytes of a value of which [T] holds. *)
Definition encodes (T : rval → Prop) (v : rval) (enc : bytes) : Prop := enc = rlp v ∧ T v ∧ 1 ≤ len enc.
Definition elements (T : rval → Prop) (l : list rval) (enc : bytes) : Prop := enc = concat (map rlp l) ∧ Forall T l.

Lemma encodes_peeked T s k sz bv h r stk v c :
  peeked s k sz bv h r stk → h ++ c = rlp v → T v → encodes T v (h ++ c).
Proof.
  intros (_ & Hh & _) He Ht. split_and!; try done. pose proof (len_headed _ _ _ _ Hh). pose proof (len_0 c).
  rewrite len_app. lia.
Qed.

Lemma List_cases s k sz bv h r stk :
  peeked s k sz bv h r stk →
  (k = KList ∧ ∃ s', Stream_List s = Some (inr sz, s') ∧ ready s' r (sz :: charge sz stk))
  ∨ Stream_List s = Some (inl ErrExpectedList, s).
Proof.
  intros Hp. unfold Stream_List. rewrite (bind_peeked _ _ _ _ _ _ _ _ Hp). destruct Hp as (-> & Hh & Hsz & Hi & Hs).
  destruct k; [by right..|]. left. destruct Hh as (-> & Hb & ->). split; [done|]. eexists. split; [done|].
  split_and!; [by eexists _, _, _|by apply Hi..|]. constructor; [lia|]. by apply (charge_limits sz) in Hs.
Qed.

Lemma ListEnd_cases s r l stk :
  ready s r (l :: stk) →
  (l = 0 ∧ ∃ s', Stream_ListEnd s = Some (inr tt, s') ∧ ready s' r stk) ∨ Stream_ListEnd s = Some (inl errNotAtEOL, s).
Proof.
  intros [(size & err & bv & ->) [Hi Hs]]. apply Forall_cons in Hs as [Hl Hs]. unfold Stream_ListEnd. cbn [st_stack mk].
  destruct (Z.ltb_spec 0 l); [by right|]. left. split; [lia|]. eexists. split; [done|]. by apply ready_mk.
Qed.

(** A list whose elements [m] reads; [ListEnd] finds that they take its size. *)
Lemma list_good (m : Dec (list rval)) (f : RlpError → RlpError) (Q : list rval → Prop) s k sz bv h r stk :
  f errNotAtEOL ≠ EOL →
  (∀ s' l stk', ready s' r (l :: stk') → good r (l :: stk') (λ l c, c = concat (map rlp l) ∧ Q l) (m s')) →
  peeked s k sz bv h r stk →
  good r stk (λ l c, h ++ c = rlp_list (concat (map rlp l)) ∧ Q l)
    ((_ ← wrapped Stream_List; l ← m; _ ← dec_wrap f Stream_ListEnd; dec_ret l) s).
Proof.
  intros Hf Hm Hp. unfold mbind, Dec_bind, dec_wrap, dec_try.
  destruct (List_cases s k sz bv h r stk Hp) as [[-> (s1 & -> & Hr1)]| ->]; [cbn|done].
  pose proof Hp as (_ & (_ & Hsz & ->) & _ & [_ Hlr] & Hs). specialize (Hm s1 sz _ Hr1). unfold good in Hm.
  destruct (m s1) as [[[e|l] s2]|]; [done| |done]. destruct Hm as (c & r' & -> & Hr2 & -> & Hl). cbn [charge] in Hr2.
  destruct (ListEnd_cases _ _ _ _ Hr2) as [[H0 (s3 & -> & Hr3)]| ->]; [cbn|done].
  rewrite len_app in Hlr. pose proof (len_0 (concat (map rlp l))) as Hc. pose proof (len_0 r').
  assert (sz = len (concat (map rlp l))) as ->.
  { destruct (Z_le_gt_dec (len (concat (map rlp l))) sz); [rewrite wrapU_small in H0 by lia; lia|].
    unfold wrapU in H0.
    assert ((sz - len (concat (map rlp l))) mod 2 ^ 64 = sz - len (concat (map rlp l)) + 2 ^ 64) as Hw; [|lia].
    symmetry. apply (Z.mod_unique _ _ (-1)); lia. }
  by exists (concat (map rlp l)), r'.
Qed.

Lemma dec_wrap_id {A} (m : Dec A) s : dec_wrap id m s = m s.
Proof. unfold dec_wrap, dec_try. by destruct (m s) as [[[]]|]. Qed.

Lemma elems_good T n d fuel s r l stk :
  reads (encodes T) n d → ready s r (l :: stk) → (length r < n)%nat → (length r < fuel)%nat →
  good r (l :: stk) (elements T) (decodeSliceElems d fuel s).
Proof.
  intros Hd. revert s r l. induction fuel as [|fuel IH]; intros s r l Hr Hn Hf; [lia|]. cbn. unfold dec_try.
  specialize (Hd s r _ Hr Hn). destruct (d s) as [[[e|v] s']|]; [|destruct Hd as (c & r' & -> & Hr' & -> & Hv & Hlen)|done].
  - destruct e; try done. rewrite (Hd eq_refl). by apply good_ret.
  - assert (length r' < length (rlp v ++ r'))%nat by (rewrite length_app; unfold len in Hlen; lia).
    assert (good r' (charge (len (rlp v)) (l :: stk)) (elements T) (decodeSliceElems d fuel s')) as Hg by (apply IH; done || lia).
    unfold mbind, Dec_bind, dec_try. unfold good in Hg.
    destruct (decodeSliceElems d fuel s') as [[[e|vs] s2]|]; [done| |done].
    destruct Hg as (c & r2 & -> & Hr2 & -> & Hvs). exists (rlp v ++ concat (map rlp vs)), r2.
    rewrite app_assoc, len_app, <- charge_charge. split_and!; [done..|]. by split; [|constructor].
Qed.

Lemma array_good T n d vlen s r l stk :
  reads (encodes T) n d → ready s r (l :: stk) → (length r < n)%nat →
  good r (l :: stk) (λ vs c, elements T vs c ∧ length vs = vlen) (array_elems d vlen s).
Proof.
  intros Hd. revert s r l. induction vlen as [|vlen IH]; intros s r l Hr Hn; [by apply good_ret|]. cbn. unfold dec_try.
  specialize (Hd s r _ Hr Hn). destruct (d s) as [[[e|v] s']|]; [by destruct e|destruct Hd as (c & r' & -> & Hr' & -> & Hv & Hlen)|done].
  rewrite length_app in Hn.
  assert (good r' (charge (len (rlp v)) (l :: stk)) (λ vs c, elements T vs c ∧ length vs = vlen) (array_elems d vlen s')) as Hg
    by (apply IH; done || lia).
  unfold mbind, Dec_bind, dec_try. unfold good in Hg.
  destruct (array_elems d vlen s') as [[[e|vs] s2]|]; [done| |done].
  destruct Hg as (c & r2 & -> & Hr2 & [-> Hvs] & <-). exists (rlp v ++ concat (map rlp vs)), r2.
  rewrite app_assoc, len_app, <- charge_charge. split_and!; [done..| |done]. split; [done|]. by constructor.
Qed.

Lemma slice_good T n d s k sz bv h r stk :
  reads (encodes T) n d → (length r < n)%nat → peeked s k sz bv h r stk →
  good r stk (λ l c, h ++ c = rlp_list (concat (map rlp l)) ∧ Forall T l) (decodeListSlice d n s).
Proof.
  intros Hd Hn Hp.
  pose proof (list_good (decodeSliceElems d n) id (Forall T) s k sz bv h r stk) as Hg.
  specialize (Hg ltac:(done) (λ s' l stk' Hr, elems_good T n d n s' r l stk' Hd Hr Hn Hn) Hp).
  unfold decodeListSlice. unfold mbind, Dec_bind, dec_try in Hg |- *. unfold dec_wrap at 1 in Hg. unfold dec_wrap, dec_try in Hg |- *.
  destruct (List_cases s k sz bv h r stk Hp) as [[-> (s1 & He & Hr1)]|He]; rewrite He in Hg |- *; [|done]. cbn in Hg |- *.
  destruct (Z.eqb_spec sz 0) as [->|].
  - cbn. destruct (ListEnd_cases _ _ _ _ Hr1) as [[_ (s2 & -> & Hr2)]| ->]; [cbn|done].
    exists [], r. rewrite charge_0 in Hr2 |- * by apply Hp. split_and!; try done. rewrite app_nil_r.
    by destruct Hp as (_ & (_ & _ & ->) & _).
  - unfold good in Hg |- *. destruct (decodeSliceElems d n s1) as [[[e|vs] s2]|]; [done| |done].
    by destruct (Stream_ListEnd s2) as [[[e|[]] s3]|].
Qed.

Lemma good_map {A B} (m : Dec A) (f : A → B) s r stk Q R :
  good r stk Q (m s) → (∀ a c, Q a c → R (f a) c) → good r stk R ((a ← m; dec_ret (f a)) s).
Proof.
  intros Hg Hi. eapply good_bind; [done|]. intros a c r' s' -> Hr Hq. apply good_ret; [done|].
  rewrite app_nil_r. auto.
Qed.

(** ** Interfaces *)

Lemma iface_list l : iface (VSlice l) ↔ Forall iface l.
Proof. cbn. induction l as [|v l IH]; [by split|]. rewrite Forall_cons, <- IH. done. Qed.

Lemma peeked_length s k sz bv h r stk n :
  peeked s k sz bv h r stk → (length (h ++ r) < S n)%nat → (length r < n)%nat.
Proof. intros (_ & Hh & _) Hn. pose proof (len_headed _ _ _ _ Hh) as Hl. unfold len in Hl. rewrite length_app in Hn. lia. Qed.

Lemma interface_body fuel s k sz bv h r stk :
  reads (encodes iface) fuel (decodeInterface fuel) →
  peeked s k sz bv h r stk → (length (h ++ r) < S fuel)%nat →
  good r stk (λ v c, encodes iface v (h ++ c)) (decodeInterface (S fuel) s).
Proof.
  intros IH Hp Hn. pose proof (peeked_length _ _ _ _ _ _ _ _ Hp Hn) as Hlen. cbn [decodeInterface].
  rewrite (bind_peeked _ _ _ _ _ _ _ _ Hp). destruct k.
  1,2: eapply good_map; [by apply Bytes_good|]; intros b c [Hb Hbb]; eapply encodes_peeked; [done| |done];
    by rewrite <- (str_rlp _ _ _ _ _ _ Hb).
  eapply good_map; [by eapply (slice_good iface)|]. intros l c [He Hl].
  eapply encodes_peeked; [done|done|]. by apply iface_list.
Qed.

Lemma interface_reads fuel : reads (encodes iface) fuel (decodeInterface fuel).
Proof.
  induction fuel as [|fuel IH]; [intros s r stk _ Hn; lia|]. apply reads_peeked; [apply peeks_interface|].
  intros. by eapply interface_body.
Qed.

(** ** Structs *)

Fixpoint all2 (ts : list rtype) (l : list rval) : Prop :=
  match ts, l with
  | [], [] => True
  | t :: ts, v :: l => typed t v ∧ all2 ts l
  | _, _ => False
  end.

Definition fields (fuel : nat) : list rtype → Dec (list rval) :=
  fix fields (ts : list rtype) : Dec (list rval) :=
    match ts with
    | [] => dec_ret []
    | t :: ts =>
        dec_try (decode fuel t) (λ r,
          match r with
          | inl EOL => dec_err (decodeError "too few elements")
          | inl err => dec_err err
          | inr v => l ← fields ts; dec_ret (v :: l)
          end)
    end.

Lemma decode_struct fuel ts :
  decode fuel (TStruct ts)
  = (_ ← wrapped Stream_List; l ← fields fuel ts; _ ← wrapped Stream_ListEnd; dec_ret (VStruct l)).
Proof.
  cbn [decode]. match goal with |- (_ ≫= λ _, ?f ts ≫= _) = _ => assert (f = fields fuel) as -> end; [|done].
  reflexivity.
Qed.

(** Within a list the values may be empty. *)
Definition reads_field (fuel : nat) (t : rtype) : Prop :=
  ∀ s r l stk, ready s r (l :: stk) → (length r < fuel)%nat →
    match decode fuel t s with
    | None => False
    | Some (inl e, s') => True
    | Some (inr v, s') => ∃ r', r = rlp v ++ r' ∧ ready s' r' (charge (len (rlp v)) (l :: stk)) ∧ typed t v
    end.

Lemma fields_good fuel ts s r l stk :
  Forall (reads_field fuel) ts → ready s r (l :: stk) → (length r < fuel)%nat →
  good r (l :: stk) (λ vs c, c = concat (map rlp vs) ∧ all2 ts vs) (fields fuel ts s).
Proof.
  intros Hts. revert s r l. induction Hts as [|t ts Ht _ IH]; intros s r l Hr Hn; [by apply good_ret|].
  cbn [fields]. unfold dec_try. specialize (Ht s r l stk Hr Hn).
  destruct (decode fuel t s) as [[[e|v] s']|]; [by destruct e|destruct Ht as (r' & -> & Hr' & Hv)|done].
  rewrite length_app in Hn.
  assert (good r' (charge (len (rlp v)) (l :: stk)) (λ vs c, c = concat (map rlp vs) ∧ all2 ts vs) (fields fuel ts s'))
    as Hg by (apply IH; done || lia).
  unfold mbind, Dec_bind, dec_try. unfold good in Hg.
  destruct (fields fuel ts s') as [[[e|vs] s2]|]; [done| |done].
  destruct Hg as (c & r2 & -> & Hr2 & -> & Hvs). exists (rlp v ++ concat (map rlp vs)), r2.
  rewrite app_assoc, len_app, <- charge_charge. done.
Qed.

(** ** All types *)

(** At a value whose head has been read. *)
Definition body_good (fuel : nat) (t : rtype) : Prop :=
  ∀ s k sz bv h r stk, peeked s k sz bv h r stk → (length (h ++ r) < fuel)%nat →
    good r stk (λ v c, encodes (typed t) v (h ++ c)) (decode fuel t s).

Definition decode_reads (fuel : nat) (t : rtype) : Prop := reads (encodes (typed t)) fuel (decode fuel t).

Lemma body_reads fuel t : valid t → tail t = false → body_good (S fuel) t → decode_reads (S fuel) t.
Proof. intros Hv Ht Hb. apply reads_peeked; [by apply peeks_decode|]. intros. by eapply Hb. Qed.

Lemma reads_at_field fuel t : decode_reads fuel t → reads_field fuel t.
Proof.
  intros Hd s r l stk Hr Hn. specialize (Hd s r _ Hr Hn).
  destruct (decode fuel t s) as [[[e|v] s']|]; [done| |done]. destruct Hd as (c & r' & -> & Hr' & -> & Hv & _). eauto.
Qed.

Lemma tail_reads fuel t : reads (encodes (typed t)) fuel (decode fuel t) → reads_field fuel (TTail t).
Proof.
  intros Hd s r l stk Hr Hn. pose proof (elems_good _ _ _ fuel s r l stk Hd Hr Hn Hn) as Hg.
  cbn [decode]. unfold mbind, Dec_bind, dec_try. unfold good in Hg.
  destruct (decodeSliceElems (decode fuel t) fuel s) as [[[e|vs] s2]|]; [done| |done].
  destruct Hg as (c & r' & -> & Hr' & -> & Hv). exists r'. done.
Qed.

Lemma valid_fields ts : valid (TStruct ts) → Forall valid ts.
Proof. cbn. induction ts as [|t ts IH]; [done|]. intros (Hv & _ & Hts). constructor; auto. Qed.

Lemma ptr_good nilOK nk t fuel : nk ≠ KByte → body_good (S fuel) t → body_good (S fuel) (TPtr nilOK nk t).
Proof.
  intros Hnk Hd s k sz bv h r stk Hp Hn. specialize (Hd s k sz bv h r stk Hp Hn). destruct nilOK; cbn [decode].
  - unfold makeNilPtrDecoder. unfold mbind, Dec_bind at 1. unfold dec_wrap, dec_try at 1 2.
    rewrite (Kind_peeked _ _ _ _ _ _ _ Hp). cbn [dec_ret].
    pose proof Hp as (-> & Hh & Hsz & Hi & Hs).
    destruct (bool_decide (k ≠ KByte) && (sz =? 0)) eqn:He.
    + apply andb_true_iff in He as [Hk He]. apply bool_decide_eq_true in Hk. apply Z.eqb_eq in He as ->.
      case_bool_decide as Hkk; [done|]. subst nk.
      apply good_ret; [by apply ready_rearm|]. rewrite app_nil_r.
      destruct k; [done|..]; destruct Hh as (_ & _ & ->); by split_and!.
    + eapply (good_map _ (λ v, VPtr nk (Some v))); [done|]. intros v c (Hc & Hv & Hlen).
      split_and!; [done| |done]. split_and!; [done..|]. intros _ Hemp. rewrite <- Hc in Hemp.
      apply andb_false_iff in He as [He|He].
      * apply bool_decide_eq_false in He; apply dec_stable in He as ->. destruct Hh as (-> & -> & Hb).
        by destruct Hemp as [[= -> _]|[= -> _]]; lia.
      * apply Z.eqb_neq in He. assert (len (h ++ c) = 1) as Hl by (by destruct Hemp as [-> | ->]).
        rewrite len_app in Hl. pose proof (len_headed _ _ _ _ Hh). pose proof (len_0 c).
        destruct k; [by destruct Hh|..]; destruct Hh as (_ & Hz & ->).
        all: destruct (Z.lt_ge_cases sz 56); [rewrite rlp_head_small in * by done|rewrite rlp_head_large in * by done].
        all: try (destruct Hemp as [[= Hx _]|[= Hx _]]; lia).
        all: rewrite len_cons, len_min_be in *; pose proof (nbytes_range sz ltac:(lia)); lia.
  - eapply (good_map _ (λ v, VPtr nk (Some v))); [done|]. intros v c (Hc & Hv & Hlen). by split_and!.
Qed.

Lemma all2_typed ts l : all2 ts l → typed (TStruct ts) (VStruct l).
Proof. done. Qed.

(** The bodies of the decoders without elements. *)
Lemma leaf_good {A} (f : A → rval) (m : Dec A) t fuel :
  (∀ s, decode fuel t s = (a ← m; dec_ret (f a)) s) →
  (∀ s k sz bv h r stk, peeked s k sz bv h r stk → good r stk (λ a c, h ++ c = rlp (f a) ∧ typed t (f a)) (m s)) →
  body_good fuel t.
Proof.
  intros He Hm s k sz bv h r stk Hp _. rewrite He. eapply good_map; [by eapply Hm|].
  intros a c [Ha Ht]. by eapply encodes_peeked.
Qed.

Lemma decode_leaves fuel :
  body_good fuel TRaw ∧ (∀ bits, width bits → body_good fuel (TUint bits)) ∧ body_good fuel TBool ∧
  body_good fuel TBig ∧ body_good fuel TBigPtr ∧ body_good fuel TString ∧ body_good fuel TBytes ∧
  ∀ n, body_good fuel (TByteArray n).
Proof.
  split_and!.
  - apply (leaf_good VRaw Stream_Raw); [done|]. intros * Hp. eapply good_impl; [by eapply Raw_good|].
    by intros a c [-> Ha].
  - intros bits Hb. apply (leaf_good VUint (wrapped (Stream_uint bits))); [done|]. intros * Hp.
    apply good_wrapped. eapply good_impl; [by eapply uint_good|]. intros n c [[Hn Hs] Hl]. by rewrite <- (str_rlp _ _ _ _ _ _ Hs).
  - apply (leaf_good VBool (wrapped Stream_Bool)); [done|]. intros * Hp.
    apply good_wrapped. eapply good_impl; [by eapply Bool_good|]. intros x c [Hn Hs]. rewrite <- (str_rlp _ _ _ _ _ _ Hs). by destruct x.
  - apply (leaf_good VBig decodeBigInt); [done|]. intros * Hp.
    eapply good_impl; [by eapply BigInt_good|]. intros n c [Hn Hs]. by rewrite <- (str_rlp _ _ _ _ _ _ Hs).
  - apply (leaf_good (λ z, VBigPtr (Some z)) decodeBigInt); [done|]. intros * Hp.
    eapply good_impl; [by eapply BigInt_good|]. intros n c [Hn Hs]. by rewrite <- (str_rlp _ _ _ _ _ _ Hs).
  - apply (leaf_good VString (wrapped Stream_Bytes)); [done|]. intros * Hp.
    apply good_wrapped. eapply good_impl; [by eapply Bytes_good|]. intros b c [Hs Hb]. by rewrite <- (str_rlp _ _ _ _ _ _ Hs).
  - apply (leaf_good VBytes (wrapped Stream_Bytes)); [done|]. intros * Hp.
    apply good_wrapped. eapply good_impl; [by eapply Bytes_good|]. intros b c [Hs Hb]. by rewrite <- (str_rlp _ _ _ _ _ _ Hs).
  - intros n. apply (leaf_good VByteArray (decodeByteArray n)); [done|]. intros * Hp.
    eapply good_impl; [by eapply ByteArray_good|]. intros b c [Hs Hb]. by rewrite <- (str_rlp _ _ _ _ _ _ Hs).
Qed.

Lemma array_body n t fuel : decode_reads (S fuel) t → body_good (S fuel) (TArray n t).
Proof.
  intros Hd s k sz bv h r stk Hp Hn. pose proof (peeked_length _ _ _ _ _ _ _ _ Hp Hn). cbn [decode].
  eapply good_map.
  - eapply (list_good _ wrapStreamError (λ l, Forall (typed t) l ∧ length l = n)); [done| |done].
    intros s' l stk' Hr. eapply good_impl; [eapply array_good; [done..|lia]|]. by intros a c [[-> ?] ?].
  - intros l c (He & Hl & Hlen). by eapply encodes_peeked.
Qed.

Lemma slice_body t fuel : decode_reads (S fuel) t → body_good (S fuel) (TSlice t).
Proof.
  intros Hd s k sz bv h r stk Hp Hn. pose proof (peeked_length _ _ _ _ _ _ _ _ Hp Hn). cbn [decode].
  eapply good_map; [eapply slice_good; [done|lia|done]|]. intros l c [He Hl]. by eapply encodes_peeked.
Qed.

Lemma bind_assoc {A B C} (m : Dec A) (f : A → Dec B) (g : B → Dec C) s :
  ((m ≫= f) ≫= g) s = (m ≫= λ a, f a ≫= g) s.
Proof. unfold mbind, Dec_bind, dec_try. by destruct (m s) as [[[]]|]. Qed.

Lemma struct_body ts fuel : Forall (reads_field (S fuel)) ts → body_good (S fuel) (TStruct ts).
Proof.
  intros Hd s k sz bv h r stk Hp Hn. pose proof (peeked_length _ _ _ _ _ _ _ _ Hp Hn). rewrite decode_struct.
  assert (good r stk (λ l c, h ++ c = rlp_list (concat (map rlp l)) ∧ all2 ts l)
    ((_ ← wrapped Stream_List; l ← fields (S fuel) ts; _ ← wrapped Stream_ListEnd; dec_ret l) s)) as Hg.
  { eapply (list_good _ wrapStreamError (all2 ts)); [done| |done]. intros s' l stk' Hr. apply fields_good; [done..|lia]. }
  unfold mbind, Dec_bind, dec_wrap, dec_try in Hg |- *. unfold good in Hg.
  destruct (Stream_List s) as [[[e|x] s1]|]; [done| |done]. cbn in Hg |- *.
  destruct (fields (S fuel) ts s1) as [[[e|l] s2]|]; [done| |done].
  destruct (Stream_ListEnd s2) as [[[e|[]] s3]|]; [done| |done]. cbn in Hg |- *.
  destruct Hg as (c & r' & -> & Hr & He & Hl). exists c, r'. split_and!; [done..|].
  eapply encodes_peeked; [done..|by apply all2_typed].
Qed.

Lemma decode_sound fuel t :
  valid t → if tail t then reads_field (S fuel) t else body_good (S fuel) t.
Proof.
  pose proof (decode_leaves (S fuel)) as (Hraw & Huint & Hbool & Hbig & Hbigp & Hstr & Hbytes & Harr).
  assert (∀ t, valid t → tail t = false → body_good (S fuel) t → reads (encodes (typed t)) (S fuel) (decode (S fuel) t))
    as Hreads by (apply body_reads).
  induction t using rtype_nested_ind; intros Hv; cbn [tail]; try done.
  - by apply Huint.
  - destruct Hv as [Hv Ht]. specialize (IHt Hv). rewrite Ht in IHt. by apply slice_body, Hreads.
  - destruct Hv as [Hv Ht]. specialize (IHt Hv). rewrite Ht in IHt. by apply array_body, Hreads.
  - destruct Hv as [Hv Ht]. specialize (IHt Hv). rewrite Ht in IHt. by apply tail_reads, Hreads.
  - apply valid_fields in Hv. apply struct_body. rewrite Forall_forall in H. apply Forall_forall. intros t Ht.
    rewrite Forall_forall in Hv. specialize (Hv t Ht). specialize (H t Ht Hv). destruct (tail t) eqn:He; [done|].
    by apply reads_at_field, Hreads.
  - destruct Hv as (Hk & Hv & Ht). specialize (IHt Hv). rewrite Ht in IHt. by apply ptr_good.
  - intros s k sz bv h r stk Hp Hn. eapply interface_body; [apply interface_reads|done..].
Qed.

Lemma ready_Reset b : input b → ready (Stream_Reset b (len b)) b [].
Proof.
  intros Hi. split_and!; [|done|constructor]. eexists _, _, _. unfold Stream_Reset, mk. f_equal.
  by destruct (0 <? len b).
Qed.

(** What [DecodeBytes] returns. *)
Lemma DecodeBytes_cases t b :
  valid t → tail t = false → input b →
  (∃ e, DecodeBytes b t = Some (inl e)) ∨ ∃ v, DecodeBytes b t = Some (inr v) ∧ typed t v ∧ b = rlp v.
Proof.
  intros Hv Ht Hi. pose proof (decode_sound (length b) t Hv) as Hd. rewrite Ht in Hd.
  apply body_reads in Hd; [|done..]. specialize (Hd _ _ _ (ready_Reset b Hi) ltac:(lia)). unfold DecodeBytes.
  destruct (decode _ t _) as [[[e|v] s]|]; [by left; eexists| |done].
  destruct Hd as (c & r' & Hb & [(size & err & bv & ->) _] & -> & Hty & _). cbn [st_r mk].
  destruct (Z.ltb_spec 0 (len r')); [by left; eexists|]. right. exists v.
  assert (r' = []) as -> by (destruct r'; [done|rewrite len_cons in *; pose proof (len_0 r'); lia]).
  by rewrite app_nil_r in Hb.
Qed.

Lemma rlp_head_bytes small large n :
  0 ≤ n < 2 ^ 64 → 0 ≤ small ≤ 200 → 0 ≤ large ≤ 247 → Forall is_byte (rlp_head small large n).
Proof.
  intros Hn Hs Hl. destruct (Z.lt_ge_cases n 56).
  - rewrite rlp_head_small by done. constructor; [|done]. unfold is_byte. lia.
  - rewrite rlp_head_large by done. pose proof (nbytes_range n ltac:(lia)).
    constructor; [unfold is_byte; lia|apply min_be_bytes].
Qed.

Lemma wf_raw b : raw_value b → Forall is_byte b.
Proof.
  intros (k & bv & h & c & Hh & -> & Hc). apply Forall_app. split; [|done].
  destruct k; destruct Hh as (? & ? & ?); subst; [|by apply rlp_head_bytes..]. constructor; [|done]. unfold is_byte. lia.
Qed.

Lemma rlp_string_bytes b : Forall is_byte b → len (rlp_string b) < 2 ^ 64 → Forall is_byte (rlp_string b).
Proof.
  intros Hb Hl. pose proof (len_rlp_string b). pose proof (len_0 b).
  destruct (decide (len b = 1 ∧ default 0 (head b) < 128)) as [[H1 H2]|Hn].
  - destruct b as [|x [|y b]]; [done| |rewrite !len_cons in H1; pose proof (len_0 b); lia].
    cbn. destruct (x <? 128); [done|]. constructor; [|done]. unfold is_byte. lia.
  - rewrite rlp_string_head by done. apply Forall_app. split; [apply rlp_head_bytes; lia|done].
Qed.

Lemma rlp_list_bytes b : Forall is_byte b → len (rlp_list b) < 2 ^ 64 → Forall is_byte (rlp_list b).
Proof.
  intros Hb Hl. pose proof (len_rlp_list b). pose proof (len_0 b).
  apply Forall_app. split; [apply rlp_head_bytes; lia|done].
Qed.

Lemma wf_bytes v : wf v → len (rlp v) < 2 ^ 64 → Forall is_byte (rlp v).
Proof.
  assert (∀ l, Forall (λ v, wf v → len (rlp v) < 2 ^ 64 → Forall is_byte (rlp v)) l → Forall wf l →
    len (concat (map rlp l)) < 2 ^ 64 → Forall is_byte (concat (map rlp l))) as Hlist.
  { intros l Hl Hwf. induction Hl as [|u l Hv _ IH]; [done|]. apply Forall_cons in Hwf as [Hw Hwf]. cbn. rewrite len_app.
    intros Hlen. pose proof (len_0 (rlp u)). pose proof (len_0 (concat (map rlp l))). apply Forall_app.
    split; [apply Hv; [done|lia]|apply IH; [done|lia]]. }
  induction v using rval_nested_ind; intros Hwf Hlen; cbn [rlp wf] in *; try done;
    try (apply rlp_string_bytes; [first [apply min_be_bytes|done]|done]).
  - apply rlp_string_bytes; [destruct b; [constructor; [unfold is_byte; lia|done]|done]|done].
  - pose proof (len_rlp_list (concat (map rlp l))). apply rlp_list_bytes; [|done]. apply Hlist; [done|by apply wf_list|lia].
  - apply Hlist; [done|by apply wf_list|lia].
  - pose proof (len_rlp_list (concat (map rlp l))). apply rlp_list_bytes; [|done]. apply Hlist; [done|by apply wf_list|lia].
  - destruct k; (constructor; [cbn; unfold is_byte; lia|done]).
  - by apply IHv.
  - by apply (rlp_list_bytes []).
Qed.

Lemma iface_wf v : iface v → wf v.
Proof.
  induction v using rval_nested_ind; try done. rewrite iface_list. cbn. rewrite wf_list.
  intros Hl. rewrite Forall_forall in *. auto.
Qed.

Lemma typed_wf t v : valid t → typed t v → wf v.
Proof.
  revert v. induction t using rtype_nested_ind; intros v Hv Ht; try (by destruct v as [| | | |[]| | | | | | |? []|]).
  - destruct v; try done. by apply wf_raw.
  - destruct v; try done. cbn in *. destruct Hv as [-> |[-> |[-> | ->]]]; lia.
  - destruct v; try done. by destruct Ht.
  - destruct v; try done. cbn in *. destruct Hv as [Hv _]. apply wf_list. eapply Forall_impl; [done|]. auto.
  - destruct v; try done. cbn in *. destruct Hv as [Hv _], Ht as [_ Ht]. apply wf_list. eapply Forall_impl; [done|]. auto.
  - destruct v; try done. cbn in *. destruct Hv as [Hv _]. apply wf_list. eapply Forall_impl; [done|]. auto.
  - destruct v; try done. cbn in *. apply wf_list. revert fields0 Hv Ht.
    induction H as [|t ts Ht0 _ IH]; intros [|v l]; try done. intros (Hv & _ & Hts) [Hty Hl]. constructor; auto.
  - destruct v; try done. destruct v; [|done]. cbn in *. destruct Hv as (_ & Hv & _). apply IHt; tauto.
  - by apply iface_wf.
Qed.
