(* ===== verification/RlpRoundTrip.v ===== *)
(** * Decoding an encoding

    The decoder of a type reads the encoding of each of its values back. *)

From S2P Require Import Prelude Common Uint256 Machine VmFacts Rlp RlpFacts RlpDecode RlpStreamFacts RlpDecodeFacts.

(** [a] is returned and the stream is left at [r]. *)
Definition yields {A} (r : bytes) (stk : list Z) (a : A) (o : option ((RlpError + A) * Stream)) : Prop :=
  ∃ s', o = Some (inr a, s') ∧ ready s' r stk.

Lemma yields_bind {A B} (m : Dec A) (k : A → Dec B) s r1 stk1 a r stk b :
  yields r1 stk1 a (m s) → (∀ s', ready s' r1 stk1 → yields r stk b (k a s')) → yields r stk b ((m ≫= k) s).
Proof. intros (s' & He & Hr) Hk. unfold mbind, Dec_bind, dec_try. rewrite He. auto. Qed.

Lemma yields_ret {A} (a : A) s r stk : ready s r stk → yields r stk a (dec_ret a s).
Proof. intros Hr. by exists s. Qed.

Lemma yields_wrapped {A} (m : Dec A) s r stk a : yields r stk a (m s) → yields r stk a (wrapped m s).
Proof. intros (s' & He & Hr). unfold dec_wrap, dec_try. rewrite He. by exists s'. Qed.

Lemma yields_map {A B} (m : Dec A) (f : A → B) s r stk a b :
  yields r stk a (m s) → f a = b → yields r stk b ((a ← m; dec_ret (f a)) s).
Proof. intros Hm <-. eapply yields_bind; [done|]. intros s'. apply yields_ret. Qed.

(** At a value whose head [h] has been read and whose content is [c]. *)
Definition at_head (s : Stream) (k : Kind) (sz bv : Z) (h c r : bytes) (stk : list Z) : Prop :=
  peeked s k sz bv h (c ++ r) stk ∧ len c = sz ∧ fits sz stk = true.

Lemma readFull_yields k sz bv h c r stk s :
  at_head s k sz bv h c r stk → yields r (charge sz stk) c (readFull sz s).
Proof.
  intros ((-> & _ & _ & Hi & Hs) & Hc & Hf). eexists. split; [by apply readFull_mk|].
  apply ready_mk; [by apply input_app in Hi as (_ & _ & ?)|by apply charge_limits].
Qed.

Lemma ready_empty s k sz bv h r stk :
  peeked s k sz bv h r stk → ready (set_kind None s) r (charge 0 stk).
Proof. intros (-> & _ & _ & Hi & Hs). rewrite charge_0 by done. by apply ready_rearm. Qed.

Ltac at_string Hh Hstr :=
  let Hp := fresh "Hp" in
  pose proof Hh as (Hp & _ & _); rewrite (bind_peeked _ _ _ _ _ _ _ _ Hp);
  destruct Hstr as [(-> & -> & -> & -> & -> & ?)|(-> & -> & ? & -> & -> & ?)].

Lemma Bytes_yields s k sz bv h c r stk b :
  at_head s k sz bv h c r stk → str k sz bv h c b → yields r (charge sz stk) b (Stream_Bytes s).
Proof.
  intros Hh Hb. unfold Stream_Bytes. at_string Hh Hb.
  - destruct Hp as (-> & _ & _ & Hi & Hs). rewrite charge_0 by done. apply yields_ret. by apply ready_rearm.
  - eapply yields_bind; [by eapply readFull_yields|]. intros s' Hr.
    rewrite (proj2 (single_small sz b ltac:(lia))) by done. by apply yields_ret.
Qed.

Lemma Raw_yields s k sz bv h c r stk :
  at_head s k sz bv h c r stk → yields r (charge sz stk) (h ++ c) (Stream_Raw s).
Proof.
  intros Hh. unfold Stream_Raw. pose proof Hh as (Hp & Hl & _). rewrite (bind_peeked _ _ _ _ _ _ _ _ Hp).
  pose proof Hp as (-> & Hk & _ & Hi & Hs). destruct k.
  - destruct Hk as (-> & -> & Hb). rewrite charge_0 by done. assert (c = []) as ->.
    { destruct c; [done|]. rewrite len_cons in Hl. pose proof (len_0 c). lia. }
    apply yields_ret. by apply ready_rearm.
  - destruct Hk as (-> & Hb & ->). eapply yields_bind; [by eapply readFull_yields|]. intros s' Hr.
    rewrite puthead_head by lia. by apply yields_ret.
  - destruct Hk as (-> & Hb & ->). eapply yields_bind; [by eapply readFull_yields|]. intros s' Hr.
    rewrite puthead_head by lia. by apply yields_ret.
Qed.

Lemma nbytes_le n bits : width bits → 0 ≤ n < 2 ^ bits → nbytes n ≤ bits / 8.
Proof.
  intros Hw Hn. unfold nbytes. destruct (Z.eqb_spec n 0); [by destruct Hw as [-> |[-> |[-> | ->]]]|].
  assert (Z.log2 n < bits) as Hl by (apply Z.log2_lt_pow2; lia).
  enough (Z.log2 n / 8 < bits / 8) by lia.
  destruct Hw as [-> |[-> |[-> | ->]]]; apply Z.div_lt_upper_bound; try done; lia.
Qed.

Lemma canon_min_be' n : 0 ≤ n → canon (min_be n).
Proof. intros Hn. destruct (Z.eq_dec n 0) as [->|]; [done|]. apply canon_min_be. lia. Qed.

Lemma min_be_one n bv : 0 ≤ n → min_be n = [bv] → n = bv ∧ bv ≠ 0.
Proof.
  intros Hn He. pose proof (be_val_min_be n Hn) as Hv. rewrite He in Hv. change (be_val [bv]) with bv in Hv.
  split; [done|]. pose proof (canon_min_be' n Hn) as Hc. by rewrite He in Hc.
Qed.

Lemma num_not_small n : 0 ≤ n → ¬ (len (min_be n) = 1 ∧ default 0 (head (min_be n)) < 128) →
  (0 <? len (min_be n)) && (n <? 128) = false.
Proof.
  intros Hn Hs. apply andb_false_iff. destruct (Z.ltb_spec n 128); [|by right]. left.
  destruct (Z.eq_dec n 0) as [->|]; [done|]. destruct Hs. rewrite min_be_small by lia. done.
Qed.

Lemma uint_yields bits s k sz bv h c r stk n :
  width bits → 0 ≤ n < 2 ^ bits → at_head s k sz bv h c r stk → str k sz bv h c (min_be n) →
  yields r (charge sz stk) n (Stream_uint bits s).
Proof.
  intros Hw Hn Hh Hb. unfold Stream_uint. pose proof Hh as (Hp & Hl & Hf). rewrite (bind_peeked _ _ _ _ _ _ _ _ Hp).
  destruct Hb as [(-> & -> & -> & -> & Hb & ?)|(-> & -> & -> & -> & -> & Hb)].
  - apply min_be_one in Hb as [-> Hz]; [|lia]. rewrite bind_byteval. destruct Hp as (-> & _ & _ & Hi & Hs).
    cbn [st_byteval mk]. destruct (Z.eqb_spec bv 0); [done|]. rewrite charge_0 by done.
    apply yields_ret. by apply ready_rearm.
  - pose proof (nbytes_le n bits Hw Hn) as Hnb. rewrite <- len_min_be in Hnb. pose proof (len_0 (min_be n)).
    assert (bits / 8 ≤ 8) by (by destruct Hw as [-> |[-> |[-> | ->]]]).
    destruct (Z.ltb_spec (bits / 8) (len (min_be n))); [lia|]. rewrite byte_small by lia. unfold dec_try.
    destruct Hp as (-> & _ & _ & Hi & Hs).
    rewrite readUint_mk by (try done; left; apply canon_min_be'; lia). rewrite be_val_min_be by lia.
    rewrite num_not_small by (done || lia). apply yields_ret.
    apply ready_mk; [by apply input_app in Hi as (_ & _ & ?)|by apply charge_limits].
Qed.

Lemma Bool_yields s k sz bv h c r stk b :
  at_head s k sz bv h c r stk → str k sz bv h c (min_be (bool_num b)) → yields r (charge sz stk) b (Stream_Bool s).
Proof.
  intros Hh Hb. eapply yields_bind; [eapply (uint_yields 8 _ _ _ _ _ _ _ _ (bool_num b)); [by left|by destruct b|done..]|].
  intros s' Hr. destruct b; by apply yields_ret.
Qed.

Lemma bigint_bytes_yields s k sz bv h c r stk b :
  at_head s k sz bv h c r stk → str k sz bv h c b → yields r (charge sz stk) b (bigint_bytes s).
Proof.
  intros Hh Hb. unfold bigint_bytes. at_string Hh Hb.
  - destruct Hp as (-> & _ & _ & Hi & Hs). rewrite charge_0 by done. apply yields_ret. by apply ready_rearm.
  - destruct (Z.eqb_spec sz 0) as [->|].
    + destruct b as [|x b]; [|rewrite len_cons in *; pose proof (len_0 b); lia].
      apply yields_ret. by eapply ready_empty.
    + eapply yields_bind; [by eapply readFull_yields|]. intros s' Hr.
      rewrite <- andb_assoc, (proj2 (single_small sz b ltac:(lia))), andb_false_r by done. by apply yields_ret.
Qed.

Lemma BigInt_yields s k sz bv h c r stk n :
  0 ≤ n → at_head s k sz bv h c r stk → str k sz bv h c (min_be n) → yields r (charge sz stk) n (decodeBigInt s).
Proof.
  intros Hn Hh Hb. apply yields_wrapped. eapply yields_bind; [by eapply bigint_bytes_yields|]. intros s' Hr.
  rewrite be_val_min_be by done. pose proof (canon_min_be' n Hn) as Hc.
  assert ((0 <? len (min_be n)) && (default 0 (head (min_be n)) =? 0) = false) as ->; [|by apply yields_ret].
  destruct (min_be n) as [|x l]; [done|]. apply andb_false_iff. right. by apply Z.eqb_neq.
Qed.

Lemma ByteArray_yields n s k sz bv h c r stk b :
  length b = n → at_head s k sz bv h c r stk → str k sz bv h c b → yields r (charge sz stk) b (decodeByteArray n s).
Proof.
  intros Hn Hh Hb. unfold decodeByteArray. at_string Hh Hb.
  - cbn in Hn. subst n. destruct Hp as (-> & _ & _ & Hi & Hs). rewrite charge_0 by done. apply yields_ret. by apply ready_rearm.
  - assert (Z.of_nat n = sz) as -> by (unfold len in *; lia).
    destruct (Z.ltb_spec sz sz); [lia|]. eapply yields_bind; [by eapply readFull_yields|]. intros s' Hr.
    rewrite (proj2 (single_small sz b ltac:(lia))) by done. by apply yields_ret.
Qed.

(** ** Decoders of values *)

Definition decodes (T : rval → Prop) (n : nat) (d : Dec rval) : Prop :=
  ∀ v s r stk, T v → ready s (rlp v ++ r) stk → fits (len (rlp v)) stk = true → (length (rlp v ++ r) < n)%nat →
    yields r (charge (len (rlp v)) stk) v (d s).

(** [h] and [c] are the encoding of [v]. *)
Definition splits (k : Kind) (sz bv : Z) (h c : bytes) (v : rval) : Prop :=
  rlp v = h ++ c ∧ headed k sz bv h ∧ len c = sz.

Lemma to_head k sz bv h c v s r stk :
  splits k sz bv h c v → ready s (rlp v ++ r) stk → fits (len (rlp v)) stk = true →
  ∃ s', Stream_Kind s = Some (inr (k, sz), s') ∧ at_head s' k sz bv h c r (charge (len h) stk).
Proof.
  intros (He & Hh & Hc) Hr Hf. rewrite He in Hr, Hf. rewrite <- app_assoc in Hr. pose proof Hr as (_ & Hi & Hs).
  apply input_app in Hi as (_ & _ & Hi). rewrite len_app, Hc in Hf. pose proof (len_0 h). pose proof (len_0 c). pose proof (len_0 r).
  assert (sz ≤ len (c ++ r)) by (rewrite len_app; lia).
  eexists. split; [by eapply Kind_mk|]. split; [|split; [done|apply fits_charge; (done || lia)]].
  split_and!; try done. by apply charge_limits.
Qed.

(** A decoder is run from the head of the value. *)
Lemma decodes_head (T : rval → Prop) n (d : Dec rval) :
  peeks d →
  (∀ v, T v → len (rlp v) < 2 ^ 64 → ∃ k sz bv h c, splits k sz bv h c v ∧
     ∀ s r stk, at_head s k sz bv h c r stk → (length (h ++ c ++ r) < n)%nat → yields r (charge sz stk) v (d s)) →
  decodes T n d.
Proof.
  intros (w & _ & Hd) Hb v s r stk Hv Hr Hf Hn.
  assert (len (rlp v) < 2 ^ 64) as Hlen by (destruct Hr as (_ & Hi & _); by apply input_app in Hi as (_ & ? & _)).
  destruct (Hb v Hv Hlen) as (k & sz & bv & h & c & Hsp & Hy).
  destruct (to_head _ _ _ _ _ _ _ _ _ Hsp Hr Hf) as (s' & Hk & Hh). specialize (Hd s). rewrite Hk in Hd. rewrite Hd.
  destruct Hsp as (He & _ & Hc). rewrite He in *. rewrite <- app_assoc in Hn.
  rewrite len_app, Hc, <- charge_charge. by apply Hy.
Qed.

(** Strings. *)
Lemma str_splits b v :
  rlp v = rlp_string b → Forall is_byte b → len (rlp v) < 2 ^ 64 →
  ∃ k sz bv h c, splits k sz bv h c v ∧ str k sz bv h c b.
Proof.
  intros Hv Hb Hl. rewrite Hv in Hl. pose proof (len_rlp_string b).
  destruct (str_exists b Hb ltac:(lia)) as (k & sz & bv & h & c & Hs & Hh & Hc).
  exists k, sz, bv, h, c. split; [|done]. split_and!; try done. by rewrite Hv, (str_rlp _ _ _ _ _ _ Hs).
Qed.

Lemma decodes_string {A} (T : rval → Prop) n (m : Dec A) (f : A → rval) :
  peeks m →
  (∀ v, T v → ∃ a b, v = f a ∧ rlp v = rlp_string b ∧ Forall is_byte b ∧
     ∀ s k sz bv h c r stk, at_head s k sz bv h c r stk → str k sz bv h c b → yields r (charge sz stk) a (m s)) →
  decodes T n (a ← m; dec_ret (f a)).
Proof.
  intros Hp Hm. apply decodes_head; [by apply peeks_bind|]. intros v Hv Hlen.
  destruct (Hm v Hv) as (a & b & He & Hr & Hb & Hy).
  destruct (str_splits b v Hr Hb Hlen) as (k & sz & bv & h & c & Hsp & Hs).
  exists k, sz, bv, h, c. split; [done|]. intros s r stk Hh _. eapply yields_map; [by eapply Hy|done].
Qed.

(** ** Lists *)

Lemma charge_all n stk : charge n (n :: stk) = 0 :: stk.
Proof. cbn. by rewrite Z.sub_diag. Qed.

Lemma charge_part a b stk : 0 ≤ a → 0 ≤ b → a + b < 2 ^ 64 → charge a (a + b :: stk) = b :: stk.
Proof. intros. cbn. rewrite wrapU_small by lia. f_equal. lia. Qed.

Lemma list_yields (m : Dec (list rval)) (f : RlpError → RlpError) s sz bv h c r stk l :
  at_head s KList sz bv h c r stk →
  (∀ s' stk', ready s' (c ++ r) (len c :: stk') → yields r (0 :: stk') l (m s')) →
  yields r (charge sz stk) l ((_ ← wrapped Stream_List; l ← m; _ ← dec_wrap f Stream_ListEnd; dec_ret l) s).
Proof.
  intros (Hp & Hc & Hf) Hm.
  destruct (List_cases _ _ _ _ _ _ _ Hp) as [[_ (s1 & He & Hr1)]|He].
  2: { exfalso. unfold Stream_List in He. by rewrite (bind_peeked _ _ _ _ _ _ _ _ Hp) in He. }
  eapply yields_bind; [apply yields_wrapped; by exists s1|]. intros s1' Hr1'. rewrite <- Hc in Hr1'.
  eapply yields_bind; [by apply Hm|]. intros s2 Hr2.
  destruct (ListEnd_cases _ _ _ _ Hr2) as [[_ (s3 & He3 & Hr3)]|He3].
  - rewrite Hc in Hr3. exists s3. split; [|done]. unfold mbind, Dec_bind, dec_wrap, dec_try. by rewrite He3.
  - exfalso. destruct Hr2 as [(size & err & bv2 & ->) _]. done.
Qed.

Lemma ready_bound s a r stk : ready s (a ++ r) stk → len a < 2 ^ 64.
Proof. intros (_ & Hi & _). by apply input_app in Hi as (_ & ? & _). Qed.

Lemma peeks_end {A} (d : Dec A) s r stk : peeks d → ready s r (0 :: stk) → d s = Some (inl EOL, s).
Proof.
  intros (w & Hw & Hd) Hr. specialize (Hd s). rewrite (Kind_end _ _ _ Hr) in Hd. by rewrite Hd, (proj2 (Hw EOL)).
Qed.

(** One element of a list, and what is left of it. *)
Lemma element_yields T n d s v rest r stk :
  decodes T n d → T v → ready s ((rlp v ++ rest) ++ r) (len (rlp v ++ rest) :: stk) →
  (length ((rlp v ++ rest) ++ r) < n)%nat →
  ∃ s', d s = Some (inr v, s') ∧ ready s' (rest ++ r) (len rest :: stk).
Proof.
  intros Hd Hv Hr Hn. pose proof (ready_bound _ _ _ _ Hr) as Hb. pose proof (len_0 (rlp v)). pose proof (len_0 rest).
  rewrite len_app in *. rewrite <- app_assoc in *.
  destruct (Hd v s (rest ++ r) _ Hv Hr ltac:(apply Z.leb_le; lia) Hn) as (s' & He & Hr').
  rewrite charge_part in Hr' by lia. eauto.
Qed.

Lemma elems_yields T n d l fuel s r stk :
  decodes T n d → reads (encodes T) n d → peeks d → Forall T l →
  ready s (concat (map rlp l) ++ r) (len (concat (map rlp l)) :: stk) →
  (length (concat (map rlp l) ++ r) < n)%nat → (length (concat (map rlp l) ++ r) < fuel)%nat →
  yields r (0 :: stk) l (decodeSliceElems d fuel s).
Proof.
  intros Hd Hrd Hp Hl. revert fuel s. induction Hl as [|v l Hv Hl IH]; intros [|fuel] s Hr Hn Hf; try lia.
  - cbn. unfold dec_try. rewrite (peeks_end d s _ _ Hp Hr). by apply yields_ret.
  - cbn [map concat] in *.
    destruct (element_yields T n d s v (concat (map rlp l)) r stk Hd Hv Hr Hn) as (s' & He & Hr').
    assert (1 ≤ len (rlp v)) as Hlen.
    { specialize (Hrd s _ _ Hr Hn). rewrite He in Hrd. by destruct Hrd as (c & r2 & _ & _ & -> & _ & ?). }
    unfold len in Hlen. rewrite <- app_assoc, length_app in Hn, Hf. cbn. unfold dec_try. rewrite He.
    eapply yields_map; [|done]. apply IH; [done|lia..].
Qed.

Lemma array_yields T n d l s r stk :
  decodes T n d → Forall T l →
  ready s (concat (map rlp l) ++ r) (len (concat (map rlp l)) :: stk) →
  (length (concat (map rlp l) ++ r) < n)%nat →
  yields r (0 :: stk) l (array_elems d (length l) s).
Proof.
  intros Hd Hl. revert s. induction Hl as [|v l Hv Hl IH]; intros s Hr Hn; [by apply yields_ret|].
  cbn [map concat] in *.
  destruct (element_yields T n d s v (concat (map rlp l)) r stk Hd Hv Hr Hn) as (s' & He & Hr').
  rewrite <- app_assoc, length_app in Hn. cbn. unfold dec_try. rewrite He. eapply yields_map; [|done]. apply IH; [done|lia].
Qed.

Lemma slice_yields T n d s sz bv h r stk l :
  decodes T n d → reads (encodes T) n d → peeks d → Forall T l →
  at_head s KList sz bv h (concat (map rlp l)) r stk → (length (concat (map rlp l) ++ r) < n)%nat →
  yields r (charge sz stk) l (decodeListSlice d n s).
Proof.
  intros Hd Hrd Hp Hl Hh Hn.
  pose proof (list_yields (decodeSliceElems d n) id s sz bv h _ r stk l Hh) as Hy.
  specialize (Hy ltac:(intros; by eapply elems_yields)). unfold decodeListSlice. destruct Hy as (s' & He & Hr).
  exists s'. split; [|done]. revert He. unfold mbind, Dec_bind, dec_try, dec_wrap, dec_try.
  pose proof Hh as (Hpk & Hlen & _).
  destruct (List_cases _ _ _ _ _ _ _ Hpk) as [[_ (s1 & He & Hr1)]|He]; rewrite He; [cbn|done].
  destruct (Z.eqb_spec sz 0) as [->|].
  - destruct (concat (map rlp l)) as [|x c] eqn:Hcat; [|rewrite len_cons in *; pose proof (len_0 c); lia].
    assert (l = []) as ->.
    { destruct l as [|v l]; [done|]. exfalso. cbn in Hcat. apply app_nil in Hcat as [Hv _].
      apply Forall_cons in Hl as [Ht _].
      assert (ready s1 (rlp v ++ r) (0 :: charge 0 stk)) as Hr1' by by rewrite Hv.
      destruct (Hd v s1 r _ Ht Hr1') as (s2 & He2 & _); [by rewrite Hv|by rewrite Hv|].
      by rewrite (peeks_end d s1 _ _ Hp Hr1) in He2. }
    assert (decodeSliceElems d n s1 = Some (inr [], s1)) as ->.
    { destruct n as [|n]; [lia|]. cbn. unfold dec_try. by rewrite (peeks_end d s1 _ _ Hp Hr1). }
    cbn. by destruct (Stream_ListEnd s1) as [[[e|[]] s2]|].
  - destruct (decodeSliceElems d n s1) as [[[e|vs] s2]|]; [done| |done].
    by destruct (Stream_ListEnd s2) as [[[e|[]] s3]|].
Qed.

Lemma list_splits payload v :
  rlp v = rlp_list payload → len (rlp v) < 2 ^ 64 →
  splits KList (len payload) 0 (rlp_head 192 247 (len payload)) payload v.
Proof.
  intros Hv Hl. rewrite Hv in Hl. pose proof (len_rlp_list payload). pose proof (len_0 payload).
  split_and!; [done| |done]. split_and!; [done|lia..|done].
Qed.

Lemma at_head_length n s k sz bv h c r stk :
  at_head s k sz bv h c r stk → (length (h ++ c ++ r) < S n)%nat → (length (c ++ r) < n)%nat.
Proof. intros (Hp & _) Hn. by eapply peeked_length. Qed.

(** ** Interfaces *)

Lemma interface_decodes fuel : decodes iface fuel (decodeInterface fuel).
Proof.
  induction fuel as [|fuel IH]; [intros v s r stk _ _ _ Hn; lia|]. apply decodes_head; [apply peeks_interface|].
  intros v Hv Hlen. destruct v as [| | | | | |b| |l| | | |]; try done.
  - destruct (str_splits b (VBytes b) eq_refl Hv Hlen) as (k & sz & bv & h & c & Hsp & Hs).
    exists k, sz, bv, h, c. split; [done|]. intros s r stk Hh _. cbn [decodeInterface].
    pose proof Hh as (Hp & _ & _). rewrite (bind_peeked _ _ _ _ _ _ _ _ Hp).
    destruct k; [| |destruct Hs as [(? & _)|(? & _)]; done]; (eapply yields_map; [by eapply Bytes_yields|done]).
  - eexists _, _, _, _, _. split; [by apply (list_splits (concat (map rlp l)))|]. intros s r stk Hh Hn. cbn [decodeInterface].
    pose proof (at_head_length _ _ _ _ _ _ _ _ _ Hh Hn). pose proof Hh as (Hp & _ & _). rewrite (bind_peeked _ _ _ _ _ _ _ _ Hp).
    eapply yields_map; [|done]. destruct fuel as [|fuel]; [lia|]. eapply slice_yields; try done.
    + apply interface_reads.
    + apply peeks_interface.
    + by apply iface_list.
Qed.

(** ** Structs and pointers *)

(** A field that takes all that is left of its list. *)
Definition decodes_tail (fuel : nat) (t : rtype) : Prop :=
  ∀ v s r stk, typed t v → ready s (rlp v ++ r) (len (rlp v) :: stk) → (length (rlp v ++ r) < fuel)%nat →
    yields r (0 :: stk) v (decode fuel t s).

Definition decodes_at (fuel : nat) (t : rtype) : Prop :=
  if tail t then decodes_tail fuel t else decodes (typed t) fuel (decode fuel t).

Lemma fields_yields fuel ts l s r stk :
  Forall (decodes_at fuel) ts → valid (TStruct ts) → all2 ts l →
  ready s (concat (map rlp l) ++ r) (len (concat (map rlp l)) :: stk) →
  (length (concat (map rlp l) ++ r) < fuel)%nat →
  yields r (0 :: stk) l (fields fuel ts s).
Proof.
  intros Hd. revert l s. induction Hd as [|t ts Ht _ IH]; intros l s Hv Hl Hr Hn; destruct l as [|v l]; try done.
  { by apply yields_ret. }
  destruct Hv as (_ & Htl & Hts), Hl as [Hv Hl]. cbn [map concat fields] in *. unfold dec_try. unfold decodes_at in Ht.
  destruct (tail t).
  - rewrite (Htl eq_refl) in *. destruct l as [|? ?]; [|done]. cbn in Hr, Hn. rewrite app_nil_r in Hr, Hn.
    destruct (Ht v s r stk Hv Hr Hn) as (s' & -> & Hr'). by apply yields_ret.
  - destruct (element_yields _ fuel _ s v _ r stk Ht Hv Hr Hn) as (s' & -> & Hr').
    rewrite <- app_assoc, length_app in Hn. eapply yields_map; [|done]. apply IH; [done..|lia].
Qed.

Lemma tail_yields fuel t :
  valid t → tail t = false → decodes (typed t) (S fuel) (decode (S fuel) t) → decodes_tail (S fuel) (TTail t).
Proof.
  intros Hv Ht Hd v s r stk Hty Hr Hn. destruct v; try done. cbn [decode]. eapply yields_map; [|done].
  eapply elems_yields; [done| |by apply peeks_decode|done..].
  pose proof (decode_sound fuel t Hv) as Hs. rewrite Ht in Hs. by apply body_reads.
Qed.

Lemma typed_splits t v :
  valid t → tail t = false → typed t v → len (rlp v) < 2 ^ 64 → ∃ k sz bv h c, splits k sz bv h c v.
Proof.
  assert (∀ v b, rlp v = rlp_string b → Forall is_byte b → len (rlp v) < 2 ^ 64 → ∃ k sz bv h c, splits k sz bv h c v)
    as Hstr by (intros u b ? ? ?; destruct (str_splits b u) as (? & ? & ? & ? & ? & ? & _); eauto 10).
  assert (∀ v p, rlp v = rlp_list p → len (rlp v) < 2 ^ 64 → ∃ k sz bv h c, splits k sz bv h c v)
    as Hlist by (intros u p ? ?; pose proof (list_splits p u); eauto 10).
  revert v. induction t using rtype_nested_ind; intros v Hv Ht Hty Hlen; destruct v; try done;
    try (by eapply Hlist); try (by eapply Hstr; [reflexivity|first [apply min_be_bytes|done]|done]).
  - destruct Hty as (k & bv & h & c & Hh & -> & Hc). by exists k, (len c), bv, h, c.
  - eapply Hstr; [reflexivity| |done]. destruct b; repeat constructor; unfold is_byte; lia.
  - eapply Hstr; [reflexivity| |done]. by destruct Hty.
  - destruct Hv as (Hk & Hv & Ht'). destruct v as [v|].
    + destruct Hty as (-> & Hty & _). destruct (IHt v Hv Ht' Hty Hlen) as (k' & sz & bv & h & c & Hs).
      by exists k', sz, bv, h, c.
    + destruct Hty as [-> _]. destruct k; [done|..].
      * exists KString, 0, 0, [128], []. by split_and!.
      * exists KList, 0, 0, [192], []. by split_and!.
Qed.

Lemma empty_splits k sz bv h c v : splits k sz bv h c v → k ≠ KByte → sz = 0 → empty_value (rlp v).
Proof.
  intros (-> & Hh & Hc) Hk ->. destruct c; [|rewrite len_cons in Hc; pose proof (len_0 c); lia].
  destruct k; [done|..]; destruct Hh as (_ & _ & ->); [by left|by right].
Qed.

Lemma ptr_decodes nilOK nk t fuel :
  valid (TPtr nilOK nk t) → decodes (typed t) (S fuel) (decode (S fuel) t) →
  decodes (typed (TPtr nilOK nk t)) (S fuel) (decode (S fuel) (TPtr nilOK nk t)).
Proof.
  intros Hv0 Hd v s r stk Hty Hr Hf Hn. pose proof Hv0 as (Hk & Hv & Ht). destruct v; try done.
  pose proof (ready_bound _ _ _ _ Hr) as Hlen.
  destruct (typed_splits _ _ Hv0 eq_refl Hty Hlen) as (k & sz & bv & h & c & Hs).
  destruct (to_head _ _ _ _ _ _ _ _ _ Hs Hr Hf) as (s1 & Hks & Hh). cbn [decode].
  destruct v as [v|]; [destruct Hty as (-> & Hty & Hne)|destruct Hty as [-> ->]]; cbn [rlp] in *.
  - pose proof (Hd v s r stk Hty Hr Hf Hn) as Hy. destruct nilOK; [|by eapply yields_map].
    unfold makeNilPtrDecoder. destruct (peeks_decode fuel t Hv Ht) as (w & _ & Hpk). specialize (Hpk s).
    rewrite Hks in Hpk. rewrite Hpk in Hy. unfold mbind, Dec_bind at 1. unfold dec_wrap, dec_try at 1 2. rewrite Hks. cbn [dec_ret].
    assert (bool_decide (k ≠ KByte) && (sz =? 0) = false) as ->; [|by eapply yields_map].
    apply andb_false_iff. destruct (decide (k = KByte)) as [->|Hkb]; [left; by apply bool_decide_eq_false; auto|right].
    apply Z.eqb_neq. intros Hz. apply (Hne eq_refl). by apply (empty_splits k sz bv h c (VPtr nk (Some v))).
  - unfold makeNilPtrDecoder. unfold mbind, Dec_bind at 1. unfold dec_wrap, dec_try at 1 2. rewrite Hks. cbn [dec_ret].
    assert (k = nk ∧ sz = 0) as [-> ->].
    { destruct Hs as (He & Hh0 & Hc0). cbn in He. destruct k; destruct Hh0 as (? & ? & ?); subst.
      - destruct nk; [done|..]; cbn in He; injection He as <- _; lia.
      - destruct (Z.lt_ge_cases (len c) 56); [rewrite rlp_head_small in He by done|rewrite rlp_head_large in He by done; pose proof (nbytes_range (len c) ltac:(lia))];
          destruct nk; cbn in He; injection He as He; try lia; split; try done; lia.
      - destruct (Z.lt_ge_cases (len c) 56); [rewrite rlp_head_small in He by done|rewrite rlp_head_large in He by done; pose proof (nbytes_range (len c) ltac:(lia))];
          destruct nk; cbn in He; injection He as He; try lia; split; try done; lia. }
    rewrite bool_decide_true by done. cbn [andb Z.eqb]. rewrite bool_decide_false by auto.
    destruct Hs as (He & Hh0 & Hc0). destruct c; [|rewrite len_cons in Hc0; pose proof (len_0 c); lia].
    rewrite app_nil_r in He. replace (len [nilEncoding nk]) with (len h + 0) by (rewrite <- He; cbn; lia).
    rewrite <- charge_charge. apply yields_ret. destruct Hh as (Hp & _ & _). by eapply ready_empty.
Qed.

(** ** All types *)

Lemma leaves_decode fuel :
  decodes (typed TRaw) (S fuel) (decode (S fuel) TRaw) ∧
  (∀ bits, width bits → decodes (typed (TUint bits)) (S fuel) (decode (S fuel) (TUint bits))) ∧
  decodes (typed TBool) (S fuel) (decode (S fuel) TBool) ∧
  decodes (typed TBig) (S fuel) (decode (S fuel) TBig) ∧
  decodes (typed TBigPtr) (S fuel) (decode (S fuel) TBigPtr) ∧
  decodes (typed TString) (S fuel) (decode (S fuel) TString) ∧
  decodes (typed TBytes) (S fuel) (decode (S fuel) TBytes) ∧
  ∀ n, decodes (typed (TByteArray n)) (S fuel) (decode (S fuel) (TByteArray n)).
Proof.
  split_and!; cbn [decode].
  - apply decodes_head; [by apply (peeks_decode fuel TRaw)|]. intros v Hv Hlen.
    destruct (typed_splits TRaw v) as (k & sz & bv & h & c & Hs); try done. exists k, sz, bv, h, c. split; [done|].
    intros s r stk Hh _. destruct v; try done. eapply yields_map; [by eapply Raw_yields|]. by destruct Hs as [<- _].
  - intros bits Hb. apply decodes_string; [apply peeks_wrapped, peeks_bind, peeks_Kind|].
    intros [| n | | | | | | | | | | | ] Hv; try done. exists n, (min_be n). split_and!; [done..|apply min_be_bytes|].
    intros. apply yields_wrapped. by eapply uint_yields.
  - apply decodes_string; [apply peeks_wrapped, peeks_bind, peeks_bind, peeks_Kind|].
    intros [| |b| | | | | | | | | | ] Hv; try done. exists b, (min_be (bool_num b)). split_and!; [done|by destruct b|apply min_be_bytes|].
    intros. apply yields_wrapped. by eapply Bool_yields.
  - apply (decodes_string _ _ decodeBigInt VBig); [apply peeks_wrapped, peeks_bind, peeks_bind, peeks_Kind|].
    intros [| | |z| | | | | | | | | ] Hv; try done. exists z, (min_be z). split_and!; [done..|apply min_be_bytes|].
    intros. by eapply BigInt_yields.
  - apply (decodes_string _ _ decodeBigInt (λ z, VBigPtr (Some z))); [apply peeks_wrapped, peeks_bind, peeks_bind, peeks_Kind|].
    intros [| | | |[z|]| | | | | | | | ] Hv; try done. exists z, (min_be z). split_and!; [done..|apply min_be_bytes|].
    intros. by eapply BigInt_yields.
  - apply decodes_string; [apply peeks_wrapped, peeks_bind, peeks_Kind|].
    intros [| | | | |b| | | | | | | ] Hv; try done. exists b, b. split_and!; [done..|].
    intros. apply yields_wrapped. by eapply Bytes_yields.
  - apply decodes_string; [apply peeks_wrapped, peeks_bind, peeks_Kind|].
    intros [| | | | | |b| | | | | | ] Hv; try done. exists b, b. split_and!; [done..|].
    intros. apply yields_wrapped. by eapply Bytes_yields.
  - intros n. apply decodes_string; [apply peeks_bind, peeks_Kind|].
    intros [| | | | | | |b| | | | | ] Hv; try done. destruct Hv as [Hl Hb]. exists b, b. split_and!; [done..|].
    intros. by eapply ByteArray_yields.
Qed.

Lemma decode_complete fuel t : valid t → decodes_at (S fuel) t.
Proof.
  pose proof (leaves_decode fuel) as (Hraw & Huint & Hbool & Hbig & Hbigp & Hstr & Hbytes & Harr). unfold decodes_at.
  assert (∀ t, valid t → tail t = false → decode_reads (S fuel) t) as Hreads.
  { intros u Hv Ht. apply body_reads; [done..|]. pose proof (decode_sound fuel u Hv) as Hs. by rewrite Ht in Hs. }
  induction t using rtype_nested_ind; intros Hv; cbn [tail]; try done.
  - by apply Huint.
  - destruct Hv as [Hv Ht]. specialize (IHt Hv). rewrite Ht in IHt.
    apply decodes_head; [by apply peeks_decode|]. intros v Hty Hlen. destruct v; try done.
    eexists _, _, _, _, _. split; [by apply (list_splits (concat (map rlp l)))|]. intros s r stk Hh Hn.
    pose proof (at_head_length _ _ _ _ _ _ _ _ _ Hh Hn). eapply yields_map; [|done].
    eapply slice_yields; [done|by apply Hreads|by apply peeks_decode|done..|lia].
  - destruct Hv as [Hv Ht]. specialize (IHt Hv). rewrite Ht in IHt.
    apply decodes_head; [by apply peeks_decode|]. intros v Hty Hlen. destruct v; try done. destruct Hty as [<- Hty].
    eexists _, _, _, _, _. split; [by apply (list_splits (concat (map rlp l)))|]. intros s r stk Hh Hn.
    pose proof (at_head_length _ _ _ _ _ _ _ _ _ Hh Hn). eapply yields_map; [|done].
    eapply list_yields; [done|]. intros s' stk' Hr. eapply array_yields; [done..|lia].
  - destruct Hv as [Hv Ht]. specialize (IHt Hv). rewrite Ht in IHt. by apply tail_yields.
  - apply decodes_head; [by apply peeks_decode|]. intros v Hty Hlen. destruct v as [| | | | | | | | | |fs| |]; try done.
    eexists _, _, _, _, _. split; [by apply (list_splits (concat (map rlp fs)))|]. intros s r stk Hh Hn.
    pose proof (at_head_length _ _ _ _ _ _ _ _ _ Hh Hn). rewrite decode_struct.
    assert (yields r (charge (len (concat (map rlp fs))) stk) fs
      ((_ ← wrapped Stream_List; l ← fields (S fuel) ts; _ ← wrapped Stream_ListEnd; dec_ret l) s)) as (s' & He & Hr).
    { eapply list_yields; [done|]. intros s' stk' Hr. apply fields_yields; [|done..|lia].
      apply valid_fields in Hv. rewrite Forall_forall in *. intros t Hin. by apply H, Hv. }
    exists s'. split; [|done]. revert He. unfold mbind, Dec_bind, dec_wrap, dec_try.
    destruct (Stream_List s) as [[[e|x] s1]|]; [done| |done]. cbn.
    destruct (fields (S fuel) ts s1) as [[[e|l] s2]|]; [done| |done].
    destruct (Stream_ListEnd s2) as [[[e|[]] s3]|]; [done| |done]. by intros [= -> ->].
  - destruct Hv as (Hk & Hv & Ht). specialize (IHt Hv). rewrite Ht in IHt. by apply ptr_decodes.
  - intros v s r stk. apply interface_decodes.
Qed.

Lemma DecodeBytes_rlp t v :
  valid t → tail t = false → typed t v → len (rlp v) < 2 ^ 64 → DecodeBytes (rlp v) t = Some (inr v).
Proof.
  intros Hv Ht Hty Hlen. pose proof (decode_complete (length (rlp v)) t Hv) as Hd. unfold decodes_at in Hd. rewrite Ht in Hd.
  assert (input (rlp v)) as Hi by (split; [apply wf_bytes; [by apply (typed_wf t)|done]|done]).
  assert (ready (Stream_Reset (rlp v) (len (rlp v))) (rlp v ++ []) []) as Hr by (rewrite app_nil_r; by apply ready_Reset).
  destruct (Hd v _ [] [] Hty Hr eq_refl) as (s' & He & [(size & err & bv & ->) _]); [rewrite app_nil_r; lia|].
  unfold DecodeBytes. by rewrite He.
Qed.

(** * raw.go: the first value of an input *)

Section splitting.

Lemma readSize_min_be n r : 56 ≤ n < 2 ^ 64 → readSize (min_be n ++ r) (nbytes n) = Ret (inr n).
Proof.
  intros Hn. unfold readSize. pose proof (len_min_be n) as Hl. pose proof (len_0 r) as Hr. pose proof (nbytes_range n ltac:(lia)) as Hb.
  rewrite len_app, Hl. destruct (Z.ltb_spec (nbytes n + len r) (nbytes n)); [lia|].
  replace (Z.to_nat (nbytes n)) with (length (min_be n)) by (unfold len in Hl; lia). rewrite take_app_length.
  rewrite be_val_min_be by lia. destruct (Z.ltb_spec n 56); [lia|]. pose proof (canon_min_be n ltac:(lia)) as Hc.
  destruct (min_be n) as [|x l]; [unfold len in Hl; cbn in Hl; lia|]. cbn in Hc. change (index ((x :: l) ++ r) 0) with (Ret x). cbn [mbind Go_bind]. by rewrite (proj2 (Z.eqb_neq _ _) Hc).
Qed.

(** The kinds of values with heads. *)
Definition head_of (k : Kind) (n : Z) : bytes :=
  match k with KByte => [] | KString => rlp_head 128 183 n | KList => rlp_head 192 247 n end.

Lemma readKind_head k n x : k ≠ KByte → 0 ≤ n ≤ len x → len x < 2 ^ 62 → ¬ (k = KString ∧ n = 1 ∧ default 0 (head x) < 128) →
  readKind (head_of k n ++ x) = Ret (inr (k, len (head_of k n), n)).
Proof.
  intros Hk Hn Hx Hc.
  assert (∀ h : bytes, (wrapU 64 (len (h ++ x) - len h) <? n) = false) as Hw.
  { intros h. rewrite len_app. replace (len h + len x - len h) with (len x) by lia. rewrite wrapU_small by lia. apply Z.ltb_ge. lia. }
  destruct (Z.lt_ge_cases n 56) as [Hs|Hb].
  - destruct k; [done| |]; cbn [head_of]; rewrite rlp_head_small by done; cbn [app readKind].
    + destruct (Z.ltb_spec (128 + n) 128); [lia|]. destruct (Z.ltb_spec (128 + n) 184); [|lia].
      replace (128 + n - 128) with n by lia.
      assert ((n =? 1) && (1 <? len (128 + n :: x)) && (default 0 ((128 + n :: x) !! 1%nat) <? 128) = false) as ->.
      { destruct (Z.eqb_spec n 1) as [->|]; [|done]. destruct x as [|y x]; [done|]. cbn in Hc |- *.
        destruct (Z.ltb_spec y 128); [|by rewrite andb_false_r]. exfalso. by apply Hc. }
      cbn [mbind Go_bind]. pose proof (Hw [128 + n]) as E. cbn [app] in E. change (len [128 + n]) with 1 in E. by rewrite E.
    + destruct (Z.ltb_spec (192 + n) 128); [lia|]. destruct (Z.ltb_spec (192 + n) 184); [lia|].
      destruct (Z.ltb_spec (192 + n) 192); [lia|]. destruct (Z.ltb_spec (192 + n) 248); [|lia].
      replace (192 + n - 192) with n by lia.
      cbn [mbind Go_bind]. pose proof (Hw [192 + n]) as E. cbn [app] in E. change (len [192 + n]) with 1 in E. by rewrite E.
  - pose proof (nbytes_range n ltac:(lia)) as Hnb.
    destruct k; [done| |]; cbn [head_of]; rewrite rlp_head_large by done.
    + pose proof (Hw (183 + nbytes n :: min_be n)) as E. rewrite (len_cons _ (min_be n)), len_min_be in *. cbn [app readKind] in *.
      destruct (Z.ltb_spec (183 + nbytes n) 128); [lia|]. destruct (Z.ltb_spec (183 + nbytes n) 184); [lia|].
      destruct (Z.ltb_spec (183 + nbytes n) 192); [|lia]. replace (183 + nbytes n - 183) with (nbytes n) by lia.
      rewrite readSize_min_be by lia. cbn [mbind Go_bind]. rewrite (Z.add_comm (nbytes n)). by rewrite E.
    + pose proof (Hw (247 + nbytes n :: min_be n)) as E. rewrite (len_cons _ (min_be n)), len_min_be in *. cbn [app readKind] in *.
      destruct (Z.ltb_spec (247 + nbytes n) 128); [lia|]. destruct (Z.ltb_spec (247 + nbytes n) 184); [lia|].
      destruct (Z.ltb_spec (247 + nbytes n) 192); [lia|]. destruct (Z.ltb_spec (247 + nbytes n) 248); [lia|].
      replace (247 + nbytes n - 247) with (nbytes n) by lia.
      rewrite readSize_min_be by lia. cbn [mbind Go_bind]. rewrite (Z.add_comm (nbytes n)). by rewrite E.
Qed.

Lemma Split_head k b h c r : readKind b = Ret (inr (k, len h, len c)) → b = h ++ c ++ r → len b < 2 ^ 63 → Split b = Ret (inr (k, c, r)).
Proof.
  intros E Eb Hb. unfold Split. rewrite E. cbn [mbind Go_bind]. subst b. rewrite !len_app in Hb.
  pose proof (len_0 h). pose proof (len_0 c). pose proof (len_0 r). rewrite wrapU_small by lia.
  unfold subslice. rewrite !len_app, !(proj2 (Z.leb_le _ _)) by lia. cbn [andb mbind Go_bind].
  replace (len h + len c - len h) with (len c) by lia. rewrite (Z.sub_add_distr _ (len h)), Z.add_simpl_l.
  replace (len c + len r - len c) with (len r) by lia. unfold len. rewrite <- Nat2Z.inj_add, !Nat2Z.id.
  rewrite drop_app_length, take_app_length. rewrite app_assoc, <- length_app, drop_app_length. by rewrite firstn_all.
Qed.

Lemma readKind_list c r : len (c ++ r) < 2 ^ 62 →
  readKind (rlp_list c ++ r) = Ret (inr (KList, len (head_of KList (len c)), len c)).
Proof.
  intros Hl. pose proof (len_0 r). pose proof (len_0 c). unfold rlp_list. rewrite <- app_assoc. rewrite len_app in Hl.
  apply (readKind_head KList); rewrite ?len_app; try done; try lia. by intros [? _].
Qed.

Lemma readKind_string b r : Forall is_byte b → len (b ++ r) < 2 ^ 62 →
  ∃ k h, readKind (rlp_string b ++ r) = Ret (inr (k, len h, len b)) ∧ rlp_string b = h ++ b ∧ (k = KString ∨ k = KByte ∧ len b = 1).
Proof.
  intros Hb Hl. pose proof (len_0 r) as Hr. pose proof (len_0 b). rewrite len_app in Hl.
  destruct (decide (len b = 1 ∧ default 0 (head b) < 128)) as [[H1 Hx]|Hn].
  - destruct b as [|x [|y b]]; [done| |unfold len in H1; cbn [length] in H1; lia]. apply Forall_cons in Hb as [Hb _]. unfold is_byte in Hb.
    cbn in Hx. exists KByte, []. split; [|split; [cbn; by destruct (Z.ltb_spec x 128); [|lia]|by right]].
    cbn [rlp_string]. destruct (Z.ltb_spec x 128); [|lia]. cbn [app readKind]. destruct (Z.ltb_spec x 128); [|lia].
    cbn [mbind Go_bind]. rewrite len_cons, wrapU_small by lia. destruct (Z.ltb_spec (1 + len r - 0) 1); [lia|done].
  - exists KString, (head_of KString (len b)). rewrite rlp_string_head by done. rewrite <- app_assoc. split; [|split; [done|by left]].
    apply (readKind_head KString); rewrite ?len_app; try done; try lia. intros (_ & E & Hx). apply Hn. split; [done|].
    destruct b as [|x b]; [done|exact Hx].
Qed.

Lemma Split_list c r : len (c ++ r) < 2 ^ 62 → Split (rlp_list c ++ r) = Ret (inr (KList, c, r)).
Proof.
  intros Hl. rewrite len_app in Hl. pose proof (len_0 r). pose proof (len_0 c).
  apply (Split_head _ _ (head_of KList (len c))); [by apply readKind_list; rewrite len_app|unfold rlp_list; by rewrite <- app_assoc|].
  rewrite len_app. pose proof (len_rlp_list_le c ltac:(lia)). lia.
Qed.

Lemma Split_string b r : Forall is_byte b → len (b ++ r) < 2 ^ 62 →
  ∃ k, Split (rlp_string b ++ r) = Ret (inr (k, b, r)) ∧ (k = KString ∨ k = KByte ∧ len b = 1).
Proof.
  intros Hb Hl. destruct (readKind_string b r Hb Hl) as (k & h & E & Eb & Hk). exists k. split; [|done].
  apply (Split_head _ _ h); [done|by rewrite Eb, <- app_assoc|]. rewrite len_app in *.
  pose proof (len_0 r). pose proof (len_0 b). pose proof (len_rlp_string_le b ltac:(lia)). lia.
Qed.

Lemma SplitString_string b r : Forall is_byte b → len (b ++ r) < 2 ^ 62 → SplitString (rlp_string b ++ r) = Ret (inr (b, r)).
Proof. intros Hb Hl. unfold SplitString. by destruct (Split_string b r Hb Hl) as (k & -> & [-> | [-> _]]). Qed.

Lemma SplitList_list c r : len (c ++ r) < 2 ^ 62 → SplitList (rlp_list c ++ r) = Ret (inr (c, r)).
Proof. intros Hl. unfold SplitList. by rewrite Split_list. Qed.

(** The encoding of a string or of a list. *)
Definition item (e : bytes) : Prop := (∃ b, Forall is_byte b ∧ e = rlp_string b) ∨ ∃ c, e = rlp_list c.

Lemma item_readKind e r : item e → len (e ++ r) < 2 ^ 62 →
  ∃ k h c, readKind (e ++ r) = Ret (inr (k, len h, len c)) ∧ e = h ++ c ∧ e ≠ [].
Proof.
  rewrite len_app. intros [(b & Hb & ->)|(c & ->)] Hl.
  - pose proof (len_rlp_string b). destruct (readKind_string b r Hb) as (k & h & E & Eb & Hk); [rewrite len_app; lia|].
    exists k, h, b. split; [done|]. split; [done|]. destruct b as [|x [|y b]]; [done|cbn; by destruct (x <? 128)|]. cbn [rlp_string]. unfold rlp_head. by destruct (_ <? _).
  - pose proof (len_rlp_list c). eexists KList, _, c. split; [apply readKind_list; rewrite len_app; lia|]. split; [done|].
    unfold rlp_list, rlp_head. by destruct (_ <? _).
Qed.

Lemma CountValues_items l : Forall item l → len (concat l) < 2 ^ 62 → CountValues (concat l) = Some (Ret (inr (Z.of_nat (length l)))).
Proof.
  intros Hi. unfold CountValues. assert (∀ fuel i, (length (concat l) < fuel)%nat → len (concat l) < 2 ^ 62 →
    CountValues_loop fuel (concat l) i = Some (Ret (inr (i + Z.of_nat (length l))))) as Hloop; [|intros; apply Hloop; lia].
  induction Hi as [|e l He _ IH]; intros fuel i Hf Hl; (destruct fuel as [|fuel]; [lia|]).
  - cbn. by rewrite Z.add_0_r.
  - cbn [concat] in *. destruct (item_readKind e (concat l) He Hl) as (k & h & c & E & Ee & Hne).
    rewrite len_app in Hl. rewrite length_app in Hf. pose proof (len_0 (concat l)). pose proof (len_0 h). pose proof (len_0 c).
    assert (1 ≤ len e) by (destruct e; [done|rewrite len_cons; pose proof (len_0 e); lia]).
    cbn [CountValues_loop]. rewrite len_app. destruct (Z.eqb_spec (len e + len (concat l)) 0); [lia|]. rewrite E.
    assert (len h + len c = len e) as Ehc by (by rewrite Ee, len_app). rewrite Ehc, wrapU_small by lia. unfold subslice.
    rewrite len_app, !(proj2 (Z.leb_le _ _)) by lia. cbn [andb]. replace (len e + len (concat l) - len e) with (len (concat l)) by lia.
    unfold len at 1 2. rewrite !Nat2Z.id, drop_app_length, firstn_all. unfold len in *. rewrite IH by lia. cbn [length]. do 3 f_equal. lia.
Qed.
(** Whatever the input, splitting does not panic and stays within it. *)
Lemma readSize_range b n : Forall is_byte b → ∃ r, readSize b n = Ret r ∧ ∀ s, r = inr s → 56 ≤ s ∧ n ≤ len b.
Proof.
  intros Hb. unfold readSize. destruct (Z.ltb_spec (len b) n); [by eexists|]. destruct (Z.ltb_spec (be_val (take (Z.to_nat n) b)) 56); [by eexists|].
  destruct b as [|x b].
  - destruct (Z.to_nat n); cbn in *; lia.
  - change (index (x :: b) 0) with (Ret x). cbn [mbind Go_bind]. destruct (x =? 0); [by eexists|]. eexists. split; [done|].
    intros s [= <-]. lia.
Qed.

Lemma readKind_range b : Forall is_byte b → len b < 2 ^ 63 → ∃ r, readKind b = Ret r ∧
  ∀ k ts cs, r = inr (k, ts, cs) → 0 ≤ ts ∧ 0 ≤ cs ∧ 1 ≤ ts + cs ≤ len b ∧ (k = KList → 1 ≤ ts).
Proof.
  intros Hb Hl. destruct b as [|x b]; [by eexists|]. apply Forall_cons in Hb as [Hx Hb]. unfold is_byte in Hx. rewrite len_cons in Hl.
  pose proof (len_0 b). cbn [readKind].
  assert (∀ k ts cs, 0 ≤ ts ≤ 1 + len b → 0 ≤ cs → 1 ≤ ts + cs → (k = KList → 1 ≤ ts) → ∃ r, (Ret (inr (k, ts, cs)) ≫= λ r : RlpError + (Kind * Z * Z), match r with
    | inl err => Ret (inl err)
    | inr (k, tagsize, contentsize) =>
        if wrapU 64 (len (x :: b) - tagsize) <? contentsize then Ret (inl ErrValueTooLarge) else Ret (inr (k, tagsize, contentsize)) end) = Ret r ∧
    ∀ k ts cs, r = inr (k, ts, cs) → 0 ≤ ts ∧ 0 ≤ cs ∧ 1 ≤ ts + cs ≤ len (x :: b) ∧ (k = KList → 1 ≤ ts)) as Hend.
  { intros k ts cs Hts Hcs H1 Hk. cbn [mbind Go_bind]. rewrite len_cons, wrapU_small by lia.
    destruct (Z.ltb_spec (1 + len b - ts) cs); [by eexists|]. eexists. split; [done|]. intros k' ts' cs' [= <- <- <-]. split_and!; try lia. done. }
  assert (∀ k n, 0 < n → ∃ r, ((r ← readSize b n; Ret (match r with inl err => inl err | inr s => inr (k, n + 1, s) end)) ≫= λ r : RlpError + (Kind * Z * Z), match r with
    | inl err => Ret (inl err)
    | inr (k, tagsize, contentsize) =>
        if wrapU 64 (len (x :: b) - tagsize) <? contentsize then Ret (inl ErrValueTooLarge) else Ret (inr (k, tagsize, contentsize)) end) = Ret r ∧
    ∀ k ts cs, r = inr (k, ts, cs) → 0 ≤ ts ∧ 0 ≤ cs ∧ 1 ≤ ts + cs ≤ len (x :: b) ∧ (k = KList → 1 ≤ ts)) as Hlong.
  { intros k n Hn. destruct (readSize_range b n Hb) as ([e|s] & -> & Hs); cbn [mbind Go_bind]; [by eexists|].
    destruct (Hs s eq_refl). apply (Hend k (n + 1) s); lia. }
  destruct (Z.ltb_spec x 128); [apply (Hend KByte 0 1); (lia || done)|]. destruct (Z.ltb_spec x 184).
  { destruct (_ && _); [by eexists|]. apply (Hend KString 1 (x - 128)); (lia || done). }
  destruct (Z.ltb_spec x 192); [apply (Hlong KString); lia|]. destruct (Z.ltb_spec x 248); [apply (Hend KList 1 (x - 192)); lia|].
  apply (Hlong KList). lia.
Qed.

Lemma subslice_rest b n : 0 ≤ n ≤ len b → subslice b n (len b) = Ret (drop (Z.to_nat n) b).
Proof.
  intros Hn. unfold subslice. rewrite !(proj2 (Z.leb_le _ _)) by lia. cbn [andb]. rewrite take_ge; [done|]. rewrite length_drop. unfold len. lia.
Qed.

Lemma Split_total b : Forall is_byte b → len b < 2 ^ 63 → ∃ r, Split b = Ret r ∧
  ∀ k val rest, r = inr (k, val, rest) → Forall is_byte val ∧ Forall is_byte rest ∧
    (length val ≤ length b)%nat ∧ (length rest < length b)%nat ∧ (k = KList → (length val < length b)%nat).
Proof.
  intros Hb Hl. unfold Split. destruct (readKind_range b Hb Hl) as ([e|[[k ts] cs]] & -> & Hr); cbn [mbind Go_bind]; [by eexists|].
  destruct (Hr _ _ _ eq_refl) as (Hts & Hcs & Hsum & Hk). rewrite wrapU_small by lia. rewrite subslice_rest by lia.
  unfold subslice. rewrite !(proj2 (Z.leb_le _ _)) by lia. cbn [andb mbind Go_bind]. eexists. split; [done|]. intros k' val rest [= <- <- <-].
  split; [by apply Forall_take, Forall_drop|]. split; [by apply Forall_drop|]. rewrite length_take, !length_drop. unfold len in *.
  split; [lia|]. split; [lia|]. intros E. specialize (Hk E). lia.
Qed.

Lemma CountValues_total b : Forall is_byte b → len b < 2 ^ 63 → ∃ r, CountValues b = Some (Ret r).
Proof.
  intros Hb Hl. unfold CountValues. assert (∀ fuel i, (length b < fuel)%nat → ∃ r, CountValues_loop fuel b i = Some (Ret r)) as Hloop; [|apply Hloop; lia].
  intros fuel. revert b Hb Hl. induction fuel as [|fuel IH]; intros b Hb Hl i Hf; [lia|]. cbn [CountValues_loop].
  destruct (len b =? 0); [by eexists|]. destruct (readKind_range b Hb Hl) as ([e|[[k ts] cs]] & -> & Hr); [by eexists|].
  destruct (Hr _ _ _ eq_refl) as (Hts & Hcs & Hsum & _). rewrite wrapU_small, subslice_rest by lia.
  apply IH; [by apply Forall_drop| |]; unfold len in *; rewrite length_drop; lia.
Qed.
End splitting.
