(* ===== verification/RlpSpec.v ===== *)
(** * Properties of the RLP codec *)

From S2P Require Import Prelude Common Uint256 Machine VmFacts Rlp RlpFacts RlpDecode RlpStreamFacts RlpDecodeFacts RlpRoundTrip.

(** A nested list whose head and content exceed the list around it by the head:
    [Kind] compares with the limit before the head was read, and the limit of the
    outer list wraps around in [List]. *)
Lemma List_limit_underflow :
  option_map (λ x, st_stack (snd x)) ((_ ← Stream_List; Stream_List) (Stream_Reset [193; 193; 5] 3))
  = Some [1; 18446744073709551615].
Proof. vm_compute. reflexivity. Qed.

(** A transaction-like struct: a nonce, an optional address, an amount, data, a
    list of pairs and a signature flag. *)
Definition demo_type : rtype :=
  TStruct [TUint 64; TPtr true KString (TByteArray 20); TBigPtr; TBytes;
    TSlice (TStruct [TByteArray 20; TSlice (TByteArray 32)]); TBool; TTail TInterface].
Definition demo_value : rval :=
  VStruct [VUint 1024; VPtr KString None; VBigPtr (Some (2 ^ 70)); VBytes (replicate 60 7);
    VSlice [VStruct [VByteArray (replicate 20 1); VSlice [VByteArray (replicate 32 2); VByteArray (replicate 32 0)]]];
    VBool true; VTail [VBytes [127]; VSlice [VBytes [128]; VSlice []]]].

Lemma demo_valid : valid demo_type.
Proof. cbn. repeat split; auto; done. Qed.
Lemma demo_typed : typed demo_type demo_value.
Proof.
  cbn. repeat split; try done; try lia; repeat constructor; unfold is_byte; lia.
Qed.

(** the encoder, which writes the strings of a value to one buffer and
    inserts the heads of its lists afterwards, returns the recursive encoding of
    the value: strings and lists with minimal heads, numbers without leading
    zeros. *)
Theorem EncodeToBytes_is_rlp v : wf v → len (rlp v) < 2 ^ 64 → EncodeToBytes v = Ret (inr (rlp v)).
Proof. apply EncodeToBytes_rlp. Qed.

Lemma EncodeToBytes_is_rlp_witness :
  EncodeToBytes demo_value = Ret (inr (rlp demo_value)).
Proof.
  apply EncodeToBytes_is_rlp; [|vm_compute; reflexivity].
  exact (typed_wf _ _ demo_valid demo_typed).
Defined.

(** C26: a value of a type is decoded from its encoding. *)
Theorem encode_decode t v :
  valid t → tail t = false → typed t v → len (rlp v) < 2 ^ 64 →
  ∃ b, EncodeToBytes v = Ret (inr b) ∧ DecodeBytes b t = Some (inr v).
Proof.
  intros Hv Ht Hty Hlen. exists (rlp v). split; [|by apply DecodeBytes_rlp].
  apply EncodeToBytes_rlp; [by apply (typed_wf t)|done].
Qed.

Lemma encode_decode_witness :
  ∃ b, EncodeToBytes demo_value = Ret (inr b) ∧ DecodeBytes b demo_type = Some (inr demo_value).
Proof.
  apply encode_decode; [exact demo_valid|reflexivity|exact demo_typed|vm_compute; reflexivity].
Defined.

(** C27: decoding terminates on every input, and what it accepts is canonical: a
    value is decoded from no other bytes than its encoding. *)
Theorem decode_canonical t b :
  valid t → tail t = false → Forall is_byte b → len b < 2 ^ 64 →
  ∃ r, DecodeBytes b t = Some r ∧ ∀ v, r = inr v → typed t v ∧ EncodeToBytes v = Ret (inr b).
Proof.
  intros Hv Ht Hb Hlen.
  destruct (DecodeBytes_cases t b Hv Ht (conj Hb Hlen)) as [(e & He)|(v & He & Hty & ->)]; eexists; (split; [done|]).
  - done.
  - intros u [= <-]. split; [done|]. apply EncodeToBytes_rlp; [by apply (typed_wf t)|done].
Qed.

Lemma decode_canonical_witness :
  ∃ r, DecodeBytes [194; 129; 200] (TSlice (TUint 64)) = Some r ∧
    ∀ v, r = inr v → typed (TSlice (TUint 64)) v ∧ EncodeToBytes v = Ret (inr [194; 129; 200]).
Proof.
  apply decode_canonical; [cbn; tauto|reflexivity| |reflexivity].
  repeat constructor; unfold is_byte; lia.
Defined.
