(* ===== verification/State.v ===== *)
(** * core/state: the journaled state

    Accounts are read from a trie once and then live in [stateObjects]; every
    change appends an entry to a journal, and reverting to a snapshot undoes the
    entries above it.  A pointer to a live object is its address; the journal
    entry of a replaced object holds the object itself, which nothing else reaches.
    Snapshots of the trie ([snaps]), the prefetcher and the metrics are off, as in
    the replay of substates. *)

From S2P Require Import Prelude Common Uint256 Machine Vm Rlp RlpDecode.

(** ** database.go: the tries and the code behind the state *)

Class Database := {
  Trie : Type;
  OpenStorageTrie : Hash → Hash → string + Trie;
  (** the storage trie of the zero root, which needs no lookup *)
  OpenEmptyTrie : Hash → Trie;
  TryGet : Trie → bytes → string + bytes;
  TryUpdate : Trie → bytes → bytes → option string * Trie;
  TryDelete : Trie → bytes → option string * Trie;
  TrieHash : Trie → Hash;
  (** the root, or the error of writing the nodes *)
  TrieCommit : Trie → (string + Hash) * Trie;
  ContractCode : Hash → Hash → option bytes * option string;
  ContractCodeSize : Hash → Hash → Z * option string
}.

(** ** access_list.go: [slots] of an address is an index, -1 when it has none *)

Record accessList := { al_addresses : gmap Address Z; al_slots : list (gset Hash) }.

Definition newAccessList : accessList := {| al_addresses := ∅; al_slots := [] |}.

Definition ContainsAddress (al : accessList) (address : Address) : bool :=
  bool_decide (is_Some (al_addresses al !! address)).

Definition slot_map (al : accessList) (idx : Z) : Go (gset Hash) :=
  match (if idx <? 0 then None else al_slots al !! Z.to_nat idx) with
  | None => Panic IndexOutOfRange
  | Some m => Ret m
  end.

Definition Contains (al : accessList) (address : Address) (slot : Hash) : Go (bool * bool) :=
  match al_addresses al !! address with
  | None => Ret (false, false)
  | Some idx =>
      if idx =? -1 then Ret (true, false)
      else m ← slot_map al idx; Ret (true, bool_decide (slot ∈ m))
  end.

Definition AddAddress (al : accessList) (address : Address) : accessList * bool :=
  match al_addresses al !! address with
  | Some _ => (al, false)
  | None => ({| al_addresses := <[address := -1]> (al_addresses al); al_slots := al_slots al |}, true)
  end.

Definition add_slot_map (al : accessList) (address : Address) (slot : Hash) : accessList :=
  {| al_addresses := <[address := Z.of_nat (length (al_slots al))]> (al_addresses al);
     al_slots := al_slots al ++ [{[slot]}] |}.

Definition AddSlot (al : accessList) (address : Address) (slot : Hash) : Go (accessList * bool * bool) :=
  match al_addresses al !! address with
  | None => Ret (add_slot_map al address slot, true, true)
  | Some idx =>
      if idx =? -1 then Ret (add_slot_map al address slot, false, true)
      else
        m ← slot_map al idx;
        Ret (if decide (slot ∈ m) then (al, false, false)
             else ({| al_addresses := al_addresses al;
                      al_slots := <[Z.to_nat idx := {[slot]} ∪ m]> (al_slots al) |}, false, true))
  end.

Definition DeleteSlot (al : accessList) (address : Address) (slot : Hash) : Go accessList :=
  match al_addresses al !! address with
  | None => Panic ExplicitPanic
  | Some idx =>
      m ← slot_map al idx;
      let m := m ∖ {[slot]} in
      Ret (if decide (m = ∅) then
             {| al_addresses := <[address := -1]> (al_addresses al); al_slots := take (Z.to_nat idx) (al_slots al) |}
           else {| al_addresses := al_addresses al; al_slots := <[Z.to_nat idx := m]> (al_slots al) |})
  end.

Definition DeleteAddress (al : accessList) (address : Address) : accessList :=
  {| al_addresses := delete address (al_addresses al); al_slots := al_slots al |}.

(** ** research/substate.go: what a transaction touches *)

Record SubstateAccount := { sub_Nonce : Z; sub_Balance : Z; sub_Storage : gmap Hash Hash; sub_Code : bytes }.

Definition NewSubstateAccount (nonce balance : Z) (code : bytes) : SubstateAccount :=
  {| sub_Nonce := nonce; sub_Balance := balance; sub_Storage := ∅; sub_Code := code |}.

Definition set_sub_Storage (f : gmap Hash Hash → gmap Hash Hash) (a : SubstateAccount) : SubstateAccount :=
  {| sub_Nonce := sub_Nonce a; sub_Balance := sub_Balance a; sub_Storage := f (sub_Storage a); sub_Code := sub_Code a |}.

Section state.
Context `{Externals, !Database}.

(** ** state_object.go: data *)

(** The hash of no code, and the root of an empty trie. *)
Definition emptyCodeHash : bytes := Keccak256 [].
Definition emptyRoot : Hash := 0x56e81f171bcc55a6ff8345e692c0f86e5b48e01b996cadc001622fb5e363b421.

(** core/types/state_account.go *)
Record StateAccount := mkAccount { Nonce : Z; Balance : Z; Root : Hash; CodeHash : bytes }.

(** [None] for a slice of code is nil. *)
Record stateObject := mkObject {
  so_address : Address;
  so_addrHash : Hash;
  so_data : StateAccount;
  so_dbErr : option string;
  so_trie : option Trie;
  so_code : option bytes;
  originStorage : gmap Hash Hash;
  pendingStorage : gmap Hash Hash;
  dirtyStorage : gmap Hash Hash;
  fakeStorage : option (gmap Hash Hash);
  dirtyCode : bool;
  suicided : bool;
  deleted : bool;
  ResearchTouched : gset Hash
}.

Definition set_data (f : StateAccount → StateAccount) (o : stateObject) : stateObject :=
  mkObject (so_address o) (so_addrHash o) (f (so_data o)) (so_dbErr o) (so_trie o) (so_code o) (originStorage o)
    (pendingStorage o) (dirtyStorage o) (fakeStorage o) (dirtyCode o) (suicided o) (deleted o) (ResearchTouched o).
Definition set_trie (t : option Trie) (o : stateObject) : stateObject :=
  mkObject (so_address o) (so_addrHash o) (so_data o) (so_dbErr o) t (so_code o) (originStorage o)
    (pendingStorage o) (dirtyStorage o) (fakeStorage o) (dirtyCode o) (suicided o) (deleted o) (ResearchTouched o).
Definition set_code (c : option bytes) (o : stateObject) : stateObject :=
  mkObject (so_address o) (so_addrHash o) (so_data o) (so_dbErr o) (so_trie o) c (originStorage o)
    (pendingStorage o) (dirtyStorage o) (fakeStorage o) (dirtyCode o) (suicided o) (deleted o) (ResearchTouched o).
Definition set_storage (origin pending dirty : gmap Hash Hash) (o : stateObject) : stateObject :=
  mkObject (so_address o) (so_addrHash o) (so_data o) (so_dbErr o) (so_trie o) (so_code o) origin pending dirty
    (fakeStorage o) (dirtyCode o) (suicided o) (deleted o) (ResearchTouched o).
Definition set_fake (f : option (gmap Hash Hash)) (o : stateObject) : stateObject :=
  mkObject (so_address o) (so_addrHash o) (so_data o) (so_dbErr o) (so_trie o) (so_code o) (originStorage o)
    (pendingStorage o) (dirtyStorage o) f (dirtyCode o) (suicided o) (deleted o) (ResearchTouched o).
Definition set_dirtyCode (b : bool) (o : stateObject) : stateObject :=
  mkObject (so_address o) (so_addrHash o) (so_data o) (so_dbErr o) (so_trie o) (so_code o) (originStorage o)
    (pendingStorage o) (dirtyStorage o) (fakeStorage o) b (suicided o) (deleted o) (ResearchTouched o).
Definition set_suicided (b : bool) (o : stateObject) : stateObject :=
  mkObject (so_address o) (so_addrHash o) (so_data o) (so_dbErr o) (so_trie o) (so_code o) (originStorage o)
    (pendingStorage o) (dirtyStorage o) (fakeStorage o) (dirtyCode o) b (deleted o) (ResearchTouched o).
Definition set_deleted (b : bool) (o : stateObject) : stateObject :=
  mkObject (so_address o) (so_addrHash o) (so_data o) (so_dbErr o) (so_trie o) (so_code o) (originStorage o)
    (pendingStorage o) (dirtyStorage o) (fakeStorage o) (dirtyCode o) (suicided o) b (ResearchTouched o).
Definition set_touched (k : gset Hash) (o : stateObject) : stateObject :=
  mkObject (so_address o) (so_addrHash o) (so_data o) (so_dbErr o) (so_trie o) (so_code o) (originStorage o)
    (pendingStorage o) (dirtyStorage o) (fakeStorage o) (dirtyCode o) (suicided o) (deleted o) k.

(** The first error is kept. *)
Definition setError (err : string) (o : stateObject) : stateObject :=
  mkObject (so_address o) (so_addrHash o) (so_data o)
    (match so_dbErr o with None => Some err | Some e => Some e end) (so_trie o) (so_code o) (originStorage o)
    (pendingStorage o) (dirtyStorage o) (fakeStorage o) (dirtyCode o) (suicided o) (deleted o) (ResearchTouched o).
Definition set_error_if (err : option string) (o : stateObject) : stateObject :=
  match err with None => o | Some err => setError err o end.

Definition set_Nonce (n : Z) (d : StateAccount) : StateAccount := mkAccount n (Balance d) (Root d) (CodeHash d).
Definition set_Balance (b : Z) (d : StateAccount) : StateAccount := mkAccount (Nonce d) b (Root d) (CodeHash d).
Definition set_Root (r : Hash) (d : StateAccount) : StateAccount := mkAccount (Nonce d) (Balance d) r (CodeHash d).
Definition set_CodeHash (h : bytes) (d : StateAccount) : StateAccount := mkAccount (Nonce d) (Balance d) (Root d) h.

(** The zero account has no code hash and no root: [newObject] fills them in.  A
    slice that is nil differs from an empty one: [nil_hash] says that the code
    hash is nil, as in the zero account and in no decoded one. *)
Definition newObject (address : Address) (nil_hash : bool) (data : StateAccount) : stateObject :=
  let code_hash := if nil_hash then emptyCodeHash else CodeHash data in
  let root := if Root data =? 0 then emptyRoot else Root data in
  mkObject address (Keccak256Hash (Address_Bytes address)) (mkAccount (Nonce data) (Balance data) root code_hash)
    None None None ∅ ∅ ∅ None false false false ∅.

Definition no_data : StateAccount := mkAccount 0 0 0 [].

Definition empty (o : stateObject) : bool :=
  (Nonce (so_data o) =? 0) && (Balance (so_data o) =? 0) && bool_decide (CodeHash (so_data o) = emptyCodeHash).

(** ** state_object.go: reading *)

Definition getTrie (o : stateObject) : stateObject * Trie :=
  match so_trie o with
  | Some t => (o, t)
  | None =>
      match OpenStorageTrie (so_addrHash o) (Root (so_data o)) with
      | inr t => (set_trie (Some t) o, t)
      | inl err =>
          let t := OpenEmptyTrie (so_addrHash o) in
          (setError (String.append "can't create storage trie: " err) (set_trie (Some t) o), t)
      end
  end.

(** [value.SetBytes(content)] of the string in the trie. *)
Definition slot_value (enc : bytes) : Go (Hash * option string) :=
  if 0 <? len enc then
    r ← Split enc;
    Ret (match r with
         | inl _ => (0, Some "rlp")
         | inr (_, content, _) => (BytesToHash content, None)
         end)
  else Ret (0, None).

Definition so_GetCommittedState (key : Hash) (o : stateObject) : Go (stateObject * Hash) :=
  match fakeStorage o with
  | Some fake => Ret (o, default 0 (fake !! key))
  | None =>
      match pendingStorage o !! key, originStorage o !! key with
      | Some value, _ => Ret (o, value)
      | None, Some value => Ret (o, value)
      | None, None =>
          let '(o, t) := getTrie o in
          match TryGet t (Hash_Bytes key) with
          | inl err => Ret (setError err o, 0)
          | inr enc =>
              '(value, err) ← slot_value enc;
              let o := set_error_if err o in
              Ret (set_storage (<[key := value]> (originStorage o)) (pendingStorage o) (dirtyStorage o) o, value)
          end
      end
  end.

Definition so_GetState (key : Hash) (o : stateObject) : Go (stateObject * Hash) :=
  let o := set_touched ({[key]} ∪ ResearchTouched o) o in
  match fakeStorage o with
  | Some fake => Ret (o, default 0 (fake !! key))
  | None =>
      match dirtyStorage o !! key with
      | Some value => Ret (o, value)
      | None => so_GetCommittedState key o
      end
  end.

Definition so_Code (o : stateObject) : stateObject * option bytes :=
  match so_code o with
  | Some c => (o, Some c)
  | None =>
      if bool_decide (CodeHash (so_data o) = emptyCodeHash) then (o, None)
      else
        let '(code, err) := ContractCode (so_addrHash o) (BytesToHash (CodeHash (so_data o))) in
        (set_code code (set_error_if err o), code)
  end.

Definition so_CodeSize (o : stateObject) : stateObject * Z :=
  match so_code o with
  | Some c => (o, len c)
  | None =>
      if bool_decide (CodeHash (so_data o) = emptyCodeHash) then (o, 0)
      else
        let '(size, err) := ContractCodeSize (so_addrHash o) (BytesToHash (CodeHash (so_data o))) in
        (set_error_if err o, size)
  end.

(** ** journal.go and statedb.go: data *)

Inductive journalEntry :=
| createObjectChange (account : Address)
| resetObjectChange (prev : stateObject)
| suicideChange (account : Address) (prev : bool) (prevbalance : Z)
| balanceChange (account : Address) (prev : Z)
| nonceChange (account : Address) (prev : Z)
| storageChange (account : Address) (key prevalue : Hash)
| codeChange (account : Address) (prevcode : option bytes) (prevhash : bytes)
| refundChange (prev : Z)
| addLogChange (txhash : Hash)
| addPreimageChange (hash : Hash)
| touchChange (account : Address)
| accessListAddAccountChange (address : Address)
| accessListAddSlotChange (address : Address) (slot : Hash).

Definition dirtied (e : journalEntry) : option Address :=
  match e with
  | createObjectChange a | suicideChange a _ _ | balanceChange a _ | nonceChange a _ | storageChange a _ _
  | codeChange a _ _ | touchChange a => Some a
  | _ => None
  end.

Record journal := mkJournal { entries : list journalEntry; dirties : gmap Address Z }.
Definition newJournal : journal := mkJournal [] ∅.

Definition dirty (addr : Address) (j : journal) : journal :=
  mkJournal (entries j) (<[addr := default 0 (dirties j !! addr) + 1]> (dirties j)).

Definition journal_append (e : journalEntry) (j : journal) : journal :=
  let j := mkJournal (entries j ++ [e]) (dirties j) in
  match dirtied e with Some addr => dirty addr j | None => j end.

Record revision := mkRevision { rev_id : Z; journalIndex : Z }.

Record statedb := mkState {
  trie : Trie;
  stateObjects : gmap Address stateObject;
  stateObjectsPending : gset Address;
  stateObjectsDirty : gset Address;
  dbErr : option string;
  refund : Z;
  thash : Hash;
  txIndex : Z;
  logs : gmap Hash (list Log);
  logSize : Z;
  preimages : gmap Hash bytes;
  access : accessList;
  jrnl : journal;
  validRevisions : list revision;
  nextRevisionId : Z;
  ResearchPreAlloc : gmap Address (option SubstateAccount);
  ResearchPostAlloc : gmap Address SubstateAccount;
  ResearchBlockHashes : gmap Z Hash
}.
End state.
