(* ===== verification/Statedb.v ===== *)
(** * core/state/statedb.go and journal.go: operations

    An operation is a function on the state that may panic ([DB]).  Reading an
    account loads it, and records it in the substate of the transaction. *)

From S2P Require Import Prelude Common Uint256 Machine Vm Rlp RlpDecode State.

Section statedb.
Context `{Externals, !Database}.

Definition DB (A : Type) : Type := statedb → Go (A * statedb).
#[export] Instance DB_ret : MRet DB := λ A a s, Ret (a, s).
#[export] Instance DB_bind : MBind DB := λ A B k m s, '(a, s) ← m s; k a s.
Definition db_get {A} (f : statedb → A) : DB A := λ s, Ret (f s, s).
Definition db_modify (f : statedb → statedb) : DB () := λ s, Ret (tt, f s).
Definition db_go {A} (m : Go A) : DB A := λ s, a ← m; Ret (a, s).

Definition set_stateObjects (f : gmap Address stateObject → gmap Address stateObject) (s : statedb) : statedb :=
  mkState (trie s) (f (stateObjects s)) (stateObjectsPending s) (stateObjectsDirty s) (dbErr s) (refund s) (thash s)
    (txIndex s) (logs s) (logSize s) (preimages s) (access s) (jrnl s) (validRevisions s) (nextRevisionId s)
    (ResearchPreAlloc s) (ResearchPostAlloc s) (ResearchBlockHashes s).
Definition set_marks (pending dirty : gset Address) (s : statedb) : statedb :=
  mkState (trie s) (stateObjects s) pending dirty (dbErr s) (refund s) (thash s)
    (txIndex s) (logs s) (logSize s) (preimages s) (access s) (jrnl s) (validRevisions s) (nextRevisionId s)
    (ResearchPreAlloc s) (ResearchPostAlloc s) (ResearchBlockHashes s).
Definition set_dbErr (err : string) (s : statedb) : statedb :=
  mkState (trie s) (stateObjects s) (stateObjectsPending s) (stateObjectsDirty s)
    (match dbErr s with None => Some err | Some e => Some e end) (refund s) (thash s)
    (txIndex s) (logs s) (logSize s) (preimages s) (access s) (jrnl s) (validRevisions s) (nextRevisionId s)
    (ResearchPreAlloc s) (ResearchPostAlloc s) (ResearchBlockHashes s).
Definition set_refund (r : Z) (s : statedb) : statedb :=
  mkState (trie s) (stateObjects s) (stateObjectsPending s) (stateObjectsDirty s) (dbErr s) r (thash s)
    (txIndex s) (logs s) (logSize s) (preimages s) (access s) (jrnl s) (validRevisions s) (nextRevisionId s)
    (ResearchPreAlloc s) (ResearchPostAlloc s) (ResearchBlockHashes s).
Definition set_logs (l : gmap Hash (list Log)) (size : Z) (s : statedb) : statedb :=
  mkState (trie s) (stateObjects s) (stateObjectsPending s) (stateObjectsDirty s) (dbErr s) (refund s) (thash s)
    (txIndex s) l size (preimages s) (access s) (jrnl s) (validRevisions s) (nextRevisionId s)
    (ResearchPreAlloc s) (ResearchPostAlloc s) (ResearchBlockHashes s).
Definition set_preimages (p : gmap Hash bytes) (s : statedb) : statedb :=
  mkState (trie s) (stateObjects s) (stateObjectsPending s) (stateObjectsDirty s) (dbErr s) (refund s) (thash s)
    (txIndex s) (logs s) (logSize s) p (access s) (jrnl s) (validRevisions s) (nextRevisionId s)
    (ResearchPreAlloc s) (ResearchPostAlloc s) (ResearchBlockHashes s).
Definition set_access (al : accessList) (s : statedb) : statedb :=
  mkState (trie s) (stateObjects s) (stateObjectsPending s) (stateObjectsDirty s) (dbErr s) (refund s) (thash s)
    (txIndex s) (logs s) (logSize s) (preimages s) al (jrnl s) (validRevisions s) (nextRevisionId s)
    (ResearchPreAlloc s) (ResearchPostAlloc s) (ResearchBlockHashes s).
Definition set_jrnl (j : journal) (s : statedb) : statedb :=
  mkState (trie s) (stateObjects s) (stateObjectsPending s) (stateObjectsDirty s) (dbErr s) (refund s) (thash s)
    (txIndex s) (logs s) (logSize s) (preimages s) (access s) j (validRevisions s) (nextRevisionId s)
    (ResearchPreAlloc s) (ResearchPostAlloc s) (ResearchBlockHashes s).
Definition set_revisions (l : list revision) (next : Z) (s : statedb) : statedb :=
  mkState (trie s) (stateObjects s) (stateObjectsPending s) (stateObjectsDirty s) (dbErr s) (refund s) (thash s)
    (txIndex s) (logs s) (logSize s) (preimages s) (access s) (jrnl s) l next
    (ResearchPreAlloc s) (ResearchPostAlloc s) (ResearchBlockHashes s).
Definition set_research (pre : gmap Address (option SubstateAccount)) (post : gmap Address SubstateAccount) (s : statedb) : statedb :=
  mkState (trie s) (stateObjects s) (stateObjectsPending s) (stateObjectsDirty s) (dbErr s) (refund s) (thash s)
    (txIndex s) (logs s) (logSize s) (preimages s) (access s) (jrnl s) (validRevisions s) (nextRevisionId s)
    pre post (ResearchBlockHashes s).

(** [state.New] over a trie without snapshots. *)
Definition New (tr : Trie) : statedb :=
  mkState tr ∅ ∅ ∅ None 0 0 0 ∅ 0 ∅ newAccessList newJournal [] 0 ∅ ∅ ∅.

Definition append (e : journalEntry) : DB () := db_modify (λ s, set_jrnl (journal_append e (jrnl s)) s).

(** ** Accounts *)

(** core/types: the account in the trie. *)
Definition StateAccount_type : rtype := TStruct [TUint 64; TBigPtr; TByteArray 32; TBytes].
Definition account_of (v : rval) : option StateAccount :=
  match v with
  | VStruct [VUint nonce; VBigPtr (Some balance); VByteArray root; VBytes code_hash] =>
      Some (mkAccount nonce balance (BytesToHash root) code_hash)
  | _ => None
  end.

Definition setStateObject (o : stateObject) : DB () := db_modify (set_stateObjects <[so_address o := o]>).

(** A method on a live object, whose pointer is its address. *)
Definition on_object {A} (addr : Address) (f : stateObject → Go (stateObject * A)) : DB A :=
  o ← db_get (λ s, stateObjects s !! addr);
  match o with
  | None => db_go (Panic NilDereference)
  | Some o => '(o, a) ← db_go (f o); _ ← db_modify (set_stateObjects <[addr := o]>); mret a
  end.
Definition update_object (addr : Address) (f : stateObject → stateObject) : DB () :=
  on_object addr (λ o, Ret (f o, tt)).

(** The object of the account in a trie, or the error of reading it.  The decoder
    is the one of rlp/decode.go, which always ends. *)
Definition trie_object (tr : Trie) (addr : Address) : string + option stateObject :=
  match TryGet tr (Address_Bytes addr) with
  | inl err => inl err
  | inr enc =>
      inr (if len enc =? 0 then None
           else
             match DecodeBytes enc StateAccount_type with
             | Some (inr v) => newObject addr false <$> account_of v
             | _ => None
             end)
  end.

Definition getDeletedStateObject (addr : Address) : DB (option stateObject) :=
  objs ← db_get stateObjects;
  match objs !! addr with
  | Some o => mret (Some o)
  | None =>
      tr ← db_get trie;
      match trie_object tr addr with
      | inl err => _ ← db_modify (set_dbErr (String.append "getDeleteStateObject error: " err)); mret None
      | inr None => mret None
      | inr (Some o) => _ ← setStateObject o; mret (Some o)
      end
  end.

Definition record_pre (addr : Address) (a : option SubstateAccount) : DB () :=
  pre ← db_get ResearchPreAlloc;
  match pre !! addr with
  | Some _ => mret tt
  | None => db_modify (λ s, set_research (<[addr := a]> pre) (ResearchPostAlloc s) s)
  end.

(** The object's code is read when it is recorded. *)
Definition getStateObject (addr : Address) : DB (option stateObject) :=
  obj ← getDeletedStateObject addr;
  match obj with
  | Some o =>
      if deleted o then _ ← record_pre addr None; mret None
      else
        pre ← db_get ResearchPreAlloc;
        match pre !! addr with
        | Some _ => mret (Some o)
        | None =>
            code ← on_object addr (λ o, Ret (so_Code o));
            _ ← record_pre addr (Some (NewSubstateAccount (Nonce (so_data o)) (Balance (so_data o)) (default [] code)));
            db_get (λ s, stateObjects s !! addr)
        end
  | None => _ ← record_pre addr None; mret None
  end.

(** The new object and the one it replaces, unless that was deleted. *)
Definition createObject (addr : Address) : DB (option stateObject) :=
  prev ← getDeletedStateObject addr;
  let newobj := newObject addr true no_data in
  _ ← (match prev with
       | None => append (createObjectChange addr)
       | Some prev => append (resetObjectChange prev)
       end);
  _ ← setStateObject newobj;
  mret (match prev with Some prev => if deleted prev then None else Some prev | None => None end).

(** Afterwards the object is live. *)
Definition GetOrNewStateObject (addr : Address) : DB () :=
  o ← getStateObject addr;
  match o with
  | None => _ ← createObject addr; mret tt
  | Some _ => mret tt
  end.

(** ** state_object.go: changes *)

Definition setBalance (addr : Address) (amount : Z) : DB () := update_object addr (set_data (set_Balance amount)).
Definition setNonce (addr : Address) (nonce : Z) : DB () := update_object addr (set_data (set_Nonce nonce)).
Definition setCode (addr : Address) (codeHash : bytes) (code : option bytes) : DB () :=
  update_object addr (λ o, set_dirtyCode true (set_data (set_CodeHash codeHash) (set_code code o))).
Definition setState (addr : Address) (key value : Hash) : DB () :=
  update_object addr (λ o, set_storage (originStorage o) (pendingStorage o) (<[key := value]> (dirtyStorage o)) o).

Definition ripemd : Address := 3.

Definition touch (addr : Address) : DB () :=
  _ ← append (touchChange addr);
  if addr =? ripemd then db_modify (λ s, set_jrnl (dirty addr (jrnl s)) s) else mret tt.

Definition object_at {A} (addr : Address) (f : stateObject → A) : DB A := on_object addr (λ o, Ret (o, f o)).

Definition so_SetBalance (addr : Address) (amount : Z) : DB () :=
  prev ← object_at addr (λ o, Balance (so_data o));
  _ ← append (balanceChange addr prev);
  setBalance addr amount.

Definition so_AddBalance (addr : Address) (amount : Z) : DB () :=
  if amount =? 0 then
    e ← object_at addr empty;
    if e : bool then touch addr else mret tt
  else
    b ← object_at addr (λ o, Balance (so_data o));
    so_SetBalance addr (b + amount).

Definition so_SubBalance (addr : Address) (amount : Z) : DB () :=
  if amount =? 0 then mret tt
  else
    b ← object_at addr (λ o, Balance (so_data o));
    so_SetBalance addr (b - amount).

Definition so_SetNonce (addr : Address) (nonce : Z) : DB () :=
  prev ← object_at addr (λ o, Nonce (so_data o));
  _ ← append (nonceChange addr prev);
  setNonce addr nonce.

Definition so_SetCode (addr : Address) (codeHash : bytes) (code : option bytes) : DB () :=
  prevcode ← on_object addr (λ o, Ret (so_Code o));
  prevhash ← object_at addr (λ o, CodeHash (so_data o));
  _ ← append (codeChange addr prevcode prevhash);
  setCode addr codeHash code.

(** Fake storage is written without a journal entry. *)
Definition so_SetState (addr : Address) (key value : Hash) : DB () :=
  fake ← object_at addr fakeStorage;
  match fake with
  | Some fake => update_object addr (set_fake (Some (<[key := value]> fake)))
  | None =>
      prev ← on_object addr (so_GetState key);
      if prev =? value then mret tt
      else
        _ ← append (storageChange addr key prev);
        setState addr key value
  end.

Definition so_SetStorage (addr : Address) (storage : gmap Hash Hash) : DB () :=
  update_object addr (λ o, set_fake (Some (storage ∪ default ∅ (fakeStorage o))) o).

(** ** statedb.go: reading *)

(** A reader of the live object, and its result without one. *)
Definition read_object {A} (addr : Address) (absent : A) (f : stateObject → Go (stateObject * A)) : DB A :=
  o ← getStateObject addr;
  match o with
  | None => mret absent
  | Some _ => on_object addr f
  end.

Definition Exist (addr : Address) : DB bool := o ← getStateObject addr; mret (bool_decide (is_Some o)).
Definition Empty (addr : Address) : DB bool := read_object addr true (λ o, Ret (o, empty o)).
Definition GetBalance (addr : Address) : DB Z := read_object addr 0 (λ o, Ret (o, Balance (so_data o))).
Definition GetNonce (addr : Address) : DB Z := read_object addr 0 (λ o, Ret (o, Nonce (so_data o))).
Definition GetCode (addr : Address) : DB (option bytes) := read_object addr None (λ o, Ret (so_Code o)).
Definition GetCodeSize (addr : Address) : DB Z := read_object addr 0 (λ o, Ret (so_CodeSize o)).
Definition GetCodeHash (addr : Address) : DB Hash :=
  read_object addr 0 (λ o, Ret (o, BytesToHash (CodeHash (so_data o)))).
Definition GetState (addr : Address) (hash : Hash) : DB Hash := read_object addr 0 (so_GetState hash).
Definition GetCommittedState (addr : Address) (hash : Hash) : DB Hash := read_object addr 0 (so_GetCommittedState hash).
Definition HasSuicided (addr : Address) : DB bool := read_object addr false (λ o, Ret (o, suicided o)).
Definition GetRefund : DB Z := db_get refund.

(** ** statedb.go: changes *)

Definition AddBalance (addr : Address) (amount : Z) : DB () :=
  _ ← GetOrNewStateObject addr; so_AddBalance addr amount.
Definition SubBalance (addr : Address) (amount : Z) : DB () :=
  _ ← GetOrNewStateObject addr; so_SubBalance addr amount.
Definition SetBalance (addr : Address) (amount : Z) : DB () :=
  _ ← GetOrNewStateObject addr; so_SetBalance addr amount.
Definition SetNonce (addr : Address) (nonce : Z) : DB () :=
  _ ← GetOrNewStateObject addr; so_SetNonce addr nonce.
Definition SetCode (addr : Address) (code : option bytes) : DB () :=
  _ ← GetOrNewStateObject addr; so_SetCode addr (Keccak256 (default [] code)) code.
Definition SetState (addr : Address) (key value : Hash) : DB () :=
  _ ← GetOrNewStateObject addr; so_SetState addr key value.
Definition SetStorage (addr : Address) (storage : gmap Hash Hash) : DB () :=
  _ ← GetOrNewStateObject addr; so_SetStorage addr storage.

Definition CreateAccount (addr : Address) : DB () :=
  prev ← createObject addr;
  match prev with
  | Some prev => setBalance addr (Balance (so_data prev))
  | None => mret tt
  end.

Definition Suicide (addr : Address) : DB bool :=
  o ← getStateObject addr;
  match o with
  | None => mret false
  | Some o =>
      _ ← append (suicideChange addr (suicided o) (Balance (so_data o)));
      _ ← update_object addr (set_suicided true);
      _ ← update_object addr (set_data (set_Balance 0));
      mret true
  end.

(** The refund is a 64-bit integer; the entry is there when it panics. *)
Definition AddRefund (gas : Z) : DB () :=
  r ← db_get refund;
  _ ← append (refundChange r);
  db_modify (set_refund (wrapU 64 (r + gas))).
Definition SubRefund (gas : Z) : DB () :=
  r ← db_get refund;
  _ ← append (refundChange r);
  if r <? gas then db_go (Panic ExplicitPanic) else db_modify (set_refund (r - gas)).

Definition log_in (s : statedb) (l : Log) : Log :=
  {| log_Address := log_Address l; log_Topics := log_Topics l; log_Data := log_Data l;
     log_BlockNumber := log_BlockNumber l; log_TxHash := thash s; log_TxIndex := txIndex s;
     log_BlockHash := log_BlockHash l; log_Index := logSize s |}.
Definition AddLogSu (l : Log) : DB Log :=
  h ← db_get thash;
  _ ← append (addLogChange h);
  l ← db_get (λ s, log_in s l);
  _ ← db_modify (λ s, set_logs (<[h := default [] (logs s !! h) ++ [l]]> (logs s)) (wrapU 64 (logSize s + 1)) s);
  mret l.
Definition AddLog (l : Log) : DB () := _ ← AddLogSu l; mret tt.

Definition AddPreimage (hash : Hash) (preimage : bytes) : DB () :=
  p ← db_get preimages;
  match p !! hash with
  | Some _ => mret tt
  | None => _ ← append (addPreimageChange hash); db_modify (set_preimages (<[hash := preimage]> p))
  end.

Definition AddAddressToAccessList (addr : Address) : DB () :=
  al ← db_get access;
  let '(al, added) := AddAddress al addr in
  _ ← db_modify (set_access al);
  if added : bool then append (accessListAddAccountChange addr) else mret tt.

Definition AddSlotToAccessList (addr : Address) (slot : Hash) : DB () :=
  al ← db_get access;
  '(al, addrMod, slotMod) ← db_go (AddSlot al addr slot);
  _ ← db_modify (set_access al);
  _ ← (if addrMod : bool then append (accessListAddAccountChange addr) else mret tt);
  if slotMod : bool then append (accessListAddSlotChange addr slot) else mret tt.

Definition AddressInAccessList (addr : Address) : DB bool := db_get (λ s, ContainsAddress (access s) addr).
Definition SlotInAccessList (addr : Address) (slot : Hash) : DB (bool * bool) :=
  al ← db_get access; db_go (Contains al addr slot).

Fixpoint db_each {A} (f : A → DB ()) (l : list A) : DB () :=
  match l with [] => mret tt | x :: l => _ ← f x; db_each f l end.

(** EIP-2930 access lists: an address and its storage keys. *)
Definition PrepareAccessList (sender : Address) (dst : option Address) (precompiles : list Address)
    (list : list (Address * list Hash)) : DB () :=
  _ ← AddAddressToAccessList sender;
  _ ← (match dst with Some dst => AddAddressToAccessList dst | None => mret tt end);
  _ ← db_each AddAddressToAccessList precompiles;
  db_each (λ el, _ ← AddAddressToAccessList (fst el); db_each (AddSlotToAccessList (fst el)) (snd el)) list.

(** ** Snapshots *)

Definition get_or_panic (addr : Address) (k : DB ()) : DB () :=
  o ← getStateObject addr;
  match o with Some _ => k | None => db_go (Panic NilDereference) end.

(** Undoing an entry. *)
Definition revert_entry (e : journalEntry) : DB () :=
  match e with
  | createObjectChange a =>
      db_modify (λ s, set_marks (stateObjectsPending s) (stateObjectsDirty s ∖ {[a]})
                        (set_stateObjects (delete a) s))
  | resetObjectChange prev => setStateObject prev
  | suicideChange a prev prevbalance =>
      o ← getStateObject a;
      match o with
      | None => mret tt
      | Some _ => _ ← update_object a (set_suicided prev); setBalance a prevbalance
      end
  | balanceChange a prev => get_or_panic a (setBalance a prev)
  | nonceChange a prev => get_or_panic a (setNonce a prev)
  | codeChange a prevcode prevhash =>
      get_or_panic a (setCode a (Hash_Bytes (BytesToHash prevhash)) prevcode)
  | storageChange a key prevalue => get_or_panic a (setState a key prevalue)
  | refundChange prev => db_modify (set_refund prev)
  | addLogChange h =>
      l ← db_get (λ s, default [] (logs s !! h));
      if Z.of_nat (length l) =? 0 then db_go (Panic SliceOutOfRange)
      else
        db_modify (λ s,
          set_logs (if Z.of_nat (length l) =? 1 then delete h (logs s)
                    else <[h := take (length l - 1) l]> (logs s)) (wrapU 64 (logSize s - 1)) s)
  | addPreimageChange h => db_modify (λ s, set_preimages (delete h (preimages s)) s)
  | touchChange _ => mret tt
  | accessListAddAccountChange a => db_modify (λ s, set_access (DeleteAddress (access s) a) s)
  | accessListAddSlotChange a slot =>
      al ← db_get access; al ← db_go (DeleteSlot al a slot); db_modify (set_access al)
  end.

(** One count less; at zero the address is clean. *)
Definition undirty (addr : Address) (j : journal) : journal :=
  let n := default 0 (dirties j !! addr) - 1 in
  mkJournal (entries j) (if n =? 0 then delete addr (dirties j) else <[addr := n]> (dirties j)).

(** The entries are undone from the last one. *)
Fixpoint revert_entries (l : list journalEntry) : DB () :=
  match l with
  | [] => mret tt
  | e :: l =>
      _ ← revert_entry e;
      _ ← (match dirtied e with
           | Some addr => db_modify (λ s, set_jrnl (undirty addr (jrnl s)) s)
           | None => mret tt
           end);
      revert_entries l
  end.

Definition journal_revert (snapshot : Z) : DB () :=
  l ← db_get (λ s, entries (jrnl s));
  _ ← revert_entries (rev (drop (Z.to_nat snapshot) l));
  if Z.of_nat (length l) <? snapshot then db_go (Panic SliceOutOfRange)
  else db_modify (λ s, set_jrnl (mkJournal (take (Z.to_nat snapshot) (entries (jrnl s))) (dirties (jrnl s))) s).

Definition Snapshot : DB Z :=
  id ← db_get nextRevisionId;
  _ ← db_modify (λ s,
    set_revisions (validRevisions s ++ [mkRevision id (Z.of_nat (length (entries (jrnl s))))])
      (nextRevisionId s + 1) s);
  mret id.

(** [sort.Search]: binary search for the first index in [\[i, j)] where [f]
    holds, for an [f] that is false up to some index and true from it on. *)
Fixpoint search (fuel : nat) (f : nat → bool) (i j : nat) : nat :=
  match fuel with
  | O => i
  | S fuel =>
      if (i <? j)%nat then
        let h := ((i + j) / 2)%nat in
        if f h then search fuel f i h else search fuel f (S h) j
      else i
  end.
Definition sort_Search (n : nat) (f : nat → bool) : nat := search n f 0 n.

Definition RevertToSnapshot (revid : Z) : DB () :=
  revs ← db_get validRevisions;
  let idx := sort_Search (length revs) (λ i, match revs !! i with Some r => revid <=? rev_id r | None => false end) in
  match revs !! idx with
  | None => db_go (Panic ExplicitPanic)
  | Some r =>
      if rev_id r =? revid then
        _ ← journal_revert (journalIndex r);
        db_modify (λ s, set_revisions (take idx revs) (nextRevisionId s) s)
      else db_go (Panic ExplicitPanic)
  end.
End statedb.
