(* ===== verification/StateTx.v ===== *)
(** * core/state/statedb.go and state_object.go: between transactions

    What ends a transaction ([Finalise]), what writes the accounts to the tries
    ([IntermediateRoot], [Commit]) and what copies a state.  A loop over a Go map
    takes its entries in the order of the model's map; the iterations touch
    different keys.  There is no snapshot tree and no prefetcher. *)

From S2P Require Import Prelude Common Uint256 Machine Vm Rlp RlpDecode State Statedb.

(** common/bytes.go *)
Fixpoint TrimLeftZeroes (s : bytes) : bytes :=
  match s with x :: r => if x =? 0 then TrimLeftZeroes r else s | [] => [] end.

Section state.
Context `{Externals, !Database}.

(** ** state_object.go *)

Definition so_finalise (o : stateObject) : stateObject :=
  set_touched ∅ (set_storage (originStorage o) (dirtyStorage o ∪ pendingStorage o) ∅ o).

Definition update_slot (key value : Hash) (o : stateObject) (t : Trie) : Go (stateObject * Trie) :=
  if value =? default 0 (originStorage o !! key) then Ret (o, t)
  else
    let o := set_storage (<[key := value]> (originStorage o)) (pendingStorage o) (dirtyStorage o) o in
    if value =? 0 then
      let '(err, t) := TryDelete t (Hash_Bytes key) in Ret (set_error_if err o, t)
    else
      v ← EncodeToBytes (VBytes (TrimLeftZeroes (Hash_Bytes value)));
      let '(err, t) := TryUpdate t (Hash_Bytes key) (match v with inr v => v | inl _ => [] end) in
      Ret (set_error_if err o, t).

Fixpoint update_slots (l : list (Hash * Hash)) (o : stateObject) (t : Trie) : Go (stateObject * Trie) :=
  match l with
  | [] => Ret (o, t)
  | (key, value) :: l => '(o, t) ← update_slot key value o t; update_slots l o t
  end.

(** The trie of the object, if it has one or needs one. *)
Definition updateTrie (o : stateObject) : Go (stateObject * option Trie) :=
  let o := so_finalise o in
  if decide (pendingStorage o = ∅) then Ret (o, so_trie o)
  else
    let '(o, t) := getTrie o in
    '(o, t) ← update_slots (map_to_list (pendingStorage o)) o t;
    Ret (set_trie (Some t) (set_storage (originStorage o) ∅ (dirtyStorage o) o), Some t).

Definition updateRoot (o : stateObject) : Go stateObject :=
  '(o, t) ← updateTrie o;
  Ret (match t with None => o | Some t => set_data (set_Root (TrieHash t)) o end).

Definition CommitTrie (o : stateObject) : Go (stateObject * option string) :=
  '(o, t) ← updateTrie o;
  Ret (match t with
       | None => (o, None)
       | Some t =>
           match so_dbErr o with
           | Some err => (o, Some err)
           | None =>
               match TrieCommit t with
               | (inl err, t) => (set_trie (Some t) o, Some err)
               | (inr root, t) => (set_data (set_Root root) (set_trie (Some t) o), None)
               end
           end
       end).

Definition deepCopy (o : stateObject) : stateObject :=
  let c := newObject (so_address o) false (so_data o) in
  mkObject (so_address c) (so_addrHash c) (so_data c) (so_dbErr c) (so_trie o) (so_code o) (originStorage o)
    (pendingStorage o) (dirtyStorage o) (fakeStorage c) (dirtyCode o) (suicided o) (deleted o) (ResearchTouched o).

(** ** statedb.go: transactions *)

Definition Prepare (hash : Hash) (ti : Z) : DB () := db_modify (λ s,
  mkState (trie s) (set_touched ∅ <$> stateObjects s) (stateObjectsPending s) (stateObjectsDirty s) (dbErr s) (refund s)
    hash ti (logs s) (logSize s) (preimages s) newAccessList (jrnl s) (validRevisions s) (nextRevisionId s) ∅ ∅ ∅).

Definition clearJournalAndRefund : DB () := db_modify (λ s,
  set_revisions [] (nextRevisionId s)
    (match entries (jrnl s) with [] => s | _ => set_refund 0 (set_jrnl newJournal s) end)).

(** The values of the slots, as a method of the object reads them. *)
Fixpoint read_slots (addr : Address) (f : Hash → stateObject → Go (stateObject * Hash)) (keys : list Hash)
    (storage : gmap Hash Hash) : DB (gmap Hash Hash) :=
  match keys with
  | [] => mret storage
  | key :: keys => value ← on_object addr (f key); read_slots addr f keys (<[key := value]> storage)
  end.

Definition set_pre (f : gmap Address (option SubstateAccount) → gmap Address (option SubstateAccount)) : DB () :=
  db_modify (λ s, set_research (f (ResearchPreAlloc s)) (ResearchPostAlloc s) s).
Definition set_post (f : gmap Address SubstateAccount → gmap Address SubstateAccount) : DB () :=
  db_modify (λ s, set_research (ResearchPreAlloc s) (f (ResearchPostAlloc s)) s).

(** The storage of a recorded account; one that was not there is forgotten. *)
Definition record_storage (p : Address * option SubstateAccount) : DB () :=
  match p with
  | (addr, None) => set_pre (delete addr)
  | (addr, Some sa) =>
      keys ← object_at addr ResearchTouched;
      storage ← read_slots addr so_GetCommittedState (elements keys) (sub_Storage sa);
      let sa := set_sub_Storage (λ _, storage) sa in
      _ ← set_pre <[addr := Some sa]>;
      set_post <[addr := sa]>
  end.

Definition record_post (addr : Address) : DB () :=
  nonce ← object_at addr (λ o, Nonce (so_data o));
  balance ← object_at addr (λ o, Balance (so_data o));
  code ← on_object addr (λ o, Ret (so_Code o));
  keys ← object_at addr ResearchTouched;
  storage ← read_slots addr so_GetState (elements keys) ∅;
  set_post <[addr := set_sub_Storage (λ _, storage) (NewSubstateAccount nonce balance (default [] code))]>.

Definition finalise_dirty (deleteEmptyObjects : bool) (addr : Address) : DB () :=
  o ← db_get (λ s, stateObjects s !! addr);
  match o with
  | None => mret tt
  | Some o =>
      _ ← (if suicided o || (deleteEmptyObjects && empty o) then
             _ ← update_object addr (set_deleted true); set_post (delete addr)
           else
             _ ← record_post addr; update_object addr so_finalise);
      db_modify (λ s, set_marks ({[addr]} ∪ stateObjectsPending s) ({[addr]} ∪ stateObjectsDirty s) s)
  end.

Definition Finalise (deleteEmptyObjects : bool) : DB () :=
  pre ← db_get ResearchPreAlloc;
  _ ← db_each record_storage (map_to_list pre);
  d ← db_get (λ s, dirties (jrnl s));
  _ ← db_each (finalise_dirty deleteEmptyObjects) (fst <$> map_to_list d);
  clearJournalAndRefund.

(** ** statedb.go: roots *)

Definition db_set_error (err : option string) (msg : string) : DB () :=
  match err with None => mret tt | Some err => db_modify (set_dbErr (String.append msg err)) end.
Definition db_set_trie (t : Trie) (s : statedb) : statedb :=
  mkState t (stateObjects s) (stateObjectsPending s) (stateObjectsDirty s) (dbErr s) (refund s) (thash s)
    (txIndex s) (logs s) (logSize s) (preimages s) (access s) (jrnl s) (validRevisions s) (nextRevisionId s)
    (ResearchPreAlloc s) (ResearchPostAlloc s) (ResearchBlockHashes s).

(** core/types/state_account.go: the fields, as rlp writes them. *)
Definition account_value (d : StateAccount) : rval :=
  VStruct [VUint (Nonce d); VBigPtr (Some (Balance d)); VByteArray (Hash_Bytes (Root d)); VBytes (CodeHash d)].

(** trie/secure_trie.go *)
Definition TryUpdateAccount (t : Trie) (key : bytes) (d : StateAccount) : Go (option string * Trie) :=
  data ← EncodeToBytes (account_value d);
  Ret (match data with inl _ => (Some "rlp"%string, t) | inr data => TryUpdate t key data end).

Definition updateStateObject (o : stateObject) : DB () :=
  t ← db_get trie;
  '(err, t) ← db_go (TryUpdateAccount t (Address_Bytes (so_address o)) (so_data o));
  _ ← db_modify (db_set_trie t);
  db_set_error err "updateStateObject error: ".

Definition deleteStateObject (o : stateObject) : DB () :=
  t ← db_get trie;
  let '(err, t) := TryDelete t (Address_Bytes (so_address o)) in
  _ ← db_modify (db_set_trie t);
  db_set_error err "deleteStateObject error: ".

Definition object_of (addr : Address) : DB stateObject :=
  o ← db_get (λ s, stateObjects s !! addr);
  match o with None => db_go (Panic NilDereference) | Some o => mret o end.

Definition update_root (addr : Address) : DB () :=
  o ← object_of addr;
  if deleted o then mret tt
  else o ← db_go (updateRoot o); db_modify (set_stateObjects <[addr := o]>).

Definition write_account (addr : Address) : DB () :=
  o ← object_of addr;
  if deleted o then deleteStateObject o else updateStateObject o.

Definition IntermediateRoot (deleteEmptyObjects : bool) : DB Hash :=
  _ ← Finalise deleteEmptyObjects;
  pending ← db_get (λ s, elements (stateObjectsPending s));
  _ ← db_each update_root pending;
  _ ← db_each write_account pending;
  _ ← db_modify (λ s, set_marks ∅ (stateObjectsDirty s) s);
  t ← db_get trie;
  mret (TrieHash t).

(** The code to write of one object, and the error of writing its storage. *)
Definition commit_object (addr : Address) : DB (list (Hash * bytes) * option string) :=
  o ← object_of addr;
  if deleted o then mret ([], None)
  else
    let '(o, codes) :=
      match so_code o, dirtyCode o with
      | Some code, true => (set_dirtyCode false o, [(BytesToHash (CodeHash (so_data o)), code)])
      | _, _ => (o, [])
      end in
    '(o, err) ← db_go (CommitTrie o);
    _ ← db_modify (set_stateObjects <[addr := o]>);
    mret (codes, err).

Fixpoint commit_objects (l : list Address) (codes : list (Hash * bytes)) : DB (string + list (Hash * bytes)) :=
  match l with
  | [] => mret (inr codes)
  | addr :: l =>
      '(c, err) ← commit_object addr;
      match err with
      | Some err => mret (inl err)
      | None => commit_objects l (codes ++ c)
      end
  end.

(** The root, and the codes that were written to the database. *)
Definition Commit (deleteEmptyObjects : bool) : DB (string + Hash * list (Hash * bytes)) :=
  err ← db_get dbErr;
  match err with
  | Some err => mret (inl (String.append "commit aborted due to earlier error: " err))
  | None =>
      _ ← IntermediateRoot deleteEmptyObjects;
      dirty ← db_get (λ s, elements (stateObjectsDirty s));
      r ← commit_objects dirty [];
      match r with
      | inl err => mret (inl err)
      | inr codes =>
          _ ← db_modify (λ s, set_marks (stateObjectsPending s) ∅ s);
          t ← db_get trie;
          let '(r, t) := TrieCommit t in
          _ ← db_modify (db_set_trie t);
          mret (match r with inl err => inl err | inr root => inr (root, codes) end)
      end
  end.
End state.

(** * cmd/substate-cli/replay/off_the_chain.go: the state of a replay

    A state in memory that holds the recorded accounts.  Code that is empty and
    code that is nil are the same to every operation. *)

Section replay.
Context `{Externals, !Database}.

(** The account trie of the zero root; the database opens every trie the same way. *)
Definition NewOffTheChainStateDB : statedb := New (OpenEmptyTrie 0).

Definition code_slice (c : bytes) : option bytes := match c with [] => None | _ => Some c end.

Definition set_recorded (p : Address * SubstateAccount) : DB () :=
  let '(addr, a) := p in
  _ ← SetCode addr (code_slice (sub_Code a));
  _ ← SetNonce addr (sub_Nonce a);
  _ ← SetBalance addr (sub_Balance a);
  db_each (λ kv, SetState addr (fst kv) (snd kv)) (map_to_list (sub_Storage a)).

Definition MakeOffTheChainStateDB (alloc : gmap Address SubstateAccount) : Go statedb :=
  '(r, s) ← (_ ← db_each set_recorded (map_to_list alloc); Commit false) NewOffTheChainStateDB;
  match r with
  | inl _ => Panic ExplicitPanic
  | inr _ => Ret s
  end.

(** [MakeOffTheChainStateDBWithTxs]: several recordings, a later one over an
    earlier one. *)
Definition MakeOffTheChainStateDBWithTxs (allocs : list (gmap Address SubstateAccount)) : Go statedb :=
  '(r, s) ← (_ ← db_each (λ alloc, db_each set_recorded (map_to_list alloc)) allocs; Commit false) NewOffTheChainStateDB;
  match r with
  | inl _ => Panic ExplicitPanic
  | inr _ => Ret s
  end.
End replay.
