(* ===== verification/StateView.v ===== *)
(** * A state that copies itself at every snapshot

    [AState] is what the operations of the state can tell apart, and [Spec] keeps
    a copy of it for every snapshot.  [view] is the part of an object that can be
    observed; the caches and the records of the replay are not part of it. *)

From Stdlib Require Import FunctionalExtensionality.
From S2P Require Import Prelude Common Uint256 Machine VmFacts Vm Rlp RlpFacts RlpDecode RlpStreamFacts State Statedb.

Record AccView := mkView {
  av_Nonce : Z;
  av_Balance : Z;
  av_CodeHash : bytes;
  av_Code : bytes;
  av_suicided : bool;
  av_State : Hash → Hash;
  av_Committed : Hash → Hash
}.

Record AState := mkAState {
  a_account : Address → option AccView;
  a_refund : Z;
  a_thash : Hash;
  a_txIndex : Z;
  a_logs : gmap Hash (list Log);
  a_logSize : Z;
  a_preimages : gmap Hash bytes;
  a_access : accessList
}.

Record Spec := mkSpec { now : AState; saved : list (Z * AState); next : Z }.

Definition set_account (a : Address) (v : option AccView) (A : AState) : AState :=
  mkAState (λ x, if decide (x = a) then v else a_account A x) (a_refund A) (a_thash A) (a_txIndex A) (a_logs A)
    (a_logSize A) (a_preimages A) (a_access A).
Definition a_set_refund (r : Z) (A : AState) : AState :=
  mkAState (a_account A) r (a_thash A) (a_txIndex A) (a_logs A) (a_logSize A) (a_preimages A) (a_access A).
Definition a_set_logs (l : gmap Hash (list Log)) (n : Z) (A : AState) : AState :=
  mkAState (a_account A) (a_refund A) (a_thash A) (a_txIndex A) l n (a_preimages A) (a_access A).
Definition a_set_preimages (p : gmap Hash bytes) (A : AState) : AState :=
  mkAState (a_account A) (a_refund A) (a_thash A) (a_txIndex A) (a_logs A) (a_logSize A) p (a_access A).
Definition a_set_access (al : accessList) (A : AState) : AState :=
  mkAState (a_account A) (a_refund A) (a_thash A) (a_txIndex A) (a_logs A) (a_logSize A) (a_preimages A) al.

Definition v_set_Nonce (n : Z) (v : AccView) : AccView :=
  mkView n (av_Balance v) (av_CodeHash v) (av_Code v) (av_suicided v) (av_State v) (av_Committed v).
Definition v_set_Balance (b : Z) (v : AccView) : AccView :=
  mkView (av_Nonce v) b (av_CodeHash v) (av_Code v) (av_suicided v) (av_State v) (av_Committed v).
Definition v_set_Code (h c : bytes) (v : AccView) : AccView :=
  mkView (av_Nonce v) (av_Balance v) h c (av_suicided v) (av_State v) (av_Committed v).
Definition v_set_suicided (b : bool) (v : AccView) : AccView :=
  mkView (av_Nonce v) (av_Balance v) (av_CodeHash v) (av_Code v) b (av_State v) (av_Committed v).
Definition v_set_State (key value : Hash) (v : AccView) : AccView :=
  mkView (av_Nonce v) (av_Balance v) (av_CodeHash v) (av_Code v) (av_suicided v)
    (λ k, if decide (k = key) then value else av_State v k) (av_Committed v).

Section spec.
Context `{Externals}.

Definition new_account : AccView := mkView 0 0 emptyCodeHash [] false (λ _, 0) (λ _, 0).

(** ** Operations *)

Inductive Op :=
| OpCreateAccount (a : Address)
| OpSubBalance (a : Address) (amount : Z)
| OpAddBalance (a : Address) (amount : Z)
| OpSetBalance (a : Address) (amount : Z)
| OpGetBalance (a : Address)
| OpGetNonce (a : Address)
| OpSetNonce (a : Address) (n : Z)
| OpGetCodeHash (a : Address)
| OpGetCode (a : Address)
| OpSetCode (a : Address) (code : option bytes)
| OpGetCodeSize (a : Address)
| OpAddRefund (gas : Z)
| OpSubRefund (gas : Z)
| OpGetRefund
| OpGetCommittedState (a : Address) (key : Hash)
| OpGetState (a : Address) (key : Hash)
| OpSetState (a : Address) (key value : Hash)
| OpSuicide (a : Address)
| OpHasSuicided (a : Address)
| OpExist (a : Address)
| OpEmpty (a : Address)
| OpAddressInAccessList (a : Address)
| OpSlotInAccessList (a : Address) (slot : Hash)
| OpAddAddressToAccessList (a : Address)
| OpAddSlotToAccessList (a : Address) (slot : Hash)
| OpAddLog (l : Log)
| OpAddPreimage (h : Hash) (b : bytes)
| OpSnapshot
| OpRevertToSnapshot (id : Z).

Inductive Out := OutUnit | OutZ (z : Z) | OutBytes (b : bytes) | OutBool (b : bool) | OutBools (b : bool * bool) | OutLog (l : Log).

(** ** The specification *)

Definition update_account (a : Address) (f : AccView → AccView) (A : AState) : AState :=
  set_account a (Some (f (default new_account (a_account A a)))) A.

Definition a_read {X} (a : Address) (absent : X) (f : AccView → X) (A : AState) : X :=
  match a_account A a with None => absent | Some v => f v end.

Definition v_empty (v : AccView) : bool :=
  (av_Nonce v =? 0) && (av_Balance v =? 0) && bool_decide (av_CodeHash v = emptyCodeHash).

Definition a_log_in (A : AState) (l : Log) : Log :=
  {| log_Address := log_Address l; log_Topics := log_Topics l; log_Data := log_Data l;
     log_BlockNumber := log_BlockNumber l; log_TxHash := a_thash A; log_TxIndex := a_txIndex A;
     log_BlockHash := log_BlockHash l; log_Index := a_logSize A |}.

(** A change of the current state, and what it returns. *)
Definition spec_change (op : Op) (A : AState) : Go (Out * AState) :=
  match op with
  | OpCreateAccount a =>
      Ret (OutUnit, set_account a (Some (v_set_Balance (a_read a 0 av_Balance A) new_account)) A)
  | OpSubBalance a amount => Ret (OutUnit, update_account a (λ v, v_set_Balance (av_Balance v - amount) v) A)
  | OpAddBalance a amount => Ret (OutUnit, update_account a (λ v, v_set_Balance (av_Balance v + amount) v) A)
  | OpSetBalance a amount => Ret (OutUnit, update_account a (v_set_Balance amount) A)
  | OpSetNonce a n => Ret (OutUnit, update_account a (v_set_Nonce n) A)
  | OpSetCode a code =>
      Ret (OutUnit, update_account a (v_set_Code (Keccak256 (default [] code)) (default [] code)) A)
  | OpSetState a key value => Ret (OutUnit, update_account a (v_set_State key value) A)
  | OpSuicide a =>
      Ret (match a_account A a with
           | None => (OutBool false, A)
           | Some v => (OutBool true, set_account a (Some (v_set_Balance 0 (v_set_suicided true v))) A)
           end)
  | OpAddRefund gas => Ret (OutUnit, a_set_refund (wrapU 64 (a_refund A + gas)) A)
  | OpSubRefund gas =>
      if a_refund A <? gas then Panic ExplicitPanic else Ret (OutUnit, a_set_refund (a_refund A - gas) A)
  | OpAddAddressToAccessList a => Ret (OutUnit, a_set_access (fst (AddAddress (a_access A) a)) A)
  | OpAddSlotToAccessList a slot =>
      '(al, _, _) ← AddSlot (a_access A) a slot; Ret (OutUnit, a_set_access al A)
  | OpAddLog l =>
      let l := a_log_in A l in
      let h := a_thash A in
      Ret (OutLog l, a_set_logs (<[h := default [] (a_logs A !! h) ++ [l]]> (a_logs A)) (wrapU 64 (a_logSize A + 1)) A)
  | OpAddPreimage h b =>
      Ret (OutUnit, match a_preimages A !! h with Some _ => A | None => a_set_preimages (<[h := b]> (a_preimages A)) A end)
  | OpGetBalance a => Ret (OutZ (a_read a 0 av_Balance A), A)
  | OpGetNonce a => Ret (OutZ (a_read a 0 av_Nonce A), A)
  | OpGetCodeHash a => Ret (OutZ (a_read a 0 (λ v, BytesToHash (av_CodeHash v)) A), A)
  | OpGetCode a => Ret (OutBytes (a_read a [] av_Code A), A)
  | OpGetCodeSize a => Ret (OutZ (a_read a 0 (λ v, len (av_Code v)) A), A)
  | OpGetRefund => Ret (OutZ (a_refund A), A)
  | OpGetCommittedState a key => Ret (OutZ (a_read a 0 (λ v, av_Committed v key) A), A)
  | OpGetState a key => Ret (OutZ (a_read a 0 (λ v, av_State v key) A), A)
  | OpHasSuicided a => Ret (OutBool (a_read a false av_suicided A), A)
  | OpExist a => Ret (OutBool (bool_decide (is_Some (a_account A a))), A)
  | OpEmpty a => Ret (OutBool (a_read a true v_empty A), A)
  | OpAddressInAccessList a => Ret (OutBool (ContainsAddress (a_access A) a), A)
  | OpSlotInAccessList a slot => r ← Contains (a_access A) a slot; Ret (OutBools r, A)
  | OpSnapshot | OpRevertToSnapshot _ => Ret (OutUnit, A)
  end.

(** The copies of a snapshot and of the later ones are dropped. *)
Fixpoint restore (id : Z) (l : list (Z * AState)) : option (AState * list (Z * AState)) :=
  match l with
  | [] => None
  | (i, A) :: l =>
      if i =? id then Some (A, [])
      else '(A', l) ← restore id l; Some (A', (i, A) :: l)
  end.

Definition spec_op (op : Op) (m : Spec) : Go (Out * Spec) :=
  match op with
  | OpSnapshot => Ret (OutZ (next m), mkSpec (now m) (saved m ++ [(next m, now m)]) (next m + 1))
  | OpRevertToSnapshot id =>
      match restore id (saved m) with
      | None => Panic ExplicitPanic
      | Some (A, l) => Ret (OutUnit, mkSpec A l (next m))
      end
  | op => '(out, A) ← spec_change op (now m); Ret (out, mkSpec A (saved m) (next m))
  end.

Fixpoint spec_run (ops : list Op) (m : Spec) : Go (list Out * Spec) :=
  match ops with
  | [] => Ret ([], m)
  | op :: ops => '(out, m) ← spec_op op m; '(outs, m) ← spec_run ops m; Ret (out :: outs, m)
  end.

(** ** The state's operations *)

Context `{!Database}.

Definition run_op (op : Op) : DB Out :=
  match op with
  | OpCreateAccount a => _ ← CreateAccount a; mret OutUnit
  | OpSubBalance a amount => _ ← SubBalance a amount; mret OutUnit
  | OpAddBalance a amount => _ ← AddBalance a amount; mret OutUnit
  | OpSetBalance a amount => _ ← SetBalance a amount; mret OutUnit
  | OpSetNonce a n => _ ← SetNonce a n; mret OutUnit
  | OpSetCode a code => _ ← SetCode a code; mret OutUnit
  | OpSetState a key value => _ ← SetState a key value; mret OutUnit
  | OpSuicide a => b ← Suicide a; mret (OutBool b)
  | OpAddRefund gas => _ ← AddRefund gas; mret OutUnit
  | OpSubRefund gas => _ ← SubRefund gas; mret OutUnit
  | OpAddAddressToAccessList a => _ ← AddAddressToAccessList a; mret OutUnit
  | OpAddSlotToAccessList a slot => _ ← AddSlotToAccessList a slot; mret OutUnit
  | OpAddLog l => l ← AddLogSu l; mret (OutLog l)
  | OpAddPreimage h b => _ ← AddPreimage h b; mret OutUnit
  | OpGetBalance a => z ← GetBalance a; mret (OutZ z)
  | OpGetNonce a => z ← GetNonce a; mret (OutZ z)
  | OpGetCodeHash a => z ← GetCodeHash a; mret (OutZ z)
  | OpGetCode a => c ← GetCode a; mret (OutBytes (default [] c))
  | OpGetCodeSize a => z ← GetCodeSize a; mret (OutZ z)
  | OpGetRefund => z ← GetRefund; mret (OutZ z)
  | OpGetCommittedState a key => z ← GetCommittedState a key; mret (OutZ z)
  | OpGetState a key => z ← GetState a key; mret (OutZ z)
  | OpHasSuicided a => b ← HasSuicided a; mret (OutBool b)
  | OpExist a => b ← Exist a; mret (OutBool b)
  | OpEmpty a => b ← Empty a; mret (OutBool b)
  | OpAddressInAccessList a => b ← AddressInAccessList a; mret (OutBool b)
  | OpSlotInAccessList a slot => b ← SlotInAccessList a slot; mret (OutBools b)
  | OpSnapshot => z ← Snapshot; mret (OutZ z)
  | OpRevertToSnapshot id => _ ← RevertToSnapshot id; mret OutUnit
  end.

Fixpoint run_ops (ops : list Op) : DB (list Out) :=
  match ops with
  | [] => mret []
  | op :: ops => out ← run_op op; outs ← run_ops ops; mret (out :: outs)
  end.
End spec.

(** * Objects of the state

    What can be observed of an object, and that reading does not change it. *)

(** ** Splitting never panics *)

Lemma readSize_ok b slen :
  Forall is_byte b → 1 ≤ slen →
  readSize b slen = Ret (inl ErrUnexpectedEOF) ∨ readSize b slen = Ret (inl ErrCanonSize) ∨
  ∃ s, readSize b slen = Ret (inr s) ∧ slen ≤ len b ∧ 56 ≤ s < 256 ^ slen.
Proof.
  intros Hb Hs. unfold readSize. destruct (Z.ltb_spec (len b) slen); [by left|right].
  pose proof (be_val_bound (take (Z.to_nat slen) b) (Forall_take _ _ _ Hb)) as Hv.
  rewrite length_take in Hv. replace (Z.of_nat _) with slen in Hv by (unfold len in *; lia).
  destruct (Z.ltb_spec (be_val (take (Z.to_nat slen) b)) 56); [by left|].
  destruct b as [|x b]; [unfold len in *; cbn in *; lia|]. change (index (x :: b) 0) with (Ret x). cbn [mbind Go_bind].
  destruct (x =? 0); [by left|]. right. eexists. split; [done|]. lia.
Qed.

Definition kind_fits (b : bytes) (r : RlpError + (Kind * Z * Z)) : Prop :=
  match r with inl _ => True | inr (_, ts, cs) => 0 ≤ ts ∧ 0 ≤ cs ∧ ts + cs ≤ len b end.

Lemma readKind_ok b : Forall is_byte b → len b < 2 ^ 64 → ∃ r, readKind b = Ret r ∧ kind_fits b r.
Proof.
  intros Hb Hl. unfold readKind. destruct b as [|x b]; [by eexists|]. pose proof Hb as Hb0.
  apply Forall_cons in Hb as [Hx Hb]. unfold is_byte in Hx. pose proof (len_0 b). rewrite len_cons in *.
  assert (∀ k ts cs, 0 ≤ ts ≤ 1 + len b → 0 ≤ cs →
    ∃ r, (if wrapU 64 (1 + len b - ts) <? cs then Ret (inl ErrValueTooLarge) else Ret (inr (k, ts, cs)))
         = Ret (A := RlpError + (Kind * Z * Z)) r ∧ kind_fits (x :: b) r) as Hend.
  { intros k ts cs Hts Hcs. rewrite wrapU_small by lia. destruct (Z.ltb_spec (1 + len b - ts) cs); eexists; (split; [done|]); [done|].
    cbn. rewrite len_cons. lia. }
  destruct (Z.ltb_spec x 128); [apply (Hend KByte 0 1); lia|].
  destruct (Z.ltb_spec x 184).
  { destruct (_ && _); [by eexists|]. apply (Hend KString 1 (x - 128)); lia. }
  destruct (Z.ltb_spec x 192).
  { destruct (readSize_ok b (x - 183) Hb ltac:(lia)) as [-> |[-> |(s & -> & Hs & Hv)]]; [by eexists..|].
    apply (Hend KString (x - 183 + 1) s); lia. }
  destruct (Z.ltb_spec x 248); [apply (Hend KList 1 (x - 192)); lia|].
  destruct (readSize_ok b (x - 247) Hb ltac:(lia)) as [-> |[-> |(s & -> & Hs & Hv)]]; [by eexists..|].
  apply (Hend KList (x - 247 + 1) s); lia.
Qed.

Lemma subslice_ok b i j : 0 ≤ i ≤ j → j ≤ len b → ∃ r, subslice b i j = Ret r.
Proof.
  intros Hi Hj. unfold subslice.
  rewrite (proj2 (Z.leb_le 0 i)), (proj2 (Z.leb_le i j)), (proj2 (Z.leb_le j (len b))) by lia. by eexists.
Qed.

Lemma Split_ok b : Forall is_byte b → len b < 2 ^ 64 → ∃ r, Split b = Ret r.
Proof.
  intros Hb Hl. unfold Split. destruct (readKind_ok b Hb Hl) as ([err|[[k ts] cs]] & -> & Hf); [by eexists|].
  cbn in *. rewrite wrapU_small by lia.
  destruct (subslice_ok b ts (ts + cs)) as [c ->]; [lia..|]. destruct (subslice_ok b (ts + cs) (len b)) as [r ->]; [lia..|].
  by eexists.
Qed.

Lemma slot_value_ok enc : Forall is_byte enc → len enc < 2 ^ 64 → ∃ r, slot_value enc = Ret r.
Proof.
  intros Hb Hl. unfold slot_value. destruct (0 <? len enc); [|by eexists].
  destruct (Split_ok enc Hb Hl) as [r ->]. by eexists.
Qed.

(** ** What the state expects of Keccak and of the database *)

Class DatabaseLaws `{Externals, !Database} : Prop := {
  Keccak256_bytes b : length (Keccak256 b) = 32%nat ∧ Forall is_byte (Keccak256 b);
  empty_storage h : ∃ t, OpenStorageTrie h emptyRoot = inr t ∧ ∀ k, TryGet t k = inr [];
  TryGet_bytes t k enc : TryGet t k = inr enc → Forall is_byte enc ∧ len enc < 2 ^ 64;
  code_size h c : fst (ContractCodeSize h c) = len (default [] (fst (ContractCode h c)))
}.

Section objects.
Context `{HD : DatabaseLaws}.

Definition code_of (o : stateObject) : bytes := default [] (snd (so_Code o)).
Definition committed_value (o : stateObject) (key : Hash) : Hash :=
  match so_GetCommittedState key o with Ret (_, v) => v | Panic _ => 0 end.
Definition state_value (o : stateObject) (key : Hash) : Hash :=
  match dirtyStorage o !! key with Some v => v | None => committed_value o key end.

Definition view (o : stateObject) : AccView :=
  mkView (Nonce (so_data o)) (Balance (so_data o)) (CodeHash (so_data o)) (code_of o) (suicided o)
    (state_value o) (committed_value o).

Definition hash_bytes (h : bytes) : Prop := length h = 32%nat ∧ Forall is_byte h.

(** A live object at its address, which is not a debugging object. *)
Record obj_wf (a : Address) (o : stateObject) : Prop := {
  wf_address : so_address o = a;
  wf_addrHash : so_addrHash o = Keccak256Hash (Address_Bytes a);
  wf_fake : fakeStorage o = None;
  wf_code : hash_bytes (CodeHash (so_data o))
}.

Lemma hash_bytes_round h : hash_bytes h → Hash_Bytes (BytesToHash h) = h.
Proof. intros [Hl Hb]. by apply BytesToHash_round. Qed.

(** ** Reading storage *)

(** The storage of the trie, for a key that is in no cache. *)
Definition trie_value (o : stateObject) (key : Hash) : Hash :=
  match TryGet (snd (getTrie o)) (Hash_Bytes key) with
  | inl _ => 0
  | inr enc => match slot_value enc with Ret (v, _) => v | Panic _ => 0 end
  end.

Lemma committed_cases o key : fakeStorage o = None →
  committed_value o key =
    match pendingStorage o !! key, originStorage o !! key with
    | Some v, _ => v
    | None, Some v => v
    | None, None => trie_value o key
    end.
Proof.
  intros Hf. unfold committed_value, so_GetCommittedState, trie_value. rewrite Hf.
  destruct (pendingStorage o !! key); [done|]. destruct (originStorage o !! key); [done|].
  destruct (getTrie o) as [o' t]. cbn [snd]. destruct (TryGet t (Hash_Bytes key)) as [err|enc]; [done|].
  by destruct (slot_value enc) as [[v e]|].
Qed.

(** The parts of an object that its view and its place in the state depend on. *)
Record same_core (o o' : stateObject) : Prop := {
  core_address : so_address o' = so_address o;
  core_addrHash : so_addrHash o' = so_addrHash o;
  core_data : so_data o' = so_data o;
  core_fake : fakeStorage o' = fakeStorage o;
  core_suicided : suicided o' = suicided o;
  core_deleted : deleted o' = deleted o
}.

Lemma obj_wf_core a o o' : same_core o o' → obj_wf a o → obj_wf a o'.
Proof. intros [? ? Hd ? ? ?] [? ? ? ?]. split; rewrite ?Hd; congruence. Qed.

Lemma getTrie_core o : same_core o (fst (getTrie o)).
Proof.
  unfold getTrie. destruct (so_trie o); [by split|]. by destruct (OpenStorageTrie _ _); split.
Qed.

Lemma getTrie_again o : snd (getTrie (fst (getTrie o))) = snd (getTrie o).
Proof.
  unfold getTrie. destruct (so_trie o) eqn:Ht; [cbn; by rewrite Ht|]. by destruct (OpenStorageTrie _ _).
Qed.

Lemma getTrie_storage o :
  originStorage (fst (getTrie o)) = originStorage o ∧ pendingStorage (fst (getTrie o)) = pendingStorage o ∧
  dirtyStorage (fst (getTrie o)) = dirtyStorage o ∧ so_code (fst (getTrie o)) = so_code o.
Proof. unfold getTrie. destruct (so_trie o); [done|]. by destruct (OpenStorageTrie _ _). Qed.

Lemma getTrie_ext o o' :
  so_trie o' = so_trie o → so_addrHash o' = so_addrHash o → so_data o' = so_data o →
  snd (getTrie o') = snd (getTrie o).
Proof.
  intros Ht Ha Hd. unfold getTrie. rewrite Ht, Ha, Hd. destruct (so_trie o); [done|]. by destruct (OpenStorageTrie _ _).
Qed.

Lemma trie_value_trie o o' : snd (getTrie o') = snd (getTrie o) → trie_value o' = trie_value o.
Proof. intros He. unfold trie_value. by rewrite He. Qed.

Lemma code_of_eq o o' :
  so_code o' = so_code o → so_data o' = so_data o → so_addrHash o' = so_addrHash o → code_of o' = code_of o.
Proof.
  intros Hc Hd Ha. unfold code_of, so_Code. rewrite Hc, Hd, Ha. destruct (so_code o); [done|].
  case_bool_decide; [done|]. by destruct (ContractCode _ _).
Qed.

(** Reading leaves the view as it is. *)
Definition reads_only (o o' : stateObject) : Prop := same_core o o' ∧ view o' = view o.

Lemma reads_only_refl o : reads_only o o.
Proof. by split. Qed.

(** Below the pending writes. *)
Definition base_value (o : stateObject) (key : Hash) : Hash := default (trie_value o key) (originStorage o !! key).

Lemma committed_base o key : fakeStorage o = None → committed_value o key = default (base_value o key) (pendingStorage o !! key).
Proof.
  intros Hf. rewrite committed_cases by done. unfold base_value.
  destruct (pendingStorage o !! key); [done|]. by destruct (originStorage o !! key).
Qed.

Lemma view_eq o o' :
  same_core o o' → fakeStorage o = None → code_of o' = code_of o → dirtyStorage o' = dirtyStorage o →
  pendingStorage o' = pendingStorage o → (∀ k, base_value o' k = base_value o k) → view o' = view o.
Proof.
  intros [Ha Hh Hda Hf Hsu Hde] Hn Hc Hd Hp Hb.
  assert (committed_value o' = committed_value o) as Hcv.
  { extensionality k. rewrite !committed_base by congruence. by rewrite Hp, Hb. }
  assert (state_value o' = state_value o) as Hsv.
  { extensionality k. unfold state_value. by rewrite Hd, Hcv. }
  unfold view. by rewrite Hda, Hc, Hsu, Hcv, Hsv.
Qed.

Lemma committed_read o key :
  fakeStorage o = None →
  ∃ o', so_GetCommittedState key o = Ret (o', committed_value o key) ∧ reads_only o o'.
Proof.
  intros Hf. pose proof (getTrie_core o) as Hc. pose proof (getTrie_again o) as Hg.
  pose proof (getTrie_storage o) as (Ho & Hp & Hd & Hcode).
  rewrite committed_base by done. unfold so_GetCommittedState, base_value. rewrite Hf.
  destruct (pendingStorage o !! key) eqn:Epend; [by eexists|].
  destruct (originStorage o !! key) eqn:Eorig; [by eexists|].
  destruct (getTrie o) as [o1 t] eqn:Etrie. cbn [fst snd] in *. pose proof Hc as [Hca Hch Hda Hfa Hsu Hde].
  assert (∀ err, reads_only o (set_error_if err o1)) as Herr.
  { intros err. assert (same_core o (set_error_if err o1)) as Hcore by (destruct err; by split).
    split; [done|]. apply view_eq; [done..| | | |].
    - apply code_of_eq; by destruct err.
    - by destruct err.
    - by destruct err.
    - intros k. unfold base_value. rewrite (trie_value_trie o) by (rewrite Etrie, <- Hg; apply getTrie_ext; by destruct err).
      destruct err; cbn; by rewrite Ho. }
  destruct (TryGet t (Hash_Bytes key)) as [err|enc] eqn:Eget.
  - eexists. split; [|apply (Herr (Some err))]. cbn. unfold trie_value. rewrite Etrie. cbn [snd]. by rewrite Eget.
  - destruct (TryGet_bytes t _ _ Eget) as [Hb Hl]. destruct (slot_value_ok enc Hb Hl) as [[v e] Hv]. rewrite Hv.
    assert (trie_value o key = v) as Htv by (unfold trie_value; rewrite Etrie; cbn [snd]; by rewrite Eget, Hv).
    eexists. split; [cbn; by rewrite Htv|]. destruct (Herr e) as [[Hca' Hch' Hda' Hfa' Hsu' Hde'] _].
    assert (same_core o (set_storage (<[key:=v]> (originStorage (set_error_if e o1))) (pendingStorage (set_error_if e o1))
      (dirtyStorage (set_error_if e o1)) (set_error_if e o1))) as Hcore by by split.
    split; [done|]. apply view_eq; [done..| | | |].
    + apply code_of_eq; by destruct e.
    + by destruct e.
    + by destruct e.
    + intros k. unfold base_value. rewrite (trie_value_trie o) by (rewrite Etrie, <- Hg; apply getTrie_ext; by destruct e).
      assert (originStorage (set_error_if e o1) = originStorage o) as -> by (destruct e; exact Ho).
      cbn [set_storage originStorage]. destruct (decide (k = key)) as [->|Hne].
      * by rewrite lookup_insert, Eorig, decide_True by done.
      * by rewrite lookup_insert_ne by congruence.
Qed.

Lemma touched_view k o : fakeStorage o = None → reads_only o (set_touched k o).
Proof. intros Hf. assert (same_core o (set_touched k o)) by by split. split; [done|].
  apply view_eq; [done..|by apply code_of_eq|done|done|]. intros x. unfold base_value.
  by rewrite (trie_value_trie o) by by apply getTrie_ext.
Qed.

Lemma reads_only_trans o1 o2 o3 : reads_only o1 o2 → reads_only o2 o3 → reads_only o1 o3.
Proof. intros [[? ? ? ? ? ?] ?] [[? ? ? ? ? ?] ?]. split; [split|]; congruence. Qed.

Lemma state_read o key :
  fakeStorage o = None → ∃ o', so_GetState key o = Ret (o', state_value o key) ∧ reads_only o o'.
Proof.
  intros Hf. unfold so_GetState, state_value. cbn [fakeStorage set_touched dirtyStorage]. rewrite Hf.
  pose proof (touched_view ({[key]} ∪ ResearchTouched o) o Hf) as Ht.
  destruct (dirtyStorage o !! key) eqn:Ed; [by eexists|].
  destruct (committed_read (set_touched ({[key]} ∪ ResearchTouched o) o) key Hf) as (o' & -> & Hr).
  exists o'. split; [|by eapply reads_only_trans]. destruct Ht as [_ Hv].
  by rewrite (f_equal av_Committed Hv : committed_value _ = committed_value _).
Qed.

Lemma code_read o : fakeStorage o = None → reads_only o (fst (so_Code o)).
Proof.
  intros Hf. unfold so_Code. destruct (so_code o) eqn:Ec; [apply reads_only_refl|].
  case_bool_decide as Hh; [apply reads_only_refl|]. destruct (ContractCode _ _) as [c e] eqn:Ecc. cbn [fst].
  assert (same_core o (set_code c (set_error_if e o))) as Hcore by (destruct e; by split).
  split; [done|]. apply view_eq; [done..| | | |].
  - assert (code_of o = default [] c) as -> by (unfold code_of, so_Code; by rewrite Ec, bool_decide_false, Ecc by done).
    unfold code_of, so_Code. destruct c as [c|]; [done|].
    destruct e; cbn; rewrite bool_decide_false by done; by rewrite Ecc.
  - by destruct e.
  - by destruct e.
  - intros k. unfold base_value. rewrite (trie_value_trie o) by (apply getTrie_ext; by destruct e).
    by destruct e.
Qed.

Lemma size_read o : fakeStorage o = None →
  snd (so_CodeSize o) = len (code_of o) ∧ reads_only o (fst (so_CodeSize o)).
Proof.
  intros Hf. unfold so_CodeSize, code_of, so_Code. destruct (so_code o) eqn:Ec; [by split|].
  case_bool_decide as Hh; [by split|].
  pose proof (code_size (so_addrHash o) (BytesToHash (CodeHash (so_data o)))) as Hsz.
  destruct (ContractCodeSize _ _) as [n e]. destruct (ContractCode _ _) as [c e'] eqn:Ecc. cbn in Hsz |- *. split; [done|].
  assert (same_core o (set_error_if e o)) as Hcore by (destruct e; by split).
  split; [done|]. apply view_eq; [done..| | | |].
  - apply code_of_eq; by destruct e.
  - by destruct e.
  - by destruct e.
  - intros k. unfold base_value. rewrite (trie_value_trie o) by (apply getTrie_ext; by destruct e).
    by destruct e.
Qed.
End objects.
