(* ===== verification/StateUndo.v ===== *)
(** * Journal entries undo what they record

    [abs] is what can be observed of a state, and [aundo] undoes an entry on it.
    [does] is a step of the state whose new entries, undone from the last one,
    lead back to where it started. *)

From Stdlib Require Import FunctionalExtensionality.
From S2P Require Import Prelude Common Uint256 Machine VmFacts Vm Rlp RlpFacts RlpDecode RlpStreamFacts State Statedb StateView.

(** ** Specification states *)

Lemma set_account_set a v w A : set_account a v (set_account a w A) = set_account a v A.
Proof. unfold set_account. cbn. f_equal. extensionality x. by case_decide. Qed.

Lemma set_account_id a A : set_account a (a_account A a) A = A.
Proof.
  destruct A. unfold set_account. cbn. f_equal. extensionality x. case_decide as Hx; [by subst|done].
Qed.

Lemma a_account_set a v A : a_account (set_account a v A) a = v.
Proof. cbn. by rewrite decide_True. Qed.

Definition al_wf (al : accessList) : Prop :=
  (∀ a i, al_addresses al !! a = Some i → i = -1 ∨ 0 ≤ i < Z.of_nat (length (al_slots al))) ∧
  ∀ m, m ∈ al_slots al → m ≠ ∅.

Record awf (A : AState) : Prop := {
  awf_access : al_wf (a_access A);
  awf_logs : ∀ h l, a_logs A !! h = Some l → l ≠ [];
  awf_logSize : 0 ≤ a_logSize A < 2 ^ 64
}.

Section undo.
Context `{HD : DatabaseLaws}.

Definition account (s : statedb) (a : Address) : option AccView :=
  match stateObjects s !! a with
  | Some o => if deleted o then None else Some (view o)
  | None => match trie_object (trie s) a with inr (Some o) => Some (view o) | _ => None end
  end.

Definition abs (s : statedb) : AState :=
  mkAState (account s) (refund s) (thash s) (txIndex s) (logs s) (logSize s) (preimages s) (access s).

Definition absent (tr : Trie) (a : Address) : Prop := ∀ o, trie_object tr a ≠ inr (Some o).

Definition entry_wf (tr : Trie) (e : journalEntry) : Prop :=
  match e with
  | createObjectChange a => absent tr a
  | resetObjectChange prev => obj_wf (so_address prev) prev
  | _ => True
  end.

Definition trie_ok (tr : Trie) : Prop := ∀ a o, trie_object tr a = inr (Some o) → hash_bytes (CodeHash (so_data o)).

Record swf (s : statedb) : Prop := {
  swf_objects : ∀ a o, stateObjects s !! a = Some o → obj_wf a o;
  swf_trie : trie_ok (trie s);
  swf_journal : Forall (entry_wf (trie s)) (entries (jrnl s))
}.

(** ** Undoing on specification states *)

Definition on_account (a : Address) (f : AccView → AccView) (A : AState) : option AState :=
  (λ v, set_account a (Some (f v)) A) <$> a_account A a.

Definition code_at (a : Address) (c : option bytes) (h : bytes) : bytes :=
  match c with
  | Some c => c
  | None =>
      if bool_decide (h = emptyCodeHash) then []
      else default [] (fst (ContractCode (Keccak256Hash (Address_Bytes a)) (BytesToHash h)))
  end.

Definition drop_log (h : Hash) (A : AState) : option AState :=
  match default [] (a_logs A !! h) with
  | [] => None
  | [_] => Some (a_set_logs (delete h (a_logs A)) (wrapU 64 (a_logSize A - 1)) A)
  | l => Some (a_set_logs (<[h := take (length l - 1) l]> (a_logs A)) (wrapU 64 (a_logSize A - 1)) A)
  end.

Definition aundo (e : journalEntry) (A : AState) : option AState :=
  match e with
  | createObjectChange a => Some (set_account a None A)
  | resetObjectChange prev => Some (set_account (so_address prev) (if deleted prev then None else Some (view prev)) A)
  | suicideChange a prev b => on_account a (λ v, v_set_Balance b (v_set_suicided prev v)) A
  | balanceChange a b => on_account a (v_set_Balance b) A
  | nonceChange a n => on_account a (v_set_Nonce n) A
  | storageChange a k v => on_account a (v_set_State k v) A
  | codeChange a c h => on_account a (v_set_Code (Hash_Bytes (BytesToHash h)) (code_at a c (Hash_Bytes (BytesToHash h)))) A
  | refundChange r => Some (a_set_refund r A)
  | addLogChange h => drop_log h A
  | addPreimageChange h => Some (a_set_preimages (delete h (a_preimages A)) A)
  | touchChange _ => Some A
  | accessListAddAccountChange a => Some (a_set_access (DeleteAddress (a_access A) a) A)
  | accessListAddSlotChange a slot =>
      match DeleteSlot (a_access A) a slot with Ret al => Some (a_set_access al A) | Panic _ => None end
  end.

Fixpoint aundos (l : list journalEntry) (A : AState) : option AState :=
  match l with [] => Some A | e :: l => A' ← aundo e A; aundos l A' end.

Lemma aundos_app l1 l2 A : aundos (l1 ++ l2) A = (A' ← aundos l1 A; aundos l2 A').
Proof. revert A. induction l1 as [|e l1 IH]; intros A; [done|]. cbn. destruct (aundo e A); [apply IH|done]. Qed.

(** ** Quiet steps: the state changes, but nothing of it that can be observed *)

Record quiet (s s' : statedb) : Prop := {
  quiet_trie : trie s' = trie s;
  quiet_jrnl : jrnl s' = jrnl s;
  quiet_revs : validRevisions s' = validRevisions s;
  quiet_next : nextRevisionId s' = nextRevisionId s;
  quiet_abs : abs s' = abs s;
  quiet_swf : swf s'
}.

Lemma unobserved_refl s : swf s → quiet s s.
Proof. by split. Qed.

Lemma unobserved_trans s1 s2 s3 : quiet s1 s2 → quiet s2 s3 → quiet s1 s3.
Proof. intros [] []. split; congruence. Qed.

Lemma db_bind {A B} (m : DB A) (k : A → DB B) s a s' : m s = Ret (a, s') → (m ≫= k) s = k a s'.
Proof. intros He. unfold mbind, DB_bind. by rewrite He. Qed.

Lemma get_bind {A B} (f : statedb → A) (k : A → DB B) s : (db_get f ≫= k) s = k (f s) s.
Proof. done. Qed.
Lemma modify_bind {B} f (k : () → DB B) s : (db_modify f ≫= k) s = k tt (f s).
Proof. done. Qed.

(** An object put at its address. *)
Lemma account_insert s a o :
  account (set_stateObjects <[a := o]> s)
  = λ x, if decide (x = a) then (if deleted o then None else Some (view o)) else account s x.
Proof.
  extensionality x. unfold account. cbn. destruct (decide (x = a)) as [->|Hne].
  - by rewrite lookup_insert, decide_True.
  - by rewrite lookup_insert_ne by congruence.
Qed.

Lemma abs_insert s a o :
  abs (set_stateObjects <[a := o]> s) = set_account a (if deleted o then None else Some (view o)) (abs s).
Proof. unfold abs, set_account. by rewrite account_insert. Qed.

Lemma swf_insert s a o : swf s → obj_wf a o → swf (set_stateObjects <[a := o]> s).
Proof.
  intros [Ho Ht Hj] Hw. split; [|done..]. intros x o' Hx. cbn in Hx. destruct (decide (x = a)) as [->|Hne].
  - rewrite lookup_insert, decide_True in Hx by done. by injection Hx as <-.
  - rewrite lookup_insert_ne in Hx by congruence. by apply Ho.
Qed.

Lemma quiet_put s a o o' :
  swf s → stateObjects s !! a = Some o → reads_only o o' → quiet s (set_stateObjects <[a := o']> s).
Proof.
  intros Hs Ho [Hc Hv]. split; try done; [|apply swf_insert; [done|]].
  - rewrite abs_insert. rewrite (core_deleted _ _ Hc), Hv.
    transitivity (set_account a (a_account (abs s) a) (abs s)); [|apply set_account_id].
    f_equal. cbn. unfold account. by rewrite Ho.
  - eapply obj_wf_core; [done|]. by apply (swf_objects s).
Qed.

Lemma trie_object_new tr a o : trie_object tr a = inr (Some o) → ∃ data, o = newObject a false data.
Proof.
  unfold trie_object. destruct (TryGet tr _) as [|enc]; [done|]. destruct (len enc =? 0); [done|].
  destruct (DecodeBytes enc _) as [[e|v]|]; [done| |done]. intros [= He].
  apply fmap_Some in He as (data & _ & ->). by eexists.
Qed.

Lemma newObject_wf a nil data : hash_bytes (CodeHash (so_data (newObject a nil data))) → obj_wf a (newObject a nil data).
Proof. by split. Qed.

Lemma getDeletedStateObject_spec a s :
  swf s → ∃ r s', getDeletedStateObject a s = Ret (r, s') ∧ quiet s s' ∧
    match r with
    | Some o => stateObjects s' !! a = Some o ∧ account s a = (if deleted o then None else Some (view o))
    | None => stateObjects s' !! a = None ∧ account s a = None ∧ absent (trie s) a
    end.
Proof.
  intros Hs. unfold getDeletedStateObject, account. rewrite get_bind. destruct (stateObjects s !! a) as [o|] eqn:Ho.
  { eexists _, _. split; [done|]. split; [by apply unobserved_refl|]. by rewrite Ho. }
  rewrite get_bind. unfold absent. destruct (trie_object (trie s) a) as [err|[o|]] eqn:Ht.
  - rewrite modify_bind. eexists _, _. split; [done|]. cbn. split; [|done]. split; try done. destruct Hs. by split.
  - pose proof (swf_trie s Hs a o Ht) as Hh. destruct (trie_object_new _ _ _ Ht) as [data ->].
    unfold setStateObject. rewrite modify_bind. eexists _, _. split; [done|]. cbn.
    rewrite lookup_insert, decide_True by done. split; [|done].
    split; try done; [|by apply swf_insert, newObject_wf].
    rewrite abs_insert. transitivity (set_account a (a_account (abs s) a) (abs s)); [|apply set_account_id].
    f_equal. cbn. unfold account. by rewrite Ho, Ht.
  - eexists _, _. split; [done|]. split; [by apply unobserved_refl|]. done.
Qed.

Lemma record_pre_spec a x s : swf s → ∃ s', record_pre a x s = Ret (tt, s') ∧ quiet s s' ∧ stateObjects s' = stateObjects s.
Proof.
  intros Hs. unfold record_pre. rewrite get_bind. destruct (ResearchPreAlloc s !! a).
  - exists s. split; [done|]. split; [by apply unobserved_refl|done].
  - eexists. split; [done|]. split; [|done]. split; try done. destruct Hs. by split.
Qed.

(** A reader on a live object. *)
Lemma on_object_read {A} (f : stateObject → Go (stateObject * A)) a o o' x s :
  swf s → stateObjects s !! a = Some o → f o = Ret (o', x) → reads_only o o' →
  ∃ s', on_object a f s = Ret (x, s') ∧ quiet s s' ∧ stateObjects s' !! a = Some o'.
Proof.
  intros Hs Ho Hf Hr. unfold on_object. rewrite get_bind, Ho.
  rewrite (db_bind _ _ s (o', x) s) by (unfold db_go; by rewrite Hf). rewrite modify_bind. eexists. split; [done|].
  split; [by eapply quiet_put|]. cbn. by rewrite lookup_insert, decide_True.
Qed.

Lemma getStateObject_spec a s :
  swf s → ∃ r s', getStateObject a s = Ret (r, s') ∧ quiet s s' ∧
    match account s a with
    | None => r = None
    | Some v => ∃ o, r = Some o ∧ stateObjects s' !! a = Some o ∧ deleted o = false ∧ view o = v
    end.
Proof.
  intros Hs. unfold getStateObject. destruct (getDeletedStateObject_spec a s Hs) as (r & s1 & He & Hq & Hr).
  rewrite (db_bind _ _ _ _ _ He). pose proof (quiet_swf _ _ Hq) as Hs1.
  destruct r as [o|].
  - destruct Hr as [Ho ->]. destruct (deleted o) eqn:Hd.
    + destruct (record_pre_spec a None s1 Hs1) as (s2 & He2 & Hq2 & _). rewrite (db_bind _ _ _ _ _ He2).
      eexists _, _. split; [done|]. split; [by eapply unobserved_trans|done].
    + rewrite get_bind. destruct (ResearchPreAlloc s1 !! a).
      { eexists _, _. split; [done|]. split; [done|]. by exists o. }
      pose proof (code_read o (wf_fake _ _ (swf_objects _ Hs1 _ _ Ho))) as Hrd.
      destruct (so_Code o) as [o' c] eqn:Hc. cbn [fst] in Hrd.
      destruct (on_object_read (λ o, Ret (so_Code o)) a o o' c s1 Hs1 Ho (f_equal Ret Hc) Hrd) as (s2 & He2 & Hq2 & Ho2).
      rewrite (db_bind _ _ _ _ _ He2).
      destruct (record_pre_spec a (Some (NewSubstateAccount (Nonce (so_data o)) (Balance (so_data o)) (default [] c))) s2
        (quiet_swf _ _ Hq2)) as (s3 & He3 & Hq3 & Hso3).
      rewrite (db_bind _ _ _ _ _ He3). eexists _, _. split; [done|]. split; [by do 2 (eapply unobserved_trans; [done|])|].
      exists o'. destruct Hrd as [Hcore Hv]. rewrite Hso3, (core_deleted _ _ Hcore). done.
  - destruct Hr as (_ & -> & _). destruct (record_pre_spec a None s1 Hs1) as (s2 & He2 & Hq2 & _).
    rewrite (db_bind _ _ _ _ _ He2). eexists _, _. split; [done|]. split; [by eapply unobserved_trans|done].
Qed.
End undo.

(** * The operations step as their specification

    Each operation of the state makes the change of [spec_change], and its new
    journal entries lead back. *)

Section steps.
Context `{HD : DatabaseLaws}.

Record steps (s s' : statedb) (es : list journalEntry) : Prop := {
  steps_trie : trie s' = trie s;
  steps_jrnl : entries (jrnl s') = entries (jrnl s) ++ es;
  steps_revs : validRevisions s' = validRevisions s;
  steps_next : nextRevisionId s' = nextRevisionId s;
  steps_undo : aundos (rev es) (abs s') = Some (abs s);
  steps_swf : swf s'
}.

Definition does {A} (s : statedb) (r : Go (A * statedb)) (a : A) (A' : AState) : Prop :=
  ∃ s' es, r = Ret (a, s') ∧ steps s s' es ∧ abs s' = A'.

Lemma steps_quiet s s' : quiet s s' → steps s s' [].
Proof. intros []. split; try done; [by rewrite app_nil_r; congruence|cbn; congruence]. Qed.

Lemma steps_trans s1 s2 s3 es1 es2 : steps s1 s2 es1 → steps s2 s3 es2 → steps s1 s3 (es1 ++ es2).
Proof.
  intros [] []. split; try congruence; [by rewrite app_assoc; congruence|].
  rewrite rev_app_distr, aundos_app, steps_undo1. done.
Qed.

Lemma does_quiet {A} (a : A) s s' : quiet s s' → does s (Ret (a, s')) a (abs s).
Proof. intros Hq. exists s', []. split; [done|]. split; [by apply steps_quiet|apply Hq]. Qed.

Lemma does_ret {A} (a : A) s : swf s → does s (Ret (a, s)) a (abs s).
Proof. intros Hs. by apply does_quiet, unobserved_refl. Qed.

Lemma does_bind {A B} (m : DB A) (k : A → DB B) s a A1 b A2 :
  does s (m s) a A1 → (∀ s', swf s' → abs s' = A1 → does s' (k a s') b A2) → does s ((m ≫= k) s) b A2.
Proof.
  intros (s1 & es1 & He1 & Hst1 & Ha1) Hk.
  destruct (Hk s1 (steps_swf _ _ _ Hst1) Ha1) as (s2 & es2 & He2 & Hst2 & Ha2).
  exists s2, (es1 ++ es2). rewrite (db_bind _ _ _ _ _ He1). split; [done|]. split; [by eapply steps_trans|done].
Qed.

(** After a quiet step the state is the same to the specification. *)
Lemma does_after {A B} (m : DB A) (k : A → DB B) s a s1 b A2 :
  m s = Ret (a, s1) → quiet s s1 → does s1 (k a s1) b A2 → does s ((m ≫= k) s) b A2.
Proof.
  intros He Hq (s2 & es & He2 & Hst & Ha). exists s2, es. rewrite (db_bind _ _ _ _ _ He). split; [done|].
  split; [|done]. change es with ([] ++ es). eapply steps_trans; [by apply steps_quiet|done].
Qed.

Lemma does_eq {A} s r (a : A) A1 A2 : does s r a A1 → A1 = A2 → does s r a A2.
Proof. by intros ? <-. Qed.

Lemma does_out {A B} (m : DB A) (f : A → B) s a A' : does s (m s) a A' → does s ((x ← m; mret (f x)) s) (f a) A'.
Proof. intros Hm. eapply does_bind; [done|]. intros s' Hs <-. by apply does_ret. Qed.

(** One entry and its change. *)
Lemma does_change s s' e :
  swf s → trie s' = trie s → entries (jrnl s') = entries (jrnl s) ++ [e] →
  validRevisions s' = validRevisions s → nextRevisionId s' = nextRevisionId s →
  (∀ a o, stateObjects s' !! a = Some o → obj_wf a o) → entry_wf (trie s) e →
  aundo e (abs s') = Some (abs s) → does s (Ret (tt, s')) tt (abs s').
Proof.
  intros [Ho Ht Hj] Htr Hen Hr Hn Hw He Hu. exists s', [e]. split; [done|]. split; [|done]. split; try done.
  - cbn. by rewrite Hu.
  - split; [done|by rewrite Htr|]. rewrite Hen, Htr. by apply Forall_app; split; [|constructor].
Qed.

Lemma entries_append e j : entries (journal_append e j) = entries j ++ [e].
Proof. unfold journal_append. by destruct (dirtied e). Qed.

(** An entry followed by a change of the object at [a]. *)
Lemma does_update s a o e f :
  swf s → stateObjects s !! a = Some o → deleted o = false →
  obj_wf a (f o) → deleted (f o) = false → entry_wf (trie s) e →
  aundo e (set_account a (Some (view (f o))) (abs s)) = Some (abs s) →
  does s ((_ ← append e; update_object a f) s) tt (set_account a (Some (view (f o))) (abs s)).
Proof.
  intros Hs Ho Hd Hw Hd' He Hu.
  assert ((_ ← append e; update_object a f) s
    = Ret (tt, set_stateObjects <[a := f o]> (set_jrnl (journal_append e (jrnl s)) s))) as ->.
  { unfold append. rewrite modify_bind. unfold update_object, on_object. rewrite get_bind. cbn. by rewrite Ho. }
  assert (abs (set_stateObjects <[a := f o]> (set_jrnl (journal_append e (jrnl s)) s))
    = set_account a (Some (view (f o))) (abs s)) as Habs.
  { rewrite abs_insert, Hd'. done. }
  rewrite <- Habs in Hu |- *. apply (does_change _ _ e); try done.
  - apply entries_append.
  - intros x o' Hx. apply (swf_objects _ (swf_insert s a (f o) Hs Hw) x o' Hx).
Qed.

(** ** Accounts that are there, or are created *)

Lemma emptyCodeHash_bytes : hash_bytes emptyCodeHash.
Proof. apply Keccak256_bytes. Qed.

Lemma newObject_empty_wf a : obj_wf a (newObject a true no_data).
Proof. apply newObject_wf. apply emptyCodeHash_bytes. Qed.

Lemma view_new a : view (newObject a true no_data) = new_account.
Proof.
  assert (committed_value (newObject a true no_data) = λ _, 0) as Hc.
  { extensionality k. rewrite committed_cases by done. cbn [pendingStorage originStorage newObject]. rewrite !lookup_empty.
    unfold trie_value, getTrie. cbn [so_trie so_addrHash so_data newObject Root no_data Z.eqb].
    destruct (empty_storage (Keccak256Hash (Address_Bytes a))) as (t & Ht & Hk).
    rewrite Ht. cbn [snd]. by rewrite Hk. }
  unfold view, new_account. f_equal; [| |done].
  - unfold code_of, so_Code. cbn. by rewrite bool_decide_true.
  - extensionality k. unfold state_value. cbn [dirtyStorage newObject]. rewrite lookup_empty. by rewrite Hc.
Qed.

Lemma createObject_spec a s :
  swf s →
  ∃ s' r e, createObject a s = Ret (r, s') ∧ steps s s' [e] ∧ abs s' = set_account a (Some new_account) (abs s) ∧
    (∀ v, aundo e (set_account a v (abs s)) = Some (abs s)) ∧
    stateObjects s' !! a = Some (newObject a true no_data) ∧
    match r with None => account s a = None | Some o => account s a = Some (view o) end.
Proof.
  intros Hs. unfold createObject. destruct (getDeletedStateObject_spec a s Hs) as (r & s1 & He & Hq & Hr).
  rewrite (db_bind _ _ _ _ _ He). pose proof (quiet_swf _ _ Hq) as Hs1.
  set (e := match r with None => createObjectChange a | Some prev => resetObjectChange prev end).
  assert (match r with None => append (createObjectChange a) | Some prev => append (resetObjectChange prev) end = append e) as ->
    by by destruct r.
  assert (∀ v, aundo e (set_account a v (abs s)) = Some (abs s)) as Hu.
  { intros v. transitivity (Some (set_account a (a_account (abs s) a) (abs s))); [|by rewrite set_account_id].
    subst e. destruct r as [o|]; cbn [aundo].
    - destruct Hr as [Ho Hacc]. rewrite (wf_address _ _ (swf_objects _ Hs1 _ _ Ho)), set_account_set. cbn. by rewrite Hacc.
    - rewrite set_account_set. destruct Hr as (_ & Hacc & _). cbn. by rewrite Hacc. }
  unfold append, setStateObject. rewrite !modify_bind. eexists _, _, e. split; [done|].
  set (s2 := set_stateObjects <[a := newObject a true no_data]> (set_jrnl (journal_append e (jrnl s1)) s1)).
  assert (abs s2 = set_account a (Some new_account) (abs s)) as Ha.
  { subst s2. rewrite abs_insert. cbn [deleted newObject]. rewrite view_new. change (abs (set_jrnl _ s1)) with (abs s1).
    by rewrite (quiet_abs _ _ Hq). }
  assert (∀ e', entry_wf (trie s) e' → e' = e → swf s2) as Hwf.
  { intros e' Hwe ->. split; [intros x o Hx; apply (swf_objects _ (swf_insert s1 a _ Hs1 (newObject_empty_wf a)) x o Hx)|apply Hs1|].
    cbn. rewrite entries_append, (quiet_trie _ _ Hq). apply Forall_app. split; [|by constructor].
    rewrite (quiet_jrnl _ _ Hq). apply Hs. }
  split; [|split; [done|split; [done|split; [cbn; by rewrite lookup_insert, decide_True|]]]].
  - split; cbn; [apply Hq| |apply Hq..| |].
    + by rewrite entries_append, (quiet_jrnl _ _ Hq).
    + change (aundos [e] (abs s2) = Some (abs s)). rewrite Ha. cbn. by rewrite Hu.
    + apply (Hwf e); [|done]. subst e. destruct r as [o|]; [|apply Hr]. cbn.
      destruct Hr as [Ho _]. pose proof (swf_objects _ Hs1 _ _ Ho) as Hw. by rewrite (wf_address _ _ Hw).
  - destruct r as [o|]; [|apply Hr]. destruct Hr as [_ Hacc]. by destruct (deleted o).
Qed.

(** The account that operations work on. *)
Definition got (a : Address) (A : AState) : AState := set_account a (Some (default new_account (a_account A a))) A.

Lemma update_account_got a f A : update_account a f A = update_account a f (got a A).
Proof. unfold update_account, got. by rewrite a_account_set, set_account_set. Qed.

Definition live (s : statedb) (a : Address) (o : stateObject) : Prop :=
  stateObjects s !! a = Some o ∧ deleted o = false.

Lemma live_account s a o : live s a o → a_account (abs s) a = Some (view o).
Proof. intros [Ho Hd]. cbn. unfold account. by rewrite Ho, Hd. Qed.

Lemma GetOrNew_bind {B} (k : () → DB B) a s b A2 :
  swf s →
  (∀ s' o, swf s' → abs s' = got a (abs s) → live s' a o → does s' (k tt s') b A2) →
  does s ((GetOrNewStateObject a ≫= k) s) b A2.
Proof.
  intros Hs Hk. destruct (getStateObject_spec a s Hs) as (r & s1 & He & Hq & Hr).
  pose proof (quiet_swf _ _ Hq) as Hs1.
  destruct (account s a) as [v|] eqn:Hacc.
  - destruct Hr as (o & -> & Ho & Hd & Hv).
    eapply (does_after _ _ _ tt s1); [|done|].
    + unfold GetOrNewStateObject. by rewrite (db_bind _ _ _ _ _ He).
    + apply (Hk s1 o Hs1); [|done]. rewrite (quiet_abs _ _ Hq). unfold got. cbn. rewrite Hacc. cbn.
      rewrite <- Hacc. symmetry. apply (set_account_id a (abs s)).
  - subst r. destruct (createObject_spec a s1 Hs1) as (s2 & r & e & He2 & Hst & Ha & _ & Ho & _).
    assert (GetOrNewStateObject a s = Ret (tt, s2)) as Hg.
    { unfold GetOrNewStateObject. rewrite (db_bind _ _ _ _ _ He). by rewrite (db_bind _ _ _ _ _ He2). }
    destruct (Hk s2 _ (steps_swf _ _ _ Hst) ltac:(rewrite Ha, (quiet_abs _ _ Hq); unfold got; cbn; by rewrite Hacc) (conj Ho eq_refl))
      as (s3 & es3 & He3 & Hst3 & Ha3).
    exists s3, ([e] ++ es3). rewrite (db_bind _ _ _ _ _ Hg). split; [done|]. split; [|done].
    eapply steps_trans; [|done]. change [e] with ([] ++ [e]). eapply steps_trans; [by apply steps_quiet|done].
Qed.
End steps.
