(* ===== verification/StateOps.v ===== *)
(** * The operations of the state, one by one

    [op_steps] collects them: every change makes the step of its specification. *)

From Stdlib Require Import FunctionalExtensionality.
From S2P Require Import Prelude Common Uint256 Machine VmFacts Vm Rlp RlpFacts RlpDecode RlpStreamFacts State Statedb StateView StateUndo.

Section ops.
Context `{HD : DatabaseLaws}.

(** ** Reading the live object *)

Lemma object_at_live {A} (f : stateObject → A) a o s :
  swf s → stateObjects s !! a = Some o → object_at a f s = Ret (f o, set_stateObjects <[a := o]> s).
Proof. intros Hs Ho. unfold object_at, on_object. rewrite get_bind, Ho. done. Qed.

Lemma object_at_bind {A B} (f : stateObject → A) (k : A → DB B) a o s b A2 :
  swf s → live s a o →
  (∀ s', swf s' → abs s' = abs s → live s' a o → does s' (k (f o) s') b A2) →
  does s ((object_at a f ≫= k) s) b A2.
Proof.
  intros Hs [Ho Hd] Hk. pose proof (quiet_put s a o o Hs Ho (reads_only_refl o)) as Hq.
  eapply does_after; [by apply object_at_live|done|]. apply Hk; [apply Hq|apply Hq|].
  split; [|done]. cbn. by rewrite lookup_insert, decide_True.
Qed.

Lemma on_object_bind {A B} (f : stateObject → Go (stateObject * A)) (k : A → DB B) a o o' x s b A2 :
  swf s → live s a o → f o = Ret (o', x) → reads_only o o' →
  (∀ s', swf s' → abs s' = abs s → live s' a o' → does s' (k x s') b A2) →
  does s ((on_object a f ≫= k) s) b A2.
Proof.
  intros Hs [Ho Hd] Hf Hr Hk. destruct (on_object_read f a o o' x s Hs Ho Hf Hr) as (s' & He & Hq & Ho').
  eapply does_after; [done..|]. apply Hk; [apply Hq|apply Hq|]. split; [done|].
  destruct Hr as [Hc _]. by rewrite (core_deleted _ _ Hc).
Qed.

(** ** Views of changed objects *)

Lemma view_storage o o' :
  so_addrHash o' = so_addrHash o → Root (so_data o') = Root (so_data o) → so_trie o' = so_trie o →
  fakeStorage o = None → fakeStorage o' = None →
  originStorage o' = originStorage o → pendingStorage o' = pendingStorage o → dirtyStorage o' = dirtyStorage o →
  state_value o' = state_value o ∧ committed_value o' = committed_value o.
Proof.
  intros Ha Hr Ht Hf Hf' Ho Hp Hd.
  assert (snd (getTrie o') = snd (getTrie o)) as Hg.
  { unfold getTrie. rewrite Ht, Ha, Hr. destruct (so_trie o); [done|]. by destruct (OpenStorageTrie _ _). }
  assert (committed_value o' = committed_value o) as Hc.
  { extensionality k. rewrite !committed_base by done. unfold base_value. by rewrite Hp, Ho, (trie_value_trie o o' Hg). }
  split; [|done]. extensionality k. unfold state_value. by rewrite Hd, Hc.
Qed.

Lemma code_of_data o f :
  CodeHash (f (so_data o)) = CodeHash (so_data o) → code_of (set_data f o) = code_of o.
Proof.
  intros Hf. unfold code_of, so_Code. cbn. rewrite Hf. destruct (so_code o); [done|].
  case_bool_decide; [done|]. by destruct (ContractCode _ _).
Qed.

Lemma view_data o f :
  fakeStorage o = None → CodeHash (f (so_data o)) = CodeHash (so_data o) → Root (f (so_data o)) = Root (so_data o) →
  view (set_data f o) = mkView (Nonce (f (so_data o))) (Balance (f (so_data o))) (CodeHash (so_data o)) (code_of o)
    (suicided o) (state_value o) (committed_value o).
Proof.
  intros Hf Hc Hr. destruct (view_storage o (set_data f o)) as [Hs Hv]; try done.
  unfold view. rewrite Hs, Hv, code_of_data by done. cbn. by rewrite Hc.
Qed.

Lemma view_balance o b : fakeStorage o = None → view (set_data (set_Balance b) o) = v_set_Balance b (view o).
Proof. intros Hf. by rewrite view_data. Qed.
Lemma view_nonce o n : fakeStorage o = None → view (set_data (set_Nonce n) o) = v_set_Nonce n (view o).
Proof. intros Hf. by rewrite view_data. Qed.

Lemma view_suicided o b : fakeStorage o = None → view (set_suicided b o) = v_set_suicided b (view o).
Proof.
  intros Hf. destruct (view_storage o (set_suicided b o)) as [Hs Hv]; try done. unfold view. rewrite Hs, Hv.
  assert (code_of (set_suicided b o) = code_of o) as -> by by apply code_of_eq. done.
Qed.

Lemma view_code a o c h :
  obj_wf a o →
  view (set_dirtyCode true (set_data (set_CodeHash h) (set_code c o))) = v_set_Code h (code_at a c h) (view o).
Proof.
  intros Hw. pose proof (wf_fake _ _ Hw) as Hf.
  destruct (view_storage o (set_dirtyCode true (set_data (set_CodeHash h) (set_code c o)))) as [Hs Hv]; try done.
  unfold view. rewrite Hs, Hv. unfold v_set_Code. cbn. f_equal.
  unfold code_of, so_Code, code_at. cbn. destruct c; [done|]. case_bool_decide; [done|].
  rewrite (wf_addrHash _ _ Hw). by destruct (ContractCode _ _).
Qed.

Lemma view_dirty o k v :
  fakeStorage o = None →
  view (set_storage (originStorage o) (pendingStorage o) (<[k := v]> (dirtyStorage o)) o) = v_set_State k v (view o).
Proof.
  intros Hf. set (o' := set_storage _ _ _ o).
  assert (committed_value o' = committed_value o) as Hc.
  { extensionality x. rewrite !committed_base by done. unfold base_value.
    by rewrite (trie_value_trie o o') by by apply getTrie_ext. }
  unfold view, v_set_State. rewrite Hc. cbn [av_Nonce av_Balance av_CodeHash av_Code av_suicided av_State av_Committed].
  f_equal; [by apply code_of_eq|]. extensionality x. unfold state_value. rewrite Hc. cbn [o' set_storage dirtyStorage].
  destruct (decide (x = k)) as [->|Hne]; [by rewrite lookup_insert, decide_True|by rewrite lookup_insert_ne by congruence].
Qed.

(** ** Accounts *)

Lemma v_set_Balance_back v b : v_set_Balance (av_Balance v) (v_set_Balance b v) = v.
Proof. by destruct v. Qed.
Lemma v_set_Nonce_back v n : v_set_Nonce (av_Nonce v) (v_set_Nonce n v) = v.
Proof. by destruct v. Qed.
Lemma v_set_State_back v k x : v_set_State k (av_State v k) (v_set_State k x v) = v.
Proof.
  destruct v. unfold v_set_State. cbn. f_equal. extensionality y. by repeat (case_decide; [subst|]).
Qed.
Lemma v_set_State_same v k : v_set_State k (av_State v k) v = v.
Proof. destruct v. unfold v_set_State. cbn. f_equal. extensionality y. by case_decide; [subst|]. Qed.
Lemma v_set_Code_back v h c : v_set_Code (av_CodeHash v) (av_Code v) (v_set_Code h c v) = v.
Proof. by destruct v. Qed.

(** Undoing the change of an account that is there. *)
Lemma undo_account a f g A v :
  a_account A a = Some v → f (g v) = v →
  on_account a f (set_account a (Some (g v)) A) = Some A.
Proof.
  intros Ha Hfg. unfold on_account. rewrite a_account_set. cbn. rewrite Hfg, set_account_set, <- Ha. by rewrite set_account_id.
Qed.

Lemma update_live a f A v : a_account A a = Some v → update_account a f A = set_account a (Some (f v)) A.
Proof. intros Ha. unfold update_account. by rewrite Ha. Qed.

Lemma SetBalance_live a b o s :
  swf s → live s a o → does s (so_SetBalance a b s) tt (set_account a (Some (v_set_Balance b (view o))) (abs s)).
Proof.
  intros Hs Hl. eapply object_at_bind; [done..|]. intros s' Hs' Ha Hl'.
  pose proof (swf_objects _ Hs' _ _ (proj1 Hl')) as Hw. pose proof (wf_fake _ _ Hw) as Hf.
  rewrite <- Ha, <- view_balance by done. eapply does_update; [done|apply Hl'|apply Hl'| |apply Hl'|done|].
  - by destruct Hw.
  - cbn [aundo]. rewrite view_balance by done. apply undo_account; [by apply live_account|]. apply (v_set_Balance_back (view o)).
Qed.

Lemma touch_does a s : swf s → does s (touch a s) tt (abs s).
Proof.
  intros Hs. unfold touch, append. rewrite modify_bind.
  set (s1 := set_jrnl _ s). assert (abs s = abs s1) as Ha by done.
  destruct (a =? ripemd).
  - rewrite Ha. apply (does_change s (set_jrnl (dirty a (jrnl s1)) s1) (touchChange a)); first [done|apply entries_append|apply (swf_objects _ Hs)].
  - rewrite Ha. apply (does_change s s1 (touchChange a)); first [done|apply entries_append|apply (swf_objects _ Hs)].
Qed.

Lemma AddBalance_does a b s :
  swf s → does s (AddBalance a b s) tt (update_account a (λ v, v_set_Balance (av_Balance v + b) v) (abs s)).
Proof.
  intros Hs. rewrite update_account_got. apply GetOrNew_bind; [done|]. intros s1 o Hs1 Ha Hl. rewrite <- Ha.
  rewrite (update_live _ _ _ (view o)) by by apply live_account. unfold so_AddBalance.
  destruct (Z.eqb_spec b 0) as [->|].
  - assert (set_account a (Some (v_set_Balance (av_Balance (view o) + 0) (view o))) (abs s1) = abs s1) as ->.
    { rewrite Z.add_0_r. assert (v_set_Balance (av_Balance (view o)) (view o) = view o) as -> by by destruct (view o).
      rewrite <- (live_account _ _ _ Hl). apply set_account_id. }
    eapply object_at_bind; [done..|]. intros s2 Hs2 Ha2 Hl2. rewrite <- Ha2.
    destruct (empty o); [by apply touch_does|by apply does_ret].
  - eapply object_at_bind; [done..|]. intros s2 Hs2 Ha2 Hl2. rewrite <- Ha2. by apply SetBalance_live.
Qed.

Lemma SubBalance_does a b s :
  swf s → does s (SubBalance a b s) tt (update_account a (λ v, v_set_Balance (av_Balance v - b) v) (abs s)).
Proof.
  intros Hs. rewrite update_account_got. apply GetOrNew_bind; [done|]. intros s1 o Hs1 Ha Hl. rewrite <- Ha.
  rewrite (update_live _ _ _ (view o)) by by apply live_account. unfold so_SubBalance.
  destruct (Z.eqb_spec b 0) as [->|].
  - assert (set_account a (Some (v_set_Balance (av_Balance (view o) - 0) (view o))) (abs s1) = abs s1) as ->.
    { rewrite Z.sub_0_r. assert (v_set_Balance (av_Balance (view o)) (view o) = view o) as -> by by destruct (view o).
      rewrite <- (live_account _ _ _ Hl). apply set_account_id. }
    by apply does_ret.
  - eapply object_at_bind; [done..|]. intros s2 Hs2 Ha2 Hl2. rewrite <- Ha2. by apply SetBalance_live.
Qed.

Lemma SetBalance_does a b s : swf s → does s (SetBalance a b s) tt (update_account a (v_set_Balance b) (abs s)).
Proof.
  intros Hs. rewrite update_account_got. apply GetOrNew_bind; [done|]. intros s1 o Hs1 Ha Hl. rewrite <- Ha.
  rewrite (update_live _ _ _ (view o)) by by apply live_account. by apply SetBalance_live.
Qed.

Lemma SetNonce_does a n s : swf s → does s (SetNonce a n s) tt (update_account a (v_set_Nonce n) (abs s)).
Proof.
  intros Hs. rewrite update_account_got. apply GetOrNew_bind; [done|]. intros s1 o Hs1 Ha Hl. rewrite <- Ha.
  rewrite (update_live _ _ _ (view o)) by by apply live_account.
  eapply object_at_bind; [done..|]. intros s2 Hs2 Ha2 Hl2. rewrite <- Ha2.
  pose proof (swf_objects _ Hs2 _ _ (proj1 Hl2)) as Hw. pose proof (wf_fake _ _ Hw) as Hf.
  rewrite <- view_nonce by done. eapply does_update; [done|apply Hl2|apply Hl2| |apply Hl2|done|].
  - by destruct Hw.
  - cbn [aundo]. rewrite view_nonce by done. apply undo_account; [by apply live_account|]. apply (v_set_Nonce_back (view o)).
Qed.

Lemma SetCode_does a c s :
  swf s → does s (SetCode a c s) tt (update_account a (v_set_Code (Keccak256 (default [] c)) (default [] c)) (abs s)).
Proof.
  intros Hs. rewrite update_account_got. apply GetOrNew_bind; [done|]. intros s1 o Hs1 Ha Hl. rewrite <- Ha.
  rewrite (update_live _ _ _ (view o)) by by apply live_account. unfold so_SetCode.
  pose proof (swf_objects _ Hs1 _ _ (proj1 Hl)) as Hw. pose proof (code_read o (wf_fake _ _ Hw)) as Hr.
  destruct (so_Code o) as [o' pc] eqn:Hcode. cbn [fst] in Hr.
  eapply on_object_bind; [done..|exact (f_equal Ret Hcode)|done|]. intros s2 Hs2 Ha2 Hl2.
  eapply object_at_bind; [done..|]. intros s3 Hs3 Ha3 Hl3. rewrite <- Ha2, <- Ha3.
  pose proof (swf_objects _ Hs3 _ _ (proj1 Hl3)) as Hw3. pose proof Hr as [Hcore Hv]. rewrite <- Hv.
  assert (code_at a c (Keccak256 (default [] c)) = default [] c) as Hc.
  { destruct c; [done|]. cbn. by rewrite bool_decide_true. }
  rewrite <- Hc at 2. rewrite <- (view_code a o' c) by done.
  apply (does_update s3 a o' _ (λ o, set_dirtyCode true (set_data (set_CodeHash (Keccak256 (default [] c))) (set_code c o))));
    [done|apply Hl3|apply Hl3| |apply Hl3|done|].
  - destruct Hw3. split; try done. apply Keccak256_bytes.
  - cbn [aundo]. rewrite hash_bytes_round by apply Hw3. rewrite (view_code a) by done.
    apply undo_account; [by apply live_account|].
    assert (code_at a pc (CodeHash (so_data o')) = av_Code (view o')) as ->; [|apply v_set_Code_back].
    rewrite Hv. cbn. unfold code_of. rewrite Hcode. cbn.
    revert Hcode. unfold so_Code, code_at. rewrite (core_data _ _ Hcore), (wf_addrHash _ _ Hw).
    destruct (so_code o); [by intros [= _ <-]|]. case_bool_decide; [by intros [= _ <-]|].
    destruct (ContractCode _ _) as [cc e]. intros [= _ <-]. by destruct cc.
Qed.

Lemma SetState_does a k v s : swf s → does s (SetState a k v s) tt (update_account a (v_set_State k v) (abs s)).
Proof.
  intros Hs. rewrite update_account_got. apply GetOrNew_bind; [done|]. intros s1 o Hs1 Ha Hl. rewrite <- Ha.
  rewrite (update_live _ _ _ (view o)) by by apply live_account. unfold so_SetState.
  pose proof (swf_objects _ Hs1 _ _ (proj1 Hl)) as Hw. pose proof (wf_fake _ _ Hw) as Hf.
  eapply object_at_bind; [done..|]. intros s2 Hs2 Ha2 Hl2. rewrite Hf. rewrite <- Ha2.
  destruct (state_read o k Hf) as (o' & Hg & Hr). pose proof Hr as [Hcore Hv].
  eapply on_object_bind; [done..|]. intros s3 Hs3 Ha3 Hl3. rewrite <- Ha3, <- Hv.
  assert (state_value o k = av_State (view o') k) as -> by by rewrite Hv.
  pose proof (swf_objects _ Hs3 _ _ (proj1 Hl3)) as Hw3. pose proof (wf_fake _ _ Hw3) as Hf3.
  destruct (Z.eqb_spec (av_State (view o') k) v) as [<-|].
  - rewrite v_set_State_same, <- (live_account _ _ _ Hl3), set_account_id. by apply does_ret.
  - rewrite <- view_dirty by done.
    apply (does_update s3 a o' _ (λ o, set_storage (originStorage o) (pendingStorage o) (<[k := v]> (dirtyStorage o)) o));
    [done|apply Hl3|apply Hl3| |apply Hl3|done|].
    + by destruct Hw3.
    + cbn [aundo]. rewrite view_dirty by done. apply undo_account; [by apply live_account|]. apply (v_set_State_back (view o')).
Qed.

Lemma CreateAccount_does a s :
  swf s → does s (CreateAccount a s) tt (set_account a (Some (v_set_Balance (a_read a 0 av_Balance (abs s)) new_account)) (abs s)).
Proof.
  intros Hs. unfold CreateAccount. destruct (createObject_spec a s Hs) as (s1 & r & e & He & Hst & Ha & Hu & Ho & Hr).
  rewrite (db_bind _ _ _ _ _ He). unfold a_read. cbn [a_account abs]. destruct r as [o|]; rewrite Hr.
  - assert (setBalance a (Balance (so_data o)) s1
      = Ret (tt, set_stateObjects <[a := set_data (set_Balance (Balance (so_data o))) (newObject a true no_data)]> s1)) as ->.
    { unfold setBalance, update_object, on_object. rewrite get_bind. by rewrite Ho. }
    set (s2 := set_stateObjects _ s1).
    assert (abs s2 = set_account a (Some (v_set_Balance (Balance (so_data o)) new_account)) (abs s)) as Ha2.
    { subst s2. rewrite abs_insert, Ha, set_account_set. cbn [deleted newObject set_data]. by rewrite view_balance, view_new. }
    exists s2, [e]. split; [done|]. split; [|done]. destruct Hst. split; try done.
    + cbn [rev app aundos]. rewrite Ha2. cbn. by rewrite Hu.
    + apply swf_insert; [done|]. split; try done. apply emptyCodeHash_bytes.
  - exists s1, [e]. split; [done|]. split; [done|]. rewrite Ha. done.
Qed.

Lemma Suicide_does a s :
  swf s →
  does s (Suicide a s) (bool_decide (is_Some (a_account (abs s) a)))
    (match a_account (abs s) a with
     | None => abs s
     | Some v => set_account a (Some (v_set_Balance 0 (v_set_suicided true v))) (abs s)
     end).
Proof.
  intros Hs. unfold Suicide. destruct (getStateObject_spec a s Hs) as (r & s1 & He & Hq & Hr).
  eapply does_after; [done..|]. pose proof (quiet_swf _ _ Hq) as Hs1. rewrite <- (quiet_abs _ _ Hq).
  cbn [a_account abs] in *. destruct (account s1 a) as [v|] eqn:Hacc1;
    pose proof (f_equal (λ A, a_account A a) (quiet_abs _ _ Hq)) as Hacc; cbn in Hacc; rewrite Hacc1 in Hacc; rewrite <- Hacc in Hr.
  2: { subst r. rewrite bool_decide_false by by intros []. by apply does_ret. }
  destruct Hr as (o & -> & Ho & Hd & Hv). rewrite bool_decide_true by by eexists.
  pose proof (swf_objects _ Hs1 _ _ Ho) as Hw. pose proof (wf_fake _ _ Hw) as Hf.
  set (e := suicideChange a (suicided o) (Balance (so_data o))).
  set (o' := set_data (set_Balance 0) (set_suicided true o)).
  set (s2 := set_stateObjects <[a := o']> (set_stateObjects <[a := set_suicided true o]> (set_jrnl (journal_append e (jrnl s1)) s1))).
  assert ((_ ← append e; _ ← update_object a (set_suicided true); _ ← update_object a (set_data (set_Balance 0)); mret true) s1
    = Ret (true, s2)) as ->.
  { unfold append. rewrite modify_bind. unfold update_object, on_object.
    erewrite db_bind; [|rewrite get_bind; cbn; by rewrite Ho]. erewrite db_bind; [done|].
    rewrite get_bind. cbn. by rewrite lookup_insert, decide_True by done. }
  assert (view o' = v_set_Balance 0 (v_set_suicided true v)) as Hvo.
  { subst o'. rewrite view_balance by done. rewrite view_suicided by done. by rewrite Hv. }
  assert (abs s2 = set_account a (Some (v_set_Balance 0 (v_set_suicided true v))) (abs s1)) as Ha.
  { subst s2. rewrite !abs_insert, set_account_set, <- Hvo. cbn [o' deleted set_data set_suicided]. by rewrite Hd. }
  exists s2, [e]. split; [done|]. split; [|done]. split; try done.
  - cbn [rev app aundos]. rewrite Ha. cbn [aundo e]. unfold on_account. rewrite a_account_set. cbn. rewrite set_account_set.
    f_equal. transitivity (set_account a (a_account (abs s1) a) (abs s1)); [|by apply set_account_id].
    f_equal. cbn. rewrite Hacc1, <- Hv. done.
  - split; [|apply Hs1|].
    + intros x ox Hx. assert (obj_wf a o') as Hw' by by destruct Hw. assert (obj_wf a (set_suicided true o)) as Hw2 by by destruct Hw.
      apply (swf_objects _ (swf_insert _ a _ (swf_insert s1 a _ Hs1 Hw2) Hw') x ox Hx).
    + change (Forall (entry_wf (trie s1)) (entries (journal_append e (jrnl s1)))). rewrite entries_append.
      apply Forall_app. split; [apply Hs1|by constructor].
Qed.

(** ** The rest of the state *)

(** An entry and a change away from the accounts. *)
Lemma does_other s r s' e A' :
  swf s → r = Ret (tt, s') → abs s' = A' →
  trie s' = trie s ∧ stateObjects s' = stateObjects s ∧ jrnl s' = journal_append e (jrnl s) ∧
    validRevisions s' = validRevisions s ∧ nextRevisionId s' = nextRevisionId s →
  entry_wf (trie s) e → aundo e (abs s') = Some (abs s) → does s r tt A'.
Proof.
  intros Hs -> <- (Ht & Ho & Hj & Hr & Hn) He Hu. apply (does_change s s' e); try done; [by rewrite Hj, entries_append|].
  rewrite Ho. apply Hs.
Qed.

Lemma AddRefund_does g s : swf s → does s (AddRefund g s) tt (a_set_refund (wrapU 64 (a_refund (abs s) + g)) (abs s)).
Proof. intros Hs. by eapply (does_other s _ _ (refundChange (refund s))). Qed.

Lemma SubRefund_does g s :
  swf s →
  if refund s <? g then SubRefund g s = Panic ExplicitPanic
  else does s (SubRefund g s) tt (a_set_refund (a_refund (abs s) - g) (abs s)).
Proof.
  intros Hs. unfold SubRefund. rewrite get_bind. unfold append. rewrite modify_bind. destruct (refund s <? g); [done|].
  by eapply (does_other s _ _ (refundChange (refund s))).
Qed.

Lemma AddLogSu_does l s :
  swf s → awf (abs s) →
  does s (AddLogSu l s) (a_log_in (abs s) l)
    (a_set_logs (<[thash s := default [] (logs s !! thash s) ++ [a_log_in (abs s) l]]> (logs s)) (wrapU 64 (logSize s + 1)) (abs s)).
Proof.
  intros Hs Hw. set (l' := log_in s l). set (h := thash s). set (ls := default [] (logs s !! h)).
  set (s2 := set_logs (<[h := ls ++ [l']]> (logs s)) (wrapU 64 (logSize s + 1)) (set_jrnl (journal_append (addLogChange h) (jrnl s)) s)).
  assert (does s (Ret (tt, s2)) tt (abs s2)) as (s3 & es & [= <-] & Hst & Ha).
  { apply (does_other s _ s2 (addLogChange h)); try done.
    cbn [aundo abs]. unfold drop_log. cbn [a_logs abs s2 set_logs logs]. rewrite lookup_insert, decide_True by done.
    change (default [] (Some (ls ++ [l']))) with (ls ++ [l']).
    assert (wrapU 64 (wrapU 64 (logSize s + 1) - 1) = logSize s) as Hsz.
    { destruct Hw as [_ _ Hw]. cbn in Hw. unfold wrapU. rewrite Zminus_mod_idemp_l.
      replace (logSize s + 1 - 1) with (logSize s) by lia. by apply Z.mod_small. }
    cbn [a_logSize abs s2 set_logs logSize].
    destruct (ls ++ [l']) as [|x [|y k]] eqn:Hl; [by destruct ls| |].
    - assert (ls = []) as Hls by (destruct ls as [|? [|]]; [done|by injection Hl..]).
      assert (logs s !! h = None) as Hn.
      { destruct (logs s !! h) as [l0|] eqn:E; [|done]. exfalso. apply (awf_logs _ Hw h l0 E). subst ls. by rewrite ?E in Hls. }
      rewrite Hsz, delete_insert_id by done. done.
    - rewrite <- Hl, length_app, Hsz. cbn [length]. rewrite Nat.add_sub, take_app_length.
      assert (logs s !! h = Some ls) as Hls.
      { subst ls. destruct (logs s !! h) as [l0|] eqn:E; [done|]. rewrite ?E in Hl. by injection Hl. }
      rewrite insert_insert, decide_True by done. rewrite insert_id by done. done. }
  exists s2, es. split; [done|]. split; [done|]. done.
Qed.

Lemma AddPreimage_does h b s :
  swf s →
  does s (AddPreimage h b s) tt
    (match preimages s !! h with Some _ => abs s | None => a_set_preimages (<[h := b]> (preimages s)) (abs s) end).
Proof.
  intros Hs. unfold AddPreimage. rewrite get_bind. destruct (preimages s !! h) eqn:Hp; [by apply does_ret|].
  eapply (does_other s _ _ (addPreimageChange h)); try done. cbn. rewrite delete_insert_id by done. done.
Qed.

Lemma AddAddress_undo al a : snd (AddAddress al a) = true → DeleteAddress (fst (AddAddress al a)) a = al.
Proof.
  unfold AddAddress, DeleteAddress. destruct (al_addresses al !! a) eqn:Ha; [done|]. intros _. cbn.
  rewrite delete_insert_id by done. by destruct al.
Qed.

Lemma AddAddressToAccessList_does a s :
  swf s → does s (AddAddressToAccessList a s) tt (a_set_access (fst (AddAddress (access s) a)) (abs s)).
Proof.
  intros Hs. unfold AddAddressToAccessList. rewrite get_bind. pose proof (AddAddress_undo (access s) a) as Hu.
  destruct (AddAddress (access s) a) as [al [|]] eqn:He; cbn [fst snd] in Hu |- *; rewrite modify_bind.
  - eapply (does_other s _ _ (accessListAddAccountChange a)); try done. cbn. by rewrite Hu.
  - assert (al = access s) as ->.
    { unfold AddAddress in He. destruct (al_addresses (access s) !! a); by simplify_eq. }
    apply does_quiet. split; try done. destruct Hs. by split.
Qed.

(** A new slot is the last one: deleting it gives the list back. *)
Lemma AddSlot_undo al a slot :
  al_wf al →
  match AddSlot al a slot with
  | Panic _ => False
  | Ret (al', addrMod, slotMod) =>
      if slotMod then
        ∃ al1, DeleteSlot al' a slot = Ret al1 ∧ (if addrMod then DeleteAddress al1 a else al1) = al
      else addrMod = false ∧ al' = al
  end.
Proof.
  intros [Hi Hm]. unfold AddSlot, slot_map.
  assert (∀ al', al' = add_slot_map al a slot → DeleteSlot al' a slot =
    Ret {| al_addresses := <[a := -1]> (al_addresses al); al_slots := al_slots al |}) as Hdel.
  { intros al' ->. unfold DeleteSlot, add_slot_map, slot_map. cbn. rewrite lookup_insert, decide_True by done. cbn.
    destruct (Z.ltb_spec (Z.of_nat (length (al_slots al))) 0); [lia|].
    rewrite Nat2Z.id, list_lookup_here. cbn. rewrite difference_diag_L, decide_True by done.
    by rewrite insert_insert, decide_True, take_app_length by done. }
  destruct (al_addresses al !! a) as [idx|] eqn:Ha.
  - destruct (Z.eqb_spec idx (-1)) as [->|Hne].
    + eexists. split; [by apply Hdel|]. rewrite insert_id by done. by destruct al.
    + destruct (Hi a idx Ha) as [|Hr]; [done|]. destruct (Z.ltb_spec idx 0); [lia|].
      destruct (lookup_lt_is_Some_2 (al_slots al) (Z.to_nat idx)) as [m Hl]; [lia|]. rewrite Hl. cbn.
      case_decide as Hin; [done|]. unfold DeleteSlot, slot_map. cbn. rewrite Ha. destruct (Z.ltb_spec idx 0); [lia|].
      rewrite list_lookup_insert_eq by lia. cbn.
      assert (({[slot]} ∪ m) ∖ {[slot]} = m) as -> by set_solver.
      rewrite decide_False by (apply Hm; by eapply list_elem_of_lookup_2). eexists. split; [done|].
      rewrite list_insert_insert, decide_True by done. rewrite list_insert_id by done. by destruct al.
  - eexists. split; [by apply Hdel|]. unfold DeleteAddress. cbn. rewrite delete_insert_id by done. by destruct al.
Qed.

Lemma AddSlotToAccessList_does a slot s :
  swf s → al_wf (access s) →
  ∃ al b1 b2, AddSlot (access s) a slot = Ret (al, b1, b2) ∧
    does s (AddSlotToAccessList a slot s) tt (a_set_access al (abs s)).
Proof.
  intros Hs Hw. pose proof (AddSlot_undo (access s) a slot Hw) as Hu. unfold AddSlotToAccessList.
  destruct (AddSlot (access s) a slot) as [[[al b1] b2]|p] eqn:He; [|done]. exists al, b1, b2. split; [done|].
  rewrite get_bind, (db_bind _ _ s (al, b1, b2) s) by (unfold db_go; by rewrite He). rewrite modify_bind.
  destruct b2.
  - destruct Hu as (al1 & Hd & Hal). set (e1 := accessListAddAccountChange a). set (e2 := accessListAddSlotChange a slot).
    destruct b1; unfold append.
    + rewrite modify_bind. eexists _, [e1; e2]. split; [done|]. split; [|done]. split; try done.
      * cbn. by rewrite <- app_assoc.
      * cbn [rev app aundos]. cbn. rewrite Hd. cbn. by rewrite Hal.
      * destruct Hs as [Ho Ht Hj]. split; [done..|]. cbn. rewrite <- app_assoc. apply Forall_app. by split; [|repeat constructor].
    + eapply (does_other s _ _ e2); try done. cbn. by rewrite Hd, Hal.
  - destruct Hu as [-> ->]. apply does_quiet. split; try done. destruct Hs. by split.
Qed.
End ops.
