(* ===== verification/StateSim.v ===== *)
(** * Snapshots: the journal simulates copying the state

    [sim] relates a state with its journal to a specification with its copies:
    undoing the entries above a revision gives the copy made there. *)

From Stdlib Require Import FunctionalExtensionality.
From S2P Require Import Prelude Common Uint256 Machine VmFacts Vm Rlp RlpFacts RlpDecode RlpStreamFacts State Statedb StateView StateUndo StateOps.

Section sim.
Context `{HD : DatabaseLaws}.

(** ** Readers *)

Lemma read_object_does {X} (a : Address) (absent : X) (f : stateObject → Go (stateObject * X)) (g : AccView → X) s :
  swf s → (∀ o, obj_wf a o → ∃ o', f o = Ret (o', g (view o)) ∧ reads_only o o') →
  does s (read_object a absent f s) (a_read a absent g (abs s)) (abs s).
Proof.
  intros Hs Hf. unfold read_object. destruct (getStateObject_spec a s Hs) as (r & s1 & He & Hq & Hr).
  eapply does_after; [done..|]. pose proof (quiet_swf _ _ Hq) as Hs1. unfold a_read. cbn [a_account abs].
  rewrite <- (quiet_abs _ _ Hq). destruct (account s a) as [v|].
  - destruct Hr as (o & -> & Ho & Hd & <-). destruct (Hf o (swf_objects _ Hs1 _ _ Ho)) as (o' & Hfo & Hro).
    destruct (on_object_read f a o o' _ s1 Hs1 Ho Hfo Hro) as (s2 & -> & Hq2 & _). by apply does_quiet.
  - subst r. by apply does_ret.
Qed.

Lemma GetCode_does a s :
  swf s → does s ((c ← GetCode a; mret (OutBytes (default [] c))) s) (OutBytes (a_read a [] av_Code (abs s))) (abs s).
Proof.
  intros Hs. unfold GetCode, read_object. destruct (getStateObject_spec a s Hs) as (r & s1 & He & Hq & Hr).
  pose proof (quiet_swf _ _ Hq) as Hs1. unfold a_read. cbn [a_account abs]. destruct (account s a) as [v|].
  - destruct Hr as (o & -> & Ho & Hd & <-). pose proof (code_read o (wf_fake _ _ (swf_objects _ Hs1 _ _ Ho))) as Hrd.
    change (av_Code (view o)) with (code_of o). unfold code_of. destruct (so_Code o) as [o' c] eqn:Hc. cbn [fst snd] in *.
    destruct (on_object_read (λ o, Ret (so_Code o)) a o o' c s1 Hs1 Ho (f_equal Ret Hc) Hrd) as (s2 & He2 & Hq2 & _).
    erewrite db_bind; [|rewrite (db_bind _ _ _ _ _ He); exact He2].
    apply does_quiet. by eapply unobserved_trans.
  - subst r. erewrite db_bind; [|by rewrite (db_bind _ _ _ _ _ He)]. by apply does_quiet.
Qed.

Lemma Exist_does a s : swf s → does s (Exist a s) (bool_decide (is_Some (a_account (abs s) a))) (abs s).
Proof.
  intros Hs. unfold Exist. destruct (getStateObject_spec a s Hs) as (r & s1 & He & Hq & Hr).
  eapply does_after; [done..|]. pose proof (quiet_swf _ _ Hq) as Hs1. cbn [a_account abs].
  rewrite <- (quiet_abs _ _ Hq). destruct (account s a) as [v|].
  - destruct Hr as (o & -> & _). rewrite !bool_decide_true by by eexists. by apply does_ret.
  - subst r. rewrite !bool_decide_false by by intros []. by apply does_ret.
Qed.

(** ** Changes *)

Lemma awf_accounts f A : awf A → awf (mkAState f (a_refund A) (a_thash A) (a_txIndex A) (a_logs A) (a_logSize A) (a_preimages A) (a_access A)).
Proof. by intros []. Qed.

Lemma AddAddress_wf al a : al_wf al → al_wf (fst (AddAddress al a)).
Proof.
  intros [Hi Hm]. unfold AddAddress. destruct (al_addresses al !! a) eqn:Ha; [done|]. split; [|done]. cbn.
  intros x i. destruct (decide (x = a)) as [->|]; [rewrite lookup_insert, decide_True by done; intros [= <-]; by left|].
  rewrite lookup_insert_ne by congruence. apply Hi.
Qed.

Lemma add_slot_map_wf al a slot : al_wf al → al_wf (add_slot_map al a slot).
Proof.
  intros [Hi Hm]. split; cbn.
  - intros x i. rewrite length_app. cbn. destruct (decide (x = a)) as [->|].
    + rewrite lookup_insert, decide_True by done. intros [= <-]. right. lia.
    + rewrite lookup_insert_ne by congruence. intros Hx. destruct (Hi x i Hx); [by left|right; lia].
  - intros m [Hin|Hin]%elem_of_app; [by apply Hm|]. apply list_elem_of_singleton in Hin as ->. set_solver.
Qed.

Lemma AddSlot_wf al a slot al' b1 b2 : al_wf al → AddSlot al a slot = Ret (al', b1, b2) → al_wf al'.
Proof.
  intros Hw. pose proof Hw as [Hi Hm]. unfold AddSlot, slot_map. destruct (al_addresses al !! a) as [idx|] eqn:Ha.
  - destruct (idx =? -1); [intros [= <- _ _]; by apply add_slot_map_wf|].
    destruct (if idx <? 0 then None else al_slots al !! Z.to_nat idx) as [m|] eqn:Hl; [|done]. cbn.
    case_decide; [by intros [= <- _ _]|]. intros [= <- _ _]. split; cbn.
    + intros x i Hx. rewrite length_insert. by apply (Hi x).
    + intros m' Hin. apply list_elem_of_lookup in Hin as (j & Hj). destruct (decide (j = Z.to_nat idx)) as [->|].
      * assert (Z.to_nat idx < length (al_slots al))%nat by (destruct (idx <? 0); [done|by apply lookup_lt_Some in Hl]).
        rewrite list_lookup_insert_eq in Hj by done. injection Hj as <-. set_solver.
      * rewrite list_lookup_insert_ne in Hj by done. apply Hm. by eapply list_elem_of_lookup_2.
  - intros [= <- _ _]. by apply add_slot_map_wf.
Qed.

(** What the specification says of an operation other than the snapshots. *)
Definition op_does (op : Op) (s : statedb) : Prop :=
  match spec_change op (abs s) with
  | Ret (out, A') => does s (run_op op s) out A' ∧ awf A'
  | Panic p => run_op op s = Panic p
  end.

Lemma run_out {A} (m : DB A) (f : A → Out) s a A' : does s (m s) a A' → awf A' → does s ((x ← m; mret (f x)) s) (f a) A' ∧ awf A'.
Proof. intros Hm Hw. split; [by apply does_out|done]. Qed.

Lemma op_steps op s :
  swf s → awf (abs s) → (∀ id, op ≠ OpRevertToSnapshot id) → op ≠ OpSnapshot → op_does op s.
Proof.
  intros Hs Hw Hr Hn. unfold op_does. destruct op; cbn [spec_change run_op].
  - eapply (run_out _ (λ _, OutUnit)); [by apply CreateAccount_does|by apply awf_accounts].
  - eapply (run_out _ (λ _, OutUnit)); [by apply SubBalance_does|by apply awf_accounts].
  - eapply (run_out _ (λ _, OutUnit)); [by apply AddBalance_does|by apply awf_accounts].
  - eapply (run_out _ (λ _, OutUnit)); [by apply SetBalance_does|by apply awf_accounts].
  - apply (run_out _ OutZ); [|done]. apply read_object_does; [done|]. intros o _. exists o. by split.
  - apply (run_out _ OutZ); [|done]. apply read_object_does; [done|]. intros o _. exists o. by split.
  - eapply (run_out _ (λ _, OutUnit)); [by apply SetNonce_does|by apply awf_accounts].
  - apply (run_out _ OutZ); [|done]. apply read_object_does; [done|]. intros o _. exists o. by split.
  - split; [by apply GetCode_does|done].
  - eapply (run_out _ (λ _, OutUnit)); [by apply SetCode_does|by apply awf_accounts].
  - apply (run_out _ OutZ); [|done]. apply read_object_does; [done|]. intros o Ho.
    destruct (size_read o (wf_fake _ _ Ho)) as [Hsz Hrd]. destruct (so_CodeSize o) as [o' n]. cbn in Hsz, Hrd. exists o'.
    by rewrite Hsz.
  - eapply (run_out _ (λ _, OutUnit)); [by apply AddRefund_does|by destruct Hw].
  - pose proof (SubRefund_does gas s Hs) as Hsub. cbn [a_refund abs] in *. destruct (refund s <? gas).
    + unfold mbind, DB_bind. by rewrite Hsub.
    + eapply (run_out _ (λ _, OutUnit)); [done|by destruct Hw].
  - split; [by apply does_ret|done].
  - apply (run_out _ OutZ); [|done]. apply read_object_does; [done|]. intros o Ho. by apply committed_read, (wf_fake a).
  - apply (run_out _ OutZ); [|done]. apply read_object_does; [done|]. intros o Ho. by apply state_read, (wf_fake a).
  - eapply (run_out _ (λ _, OutUnit)); [by apply SetState_does|by apply awf_accounts].
  - pose proof (Suicide_does a s Hs) as Hd. destruct (a_account (abs s) a).
    + apply (run_out _ OutBool _ _ _ Hd). by apply awf_accounts.
    + by apply (run_out _ OutBool _ _ _ Hd).
  - apply (run_out _ OutBool); [|done]. apply read_object_does; [done|]. intros o _. exists o. by split.
  - apply (run_out _ OutBool); [|done]. by apply Exist_does.
  - apply (run_out _ OutBool); [|done]. apply read_object_does; [done|]. intros o _. exists o. by split.
  - split; [by apply does_ret|done].
  - unfold SlotInAccessList. cbn [a_access abs].
    destruct (Contains (access s) a slot) as [r|p] eqn:He.
    + split; [|done]. erewrite (db_bind _ (λ b, mret (OutBools b)) _ r s); [by apply does_ret|].
      rewrite get_bind. unfold db_go. by rewrite He.
    + unfold mbind, DB_bind, db_get, db_go. cbn. by rewrite He.
  - eapply (run_out _ (λ _, OutUnit)); [by apply AddAddressToAccessList_does|].
    destruct Hw as [? ? ?]. split; try done. by apply AddAddress_wf.
  - destruct (AddSlotToAccessList_does a slot s Hs (awf_access _ Hw)) as (al & b1 & b2 & He & Hd).
    cbn [a_access abs]. rewrite He. cbn. eapply (run_out _ (λ _, OutUnit)); [done|].
    destruct Hw as [Ha ? ?]. split; try done. by eapply AddSlot_wf.
  - apply (run_out _ OutLog); [by apply AddLogSu_does|].
    destruct Hw as [? Hl ?]. split; try done; [|by apply wrapU_range]. cbn. intros h' l'.
    destruct (decide (h' = thash s)) as [->|].
    + rewrite lookup_insert, decide_True by done. intros [= <-]. by destruct (default _ _).
    + rewrite lookup_insert_ne by congruence. apply Hl.
  - eapply (run_out _ (λ _, OutUnit)); [by apply AddPreimage_does|]. cbn. by destruct (preimages s !! h), Hw.
  - done.
  - by destruct (Hr id).
Qed.

(** ** Undoing on the state *)

Lemma get_or_panic_spec a (k : DB ()) s v :
  swf s → a_account (abs s) a = Some v →
  ∃ s1 o, get_or_panic a k s = k s1 ∧ quiet s s1 ∧ live s1 a o ∧ view o = v.
Proof.
  intros Hs Ha. unfold get_or_panic. destruct (getStateObject_spec a s Hs) as (r & s1 & He & Hq & Hr).
  cbn in Ha. rewrite Ha in Hr. destruct Hr as (o & -> & Ho & Hd & Hv). exists s1, o.
  rewrite (db_bind _ _ _ _ _ He). done.
Qed.

(** What a revert keeps. *)
Record keeps (s s' : statedb) : Prop := {
  keeps_trie : trie s' = trie s;
  keeps_entries : entries (jrnl s') = entries (jrnl s);
  keeps_revs : validRevisions s' = validRevisions s;
  keeps_next : nextRevisionId s' = nextRevisionId s;
  keeps_swf : swf s'
}.

Lemma keeps_quiet s s' : quiet s s' → keeps s s'.
Proof. intros []. split; congruence. Qed.
Lemma kept_keeps_trans s1 s2 s3 : keeps s1 s2 → keeps s2 s3 → keeps s1 s3.
Proof. intros [] []. split; congruence. Qed.

Definition reverts (s : statedb) (r : Go (() * statedb)) (A : AState) : Prop :=
  ∃ s', r = Ret (tt, s') ∧ keeps s s' ∧ abs s' = A.

Lemma update_reverts s a o f :
  swf s → live s a o → obj_wf a (f o) → deleted (f o) = false →
  reverts s (update_object a f s) (set_account a (Some (view (f o))) (abs s)).
Proof.
  intros Hs [Ho Hd] Hw Hd'. exists (set_stateObjects <[a := f o]> s). split; [|split].
  - unfold update_object, on_object. rewrite get_bind. by rewrite Ho.
  - split; try done. by apply swf_insert.
  - by rewrite abs_insert, Hd'.
Qed.

(** A change of the account that is there. *)
Lemma account_reverts s a f g A' :
  swf s → on_account a g (abs s) = Some A' →
  (∀ o, obj_wf a o → deleted o = false → obj_wf a (f o) ∧ deleted (f o) = false ∧ view (f o) = g (view o)) →
  reverts s (get_or_panic a (update_object a f) s) A'.
Proof.
  intros Hs Hon Hf. unfold on_account in Hon. apply fmap_Some in Hon as (v & Ha & ->).
  destruct (get_or_panic_spec a (update_object a f) s v Hs Ha) as (s1 & o & -> & Hq & Hl & Hv).
  pose proof (quiet_swf _ _ Hq) as Hs1. destruct (Hf o (swf_objects _ Hs1 _ _ (proj1 Hl)) (proj2 Hl)) as (Hw & Hd & Hvf).
  destruct (update_reverts s1 a o f Hs1 Hl Hw Hd) as (s2 & He & Hk & Habs). exists s2. split; [done|]. split.
  - eapply kept_keeps_trans; [by apply keeps_quiet|done].
  - by rewrite Habs, Hvf, Hv, (quiet_abs _ _ Hq).
Qed.

Lemma other_reverts s f A' :
  swf s → trie (f s) = trie s ∧ stateObjects (f s) = stateObjects s ∧ jrnl (f s) = jrnl s ∧
    validRevisions (f s) = validRevisions s ∧ nextRevisionId (f s) = nextRevisionId s →
  abs (f s) = A' → reverts s (db_modify f s) A'.
Proof.
  intros [Ho Ht Hj] (Et & Eo & Ej & Er & En) Ha. exists (f s). split; [done|]. split; [|done].
  split; try congruence. split; by rewrite ?Et, ?Eo, ?Ej.
Qed.

Lemma Hash_Bytes_round h : hash_bytes (Hash_Bytes (BytesToHash h)).
Proof. split; [apply to_be_length|apply to_be_bytes]. Qed.

Lemma suicide_reverts s a p b A' :
  swf s → on_account a (λ v, v_set_Balance b (v_set_suicided p v)) (abs s) = Some A' →
  reverts s (revert_entry (suicideChange a p b) s) A'.
Proof.
  intros Hs Hon. cbn [revert_entry]. unfold on_account in Hon. apply fmap_Some in Hon as (v & Ha & ->).
  destruct (getStateObject_spec a s Hs) as (r & s1 & He & Hq & Hr). cbn in Ha. rewrite Ha in Hr.
  destruct Hr as (o & -> & Ho & Hd & <-). rewrite (db_bind _ _ _ _ _ He). pose proof (quiet_swf _ _ Hq) as Hs1.
  pose proof (swf_objects _ Hs1 _ _ Ho) as Hw. pose proof (wf_fake _ _ Hw) as Hf.
  destruct (update_reverts s1 a o (set_suicided p) Hs1 (conj Ho Hd)) as (s2 & He2 & Hk2 & Ha2); [by destruct Hw|done|].
  rewrite (db_bind _ _ _ _ _ He2).
  assert (live s2 a (set_suicided p o)) as Hl2.
  { split; [|done]. unfold update_object, on_object in He2. rewrite get_bind, Ho in He2. injection He2 as <-. cbn.
    by rewrite lookup_insert, decide_True. }
  destruct (update_reverts s2 a (set_suicided p o) (set_data (set_Balance b)) (keeps_swf _ _ Hk2) Hl2) as (s3 & He3 & Hk3 & Ha3);
    [by destruct Hw|done|].
  exists s3. split; [done|]. split.
  - eapply kept_keeps_trans; [by apply keeps_quiet|]. by eapply kept_keeps_trans.
  - rewrite Ha3, Ha2, set_account_set, view_balance, view_suicided by done. by rewrite (quiet_abs _ _ Hq).
Qed.

Lemma revert_entry_spec e s A' :
  swf s → entry_wf (trie s) e → aundo e (abs s) = Some A' → reverts s (revert_entry e s) A'.
Proof.
  intros Hs He Hu.
  destruct e as [a|prev|a prev b|a b|a n|a k v|a c h|r|txhash|h|a|address|address slot]; cbn [aundo] in Hu.
  - injection Hu as <-. eexists. split; [done|]. split.
    + split; try done. destruct Hs as [Ho Ht Hj]. split; try done. intros x o Hx. cbn in Hx.
      apply lookup_delete_Some in Hx as [_ Hx]. by apply Ho.
    + unfold abs, set_account. cbn. f_equal. extensionality x. unfold account. cbn. destruct (decide (x = a)) as [->|].
      * rewrite lookup_delete, decide_True by done. cbn in He. destruct (trie_object _ _) as [|[o|]] eqn:Ht; [done| |done].
        by destruct (He o).
      * by rewrite lookup_delete_ne by congruence.
  - injection Hu as <-. eexists. split; [done|]. split; [|by rewrite abs_insert]. split; try done. by apply swf_insert.
  - by apply suicide_reverts.
  - eapply account_reverts; [done..|]. intros o Hw Hd. split_and!; [by destruct Hw|done|by apply view_balance, (wf_fake a)].
  - eapply account_reverts; [done..|]. intros o Hw Hd. split_and!; [by destruct Hw|done|by apply view_nonce, (wf_fake a)].
  - eapply account_reverts; [done..|]. intros o Hw Hd. split_and!; [by destruct Hw|done|by apply view_dirty, (wf_fake a)].
  - eapply account_reverts; [done..|]. intros o Hw Hd.
    split_and!; [destruct Hw; split; try done; apply Hash_Bytes_round|done|by apply view_code].
  - injection Hu as <-. by apply other_reverts.
  - cbn [revert_entry]. unfold drop_log in Hu. cbn [a_logs a_logSize abs] in Hu. rewrite get_bind.
    destruct (default [] (logs s !! txhash)) as [|x [|y l]] eqn:Hl; [done|..]; injection Hu as <-; apply other_reverts; try done.
    by destruct (Z.eqb_spec (Z.of_nat (length (x :: y :: l))) 1); [cbn [length] in *; lia|].
  - injection Hu as <-. by apply other_reverts.
  - injection Hu as <-. exists s. split; [done|]. split; [|done]. by split.
  - injection Hu as <-. by apply other_reverts.
  - cbn [revert_entry]. rewrite get_bind. cbn [a_access abs] in Hu. destruct (DeleteSlot (access s) address slot) as [al|] eqn:Hd; [|done].
    rewrite (db_bind (db_go (Ret al)) _ s al s) by done. injection Hu as <-. by apply other_reverts.
Qed.

Lemma undirty_keeps s a : swf s → keeps s (set_jrnl (undirty a (jrnl s)) s) ∧ abs (set_jrnl (undirty a (jrnl s)) s) = abs s.
Proof. intros [Ho Ht Hj]. split; [|done]. by split. Qed.

Lemma revert_entries_spec l s A' :
  swf s → Forall (entry_wf (trie s)) l → aundos l (abs s) = Some A' → reverts s (revert_entries l s) A'.
Proof.
  revert s. induction l as [|e l IH]; intros s Hs Hl Hu.
  - injection Hu as <-. exists s. split; [done|]. split; [|done]. by split.
  - apply Forall_cons in Hl as [He Hl]. cbn [aundos] in Hu. destruct (aundo e (abs s)) as [A1|] eqn:Hu1; [|done].
    destruct (revert_entry_spec e s A1 Hs He Hu1) as (s1 & He1 & Hk1 & Ha1). cbn [revert_entries].
    rewrite (db_bind _ _ _ _ _ He1).
    assert (∃ s2, (match dirtied e with Some addr => db_modify (λ s, set_jrnl (undirty addr (jrnl s)) s) | None => mret tt end) s1
      = Ret (tt, s2) ∧ keeps s1 s2 ∧ abs s2 = abs s1) as (s2 & He2 & Hk2 & Ha2).
    { destruct (dirtied e) as [a|]; eexists; (split; [done|]).
      - by apply undirty_keeps, (keeps_swf s).
      - split; [|done]. split; try done. apply Hk1. }
    rewrite (db_bind _ _ _ _ _ He2).
    destruct (IH s2) as (s3 & He3 & Hk3 & Ha3).
    + apply Hk2.
    + by rewrite (keeps_trie _ _ Hk2), (keeps_trie _ _ Hk1).
    + rewrite Ha2, Ha1. exact Hu.
    + exists s3. split; [done|]. split; [|done]. by do 2 (eapply kept_keeps_trans; [done|]).
Qed.
End sim.

(** * The dirty counts of the journal

    [counted] says that the journal counts the entries of each address, except
    for the precompile whose touch is counted twice. *)

Section journal.
Context `{Externals, !Database}.

Definition names (a : Address) (e : journalEntry) : bool := bool_decide (dirtied e = Some a).
Definition count (a : Address) (l : list journalEntry) : Z := Z.of_nat (length (filter (λ e, names a e) l)).

(** The counts are those of the entries [l]. *)
Definition counts (l : list journalEntry) (d : gmap Address Z) : Prop :=
  ∀ a, a ≠ ripemd → d !! a = if decide (count a l = 0) then None else Some (count a l).
Definition counted (s : statedb) : Prop := counts (entries (jrnl s)) (dirties (jrnl s)).

Lemma count_app a l1 l2 : count a (l1 ++ l2) = count a l1 + count a l2.
Proof. unfold count. rewrite filter_app, length_app. lia. Qed.
Lemma count_one a e : count a [e] = if names a e then 1 else 0.
Proof. unfold count. rewrite filter_cons. case_decide; by destruct (names a e). Qed.
Lemma count_range a l : 0 ≤ count a l.
Proof. unfold count. lia. Qed.

Lemma counts_default l d a : counts l d → a ≠ ripemd → default 0 (d !! a) = count a l.
Proof. intros Hc Ha. rewrite (Hc a Ha). case_decide as Hz; [by rewrite Hz|done]. Qed.

Lemma counts_append e j : counts (entries j) (dirties j) → counts (entries (journal_append e j)) (dirties (journal_append e j)).
Proof.
  intros Hc a Ha. pose proof (counts_default _ _ a Hc Ha) as Hd. pose proof (count_range a (entries j)) as Hr.
  unfold journal_append. destruct (dirtied e) as [x|] eqn:He; cbn; rewrite count_app, count_one; unfold names; rewrite He.
  - destruct (decide (x = a)) as [->|Hx].
    + rewrite bool_decide_true by done. rewrite lookup_insert, decide_True by done. rewrite Hd. case_decide; [lia|done].
    + rewrite bool_decide_false by congruence. rewrite lookup_insert_ne by done. rewrite Z.add_0_r. by apply Hc.
  - rewrite bool_decide_false by done. rewrite Z.add_0_r. by apply Hc.
Qed.

Lemma counts_undirty e a l d : dirtied e = Some a →
  counts (l ++ [e]) d → counts l (dirties (undirty a (mkJournal [] d))).
Proof.
  intros He Hc x Hx. pose proof (counts_default _ _ x Hc Hx) as Hd. pose proof (count_range x l) as Hr.
  specialize (Hc x Hx). rewrite count_app, count_one in Hc, Hd. unfold names in Hc, Hd. rewrite He in Hc, Hd. cbn.
  destruct (decide (a = x)) as [->|Hne].
  - rewrite bool_decide_true in Hc, Hd by done. rewrite Hd. replace (count x l + 1 - 1) with (count x l) by lia.
    destruct (Z.eqb_spec (count x l) 0) as [Hz|Hz]; cbn [dirties].
    + by rewrite lookup_delete, !decide_True.
    + by rewrite lookup_insert, decide_True, decide_False.
  - rewrite bool_decide_false in Hc by congruence. rewrite Z.add_0_r in Hc. rewrite <- Hc.
    destruct (_ =? _); [by rewrite lookup_delete_ne|by rewrite lookup_insert_ne].
Qed.

Lemma counts_skip e l d : dirtied e = None → counts (l ++ [e]) d → counts l d.
Proof.
  intros He Hc x Hx. specialize (Hc x Hx). rewrite count_app, count_one in Hc. unfold names in Hc. rewrite He in Hc.
  rewrite bool_decide_false, Z.add_0_r in Hc by done. exact Hc.
Qed.

(** ** Operations that keep the journal, or the counts *)

Definition jrnl_same {A} (m : DB A) : Prop := ∀ s a s', m s = Ret (a, s') → jrnl s' = jrnl s.
Definition keeps_counts {A} (m : DB A) : Prop := ∀ s a s', m s = Ret (a, s') → counted s → counted s'.

Lemma same_counts {A} (m : DB A) : jrnl_same m → keeps_counts m.
Proof. intros Hm s a s' He. unfold counted. by rewrite (Hm s a s' He). Qed.

Lemma db_bind_inv {A B} (m : DB A) (k : A → DB B) s b s' :
  (m ≫= k) s = Ret (b, s') → ∃ a s1, m s = Ret (a, s1) ∧ k a s1 = Ret (b, s').
Proof. unfold mbind, DB_bind. destruct (m s) as [[a s1]|]; [|done]. intros He. by exists a, s1. Qed.

Lemma same_ret {A} (a : A) : jrnl_same (mret a).
Proof. by intros s x s' [= _ <-]. Qed.
Lemma same_get {A} (f : statedb → A) : jrnl_same (db_get f).
Proof. by intros s x s' [= _ <-]. Qed.
Lemma same_modify f : (∀ s, jrnl (f s) = jrnl s) → jrnl_same (db_modify f).
Proof. intros Hf s x s' [= _ <-]. apply Hf. Qed.
Lemma same_go {A} (m : Go A) : jrnl_same (db_go m).
Proof. intros s x s'. unfold db_go. by destruct m; [intros [= _ <-]|]. Qed.
Lemma same_bind {A B} (m : DB A) (k : A → DB B) : jrnl_same m → (∀ a, jrnl_same (k a)) → jrnl_same (m ≫= k).
Proof.
  intros Hm Hk s b s' He. apply db_bind_inv in He as (a & s1 & Hms & He). by rewrite (Hk a s1 b s' He), (Hm s a s1 Hms).
Qed.

Lemma counts_bind {A B} (m : DB A) (k : A → DB B) : keeps_counts m → (∀ a, keeps_counts (k a)) → keeps_counts (m ≫= k).
Proof.
  intros Hm Hk s b s' He Hc. apply db_bind_inv in He as (a & s1 & Hms & He). by apply (Hk a s1 b s' He), (Hm s a s1 Hms).
Qed.

Lemma same_on_object {A} a (f : stateObject → Go (stateObject * A)) : jrnl_same (on_object a f).
Proof.
  apply same_bind; [apply same_get|]. intros [o|]; [|apply same_go].
  apply same_bind; [apply same_go|]. intros [o' x]. apply same_bind; [by apply same_modify|]. intros _. apply same_ret.
Qed.

Lemma append_counts e : keeps_counts (append e).
Proof. intros s x s' [= _ <-]. apply counts_append. Qed.

Lemma touch_counts a : keeps_counts (touch a).
Proof.
  apply counts_bind; [apply append_counts|]. intros _. destruct (Z.eqb_spec a ripemd) as [->|]; [|by apply same_counts, same_ret].
  intros s x s' [= _ <-] Hc y Hy. cbn. rewrite lookup_insert_ne by done. by apply Hc.
Qed.
End journal.

Create HintDb jrnl.
#[export] Hint Resolve same_ret same_get same_go same_on_object : jrnl.
#[export] Hint Resolve append_counts touch_counts : jrnl.

(** Walks over an operation, to the steps that the hints know. *)
Ltac jrnl_same :=
  repeat first
    [ solve [eauto with jrnl]
    | solve [by apply same_modify]
    | apply same_bind; [|intros ?]
    | case_match ].
Ltac jrnl_counts :=
  repeat first
    [ solve [eauto with jrnl]
    | solve [apply same_counts; jrnl_same]
    | apply counts_bind; [|intros ?]
    | case_match ].

Section operations.
Context `{Externals, !Database}.

Lemma same_getStateObject a : jrnl_same (getStateObject a).
Proof. unfold getStateObject, getDeletedStateObject, record_pre, setStateObject. jrnl_same. Qed.
Hint Resolve same_getStateObject : jrnl.

Lemma createObject_counts a : keeps_counts (createObject a).
Proof. unfold createObject, getDeletedStateObject, setStateObject. jrnl_counts. Qed.
Hint Resolve createObject_counts : jrnl.

Lemma GetOrNew_counts a : keeps_counts (GetOrNewStateObject a).
Proof. unfold GetOrNewStateObject. jrnl_counts. Qed.
Hint Resolve GetOrNew_counts : jrnl.

Lemma revert_entry_same e : jrnl_same (revert_entry e).
Proof. destruct e; cbn [revert_entry]; unfold get_or_panic, setStateObject, setBalance, setNonce, setCode, setState, update_object; jrnl_same. Qed.

(** Undoing entries takes their counts off. *)
Lemma revert_entries_counts p l s x s' :
  revert_entries l s = Ret (x, s') → counts (p ++ rev l) (dirties (jrnl s)) →
  counts p (dirties (jrnl s')) ∧ entries (jrnl s') = entries (jrnl s).
Proof.
  revert s. induction l as [|e l IH]; intros s He Hc.
  - injection He as _ <-. cbn in Hc. by rewrite app_nil_r in Hc.
  - cbn [revert_entries] in He. apply db_bind_inv in He as ([] & s1 & He1 & He).
    pose proof (revert_entry_same e s tt s1 He1) as Hj1. cbn [rev] in Hc. rewrite app_assoc, <- Hj1 in Hc.
    destruct (dirtied e) as [a|] eqn:Hd.
    + rewrite modify_bind in He. apply IH in He as [Hc' He']; [rewrite Hj1 in He'; done|].
      exact (counts_undirty e a _ _ Hd Hc).
    + change ((mret () ≫= λ _, revert_entries l) s1) with (revert_entries l s1) in He.
      apply IH in He as [Hc' He']; [rewrite Hj1 in He'; done|]. by eapply counts_skip.
Qed.

Lemma RevertToSnapshot_counts id : keeps_counts (RevertToSnapshot id).
Proof.
  unfold RevertToSnapshot. apply counts_bind; [by apply same_counts, same_get|]. intros revs.
  case_match; [|by apply same_counts, same_go]. case_match; [|by apply same_counts, same_go].
  apply counts_bind; [|intros _; by apply same_counts, same_modify].
  intros s x s' He Hc. unfold journal_revert in He. rewrite get_bind in He. apply db_bind_inv in He as ([] & s1 & He1 & He).
  apply (revert_entries_counts (take (Z.to_nat (journalIndex r)) (entries (jrnl s)))) in He1 as [Hc1 He1].
  2: { rewrite rev_involutive, take_drop. exact Hc. }
  destruct (_ <? _); [done|]. injection He as _ <-. unfold counted. cbn. by rewrite He1.
Qed.

Lemma run_op_counts op : keeps_counts (run_op op).
Proof.
  destruct op; cbn [run_op];
    unfold CreateAccount, SubBalance, AddBalance, SetBalance, SetNonce, SetCode, SetState, Suicide, AddRefund, SubRefund,
      AddAddressToAccessList, AddSlotToAccessList, AddLogSu, AddPreimage, GetBalance, GetNonce, GetCodeHash, GetCode,
      GetCodeSize, GetRefund, GetCommittedState, GetState, HasSuicided, Exist, Empty, AddressInAccessList, SlotInAccessList,
      Snapshot, read_object, so_SubBalance, so_AddBalance, so_SetBalance, so_SetNonce, so_SetCode, so_SetState,
      setBalance, setNonce, setCode, setState, update_object, object_at.
  29: { apply counts_bind; [apply RevertToSnapshot_counts|]. intros _. by apply same_counts, same_ret. }
  all: jrnl_counts.
Qed.

Lemma run_ops_counts ops : keeps_counts (run_ops ops).
Proof.
  induction ops as [|op ops IH]; [by apply same_counts, same_ret|]. cbn [run_ops].
  apply counts_bind; [apply run_op_counts|]. intros out. apply counts_bind; [done|]. intros outs. by apply same_counts, same_ret.
Qed.
End operations.
