(* ===== verification/StateTxFacts.v ===== *)
(** * The end of a transaction

    What [Finalise] does to the accounts and what it records of them. *)

From Stdlib Require Import FunctionalExtensionality.
From S2P Require Import Prelude Common Uint256 Machine VmFacts Vm Rlp RlpFacts RlpDecode RlpStreamFacts State Statedb StateTx StateView StateUndo StateOps.

Section facts.
Context `{HD : DatabaseLaws}.

(** ** Objects *)

Definition v_commit (v : AccView) : AccView :=
  mkView (av_Nonce v) (av_Balance v) (av_CodeHash v) (av_Code v) (av_suicided v) (av_State v) (av_State v).

Lemma so_finalise_base o k : base_value (so_finalise o) k = base_value o k.
Proof. unfold base_value. by rewrite (trie_value_trie o) by by apply getTrie_ext. Qed.

Lemma view_finalise o : fakeStorage o = None → view (so_finalise o) = v_commit (view o).
Proof.
  intros Hf.
  assert (committed_value (so_finalise o) = state_value o) as Hc.
  { extensionality k. rewrite committed_base by done. rewrite so_finalise_base. unfold state_value.
    cbn [so_finalise set_touched set_storage pendingStorage]. rewrite lookup_union. rewrite (committed_base o) by done.
    by destruct (dirtyStorage o !! k), (pendingStorage o !! k). }
  assert (state_value (so_finalise o) = state_value o) as Hs.
  { extensionality k. unfold state_value at 1. cbn [so_finalise set_touched set_storage dirtyStorage]. by rewrite lookup_empty, Hc. }
  unfold view, v_commit. cbn [av_Nonce av_Balance av_CodeHash av_Code av_suicided av_State]. rewrite Hc, Hs.
  by rewrite (code_of_eq o (so_finalise o)).
Qed.

Lemma touched_state key o o' v :
  so_GetState key o = Ret (o', v) → ResearchTouched o' = {[key]} ∪ ResearchTouched o.
Proof.
  unfold so_GetState. cbn [fakeStorage set_touched dirtyStorage]. destruct (fakeStorage o) eqn:Hf; [by intros [= <- _]|].
  destruct (dirtyStorage o !! key); [by intros [= <- _]|]. unfold so_GetCommittedState. cbn [fakeStorage set_touched pendingStorage originStorage].
  rewrite Hf. destruct (pendingStorage o !! key); [by intros [= <- _]|]. destruct (originStorage o !! key); [by intros [= <- _]|].
  set (o1 := set_touched _ o). assert (ResearchTouched (fst (getTrie o1)) = {[key]} ∪ ResearchTouched o) as Ht.
  { unfold getTrie. destruct (so_trie o1); [done|]. by destruct (OpenStorageTrie _ _). }
  destruct (getTrie o1) as [o2 t]. cbn [fst] in Ht. destruct (TryGet t _); [by intros [= <- _]|].
  destruct (slot_value _) as [[w [e|]]|]; [by intros [= <- _]..|done].
Qed.

Lemma touched_committed key o o' v : so_GetCommittedState key o = Ret (o', v) → ResearchTouched o' = ResearchTouched o.
Proof.
  unfold so_GetCommittedState. destruct (fakeStorage o) eqn:Hf; [by intros [= <- _]|].
  destruct (pendingStorage o !! key); [by intros [= <- _]|]. destruct (originStorage o !! key); [by intros [= <- _]|].
  assert (ResearchTouched (fst (getTrie o)) = ResearchTouched o) as Ht.
  { unfold getTrie. destruct (so_trie o); [done|]. by destruct (OpenStorageTrie _ _). }
  destruct (getTrie o) as [o2 t]. cbn [fst] in Ht. destruct (TryGet t _); [by intros [= <- _]|].
  destruct (slot_value _) as [[w [e|]]|]; [by intros [= <- _]..|done].
Qed.

(** ** Reading slots *)

Lemma on_object_eq {A} (f : stateObject → Go (stateObject * A)) a o o' x s :
  stateObjects s !! a = Some o → f o = Ret (o', x) → on_object a f s = Ret (x, set_stateObjects <[a := o']> s).
Proof.
  intros Ho Hf. unfold on_object. rewrite get_bind, Ho.
  by rewrite (db_bind _ _ s (o', x) s) by (unfold db_go; by rewrite Hf).
Qed.

Lemma put_id a o s : stateObjects s !! a = Some o → set_stateObjects <[a := o]> s = s.
Proof. intros Ho. destruct s. unfold set_stateObjects. cbn in *. by rewrite insert_id. Qed.
Lemma put_put a o1 o2 s : set_stateObjects <[a := o2]> (set_stateObjects <[a := o1]> s) = set_stateObjects <[a := o2]> s.
Proof. unfold set_stateObjects. cbn. by rewrite insert_insert_eq. Qed.
Lemma put_lookup a o s : stateObjects (set_stateObjects <[a := o]> s) !! a = Some o.
Proof. cbn. by rewrite lookup_insert, decide_True. Qed.

Lemma object_at_eq {A} (f : stateObject → A) a o s : stateObjects s !! a = Some o → object_at a f s = Ret (f o, s).
Proof. intros Ho. unfold object_at. rewrite (on_object_eq _ a o o (f o) s) by done. by rewrite put_id. Qed.

(** A reader of slots that have been touched. *)
Definition slot_reader (f : Hash → stateObject → Go (stateObject * Hash)) (g : AccView → Hash → Hash) : Prop :=
  ∀ key o, fakeStorage o = None → key ∈ ResearchTouched o →
    ∃ o', f key o = Ret (o', g (view o) key) ∧ reads_only o o' ∧ ResearchTouched o' = ResearchTouched o.

Lemma committed_reader : slot_reader so_GetCommittedState av_Committed.
Proof.
  intros key o Hf _. destruct (committed_read o key Hf) as (o' & He & Hr). exists o'. split_and!; [done|done|].
  by eapply touched_committed.
Qed.
Lemma state_reader : slot_reader so_GetState av_State.
Proof.
  intros key o Hf Hk. destruct (state_read o key Hf) as (o' & He & Hr). exists o'. split_and!; [done|done|].
  rewrite (touched_state _ _ _ _ He). set_solver.
Qed.

Lemma read_slots_spec f g a keys st o s :
  slot_reader f g → stateObjects s !! a = Some o → fakeStorage o = None → (∀ k, k ∈ keys → k ∈ ResearchTouched o) →
  ∃ o' st', read_slots a f keys st s = Ret (st', set_stateObjects <[a := o']> s) ∧ reads_only o o' ∧
    ResearchTouched o' = ResearchTouched o ∧
    ∀ k, st' !! k = if decide (k ∈ keys) then Some (g (view o) k) else st !! k.
Proof.
  intros Hf. revert st o s. induction keys as [|key keys IH]; intros st o s Ho Hn Hk.
  - exists o, st. split_and!; [by rewrite put_id|done|done|]. intros k. by rewrite decide_False by by intros ?%elem_of_nil.
  - cbn [read_slots]. destruct (Hf key o Hn) as (o1 & He1 & [Hc1 Hv1] & Ht1); [apply Hk; by left|].
    rewrite (db_bind _ _ _ _ _ (on_object_eq _ a o o1 _ s Ho He1)).
    destruct (IH (<[key := g (view o) key]> st) o1 (set_stateObjects <[a := o1]> s)) as (o2 & st2 & He2 & Hr2 & Ht2 & Hst).
    + apply put_lookup.
    + by rewrite (core_fake _ _ Hc1).
    + intros k Hin. rewrite Ht1. apply Hk. by right.
    + exists o2, st2. rewrite put_put in He2. split_and!; [done| |congruence|].
      { apply (reads_only_trans o o1 o2); [by split|done]. }
      intros k. rewrite Hst, Hv1. destruct (decide (k = key)) as [->|Hne].
      * rewrite (decide_True (P := key ∈ key :: keys)) by by left.
        rewrite lookup_insert, (decide_True (P := key = key)) by done. by case_decide.
      * rewrite lookup_insert_ne by congruence. case_decide as Hin; case_decide as Hin'; try done.
        -- destruct Hin'. by right.
        -- by apply elem_of_cons in Hin' as [|].
Qed.
(** ** The records *)

Definition slots_of (g : Hash → Hash) (keys : gset Hash) (base : gmap Hash Hash) : gmap Hash Hash :=
  map_imap (λ k _, Some (g k)) (gset_to_gmap 0 keys) ∪ base.

Lemma slots_of_lookup g keys base k : slots_of g keys base !! k = if decide (k ∈ keys) then Some (g k) else base !! k.
Proof.
  unfold slots_of. rewrite lookup_union, map_lookup_imap, lookup_gset_to_gmap. case_decide as Hk.
  - rewrite option_guard_True by done. cbn. by destruct (base !! k).
  - rewrite option_guard_False by done. cbn. by destruct (base !! k).
Qed.

(** The account before the transaction, and after it. *)
Definition pre_record (o : stateObject) (sa : SubstateAccount) : SubstateAccount :=
  set_sub_Storage (slots_of (committed_value o) (ResearchTouched o)) sa.
Definition post_record (o : stateObject) : SubstateAccount :=
  set_sub_Storage (slots_of (state_value o) (ResearchTouched o))
    (NewSubstateAccount (Nonce (so_data o)) (Balance (so_data o)) (code_of o)).

(** An object that was only read. *)
Definition read_from (o o' : stateObject) : Prop := reads_only o o' ∧ ResearchTouched o' = ResearchTouched o.

Lemma read_from_refl o : read_from o o.
Proof. by split. Qed.
Lemma read_from_trans o1 o2 o3 : read_from o1 o2 → read_from o2 o3 → read_from o1 o3.
Proof. intros [? ?] [? ?]. split; [by eapply reads_only_trans|congruence]. Qed.

Lemma pre_record_read o o' sa : read_from o o' → pre_record o' sa = pre_record o sa.
Proof. intros [[_ Hv] Ht]. unfold pre_record. rewrite Ht. by rewrite (f_equal av_Committed Hv : committed_value o' = committed_value o). Qed.
Lemma post_record_read o o' : read_from o o' → post_record o' = post_record o.
Proof.
  intros [[Hc Hv] Ht]. unfold post_record. rewrite Ht, (core_data _ _ Hc).
  rewrite (f_equal av_State Hv : state_value o' = state_value o). by rewrite (f_equal av_Code Hv : code_of o' = code_of o).
Qed.

Definition with_records (pre : gmap Address (option SubstateAccount)) (post : gmap Address SubstateAccount)
    (objs : gmap Address stateObject) (s : statedb) : statedb :=
  set_research pre post (set_stateObjects (λ _, objs) s).

Lemma record_storage_eq a sa o s :
  stateObjects s !! a = Some o → fakeStorage o = None →
  ∃ o', record_storage (a, Some sa) s
      = Ret (tt, with_records (<[a := Some (pre_record o sa)]> (ResearchPreAlloc s))
                   (<[a := pre_record o sa]> (ResearchPostAlloc s)) (<[a := o']> (stateObjects s)) s) ∧ read_from o o'.
Proof.
  intros Ho Hf. cbn [record_storage]. rewrite (db_bind _ _ _ _ _ (object_at_eq _ a o s Ho)).
  destruct (read_slots_spec _ _ a (elements (ResearchTouched o)) (sub_Storage sa) o s committed_reader Ho Hf) as (o' & st & He & Hr & Ht & Hst).
  { intros k. by rewrite elem_of_elements. }
  rewrite (db_bind _ _ _ _ _ He). unfold set_pre, set_post. rewrite modify_bind. exists o'.
  assert (st = slots_of (committed_value o) (ResearchTouched o) (sub_Storage sa)) as ->.
  { apply map_eq. intros k. rewrite Hst, slots_of_lookup. pose proof (elem_of_elements (ResearchTouched o) k) as Hel.
    change (av_Committed (view o) k) with (committed_value o k). do 2 case_decide; try done; tauto. }
  split; [done|by split].
Qed.

Definition objs_read (m m' : gmap Address stateObject) : Prop :=
  ∀ a, match m !! a with Some o => ∃ o', m' !! a = Some o' ∧ read_from o o' | None => m' !! a = None end.

Lemma objs_read_refl m : objs_read m m.
Proof. intros a. destruct (m !! a) as [o|]; [|done]. exists o. split; [done|apply read_from_refl]. Qed.
Lemma objs_read_trans m1 m2 m3 : objs_read m1 m2 → objs_read m2 m3 → objs_read m1 m3.
Proof.
  intros H12 H23 a. specialize (H12 a). specialize (H23 a). destruct (m1 !! a) as [o1|]; [|by rewrite H12 in H23].
  destruct H12 as (o2 & Ho2 & H12). rewrite Ho2 in H23. destruct H23 as (o3 & Ho3 & H23). exists o3.
  split; [done|by eapply read_from_trans].
Qed.
Lemma objs_read_at m m' a o : objs_read m m' → m !! a = Some o → ∃ o', m' !! a = Some o' ∧ read_from o o'.
Proof. intros Hr Ho. specialize (Hr a). by rewrite Ho in Hr. Qed.
Lemma objs_read_back m m' a o' : objs_read m m' → m' !! a = Some o' → ∃ o, m !! a = Some o ∧ read_from o o'.
Proof.
  intros Hr Ho. specialize (Hr a). destruct (m !! a) as [o|]; [|congruence]. destruct Hr as (o1 & Ho1 & Hr). exists o. by simplify_eq.
Qed.

(** The loop over what was read. *)
Lemma record_storages l s :
  NoDup (fst <$> l) → (∀ a o, stateObjects s !! a = Some o → fakeStorage o = None) →
  (∀ a sa, (a, Some sa) ∈ l → is_Some (stateObjects s !! a)) →
  ∃ pre post objs, db_each record_storage l s = Ret (tt, with_records pre post objs s) ∧
    objs_read (stateObjects s) objs ∧
    (∀ a, a ∉ fst <$> l → pre !! a = ResearchPreAlloc s !! a ∧ post !! a = ResearchPostAlloc s !! a) ∧
    (∀ a, (a, None) ∈ l → pre !! a = None ∧ post !! a = ResearchPostAlloc s !! a) ∧
    (∀ a sa o, (a, Some sa) ∈ l → stateObjects s !! a = Some o →
       pre !! a = Some (Some (pre_record o sa)) ∧ post !! a = Some (pre_record o sa)).
Proof.
  revert s. induction l as [|[a x] l IH]; intros s Hnd Hf Hl.
  - exists (ResearchPreAlloc s), (ResearchPostAlloc s), (stateObjects s). split; [by destruct s|]. split; [|split; [done|]].
    + apply objs_read_refl.
    + split; [intros a Hin|intros a sa o Hin]; by apply elem_of_nil in Hin.
  - cbn in Hnd. apply NoDup_cons in Hnd as [Ha Hnd].
    assert (∃ pre1 post1 objs1, record_storage (a, x) s = Ret (tt, with_records pre1 post1 objs1 s) ∧
      objs_read (stateObjects s) objs1 ∧
      (∀ b, b ≠ a → pre1 !! b = ResearchPreAlloc s !! b ∧ post1 !! b = ResearchPostAlloc s !! b) ∧
      match x with
      | None => pre1 !! a = None ∧ post1 !! a = ResearchPostAlloc s !! a
      | Some sa => ∃ o, stateObjects s !! a = Some o ∧ pre1 !! a = Some (Some (pre_record o sa)) ∧ post1 !! a = Some (pre_record o sa)
      end) as (pre1 & post1 & objs1 & He1 & Hr1 & Hother & Hthis).
    { destruct x as [sa|].
      - destruct (Hl a sa) as [o Ho]; [by left|]. destruct (record_storage_eq a sa o s Ho (Hf a o Ho)) as (o' & He & Hr).
        eexists _, _, _. split; [exact He|]. split; [|split].
        + intros b. destruct (decide (b = a)) as [->|].
          * rewrite Ho, lookup_insert, decide_True by done. by exists o'.
          * rewrite lookup_insert_ne by congruence. apply objs_read_refl.
        + intros b Hb. by rewrite !lookup_insert_ne by congruence.
        + exists o. by rewrite !lookup_insert, !decide_True by done.
      - exists (delete a (ResearchPreAlloc s)), (ResearchPostAlloc s), (stateObjects s). split; [by destruct s|]. split; [|split].
        + apply objs_read_refl.
        + intros b Hb. by rewrite lookup_delete_ne by congruence.
        + by rewrite lookup_delete, decide_True. }
    destruct (IH (with_records pre1 post1 objs1 s)) as (pre & post & objs & He & Hr & Hout & Hnone & Hsome); [done| | |].
    { intros b o1 Ho1. destruct (objs_read_back _ _ b o1 Hr1 Ho1) as (o & Ho & [[Hc _] _]). rewrite (core_fake _ _ Hc). by eapply Hf. }
    { intros b sa Hin. destruct (Hl b sa) as [o Ho]; [by right|]. destruct (objs_read_at _ _ b o Hr1 Ho) as (o1 & Ho1 & _). by exists o1. }
    exists pre, post, objs. split; [cbn [db_each]; by rewrite (db_bind _ _ _ _ _ He1)|]. cbn in Hr, Hout, Hsome, Hnone.
    split; [|split; [|split]].
    + by eapply objs_read_trans.
    + intros b Hb. apply not_elem_of_cons in Hb as [Hba Hb]. destruct (Hout b Hb) as [-> ->]. by apply Hother.
    + intros b [[= -> <-]|Hin]%elem_of_cons.
      * destruct (Hout a Ha) as [-> ->]. exact Hthis.
      * destruct (Hnone b Hin) as [-> ->]. split; [done|]. apply Hother. intros ->. apply Ha.
        by apply (list_elem_of_fmap_2 fst _ (a, None)).
    + intros b sa o [[= -> <-]|Hin]%elem_of_cons Ho.
      * destruct (Hout a Ha) as [-> ->]. destruct Hthis as (o1 & Ho1 & Hp & Hq). by simplify_eq.
      * destruct (objs_read_at _ _ b o Hr1 Ho) as (o1 & Ho1 & Hro). destruct (Hsome b sa o1 Hin Ho1) as [-> ->].
        by rewrite (pre_record_read o o1 sa Hro).
Qed.
(** ** The dirty accounts *)

Definition removed (b : bool) (o : stateObject) : bool := suicided o || (b && empty o).

Definition finalised_object (b : bool) (o o' : stateObject) : Prop :=
  if removed b o then o' = set_deleted true o else ∃ o1, read_from o o1 ∧ o' = so_finalise o1.

Definition mark (a : Address) (s : statedb) : statedb :=
  set_marks ({[a]} ∪ stateObjectsPending s) ({[a]} ∪ stateObjectsDirty s) s.

Lemma code_eq a o s : stateObjects s !! a = Some o → fakeStorage o = None →
  ∃ o', on_object a (λ o, Ret (so_Code o)) s = Ret (snd (so_Code o), set_stateObjects <[a := o']> s) ∧ read_from o o' ∧
    so_data o' = so_data o.
Proof.
  intros Ho Hf. exists (fst (so_Code o)). split; [|split; [split|]].
  - apply (on_object_eq _ a o); [done|]. by destruct (so_Code o).
  - by apply code_read.
  - unfold so_Code. destruct (so_code o); [done|]. case_bool_decide; [done|]. by destruct (ContractCode _ _) as [c []].
  - unfold so_Code. destruct (so_code o); [done|]. case_bool_decide; [done|]. by destruct (ContractCode _ _) as [c []].
Qed.

Lemma record_post_eq a o s : stateObjects s !! a = Some o → fakeStorage o = None →
  ∃ o', record_post a s
      = Ret (tt, with_records (ResearchPreAlloc s) (<[a := post_record o]> (ResearchPostAlloc s)) (<[a := o']> (stateObjects s)) s) ∧
    read_from o o'.
Proof.
  intros Ho Hf. unfold record_post. rewrite (db_bind _ _ _ _ _ (object_at_eq _ a o s Ho)), (db_bind _ _ _ _ _ (object_at_eq _ a o s Ho)).
  destruct (code_eq a o s Ho Hf) as (o1 & He1 & Hr1 & Hd1). rewrite (db_bind _ _ _ _ _ He1).
  rewrite (db_bind _ _ _ _ _ (object_at_eq _ a o1 _ (put_lookup a o1 s))).
  destruct (read_slots_spec _ _ a (elements (ResearchTouched o1)) ∅ o1 (set_stateObjects <[a := o1]> s) state_reader) as (o2 & st & He2 & Hr2 & Ht2 & Hst).
  { apply put_lookup. }
  { destruct Hr1 as [[Hc _] _]. by rewrite (core_fake _ _ Hc). }
  { intros k. by rewrite elem_of_elements. }
  rewrite (db_bind _ _ _ _ _ He2). exists o2. split; [|eapply read_from_trans; [exact Hr1|by split]].
  unfold set_post, db_modify. rewrite put_put. unfold with_records. cbn.
  assert (st = slots_of (state_value o) (ResearchTouched o) ∅) as ->; [|done].
  apply map_eq. intros k. destruct Hr1 as [[_ Hv1] Ht1]. rewrite Hst, slots_of_lookup, Ht1, Hv1.
  pose proof (elem_of_elements (ResearchTouched o) k) as Hel.
  change (av_State (view o) k) with (state_value o k). do 2 case_decide; try done; tauto.
Qed.

Lemma finalise_dirty_eq b a o s : stateObjects s !! a = Some o → fakeStorage o = None →
  ∃ o' post, finalise_dirty b a s = Ret (tt, mark a (with_records (ResearchPreAlloc s) post (<[a := o']> (stateObjects s)) s)) ∧
    finalised_object b o o' ∧ post !! a = (if removed b o then None else Some (post_record o)) ∧
    ∀ x, x ≠ a → post !! x = ResearchPostAlloc s !! x.
Proof.
  intros Ho Hf. unfold finalise_dirty. rewrite get_bind, Ho. fold (removed b o). unfold finalised_object. destruct (removed b o).
  - assert (update_object a (set_deleted true) s = Ret (tt, set_stateObjects <[a := set_deleted true o]> s)) as Hu
      by by apply (on_object_eq _ a o).
    rewrite (db_bind (_ ← update_object a (set_deleted true); set_post (delete a)) _ s tt
      (with_records (ResearchPreAlloc s) (delete a (ResearchPostAlloc s)) (<[a := set_deleted true o]> (stateObjects s)) s)).
    2: { by rewrite (db_bind _ _ _ _ _ Hu). }
    eexists _, _. split; [done|]. split; [done|]. split; [by rewrite lookup_delete, decide_True|].
    intros x Hx. by rewrite lookup_delete_ne.
  - destruct (record_post_eq a o s Ho Hf) as (o1 & He1 & Hr1).
    set (s1 := with_records _ _ _ _) in He1.
    assert (update_object a so_finalise s1 = Ret (tt, set_stateObjects <[a := so_finalise o1]> s1)) as Hu.
    { apply (on_object_eq _ a o1); [|done]. cbn. by rewrite lookup_insert, decide_True. }
    rewrite (db_bind (_ ← record_post a; update_object a so_finalise) _ s tt
      (with_records (ResearchPreAlloc s) (<[a := post_record o]> (ResearchPostAlloc s)) (<[a := so_finalise o1]> (stateObjects s)) s)).
    2: { rewrite (db_bind _ _ _ _ _ He1), Hu. unfold s1, with_records. cbn. do 2 f_equal.
         unfold set_stateObjects, set_research. cbn. by rewrite insert_insert_eq. }
    eexists _, _. split; [done|]. split; [by exists o1|]. split; [by rewrite lookup_insert, decide_True|].
    intros x Hx. by rewrite lookup_insert_ne.
Qed.

(** What the loop over the dirty addresses leaves. *)
Record finalising (b : bool) (l : list Address) (s s' : statedb) : Prop := {
  fin_rest : ∃ p d post objs, s' = set_marks p d (with_records (ResearchPreAlloc s) post objs s);
  fin_other : ∀ a, a ∉ l → stateObjects s' !! a = stateObjects s !! a ∧ ResearchPostAlloc s' !! a = ResearchPostAlloc s !! a;
  fin_missing : ∀ a, stateObjects s !! a = None → stateObjects s' !! a = None ∧ ResearchPostAlloc s' !! a = ResearchPostAlloc s !! a;
  fin_dirty : ∀ a o, a ∈ l → stateObjects s !! a = Some o →
    (∃ o', stateObjects s' !! a = Some o' ∧ finalised_object b o o') ∧
    ResearchPostAlloc s' !! a = if removed b o then None else Some (post_record o);
  fin_marks : ∀ a,
    (a ∈ stateObjectsPending s' ↔ a ∈ stateObjectsPending s ∨ (a ∈ l ∧ is_Some (stateObjects s !! a))) ∧
    (a ∈ stateObjectsDirty s' ↔ a ∈ stateObjectsDirty s ∨ (a ∈ l ∧ is_Some (stateObjects s !! a)))
}.

Lemma finalise_dirties b l s :
  NoDup l → (∀ a o, stateObjects s !! a = Some o → fakeStorage o = None) →
  ∃ s', db_each (finalise_dirty b) l s = Ret (tt, s') ∧ finalising b l s s'.
Proof.
  revert s. induction l as [|a l IH]; intros s Hnd Hf.
  - exists s. split; [done|]. split; [by exists (stateObjectsPending s), (stateObjectsDirty s), (ResearchPostAlloc s), (stateObjects s); destruct s|done|done| |].
    + intros a o Hin. by apply elem_of_nil in Hin.
    + intros a. split; (split; [by left|]); intros [|[Hin _]]; try done; by apply elem_of_nil in Hin.
  - apply NoDup_cons in Hnd as [Ha Hnd]. cbn [db_each]. destruct (stateObjects s !! a) as [o|] eqn:Ho.
    + destruct (finalise_dirty_eq b a o s Ho (Hf a o Ho)) as (o' & post & He & Hfo & Hp & Hpo). rewrite (db_bind _ _ _ _ _ He).
      set (s1 := mark a _) in *.
      destruct (IH s1) as (s' & He' & [(p & d & post' & objs & Hs') Hother Hmiss Hdirty Hmarks]); [done| |].
      { intros x ox Hx. cbn in Hx. destruct (decide (x = a)) as [->|Hxa].
        - rewrite lookup_insert, decide_True in Hx by done. injection Hx as <-. unfold finalised_object in Hfo.
          destruct (removed b o); [subst o'; exact (Hf a o Ho)|]. destruct Hfo as (o1 & [[Hc _] _] & ->). cbn.
          rewrite (core_fake _ _ Hc). exact (Hf a o Ho).
        - rewrite lookup_insert_ne in Hx by congruence. by eapply Hf. }
      exists s'. split; [done|]. split.
      * exists p, d, post', objs. rewrite Hs'. by destruct s.
      * intros x Hx. apply not_elem_of_cons in Hx as [Hxa Hx]. destruct (Hother x Hx) as [-> ->]. cbn.
        rewrite lookup_insert_ne by congruence. by rewrite Hpo.
      * intros x Hx. destruct (decide (x = a)) as [->|Hxa]; [congruence|].
        assert (stateObjects s1 !! x = None) as Hx1 by (cbn; by rewrite lookup_insert_ne by congruence).
        destruct (Hmiss x Hx1) as [-> ->]. cbn. by rewrite Hpo by congruence.
      * intros x ox [->|Hin]%elem_of_cons Hx.
        -- destruct (Hother a Ha) as [-> ->]. cbn. rewrite lookup_insert, decide_True by done. simplify_eq. by split; [exists o'|].
        -- apply Hdirty; [done|]. cbn. rewrite lookup_insert_ne; [done|]. intros <-. done.
      * intros x. destruct (Hmarks x) as [-> ->]. cbn. split; rewrite elem_of_union, elem_of_singleton, elem_of_cons;
          (destruct (decide (x = a)) as [->|Hxa]; [rewrite Ho; split; [right; split; [by left|by eexists]|by left; left]|];
           rewrite lookup_insert_ne by congruence; tauto).
    + assert (finalise_dirty b a s = Ret (tt, s)) as He by (unfold finalise_dirty; by rewrite get_bind, Ho).
      rewrite (db_bind _ _ _ _ _ He). destruct (IH s Hnd Hf) as (s' & He' & [Hs' Hother Hmiss Hdirty Hmarks]).
      exists s'. split; [done|]. split; [done| |done| |].
      * intros x Hx. apply not_elem_of_cons in Hx as [_ Hx]. by apply Hother.
      * intros x ox [->|Hin]%elem_of_cons Hx; [congruence|by apply Hdirty].
      * intros x. destruct (Hmarks x) as [-> ->]. rewrite elem_of_cons. destruct (decide (x = a)) as [->|]; [|tauto].
        rewrite Ho. split; (split; [intros [|[? _]]; [by left|done]|intros [|[_ [? ?]]]; [by left|done]]).
Qed.
(** ** Finalise *)

Definition finalised (b : bool) (v : AccView) : option AccView :=
  if av_suicided v || (b && v_empty v) then None else Some (v_commit v).

(** An account whose object the journal names. *)
Definition is_dirty (s : statedb) (a : Address) : Prop := is_Some (dirties (jrnl s) !! a) ∧ is_Some (stateObjects s !! a).

#[export] Instance is_dirty_dec s a : Decision (is_dirty s a).
Proof. unfold is_dirty. apply _. Defined.

Definition pre_final (s : statedb) (a : Address) : option SubstateAccount :=
  match ResearchPreAlloc s !! a, stateObjects s !! a with
  | Some (Some sa), Some o => Some (pre_record o sa)
  | _, _ => None
  end.
Definition post_final (b : bool) (s : statedb) (a : Address) : option SubstateAccount :=
  if decide (is_dirty s a) then
    match stateObjects s !! a with
    | Some o => if removed b o then None else Some (post_record o)
    | None => None
    end
  else match pre_final s a with Some sa => Some sa | None => ResearchPostAlloc s !! a end.

Record ended (b : bool) (s s' : statedb) : Prop := {
  end_swf : swf s';
  end_account : ∀ a, account s' a = if decide (is_dirty s a) then v ← account s a; finalised b v else account s a;
  end_pre : ∀ a, ResearchPreAlloc s' !! a = Some <$> pre_final s a;
  end_post : ∀ a, ResearchPostAlloc s' !! a = post_final b s a;
  end_journal : jrnl s' = match entries (jrnl s) with [] => jrnl s | _ => newJournal end;
  end_refund : refund s' = match entries (jrnl s) with [] => refund s | _ => 0 end;
  end_revisions : validRevisions s' = [] ∧ nextRevisionId s' = nextRevisionId s;
  end_rest : trie s' = trie s ∧ dbErr s' = dbErr s ∧ logs s' = logs s ∧ logSize s' = logSize s ∧
    preimages s' = preimages s ∧ access s' = access s ∧ thash s' = thash s ∧ txIndex s' = txIndex s;
  end_objects : ∀ a, match stateObjects s !! a with
    | None => stateObjects s' !! a = None
    | Some o => ∃ o', stateObjects s' !! a = Some o' ∧
        if decide (is_dirty s a) then ∃ o1, read_from o o1 ∧ finalised_object b o1 o' else read_from o o'
    end;
  end_pending : ∀ a,
    (a ∈ stateObjectsPending s' ↔ a ∈ stateObjectsPending s ∨ is_dirty s a) ∧
    (a ∈ stateObjectsDirty s' ↔ a ∈ stateObjectsDirty s ∨ is_dirty s a)
}.

Lemma finalised_eq b o : finalised b (view o) = if removed b o then None else Some (v_commit (view o)).
Proof. done. Qed.

Lemma finalised_view b o o' : fakeStorage o = None → finalised_object b o o' →
  (if deleted o' then None else Some (view o')) = v ← (if deleted o then None else Some (view o)); finalised b v.
Proof.
  intros Hf. unfold finalised_object. destruct (removed b o) eqn:Hr.
  - intros ->. change (deleted (set_deleted true o)) with true. destruct (deleted o); [done|].
    transitivity (finalised b (view o)); [|done]. by rewrite finalised_eq, Hr.
  - intros (o1 & [[Hc Hv] _] & ->). change (deleted (so_finalise o1)) with (deleted o1). rewrite (core_deleted _ _ Hc).
    destruct (deleted o); [done|]. transitivity (finalised b (view o)); [|done].
    by rewrite finalised_eq, Hr, view_finalise, Hv by by rewrite (core_fake _ _ Hc).
Qed.

Lemma finalised_wf a b o o' : obj_wf a o → finalised_object b o o' → obj_wf a o'.
Proof.
  unfold finalised_object. intros Hw. destruct (removed b o); [by intros ->; destruct Hw|]. intros (o1 & [[Hc _] _] & ->).
  destruct (obj_wf_core a o o1 Hc Hw). by split.
Qed.

(** The account of an object, which hides the trie below. *)
Definition alive (o : stateObject) : option AccView := if deleted o then None else Some (view o).

Lemma account_object s a o : stateObjects s !! a = Some o → account s a = alive o.
Proof. intros Ho. unfold account. by rewrite Ho. Qed.
Lemma alive_read o o' : read_from o o' → alive o' = alive o.
Proof. intros [[Hc Hv] _]. unfold alive. by rewrite (core_deleted _ _ Hc), Hv. Qed.

Lemma ended_account b s s' a :
  swf s → trie s' = trie s →
  match stateObjects s !! a with
  | None => stateObjects s' !! a = None
  | Some o => ∃ o', stateObjects s' !! a = Some o' ∧
      if decide (is_dirty s a) then ∃ o1, read_from o o1 ∧ finalised_object b o1 o' else read_from o o'
  end →
  (account s' a = if decide (is_dirty s a) then v ← account s a; finalised b v else account s a) ∧
  ∀ o', stateObjects s' !! a = Some o' → obj_wf a o'.
Proof.
  intros Hs Ht Ha. destruct (stateObjects s !! a) as [o|] eqn:Ho.
  - destruct Ha as (o' & Ho' & Hx). pose proof (swf_objects _ Hs _ _ Ho) as Hw.
    rewrite (account_object s' a o' Ho'), (account_object s a o Ho). rewrite Ho'. destruct (decide (is_dirty s a)).
    + destruct Hx as (o1 & Hr & Hfo). rewrite <- (alive_read o o1 Hr). pose proof Hr as [[Hc _] _].
      pose proof (obj_wf_core a o o1 Hc Hw) as Hw1. split; [by apply finalised_view; [apply (wf_fake a)|]|].
      intros y [= <-]. by eapply finalised_wf.
    + rewrite (alive_read o o' Hx). split; [done|]. intros y [= <-]. pose proof Hx as [[Hc _] _]. by apply (obj_wf_core a o).
  - split; [|by intros o'; rewrite Ha]. rewrite decide_False by (intros [_ [x Hx]]; congruence).
    unfold account. by rewrite Ha, Ho, Ht.
Qed.

Lemma Finalise_spec b s :
  swf s → (∀ a sa, ResearchPreAlloc s !! a = Some (Some sa) → is_Some (stateObjects s !! a)) →
  ∃ s', Finalise b s = Ret (tt, s') ∧ ended b s s'.
Proof.
  intros Hs Hpre. unfold Finalise. rewrite get_bind.
  assert (∀ a o, stateObjects s !! a = Some o → fakeStorage o = None) as Hf.
  { intros a o Ho. apply (wf_fake a), (swf_objects _ Hs _ _ Ho). }
  destruct (record_storages (map_to_list (ResearchPreAlloc s)) s) as (pre & post & objs & He1 & Hr1 & Hout & Hnone & Hsome).
  { apply NoDup_fst_map_to_list. }
  { done. }
  { intros a sa Hin. apply (Hpre a sa). by apply elem_of_map_to_list. }
  rewrite (db_bind _ _ _ _ _ He1). rewrite get_bind. set (s1 := with_records pre post objs s) in *.
  change (dirties (jrnl s1)) with (dirties (jrnl s)).
  destruct (finalise_dirties b (fst <$> map_to_list (dirties (jrnl s))) s1) as (s2 & He2 & [(p & d & post2 & objs2 & ->) Hother Hmiss Hdirty Hmarks]).
  { apply NoDup_fst_map_to_list. }
  { intros a o Ho. destruct (objs_read_back _ _ a o Hr1 Ho) as (o0 & Ho0 & [[Hc _] _]). rewrite (core_fake _ _ Hc). by eapply Hf. }
  rewrite (db_bind _ _ _ _ _ He2). cbn [set_marks with_records set_research set_stateObjects stateObjects ResearchPreAlloc ResearchPostAlloc stateObjectsPending stateObjectsDirty s1] in *.
  assert (∀ a, a ∈ fst <$> map_to_list (dirties (jrnl s)) ↔ is_Some (dirties (jrnl s) !! a)) as Hd.
  { intros a. rewrite list_elem_of_fmap. split.
    - intros ([x n] & -> & Hin). apply elem_of_map_to_list in Hin. by exists n.
    - intros [n Hn]. exists (a, n). split; [done|]. by apply elem_of_map_to_list. }
  assert (∀ a, is_dirty s a ↔ a ∈ fst <$> map_to_list (dirties (jrnl s)) ∧ is_Some (objs !! a)) as Hdirt.
  { intros a. rewrite Hd. unfold is_dirty. specialize (Hr1 a). destruct (stateObjects s !! a) as [o|].
    - destruct Hr1 as (o' & -> & _). split; intros [? _]; by split; [|eexists].
    - rewrite Hr1. tauto. }
  assert (∀ a, (pre !! a = Some <$> pre_final s a) ∧
    post !! a = match pre_final s a with Some sa => Some sa | None => ResearchPostAlloc s !! a end) as Hpp.
  { intros a. unfold pre_final. destruct (ResearchPreAlloc s !! a) as [[sa|]|] eqn:Ea.
    - destruct (Hpre a sa Ea) as [o Ho]. rewrite Ho. apply (Hsome a sa o); [by apply elem_of_map_to_list|done].
    - apply Hnone. by apply elem_of_map_to_list.
    - destruct (Hout a) as [-> ->]; [|by rewrite Ea]. intros ([x y] & -> & Hin)%list_elem_of_fmap.
      apply elem_of_map_to_list in Hin. cbn in Ea. congruence. }
  assert (∀ a, match stateObjects s !! a with
    | None => objs2 !! a = None
    | Some o => ∃ o', objs2 !! a = Some o' ∧
        if decide (is_dirty s a) then ∃ o1, read_from o o1 ∧ finalised_object b o1 o' else read_from o o'
    end) as Hobj.
  { intros a. destruct (stateObjects s !! a) as [o|] eqn:Ho.
    - destruct (objs_read_at _ _ a o Hr1 Ho) as (o1 & Ho1 & Hro). case_decide as Hda.
      + apply Hdirt in Hda as [Hin _]. destruct (Hdirty a o1 Hin Ho1) as [(o' & Ho' & Hfo) _]. exists o'. split; [done|by exists o1].
      + exists o1. split; [|done]. rewrite <- Ho1. apply Hother. intros Hin. apply Hda, Hdirt. split; [done|by eexists].
    - apply Hmiss. specialize (Hr1 a). by rewrite Ho in Hr1. }
  eexists. split; [done|]. set (s2 := set_marks p d (with_records pre post2 objs2 s1)) in *.
  set (s3 := match entries (jrnl s2) with [] => s2 | _ => set_refund 0 (set_jrnl newJournal s2) end).
  assert (stateObjects s3 = objs2 ∧ trie s3 = trie s ∧ ResearchPreAlloc s3 = pre ∧ ResearchPostAlloc s3 = post2 ∧ stateObjectsPending s3 = p ∧
    stateObjectsDirty s3 = d) as (Eo & Et & Epre & Epost & Ep & Edd) by (unfold s3; by destruct (entries _)).
  split; cbn [stateObjects trie jrnl refund validRevisions nextRevisionId ResearchPreAlloc ResearchPostAlloc stateObjectsPending stateObjectsDirty
    dbErr logs logSize preimages access thash txIndex set_revisions].
  - split; cbn [stateObjects trie jrnl set_revisions]; rewrite ?Eo, ?Et.
    + intros a o Ho. apply (proj2 (ended_account b s s3 a Hs Et ltac:(rewrite Eo; apply Hobj))). by rewrite Eo.
    + apply Hs.
    + unfold s3. destruct (entries (jrnl s2)) eqn:Ej; [|constructor]. by rewrite Ej.
  - intros a. apply (proj1 (ended_account b s s3 a Hs Et ltac:(rewrite Eo; apply Hobj))).
  - intros a. rewrite Epre. apply Hpp.
  - intros a. rewrite Epost. unfold post_final. case_decide as Hda.
    + apply Hdirt in Hda as [Hin [o1 Ho1]]. destruct (Hdirty a o1 Hin Ho1) as [_ ->].
      destruct (objs_read_back _ _ a o1 Hr1 Ho1) as (o & -> & Hro). rewrite (post_record_read o o1 Hro).
      destruct Hro as [[Hc Hv] _]. change (removed b o1) with (av_suicided (view o1) || (b && v_empty (view o1))). by rewrite Hv.
    + destruct (Hpp a) as [_ <-]. destruct (objs !! a) eqn:Ea; [|by apply Hmiss].
      apply Hother. intros Hin. apply Hda, Hdirt. split; [done|by eexists].
  - unfold s3. change (jrnl s2) with (jrnl s). by destruct (entries (jrnl s)).
  - unfold s3. change (jrnl s2) with (jrnl s). by destruct (entries (jrnl s)).
  - split; [done|]. unfold s3. by destruct (entries _).
  - unfold s3. by destruct (entries _).
  - intros a. rewrite Eo. apply Hobj.
  - intros a. rewrite Ep, Edd, Hdirt. apply Hmarks.
Qed.
End facts.
