(* ===== verification/OffTheChainFacts.v ===== *)
(** * The state of a replay holds the recorded accounts

    [fresh] objects were made in memory: nothing of them was read from a trie. *)

From Stdlib Require Import FunctionalExtensionality.
From S2P Require Import Prelude Common Uint256 Machine VmFacts Vm Rlp RlpFacts RlpDecode RlpStreamFacts State Statedb StateTx StateView StateUndo StateOps StateTxFacts.

(** What a database in memory does, besides the laws of every database. *)
Class MemoryDatabase `{Externals, !Database} : Prop := {
  empty_trie h k : TryGet (OpenEmptyTrie h) k = inr [];
  update_ok t k v : Forall is_byte v → len v < 2 ^ 64 →
    ∃ t', TryUpdate t k v = (None, t') ∧ ∀ k', TryGet t' k' = if decide (k' = k) then inr v else TryGet t k';
  delete_ok t k : ∃ t', TryDelete t k = (None, t') ∧ ∀ k', TryGet t' k' = if decide (k' = k) then inr [] else TryGet t k';
  commit_ok t : ∃ root t', TrieCommit t = (inr root, t') ∧ ∀ k, TryGet t' k = TryGet t k
}.

Definition hash_ok (h : Hash) : Prop := 0 ≤ h < 2 ^ 256.
Definition address_ok (a : Address) : Prop := 0 ≤ a < 2 ^ 160.

Section facts.
Context `{HD : DatabaseLaws} `{!MemoryDatabase}.

Record fresh (o : stateObject) : Prop := {
  fresh_trie : match so_trie o with None => Root (so_data o) = emptyRoot | Some t => ∀ k, TryGet t k = inr [] end;
  fresh_dbErr : so_dbErr o = None;
  fresh_keys : ∀ k, is_Some (dirtyStorage o !! k) ∨ is_Some (pendingStorage o !! k) → hash_ok k;
  fresh_origin : ∀ k v, originStorage o !! k = Some v → v = 0;
  fresh_code : is_Some (so_code o) ∨ CodeHash (so_data o) = emptyCodeHash;
  fresh_fake : fakeStorage o = None;
  fresh_live : suicided o = false ∧ deleted o = false
}.

Lemma fresh_getTrie o : fresh o → fresh (fst (getTrie o)) ∧ ∀ k, TryGet (snd (getTrie o)) k = inr [].
Proof.
  intros [Ht He Hk Ho Hc Hf Hl]. unfold getTrie. destruct (so_trie o) as [t|] eqn:Et.
  - cbn [fst snd]. split; [|done]. split; try done. by rewrite Et.
  - rewrite Ht. destruct (empty_storage (so_addrHash o)) as (t & -> & Hg). split; [by split|done].
Qed.

(** What reading keeps. *)
Record kept (o o' : stateObject) : Prop := {
  kept_dirty : dirtyStorage o' = dirtyStorage o;
  kept_pending : pendingStorage o' = pendingStorage o;
  kept_data : so_data o' = so_data o;
  kept_code : so_code o' = so_code o;
  kept_address : so_address o' = so_address o ∧ so_addrHash o' = so_addrHash o
}.

Lemma kept_refl o : kept o o.
Proof. by split. Qed.
Lemma kept_trans o1 o2 o3 : kept o1 o2 → kept o2 o3 → kept o1 o3.
Proof. intros [? ? ? ? [? ?]] [? ? ? ? [? ?]]. split; [..|split]; congruence. Qed.

Lemma getTrie_kept o : kept o (fst (getTrie o)).
Proof. unfold getTrie. destruct (so_trie o); [by split|]. by destruct (OpenStorageTrie _ _); split. Qed.

Lemma fresh_touched k o : fresh o → fresh (set_touched k o).
Proof. intros []. by split. Qed.

Lemma fresh_GetCommittedState key o :
  fresh o → ∃ o', so_GetCommittedState key o = Ret (o', default 0 (pendingStorage o !! key)) ∧ fresh o' ∧ kept o o'.
Proof.
  intros Hfr. pose proof Hfr as [Ht He Hk Ho Hc Hf Hl]. unfold so_GetCommittedState. rewrite Hf.
  destruct (pendingStorage o !! key) as [v|] eqn:Ep; [by exists o|].
  destruct (originStorage o !! key) as [v|] eqn:Eo; [rewrite (Ho key v Eo); by exists o|].
  destruct (fresh_getTrie o Hfr) as [Hfr1 Hg]. pose proof (getTrie_kept o) as Hk1. pose proof (getTrie_storage o) as (Ho1 & _).
  destruct (getTrie o) as [o1 t]. cbn [fst snd] in *. rewrite Hg. cbn.
  eexists. split; [done|]. split; [|by destruct Hk1].
  destruct Hfr1 as [Ht1 He1 Hk1' Ho1' Hc1 Hf1 Hl1]. split; try done. cbn. intros k v. destruct (decide (k = key)) as [->|].
  - rewrite lookup_insert, decide_True by done. by intros [= <-].
  - rewrite lookup_insert_ne by congruence. apply Ho1'.
Qed.

Lemma fresh_GetState key o :
  fresh o → ∃ o', so_GetState key o
      = Ret (o', match dirtyStorage o !! key with Some v => v | None => default 0 (pendingStorage o !! key) end) ∧ fresh o' ∧ kept o o'.
Proof.
  intros Hfr. unfold so_GetState. cbn [fakeStorage set_touched dirtyStorage]. rewrite (fresh_fake _ Hfr).
  pose proof (fresh_touched ({[key]} ∪ ResearchTouched o) o Hfr) as Hfr1.
  destruct (dirtyStorage o !! key) as [v|]; [eexists; split; [done|]; by split|].
  destruct (fresh_GetCommittedState key _ Hfr1) as (o' & He & Hfr' & Hk'). exists o'. split; [done|]. split; [done|].
  by destruct Hk'.
Qed.

Lemma fresh_Code o : fresh o → ∃ c, so_Code o = (o, c).
Proof.
  intros []. unfold so_Code. destruct (so_code o); [by eexists|]. destruct fresh_code0 as [[? ?]|Hc]; [done|].
  rewrite bool_decide_true by done. by eexists.
Qed.

Lemma fresh_newObject a : fresh (newObject a true no_data).
Proof. split; try done. - intros k Hk. cbn in Hk. rewrite lookup_empty in Hk. by destruct Hk as [[]|[]]. - by right. Qed.

Lemma fresh_finalise o : fresh o → fresh (so_finalise o).
Proof.
  intros [Ht He Hk Ho Hc Hf Hl]. split; try done. cbn. intros k [[v Hv]|[v Hv]]; [by rewrite lookup_empty in Hv|].
  apply Hk. apply lookup_union_Some_raw in Hv as [Hv|[_ Hv]]; [left|right]; by eexists.
Qed.

(** ** Making one account *)

Definition put (a : Address) (o : stateObject) (j : journal) (s : statedb) : statedb :=
  set_jrnl j (set_stateObjects <[a := o]> s).

Lemma put_again a o1 o2 j1 j2 s : put a o2 j2 (put a o1 j1 s) = put a o2 j2 s.
Proof. unfold put, set_jrnl, set_stateObjects. cbn. by rewrite insert_insert_eq. Qed.
Lemma put_at a o j s : stateObjects (put a o j s) !! a = Some o.
Proof. cbn. by rewrite lookup_insert, decide_True. Qed.

Lemma on_object_put {A} (f : stateObject → Go (stateObject * A)) a o o' x j s :
  f o = Ret (o', x) → on_object a f (put a o j s) = Ret (x, put a o' j s).
Proof.
  intros Hf. rewrite (on_object_eq f a o o' x) by first [done|apply put_at]. unfold put, set_jrnl, set_stateObjects. cbn.
  by rewrite insert_insert_eq.
Qed.
Lemma update_put f a o j s : update_object a f (put a o j s) = Ret (tt, put a (f o) j s).
Proof. by apply on_object_put. Qed.
Lemma object_at_put {A} (f : stateObject → A) a o j s : object_at a f (put a o j s) = Ret (f o, put a o j s).
Proof. by apply on_object_put. Qed.
Lemma append_put e a o j s : append e (put a o j s) = Ret (tt, put a o (journal_append e j) s).
Proof. done. Qed.

(** The dirty addresses grow, and the entries undo. *)
Definition marks_more (j j' : journal) : Prop :=
  (∀ a, is_Some (dirties j !! a) → is_Some (dirties j' !! a)) ∧
  (Forall (entry_wf (OpenEmptyTrie 0)) (entries j) → Forall (entry_wf (OpenEmptyTrie 0)) (entries j')).

Lemma marks_append e j : entry_wf (OpenEmptyTrie 0) e → marks_more j (journal_append e j).
Proof.
  intros He. split.
  - intros a Ha. unfold journal_append. destruct (dirtied e) as [x|]; [|done]. cbn. destruct (decide (x = a)) as [->|].
    + rewrite lookup_insert, decide_True by done. by eexists.
    + by rewrite lookup_insert_ne.
  - intros Hj. rewrite entries_append. apply Forall_app. by split; [|constructor].
Qed.
Lemma more_marks_refl j : marks_more j j.
Proof. by split. Qed.
Lemma more_marks_trans j1 j2 j3 : marks_more j1 j2 → marks_more j2 j3 → marks_more j1 j3.
Proof. intros [? ?] [? ?]. split; auto. Qed.

Lemma live_get a o j s :
  deleted o = false → is_Some (ResearchPreAlloc s !! a) → GetOrNewStateObject a (put a o j s) = Ret (tt, put a o j s).
Proof.
  intros Hd [x Hx]. unfold GetOrNewStateObject, getStateObject, getDeletedStateObject.
  assert ((objs ← db_get stateObjects; match objs !! a with Some o => mret (Some o) | None =>
    tr ← db_get trie; match trie_object tr a with inl err => _ ← db_modify (set_dbErr (String.append "getDeleteStateObject error: " err)); mret None
      | inr None => mret None | inr (Some o) => _ ← setStateObject o; mret (Some o) end end) (put a o j s) = Ret (Some o, put a o j s)) as He.
  { rewrite get_bind, put_at. done. }
  erewrite db_bind; [|rewrite (db_bind _ _ _ _ _ He), Hd, get_bind; cbn [put set_jrnl set_stateObjects ResearchPreAlloc]; rewrite Hx; done].
  done.
Qed.
Lemma get_new a s :
  stateObjects s !! a = None → (∀ k, TryGet (trie s) k = inr []) → ResearchPreAlloc s !! a = None →
  GetOrNewStateObject a s
  = Ret (tt, put a (newObject a true no_data) (journal_append (createObjectChange a) (jrnl s))
               (set_research (<[a := None]> (ResearchPreAlloc s)) (ResearchPostAlloc s) s)).
Proof.
  intros Ho Ht Hp. unfold GetOrNewStateObject.
  assert (∀ p, getDeletedStateObject a (set_research p (ResearchPostAlloc s) s) = Ret (None, set_research p (ResearchPostAlloc s) s)) as Hd.
  { intros p. unfold getDeletedStateObject. rewrite get_bind. cbn [set_research stateObjects]. rewrite Ho, get_bind.
    unfold trie_object. cbn [set_research trie]. by rewrite Ht. }
  assert (getStateObject a s = Ret (None, set_research (<[a := None]> (ResearchPreAlloc s)) (ResearchPostAlloc s) s)) as He.
  { unfold getStateObject. specialize (Hd (ResearchPreAlloc s)).
    assert (set_research (ResearchPreAlloc s) (ResearchPostAlloc s) s = s) as Hs by by destruct s.
    rewrite Hs in Hd. rewrite (db_bind _ _ _ _ _ Hd). unfold record_pre.
    erewrite db_bind; [|rewrite get_bind, Hp; done]. done. }
  rewrite (db_bind _ _ _ _ _ He). unfold createObject. erewrite db_bind; [done|]. by rewrite (db_bind _ _ _ _ _ (Hd _)).
Qed.

Record making (a : Address) (m : Hash → Hash) (o : stateObject) : Prop := {
  mk_fresh : fresh o;
  mk_wf : obj_wf a o;
  mk_pending : pendingStorage o = ∅;
  mk_slots : ∀ k, default 0 (dirtyStorage o !! k) = m k
}.

Definition makes (a : Address) (f : DB ()) (D : StateAccount) (C : option bytes) (M : Hash → Hash)
    (D' : StateAccount) (C' : option bytes) (M' : Hash → Hash) : Prop :=
  ∀ o j s, is_Some (ResearchPreAlloc s !! a) → making a M o → so_data o = D → so_code o = C →
    ∃ o' j', f (put a o j s) = Ret (tt, put a o' j' s) ∧ making a M' o' ∧ so_data o' = D' ∧ so_code o' = C' ∧ marks_more j j'.

Lemma makes_bind a f g D C M D1 C1 M1 D2 C2 M2 :
  makes a f D C M D1 C1 M1 → makes a g D1 C1 M1 D2 C2 M2 → makes a (_ ← f; g) D C M D2 C2 M2.
Proof.
  intros Hf Hg o j s Hp Hm HD' HC. destruct (Hf o j s Hp Hm HD' HC) as (o1 & j1 & He1 & Hm1 & HD1 & HC1 & Hj1).
  destruct (Hg o1 j1 s Hp Hm1 HD1 HC1) as (o2 & j2 & He2 & Hm2 & HD2 & HC2 & Hj2). exists o2, j2.
  rewrite (db_bind _ _ _ _ _ He1). split_and!; [done..|by eapply more_marks_trans].
Qed.

Lemma makes_get a D C M : makes a (GetOrNewStateObject a) D C M D C M.
Proof.
  intros o j s Hp Hm HD' HC. exists o, j. split_and!; [|done..|apply more_marks_refl]. apply live_get; [|done]. exact (proj2 (fresh_live _ (mk_fresh _ _ _ Hm))).
Qed.

Lemma makes_SetNonce a n D C M : makes a (SetNonce a n) D C M (set_Nonce n D) C M.
Proof.
  eapply makes_bind; [apply makes_get|]. intros o j s Hp [[] [] Hpe Hs] HD' HC. unfold so_SetNonce.
  rewrite (db_bind _ _ _ _ _ (object_at_put _ a o j s)), (db_bind _ _ _ _ _ (append_put _ a o j s)).
  eexists _, _. split; [apply update_put|]. subst D. split_and!; [|done..|by apply marks_append]. by split; [split|split|..].
Qed.

Lemma makes_SetBalance a b D C M : makes a (SetBalance a b) D C M (set_Balance b D) C M.
Proof.
  eapply makes_bind; [apply makes_get|]. intros o j s Hp [[] [] Hpe Hs] HD' HC. unfold so_SetBalance.
  rewrite (db_bind _ _ _ _ _ (object_at_put _ a o j s)), (db_bind _ _ _ _ _ (append_put _ a o j s)).
  eexists _, _. split; [apply update_put|]. subst D. split_and!; [|done..|by apply marks_append]. by split; [split|split|..].
Qed.

Lemma makes_SetCode a c D C M :
  makes a (so_SetCode a (Keccak256 c) (code_slice c)) D C M (set_CodeHash (Keccak256 c) D) (code_slice c) M.
Proof.
  intros o j s Hp [Hfr [] Hpe Hs] HD' HC. unfold so_SetCode. destruct (fresh_Code o Hfr) as [c0 Hc0].
  rewrite (db_bind _ _ _ _ _ (on_object_put _ a o o c0 j s (f_equal Ret Hc0))).
  rewrite (db_bind _ _ _ _ _ (object_at_put _ a o j s)), (db_bind _ _ _ _ _ (append_put _ a o j s)).
  eexists _, _. split; [apply update_put|]. subst D. split_and!; [|done..|by apply marks_append].
  destruct Hfr. split; [split|split|..]; try done.
  - destruct c; [by right|left; by eexists].
  - apply Keccak256_bytes.
Qed.

Definition with_slot (k v : Hash) (m : Hash → Hash) (x : Hash) : Hash := if decide (x = k) then v else m x.

Lemma makes_SetState a k v D C M : hash_ok k → makes a (SetState a k v) D C M D C (with_slot k v M).
Proof.
  intros Hk. eapply makes_bind; [apply makes_get|]. intros o j s Hp [Hfr Hw Hpe Hs] HD' HC. unfold so_SetState.
  rewrite (db_bind _ _ _ _ _ (object_at_put _ a o j s)), (fresh_fake _ Hfr).
  destruct (fresh_GetState k o Hfr) as (o1 & He1 & Hfr1 & [Hd1 Hp1 Hda1 Hc1 [Ha1 Hh1]]).
  rewrite (db_bind _ _ _ _ _ (on_object_put _ a o o1 _ j s He1)). rewrite Hpe, lookup_empty.
  change (match dirtyStorage o !! k with Some v => v | None => default 0 None end) with (default 0 (dirtyStorage o !! k)).
  assert (obj_wf a o1) as Hw1.
  { destruct Hw as [Hwa Hwh Hwf Hwc]. split; [congruence|congruence|apply (fresh_fake _ Hfr1)|by rewrite Hda1]. }
  destruct (Z.eqb_spec (default 0 (dirtyStorage o !! k)) v) as [Hv|Hv].
  - exists o1, j. split; [done|]. split_and!; [|congruence..|apply more_marks_refl]. split; [done|done|congruence|]. intros x. rewrite Hd1.
    unfold with_slot. case_decide as Hx; [by subst|apply Hs].
  - rewrite (db_bind _ _ _ _ _ (append_put _ a o1 j s)). eexists _, _. split; [apply update_put|].
    split_and!; [|by cbn; congruence..|by apply marks_append]. destruct Hfr1, Hw1. split; [split|split|..]; try done.
    + cbn. intros x [[w Hx]|Hx]; [|apply fresh_keys0; by right]. destruct (decide (x = k)) as [->|Hne]; [done|].
      rewrite lookup_insert_ne in Hx by congruence. apply fresh_keys0. left. by eexists.
    + cbn. congruence.
    + cbn. intros x. unfold with_slot. case_decide as Hx.
      * subst. by rewrite lookup_insert, decide_True.
      * rewrite lookup_insert_ne, Hd1 by congruence. apply Hs.
Qed.

Fixpoint with_slots (l : list (Hash * Hash)) (m : Hash → Hash) : Hash → Hash :=
  match l with [] => m | (k, v) :: l => with_slots l (with_slot k v m) end.

Lemma makes_slots a l D C M : Forall (λ kv, hash_ok (fst kv)) l →
  makes a (db_each (λ kv, SetState a (fst kv) (snd kv)) l) D C M D C (with_slots l M).
Proof.
  intros Hl. revert M. induction Hl as [|[k v] l Hk Hl IH]; intros M.
  - intros o j s Hp Hm HD' HC. exists o, j. split_and!; [done..|apply more_marks_refl].
  - cbn [db_each with_slots]. eapply makes_bind; [by apply makes_SetState|apply IH].
Qed.

Lemma with_slots_lookup l m k :
  NoDup (fst <$> l) → with_slots l m k = match list_to_map (M := gmap Hash Hash) l !! k with Some v => v | None => m k end.
Proof.
  revert m. induction l as [|[x v] l IH]; intros m Hnd; [done|]. cbn in Hnd. apply NoDup_cons in Hnd as [Hx Hnd].
  cbn [with_slots]. rewrite (IH _ Hnd). cbn. destruct (decide (k = x)) as [->|Hne].
  - rewrite lookup_insert, decide_True by done. rewrite not_elem_of_list_to_map_1 by done. unfold with_slot. by rewrite decide_True.
  - rewrite lookup_insert_ne by congruence. unfold with_slot. by rewrite (decide_False (P := k = x)).
Qed.

(** ** Making every account *)

Definition recorded_data (sa : SubstateAccount) : StateAccount :=
  mkAccount (sub_Nonce sa) (sub_Balance sa) emptyRoot (Keccak256 (sub_Code sa)).

Definition made (a : Address) (sa : SubstateAccount) (o : stateObject) : Prop :=
  making a (λ k, default 0 (sub_Storage sa !! k)) o ∧ so_data o = recorded_data sa ∧ so_code o = code_slice (sub_Code sa).

Lemma set_recorded_spec a sa s :
  stateObjects s !! a = None → (∀ k, TryGet (trie s) k = inr []) → ResearchPreAlloc s !! a = None →
  (∀ k, is_Some (sub_Storage sa !! k) → hash_ok k) →
  ∃ o j, set_recorded (a, sa) s = Ret (tt, put a o j (set_research (<[a := None]> (ResearchPreAlloc s)) (ResearchPostAlloc s) s)) ∧
    made a sa o ∧ is_Some (dirties j !! a) ∧ marks_more (jrnl s) j.
Proof.
  intros Ho Ht Hp Hk. set (s1 := set_research (<[a := None]> (ResearchPreAlloc s)) (ResearchPostAlloc s) s).
  set (j1 := journal_append (createObjectChange a) (jrnl s)).
  assert (makes a (_ ← so_SetCode a (Keccak256 (sub_Code sa)) (code_slice (sub_Code sa)); _ ← SetNonce a (sub_Nonce sa);
    _ ← SetBalance a (sub_Balance sa); db_each (λ kv, SetState a (fst kv) (snd kv)) (map_to_list (sub_Storage sa)))
    (so_data (newObject a true no_data)) None (λ _, 0) (recorded_data sa) (code_slice (sub_Code sa))
    (with_slots (map_to_list (sub_Storage sa)) (λ _, 0))) as Hmakes.
  { eapply makes_bind; [apply makes_SetCode|]. eapply makes_bind; [apply makes_SetNonce|].
    eapply makes_bind; [apply makes_SetBalance|]. apply makes_slots. apply Forall_forall. intros [k v] Hin.
    apply elem_of_map_to_list in Hin. apply Hk. by eexists. }
  destruct (Hmakes (newObject a true no_data) j1 s1) as (o & j & He & Hm & HD' & HC & Hj).
  { cbn. rewrite lookup_insert, decide_True by done. by eexists. }
  { split; [apply fresh_newObject|apply newObject_empty_wf|done|]. intros k. cbn. by rewrite lookup_empty. }
  { done. }
  { done. }
  exists o, j. split; [|split; [|split]].
  - cbn [set_recorded]. unfold SetCode. assert (default [] (code_slice (sub_Code sa)) = sub_Code sa) as -> by by destruct (sub_Code sa).
    pose proof (get_new a s Ho Ht Hp) as Hg. fold j1 s1 in Hg.
    rewrite <- He. unfold mbind, DB_bind. by rewrite Hg.
  - split_and!; [|done..]. destruct Hm as [? ? ? Hs]. split; [done..|]. intros k. rewrite Hs, with_slots_lookup.
    + rewrite list_to_map_to_list. by destruct (sub_Storage sa !! k).
    + apply NoDup_fst_map_to_list.
  - apply Hj. cbn. rewrite lookup_insert, decide_True by done. by eexists.
  - eapply more_marks_trans; [apply marks_append|exact Hj]. intros o0. unfold trie_object. by rewrite empty_trie.
Qed.
(** A state where the accounts of a list were made. *)
Definition based (objs : gmap Address stateObject) (j : journal) (pre : gmap Address (option SubstateAccount)) : statedb :=
  set_jrnl j (set_research pre ∅ (set_stateObjects (λ _, objs) NewOffTheChainStateDB)).

Record built (l : list (Address * SubstateAccount)) (s : statedb) : Prop := {
  built_based : ∃ objs j pre, s = based objs j pre;
  built_journal : marks_more newJournal (jrnl s);
  built_objects : ∀ a o, stateObjects s !! a = Some o → ∃ sa, (a, sa) ∈ l ∧ made a sa o;
  built_all : ∀ a, a ∈ fst <$> l → is_Some (stateObjects s !! a) ∧ is_Some (dirties (jrnl s) !! a);
  built_pre : ∀ a x, ResearchPreAlloc s !! a = Some x → a ∈ fst <$> l ∧ x = None
}.

Definition storage_ok (sa : SubstateAccount) : Prop := ∀ k, is_Some (sub_Storage sa !! k) → hash_ok k.

Lemma set_recordeds l l0 s :
  built l0 s → NoDup (fst <$> (l0 ++ l)) → Forall (λ p, storage_ok (snd p)) l →
  ∃ s', db_each set_recorded l s = Ret (tt, s') ∧ built (l0 ++ l) s'.
Proof.
  revert l0 s. induction l as [|[a sa] l IH]; intros l0 s Hb Hnd Hl.
  - exists s. rewrite app_nil_r. done.
  - apply Forall_cons in Hl as [Hk Hl].
    assert (a ∉ fst <$> l0) as Ha.
    { rewrite fmap_app in Hnd. apply NoDup_app in Hnd as (_ & Hnd & _). intros Hin. apply (Hnd a Hin). left. }
    destruct Hb as [(objs & j & pre & ->) Hj Ho Hall Hp].
    destruct (set_recorded_spec a sa (based objs j pre)) as (o & j' & He & Hm & Hd & Hjj).
    { destruct (stateObjects (based objs j pre) !! a) as [x|] eqn:Ex; [|done]. destruct (Ho a x Ex) as (sa' & Hin & _).
      destruct Ha. by apply (list_elem_of_fmap_2 fst _ (a, sa')). }
    { intros k. apply empty_trie. }
    { destruct (ResearchPreAlloc (based objs j pre) !! a) as [x|] eqn:Ex; [|done]. by destruct (Hp a x Ex). }
    { exact Hk. }
    cbn [db_each]. rewrite (db_bind _ _ _ _ _ He). set (s1 := put _ _ _ _) in *.
    destruct (IH (l0 ++ [(a, sa)]) s1) as (s' & He' & Hb'); [| |done|].
    + split.
      * by exists (<[a := o]> objs), j', (<[a := None]> pre).
      * eapply more_marks_trans; [exact Hj|exact Hjj].
      * intros x ox Hx. cbn in Hx. destruct (decide (x = a)) as [->|Hne].
        -- rewrite lookup_insert, decide_True in Hx by done. injection Hx as <-. exists sa. split; [apply elem_of_app; right; by left|done].
        -- rewrite lookup_insert_ne in Hx by congruence. destruct (Ho x ox Hx) as (sx & Hin & Hmx). exists sx.
           split; [apply elem_of_app; by left|done].
      * intros x Hx. rewrite fmap_app in Hx. cbn. destruct (decide (x = a)) as [->|Hne].
        -- rewrite lookup_insert, decide_True by done. split; [by eexists|done].
        -- rewrite lookup_insert_ne by congruence. apply elem_of_app in Hx as [Hx|Hx]; [|by apply list_elem_of_singleton in Hx].
           destruct (Hall x Hx). split; [done|]. by apply Hjj.
      * intros x y. cbn. rewrite fmap_app. destruct (decide (x = a)) as [->|Hne].
        -- rewrite lookup_insert, decide_True by done. intros [= <-]. split; [apply elem_of_app; right; by left|done].
        -- rewrite lookup_insert_ne by congruence. intros Hxy. destruct (Hp x y Hxy). split; [apply elem_of_app; by left|done].
    + by rewrite <- app_assoc.
    + exists s'. split; [done|]. by rewrite <- app_assoc in Hb'.
Qed.

Lemma built_nil : built [] NewOffTheChainStateDB.
Proof.
  split.
  - by exists ∅, newJournal, ∅.
  - apply more_marks_refl.
  - intros a o. cbn. by rewrite lookup_empty.
  - intros a Ha. by apply elem_of_nil in Ha.
  - intros a x. cbn. by rewrite lookup_empty.
Qed.
End facts.
