(* ===== verification/DemoDatabase.v ===== *)
(** * A database in memory, for examples

    A trie is the list of what was written to it, newest first.  It keeps the
    values that are byte strings, so the laws of the database hold of it. *)

From S2P Require Import Prelude DemoState Common Uint256 Machine VmFacts Vm Rlp RlpFacts RlpDecode RlpStreamFacts State Statedb StateTx StateView StateUndo OffTheChainFacts.

Fixpoint kv_find (k : bytes) (t : list (bytes * bytes)) : bytes :=
  match t with
  | [] => []
  | (k', v) :: t => if decide (k = k') then v else kv_find k t
  end.

Definition kv_value (v : bytes) : bytes :=
  if (len v <? 2 ^ 64) && forallb (λ x, (0 <=? x) && (x <? 256)) v then v else [].

(** The storage of every root but the empty one: slot 1 holds 7. *)
Definition demo_storage : list (bytes * bytes) := [(Hash_Bytes 1, [7])].

Definition demo_code : bytes := [0x60; 0x00].

#[export] Instance demo_database : Database := {|
  Trie := list (bytes * bytes);
  OpenStorageTrie _ root := inr (if root =? emptyRoot then [] else demo_storage);
  OpenEmptyTrie _ := [];
  TryGet t k := inr (kv_value (kv_find k t));
  TryUpdate t k v := (None, (k, v) :: t);
  TryDelete t k := (None, filter (λ p, fst p ≠ k) t);
  TrieCommit t := (inr (Keccak256Hash (concat (fst <$> t))), t);
  TrieHash t := Keccak256Hash (concat (fst <$> t));
  ContractCode _ h := if h =? Keccak256Hash demo_code then (Some demo_code, None) else (None, Some "not found"%string);
  ContractCodeSize _ h := if h =? Keccak256Hash demo_code then (2, None) else (0, Some "not found"%string)
|}.

Lemma kv_bytes v : forallb (λ x, (0 <=? x) && (x <? 256)) v = true ↔ Forall is_byte v.
Proof.
  rewrite forallb_forall, Forall_forall. split; intros Hv x Hx.
  - specialize (Hv x (proj1 (list_elem_of_In _ _) Hx)). apply andb_true_iff in Hv as [? ?]. unfold is_byte. lia.
  - specialize (Hv x (proj2 (list_elem_of_In _ _) Hx)). unfold is_byte in Hv. lia.
Qed.

Lemma kv_value_bytes v : Forall is_byte (kv_value v) ∧ len (kv_value v) < 2 ^ 64.
Proof.
  unfold kv_value. destruct (Z.ltb_spec (len v) (2 ^ 64)); [|by split].
  destruct (forallb _ v) eqn:Hb; [|by split]. split; [by apply kv_bytes|done].
Qed.

Lemma kv_value_id v : Forall is_byte v → len v < 2 ^ 64 → kv_value v = v.
Proof.
  intros Hb Hl. unfold kv_value. rewrite (proj2 (kv_bytes v) Hb). by destruct (Z.ltb_spec (len v) (2 ^ 64)); [|lia].
Qed.

#[export] Instance demo_laws : DatabaseLaws.
Proof.
  split.
  - intros b. split; [apply to_be_length|apply to_be_bytes].
  - intros h. by exists [].
  - intros t k enc [= <-]. apply kv_value_bytes.
  - intros h c. cbn. by destruct (_ =? _).
Qed.

Lemma kv_find_filter k k' t : kv_find k' (filter (λ p, fst p ≠ k) t) = if decide (k' = k) then [] else kv_find k' t.
Proof.
  induction t as [|[x v] t IH]; [by case_decide|]. rewrite filter_cons. cbn [fst kv_find].
  destruct (decide (x ≠ k)) as [Hx|Hx]; cbn [kv_find]; rewrite IH.
  - destruct (decide (k' = x)) as [->|]; [by rewrite decide_False|done].
  - apply dec_stable in Hx as ->. by destruct (decide (k' = k)).
Qed.

#[export] Instance demo_memory : MemoryDatabase.
Proof.
  split.
  - done.
  - intros t k v Hb Hl. eexists. split; [done|]. intros k'. cbn. case_decide; [by rewrite kv_value_id|done].
  - intros t k. eexists. split; [done|]. intros k'. cbn. rewrite kv_find_filter. by case_decide.
  - intros t. by eexists _, _.
Qed.

(** Two accounts with [demo_code]: 10 has nonce 1 and balance 100, 12 has nonce
    2, balance 50 and the storage above. *)
Definition demo_account (nonce balance root : Z) : bytes :=
  match EncodeToBytes (account_value (mkAccount nonce balance root (Keccak256 demo_code))) with
  | Ret (inr b) => b
  | _ => []
  end.
Definition demo_trie : Trie :=
  [(Address_Bytes 10, demo_account 1 100 emptyRoot); (Address_Bytes 12, demo_account 2 50 5)].

Lemma demo_decoded :
  Forall (λ d, (len (kv_value (demo_account (Nonce d) (Balance d) (Root d))) =? 0) = false ∧
    (match DecodeBytes (kv_value (demo_account (Nonce d) (Balance d) (Root d))) StateAccount_type with Some (inr v) => account_of v | _ => None end)
    = Some d) [mkAccount 1 100 emptyRoot (Keccak256 demo_code); mkAccount 2 50 5 (Keccak256 demo_code)].
Proof. repeat constructor; vm_compute; reflexivity. Qed.

Lemma decoded_object a o enc d :
  (len enc =? 0) = false → (match DecodeBytes enc StateAccount_type with Some (inr v) => account_of v | _ => None end) = Some d →
  (if len enc =? 0 then None
   else match DecodeBytes enc StateAccount_type with Some (inr v) => newObject a false <$> account_of v | _ => None end) = Some o →
  o = newObject a false d.
Proof.
  intros ->. destruct (DecodeBytes enc StateAccount_type) as [[e|v]|]; [done| |done]. intros ->. by intros [= <-].
Qed.

Lemma found (x y : option stateObject) : @inr string _ x = inr y → x = y.
Proof. by intros [= ->]. Qed.

Lemma demo_object a o :
  trie_object demo_trie a = inr (Some o) → ∃ n b r, o = newObject a false (mkAccount n b r (Keccak256 demo_code)).
Proof.
  unfold trie_object. cbn [TryGet demo_database]. unfold demo_trie. cbn [kv_find].
  pose proof demo_decoded as Hd. apply Forall_cons in Hd as [[Hl1 Hd1] Hd]. apply Forall_cons in Hd as [[Hl2 Hd2] _].
  cbn [Nonce Balance Root] in *.
  destruct (decide (Address_Bytes a = Address_Bytes 10)) as [_|]; [|destruct (decide (Address_Bytes a = Address_Bytes 12)) as [_|]; [|done]].
  - intros Ho. apply found in Ho. eexists _, _, _. exact (decoded_object a o _ _ Hl1 Hd1 Ho).
  - intros Ho. apply found in Ho. eexists _, _, _. exact (decoded_object a o _ _ Hl2 Hd2 Ho).
Qed.

Lemma demo_trie_ok : trie_ok demo_trie.
Proof.
  intros a o Ho. destruct (demo_object a o Ho) as (n & b & r & ->).
  assert (CodeHash (so_data (newObject a false (mkAccount n b r (Keccak256 demo_code)))) = Keccak256 demo_code) as -> by (vm_compute; reflexivity).
  split; [apply to_be_length|apply to_be_bytes].
Qed.
