(* ===== verification/StateSpec.v ===== *)
(** * Properties of the journaled state *)

From Stdlib Require Import FunctionalExtensionality.
From S2P Require Import Prelude DemoState Common Uint256 Machine VmFacts Vm Rlp RlpFacts RlpDecode RlpStreamFacts State Statedb StateView StateUndo StateOps StateSim DemoDatabase.

(** ** Binary search *)

Lemma search_spec (f : nat → bool) (n fuel i j : nat) :
  (j - i ≤ fuel)%nat → (i ≤ j)%nat → (j ≤ n)%nat →
  (∀ a b, (a ≤ b)%nat → (b < n)%nat → f a = true → f b = true) →
  (∀ k, (k < i)%nat → f k = false) → ((j < n)%nat → f j = true) →
  let r := search fuel f i j in
  (r ≤ n)%nat ∧ (∀ k, (k < r)%nat → f k = false) ∧ ((r < n)%nat → f r = true).
Proof.
  revert i j. induction fuel as [|fuel IH]; intros i j Hf Hij Hj Hm Hlo Hhi; cbv zeta; cbn [search].
  { assert (i = j) as -> by lia. split_and!; [lia|exact Hlo|exact Hhi]. }
  destruct (Nat.ltb_spec i j) as [Hlt|].
  2: { assert (i = j) as -> by lia. split_and!; [lia|exact Hlo|exact Hhi]. }
  assert (i ≤ (i + j) / 2 < j)%nat as [Hh1 Hh2].
  { split; [apply Nat.div_le_lower_bound; lia|apply Nat.Div0.div_lt_upper_bound; lia]. }
  destruct (f ((i + j) / 2)%nat) eqn:Hfh; apply IH; try done; try lia.
  intros k Hk. destruct (f k) eqn:Hfk; [|done]. rewrite (Hm k ((i + j) / 2)%nat) in Hfh; [done|lia|lia|done].
Qed.

Lemma sort_Search_spec f n :
  (∀ a b, (a ≤ b)%nat → (b < n)%nat → f a = true → f b = true) →
  (sort_Search n f ≤ n)%nat ∧ (∀ k, (k < sort_Search n f)%nat → f k = false) ∧
  ((sort_Search n f < n)%nat → f (sort_Search n f) = true).
Proof. intros Hm. apply search_spec; try done; lia. Qed.

Section spec.
Context `{HD : DatabaseLaws}.

(** ** The simulation *)

Definition rev_sim (E : list journalEntry) (A : AState) (r : revision) (p : Z * AState) : Prop :=
  rev_id r = fst p ∧ 0 ≤ journalIndex r ≤ Z.of_nat (length E) ∧
  aundos (rev (drop (Z.to_nat (journalIndex r)) E)) A = Some (snd p).

Record sim (s : statedb) (m : Spec) : Prop := {
  sim_swf : swf s;
  sim_now : abs s = now m;
  sim_awf : awf (now m);
  sim_saved : Forall (λ p, awf (snd p)) (saved m);
  sim_next : nextRevisionId s = next m;
  sim_revs : Forall2 (rev_sim (entries (jrnl s)) (now m)) (validRevisions s) (saved m);
  sim_ids : StronglySorted Z.lt (rev_id <$> validRevisions s);
  sim_below : Forall (λ r, rev_id r < nextRevisionId s) (validRevisions s);
  sim_indices : StronglySorted Z.le (journalIndex <$> validRevisions s)
}.

Lemma rev_sim_steps E es A A' r p :
  aundos (rev es) A' = Some A → rev_sim E A r p → rev_sim (E ++ es) A' r p.
Proof.
  intros Hu (Hid & Hj & Ha). split_and!; [done|lia|rewrite length_app; lia|].
  rewrite drop_app_le by lia. rewrite rev_app_distr, aundos_app, Hu. done.
Qed.

Lemma sim_steps s m s' es A' :
  sim s m → steps s s' es → abs s' = A' → awf A' → sim s' (mkSpec A' (saved m) (next m)).
Proof.
  intros [Hs Hn Hw Hsv Hnx Hr Hids Hb Hi] [Ht Hj Hrv Hnr Hu Hs'] <- Hw'. split; cbn; try done; rewrite ?Hrv, ?Hnr; try done.
  rewrite Hj. eapply Forall2_impl; [done|]. intros r p. apply rev_sim_steps. by rewrite Hu, Hn.
Qed.

(** *** Snapshots *)

Lemma StronglySorted_app_one {A} (R : A → A → Prop) l x :
  StronglySorted R l → Forall (λ y, R y x) l → StronglySorted R (l ++ [x]).
Proof.
  induction 1 as [|y l Hl IH Hy]; intros Hx; [by repeat constructor|].
  apply Forall_cons in Hx as [Hyx Hx]. cbn. constructor; [by apply IH|]. apply Forall_app. by split; [|constructor].
Qed.

Lemma sim_Snapshot s m :
  sim s m → ∃ s', Snapshot s = Ret (next m, s') ∧ sim s' (mkSpec (now m) (saved m ++ [(next m, now m)]) (next m + 1)).
Proof.
  intros [Hs Hn Hw Hsv Hnx Hr Hids Hb Hi]. eexists. split; [unfold Snapshot; rewrite get_bind; by rewrite Hnx|].
  split; cbn; try done.
  - destruct Hs. by split.
  - apply Forall_app. by split; [|constructor].
  - by rewrite Hnx.
  - apply Forall2_app; [done|]. constructor; [|constructor]. unfold rev_sim. cbn. split_and!; [done|lia|lia|].
    by rewrite Nat2Z.id, drop_all.
  - rewrite fmap_app. apply StronglySorted_app_one; [done|]. apply Forall_fmap. rewrite <- Hnx. exact Hb.
  - apply Forall_app. split; [|constructor; [cbn; lia|done]]. eapply Forall_impl; [done|]. cbn. lia.
  - rewrite fmap_app. apply StronglySorted_app_one; [done|]. apply Forall_fmap.
    apply Forall2_length in Hr as Hlen. rewrite Forall_forall. intros r Hin. apply list_elem_of_lookup in Hin as (i & Hri).
    destruct (Forall2_lookup_l _ _ _ _ _ Hr Hri) as (p & _ & _ & Hj & _). cbn. lia.
Qed.

Lemma StronglySorted_take {A} (R : A → A → Prop) n l : StronglySorted R l → StronglySorted R (take n l).
Proof.
  intros Hl. revert n. induction Hl as [|z l Hl IH Hz]; intros [|n]; cbn; constructor; [by apply IH|by apply Forall_take].
Qed.

(** The copy of a snapshot is where the binary search finds its revision. *)
Lemma restore_lookup id l i A :
  l !! i = Some (id, A) → (∀ k p, (k < i)%nat → l !! k = Some p → fst p ≠ id) → restore id l = Some (A, take i l).
Proof.
  revert i. induction l as [|[j B] l IH]; intros i Hi Hlt; [done|]. cbn. destruct i as [|i]; cbn in Hi.
  - injection Hi as -> ->. by rewrite Z.eqb_refl.
  - destruct (Z.eqb_spec j id) as [->|].
    + by destruct (Hlt 0%nat (id, B)); [lia|done|].
    + rewrite (IH i); [done|done|]. intros k p Hk Hp. apply (Hlt (S k) p); [lia|done].
Qed.

Lemma restore_none id l : (∀ p, p ∈ l → fst p ≠ id) → restore id l = None.
Proof.
  induction l as [|[j B] l IH]; intros Hl; [done|]. cbn. destruct (Z.eqb_spec j id) as [->|].
  - by destruct (Hl (id, B)); [left|].
  - rewrite IH; [done|]. intros p Hp. apply Hl. by right.
Qed.

Definition rev_index (id : Z) (revs : list revision) : nat :=
  sort_Search (length revs) (λ i, match revs !! i with Some r => id <=? rev_id r | None => false end).

Lemma rev_index_spec id revs :
  StronglySorted Z.lt (rev_id <$> revs) →
  (∀ k r, (k < rev_index id revs)%nat → revs !! k = Some r → rev_id r < id) ∧
  (∀ k r, (rev_index id revs ≤ k)%nat → revs !! k = Some r → id ≤ rev_id r).
Proof.
  intros Hs. unfold rev_index.
  destruct (sort_Search_spec (λ i, match revs !! i with Some r => id <=? rev_id r | None => false end) (length revs))
    as (Hle & Hlo & Hhi).
  - intros a b Hab Hb Ha. destruct (revs !! a) as [ra|] eqn:Era; [|done].
    destruct (lookup_lt_is_Some_2 revs b Hb) as [rb Erb]. rewrite Erb. apply Z.leb_le in Ha. apply Z.leb_le.
    destruct (decide (a = b)) as [->|]; [by simplify_eq|].
    assert (rev_id ra < rev_id rb); [|lia].
    apply (StronglySorted_lookup _ _ a b _ _ Hs); [lia|by rewrite list_lookup_fmap, Era|by rewrite list_lookup_fmap, Erb].
  - set (idx := sort_Search _ _) in *. split; intros k r Hk Hr.
    + specialize (Hlo k Hk). cbn in Hlo. rewrite Hr in Hlo. apply Z.leb_gt in Hlo. lia.
    + assert (idx < length revs)%nat as Hlt by (apply lookup_lt_Some in Hr; lia). specialize (Hhi Hlt). cbn in Hhi.
      destruct (revs !! idx) as [ri|] eqn:Eri; [|done]. apply Z.leb_le in Hhi.
      destruct (decide (idx = k)) as [<-|]; [by simplify_eq|].
      assert (rev_id ri < rev_id r); [|lia].
      apply (StronglySorted_lookup _ _ idx k _ _ Hs); [lia|by rewrite list_lookup_fmap, Eri|by rewrite list_lookup_fmap, Hr].
Qed.

Lemma sim_Revert id s m :
  sim s m →
  match restore id (saved m) with
  | None => RevertToSnapshot id s = Panic ExplicitPanic
  | Some (A, l) => ∃ s', RevertToSnapshot id s = Ret (tt, s') ∧ sim s' (mkSpec A l (next m))
  end.
Proof.
  intros [Hs Hn Hw Hsv Hnx Hr Hids Hb Hi]. destruct (rev_index_spec id (validRevisions s) Hids) as [Hlo Hhi].
  unfold RevertToSnapshot. rewrite get_bind. fold (rev_index id (validRevisions s)).
  set (idx := rev_index id (validRevisions s)) in *.
  assert (∀ k p, (k < idx)%nat → saved m !! k = Some p → fst p ≠ id) as Hbefore.
  { intros k p Hk Hp. destruct (Forall2_lookup_r _ _ _ _ _ Hr Hp) as (r & Hrk & <- & _). specialize (Hlo k r Hk Hrk). lia. }
  destruct (validRevisions s !! idx) as [r|] eqn:Hidx; [destruct (Z.eqb_spec (rev_id r) id) as [Hid|Hid]|].
  - destruct (Forall2_lookup_l _ _ _ _ _ Hr Hidx) as ([i A] & Hp & Hri & Hj & Hu). cbn in Hri, Hu. subst i. rewrite Hid in Hp.
    rewrite (restore_lookup id (saved m) idx A Hp Hbefore).
    unfold journal_revert. set (E := entries (jrnl s)) in *. set (j := Z.to_nat (journalIndex r)) in *.
    destruct (revert_entries_spec (rev (drop j E)) s A Hs) as (s1 & He1 & Hk1 & Ha1).
    { apply Forall_rev, Forall_drop, Hs. }
    { by rewrite Hn. }
    assert ((l ← db_get (λ s, entries (jrnl s)); _ ← revert_entries (rev (drop j l));
      if Z.of_nat (length l) <? journalIndex r then db_go (Panic SliceOutOfRange)
      else db_modify (λ s, set_jrnl (mkJournal (take j (entries (jrnl s))) (dirties (jrnl s))) s)) s
      = Ret (tt, set_jrnl (mkJournal (take j E) (dirties (jrnl s1))) s1)) as He.
    { rewrite get_bind. fold E. rewrite (db_bind _ _ _ _ _ He1). destruct (Z.ltb_spec (Z.of_nat (length E)) (journalIndex r)); [lia|].
      unfold db_modify. by rewrite (keeps_entries _ _ Hk1). }
    rewrite (db_bind _ _ _ _ _ He). eexists. split; [done|]. destruct Hk1 as [Ht1 Hj1 Hr1 Hn1 Hs1].
    split; cbn; try done; rewrite ?Hn1; try done.
    + destruct Hs1 as [Ho1 Ht1' Hj1']. split; [done..|]. cbn. apply Forall_take. unfold E. rewrite <- Hj1. exact Hj1'.
    + rewrite Forall_forall in Hsv. apply (Hsv (id, A)). by eapply list_elem_of_lookup_2.
    + by apply Forall_take.
    + assert (∀ k rk pk, (k < idx)%nat → validRevisions s !! k = Some rk → rev_sim E (now m) rk pk → rev_sim (take j E) A rk pk) as Hsim.
      { intros k rk pk Hk Hrk (Hidk & Hjk & Huk).
        assert (journalIndex rk ≤ journalIndex r) as Hle.
        { apply (StronglySorted_lookup _ _ k idx _ _ Hi Hk); [by rewrite list_lookup_fmap, Hrk|by rewrite list_lookup_fmap, Hidx]. }
        split_and!; [done|lia|rewrite length_take; lia|].
        rewrite <- (take_drop j E) in Huk. rewrite drop_app_le in Huk by (rewrite length_take; lia).
        rewrite rev_app_distr, aundos_app, Hu in Huk. exact Huk. }
      apply Forall2_lookup. intros k. destruct (decide (k < idx)%nat) as [Hk|Hk].
      * rewrite !lookup_take_lt by done. pose proof (proj1 (Forall2_lookup _ _ _) Hr k) as Hrk.
        destruct (validRevisions s !! k) as [rk|] eqn:Erk, (saved m !! k) as [pk|] eqn:Epk; inversion Hrk; constructor.
        by apply (Hsim k).
      * rewrite !lookup_take_ge by lia. constructor.
    + rewrite fmap_take. by apply StronglySorted_take.
    + by apply Forall_take.
    + rewrite fmap_take. by apply StronglySorted_take.
  - rewrite restore_none; [done|]. intros p Hp. apply list_elem_of_lookup in Hp as (k & Hp).
    destruct (decide (k < idx)%nat) as [|Hk]; [by eapply Hbefore|].
    destruct (Forall2_lookup_r _ _ _ _ _ Hr Hp) as (rk & Hrk & <- & _).
    specialize (Hhi idx r ltac:(lia) Hidx) as Hid'. destruct (decide (k = idx)) as [->|Hne]; [by simplify_eq|].
    assert (rev_id r < rev_id rk); [|lia].
    apply (StronglySorted_lookup _ _ idx k _ _ Hids); [lia|by rewrite list_lookup_fmap, Hidx|by rewrite list_lookup_fmap, Hrk].
  - rewrite restore_none; [done|]. intros p Hp. apply list_elem_of_lookup in Hp as (k & Hp).
    apply (Hbefore k); [|done]. apply lookup_ge_None in Hidx. apply lookup_lt_Some in Hp.
    apply Forall2_length in Hr. lia.
Qed.

(** ** Operations *)

Lemma op_sim op s m :
  sim s m →
  match spec_op op m with
  | Ret (out, m') => ∃ s', run_op op s = Ret (out, s') ∧ sim s' m'
  | Panic p => run_op op s = Panic p
  end.
Proof.
  intros Hs.
  assert (op = OpSnapshot ∨ (∃ id, op = OpRevertToSnapshot id) ∨
    (op ≠ OpSnapshot ∧ (∀ id, op ≠ OpRevertToSnapshot id) ∧
     spec_op op m = '(out, A) ← spec_change op (now m); Ret (out, mkSpec A (saved m) (next m)))) as [->|[[id ->]|(Hn & Hr & ->)]].
  { destruct op; first [by left|right; left; by eexists|right; right; done]. }
  - cbn. destruct (sim_Snapshot s m Hs) as (s' & He & Hs'). exists s'. split; [|done]. by rewrite (db_bind _ _ _ _ _ He).
  - pose proof (sim_Revert id s m Hs) as Hr. cbn. destruct (restore id (saved m)) as [[A l]|]; cbn.
    + destruct Hr as (s' & He & Hs'). exists s'. split; [|done]. by rewrite (db_bind _ _ _ _ _ He).
    + unfold mbind, DB_bind. by rewrite Hr.
  - pose proof Hs as [Hw Hab Hok _ _ _ _ _ _]. rewrite <- Hab in Hok. pose proof (op_steps op s Hw Hok Hr Hn) as Hd.
    unfold op_does in Hd. rewrite Hab in Hd. destruct (spec_change op (now m)) as [[out A']|p]; [|done].
    destruct Hd as [(s' & es & He & Hst & Ha) HA]. exists s'. split; [done|]. by eapply sim_steps.
Qed.

Lemma run_sim ops s m :
  sim s m →
  match spec_run ops m with
  | Ret (outs, m') => ∃ s', run_ops ops s = Ret (outs, s') ∧ sim s' m'
  | Panic p => run_ops ops s = Panic p
  end.
Proof.
  revert s m. induction ops as [|op ops IH]; intros s m Hs; [by exists s|].
  cbn [spec_run run_ops]. pose proof (op_sim op s m Hs) as Hop. destruct (spec_op op m) as [[out m1]|p]; cbn.
  2: { unfold mbind, DB_bind. by rewrite Hop. }
  destruct Hop as (s1 & He & Hs1). rewrite (db_bind _ _ _ _ _ He). pose proof (IH s1 m1 Hs1) as Hrun.
  destruct (spec_run ops m1) as [[outs m2]|p]; cbn.
  - destruct Hrun as (s2 & He2 & Hs2). exists s2. split; [|done]. by rewrite (db_bind _ _ _ _ _ He2).
  - unfold mbind, DB_bind. by rewrite Hrun.
Qed.

(** ** Reachable states *)

Definition reachable (tr : Trie) (s : statedb) : Prop := ∃ ops outs, run_ops ops (New tr) = Ret (outs, s).

Lemma sim_New tr : trie_ok tr → sim (New tr) (mkSpec (abs (New tr)) [] 0).
Proof.
  intros Ht. split; cbn; try done; try constructor; try done; cbn.
  split; [done|]. intros m Hm. by apply elem_of_nil in Hm.
Qed.

Lemma reachable_sim tr s : trie_ok tr → reachable tr s → ∃ m, sim s m.
Proof.
  intros Ht (ops & outs & He). pose proof (run_sim ops _ _ (sim_New tr Ht)) as Hr.
  destruct (spec_run ops _) as [[outs' m]|p]; [|congruence]. destruct Hr as (s' & He' & Hs).
  rewrite He in He'. injection He' as _ <-. by exists m.
Qed.

Lemma sim_saved_ids s m : sim s m → fst <$> saved m = rev_id <$> validRevisions s.
Proof.
  intros [_ _ _ _ _ Hr _ _ _]. induction Hr as [|r p rs ps Hrp Hr IH]; [done|]. cbn. rewrite IH. f_equal.
  symmetry. apply Hrp.
Qed.

(** ** Later copies do not matter to earlier ones *)

Definition reverts_above (id : Z) (op : Op) : Prop := match op with OpRevertToSnapshot i => id < i | _ => True end.

Lemma restore_app id l r :
  Forall (λ p, fst p ≠ id) l → restore id (l ++ r) = '(A, r') ← restore id r; Some (A, l ++ r').
Proof.
  induction 1 as [|[i A] l Hi Hl IH]; cbn.
  - by destruct (restore id r) as [[]|].
  - cbn in Hi. destruct (Z.eqb_spec i id); [done|]. rewrite IH. by destruct (restore id r) as [[]|].
Qed.

Lemma spec_op_keeps id l op r m out m' :
  Forall (λ p, fst p ≤ id) l → reverts_above id op → saved m = l ++ r → spec_op op m = Ret (out, m') →
  ∃ r', saved m' = l ++ r'.
Proof.
  intros Hl Ha Hs He.
  assert (∀ r0, r0 = (('(out, A) ← spec_change op (now m); Ret (out, mkSpec A (saved m) (next m))) : Go (Out * Spec)) →
    r0 = Ret (out, m') → ∃ r', saved m' = l ++ r') as Hch.
  { intros r0 -> Hr0. destruct (spec_change op (now m)) as [[o A]|]; [|done]. injection Hr0 as _ <-. by exists r. }
  destruct op as [| | | | | | | | | | | | | | | | | | | | | | | | | | | |i]; try exact (Hch _ eq_refl He).
  - injection He as _ <-. cbn. rewrite Hs, <- app_assoc. by eexists.
  - cbn in He, Ha. rewrite Hs, restore_app in He; [|eapply Forall_impl; [done|]; cbn; lia].
    destruct (restore i r) as [[A r']|]; [|done]. injection He as _ <-. by exists r'.
Qed.

Lemma spec_run_keeps id l ops r m outs m' :
  Forall (λ p, fst p ≤ id) l → Forall (reverts_above id) ops → saved m = l ++ r → spec_run ops m = Ret (outs, m') →
  ∃ r', saved m' = l ++ r'.
Proof.
  intros Hl Ha. revert r m outs. induction Ha as [|op ops Hop Ha IH]; intros r m outs Hs He.
  - injection He as _ <-. by exists r.
  - cbn in He. destruct (spec_op op m) as [[out m1]|] eqn:E1; [|done]. cbn in He.
    destruct (spec_run ops m1) as [[outs1 m2]|] eqn:E2; [|done]. injection He as _ <-.
    destruct (spec_op_keeps id l op r m out m1 Hl Hop Hs E1) as [r1 Hr1]. by eapply IH.
Qed.

(** ** Properties *)

(** C28: the journal implements copying.  A run of operations from a fresh state
    gives the results, and ends in the state, of the specification that copies
    the whole state at every snapshot and puts the copy back when it reverts; it
    panics exactly when the specification does. *)
Theorem statedb_refines_copies (tr : Trie) (ops : list Op) :
  trie_ok tr →
  match spec_run ops (mkSpec (abs (New tr)) [] 0) with
  | Ret (outs, m) =>
      ∃ s, run_ops ops (New tr) = Ret (outs, s) ∧ abs s = now m ∧ rev_id <$> validRevisions s = fst <$> saved m
  | Panic p => run_ops ops (New tr) = Panic p
  end.
Proof.
  intros Ht. pose proof (run_sim ops _ _ (sim_New tr Ht)) as Hr. destruct (spec_run ops _) as [[outs m]|p]; [|done].
  destruct Hr as (s & He & Hs). exists s. split_and!; [done|apply Hs|symmetry; by apply sim_saved_ids].
Qed.

(** C29: reverting to a snapshot succeeds and gives back the state that was
    there when the snapshot was made, whatever ran since (accounts created,
    destroyed and made again included), as long as no earlier snapshot was
    reverted to; the snapshot and the later ones are gone. *)
Theorem RevertToSnapshot_restores (tr : Trie) (s s1 s2 : statedb) (id : Z) (ops : list Op) (outs : list Out) :
  trie_ok tr → reachable tr s → Snapshot s = Ret (id, s1) → Forall (reverts_above id) ops →
  run_ops ops s1 = Ret (outs, s2) →
  ∃ s3, RevertToSnapshot id s2 = Ret (tt, s3) ∧ abs s3 = abs s ∧
    rev_id <$> validRevisions s3 = rev_id <$> validRevisions s.
Proof.
  intros Ht Hs Hsn Ha Hrun. destruct (reachable_sim tr s Ht Hs) as (m & Hm).
  destruct (sim_Snapshot s m Hm) as (s1' & Hsn' & Hm1). rewrite Hsn in Hsn'. injection Hsn' as -> <-.
  pose proof (run_sim ops s1 _ Hm1) as Hr. destruct (spec_run ops _) as [[outs' m2]|] eqn:Hsr; [|congruence].
  destruct Hr as (s2' & Hrun' & Hm2). rewrite Hrun in Hrun'. injection Hrun' as _ <-.
  assert (Forall (λ p, fst p < next m) (saved m)) as Hlt.
  { apply (Forall_fmap fst (λ i, i < next m)). rewrite (sim_saved_ids s m Hm). apply Forall_fmap.
    destruct Hm as [_ _ _ _ <- _ _ Hb _]. exact Hb. }
  destruct (spec_run_keeps (next m) (saved m ++ [(next m, now m)]) ops [] (mkSpec (now m) (saved m ++ [(next m, now m)]) (next m + 1))
    outs' m2) as [r Hr]; [|done|by rewrite app_nil_r|done|].
  { apply Forall_app. split; [eapply Forall_impl; [done|]; cbn; lia|by constructor]. }
  pose proof (sim_Revert (next m) s2 m2 Hm2) as Hrev. rewrite Hr, <- app_assoc, restore_app in Hrev.
  2: { eapply Forall_impl; [done|]. cbn. lia. }
  cbn in Hrev. rewrite Z.eqb_refl in Hrev. cbn in Hrev. rewrite app_nil_r in Hrev.
  destruct Hrev as (s3 & He & Hm3). exists s3. split_and!; [done| |].
  - rewrite (sim_now _ _ Hm3). symmetry. apply Hm.
  - by rewrite <- (sim_saved_ids _ _ Hm3), <- (sim_saved_ids _ _ Hm).
Qed.

(** The journal counts an address as often as its entries name it, so an
    address is dirty exactly when an entry that is still in force names it:
    reverting leaves nothing dirty that it undid.  The precompile whose touch
    survives a revert is the exception. *)
Theorem journal_counts_dirties (tr : Trie) (s : statedb) (a : Address) :
  reachable tr s → a ≠ ripemd →
  dirties (jrnl s) !! a
  = if decide (count a (entries (jrnl s)) = 0) then None else Some (count a (entries (jrnl s))).
Proof.
  intros (ops & outs & He) Ha. apply (run_ops_counts ops (New tr) outs s He); [|done]. intros x Hx. cbn.
  by rewrite lookup_empty.
Qed.
End spec.

(** ** Examples *)

(** Move money, write storage, destroy the account, and go back twice. *)
Definition demo_ops : list Op :=
  [OpGetBalance 10; OpSetState 10 1 7; OpSnapshot; OpSubBalance 10 30; OpAddBalance 11 30; OpSetState 10 1 8;
   OpSnapshot; OpSuicide 10; OpHasSuicided 10; OpGetBalance 10; OpRevertToSnapshot 1; OpGetState 10 1; OpGetBalance 11;
   OpRevertToSnapshot 0; OpGetBalance 10; OpGetState 10 1; OpExist 11; OpGetCode 10].

Example demo_outs :
  (fst <$> (match run_ops demo_ops (New demo_trie) with Ret r => Some r | _ => None end))
  = Some [OutZ 100; OutUnit; OutZ 0; OutUnit; OutUnit; OutUnit; OutZ 1; OutBool true; OutBool true; OutZ 0; OutUnit;
          OutZ 8; OutZ 30; OutUnit; OutZ 100; OutZ 7; OutBool false; OutBytes demo_code].
Proof. vm_compute. reflexivity. Qed.

Lemma statedb_refines_copies_witness :
  trie_ok demo_trie ∧
  match spec_run demo_ops (mkSpec (abs (New demo_trie)) [] 0) with
  | Ret (outs, m) =>
      ∃ s, run_ops demo_ops (New demo_trie) = Ret (outs, s) ∧ abs s = now m ∧
        rev_id <$> validRevisions s = fst <$> saved m
  | Panic p => run_ops demo_ops (New demo_trie) = Panic p
  end.
Proof. split; [exact demo_trie_ok|exact (statedb_refines_copies demo_trie demo_ops demo_trie_ok)]. Defined.

(** The state after operations that succeed. *)
Definition state_after {A} (m : DB A) (s : statedb) : statedb := match m s with Ret (_, s) => s | Panic _ => s end.
Definition result_of {A} (m : DB A) (s : statedb) : option A := match m s with Ret (a, _) => Some a | Panic _ => None end.

Lemma ran {A} (m : DB A) s a : result_of m s = Some a → m s = Ret (a, state_after m s).
Proof. unfold result_of, state_after. destruct (m s) as [[]|]; [|done]. by intros [= ->]. Qed.

Definition demo_before : list Op := [OpSetState 10 1 7; OpAddBalance 11 5].
Definition demo_between : list Op := [OpSubBalance 10 30; OpSuicide 11; OpSetState 10 1 9].
Definition demo_state : statedb := state_after (run_ops demo_before) (New demo_trie).
Definition demo_snapshot : statedb := state_after Snapshot demo_state.
Definition demo_later : statedb := state_after (run_ops demo_between) demo_snapshot.

Lemma demo_reachable : reachable demo_trie demo_state.
Proof. exists demo_before, [OutUnit; OutUnit]. refine (ran (run_ops demo_before) (New demo_trie) _ _). vm_compute. reflexivity. Qed.

Lemma RevertToSnapshot_restores_witness :
  ∃ s3, RevertToSnapshot 0 demo_later = Ret (tt, s3) ∧ abs s3 = abs demo_state ∧
    rev_id <$> validRevisions s3 = rev_id <$> validRevisions demo_state.
Proof.
  apply (RevertToSnapshot_restores demo_trie demo_state demo_snapshot demo_later 0
    demo_between [OutUnit; OutBool true; OutUnit]).
  - exact demo_trie_ok.
  - exact demo_reachable.
  - refine (ran Snapshot demo_state _ _). vm_compute. reflexivity.
  - repeat constructor.
  - refine (ran (run_ops demo_between) demo_snapshot _ _). vm_compute. reflexivity.
Defined.

Lemma journal_counts_dirties_witness :
  reachable demo_trie demo_state ∧ 10 ≠ ripemd ∧ dirties (jrnl demo_state) !! 10 = Some 1.
Proof.
  split; [exact demo_reachable|]. split; [done|].
  rewrite (journal_counts_dirties demo_trie demo_state 10 demo_reachable ltac:(done)). vm_compute. reflexivity.
Defined.
