(* ===== verification/EvmState.v ===== *)
(** * The virtual machine over the state

    [Spec], the state that copies itself at every snapshot, implements the
    [StateDB] interface of the machine.  Its snapshots satisfy [SnapshotLaws], so
    a call that fails leaves it as it was; and since the journaled state follows
    [Spec] operation by operation, what the machine does to the one it does to
    the other. *)

From S2P Require Import Prelude DemoState Common Params Uint256 Machine VmFacts Rlp RlpFacts RlpDecode RlpStreamFacts Tx.
From S2P Require Import State Statedb StateView StateUndo StateOps StateSim DemoDatabase StateSpec.
From S2P Require Import Vm Evm Interpreter Gas Instructions JumpTable RecorderFacts CallFacts ReadOnlyFacts Changes.

Section instance.
Context `{Externals}.

(** An operation without a result; one that panics stays. *)
Definition spec_do (op : Op) (m : Spec) : Spec :=
  match spec_op op m with Ret (_, m') => m' | Panic _ => m end.

#[export] Instance spec_statedb : StateDB Spec := {|
  CreateAccount a := spec_do (OpCreateAccount a);
  SubBalance a x := spec_do (OpSubBalance a x);
  AddBalance a x := spec_do (OpAddBalance a x);
  GetBalance m a := a_read a 0 av_Balance (now m);
  GetNonce m a := a_read a 0 av_Nonce (now m);
  SetNonce a n := spec_do (OpSetNonce a n);
  GetCodeHash m a := a_read a 0 (λ v, BytesToHash (av_CodeHash v)) (now m);
  GetCode m a := a_read a [] av_Code (now m);
  SetCode a c := spec_do (OpSetCode a (Some c));
  GetCodeSize m a := a_read a 0 (λ v, len (av_Code v)) (now m);
  AddRefund g := spec_do (OpAddRefund g);
  SubRefund g m := '(_, m') ← spec_op (OpSubRefund g) m; Ret m';
  GetRefund m := a_refund (now m);
  GetCommittedState m a k := a_read a 0 (λ v, av_Committed v k) (now m);
  GetState m a k := a_read a 0 (λ v, av_State v k) (now m);
  SetState a k v := spec_do (OpSetState a k v);
  Suicide a m := (spec_do (OpSuicide a) m, bool_decide (is_Some (a_account (now m) a)));
  HasSuicided m a := a_read a false av_suicided (now m);
  Exist m a := bool_decide (is_Some (a_account (now m) a));
  Empty m a := a_read a true v_empty (now m);
  AddressInAccessList m a := ContainsAddress (a_access (now m)) a;
  SlotInAccessList m a k := match Contains (a_access (now m)) a k with Ret r => r | Panic _ => (false, false) end;
  AddAddressToAccessList a := spec_do (OpAddAddressToAccessList a);
  AddSlotToAccessList a k := spec_do (OpAddSlotToAccessList a k);
  RevertToSnapshot n m := '(_, m') ← spec_op (OpRevertToSnapshot n) m; Ret m';
  Snapshot m := (spec_do OpSnapshot m, next m);
  AddLog l := spec_do (OpAddLog l);
  AddLogSu l m := (spec_do (OpAddLog l) m, a_log_in (now m) l);
  AddPreimage h b := spec_do (OpAddPreimage h b)
|}.

(** ** Its snapshots *)

Definition ids_below (m : Spec) : Prop := Forall (λ p, fst p < next m) (saved m).

(** [m'] comes after [m]: what was saved still is. *)
Definition later (m m' : Spec) : Prop := next m ≤ next m' ∧ ∃ r, saved m' = saved m ++ r.

Lemma later_refl m : later m m.
Proof. split; [lia|]. exists []. by rewrite app_nil_r. Qed.

Lemma later_trans m1 m2 m3 : later m1 m2 → later m2 m3 → later m1 m3.
Proof. intros [Hn (r & Hr)] [Hn' (r' & Hr')]. split; [lia|]. exists (r ++ r'). by rewrite Hr', Hr, app_assoc. Qed.

Definition keeps_saved (op : Op) : Prop := op ≠ OpSnapshot ∧ ∀ id, op ≠ OpRevertToSnapshot id.

Lemma spec_op_change op m out m' :
  keeps_saved op → spec_op op m = Ret (out, m') → saved m' = saved m ∧ next m' = next m.
Proof.
  intros [Hn Hr] He.
  assert (spec_op op m = '(out, A) ← spec_change op (now m); Ret (out, mkSpec A (saved m) (next m))) as Hs.
  { destruct op; try reflexivity; [done|]. by destruct (Hr id). }
  rewrite Hs in He. destruct (spec_change op (now m)) as [[o A]|]; [|done]. by injection He as _ <-.
Qed.

Lemma spec_do_saved op m : keeps_saved op → saved (spec_do op m) = saved m ∧ next (spec_do op m) = next m.
Proof.
  intros Hk. unfold spec_do. destruct (spec_op op m) as [[out m']|] eqn:E; [|done]. by eapply spec_op_change.
Qed.

Lemma restored id l A r : Forall (λ p, fst p < id) l → restore id (l ++ (id, A) :: r) = Some (A, l).
Proof.
  intros Hl. rewrite restore_app by (eapply Forall_impl; [done|]; cbn; lia). cbn. rewrite Z.eqb_refl. cbn.
  by rewrite app_nil_r.
Qed.

Lemma ids_below_grow l (i j : Z) (A : AState) :
  Forall (λ p, fst p < i) l → i < j → Forall (λ p, fst p < j) (l ++ [(i, A)]).
Proof.
  intros Hl Hi. apply Forall_app. split; [eapply Forall_impl; [done|]; cbn; lia|]. by repeat constructor.
Qed.

Lemma snapshot_ids m : ids_below m → ids_below (spec_do OpSnapshot m).
Proof. intros Hb. apply ids_below_grow; [done|]. cbn. lia. Qed.

Lemma snapshot_restored m m1 m2 :
  ids_below m → later (spec_do OpSnapshot m) m1 → RevertToSnapshot (next m) m1 = Ret m2 →
  m2 = mkSpec (now m) (saved m) (next m1).
Proof.
  intros Hb [_ (r & Hr)] E. cbn in Hr. rewrite <- app_assoc in Hr. cbn in Hr, E.
  rewrite Hr, restored in E by done. by injection E as <-.
Qed.

Lemma changes_later (m m' : Spec) : changes m m' → ids_below m → ids_below m' ∧ later m m'.
Proof.
  assert (∀ op (m : Spec), keeps_saved op → ids_below m → ids_below (spec_do op m) ∧ later m (spec_do op m)) as Hop.
  { intros op m0 Hk Hb. destruct (spec_do_saved op m0 Hk) as [Hs Hn]. unfold ids_below, later. rewrite Hs, Hn.
    split; [done|]. split; [lia|]. exists []. by rewrite app_nil_r. }
  assert (∀ op (m m' : Spec), keeps_saved op → m' = spec_do op m → ids_below m → ids_below m' ∧ later m m') as Hop'.
  { intros op m0 m0' Hk -> . by apply Hop. }
  induction 1 as [s|s1 s2 s3 _ IH1 _ IH2|a s|a x s|a x s|a n s|a c s|g s|g s s' Hg E|a k v s|a s s' b E|a s|a k s|l s
    |l s s' l' E|h b s|s s' n E|s s0 n s1 s2 E _ IH E']; intros Hb;
    try (eapply Hop'; [|reflexivity|done]; done).
  - split; [done|apply later_refl].
  - destruct (IH1 Hb) as [Hb1 Hl1]. destruct (IH2 Hb1) as [Hb2 Hl2]. split; [done|by eapply later_trans].
  - eapply (Hop' (OpSubRefund g)); [done| |done]. unfold spec_do. cbn in E.
    cbn [spec_op spec_change]. destruct (a_refund (now s) <? g); [done|]. by injection E as <-.
  - eapply (Hop' (OpSuicide a)); [done| |done]. by injection E as <- _.
  - eapply (Hop' (OpAddLog l)); [done| |done]. by injection E as <- _.
  - injection E as <- <-. split; [by apply snapshot_ids|]. split; cbn; [lia|by eexists].
  - injection E as <- <-. cbn in E'.
    pose proof (snapshot_ids s Hb) as Hb0.
    destruct (IH Hb0) as [Hb1 Hl1]. pose proof Hl1 as [Hn _]. cbn in Hn.
    rewrite (snapshot_restored s s1 s2 Hb Hl1 E').
    split; [unfold ids_below; cbn; eapply Forall_impl; [exact Hb|]; cbn; lia|].
    split; cbn; [lia|]. exists []. by rewrite app_nil_r.
Qed.

#[export] Instance spec_snapshots : SnapshotLaws Spec AState.
Proof.
  refine {| obs := now; sound := ids_below |}.
  - intros s s' Hb Hc. by apply (changes_later s s').
  - intros s s0 n s1 s2 Hb E Hc E'. injection E as <- <-.
    pose proof (snapshot_ids s Hb) as Hb0.
    destruct (changes_later _ _ Hc Hb0) as [_ Hl]. by rewrite (snapshot_restored s s1 s2 Hb Hl E').
Defined.
End instance.

(** ** Its refund counter *)

Section refund.
Context `{Externals}.

Definition refund_word (A : AState) : Prop := 0 ≤ a_refund A < 2 ^ 64.
Definition refunds_ok (m : Spec) : Prop := refund_word (now m) ∧ Forall (λ p, refund_word (snd p)) (saved m).

Definition pays_back (op : Op) : Prop := match op with OpSubRefund g => 0 ≤ g | _ => True end.

Lemma spec_change_refund op A out A' :
  pays_back op → refund_word A → spec_change op A = Ret (out, A') → refund_word A'.
Proof.
  unfold refund_word. destruct op; cbn; intros Hp Hr E; try (by injection E as _ <-).
  - injection E as _ <-. cbn. by apply wrapU_range.
  - destruct (Z.ltb_spec (a_refund A) gas); [done|]. injection E as _ <-. cbn. lia.
  - by destruct (a_account A a); injection E as _ <-.
  - by destruct (Contains (a_access A) a slot) as [r|]; [injection E as _ <-|].
  - by destruct (AddSlot (a_access A) a slot) as [[[al b1] b2]|]; [injection E as _ <-|].
  - by destruct (a_preimages A !! h); injection E as _ <-.
Qed.

Lemma restore_refund id l A l' :
  Forall (λ p, refund_word (snd p)) l → restore id l = Some (A, l') → refund_word A ∧ Forall (λ p, refund_word (snd p)) l'.
Proof.
  intros Hl. revert l'. induction Hl as [|[i B] l HB Hl IH]; intros l' E; [done|]. cbn in E.
  destruct (i =? id); [by injection E as <- <-|].
  destruct (restore id l) as [[A' r]|]; [|done]. injection E as -> <-. destruct (IH r eq_refl). split; [done|by constructor].
Qed.

Lemma spec_op_refund op m out m' : pays_back op → refunds_ok m → spec_op op m = Ret (out, m') → refunds_ok m'.
Proof.
  intros Hp [Hn Hs] E.
  assert (op = OpSnapshot ∨ (∃ id, op = OpRevertToSnapshot id) ∨
    spec_op op m = '(out, A) ← spec_change op (now m); Ret (out, mkSpec A (saved m) (next m))) as [->|[[id ->]|Hc]].
  { destruct op; first [by left|right; left; by eexists|right; right; reflexivity]. }
  - injection E as _ <-. split; [done|]. apply Forall_app. split; [done|by apply Forall_singleton].
  - cbn in E. destruct (restore id (saved m)) as [[A l]|] eqn:Er; [|done]. injection E as _ <-.
    by apply (restore_refund id (saved m)).
  - rewrite Hc in E. destruct (spec_change op (now m)) as [[o A]|] eqn:Es; [|done]. injection E as _ <-.
    split; [by eapply spec_change_refund|done].
Qed.

Lemma spec_do_refund op m : pays_back op → refunds_ok m → refunds_ok (spec_do op m).
Proof. intros Hp Hm. unfold spec_do. destruct (spec_op op m) as [[out m']|] eqn:E; [by eapply spec_op_refund|done]. Qed.

#[export] Instance spec_refunds : RefundLaws Spec.
Proof.
  refine {| refund_ok := refunds_ok |}; [|by intros s [? _]].
  intros m m' Hm Hc. revert Hm.
  induction Hc as [s|s1 s2 s3 _ IH1 _ IH2|a s|a x s|a x s|a n s|a c s|g s|g s s' Hg E|a k v s|a s s' b E|a s|a k s|l s
    |l s s' l' E|h b s|s s' n E|s s0 n s1 s2 E _ IH E']; intros Hm; try (apply spec_do_refund; done).
  - done.
  - auto.
  - cbn in E. refine (spec_op_refund (OpSubRefund g) s OutUnit s' Hg Hm _). revert E. cbn.
    by destruct (a_refund (now s) <? g); [|intros [= <-]].
  - injection E as <- _. by apply spec_do_refund.
  - injection E as <- _. by apply spec_do_refund.
  - injection E as <- _. by apply spec_do_refund.
  - injection E as <- <-. apply (spec_op_refund (OpRevertToSnapshot (next s)) s1 OutUnit s2 I).
    + apply IH. by apply spec_do_refund.
    + revert E'. cbn. by destruct (restore _ _) as [[A l]|]; [intros [= <-]|].
Defined.
End refund.

(** ** Changes are runs of operations *)

Section runs.
Context `{Externals}.

Lemma spec_run_app ops1 ops2 m outs1 m1 :
  spec_run ops1 m = Ret (outs1, m1) →
  spec_run (ops1 ++ ops2) m = '(outs2, m2) ← spec_run ops2 m1; Ret (outs1 ++ outs2, m2).
Proof.
  revert m outs1. induction ops1 as [|op ops1 IH]; intros m outs1 E; cbn in E |- *.
  - injection E as <- <-. by destruct (spec_run ops2 m) as [[? ?]|].
  - destruct (spec_op op m) as [[out m']|]; [|done]. cbn in E |- *.
    destruct (spec_run ops1 m') as [[outs m'']|] eqn:E1; [|done]. injection E as <- <-.
    rewrite (IH _ _ E1). by destruct (spec_run ops2 m'') as [[? ?]|].
Qed.

Definition runs_to (m m' : Spec) : Prop := ∃ ops outs, spec_run ops m = Ret (outs, m').

Lemma runs_refl m : runs_to m m.
Proof. by exists [], []. Qed.

Lemma runs_trans m1 m2 m3 : runs_to m1 m2 → runs_to m2 m3 → runs_to m1 m3.
Proof.
  intros (ops1 & outs1 & E1) (ops2 & outs2 & E2). exists (ops1 ++ ops2), (outs1 ++ outs2).
  by rewrite (spec_run_app _ _ _ _ _ E1), E2.
Qed.

Lemma runs_op op m out m' : spec_op op m = Ret (out, m') → runs_to m m'.
Proof. intros E. exists [op], [out]. cbn. by rewrite E. Qed.

Lemma runs_do op m : runs_to m (spec_do op m).
Proof.
  unfold spec_do. destruct (spec_op op m) as [[out m']|] eqn:E; [by eapply runs_op|apply runs_refl].
Qed.

Lemma runs_go op (m m' : Spec) : ('(_, m'') ← spec_op op m; Ret m'') = Ret m' → runs_to m m'.
Proof. destruct (spec_op op m) as [[out m'']|] eqn:E; [|done]. intros [= <-]. by eapply runs_op. Qed.

Lemma changes_run (m m' : Spec) : changes m m' → runs_to m m'.
Proof.
  induction 1 as [s|s1 s2 s3 _ IH1 _ IH2|a s|a x s|a x s|a n s|a c s|g s|g s s' Hg E|a k v s|a s s' b E|a s|a k s|l s
    |l s s' l' E|h b s|s s' n E|s s0 n s1 s2 E _ IH E'].
  all: try apply runs_do.
  - apply runs_refl.
  - exact (runs_trans _ _ _ IH1 IH2).
  - exact (runs_go _ _ _ E).
  - injection E as <- _. apply runs_do.
  - injection E as <- _. apply runs_do.
  - injection E as <- _. apply runs_do.
  - injection E as <- <-. eapply runs_trans; [apply runs_do|]. eapply runs_trans; [exact IH|exact (runs_go _ _ _ E')].
Qed.
End runs.

(** ** What the machine reads *)

(** The reads of the [StateDB] interface, as operations. *)
Definition vm_read {S} `{StateDB S} (op : Op) (s : S) : option Out :=
  match op with
  | OpGetBalance a => Some (OutZ (GetBalance s a))
  | OpGetNonce a => Some (OutZ (GetNonce s a))
  | OpGetCodeHash a => Some (OutZ (GetCodeHash s a))
  | OpGetCode a => Some (OutBytes (GetCode s a))
  | OpGetCodeSize a => Some (OutZ (GetCodeSize s a))
  | OpGetRefund => Some (OutZ (GetRefund s))
  | OpGetCommittedState a k => Some (OutZ (GetCommittedState s a k))
  | OpGetState a k => Some (OutZ (GetState s a k))
  | OpHasSuicided a => Some (OutBool (HasSuicided s a))
  | OpExist a => Some (OutBool (Exist s a))
  | OpEmpty a => Some (OutBool (Empty s a))
  | OpAddressInAccessList a => Some (OutBool (AddressInAccessList s a))
  | OpSlotInAccessList a k => Some (OutBools (SlotInAccessList s a k))
  | _ => None
  end.

Section journal.
Context `{HD : DatabaseLaws}.

(** The journaled state [s] behaves as the machine sees [m]. *)
Definition follows (s : State.statedb) (m : Spec) : Prop :=
  abs s = now m ∧ rev_id <$> validRevisions s = fst <$> saved m ∧
  ∀ op out, vm_read op m = Some out → ∃ s', run_op op s = Ret (out, s') ∧ abs s' = now m.

Lemma awf_contains A a k : awf A → ∃ r, Contains (a_access A) a k = Ret r.
Proof.
  intros [[Hi _] _ _]. unfold Contains, slot_map. destruct (al_addresses (a_access A) !! a) as [idx|] eqn:Ha; [|by eexists].
  destruct (Z.eqb_spec idx (-1)) as [->|Hne]; [by eexists|].
  destruct (Hi a idx Ha) as [|Hr]; [done|]. destruct (Z.ltb_spec idx 0); [lia|].
  destruct (lookup_lt_is_Some_2 (al_slots (a_access A)) (Z.to_nat idx)) as [m Hl]; [lia|]. rewrite Hl. by eexists.
Qed.

Lemma vm_read_spec op m out : awf (now m) → vm_read op m = Some out → spec_op op m = Ret (out, m).
Proof.
  intros Hw. destruct m as [A l i].
  destruct op as [| | | | | | | | | | | | | | | | | | | | | |a k| | | | | |]; cbn; try by intros [= <-].
  destruct (awf_contains A a k Hw) as [r Hr]. cbn. rewrite Hr. by intros [= <-].
Qed.

Lemma sim_follows s m : sim s m → follows s m.
Proof.
  intros Hs. split_and!; [apply Hs|symmetry; by apply sim_saved_ids|]. intros op out Hr.
  apply vm_read_spec in Hr; [|apply Hs]. pose proof (op_sim op s m Hs) as Ho. rewrite Hr in Ho.
  destruct Ho as (s' & He & Hs'). exists s'. split; [done|apply Hs'].
Qed.

Lemma changes_follow s m m' :
  sim s m → changes m m' → ∃ ops outs s', run_ops ops s = Ret (outs, s') ∧ spec_run ops m = Ret (outs, m') ∧ sim s' m'.
Proof.
  intros Hs (ops & outs & Hr)%changes_run. pose proof (run_sim ops s m Hs) as Hsim. rewrite Hr in Hsim.
  destruct Hsim as (s' & He & Hs'). by exists ops, outs, s'.
Qed.
End journal.

(** ** Calls that fail *)

Section failing.
Context {S V : Type} `{HS : StateDB S} `{!SnapshotLaws S V} `{Uint256} `{Externals}.

Lemma undone_obs (s s' : S) : sound s → undone s s' → obs s' = obs s.
Proof. intros Hs [->|(s0 & n & s1 & E & Hc & E')]; [done|]. by eapply revert_restores. Qed.

Lemma call_chg_obs (s s' : S) err : sound s → call_chg s s' (Some err) → obs s' = obs s.
Proof. intros Hs [_ Hu]. by apply undone_obs, Hu. Qed.

Lemma machine_chg r levels : runner_chg (machine (S := S) r levels).
Proof. apply Run_chg, table_chg. Qed.

(** Whatever the result, if it is an error the state is as in [e]. *)
Definition undoes (e : EVM S) (m : CallResult) : Prop :=
  ∀ e' ret g err, m = Done (e', (ret, g, Some err)) → obs (statedb e') = obs (statedb e).

(** C35: In every instruction set, however deep the nesting and whatever ran in
    between, a call that reports an error leaves the state as it found it, on any
    state whose snapshots work.  A failed creation leaves the state as it was, or
    with the creator's nonce used and the new address warm; only before Homestead
    a contract that cannot pay for its code stays. *)
Theorem failed_call_restores r levels caller a input gas value (e : EVM S) :
  sound (statedb e) →
  let run := machine r levels in
  undoes e (Call run caller a input gas value e) ∧
  undoes e (CallCode run caller a input gas value e) ∧
  undoes e (DelegateCall run caller a input gas e) ∧
  undoes e (StaticCall run caller a input gas e) ∧
  (∀ code hash address e' ret addr g err,
     create run caller code hash gas value address e = Done (e', (ret, addr, g, Some err)) →
     obs (statedb e') = obs (statedb e) ∨
     obs (statedb e') = obs (create_entered (IsBerlin (chainRules e)) (ref_Address caller) address (statedb e)) ∨
     (IsHomestead (chainRules e) = false ∧ err = ErrCodeStoreOutOfGas)).
Proof.
  intros Hs run. pose proof (machine_chg r levels) as Hrun. fold run in Hrun.
  split_and!; try (intros e' ret g err E; apply (call_chg_obs _ _ err Hs)).
  - exact (Call_chg run Hrun _ _ _ _ _ _ _ _ E).
  - exact (CallCode_chg run Hrun _ _ _ _ _ _ _ _ E).
  - exact (DelegateCall_chg run Hrun _ _ _ _ _ _ _ E).
  - exact (StaticCall_chg run Hrun _ _ _ _ _ _ _ E).
  - intros code hash address e' ret addr g err E.
    apply create_recorded in E as Hctx; [|apply Run_ok, table_framed]. destruct Hctx as [(_ & _ & Hr & _) _].
    apply (create_created run Hrun) in E as [_ Hc]. rewrite Hr in Hc. cbn [snd] in Hc.
    destruct Hc as [Hu|[Hu|[Hh He]]]; [done| | |].
    + left. by apply undone_obs.
    + right. left. apply undone_obs; [|done]. eapply sound_changes; [exact Hs|apply entered_chg].
    + right. right. split; [done|by injection He].
Qed.
End failing.

(** ** The machine over the journal *)

Section machine.
Context `{HD : DatabaseLaws} `{Uint256}.

(** C36: the journaled state refines the state the machine was modelled over.
    When a call over [Spec] returns, the operations it made, run on a journaled
    state that follows the one it began with, succeed with the same results and
    end in a state that follows the one it ended with: every read of the
    interface gives what the machine saw.  If the call failed, the journaled
    state shows what it showed before. *)
Theorem calls_on_the_journal r levels caller a input gas value (e e' : EVM Spec) ret g err (s : State.statedb) :
  sim s (statedb e) →
  Call (machine r levels) caller a input gas value e = Done (e', (ret, g, err)) →
  follows s (statedb e) ∧
  ∃ ops outs s',
    run_ops ops s = Ret (outs, s') ∧ spec_run ops (statedb e) = Ret (outs, statedb e') ∧
    follows s' (statedb e') ∧ (err ≠ None → abs s' = abs s).
Proof.
  intros Hs E. split; [by apply sim_follows|].
  assert (ids_below (statedb e)) as Hb.
  { apply (Forall_fmap fst (λ i, i < next (statedb e))). rewrite (sim_saved_ids _ _ Hs). apply Forall_fmap.
    rewrite <- (sim_next _ _ Hs). exact (sim_below _ _ Hs). }
  apply (Call_chg _ (machine_chg r levels)) in E as Hc. destruct Hc as [Hc Hu].
  destruct (changes_follow s _ _ Hs Hc) as (ops & outs & s' & He & Hr & Hs').
  exists ops, outs, s'. split_and!; [done|done|by apply sim_follows|]. intros Herr.
  rewrite (sim_now _ _ Hs'), (sim_now _ _ Hs). exact (undone_obs (V := AState) _ _ Hb (Hu Herr)).
Qed.
End machine.

(** ** Examples *)

Definition failure {A} (m : Res (EVM Spec * (bytes * Z * option A))) : option A :=
  match m with Done (_, (_, _, err)) => err | _ => None end.

Lemma failed m x : failure m = Some x → ∃ e' ret g, m = Done (e', (ret, g, Some (x : VmError))).
Proof. destruct m as [[e' [[ret g] err]]|p|]; cbn; [|done|done]. intros ->. by exists e', ret, g. Qed.

(** The world of the examples over a state [m]. *)
Definition spec_evm (m : Spec) : EVM Spec :=
  let e := nested_evm log_revert log_revert in
  {| Context := Context e; TxCtx := TxCtx e; statedb := m; depth := depth e; chainRules := chainRules e;
     abort := abort e; callGasTemp := callGasTemp e; CallStack := CallStack e; ExTx := ExTx e;
     readOnly := readOnly e; returnData := returnData e; jumpmaps := jumpmaps e; block_hashes := block_hashes e; hashes_asked := hashes_asked e |}.

(** Before it calls it, the demo account gets code that logs and reverts. *)
Definition reverting_ops : list Op := [OpSetCode 10 (Some log_revert)].
Definition reverting_state : State.statedb := state_after (run_ops reverting_ops) (New demo_trie).
Definition reverting_spec : Spec := spec_do (OpSetCode 10 (Some log_revert)) (mkSpec (abs (New demo_trie)) [] 0).
Definition reverting_call := Call (machine london 2) (AccountRef outer_addr) 10 [] 10000 0 (spec_evm reverting_spec).

Lemma reverting_fails : failure reverting_call = Some ErrExecutionReverted.
Proof. vm_compute. reflexivity. Qed.

Lemma failed_call_restores_witness :
  ∃ e' ret g err, reverting_call = Done (e', (ret, g, Some err)) ∧ now (statedb e') = now reverting_spec.
Proof.
  destruct (failed _ _ reverting_fails) as (e' & ret & g & E). exists e', ret, g, ErrExecutionReverted.
  split; [exact E|].
  exact (proj1 (failed_call_restores (V := AState) london 2 (AccountRef outer_addr) 10 [] 10000 0 (spec_evm reverting_spec)
    (Forall_nil_2 _)) _ _ _ _ E).
Defined.

Lemma reverting_sim : sim reverting_state reverting_spec.
Proof.
  pose proof (run_sim reverting_ops _ _ (sim_New demo_trie demo_trie_ok)) as Hr.
  change (spec_run reverting_ops _) with (Ret ([OutUnit], reverting_spec)) in Hr. destruct Hr as (s' & He & Hs).
  assert (reverting_state = s') as -> by (unfold reverting_state, state_after; by rewrite He). exact Hs.
Qed.

Lemma calls_on_the_journal_witness :
  ∃ e' ret g err ops outs s',
    reverting_call = Done (e', (ret, g, Some err)) ∧ run_ops ops reverting_state = Ret (outs, s') ∧
    follows s' (statedb e') ∧ abs s' = abs reverting_state.
Proof.
  destruct (failed _ _ reverting_fails) as (e' & ret & g & E). pose proof E as E'. unfold reverting_call in E'.
  destruct (calls_on_the_journal london 2 (AccountRef outer_addr) 10 [] 10000 0 (spec_evm reverting_spec) e' ret g
    (Some ErrExecutionReverted) reverting_state reverting_sim E') as (_ & ops & outs & s' & Hr & _ & Hf & Ha).
  exists e', ret, g, ErrExecutionReverted, ops, outs, s'. split; [exact E|]. split; [exact Hr|]. split; [exact Hf|].
  apply Ha. discriminate.
Defined.
