(* ===== verification/TransitionSpec.v ===== *)
(** * Properties of the application of messages *)

From S2P Require Import Prelude DemoState Common Params Uint256 Machine VmFacts Rlp RlpFacts RlpDecode RlpStreamFacts Tx.
From S2P Require Import State Statedb StateView StateUndo StateOps StateSim DemoDatabase StateSpec.
From S2P Require Import Vm Evm Interpreter Gas Instructions JumpTable RecorderFacts CallFacts ReadOnlyFacts Changes GasFacts GasOps GasTables EvmSpec EvmState Types Transition.



Section transition.
Context {S : Type} `{StateDB S} `{U : Uint256} `{!Uint256Range U} `{X : Externals} `{!ExternalsRange X}.
Context (NoBaseFee : bool) (levels : nat).

Abbreviation T := (StateTransition S).

(** The transition ends, or crashes in the recorder; [P] says how it ends. *)
Definition outcome {A} (P : T → CoreError + A → Prop) (m : Res (T * (CoreError + A))) : Prop :=
  match m with Done (st, r) => P st r | Crash _ => True | OutOfFuel => False end.

Lemma outcome_impl {A} (P Q : T → CoreError + A → Prop) (m : Res (T * (CoreError + A))) :
  (∀ st r, P st r → Q st r) → outcome P m → outcome Q m.
Proof. destruct m as [[st r]|p|]; cbn; auto. Qed.

Lemma outcome_bind {A B} (P : T → CoreError + B → Prop) (m : Tx A) (k : A → Tx B) st :
  outcome (λ st' r, match r with inl err => P st' (inl err) | inr a => outcome P (k a st') end) (m st) →
  outcome P ((m ≫= k) st).
Proof. unfold mbind, Tx_bind. by destruct (m st) as [[st' [err|a]]|p|]. Qed.

Lemma outcome_get {A B} (P : T → CoreError + B → Prop) (f : T → A) (k : A → Tx B) st :
  outcome P (k (f st) st) → outcome P ((st_get f ≫= k) st).
Proof. done. Qed.

(** A step that only looks: it fails, or goes on. *)
Definition looks (m : Tx (S := S) ()) : Prop :=
  ∀ st, (∃ err, m st = Done (st, inl err)) ∨ m st = Done (st, inr tt).

Lemma looks_ret : looks (mret tt).
Proof. intros st. by right. Qed.
Lemma looks_if b err : looks (fail_if b err).
Proof. intros st. destruct b; [left; by eexists|by right]. Qed.
Lemma looks_bind (m k : Tx (S := S) ()) : looks m → looks k → looks (_ ← m; k).
Proof.
  intros Hm Hk st. unfold mbind, Tx_bind. destruct (Hm st) as [[err ->]| ->]; [left; by eexists|apply Hk].
Qed.
Lemma looks_get {A} (f : T → A) (k : A → Tx ()) : (∀ a, looks (k a)) → looks (a ← st_get f; k a).
Proof. intros Hk st. apply Hk. Qed.

Lemma check_nonce_looks : looks check_nonce.
Proof. repeat (apply looks_get; intros ?). repeat (apply looks_bind; [apply looks_if|]). apply looks_if. Qed.
Lemma check_sender_looks : looks check_sender.
Proof. repeat (apply looks_get; intros ?). apply looks_if. Qed.
Lemma check_fees_looks : looks (check_fees NoBaseFee).
Proof.
  repeat (apply looks_get; intros ?). destruct (IsLondon _); [|apply looks_ret].
  destruct (_ || _); [|apply looks_ret]. repeat (apply looks_bind; [apply looks_if|]). apply looks_if.
Qed.

(** The transition after its gas was bought. *)
Definition bought (e : EVM S) (msg : Message) (gp : Z) : T :=
  mkTransition (gp - msg_gasLimit msg) msg (msg_gasLimit msg) (msg_gasLimit msg)
    (set_statedb e (SubBalance (msg_from msg) (msg_gasLimit msg * msg_gasPrice msg) (statedb e))).

Lemma buyGas_spec e msg gp :
  0 ≤ gp < 2 ^ 64 → 0 ≤ msg_gasLimit msg < 2 ^ 64 →
  outcome (λ st r, match r with
                   | inl _ => st = NewStateTransition e msg gp
                   | inr _ => st = bought e msg gp ∧ msg_gasLimit msg ≤ gp
                   end) (buyGas (NewStateTransition e msg gp)).
Proof.
  intros Hgp Hg. unfold buyGas, mbind, Tx_bind, fail_if. cbn.
  destruct (_ <? _); [done|]. cbn. unfold SubGas. destruct (Z.ltb_spec gp (msg_gasLimit msg)); [done|]. cbn.
  split; [|lia]. unfold bought. by rewrite !wrapU_small by lia.
Qed.

Lemma checks_spec (checks : Tx (S := S) ()) e msg gp :
  looks checks → 0 ≤ gp < 2 ^ 64 → 0 ≤ msg_gasLimit msg < 2 ^ 64 →
  outcome (λ st r, match r with
                   | inl _ => st = NewStateTransition e msg gp
                   | inr _ => st = bought e msg gp ∧ msg_gasLimit msg ≤ gp
                   end) ((_ ← checks; buyGas) (NewStateTransition e msg gp)).
Proof.
  intros Hc Hgp Hg. apply outcome_bind. destruct (Hc (NewStateTransition e msg gp)) as [[err ->]| ->]; [done|].
  by apply buyGas_spec.
Qed.

Lemma bind_assoc_looks (m k : Tx (S := S) ()) (j : Tx ()) st : (_ ← m; _ ← k; j) st = (_ ← (_ ← m; k); j) st.
Proof. unfold mbind, Tx_bind. by destruct (m st) as [[st' [err|[]]]|p|]. Qed.

Lemma preCheck_spec e msg gp :
  0 ≤ gp < 2 ^ 64 → 0 ≤ msg_gasLimit msg < 2 ^ 64 →
  outcome (λ st r, match r with
                   | inl _ => st = NewStateTransition e msg gp
                   | inr _ => st = bought e msg gp ∧ msg_gasLimit msg ≤ gp
                   end) (preCheck NoBaseFee (NewStateTransition e msg gp)) ∧
  outcome (λ st r, match r with
                   | inl _ => st = NewStateTransition e msg gp
                   | inr _ => st = bought e msg gp ∧ msg_gasLimit msg ≤ gp
                   end) (preCheckSu NoBaseFee (NewStateTransition e msg gp)).
Proof.
  intros Hgp Hg. unfold preCheck, preCheckSu.
  split; (match goal with |- outcome _ ((_ ≫= ?k) ?st) => change ((st_get st_msg ≫= k) st) with (k msg st) end; cbv beta;
    rewrite bind_assoc_looks; apply checks_spec; [apply looks_bind; [|apply check_fees_looks]|done..];
    destruct (msg_isFake msg); [apply looks_ret|]).
  - apply looks_bind; [apply check_nonce_looks|apply check_sender_looks].
  - apply check_sender_looks.
Qed.

(** ** The access list *)

Lemma foldl_changes {A} (f : S → A → S) (l : list A) s : (∀ s a, changes s (f s a)) → changes s (foldl f s l).
Proof.
  intros Hf. revert s. induction l as [|a l IH]; intros s; [constructor|]. cbn. eapply chg_trans; [apply Hf|apply IH].
Qed.

Lemma PrepareAccessList_changes sender dst pre (l : AccessList) (s : S) :
  changes s (PrepareAccessList sender dst pre l s).
Proof.
  unfold PrepareAccessList. cbv zeta. eapply chg_trans; [apply (chg_address sender)|].
  eapply chg_trans; [|apply foldl_changes].
  - eapply chg_trans; [|apply foldl_changes; intros; apply chg_address]. destruct dst; [apply chg_address|constructor].
  - intros s' [a keys]. eapply chg_trans; [apply chg_address|]. apply foldl_changes. intros. apply chg_slot.
Qed.

(** ** The call *)

(** The node that the recorder makes of a message. *)
Definition message_node (msg : Message) (n : InternalTx) : Prop :=
  match msg_to msg with
  | Some a => ∃ b, call_node (msg_from msg) a b (Some (msg_amount msg)) "Call" (msg_data msg) n
  | None => call_node (msg_from msg) 0 true None "Create" [] n
  end.

(** The transaction of [e'] is that of [e] with at most one more root, a node of the message. *)
Definition recorded (msg : Message) (e e' : EVM S) : Prop :=
  ∃ new, (new = [] ∨ ∃ n, new = [n] ∧ message_node msg n) ∧ ExTx e' = add_roots (ExTx e) new.

(** What a call or a creation from [e] with [gas] does. *)
Record called (msg : Message) (e : EVM S) (gas : Z) (e' : EVM S) (left : Z) : Prop := {
  called_gas : 0 ≤ left ≤ gas;
  called_recorded : recorded msg e e';
  called_changes : changes (statedb e) (statedb e');
  called_stack : CallStack e' = [];
  called_context : same_ctx e e'
}.

Context (Hlevels : CallCreateDepth < Z.of_nat levels).

Definition fresh (e : EVM S) : Prop := depth e = 0 ∧ CallStack e = [] ∧ ordered_rules (chainRules e).

Lemma fresh_gas e : fresh e → calls_gas 0 (chainRules e) (calls_of (machine (S := S) (chainRules e) levels)).
Proof. intros (Hd & _ & Ho). apply levels_gas; [done|done|lia]. Qed.

Lemma called_by (P : InternalTx → Prop) msg e e' gas left :
  (∀ n, P n → message_node msg n) →
  CallStack e = [] → records P e e' → changes (statedb e) (statedb e') → 0 ≤ left ≤ gas → called msg e gas e' left.
Proof.
  intros HP Hc (Hctx & new & Hnew & Hn) Hch Hg. unfold new_nodes in Hn. rewrite Hc in Hn.
  destruct Hn as [Hst Htx]. split; try done. exists new. split; [|done].
  destruct Hnew as [->|(n & -> & Hp)]; [by left|]. right. exists n. split; [done|by apply HP].
Qed.

Lemma run_message_spec e gp msg g limit :
  fresh e → 0 ≤ g < 2 ^ 64 →
  outcome (λ st r, ∃ e' left ret err,
      st = mkTransition gp msg left limit e' ∧ r = inr (ret, err) ∧ called msg e g e' left)
    (run_message levels (mkTransition gp msg g limit e)).
Proof.
  intros Hf Hg. pose proof (fresh_gas e Hf) as [Q1 _ _ _ Q5 _]. destruct Hf as (Hd & Hc & _).
  pose proof (Run_ok _ (table_framed (chainRules e)) levels) as Hok. pose proof (Run_chg _ levels (table_chg (chainRules e))) as Hch.
  unfold run_message, mbind, Tx_bind. cbn [st_get st_msg st_evm st_gas].
  destruct (msg_to msg) as [addr|] eqn:Eto.
  - set (s := SetNonce _ _ _). specialize (Q1 (AccountRef (msg_from msg)) addr (msg_data msg) g (msg_amount msg) (set_statedb e s)
      (conj Hd eq_refl) Hg). cbn in Q1.
    destruct (Call _ _ _ _ _ _ _) as [[e' [[ret left] err]]|p|] eqn:E; cbn; [|done|done].
    destruct Q1 as [_ Hl]. exists e', left, ret, err. split; [done|]. split; [done|].
    apply (Call_recorded _ Hok) in E as Hr. apply (Call_chg _ Hch) in E as [Hc' _].
    assert (∀ n, (∃ b, call_node (msg_from msg) addr b (Some (msg_amount msg)) "Call" (msg_data msg) n) → message_node msg n)
      as HP by (intros n Hn; unfold message_node; by rewrite Eto).
    destruct (called_by _ msg (set_statedb e s) e' g left HP Hc Hr Hc' Hl). split; try done.
    eapply chg_trans; [apply chg_nonce|exact Hc'].
  - specialize (Q5 (AccountRef (msg_from msg)) (msg_data msg) g (msg_amount msg) e (conj Hd eq_refl) Hg). cbn in Q5.
    destruct (Create _ _ _ _ _ _) as [[e' [[[ret a] left] err]]|p|] eqn:E; cbn; [|done|done].
    destruct Q5 as [_ Hl]. exists e', left, ret, err. split; [done|]. split; [done|]. unfold Create in E.
    apply (create_recorded _ Hok) in E as Hr. apply (create_created _ Hch) in E as [Hc' _].
    eapply called_by; [|done..]. intros n Hn. unfold message_node. by rewrite Eto.
Qed.

(** ** Giving back *)

Definition refunded (q used counter : Z) : Z := Z.min (used / q) counter.

Lemma refundGas_spec q e gp msg g limit :
  1 < q → 0 ≤ g ≤ limit → 0 ≤ gp → gp + limit < 2 ^ 64 → 0 ≤ GetRefund (statedb e) →
  let left := g + refunded q (limit - g) (GetRefund (statedb e)) in
  g ≤ left ≤ limit ∧
  refundGas q (mkTransition gp msg g limit e) =
    Done (mkTransition (gp + left) msg left limit (set_statedb e (AddBalance (msg_from msg) (left * msg_gasPrice msg) (statedb e))),
          inr tt).
Proof.
  intros Hq Hg Hgp Hp Hr. cbv zeta.
  assert (0 ≤ (limit - g) / q ≤ limit - g) as Hd.
  { split; [apply Z.div_pos; lia|]. apply Z.div_le_upper_bound; [lia|]. nia. }
  assert (0 ≤ refunded q (limit - g) (GetRefund (statedb e)) ≤ limit - g) as Hb by (unfold refunded; lia).
  split; [lia|]. unfold refundGas, on_state, mbind, Tx_bind, gasUsed. cbn. rewrite (wrapU_small 64 (limit - g)) by lia.
  assert ((if GetRefund (statedb e) <? (limit - g) / q then GetRefund (statedb e) else (limit - g) / q)
    = refunded q (limit - g) (GetRefund (statedb e))) as ->.
  { unfold refunded. destruct (Z.ltb_spec (GetRefund (statedb e)) ((limit - g) / q)); lia. }
  rewrite (wrapU_small 64 (g + _)) by lia. unfold AddGas, MaxUint64.
  destruct (Z.ltb_spec (2 ^ 64 - 1 - (g + refunded q (limit - g) (GetRefund (statedb e)))) gp); [lia|]. cbn.
  by rewrite wrapU_small by lia.
Qed.

(** ** After the checks *)

Lemma add_data_range gas price n g : 0 ≤ gas → add_data_gas gas price n = inr g → 0 ≤ g.
Proof.
  intros Hg. unfold add_data_gas. destruct (_ <? _); [done|]. intros [= <-].
  pose proof (wrapU_range 64 (gas + n * price) ltac:(done)). lia.
Qed.

Lemma IntrinsicGas_range data al c h i g : IntrinsicGas data al c h i = inr g → 0 ≤ g.
Proof.
  unfold IntrinsicGas. destruct (if 0 <? len data then _ else _) as [err|g0]; [done|]. cbv zeta. intros [= <-].
  match goal with |- 0 ≤ wrapU 64 ?x => pose proof (wrapU_range 64 x ltac:(done)) end. lia.
Qed.

Definition refund_quotient (r : Rules) : Z := if IsLondon r then RefundQuotientEIP3529 else RefundQuotient.

Definition effective_tip (e : EVM S) (msg : Message) : Z :=
  if IsLondon (chainRules e) then Z.min (msg_gasTipCap msg) (msg_gasFeeCap msg - BaseFee (Context e)) else msg_gasPrice msg.

(** How a message that was bought at [e] with the pool [gp] is settled: [used] is
    what the call and the intrinsic gas took, [s1] the state after the call. *)
Record settled (e : EVM S) (msg : Message) (gp : Z) (st : T) (res : ExecutionResult) : Prop := {
  settled_pool : st_gp st = gp - UsedGas res;
  settled_stack : CallStack (st_evm st) = [];
  settled_recorded : recorded msg e (st_evm st);
  settled_context : same_ctx e (st_evm st);
  settled_state : ∃ intrinsic used s1,
    IntrinsicGas (msg_data msg) (msg_accessList msg) (bool_decide (msg_to msg = None)) (IsHomestead (chainRules e))
      (IsIstanbul (chainRules e)) = inr intrinsic ∧
    intrinsic ≤ used ≤ msg_gasLimit msg ∧
    UsedGas res = used - refunded (refund_quotient (chainRules e)) used (GetRefund s1) ∧
    changes (SubBalance (msg_from msg) (msg_gasLimit msg * msg_gasPrice msg) (statedb e)) s1 ∧
    statedb (st_evm st) =
      AddBalance (Coinbase (Context e)) (UsedGas res * effective_tip e msg)
        (AddBalance (msg_from msg) ((msg_gasLimit msg - UsedGas res) * msg_gasPrice msg) s1)
}.

(** The errors after the gas was bought. *)
Definition late_error (err : CoreError) : Prop :=
  err = ErrGasUintOverflow ∨ err = ErrIntrinsicGas ∨ err = ErrInsufficientFundsForTransfer.

Definition intrinsic_gas (e : EVM S) (msg : Message) : CoreError + Z :=
  IntrinsicGas (msg_data msg) (msg_accessList msg) (bool_decide (msg_to msg = None)) (IsHomestead (chainRules e))
    (IsIstanbul (chainRules e)).

(** Why a message is refused at [e] with the pool [gp]: by a check of the sender, the
    fees, the funds or the pool, or, after its gas was bought, by its intrinsic gas or
    the amount it transfers. *)
Definition refusal_reason (e : EVM S) (msg : Message) (gp : Z) (err : CoreError) : Prop :=
  let s := statedb e in
  let from := msg_from msg in
  match err with
  | ErrNonceTooHigh => GetNonce s from < msg_nonce msg
  | ErrNonceTooLow => msg_nonce msg < GetNonce s from
  | ErrNonceMax => wrapU 64 (GetNonce s from + 1) < GetNonce s from
  | ErrSenderNoEOA => GetCodeHash s from ≠ emptyCodeHash ∧ GetCodeHash s from ≠ 0
  | ErrFeeCapVeryHigh => 256 < big_BitLen (msg_gasFeeCap msg)
  | ErrTipVeryHigh => 256 < big_BitLen (msg_gasTipCap msg)
  | ErrTipAboveFeeCap => msg_gasFeeCap msg < msg_gasTipCap msg
  | ErrFeeCapTooLow => msg_gasFeeCap msg < BaseFee (Context e)
  | ErrInsufficientFunds => GetBalance s from < msg_gasLimit msg * msg_gasFeeCap msg + msg_amount msg
  | ErrGasLimitReached => gp < msg_gasLimit msg
  | ErrGasUintOverflow => intrinsic_gas e msg = inl ErrGasUintOverflow
  | ErrIntrinsicGas => ∃ gas, intrinsic_gas e msg = inr gas ∧ msg_gasLimit msg < gas
  | ErrInsufficientFundsForTransfer =>
      0 < msg_amount msg ∧ CanTransfer (SubBalance from (msg_gasLimit msg * msg_gasPrice msg) s) from (msg_amount msg) = false
  | ErrCallStackLength _ => False
  end.

Definition late_reason (e : EVM S) (msg : Message) (gp : Z) (err : CoreError) : Prop :=
  late_error err ∧ refusal_reason e msg gp err.

Lemma IntrinsicGas_error data al c h i err : IntrinsicGas data al c h i = inl err → err = ErrGasUintOverflow.
Proof.
  unfold IntrinsicGas, add_data_gas. destruct (0 <? len data); [|done]. cbv zeta.
  destruct (_ <? non_zero data); [by intros [= <-]|]. destruct (_ <? _); [by intros [= <-]|done].
Qed.

Context `{!RefundLaws S}.

(** The end of a transition, in the state the call left. *)
Lemma settle_spec e e3 msg gp intrinsic left ret err :
  0 ≤ gp < 2 ^ 64 → 0 ≤ msg_gasLimit msg ≤ gp →
  IntrinsicGas (msg_data msg) (msg_accessList msg) (bool_decide (msg_to msg = None)) (IsHomestead (chainRules e))
    (IsIstanbul (chainRules e)) = inr intrinsic →
  0 ≤ left ≤ msg_gasLimit msg - intrinsic ∧ 0 ≤ intrinsic →
  CallStack e3 = [] → recorded msg e e3 → same_ctx e e3 →
  changes (SubBalance (msg_from msg) (msg_gasLimit msg * msg_gasPrice msg) (statedb e)) (statedb e3) →
  refund_ok (statedb e3) →
  outcome (λ st r, match r with
                   | inl _ => False
                   | inr res => settled e msg gp st res
                   end)
    ((_ ← refundGas (refund_quotient (chainRules e));
      used ← st_get gasUsed;
      _ ← on_state (AddBalance (Coinbase (Context e)) (used * effective_tip e msg));
      pending ← st_get (λ st, CallStack (st_evm st));
      _ ← fail_if (0 <? Z.of_nat (length pending)) (ErrCallStackLength (Z.of_nat (length pending)));
      mret (mkResult used err ret)) (mkTransition (gp - msg_gasLimit msg) msg left (msg_gasLimit msg) e3)).
Proof.
  intros Hgp Hg Ei [Hl Hi] Hst Hrec Hx Hch Hok. set (limit := msg_gasLimit msg) in *.
  pose proof (refund_range _ Hok) as Hrange.
  destruct (refundGas_spec (refund_quotient (chainRules e)) e3 (gp - limit) msg left limit) as [Hb E];
    [unfold refund_quotient; by destruct (IsLondon _)|lia|lia|lia|lia|].
  apply outcome_bind. rewrite E. cbn [outcome]. set (left' := left + _) in *.
  apply outcome_get. unfold gasUsed. cbn [st_initialGas st_gas]. rewrite wrapU_small by lia.
  apply outcome_bind. unfold on_state, mbind, Tx_bind. cbn. rewrite Hst. cbn.
  split; cbn; [lia|exact Hst|exact Hrec|exact Hx|]. exists intrinsic, (limit - left), (statedb e3).
  split_and!; [exact Ei|lia|lia|unfold left'; lia|exact Hch|].
  fold limit. by replace (limit - (limit - left')) with left' by lia.
Qed.

Lemma transition_spec e msg gp :
  fresh e → refund_ok (statedb e) → 0 ≤ gp < 2 ^ 64 → 0 ≤ msg_gasLimit msg ≤ gp →
  outcome (λ st r, match r with
                   | inl err => late_reason e msg gp err ∧ st_gp st = gp - msg_gasLimit msg ∧
                       st_evm st = set_statedb e (SubBalance (msg_from msg) (msg_gasLimit msg * msg_gasPrice msg) (statedb e))
                   | inr res => settled e msg gp st res
                   end) (transition levels (bought e msg gp)).
Proof.
  intros Hf Hok Hgp Hg. set (s0 := SubBalance _ _ _). unfold bought. fold s0. set (limit := msg_gasLimit msg) in *.
  assert (refund_ok s0) as Hok0 by (eapply refund_changes; [exact Hok|apply chg_sub]).
  unfold transition. do 2 (apply outcome_bind; cbn [outcome st_get st_msg st_evm]). cbn [chainRules set_statedb statedb].
  apply outcome_bind. destruct (IntrinsicGas _ _ _ _ _) as [err|intrinsic] eqn:Ei.
  { cbn. split; [|done]. pose proof (IntrinsicGas_error _ _ _ _ _ _ Ei) as ->. split; [by left|exact Ei]. }
  pose proof (IntrinsicGas_range _ _ _ _ _ _ Ei) as Hi. cbn [of_error mret Tx_ret outcome].
  apply outcome_bind. cbn [outcome st_get st_gas]. apply outcome_bind. unfold fail_if at 1.
  destruct (Z.ltb_spec limit intrinsic);
    [cbn; split; [split; [unfold late_error; auto|by exists intrinsic]|done]|]. cbn [mret Tx_ret outcome].
  apply outcome_bind. cbn [outcome put_gas st_gp st_msg st_initialGas st_evm]. rewrite wrapU_small by lia.
  apply outcome_bind. unfold fail_if at 1.
  destruct (_ && _) eqn:Et; [cbn; split; [split; [unfold late_error; auto|]|done]|].
  { apply andb_true_iff in Et as [Ha%Z.ltb_lt Hc%negb_true_iff]. split; [exact Ha|exact Hc]. }
  cbn [mret Tx_ret outcome].
  apply outcome_bind. set (e1 := set_statedb e s0).
  assert (∃ e2, fresh e2 ∧ refund_ok (statedb e2) ∧ same_ctx e e2 ∧ ExTx e2 = ExTx e ∧
    changes s0 (statedb e2) ∧
    (if IsBerlin (chainRules e) then
       on_state (PrepareAccessList (msg_from msg) (msg_to msg) (ActivePrecompiles (chainRules e)) (msg_accessList msg))
     else mret tt) (mkTransition (gp - limit) msg (limit - intrinsic) limit e1) =
    Done (mkTransition (gp - limit) msg (limit - intrinsic) limit e2, inr tt)) as (e2 & Hf2 & Hok2 & Hx & Htx & Hch & ->).
  { destruct (IsBerlin (chainRules e)).
    - eexists (set_statedb e1 _). split; [exact Hf|]. pose proof (PrepareAccessList_changes (msg_from msg) (msg_to msg)
        (ActivePrecompiles (chainRules e)) (msg_accessList msg) s0) as Hp.
      split; [eapply refund_changes; [exact Hok0|exact Hp]|]. split; [done|]. split; [done|]. split; [exact Hp|reflexivity].
    - exists e1. split; [exact Hf|]. split; [exact Hok0|]. split; [done|]. split; [done|]. split; [constructor|done]. }
  cbn [outcome]. apply outcome_bind.
  assert (0 ≤ limit - intrinsic < 2 ^ 64) as Hl by lia.
  pose proof (run_message_spec e2 (gp - limit) msg (limit - intrinsic) limit Hf2 Hl) as Hrun.
  destruct (run_message _ _) as [[st r]|p|]; [|done|done]. cbn [outcome] in Hrun |- *.
  destruct Hrun as (e3 & left & ret & err & -> & -> & [Hle Hrec Hch3 Hst Hx3]).
  assert (same_ctx e e3) as Hx' by (unfold same_ctx in *; intuition congruence).
  assert (0 ≤ left ≤ limit - intrinsic ∧ 0 ≤ intrinsic) as Hb by lia.
  assert (recorded msg e e3) as Hrec' by (unfold recorded in *; by rewrite <- Htx).
  eapply outcome_impl; [|exact (settle_spec e e3 msg gp intrinsic left ret err Hgp Hg Ei Hb Hst Hrec' Hx'
    (chg_trans _ _ _ Hch Hch3) (refund_changes _ _ Hok2 Hch3))].
  intros st' [err'|res]; [done|auto].
Qed.
End transition.



Section transition.
Context {S : Type} `{StateDB S} `{!RefundLaws S} `{U : Uint256} `{!Uint256Range U} `{X : Externals} `{!ExternalsRange X}.

(** After checks that only look and buy the gas. *)
Lemma checked_settles levels (e : EVM S) msg gp (checks : Tx (S := S) ()) :
  CallCreateDepth < Z.of_nat levels → fresh e → refund_ok (statedb e) →
  0 ≤ gp < 2 ^ 64 → 0 ≤ msg_gasLimit msg < 2 ^ 64 →
  outcome (λ st r, match r with
                   | inl _ => st = NewStateTransition e msg gp
                   | inr _ => st = bought e msg gp ∧ msg_gasLimit msg ≤ gp
                   end) (checks (NewStateTransition e msg gp)) →
  outcome (λ st r, match r with
                   | inl err => st = NewStateTransition e msg gp ∨
                       late_error err ∧ msg_gasLimit msg ≤ gp ∧ st_gp st = gp - msg_gasLimit msg ∧
                       st_evm st = set_statedb e (SubBalance (msg_from msg) (msg_gasLimit msg * msg_gasPrice msg) (statedb e))
                   | inr res => msg_gasLimit msg ≤ gp ∧ settled e msg gp st res
                   end) ((_ ← checks; transition levels) (NewStateTransition e msg gp)).
Proof.
  intros Hl Hf Hok Hgp Hg Hc. apply outcome_bind. destruct (checks _) as [[st [err|[]]]|p|]; [by left| |done|done].
  destruct Hc as [-> Hle]. pose proof (transition_spec levels Hl e msg gp Hf Hok Hgp (conj (proj1 Hg) Hle)) as Ht.
  cbn [outcome]. destruct (transition _ _) as [[st [err|res]]|p|]; [right|by split|done|done].
  destruct Ht as [[? _] [? ?]]. by split_and!.
Qed.

(** *** Why a message is refused *)
Section refuses.
Context (NoBaseFee : bool) (e : EVM S) (msg : Message) (gp : Z).
#[local] Abbreviation start := (NewStateTransition e msg gp).

(** The errors of [m] have their reason. *)
Definition refuses {A} (m : Tx (S := S) A) : Prop :=
  ∀ st err, m start = Done (st, inl err) → refusal_reason e msg gp err.

Lemma refuses_bind (m k : Tx (S := S) ()) : looks m → refuses m → refuses k → refuses (_ ← m; k).
Proof.
  intros Hl Hm Hk st err. unfold mbind, Tx_bind. destruct (Hl start) as [[err' E]|E]; rewrite E.
  - intros [= <- <-]. by eapply Hm.
  - apply Hk.
Qed.
Lemma refuses_get {A B} (f : StateTransition S → A) (k : A → Tx B) : refuses (k (f start)) → refuses (st_get f ≫= k).
Proof. done. Qed.
Lemma refuses_if b err : (b = true → refusal_reason e msg gp err) → refuses (fail_if b err).
Proof. intros Hb st err'. destruct b; [|done]. intros [= _ <-]. auto. Qed.
Lemma refuses_ret : refuses (mret tt : Tx ()).
Proof. by intros st err. Qed.

Lemma check_nonce_refuses : refuses check_nonce.
Proof.
  do 2 apply refuses_get. do 2 (apply refuses_bind; [apply looks_if|apply refuses_if; exact (proj1 (Z.ltb_lt _ _))|]).
  apply refuses_if. exact (proj1 (Z.ltb_lt _ _)).
Qed.

Lemma check_sender_refuses : refuses check_sender.
Proof.
  do 2 apply refuses_get. apply refuses_if. rewrite andb_true_iff, !negb_true_iff, !Z.eqb_neq. done.
Qed.

Lemma check_fees_refuses : refuses (check_fees NoBaseFee).
Proof.
  do 2 apply refuses_get. destruct (IsLondon _); [|apply refuses_ret]. destruct (_ || _); [|apply refuses_ret].
  do 3 (apply refuses_bind; [apply looks_if|apply refuses_if; exact (proj1 (Z.ltb_lt _ _))|]).
  apply refuses_if. exact (proj1 (Z.ltb_lt _ _)).
Qed.

Lemma buyGas_refuses : refuses buyGas.
Proof.
  intros st err. unfold buyGas, mbind, Tx_bind, fail_if. cbn. destruct (_ <? _) eqn:Eb.
  - intros [= _ <-]. by apply Z.ltb_lt.
  - cbn. unfold SubGas. destruct (gp <? msg_gasLimit msg) eqn:Eg; cbn; [|done]. intros [= _ <-]. by apply Z.ltb_lt.
Qed.

Lemma preCheck_refuses : refuses (preCheck NoBaseFee).
Proof.
  apply refuses_get. cbn [st_msg NewStateTransition]. apply refuses_bind.
  - destruct (msg_isFake msg); [apply looks_ret|]. apply looks_bind; [apply check_nonce_looks|apply check_sender_looks].
  - destruct (msg_isFake msg); [apply refuses_ret|].
    apply refuses_bind; [apply check_nonce_looks|apply check_nonce_refuses|apply check_sender_refuses].
  - apply refuses_bind; [apply check_fees_looks|apply check_fees_refuses|apply buyGas_refuses].
Qed.
End refuses.

(** A message that is not applied has a reason not to be. *)
Lemma ApplyMessage_refused NoBaseFee levels (e : EVM S) msg gp st err :
  CallCreateDepth < Z.of_nat levels → fresh e → refund_ok (statedb e) →
  0 ≤ gp < 2 ^ 64 → 0 ≤ msg_gasLimit msg < 2 ^ 64 →
  ApplyMessage NoBaseFee levels e msg gp = Done (st, inl err) → refusal_reason e msg gp err.
Proof.
  intros Hl Hf Hok Hgp Hg. unfold ApplyMessage, TransitionDb, mbind, Tx_bind.
  destruct (preCheck_spec NoBaseFee e msg gp Hgp Hg) as [Hc _].
  pose proof (preCheck_refuses NoBaseFee e msg gp) as Hr.
  destruct (preCheck _ _) as [[st1 [err1|[]]]|p|] eqn:Ep; [|cbn in Hc|done|done].
  - intros [= _ <-]. by eapply Hr.
  - destruct Hc as [-> Hle]. intros Et.
    pose proof (transition_spec levels Hl e msg gp Hf Hok Hgp (conj (proj1 Hg) Hle)) as Ht. rewrite Et in Ht. apply Ht.
Qed.

(** C38: applying a message ends, at every gas limit and whatever it runs, with
    or without the check of the nonce.  If it is refused by a check, nothing
    happened; if it is refused later, its gas stays paid and taken from the pool.
    If it is applied, the gas used is at least the intrinsic gas less the refund,
    which is at most a half (from London on a fifth) of what was used and at most
    the counter; exactly it left the pool, exactly its price left the sender, the
    coinbase got it at the effective tip, the recorder made at most one root, a
    node of the message, and no call is pending: the error about
    the length of the call stack is never returned. *)
Theorem ApplyMessage_settles NoBaseFee levels (e : EVM S) msg gp apply :
  apply = ApplyMessage NoBaseFee levels ∨ apply = ApplyMessageTest NoBaseFee levels →
  CallCreateDepth < Z.of_nat levels → fresh e → refund_ok (statedb e) →
  0 ≤ gp < 2 ^ 64 → 0 ≤ msg_gasLimit msg < 2 ^ 64 →
  outcome (λ st r,
    match r with
    | inl err =>
        st = NewStateTransition e msg gp ∨
        late_error err ∧ msg_gasLimit msg ≤ gp ∧ st_gp st = gp - msg_gasLimit msg ∧
        st_evm st = set_statedb e (SubBalance (msg_from msg) (msg_gasLimit msg * msg_gasPrice msg) (statedb e))
    | inr res => msg_gasLimit msg ≤ gp ∧ settled e msg gp st res
    end) (apply e msg gp).
Proof.
  intros Ha Hl Hf Hok Hgp Hg. destruct (preCheck_spec NoBaseFee e msg gp Hgp Hg) as [H1 H2].
  destruct Ha as [-> | ->]; by apply checked_settles.
Qed.

(** The variant without the nonce is the other one where the nonce would pass. *)
Lemma ApplyMessageTest_same NoBaseFee levels (e : EVM S) msg gp :
  msg_isFake msg = true ∨ GetNonce (statedb e) (msg_from msg) = msg_nonce msg ∧ 0 ≤ msg_nonce msg < 2 ^ 64 - 1 →
  ApplyMessageTest NoBaseFee levels e msg gp = ApplyMessage NoBaseFee levels e msg gp.
Proof.
  intros Hn. unfold ApplyMessageTest, ApplyMessage, TransitionDbTest, TransitionDb.
  assert (preCheckSu NoBaseFee (NewStateTransition e msg gp) = preCheck NoBaseFee (NewStateTransition e msg gp)) as Hp.
  { unfold preCheckSu, preCheck, mbind, Tx_bind. cbn [st_get NewStateTransition st_msg].
    destruct (msg_isFake msg) eqn:Ef; [done|]. destruct Hn as [?|[Hn Hr]]; [done|].
    assert (check_nonce (NewStateTransition e msg gp) = Done (NewStateTransition e msg gp, inr tt)) as ->; [|done].
    unfold check_nonce, mbind, Tx_bind, fail_if. cbn. rewrite Hn, Z.ltb_irrefl. cbn. rewrite wrapU_small by lia.
    by destruct (Z.ltb_spec (msg_nonce msg + 1) (msg_nonce msg)); [lia|]. }
  unfold mbind, Tx_bind. by rewrite Hp.
Qed.
End transition.

(** ** An example: a call of the demo account *)

Definition tx_evm (m : Spec) : EVM Spec :=
  let e := mk_evm [] [] in
  {| Context := Context e; TxCtx := TxCtx e; statedb := m; depth := depth e; chainRules := chainRules e;
     abort := abort e; callGasTemp := callGasTemp e; CallStack := []; ExTx := ExTx e;
     readOnly := readOnly e; returnData := returnData e; jumpmaps := jumpmaps e; block_hashes := block_hashes e; hashes_asked := hashes_asked e |}.

Definition demo_msg : Message := NewMessage sender_addr (Some 10) 0 0 50000 0 0 0 [] [] true.
Definition demo_spec : Spec := mkSpec (abs (New demo_trie)) [] 0.
Definition demo_apply := ApplyMessage false 1025 (tx_evm demo_spec) demo_msg 100000.

Definition gas_of (m : Res (StateTransition Spec * (CoreError + ExecutionResult))) : option Z :=
  match m with Done (_, inr res) => Some (UsedGas res) | _ => None end.

Lemma demo_gas : gas_of demo_apply = Some 21003.
Proof. vm_compute. reflexivity. Qed.

Lemma applied m g : gas_of m = Some g → ∃ st res, m = Done (st, inr res) ∧ UsedGas res = g.
Proof. destruct m as [[st [err|res]]|p|]; cbn; [done| |done|done]. intros [= <-]. by exists st, res. Qed.

Lemma demo_refund : refund_ok (statedb (tx_evm demo_spec)).
Proof. split; [split; [discriminate|reflexivity]|constructor]. Qed.

Lemma ApplyMessage_settles_witness :
  ∃ st res, demo_apply = Done (st, inr res) ∧ UsedGas res = 21003 ∧ st_gp st = 100000 - 21003 ∧
    CallStack (st_evm st) = [].
Proof.
  destruct (applied _ _ demo_gas) as (st & res & E & Hu). exists st, res. split; [exact E|]. split; [exact Hu|].
  assert (CallCreateDepth < Z.of_nat 1025) as Hl by reflexivity.
  pose proof (ApplyMessage_settles false 1025 (tx_evm demo_spec) demo_msg 100000 _ (or_introl eq_refl) Hl
    (conj eq_refl (conj eq_refl (λ _, eq_refl))) demo_refund ltac:(split; [discriminate|reflexivity])
    ltac:(split; [discriminate|reflexivity])) as Hs.
  fold demo_apply in Hs. rewrite E in Hs. destruct Hs as [_ [Hp Hc _ _ _]].
  split; [rewrite Hp, Hu; reflexivity|exact Hc].
Defined.
