(* ===== verification/CommitFacts.v ===== *)
(** * Committing objects that were made in memory

    The storage and the accounts are written to tries; what an object answers
    stays the same. *)

From Stdlib Require Import FunctionalExtensionality.
From S2P Require Import Prelude Common Uint256 Machine VmFacts Vm Rlp RlpFacts RlpDecode RlpStreamFacts RlpDecodeFacts RlpRoundTrip State Statedb StateTx StateView StateUndo StateOps StateSim StateTxFacts OffTheChainFacts.

(** ** Encodings *)

Lemma TrimLeftZeroes_le b : (length (TrimLeftZeroes b) ≤ length b)%nat.
Proof. induction b as [|x b IH]; [done|]. cbn. destruct (x =? 0); cbn; lia. Qed.
Lemma TrimLeftZeroes_bytes b : Forall is_byte b → Forall is_byte (TrimLeftZeroes b).
Proof. induction 1 as [|x b Hx Hb IH]; [done|]. cbn. destruct (x =? 0); [done|by constructor]. Qed.

Lemma hash_bytes_of h : length (Hash_Bytes h) = 32%nat ∧ Forall is_byte (Hash_Bytes h).
Proof. split; [apply to_be_length|apply to_be_bytes]. Qed.

Lemma encode_slot v :
  ∃ enc, EncodeToBytes (VBytes (TrimLeftZeroes (Hash_Bytes v))) = Ret (inr enc) ∧ Forall is_byte enc ∧ len enc < 2 ^ 64.
Proof.
  pose proof (hash_bytes_of v) as [Hl Hb]. pose proof (TrimLeftZeroes_le (Hash_Bytes v)) as Hle.
  pose proof (TrimLeftZeroes_bytes _ Hb) as Hb'.
  assert (len (TrimLeftZeroes (Hash_Bytes v)) ≤ 32) as Hlen by (unfold len; lia).
  assert (len (rlp_string (TrimLeftZeroes (Hash_Bytes v))) < 2 ^ 64) as H64.
  { pose proof (len_rlp_string_le (TrimLeftZeroes (Hash_Bytes v)) ltac:(lia)). lia. }
  exists (rlp_string (TrimLeftZeroes (Hash_Bytes v))). split; [|split; [by apply rlp_string_bytes|done]].
  by apply (EncodeToBytes_rlp (VBytes _)).
Qed.

Lemma Hash_Bytes_inj k k' : hash_ok k → hash_ok k' → Hash_Bytes k = Hash_Bytes k' → k = k'.
Proof.
  intros Hk Hk' He. apply (f_equal be_val) in He. unfold Hash_Bytes in He. rewrite !be_val_to_be in He.
  unfold hash_ok in *. change (256 ^ Z.of_nat HashLength) with (2 ^ 256) in He. rewrite !Z.mod_small in He by lia. done.
Qed.
Lemma Address_Bytes_inj a a' : address_ok a → address_ok a' → Address_Bytes a = Address_Bytes a' → a = a'.
Proof.
  intros Ha Ha' He. apply (f_equal be_val) in He. unfold Address_Bytes in He. rewrite !be_val_to_be in He.
  unfold address_ok in *. change (256 ^ Z.of_nat AddressLength) with (2 ^ 160) in He. rewrite !Z.mod_small in He by lia. done.
Qed.

Section facts.
Context `{HD : DatabaseLaws} `{!MemoryDatabase}.

(** ** Storage *)

(** The value of a slot below the pending writes, with the trie apart. *)
Definition tv (t : Trie) (k : Hash) : Hash :=
  match TryGet t (Hash_Bytes k) with
  | inl _ => 0
  | inr enc => match slot_value enc with Ret (v, _) => v | Panic _ => 0 end
  end.

Lemma tv_empty t k : TryGet t (Hash_Bytes k) = inr [] → tv t k = 0.
Proof. intros He. unfold tv. by rewrite He. Qed.

(** Everything of an object but its cached slots and its error. *)
Record slots_written (o o' : stateObject) : Prop := {
  sw_pending : pendingStorage o' = pendingStorage o;
  sw_dirty : dirtyStorage o' = dirtyStorage o;
  sw_data : so_data o' = so_data o;
  sw_code : so_code o' = so_code o;
  sw_address : so_address o' = so_address o ∧ so_addrHash o' = so_addrHash o;
  sw_dbErr : so_dbErr o' = so_dbErr o;
  sw_fake : fakeStorage o' = fakeStorage o;
  sw_live : suicided o' = suicided o ∧ deleted o' = deleted o;
  sw_trie : so_trie o' = so_trie o
}.

Lemma slots_written_trans o1 o2 o3 : slots_written o1 o2 → slots_written o2 o3 → slots_written o1 o3.
Proof. intros [? ? ? ? [? ?] ? ? [? ?] ?] [? ? ? ? [? ?] ? ? [? ?] ?]. split; [..|split| | |split|]; congruence. Qed.

Definition slot_of (o : stateObject) (t : Trie) (k : Hash) : Hash := default (tv t k) (originStorage o !! k).

Lemma update_slot_spec key value o t :
  hash_ok key → (originStorage o !! key = None → tv t key = 0) →
  ∃ o' t', update_slot key value o t = Ret (o', t') ∧ slots_written o o' ∧
    ∀ k, hash_ok k → slot_of o' t' k = (if decide (k = key) then value else slot_of o t k) ∧
      (originStorage o' !! k = None → k ≠ key → originStorage o !! k = None) ∧
      (k ≠ key → tv t' k = tv t k).
Proof.
  intros Hk Ht. unfold update_slot. destruct (Z.eqb_spec value (default 0 (originStorage o !! key))) as [Hv|Hv].
  - exists o, t. split; [done|]. split; [by split|]. intros k Hk'. split; [|done]. case_decide as Hkk; [|done]. subst k.
    unfold slot_of. destruct (originStorage o !! key); [done|]. cbn in Hv |- *. by rewrite Ht.
  - set (o1 := set_storage _ _ _ o).
    assert (∀ t', (∀ k, hash_ok k → k ≠ key → tv t' k = tv t k) →
      ∀ k, hash_ok k → slot_of o1 t' k = (if decide (k = key) then value else slot_of o t k) ∧
        (originStorage o1 !! k = None → k ≠ key → originStorage o !! k = None) ∧ (k ≠ key → tv t' k = tv t k)) as Hspec.
    { intros t' Htv k Hk'. unfold slot_of, o1. cbn. split; [|split; [|auto]].
      - case_decide as Hkk; [subst; by rewrite lookup_insert, decide_True|]. rewrite lookup_insert_ne, Htv by congruence. done.
      - intros Ho Hne. by rewrite lookup_insert_ne in Ho by congruence. }
    destruct (Z.eqb_spec value 0) as [->|Hv0].
    + destruct (delete_ok t (Hash_Bytes key)) as (t' & -> & Hg). exists o1, t'. split; [done|]. split; [by split|].
      apply Hspec. intros k Hk' Hne. unfold tv. rewrite Hg, decide_False; [done|]. intros He. by apply Hne, Hash_Bytes_inj.
    + destruct (encode_slot value) as (enc & -> & Hb & Hl). cbn [mbind Go_bind].
      destruct (update_ok t (Hash_Bytes key) enc Hb Hl) as (t' & -> & Hg). exists o1, t'. split; [done|]. split; [by split|].
      apply Hspec. intros k Hk' Hne. unfold tv. rewrite Hg, decide_False; [done|]. intros He. by apply Hne, Hash_Bytes_inj.
Qed.

Lemma update_slots_spec l o t :
  NoDup (fst <$> l) → Forall (λ p, hash_ok (fst p)) l → (∀ k, k ∈ fst <$> l → originStorage o !! k = None → tv t k = 0) →
  ∃ o' t', update_slots l o t = Ret (o', t') ∧ slots_written o o' ∧
    ∀ k, hash_ok k → slot_of o' t' k = match list_to_map (M := gmap Hash Hash) l !! k with Some v => v | None => slot_of o t k end.
Proof.
  revert o t. induction l as [|[key value] l IH]; intros o t Hnd Hl Ht.
  - exists o, t. split; [done|]. split; [by split|]. done.
  - cbn in Hnd. apply NoDup_cons in Hnd as [Hkey Hnd]. apply Forall_cons in Hl as [Hk Hl].
    destruct (update_slot_spec key value o t Hk) as (o1 & t1 & He1 & Hw1 & Hs1); [apply Ht; by left|].
    cbn [update_slots]. rewrite He1. cbn [mbind Go_bind].
    destruct (IH o1 t1 Hnd Hl) as (o2 & t2 & He2 & Hw2 & Hs2).
    { intros k Hin Ho. assert (hash_ok k) as Hkk.
      { apply list_elem_of_fmap in Hin as (p & -> & Hp). rewrite Forall_forall in Hl. by apply Hl. }
      assert (k ≠ key) as Hne by by intros ->. destruct (Hs1 k Hkk) as (_ & Ho1 & Htv). rewrite Htv by done. apply Ht; [by right|auto]. }
    exists o2, t2. split; [done|]. split; [by eapply slots_written_trans|]. intros k Hkk. rewrite Hs2 by done. cbn.
    destruct (Hs1 k Hkk) as (-> & _ & _). destruct (decide (k = key)) as [->|Hne].
    + rewrite lookup_insert, decide_True by done. by rewrite not_elem_of_list_to_map_1.
    + by rewrite lookup_insert_ne by congruence.
Qed.

(** ** The root of an object *)

(** An object with nothing to write, and the value of its slots. *)
Record stored (D : StateAccount) (C : option bytes) (m : Hash → Hash) (a : Address) (o : stateObject) : Prop := {
  sd_data : Nonce (so_data o) = Nonce D ∧ Balance (so_data o) = Balance D ∧ CodeHash (so_data o) = CodeHash D;
  sd_code : so_code o = C;
  sd_wf : obj_wf a o;
  sd_pending : pendingStorage o = ∅;
  sd_dirty : dirtyStorage o = ∅;
  sd_dbErr : so_dbErr o = None;
  sd_live : suicided o = false ∧ deleted o = false;
  sd_slots : ∀ k, hash_ok k → base_value o k = m k
}.

Lemma stored_value D C m a o k : stored D C m a o → hash_ok k → state_value o k = m k ∧ committed_value o k = m k.
Proof.
  intros [_ _ [_ _ Hf _] Hp Hd _ _ Hs] Hk. assert (committed_value o k = m k) as Hc.
  { rewrite committed_base by done. rewrite Hp, lookup_empty. cbn. by apply Hs. }
  split; [|done]. unfold state_value. by rewrite Hd, lookup_empty.
Qed.

Lemma base_value_trie o t k : so_trie o = Some t → base_value o k = slot_of o t k.
Proof. intros Ht. unfold base_value, slot_of, trie_value, getTrie. rewrite Ht. done. Qed.

Lemma base_value_none o k :
  so_trie o = None → Root (so_data o) = emptyRoot → base_value o k = default 0 (originStorage o !! k).
Proof.
  intros Ht Hr. unfold base_value, trie_value, getTrie. rewrite Ht, Hr. destruct (empty_storage (so_addrHash o)) as (t & -> & Hg).
  cbn [snd]. by rewrite Hg.
Qed.

Lemma origin_zero o k : fresh o → default 0 (originStorage o !! k) = 0.
Proof. intros Hfr. destruct (originStorage o !! k) as [v|] eqn:Ho; [|done]. by apply (fresh_origin _ Hfr k). Qed.

Lemma updateRoot_spec a o :
  fresh o → obj_wf a o → dirtyStorage o = ∅ →
  ∃ o', updateRoot o = Ret o' ∧ stored (so_data o) (so_code o) (λ k, default 0 (pendingStorage o !! k)) a o'.
Proof.
  intros Hfr [Hwa Hwh Hwf Hwc] Hd. unfold updateRoot, updateTrie.
  pose proof (fresh_finalise o Hfr) as Hf1. set (o1 := so_finalise o) in *.
  assert (pendingStorage o1 = pendingStorage o) as Hp1 by (unfold o1; cbn; by rewrite Hd, (left_id_L ∅ (∪))).
  case_decide as Hp.
  - cbn [mbind Go_bind]. rewrite Hp1 in Hp.
    assert (∀ k, base_value o1 k = 0) as Hb.
    { intros k. destruct (so_trie o1) as [t|] eqn:Et.
      - rewrite (base_value_trie o1 t k Et). unfold slot_of. destruct Hf1 as [Ht _ _ Ho _ _ _]. rewrite Et in Ht.
        rewrite (tv_empty t k (Ht _)). destruct (originStorage o1 !! k) eqn:Eo; [|done]. by apply (Ho k).
      - destruct Hf1 as [Ht _ _ Ho _ _ _]. rewrite Et in Ht. rewrite base_value_none by done.
        destruct (originStorage o1 !! k) eqn:Eo; [|done]. by apply (Ho k). }
    destruct (so_trie o1) as [t|] eqn:Et.
    + eexists. split; [done|]. split; cbn; try done; [by rewrite Hd, Hp, (left_id_L ∅ (∪))|apply Hfr|apply Hfr|].
      intros k _. rewrite Hp, lookup_empty. cbn. rewrite <- (Hb k), (base_value_trie o1 t k Et).
      by rewrite (base_value_trie _ t).
    + eexists. split; [done|]. split; try done; [by rewrite Hp1|apply Hf1|apply Hf1|].
      intros k _. by rewrite Hp, lookup_empty, Hb.
  - destruct (fresh_getTrie o1 Hf1) as [Hf2 Hg]. pose proof (getTrie_kept o1) as [Hd2 Hp2 Hda2 Hc2 [Ha2 Hh2]].
    destruct (getTrie o1) as [o2 t]. cbn [fst snd] in *.
    destruct (update_slots_spec (map_to_list (pendingStorage o2)) o2 t) as (o3 & t3 & He & [Wp Wd Wda Wc [Wa Wh] We Wf [Ws Wl] Wt] & Hs).
    { apply NoDup_fst_map_to_list. }
    { apply Forall_forall. intros [k v] Hin. apply elem_of_map_to_list in Hin. apply (fresh_keys _ Hf2). right. by eexists. }
    { intros k _ _. by apply tv_empty. }
    rewrite He. cbn [mbind Go_bind]. eexists. split; [done|]. split; cbn; try done; rewrite ?Wda, ?Wc, ?Wa, ?Wh, ?We, ?Wf, ?Wd, ?Ws, ?Wl, ?Hda2, ?Hc2, ?Hd2.
    + done.
    + done.
    + split; cbn; rewrite ?Wa, ?Wh, ?Wf, ?Wda, ?Ha2, ?Hh2, ?Hda2; try done. apply Hf2.
    + done.
    + apply Hf2.
    + apply Hf2.
    + intros k Hk. rewrite (base_value_trie _ t3) by done. change (slot_of _ t3 k) with (slot_of o3 t3 k). rewrite Hs by done.
      rewrite list_to_map_to_list, Hp2, Hp1. destruct (pendingStorage o !! k); [done|]. cbn. unfold slot_of.
      rewrite (tv_empty t k (Hg _)). by apply origin_zero.
Qed.

Lemma CommitTrie_spec D C m a o : stored D C m a o → ∃ o', CommitTrie o = Ret (o', None) ∧ stored D C m a o'.
Proof.
  intros [Hda Hc Hw Hp Hd He Hl Hs]. unfold CommitTrie, updateTrie.
  assert (stored D C m a (so_finalise o)) as Hst.
  { split; try done; [by destruct Hw|by cbn; rewrite Hd, Hp, (left_id_L ∅ (∪))|]. intros k Hk. rewrite so_finalise_base. by apply Hs. }
  destruct Hst as [Hda1 Hc1 Hw1 Hp1 Hd1 He1 Hl1 Hs1]. rewrite decide_True by done. cbn [mbind Go_bind].
  destruct (so_trie (so_finalise o)) as [t|] eqn:Et; [|by exists (so_finalise o)].
  rewrite He1. destruct (commit_ok t) as (root & t' & -> & Hg). eexists. split; [done|].
  split; try done; [by destruct Hw1|]. intros k Hk. rewrite (base_value_trie _ t') by done.
  rewrite <- (Hs1 k Hk), (base_value_trie _ t k Et). unfold slot_of, tv. by rewrite Hg.
Qed.
End facts.

(** * The state of a replay, complete

    [MakeOffTheChainStateDB] succeeds on every recording and answers with what
    was recorded. *)

(** ** What every object keeps *)

Section inv.
Context `{Externals, !Database}.
Context (P : Address → stateObject → Prop).

Definition all_objs (s : statedb) : Prop := ∀ a o, stateObjects s !! a = Some o → P a o.
Definition obj_inv {A} (m : DB A) : Prop := ∀ s x s', m s = Ret (x, s') → all_objs s → all_objs s'.
Definition closed {A} (f : stateObject → Go (stateObject * A)) : Prop := ∀ a o o' x, P a o → f o = Ret (o', x) → P a o'.

Lemma inv_same {A} (m : DB A) : (∀ s x s', m s = Ret (x, s') → stateObjects s' = stateObjects s) → obj_inv m.
Proof. intros Hm s x s' He Hall a o. rewrite (Hm s x s' He). apply Hall. Qed.
Lemma inv_ret {A} (a : A) : obj_inv (mret a).
Proof. by apply inv_same; intros s x s' [= _ <-]. Qed.
Lemma inv_get {A} (f : statedb → A) : obj_inv (db_get f).
Proof. by apply inv_same; intros s x s' [= _ <-]. Qed.
Lemma inv_modify f : (∀ s, stateObjects (f s) = stateObjects s) → obj_inv (db_modify f).
Proof. intros Hf. apply inv_same. intros s x s' [= _ <-]. apply Hf. Qed.
Lemma inv_bind {A B} (m : DB A) (k : A → DB B) : obj_inv m → (∀ a, obj_inv (k a)) → obj_inv (m ≫= k).
Proof. intros Hm Hk s x s' He Hall. apply db_bind_inv in He as (a & s1 & Hms & He). by apply (Hk a s1 x s' He), (Hm s a s1 Hms). Qed.

Lemma inv_on_object {A} a (f : stateObject → Go (stateObject * A)) : closed f → obj_inv (on_object a f).
Proof.
  intros Hf s x s' He Hall. unfold on_object in He. rewrite get_bind in He. destruct (stateObjects s !! a) as [o|] eqn:Ho; [|done].
  apply db_bind_inv in He as ([o' y] & s1 & Hg & He). unfold db_go in Hg. destruct (f o) as [[o1 y1]|] eqn:Hfo; [|done].
  injection Hg as <- <- <-. rewrite modify_bind in He. injection He as <- <-. intros b ob Hb. cbn in Hb.
  destruct (decide (b = a)) as [->|Hne].
  - rewrite lookup_insert, decide_True in Hb by done. injection Hb as <-. by eapply Hf; [apply Hall|].
  - rewrite lookup_insert_ne in Hb by congruence. by apply Hall.
Qed.

Lemma inv_each {A} (f : A → DB ()) l : (∀ x, obj_inv (f x)) → obj_inv (db_each f l).
Proof. intros Hf. induction l as [|x l IH]; [apply inv_ret|]. by apply inv_bind. Qed.

Lemma inv_read_slots a f keys st : (∀ k, closed (f k)) → obj_inv (read_slots a f keys st).
Proof.
  intros Hf. revert st. induction keys as [|k keys IH]; intros st; [apply inv_ret|].
  apply inv_bind; [by apply inv_on_object|]. done.
Qed.

Lemma inv_object_at {A} a (f : stateObject → A) : obj_inv (object_at a f).
Proof. apply inv_on_object. by intros b o o' x Ho [= <- _]. Qed.

Context (Hget : ∀ k, closed (so_GetState k)) (Hcommitted : ∀ k, closed (so_GetCommittedState k)).
Context (Hcode : closed (λ o, Ret (so_Code o))) (Hfin : ∀ a o, P a o → P a (so_finalise o)).
Context (Hlive : ∀ a o, P a o → suicided o = false).

Lemma inv_finalise_dirty a : obj_inv (finalise_dirty false a).
Proof.
  intros s x s' He Hall. unfold finalise_dirty in He. rewrite get_bind in He. destruct (stateObjects s !! a) as [o|] eqn:Ho.
  - rewrite (Hlive a o (Hall a o Ho)) in He. cbn [orb andb] in He. revert s x s' He Hall Ho.
    assert (obj_inv (_ ← (_ ← record_post a; update_object a so_finalise);
      db_modify (λ s, set_marks ({[a]} ∪ stateObjectsPending s) ({[a]} ∪ stateObjectsDirty s) s))) as Hinv.
    { apply inv_bind; [|intros _; by apply inv_modify]. apply inv_bind.
      - unfold record_post. apply inv_bind; [apply inv_object_at|intros n]. apply inv_bind; [apply inv_object_at|intros b].
        apply inv_bind; [by apply inv_on_object|intros c]. apply inv_bind; [apply inv_object_at|intros keys].
        apply inv_bind; [by apply inv_read_slots|intros st]. by apply inv_modify.
      - intros _. apply inv_on_object. intros b o' o'' y Hb [= <- _]. by apply Hfin. }
    intros s x s' He Hall _. by apply (Hinv s x s').
  - injection He as _ <-. exact Hall.
Qed.

Lemma inv_Finalise : obj_inv (Finalise false).
Proof.
  unfold Finalise. apply inv_bind; [apply inv_get|intros pre]. apply inv_bind.
  - apply inv_each. intros [a [sa|]]; cbn [record_storage]; [|by apply inv_modify].
    apply inv_bind; [apply inv_object_at|intros keys]. apply inv_bind; [by apply inv_read_slots|intros st].
    apply inv_bind; [by apply inv_modify|intros _; by apply inv_modify].
  - intros _. apply inv_bind; [apply inv_get|intros d]. apply inv_bind; [apply inv_each, inv_finalise_dirty|].
    intros _. apply inv_modify. intros s. by destruct (entries (jrnl s)).
Qed.
End inv.

(** ** Committing the recorded accounts *)

Record account_ok (a : Address) (sa : SubstateAccount) : Prop := {
  ok_address : address_ok a;
  ok_nonce : 0 ≤ sub_Nonce sa < 2 ^ 64;
  ok_balance : 0 ≤ sub_Balance sa < 2 ^ 256;
  ok_storage : storage_ok sa
}.

Section make.
Context `{HD : DatabaseLaws} `{!MemoryDatabase}.
Context (alloc : gmap Address SubstateAccount).
Context (Halloc : ∀ a sa, alloc !! a = Some sa → account_ok a sa).

Definition kept_object (a : Address) (o : stateObject) : Prop :=
  ∃ sa, alloc !! a = Some sa ∧ fresh o ∧ so_data o = recorded_data sa ∧ so_code o = code_slice (sub_Code sa).

Lemma kept_closed {A} (f : stateObject → Go (stateObject * A)) :
  (∀ o, fresh o → ∃ o' x, f o = Ret (o', x) ∧ fresh o' ∧ kept o o') → closed kept_object f.
Proof.
  intros Hf a o o' x (sa & Ha & Hfr & HD1 & HC) He. destruct (Hf o Hfr) as (o1 & y & He1 & Hfr1 & [_ _ Hda Hco _]).
  rewrite He in He1. injection He1 as <- <-. exists sa. split_and!; [done|done|congruence..].
Qed.

(** The object after the transaction that made it. *)
Definition pending_object (a : Address) (sa : SubstateAccount) (o : stateObject) : Prop :=
  fresh o ∧ obj_wf a o ∧ dirtyStorage o = ∅ ∧ so_data o = recorded_data sa ∧ so_code o = code_slice (sub_Code sa) ∧
  ∀ k, default 0 (pendingStorage o !! k) = default 0 (sub_Storage sa !! k).

Lemma fresh_committed o k : fresh o → committed_value o k = default 0 (pendingStorage o !! k).
Proof. intros Hf. unfold committed_value. by destruct (fresh_GetCommittedState k o Hf) as (o' & -> & _). Qed.

Lemma made_state_value a sa o k : made a sa o → state_value o k = default 0 (sub_Storage sa !! k).
Proof.
  intros [[Hf Hw Hp Hs] _]. rewrite <- (Hs k). unfold state_value. destruct (dirtyStorage o !! k); [done|].
  by rewrite fresh_committed, Hp, lookup_empty by done.
Qed.

Lemma built_swf s : built (map_to_list alloc) s → swf s.
Proof.
  intros [(objs & j & pre & ->) Hj Ho Hall Hp]. split.
  - intros a o Hao. destruct (Ho a o Hao) as (sa & _ & [Hm _]). apply Hm.
  - intros a o. unfold trie_object. cbn [based set_jrnl set_research set_stateObjects trie NewOffTheChainStateDB New]. by rewrite empty_trie.
  - apply Hj. by constructor.
Qed.

Lemma Finalise_built s :
  built (map_to_list alloc) s →
  ∃ s1, Finalise false s = Ret (tt, s1) ∧ ended false s s1 ∧
    (∀ a sa, alloc !! a = Some sa → ∃ o, stateObjects s1 !! a = Some o ∧ pending_object a sa o) ∧
    (∀ a, alloc !! a = None → stateObjects s1 !! a = None) ∧
    (∀ a, a ∈ stateObjectsPending s1 ↔ is_Some (alloc !! a)) ∧ stateObjectsDirty s1 = stateObjectsPending s1.
Proof.
  intros Hb. pose proof (built_swf s Hb) as Hs. pose proof Hb as [(objs & j & pre & Es) Hj Ho Hall Hp].
  assert (∀ a sa o, alloc !! a = Some sa → stateObjects s !! a = Some o → made a sa o) as Hmade.
  { intros a sa o Ha Hao. destruct (Ho a o Hao) as (sa' & Hin & Hm). apply elem_of_map_to_list in Hin. by simplify_eq. }
  assert (∀ a, is_Some (stateObjects s !! a) ↔ is_Some (alloc !! a)) as Hdom.
  { intros a. split.
    - intros [o Hao]. destruct (Ho a o Hao) as (sa & Hin & _). apply elem_of_map_to_list in Hin. by eexists.
    - intros [sa Ha]. apply Hall. apply (list_elem_of_fmap_2 fst _ (a, sa)). by apply elem_of_map_to_list. }
  assert (∀ a, is_dirty s a ↔ is_Some (alloc !! a)) as Hdirty.
  { intros a. unfold is_dirty. rewrite Hdom. split; [by intros []|]. intros [sa Ha]. split; [|by eexists].
    apply Hall. apply (list_elem_of_fmap_2 fst _ (a, sa)). by apply elem_of_map_to_list. }
  destruct (Finalise_spec false s Hs) as (s1 & He & Hend).
  { intros a sa Ha. by destruct (Hp a _ Ha). }
  exists s1. split; [done|]. split; [done|].
  assert (all_objs kept_object s1) as Hkept.
  { refine (inv_Finalise kept_object _ _ _ _ _ s tt s1 He _).
    - intros k. apply kept_closed. intros o Hf. destruct (fresh_GetState k o Hf) as (o' & Hg & ?). by eexists _, _.
    - intros k. apply kept_closed. intros o Hf. destruct (fresh_GetCommittedState k o Hf) as (o' & Hg & ?). by eexists _, _.
    - apply kept_closed. intros o Hf. destruct (fresh_Code o Hf) as (c & Hc). exists o, c. split_and!; [by rewrite Hc|done|apply kept_refl].
    - intros a o (sa & Ha & Hf & HD1 & HC). exists sa. split_and!; [done|by apply fresh_finalise|done..].
    - intros a o (sa & Ha & Hf & _). apply Hf.
    - intros a o Hao. destruct (Ho a o Hao) as (sa & Hin & Hm & HD1 & HC). exists sa. apply elem_of_map_to_list in Hin.
      split_and!; [done|apply Hm|done..]. }
  split; [|split; [|split]].
  - intros a sa Ha. destruct (proj2 (Hdom a) ltac:(by eexists)) as [o Hao]. pose proof (Hmade a sa o Ha Hao) as Hm.
    pose proof (end_objects _ _ _ Hend a) as Hobj. rewrite Hao in Hobj. destruct Hobj as (o' & Hao' & Hobj).
    rewrite decide_True in Hobj by (apply Hdirty; by eexists). destruct Hobj as (o1 & [[Hc1 Hv1] Ht1] & Hfo).
    assert (fresh o) as Hfr by apply Hm. unfold finalised_object, removed in Hfo. rewrite (core_suicided _ _ Hc1) in Hfo.
    rewrite (proj1 (fresh_live _ Hfr)) in Hfo. cbn in Hfo. destruct Hfo as (o2 & [[Hc2 Hv2] Ht2] & ->).
    destruct (Hkept a _ Hao') as (sa' & Ha' & Hf' & HD' & HC'). assert (sa' = sa) as -> by congruence.
    exists (so_finalise o2). split; [done|]. split_and!; [done|by apply (swf_objects _ (end_swf _ _ _ Hend))|done..|].
    intros k. rewrite <- fresh_committed, <- (made_state_value a sa o k) by done.
    assert (fakeStorage o2 = None) as Hfk by (rewrite (core_fake _ _ Hc2), (core_fake _ _ Hc1); apply Hfr).
    pose proof (view_finalise o2 Hfk) as Hvf. rewrite Hv2, Hv1 in Hvf. by rewrite (f_equal av_Committed Hvf : committed_value _ = _).
  - intros a Ha. pose proof (end_objects _ _ _ Hend a) as Hobj. destruct (stateObjects s !! a) as [o|] eqn:Hao; [|done].
    destruct (proj1 (Hdom a)) as [sa Hsa]; [by eexists|congruence].
  - intros a. rewrite (proj1 (end_pending _ _ _ Hend a)), Hdirty. rewrite Es. cbn. set_solver.
  - apply set_eq. intros a. destruct (end_pending _ _ _ Hend a) as [-> ->]. rewrite Es. cbn. set_solver.
Qed.
Definition stored_object (a : Address) (sa : SubstateAccount) (o : stateObject) : Prop :=
  stored (recorded_data sa) (code_slice (sub_Code sa)) (λ k, default 0 (sub_Storage sa !! k)) a o.

Lemma pending_stored a sa o : pending_object a sa o → ∃ o', updateRoot o = Ret o' ∧ stored_object a sa o'.
Proof.
  intros (Hf & Hw & Hd & HD1 & HC & Hs). destruct (updateRoot_spec a o Hf Hw Hd) as (o' & He & Hst). exists o'. split; [done|].
  rewrite HD1, HC in Hst. destruct Hst as [? ? ? ? ? ? ? Hv]. split; try done. intros k Hk. by rewrite Hv, Hs.
Qed.

(** *** The objects *)

Lemma put_all s : set_stateObjects (λ _, stateObjects s) s = s.
Proof. by destruct s. Qed.

Lemma update_roots l s :
  NoDup l → (∀ a, a ∈ l → ∃ sa o, alloc !! a = Some sa ∧ stateObjects s !! a = Some o ∧ pending_object a sa o) →
  ∃ objs, db_each update_root l s = Ret (tt, set_stateObjects (λ _, objs) s) ∧
    (∀ a, a ∉ l → objs !! a = stateObjects s !! a) ∧
    ∀ a sa, a ∈ l → alloc !! a = Some sa → ∃ o, objs !! a = Some o ∧ stored_object a sa o.
Proof.
  revert s. induction l as [|a l IH]; intros s Hnd Hl.
  - exists (stateObjects s). split; [by rewrite put_all|]. split; [done|]. intros a sa Ha. by apply elem_of_nil in Ha.
  - apply NoDup_cons in Hnd as [Ha Hnd]. destruct (Hl a) as (sa & o & Hsa & Ho & Hpo); [by left|].
    destruct (pending_stored a sa o Hpo) as (o' & He & Hst).
    assert (update_root a s = Ret (tt, set_stateObjects <[a := o']> s)) as Hu.
    { unfold update_root, object_of. rewrite (db_bind _ _ s o s) by (rewrite get_bind, Ho; done).
      rewrite (proj2 (fresh_live _ (proj1 Hpo))). rewrite (db_bind _ _ s o' s) by (unfold db_go; by rewrite He). done. }
    cbn [db_each]. rewrite (db_bind _ _ _ _ _ Hu).
    destruct (IH (set_stateObjects <[a := o']> s) Hnd) as (objs & He' & Hout & Hin).
    { intros x Hx. destruct (Hl x) as (sx & ox & Hsx & Hox & Hpx); [by right|]. exists sx, ox. split; [done|]. split; [|done].
      cbn. rewrite lookup_insert_ne; [done|by intros ->]. }
    exists objs. split; [done|]. split.
    + intros x [Hx Hxl]%not_elem_of_cons. rewrite Hout by done. cbn. by rewrite lookup_insert_ne by congruence.
    + intros x sx [->|Hx]%elem_of_cons Hsx; [|by apply Hin]. exists o'. rewrite Hout by done. cbn.
      rewrite lookup_insert, decide_True by done. by simplify_eq.
Qed.

(** *** The account trie *)

Record data_ok (d : StateAccount) : Prop := {
  data_nonce : 0 ≤ Nonce d < 2 ^ 64;
  data_balance : 0 ≤ Balance d < 2 ^ 256;
  data_code : hash_bytes (CodeHash d)
}.

Lemma StateAccount_valid : valid StateAccount_type.
Proof. cbn. repeat split; auto; done. Qed.

Lemma account_typed d : data_ok d → typed StateAccount_type (account_value d).
Proof.
  intros [? ? [? ?]]. cbn. split_and!; try done; try lia; apply hash_bytes_of.
Qed.

Lemma account_length d : data_ok d → len (rlp (account_value d)) < 2 ^ 64.
Proof.
  intros [Hn Hb [Hl _]]. unfold account_value. cbn [rlp map concat]. rewrite app_nil_r.
  assert (∀ n k, 0 < k → 0 ≤ n < 2 ^ (8 * k) → len (min_be n) ≤ k) as Hmin.
  { intros n k Hk Hr. rewrite len_min_be. unfold nbytes. destruct (Z.eqb_spec n 0); [lia|].
    assert (Z.log2 n < 8 * k) by (apply Z.log2_lt_pow2; lia). pose proof (Z.log2_nonneg n).
    assert (Z.log2 n / 8 < k) by (apply Z.div_lt_upper_bound; lia). lia. }
  assert (∀ b n, len b ≤ n → n < 2 ^ 32 → len (rlp_string b) ≤ n + 9) as Hstr.
  { intros b n Hle Hlt. pose proof (len_rlp_string_le b ltac:(lia)). lia. }
  pose proof (Hstr _ 8 (Hmin (Nonce d) 8 ltac:(lia) Hn) ltac:(lia)).
  pose proof (Hstr _ 32 (Hmin (Balance d) 32 ltac:(lia) Hb) ltac:(lia)).
  assert (len (Hash_Bytes (Root d)) ≤ 32) as Hr by (unfold len; rewrite (proj1 (hash_bytes_of _)); lia).
  pose proof (Hstr _ 32 Hr ltac:(lia)).
  assert (len (CodeHash d) ≤ 32) as Hc by (unfold len; lia). pose proof (Hstr _ 32 Hc ltac:(lia)).
  set (p := rlp_string _ ++ _). assert (len p ≤ 200) as Hp by (unfold p; rewrite !len_app; change (default 0 (Some (Balance d))) with (Balance d); lia).
  pose proof (len_0 p). unfold rlp_list. rewrite len_app, len_head by lia. unfold headsize. destruct (Z.ltb_spec (len p) 56); [lia|].
  rewrite intsize_spec by lia. pose proof (nbytes_range (len p) ltac:(lia)). lia.
Qed.

(** A trie of accounts. *)
Definition trie_good (t : Trie) : Prop :=
  ∀ key, TryGet t key = inr [] ∨ ∃ d, data_ok d ∧ TryGet t key = inr (rlp (account_value d)).

Lemma trie_good_ok t : trie_good t → trie_ok t.
Proof.
  intros Ht a o. unfold trie_object. destruct (Ht (Address_Bytes a)) as [->|(d & Hd & ->)]; [done|].
  destruct (len (rlp (account_value d)) =? 0); [done|].
  rewrite (DecodeBytes_rlp StateAccount_type _ StateAccount_valid eq_refl (account_typed d Hd) (account_length d Hd)).
  cbn [account_of account_value]. set (d' := mkAccount _ _ _ _). intros Ho.
  assert (newObject a false d' = o) as <- by (unfold fmap, option_fmap, option_map in Ho; congruence).
  apply Hd.
Qed.

Lemma TryUpdateAccount_ok t key d :
  data_ok d → ∃ t', TryUpdateAccount t key d = Ret (None, t') ∧
    ∀ k, TryGet t' k = if decide (k = key) then inr (rlp (account_value d)) else TryGet t k.
Proof.
  intros Hd. unfold TryUpdateAccount. pose proof (account_length d Hd) as Hl.
  assert (wf (account_value d)) as Hwf by (apply (typed_wf StateAccount_type); [apply StateAccount_valid|by apply account_typed]).
  rewrite (EncodeToBytes_rlp _ Hwf Hl). cbn [mbind Go_bind].
  destruct (update_ok t key (rlp (account_value d)) (wf_bytes _ Hwf Hl) Hl) as (t' & -> & Hg). by exists t'.
Qed.

Lemma write_accounts l s :
  trie_good (trie s) →
  (∀ a, a ∈ l → ∃ o, stateObjects s !! a = Some o ∧ deleted o = false ∧ so_address o = a ∧ data_ok (so_data o)) →
  ∃ t, db_each write_account l s = Ret (tt, db_set_trie t s) ∧ trie_good t ∧
    ∀ key, (∀ a, a ∈ l → key ≠ Address_Bytes a) → TryGet t key = TryGet (trie s) key.
Proof.
  revert s. induction l as [|a l IH]; intros s Ht Hl.
  - exists (trie s). split; [by destruct s|]. done.
  - destruct (Hl a) as (o & Ho & Hd & Haddr & Hok); [by left|].
    destruct (TryUpdateAccount_ok (trie s) (Address_Bytes a) (so_data o) Hok) as (t1 & He1 & Hg1).
    assert (write_account a s = Ret (tt, db_set_trie t1 s)) as Hu.
    { unfold write_account, object_of. rewrite (db_bind _ _ s o s) by (rewrite get_bind, Ho; done). rewrite Hd.
      unfold updateStateObject. rewrite get_bind, Haddr.
      rewrite (db_bind _ _ s (None, t1) s) by (unfold db_go; by rewrite He1). done. }
    cbn [db_each]. rewrite (db_bind _ _ _ _ _ Hu). destruct (IH (db_set_trie t1 s)) as (t & He & Hgood & Hout).
    { intros key. cbn. rewrite Hg1. case_decide; [right; by eexists|apply Ht]. }
    { intros x Hx. apply Hl. by right. }
    exists t. split; [done|]. split; [done|]. intros key Hkey. rewrite Hout.
    + cbn. rewrite Hg1, decide_False; [done|]. apply Hkey. by left.
    + intros x Hx. apply Hkey. by right.
Qed.

(** *** The commit of the objects *)

Lemma commit_object_ok a sa o s :
  stateObjects s !! a = Some o → stored_object a sa o →
  ∃ o' c, commit_object a s = Ret ((c, None), set_stateObjects <[a := o']> s) ∧ stored_object a sa o'.
Proof.
  intros Ho Hst. unfold commit_object, object_of. rewrite (db_bind _ _ s o s) by (rewrite get_bind, Ho; done).
  rewrite (proj2 (sd_live _ _ _ _ _ Hst)).
  assert (∀ o1 c, stored_object a sa o1 → ∃ o', (('(o, err) ← db_go (CommitTrie o1);
    _ ← db_modify (set_stateObjects <[a := o]>); mret (c, err)) : DB (list (Hash * bytes) * option string)) s = Ret ((c, None), set_stateObjects <[a := o']> s) ∧ stored_object a sa o') as Hc.
  { intros o1 c Hst1. destruct (CommitTrie_spec _ _ _ _ _ Hst1) as (o' & He & Hst'). exists o'.
    split; [|done]. by rewrite (db_bind _ _ s (o', None) s) by (unfold db_go; by rewrite He). }
  destruct (so_code o) as [code|] eqn:Hco, (dirtyCode o) eqn:Hdc.
  - destruct (Hc (set_dirtyCode false o) [(BytesToHash (CodeHash (so_data o)), code)]) as (o' & He & Hst').
    { destruct Hst as [? ? [] ? ? ? ? Hv]. split; try done. intros k Hk. rewrite <- (Hv k Hk). unfold base_value.
      by rewrite (trie_value_trie o) by by apply getTrie_ext. }
    eexists _, _. split; [exact He|done].
  - destruct (Hc o [] Hst) as (o' & He & Hst'). eexists _, _. split; [exact He|done].
  - destruct (Hc o [] Hst) as (o' & He & Hst'). eexists _, _. split; [exact He|done].
  - destruct (Hc o [] Hst) as (o' & He & Hst'). eexists _, _. split; [exact He|done].
Qed.

Lemma commit_objects_ok l codes s :
  NoDup l → (∀ a, a ∈ l → ∃ sa o, alloc !! a = Some sa ∧ stateObjects s !! a = Some o ∧ stored_object a sa o) →
  ∃ objs codes', commit_objects l codes s = Ret (inr codes', set_stateObjects (λ _, objs) s) ∧
    (∀ a, a ∉ l → objs !! a = stateObjects s !! a) ∧
    ∀ a sa, a ∈ l → alloc !! a = Some sa → ∃ o, objs !! a = Some o ∧ stored_object a sa o.
Proof.
  revert codes s. induction l as [|a l IH]; intros codes s Hnd Hl.
  - exists (stateObjects s), codes. split; [by rewrite put_all|]. split; [done|]. intros a sa Ha. by apply elem_of_nil in Ha.
  - apply NoDup_cons in Hnd as [Ha Hnd]. destruct (Hl a) as (sa & o & Hsa & Ho & Hst); [by left|].
    destruct (commit_object_ok a sa o s Ho Hst) as (o' & c & He & Hst').
    cbn [commit_objects]. rewrite (db_bind _ _ _ _ _ He).
    destruct (IH (codes ++ c) (set_stateObjects <[a := o']> s) Hnd) as (objs & codes' & He' & Hout & Hin).
    { intros x Hx. destruct (Hl x) as (sx & ox & Hsx & Hox & Hpx); [by right|]. exists sx, ox. split; [done|]. split; [|done].
      cbn. rewrite lookup_insert_ne; [done|by intros ->]. }
    exists objs, codes'. split; [done|]. split.
    + intros x [Hx Hxl]%not_elem_of_cons. rewrite Hout by done. cbn. by rewrite lookup_insert_ne by congruence.
    + intros x sx [->|Hx]%elem_of_cons Hsx; [|by apply Hin]. exists o'. rewrite Hout by done. cbn.
      rewrite lookup_insert, decide_True by done. by simplify_eq.
Qed.
(** *** All of it *)

Record remade (s : statedb) : Prop := {
  rm_swf : swf s;
  rm_made : ∀ a sa, alloc !! a = Some sa → ∃ o, stateObjects s !! a = Some o ∧ stored_object a sa o;
  rm_absent : ∀ a, alloc !! a = None → stateObjects s !! a = None;
  rm_unknown : ∀ a, address_ok a → alloc !! a = None → account s a = None;
  rm_journal : entries (jrnl s) = [] ∧ validRevisions s = [] ∧ nextRevisionId s = 0;
  rm_rest : refund s = 0 ∧ access s = newAccessList ∧ logs s = ∅ ∧ logSize s = 0 ∧ preimages s = ∅ ∧ dbErr s = None
}.

Lemma stored_data a sa o : alloc !! a = Some sa → stored_object a sa o →
  deleted o = false ∧ so_address o = a ∧ data_ok (so_data o).
Proof.
  intros Ha [(Hn & Hb & Hc) _ Hw _ _ _ [_ Hd] _]. destruct (Halloc a sa Ha). split; [done|]. split; [apply Hw|].
  split; [by rewrite Hn|by rewrite Hb|rewrite Hc; apply Keccak256_bytes].
Qed.

Lemma IntermediateRoot_built s :
  built (map_to_list alloc) s →
  ∃ s1 objs t root, Finalise false s = Ret (tt, s1) ∧ ended false s s1 ∧
    IntermediateRoot false s = Ret (root, set_marks ∅ (stateObjectsDirty s1) (db_set_trie t (set_stateObjects (λ _, objs) s1))) ∧
    (∀ a sa, alloc !! a = Some sa → ∃ o, objs !! a = Some o ∧ stored_object a sa o) ∧
    (∀ a, alloc !! a = None → objs !! a = None) ∧ trie_good t ∧
    (∀ key, (∀ a, is_Some (alloc !! a) → key ≠ Address_Bytes a) → TryGet t key = inr []) ∧
    (∀ a, a ∈ stateObjectsDirty s1 ↔ is_Some (alloc !! a)).
Proof.
  intros Hb. destruct (Finalise_built s Hb) as (s1 & He1 & Hend & Hpo & Hno & Hpend & Hdirty).
  assert (trie s1 = OpenEmptyTrie 0) as Ht1.
  { rewrite (proj1 (end_rest _ _ _ Hend)). by destruct Hb as [(? & ? & ? & ->) _ _ _ _]. }
  assert (∀ a, a ∈ base.elements (stateObjectsPending s1) ↔ is_Some (alloc !! a)) as Hel.
  { intros a. by rewrite elem_of_elements. }
  destruct (update_roots (base.elements (stateObjectsPending s1)) s1) as (objs & He2 & Hout & Hin).
  { apply NoDup_elements. }
  { intros a [sa Ha]%Hel. destruct (Hpo a sa Ha) as (o & Ho & Hp). by exists sa, o. }
  destruct (write_accounts (base.elements (stateObjectsPending s1)) (set_stateObjects (λ _, objs) s1)) as (t & He3 & Hgood & Hother).
  { intros key. cbn. rewrite Ht1, empty_trie. by left. }
  { intros a Ha. pose proof Ha as [sa Hsa]%Hel. destruct (Hin a sa Ha Hsa) as (o & Ho & Hst). exists o. split; [done|].
    by apply stored_data with sa. }
  exists s1, objs, t, (TrieHash t). split_and!; try done.
  - unfold IntermediateRoot. rewrite (db_bind _ _ _ _ _ He1), get_bind, (db_bind _ _ _ _ _ He2), (db_bind _ _ _ _ _ He3). done.
  - intros a sa Ha. apply (Hin a sa); [|done]. apply Hel. by eexists.
  - intros a Ha. rewrite Hout; [by apply Hno|]. intros [? ?]%Hel. congruence.
  - intros key Hkey. rewrite Hother; [cbn; rewrite Ht1; apply empty_trie|]. intros a Ha. by apply Hkey, Hel.
  - intros a. by rewrite Hdirty.
Qed.

Lemma Make_spec : ∃ s, MakeOffTheChainStateDB alloc = Ret s ∧ remade s.
Proof.
  destruct (set_recordeds (map_to_list alloc) [] NewOffTheChainStateDB built_nil) as (s & He & Hb).
  { apply NoDup_fst_map_to_list. }
  { apply Forall_forall. intros [a sa] Hin. apply elem_of_map_to_list in Hin. by destruct (Halloc a sa Hin). }
  destruct (IntermediateRoot_built s Hb) as (s1 & objs & t & root & _ & Hend & He1 & Hin & Hno & Hgood & Hother & Hdirty).
  set (s2 := set_marks ∅ _ _) in He1.
  destruct (commit_objects_ok (base.elements (stateObjectsDirty s2)) [] s2) as (objs3 & codes & He3 & Hout3 & Hin3).
  { apply NoDup_elements. }
  { intros a Ha. apply elem_of_elements in Ha. apply Hdirty in Ha as [sa Ha]. destruct (Hin a sa Ha) as (o & Ho & Hst). by exists sa, o. }
  destruct (commit_ok t) as (root' & t' & Htc & Hg).
  assert (dbErr s = None) as Hdb by by destruct Hb as [(? & ? & ? & ->) _ _ _ _].
  exists (db_set_trie t' (set_marks (stateObjectsPending s2) ∅ (set_stateObjects (λ _, objs3) s2))). split.
  { unfold MakeOffTheChainStateDB, Commit. cbn [app] in Hb.
    assert (((_ ← db_each set_recorded (map_to_list alloc); Commit false) : DB (string + Hash * list (Hash * bytes))) NewOffTheChainStateDB
      = Ret (inr (root', codes), db_set_trie t' (set_marks (stateObjectsPending s2) ∅ (set_stateObjects (λ _, objs3) s2)))) as Hc.
    { rewrite (db_bind _ _ _ _ _ He). unfold Commit. rewrite get_bind, Hdb, (db_bind _ _ _ _ _ He1), get_bind, (db_bind _ _ _ _ _ He3).
      rewrite modify_bind, get_bind. cbn [trie set_marks set_stateObjects db_set_trie s2]. rewrite Htc. done. }
    unfold Commit in Hc. by rewrite Hc. }
  assert (∀ a sa, alloc !! a = Some sa → ∃ o, objs3 !! a = Some o ∧ stored_object a sa o) as Hobj3.
  { intros a sa Ha. apply (Hin3 a sa); [|done]. apply elem_of_elements. cbn. apply Hdirty. by eexists. }
  assert (∀ a, alloc !! a = None → objs3 !! a = None) as Hno3.
  { intros a Ha. rewrite Hout3; [by apply Hno|]. intros Hel. apply elem_of_elements in Hel. cbn in Hel.
    apply Hdirty in Hel as [? ?]. congruence. }
  assert (entries (jrnl s1) = []) as Hj1.
  { rewrite (end_journal _ _ _ Hend). by destruct (entries (jrnl s)) eqn:E. }
  assert (trie_good t') as Hgood'.
  { intros key. rewrite Hg. apply Hgood. }
  destruct Hb as [(objs0 & j0 & pre0 & Es) _ _ _ _].
  split.
  - split; cbn.
    + intros a o Ho. destruct (alloc !! a) as [sa|] eqn:Ha; [|rewrite Hno3 in Ho by done; done].
      destruct (Hobj3 a sa Ha) as (o' & Ho' & Hst). simplify_eq. apply Hst.
    + by apply trie_good_ok.
    + by rewrite Hj1.
  - exact Hobj3.
  - exact Hno3.
  - intros a Hok Ha. unfold account. cbn. rewrite (Hno3 a Ha). unfold trie_object. rewrite Hg, Hother; [done|].
    intros x [sx Hx]. intros Heq. apply Address_Bytes_inj in Heq as ->; [congruence|done|]. by destruct (Halloc x sx Hx).
  - cbn. split; [done|]. rewrite (proj1 (end_revisions _ _ _ Hend)), (proj2 (end_revisions _ _ _ Hend)). by rewrite Es.
  - cbn. rewrite (end_refund _ _ _ Hend). destruct (end_rest _ _ _ Hend) as (_ & -> & -> & -> & -> & -> & _). rewrite Es.
    split_and!; [by destruct (entries (jrnl (based objs0 j0 pre0)))|done..].
Qed.
End make.
