(* ===== verification/Recording.v ===== *)
(** * What a transaction records

    [Rec] relates a state in the middle of a transaction to its start [s0]: the
    accounts that were not read are as they were, and those that were read are
    recorded as they were. *)

From Stdlib Require Import FunctionalExtensionality.
From S2P Require Import Prelude Common Uint256 Machine VmFacts Vm Rlp RlpFacts RlpDecode RlpStreamFacts State Statedb StateTx StateView StateUndo StateOps StateSim StateSpec StateTxFacts OffTheChainFacts CommitFacts.

Section recording.
Context `{HD : DatabaseLaws} (s0 : statedb).

(** An account without storage. *)
Definition bare (v : AccView) : Prop := av_Committed v = λ _, 0.

Definition matches (sa : SubstateAccount) (v : AccView) : Prop :=
  sub_Nonce sa = av_Nonce v ∧ sub_Balance sa = av_Balance v ∧ sub_Code sa = av_Code v ∧ sub_Storage sa = ∅.

Definition touched_ok (o : stateObject) : Prop := fakeStorage o = None ∧ ∀ k, k ∈ ResearchTouched o → hash_ok k.

Definition entry_rec (pre : gmap Address (option SubstateAccount)) (e : journalEntry) : Prop :=
  match e with
  | createObjectChange a => pre !! a = Some None
  | resetObjectChange prev =>
      touched_ok prev ∧ is_Some (pre !! so_address prev) ∧
      ∀ sa, pre !! so_address prev = Some (Some sa) →
        ∃ v, account s0 (so_address prev) = Some v ∧ bare v ∧ deleted prev = false ∧ committed_value prev = av_Committed v
  | e => match dirtied e with Some a => is_Some (pre !! a) | None => True end
  end.

(** [W] is the slots that were touched. *)
Record Rec (W : gset (Address * Hash)) (s : statedb) : Prop := {
  rec_trie : trie s = trie s0;
  rec_unread : ∀ a, ResearchPreAlloc s !! a = None → account s a = account s0 a;
  rec_absent : ∀ a, ResearchPreAlloc s !! a = Some None → account s0 a = None;
  rec_present : ∀ a sa, ResearchPreAlloc s !! a = Some (Some sa) →
    ∃ v o, account s0 a = Some v ∧ matches sa v ∧ stateObjects s !! a = Some o ∧ deleted o = false ∧
      committed_value o = av_Committed v ∧ (bare v ∨ ∀ k, (a, k) ∈ W → k ∈ ResearchTouched o);
  rec_entries : Forall (entry_rec (ResearchPreAlloc s)) (entries (jrnl s));
  rec_objects : ∀ a o, stateObjects s !! a = Some o → touched_ok o ∧ so_address o = a;
  rec_slots : ∀ a k, (a, k) ∈ W → is_Some (ResearchPreAlloc s !! a)
}.

(** Steps from a state where the addresses of [A] are recorded. *)
Definition ok {B : Type} (A : gset Address) (W : gset (Address * Hash)) (m : DB B) (A' : gset Address) (W' : gset (Address * Hash)) : Prop :=
  ∀ s x s', Rec W s → (∀ a, a ∈ A → is_Some (ResearchPreAlloc s !! a)) → m s = Ret (x, s') →
    Rec W' s' ∧ (∀ a, a ∈ A' → is_Some (ResearchPreAlloc s' !! a)) ∧
    ∀ a y, ResearchPreAlloc s !! a = Some y → ResearchPreAlloc s' !! a = Some y.

Lemma ok_ret {B : Type} (x : B) A W : ok A W (mret x) A W.
Proof. intros s y s' Hr Ha [= _ <-]. done. Qed.
Lemma ok_get {B : Type} (f : statedb → B) A W : ok A W (db_get f) A W.
Proof. intros s y s' Hr Ha [= _ <-]. done. Qed.
Lemma ok_go {B : Type} (m : Go B) A W : ok A W (db_go m) A W.
Proof. intros s y s' Hr Ha. unfold db_go. destruct m; [|done]. by intros [= _ <-]. Qed.
Lemma ok_bind {B C : Type} (m : DB B) (k : B → DB C) A W A1 W1 A2 W2 :
  ok A W m A1 W1 → (∀ x, ok A1 W1 (k x) A2 W2) → ok A W (m ≫= k) A2 W2.
Proof.
  intros Hm Hk s y s' Hr Ha He. apply db_bind_inv in He as (x & s1 & He1 & He).
  destruct (Hm s x s1 Hr Ha He1) as (Hr1 & Ha1 & Hp1). destruct (Hk x s1 y s' Hr1 Ha1 He) as (Hr2 & Ha2 & Hp2). auto.
Qed.

(** A change of nothing that is recorded. *)
Lemma ok_modify f A W :
  (∀ s, trie (f s) = trie s ∧ stateObjects (f s) = stateObjects s ∧ entries (jrnl (f s)) = entries (jrnl s) ∧ ResearchPreAlloc (f s) = ResearchPreAlloc s) →
  ok A W (db_modify f) A W.
Proof.
  intros Hf s y s' [Ht Hu Ha Hp He Ho Hw] Hin [= _ <-]. destruct (Hf s) as (Et & Eo & Ej & Ep).
  split; [|rewrite Ep; done]. split; rewrite ?Et, ?Ej, ?Ep; try done.
  - intros a Hn. unfold account. rewrite Eo, Et. by apply Hu.
  - intros a sa Hsa. rewrite Eo. by apply Hp.
  - intros a o. rewrite Eo. apply Ho.
Qed.

Lemma entry_rec_more pre pre' e : (∀ a y, pre !! a = Some y → pre' !! a = Some y) → entry_rec pre e → entry_rec pre' e.
Proof.
  intros Hp. destruct e; cbn; try (intros [y Hy]; eexists; by apply Hp); try done; [by apply Hp|].
  intros (Ht & [y Hy] & Hs). split; [done|]. split; [eexists; by apply Hp|]. intros sa Hsa.
  rewrite (Hp _ y Hy) in Hsa. apply (Hs sa). congruence.
Qed.

(** ** Objects *)

Record good (o o' : stateObject) : Prop := {
  good_address : so_address o' = so_address o;
  good_deleted : deleted o' = deleted o;
  good_committed : committed_value o' = committed_value o;
  good_touched : ResearchTouched o ⊆ ResearchTouched o';
  good_ok : touched_ok o'
}.

Definition good_fun {B : Type} (f : stateObject → Go (stateObject * B)) : Prop :=
  ∀ o o' x, touched_ok o → f o = Ret (o', x) → good o o'.

Lemma Rec_put W s a o o' :
  Rec W s → is_Some (ResearchPreAlloc s !! a) → stateObjects s !! a = Some o → good o o' →
  Rec W (set_stateObjects <[a := o']> s).
Proof.
  intros [Ht Hu Hab Hp He Ho Hw] Ha Hao [Ga Gd Gc Gt Gk]. split; cbn; try done.
  - intros x Hx. rewrite account_insert. rewrite decide_False; [by apply Hu|]. intros ->. destruct Ha. congruence.
  - intros x sa Hx. destruct (Hp x sa Hx) as (v & ox & Hv & Hm & Hox & Hd & Hc & Hb). exists v.
    destruct (decide (x = a)) as [->|Hne].
    + exists o'. rewrite lookup_insert, decide_True by done. simplify_eq. split_and!; try done; [congruence..|].
      destruct Hb as [Hb|Hb]; [by left|right]. intros k Hk. apply Gt. by apply Hb.
    + exists ox. by rewrite lookup_insert_ne by congruence.
  - intros x ox Hx. destruct (decide (x = a)) as [->|Hne].
    + rewrite lookup_insert, decide_True in Hx by done. injection Hx as <-. split; [done|]. rewrite Ga. by apply (Ho a o).
    + rewrite lookup_insert_ne in Hx by congruence. by eapply Ho.
Qed.

Lemma ok_on_object {B : Type} a (f : stateObject → Go (stateObject * B)) W : good_fun f → ok {[a]} W (on_object a f) {[a]} W.
Proof.
  intros Hf s x s' Hr Ha He. unfold on_object in He. rewrite get_bind in He. destruct (stateObjects s !! a) as [o|] eqn:Ho; [|done].
  apply db_bind_inv in He as ([o' y] & s1 & Hg & He). unfold db_go in Hg. destruct (f o) as [[o1 y1]|] eqn:Hfo; [|done].
  injection Hg as <- <- <-. rewrite modify_bind in He. injection He as <- <-.
  split; [|done]. apply (Rec_put W s a o); [done|by apply Ha, elem_of_singleton|done|].
  apply (Hf o o1 y1); [by apply (rec_objects _ _ Hr a)|done].
Qed.

(** Changes of an object's fields other than its storage below. *)
Lemma good_fields o o' :
  touched_ok o → so_address o' = so_address o → so_addrHash o' = so_addrHash o → Root (so_data o') = Root (so_data o) → so_trie o' = so_trie o →
  fakeStorage o' = None → originStorage o' = originStorage o → pendingStorage o' = pendingStorage o →
  deleted o' = deleted o → ResearchTouched o' = ResearchTouched o → good o o'.
Proof.
  intros [Hf Hk] Hadr Ha Hr Ht Hf' Ho Hp Hd Htt. split; [done|done| |by rewrite Htt|by split; [|rewrite Htt]].
  assert (snd (getTrie o') = snd (getTrie o)) as Hg.
  { unfold getTrie. rewrite Ht, Ha, Hr. destruct (so_trie o); [done|]. by destruct (OpenStorageTrie _ _). }
  extensionality k. rewrite !committed_base by done. unfold base_value. by rewrite Hp, Ho, (trie_value_trie o o' Hg).
Qed.

Lemma good_read {B : Type} (f : stateObject → Go (stateObject * B)) :
  (∀ o o' x, fakeStorage o = None → f o = Ret (o', x) → reads_only o o' ∧ ResearchTouched o' = ResearchTouched o) → good_fun f.
Proof.
  intros Hf o o' x [Hn Hk] He. destruct (Hf o o' x Hn He) as [[Hc Hv] Ht].
  split; [apply Hc|apply Hc|exact (f_equal av_Committed Hv)|by rewrite Ht|]. split; [by rewrite (core_fake _ _ Hc)|by rewrite Ht].
Qed.

Lemma good_GetState k : hash_ok k → good_fun (so_GetState k).
Proof.
  intros Hk o o' x [Hn Ho] He. destruct (state_read o k Hn) as (o1 & He1 & [Hc Hv]). rewrite He in He1. injection He1 as <- _.
  pose proof (touched_state _ _ _ _ He) as Ht.
  split; [apply Hc|apply Hc|exact (f_equal av_Committed Hv)|rewrite Ht; set_solver|]. split; [by rewrite (core_fake _ _ Hc)|].
  rewrite Ht. intros y [->%elem_of_singleton|Hy]%elem_of_union; [done|by apply Ho].
Qed.

Lemma good_GetCommittedState k : good_fun (so_GetCommittedState k).
Proof.
  apply good_read. intros o o' x Hn He. destruct (committed_read o k Hn) as (o1 & He1 & Hr). rewrite He in He1. injection He1 as <- _.
  split; [done|]. by eapply touched_committed.
Qed.

Lemma so_Code_touched o : ResearchTouched (fst (so_Code o)) = ResearchTouched o.
Proof. unfold so_Code. destruct (so_code o); [done|]. case_bool_decide; [done|]. by destruct (ContractCode _ _) as [c []]. Qed.
Lemma good_Code : good_fun (λ o, Ret (so_Code o)).
Proof.
  apply good_read. intros o o' x Hn [= He]. pose proof (code_read o Hn) as Hr. pose proof (so_Code_touched o) as Ht.
  rewrite He in Hr, Ht. done.
Qed.
Lemma good_CodeSize : good_fun (λ o, Ret (so_CodeSize o)).
Proof.
  apply good_read. intros o o' x Hn [= He]. pose proof (proj2 (size_read o Hn)) as Hr.
  assert (ResearchTouched (fst (so_CodeSize o)) = ResearchTouched o) as Ht.
  { unfold so_CodeSize. destruct (so_code o); [done|]. case_bool_decide; [done|]. by destruct (ContractCodeSize _ _) as [c []]. }
  rewrite He in Hr, Ht. done.
Qed.
Lemma good_pure {B : Type} (g : stateObject → B) : good_fun (λ o, Ret (o, g o)).
Proof. apply good_read. intros o o' x _ [= <- _]. split; [apply reads_only_refl|done]. Qed.

(** An update of fields. *)
Definition good_update (f : stateObject → stateObject) : Prop :=
  ∀ o, fakeStorage o = None → so_address (f o) = so_address o ∧ so_addrHash (f o) = so_addrHash o ∧ Root (so_data (f o)) = Root (so_data o) ∧ so_trie (f o) = so_trie o ∧
    fakeStorage (f o) = None ∧ originStorage (f o) = originStorage o ∧ pendingStorage (f o) = pendingStorage o ∧
    deleted (f o) = deleted o ∧ ResearchTouched (f o) = ResearchTouched o.

Lemma ok_update a f W : good_update f → ok {[a]} W (update_object a f) {[a]} W.
Proof.
  intros Hf. apply ok_on_object. intros o o' x Ho [= <- _]. pose proof Ho as [Hn _]. destruct (Hf o Hn) as (? & ? & ? & ? & ? & ? & ? & ? & ?).
  by apply good_fields.
Qed.

Lemma ok_append a e W : dirtied e = Some a → (match e with createObjectChange _ | resetObjectChange _ => False | _ => True end) →
  ok {[a]} W (append e) {[a]} W.
Proof.
  intros Hd He s x s' [Ht Hu Hab Hp Hen Ho Hw] Ha [= _ <-]. split; [|done]. split; try done. cbn. rewrite entries_append.
  apply Forall_app. split; [done|]. constructor; [|done]. destruct e; cbn in *; try done; injection Hd as <-; by apply Ha, elem_of_singleton.
Qed.
Lemma ok_append_other e A W : dirtied e = None → (match e with resetObjectChange _ => False | _ => True end) → ok A W (append e) A W.
Proof.
  intros Hd He s x s' [Ht Hu Hab Hp Hen Ho Hw] Ha [= _ <-]. split; [|done]. split; try done. cbn. rewrite entries_append.
  apply Forall_app. split; [done|]. constructor; [|done]. by destruct e.
Qed.
(** ** Reading an account records it *)

Lemma newObject_touched a nil d : touched_ok (newObject a nil d).
Proof. split; [done|]. intros k Hk. by apply elem_of_empty in Hk. Qed.

(** A read of an account that is not recorded yet. *)
Lemma Rec_record W s a x :
  Rec W s → ResearchPreAlloc s !! a = None →
  match x with
  | None => account s a = None
  | Some sa => ∃ o, stateObjects s !! a = Some o ∧ deleted o = false ∧ matches sa (view o)
  end →
  Rec W (set_research (<[a := x]> (ResearchPreAlloc s)) (ResearchPostAlloc s) s).
Proof.
  intros [Ht Hu Hab Hp He Ho Hw] Hn Hx. pose proof (Hu a Hn) as Hacc.
  assert (∀ b y, ResearchPreAlloc s !! b = Some y → (<[a := x]> (ResearchPreAlloc s)) !! b = Some y) as Hmore.
  { intros b y Hb. rewrite lookup_insert_ne; [done|]. intros ->. congruence. }
  split; cbn; try done.
  - intros b Hb. destruct (decide (b = a)) as [->|Hne]; [by rewrite lookup_insert, decide_True in Hb|].
    rewrite lookup_insert_ne in Hb by congruence. by apply Hu.
  - intros b Hb. destruct (decide (b = a)) as [->|Hne].
    + rewrite lookup_insert, decide_True in Hb by done. injection Hb as ->. congruence.
    + rewrite lookup_insert_ne in Hb by congruence. by apply Hab.
  - intros b sa Hb. destruct (decide (b = a)) as [->|Hne].
    + rewrite lookup_insert, decide_True in Hb by done. injection Hb as ->. destruct Hx as (o & Hao & Hd & Hm).
      exists (view o), o. split_and!; try done.
      * rewrite <- Hacc. unfold account. by rewrite Hao, Hd.
      * right. intros k Hk. destruct (Hw a k Hk). congruence.
    + rewrite lookup_insert_ne in Hb by congruence. by apply Hp.
  - eapply Forall_impl; [done|]. intros e. by apply entry_rec_more.
  - intros b k Hb. destruct (Hw b k Hb) as [y Hy]. eexists. by apply Hmore.
Qed.

(** Loading an object of the trie. *)
Lemma Rec_load W s a o :
  Rec W s → stateObjects s !! a = None → trie_object (trie s) a = inr (Some o) → Rec W (set_stateObjects <[a := o]> s).
Proof.
  intros [Ht Hu Hab Hp He Ho Hw] Hn Hto. destruct (trie_object_new _ _ _ Hto) as [d ->]. split; cbn; try done.
  - intros b Hb. rewrite account_insert. case_decide as Hba; [|by apply Hu]. subst b. cbn. rewrite <- Hu by done.
    unfold account. by rewrite Hn, Hto.
  - intros b sa Hb. destruct (Hp b sa Hb) as (v & ox & Hv & Hm & Hox & Hr). exists v, ox.
    rewrite lookup_insert_ne by congruence. done.
  - intros b ob Hb. destruct (decide (b = a)) as [->|Hne].
    + rewrite lookup_insert, decide_True in Hb by done. injection Hb as <-. split; [apply newObject_touched|done].
    + rewrite lookup_insert_ne in Hb by congruence. by eapply Ho.
Qed.

(** The object that [getDeletedStateObject] finds. *)
Lemma getDeleted_cases a s :
  ∃ r s', getDeletedStateObject a s = Ret (r, s') ∧ ResearchPreAlloc s' = ResearchPreAlloc s ∧
    match r with
    | Some o => stateObjects s' !! a = Some o ∧ (s' = s ∨ (stateObjects s !! a = None ∧ trie_object (trie s) a = inr (Some o) ∧ s' = set_stateObjects <[a := o]> s))
    | None => (s' = s ∨ ∃ err, s' = set_dbErr err s) ∧ account s a = None ∧ stateObjects s !! a = None
    end.
Proof.
  unfold getDeletedStateObject, account. rewrite get_bind. destruct (stateObjects s !! a) as [o|] eqn:Ho.
  { eexists _, _. split; [done|]. split; [done|]. split; [done|by left]. }
  rewrite get_bind. destruct (trie_object (trie s) a) as [err|[o|]] eqn:Ht.
  - rewrite modify_bind. eexists _, _. split; [done|]. split; [done|]. split; [right; by eexists|done].
  - destruct (trie_object_new _ _ _ Ht) as [d ->]. unfold setStateObject. rewrite modify_bind.
    eexists _, _. split; [done|]. split; [done|]. cbn. rewrite lookup_insert, decide_True by done. split; [done|]. by right.
  - eexists _, _. split; [done|]. split; [done|]. split; [by left|done].
Qed.

Lemma Rec_dbErr W err s : Rec W s → Rec W (set_dbErr err s).
Proof. intros []. by split. Qed.

Lemma getDeleted_Rec W a s r s' :
  Rec W s → getDeletedStateObject a s = Ret (r, s') →
  Rec W s' ∧ ResearchPreAlloc s' = ResearchPreAlloc s ∧ stateObjects s' !! a = r ∧ (r = None → account s' a = None).
Proof.
  intros Hr He. destruct (getDeleted_cases a s) as (r1 & s1 & He1 & Hp & Hcase). rewrite He in He1. injection He1 as <- <-.
  destruct r as [o|].
  - destruct Hcase as (Ho & [->|(Hn & Ht & ->)]); [done|]. split; [by apply Rec_load|done].
  - destruct Hcase as (Hs & Hacc & Hno). destruct Hs as [->|[err ->]]; [done|]. split; [by apply Rec_dbErr|done].
Qed.

Lemma ok_getStateObject A a W : ok A W (getStateObject a) ({[a]} ∪ A) W.
Proof.
  intros s x s' Hr HA He. unfold getStateObject in He. apply db_bind_inv in He as (r & s1 & He1 & He).
  destruct (getDeleted_Rec W a s r s1 Hr He1) as (Hr1 & Hp1 & Ho1 & Hn1).
  assert (∀ s2 y, (∀ b z, ResearchPreAlloc s !! b = Some z → ResearchPreAlloc s2 !! b = Some z) → ResearchPreAlloc s2 !! a = Some y →
    (∀ b, b ∈ {[a]} ∪ A → is_Some (ResearchPreAlloc s2 !! b)) ∧
    ∀ b z, ResearchPreAlloc s !! b = Some z → ResearchPreAlloc s2 !! b = Some z) as Hgrow.
  { intros s2 y Hm Hy. split; [|done]. intros b [->%elem_of_singleton|Hb]%elem_of_union; [by eexists|].
    destruct (HA b Hb) as [z Hz]. eexists. by apply Hm. }
  assert (∀ y, ResearchPreAlloc s1 !! a = Some y → ∀ b z, ResearchPreAlloc s !! b = Some z → ResearchPreAlloc s1 !! b = Some z) as Hsame
    by (intros y _ b z Hb; by rewrite Hp1).
  assert (∀ x s2 s3, record_pre a None s2 = Ret (x, s3) → Rec W s2 → account s2 a = None → ResearchPreAlloc s2 = ResearchPreAlloc s →
    Rec W s3 ∧ (∀ b z, ResearchPreAlloc s !! b = Some z → ResearchPreAlloc s3 !! b = Some z) ∧ is_Some (ResearchPreAlloc s3 !! a)) as Habsent.
  { intros y s2 s3 He3 Hr2 Hn2 Hp2. unfold record_pre in He3. rewrite get_bind in He3. destruct (ResearchPreAlloc s2 !! a) as [z|] eqn:Ha.
    - injection He3 as _ <-. split; [done|]. split; [by rewrite Hp2|by rewrite Ha].
    - injection He3 as _ <-. split; [by apply Rec_record|]. cbn. split.
      + intros b z Hb. rewrite lookup_insert_ne, Hp2; [done|]. intros ->. congruence.
      + rewrite lookup_insert, decide_True by done. by eexists. }
  destruct r as [o|].
  - destruct (deleted o) eqn:Hd.
    + apply db_bind_inv in He as ([] & s2 & He2 & He). injection He as <- <-.
      destruct (Habsent tt s1 s2 He2 Hr1) as (Hr2 & Hm & [y Hy]); [by unfold account; rewrite Ho1, Hd|done|].
      split; [done|by apply (Hgrow s2 y)].
    + rewrite get_bind in He. destruct (ResearchPreAlloc s1 !! a) as [z|] eqn:Ha.
      * injection He as <- <-. split; [done|]. apply (Hgrow s1 z); [by rewrite Hp1|done].
      * apply db_bind_inv in He as (code & s2 & He2 & He). apply db_bind_inv in He as ([] & s3 & He3 & He).
        injection He as <- <-. pose proof (proj1 (proj1 (rec_objects _ _ Hr1 a o Ho1))) as Hf.
        destruct (code_eq a o s1 Ho1 Hf) as (o' & Hce & Hro & Hdo). rewrite He2 in Hce. injection Hce as -> ->.
        assert (Rec W (set_stateObjects <[a := o']> s1)) as Hr2.
        { destruct Hr1 as [Ht Hu Hab Hp Hen Hob Hw]. pose proof Hro as [[Hc Hv] Htt]. split; cbn; try done.
          - intros b Hb. rewrite account_insert. case_decide as Hba; [|by apply Hu]. subst b. rewrite <- Hu by done.
            unfold account. rewrite Ho1. by rewrite (core_deleted _ _ Hc), Hd, Hv.
          - intros b sa Hb. destruct (Hp b sa Hb) as (v & ox & Hv' & Hm & Hox & Hrest). exists v, ox.
            rewrite lookup_insert_ne by congruence. done.
          - intros b ob Hb. destruct (decide (b = a)) as [->|Hne].
            + rewrite lookup_insert, decide_True in Hb by done. injection Hb as <-. destruct (Hob a o Ho1) as [[Hfk Htk] Hadr].
              split; [split; [by rewrite (core_fake _ _ Hc)|by rewrite Htt]|by rewrite (core_address _ _ Hc)].
            + rewrite lookup_insert_ne in Hb by congruence. by eapply Hob. }
        unfold record_pre in He3. rewrite get_bind in He3. cbn [set_stateObjects ResearchPreAlloc] in He3. rewrite Ha in He3.
        injection He3 as <-. split.
        -- apply (Rec_record W (set_stateObjects <[a := o']> s1)); [done|done|]. exists o'. cbn. rewrite lookup_insert, decide_True by done.
           pose proof Hro as [[Hc Hv] Htt]. split; [done|]. split; [by rewrite (core_deleted _ _ Hc)|]. rewrite Hv. split_and!; done.
        -- eapply Hgrow; cbn.
           ++ intros b z Hb. rewrite lookup_insert_ne, Hp1; [done|]. intros ->. rewrite <- Hp1 in Hb. congruence.
           ++ by rewrite lookup_insert, decide_True.
  - apply db_bind_inv in He as ([] & s2 & He2 & He). injection He as <- <-.
    destruct (Habsent tt s1 s2 He2 Hr1) as (Hr2 & Hm & [y Hy]); [by apply Hn1|done|].
    split; [done|by apply (Hgrow s2 y)].
Qed.
Lemma getState_none a s s' : getStateObject a s = Ret (None, s') → ∀ o, stateObjects s' !! a = Some o → deleted o = true.
Proof.
  intros He o Ho. unfold getStateObject in He. apply db_bind_inv in He as (r & s1 & He1 & He).
  destruct (getDeleted_cases a s) as (r1 & s1' & He1' & _ & Hcase). rewrite He1 in He1'. injection He1' as <- <-.
  assert (∀ x s2 s3, record_pre a x s2 = Ret (tt, s3) → stateObjects s3 = stateObjects s2) as Hrec.
  { intros x s2 s3 He3. unfold record_pre in He3. rewrite get_bind in He3. destruct (ResearchPreAlloc s2 !! a); by injection He3 as <-. }
  destruct r as [p|].
  - destruct Hcase as [Hp _]. destruct (deleted p) eqn:Hd.
    + apply db_bind_inv in He as ([] & s2 & He2 & He). injection He as <-. rewrite (Hrec _ _ _ He2) in Ho. congruence.
    + rewrite get_bind in He. destruct (ResearchPreAlloc s1 !! a); [done|].
      apply db_bind_inv in He as (code & s2 & He2 & He). apply db_bind_inv in He as ([] & s3 & He3 & He).
      injection He as Hn <-. congruence.
  - apply db_bind_inv in He as ([] & s2 & He2 & He). injection He as <-. rewrite (Hrec _ _ _ He2) in Ho.
    destruct Hcase as ([->|[err ->]] & _ & Hn); cbn in Ho; congruence.
Qed.

Lemma not_there W a s : Rec W s → is_Some (ResearchPreAlloc s !! a) → (∀ o, stateObjects s !! a = Some o → deleted o = true) →
  ResearchPreAlloc s !! a = Some None.
Proof.
  intros Hr [[sa|] Ha] Hd; [|done]. destruct (rec_present _ _ Hr a sa Ha) as (v & o & _ & _ & Ho & Hdo & _).
  rewrite (Hd o Ho) in Hdo. done.
Qed.

(** ** Creating an account *)

Lemma committed_new a : committed_value (newObject a true no_data) = λ _, 0.
Proof. exact (f_equal av_Committed (view_new a)). Qed.

Lemma ok_createObject a W :
  (∀ v, account s0 a = Some v → bare v) → ok {[a]} W (createObject a) {[a]} W.
Proof.
  intros Hbare s x s' Hr Ha He. unfold createObject in He. apply db_bind_inv in He as (prev & s1 & He1 & He).
  destruct (getDeleted_Rec W a s prev s1 Hr He1) as (Hr1 & Hp1 & Ho1 & _).
  assert (is_Some (ResearchPreAlloc s1 !! a)) as Ha1 by (rewrite Hp1; by apply Ha, elem_of_singleton).
  assert (∃ e s2, append e s1 = Ret (tt, s2) ∧ entry_rec (ResearchPreAlloc s1) e ∧ stateObjects s' = <[a := newObject a true no_data]> (stateObjects s1) ∧
    ResearchPreAlloc s' = ResearchPreAlloc s1 ∧ trie s' = trie s1 ∧ entries (jrnl s') = entries (jrnl s1) ++ [e])
    as (e & s2 & _ & Hent & Eo & Ep & Et & Ej).
  { destruct prev as [p|].
    - exists (resetObjectChange p). eexists. split; [done|]. apply db_bind_inv in He as ([] & s2 & [= <-] & [= _ <-]).
      split; [|done]. cbn. destruct (rec_objects _ _ Hr1 a p Ho1) as [Htk Hadr]. rewrite Hadr. split; [done|]. split; [done|].
      intros sa Hsa. destruct (rec_present _ _ Hr1 a sa Hsa) as (v & o & Hv & _ & Ho & Hd & Hc & _).
      exists v. assert (o = p) as -> by congruence. split_and!; try done. by apply Hbare.
    - exists (createObjectChange a). eexists. split; [done|]. apply db_bind_inv in He as ([] & s2 & [= <-] & [= _ <-]).
      split; [|done]. cbn. apply (not_there W a s1 Hr1 Ha1). intros o Ho. congruence. }
  clear He. split; [|split].
  - destruct Hr1 as [Ht Hu Hab Hp Hen Hob Hw]. split; rewrite ?Ep, ?Et, ?Ej; try done.
    + intros b Hb. unfold account. rewrite Eo, Et, lookup_insert_ne; [by apply Hu|]. intros ->. destruct Ha1. congruence.
    + intros b sa Hb. destruct (Hp b sa Hb) as (v & o & Hv & Hm & Ho & Hd & Hc & Htw). exists v. rewrite Eo.
      destruct (decide (b = a)) as [->|Hne].
      * exists (newObject a true no_data). rewrite lookup_insert, decide_True by done. rewrite committed_new. pose proof (Hbare v Hv) as Hbv.
        split_and!; try done; by left.
      * exists o. by rewrite lookup_insert_ne by congruence.
    + apply Forall_app. by split; [|constructor].
    + intros b o. rewrite Eo. destruct (decide (b = a)) as [->|Hne].
      * rewrite lookup_insert, decide_True by done. intros [= <-]. split; [apply newObject_touched|done].
      * rewrite lookup_insert_ne by congruence. apply Hob.
  - rewrite Ep. by intros b ->%elem_of_singleton.
  - by rewrite Ep, Hp1.
Qed.

Lemma ok_GetOrNew a W : ok ∅ W (GetOrNewStateObject a) {[a]} W.
Proof.
  intros s x s' Hr HA He. unfold GetOrNewStateObject in He. apply db_bind_inv in He as (r & s1 & He1 & He).
  destruct (ok_getStateObject ∅ a W s r s1 Hr HA He1) as (Hr1 & Ha1 & Hm1). destruct r as [o|].
  - injection He as _ <-. split; [done|]. split; [|done]. intros b Hb. apply Ha1. set_solver.
  - apply db_bind_inv in He as (y & s2 & He2 & [= _ <-]).
    assert (ResearchPreAlloc s1 !! a = Some None) as Hn.
    { apply (not_there W a s1 Hr1); [apply Ha1; set_solver|]. by eapply getState_none. }
    destruct (ok_createObject a W) with (s := s1) (x := y) (s' := s2) as (Hr2 & Ha2 & Hm2); try done.
    + intros v Hv. rewrite (rec_absent _ _ Hr1 a Hn) in Hv. done.
    + intros b Hb. apply Ha1. set_solver.
    + split; [done|]. split; [done|]. auto.
Qed.
(** ** Going back *)

Lemma ok_weaken {B : Type} (m : DB B) A A0 A1 A2 W W' : ok A W m A1 W' → A ⊆ A0 → A2 ⊆ A1 → ok A0 W m A2 W'.
Proof.
  intros Hm Hsub Hsub2 s x s' Hr HA He. destruct (Hm s x s' Hr) as (Hr' & HA' & Hg); [by auto|done|]. split; [done|]. split; [by auto|done].
Qed.

Lemma ok_read a W : ok {[a]} W (getStateObject a) {[a]} W.
Proof. eapply ok_weaken; [apply (ok_getStateObject ∅)|set_solver|set_solver]. Qed.

Lemma ok_live a W k : ok {[a]} W k {[a]} W → ok {[a]} W (get_or_panic a k) {[a]} W.
Proof.
  intros Hk. eapply ok_bind; [apply ok_read|].
  intros [o|]; [done|apply ok_go].
Qed.

Lemma good_data f : (∀ d, Root (f d) = Root d) → good_update (set_data f).
Proof. intros Hf o Hn. by cbn; rewrite Hf. Qed.
Lemma good_code h c : good_update (λ o, set_dirtyCode true (set_data (set_CodeHash h) (set_code c o))).
Proof. by intros o Hn. Qed.
Lemma good_dirty k v : good_update (λ o, set_storage (originStorage o) (pendingStorage o) (<[k := v]> (dirtyStorage o)) o).
Proof. by intros o Hn. Qed.
Lemma good_suicided b : good_update (set_suicided b).
Proof. by intros o Hn. Qed.

Lemma ok_setBalance a b W : ok {[a]} W (setBalance a b) {[a]} W.
Proof. by apply ok_update, good_data. Qed.
Lemma ok_setNonce a n W : ok {[a]} W (setNonce a n) {[a]} W.
Proof. by apply ok_update, good_data. Qed.
Lemma ok_setCode a h c W : ok {[a]} W (setCode a h c) {[a]} W.
Proof. by apply ok_update, good_code. Qed.
Lemma ok_setState a k v W : ok {[a]} W (setState a k v) {[a]} W.
Proof. by apply ok_update, good_dirty. Qed.

Lemma revert_entry_rec e W s s' :
  Rec W s → entry_rec (ResearchPreAlloc s) e → revert_entry e s = Ret (tt, s') →
  Rec W s' ∧ ∀ b y, ResearchPreAlloc s !! b = Some y → ResearchPreAlloc s' !! b = Some y.
Proof.
  intros Hr He Hx.
  assert (∀ a A', ok {[a]} W (revert_entry e) A' W → is_Some (ResearchPreAlloc s !! a) →
    Rec W s' ∧ ∀ b y, ResearchPreAlloc s !! b = Some y → ResearchPreAlloc s' !! b = Some y) as Hok.
  { intros a A' Hm Ha. destruct (Hm s tt s' Hr) as (Hr' & _ & Hg); [by intros b ->%elem_of_singleton|done|done]. }
  assert (ok ∅ W (revert_entry e) ∅ W → Rec W s' ∧ ∀ b y, ResearchPreAlloc s !! b = Some y → ResearchPreAlloc s' !! b = Some y) as Hok0.
  { intros Hm. destruct (Hm s tt s' Hr) as (Hr' & _ & Hg); [intros b Hb; by apply elem_of_empty in Hb|done|done]. }
  destruct e as [a|prev|a p b|a b|a n|a k v|a c h|r|h|h|a|a|a slot]; cbn [revert_entry entry_rec dirtied] in *.
  - injection Hx as <-. split; [|done]. destruct Hr as [Ht Hu Hab Hp Hen Ho Hw]. split; cbn; try done.
    + intros b Hb. unfold account. cbn. rewrite lookup_delete_ne; [by apply Hu|]. intros ->. congruence.
    + intros b sa Hb. destruct (Hp b sa Hb) as (v & o & Hrest). exists v, o. rewrite lookup_delete_ne; [done|]. intros ->. congruence.
    + intros b o Hb. apply lookup_delete_Some in Hb as [_ Hb]. by apply Ho.
  - injection Hx as <-. split; [|done]. destruct He as (Htk & Ha & Hsa). destruct Hr as [Ht Hu Hab Hp Hen Ho Hw]. split; cbn; try done.
    + intros b Hb. rewrite account_insert. rewrite decide_False; [by apply Hu|]. intros ->. destruct Ha. congruence.
    + intros b sa Hb. destruct (decide (b = so_address prev)) as [->|Hne].
      * destruct (Hsa sa Hb) as (v & Hv & Hbare & Hd & Hc). exists v, prev. rewrite lookup_insert, decide_True by done.
        destruct (Hp _ sa Hb) as (v' & o & Hv' & Hm & _). simplify_eq. split_and!; try done. by left.
      * destruct (Hp b sa Hb) as (v & o & Hrest). exists v, o. by rewrite lookup_insert_ne by congruence.
    + intros b o Hb. destruct (decide (b = so_address prev)) as [->|Hne].
      * rewrite lookup_insert, decide_True in Hb by done. by injection Hb as <-.
      * rewrite lookup_insert_ne in Hb by congruence. by apply Ho.
  - apply (Hok a {[a]}); [|done]. eapply ok_bind; [apply ok_read|]. intros [o|]; [|apply ok_ret].
    eapply ok_bind; [apply ok_update, good_suicided|]. intros _. apply ok_setBalance.
  - apply (Hok a {[a]}); [|done]. apply ok_live, ok_setBalance.
  - apply (Hok a {[a]}); [|done]. apply ok_live, ok_setNonce.
  - apply (Hok a {[a]}); [|done]. apply ok_live, ok_setState.
  - apply (Hok a {[a]}); [|done]. apply ok_live, ok_setCode.
  - apply Hok0. by apply ok_modify.
  - apply Hok0. eapply ok_bind; [apply ok_get|]. intros l. destruct (_ =? 0); [apply ok_go|by apply ok_modify].
  - apply Hok0. by apply ok_modify.
  - apply Hok0. apply ok_ret.
  - apply Hok0. by apply ok_modify.
  - apply Hok0. eapply ok_bind; [apply ok_get|]. intros al. eapply ok_bind; [apply ok_go|]. intros al'. by apply ok_modify.
Qed.

Lemma revert_entries_rec l W s s' :
  Rec W s → Forall (entry_rec (ResearchPreAlloc s)) l → revert_entries l s = Ret (tt, s') →
  Rec W s' ∧ ∀ b y, ResearchPreAlloc s !! b = Some y → ResearchPreAlloc s' !! b = Some y.
Proof.
  revert s. induction l as [|e l IH]; intros s Hr Hl He.
  - by injection He as <-.
  - apply Forall_cons in Hl as [Hel Hl]. cbn [revert_entries] in He. apply db_bind_inv in He as ([] & s1 & He1 & He).
    destruct (revert_entry_rec e W s s1 Hr Hel He1) as [Hr1 Hg1]. apply db_bind_inv in He as ([] & s2 & He2 & He).
    assert (ok ∅ W (match dirtied e with Some addr => db_modify (λ s, set_jrnl (undirty addr (jrnl s)) s) | None => mret tt end) ∅ W) as Hu.
    { destruct (dirtied e); [by apply ok_modify|apply ok_ret]. }
    destruct (Hu s1 tt s2 Hr1) as (Hr2 & _ & Hg2); [intros b Hb; by apply elem_of_empty in Hb|done|].
    destruct (IH s2 Hr2) as [Hr3 Hg3]; [|done|split; [done|by auto]].
    eapply Forall_impl; [exact Hl|]. intros e'. apply entry_rec_more. auto.
Qed.

Lemma ok_RevertToSnapshot id W : ok ∅ W (RevertToSnapshot id) ∅ W.
Proof.
  eapply ok_bind; [apply ok_get|]. intros revs. cbv beta zeta. case_match; [|apply ok_go]. case_match; [|apply ok_go].
  eapply ok_bind; [|intros _; by apply ok_modify].
  intros s x s' Hr HA He. unfold journal_revert in He. rewrite get_bind in He. apply db_bind_inv in He as ([] & s1 & He1 & He).
  apply revert_entries_rec with (W := W) in He1 as [Hr1 Hg1]; [|done|apply Forall_rev, Forall_drop, Hr].
  destruct (_ <? _); [done|]. injection He as <- <-. split; [|split; [intros b Hb; by apply elem_of_empty in Hb|exact Hg1]].
  destruct Hr1 as [Ht Hu Hab Hp Hen Ho Hw]. split; try done. by apply Forall_take.
Qed.
(** ** Operations *)

Lemma Rec_touch_absent W s a k : Rec W s → ResearchPreAlloc s !! a = Some None → Rec ({[(a, k)]} ∪ W) s.
Proof.
  intros [Ht Hu Hab Hp Hen Ho Hw] Ha. split; try done.
  - intros b sa Hb. destruct (Hp b sa Hb) as (v & o & Hv & Hm & Hob & Hd & Hc & Hbt). exists v, o. split_and!; try done.
    destruct Hbt as [|Hbt]; [by left|right]. intros k' [[= -> ->]%elem_of_singleton|Hk]%elem_of_union; [congruence|by apply Hbt].
  - intros b k' [[= -> ->]%elem_of_singleton|Hk]%elem_of_union; [by eexists|by eapply Hw].
Qed.

Lemma ok_touch a k W : hash_ok k → ok {[a]} W (on_object a (so_GetState k)) {[a]} ({[(a, k)]} ∪ W).
Proof.
  intros Hk s x s' Hr Ha He. destruct (ok_on_object a (so_GetState k) W (good_GetState k Hk) s x s' Hr Ha He) as (Hr' & Ha' & Hg).
  split; [|done]. unfold on_object in He. rewrite get_bind in He. destruct (stateObjects s !! a) as [o|] eqn:Ho; [|done].
  apply db_bind_inv in He as ([o' y] & s1 & Hgo & He). unfold db_go in Hgo. destruct (so_GetState k o) as [[o1 y1]|] eqn:Hfo; [|done].
  injection Hgo as <- <- <-. rewrite modify_bind in He. injection He as <- <-.
  destruct Hr' as [Ht Hu Hab Hp Hen Hob Hw]. split; try done.
  - intros b sa Hb. destruct (Hp b sa Hb) as (v & ob & Hv & Hm & Hobb & Hd & Hc & Hbt). exists v, ob. split_and!; try done.
    destruct Hbt as [|Hbt]; [by left|right]. intros k' [[= -> ->]%elem_of_singleton|Hk']%elem_of_union; [|by apply Hbt].
    cbn in Hobb. rewrite lookup_insert, decide_True in Hobb by done. injection Hobb as <-.
    rewrite (touched_state _ _ _ _ Hfo). set_solver.
  - intros b k' [[= -> ->]%elem_of_singleton|Hk']%elem_of_union; [|by eapply Hw].
    apply (Ha' a). by apply elem_of_singleton.
Qed.

Lemma ok_read_object {B : Type} a (absent : B) f W : good_fun f → ok ∅ W (read_object a absent f) {[a]} W.
Proof.
  intros Hf. eapply ok_bind; [eapply (ok_weaken _ ∅ _ _ {[a]}); [apply ok_getStateObject|set_solver|set_solver]|].
  intros [o|]; [by apply ok_on_object|apply ok_ret].
Qed.

Lemma ok_GetState a k W : hash_ok k → ok ∅ W (GetState a k) {[a]} ({[(a, k)]} ∪ W).
Proof.
  intros Hk s x s' Hr HA He. unfold GetState, read_object in He. apply db_bind_inv in He as (r & s1 & He1 & He).
  destruct (ok_getStateObject ∅ a W s r s1 Hr HA He1) as (Hr1 & Ha1 & Hg1). destruct r as [o|].
  - destruct (ok_touch a k W Hk s1 x s' Hr1) as (Hr2 & Ha2 & Hg2); [intros b Hb; apply Ha1; set_solver|done|]. split; [done|]. split; [done|auto].
  - injection He as _ <-. split; [|split; [intros b Hb; apply Ha1; set_solver|done]].
    apply Rec_touch_absent; [done|]. apply (not_there W); [done|apply Ha1; set_solver|by eapply getState_none].
Qed.

Lemma ok_SetState a k v W : hash_ok k → ok ∅ W (SetState a k v) {[a]} ({[(a, k)]} ∪ W).
Proof.
  intros Hk. eapply ok_bind; [apply ok_GetOrNew|]. intros _ s x s' Hr HA He. unfold so_SetState in He.
  apply db_bind_inv in He as (fake & s1 & He1 & He).
  destruct (ok_on_object a _ W (good_pure fakeStorage) s fake s1 Hr HA He1) as (Hr1 & Ha1 & Hg1).
  assert (fake = None) as ->.
  { unfold object_at, on_object in He1. rewrite get_bind in He1. destruct (stateObjects s !! a) as [o|] eqn:Ho; [|done].
    injection He1 as <- _. apply (rec_objects _ _ Hr a o Ho). }
  assert (ok {[a]} W (prev ← on_object a (so_GetState k); if prev =? v then mret tt else _ ← append (storageChange a k prev); setState a k v)
    {[a]} ({[(a, k)]} ∪ W)) as Hok.
  { eapply ok_bind; [by apply ok_touch|]. intros prev. destruct (prev =? v); [apply ok_ret|].
    eapply ok_bind; [by apply ok_append|]. intros _. apply ok_setState. }
  destruct (Hok s1 x s' Hr1 Ha1 He) as (Hr2 & Ha2 & Hg2). split; [done|]. split; [done|auto].
Qed.

Definition op_address (op : Op) : option Address :=
  match op with
  | OpCreateAccount a | OpSubBalance a _ | OpAddBalance a _ | OpSetBalance a _ | OpGetBalance a | OpGetNonce a | OpSetNonce a _
  | OpGetCodeHash a | OpGetCode a | OpSetCode a _ | OpGetCodeSize a | OpGetCommittedState a _ | OpGetState a _ | OpSetState a _ _
  | OpSuicide a | OpHasSuicided a | OpExist a | OpEmpty a => Some a
  | _ => None
  end.
Definition op_slot (op : Op) : gset (Address * Hash) :=
  match op with OpGetState a k | OpSetState a k _ => {[(a, k)]} | _ => ∅ end.

(** As the virtual machine calls the state: an account is read before it is
    created over, and then has no storage; the committed value of a slot is read
    after its value. *)
Definition op_allowed (seen : gset Address) (W : gset (Address * Hash)) (op : Op) : Prop :=
  match op with
  | OpCreateAccount a => a ∈ seen ∧ ∀ v, account s0 a = Some v → bare v
  | OpGetCommittedState a k => (a, k) ∈ W
  | OpGetState a k | OpSetState a k _ => hash_ok k
  | _ => True
  end.

Lemma ok_object_at {B : Type} a (f : stateObject → B) W : ok {[a]} W (object_at a f) {[a]} W.
Proof. apply ok_on_object, good_pure. Qed.

Lemma ok_so_SetBalance a b W : ok {[a]} W (so_SetBalance a b) {[a]} W.
Proof.
  eapply ok_bind; [apply ok_object_at|]. intros prev. eapply ok_bind; [by apply ok_append|]. intros _. apply ok_setBalance.
Qed.

Lemma ok_out {B C : Type} (m : DB B) (f : B → C) A W A' W' : ok A W m A' W' → ok A W (x ← m; mret (f x)) A' W'.
Proof. intros Hm. eapply ok_bind; [done|]. intros x. apply ok_ret. Qed.

Definition addresses_of (op : Op) : gset Address := match op_address op with Some a => {[a]} | None => ∅ end.

Lemma run_op_ok op seen W : op_allowed seen W op →
  ok (match op with OpCreateAccount a => {[a]} | _ => ∅ end) W (run_op op) (addresses_of op) (op_slot op ∪ W).
Proof.
  intros Hop. destruct op; cbn [run_op addresses_of op_address op_slot op_allowed] in *;
    try (assert (∅ ∪ W = W) as -> by set_solver); apply ok_out.
  - eapply ok_bind; [apply ok_createObject; by destruct Hop|]. intros [p|]; [apply ok_setBalance|apply ok_ret].
  - eapply ok_bind; [apply ok_GetOrNew|]. intros _. unfold so_SubBalance. destruct (_ =? 0); [apply ok_ret|].
    eapply ok_bind; [apply ok_object_at|]. intros b. apply ok_so_SetBalance.
  - eapply ok_bind; [apply ok_GetOrNew|]. intros _. unfold so_AddBalance. destruct (_ =? 0).
    + eapply ok_bind; [apply ok_object_at|]. intros [|]; [|apply ok_ret]. eapply ok_bind; [by apply ok_append|]. intros _.
      destruct (_ =? _); [by apply ok_modify|apply ok_ret].
    + eapply ok_bind; [apply ok_object_at|]. intros b. apply ok_so_SetBalance.
  - eapply ok_bind; [apply ok_GetOrNew|]. intros _. apply ok_so_SetBalance.
  - apply ok_read_object, good_pure.
  - apply ok_read_object, good_pure.
  - eapply ok_bind; [apply ok_GetOrNew|]. intros _. eapply ok_bind; [apply ok_object_at|]. intros prev.
    eapply ok_bind; [by apply ok_append|]. intros _. apply ok_setNonce.
  - apply ok_read_object, good_pure.
  - apply ok_read_object, good_Code.
  - eapply ok_bind; [apply ok_GetOrNew|]. intros _. eapply ok_bind; [apply ok_on_object, good_Code|]. intros prevcode.
    eapply ok_bind; [apply ok_object_at|]. intros prev. eapply ok_bind; [by apply ok_append|]. intros _. apply ok_setCode.
  - apply ok_read_object, good_CodeSize.
  - eapply ok_bind; [apply ok_get|]. intros r. eapply ok_bind; [by apply ok_append_other|]. intros _. by apply ok_modify.
  - eapply ok_bind; [apply ok_get|]. intros r. eapply ok_bind; [by apply ok_append_other|]. intros _.
    destruct (_ <? _); [apply ok_go|by apply ok_modify].
  - apply ok_get.
  - apply ok_read_object, good_GetCommittedState.
  - by apply ok_GetState.
  - by apply ok_SetState.
  - eapply ok_bind; [eapply (ok_weaken _ ∅ _ _ {[a]}); [apply ok_getStateObject|set_solver|set_solver]|].
    intros [o|]; [|apply ok_ret]. eapply ok_bind; [by apply ok_append|]. intros _.
    eapply ok_bind; [apply ok_update, good_suicided|]. intros _. eapply ok_bind; [by apply ok_update, good_data|]. intros _. apply ok_ret.
  - apply ok_read_object, good_pure.
  - apply ok_out. eapply ok_weaken; [apply ok_getStateObject|set_solver|set_solver].
  - apply ok_read_object, good_pure.
  - apply ok_get.
  - eapply ok_bind; [apply ok_get|]. intros al. apply ok_go.
  - eapply ok_bind; [apply ok_get|]. intros al. destruct (AddAddress al a) as [al' added].
    eapply ok_bind; [by apply ok_modify|]. intros _. destruct added; [by apply ok_append_other|apply ok_ret].
  - eapply ok_bind; [apply ok_get|]. intros al. eapply ok_bind; [apply ok_go|]. intros [[al' b1] b2].
    eapply ok_bind; [by apply ok_modify|]. intros _.
    eapply ok_bind; [destruct b1; [by apply ok_append_other|apply ok_ret]|]. intros _. destruct b2; [by apply ok_append_other|apply ok_ret].
  - eapply ok_bind; [apply ok_get|]. intros h. eapply ok_bind; [by apply ok_append_other|]. intros _.
    eapply ok_bind; [apply ok_get|]. intros l'. eapply ok_bind; [by apply ok_modify|]. intros _. apply ok_ret.
  - eapply ok_bind; [apply ok_get|]. intros p. destruct (p !! h); [apply ok_ret|].
    eapply ok_bind; [by apply ok_append_other|]. intros _. by apply ok_modify.
  - eapply ok_bind; [apply ok_get|]. intros n. eapply ok_bind; [by apply ok_modify|]. intros _. apply ok_ret.
  - apply ok_RevertToSnapshot.
Qed.
End recording.

(** * Replaying what was recorded

    Two specification states that agree on the accounts and slots an operation
    names give the same results: a state that was made from a recording answers
    like the one that was recorded. *)

Record views_agree (K : Hash → Prop) (v v' : AccView) : Prop := {
  ag_nonce : av_Nonce v' = av_Nonce v;
  ag_balance : av_Balance v' = av_Balance v;
  ag_hash : av_CodeHash v' = av_CodeHash v;
  ag_code : av_Code v' = av_Code v;
  ag_suicided : av_suicided v' = av_suicided v;
  ag_state : ∀ k, K k → av_State v' k = av_State v k;
  ag_committed : ∀ k, K k → av_Committed v' k = av_Committed v k
}.

Definition accounts_agree (K : Hash → Prop) (v v' : option AccView) : Prop :=
  match v, v' with Some v, Some v' => views_agree K v v' | None, None => True | _, _ => False end.

Section agree.
Context `{Externals}.
Context (T : Address → Prop) (K : Address → Hash → Prop).

Record agree (A A' : AState) : Prop := {
  ag_account : ∀ a, T a → accounts_agree (K a) (a_account A a) (a_account A' a);
  ag_refund : a_refund A' = a_refund A;
  ag_access : a_access A' = a_access A
}.

(** The accounts and the slots that an operation names. *)
Definition within (op : Op) : Prop :=
  (∀ a, op_address op = Some a → T a) ∧
  match op with OpGetState a k | OpSetState a k _ | OpGetCommittedState a k => K a k | _ => True end.

Definition same_log (l l' : Log) : Prop :=
  log_Address l' = log_Address l ∧ log_Topics l' = log_Topics l ∧ log_Data l' = log_Data l ∧ log_BlockNumber l' = log_BlockNumber l.

(** Results are the same, but for the position of a log in its block and the
    numbers of the snapshots. *)
Definition same_out (d : Z) (op : Op) (o o' : Out) : Prop :=
  match op with
  | OpSnapshot => ∃ z, o = OutZ z ∧ o' = OutZ (z + d)
  | OpAddLog _ => ∃ l l', o = OutLog l ∧ o' = OutLog l' ∧ same_log l l'
  | _ => o' = o
  end.

Definition shift (d : Z) (op : Op) : Op := match op with OpRevertToSnapshot id => OpRevertToSnapshot (id + d) | op => op end.

Lemma accounts_read {X} a (x : X) f A A' :
  agree A A' → T a → (∀ v v', views_agree (K a) v v' → f v' = f v) → a_read a x f A' = a_read a x f A.
Proof.
  intros [Hacc _ _] Ha Hf. specialize (Hacc a Ha). unfold a_read, accounts_agree in *.
  destruct (a_account A a), (a_account A' a); try done. by apply Hf.
Qed.

Lemma agree_set a v v' A A' :
  agree A A' → (T a → accounts_agree (K a) v v') → agree (set_account a v A) (set_account a v' A').
Proof.
  intros [Hacc Hr Hal] Hv. split; try done. intros b Hb. cbn. case_decide as Hba; [subst; by apply Hv|by apply Hacc].
Qed.

Lemma views_refl P v : views_agree P v v.
Proof. by split. Qed.

Lemma agree_update a f A A' :
  agree A A' → T a → (∀ v v', views_agree (K a) v v' → views_agree (K a) (f v) (f v')) →
  agree (update_account a f A) (update_account a f A').
Proof.
  intros Hag Ha Hf. apply agree_set; [done|]. intros _. pose proof (ag_account _ _ Hag a Ha) as Hacc. unfold accounts_agree in *.
  destruct (a_account A a), (a_account A' a); try done; apply Hf; first [done|apply views_refl].
Qed.

Definition outcome (op : Op) (r r' : Go (Out * AState)) : Prop :=
  match r, r' with
  | Ret (o, A), Ret (o', A') => same_out 0 op o o' ∧ agree A A'
  | Panic p, Panic p' => p = p'
  | _, _ => False
  end.

Lemma views_set_Balance P b b' v v' : views_agree P v v' → b = b' → views_agree P (v_set_Balance b v) (v_set_Balance b' v').
Proof. intros [] <-. by split. Qed.

Lemma spec_change_agree op A A' : op ≠ OpSnapshot → within op → agree A A' → outcome op (spec_change op A) (spec_change op A').
Proof.
  intros Hns [Ha Hk] Hag. pose proof Hag as [Hacc Hr Hal].
  assert (∀ (o o' : Out) B B', same_out 0 op o o' → agree B B' → outcome op (Ret (o, B)) (Ret (o', B'))) as Hret by done.
  destruct op; cbn [spec_change op_address] in *; try (specialize (Ha _ eq_refl)).
  - apply Hret; [done|]. apply agree_set; [done|]. intros _. apply views_set_Balance; [apply views_refl|].
    symmetry. apply accounts_read; [done..|]. by intros v v' [].
  - apply Hret; [done|]. apply agree_update; [done..|]. intros v v' Hv. apply views_set_Balance; [done|]. by rewrite (ag_balance _ _ _ Hv).
  - apply Hret; [done|]. apply agree_update; [done..|]. intros v v' Hv. apply views_set_Balance; [done|]. by rewrite (ag_balance _ _ _ Hv).
  - apply Hret; [done|]. apply agree_update; [done..|]. intros v v' Hv. by apply views_set_Balance.
  - apply Hret; [|done]. cbn. f_equal. apply accounts_read; [done..|]. by intros v v' [].
  - apply Hret; [|done]. cbn. f_equal. apply accounts_read; [done..|]. by intros v v' [].
  - apply Hret; [done|]. apply agree_update; [done..|]. intros v v' []. by split.
  - apply Hret; [|done]. cbn. f_equal. apply accounts_read; [done..|]. intros v v' Hv. by rewrite (ag_hash _ _ _ Hv).
  - apply Hret; [|done]. cbn. f_equal. apply accounts_read; [done..|]. by intros v v' [].
  - apply Hret; [done|]. apply agree_update; [done..|]. intros v v' []. by split.
  - apply Hret; [|done]. cbn. f_equal. apply accounts_read; [done..|]. intros v v' Hv. by rewrite (ag_code _ _ _ Hv).
  - apply Hret; [done|]. split; [done|cbn; by rewrite Hr|done].
  - rewrite Hr. destruct (a_refund A <? gas); [done|]. apply Hret; [done|]. split; done.
  - apply Hret; [|done]. cbn. by rewrite Hr.
  - apply Hret; [|done]. cbn. f_equal. apply accounts_read; [done..|]. intros v v' Hv. by apply (ag_committed _ _ _ Hv).
  - apply Hret; [|done]. cbn. f_equal. apply accounts_read; [done..|]. intros v v' Hv. by apply (ag_state _ _ _ Hv).
  - apply Hret; [done|]. apply agree_update; [done..|]. intros v v' []. split; try done. intros x Hx. cbn. case_decide; auto.
  - specialize (Hacc a Ha). unfold accounts_agree in Hacc. destruct (a_account A a), (a_account A' a); try done.
    apply Hret; [done|]. apply agree_set; [done|]. intros _. destruct Hacc. by split.
  - apply Hret; [|done]. cbn. f_equal. apply accounts_read; [done..|]. by intros v v' [].
  - apply Hret; [|done]. cbn. f_equal. specialize (Hacc a Ha). unfold accounts_agree in Hacc.
    destruct (a_account A a), (a_account A' a); try done; by rewrite !bool_decide_true by by eexists.
  - apply Hret; [|done]. cbn. f_equal. apply accounts_read; [done..|]. intros v v' [En Eb Eh _ _ _ _]. unfold v_empty. by rewrite En, Eb, Eh.
  - apply Hret; [|done]. cbn. by rewrite Hal.
  - rewrite Hal. destruct (Contains (a_access A) a slot); [|done]. by apply Hret.
  - apply Hret; [done|]. split; [done|done|cbn; by rewrite Hal].
  - rewrite Hal. destruct (AddSlot (a_access A) a slot) as [[[al b1] b2]|]; [|done]. apply Hret; [done|]. by split.
  - apply Hret; [|by split]. eexists _, _. by split_and!.
  - apply Hret; [done|]. by destruct (a_preimages A !! h), (a_preimages A' !! h); split.
  - done.
  - by apply Hret.
Qed.

(** ** Snapshots *)

Record spec_agree (d : Z) (m m' : Spec) : Prop := {
  sa_now : agree (now m) (now m');
  sa_next : next m' = next m + d;
  sa_saved : Forall2 (λ p p', fst p' = fst p + d ∧ agree (snd p) (snd p')) (saved m) (saved m')
}.

Lemma restore_agree d id l l' :
  Forall2 (λ p p', fst p' = fst p + d ∧ agree (snd p) (snd p')) l l' →
  match restore id l, restore (id + d) l' with
  | Some (A, r), Some (A', r') => agree A A' ∧ Forall2 (λ p p', fst p' = fst p + d ∧ agree (snd p) (snd p')) r r'
  | None, None => True
  | _, _ => False
  end.
Proof.
  induction 1 as [|[i A] [i' A'] l l' [Hi HA] Hl IH]; [done|]. cbn in *. subst i'.
  destruct (Z.eqb_spec i id) as [->|Hne]; [rewrite Z.eqb_refl; by split|].
  destruct (Z.eqb_spec (i + d) (id + d)); [lia|].
  destruct (restore id l) as [[B r]|], (restore (id + d) l') as [[B' r']|]; cbn; try done.
  destruct IH as [HB Hr]. split; [done|]. by constructor.
Qed.

Definition results (d : Z) (op : Op) (r r' : Go (Out * Spec)) : Prop :=
  match r, r' with
  | Ret (o, m), Ret (o', m') => same_out d op o o' ∧ spec_agree d m m'
  | Panic p, Panic p' => p = p'
  | _, _ => False
  end.

Lemma spec_op_agree d op m m' :
  within op → spec_agree d m m' → results d op (spec_op op m) (spec_op (shift d op) m').
Proof.
  intros Hw [Hnow Hnext Hsaved].
  assert (∀ op', op ≠ OpSnapshot → op' = op → (∀ o o', same_out 0 op o o' → same_out d op o o') →
    results d op ('(out, A) ← spec_change op (now m); Ret (out, mkSpec A (saved m) (next m)))
                 ('(out, A) ← spec_change op' (now m'); Ret (out, mkSpec A (saved m') (next m')))) as Hch.
  { intros op' Hns -> Hsame. pose proof (spec_change_agree op _ _ Hns Hw Hnow) as Ho. unfold outcome in Ho.
    destruct (spec_change op (now m)) as [[o A]|p], (spec_change op (now m')) as [[o' A']|p']; try done.
    destruct Ho as [Hoo HA]. split; [by apply Hsame|by split]. }
  destruct op; try (apply Hch; done).
  - cbn. split; [by exists (next m); rewrite Hnext|]. split; [done|cbn; lia|]. apply Forall2_app; [done|].
    constructor; [|constructor]. by split.
  - cbn. pose proof (restore_agree d id _ _ Hsaved) as Hr.
    destruct (restore id (saved m)) as [[A r]|], (restore (id + d) (saved m')) as [[A' r']|]; cbn; try done.
    destruct Hr as [HA Hr]. by split.
Qed.

Fixpoint same_outs (d : Z) (ops : list Op) (outs outs' : list Out) : Prop :=
  match ops, outs, outs' with
  | [], [], [] => True
  | op :: ops, o :: outs, o' :: outs' => same_out d op o o' ∧ same_outs d ops outs outs'
  | _, _, _ => False
  end.

Lemma spec_run_agree d ops m m' outs m1 :
  Forall within ops → spec_agree d m m' → spec_run ops m = Ret (outs, m1) →
  ∃ outs' m1', spec_run (shift d <$> ops) m' = Ret (outs', m1') ∧ same_outs d ops outs outs' ∧ spec_agree d m1 m1'.
Proof.
  intros Hw. revert m m' outs. induction Hw as [|op ops Hop Hw IH]; intros m m' outs Hag He.
  - injection He as <- <-. by exists [], m'.
  - cbn in He. destruct (spec_op op m) as [[o m2]|] eqn:E1; [|done]. cbn in He.
    destruct (spec_run ops m2) as [[outs2 m3]|] eqn:E2; [|done]. injection He as <- <-.
    pose proof (spec_op_agree d op m m' Hop Hag) as Hr. unfold results in Hr. rewrite E1 in Hr.
    destruct (spec_op (shift d op) m') as [[o' m2']|] eqn:E1'; [|done]. destruct Hr as [Ho Hag2].
    destruct (IH m2 m2' outs2 Hag2 E2) as (outs' & m3' & E2' & Hs & Hag3). exists (o' :: outs'), m3'.
    split; [|done]. cbn. by rewrite E1'; cbn; rewrite E2'.
Qed.
End agree.

(** ** A transaction *)

Section replay.
Context `{HD : DatabaseLaws} `{!MemoryDatabase}.

(** Where a transaction starts. *)
Record tx_start (s : statedb) : Prop := {
  ts_swf : swf s;
  ts_awf : awf (abs s);
  ts_entries : entries (jrnl s) = [] ∧ validRevisions s = [];
  ts_recorded : ResearchPreAlloc s = ∅;
  ts_touched : ∀ a o, stateObjects s !! a = Some o → ResearchTouched o = ∅;
  ts_refund : refund s = 0;
  ts_access : access s = newAccessList;
  ts_clean : ∀ a v, account s a = Some v →
    av_suicided v = false ∧ av_State v = av_Committed v ∧ av_CodeHash v = Keccak256 (av_Code v)
}.

Lemma start_Rec s0 : tx_start s0 → Rec s0 ∅ s0.
Proof.
  intros [Hs _ [Hj _] Hp Ht _ _ _]. split; try done.
  - intros a. by rewrite Hp, lookup_empty.
  - intros a sa. by rewrite Hp, lookup_empty.
  - by rewrite Hj.
  - intros a o Ho. pose proof (swf_objects _ Hs _ _ Ho) as Hw. split; [|apply Hw]. split; [apply (wf_fake a o Hw)|].
    rewrite (Ht a o Ho). intros k Hk. by apply elem_of_empty in Hk.
Qed.

Lemma start_sim s0 : tx_start s0 → sim s0 (mkSpec (abs s0) [] (nextRevisionId s0)).
Proof.
  intros [Hs Ha [Hj Hr] _ _ _ _ _]. split; cbn; rewrite ?Hr; try done; constructor.
Qed.

(** The operations as the virtual machine orders them. *)
Fixpoint allowed (s0 : statedb) (seen : gset Address) (W : gset (Address * Hash)) (ops : list Op) : Prop :=
  match ops with
  | [] => True
  | op :: ops => op_allowed s0 seen W op ∧ allowed s0 (addresses_of op ∪ seen) (op_slot op ∪ W) ops
  end.
Fixpoint slots (ops : list Op) (W : gset (Address * Hash)) : gset (Address * Hash) :=
  match ops with [] => W | op :: ops => slots ops (op_slot op ∪ W) end.

Lemma slots_more ops W : W ⊆ slots ops W.
Proof. revert W. induction ops as [|op ops IH]; intros W; [done|]. cbn. specialize (IH (op_slot op ∪ W)). set_solver. Qed.

Lemma run_ops_rec s0 ops seen W s outs s' :
  allowed s0 seen W ops → Rec s0 W s → (∀ a, a ∈ seen → is_Some (ResearchPreAlloc s !! a)) →
  run_ops ops s = Ret (outs, s') →
  Rec s0 (slots ops W) s' ∧ (∀ a y, ResearchPreAlloc s !! a = Some y → ResearchPreAlloc s' !! a = Some y) ∧
  Forall (λ op, ∀ a, op_address op = Some a → is_Some (ResearchPreAlloc s' !! a)) ops.
Proof.
  revert seen W s outs. induction ops as [|op ops IH]; intros seen W s outs Hal Hr Hseen He.
  - injection He as _ <-. done.
  - destruct Hal as [Hop Hal]. cbn [run_ops] in He. apply db_bind_inv in He as (out & s1 & He1 & He).
    apply db_bind_inv in He as (outs1 & s2 & He2 & [= _ <-]).
    destruct (run_op_ok s0 op seen W Hop s out s1 Hr) as (Hr1 & Ha1 & Hg1); [|done|].
    { intros a. destruct op; try (intros Ha; by apply elem_of_empty in Ha). intros ->%elem_of_singleton. apply Hseen, Hop. }
    destruct (IH (addresses_of op ∪ seen) (op_slot op ∪ W) s1 outs1 Hal Hr1) as (Hr2 & Hg2 & Hf); [|done|].
    { intros a [Ha|Ha]%elem_of_union; [by apply Ha1|]. destruct (Hseen a Ha) as [y Hy]. eexists. by apply Hg1. }
    split; [done|]. split; [by auto|]. constructor; [|done].
    intros a Ha. destruct (Ha1 a) as [y Hy]; [|eexists; by apply Hg2].
    unfold addresses_of. rewrite Ha. by apply elem_of_singleton.
Qed.

Lemma allowed_slots s0 seen W ops :
  allowed s0 seen W ops → (∀ a k, (a, k) ∈ W → hash_ok k) →
  Forall (λ op, match op with
                | OpGetState a k | OpSetState a k _ | OpGetCommittedState a k => (a, k) ∈ slots ops W ∧ hash_ok k
                | _ => True end) ops.
Proof.
  revert seen W. induction ops as [|op ops IH]; intros seen W Hal HW; [constructor|]. destruct Hal as [Hop Hal].
  pose proof (slots_more ops (op_slot op ∪ W)) as Hmore. constructor.
  - cbn [slots]. destruct op; try done; cbn in Hop, Hmore |- *.
    + split; [apply Hmore; set_solver|by eapply HW].
    + split; [apply Hmore; set_solver|done].
    + split; [apply Hmore; set_solver|done].
  - apply (IH _ _ Hal). intros a k [Hk|Hk]%elem_of_union; [|by eapply HW]. destruct op; cbn in Hop, Hk; try (by apply elem_of_empty in Hk).
    all: apply elem_of_singleton in Hk; by simplify_eq.
Qed.

(** ** The replay *)

(** The accounts of the substate. *)
Definition recorded (s : statedb) : gmap Address SubstateAccount := omap id (ResearchPreAlloc s).

Definition prepared (h : Hash) (i : Z) (s : statedb) : statedb :=
  match Prepare h i s with Ret (_, s) => s | Panic _ => s end.

Lemma prepared_account h i s a : swf s → account (prepared h i s) a = account s a.
Proof.
  intros Hs. unfold account. cbn. rewrite lookup_fmap. destruct (stateObjects s !! a) as [o|] eqn:Ho; [|done]. cbn.
  destruct (deleted o); [done|]. f_equal. apply touched_view, (wf_fake a), (swf_objects _ Hs _ _ Ho).
Qed.

Lemma prepared_swf h i s : swf s → swf (prepared h i s).
Proof.
  intros [Ho Ht Hj]. split; [|done..]. cbn. intros a o Ha. rewrite lookup_fmap in Ha. apply fmap_Some in Ha as (o' & Ho' & ->).
  destruct (Ho a o' Ho'). by split.
Qed.

Lemma remade_sim alloc h i r :
  remade alloc r → sim (prepared h i r) (mkSpec (abs (prepared h i r)) [] 0).
Proof.
  intros [Hs _ _ _ (Hj & Hr & Hn) (_ & _ & Hl & Hz & _)]. pose proof (prepared_swf h i r Hs) as Hp.
  split; [exact Hp|done| |by constructor|exact Hn|cbn; rewrite Hr; by constructor..]. split.
  - split; [done|]. intros m Hm. by apply elem_of_nil in Hm.
  - intros h' l. cbn. by rewrite Hl, lookup_empty.
  - cbn. by rewrite Hz.
Qed.

Lemma recorded_lookup b s1 s2 a : ended b s1 s2 → recorded s2 !! a = pre_final s1 a.
Proof. intros He. unfold recorded. rewrite lookup_omap, (end_pre _ _ _ He a). by destruct (pre_final s1 a). Qed.

Lemma stored_code_of a sa o : stored_object a sa o → code_of o = sub_Code sa.
Proof.
  intros [(_ & _ & Hh) Hc _ _ _ _ _ _]. unfold code_of, so_Code. rewrite Hc. destruct (sub_Code sa) as [|x c] eqn:E; cbn; [|done].
  rewrite Hh. cbn. rewrite E, bool_decide_true by done. done.
Qed.

(** The recorded accounts, made again, are those the transaction started with. *)
Lemma recorded_agrees s0 s1 s2 b W r a :
  tx_start s0 → Rec s0 W s1 → ended b s1 s2 → remade (recorded s2) r →
  is_Some (ResearchPreAlloc s1 !! a) → address_ok a →
  accounts_agree (λ k, (a, k) ∈ W ∧ hash_ok k) (account s0 a) (account r a).
Proof.
  intros Hts Hr He Hm [[sa|] Ha] Hok; pose proof (recorded_lookup b s1 s2 a He) as Hl; unfold pre_final in Hl; rewrite Ha in Hl.
  - destruct (rec_present _ _ _ Hr a sa Ha) as (v & o & Hv & (Mn & Mb & Mc & Ms) & Ho & Hd & Hc & Hb). rewrite Ho in Hl.
    destruct (rm_made _ _ Hm a _ Hl) as (o' & Ho' & Hst). rewrite Hv. unfold account. rewrite Ho'.
    rewrite (proj2 (sd_live _ _ _ _ _ Hst)). cbn [accounts_agree].
    destruct (ts_clean _ Hts a v Hv) as (Cs & Cst & Ch). pose proof Hst as [(Dn & Db & Dh) _ _ _ _ _ [Ds _] _].
    assert (∀ k, (a, k) ∈ W ∧ hash_ok k → default 0 (sub_Storage (pre_record o sa) !! k) = av_Committed v k) as Hslot.
    { intros k [Hk _]. unfold pre_record, set_sub_Storage. cbn [sub_Storage]. rewrite slots_of_lookup, Ms, Hc, lookup_empty.
      destruct Hb as [Hbare|Hb]; [|by rewrite decide_True by by apply Hb]. unfold bare in Hbare. rewrite Hbare. by case_decide. }
    split; cbn.
    + by rewrite Dn.
    + by rewrite Db.
    + rewrite Dh, Ch. cbn. by rewrite Mc.
    + rewrite (stored_code_of a _ o' Hst). exact Mc.
    + by rewrite Ds.
    + intros k Hk. rewrite (proj1 (stored_value _ _ _ _ _ k Hst (proj2 Hk))), Cst. by apply Hslot.
    + intros k Hk. rewrite (proj2 (stored_value _ _ _ _ _ k Hst (proj2 Hk))). by apply Hslot.
  - rewrite (rec_absent _ _ _ Hr a Ha). destruct (stateObjects s1 !! a); by rewrite (rm_unknown _ _ Hm a Hok Hl).
Qed.

Lemma Finalise_recorded b s0 W s1 : Rec s0 W s1 → swf s1 → ∃ s2, Finalise b s1 = Ret (tt, s2) ∧ ended b s1 s2.
Proof.
  intros Hr Hs. apply Finalise_spec; [done|]. intros a sa Ha.
  destruct (rec_present _ _ _ Hr a sa Ha) as (v & o & _ & _ & Ho & _). by eexists.
Qed.

Definition named_ok (op : Op) : Prop := ∀ a, op_address op = Some a → address_ok a.

Lemma replay_spec s0 ops outs s1 b h i :
  tx_start s0 → allowed s0 ∅ ∅ ops → Forall named_ok ops → run_ops ops s0 = Ret (outs, s1) →
  ∃ s2, Finalise b s1 = Ret (tt, s2) ∧
    ((∀ a sa, recorded s2 !! a = Some sa → account_ok a sa) →
     ∃ r r1 outs', MakeOffTheChainStateDB (recorded s2) = Ret r ∧
       run_ops (shift (- nextRevisionId s0) <$> ops) (prepared h i r) = Ret (outs', r1) ∧
       same_outs (- nextRevisionId s0) ops outs outs').
Proof.
  intros Hts Hal Hnamed He.
  destruct (run_ops_rec s0 ops ∅ ∅ s0 outs s1 Hal (start_Rec s0 Hts)) as (Hrec & _ & Hrecd); [|done|].
  { intros a Ha. by apply elem_of_empty in Ha. }
  pose proof (run_sim ops s0 _ (start_sim s0 Hts)) as Hrun. destruct (spec_run ops _) as [[outs1 m1]|] eqn:Espec; [|congruence].
  destruct Hrun as (s1' & He' & Hsim1). rewrite He in He'. injection He' as <- <-.
  destruct (Finalise_recorded b s0 _ s1 Hrec (sim_swf _ _ Hsim1)) as (s2 & Hf & Hend). exists s2. split; [done|]. intros Hacc.
  destruct (Make_spec (recorded s2) Hacc) as (r & Hmake & Hrm).
  pose proof (remade_sim (recorded s2) h i r Hrm) as Hsim.
  set (T := λ a, is_Some (ResearchPreAlloc s1 !! a) ∧ address_ok a).
  set (K := λ a k, (a, k) ∈ slots ops ∅ ∧ hash_ok k).
  assert (spec_agree T K (- nextRevisionId s0) (mkSpec (abs s0) [] (nextRevisionId s0)) (mkSpec (abs (prepared h i r)) [] 0)) as Hag.
  { split; cbn [now next saved]; [|lia|constructor]. split; cbn [abs a_account a_refund a_access].
    - intros a [Ha Hok]. rewrite prepared_account by apply Hrm. by eapply recorded_agrees.
    - rewrite (ts_refund _ Hts). apply Hrm.
    - by rewrite (ts_access _ Hts). }
  assert (Forall (within T K) ops) as Hwithin.
  { assert (∀ a k, (a, k) ∈ (∅ : gset (Address * Hash)) → hash_ok k) as Hnone by (intros a k Hk; by apply elem_of_empty in Hk).
    pose proof (allowed_slots s0 ∅ ∅ ops Hal Hnone) as Hsl. rewrite Forall_forall in Hrecd, Hnamed, Hsl.
    apply Forall_forall. intros op Hop. split; [intros a Ha; split; [by eapply Hrecd|by eapply Hnamed]|]. exact (Hsl op Hop). }
  destruct (spec_run_agree T K _ ops _ _ outs m1 Hwithin Hag Espec) as (outs' & m1' & Erun & Hsame & _).
  pose proof (run_sim (shift (- nextRevisionId s0) <$> ops) (prepared h i r) _ Hsim) as Hrun'. rewrite Erun in Hrun'.
  destruct Hrun' as (r1 & Hr1 & _). by exists r, r1, outs'.
Qed.
End replay.
