(* ===== verification/ReplaySpec.v ===== *)
(** * Properties of recording and replaying a transaction *)

From S2P Require Import Prelude DemoState Common Uint256 Machine VmFacts Vm Rlp RlpFacts RlpDecode RlpStreamFacts State Statedb StateTx StateView StateUndo StateOps StateSim DemoDatabase StateSpec StateTxFacts OffTheChainFacts CommitFacts Recording.

Section spec.
Context `{HD : DatabaseLaws} `{!MemoryDatabase}.

(** The code of every account is in the database under its hash. *)
Definition codes_known (tr : Trie) : Prop :=
  ∀ a o, trie_object tr a = inr (Some o) → CodeHash (so_data o) = Keccak256 (code_of o).

Lemma tx_start_New tr : trie_ok tr → codes_known tr → tx_start (New tr).
Proof.
  intros Ht Hc. pose proof (sim_New tr Ht) as Hs. split; try done; [apply Hs|].
  intros a v. unfold account. cbn [New stateObjects trie]. rewrite lookup_empty.
  destruct (trie_object tr a) as [e|[o|]] eqn:Ho; [done| |done]. intros [= <-].
  specialize (Hc a o Ho). destruct (trie_object_new tr a o Ho) as [d ->]. done.
Qed.

(** What a record says of an account. *)
Record records (sa : SubstateAccount) (v : AccView) (slot : Hash → Hash) : Prop := {
  rs_nonce : sub_Nonce sa = av_Nonce v;
  rs_balance : sub_Balance sa = av_Balance v;
  rs_code : sub_Code sa = av_Code v;
  rs_storage : ∀ k x, sub_Storage sa !! k = Some x → slot k = x
}.

Lemma recorded_slots o sa k x :
  sub_Storage sa = ∅ → sub_Storage (pre_record o sa) !! k = Some x → committed_value o k = x.
Proof.
  intros Hs. unfold pre_record, set_sub_Storage. cbn [sub_Storage]. rewrite slots_of_lookup, Hs, lookup_empty.
  case_decide; [|done]. by intros [= ->].
Qed.

Lemma pre_records s0 W s1 a sa :
  Rec s0 W s1 → pre_final s1 a = Some sa → ∃ v, account s0 a = Some v ∧ records sa v (av_Committed v).
Proof.
  intros Hr. unfold pre_final. destruct (ResearchPreAlloc s1 !! a) as [[sa0|]|] eqn:Ha; [|done..].
  destruct (rec_present _ _ _ Hr a sa0 Ha) as (v & o & Hv & (Mn & Mb & Mc & Ms) & Ho & _ & Hc & _).
  rewrite Ho. intros [= <-]. exists v. split; [done|]. split; [done..|].
  intros k x Hk. rewrite <- Hc. by eapply recorded_slots.
Qed.

Lemma pre_complete s0 W s1 a v :
  Rec s0 W s1 → is_Some (ResearchPreAlloc s1 !! a) → account s0 a = Some v →
  ∃ sa, pre_final s1 a = Some sa ∧ ∀ k, (a, k) ∈ W → ¬ bare v → is_Some (sub_Storage sa !! k).
Proof.
  intros Hr [[sa|] Ha] Hv; unfold pre_final; rewrite Ha.
  - destruct (rec_present _ _ _ Hr a sa Ha) as (v' & o & Hv' & _ & -> & _ & _ & Hb). simplify_eq.
    eexists. split; [done|]. intros k Hk Hn. destruct Hb as [|Hb]; [done|]. unfold pre_record, set_sub_Storage. cbn [sub_Storage].
    rewrite slots_of_lookup, decide_True by by apply Hb. by eexists.
  - pose proof (rec_absent _ _ _ Hr a Ha). congruence.
Qed.

Lemma post_records b s1 s2 a v :
  swf s1 → ended b s1 s2 → is_dirty s1 a → account s1 a = Some v →
  match account s2 a with
  | None => ResearchPostAlloc s2 !! a = None
  | Some v' => ∃ sa, ResearchPostAlloc s2 !! a = Some sa ∧ records sa v' (av_State v')
  end.
Proof.
  intros Hs He Hd Hv. rewrite (end_account _ _ _ He a), (end_post _ _ _ He a), Hv. unfold post_final.
  rewrite !decide_True by done. destruct Hd as [_ [o Ho]]. rewrite Ho. unfold account in Hv. rewrite Ho in Hv.
  destruct (deleted o); [done|]. injection Hv as <-. pose proof (wf_fake a o (swf_objects _ Hs _ _ Ho)) as Hf.
  cbn [mbind option_bind]. unfold finalised. change (av_suicided (view o) || b && v_empty (view o)) with (removed b o).
  destruct (removed b o); [done|]. eexists. split; [done|]. split; [done..|].
  intros k x. unfold post_record, set_sub_Storage. cbn [sub_Storage]. rewrite slots_of_lookup. case_decide; [by intros [= <-]|].
  cbn. by rewrite lookup_empty.
Qed.

(** ** Properties *)

(** C31: what was recorded of a transaction is enough to replay it.  The
    operations of a transaction, run again on the state that
    MakeOffTheChainStateDB makes of the accounts recorded at the transaction's
    end, give the same results, one for one: balances, nonces, code, slots,
    refunds, access lists, failures to exist.  A snapshot has its number counted
    from the start of the transaction, and a log its position in the replay. *)
Theorem replay_observes (s0 s1 : statedb) (ops : list Op) (outs : list Out) (b : bool) (h : Hash) (i : Z) :
  tx_start s0 → allowed s0 ∅ ∅ ops → Forall named_ok ops → run_ops ops s0 = Ret (outs, s1) →
  ∃ s2, Finalise b s1 = Ret (tt, s2) ∧
    ((∀ a sa, recorded s2 !! a = Some sa → account_ok a sa) →
     ∃ r r1 outs', MakeOffTheChainStateDB (recorded s2) = Ret r ∧
       run_ops (shift (- nextRevisionId s0) <$> ops) (prepared h i r) = Ret (outs', r1) ∧
       same_outs (- nextRevisionId s0) ops outs outs').
Proof. apply replay_spec. Qed.

(** C32: MakeOffTheChainStateDB makes exactly the accounts it is given: it does
    not fail, and an account answers with the nonce, balance, code and storage
    recorded for it, slots that are not recorded are zero, and no other account
    exists. *)
Theorem MakeOffTheChainStateDB_exact (alloc : gmap Address SubstateAccount) :
  (∀ a sa, alloc !! a = Some sa → account_ok a sa) →
  ∃ s, MakeOffTheChainStateDB alloc = Ret s ∧
    ∀ a, address_ok a →
      match alloc !! a with
      | None => account s a = None
      | Some sa =>
          ∃ v, account s a = Some v ∧
            av_Nonce v = sub_Nonce sa ∧ av_Balance v = sub_Balance sa ∧ av_Code v = sub_Code sa ∧
            av_CodeHash v = Keccak256 (sub_Code sa) ∧ av_suicided v = false ∧
            ∀ k, hash_ok k →
              av_State v k = default 0 (sub_Storage sa !! k) ∧ av_Committed v k = default 0 (sub_Storage sa !! k)
      end.
Proof.
  intros Hall. destruct (Make_spec alloc Hall) as (s & He & Hm). exists s. split; [done|]. intros a Ha.
  destruct (alloc !! a) as [sa|] eqn:Hsa; [|by apply (rm_unknown _ _ Hm)].
  destruct (rm_made _ _ Hm a sa Hsa) as (o & Ho & Hst). exists (view o). unfold account. rewrite Ho.
  rewrite (proj2 (sd_live _ _ _ _ _ Hst)). split; [done|]. pose proof Hst as [(Dn & Db & Dh) _ _ _ _ _ [Ds _] _].
  split_and!; cbn; [done|done|by eapply stored_code_of|by rewrite Dh|done|].
  intros k Hk. by apply (stored_value _ _ _ _ _ k Hst).
Qed.

(** C33: the recording of a transaction is exact.  Finalise succeeds; the
    accounts in ResearchPreAlloc are accounts the transaction named, with the
    nonce, balance, code and slots they had before it; every existing account it
    named is there, with every slot that was read or written unless the account
    had no storage; and ResearchPostAlloc has, of every account that was
    changed, what it is afterwards. *)
Theorem recording_exact (s0 s1 : statedb) (ops : list Op) (outs : list Out) (b : bool) :
  tx_start s0 → allowed s0 ∅ ∅ ops → run_ops ops s0 = Ret (outs, s1) →
  ∃ s2, Finalise b s1 = Ret (tt, s2) ∧
    (∀ a x, ResearchPreAlloc s2 !! a = Some x → ∃ sa v, x = Some sa ∧ account s0 a = Some v ∧ records sa v (av_Committed v)) ∧
    (∀ a v op, op ∈ ops → op_address op = Some a → account s0 a = Some v →
       ∃ sa, ResearchPreAlloc s2 !! a = Some (Some sa) ∧
         ∀ k, (a, k) ∈ slots ops ∅ → ¬ bare v → is_Some (sub_Storage sa !! k)) ∧
    (∀ a v, is_dirty s1 a → account s1 a = Some v →
       match account s2 a with
       | None => ResearchPostAlloc s2 !! a = None
       | Some v' => ∃ sa, ResearchPostAlloc s2 !! a = Some sa ∧ records sa v' (av_State v')
       end).
Proof.
  intros Hts Hal He.
  destruct (run_ops_rec s0 ops ∅ ∅ s0 outs s1 Hal (start_Rec s0 Hts)) as (Hrec & _ & Hrecd); [|done|].
  { intros a Ha. by apply elem_of_empty in Ha. }
  pose proof (run_sim ops s0 _ (start_sim s0 Hts)) as Hrun. destruct (spec_run ops _) as [[outs1 m1]|]; [|congruence].
  destruct Hrun as (s1' & He' & Hsim1). rewrite He in He'. injection He' as <- <-.
  destruct (Finalise_recorded b s0 _ s1 Hrec (sim_swf _ _ Hsim1)) as (s2 & Hf & Hend). exists s2. split_and!; [done|..].
  - intros a x. rewrite (end_pre _ _ _ Hend a). destruct (pre_final s1 a) as [sa|] eqn:Hp; [|done]. intros [= <-].
    destruct (pre_records _ _ _ _ _ Hrec Hp) as (v & Hv & Hr). by exists sa, v.
  - intros a v op Hop Ha Hv. rewrite Forall_forall in Hrecd.
    destruct (pre_complete _ _ _ a v Hrec (Hrecd op Hop a Ha) Hv) as (sa & Hp & Hk). exists sa.
    rewrite (end_pre _ _ _ Hend a), Hp. done.
  - intros a v. exact (post_records b s1 s2 a v (sim_swf _ _ Hsim1) Hend).
Qed.
End spec.

(** ** Examples *)

(** Accounts that can be recorded, decided. *)
Definition account_okb (p : Address * SubstateAccount) : bool :=
  let '(a, sa) := p in
  (0 <=? a) && (a <? 2 ^ 160) && (0 <=? sub_Nonce sa) && (sub_Nonce sa <? 2 ^ 64) && (0 <=? sub_Balance sa) &&
  (sub_Balance sa <? 2 ^ 256) && forallb (λ kv, (0 <=? fst kv) && (fst kv <? 2 ^ 256)) (map_to_list (sub_Storage sa)).

Lemma account_okb_ok p : account_okb p = true → account_ok (fst p) (snd p).
Proof.
  destruct p as [a sa]. unfold account_okb. rewrite !andb_true_iff, !Z.leb_le, !Z.ltb_lt. intros [[[[[[? ?] ?] ?] ?] ?] Hs].
  split; cbn; [split; lia..|]. intros k [v Hk]. apply elem_of_map_to_list in Hk.
  rewrite forallb_forall in Hs. specialize (Hs (k, v) (proj1 (list_elem_of_In _ _) Hk)). cbn in Hs. unfold hash_ok. lia.
Qed.

Lemma accounts_ok (m : gmap Address SubstateAccount) :
  forallb account_okb (map_to_list m) = true → ∀ a sa, m !! a = Some sa → account_ok a sa.
Proof.
  rewrite forallb_forall. intros Hm a sa Ha. apply elem_of_map_to_list in Ha.
  exact (account_okb_ok (a, sa) (Hm _ (proj1 (list_elem_of_In _ _) Ha))).
Qed.

(** Move 30, write a slot, take both back; read storage, code and an account
    that does not exist. *)
Definition demo_tx : list Op :=
  [OpGetBalance 10; OpSnapshot; OpSetState 10 1 7; OpSubBalance 10 30; OpAddBalance 11 30; OpGetBalance 11;
   OpRevertToSnapshot 0; OpSetState 12 2 9; OpGetState 12 1; OpGetCommittedState 12 1; OpExist 11; OpGetCode 10; OpGetNonce 12].
Definition demo_tx_outs : list Out :=
  [OutZ 100; OutZ 0; OutUnit; OutUnit; OutUnit; OutZ 30; OutUnit; OutUnit; OutZ 7; OutZ 7; OutBool false; OutBytes demo_code; OutZ 2].
Definition demo_end : statedb := state_after (run_ops demo_tx) (New demo_trie).
Definition demo_finalised : statedb := state_after (Finalise true) demo_end.

Lemma demo_codes : codes_known demo_trie.
Proof.
  intros a o Ho. destruct (demo_object a o Ho) as (n & b & r & ->). vm_compute. reflexivity.
Qed.
Lemma demo_start : tx_start (New demo_trie).
Proof. exact (tx_start_New demo_trie demo_trie_ok demo_codes). Qed.
Lemma demo_tx_ran : run_ops demo_tx (New demo_trie) = Ret (demo_tx_outs, demo_end).
Proof. refine (ran (run_ops demo_tx) (New demo_trie) _ _). vm_compute. reflexivity. Qed.
Lemma demo_allowed : allowed (New demo_trie) ∅ ∅ demo_tx.
Proof. cbn [allowed demo_tx op_allowed op_slot]. by split_and!. Qed.
Lemma demo_named : Forall named_ok demo_tx.
Proof. unfold demo_tx. repeat (apply Forall_cons; split); try done; intros a; cbn; by intros [= <-]. Qed.

Definition demo_alloc : gmap Address SubstateAccount :=
  {[10 := {| sub_Nonce := 1; sub_Balance := 100; sub_Storage := {[1 := 0]}; sub_Code := demo_code |};
    12 := {| sub_Nonce := 2; sub_Balance := 50; sub_Storage := {[1 := 7; 2 := 0]}; sub_Code := demo_code |}]}.

Lemma same_state {A} (x y : A) (s s' : statedb) : @Ret (A * statedb) (x, s) = Ret (y, s') → s = s'.
Proof. by intros [= _ ->]. Qed.

Lemma replay_observes_witness :
  ∃ s2, Finalise true demo_end = Ret (tt, s2) ∧
    ∃ r r1 outs', MakeOffTheChainStateDB (recorded s2) = Ret r ∧
      run_ops (shift 0 <$> demo_tx) (prepared 5 0 r) = Ret (outs', r1) ∧ same_outs 0 demo_tx demo_tx_outs outs'.
Proof.
  destruct (replay_observes (New demo_trie) demo_end demo_tx demo_tx_outs true 5 0 demo_start demo_allowed demo_named demo_tx_ran)
    as (s2 & Hf & Hr).
  exists s2. split; [exact Hf|]. apply Hr.
  assert (Finalise true demo_end = Ret (tt, demo_finalised)) as Hf'.
  { refine (ran (Finalise true) demo_end _ _). vm_compute. reflexivity. }
  rewrite Hf in Hf'. apply same_state in Hf'. rewrite Hf'. apply accounts_ok. vm_compute. reflexivity.
Defined.

Lemma demo_alloc_ok : ∀ a sa, demo_alloc !! a = Some sa → account_ok a sa.
Proof. apply accounts_ok. vm_compute. reflexivity. Qed.
Lemma demo_alloc_at :
  demo_alloc !! 11 = None ∧
  demo_alloc !! 12 = Some {| sub_Nonce := 2; sub_Balance := 50; sub_Storage := {[1 := 7; 2 := 0]}; sub_Code := demo_code |}.
Proof. by split. Qed.
Lemma demo_named_ok : address_ok 11 ∧ address_ok 12 ∧ hash_ok 1 ∧ hash_ok 3.
Proof. by split_and!. Qed.

Lemma MakeOffTheChainStateDB_exact_witness :
  (∀ a sa, demo_alloc !! a = Some sa → account_ok a sa) ∧
  ∃ s, MakeOffTheChainStateDB demo_alloc = Ret s ∧ account s 11 = None ∧
    ∃ v, account s 12 = Some v ∧ av_Balance v = 50 ∧ av_State v 1 = 7 ∧ av_State v 3 = 0.
Proof.
  split; [exact demo_alloc_ok|]. destruct (MakeOffTheChainStateDB_exact demo_alloc demo_alloc_ok) as (s & Hs & Ha). exists s.
  split; [exact Hs|]. destruct demo_named_ok as (H11 & H12 & H1 & H3).
  pose proof (Ha 11 H11) as A11. rewrite (proj1 demo_alloc_at) in A11. split; [exact A11|].
  pose proof (Ha 12 H12) as A12. rewrite (proj2 demo_alloc_at) in A12. destruct A12 as (v & Hv & _ & Hb & _ & _ & _ & Hst).
  exists v. split; [exact Hv|]. split; [exact Hb|]. split; [exact (proj1 (Hst 1 H1))|exact (proj1 (Hst 3 H3))].
Defined.

Lemma demo_account_12 : ∃ v, account (New demo_trie) 12 = Some v.
Proof.
  assert ((match account (New demo_trie) 12 with Some _ => true | None => false end) = true) as Hb by (vm_compute; reflexivity).
  destruct (account (New demo_trie) 12) as [v|]; [by exists v|done].
Qed.

Lemma recording_exact_witness :
  ∃ s2, Finalise true demo_end = Ret (tt, s2) ∧ ∃ sa, ResearchPreAlloc s2 !! 12 = Some (Some sa).
Proof.
  destruct (recording_exact (New demo_trie) demo_end demo_tx demo_tx_outs true demo_start demo_allowed demo_tx_ran)
    as (s2 & Hf & _ & Hpre & _).
  exists s2. split; [exact Hf|]. destruct demo_account_12 as [v Hv].
  destruct (Hpre 12 v (OpGetNonce 12)) as (sa & Hsa & _).
  - unfold demo_tx. repeat (first [apply list_elem_of_here | apply list_elem_of_further]).
  - reflexivity.
  - exact Hv.
  - exists sa. exact Hsa.
Defined.

(** The recording of [demo_tx], before and after. *)
Definition slots_at (m : gmap Address SubstateAccount) (a : Address) : option (list (Hash * Hash)) :=
  (λ sa, map_to_list (sub_Storage sa)) <$> m !! a.

Example demo_recorded :
  slots_at (recorded demo_finalised) 12 = Some [(2, 0); (1, 7)] ∧
  slots_at (ResearchPostAlloc demo_finalised) 12 = Some [(2, 9); (1, 7)] ∧
  sub_Balance <$> recorded demo_finalised !! 10 = Some 100 ∧ ResearchPreAlloc demo_finalised !! 11 = None.
Proof. vm_compute. split_and!; reflexivity. Qed.
