(* ===== verification/Codec.v ===== *)
(** * rlp: structs as records

    The encoder and the decoders read the fields of a struct by reflection; a
    [Codec] is what they see of a type: its [rtype], the value of a record and
    the record of a value.  [CodecLaws] are what the round trip needs. *)

From S2P Require Import Prelude Common Uint256 Machine VmFacts Vm Rlp RlpFacts RlpDecode RlpStreamFacts RlpDecodeFacts RlpRoundTrip.

Record Codec (A : Type) := mkCodec { c_type : rtype; c_put : A → rval; c_get : rval → option A; c_ok : A → Prop }.
Arguments mkCodec {A}.
Arguments c_type {A}.
Arguments c_put {A}.
Arguments c_get {A}.
Arguments c_ok {A}.

(** The fields of a struct. *)
Record Fields (A : Type) := mkFields { f_types : list rtype; f_put : A → list rval; f_get : list rval → option A; f_ok : A → Prop }.
Arguments mkFields {A}.
Arguments f_types {A}.
Arguments f_put {A}.
Arguments f_get {A}.
Arguments f_ok {A}.

Definition c_uint : Codec Z :=
  mkCodec (TUint 64) VUint (λ v, match v with VUint n => Some n | _ => None end) (λ n, 0 ≤ n < 2 ^ 64).
Definition c_bool : Codec bool :=
  mkCodec TBool VBool (λ v, match v with VBool b => Some b | _ => None end) (λ _, True).
Definition c_big : Codec Z :=
  mkCodec TBigPtr (λ z, VBigPtr (Some z)) (λ v, match v with VBigPtr (Some z) => Some z | _ => None end) (λ z, 0 ≤ z).
Definition c_bytes : Codec bytes :=
  mkCodec TBytes VBytes (λ v, match v with VBytes b => Some b | _ => None end) (Forall is_byte).
Definition c_array (n : nat) : Codec bytes :=
  mkCodec (TByteArray n) VByteArray (λ v, match v with VByteArray b => Some b | _ => None end) (λ b, length b = n ∧ Forall is_byte b).

Definition c_iso {A B} (f : B → A) (g : A → B) (c : Codec A) : Codec B :=
  mkCodec (c_type c) (λ x, c_put c (f x)) (λ v, g <$> c_get c v) (λ x, c_ok c (f x)).

Definition c_hash : Codec Hash :=
  mkCodec (TByteArray HashLength) (λ h, VByteArray (Hash_Bytes h))
    (λ v, match v with VByteArray b => Some (BytesToHash b) | _ => None end) is_hash.
Definition c_address : Codec Address :=
  mkCodec (TByteArray AddressLength) (λ a, VByteArray (Address_Bytes a))
    (λ v, match v with VByteArray b => Some (BytesToAddress b) | _ => None end) is_address.

Definition c_slice {A} (c : Codec A) : Codec (list A) :=
  mkCodec (TSlice (c_type c)) (λ l, VSlice (c_put c <$> l))
    (λ v, match v with VSlice l => mapM (c_get c) l | _ => None end) (Forall (c_ok c)).
(** [\[2\]T] *)
Definition c_pair {A} (c : Codec A) : Codec (A * A) :=
  mkCodec (TArray 2 (c_type c)) (λ p, VSlice [c_put c (fst p); c_put c (snd p)])
    (λ v, match v with VSlice [a; b] => x ← c_get c a; y ← c_get c b; Some (x, y) | _ => None end)
    (λ p, c_ok c (fst p) ∧ c_ok c (snd p)).
(** A pointer that is not nil. *)
Definition c_ptr {A} (k : Kind) (c : Codec A) : Codec A :=
  mkCodec (TPtr false k (c_type c)) (λ x, VPtr k (Some (c_put c x)))
    (λ v, match v with VPtr _ (Some v) => c_get c v | _ => None end) (c_ok c).
(** A pointer with the tag "nil". *)
Definition c_nilptr {A} (k : Kind) (c : Codec A) : Codec (option A) :=
  mkCodec (TPtr true k (c_type c)) (λ x, VPtr k (c_put c <$> x))
    (λ v, match v with VPtr _ (Some v) => Some <$> c_get c v | VPtr _ None => Some None | _ => None end)
    (λ x, match x with Some x => c_ok c x | None => True end).

Definition f_nil : Fields () := mkFields [] (λ _, []) (λ l, match l with [] => Some tt | _ => None end) (λ _, True).
Definition f_cons {A B} (c : Codec A) (f : Fields B) : Fields (A * B) :=
  mkFields (c_type c :: f_types f) (λ x, c_put c (fst x) :: f_put f (snd x))
    (λ l, match l with v :: l => x ← c_get c v; y ← f_get f l; Some (x, y) | [] => None end)
    (λ x, c_ok c (fst x) ∧ f_ok f (snd x)).
Definition c_struct {A} (f : Fields A) : Codec A :=
  mkCodec (TStruct (f_types f)) (λ x, VStruct (f_put f x))
    (λ v, match v with VStruct l => f_get f l | _ => None end) (f_ok f).

(** [AccessTuple] of core/types *)
Definition c_AccessTuple : Codec (Address * list Hash) :=
  c_iso (λ t, (fst t, (snd t, tt))) (λ '(a, (k, _)), (a, k)) (c_struct (f_cons c_address (f_cons (c_slice c_hash) f_nil))).

Definition encode_as {A} (c : Codec A) (x : A) : Go (RlpError + bytes) := EncodeToBytes (c_put c x).

(** What [DecodeBytes] leaves in a target of the type; [None] is its error. *)
Definition decode_as {A} (c : Codec A) (b : bytes) : option A :=
  match DecodeBytes b (c_type c) with Some (inr v) => c_get c v | _ => None end.

(** ** Laws *)

Class CodecLaws {A} (c : Codec A) : Prop := {
  codec_valid : valid (c_type c);
  codec_tail : tail (c_type c) = false;
  codec_typed x : c_ok c x → typed (c_type c) (c_put c x);
  codec_get x : c_ok c x → c_get c (c_put c x) = Some x
}.

Class FieldsLaws {A} (f : Fields A) : Prop := {
  fields_valid : valid (TStruct (f_types f));
  fields_typed x : f_ok f x → typed (TStruct (f_types f)) (VStruct (f_put f x));
  fields_get x : f_ok f x → f_get f (f_put f x) = Some x
}.

(** A pointer with the tag "nil" to an empty value is decoded to nil. *)
Class NonEmpty {A} (c : Codec A) : Prop := codec_nonempty x : c_ok c x → ¬ empty_value (rlp (c_put c x)).

#[export] Instance c_uint_laws : CodecLaws c_uint.
Proof. split; cbn; auto. Qed.
#[export] Instance c_bool_laws : CodecLaws c_bool.
Proof. by split. Qed.
#[export] Instance c_big_laws : CodecLaws c_big.
Proof. by split. Qed.
#[export] Instance c_bytes_laws : CodecLaws c_bytes.
Proof. by split. Qed.
#[export] Instance c_array_laws n : CodecLaws (c_array n).
Proof. by split. Qed.

#[export] Instance c_hash_laws : CodecLaws c_hash.
Proof.
  split; [done..| |].
  - intros h _. split; [apply to_be_length|apply to_be_bytes].
  - intros h Hh. cbn [c_put c_get c_hash]. by rewrite BytesToHash_Bytes.
Qed.
#[export] Instance c_address_laws : CodecLaws c_address.
Proof.
  split; [done..| |].
  - intros a _. split; [apply to_be_length|apply to_be_bytes].
  - intros a Ha. cbn [c_put c_get c_address]. by rewrite BytesToAddress_Bytes.
Qed.

#[export] Instance c_iso_laws {A B} (f : B → A) (g : A → B) (c : Codec A) :
  CodecLaws c → (∀ x, g (f x) = x) → CodecLaws (c_iso f g c).
Proof.
  intros Hc Hg. split; cbn; [apply Hc|apply Hc| |].
  - intros x. apply codec_typed.
  - intros x Hx. rewrite codec_get by done. cbn. by rewrite Hg.
Qed.

#[export] Instance c_slice_laws {A} (c : Codec A) : CodecLaws c → CodecLaws (c_slice c).
Proof.
  intros Hc. split; [split; apply Hc|done|..].
  - intros l Hl. cbn. apply Forall_fmap. eapply Forall_impl; [exact Hl|]. intros x. apply codec_typed.
  - intros l Hl. cbn. induction Hl as [|x l Hx Hl IH]; [done|]. cbn. by rewrite codec_get, IH.
Qed.

#[export] Instance c_pair_laws {A} (c : Codec A) : CodecLaws c → CodecLaws (c_pair c).
Proof.
  intros Hc. split; [split; apply Hc|done|..]; intros [x y] [Hx Hy]; cbn.
  - split; [done|]. repeat constructor; by apply codec_typed.
  - by rewrite !codec_get.
Qed.
#[export] Instance c_ptr_laws {A} k (c : Codec A) : k ≠ KByte → CodecLaws c → CodecLaws (c_ptr k c).
Proof.
  intros Hk Hc. split; [by split; [done|split; apply Hc]|done| |]; intros x Hx; cbn.
  - split_and!; [done|by apply codec_typed|done].
  - by apply codec_get.
Qed.
#[export] Instance c_nilptr_laws {A} k (c : Codec A) : k ≠ KByte → CodecLaws c → NonEmpty c → CodecLaws (c_nilptr k c).
Proof.
  intros Hk Hc Hn. split; [by split; [done|split; apply Hc]|done| |]; intros [x|] Hx; cbn; try done.
  - split_and!; [done|by apply codec_typed|intros _; by apply Hn].
  - by rewrite codec_get.
Qed.

#[export] Instance f_nil_laws : FieldsLaws f_nil.
Proof. split; try done. by intros []. Qed.
#[export] Instance f_cons_laws {A B} (c : Codec A) (f : Fields B) : CodecLaws c → FieldsLaws f → FieldsLaws (f_cons c f).
Proof.
  intros Hc Hf. split.
  - split; [apply Hc|]. split; [by rewrite codec_tail|apply Hf].
  - intros [x y] [Hx Hy]. split; [by apply codec_typed|by apply (fields_typed (f := f))].
  - intros [x y] [Hx Hy]. cbn. by rewrite codec_get, fields_get.
Qed.
#[export] Instance c_struct_laws {A} (f : Fields A) : FieldsLaws f → CodecLaws (c_struct f).
Proof. intros Hf. split; [apply Hf|done|intros x; apply Hf|intros x; apply Hf]. Qed.

Lemma string_nonempty x y b : ¬ empty_value (rlp_string (x :: y :: b)).
Proof.
  intros He. assert (length (rlp_string (x :: y :: b)) = 1%nat) as Hl by (by destruct He as [->| ->]).
  unfold rlp_string in Hl. rewrite length_app in Hl. cbn in Hl. lia.
Qed.
#[export] Instance c_hash_nonempty : NonEmpty c_hash.
Proof.
  intros h _. cbn [c_hash c_put rlp]. pose proof (to_be_length HashLength h) as Hl. fold (Hash_Bytes h) in Hl.
  destruct (Hash_Bytes h) as [|x [|y b]]; [done..|]. apply string_nonempty.
Qed.
#[export] Instance c_address_nonempty : NonEmpty c_address.
Proof.
  intros a _. cbn [c_address c_put rlp]. pose proof (to_be_length AddressLength a) as Hl. fold (Address_Bytes a) in Hl.
  destruct (Address_Bytes a) as [|x [|y b]]; [done..|]. apply string_nonempty.
Qed.

Lemma codec_round {A} (c : Codec A) `{!CodecLaws c} x :
  c_ok c x → len (rlp (c_put c x)) < 2 ^ 64 →
  encode_as c x = Ret (inr (rlp (c_put c x))) ∧ decode_as c (rlp (c_put c x)) = Some x.
Proof.
  intros Hx Hlen. pose proof (codec_typed (c := c) x Hx) as Ht. pose proof (codec_valid (c := c)) as Hv. split.
  - apply EncodeToBytes_rlp; [by eapply typed_wf|done].
  - unfold decode_as. rewrite (DecodeBytes_rlp (c_type c) (c_put c x)); [by apply codec_get|done|apply codec_tail|done|done].
Qed.

#[export] Instance nil_hash_laws : CodecLaws (c_nilptr KString c_hash).
Proof. by apply c_nilptr_laws; [|apply _..]. Qed.
#[export] Instance nil_address_laws : CodecLaws (c_nilptr KString c_address).
Proof. by apply c_nilptr_laws; [|apply _..]. Qed.
#[export] Instance c_AccessTuple_laws : CodecLaws c_AccessTuple.
Proof. apply c_iso_laws; [apply _|by intros []]. Qed.

(** ** Exactness: a value that is got is the one that would be put *)

Class CodecExact {A} (c : Codec A) : Prop :=
  codec_exact v x : typed (c_type c) v → c_get c v = Some x → c_ok c x ∧ c_put c x = v.

Class FieldsExact {A} (f : Fields A) : Prop :=
  fields_exact l x : typed (TStruct (f_types f)) (VStruct l) → f_get f l = Some x → f_ok f x ∧ f_put f x = l.

#[export] Instance c_uint_exact : CodecExact c_uint.
Proof. intros [] x; try done. by intros Hv [= <-]. Qed.
#[export] Instance c_big_exact : CodecExact c_big.
Proof. intros [| | | |[z|]| | | | | | | |] x; try done. by intros Hv [= <-]. Qed.
#[export] Instance c_bytes_exact : CodecExact c_bytes.
Proof. intros [] x; try done. by intros Hv [= <-]. Qed.

#[export] Instance c_hash_exact : CodecExact c_hash.
Proof.
  intros [] x; try done. intros [Hl Hb] [= <-]. destruct (BytesToHash_round b Hl Hb) as [Hh Hr].
  split; [done|]. cbn [c_put c_hash]. by rewrite Hr.
Qed.
#[export] Instance c_address_exact : CodecExact c_address.
Proof.
  intros [] x; try done. intros [Hl Hb] [= <-]. destruct (BytesToAddress_round b Hl Hb) as [Hh Hr].
  split; [done|]. cbn [c_put c_address]. by rewrite Hr.
Qed.

#[export] Instance c_iso_exact {A B} (f : B → A) (g : A → B) (c : Codec A) :
  CodecExact c → (∀ x, f (g x) = x) → CodecExact (c_iso f g c).
Proof.
  intros Hc Hf v x Ht. cbn. destruct (c_get c v) as [y|] eqn:E; [|done]. intros [= <-]. rewrite Hf. by apply codec_exact.
Qed.

#[export] Instance c_slice_exact {A} (c : Codec A) : CodecExact c → CodecExact (c_slice c).
Proof.
  intros Hc [| | | | | | | |l| | | |] x; try done. cbn. intros Ht E.
  enough (Forall (c_ok c) x ∧ c_put c <$> x = l) as [? ->] by done.
  revert x E. induction Ht as [|v l Hv Ht IH]; intros x E; [by injection E as <-|].
  cbn in E. destruct (c_get c v) as [y|] eqn:Ev; [|done]. cbn in E. destruct (mapM (c_get c) l) as [ys|]; [|done].
  injection E as <-. destruct (IH ys eq_refl) as [Ho Hp]. destruct (codec_exact v y Hv Ev). split; [by constructor|]. cbn. by f_equal.
Qed.

#[export] Instance c_nilptr_exact {A} k (c : Codec A) : CodecExact c → CodecExact (c_nilptr k c).
Proof.
  intros Hc [| | | | | | | | | | |k' [v|]|] x; try done; cbn.
  - intros (-> & Hv & _). destruct (c_get c v) as [y|] eqn:E; [|done]. intros [= <-]. destruct (codec_exact v y Hv E) as [? <-]. done.
  - intros [-> _]. by intros [= <-].
Qed.

#[export] Instance f_nil_exact : FieldsExact f_nil.
Proof. intros [|] []; [done|]. by intros. Qed.
#[export] Instance f_cons_exact {A B} (c : Codec A) (f : Fields B) : CodecExact c → FieldsExact f → FieldsExact (f_cons c f).
Proof.
  intros Hc Hf [|v l] x; [done|]. intros [Hv Hl]. cbn. destruct (c_get c v) as [y|] eqn:Ev; [|done]. cbn.
  destruct (f_get f l) as [z|] eqn:Ez; [|done]. intros [= <-]. cbn.
  destruct (codec_exact v y Hv Ev) as [? <-]. destruct (fields_exact (f := f) l z Hl Ez) as [? <-]. done.
Qed.
#[export] Instance c_struct_exact {A} (f : Fields A) : FieldsExact f → CodecExact (c_struct f).
Proof.
  intros Hf [| | | | | | | | | |l| |] x; try done. intros Ht E. destruct (fields_exact (f := f) l x Ht E) as [? <-]. done.
Qed.

#[export] Instance c_AccessTuple_exact : CodecExact c_AccessTuple.
Proof. apply c_iso_exact; [apply _|by intros (? & ? & [])]. Qed.

(** What is decoded is decoded from its encoding only. *)
Lemma codec_canonical {A} (c : Codec A) `{!CodecLaws c, !CodecExact c} b x :
  Forall is_byte b → len b < 2 ^ 64 → decode_as c b = Some x → c_ok c x ∧ b = rlp (c_put c x).
Proof.
  intros Hb Hl. unfold decode_as.
  destruct (DecodeBytes_cases (c_type c) b codec_valid codec_tail (conj Hb Hl)) as [(e & ->)|(v & -> & Hty & ->)]; [done|].
  intros E. destruct (codec_exact v x Hty E) as [? <-]. done.
Qed.
