(* ===== verification/Transactions.v ===== *)
(** * core/types: transactions and their signatures

    [transaction.go], [legacy_tx.go], [access_list_tx.go], [dynamic_fee_tx.go],
    [transaction_signing.go] and [hashing.go].  Numbers are set: [NewTx] copies
    its argument and makes nil numbers zero, and a decoder sets them.  A nil chain
    id only reaches the signature of a legacy transaction, which has no field for
    it.  The curve is a library, [Secp256k1]; what the decoder says of bytes it
    refuses is not kept. *)

From S2P Require Import Prelude Common Uint256 Machine VmFacts Vm Evm ChainConfig Rlp RlpFacts RlpDecode RlpStreamFacts RlpDecodeFacts RlpRoundTrip Codec Types.

(** ** crypto *)

(** The keys and the operations of the curve: a public key is 65 bytes with a 4
    in front. *)
Class Secp256k1 := {
  PrivateKey : Type;
  pubkey : PrivateKey → bytes;
  Ecrecover : bytes → bytes → string + bytes;
  crypto_Sign : bytes → PrivateKey → string + bytes
}.

Definition secp256k1N : Z := 0xfffffffffffffffffffffffffffffffebaaedce6af48a03bbfd25e8cd0364141.
Definition secp256k1halfN : Z := secp256k1N / 2.
Definition SignatureLength : Z := 64 + 1.

Definition ValidateSignatureValues (v r s : Z) (homestead : bool) : bool :=
  if (r <? 1) || (s <? 1) then false
  else if homestead && (secp256k1halfN <? s) then false
  else (r <? secp256k1N) && (s <? secp256k1N) && ((v =? 0) || (v =? 1)).

(** ** Data *)

Inductive TxError :=
| ErrInvalidSig
| ErrUnexpectedProtection
| ErrTxTypeNotSupported
| ErrGasFeeCapTooLow
| errEmptyTypedTx
| ErrInvalidChainId
| errInvalidPublicKey
| ErrCurve (msg : string)
| ErrDecode.

#[export] Instance TxError_eq_dec : EqDecision TxError.
Proof. solve_decision. Defined.

Definition LegacyTxType : Z := 0.
Definition AccessListTxType : Z := 1.
Definition DynamicFeeTxType : Z := 2.

Record LegacyTx := mkLegacyTx {
  lt_Nonce : Z;
  lt_GasPrice : Z;
  lt_Gas : Z;
  lt_To : option Address;
  lt_Value : Z;
  lt_Data : bytes;
  lt_V : Z;
  lt_R : Z;
  lt_S : Z
}.

Record AccessListTx := mkAccessListTx {
  at_ChainID : Z;
  at_Nonce : Z;
  at_GasPrice : Z;
  at_Gas : Z;
  at_To : option Address;
  at_Value : Z;
  at_Data : bytes;
  at_AccessList : AccessList;
  at_V : Z;
  at_R : Z;
  at_S : Z
}.

Record DynamicFeeTx := mkDynamicFeeTx {
  dt_ChainID : Z;
  dt_Nonce : Z;
  dt_GasTipCap : Z;
  dt_GasFeeCap : Z;
  dt_Gas : Z;
  dt_To : option Address;
  dt_Value : Z;
  dt_Data : bytes;
  dt_AccessList : AccessList;
  dt_V : Z;
  dt_R : Z;
  dt_S : Z
}.

Inductive TxData :=
| legacy_tx (tx : LegacyTx)
| access_list_tx (tx : AccessListTx)
| dynamic_fee_tx (tx : DynamicFeeTx).

(** ** Chain ids *)

Definition isProtectedV (V : Z) : bool :=
  if big_BitLen V <=? 8 then
    let v := big_Uint64 V in negb (v =? 27) && negb (v =? 28) && negb (v =? 1) && negb (v =? 0)
  else true.

Definition deriveChainId (v : Z) : Z :=
  if big_BitLen v <=? 64 then
    let v := big_Uint64 v in
    if (v =? 27) || (v =? 28) then 0 else wrapU 64 (v - 35) / 2
  else (v - 35) / 2.

(** ** Fields *)

Definition txType (tx : TxData) : Z :=
  match tx with legacy_tx _ => LegacyTxType | access_list_tx _ => AccessListTxType | dynamic_fee_tx _ => DynamicFeeTxType end.
Definition tx_chainID (tx : TxData) : Z :=
  match tx with legacy_tx tx => deriveChainId (lt_V tx) | access_list_tx tx => at_ChainID tx | dynamic_fee_tx tx => dt_ChainID tx end.
Definition tx_accessList (tx : TxData) : AccessList :=
  match tx with legacy_tx _ => [] | access_list_tx tx => at_AccessList tx | dynamic_fee_tx tx => dt_AccessList tx end.
Definition tx_data (tx : TxData) : bytes :=
  match tx with legacy_tx tx => lt_Data tx | access_list_tx tx => at_Data tx | dynamic_fee_tx tx => dt_Data tx end.
Definition tx_gas (tx : TxData) : Z :=
  match tx with legacy_tx tx => lt_Gas tx | access_list_tx tx => at_Gas tx | dynamic_fee_tx tx => dt_Gas tx end.
Definition tx_gasPrice (tx : TxData) : Z :=
  match tx with legacy_tx tx => lt_GasPrice tx | access_list_tx tx => at_GasPrice tx | dynamic_fee_tx tx => dt_GasFeeCap tx end.
Definition tx_gasTipCap (tx : TxData) : Z :=
  match tx with legacy_tx tx => lt_GasPrice tx | access_list_tx tx => at_GasPrice tx | dynamic_fee_tx tx => dt_GasTipCap tx end.
Definition tx_gasFeeCap (tx : TxData) : Z :=
  match tx with legacy_tx tx => lt_GasPrice tx | access_list_tx tx => at_GasPrice tx | dynamic_fee_tx tx => dt_GasFeeCap tx end.
Definition tx_value (tx : TxData) : Z :=
  match tx with legacy_tx tx => lt_Value tx | access_list_tx tx => at_Value tx | dynamic_fee_tx tx => dt_Value tx end.
Definition tx_nonce (tx : TxData) : Z :=
  match tx with legacy_tx tx => lt_Nonce tx | access_list_tx tx => at_Nonce tx | dynamic_fee_tx tx => dt_Nonce tx end.
Definition tx_to (tx : TxData) : option Address :=
  match tx with legacy_tx tx => lt_To tx | access_list_tx tx => at_To tx | dynamic_fee_tx tx => dt_To tx end.

Definition rawSignatureValues (tx : TxData) : Z * Z * Z :=
  match tx with
  | legacy_tx tx => (lt_V tx, lt_R tx, lt_S tx)
  | access_list_tx tx => (at_V tx, at_R tx, at_S tx)
  | dynamic_fee_tx tx => (dt_V tx, dt_R tx, dt_S tx)
  end.

Definition setSignatureValues (chainID : option Z) (v r s : Z) (tx : TxData) : TxData :=
  match tx with
  | legacy_tx tx =>
      legacy_tx (mkLegacyTx (lt_Nonce tx) (lt_GasPrice tx) (lt_Gas tx) (lt_To tx) (lt_Value tx) (lt_Data tx) v r s)
  | access_list_tx tx =>
      access_list_tx (mkAccessListTx (default 0 chainID) (at_Nonce tx) (at_GasPrice tx) (at_Gas tx) (at_To tx) (at_Value tx)
        (at_Data tx) (at_AccessList tx) v r s)
  | dynamic_fee_tx tx =>
      dynamic_fee_tx (mkDynamicFeeTx (default 0 chainID) (dt_Nonce tx) (dt_GasTipCap tx) (dt_GasFeeCap tx) (dt_Gas tx) (dt_To tx)
        (dt_Value tx) (dt_Data tx) (dt_AccessList tx) v r s)
  end.

(** ** Encodings *)

Definition c_LegacyTx : Codec LegacyTx :=
  c_iso (λ t, (lt_Nonce t, (lt_GasPrice t, (lt_Gas t, (lt_To t, (lt_Value t, (lt_Data t, (lt_V t, (lt_R t, (lt_S t, tt))))))))))
    (λ '(n, (p, (g, (t, (x, (d, (v, (r, (s, _))))))))), mkLegacyTx n p g t x d v r s)
    (c_struct (f_cons c_uint (f_cons c_big (f_cons c_uint (f_cons (c_nilptr KString c_address) (f_cons c_big (f_cons c_bytes
      (f_cons c_big (f_cons c_big (f_cons c_big f_nil)))))))))).

Definition c_AccessListTx : Codec AccessListTx :=
  c_iso (λ t, (at_ChainID t, (at_Nonce t, (at_GasPrice t, (at_Gas t, (at_To t, (at_Value t, (at_Data t, (at_AccessList t,
           (at_V t, (at_R t, (at_S t, tt))))))))))))
    (λ '(c, (n, (p, (g, (t, (x, (d, (a, (v, (r, (s, _))))))))))), mkAccessListTx c n p g t x d a v r s)
    (c_struct (f_cons c_big (f_cons c_uint (f_cons c_big (f_cons c_uint (f_cons (c_nilptr KString c_address) (f_cons c_big
      (f_cons c_bytes (f_cons (c_slice c_AccessTuple) (f_cons c_big (f_cons c_big (f_cons c_big f_nil)))))))))))).

Definition c_DynamicFeeTx : Codec DynamicFeeTx :=
  c_iso (λ t, (dt_ChainID t, (dt_Nonce t, (dt_GasTipCap t, (dt_GasFeeCap t, (dt_Gas t, (dt_To t, (dt_Value t, (dt_Data t,
           (dt_AccessList t, (dt_V t, (dt_R t, (dt_S t, tt)))))))))))))
    (λ '(c, (n, (p, (f, (g, (t, (x, (d, (a, (v, (r, (s, _)))))))))))), mkDynamicFeeTx c n p f g t x d a v r s)
    (c_struct (f_cons c_big (f_cons c_uint (f_cons c_big (f_cons c_big (f_cons c_uint (f_cons (c_nilptr KString c_address)
      (f_cons c_big (f_cons c_bytes (f_cons (c_slice c_AccessTuple) (f_cons c_big (f_cons c_big (f_cons c_big f_nil))))))))))))).

Definition inner_value (tx : TxData) : rval :=
  match tx with
  | legacy_tx tx => c_put c_LegacyTx tx
  | access_list_tx tx => c_put c_AccessListTx tx
  | dynamic_fee_tx tx => c_put c_DynamicFeeTx tx
  end.

(** What [rlp.Encode] writes: nothing if there is an error. *)
Definition rlp_encoding (v : rval) : bytes :=
  match EncodeToBytes v with Ret (inr b) => b | _ => [] end.

(** [encodeTyped] *)
Definition encodeTyped (tx : TxData) : bytes := txType tx :: rlp_encoding (inner_value tx).

Definition MarshalBinary (tx : TxData) : bytes :=
  match tx with legacy_tx _ => rlp_encoding (inner_value tx) | _ => encodeTyped tx end.

(** [EncodeRLP]: the value that is written in the place of a transaction. *)
Definition tx_value_rlp (tx : TxData) : rval :=
  match tx with legacy_tx _ => inner_value tx | _ => VBytes (encodeTyped tx) end.

Definition decode_inner {A} (c : Codec A) (f : A → TxData) (b : bytes) : TxError + TxData :=
  match decode_as c b with Some tx => inr (f tx) | None => inl ErrDecode end.

Definition decodeTyped (b : bytes) : TxError + TxData :=
  match b with
  | [] => inl errEmptyTypedTx
  | t :: b =>
      if t =? AccessListTxType then decode_inner c_AccessListTx access_list_tx b
      else if t =? DynamicFeeTxType then decode_inner c_DynamicFeeTx dynamic_fee_tx b
      else inl ErrTxTypeNotSupported
  end.

(** ** Transactions: their data, when they were seen, and what is cached

    [tx_size] is the size stored by a decoder or the first [Size]. *)

Inductive Signer :=
| londonSigner (chainId chainIdMul : Z)
| eip2930Signer (chainId chainIdMul : Z)
| EIP155Signer (chainId chainIdMul : Z)
| HomesteadSigner
| FrontierSigner.

Record Transaction := mkTransaction {
  tx_inner : TxData;
  tx_time : Z;
  tx_hash : option Hash;
  tx_size : option Z;
  tx_from : option (Signer * Address)
}.

(** [now] is the time. *)
Definition setDecoded (now : Z) (inner : TxData) (size : Z) : Transaction :=
  mkTransaction inner now None (if 0 <? size then Some size else None) None.

Definition NewTx (now : Z) (inner : TxData) : Transaction := setDecoded now inner 0.

Definition UnmarshalBinary (now : Z) (b : bytes) : TxError + Transaction :=
  match (if (0 <? len b) && (0x7f <? default 0 (head b)) then decode_inner c_LegacyTx legacy_tx b else decodeTyped b) with
  | inl err => inl err
  | inr inner => inr (setDecoded now inner (len b))
  end.

Definition Size (tx : Transaction) : Transaction * Z :=
  match tx_size tx with
  | Some size => (tx, size)
  | None =>
      let c := len (rlp_encoding (inner_value (tx_inner tx))) in
      (mkTransaction (tx_inner tx) (tx_time tx) (tx_hash tx) (Some c) (tx_from tx), c)
  end.

Definition Protected (tx : TxData) : bool := match tx with legacy_tx tx => isProtectedV (lt_V tx) | _ => true end.

Definition tx_Cost (tx : TxData) : Z := tx_gasPrice tx * tx_gas tx + tx_value tx.

(** ** Fees *)

(** The tip that the block of a base fee leaves, and whether the fee is too low. *)
Definition EffectiveGasTip (tx : TxData) (baseFee : option Z) : Z * option TxError :=
  match baseFee with
  | None => (tx_gasTipCap tx, None)
  | Some baseFee =>
      let gasFeeCap := tx_gasFeeCap tx in
      (Z.min (tx_gasTipCap tx) (gasFeeCap - baseFee), if gasFeeCap <? baseFee then Some ErrGasFeeCapTooLow else None)
  end.

Definition EffectiveGasTipValue (tx : TxData) (baseFee : option Z) : Z := fst (EffectiveGasTip tx baseFee).

(** [big.Int.Cmp] *)
Definition Z_Cmp (x y : Z) : Z := if x <? y then -1 else if x =? y then 0 else 1.

Definition EffectiveGasTipCmp (tx other : TxData) (baseFee : option Z) : Z :=
  match baseFee with
  | None => Z_Cmp (tx_gasTipCap tx) (tx_gasTipCap other)
  | Some _ => Z_Cmp (EffectiveGasTipValue tx baseFee) (EffectiveGasTipValue other baseFee)
  end.

(** ** Signers *)

Definition NewEIP155Signer (chainId : option Z) : Z * Z := let c := default 0 chainId in (c, c * 2).
Definition NewEIP2930Signer (chainId : option Z) : Signer := let '(c, m) := NewEIP155Signer chainId in eip2930Signer c m.
Definition NewLondonSigner (chainId : option Z) : Signer := let '(c, m) := NewEIP155Signer chainId in londonSigner c m.

Definition MakeSigner (config : ChainConfig) (blockNumber : Z) : Signer :=
  if Config.IsLondon config blockNumber then NewLondonSigner (cfg_ChainID config)
  else if Config.IsBerlin config blockNumber then NewEIP2930Signer (cfg_ChainID config)
  else if Config.IsEIP155 config blockNumber then let '(c, m) := NewEIP155Signer (cfg_ChainID config) in EIP155Signer c m
  else if Config.IsHomestead config blockNumber then HomesteadSigner
  else FrontierSigner.

Definition LatestSigner (config : ChainConfig) : Signer :=
  match cfg_ChainID config with
  | None => HomesteadSigner
  | Some _ =>
      if decide (is_Some (LondonBlock config)) then NewLondonSigner (cfg_ChainID config)
      else if decide (is_Some (BerlinBlock config)) then NewEIP2930Signer (cfg_ChainID config)
      else if decide (is_Some (EIP155Block config)) then let '(c, m) := NewEIP155Signer (cfg_ChainID config) in EIP155Signer c m
      else HomesteadSigner
  end.

Definition LatestSignerForChainID (chainID : option Z) : Signer :=
  match chainID with None => HomesteadSigner | Some _ => NewLondonSigner chainID end.

Definition Signer_ChainID (s : Signer) : option Z :=
  match s with
  | londonSigner c _ | eip2930Signer c _ | EIP155Signer c _ => Some c
  | HomesteadSigner | FrontierSigner => None
  end.

Definition Signer_Equal (s s2 : Signer) : bool :=
  match s, s2 with
  | londonSigner c _, londonSigner c2 _ | eip2930Signer c _, eip2930Signer c2 _ | EIP155Signer c _, EIP155Signer c2 _ => c2 =? c
  | HomesteadSigner, HomesteadSigner | FrontierSigner, FrontierSigner => true
  | _, _ => false
  end.

Section signing.
Context `{Externals} `{Secp256k1}.

(** ** Hashes *)

Definition rlpHash (x : rval) : Hash := Keccak256Hash (rlp_encoding x).
Definition prefixedRlpHash (prefix : Z) (x : rval) : Hash := Keccak256Hash (prefix :: rlp_encoding x).

Definition tx_Hash (tx : Transaction) : Transaction * Hash :=
  match tx_hash tx with
  | Some h => (tx, h)
  | None =>
      let h := match tx_inner tx with
               | legacy_tx _ => rlpHash (inner_value (tx_inner tx))
               | inner => prefixedRlpHash (txType inner) (inner_value inner)
               end in
      (mkTransaction (tx_inner tx) (tx_time tx) (Some h) (tx_size tx) (tx_from tx), h)
  end.

(** The values in a [\[\]interface{}]. *)
Definition v_big (z : Z) : rval := VBigPtr (Some z).
Definition v_to (to : option Address) : rval := VPtr KString (c_put c_address <$> to).
Definition v_access_list (al : AccessList) : rval := c_put (c_slice c_AccessTuple) al.

Definition FrontierSigner_Hash (tx : TxData) : Hash :=
  rlpHash (VSlice [VUint (tx_nonce tx); v_big (tx_gasPrice tx); VUint (tx_gas tx); v_to (tx_to tx); v_big (tx_value tx);
    VBytes (tx_data tx)]).

Definition EIP155Signer_Hash (chainId : Z) (tx : TxData) : Hash :=
  rlpHash (VSlice [VUint (tx_nonce tx); v_big (tx_gasPrice tx); VUint (tx_gas tx); v_to (tx_to tx); v_big (tx_value tx);
    VBytes (tx_data tx); v_big chainId; VUint 0; VUint 0]).

Definition eip2930Signer_Hash (chainId : Z) (tx : TxData) : Hash :=
  match tx with
  | legacy_tx _ => EIP155Signer_Hash chainId tx
  | access_list_tx _ =>
      prefixedRlpHash (txType tx) (VSlice [v_big chainId; VUint (tx_nonce tx); v_big (tx_gasPrice tx); VUint (tx_gas tx);
        v_to (tx_to tx); v_big (tx_value tx); VBytes (tx_data tx); v_access_list (tx_accessList tx)])
  | _ => 0
  end.

Definition londonSigner_Hash (chainId : Z) (tx : TxData) : Hash :=
  match tx with
  | dynamic_fee_tx _ =>
      prefixedRlpHash (txType tx) (VSlice [v_big chainId; VUint (tx_nonce tx); v_big (tx_gasTipCap tx); v_big (tx_gasFeeCap tx);
        VUint (tx_gas tx); v_to (tx_to tx); v_big (tx_value tx); VBytes (tx_data tx); v_access_list (tx_accessList tx)])
  | _ => eip2930Signer_Hash chainId tx
  end.

Definition Signer_Hash (s : Signer) (tx : TxData) : Hash :=
  match s with
  | londonSigner c _ => londonSigner_Hash c tx
  | eip2930Signer c _ => eip2930Signer_Hash c tx
  | EIP155Signer c _ => EIP155Signer_Hash c tx
  | HomesteadSigner | FrontierSigner => FrontierSigner_Hash tx
  end.

(** ** Signatures *)

Definition decodeSignature (sig : bytes) : Go (Z * Z * Z) :=
  if negb (len sig =? SignatureLength) then Panic ExplicitPanic
  else Ret (be_val (take 32 sig), be_val (take 32 (drop 32 sig)), wrapU 8 (default 0 (sig !! 64%nat) + 27)).

(** [big.NewInt(int64(sig\[64\]))] *)
Definition recovery_id (sig : bytes) : Z := default 0 (sig !! 64%nat).

Definition FrontierSigner_SignatureValues (tx : TxData) (sig : bytes) : Go (TxError + Z * Z * Z) :=
  match tx with
  | legacy_tx _ => '(r, s, v) ← decodeSignature sig; Ret (inr (r, s, v))
  | _ => Ret (inl ErrTxTypeNotSupported)
  end.

Definition EIP155Signer_SignatureValues (chainId chainIdMul : Z) (tx : TxData) (sig : bytes) : Go (TxError + Z * Z * Z) :=
  match tx with
  | legacy_tx _ =>
      '(r, s, v) ← decodeSignature sig;
      Ret (inr (r, s, if negb (chainId =? 0) then wrapU 8 (recovery_id sig + 35) + chainIdMul else v))
  | _ => Ret (inl ErrTxTypeNotSupported)
  end.

(** The chain id of a transaction may be left zero. *)
Definition typed_SignatureValues (chainId txChainID : Z) (sig : bytes) : Go (TxError + Z * Z * Z) :=
  if negb (txChainID =? 0) && negb (txChainID =? chainId) then Ret (inl ErrInvalidChainId)
  else '(r, s, _) ← decodeSignature sig; Ret (inr (r, s, recovery_id sig)).

Definition eip2930Signer_SignatureValues (chainId chainIdMul : Z) (tx : TxData) (sig : bytes) : Go (TxError + Z * Z * Z) :=
  match tx with
  | legacy_tx _ => EIP155Signer_SignatureValues chainId chainIdMul tx sig
  | access_list_tx tx => typed_SignatureValues chainId (at_ChainID tx) sig
  | _ => Ret (inl ErrTxTypeNotSupported)
  end.

Definition londonSigner_SignatureValues (chainId chainIdMul : Z) (tx : TxData) (sig : bytes) : Go (TxError + Z * Z * Z) :=
  match tx with
  | dynamic_fee_tx tx => typed_SignatureValues chainId (dt_ChainID tx) sig
  | _ => eip2930Signer_SignatureValues chainId chainIdMul tx sig
  end.

Definition SignatureValues (s : Signer) (tx : TxData) (sig : bytes) : Go (TxError + Z * Z * Z) :=
  match s with
  | londonSigner c m => londonSigner_SignatureValues c m tx sig
  | eip2930Signer c m => eip2930Signer_SignatureValues c m tx sig
  | EIP155Signer c m => EIP155Signer_SignatureValues c m tx sig
  | HomesteadSigner | FrontierSigner => FrontierSigner_SignatureValues tx sig
  end.

Definition WithSignature (signer : Signer) (sig : bytes) (tx : Transaction) : Go (TxError + Transaction) :=
  x ← SignatureValues signer (tx_inner tx) sig;
  Ret (match x with
       | inl err => inl err
       | inr (r, s, v) =>
           inr (mkTransaction (setSignatureValues (Signer_ChainID signer) v r s (tx_inner tx)) (tx_time tx) None None None)
       end).

Definition SignTx (tx : Transaction) (s : Signer) (prv : PrivateKey) : Go (TxError + Transaction) :=
  match crypto_Sign (Hash_Bytes (Signer_Hash s (tx_inner tx))) prv with
  | inl err => Ret (inl (ErrCurve err))
  | inr sig => WithSignature s sig tx
  end.

(** ** Recovering the sender *)

(** The address of a public key. *)
Definition pub_address (pub : bytes) : Address := BytesToAddress (drop 12 (Keccak256 (drop 1 pub))).

Definition recoverPlain (sighash : Hash) (R s Vb : Z) (homestead : bool) : TxError + Address :=
  if 8 <? big_BitLen Vb then inl ErrInvalidSig
  else
    let V := wrapU 8 (wrapU 64 (big_Uint64 Vb - 27)) in
    if negb (ValidateSignatureValues V R s homestead) then inl ErrInvalidSig
    else
      let sig := to_be 32 R ++ to_be 32 s ++ [V] in
      match Ecrecover (Hash_Bytes sighash) sig with
      | inl err => inl (ErrCurve err)
      | inr pub =>
          if (len pub =? 0) || negb (default 0 (head pub) =? 4) then inl errInvalidPublicKey else inr (pub_address pub)
      end.

Definition FrontierSigner_Sender (homestead : bool) (tx : TxData) : TxError + Address :=
  match tx with
  | legacy_tx tx' => recoverPlain (FrontierSigner_Hash tx) (lt_R tx') (lt_S tx') (lt_V tx') homestead
  | _ => inl ErrTxTypeNotSupported
  end.

Definition EIP155Signer_Sender (chainId chainIdMul : Z) (tx : TxData) : TxError + Address :=
  match tx with
  | legacy_tx tx' =>
      if negb (Protected tx) then FrontierSigner_Sender true tx
      else if negb (tx_chainID tx =? chainId) then inl ErrInvalidChainId
      else recoverPlain (EIP155Signer_Hash chainId tx) (lt_R tx') (lt_S tx') (lt_V tx' - chainIdMul - 8) true
  | _ => inl ErrTxTypeNotSupported
  end.

Definition eip2930Signer_Sender (chainId chainIdMul : Z) (tx : TxData) : TxError + Address :=
  let '(V, R, s) := rawSignatureValues tx in
  let recover V :=
    if negb (tx_chainID tx =? chainId) then inl ErrInvalidChainId
    else recoverPlain (eip2930Signer_Hash chainId tx) R s V true in
  match tx with
  | legacy_tx _ => if negb (Protected tx) then FrontierSigner_Sender true tx else recover (V - chainIdMul - 8)
  | access_list_tx _ => recover (V + 27)
  | _ => inl ErrTxTypeNotSupported
  end.

Definition londonSigner_Sender (chainId chainIdMul : Z) (tx : TxData) : TxError + Address :=
  match tx with
  | dynamic_fee_tx tx' =>
      if negb (tx_chainID tx =? chainId) then inl ErrInvalidChainId
      else recoverPlain (londonSigner_Hash chainId tx) (dt_R tx') (dt_S tx') (dt_V tx' + 27) true
  | _ => eip2930Signer_Sender chainId chainIdMul tx
  end.

Definition Signer_Sender (s : Signer) (tx : TxData) : TxError + Address :=
  match s with
  | londonSigner c m => londonSigner_Sender c m tx
  | eip2930Signer c m => eip2930Signer_Sender c m tx
  | EIP155Signer c m => EIP155Signer_Sender c m tx
  | HomesteadSigner => FrontierSigner_Sender true tx
  | FrontierSigner => FrontierSigner_Sender false tx
  end.

(** The sender is kept with the signer that found it. *)
Definition Sender (signer : Signer) (tx : Transaction) : Transaction * (TxError + Address) :=
  let derive :=
    match Signer_Sender signer (tx_inner tx) with
    | inl err => (tx, inl err)
    | inr addr => (mkTransaction (tx_inner tx) (tx_time tx) (tx_hash tx) (tx_size tx) (Some (signer, addr)), inr addr)
    end in
  match tx_from tx with
  | Some (s, from) => if Signer_Equal s signer then (tx, inr from) else derive
  | None => derive
  end.

Definition sanityCheckSignature (v r s : Z) (maybeProtected : bool) : option TxError :=
  if isProtectedV v && negb maybeProtected then Some ErrUnexpectedProtection
  else
    let plainV :=
      if isProtectedV v then wrapU 8 (big_Uint64 v - 35 - 2 * big_Uint64 (deriveChainId v))
      else if maybeProtected then wrapU 8 (big_Uint64 v - 27)
      else wrapU 8 (big_Uint64 v) in
    if ValidateSignatureValues plainV r s false then None else Some ErrInvalidSig.

(** ** Messages *)

(** [Transaction.AsMessage]: with a base fee, the price is the effective one. *)
Definition tx_AsMessage (s : Signer) (baseFee : option Z) (tx : Transaction) : Transaction * (TxError + Message) :=
  let inner := tx_inner tx in
  let gasPrice := match baseFee with
                  | Some baseFee => Z.min (tx_gasTipCap inner + baseFee) (tx_gasFeeCap inner)
                  | None => tx_gasPrice inner
                  end in
  let '(tx, from) := Sender s tx in
  (tx, match from with
       | inl err => inl err
       | inr from =>
           inr (mkMessage (tx_to inner) from (tx_nonce inner) (tx_value inner) (tx_gas inner) gasPrice (tx_gasFeeCap inner)
             (tx_gasTipCap inner) (tx_data inner) (tx_accessList inner) false)
       end).

(** ** Sets of transactions *)

(** The transactions of [a] whose hash no transaction of [b] has. *)
Definition TxDifference (a b : list Transaction) : list Transaction :=
  let remove : gset Hash := list_to_set ((λ tx, snd (tx_Hash tx)) <$> b) in
  filter (λ tx, snd (tx_Hash tx) ∉ remove) a.
End signing.
