(* ===== verification/Consensus.v ===== *)
(** * consensus: the rules of headers

    consensus/misc ([gaslimit.go], [eip1559.go], [dao.go], [forks.go]) and the
    ethash engine ([consensus.go], [difficulty.go]): what a header must be, given
    its parent, and the difficulty of the next block, in the two ways in which the
    code computes it.  What seals a header is [verifySeal]; the hash it is checked
    against, [hashimoto], needs a data set of a gigabyte and is a parameter.

    The state a block ends with is in [Processor]. *)

From S2P Require Import Prelude DemoState Common Params Uint256 Machine VmFacts Vm ChainConfig Rlp RlpFacts RlpDecode RlpStreamFacts RlpDecodeFacts RlpRoundTrip Codec Types Transactions.

(** ** core/types: header hashes *)

(** The fields of a header; the base fee is only written if it is there. *)
Definition header_value (h : Header) : rval :=
  VStruct ([VByteArray (Hash_Bytes (hd_ParentHash h)); VByteArray (Hash_Bytes (hd_UncleHash h));
            VByteArray (Address_Bytes (hd_Coinbase h)); VByteArray (Hash_Bytes (hd_Root h)); VByteArray (Hash_Bytes (hd_TxHash h));
            VByteArray (Hash_Bytes (hd_ReceiptHash h)); VByteArray (hd_Bloom h); VBigPtr (Some (hd_Difficulty h));
            VBigPtr (Some (hd_Number h)); VUint (hd_GasLimit h); VUint (hd_GasUsed h); VUint (hd_Time h); VBytes (hd_Extra h);
            VByteArray (Hash_Bytes (hd_MixDigest h)); VByteArray (hd_Nonce h)] ++
           match hd_BaseFee h with Some fee => [VBigPtr (Some fee)] | None => [] end).

Definition Header_Hash `{Externals} (h : Header) : Hash := rlpHash (header_value h).

(** [EmptyUncleHash] *)
Definition EmptyUncleHash `{Externals} : Hash := rlpHash (VSlice []).

(** ** Errors *)

Inductive ConsensusError :=
| ErrUnknownAncestor
| ErrFutureBlock
| ErrInvalidNumber
| errOlderBlockTime
| errTooManyUncles
| errDuplicateUncle
| errUncleIsAncestor
| errDanglingUncle
| errInvalidDifficulty
| errInvalidMixDigest
| errInvalidPoW
| ErrBadProDAOExtra
| ErrBadNoDAOExtra
| ErrBelowMinGasLimit
| ErrGasLimit (have want limit : Z)
| ErrMissingBaseFee
| ErrBaseFee (have want : Z)
| ErrForkHash (have want : Hash)
| ErrExtraTooLong (n : Z)
| ErrDifficulty (have want : Z)
| ErrMaxGasLimit (have : Z)
| ErrGasUsed (have limit : Z)
| ErrEarlyBaseFee (have : Z).

#[export] Instance ConsensusError_eq_dec : EqDecision ConsensusError.
Proof. solve_decision. Defined.

(** A check: nil, or an error. *)
Abbreviation Verdict := (option ConsensusError).
Definition reject_if (b : bool) (err : ConsensusError) (next : Verdict) : Verdict := if b then Some err else next.
Definition and_then (v : Verdict) (next : Verdict) : Verdict := match v with Some err => Some err | None => next end.

(** ** consensus/misc: gas limits and base fees *)

Definition GasLimitBoundDivisor : Z := 1024.
Definition MinGasLimit : Z := 5000.
Definition MaxGasLimit : Z := 0x7fffffffffffffff.
Definition MaximumExtraDataSize : Z := 32.
Definition BaseFeeChangeDenominator : Z := 8.
Definition ElasticityMultiplier : Z := 2.
Definition InitialBaseFee : Z := 1000000000.

(** The difference is taken between signed integers. *)
Definition VerifyGaslimit (parentGasLimit headerGasLimit : Z) : Verdict :=
  let diff := wrapS 64 (wrapS 64 parentGasLimit - wrapS 64 headerGasLimit) in
  let diff := if diff <? 0 then wrapS 64 (diff * -1) else diff in
  let limit := parentGasLimit / GasLimitBoundDivisor in
  reject_if (limit <=? wrapU 64 diff) (ErrGasLimit headerGasLimit parentGasLimit (limit - 1))
  (reject_if (headerGasLimit <? MinGasLimit) ErrBelowMinGasLimit None).

(** A parent of London without a base fee, or with a target of zero, panics. *)
Definition CalcBaseFee (config : ChainConfig) (parent : Header) : Go Z :=
  if negb (Config.IsLondon config (hd_Number parent)) then Ret InitialBaseFee
  else
    let parentGasTarget := hd_GasLimit parent / ElasticityMultiplier in
    match hd_BaseFee parent with
    | None => Panic NilDereference
    | Some fee =>
        if hd_GasUsed parent =? parentGasTarget then Ret fee
        else if parentGasTarget <? hd_GasUsed parent then
          let x := fee * wrapU 64 (hd_GasUsed parent - parentGasTarget) in
          if parentGasTarget =? 0 then Panic DivideByZero
          else Ret (fee + Z.max (x / parentGasTarget / BaseFeeChangeDenominator) 1)
        else
          let x := fee * wrapU 64 (parentGasTarget - hd_GasUsed parent) in
          if parentGasTarget =? 0 then Panic DivideByZero
          else Ret (Z.max (fee - x / parentGasTarget / BaseFeeChangeDenominator) 0)
    end.

Definition VerifyEip1559Header (config : ChainConfig) (parent header : Header) : Go Verdict :=
  let parentGasLimit :=
    if negb (Config.IsLondon config (hd_Number parent)) then wrapU 64 (hd_GasLimit parent * ElasticityMultiplier)
    else hd_GasLimit parent in
  match VerifyGaslimit parentGasLimit (hd_GasLimit header) with
  | Some err => Ret (Some err)
  | None =>
      match hd_BaseFee header with
      | None => Ret (Some ErrMissingBaseFee)
      | Some fee =>
          expected ← CalcBaseFee config parent;
          Ret (reject_if (negb (fee =? expected)) (ErrBaseFee expected fee) None)
      end
  end.

(** ** consensus/misc: forks *)

Definition DAOForkBlockExtra : bytes := [0x64; 0x61; 0x6f; 0x2d; 0x68; 0x61; 0x72; 0x64; 0x2d; 0x66; 0x6f; 0x72; 0x6b].
Definition DAOForkExtraRange : Z := 10.

Definition VerifyDAOHeaderExtraData (config : ChainConfig) (header : Header) : Verdict :=
  match DAOForkBlock config with
  | None => None
  | Some fork =>
      let limit := fork + DAOForkExtraRange in
      if (hd_Number header <? fork) || (limit <=? hd_Number header) then None
      else if DAOForkSupport config then
        reject_if (negb (bool_decide (hd_Extra header = DAOForkBlockExtra))) ErrBadProDAOExtra None
      else reject_if (bool_decide (hd_Extra header = DAOForkBlockExtra)) ErrBadNoDAOExtra None
  end.

Definition VerifyForkHashes `{Externals} (config : ChainConfig) (header : Header) (uncle : bool) : Verdict :=
  if uncle then None
  else match EIP150Block config with
       | Some fork =>
           if fork =? hd_Number header then
             reject_if (negb (EIP150Hash config =? 0) && negb (EIP150Hash config =? Header_Hash header))
               (ErrForkHash (Header_Hash header) (EIP150Hash config)) None
           else None
       | None => None
       end.

(** ** consensus/ethash: the difficulty, with big integers *)

Definition DifficultyBoundDivisor : Z := 2048.
Definition MinimumDifficulty : Z := 131072.
Definition DurationLimit : Z := 13.
Definition expDiffPeriod : Z := 100000.

(** "The bomb": from the third period on, a power of two on top. *)
Definition bomb (periodCount x : Z) : Z := if 1 <? periodCount then x + 2 ^ (periodCount - 2) else x.

Definition calcDifficultyFrontier (time : Z) (parent : Header) : Z :=
  let adjust := hd_Difficulty parent / DifficultyBoundDivisor in
  let diff := if time - hd_Time parent <? DurationLimit then hd_Difficulty parent + adjust else hd_Difficulty parent - adjust in
  let diff := if diff <? MinimumDifficulty then MinimumDifficulty else diff in
  let periodCount := (hd_Number parent + 1) / expDiffPeriod in
  if 1 <? periodCount then Z.max (diff + 2 ^ (periodCount - 2)) MinimumDifficulty else diff.

Definition calcDifficultyHomestead (time : Z) (parent : Header) : Z :=
  let x := 1 - (time - hd_Time parent) / 10 in
  let x := if x <? -99 then -99 else x in
  let y := hd_Difficulty parent / DifficultyBoundDivisor in
  let x := hd_Difficulty parent + y * x in
  let x := if x <? MinimumDifficulty then MinimumDifficulty else x in
  bomb ((hd_Number parent + 1) / expDiffPeriod) x.

Section difficulty.
Context `{Externals}.

(** A calculator is made for a delay of the bomb. *)
Definition makeDifficultyCalculator (bombDelay time : Z) (parent : Header) : Z :=
  let bombDelayFromParent := bombDelay - 1 in
  let x := (time - hd_Time parent) / 9 in
  let x := if hd_UncleHash parent =? EmptyUncleHash then 1 - x else 2 - x in
  let x := if x <? -99 then -99 else x in
  let y := hd_Difficulty parent / DifficultyBoundDivisor in
  let x := hd_Difficulty parent + y * x in
  let x := if x <? MinimumDifficulty then MinimumDifficulty else x in
  let fakeBlockNumber := if bombDelayFromParent <=? hd_Number parent then hd_Number parent - bombDelayFromParent else 0 in
  bomb (fakeBlockNumber / expDiffPeriod) x.

Definition calcDifficultyEip4345 : Z → Header → Z := makeDifficultyCalculator 10700000.
Definition calcDifficultyEip3554 : Z → Header → Z := makeDifficultyCalculator 9700000.
Definition calcDifficultyEip2384 : Z → Header → Z := makeDifficultyCalculator 9000000.
Definition calcDifficultyConstantinople : Z → Header → Z := makeDifficultyCalculator 5000000.
Definition calcDifficultyByzantium : Z → Header → Z := makeDifficultyCalculator 3000000.

Definition CalcDifficulty (config : ChainConfig) (time : Z) (parent : Header) : Z :=
  let next := hd_Number parent + 1 in
  if Config.IsArrowGlacier config next then calcDifficultyEip4345 time parent
  else if Config.IsLondon config next then calcDifficultyEip3554 time parent
  else if Config.IsMuirGlacier config next then calcDifficultyEip2384 time parent
  else if Config.IsConstantinople config next then calcDifficultyConstantinople time parent
  else if Config.IsByzantium config next then calcDifficultyByzantium time parent
  else if Config.IsHomestead config next then calcDifficultyHomestead time parent
  else calcDifficultyFrontier time parent.

(** ** consensus/ethash: the difficulty, with 256-bit words *)

Context `{Uint256}.

Definition frontierDurationLimit : Z := 13.
Definition minimumDifficulty : Z := 131072.
Definition expDiffPeriodUint : Z := 100000.
Definition difficultyBoundDivisor : Z := 11.

(** At least the minimum. *)
Definition at_least_minimum (pDiff : Z) : Z := if Lt pDiff minimumDifficulty then minimumDifficulty else pDiff.

(** [hd_Number]'s low 64 bits plus one, in periods. *)
Definition periods (parent : Header) : Z := wrapU 64 (wrapU 64 (hd_Number parent) + 1) / expDiffPeriodUint.

Definition bomb_U256 (periodCount pDiff : Z) : Z :=
  if 1 <? periodCount then Add pDiff (Lsh 1 (wrapU 64 (periodCount - 2))) else pDiff.

Definition CalcDifficultyFrontierU256 (time : Z) (parent : Header) : Z :=
  let pDiff := FromBig (hd_Difficulty parent) in
  let adjust := Rsh pDiff difficultyBoundDivisor in
  let pDiff := if wrapU 64 (time - hd_Time parent) <? frontierDurationLimit then Add pDiff adjust else Sub pDiff adjust in
  bomb_U256 (periods parent) (at_least_minimum pDiff).

Definition CalcDifficultyHomesteadU256 (time : Z) (parent : Header) : Z :=
  let pDiff := FromBig (hd_Difficulty parent) in
  let adjust := Rsh pDiff difficultyBoundDivisor in
  let x := wrapU 64 (time - hd_Time parent) / 10 in
  let '(x, neg) := if x =? 0 then (1, false) else if 100 <=? x then (99, true) else (x - 1, true) in
  let adjust := Mul adjust x in
  let pDiff := if neg : bool then Sub pDiff adjust else Add pDiff adjust in
  bomb_U256 (periods parent) (at_least_minimum pDiff).

Definition MakeDifficultyCalculatorU256 (bombDelay time : Z) (parent : Header) : Z :=
  let bombDelayFromParent := wrapU 64 (wrapU 64 bombDelay - 1) in
  let x := wrapU 64 (time - hd_Time parent) / 9 in
  let c := if negb (hd_UncleHash parent =? EmptyUncleHash) then 2 else 1 in
  let xNeg := c <=? x in
  let x := if xNeg then x - c else c - x in
  let x := if 99 <? x then 99 else x in
  let pDiff := FromBig (hd_Difficulty parent) in
  let z := Mul (Rsh pDiff difficultyBoundDivisor) x in
  let y := at_least_minimum (if xNeg then Sub pDiff z else Add pDiff z) in
  let pNum := wrapU 64 (hd_Number parent) in
  if bombDelayFromParent <=? pNum then
    let fakeBlockNumber := pNum - bombDelayFromParent in
    if 2 * expDiffPeriodUint <=? fakeBlockNumber then Add (Lsh 1 (fakeBlockNumber / expDiffPeriodUint - 2)) y else y
  else y.
End difficulty.

(** ** consensus/ethash: proof of work

    A word of the cache and the data set has 32 bits.  How caches and data sets
    are generated, kept in memory and on disk is outside the model, [PowData]: the
    cache and the data set, if it is there, of a block. *)

Class PowData := {
  Keccak512 : bytes → bytes;
  ethash_cache : Z → list Z;
  ethash_dataset : Z → option (list Z);
  datasetSize : Z → Z
}.

Definition mixBytes : Z := 128.
Definition hashWords : Z := 16.
Definition datasetParents : nat := 256.
Definition loopAccesses : nat := 64.

Definition fnv (a b : Z) : Z := Z.lxor (wrapU 32 (a * 0x01000193)) b.
Definition fnvHash (mix data : list Z) : list Z := zip_with fnv mix data.

(** [binary.LittleEndian] *)
Definition PutUint32 (x : Z) : bytes := reverse (to_be 4 x).
Fixpoint le_words (b : bytes) : list Z :=
  match b with
  | b0 :: b1 :: b2 :: b3 :: b => be_val [b3; b2; b1; b0] :: le_words b
  | _ => []
  end.
Definition put_words (l : list Z) : bytes := concat (PutUint32 <$> l).

(** A row of words. *)
Definition row_at (l : list Z) (offset : Z) : Go (list Z) :=
  if len l <? offset then Panic SliceOutOfRange
  else if len l <? offset + hashWords then Panic IndexOutOfRange
  else Ret (take 16 (drop (Z.to_nat offset) l)).

(** The numbers a loop of [n] turns counts. *)
Definition turns (n : nat) : list Z := Z.of_nat <$> seq 0 n.

Definition rem_u32 (x rows : Z) : Go Z := if rows =? 0 then Panic DivideByZero else Ret (x mod rows).

Section pow.
Context `{Externals} `{PowData}.

Definition mix_parent (cache : list Z) (rows index : Z) (intMix : list Z) (i : Z) : Go (list Z) :=
  parent ← rem_u32 (fnv (Z.lxor index i) (default 0 (intMix !! Z.to_nat (i mod 16)))) rows;
  data ← row_at cache (wrapU 32 (parent * hashWords));
  Ret (fnvHash intMix data).

Definition generateDatasetItem (cache : list Z) (index : Z) : Go bytes :=
  let rows := wrapU 32 (len cache / hashWords) in
  r ← rem_u32 index rows;
  row ← row_at cache (wrapU 32 (r * hashWords));
  let mix := match row with x :: row => Z.lxor x index :: row | [] => [] end in
  let intMix := le_words (Keccak512 (put_words mix)) in
  intMix ← go_foldl (mix_parent cache rows index) intMix (turns datasetParents);
  Ret (Keccak512 (put_words intMix)).

(** [fnv(fnv(fnv(mix\[i\], mix\[i+1\]), mix\[i+2\]), mix\[i+3\])] of each four words *)
Fixpoint compress (mix : list Z) : list Z :=
  match mix with
  | a :: b :: c :: d :: mix => fnv (fnv (fnv a b) c) d :: compress mix
  | _ => []
  end.

Definition mix_node (lookup : Z → Go (list Z)) (rows seedHead : Z) (mix : list Z) (i : Z) : Go (list Z) :=
  parent ← rem_u32 (fnv (Z.lxor i seedHead) (default 0 (mix !! Z.to_nat (i mod 32)))) rows;
  x ← lookup (wrapU 32 (2 * parent));
  y ← lookup (wrapU 32 (2 * parent + 1));
  Ret (fnvHash mix (x ++ y)).

(** The digest and the result. *)
Definition hashimoto (hash : bytes) (nonce size : Z) (lookup : Z → Go (list Z)) : Go (bytes * bytes) :=
  let rows := wrapU 32 (size / mixBytes) in
  let seed := Keccak512 (hash ++ reverse (to_be 8 nonce)) in
  let words := le_words seed in
  let seedHead := default 0 (head words) in
  mix ← go_foldl (mix_node lookup rows seedHead) (words ++ words) (turns loopAccesses);
  let digest := put_words (compress mix) in
  Ret (digest, Keccak256 (seed ++ digest)).

Definition hashimotoLight (size : Z) (cache : list Z) (hash : bytes) (nonce : Z) : Go (bytes * bytes) :=
  hashimoto hash nonce size (λ index, rawData ← generateDatasetItem cache index; Ret (le_words rawData)).

Definition hashimotoFull (dataset : list Z) (hash : bytes) (nonce : Z) : Go (bytes * bytes) :=
  hashimoto hash nonce (wrapU 64 (len dataset * 4)) (λ index, row_at dataset (wrapU 32 (index * hashWords))).

(** The hash of a header without its seal: an array of its fields. *)
Definition SealHash (h : Header) : Hash :=
  rlpHash (VSlice ([VByteArray (Hash_Bytes (hd_ParentHash h)); VByteArray (Hash_Bytes (hd_UncleHash h));
    VByteArray (Address_Bytes (hd_Coinbase h)); VByteArray (Hash_Bytes (hd_Root h)); VByteArray (Hash_Bytes (hd_TxHash h));
    VByteArray (Hash_Bytes (hd_ReceiptHash h)); VByteArray (hd_Bloom h); VBigPtr (Some (hd_Difficulty h));
    VBigPtr (Some (hd_Number h)); VUint (hd_GasLimit h); VUint (hd_GasUsed h); VUint (hd_Time h); VBytes (hd_Extra h)] ++
    match hd_BaseFee h with Some fee => [VBigPtr (Some fee)] | None => [] end)).

Inductive Mode := ModeNormal | ModeShared | ModeTest | ModeFake | ModeFullFake.

#[export] Instance Mode_eq_dec : EqDecision Mode.
Proof. solve_decision. Defined.

(** An engine, and the one it shares its proof of work with. *)
Inductive Ethash := mkEthash (PowMode : Mode) (fakeFail : Z) (shared : option Ethash).
Definition PowMode (e : Ethash) : Mode := let '(mkEthash m _ _) := e in m.

(** A full verification without a data set is a light one. *)
Definition pow_hash (mode : Mode) (header : Header) (fulldag : bool) : Go (bytes * bytes) :=
  let number := wrapU 64 (hd_Number header) in
  let hash := Hash_Bytes (SealHash header) in
  let nonce := be_val (hd_Nonce header) in
  match (if fulldag then ethash_dataset number else None) with
  | Some dataset => hashimotoFull dataset hash nonce
  | None =>
      let size := if decide (mode = ModeTest) then 32 * 1024 else datasetSize number in
      hashimotoLight size (ethash_cache number) hash nonce
  end.

Fixpoint verifySeal (ethash : Ethash) (header : Header) (fulldag : bool) : Go Verdict :=
  let '(mkEthash mode fakeFail shared) := ethash in
  if bool_decide (mode = ModeFake) || bool_decide (mode = ModeFullFake) then
    Ret (reject_if (fakeFail =? wrapU 64 (hd_Number header)) errInvalidPoW None)
  else
    match shared with
    | Some shared => verifySeal shared header fulldag
    | None =>
        if hd_Difficulty header <=? 0 then Ret (Some errInvalidDifficulty)
        else
          '(digest, result) ← pow_hash mode header fulldag;
          Ret (reject_if (negb (bool_decide (Hash_Bytes (hd_MixDigest header) = digest))) errInvalidMixDigest
              (reject_if (2 ^ 256 / hd_Difficulty header <? be_val result) errInvalidPoW None))
    end.

(** ** consensus/ethash: headers and uncles *)

(** A block, and what an engine reads of the chain. *)
Record Block := mkBlock { blk_header : Header; blk_txs : list Transaction; blk_uncles : list Header }.

Record Chain := mkChain {
  chain_config : ChainConfig;
  GetHeader : Hash → Z → option Header;
  GetBlock : Hash → Z → option Block
}.

Definition maxUncles : Z := 2.
Definition allowedFutureBlockTimeSeconds : Z := 15.

Definition Author (header : Header) : Address := hd_Coinbase header.

(** The gas and the base fee, before London and after. *)
Definition verify_gas (config : ChainConfig) (header parent : Header) : Go Verdict :=
  if negb (Config.IsLondon config (hd_Number header)) then
    Ret (match hd_BaseFee header with
         | Some fee => Some (ErrEarlyBaseFee fee)
         | None => VerifyGaslimit (hd_GasLimit parent) (hd_GasLimit header)
         end)
  else VerifyEip1559Header config parent header.

(** What is checked before the gas. *)
Definition verify_fields (config : ChainConfig) (header parent : Header) (uncle : bool) (unixNow : Z) : Verdict :=
  reject_if (MaximumExtraDataSize <? len (hd_Extra header)) (ErrExtraTooLong (len (hd_Extra header)))
  (reject_if (negb uncle && (wrapU 64 (wrapS 64 (unixNow + allowedFutureBlockTimeSeconds)) <? hd_Time header)) ErrFutureBlock
  (reject_if (hd_Time header <=? hd_Time parent) errOlderBlockTime
  (let expected := CalcDifficulty config (hd_Time header) parent in
   reject_if (negb (expected =? hd_Difficulty header)) (ErrDifficulty (hd_Difficulty header) expected)
  (reject_if (MaxGasLimit <? hd_GasLimit header) (ErrMaxGasLimit (hd_GasLimit header))
  (reject_if (hd_GasLimit header <? hd_GasUsed header) (ErrGasUsed (hd_GasUsed header) (hd_GasLimit header)) None))))).

Definition verifyHeader (ethash : Ethash) (config : ChainConfig) (header parent : Header) (uncle seal : bool) (unixNow : Z)
    : Go Verdict :=
  match verify_fields config header parent uncle unixNow with
  | Some err => Ret (Some err)
  | None =>
      gas ← verify_gas config header parent;
      match and_then gas (reject_if (negb (hd_Number header - hd_Number parent =? 1)) ErrInvalidNumber None) with
      | Some err => Ret (Some err)
      | None =>
          sealed ← (if seal then verifySeal ethash header false else Ret None);
          Ret (and_then sealed (and_then (VerifyDAOHeaderExtraData config header) (VerifyForkHashes config header uncle)))
      end
  end.

Definition VerifyHeader (ethash : Ethash) (chain : Chain) (header : Header) (seal : bool) (unixNow : Z) : Go Verdict :=
  if bool_decide (PowMode ethash = ModeFullFake) then Ret None
  else
    let number := wrapU 64 (hd_Number header) in
    match GetHeader chain (Header_Hash header) number with
    | Some _ => Ret None
    | None =>
        match GetHeader chain (hd_ParentHash header) (wrapU 64 (number - 1)) with
        | None => Ret (Some ErrUnknownAncestor)
        | Some parent => verifyHeader ethash (chain_config chain) header parent false seal unixNow
        end
    end.

(** The header at [index] of a batch: its parent is the one before it. *)
Definition verifyHeaderWorker (ethash : Ethash) (chain : Chain) (headers : list Header) (seals : list bool) (index : nat) (unixNow : Z)
    : Go Verdict :=
  match headers !! index, seals !! index with
  | Some header, Some seal =>
      let parent :=
        match index with
        | O => GetHeader chain (hd_ParentHash header) (wrapU 64 (wrapU 64 (hd_Number header) - 1))
        | S i => match headers !! i with
                 | Some before => if Header_Hash before =? hd_ParentHash header then Some before else None
                 | None => None
                 end
        end in
      match parent with
      | None => Ret (Some ErrUnknownAncestor)
      | Some parent => verifyHeader ethash (chain_config chain) header parent false seal unixNow
      end
  | _, _ => Panic IndexOutOfRange
  end.

(** The uncles and the headers of the last [n] ancestors. *)
Fixpoint past (chain : Chain) (n : nat) (parent : Hash) (number : Z) (uncles : gset Hash) (ancestors : gmap Hash Header)
    : gset Hash * gmap Hash Header :=
  match n with
  | O => (uncles, ancestors)
  | S n =>
      match GetHeader chain parent number with
      | None => (uncles, ancestors)
      | Some ancestorHeader =>
          let ancestors := <[parent := ancestorHeader]> ancestors in
          if negb (hd_UncleHash ancestorHeader =? EmptyUncleHash) then
            match GetBlock chain parent number with
            | None => (uncles, ancestors)
            | Some ancestor =>
                past chain n (hd_ParentHash ancestorHeader) (wrapU 64 (number - 1))
                  (list_to_set (Header_Hash <$> blk_uncles ancestor) ∪ uncles) ancestors
            end
          else past chain n (hd_ParentHash ancestorHeader) (wrapU 64 (number - 1)) uncles ancestors
      end
  end.

Fixpoint verify_uncles (ethash : Ethash) (config : ChainConfig) (parentHash : Hash) (ancestors : gmap Hash Header) (unixNow : Z)
    (l : list Header) (uncles : gset Hash) : Go Verdict :=
  match l with
  | [] => Ret None
  | uncle :: l =>
      let hash := Header_Hash uncle in
      if decide (hash ∈ uncles) then Ret (Some errDuplicateUncle)
      else if decide (is_Some (ancestors !! hash)) then Ret (Some errUncleIsAncestor)
      else
        match ancestors !! hd_ParentHash uncle with
        | None => Ret (Some errDanglingUncle)
        | Some parent =>
            if hd_ParentHash uncle =? parentHash then Ret (Some errDanglingUncle)
            else
              v ← verifyHeader ethash config uncle parent true true unixNow;
              match v with
              | Some err => Ret (Some err)
              | None => verify_uncles ethash config parentHash ancestors unixNow l ({[hash]} ∪ uncles)
              end
        end
  end.

Definition VerifyUncles (ethash : Ethash) (chain : Chain) (block : Block) (unixNow : Z) : Go Verdict :=
  let header := blk_header block in
  if bool_decide (PowMode ethash = ModeFullFake) then Ret None
  else if maxUncles <? Z.of_nat (length (blk_uncles block)) then Ret (Some errTooManyUncles)
  else if Z.of_nat (length (blk_uncles block)) =? 0 then Ret None
  else
    let '(uncles, ancestors) := past chain 7 (hd_ParentHash header) (wrapU 64 (NumberU64 header - 1)) ∅ ∅ in
    let ancestors := <[Header_Hash header := header]> ancestors in
    verify_uncles ethash (chain_config chain) (hd_ParentHash header) ancestors unixNow (blk_uncles block)
      ({[Header_Hash header]} ∪ uncles).

Definition set_Difficulty (d : Z) (h : Header) : Header :=
  mkHeader (hd_ParentHash h) (hd_UncleHash h) (hd_Coinbase h) (hd_Root h) (hd_TxHash h) (hd_ReceiptHash h) (hd_Bloom h) d
    (hd_Number h) (hd_GasLimit h) (hd_GasUsed h) (hd_Time h) (hd_Extra h) (hd_MixDigest h) (hd_Nonce h) (hd_BaseFee h).

(** [Ethash.Prepare] *)
Definition Prepare_header (chain : Chain) (header : Header) : Header * Verdict :=
  match GetHeader chain (hd_ParentHash header) (wrapU 64 (wrapU 64 (hd_Number header) - 1)) with
  | None => (header, Some ErrUnknownAncestor)
  | Some parent => (set_Difficulty (CalcDifficulty (chain_config chain) (hd_Time header) parent) header, None)
  end.
End pow.

(** ** The two difficulties *)

Section difficulty_facts.
Context `{Externals} `{U : Uint256} `{!Uint256Laws U}.

(** Blocks in order, a difficulty with a bit to spare, and a bomb that fits a word. *)
Record difficulty_fits (time : Z) (parent : Header) : Prop := {
  fits_time : 0 ≤ hd_Time parent ≤ time ∧ time < 2 ^ 64;
  fits_difficulty : 0 ≤ hd_Difficulty parent < 2 ^ 255;
  fits_number : 0 ≤ hd_Number parent < 25000000
}.

Lemma word_small x : is_word x → word x = x.
Proof. intros Hx. by apply Z.mod_small. Qed.

Lemma Add_small x y : 0 ≤ x → 0 ≤ y → x + y < 2 ^ 256 → Add x y = x + y.
Proof. intros. rewrite Add_spec, word_small; unfold is_word; lia. Qed.
Lemma Sub_small x y : 0 ≤ y ≤ x → x < 2 ^ 256 → Sub x y = x - y.
Proof. intros. rewrite Sub_spec, word_small; unfold is_word; lia. Qed.
Lemma Mul_small x y : 0 ≤ x → 0 ≤ y < 2 ^ 256 → x < 2 ^ 256 → x * y < 2 ^ 256 → Mul x y = x * y.
Proof. intros. rewrite Mul_spec, word_small; unfold is_word; [lia|nia|lia|lia]. Qed.

(** The step of the difficulty. *)
Lemma step_small D : 0 ≤ D < 2 ^ 255 →
  FromBig D = D ∧ Rsh D difficultyBoundDivisor = D / DifficultyBoundDivisor ∧ 0 ≤ D / 2048 * 2048 ≤ D ∧ 0 ≤ D / 2048.
Proof.
  intros HD. rewrite FromBig_spec, word_small by (unfold is_word; lia). rewrite Rsh_spec by (unfold is_word; lia || done).
  split_and!; try done; pose proof (Z.mul_div_le D 2048 ltac:(lia)); pose proof (Z.div_pos D 2048 ltac:(lia) ltac:(lia)); lia.
Qed.

Lemma at_least_minimum_small x : is_word x → at_least_minimum x = if x <? MinimumDifficulty then MinimumDifficulty else x.
Proof. intros Hx. unfold at_least_minimum. by rewrite Lt_spec by (done || (unfold is_word, minimumDifficulty; lia)). Qed.

Lemma bomb_small n x : n ≤ 251 → 0 ≤ x < 2 ^ 255 + 2 ^ 246 → bomb_U256 n x = bomb n x.
Proof.
  intros Hn Hx. unfold bomb_U256, bomb. destruct (Z.ltb_spec 1 n); [|done].
  rewrite wrapU_small, Lsh_spec, Z.mul_1_l by (lia || (unfold is_word; lia)).
  assert (0 < 2 ^ (n - 2) ≤ 2 ^ 249) by (split; [apply Z.pow_pos_nonneg; lia|apply Z.pow_le_mono_r; lia]).
  rewrite word_small by (unfold is_word; lia). rewrite Add_small by lia. done.
Qed.

Lemma periods_small parent : 0 ≤ hd_Number parent < 25000000 → periods parent = (hd_Number parent + 1) / expDiffPeriod.
Proof. intros Hn. unfold periods. by rewrite (wrapU_small 64 (hd_Number parent)), wrapU_small by lia. Qed.

Lemma periods_le n : 0 ≤ n < 25000000 → n / expDiffPeriod ≤ 250 ∧ (n + 1) / expDiffPeriod ≤ 251.
Proof. intros. split; apply Z.div_le_upper_bound; unfold expDiffPeriod; lia. Qed.

(** The adjusted difficulty: [k] steps up or down, and at least the minimum. *)
Definition adjusted (D f : Z) : Z := let x := D + D / DifficultyBoundDivisor * f in if x <? MinimumDifficulty then MinimumDifficulty else x.

Lemma adjusted_minimum D f : MinimumDifficulty ≤ adjusted D f.
Proof. unfold adjusted. cbv zeta. destruct (Z.ltb_spec (D + D / DifficultyBoundDivisor * f) MinimumDifficulty); lia. Qed.

Lemma adjusted_agree (neg : bool) D k : 0 ≤ D < 2 ^ 255 → 0 ≤ k ≤ 99 → (neg = false → k ≤ 2) →
  at_least_minimum (if neg then Sub D (Mul (Rsh D difficultyBoundDivisor) k) else Add D (Mul (Rsh D difficultyBoundDivisor) k)) =
    adjusted D (if neg then - k else k) ∧
  0 ≤ adjusted D (if neg then - k else k) < 2 ^ 255 + 2 ^ 246.
Proof.
  intros HD Hk Hneg. destruct (step_small D HD) as (_ & -> & Hm & Hp). unfold adjusted, MinimumDifficulty.
  change DifficultyBoundDivisor with 2048 in *. set (q := D / 2048) in *.
  assert (0 ≤ q * k ≤ D) as Hq by nia. rewrite Mul_small by lia.
  set (x := D + q * (if neg then - k else k)).
  assert (0 ≤ x < 2 ^ 255 + 2 ^ 246) as Hx.
  { unfold x. destruct neg; [lia|]. specialize (Hneg eq_refl). assert (q * k ≤ q * 2) by nia. lia. }
  assert ((if neg then Sub D (q * k) else Add D (q * k)) = x) as ->.
  { unfold x. destruct neg; [rewrite Sub_small by lia; lia|]. unfold x in Hx. by rewrite Add_small by lia. }
  rewrite at_least_minimum_small by (unfold is_word; lia). unfold MinimumDifficulty. split; [done|].
  destruct (Z.ltb_spec x 131072); lia.
Qed.

Lemma homestead_agree time parent : difficulty_fits time parent →
  CalcDifficultyHomesteadU256 time parent = calcDifficultyHomestead time parent.
Proof.
  intros [Ht HD Hn]. unfold CalcDifficultyHomesteadU256, calcDifficultyHomestead. cbv zeta.
  rewrite (proj1 (step_small _ HD)), periods_small, wrapU_small by lia. destruct (periods_le _ Hn) as [_ Hp].
  set (x := (time - hd_Time parent) / 10). assert (0 ≤ x) as Hx by (apply Z.div_pos; lia).
  assert (∃ (neg : bool) k, (if x =? 0 then (1, false) else if 100 <=? x then (99, true) else (x - 1, true)) = (k, neg) ∧
    0 ≤ k ≤ 99 ∧ (neg = false → k ≤ 2) ∧ (if 1 - x <? -99 then -99 else 1 - x) = if neg then - k else k) as (neg & k & -> & Hk & Hneg & ->).
  { destruct (Z.eqb_spec x 0) as [->|]; [exists false, 1; split_and!; done || lia|].
    destruct (Z.leb_spec 100 x); [exists true, 99|exists true, (x - 1)]; split_and!; try done; try lia; destruct (Z.ltb_spec (1 - x) (-99)); lia. }
  destruct (adjusted_agree neg _ k HD Hk Hneg) as [-> Hb]. by apply bomb_small.
Qed.

Lemma frontier_agree time parent : difficulty_fits time parent →
  CalcDifficultyFrontierU256 time parent = calcDifficultyFrontier time parent.
Proof.
  intros [Ht HD Hn]. unfold CalcDifficultyFrontierU256, calcDifficultyFrontier. cbv zeta.
  rewrite (proj1 (step_small _ HD)), periods_small, wrapU_small by lia. destruct (periods_le _ Hn) as [_ Hp].
  set (up := time - hd_Time parent <? DurationLimit). change (time - hd_Time parent <? frontierDurationLimit) with up.
  destruct (adjusted_agree (negb up) _ 1 HD ltac:(lia) ltac:(lia)) as [He Hb].
  assert (Mul (Rsh (hd_Difficulty parent) difficultyBoundDivisor) 1 = Rsh (hd_Difficulty parent) difficultyBoundDivisor) as Hone.
  { destruct (step_small _ HD) as (_ & -> & _ & Hq). change DifficultyBoundDivisor with 2048. pose proof (Z.div_le_upper_bound (hd_Difficulty parent) 2048 (2 ^ 255) ltac:(lia) ltac:(lia)). by rewrite Mul_small, Z.mul_1_r by lia. }
  rewrite !Hone in He.
  assert ((if up then Add (hd_Difficulty parent) (Rsh (hd_Difficulty parent) difficultyBoundDivisor)
           else Sub (hd_Difficulty parent) (Rsh (hd_Difficulty parent) difficultyBoundDivisor)) =
          if negb up then Sub (hd_Difficulty parent) (Rsh (hd_Difficulty parent) difficultyBoundDivisor)
           else Add (hd_Difficulty parent) (Rsh (hd_Difficulty parent) difficultyBoundDivisor)) as -> by by destruct up.
  rewrite He, bomb_small by done.
  assert (adjusted (hd_Difficulty parent) (if negb up then - (1) else 1) =
    if (if up then hd_Difficulty parent + hd_Difficulty parent / DifficultyBoundDivisor
        else hd_Difficulty parent - hd_Difficulty parent / DifficultyBoundDivisor) <? MinimumDifficulty then MinimumDifficulty
    else if up then hd_Difficulty parent + hd_Difficulty parent / DifficultyBoundDivisor
         else hd_Difficulty parent - hd_Difficulty parent / DifficultyBoundDivisor) as <-.
  { unfold adjusted. cbv zeta. destruct up; cbn [negb]; [by rewrite Z.mul_1_r|].
    by replace (hd_Difficulty parent / DifficultyBoundDivisor * - (1)) with (- (hd_Difficulty parent / DifficultyBoundDivisor)) by lia. }
  unfold bomb. destruct (Z.ltb_spec 1 ((hd_Number parent + 1) / expDiffPeriod)); [|done].
  assert (0 < 2 ^ ((hd_Number parent + 1) / expDiffPeriod - 2)) by (apply Z.pow_pos_nonneg; lia).
  pose proof (adjusted_minimum (hd_Difficulty parent) (if negb up then - (1) else 1)). lia.
Qed.

Lemma calculator_agree bombDelay time parent : difficulty_fits time parent → 1 ≤ bombDelay < 2 ^ 64 →
  MakeDifficultyCalculatorU256 bombDelay time parent = makeDifficultyCalculator bombDelay time parent.
Proof.
  intros [Ht HD Hn] Hd. unfold MakeDifficultyCalculatorU256, makeDifficultyCalculator. cbv zeta.
  rewrite (proj1 (step_small _ HD)), (wrapU_small 64 bombDelay), (wrapU_small 64 (time - _)), (wrapU_small 64 (hd_Number parent)), (wrapU_small 64 (bombDelay - 1)) by lia.
  set (x := (time - hd_Time parent) / 9). assert (0 ≤ x) as Hx by (apply Z.div_pos; lia).
  set (c := if negb (hd_UncleHash parent =? EmptyUncleHash) then 2 else 1).
  assert ((if hd_UncleHash parent =? EmptyUncleHash then 1 - x else 2 - x) = c - x) as -> by (unfold c; by destruct (_ =? _)).
  assert (1 ≤ c ≤ 2) as Hc by (unfold c; destruct (negb _); lia).
  set (k := if 99 <? (if c <=? x then x - c else c - x) then 99 else if c <=? x then x - c else c - x).
  assert (0 ≤ k ≤ 99 ∧ ((c <=? x) = false → k ≤ 2) ∧ (if c - x <? -99 then -99 else c - x) = if c <=? x then - k else k) as (Hk & Hneg & ->).
  { unfold k. destruct (Z.leb_spec c x), (Z.ltb_spec (c - x) (-99)); try lia.
    - destruct (Z.ltb_spec 99 (x - c)); lia.
    - destruct (Z.ltb_spec 99 (x - c)); split_and!; try done; lia.
    - destruct (Z.ltb_spec 99 (c - x)); lia. }
  destruct (adjusted_agree (c <=? x) _ k HD Hk Hneg) as [-> Hb].
  fold (adjusted (hd_Difficulty parent) (if c <=? x then - k else k)). set (y := adjusted _ _) in *.
  unfold bomb. change expDiffPeriodUint with 100000. change expDiffPeriod with 100000.
  destruct (Z.leb_spec (bombDelay - 1) (hd_Number parent)) as [Hle|_]; [|done].
  set (f := hd_Number parent - (bombDelay - 1)). assert (0 ≤ f < 25000000) as Hf by lia.
  destruct (periods_le f Hf) as [Hp _]. change expDiffPeriod with 100000 in Hp.
  destruct (Z.leb_spec (2 * 100000) f) as [H2|H2].
  - assert (2 ≤ f / 100000) by (apply Z.div_le_lower_bound; lia). destruct (Z.ltb_spec 1 (f / 100000)); [|lia].
    rewrite Lsh_spec, Z.mul_1_l by (lia || (unfold is_word; lia)).
    assert (0 < 2 ^ (f / 100000 - 2) ≤ 2 ^ 249) by (split; [apply Z.pow_pos_nonneg; lia|apply Z.pow_le_mono_r; lia]).
    rewrite word_small, Add_small by (unfold is_word; lia || lia). lia.
  - assert (f / 100000 < 2) by (apply Z.div_lt_upper_bound; lia). destruct (Z.ltb_spec 1 (f / 100000)); [lia|done].
Qed.

(** A difficulty is never below the minimum. *)
Lemma CalcDifficulty_minimum config time parent : MinimumDifficulty ≤ CalcDifficulty config time parent.
Proof.
  assert (∀ n x, MinimumDifficulty ≤ x → MinimumDifficulty ≤ bomb n x) as Hbomb.
  { intros n x Hx. unfold bomb. destruct (1 <? n); [|done]. pose proof (Z.pow_nonneg 2 (n - 2) ltac:(lia)). lia. }
  assert (∀ x, MinimumDifficulty ≤ if x <? MinimumDifficulty then MinimumDifficulty else x) as Hmin
    by (intros x; destruct (Z.ltb_spec x MinimumDifficulty); lia).
  assert (∀ d, MinimumDifficulty ≤ makeDifficultyCalculator d time parent) as Hmake by (intros d; apply Hbomb, Hmin).
  assert (MinimumDifficulty ≤ calcDifficultyHomestead time parent) by apply Hbomb, Hmin.
  assert (MinimumDifficulty ≤ calcDifficultyFrontier time parent).
  { unfold calcDifficultyFrontier. cbv zeta. destruct (1 <? _); [lia|apply Hmin]. }
  unfold CalcDifficulty. cbv zeta. by repeat (case_match; [apply Hmake|]); case_match.
Qed.
End difficulty_facts.

(** ** Gas limits and base fees *)

Lemma VerifyGaslimit_spec parent header : 0 ≤ parent < 2 ^ 63 → 0 ≤ header < 2 ^ 63 →
  VerifyGaslimit parent header = None ↔ Z.abs (parent - header) < parent / GasLimitBoundDivisor ∧ MinGasLimit ≤ header.
Proof.
  intros Hp Hh. unfold VerifyGaslimit, reject_if. cbv zeta.
  rewrite (wrapS_small 64 parent), (wrapS_small 64 header), (wrapS_small 64 (parent - header)) by lia.
  assert (wrapU 64 (if parent - header <? 0 then wrapS 64 ((parent - header) * -1) else parent - header) = Z.abs (parent - header)) as ->.
  { destruct (Z.ltb_spec (parent - header) 0); rewrite ?wrapS_small, wrapU_small by lia; lia. }
  destruct (Z.leb_spec (parent / GasLimitBoundDivisor) (Z.abs (parent - header))); [split; [done|lia]|].
  destruct (Z.ltb_spec header MinGasLimit); split; done || lia.
Qed.

(** The base fee moves with the gas of the parent, by an eighth at most. *)
Lemma CalcBaseFee_spec config parent fee :
  Config.IsLondon config (hd_Number parent) = true → hd_BaseFee parent = Some fee → 0 ≤ fee →
  2 ≤ hd_GasLimit parent → 0 ≤ hd_GasUsed parent ≤ 2 * (hd_GasLimit parent / 2) → hd_GasLimit parent < 2 ^ 64 →
  ∃ r, CalcBaseFee config parent = Ret r ∧ fee - fee / 8 ≤ r ≤ fee + Z.max (fee / 8) 1 ∧ 0 ≤ r ∧
    (hd_GasUsed parent = hd_GasLimit parent / 2 → r = fee) ∧
    (hd_GasLimit parent / 2 < hd_GasUsed parent → fee < r) ∧ (hd_GasUsed parent < hd_GasLimit parent / 2 → r ≤ fee).
Proof.
  intros HL HF H0 Hl Hu Hw. unfold CalcBaseFee. rewrite HL, HF. cbn [negb]. cbv zeta.
  change ElasticityMultiplier with 2. change BaseFeeChangeDenominator with 8. set (t := hd_GasLimit parent / 2) in *.
  assert (1 ≤ t) as Ht by (apply Z.div_le_lower_bound; lia).
  assert (t ≤ hd_GasLimit parent) by (apply Z.div_le_upper_bound; lia).
  assert (0 ≤ fee / 8 ≤ fee) by (split; [apply Z.div_pos; lia|apply Z.div_le_upper_bound; lia]).
  assert (∀ d, 0 ≤ d ≤ t → 0 ≤ fee * d / t / 8 ≤ fee / 8) as Hd.
  { intros d Hd. assert (0 ≤ fee * d / t ≤ fee) by (split; [apply Z.div_pos; nia|apply Z.div_le_upper_bound; nia]).
    split; [apply Z.div_pos; lia|apply Z.div_le_mono; lia]. }
  destruct (Z.eqb_spec (hd_GasUsed parent) t); [exists fee; split; [done|]; lia|].
  destruct (Z.eqb_spec t 0); [lia|]. destruct (Z.ltb_spec t (hd_GasUsed parent)) as [Hlt|Hge].
  - rewrite wrapU_small by lia. eexists. split; [done|]. specialize (Hd (hd_GasUsed parent - t) ltac:(lia)). lia.
  - rewrite wrapU_small by lia. eexists. split; [done|]. specialize (Hd (t - hd_GasUsed parent) ltac:(lia)). lia.
Qed.

(** ** Headers *)

Section header_facts.
Context `{Externals} `{PowData}.

(** The gas limit that the one of the next block is measured by. *)
Definition measured_limit (config : ChainConfig) (header parent : Header) : Z :=
  if Config.IsLondon config (hd_Number header) && negb (Config.IsLondon config (hd_Number parent))
  then hd_GasLimit parent * ElasticityMultiplier else hd_GasLimit parent.

(** What the rules ask of a header, given its parent and the time. *)
Record valid_header (config : ChainConfig) (header parent : Header) (uncle : bool) (now : Z) : Prop := {
  valid_extra : len (hd_Extra header) ≤ 32;
  valid_future : uncle = false → hd_Time header ≤ now + 15;
  valid_time : hd_Time parent < hd_Time header;
  valid_number : hd_Number header = hd_Number parent + 1;
  valid_difficulty : hd_Difficulty header = CalcDifficulty config (hd_Time header) parent;
  valid_gas : hd_GasUsed header ≤ hd_GasLimit header ∧ MinGasLimit ≤ hd_GasLimit header < 2 ^ 63;
  valid_limit : Z.abs (measured_limit config header parent - hd_GasLimit header) <
    measured_limit config header parent / GasLimitBoundDivisor;
  valid_fee :
    if Config.IsLondon config (hd_Number header) then ∃ fee, hd_BaseFee header = Some fee ∧ CalcBaseFee config parent = Ret fee
    else hd_BaseFee header = None;
  valid_dao : VerifyDAOHeaderExtraData config header = None;
  valid_fork : VerifyForkHashes config header uncle = None
}.

Lemma reject_None b err next : reject_if b err next = None ↔ b = false ∧ next = None.
Proof. destruct b; cbn; split; [done|by intros [? _]|done|by intros [_ ?]]. Qed.

Lemma and_then_None v next : and_then v next = None ↔ v = None ∧ next = None.
Proof. destruct v; cbn; split; [done|by intros [? _]|done|by intros [_ ?]]. Qed.

Lemma verify_fields_spec config header parent uncle now :
  0 ≤ hd_Time header < 2 ^ 64 → 0 ≤ now < 2 ^ 62 →
  verify_fields config header parent uncle now = None ↔
    len (hd_Extra header) ≤ 32 ∧ (uncle = false → hd_Time header ≤ now + 15) ∧ hd_Time parent < hd_Time header ∧
    hd_Difficulty header = CalcDifficulty config (hd_Time header) parent ∧
    hd_GasLimit header < 2 ^ 63 ∧ hd_GasUsed header ≤ hd_GasLimit header.
Proof.
  intros Ht Hn. unfold verify_fields. cbv zeta. rewrite !reject_None. unfold MaximumExtraDataSize, MaxGasLimit, allowedFutureBlockTimeSeconds.
  rewrite wrapS_small, wrapU_small by lia. rewrite !Z.ltb_ge, Z.leb_gt, negb_false_iff, Z.eqb_eq.
  assert ((negb uncle && (now + 15 <? hd_Time header)) = false ↔ (uncle = false → hd_Time header ≤ now + 15)) as ->.
  { destruct uncle; cbn; [done|]. rewrite Z.ltb_ge. split; auto. }
  intuition lia.
Qed.

(** The gas limit and the base fee. *)
Definition fee_ok (config : ChainConfig) (header parent : Header) : Prop :=
  if Config.IsLondon config (hd_Number header) then ∃ fee, hd_BaseFee header = Some fee ∧ CalcBaseFee config parent = Ret fee
  else hd_BaseFee header = None.

Lemma verify_gas_spec config header parent :
  0 ≤ hd_GasLimit parent < 2 ^ 62 → 0 ≤ hd_GasLimit header < 2 ^ 63 →
  verify_gas config header parent = Ret None ↔
    (Z.abs (measured_limit config header parent - hd_GasLimit header) < measured_limit config header parent / GasLimitBoundDivisor ∧
     MinGasLimit ≤ hd_GasLimit header) ∧ fee_ok config header parent.
Proof.
  intros Hp Hh. unfold verify_gas, measured_limit, fee_ok. destruct (Config.IsLondon config (hd_Number header)); cbn [negb andb].
  2: { rewrite <- VerifyGaslimit_spec by lia. destruct (hd_BaseFee header); split; [done|by intros [_ ?]|by intros [= ->]|by intros [-> _]]. }
  unfold VerifyEip1559Header. cbv zeta. change ElasticityMultiplier with 2.
  assert ((if negb (Config.IsLondon config (hd_Number parent)) then wrapU 64 (hd_GasLimit parent * 2) else hd_GasLimit parent) =
    if negb (Config.IsLondon config (hd_Number parent)) then hd_GasLimit parent * 2 else hd_GasLimit parent) as ->
    by (destruct (Config.IsLondon config (hd_Number parent)); cbn [negb]; by rewrite ?wrapU_small by lia).
  rewrite <- VerifyGaslimit_spec by (destruct (Config.IsLondon config (hd_Number parent)); cbn [negb]; lia).
  destruct (VerifyGaslimit _ _); [split; [done|by intros [? _]]|].
  destruct (hd_BaseFee header) as [fee|]; [|split; [done|by intros (_ & ? & ? & _)]].
  destruct (CalcBaseFee config parent) as [r|]; [|split; [done|by intros (_ & ? & _ & ?)]].
  cbn. unfold reject_if. destruct (Z.eqb_spec fee r) as [->|Hne]; cbn.
  - split; [intros _; split; [done|by exists r]|done].
  - split; [done|]. intros (_ & ? & [= ->] & [= ->]). done.
Qed.

Lemma verifyHeader_spec ethash config header parent uncle seal now :
  0 ≤ hd_Time header < 2 ^ 64 → 0 ≤ now < 2 ^ 62 → 0 ≤ hd_GasLimit parent < 2 ^ 62 → 0 ≤ hd_GasLimit header →
  verifyHeader ethash config header parent uncle seal now = Ret None ↔
    valid_header config header parent uncle now ∧ (seal = true → verifySeal ethash header false = Ret None).
Proof.
  intros Ht Hn Hp Hh. pose proof (verify_fields_spec config header parent uncle now Ht Hn) as Hf. unfold verifyHeader.
  destruct (verify_fields config header parent uncle now) as [err|].
  { split; [done|]. intros [[] _]. destruct Hf as [_ Hf]. discriminate Hf. split_and!; try done; lia. }
  destruct Hf as [Hf _]. specialize (Hf eq_refl). destruct Hf as (F1 & F2 & F3 & F4 & F5 & F6).
  pose proof (verify_gas_spec config header parent Hp ltac:(lia)) as Hg. unfold fee_ok in Hg.
  destruct (verify_gas config header parent) as [gas|].
  2: { split; [done|]. intros [[] _]. destruct Hg as [_ Hg]. discriminate Hg. split_and!; try done; lia. }
  cbn [mbind Go_bind]. destruct (and_then gas _) as [err|] eqn:Eg.
  { split; [done|]. intros [[? ? ? Hnum ? [? ?] ? ? ? ?] _]. assert (gas = None) as Hgn.
    { destruct Hg as [_ Hg]. assert (Ret gas = Ret None) as [= ->]; [apply Hg; split_and!; try done; lia|done]. }
    rewrite Hgn, Hnum in Eg. cbn in Eg. unfold reject_if in Eg. destruct (Z.eqb_spec (hd_Number parent + 1 - hd_Number parent) 1); [done|lia]. }
  apply and_then_None in Eg as [-> Eg]. apply reject_None in Eg as [Enum _]. apply negb_false_iff, Z.eqb_eq in Enum.
  destruct Hg as [Hg _]. specialize (Hg eq_refl). destruct Hg as [[Hlim Hmin] Hfee].
  assert (valid_header config header parent uncle now ↔ VerifyDAOHeaderExtraData config header = None ∧ VerifyForkHashes config header uncle = None) as Hv.
  { split; [by intros []|]. intros [? ?]. split; try done; lia. }
  rewrite Hv. destruct seal.
  - destruct (verifySeal ethash header false) as [sealed|]; cbn; [|split; [done|by intros [_ ?]; discriminate (H1 eq_refl)]].
    split.
    + intros [= Hs]. rewrite !and_then_None in Hs. destruct Hs as (-> & ? & ?). done.
    + intros [[H1 H2] H3]. specialize (H3 eq_refl). injection H3 as ->. cbn. by rewrite H1, H2.
  - cbn. split.
    + intros [= Hs]. rewrite and_then_None in Hs. done.
    + intros [[H1 H2] _]. by rewrite H1, H2.
Qed.
End header_facts.

(** ** Light and full proofs of work *)

Section pow_facts.
Context `{Externals} `{PowData}.

(** The data set of a cache: the rows of its items, one after the other. *)
Definition dataset_of (cache : list Z) (n : Z) (dataset : list Z) : Prop :=
  len dataset = 16 * n ∧
  ∀ i, 0 ≤ i < n → ∃ b, generateDatasetItem cache i = Ret b ∧ le_words b = take 16 (drop (Z.to_nat (16 * i)) dataset).

Lemma row_at_ret l off : 0 ≤ off → off + 16 ≤ len l → row_at l off = Ret (take 16 (drop (Z.to_nat off) l)).
Proof.
  intros Ho Hl. unfold row_at. change hashWords with 16.
  destruct (Z.ltb_spec (len l) off); [lia|]. by destruct (Z.ltb_spec (len l) (off + 16)); [lia|].
Qed.

Lemma mix_node_ext f g rows seedHead mix i :
  0 ≤ rows → (∀ k, 0 ≤ k < 2 * rows → f (wrapU 32 k) = g (wrapU 32 k)) → mix_node f rows seedHead mix i = mix_node g rows seedHead mix i.
Proof.
  intros Hr Hfg. unfold mix_node, rem_u32. destruct (Z.eqb_spec rows 0); [done|]. cbn.
  pose proof (Z.mod_pos_bound (fnv (Z.lxor i seedHead) (default 0 (mix !! Z.to_nat (i mod 32)))) rows ltac:(lia)) as Hm.
  set (parent := _ mod rows) in *. by rewrite !Hfg by lia.
Qed.

Lemma hashimoto_ext f g hash nonce size :
  0 ≤ size / 128 < 2 ^ 32 → (∀ k, 0 ≤ k < 2 * (size / 128) → f (wrapU 32 k) = g (wrapU 32 k)) →
  hashimoto hash nonce size f = hashimoto hash nonce size g.
Proof.
  intros Hs Hfg. unfold hashimoto. change mixBytes with 128. rewrite (wrapU_small 32 (size / 128)) by lia. cbv zeta.
  erewrite go_foldl_ext; [done|]. intros mix i _. apply mix_node_ext; [lia|exact Hfg].
Qed.

(** Checking a seal with the cache gives what checking it with the data set gives. *)
Lemma hashimoto_light_full cache n dataset hash nonce :
  0 ≤ n < 2 ^ 28 → dataset_of cache n dataset →
  hashimotoLight (64 * n) cache hash nonce = hashimotoFull dataset hash nonce.
Proof.
  intros Hn [Hlen Hd]. unfold hashimotoLight, hashimotoFull. rewrite Hlen, wrapU_small by lia.
  replace (16 * n * 4) with (64 * n) by lia.
  assert (64 * n / 128 * 128 ≤ 64 * n) as Hb by (rewrite Z.mul_comm; apply Z.mul_div_le; lia).
  pose proof (Z.div_pos (64 * n) 128 ltac:(lia) ltac:(lia)).
  apply hashimoto_ext; [lia|]. intros k Hk. rewrite !(wrapU_small 32 k), wrapU_small by (change hashWords with 16; lia).
  change hashWords with 16. destruct (Hd k ltac:(lia)) as (b & -> & Hb'). cbn. rewrite Hb'.
  rewrite row_at_ret by lia. by replace (k * 16) with (16 * k) by lia.
Qed.
End pow_facts.

(** ** Properties *)

(** C13: the difficulty computed with words is the one computed with big
    integers, by the rules of every fork, as long as blocks are in order, the
    difficulty leaves a bit of the word free and the bomb fits it; and it is
    never below the minimum. *)
Theorem U256_difficulty `{Externals} `{U : Uint256} `{!Uint256Laws U} (config : ChainConfig) (time : Z) (parent : Header) :
  difficulty_fits time parent →
  CalcDifficultyFrontierU256 time parent = calcDifficultyFrontier time parent ∧
  CalcDifficultyHomesteadU256 time parent = calcDifficultyHomestead time parent ∧
  (∀ bombDelay, 1 ≤ bombDelay < 2 ^ 64 →
     MakeDifficultyCalculatorU256 bombDelay time parent = makeDifficultyCalculator bombDelay time parent) ∧
  MinimumDifficulty ≤ CalcDifficulty config time parent.
Proof.
  intros Hf. split_and!; [by apply frontier_agree|by apply homestead_agree|by intros; apply calculator_agree|].
  apply CalcDifficulty_minimum.
Qed.

(** C22: the engine accepts exactly the headers that follow the rules, given
    their parents: the next number, a later time, the difficulty and the base fee
    of the parent, at most 32 extra bytes, gas within limits that move by less
    than one in 1024 (from twice the limit when London begins), what the DAO and
    the gas-price forks ask; and, if asked to, the seal.  The base fee moves with
    the gas the parent used, by an eighth at most, and never overflows the
    arithmetic. *)
Theorem headers_accepted `{Externals} `{PowData} ethash config header parent uncle seal now :
  0 ≤ hd_Time header < 2 ^ 64 → 0 ≤ now < 2 ^ 62 → 0 ≤ hd_GasLimit parent < 2 ^ 62 → 0 ≤ hd_GasLimit header →
  (verifyHeader ethash config header parent uncle seal now = Ret None ↔
     valid_header config header parent uncle now ∧ (seal = true → verifySeal ethash header false = Ret None)) ∧
  (∀ fee, Config.IsLondon config (hd_Number parent) = true → hd_BaseFee parent = Some fee → 0 ≤ fee →
     2 ≤ hd_GasLimit parent → 0 ≤ hd_GasUsed parent ≤ 2 * (hd_GasLimit parent / 2) →
     ∃ r, CalcBaseFee config parent = Ret r ∧ 0 ≤ r ∧ fee - fee / 8 ≤ r ≤ fee + Z.max (fee / 8) 1 ∧
       (hd_GasUsed parent = hd_GasLimit parent / 2 → r = fee) ∧
       (hd_GasLimit parent / 2 < hd_GasUsed parent → fee < r) ∧ (hd_GasUsed parent < hd_GasLimit parent / 2 → r ≤ fee)).
Proof.
  intros Ht Hn Hp Hh. split; [by apply verifyHeader_spec|]. intros fee HL HF Hfee Hl Hu.
  destruct (CalcBaseFee_spec config parent fee HL HF Hfee Hl Hu ltac:(lia)) as (r & ? & ? & ? & ? & ? & ?). by exists r.
Qed.

(** ** Examples *)

Definition demo_header (number time gasLimit gasUsed difficulty : Z) (fee : option Z) : Header :=
  mkHeader 0 0 0 0 0 0 (replicate 256 0) difficulty number gasLimit gasUsed time [] 0 (replicate 8 0) fee.

#[export] Instance demo_pow : PowData := {| Keccak512 b := b; ethash_cache _ := []; ethash_dataset _ := None; datasetSize _ := 0 |}.

Lemma U256_difficulty_witness :
  CalcDifficultyFrontierU256 1013 (demo_header 250000 1000 5000 0 (2 ^ 40) None) =
    calcDifficultyFrontier 1013 (demo_header 250000 1000 5000 0 (2 ^ 40) None) ∧
  calcDifficultyFrontier 1013 (demo_header 250000 1000 5000 0 (2 ^ 40) None) = 2 ^ 40 - 2 ^ 29 + 1.
Proof.
  split; [|vm_compute; reflexivity].
  refine (proj1 (U256_difficulty MainnetChainConfig 1013 (demo_header 250000 1000 5000 0 (2 ^ 40) None) _)).
  split; cbn; lia.
Defined.

(** A block older than its parent: the words take it for one that is much later. *)
Example U256_older :
  (calcDifficultyFrontier 1000 (demo_header 1 1001 5000 0 (2 ^ 40) None),
   CalcDifficultyFrontierU256 1000 (demo_header 1 1001 5000 0 (2 ^ 40) None)) = (2 ^ 40 + 2 ^ 29, 2 ^ 40 - 2 ^ 29).
Proof. vm_compute. reflexivity. Qed.

(** A full block of London, and one that follows it. *)
Definition london_parent : Header := demo_header 12965000 1000 30000000 30000000 (2 ^ 50) (Some 1000000000).
Definition london_child : Header :=
  demo_header 12965001 1013 30000100 0 (CalcDifficulty MainnetChainConfig 1013 london_parent) (Some 1125000000).

Lemma headers_accepted_witness :
  valid_header MainnetChainConfig london_child london_parent false 2000 ∧
  ∃ r, CalcBaseFee MainnetChainConfig london_parent = Ret r ∧ 1000000000 < r ≤ 1125000000.
Proof.
  destruct (headers_accepted (mkEthash ModeNormal 0 None) MainnetChainConfig london_child london_parent false false 2000)
    as [Hiff Hfee]; [split; [discriminate|reflexivity]|lia|split; [discriminate|reflexivity]|discriminate|]. split.
  - apply Hiff. vm_compute. reflexivity.
  - destruct (Hfee 1000000000) as (r & E & _ & Hr & _ & Hup & _); [reflexivity|reflexivity|lia|discriminate|split; discriminate|].
    exists r. split; [exact E|]. split; [apply Hup; reflexivity|]. exact (proj2 Hr).
Defined.

(** The limit of a London block is doubled in 64 bits and then taken for a
    signed number: far from the limit of its parent, but accepted. *)
Example London_gas_limit : VerifyGaslimit (wrapU 64 (MaxGasLimit * ElasticityMultiplier)) 10000 = None.
Proof. vm_compute. reflexivity. Qed.
