(* ===== verification/TxSpec.v ===== *)
(** * Properties of transactions: signing, recovering, encoding *)

From S2P Require Import Prelude DemoState Common Uint256 Machine VmFacts Vm Evm ChainConfig Rlp RlpFacts RlpDecode RlpStreamFacts RlpDecodeFacts RlpRoundTrip Codec Types Transactions.

(** What the library of the curve promises: a signature is two numbers below the
    order, the second in the lower half, and a recovery id, and the public key is
    recovered from it. *)
Class Secp256k1Laws (C : Secp256k1) : Prop := {
  pubkey_uncompressed k : ∃ b, pubkey k = 4 :: b;
  crypto_Sign_spec h k sig : crypto_Sign h k = inr sig →
    ∃ r s v, sig = to_be 32 r ++ to_be 32 s ++ [v] ∧ 1 ≤ r < secp256k1N ∧ 1 ≤ s ≤ secp256k1halfN ∧ (v = 0 ∨ v = 1) ∧
      Ecrecover h sig = inr (pubkey k)
}.

(** A signer of a chain with an id. *)
Definition signer_ok (s : Signer) : Prop :=
  match s with
  | londonSigner c m | eip2930Signer c m | EIP155Signer c m => 0 < c ∧ m = c * 2
  | HomesteadSigner | FrontierSigner => True
  end.

(** The types of transactions a signer knows. *)
Definition supports (s : Signer) (tx : TxData) : bool :=
  match tx, s with
  | legacy_tx _, _ => true
  | access_list_tx _, (londonSigner _ _ | eip2930Signer _ _) => true
  | dynamic_fee_tx _, londonSigner _ _ => true
  | _, _ => false
  end.

(** The chain id of a transaction is open, or the signer's. *)
Definition chain_fits (s : Signer) (tx : TxData) : bool :=
  match tx with
  | legacy_tx _ => true
  | _ => (tx_chainID tx =? 0) || bool_decide (Signer_ChainID s = Some (tx_chainID tx))
  end.

(** What is signed of a transaction. *)
Definition contents (tx : TxData) : Z * Z * Z * Z * Z * Z * option Address * Z * bytes * AccessList :=
  (txType tx, tx_nonce tx, tx_gasPrice tx, tx_gasTipCap tx, tx_gasFeeCap tx, tx_gas tx, tx_to tx, tx_value tx, tx_data tx,
   tx_accessList tx).

(** What another signer makes of a transaction of a type that it supports, which
    was signed by [a] for the chain [c]; [None] is for every chain. *)
Definition recovered (other : Signer) (c : option Z) (a : Address) : TxError + Address :=
  match c, Signer_ChainID other with
  | None, _ => inr a
  | Some _, None => inl ErrInvalidSig
  | Some c, Some c' => if c =? c' then inr a else inl ErrInvalidChainId
  end.

Section signing.
Context `{Externals} `{C : Secp256k1} `{!Secp256k1Laws C}.

Lemma to_be_32 x : 0 ≤ x < secp256k1N → be_val (to_be 32 x) = x.
Proof. intros Hx. rewrite be_val_to_be. apply Z.mod_small. unfold secp256k1N in Hx. lia. Qed.

Lemma take_32 x l : take 32 (to_be 32 x ++ l) = to_be 32 x.
Proof. by rewrite take_app_le, take_ge by (rewrite to_be_length; lia). Qed.
Lemma drop_32 x l : drop 32 (to_be 32 x ++ l) = l.
Proof. by rewrite drop_app_ge, to_be_length, Nat.sub_diag by (rewrite to_be_length; lia). Qed.
Lemma nth_64 r s v : (to_be 32 r ++ to_be 32 s ++ [v]) !! 64%nat = Some v.
Proof. by rewrite lookup_app_r, lookup_app_r by (rewrite ?to_be_length; lia); rewrite ?to_be_length. Qed.

Lemma decodeSignature_ok r s v :
  0 ≤ r < secp256k1N → 0 ≤ s < secp256k1N → (v = 0 ∨ v = 1) →
  decodeSignature (to_be 32 r ++ to_be 32 s ++ [v]) = Ret (r, s, v + 27) ∧ recovery_id (to_be 32 r ++ to_be 32 s ++ [v]) = v.
Proof.
  intros Hr Hs Hv. unfold decodeSignature, recovery_id, SignatureLength, len. rewrite nth_64, !length_app, !to_be_length. split; [|done].
  cbn [length Z.of_nat Nat.add negb]. rewrite take_32, drop_32, take_32, !to_be_32 by done. cbn. by destruct Hv as [-> | ->].
Qed.

(** A signature of [k], as the numbers of a transaction. *)
Definition signature_of (k : PrivateKey) (h : Hash) (r s v : Z) : Prop :=
  1 ≤ r < secp256k1N ∧ 1 ≤ s ≤ secp256k1halfN ∧ (v = 0 ∨ v = 1) ∧
  Ecrecover (Hash_Bytes h) (to_be 32 r ++ to_be 32 s ++ [v]) = inr (pubkey k).

Lemma recoverPlain_ok k h r s v homestead :
  signature_of k h r s v → recoverPlain h r s (v + 27) homestead = inr (pub_address (pubkey k)).
Proof.
  intros (Hr & Hs & Hv & He). unfold recoverPlain.
  assert (secp256k1halfN < secp256k1N) as HN by done.
  assert (big_BitLen (v + 27) ≤ 8) as Hb by (apply big_BitLen_le; lia).
  destruct (Z.ltb_spec 8 (big_BitLen (v + 27))) as [|_]; [lia|].
  assert (wrapU 8 (wrapU 64 (big_Uint64 (v + 27) - 27)) = v) as -> by (by destruct Hv as [-> | ->]).
  assert (ValidateSignatureValues v r s homestead = true) as ->.
  { unfold ValidateSignatureValues. replace ((r <? 1) || (s <? 1)) with false by lia.
    replace (homestead && _) with false by (destruct homestead; lia). lia. }
  cbn [negb]. rewrite He. destruct (pubkey_uncompressed k) as [b ->]. unfold len. cbn [length head default negb].
  destruct (Z.eqb_spec (Z.of_nat (S (length b))) 0); [lia|]. done.
Qed.

Lemma recoverPlain_protected h r s v c homestead :
  0 < c → (v = 0 ∨ v = 1) → recoverPlain h r s (v + 35 + c * 2) homestead = inl ErrInvalidSig.
Proof.
  intros Hc Hv. unfold recoverPlain. destruct (Z.ltb_spec 8 (big_BitLen (v + 35 + c * 2))) as [|Hb]; [done|].
  apply big_BitLen_le in Hb; [|done].
  assert (wrapU 8 (wrapU 64 (big_Uint64 (v + 35 + c * 2) - 27)) = v + 8 + c * 2) as ->.
  { unfold big_Uint64. rewrite (wrapU_small 64 (Z.abs _)), (wrapU_small 64 (_ - 27)), wrapU_small by lia. lia. }
  unfold ValidateSignatureValues. destruct ((r <? 1) || (s <? 1)); [done|]. destruct (homestead && _); [done|].
  destruct (Z.eqb_spec (v + 8 + c * 2) 0), (Z.eqb_spec (v + 8 + c * 2) 1); [lia..|]. by rewrite andb_false_r.
Qed.

Lemma protected_V c v : 0 < c → (v = 0 ∨ v = 1) → isProtectedV (v + 35 + c * 2) = true ∧ deriveChainId (v + 35 + c * 2) = c.
Proof.
  intros Hc Hv. split.
  - unfold isProtectedV. destruct (Z.leb_spec (big_BitLen (v + 35 + c * 2)) 8) as [Hb|]; [|done].
    apply big_BitLen_le in Hb; [|done]. unfold big_Uint64. rewrite wrapU_small by lia. lia.
  - unfold deriveChainId. destruct (Z.leb_spec (big_BitLen (v + 35 + c * 2)) 64) as [Hb|].
    + apply big_BitLen_le in Hb; [|done]. unfold big_Uint64. rewrite wrapU_small by lia.
      destruct (Z.eqb_spec (Z.abs (v + 35 + c * 2)) 27), (Z.eqb_spec (Z.abs (v + 35 + c * 2)) 28); [lia..|]. cbn [orb].
      rewrite wrapU_small by lia. symmetry. apply (Z.div_unique_pos _ _ _ v); lia.
    + symmetry. apply (Z.div_unique_pos _ _ _ v); lia.
Qed.

Lemma unprotected_V v : (v = 0 ∨ v = 1) → isProtectedV (v + 27) = false.
Proof. by intros [-> | ->]. Qed.

(** ** Transactions of each type, signed *)

Lemma legacy_recovered other tx c r s v k :
  signer_ok other → 0 < c → signature_of k (EIP155Signer_Hash c (legacy_tx tx)) r s v →
  Signer_Sender other (setSignatureValues (Some c) (v + 35 + c * 2) r s (legacy_tx tx)) =
    recovered other (Some c) (pub_address (pubkey k)).
Proof.
  intros Ho Hc Hs. pose proof Hs as (_ & _ & Hv & _). destruct (protected_V c v Hc Hv) as [Hp Hd].
  assert (∀ c', c = c' → recoverPlain (EIP155Signer_Hash c' (setSignatureValues (Some c) (v + 35 + c * 2) r s (legacy_tx tx))) r s
    (v + 35 + c * 2 - c' * 2 - 8) true = inr (pub_address (pubkey k))) as Hrec.
  { intros c' <-. replace (v + 35 + c * 2 - c * 2 - 8) with (v + 27) by lia. by apply recoverPlain_ok. }
  destruct other as [c' m|c' m|c' m| |]; cbn [Signer_Sender signer_ok recovered Signer_ChainID] in Ho |- *.
  1-3: destruct Ho as [Hc' ->]; cbn; rewrite Hp, Hd; cbn; destruct (Z.eqb_spec c c') as [<-|]; [by apply Hrec|done].
  all: by apply recoverPlain_protected.
Qed.

Lemma plain_recovered other tx r s v k :
  signature_of k (FrontierSigner_Hash (legacy_tx tx)) r s v →
  Signer_Sender other (setSignatureValues None (v + 27) r s (legacy_tx tx)) = inr (pub_address (pubkey k)).
Proof.
  intros Hs. pose proof Hs as (_ & _ & Hv & _).
  assert (∀ b, FrontierSigner_Sender b (setSignatureValues None (v + 27) r s (legacy_tx tx)) = inr (pub_address (pubkey k))) as Hf.
  { intros b. by apply recoverPlain_ok. }
  destruct other; cbn; rewrite ?(unprotected_V v Hv); apply Hf.
Qed.

Lemma typed_recovered other tx c r s v k :
  match tx with legacy_tx _ => False | _ => True end → supports other tx = true →
  signature_of k (londonSigner_Hash c tx) r s v →
  Signer_Sender other (setSignatureValues (Some c) v r s tx) = recovered other (Some c) (pub_address (pubkey k)).
Proof.
  intros Ht Hsup Hs. destruct tx as [tx|tx|tx]; [done| |].
  - destruct other as [c' m|c' m| | |]; try done; cbn; destruct (Z.eqb_spec c c') as [<-|]; [|done| |done];
      by apply recoverPlain_ok.
  - destruct other as [c' m| | | |]; try done. cbn. destruct (Z.eqb_spec c c') as [<-|]; [|done]. by apply recoverPlain_ok.
Qed.

Lemma typed_hash s tx c :
  match tx with legacy_tx _ => False | _ => True end → supports s tx = true → Signer_ChainID s = Some c →
  Signer_Hash s tx = londonSigner_Hash c tx.
Proof. intros Ht Hs Hc. by destruct tx, s; try done; injection Hc as <-. Qed.

Lemma unsupported_Sender s tx : supports s tx = false → Signer_Sender s tx = inl ErrTxTypeNotSupported.
Proof. by destruct tx, s. Qed.

Lemma supports_signed other c v r s tx : supports other (setSignatureValues c v r s tx) = supports other tx.
Proof. by destruct tx. Qed.

Lemma SignatureValues_legacy s tx r q v c :
  signer_ok s → 0 ≤ r < secp256k1N → 0 ≤ q < secp256k1N → (v = 0 ∨ v = 1) → Signer_ChainID s = c →
  SignatureValues s (legacy_tx tx) (to_be 32 r ++ to_be 32 q ++ [v]) =
    Ret (inr (r, q, match c with Some c => v + 35 + c * 2 | None => v + 27 end)).
Proof.
  intros Hs Hr Hq Hv <-. destruct (decodeSignature_ok r q v Hr Hq Hv) as [Hd Hi].
  revert Hd Hi. generalize (to_be 32 r ++ to_be 32 q ++ [v]). intros sig Hd Hi.
  destruct s as [c m|c m|c m| |]; cbn -[decodeSignature recovery_id] in Hs |- *; rewrite Hd, ?Hi; cbn; [..|done|done].
  all: destruct Hs as [Hc ->]; destruct (Z.eqb_spec c 0); [lia|]; cbn; rewrite wrapU_small by lia; done.
Qed.

Lemma SignatureValues_typed s tx r q v c :
  match tx with legacy_tx _ => False | _ => True end → supports s tx = true → Signer_ChainID s = Some c →
  0 ≤ r < secp256k1N → 0 ≤ q < secp256k1N → (v = 0 ∨ v = 1) →
  SignatureValues s tx (to_be 32 r ++ to_be 32 q ++ [v]) =
    Ret (if chain_fits s tx then inr (r, q, v) else inl ErrInvalidChainId).
Proof.
  intros Ht Hs Hc Hr Hq Hv. destruct (decodeSignature_ok r q v Hr Hq Hv) as [Hd Hi].
  revert Hd Hi. generalize (to_be 32 r ++ to_be 32 q ++ [v]). intros sig Hd Hi.
  assert (∀ id, typed_SignatureValues c id sig =
    Ret (if (id =? 0) || bool_decide (Some c = Some id) then inr (r, q, v) else inl ErrInvalidChainId)) as Hall.
  { intros id. unfold typed_SignatureValues. rewrite Hd, Hi. cbn. destruct (Z.eqb_spec id 0), (Z.eqb_spec id c) as [->|]; cbn.
    - done. - done. - by rewrite bool_decide_true. - rewrite bool_decide_false by congruence. done. }
  unfold chain_fits. rewrite Hc. by destruct tx, s; try done; injection Hc as <-; cbn -[typed_SignatureValues]; rewrite Hall.
Qed.

(** The signer of a transaction that no cache answers for, or whose cache came
    from a signer, gives what the transaction itself says. *)
Lemma Sender_fresh s tx : tx_from tx = None → snd (Sender s tx) = Signer_Sender s (tx_inner tx).
Proof. intros Hf. unfold Sender. rewrite Hf. by destruct (Signer_Sender s (tx_inner tx)). Qed.

Lemma Signer_Equal_Sender s s2 tx : signer_ok s → signer_ok s2 → Signer_Equal s s2 = true → Signer_Sender s2 tx = Signer_Sender s tx.
Proof.
  destruct s, s2; cbn [signer_ok Signer_Equal]; try done; intros [_ ->] [_ ->]; by destruct (Z.eqb_spec chainId0 chainId) as [-> |].
Qed.

Lemma Sender_cached s s2 tx :
  signer_ok s → signer_ok s2 → tx_from tx = None → snd (Sender s2 (fst (Sender s tx))) = snd (Sender s2 tx).
Proof.
  intros Hs Hs2 Hf. rewrite (Sender_fresh s2 tx) by done. unfold Sender at 2. rewrite Hf.
  destruct (Signer_Sender s (tx_inner tx)) as [err|a] eqn:E; cbn [fst]; [by apply Sender_fresh|].
  unfold Sender. cbn [tx_from tx_inner]. destruct (Signer_Equal s s2) eqn:Eq.
  - rewrite (Signer_Equal_Sender s s2) by done. by rewrite E.
  - by destruct (Signer_Sender s2 (tx_inner tx)).
Qed.

Lemma legacy_or_typed tx : (∃ lt, tx = legacy_tx lt) ∨ match tx with legacy_tx _ => False | _ => True end.
Proof. destruct tx; [left; by eexists|by right..]. Qed.

Lemma typed_chain s tx :
  match tx with legacy_tx _ => False | _ => True end → supports s tx = true → ∃ c, Signer_ChainID s = Some c.
Proof. destruct tx, s; try done; by eexists. Qed.

(** [m] is the transaction signed by [k] for the signer: its contents are
    unchanged, and every signer that supports its type finds the sender, or
    refuses it, and finds the same again from the cache. *)
Definition signed_by (signer : Signer) (tx : Transaction) (k : PrivateKey) (m : Go (TxError + Transaction)) : Prop :=
  ∃ signed, m = Ret (inr signed) ∧ contents (tx_inner signed) = contents (tx_inner tx) ∧
    ∀ other, signer_ok other →
      snd (Sender other signed) =
        (if supports other (tx_inner tx) then recovered other (Signer_ChainID signer) (pub_address (pubkey k))
         else inl ErrTxTypeNotSupported) ∧
      ∀ again, signer_ok again → snd (Sender again (fst (Sender other signed))) = snd (Sender again signed).

Lemma signed_by_set signer tx k v r s :
  (∀ other, signer_ok other → supports other (tx_inner tx) = true →
    Signer_Sender other (setSignatureValues (Signer_ChainID signer) v r s (tx_inner tx)) =
      recovered other (Signer_ChainID signer) (pub_address (pubkey k))) →
  signed_by signer tx k
    (Ret (inr (mkTransaction (setSignatureValues (Signer_ChainID signer) v r s (tx_inner tx)) (tx_time tx) None None None))).
Proof.
  intros Hall. eexists. split; [done|]. split; [by destruct (tx_inner tx)|]. intros other Ho. split.
  - rewrite Sender_fresh by done. cbn [tx_inner]. destruct (supports other (tx_inner tx)) eqn:Hso; [by apply Hall|].
    apply unsupported_Sender. by rewrite supports_signed.
  - intros again Ha. by apply Sender_cached.
Qed.

(** ** Properties *)

(** C11: a transaction of a type and a chain that the signer accepts is
    signed, its contents unchanged, and its sender is the address of the key: for
    the signer, for every signer of the same chain that supports the type, and,
    from the cache, afterwards.  A signer of another chain refuses it, unless
    it was signed for every chain; so the signature of a protected transaction
    cannot be replayed on another chain. *)
Theorem SignTx_Sender (signer : Signer) (tx : Transaction) (k : PrivateKey) (sig : bytes) :
  signer_ok signer →
  crypto_Sign (Hash_Bytes (Signer_Hash signer (tx_inner tx))) k = inr sig →
  if supports signer (tx_inner tx) && chain_fits signer (tx_inner tx) then signed_by signer tx k (SignTx tx signer k)
  else SignTx tx signer k = Ret (inl (if supports signer (tx_inner tx) then ErrInvalidChainId else ErrTxTypeNotSupported)).
Proof.
  intros Hs E. destruct (crypto_Sign_spec _ _ _ E) as (r & q & v & -> & Hr & Hq & Hv & He).
  assert (secp256k1halfN < secp256k1N) as HN by done.
  assert (signature_of k (Signer_Hash signer (tx_inner tx)) r q v) as Hsig by done.
  unfold SignTx. rewrite E. unfold WithSignature. destruct (supports signer (tx_inner tx)) eqn:Hsup.
  2: { by destruct (tx_inner tx), signer. }
  destruct (legacy_or_typed (tx_inner tx)) as [[lt Etx]|Ht].
  - assert (chain_fits signer (tx_inner tx) = true) as -> by by rewrite Etx. cbn [andb].
    pose proof (SignatureValues_legacy signer lt r q v _ Hs ltac:(lia) ltac:(lia) Hv eq_refl) as Hsv.
    rewrite <- Etx in Hsv. rewrite Hsv. cbn [mbind Go_bind].
    apply signed_by_set. intros other Ho _. rewrite Etx in *.
    destruct signer as [c m|c m|c m| |]; cbn [Signer_ChainID] in *; [destruct Hs; by apply legacy_recovered..| |];
      by apply plain_recovered.
  - destruct (typed_chain signer _ Ht Hsup) as [c Hc].
    rewrite (SignatureValues_typed signer _ r q v c) by (done || lia). cbn [mbind Go_bind andb].
    destruct (chain_fits signer (tx_inner tx)); [|done]. apply signed_by_set.
    intros other Ho Hso. rewrite Hc. apply typed_recovered; [done..|]. by rewrite <- (typed_hash signer).
Qed.
End signing.

(** ** The binary form *)

#[export] Instance c_LegacyTx_laws : CodecLaws c_LegacyTx.
Proof. apply c_iso_laws; [apply _|by intros []]. Qed.
#[export] Instance c_AccessListTx_laws : CodecLaws c_AccessListTx.
Proof. apply c_iso_laws; [apply _|by intros []]. Qed.
#[export] Instance c_DynamicFeeTx_laws : CodecLaws c_DynamicFeeTx.
Proof. apply c_iso_laws; [apply _|by intros []]. Qed.
#[export] Instance c_LegacyTx_exact : CodecExact c_LegacyTx.
Proof. apply c_iso_exact; [apply _|]. by intros (? & ? & ? & ? & ? & ? & ? & ? & ? & []). Qed.
#[export] Instance c_AccessListTx_exact : CodecExact c_AccessListTx.
Proof. apply c_iso_exact; [apply _|]. by intros (? & ? & ? & ? & ? & ? & ? & ? & ? & ? & ? & []). Qed.
#[export] Instance c_DynamicFeeTx_exact : CodecExact c_DynamicFeeTx.
Proof. apply c_iso_exact; [apply _|]. by intros (? & ? & ? & ? & ? & ? & ? & ? & ? & ? & ? & ? & []). Qed.

(** Numbers that are not negative and fit their types, bytes and addresses. *)
Definition tx_ok (tx : TxData) : Prop :=
  match tx with
  | legacy_tx tx => c_ok c_LegacyTx tx
  | access_list_tx tx => c_ok c_AccessListTx tx
  | dynamic_fee_tx tx => c_ok c_DynamicFeeTx tx
  end.

Lemma rlp_encoding_put {A} (c : Codec A) `{!CodecLaws c} x :
  c_ok c x → len (rlp (c_put c x)) < 2 ^ 64 → rlp_encoding (c_put c x) = rlp (c_put c x).
Proof. intros Hx Hl. destruct (codec_round c x Hx Hl) as [He _]. unfold rlp_encoding, encode_as in *. by rewrite He. Qed.

Lemma decode_inner_put {A} (c : Codec A) `{!CodecLaws c} f x :
  c_ok c x → len (rlp (c_put c x)) < 2 ^ 64 → decode_inner c f (rlp (c_put c x)) = inr (f x).
Proof. intros Hx Hl. destruct (codec_round c x Hx Hl) as [_ Hd]. unfold decode_inner. by rewrite Hd. Qed.

Lemma decode_inner_inv {A} (c : Codec A) `{!CodecLaws c, !CodecExact c} f b tx :
  Forall is_byte b → len b < 2 ^ 64 → decode_inner c f b = inr tx →
  ∃ x, tx = f x ∧ c_ok c x ∧ b = rlp (c_put c x) ∧ rlp_encoding (c_put c x) = b.
Proof.
  intros Hb Hl. unfold decode_inner. destruct (decode_as c b) as [x|] eqn:E; [|done]. intros [= <-].
  destruct (codec_canonical c b x Hb Hl E) as [Hx ->]. exists x. split_and!; [done..|]. by apply rlp_encoding_put.
Qed.

Lemma rlp_struct_head l : 0x7f < default 0 (head (rlp (VStruct l))).
Proof.
  cbn [rlp]. unfold rlp_list, rlp_head. destruct (Z.ltb_spec (len (concat (map rlp l))) 56) as [Hs|Hs]; cbn.
  - pose proof (len_0 (concat (map rlp l))). lia.
  - pose proof (len_0 (min_be (len (concat (map rlp l))))). lia.
Qed.

(** C12: transactions and their binary forms correspond one to one: a
    transaction is read back from its own, and what is read from bytes has these
    bytes as its form. *)
Theorem UnmarshalBinary_MarshalBinary (now : Z) :
  (∀ tx, tx_ok tx → len (rlp (inner_value tx)) < 2 ^ 64 →
     UnmarshalBinary now (MarshalBinary tx) = inr (setDecoded now tx (len (MarshalBinary tx)))) ∧
  (∀ b tx, Forall is_byte b → len b < 2 ^ 64 → UnmarshalBinary now b = inr tx →
     tx_ok (tx_inner tx) ∧ MarshalBinary (tx_inner tx) = b ∧ tx = setDecoded now (tx_inner tx) (len b)).
Proof.
  split.
  - intros tx Ht Hl. unfold UnmarshalBinary.
    destruct tx as [tx|tx|tx]; cbn [tx_ok inner_value MarshalBinary] in *; unfold encodeTyped; cbn [inner_value txType];
      rewrite (rlp_encoding_put _ _ Ht Hl).
    + assert (0x7f < default 0 (head (rlp (c_put c_LegacyTx tx)))) as Hh by apply rlp_struct_head.
      assert (0 < len (rlp (c_put c_LegacyTx tx))) as Hp.
      { destruct (rlp (c_put c_LegacyTx tx)); cbn in Hh; [lia|]. unfold len. cbn. lia. }
      rewrite (proj2 (Z.ltb_lt _ _) Hp), (proj2 (Z.ltb_lt _ _) Hh). cbn [andb]. by rewrite (decode_inner_put _ _ _ Ht Hl).
    + cbn [head default]. rewrite andb_false_r. cbn [decodeTyped]. cbn [Z.eqb]. by rewrite (decode_inner_put _ _ _ Ht Hl).
    + cbn [head default]. rewrite andb_false_r. cbn [decodeTyped]. cbn [Z.eqb]. by rewrite (decode_inner_put _ _ _ Ht Hl).
  - intros b tx Hb Hl. unfold UnmarshalBinary.
    destruct ((0 <? len b) && (0x7f <? default 0 (head b))).
    + destruct (decode_inner c_LegacyTx legacy_tx b) as [|inner] eqn:E; [done|]. intros [= <-].
      destruct (decode_inner_inv _ _ _ _ Hb Hl E) as (x & -> & Hx & Hbx & He). by split_and!.
    + destruct b as [|t b]; [done|]. cbn [decodeTyped]. apply Forall_cons in Hb as [_ Hb].
      assert (len b < 2 ^ 64) as Hl' by (unfold len in *; cbn in Hl; lia).
      destruct (Z.eqb_spec t AccessListTxType) as [->|_]; [|destruct (Z.eqb_spec t DynamicFeeTxType) as [->|_]; [|done]].
      * destruct (decode_inner c_AccessListTx access_list_tx b) as [|inner] eqn:E; [done|]. intros [= <-].
        destruct (decode_inner_inv _ _ _ _ Hb Hl' E) as (x & -> & Hx & Hbx & He). split_and!; [done| |done].
        cbn. unfold encodeTyped. cbn [inner_value txType]. by rewrite He.
      * destruct (decode_inner c_DynamicFeeTx dynamic_fee_tx b) as [|inner] eqn:E; [done|]. intros [= <-].
        destruct (decode_inner_inv _ _ _ _ Hb Hl' E) as (x & -> & Hx & Hbx & He). split_and!; [done| |done].
        cbn. unfold encodeTyped. cbn [inner_value txType]. by rewrite He.
Qed.

(** ** Examples: a curve that signs for keys below 2 ^ 128 *)

#[export] Instance demo_curve : Secp256k1 := {|
  PrivateKey := Z;
  pubkey k := 4 :: to_be 64 k;
  Ecrecover h sig :=
    if be_val (take 32 (drop 32 sig)) =? 1 + be_val h mod 2 ^ 128 then inr (4 :: to_be 64 (be_val (take 32 sig) - 1))
    else inl "recovery failed"%string;
  crypto_Sign h k :=
    if (0 <=? k) && (k <? 2 ^ 128) then inr (to_be 32 (k + 1) ++ to_be 32 (1 + be_val h mod 2 ^ 128) ++ [0])
    else inl "invalid private key"%string
|}.

#[export] Instance demo_curve_laws : Secp256k1Laws demo_curve.
Proof.
  split; [by intros k; eexists|]. intros h k sig. cbn [crypto_Sign demo_curve].
  destruct (Z.leb_spec 0 k), (Z.ltb_spec k (2 ^ 128)); try done. intros <-%(inj inr).
  pose proof (Z.mod_pos_bound (be_val h) (2 ^ 128) ltac:(lia)) as Hm.
  exists (k + 1), (1 + be_val h mod 2 ^ 128), 0. unfold secp256k1halfN, secp256k1N.
  split_and!; [done|lia|lia|lia| |by left|].
  - assert (2 ^ 128 ≤ 0xfffffffffffffffffffffffffffffffebaaedce6af48a03bbfd25e8cd0364141 / 2) by done. lia.
  - unfold Ecrecover, pubkey, demo_curve. rewrite drop_32, !take_32, !to_be_32 by (unfold secp256k1N; lia).
    rewrite Z.eqb_refl. by replace (k + 1 - 1) with k by lia.
Qed.

Definition demo_transaction : Transaction :=
  NewTx 0 (dynamic_fee_tx (mkDynamicFeeTx 0 7 2 30 21000 (Some 0xAA) 100 [1; 2] [(0xAA, [3])] 0 0 0)).

Lemma demo_signs : ∃ sig, crypto_Sign (Hash_Bytes (Signer_Hash (londonSigner 1 2) (tx_inner demo_transaction))) 0x51 = inr sig.
Proof. by eexists. Qed.

Lemma SignTx_Sender_witness :
  ∃ signed, SignTx demo_transaction (londonSigner 1 2) 0x51 = Ret (inr signed) ∧
    snd (Sender (londonSigner 1 2) signed) = inr 0x51 ∧
    snd (Sender (londonSigner 5 10) signed) = inl ErrInvalidChainId ∧
    snd (Sender HomesteadSigner signed) = inl ErrTxTypeNotSupported.
Proof.
  destruct demo_signs as [sig E].
  destruct (SignTx_Sender (C := demo_curve) (londonSigner 1 2) demo_transaction (0x51 : @PrivateKey demo_curve) sig (conj eq_refl eq_refl) E) as (signed & Es & _ & Ho).
  exists signed. split; [exact Es|]. split_and!.
  - rewrite (proj1 (Ho (londonSigner 1 2) (conj eq_refl eq_refl))). vm_compute. reflexivity.
  - rewrite (proj1 (Ho (londonSigner 5 10) (conj eq_refl eq_refl))). reflexivity.
  - rewrite (proj1 (Ho HomesteadSigner I)). reflexivity.
Defined.

(** With a chain id of zero a legacy transaction gets the signature of an
    unprotected one, but of the hash that has the chain id: its sender is not
    recovered. *)
Example zero_chain_id :
  match SignTx (NewTx 0 (legacy_tx (mkLegacyTx 7 1 21000 (Some 0xAA) 100 [] 0 0 0))) (EIP155Signer 0 0) 0x51 with
  | Ret (inr signed) => snd (Sender (EIP155Signer 0 0) signed)
  | _ => inr 0
  end = inl (ErrCurve "recovery failed").
Proof. vm_compute. reflexivity. Qed.

(** The size that is computed of a typed transaction is one byte less than the
    one kept when it is decoded. *)
Example typed_size :
  match UnmarshalBinary 0 (MarshalBinary (tx_inner demo_transaction)) with
  | inr tx => snd (Size tx) - snd (Size demo_transaction)
  | inl _ => 0
  end = 1.
Proof. vm_compute. reflexivity. Qed.

Lemma UnmarshalBinary_MarshalBinary_witness :
  UnmarshalBinary 3 (MarshalBinary (tx_inner demo_transaction)) =
    inr (setDecoded 3 (tx_inner demo_transaction) (len (MarshalBinary (tx_inner demo_transaction)))).
Proof.
  apply (proj1 (UnmarshalBinary_MarshalBinary 3)); [|vm_compute; reflexivity].
  cbn. unfold is_address, is_hash. split_and!; try done; repeat constructor; unfold is_byte; cbn; lia.
Defined.
