(* ===== verification/Substate.v ===== *)
(** * research/substate.go: what is recorded of a transaction

    The numbers that are pointers and can be nil are options: the base fee before
    London, and the target of a creation.  Two nil slices and maps equal empty
    ones in every operation here.  [Cmp] compares big integers by pointer first,
    so two nil ones are equal and a nil one with another panics. *)

From S2P Require Import Prelude DemoState Common Uint256 Machine Vm Rlp RlpDecode State Statedb StateTx StateView DemoDatabase Types.

(** ** Data *)

Definition SubstateAlloc : Type := gmap Address SubstateAccount.

Record SubstateEnv := mkEnv {
  env_Coinbase : Address;
  env_Difficulty : Z;
  env_GasLimit : Z;
  env_Number : Z;
  env_Timestamp : Z;
  env_BlockHashes : gmap Z Hash;
  env_BaseFee : option Z
}.

Record SubstateMessage := mkSubMessage {
  sm_Nonce : Z;
  sm_CheckNonce : bool;
  sm_GasPrice : Z;
  sm_Gas : Z;
  sm_From : Address;
  sm_To : option Address;
  sm_Value : Z;
  sm_Data : bytes;
  sm_dataHash : option Hash;
  sm_AccessList : AccessList;
  sm_GasFeeCap : Z;
  sm_GasTipCap : Z
}.

Record SubstateResult := mkResult {
  res_Status : Z;
  res_Bloom : bytes;
  res_Logs : list Log;
  res_ContractAddress : Address;
  res_GasUsed : Z
}.

Record Substate := mkSubstate {
  InputAlloc : SubstateAlloc;
  OutputAlloc : SubstateAlloc;
  sub_Env : SubstateEnv;
  sub_Message : SubstateMessage;
  sub_Result : SubstateResult
}.

(** ** Making them *)

Definition NewSubstateEnv (b : Header) (blockHashes : gmap Z Hash) : SubstateEnv :=
  mkEnv (hd_Coinbase b) (hd_Difficulty b) (hd_GasLimit b) (NumberU64 b) (hd_Time b) blockHashes (hd_BaseFee b).

Definition NewSubstateMessage (msg : Message) : SubstateMessage :=
  mkSubMessage (msg_nonce msg) (negb (msg_isFake msg)) (msg_gasPrice msg) (msg_gasLimit msg) (msg_from msg) (msg_to msg)
    (msg_amount msg) (msg_data msg) None (msg_accessList msg) (msg_gasFeeCap msg) (msg_gasTipCap msg).

Definition AsMessage (msg : SubstateMessage) : Message :=
  NewMessage (sm_From msg) (sm_To msg) (sm_Nonce msg) (sm_Value msg) (sm_Gas msg) (sm_GasPrice msg) (sm_GasFeeCap msg)
    (sm_GasTipCap msg) (sm_Data msg) (sm_AccessList msg) (negb (sm_CheckNonce msg)).

Definition NewSubstateResult (receipt : Receipt) : SubstateResult :=
  mkResult (rcpt_Status receipt) (rcpt_Bloom receipt) (rcpt_Logs receipt) (rcpt_ContractAddress receipt) (rcpt_GasUsed receipt).

(** A nil account has no fields to copy. *)
Definition SubstateAccount_Copy (sa : option SubstateAccount) : Go SubstateAccount :=
  match sa with
  | None => Panic NilDereference
  | Some sa => Ret (set_sub_Storage (λ _, sub_Storage sa) (NewSubstateAccount (sub_Nonce sa) (sub_Balance sa) (sub_Code sa)))
  end.

Fixpoint Alloc_Copy_loop (l : list (Address * option SubstateAccount)) (saCopy : SubstateAlloc) : Go SubstateAlloc :=
  match l with
  | [] => Ret saCopy
  | (addr, account) :: l => a ← SubstateAccount_Copy account; Alloc_Copy_loop l (<[addr := a]> saCopy)
  end.
Definition SubstateAlloc_Copy (sa : gmap Address (option SubstateAccount)) : Go SubstateAlloc :=
  Alloc_Copy_loop (map_to_list sa) ∅.

(** ** Comparing them *)

Definition big_Cmp (x y : option Z) : Go Z :=
  match x, y with
  | None, None => Ret 0
  | Some x, Some y => Ret (if x <? y then -1 else if x =? y then 0 else 1)
  | _, _ => Panic NilDereference
  end.

(** Every slot of the first is in the second with the same value. *)
Definition slots_in (x y : gmap Z Hash) : bool :=
  forallb (λ kv, bool_decide (y !! fst kv = Some (snd kv))) (map_to_list x).
(** No slot of the first has another value in the second. *)
Definition slots_match (x y : gmap Z Hash) : bool :=
  forallb (λ kv, match y !! fst kv with None => true | Some yv => snd kv =? yv end) (map_to_list x).

(** The comparison of two pointers that are nil or different. *)
Definition nil_or {A} (eq : A → A → bool) (x y : option A) : bool :=
  match x, y with
  | None, None => true
  | Some x, Some y => eq x y
  | _, _ => false
  end.

Definition Account_EqualState (x y : SubstateAccount) : bool := slots_match (sub_Storage x) (sub_Storage y).

Definition Account_Equal (x y : SubstateAccount) : bool :=
  (sub_Nonce x =? sub_Nonce y) && (sub_Balance x =? sub_Balance y) && bool_decide (sub_Code x = sub_Code y) &&
  Nat.eqb (size (sub_Storage x)) (size (sub_Storage y)) && slots_in (sub_Storage x) (sub_Storage y).

Fixpoint Alloc_EqualState_loop (l : list (Address * SubstateAccount)) (y : SubstateAlloc) : option Address :=
  match l with
  | [] => None
  | (k, xv) :: l =>
      match y !! k with
      | Some yv => if Account_EqualState xv yv then Alloc_EqualState_loop l y else Some k
      | None => Some k
      end
  end.

(** The first account that differs, in the order of the map. *)
Definition Alloc_EqualState (x y : SubstateAlloc) : option Address := Alloc_EqualState_loop (map_to_list x) y.

Definition Alloc_Equal (x y : SubstateAlloc) : bool :=
  Nat.eqb (size x) (size y) &&
  forallb (λ kv, match y !! fst kv with None => false | Some yv => Account_Equal (snd kv) yv end) (map_to_list x).

Definition Env_Equal (x y : SubstateEnv) : Go bool :=
  if (env_Coinbase x =? env_Coinbase y) && (env_Difficulty x =? env_Difficulty y) && (env_GasLimit x =? env_GasLimit y) &&
     (env_Number x =? env_Number y) && (env_Timestamp x =? env_Timestamp y) &&
     Nat.eqb (size (env_BlockHashes x)) (size (env_BlockHashes y))
  then
    c ← big_Cmp (env_BaseFee x) (env_BaseFee y);
    Ret ((c =? 0) && slots_in (env_BlockHashes x) (env_BlockHashes y))
  else Ret false.

(** Lists of the same length, element by element. *)
Fixpoint all2 {A} (eq : A → A → bool) (x y : list A) : bool :=
  match x, y with
  | xa :: x, ya :: y => eq xa ya && all2 eq x y
  | _, _ => true
  end.
Definition Tuple_Equal (xa ya : Address * list Hash) : bool :=
  (fst xa =? fst ya) && Nat.eqb (length (snd xa)) (length (snd ya)) && all2 Z.eqb (snd xa) (snd ya).

Definition SubMessage_Equal (x y : SubstateMessage) : bool :=
  (sm_Nonce x =? sm_Nonce y) && Bool.eqb (sm_CheckNonce x) (sm_CheckNonce y) && (sm_GasPrice x =? sm_GasPrice y) &&
  (sm_Gas x =? sm_Gas y) && (sm_From x =? sm_From y) && nil_or Z.eqb (sm_To x) (sm_To y) && (sm_Value x =? sm_Value y) &&
  bool_decide (sm_Data x = sm_Data y) && Nat.eqb (length (sm_AccessList x)) (length (sm_AccessList y)) &&
  (sm_GasFeeCap x =? sm_GasFeeCap y) && (sm_GasTipCap x =? sm_GasTipCap y) &&
  all2 Tuple_Equal (sm_AccessList x) (sm_AccessList y).

Definition Log_Equal (data : bool) (xl yl : Log) : bool :=
  (log_Address xl =? log_Address yl) && Nat.eqb (length (log_Topics xl)) (length (log_Topics yl)) &&
  (negb data || bool_decide (log_Data xl = log_Data yl)) && all2 Z.eqb (log_Topics xl) (log_Topics yl).

Definition Result_fields (x y : SubstateResult) : bool :=
  (res_Status x =? res_Status y) && bool_decide (res_Bloom x = res_Bloom y) &&
  Nat.eqb (length (res_Logs x)) (length (res_Logs y)) && (res_ContractAddress x =? res_ContractAddress y) &&
  (res_GasUsed x =? res_GasUsed y).
(** The data of the logs is not compared. *)
Definition Result_EqualState (x y : SubstateResult) : bool :=
  Result_fields x y && all2 (Log_Equal false) (res_Logs x) (res_Logs y).
Definition Result_Equal (x y : SubstateResult) : bool :=
  Result_fields x y && all2 (Log_Equal true) (res_Logs x) (res_Logs y).

(** The operands of [&&] are evaluated from the left, as far as one is false. *)
Definition Substate_Equal (x y : Substate) : Go bool :=
  if Alloc_Equal (InputAlloc x) (InputAlloc y) && Alloc_Equal (OutputAlloc x) (OutputAlloc y) then
    e ← Env_Equal (sub_Env x) (sub_Env y);
    Ret (e && SubMessage_Equal (sub_Message x) (sub_Message y) && Result_Equal (sub_Result x) (sub_Result y))
  else Ret false.

Section hashes.
Context `{Externals}.

Definition Account_CodeHash (sa : SubstateAccount) : Hash := Keccak256Hash (sub_Code sa).

(** The hash of the data is kept once it was computed. *)
Definition DataHash (msg : SubstateMessage) : SubstateMessage * Hash :=
  match sm_dataHash msg with
  | Some h => (msg, h)
  | None =>
      let h := Keccak256Hash (sm_Data msg) in
      (mkSubMessage (sm_Nonce msg) (sm_CheckNonce msg) (sm_GasPrice msg) (sm_Gas msg) (sm_From msg) (sm_To msg)
         (sm_Value msg) (sm_Data msg) (Some h) (sm_AccessList msg) (sm_GasFeeCap msg) (sm_GasTipCap msg), h)
  end.
End hashes.

(** * core/state/statedb.go: copying a state

    The copy has the objects that the journal or the marks name; the others are
    read again from the trie.  The journal, its snapshots, the error and the
    position of the transaction are not copied. *)

Section copy.
Context `{Externals, !Database}.

Definition Copies : Type := gmap Address stateObject * gset Address * gset Address.

(** The objects that the journal names, marked twice. *)
Fixpoint copy_journal (objs : gmap Address stateObject) (l : list Address) (c : Copies) : Copies :=
  match l with
  | [] => c
  | addr :: l =>
      copy_journal objs l
        (match objs !! addr with
         | Some o => let '(os, pending, dirty) := c in (<[addr := deepCopy o]> os, {[addr]} ∪ pending, {[addr]} ∪ dirty)
         | None => c
         end)
  end.

(** The objects of a set of marks; one that is missing is a nil dereference. *)
Fixpoint copy_marked (objs : gmap Address stateObject) (l : list Address) (os : gmap Address stateObject) : Go (gmap Address stateObject) :=
  match l with
  | [] => Ret os
  | addr :: l =>
      os ← (match os !! addr, objs !! addr with
            | Some _, _ => Ret os
            | None, Some o => Ret (<[addr := deepCopy o]> os)
            | None, None => Panic NilDereference
            end);
      copy_marked objs l os
  end.

Definition StateDB_Copy (s : statedb) : Go statedb :=
  let '(os, pending, dirty) := copy_journal (stateObjects s) (fst <$> map_to_list (dirties (jrnl s))) (∅, ∅, ∅) in
  os ← copy_marked (stateObjects s) (elements (stateObjectsPending s)) os;
  os ← copy_marked (stateObjects s) (elements (stateObjectsDirty s)) os;
  pre ← SubstateAlloc_Copy (ResearchPreAlloc s);
  Ret (mkState (trie s) os (stateObjectsPending s ∪ pending) (stateObjectsDirty s ∪ dirty) None (refund s) 0 0 (logs s)
         (logSize s) (preimages s) (access s) newJournal [] 0 (Some <$> pre) (ResearchPostAlloc s) (ResearchBlockHashes s)).
End copy.

(** A copy that is made after an absent account was read: its recording is nil. *)
Example copy_after_absent_read :
  match Exist 11 (New demo_trie) with
  | Ret (_, s) => match StateDB_Copy s with Panic p => Some p | Ret _ => None end
  | Panic _ => None
  end = Some NilDereference.
Proof. vm_compute. reflexivity. Qed.
