(* ===== verification/SubstateRlp.v ===== *)
(** * research/substate_rlp.go: what is stored of a substate

    Code is stored on its own and a record has its hash: [GetCode] finds it
    again.  The maps of slots and of accounts are stored sorted by their keys;
    the map of block hashes in the order in which it is iterated, which is an
    argument here.  Older databases have records without the base fee (before
    London) and without an access list (before Berlin). *)

From S2P Require Import Prelude Common Uint256 Machine VmFacts Vm State Rlp RlpFacts RlpDecode RlpStreamFacts RlpDecodeFacts RlpRoundTrip Codec Types Substate.

(** ** Records *)

Record SubstateAccountRLP := mkAccountRLP {
  ar_Nonce : Z;
  ar_Balance : Z;
  ar_CodeHash : Hash;
  ar_Storage : list (Hash * Hash)
}.

Record SubstateAllocRLP := mkAllocRLP { ar_Addresses : list Address; ar_Accounts : list SubstateAccountRLP }.

Record legacySubstateEnvRLP := mkLegacyEnvRLP {
  le_Coinbase : Address;
  le_Difficulty : Z;
  le_GasLimit : Z;
  le_Number : Z;
  le_Timestamp : Z;
  le_BlockHashes : list (Hash * Hash)
}.

Record SubstateEnvRLP := mkEnvRLP {
  er_Coinbase : Address;
  er_Difficulty : Z;
  er_GasLimit : Z;
  er_Number : Z;
  er_Timestamp : Z;
  er_BlockHashes : list (Hash * Hash);
  er_BaseFee : option Hash
}.

Record legacySubstateMessageRLP := mkLegacyMessageRLP {
  lm_Nonce : Z;
  lm_CheckNonce : bool;
  lm_GasPrice : Z;
  lm_Gas : Z;
  lm_From : Address;
  lm_To : option Address;
  lm_Value : Z;
  lm_Data : bytes;
  lm_InitCodeHash : option Hash
}.

Record berlinSubstateMessageRLP := mkBerlinMessageRLP {
  bm_Nonce : Z;
  bm_CheckNonce : bool;
  bm_GasPrice : Z;
  bm_Gas : Z;
  bm_From : Address;
  bm_To : option Address;
  bm_Value : Z;
  bm_Data : bytes;
  bm_InitCodeHash : option Hash;
  bm_AccessList : AccessList
}.

Record SubstateMessageRLP := mkMessageRLP {
  mr_Nonce : Z;
  mr_CheckNonce : bool;
  mr_GasPrice : Z;
  mr_Gas : Z;
  mr_From : Address;
  mr_To : option Address;
  mr_Value : Z;
  mr_Data : bytes;
  mr_InitCodeHash : option Hash;
  mr_AccessList : AccessList;
  mr_GasFeeCap : Z;
  mr_GasTipCap : Z
}.

Record SubstateResultRLP := mkResultRLP {
  rr_Status : Z;
  rr_Bloom : bytes;
  rr_Logs : list Log;
  rr_ContractAddress : Address;
  rr_GasUsed : Z
}.

Record SubstateRLP := mkSubstateRLP {
  sr_InputAlloc : SubstateAllocRLP;
  sr_OutputAlloc : SubstateAllocRLP;
  sr_Env : SubstateEnvRLP;
  sr_Message : SubstateMessageRLP;
  sr_Result : SubstateResultRLP
}.

Record legacySubstateRLP := mkLegacySubstateRLP {
  ls_InputAlloc : SubstateAllocRLP;
  ls_OutputAlloc : SubstateAllocRLP;
  ls_Env : legacySubstateEnvRLP;
  ls_Message : legacySubstateMessageRLP;
  ls_Result : SubstateResultRLP
}.

Record berlinSubstateRLP := mkBerlinSubstateRLP {
  bs_InputAlloc : SubstateAllocRLP;
  bs_OutputAlloc : SubstateAllocRLP;
  bs_Env : legacySubstateEnvRLP;
  bs_Message : berlinSubstateMessageRLP;
  bs_Result : SubstateResultRLP
}.

(** ** What the encoder sees of them *)

Definition c_AccountRLP : Codec SubstateAccountRLP :=
  c_iso (λ r, (ar_Nonce r, (ar_Balance r, (ar_CodeHash r, (ar_Storage r, tt)))))
    (λ '(n, (b, (c, (s, _)))), mkAccountRLP n b c s)
    (c_struct (f_cons c_uint (f_cons c_big (f_cons c_hash (f_cons (c_slice (c_pair c_hash)) f_nil))))).

Definition c_AllocRLP : Codec SubstateAllocRLP :=
  c_iso (λ r, (ar_Addresses r, (ar_Accounts r, tt))) (λ '(a, (s, _)), mkAllocRLP a s)
    (c_struct (f_cons (c_slice c_address) (f_cons (c_slice (c_ptr KList c_AccountRLP)) f_nil))).

Definition c_legacyEnvRLP : Codec legacySubstateEnvRLP :=
  c_iso (λ r, (le_Coinbase r, (le_Difficulty r, (le_GasLimit r, (le_Number r, (le_Timestamp r, (le_BlockHashes r, tt)))))))
    (λ '(c, (d, (g, (n, (t, (h, _)))))), mkLegacyEnvRLP c d g n t h)
    (c_struct (f_cons c_address (f_cons c_big (f_cons c_uint (f_cons c_uint (f_cons c_uint
      (f_cons (c_slice (c_pair c_hash)) f_nil))))))).

Definition c_EnvRLP : Codec SubstateEnvRLP :=
  c_iso (λ r, (er_Coinbase r, (er_Difficulty r, (er_GasLimit r, (er_Number r, (er_Timestamp r, (er_BlockHashes r, (er_BaseFee r, tt))))))))
    (λ '(c, (d, (g, (n, (t, (h, (f, _))))))), mkEnvRLP c d g n t h f)
    (c_struct (f_cons c_address (f_cons c_big (f_cons c_uint (f_cons c_uint (f_cons c_uint
      (f_cons (c_slice (c_pair c_hash)) (f_cons (c_nilptr KString c_hash) f_nil)))))))).

Definition c_legacyMessageRLP : Codec legacySubstateMessageRLP :=
  c_iso (λ r, (lm_Nonce r, (lm_CheckNonce r, (lm_GasPrice r, (lm_Gas r, (lm_From r, (lm_To r, (lm_Value r, (lm_Data r,
           (lm_InitCodeHash r, tt))))))))))
    (λ '(n, (c, (p, (g, (f, (t, (v, (d, (i, _))))))))), mkLegacyMessageRLP n c p g f t v d i)
    (c_struct (f_cons c_uint (f_cons c_bool (f_cons c_big (f_cons c_uint (f_cons c_address (f_cons (c_nilptr KString c_address)
      (f_cons c_big (f_cons c_bytes (f_cons (c_nilptr KString c_hash) f_nil)))))))))).

Definition c_berlinMessageRLP : Codec berlinSubstateMessageRLP :=
  c_iso (λ r, (bm_Nonce r, (bm_CheckNonce r, (bm_GasPrice r, (bm_Gas r, (bm_From r, (bm_To r, (bm_Value r, (bm_Data r,
           (bm_InitCodeHash r, (bm_AccessList r, tt)))))))))))
    (λ '(n, (c, (p, (g, (f, (t, (v, (d, (i, (a, _)))))))))), mkBerlinMessageRLP n c p g f t v d i a)
    (c_struct (f_cons c_uint (f_cons c_bool (f_cons c_big (f_cons c_uint (f_cons c_address (f_cons (c_nilptr KString c_address)
      (f_cons c_big (f_cons c_bytes (f_cons (c_nilptr KString c_hash) (f_cons (c_slice c_AccessTuple) f_nil))))))))))).

Definition c_MessageRLP : Codec SubstateMessageRLP :=
  c_iso (λ r, (mr_Nonce r, (mr_CheckNonce r, (mr_GasPrice r, (mr_Gas r, (mr_From r, (mr_To r, (mr_Value r, (mr_Data r,
           (mr_InitCodeHash r, (mr_AccessList r, (mr_GasFeeCap r, (mr_GasTipCap r, tt)))))))))))))
    (λ '(n, (c, (p, (g, (f, (t, (v, (d, (i, (a, (fc, (tc, _)))))))))))), mkMessageRLP n c p g f t v d i a fc tc)
    (c_struct (f_cons c_uint (f_cons c_bool (f_cons c_big (f_cons c_uint (f_cons c_address (f_cons (c_nilptr KString c_address)
      (f_cons c_big (f_cons c_bytes (f_cons (c_nilptr KString c_hash) (f_cons (c_slice c_AccessTuple)
        (f_cons c_big (f_cons c_big f_nil))))))))))))).

(** The codec of a log writes and reads what consensus is about. *)
Definition rlpLog (a : Address) (topics : list Hash) (data : bytes) : Log :=
  {| log_Address := a; log_Topics := topics; log_Data := data; log_BlockNumber := 0; log_TxHash := 0; log_TxIndex := 0;
     log_BlockHash := 0; log_Index := 0 |}.
Definition c_Log : Codec Log :=
  mkCodec (c_type (c_struct (f_cons c_address (f_cons (c_slice c_hash) (f_cons c_bytes f_nil)))))
    (λ l, c_put (c_struct (f_cons c_address (f_cons (c_slice c_hash) (f_cons c_bytes f_nil))))
            (log_Address l, (log_Topics l, (log_Data l, tt))))
    (λ v, '(a, (t, (d, _))) ← c_get (c_struct (f_cons c_address (f_cons (c_slice c_hash) (f_cons c_bytes f_nil)))) v;
          Some (rlpLog a t d))
    (λ l, is_address (log_Address l) ∧ Forall is_hash (log_Topics l) ∧ Forall is_byte (log_Data l) ∧
          l = rlpLog (log_Address l) (log_Topics l) (log_Data l)).

Definition c_ResultRLP : Codec SubstateResultRLP :=
  c_iso (λ r, (rr_Status r, (rr_Bloom r, (rr_Logs r, (rr_ContractAddress r, (rr_GasUsed r, tt))))))
    (λ '(s, (b, (l, (c, (g, _))))), mkResultRLP s b l c g)
    (c_struct (f_cons c_uint (f_cons (c_array BloomByteLength) (f_cons (c_slice (c_ptr KList c_Log))
      (f_cons c_address (f_cons c_uint f_nil)))))).

Definition c_SubstateRLP : Codec SubstateRLP :=
  c_iso (λ r, (sr_InputAlloc r, (sr_OutputAlloc r, (sr_Env r, (sr_Message r, (sr_Result r, tt))))))
    (λ '(i, (o, (e, (m, (r, _))))), mkSubstateRLP i o e m r)
    (c_struct (f_cons c_AllocRLP (f_cons c_AllocRLP (f_cons (c_ptr KList c_EnvRLP) (f_cons (c_ptr KList c_MessageRLP)
      (f_cons (c_ptr KList c_ResultRLP) f_nil)))))).

Definition c_legacySubstateRLP : Codec legacySubstateRLP :=
  c_iso (λ r, (ls_InputAlloc r, (ls_OutputAlloc r, (ls_Env r, (ls_Message r, (ls_Result r, tt))))))
    (λ '(i, (o, (e, (m, (r, _))))), mkLegacySubstateRLP i o e m r)
    (c_struct (f_cons c_AllocRLP (f_cons c_AllocRLP (f_cons (c_ptr KList c_legacyEnvRLP) (f_cons (c_ptr KList c_legacyMessageRLP)
      (f_cons (c_ptr KList c_ResultRLP) f_nil)))))).

Definition c_berlinSubstateRLP : Codec berlinSubstateRLP :=
  c_iso (λ r, (bs_InputAlloc r, (bs_OutputAlloc r, (bs_Env r, (bs_Message r, (bs_Result r, tt))))))
    (λ '(i, (o, (e, (m, (r, _))))), mkBerlinSubstateRLP i o e m r)
    (c_struct (f_cons c_AllocRLP (f_cons c_AllocRLP (f_cons (c_ptr KList c_legacyEnvRLP) (f_cons (c_ptr KList c_berlinMessageRLP)
      (f_cons (c_ptr KList c_ResultRLP) f_nil)))))).

(** ** From a substate *)

Section rlp.
Context `{Externals}.

(** [BigToHash]: the last 32 bytes of the magnitude. *)
Definition BigToHash (b : Z) : Hash := wrapU 256 (Z.abs b).

Definition sorted_keys {A} (m : gmap Z A) : list Z := merge_sort Z.le (fst <$> map_to_list m).

Definition NewSubstateAccountRLP (sa : SubstateAccount) : SubstateAccountRLP :=
  mkAccountRLP (sub_Nonce sa) (sub_Balance sa) (Account_CodeHash sa)
    ((λ key, (key, default 0 (sub_Storage sa !! key))) <$> sorted_keys (sub_Storage sa)).

Definition no_account : SubstateAccount := NewSubstateAccount 0 0 [].

Definition NewSubstateAllocRLP (alloc : SubstateAlloc) : SubstateAllocRLP :=
  let Addresses := sorted_keys alloc in
  mkAllocRLP Addresses ((λ addr, NewSubstateAccountRLP (default no_account (alloc !! addr))) <$> Addresses).

(** [order] is the order in which the map is iterated. *)
Definition NewSubstateEnvRLP (order : list Z) (env : SubstateEnv) : SubstateEnvRLP :=
  mkEnvRLP (env_Coinbase env) (env_Difficulty env) (env_GasLimit env) (env_Number env) (env_Timestamp env)
    ((λ num64, (BigToHash num64, default 0 (env_BlockHashes env !! num64))) <$> order)
    (BigToHash <$> env_BaseFee env).

(** The input of a creation is stored as code. *)
Definition NewSubstateMessageRLP (msg : SubstateMessage) : SubstateMessageRLP :=
  let '(Data, InitCodeHash) :=
    match sm_To msg with None => ([], Some (snd (DataHash msg))) | Some _ => (sm_Data msg, None) end in
  mkMessageRLP (sm_Nonce msg) (sm_CheckNonce msg) (sm_GasPrice msg) (sm_Gas msg) (sm_From msg) (sm_To msg)
    (sm_Value msg) Data InitCodeHash (sm_AccessList msg) (sm_GasFeeCap msg) (sm_GasTipCap msg).

Definition NewSubstateResultRLP (result : SubstateResult) : SubstateResultRLP :=
  mkResultRLP (res_Status result) (res_Bloom result) (res_Logs result) (res_ContractAddress result) (res_GasUsed result).

Definition NewSubstateRLP (order : list Z) (substate : Substate) : SubstateRLP :=
  mkSubstateRLP (NewSubstateAllocRLP (InputAlloc substate)) (NewSubstateAllocRLP (OutputAlloc substate))
    (NewSubstateEnvRLP order (sub_Env substate)) (NewSubstateMessageRLP (sub_Message substate))
    (NewSubstateResultRLP (sub_Result substate)).

(** ** Records of older databases *)

Definition env_setLegacyRLP (l : legacySubstateEnvRLP) : SubstateEnvRLP :=
  mkEnvRLP (le_Coinbase l) (le_Difficulty l) (le_GasLimit l) (le_Number l) (le_Timestamp l) (le_BlockHashes l) None.

Definition msg_setLegacyRLP (l : legacySubstateMessageRLP) : SubstateMessageRLP :=
  mkMessageRLP (lm_Nonce l) (lm_CheckNonce l) (lm_GasPrice l) (lm_Gas l) (lm_From l) (lm_To l) (lm_Value l) (lm_Data l)
    (lm_InitCodeHash l) [] (lm_GasPrice l) (lm_GasPrice l).

(** The access list is dropped, as the code has it. *)
Definition msg_setBerlinRLP (b : berlinSubstateMessageRLP) : SubstateMessageRLP :=
  mkMessageRLP (bm_Nonce b) (bm_CheckNonce b) (bm_GasPrice b) (bm_Gas b) (bm_From b) (bm_To b) (bm_Value b) (bm_Data b)
    (bm_InitCodeHash b) [] (bm_GasPrice b) (bm_GasPrice b).

Definition setLegacyRLP (l : legacySubstateRLP) : SubstateRLP :=
  mkSubstateRLP (ls_InputAlloc l) (ls_OutputAlloc l) (env_setLegacyRLP (ls_Env l)) (msg_setLegacyRLP (ls_Message l)) (ls_Result l).
Definition setBerlinRLP (b : berlinSubstateRLP) : SubstateRLP :=
  mkSubstateRLP (bs_InputAlloc b) (bs_OutputAlloc b) (env_setLegacyRLP (bs_Env b)) (msg_setBerlinRLP (bs_Message b)) (bs_Result b).

(** ** To a substate *)

Context (GetCode : Hash → Go bytes).

Definition pairs_map (l : list (Z * Hash)) : gmap Z Hash := foldl (λ m p, <[fst p := snd p]> m) ∅ l.

Definition account_SetRLP (saRLP : SubstateAccountRLP) : Go SubstateAccount :=
  code ← GetCode (ar_CodeHash saRLP);
  Ret {| sub_Nonce := ar_Nonce saRLP; sub_Balance := ar_Balance saRLP; sub_Storage := pairs_map (ar_Storage saRLP); sub_Code := code |}.

(** An address without an account is an index out of range. *)
Fixpoint alloc_SetRLP_loop (addresses : list Address) (accounts : list SubstateAccountRLP) (alloc : SubstateAlloc) : Go SubstateAlloc :=
  match addresses, accounts with
  | [], _ => Ret alloc
  | _ :: _, [] => Panic IndexOutOfRange
  | addr :: addresses, saRLP :: accounts =>
      sa ← account_SetRLP saRLP; alloc_SetRLP_loop addresses accounts (<[addr := sa]> alloc)
  end.
Definition alloc_SetRLP (allocRLP : SubstateAllocRLP) : Go SubstateAlloc :=
  alloc_SetRLP_loop (ar_Addresses allocRLP) (ar_Accounts allocRLP) ∅.

Definition env_SetRLP (envRLP : SubstateEnvRLP) : SubstateEnv :=
  mkEnv (er_Coinbase envRLP) (er_Difficulty envRLP) (er_GasLimit envRLP) (er_Number envRLP) (er_Timestamp envRLP)
    (pairs_map ((λ p, (wrapU 64 (fst p), snd p)) <$> er_BlockHashes envRLP)) (er_BaseFee envRLP).

Definition msg_SetRLP (msgRLP : SubstateMessageRLP) : Go SubstateMessage :=
  Data ← match mr_To msgRLP, mr_InitCodeHash msgRLP with
         | Some _, _ => Ret (mr_Data msgRLP)
         | None, None => Panic NilDereference
         | None, Some h => GetCode h
         end;
  Ret (mkSubMessage (mr_Nonce msgRLP) (mr_CheckNonce msgRLP) (mr_GasPrice msgRLP) (mr_Gas msgRLP) (mr_From msgRLP)
         (mr_To msgRLP) (mr_Value msgRLP) Data None (mr_AccessList msgRLP) (mr_GasFeeCap msgRLP) (mr_GasTipCap msgRLP)).

Definition result_SetRLP (r : SubstateResultRLP) : SubstateResult :=
  mkResult (rr_Status r) (rr_Bloom r) (rr_Logs r) (rr_ContractAddress r) (rr_GasUsed r).

Definition SetRLP (substateRLP : SubstateRLP) : Go Substate :=
  input ← alloc_SetRLP (sr_InputAlloc substateRLP);
  output ← alloc_SetRLP (sr_OutputAlloc substateRLP);
  msg ← msg_SetRLP (sr_Message substateRLP);
  Ret (mkSubstate input output (env_SetRLP (sr_Env substateRLP)) msg (result_SetRLP (sr_Result substateRLP))).
End rlp.

(** * research/substate_db.go: the database of substates

    A database of keys and values holds the substates, by block and transaction,
    and the codes, by their hashes.  The database behind is a class: LevelDB, or
    a map in memory.  An error of it that the code turns into a panic is one. *)

(** ethdb: what is used of a key-value store.  [Iterate] gives the pairs whose
    keys have a prefix, and the error of the iterator. *)
Class Backend := {
  Store : Type;
  Has : Store → bytes → string + bool;
  Get : Store → bytes → string + bytes;
  Put : Store → bytes → bytes → option string * Store;
  Delete : Store → bytes → option string * Store;
  Iterate : Store → bytes → list (bytes * bytes) * option string
}.

(** ** Keys *)

Definition stage1SubstatePrefix : bytes := [0x31; 0x73].
Definition stage1CodePrefix : bytes := [0x31; 0x63].

Definition Stage1SubstateKey (block tx : Z) : bytes :=
  stage1SubstatePrefix ++ to_be 8 block ++ to_be 8 (wrapU 64 tx).

Definition DecodeStage1SubstateKey (key : bytes) : string + Z * Z :=
  if negb (len key =? 2 + 8 + 8) then inl "invalid length of stage1 substate key"%string
  else if negb (bool_decide (take 2 key = stage1SubstatePrefix)) then inl "invalid prefix of stage1 substate key"%string
  else
    let blockTx := drop 2 key in
    inr (be_val (take 8 blockTx), wrapS 64 (be_val (take 8 (drop 8 blockTx)))).

Definition Stage1SubstateBlockPrefix (block : Z) : bytes := stage1SubstatePrefix ++ to_be 8 block.

Definition Stage1CodeKey (codeHash : Hash) : bytes := stage1CodePrefix ++ Hash_Bytes codeHash.

Definition DecodeStage1CodeKey (key : bytes) : string + Hash :=
  if negb (len key =? 2 + 32) then inl "invalid length of stage1 code key"%string
  else if negb (bool_decide (take 2 key = stage1CodePrefix)) then inl "invalid prefix of stage1 code key"%string
  else inr (BytesToHash (drop 2 key)).

Section db.
Context `{Externals, !Backend}.

Definition EmptyCodeHash : Hash := Keccak256Hash [].

(** ** Code *)

Definition HasCode (db : Store) (codeHash : Hash) : Go bool :=
  if codeHash =? EmptyCodeHash then Ret false
  else match Has db (Stage1CodeKey codeHash) with inl _ => Panic ExplicitPanic | inr has => Ret has end.

Definition GetCode (db : Store) (codeHash : Hash) : Go bytes :=
  if codeHash =? EmptyCodeHash then Ret []
  else match Get db (Stage1CodeKey codeHash) with inl _ => Panic ExplicitPanic | inr code => Ret code end.

Definition PutCode (db : Store) (code : bytes) : Go Store :=
  if len code =? 0 then Ret db
  else
    let '(err, db) := Put db (Stage1CodeKey (Keccak256Hash code)) code in
    match err with Some _ => Panic ExplicitPanic | None => Ret db end.

Fixpoint PutCodes (db : Store) (codes : list bytes) : Go Store :=
  match codes with [] => Ret db | code :: codes => db ← PutCode db code; PutCodes db codes end.

(** ** Substates *)

Definition HasSubstate (db : Store) (block tx : Z) : bool :=
  match Has db (Stage1SubstateKey block tx) with inl _ => false | inr has => has end.

(** The records of the latest forks, of Berlin, and the oldest ones, in that order. *)
Definition decode_substate (value : bytes) : Go SubstateRLP :=
  match decode_as c_SubstateRLP value with
  | Some r => Ret r
  | None =>
      match decode_as c_berlinSubstateRLP value with
      | Some b => Ret (setBerlinRLP b)
      | None =>
          match decode_as c_legacySubstateRLP value with
          | Some l => Ret (setLegacyRLP l)
          | None => Panic ExplicitPanic
          end
      end
  end.

Definition GetSubstate (db : Store) (block tx : Z) : Go Substate :=
  match Get db (Stage1SubstateKey block tx) with
  | inl _ => Panic ExplicitPanic
  | inr value => substateRLP ← decode_substate value; SetRLP (GetCode db) substateRLP
  end.

Fixpoint block_substates (db : Store) (block : Z) (l : list (bytes * bytes)) (txSubstate : gmap Z Substate) : Go (gmap Z Substate) :=
  match l with
  | [] => Ret txSubstate
  | (key, value) :: l =>
      match DecodeStage1SubstateKey key with
      | inl _ => Panic ExplicitPanic
      | inr (b, tx) =>
          if negb (block =? b) then Panic ExplicitPanic
          else
            substateRLP ← decode_substate value;
            substate ← SetRLP (GetCode db) substateRLP;
            block_substates db block l (<[tx := substate]> txSubstate)
      end
  end.

Definition GetBlockSubstates (db : Store) (block : Z) : Go (gmap Z Substate) :=
  let '(l, err) := Iterate db (Stage1SubstateBlockPrefix block) in
  txSubstate ← block_substates db block l ∅;
  match err with Some _ => Panic ExplicitPanic | None => Ret txSubstate end.

(** The codes of a substate, in the order in which they are put. *)
Definition substate_codes (substate : Substate) : list bytes :=
  ((λ p, sub_Code (snd p)) <$> map_to_list (InputAlloc substate)) ++
  ((λ p, sub_Code (snd p)) <$> map_to_list (OutputAlloc substate)) ++
  (match sm_To (sub_Message substate) with None => [sm_Data (sub_Message substate)] | Some _ => [] end).

(** [order] is the order in which the block hashes are iterated. *)
Definition PutSubstate (order : list Z) (db : Store) (block tx : Z) (substate : Substate) : Go Store :=
  db ← PutCodes db (substate_codes substate);
  value ← encode_as c_SubstateRLP (NewSubstateRLP order substate);
  match value with
  | inl _ => Panic ExplicitPanic
  | inr value =>
      let '(err, db) := Put db (Stage1SubstateKey block tx) value in
      match err with Some _ => Panic ExplicitPanic | None => Ret db end
  end.

Definition DeleteSubstate (db : Store) (block tx : Z) : Go Store :=
  let '(err, db) := Delete db (Stage1SubstateKey block tx) in
  match err with Some _ => Panic ExplicitPanic | None => Ret db end.
End db.
