(* ===== verification/SubstateFacts.v ===== *)
(** * The database of substates keeps what it is given

    Codes are found again under their hashes, maps under their sorted keys. *)

From S2P Require Import Prelude Common Uint256 Machine VmFacts Vm State Rlp RlpFacts RlpDecode RlpStreamFacts RlpDecodeFacts RlpRoundTrip Codec Types Substate SubstateRlp.

(** What is relied on: hashes have 32 bytes, and what was put is found. *)
Class StoreLaws `{Externals, !Backend} : Prop := {
  keccak_ok b : length (Keccak256 b) = HashLength ∧ Forall is_byte (Keccak256 b);
  put_ok db k v : ∃ db', Put db k v = (None, db') ∧ ∀ k', Get db' k' = if decide (k' = k) then inr v else Get db k'
}.

(** ** Codecs of the records *)

#[export] Instance c_AccountRLP_laws : CodecLaws c_AccountRLP.
Proof. apply c_iso_laws; [apply _|by intros []]. Qed.
#[export] Instance KList_ok : CodecLaws (c_ptr KList c_AccountRLP).
Proof. by apply c_ptr_laws; [|apply _]. Qed.
#[export] Instance c_AllocRLP_laws : CodecLaws c_AllocRLP.
Proof. apply c_iso_laws; [apply _|by intros []]. Qed.
#[export] Instance c_EnvRLP_laws : CodecLaws c_EnvRLP.
Proof. apply c_iso_laws; [apply _|by intros []]. Qed.
#[export] Instance c_MessageRLP_laws : CodecLaws c_MessageRLP.
Proof. apply c_iso_laws; [apply _|by intros []]. Qed.

#[export] Instance c_Log_laws : CodecLaws c_Log.
Proof.
  pose proof (_ : CodecLaws (c_struct (f_cons c_address (f_cons (c_slice c_hash) (f_cons c_bytes f_nil))))) as [Hv Ht Hty Hg].
  split; [exact Hv|exact Ht|..]; intros l (Ha & Hto & Hd & Hl).
  - by apply (Hty (log_Address l, (log_Topics l, (log_Data l, tt)))).
  - cbn [c_Log c_get c_put]. rewrite (Hg (log_Address l, (log_Topics l, (log_Data l, tt)))) by done. cbn. by rewrite <- Hl.
Qed.
#[export] Instance Log_ptr_laws : CodecLaws (c_ptr KList c_Log).
Proof. by apply c_ptr_laws; [|apply _]. Qed.
#[export] Instance c_ResultRLP_laws : CodecLaws c_ResultRLP.
Proof. apply c_iso_laws; [apply _|by intros []]. Qed.
#[export] Instance Env_ptr_laws : CodecLaws (c_ptr KList c_EnvRLP).
Proof. by apply c_ptr_laws; [|apply _]. Qed.
#[export] Instance Message_ptr_laws : CodecLaws (c_ptr KList c_MessageRLP).
Proof. by apply c_ptr_laws; [|apply _]. Qed.
#[export] Instance Result_ptr_laws : CodecLaws (c_ptr KList c_ResultRLP).
Proof. by apply c_ptr_laws; [|apply _]. Qed.
#[export] Instance c_SubstateRLP_laws : CodecLaws c_SubstateRLP.
Proof. apply c_iso_laws; [apply _|by intros []]. Qed.

(** ** Maps as lists of pairs *)

Lemma sorted_keys_elem {A} (m : gmap Z A) k : k ∈ sorted_keys m ↔ is_Some (m !! k).
Proof.
  unfold sorted_keys. rewrite merge_sort_Permutation. rewrite list_elem_of_fmap. split.
  - intros ([k' v] & -> & Hin). apply elem_of_map_to_list in Hin. by eexists.
  - intros [v Hv]. exists (k, v). split; [done|]. by apply elem_of_map_to_list.
Qed.

Lemma fold_pairs {A} (f : Z → A) keys (m0 : gmap Z A) k :
  foldl (λ m p, <[fst p := snd p]> m) m0 ((λ k, (k, f k)) <$> keys) !! k
  = if decide (k ∈ keys) then Some (f k) else m0 !! k.
Proof.
  revert m0. induction keys as [|x keys IH]; intros m0; [by rewrite decide_False by by intros ?%elem_of_nil|].
  cbn. rewrite IH. destruct (decide (k ∈ keys)) as [Hin|Hin].
  - by rewrite decide_True by by right.
  - destruct (decide (k = x)) as [->|Hne].
    + rewrite lookup_insert, !decide_True; [done|by left|done].
    + rewrite lookup_insert_ne by congruence. rewrite decide_False; [done|]. by intros [|]%elem_of_cons.
Qed.

Lemma pairs_map_all (m : gmap Z Hash) keys :
  (∀ k, k ∈ keys ↔ is_Some (m !! k)) → pairs_map ((λ k, (k, default 0 (m !! k))) <$> keys) = m.
Proof.
  intros Hk. apply map_eq. intros k. unfold pairs_map. rewrite (fold_pairs (λ k, default 0 (m !! k))). case_decide as Hin.
  - apply Hk in Hin as [v Hv]. by rewrite Hv.
  - rewrite lookup_empty. destruct (m !! k) as [v|] eqn:Hv; [|done]. destruct Hin. apply Hk. by eexists.
Qed.

(** ** Substates that can be stored *)

Record env_ok (e : SubstateEnv) : Prop := {
  eo_Coinbase : is_address (env_Coinbase e);
  eo_Difficulty : 0 ≤ env_Difficulty e;
  eo_GasLimit : 0 ≤ env_GasLimit e < 2 ^ 64;
  eo_Number : 0 ≤ env_Number e < 2 ^ 64;
  eo_Timestamp : 0 ≤ env_Timestamp e < 2 ^ 64;
  eo_BlockHashes : map_Forall (λ k h, 0 ≤ k < 2 ^ 64 ∧ is_hash h) (env_BlockHashes e);
  eo_BaseFee : match env_BaseFee e with Some f => is_hash f | None => True end
}.

Record message_ok (m : SubstateMessage) : Prop := {
  mo_Nonce : 0 ≤ sm_Nonce m < 2 ^ 64;
  mo_GasPrice : 0 ≤ sm_GasPrice m;
  mo_Gas : 0 ≤ sm_Gas m < 2 ^ 64;
  mo_From : is_address (sm_From m);
  mo_To : match sm_To m with Some a => is_address a | None => True end;
  mo_Value : 0 ≤ sm_Value m;
  mo_Data : Forall is_byte (sm_Data m);
  mo_AccessList : Forall (λ t, is_address (fst t) ∧ Forall is_hash (snd t)) (sm_AccessList m);
  mo_GasFeeCap : 0 ≤ sm_GasFeeCap m;
  mo_GasTipCap : 0 ≤ sm_GasTipCap m
}.

Definition log_ok (l : Log) : Prop :=
  is_address (log_Address l) ∧ Forall is_hash (log_Topics l) ∧ Forall is_byte (log_Data l).

Record result_ok (r : SubstateResult) : Prop := {
  ro_Status : 0 ≤ res_Status r < 2 ^ 64;
  ro_Bloom : length (res_Bloom r) = BloomByteLength ∧ Forall is_byte (res_Bloom r);
  ro_Logs : Forall log_ok (res_Logs r);
  ro_ContractAddress : is_address (res_ContractAddress r);
  ro_GasUsed : 0 ≤ res_GasUsed r < 2 ^ 64
}.

Definition stored_account_ok (a : Address) (sa : SubstateAccount) : Prop :=
  is_address a ∧ 0 ≤ sub_Nonce sa < 2 ^ 64 ∧ 0 ≤ sub_Balance sa ∧
  map_Forall (λ k v, is_hash k ∧ is_hash v) (sub_Storage sa).

(** The memoized hash of the data, when there is one, is its hash. *)
Definition memo_ok `{Externals} (m : SubstateMessage) : Prop :=
  match sm_dataHash m with Some h => h = Keccak256Hash (sm_Data m) | None => True end.

Record substate_ok `{Externals} (s : Substate) : Prop := {
  so_input : map_Forall stored_account_ok (InputAlloc s);
  so_output : map_Forall stored_account_ok (OutputAlloc s);
  so_env : env_ok (sub_Env s);
  so_message : message_ok (sub_Message s);
  so_memo : memo_ok (sub_Message s);
  so_result : result_ok (sub_Result s)
}.

(** What the database keeps: of a log, the address, the topics and the data. *)
Definition plain_log (l : Log) : Log := rlpLog (log_Address l) (log_Topics l) (log_Data l).
Definition plain_result (r : SubstateResult) : SubstateResult :=
  mkResult (res_Status r) (res_Bloom r) (plain_log <$> res_Logs r) (res_ContractAddress r) (res_GasUsed r).
Definition plain_message (m : SubstateMessage) : SubstateMessage :=
  mkSubMessage (sm_Nonce m) (sm_CheckNonce m) (sm_GasPrice m) (sm_Gas m) (sm_From m) (sm_To m) (sm_Value m) (sm_Data m) None
    (sm_AccessList m) (sm_GasFeeCap m) (sm_GasTipCap m).
Definition plain (s : Substate) : Substate :=
  mkSubstate (InputAlloc s) (OutputAlloc s) (sub_Env s) (plain_message (sub_Message s)) (plain_result (sub_Result s)).

Section facts.
Context `{HS : StoreLaws}.

Lemma Keccak256Hash_ok b : is_hash (Keccak256Hash b).
Proof.
  destruct (keccak_ok b) as [Hl Hb]. unfold Keccak256Hash, BytesToHash, crop_left. rewrite decide_False by (rewrite Hl; lia).
  pose proof (be_val_bound (Keccak256 b) Hb) as Hv. rewrite Hl in Hv. exact Hv.
Qed.

Lemma BigToHash_id b : is_hash b → BigToHash b = b.
Proof. intros Hb. unfold BigToHash, is_hash in *. rewrite Z.abs_eq by lia. by apply wrapU_small. Qed.

(** *** The encoding *)

Lemma put_plain order s :
  memo_ok (sub_Message s) →
  c_put c_SubstateRLP (NewSubstateRLP order s) = c_put c_SubstateRLP (NewSubstateRLP order (plain s)).
Proof.
  intros Hm. destruct s as [i o e m [st bl lo ca gu]]. unfold memo_ok in Hm. cbn in Hm.
  assert (NewSubstateMessageRLP (plain_message m) = NewSubstateMessageRLP m) as Hmsg.
  { destruct m as [n cn gp g fr [to|] v da [dh|] al fc tc]; unfold NewSubstateMessageRLP, DataHash; cbn in *; congruence. }
  unfold NewSubstateRLP. cbn [plain sub_Env sub_Message sub_Result InputAlloc OutputAlloc]. rewrite Hmsg.
  assert (c_put c_ResultRLP (NewSubstateResultRLP (plain_result (mkResult st bl lo ca gu)))
    = c_put c_ResultRLP (NewSubstateResultRLP (mkResult st bl lo ca gu))) as Hr.
  { cbn. rewrite <- list_fmap_compose. done. }
  cbn [c_put c_SubstateRLP c_iso c_struct f_put f_cons c_ptr fst snd sr_InputAlloc sr_OutputAlloc sr_Env sr_Message sr_Result].
  by rewrite Hr.
Qed.

Lemma account_fits a sa : stored_account_ok a sa → c_ok c_AccountRLP (NewSubstateAccountRLP sa).
Proof.
  intros (Ha & Hn & Hb & Hs). cbn. split_and!; try done; try lia; [apply Keccak256Hash_ok|].
  apply Forall_fmap, Forall_forall. intros k Hk. apply sorted_keys_elem in Hk as [v Hv]. cbn. rewrite Hv. by apply Hs.
Qed.

Lemma alloc_fits alloc : map_Forall stored_account_ok alloc → c_ok c_AllocRLP (NewSubstateAllocRLP alloc).
Proof.
  intros Hall. cbn. split_and!; [..|done].
  - apply Forall_forall. intros a Ha. apply sorted_keys_elem in Ha as [sa Hsa]. by apply (Hall a sa).
  - apply Forall_fmap, Forall_forall. intros a Ha. apply sorted_keys_elem in Ha as [sa Hsa].
    change (alloc !! a = Some sa) in Hsa. change (c_ok c_AccountRLP (NewSubstateAccountRLP (default no_account (alloc !! a)))).
    rewrite Hsa. by apply (account_fits a), Hall.
Qed.

Lemma env_fits order e :
  env_ok e → (∀ k, k ∈ order ↔ is_Some (env_BlockHashes e !! k)) → c_ok c_EnvRLP (NewSubstateEnvRLP order e).
Proof.
  intros [] Ho. cbn. split_and!; try done; try lia.
  - apply Forall_fmap, Forall_forall. intros k Hk. apply Ho in Hk as [h Hh]. cbn. rewrite Hh.
    destruct (eo_BlockHashes0 k h Hh) as [Hk Hh']. split; [|done]. unfold BigToHash. apply wrapU_range. lia.
  - destruct (env_BaseFee e); [|done]. cbn. by rewrite BigToHash_id.
Qed.

Lemma message_fits m : message_ok m → c_ok c_MessageRLP (NewSubstateMessageRLP (plain_message m)).
Proof.
  intros [? ? ? ? Hto ? ? Hal ? ?]. destruct m as [n cn gp g fr to v da dh al fc tc]. cbn in *.
  assert (Forall (c_ok c_AccessTuple) al) as Hal'.
  { eapply Forall_impl; [exact Hal|]. intros [a k] [Ha Hk]. by split_and!. }
  destruct to as [to|]; cbn -[c_AccessTuple]; pose proof (Keccak256Hash_ok da); unfold is_hash in *; split_and!; try done; lia.
Qed.

Lemma result_fits r : result_ok r → c_ok c_ResultRLP (NewSubstateResultRLP (plain_result r)).
Proof.
  intros [? [? ?] Hl ? ?]. cbn. split_and!; try done; try lia. apply Forall_fmap.
  eapply Forall_impl; [exact Hl|]. intros l (Ha & Ht & Hd). by split_and!.
Qed.

Definition hashes_in (order : list Z) (s : Substate) : Prop :=
  ∀ k, k ∈ order ↔ is_Some (env_BlockHashes (sub_Env s) !! k).

Lemma substate_fits order s :
  substate_ok s → hashes_in order s → c_ok c_SubstateRLP (NewSubstateRLP order (plain s)).
Proof.
  intros [Hi Hou He Hm _ Hr] Ho. cbn [c_SubstateRLP c_iso c_ok c_struct f_ok f_cons f_nil c_ptr fst snd NewSubstateRLP
    sr_InputAlloc sr_OutputAlloc sr_Env sr_Message sr_Result plain InputAlloc OutputAlloc sub_Env sub_Message sub_Result].
  split_and!; [by apply alloc_fits|by apply alloc_fits|by apply env_fits|by apply message_fits|by apply result_fits|done].
Qed.

(** *** The decoding *)

Lemma account_back get sa :
  get (Keccak256Hash (sub_Code sa)) = Ret (sub_Code sa) → account_SetRLP get (NewSubstateAccountRLP sa) = Ret sa.
Proof.
  intros Hc. unfold account_SetRLP, NewSubstateAccountRLP, Account_CodeHash. cbn. rewrite Hc. cbn.
  rewrite pairs_map_all by apply sorted_keys_elem. by destruct sa.
Qed.

Lemma alloc_loop get (alloc : SubstateAlloc) keys m :
  (∀ a sa, alloc !! a = Some sa → get (Keccak256Hash (sub_Code sa)) = Ret (sub_Code sa)) →
  (∀ a, a ∈ keys → is_Some (alloc !! a)) →
  alloc_SetRLP_loop get keys ((λ a, NewSubstateAccountRLP (default no_account (alloc !! a))) <$> keys) m
  = Ret (foldl (λ m p, <[fst p := snd p]> m) m ((λ a, (a, default no_account (alloc !! a))) <$> keys)).
Proof.
  intros Hg. revert m. induction keys as [|a keys IH]; intros m Hk; [done|]. cbn.
  destruct (Hk a) as [sa Hsa]; [by left|]. rewrite Hsa. cbn. rewrite (account_back get sa) by by apply (Hg a). cbn.
  apply IH. intros x Hx. apply Hk. by right.
Qed.

Lemma alloc_back get (alloc : SubstateAlloc) :
  (∀ a sa, alloc !! a = Some sa → get (Keccak256Hash (sub_Code sa)) = Ret (sub_Code sa)) →
  alloc_SetRLP get (NewSubstateAllocRLP alloc) = Ret alloc.
Proof.
  intros Hg. unfold alloc_SetRLP, NewSubstateAllocRLP. cbn [ar_Addresses ar_Accounts].
  rewrite alloc_loop; [|done|intros a; apply sorted_keys_elem]. f_equal. apply map_eq. intros a.
  rewrite (fold_pairs (λ a, default no_account (alloc !! a))). case_decide as Hin.
  - apply sorted_keys_elem in Hin as [sa Hsa]. change (alloc !! a = Some sa) in Hsa. by rewrite Hsa.
  - change ((∅ : gmap Address SubstateAccount) !! a = alloc !! a). rewrite lookup_empty. destruct (alloc !! a) as [sa|] eqn:Hsa; [|done]. destruct Hin. apply sorted_keys_elem. exists sa. exact Hsa.
Qed.

Lemma env_back order e :
  env_ok e → (∀ k, k ∈ order ↔ is_Some (env_BlockHashes e !! k)) → env_SetRLP (NewSubstateEnvRLP order e) = e.
Proof.
  intros [_ _ _ _ _ Hh Hf] Ho. unfold env_SetRLP, NewSubstateEnvRLP. cbn. rewrite <- list_fmap_compose.
  rewrite (list_fmap_ext _ (λ k, (k, default 0 (env_BlockHashes e !! k)))).
  - rewrite pairs_map_all by done. destruct e as [c d g n t b [f|]]; cbn in *; [by rewrite BigToHash_id|done].
  - intros i k Hk. cbn. f_equal. apply list_elem_of_lookup_2 in Hk. apply Ho in Hk as [h Hk]. destruct (Hh k h Hk) as [Hr _].
    rewrite BigToHash_id by (unfold is_hash; lia). by apply wrapU_small.
Qed.

Lemma message_back get m :
  (sm_To m = None → get (Keccak256Hash (sm_Data m)) = Ret (sm_Data m)) →
  msg_SetRLP get (NewSubstateMessageRLP (plain_message m)) = Ret (plain_message m).
Proof.
  intros Hg. unfold msg_SetRLP, NewSubstateMessageRLP. destruct m as [n cn gp g fr [to|] v da dh al fc tc]; [done|].
  cbn in *. rewrite Hg by done. done.
Qed.

Lemma substate_back get order s :
  substate_ok s → hashes_in order s →
  (∀ c, c ∈ substate_codes s → get (Keccak256Hash c) = Ret c) →
  SetRLP get (NewSubstateRLP order (plain s)) = Ret (plain s).
Proof.
  intros [_ _ He _ _ _] Ho Hg. unfold SetRLP, NewSubstateRLP. cbn [sr_InputAlloc sr_OutputAlloc sr_Env sr_Message sr_Result plain
    InputAlloc OutputAlloc sub_Env sub_Message sub_Result].
  assert (∀ (f : Substate → SubstateAlloc) a sa, f s !! a = Some sa → f s = InputAlloc s ∨ f s = OutputAlloc s →
    sub_Code sa ∈ substate_codes s) as Hin.
  { intros f a sa Hsa Hf. unfold substate_codes. rewrite !elem_of_app. apply elem_of_map_to_list in Hsa.
    destruct Hf as [Hf|Hf]; rewrite Hf in Hsa; [left|right; left]; apply list_elem_of_fmap; by exists (a, sa). }
  rewrite !alloc_back; [|intros a sa Hsa; apply Hg..].
  - cbn. rewrite message_back; [cbn; by rewrite env_back|]. intros Hto. apply Hg. unfold substate_codes.
    rewrite Hto, !elem_of_app. right. right. by left.
  - apply (Hin InputAlloc a sa Hsa). by left.
  - apply (Hin OutputAlloc a sa Hsa). by right.
Qed.

(** *** The store *)

Lemma Hash_Bytes_eq h h' : is_hash h → is_hash h' → Hash_Bytes h = Hash_Bytes h' → h = h'.
Proof. intros Hh Hh' He. by rewrite <- (BytesToHash_Bytes h Hh), He, BytesToHash_Bytes. Qed.

Lemma code_key_inj c c' :
  Stage1CodeKey (Keccak256Hash c) = Stage1CodeKey (Keccak256Hash c') → Keccak256Hash c = Keccak256Hash c'.
Proof. intros He. apply app_inv_head in He. by apply Hash_Bytes_eq in He; [|apply Keccak256Hash_ok..]. Qed.

Lemma PutCodes_spec codes db :
  ∃ db', PutCodes db codes = Ret db' ∧
    ∀ k, (Get db' k = Get db k ∧ ∀ c, c ∈ codes → c ≠ [] → Stage1CodeKey (Keccak256Hash c) ≠ k) ∨
         ∃ c, c ∈ codes ∧ Stage1CodeKey (Keccak256Hash c) = k ∧ Get db' k = inr c.
Proof.
  revert db. induction codes as [|c codes IH]; intros db.
  { exists db. split; [done|]. intros k. left. split; [done|]. intros c Hc. by apply elem_of_nil in Hc. }
  cbn [PutCodes]. unfold PutCode. destruct (Z.eqb_spec (len c) 0) as [Hc|Hc].
  - destruct (IH db) as (db' & He & Hk). exists db'. split; [done|]. assert (c = []) as -> by by destruct c.
    intros k. destruct (Hk k) as [[Hg Hn]|(c' & Hc' & Hr)]; [left|right; exists c'; by split; [right|]].
    split; [done|]. intros c' [->|Hc']%elem_of_cons; [done|by apply Hn].
  - destruct (put_ok db (Stage1CodeKey (Keccak256Hash c)) c) as (db1 & Hp & Hg1). rewrite Hp. cbn.
    destruct (IH db1) as (db' & He & Hk). exists db'. split; [done|]. intros k.
    destruct (Hk k) as [[Hg Hn]|(c' & Hc' & Hr)]; [|right; exists c'; by split; [right|]].
    rewrite Hg1 in Hg. case_decide as Hkc; [right; exists c; split_and!; [by left|done|done]|left].
    split; [done|]. intros c' [->|Hc']%elem_of_cons; [intros _ Hx; by apply Hkc|by apply Hn].
Qed.

(** No two of the codes have the same hash. *)
Definition no_collision (s : Substate) : Prop :=
  ∀ c c', c ∈ [] :: substate_codes s → c' ∈ [] :: substate_codes s → Keccak256Hash c = Keccak256Hash c' → c = c'.

Lemma GetCode_put s db db' c :
  no_collision s → PutCodes db (substate_codes s) = Ret db' → c ∈ substate_codes s → GetCode db' (Keccak256Hash c) = Ret c.
Proof.
  intros Hn Hp Hc. destruct (PutCodes_spec (substate_codes s) db) as (db1 & Hp1 & Hk). rewrite Hp in Hp1. injection Hp1 as <-.
  unfold GetCode, EmptyCodeHash. destruct (Z.eqb_spec (Keccak256Hash c) (Keccak256Hash [])) as [He|He].
  { rewrite (Hn c []); [done|by right|by left|done]. }
  destruct (Hk (Stage1CodeKey (Keccak256Hash c))) as [[_ Hno]|(c' & Hc' & Hkc & ->)].
  - destruct (Hno c Hc); [|done]. by intros ->.
  - apply code_key_inj in Hkc. f_equal. apply Hn; [by right|by right|done].
Qed.

Lemma code_key_ne c block tx : Stage1CodeKey (Keccak256Hash c) ≠ Stage1SubstateKey block tx.
Proof. done. Qed.
End facts.
