(* ===== verification/SubstateSpec.v ===== *)
(** * Properties of the database of substates *)

From S2P Require Import Prelude DemoState Common Uint256 Machine VmFacts Vm State Rlp RlpFacts RlpDecode RlpStreamFacts RlpDecodeFacts RlpRoundTrip Codec Types Substate SubstateRlp SubstateFacts.

(** ** Comparing a substate with itself *)

Lemma all2_refl {A} (eq : A → A → bool) l : (∀ x, eq x x = true) → all2 eq l l = true.
Proof. intros He. induction l as [|x l IH]; [done|]. cbn. by rewrite He, IH. Qed.

Lemma slots_in_refl (m : gmap Z Hash) : slots_in m m = true.
Proof.
  unfold slots_in. apply forallb_forall. intros [k v] Hin. apply bool_decide_true.
  by apply elem_of_map_to_list, list_elem_of_In.
Qed.

Lemma Account_Equal_refl sa : Account_Equal sa sa = true.
Proof. unfold Account_Equal. by rewrite !Z.eqb_refl, bool_decide_true, Nat.eqb_refl, slots_in_refl. Qed.

Lemma Alloc_Equal_refl x : Alloc_Equal x x = true.
Proof.
  unfold Alloc_Equal. rewrite Nat.eqb_refl. cbn. apply forallb_forall. intros [a sa] Hin. cbn.
  apply list_elem_of_In, elem_of_map_to_list in Hin. change (x !! a = Some sa) in Hin. rewrite Hin. apply Account_Equal_refl.
Qed.

Lemma Env_Equal_refl e : Env_Equal e e = Ret true.
Proof.
  unfold Env_Equal. rewrite !Z.eqb_refl, Nat.eqb_refl. cbn. unfold big_Cmp.
  destruct (env_BaseFee e) as [f|]; cbn; [rewrite Z.ltb_irrefl, Z.eqb_refl; cbn|]; by rewrite slots_in_refl.
Qed.

Lemma Message_Equal_plain m : SubMessage_Equal m (plain_message m) = true.
Proof.
  unfold SubMessage_Equal. destruct m as [n cn gp g fr to v da dh al fc tc]. cbn.
  rewrite !Z.eqb_refl, Bool.eqb_reflx, bool_decide_true, Nat.eqb_refl by done.
  assert (nil_or Z.eqb to to = true) as -> by (destruct to; [apply Z.eqb_refl|done]). cbn.
  apply all2_refl. intros [a k]. unfold Tuple_Equal. cbn. rewrite Z.eqb_refl, Nat.eqb_refl. cbn. apply all2_refl, Z.eqb_refl.
Qed.

Lemma Log_Equal_plain l : Log_Equal true l (plain_log l) = true.
Proof.
  unfold Log_Equal. cbn. rewrite Z.eqb_refl, Nat.eqb_refl, bool_decide_true by done. cbn. apply all2_refl, Z.eqb_refl.
Qed.

Lemma Result_Equal_plain r : Result_Equal r (plain_result r) = true.
Proof.
  unfold Result_Equal, Result_fields. cbn. rewrite !Z.eqb_refl, bool_decide_true, length_fmap, Nat.eqb_refl by done. cbn.
  induction (res_Logs r) as [|l logs IH]; [done|]. cbn [all2 fmap list_fmap]. rewrite Log_Equal_plain. exact IH.
Qed.

Lemma Substate_Equal_plain s : Substate_Equal s (plain s) = Ret true.
Proof.
  unfold Substate_Equal. cbn. rewrite !Alloc_Equal_refl. cbn. rewrite Env_Equal_refl. cbn.
  by rewrite Message_Equal_plain, Result_Equal_plain.
Qed.

(** ** Keys *)

Lemma substate_key_decode block tx :
  0 ≤ block < 2 ^ 64 → - 2 ^ 63 ≤ tx < 2 ^ 63 → DecodeStage1SubstateKey (Stage1SubstateKey block tx) = inr (block, tx).
Proof.
  intros Hb Ht. unfold DecodeStage1SubstateKey.
  assert (len (Stage1SubstateKey block tx) = 18) as ->
    by (unfold len, Stage1SubstateKey; rewrite !length_app, !to_be_length; done).
  change (take 2 (Stage1SubstateKey block tx)) with stage1SubstatePrefix.
  change (drop 2 (Stage1SubstateKey block tx)) with (to_be 8 block ++ to_be 8 (wrapU 64 tx)).
  rewrite bool_decide_true by done. cbn [negb Z.eqb Z.add Pos.add Pos.succ Pos.eqb].
  rewrite take_app_length', drop_app_length' by by rewrite to_be_length. rewrite take_ge by (rewrite to_be_length; lia).
  rewrite !be_val_to_be. change (256 ^ Z.of_nat 8) with (2 ^ 64). rewrite Z.mod_small by lia. f_equal. f_equal.
  unfold wrapS, wrapU. rewrite !Z.mod_mod by lia. change (2 ^ (64 - 1)) with (2 ^ 63).
  destruct (Z.ltb_spec (tx mod 2 ^ 64) (2 ^ 63)) as [Hlt|Hge].
  - destruct (decide (0 ≤ tx)) as [|Hn]; [by apply Z.mod_small; lia|].
    rewrite <- (Z_mod_plus_full tx 1), Z.mod_small in Hlt by lia. lia.
  - destruct (decide (0 ≤ tx)) as [|Hn]; [rewrite Z.mod_small in Hge by lia; lia|].
    rewrite <- (Z_mod_plus_full tx 1), Z.mod_small by lia. lia.
Qed.

Section spec.
Context `{HS : StoreLaws}.

(** A substate is in a database: its record, and its codes under their hashes. *)
Definition holds (db : Store) (block tx : Z) (order : list Z) (s : Substate) : Prop :=
  (∃ value, Get db (Stage1SubstateKey block tx) = inr value ∧ decode_substate value = Ret (NewSubstateRLP order (plain s))) ∧
  ∀ c, c ∈ substate_codes s → GetCode db (Keccak256Hash c) = Ret c.

Lemma holds_get db block tx order s : substate_ok s → hashes_in order s → holds db block tx order s → GetSubstate db block tx = Ret (plain s).
Proof.
  intros Hs Ho [(value & Hg & Hd) Hc]. unfold GetSubstate. rewrite Hg, Hd. cbn [mbind Go_bind]. by apply substate_back.
Qed.

(** What can be put. *)
Definition storable (order : list Z) (s : Substate) : Prop :=
  substate_ok s ∧ no_collision s ∧ hashes_in order s ∧ len (rlp (c_put c_SubstateRLP (NewSubstateRLP order s))) < 2 ^ 64.

Lemma PutSubstate_spec (order : list Z) (db : Store) (block tx : Z) (s : Substate) : storable order s →
  ∃ db', PutSubstate order db block tx s = Ret db' ∧ holds db' block tx order s ∧
    ∀ k, k ≠ Stage1SubstateKey block tx → Get db' k = Get db k ∨
      ∃ c, c ∈ substate_codes s ∧ k = Stage1CodeKey (Keccak256Hash c) ∧ Get db' k = inr c.
Proof.
  intros (Hs & Hn & Ho & Hlen). destruct (PutCodes_spec (substate_codes s) db) as (db1 & Hp & Hk).
  unfold encode_as in *. rewrite (put_plain order s) in Hlen by apply Hs.
  destruct (codec_round c_SubstateRLP (NewSubstateRLP order (plain s)) (substate_fits order s Hs Ho) Hlen) as [Hen Hde].
  set (value := rlp (c_put c_SubstateRLP (NewSubstateRLP order (plain s)))) in *.
  destruct (put_ok db1 (Stage1SubstateKey block tx) value) as (db' & Hput & Hg). exists db'. split_and!.
  - unfold PutSubstate. rewrite Hp. cbn [mbind Go_bind]. unfold encode_as in *. rewrite (put_plain order s) by apply Hs.
    rewrite Hen. cbn [mbind Go_bind]. by rewrite Hput.
  - split.
    + exists value. rewrite Hg, decide_True by done. split; [done|]. unfold decode_substate. by rewrite Hde.
    + intros c Hc. rewrite <- (GetCode_put s db db1 c Hn Hp Hc). unfold GetCode.
      destruct (_ =? _); [done|]. by rewrite Hg, decide_False by apply code_key_ne.
  - intros k Hne. rewrite Hg, decide_False by done.
    destruct (Hk k) as [[? _]|(c & Hin & He & Hv)]; [by left|right]. by exists c.
Qed.

(** C34: a substate that was put is got back.  PutSubstate does not fail, for
    any order in which the block hashes are iterated, and GetSubstate gives the
    substate, but for the fields of its logs that consensus does not know and
    the memoized hash of its input; [Equal] does not tell the two apart.  No
    other key of the database changes but those of its codes. *)
Theorem PutSubstate_GetSubstate (order : list Z) (db : Store) (block tx : Z) (s : Substate) :
  substate_ok s → no_collision s → hashes_in order s →
  len (rlp (c_put c_SubstateRLP (NewSubstateRLP order s))) < 2 ^ 64 →
  ∃ db', PutSubstate order db block tx s = Ret db' ∧ GetSubstate db' block tx = Ret (plain s) ∧
    Substate_Equal s (plain s) = Ret true ∧
    ∀ k, k ≠ Stage1SubstateKey block tx → (∀ c, c ∈ substate_codes s → k ≠ Stage1CodeKey (Keccak256Hash c)) →
      Get db' k = Get db k.
Proof.
  intros Hs Hn Ho Hlen. destruct (PutSubstate_spec order db block tx s) as (db' & Hp & Hh & Hk); [by split_and!|].
  exists db'. split_and!; [done|by eapply holds_get|apply Substate_Equal_plain|].
  intros k Hne Hc. destruct (Hk k Hne) as [?|(c & Hin & He & _)]; [done|]. by destruct (Hc c Hin).
Qed.
End spec.

(** ** Examples *)

(** A database in memory. *)
#[export] Instance demo_backend : Backend := {|
  Store := gmap bytes bytes;
  Has db k := inr (bool_decide (is_Some (db !! k)));
  Get db k := match db !! k with Some v => inr v | None => inl "not found"%string end;
  Put db k v := (None, <[k := v]> db);
  Delete db k := (None, delete k db);
  Iterate db p := (filter (λ kv, take (length p) (fst kv) = p) (map_to_list db), None)
|}.

#[export] Instance demo_store : StoreLaws.
Proof.
  split.
  - intros b. split; [apply to_be_length|apply to_be_bytes].
  - intros db k v. eexists. split; [done|]. intros k'. cbn. case_decide as Hk.
    + subst. by rewrite lookup_insert, decide_True.
    + by rewrite lookup_insert_ne by congruence.
Qed.

(** A creation that pays an account with code and storage, and logs. *)
Definition demo_substate : Substate :=
  mkSubstate
    {[7 := {| sub_Nonce := 3; sub_Balance := 2 ^ 70; sub_Storage := ∅; sub_Code := [] |};
      9 := {| sub_Nonce := 1; sub_Balance := 5; sub_Storage := {[2 := 11; 1 := 2 ^ 200]}; sub_Code := [0x60; 0x01] |}]}
    {[9 := {| sub_Nonce := 1; sub_Balance := 6; sub_Storage := {[2 := 12]}; sub_Code := [0x60; 0x01] |}]}
    (mkEnv 33 1000 30000000 12965000 1628166822 {[12964999 := 77]} (Some 1000000000))
    (mkSubMessage 3 true 20 21000 7 None 1 [0x60; 0x00; 0xf3] None [(9, [2])] 20 2)
    (mkResult 1 (replicate 256 0)
       [{| log_Address := 9; log_Topics := [5]; log_Data := [1; 2]; log_BlockNumber := 12965000; log_TxHash := 4;
           log_TxIndex := 0; log_BlockHash := 6; log_Index := 2 |}] 0 21000).

Definition pair_free (l : list bytes) : bool :=
  forallb (λ c, forallb (λ c', negb (Keccak256Hash c =? Keccak256Hash c') || bool_decide (c = c')) l) l.

Lemma pair_free_ok s : pair_free ([] :: substate_codes s) = true → no_collision s.
Proof.
  unfold pair_free. rewrite forallb_forall. intros Hp c c' Hc Hc' He. apply list_elem_of_In in Hc, Hc'.
  specialize (Hp c Hc). rewrite forallb_forall in Hp. specialize (Hp c' Hc'). rewrite He, Z.eqb_refl in Hp.
  by apply bool_decide_eq_true in Hp.
Qed.

Definition byteb (x : Z) : bool := (0 <=? x) && (x <? 256).
Lemma byteb_ok l : forallb byteb l = true → Forall is_byte l.
Proof.
  rewrite forallb_forall. intros Hl. apply Forall_forall. intros x Hx. apply list_elem_of_In in Hx. specialize (Hl x Hx).
  unfold byteb in Hl. unfold is_byte. lia.
Qed.

Lemma accounts_storable (m : SubstateAlloc) :
  forallb (λ p, (0 <=? fst p) && (fst p <? 2 ^ 160) && (0 <=? sub_Nonce (snd p)) && (sub_Nonce (snd p) <? 2 ^ 64) &&
    (0 <=? sub_Balance (snd p)) && forallb (λ kv, (0 <=? fst kv) && (fst kv <? 2 ^ 256) && (0 <=? snd kv) && (snd kv <? 2 ^ 256))
      (map_to_list (sub_Storage (snd p)))) (map_to_list m) = true → map_Forall stored_account_ok m.
Proof.
  rewrite forallb_forall. intros Hm a sa Ha. apply elem_of_map_to_list, list_elem_of_In in Ha. specialize (Hm _ Ha). cbn in Hm.
  apply andb_true_iff in Hm as [Hm Hs]. unfold stored_account_ok, is_address. split_and!; try lia.
  intros k v Hk. apply elem_of_map_to_list, list_elem_of_In in Hk. rewrite forallb_forall in Hs. specialize (Hs _ Hk). cbn in Hs.
  unfold is_hash. lia.
Qed.

Lemma demo_substate_ok : substate_ok demo_substate.
Proof.
  split.
  - apply accounts_storable. vm_compute. reflexivity.
  - apply accounts_storable. vm_compute. reflexivity.
  - split; try done. cbn. apply map_Forall_singleton. done.
  - split; try done; [apply byteb_ok; reflexivity|]. constructor; [|done]. split; [done|]. by repeat constructor.
  - done.
  - split; try done.
    + split; [done|]. apply byteb_ok. vm_compute. reflexivity.
    + constructor; [|done]. split; [done|]. split; [by repeat constructor|]. apply byteb_ok. reflexivity.
Qed.

Lemma demo_order : hashes_in [12964999] demo_substate.
Proof.
  intros k. cbn [demo_substate sub_Env env_BlockHashes]. rewrite lookup_singleton. rewrite list_elem_of_singleton.
  destruct (decide (12964999 = k)) as [Hk|Hk]; split.
  - intros _. by exists 77.
  - done.
  - intros ->. by destruct Hk.
  - by intros [? ?].
Qed.

Lemma PutSubstate_GetSubstate_witness :
  ∃ db', PutSubstate [12964999] ∅ 12965000 (-1) demo_substate = Ret db' ∧
    GetSubstate db' 12965000 (-1) = Ret (plain demo_substate) ∧ Substate_Equal demo_substate (plain demo_substate) = Ret true.
Proof.
  destruct (PutSubstate_GetSubstate [12964999] ∅ 12965000 (-1) demo_substate) as (db' & Hp & Hg & He & _).
  - exact demo_substate_ok.
  - apply pair_free_ok. vm_compute. reflexivity.
  - exact demo_order.
  - vm_compute. reflexivity.
  - exists db'. split; [exact Hp|]. split; [exact Hg|exact He].
Defined.

(** The access list of a Berlin record is lost. *)
Example berlin_access_list :
  mr_AccessList (msg_setBerlinRLP (mkBerlinMessageRLP 0 true 1 21000 7 (Some 9) 0 [] None [(9, [2])])) = [].
Proof. reflexivity. Qed.

(** A base fee compared with none. *)
Example Equal_BaseFee :
  Env_Equal (mkEnv 0 0 0 0 0 ∅ None) (mkEnv 0 0 0 0 0 ∅ (Some 0)) = Panic NilDereference.
Proof. vm_compute. reflexivity. Qed.
