(* ===== verification/TaskPool.v ===== *)
(** * research/substate_task.go: the pool of workers

    The goroutines of [Execute] and [ExecuteTest] and their channels, as a machine
    that one action at a time moves.  An action that is not enabled is a goroutine
    that waits, so the theorems cover every interleaving.  The channels are
    buffered: the pool has at least one worker.  Time, printing and the counters
    of finished blocks have no influence on the others and are left out, as is
    the number of processors. *)

From S2P Require Import Prelude DemoState Common Uint256 Machine Vm State Types Substate.

(** ** ExecuteBlock *)

Record SubstateTaskPool := mkPool {
  Workers : nat;
  SkipTransferTxs : bool;
  SkipCallTxs : bool;
  SkipCreateTxs : bool;
  TaskFunc : Z → Z → Substate → option string
}.

(** Whether the flags of the pool skip a transaction. *)
Definition skipped (pool : SubstateTaskPool) (substate : Substate) : bool :=
  let alloc := InputAlloc substate in
  match sm_To (sub_Message substate) with
  | Some to =>
      (SkipTransferTxs pool &&
         match alloc !! to with Some account => len (sub_Code account) =? 0 | None => true end) ||
      (SkipCallTxs pool &&
         match alloc !! to with Some account => 0 <? len (sub_Code account) | None => false end)
  | None => SkipCreateTxs pool
  end.

Record BlockError := mkBlockError { be_block : Z; be_tx : Z; be_err : string }.

(** [txs]: the substates of the block, in the order in which the map is iterated. *)
Fixpoint execute_txs (pool : SubstateTaskPool) (block : Z) (txs : list (Z * Substate)) (numTx : Z)
    : Z * option BlockError :=
  match txs with
  | [] => (numTx, None)
  | (tx, substate) :: txs =>
      if skipped pool substate then execute_txs pool block txs numTx
      else
        match TaskFunc pool block tx substate with
        | None => execute_txs pool block txs (numTx + 1)
        | Some err =>
            if decide (err = "not inner"%string) then execute_txs pool block txs (numTx - 1 + 1)
            else (numTx, Some (mkBlockError block tx err))
        end
  end.

Definition ExecuteBlock (pool : SubstateTaskPool) (block : Z) (txs : list (Z * Substate)) : Z * option BlockError :=
  execute_txs pool block txs 0.

(** ** Updating recorded accounts *)

Definition update_storage (replace : bool) (storage target : gmap Hash Hash) : gmap Hash Hash :=
  map_fold (λ hash value target,
    match target !! hash with
    | None => <[hash := value]> target
    | Some _ => if replace then <[hash := value]> target else target
    end) target storage.

Definition update_account (keep : Address → bool) (replace : bool) (addr : Address) (account : SubstateAccount)
    (target : SubstateAlloc) : SubstateAlloc :=
  match target !! addr with
  | None => if keep addr then <[addr := account]> target else target
  | Some known => <[addr := set_sub_Storage (update_storage replace (sub_Storage account)) known]> target
  end.

Definition UpdateSubstate (target alloc : SubstateAlloc) (replace add : bool) : SubstateAlloc :=
  map_fold (update_account (λ _, add) replace) target alloc.

Definition UpdateSubstatePlusInner (keccak256 : bytes → bytes) (target alloc : SubstateAlloc) (replace add : bool)
    (dappInner : list string) : SubstateAlloc :=
  map_fold (update_account (λ addr,
    add || existsb (λ inner, bool_decide (ToLower inner = ToLower (Address_String keccak256 addr))) dappInner) replace)
    target alloc.

(** ** Execute *)

Section pool.
(** [First <= block < stop] are executed, by [exec], with [W] workers.  [stop] is
    the last block plus one, so block numbers stay below 2^64 and the increments
    of the uint64 counters do not wrap around: the one range left out is that whose
    last block is 2^64 - 1, for which [block <= pool.Last] never fails. *)
Context {E : Type} (W : nat) (First stop : Z) (exec : Z → option E).

Inductive Worker := Idle | Busy (block : Z) | Reporting (block : Z) | Exited.

Inductive MainState :=
| Collecting (block : Z) (waitMap : gset Z)
| Stopping (result : option E) (sent : nat)
| Returned (result : option E).

(** The producer is at a block, or has ended.  A result on [doneChan] is a block
    or an error. *)
Record PoolState := mkPoolState {
  workChan : list Z;
  doneChan : list (Z + E);
  stopChan : nat;
  producer : option Z;
  workers : list Worker;
  main : MainState
}.

Inductive Action := Produce | StopProducer | Take (i : nat) | Run (i : nat) | Report (i : nat) | StopWorker (i : nat) | Main.

Definition at_block (block : Z) : option Z := if block <? stop then Some block else None.

Definition initial : PoolState := mkPoolState [] [] 0 (at_block First) (replicate W Idle) (Collecting First ∅).

Definition report (block : Z) : Z + E := match exec block with Some err => inr err | None => inl block end.

Definition exited (w : Worker) : bool := match w with Exited => true | _ => false end.

Definition fire_main (s : PoolState) : option PoolState :=
  let go done stops m := Some (mkPoolState (workChan s) done stops (producer s) (workers s) m) in
  match main s with
  | Collecting block waitMap =>
      if block <? stop then
        if decide (block ∈ waitMap) then go (doneChan s) (stopChan s) (Collecting (block + 1) (waitMap ∖ {[block]}))
        else match doneChan s with
             | [] => None
             | inl b :: done => go done (stopChan s) (Collecting block ({[b]} ∪ waitMap))
             | inr err :: done => go done (stopChan s) (Stopping (Some err) 0)
             end
      else go (doneChan s) (stopChan s) (Stopping None 0)
  | Stopping result sent =>
      if decide (sent < W + 1)%nat then
        if decide (stopChan s < W)%nat then go (doneChan s) (S (stopChan s)) (Stopping result (S sent)) else None
      else if bool_decide (producer s = None) && forallb exited (workers s) then
        go (doneChan s) (stopChan s) (Returned result)
      else None
  | Returned _ => None
  end.

Definition fire (a : Action) (s : PoolState) : option PoolState :=
  let worker i w work done stops :=
    Some (mkPoolState work done stops (producer s) (<[i := w]> (workers s)) (main s)) in
  match a with
  | Produce =>
      match producer s with
      | Some block =>
          if decide (length (workChan s) < W * 10)%nat then
            Some (mkPoolState (workChan s ++ [block]) (doneChan s) (stopChan s) (at_block (block + 1)) (workers s) (main s))
          else None
      | None => None
      end
  | StopProducer =>
      match producer s, stopChan s with
      | Some _, S n => Some (mkPoolState (workChan s) (doneChan s) n None (workers s) (main s))
      | _, _ => None
      end
  | Take i =>
      match workers s !! i, workChan s with
      | Some Idle, block :: work => worker i (Busy block) work (doneChan s) (stopChan s)
      | _, _ => None
      end
  | Run i =>
      match workers s !! i with
      | Some (Busy block) => worker i (Reporting block) (workChan s) (doneChan s) (stopChan s)
      | _ => None
      end
  | Report i =>
      match workers s !! i with
      | Some (Reporting block) =>
          if decide (length (doneChan s) < W * 10)%nat then
            worker i Idle (workChan s) (doneChan s ++ [report block]) (stopChan s)
          else None
      | _ => None
      end
  | StopWorker i =>
      match workers s !! i, stopChan s with
      | Some Idle, S n => worker i Exited (workChan s) (doneChan s) n
      | _, _ => None
      end
  | Main => fire_main s
  end.

Definition step (s s' : PoolState) : Prop := ∃ a, fire a s = Some s'.

Definition returned (s : PoolState) (result : option E) : Prop := main s = Returned result.

(** Whatever is scheduled, a state with [P] is reached. *)
Inductive inevitable (P : PoolState → Prop) (s : PoolState) : Prop :=
| now_there : P s → inevitable P s
| next_there : (∃ s', step s s') → (∀ s', step s s' → inevitable P s') → inevitable P s.

(** ** The measure of a state: what is left to do *)

Definition worker_left (w : Worker) : nat := match w with Busy _ => 5 | Reporting _ => 4 | _ => 0 end.
Definition main_left (m : MainState) : nat :=
  match m with
  | Collecting _ waitMap => 2 * (W + 1) + 2 + 2 * size waitMap
  | Stopping _ sent => 2 * (W + 1 - sent) + 1
  | Returned _ => 0
  end.
Definition left (s : PoolState) : nat :=
  7 * (match producer s with Some b => S (Z.to_nat (stop - b)) | None => 0 end) + 6 * length (workChan s) +
  sum_list_with worker_left (workers s) + 3 * length (doneChan s) + stopChan s + main_left (main s).

Lemma workers_split ws i (w w' : Worker) :
  ws !! i = Some w → ∃ l1 l2, ws = l1 ++ w :: l2 ∧ <[i := w']> ws = l1 ++ w' :: l2.
Proof.
  intros Hi. destruct (list_elem_of_split_length ws i w Hi) as (l1 & l2 & -> & ->).
  exists l1, l2. split; [done|]. by rewrite insert_app_r_alt, Nat.sub_diag by done.
Qed.

Lemma left_insert ws i w w' :
  ws !! i = Some w →
  (sum_list_with worker_left (<[i := w']> ws) + worker_left w = sum_list_with worker_left ws + worker_left w')%nat.
Proof.
  intros Hi. destruct (workers_split ws i w w' Hi) as (l1 & l2 & -> & ->).
  rewrite !sum_list_with_app. cbn. lia.
Qed.

Lemma fire_left a s s' : fire a s = Some s' → (left s' < left s)%nat.
Proof.
  unfold left. destruct a as [| |i|i|i|i|]; cbn.
  - destruct (producer s) as [b|]; [|done]. case_decide; [|done]. intros [= <-]. cbn. rewrite length_app. cbn.
    unfold at_block. destruct (Z.ltb_spec (b + 1) stop); lia.
  - destruct (producer s) as [b|], (stopChan s) as [|n]; try done. intros [= <-]. cbn. lia.
  - destruct (workers s !! i) as [[| | |]|] eqn:Hi, (workChan s) as [|b work]; try done. intros [= <-]. cbn.
    pose proof (left_insert _ _ _ (Busy b) Hi). cbn in *. lia.
  - destruct (workers s !! i) as [[|b| |]|] eqn:Hi; try done. intros [= <-]. cbn.
    pose proof (left_insert _ _ _ (Reporting b) Hi). cbn in *. lia.
  - destruct (workers s !! i) as [[| |b|]|] eqn:Hi; try done. case_decide; [|done]. intros [= <-]. cbn.
    pose proof (left_insert _ _ _ Idle Hi). rewrite length_app. cbn in *. lia.
  - destruct (workers s !! i) as [[| | |]|] eqn:Hi, (stopChan s) as [|n]; try done. intros [= <-]. cbn.
    pose proof (left_insert _ _ _ Exited Hi). cbn in *. lia.
  - unfold fire_main. destruct (main s) as [b wm|r sent|r]; cbn; [| |done].
    + destruct (b <? stop); [|intros [= <-]; cbn; lia]. case_decide as Hb.
      * intros [= <-]. cbn. rewrite size_difference, size_singleton by set_solver.
        assert (size wm ≠ 0%nat) by (apply size_non_empty_iff; set_solver). lia.
      * destruct (doneChan s) as [|[b'|err] rest]; [done| |]; intros [= <-]; cbn; [|lia].
        rewrite size_union_alt. pose proof (subseteq_size (wm ∖ {[b']}) wm ltac:(set_solver)). rewrite size_singleton. lia.
    + case_decide.
      * case_decide; [|done]. intros [= <-]. cbn. lia.
      * destruct (_ && _); [|done]. intros [= <-]. cbn. lia.
Qed.

(** ** What is where *)

Definition held (w : Worker) : list Z := match w with Busy b | Reporting b => [b] | _ => [] end.
Definition in_hand (ws : list Worker) : list Z := ws ≫= held.
Definition num_exited (ws : list Worker) : nat := sum_list_with (λ w, if exited w then 1 else 0)%nat ws.

#[local] Arguments in_hand : simpl never.
#[local] Arguments num_exited : simpl never.

Lemma in_hand_insert ws i w w' : ws !! i = Some w → in_hand (<[i := w']> ws) ++ held w ≡ₚ in_hand ws ++ held w'.
Proof.
  intros Hi. destruct (workers_split ws i w w' Hi) as (l1 & l2 & -> & ->).
  unfold in_hand. rewrite !bind_app. cbn. solve_Permutation.
Qed.

Lemma num_exited_insert ws i w w' :
  ws !! i = Some w → exited w = false →
  num_exited (<[i := w']> ws) = (num_exited ws + (if exited w' then 1 else 0))%nat.
Proof.
  intros Hi Hw. destruct (workers_split ws i w w' Hi) as (l1 & l2 & -> & ->).
  unfold num_exited. rewrite !sum_list_with_app. cbn. rewrite Hw. lia.
Qed.

Lemma num_exited_le ws : (num_exited ws ≤ length ws)%nat.
Proof. induction ws as [|w ws IH]; [done|]. unfold num_exited in *. cbn. destruct (exited w); lia. Qed.

Lemma none_exited ws i w : num_exited ws = 0%nat → ws !! i = Some w → exited w = false.
Proof.
  intros Hn Hi. destruct (workers_split ws i w w Hi) as (l1 & l2 & -> & _).
  unfold num_exited in Hn. rewrite sum_list_with_app in Hn. cbn in Hn. destruct (exited w); [lia|done].
Qed.

(** The blocks that are somewhere between the producer and the main goroutine;
    [bs] are those of [doneChan]. *)
Definition underway (s : PoolState) (bs : list Z) : list Z := bs ++ workChan s ++ in_hand (workers s).

Definition unproduced (s : PoolState) : Z := match producer s with Some b => stop - b | None => 0 end.

Definition in_range (b : Z) : Prop := First ≤ b < stop.

Definition outcome (result : option E) : Prop :=
  match result with
  | None => ∀ b, in_range b → exec b = None
  | Some err => ∃ b, in_range b ∧ exec b = Some err
  end.

(** Every block that was produced is in one place. *)
Definition collecting (s : PoolState) (bs : list Z) (block : Z) (waitMap : gset Z) : Prop :=
  stopChan s = 0%nat ∧ num_exited (workers s) = 0%nat ∧ First ≤ block ∧
  (∀ b, First ≤ b < block → exec b = None) ∧ (∀ b, b ∈ waitMap → exec b = None) ∧
  ∃ next, producer s = at_block next ∧ First ≤ next ≤ stop ∧
    seqZ First (block - First) ++ elements waitMap ++ underway s bs ≡ₚ seqZ First (next - First).

(** Every signal sent is in the channel or stopped a goroutine. *)
Definition stopping (s : PoolState) (bs : list Z) (result : option E) (sent : nat) : Prop :=
  (stopChan s ≤ W)%nat ∧ (sent ≤ W + 1)%nat ∧
  (∃ p, (p ≤ 1)%nat ∧ sent = (stopChan s + num_exited (workers s) + p)%nat ∧ (is_Some (producer s) → p = 0%nat)) ∧
  Z.of_nat (length (underway s bs)) + unproduced s ≤ stop - First ∧
  outcome result ∧ (result = None → underway s bs = [] ∧ producer s = None).

Record inv (s : PoolState) : Prop := {
  inv_workers : length (workers s) = W;
  inv_producer b : producer s = Some b → b < stop;
  inv_places : ∃ bs, doneChan s = report <$> bs ∧
    match main s with
    | Collecting block waitMap => collecting s bs block waitMap
    | Stopping result sent => stopping s bs result sent
    | Returned result => stopping s bs result (W + 1)
    end
}.

(** ** The invariant is kept *)

Lemma inv_initial : First ≤ stop → inv initial.
Proof.
  intros Hs. split; cbn; [by rewrite length_replicate| |].
  - intros b. unfold at_block. destruct (Z.ltb_spec First stop); [intros [= <-]; lia|done].
  - exists []. split; [done|]. unfold collecting. cbn. split_and!; [done| |done|lia|set_solver|].
    + unfold num_exited. induction W as [|n IH]; [done|exact IH].
    + exists First. split; [done|]. split; [lia|]. rewrite Z.sub_diag, elements_empty. unfold underway. cbn.
      unfold in_hand. assert (∀ n, replicate n Idle ≫= held = []) as -> by (induction n; done). done.
Qed.

Lemma seqZ_snoc m n : 0 ≤ n → seqZ m (n + 1) = seqZ m n ++ [m + n].
Proof. intros Hn. rewrite seqZ_app by lia. done. Qed.

(** A worker does something with its own block only. *)
Lemma underway_insert work ws i w w' (bs : list Z) :
  ws !! i = Some w → held w' = held w →
  bs ++ work ++ in_hand (<[i := w']> ws) ≡ₚ bs ++ work ++ in_hand ws.
Proof.
  intros Hi Hh. pose proof (in_hand_insert ws i w w' Hi) as Hp. rewrite Hh in Hp.
  apply (inj (.++ held w)) in Hp. by rewrite Hp.
Qed.

(** A move that keeps what is underway, the exits and the signals keeps the places. *)
Lemma places_move s s' bs bs' :
  main s' = main s → producer s' = producer s → stopChan s' = stopChan s →
  num_exited (workers s') = num_exited (workers s) → underway s' bs' ≡ₚ underway s bs →
  match main s with
  | Collecting block waitMap => collecting s bs block waitMap
  | Stopping result sent => stopping s bs result sent
  | Returned result => stopping s bs result (W + 1)
  end →
  match main s' with
  | Collecting block waitMap => collecting s' bs' block waitMap
  | Stopping result sent => stopping s' bs' result sent
  | Returned result => stopping s' bs' result (W + 1)
  end.
Proof.
  intros -> Hp Hs Hn Hu.
  assert (∀ r sent, stopping s bs r sent → stopping s' bs' r sent) as Hstop.
  { intros r sent (Q1 & Q2 & Q3 & Q4 & Q5 & Q6). unfold stopping, unproduced in *. rewrite Hp, Hs, Hn.
    rewrite (Permutation_length Hu). split_and!; try done. intros Hr. destruct (Q6 Hr) as [Q7 ?]. split; [|done]. rewrite Q7 in Hu.
    by apply Permutation_nil_r in Hu. }
  destruct (main s) as [block wm|r sent|r]; [|apply Hstop|apply Hstop].
  intros (Q1 & Q2 & Q3 & Q4 & Q5 & next & Q6 & Q7 & Q8). unfold collecting. rewrite Hp, Hs, Hn.
  split_and!; try done. exists next. rewrite Hu. done.
Qed.

(** A worker takes a signal, or the producer does. *)
Lemma stopping_taken s s' bs r sent :
  stopping s bs r sent → S (stopChan s') = stopChan s → underway s' bs ≡ₚ underway s bs →
  (producer s' = producer s ∧ num_exited (workers s') = S (num_exited (workers s)) ∨
   is_Some (producer s) ∧ producer s' = None ∧ num_exited (workers s') = num_exited (workers s)) →
  (∀ b, producer s = Some b → b < stop) → stopping s' bs r sent.
Proof.
  intros (Q1 & Q2 & (p & Hp & Hsent & Hprod) & Q4 & Q5 & Q6) Hs Hu Hcase Hb. unfold stopping, unproduced in *.
  rewrite (Permutation_length Hu). split_and!; [lia|done| | |done|].
  - destruct Hcase as [[-> ->]|([b Hpb] & -> & ->)].
    + exists p. split_and!; [done|lia|done].
    + exists 1%nat. rewrite Hpb in Hprod. rewrite (Hprod ltac:(by eexists)) in Hsent.
      split_and!; [done|lia|by intros []].
  - destruct Hcase as [[-> _]|([b Hpb] & -> & _)]; [done|]. rewrite Hpb in Q4. specialize (Hb b Hpb). lia.
  - intros Hr. destruct (Q6 Hr) as [Hnil Hn]. rewrite Hnil in Hu. apply Permutation_nil_r in Hu. split; [done|]. destruct Hcase as [[-> _]|(_ & -> & _)]; done.
Qed.

Lemma at_block_below next b : at_block next = Some b → b = next ∧ next < stop.
Proof. unfold at_block. destruct (Z.ltb_spec next stop); [by intros [= <-]|done]. Qed.

Lemma inv_produce s s' : inv s → fire Produce s = Some s' → inv s'.
Proof.
  intros [Hw Hb (bs & Hd & Hp)]. cbn. destruct (producer s) as [b|] eqn:Epr; [|done]. case_decide; [|done]. intros [= <-].
  specialize (Hb b eq_refl). split; cbn; [done| |].
  { intros b' Hb'. by apply at_block_below in Hb' as [-> ?]. }
  exists bs. split; [done|]. cbn.
  assert (∀ r sent, stopping s bs r sent → stopping (mkPoolState (workChan s ++ [b]) (doneChan s) (stopChan s)
    (at_block (b + 1)) (workers s) (main s)) bs r sent) as Hstop.
  { intros r sent (Q1 & Q2 & (p & Q3 & Q4 & Q5) & Q6 & Q7 & Q8). unfold stopping, unproduced, underway in *. cbn.
    rewrite Epr in *. split_and!; [done|done| | |done|].
    - exists p. split_and!; [done|done|]. intros _. apply Q5. by eexists.
    - rewrite !length_app in *. cbn in *. unfold at_block. destruct (Z.ltb_spec (b + 1) stop); lia.
    - intros Hr. by destruct (Q8 Hr). }
  destruct (main s) as [mb wm|r sent|r]; [|by apply Hstop|by apply Hstop].
  destruct Hp as (Q1 & Q2 & Q3 & Q4 & Q5 & next & Q6 & Q7 & Q8). rewrite Epr in Q6.
  symmetry in Q6. apply at_block_below in Q6 as [-> Hlt]. unfold collecting, underway in *. cbn. split_and!; try done.
  exists (next + 1). split; [done|]. split; [lia|].
  replace (next + 1 - First) with ((next - First) + 1) by lia. rewrite seqZ_snoc by lia.
  replace (First + (next - First)) with next by lia. rewrite <- Q8. solve_Permutation.
Qed.

Lemma inv_stop_producer s s' : inv s → fire StopProducer s = Some s' → inv s'.
Proof.
  intros [Hw Hb (bs & Hd & Hp)]. cbn. destruct (producer s) as [b|] eqn:Epr, (stopChan s) as [|n] eqn:Es; try done.
  intros [= <-]. split; cbn; [done|done|]. exists bs. split; [done|].
  assert (∀ r sent, stopping s bs r sent → stopping (mkPoolState (workChan s) (doneChan s) n None (workers s) (main s)) bs r sent)
    as Hstop.
  { intros r sent Hs. eapply stopping_taken; [exact Hs|by rewrite Es|done| |by rewrite Epr]. right. rewrite Epr. by split; [eexists|]. }
  destruct (main s) as [mb wm|r sent|r]; [|by apply Hstop|by apply Hstop].
  destruct Hp as (Q1 & _). congruence.
Qed.

Lemma inv_take i s s' : inv s → fire (Take i) s = Some s' → inv s'.
Proof.
  intros [Hw Hb (bs & Hd & Hp)]. cbn. destruct (workers s !! i) as [[| | |]|] eqn:Hi, (workChan s) as [|b work] eqn:Ew; try done.
  intros [= <-]. match goal with |- inv ?x => set (s' := x) end. split; [cbn; by rewrite length_insert|exact Hb|]. exists bs. split; [done|].
  refine (places_move s s' bs bs eq_refl eq_refl eq_refl _ _ Hp); cbn.
  - rewrite (num_exited_insert _ _ _ _ Hi) by done. cbn. lia.
  - unfold underway. cbn. rewrite Ew. pose proof (in_hand_insert _ _ _ (Busy b) Hi) as Hh. cbn in Hh.
    rewrite app_nil_r in Hh. rewrite Hh. solve_Permutation.
Qed.

Lemma inv_run i s s' : inv s → fire (Run i) s = Some s' → inv s'.
Proof.
  intros [Hw Hb (bs & Hd & Hp)]. cbn. destruct (workers s !! i) as [[|b| |]|] eqn:Hi; try done.
  intros [= <-]. match goal with |- inv ?x => set (s' := x) end. split; [cbn; by rewrite length_insert|exact Hb|]. exists bs. split; [done|].
  refine (places_move s s' bs bs eq_refl eq_refl eq_refl _ _ Hp); cbn.
  - rewrite (num_exited_insert _ _ _ _ Hi) by done. cbn. lia.
  - unfold underway. cbn. by apply (underway_insert _ _ _ _ _ _ Hi).
Qed.

Lemma inv_report i s s' : inv s → fire (Report i) s = Some s' → inv s'.
Proof.
  intros [Hw Hb (bs & Hd & Hp)]. cbn. destruct (workers s !! i) as [[| |b|]|] eqn:Hi; try done. case_decide; [|done].
  intros [= <-]. match goal with |- inv ?x => set (s' := x) end. split; [cbn; by rewrite length_insert|exact Hb|]. exists (bs ++ [b]). split; [cbn; by rewrite Hd, fmap_app|].
  refine (places_move s s' bs (bs ++ [b]) eq_refl eq_refl eq_refl _ _ Hp); cbn.
  - rewrite (num_exited_insert _ _ _ _ Hi) by done. cbn. lia.
  - unfold underway. cbn. pose proof (in_hand_insert _ _ _ Idle Hi) as Hh. cbn in Hh. rewrite app_nil_r in Hh.
    rewrite <- Hh. solve_Permutation.
Qed.

Lemma inv_stop_worker i s s' : inv s → fire (StopWorker i) s = Some s' → inv s'.
Proof.
  intros [Hw Hb (bs & Hd & Hp)]. cbn. destruct (workers s !! i) as [[| | |]|] eqn:Hi, (stopChan s) as [|n] eqn:Es; try done.
  intros [= <-]. split; cbn; [by rewrite length_insert|done|]. exists bs. split; [done|].
  assert (underway (mkPoolState (workChan s) (doneChan s) n (producer s) (<[i := Exited]> (workers s)) (main s)) bs
    ≡ₚ underway s bs) as Hu.
  { unfold underway. cbn. by apply (underway_insert _ _ _ _ _ _ Hi). }
  assert (∀ r sent, stopping s bs r sent → stopping (mkPoolState (workChan s) (doneChan s) n (producer s)
    (<[i := Exited]> (workers s)) (main s)) bs r sent) as Hstop.
  { intros r sent Hs. eapply stopping_taken; [exact Hs|by rewrite Es|exact Hu| |exact Hb]. left. cbn. split; [done|].
    rewrite (num_exited_insert _ _ _ _ Hi) by done. cbn. lia. }
  destruct (main s) as [mb wm|r sent|r]; [|by apply Hstop|by apply Hstop].
  destruct Hp as (Q1 & _). congruence.
Qed.

(** The main goroutine stops the others: what was collected decides the result. *)
Lemma collecting_stops s bs block waitMap result m :
  (∀ b, producer s = Some b → b < stop) → collecting s bs block waitMap → outcome result →
  (result = None → stop ≤ block) →
  (∀ bs', bs' `sublist_of` bs → bs' = bs ∨ result ≠ None → stopping (mkPoolState (workChan s) (report <$> bs') 0 (producer s) (workers s) m) bs' result 0).
Proof.
  intros Hb (Q1 & Q2 & Q3 & Q4 & Q5 & next & Q6 & Q7 & Q8) Ho Hend bs' Hsub Hor.
  apply Permutation_length in Q8 as Hlen. rewrite !length_app, !length_seqZ in Hlen.
  assert (length (underway s bs') ≤ length (underway s bs))%nat as Hle.
  { unfold underway. rewrite !length_app. apply sublist_length in Hsub. lia. }
  unfold stopping. cbn. split_and!; [lia|lia| | |done|].
  - exists 0%nat. rewrite Q2. split_and!; lia || done.
  - unfold unproduced. cbn. change (underway _ bs') with (underway s bs'). destruct (producer s) as [b|] eqn:Epr; [|lia].
    symmetry in Q6. apply at_block_below in Q6 as [-> ?]. lia.
  - intros Hr. specialize (Hend Hr). destruct Hor as [->|]; [|done].
    assert (length (underway s bs) = 0%nat) as H0 by lia. apply length_zero_iff_nil in H0. split; [exact H0|].
    destruct (producer s) as [b|] eqn:Epr; [|done]. symmetry in Q6. apply at_block_below in Q6 as [-> ?]. lia.
Qed.

Lemma underway_in_range s bs block waitMap b :
  collecting s bs block waitMap → b ∈ bs → in_range b ∧ b ∉ waitMap.
Proof.
  intros (Q1 & Q2 & Q3 & Q4 & Q5 & next & Q6 & Q7 & Q8) Hb. split.
  - assert (b ∈ seqZ First (next - First)) as Hin.
    { rewrite <- Q8. unfold underway. rewrite !elem_of_app. auto. }
    apply elem_of_seqZ in Hin. unfold in_range. lia.
  - intros Hw. pose proof (NoDup_seqZ First (next - First)) as Hn. rewrite <- Q8 in Hn.
    apply NoDup_app in Hn as (_ & _ & Hn). apply NoDup_app in Hn as (_ & Hn & _).
    apply (Hn b); [by apply elem_of_elements|]. unfold underway. rewrite elem_of_app. auto.
Qed.

Lemma inv_collect s block waitMap s' :
  inv s → main s = Collecting block waitMap → fire_main s = Some s' → inv s'.
Proof.
  intros [Hw Hb (bs & Hd & Hp)] Hm. unfold fire_main. rewrite Hm in *.
  pose proof Hp as (Q1 & Q2 & Q3 & Q4 & Q5 & next & Q6 & Q7 & Q8).
  destruct (Z.ltb_spec block stop) as [Hlt|Hge].
  2: { intros [= <-]. split; [exact Hw|exact Hb|]. exists bs. split; [exact Hd|]. cbn [main]. rewrite Q1, Hd.
    refine (collecting_stops s bs block waitMap None _ Hb Hp _ _ bs _ (or_introl eq_refl)); [|lia|done].
    intros b Hr. apply Q4. unfold in_range in Hr. lia. }
  case_decide as Hin.
  { intros [= <-]. split; [exact Hw|exact Hb|]. exists bs. split; [exact Hd|]. cbn [main]. unfold collecting. cbn.
    split_and!; [done|done|lia| |set_solver|].
    - intros b Hr. destruct (decide (b = block)) as [->|]; [by apply Q5|apply Q4; lia].
    - exists next. split; [done|]. split; [done|]. change (underway _ bs) with (underway s bs). rewrite <- Q8.
      replace (block + 1 - First) with ((block - First) + 1) by lia. rewrite seqZ_snoc by lia.
      replace (First + (block - First)) with block by lia.
      rewrite (union_difference_L {[block]} waitMap) at 2 by set_solver.
      rewrite elements_disj_union, elements_singleton by set_solver. solve_Permutation. }
  destruct (doneChan s) as [|[b|err] rest] eqn:Ed; [done| |]; destruct bs as [|b' bs]; try done; cbn in Hd; injection Hd as Hr Hrest.
  - assert (exec b = None ∧ b' = b) as [He ->].
    { unfold report in Hr. destruct (exec b') eqn:He; [done|]. by injection Hr as ->. }
    destruct (underway_in_range _ _ _ _ b Hp) as [_ Hnew]; [by left|].
    intros [= <-]. split; [exact Hw|exact Hb|]. exists bs. split; [exact Hrest|]. cbn [main]. unfold collecting. cbn.
    split_and!; [done|done|done|done|set_solver|]. exists next. split; [done|]. split; [done|]. rewrite <- Q8.
    rewrite elements_disj_union, elements_singleton by set_solver. unfold underway. cbn. solve_Permutation.
  - assert (exec b' = Some err) as He by (unfold report in Hr; destruct (exec b'); [by injection Hr as ->|done]).
    destruct (underway_in_range _ _ _ _ b' Hp) as [Hrange _]; [by left|].
    intros [= <-]. split; [exact Hw|exact Hb|]. exists bs. split; [exact Hrest|]. cbn [main]. rewrite Q1, Hrest.
    refine (collecting_stops s (b' :: bs) block waitMap (Some err) _ Hb Hp _ _ bs _ (or_intror _)); [|done|by constructor|done].
    by exists b'.
Qed.

Lemma inv_main s s' : inv s → fire Main s = Some s' → inv s'.
Proof.
  intros Hs. cbn. destruct (main s) as [block wm|r sent|r] eqn:Hm; [by apply (inv_collect s block wm)| |].
  - destruct Hs as [Hw Hb (bs & Hd & Hp)]. unfold fire_main. rewrite Hm in *.
    destruct Hp as (Q1 & Q2 & (p & Q3 & Q4 & Q5) & Q6 & Q7 & Q8). case_decide.
    + case_decide; [|done]. intros [= <-]. split; [exact Hw|exact Hb|]. exists bs. split; [exact Hd|].
      cbn [main]. unfold stopping. cbn. split_and!; [lia|lia| |exact Q6|exact Q7|exact Q8].
      exists p. split_and!; [done|lia|exact Q5].
    + destruct (_ && _); [|done]. intros [= <-]. split; [exact Hw|exact Hb|]. exists bs. split; [exact Hd|].
      cbn [main]. unfold stopping. cbn. split_and!; [done|lia| |exact Q6|exact Q7|exact Q8].
      exists p. split_and!; [done|lia|exact Q5].
  - unfold fire_main. by rewrite Hm.
Qed.

Lemma inv_step s s' : inv s → step s s' → inv s'.
Proof.
  intros Hs [a Ha]. destruct a as [| |i|i|i|i|].
  - by eapply inv_produce.
  - by eapply inv_stop_producer.
  - by eapply inv_take.
  - by eapply inv_run.
  - by eapply inv_report.
  - by eapply inv_stop_worker.
  - by eapply inv_main.
Qed.

(** ** No goroutine waits for ever *)

Context (HW : (0 < W)%nat).

Lemma worker_moves s i w :
  workers s !! i = Some w → (held w ≠ [] → (length (doneChan s) < W * 10)%nat) → (w = Idle → workChan s ≠ [] ∨ stopChan s ≠ 0%nat) →
  w ≠ Exited → ∃ s', step s s'.
Proof.
  intros Hi Hd Hidle Hw. destruct w as [|b|b|]; [|exists (mkPoolState (workChan s) (doneChan s) (stopChan s) (producer s) (<[i := Reporting b]> (workers s)) (main s)); exists (Run i); cbn; by rewrite Hi| |done].
  - destruct (workChan s) as [|b work] eqn:Ew.
    + destruct (stopChan s) as [|n] eqn:Es; [by destruct (Hidle eq_refl)|]. eexists. exists (StopWorker i). cbn. by rewrite Hi, Es.
    + eexists. exists (Take i). cbn. by rewrite Hi, Ew.
  - eexists. exists (Report i). cbn. rewrite Hi. by rewrite decide_True by by apply Hd.
Qed.

(** The results fit the channel: all tasks succeed, or there are not many. *)
Definition results_fit : Prop := (∀ b, in_range b → exec b = None) ∨ stop - First ≤ Z.of_nat (W * 10).

Lemma collecting_moves s block waitMap :
  inv s → main s = Collecting block waitMap → ∃ s', step s s'.
Proof.
  intros [Hw Hb (bs & Hd & Hp)] Hm. rewrite Hm in Hp.
  pose proof Hp as (Q1 & Q2 & Q3 & Q4 & Q5 & next & Q6 & Q7 & Q8).
  destruct (Z.ltb_spec block stop) as [Hlt|Hge].
  2: { eexists. exists Main. cbn. unfold fire_main. rewrite Hm. by destruct (Z.ltb_spec block stop); [lia|]. }
  destruct (decide (block ∈ waitMap)) as [Hin|Hnin].
  { eexists. exists Main. cbn. unfold fire_main. rewrite Hm. destruct (Z.ltb_spec block stop); [|lia]. by rewrite decide_True. }
  destruct (doneChan s) as [|r rest] eqn:Ed.
  2: { destruct r; eexists; exists Main; cbn; unfold fire_main; rewrite Hm, Ed; (destruct (Z.ltb_spec block stop); [|lia]); by rewrite decide_False. }
  destruct bs as [|b0 bs]; [|done].
  destruct (workers s !! 0%nat) as [w|] eqn:Hi; [|apply lookup_ge_None in Hi; lia].
  destruct (producer s) as [b|] eqn:Epr.
  { destruct (decide (length (workChan s) < W * 10)%nat) as [Hl|Hl].
    - eexists. exists Produce. cbn. rewrite Epr. by rewrite decide_True.
    - eapply (worker_moves s 0 w Hi); [rewrite Ed; cbn; lia| |].
      + intros _. left. intros Hn. rewrite Hn in Hl. cbn in Hl. lia.
      + intros ->. by pose proof (none_exited _ _ _ Q2 Hi). }
  (* everything is produced: the block is with a worker or in the channel *)
  assert (block ∈ underway s []) as Hu.
  { assert (next = stop) as -> by (unfold at_block in Q6; destruct (Z.ltb_spec next stop); [done|lia]).
    assert (block ∈ seqZ First (stop - First)) as Hin by (apply elem_of_seqZ; lia). rewrite <- Q8 in Hin.
    apply elem_of_app in Hin as [Hin|Hin]; [apply elem_of_seqZ in Hin; lia|].
    apply elem_of_app in Hin as [Hin|Hin]; [by apply elem_of_elements in Hin|done]. }
  unfold underway in Hu. cbn in Hu. apply elem_of_app in Hu as [Hu|Hu].
  - eapply (worker_moves s 0 w Hi); [rewrite Ed; cbn; lia| |].
    + intros _. left. intros Hn. rewrite Hn in Hu. by apply elem_of_nil in Hu.
    + intros ->. by pose proof (none_exited _ _ _ Q2 Hi).
  - unfold in_hand in Hu. apply list_elem_of_bind in Hu as (w' & Hw' & Hin). apply list_elem_of_lookup in Hin as [i Hi'].
    eapply (worker_moves s i w' Hi'); [rewrite Ed; cbn; lia| |].
    + intros ->. by apply elem_of_nil in Hw'.
    + intros ->. by apply elem_of_nil in Hw'.
Qed.

Lemma all_exited ws : forallb exited ws = true ∧ num_exited ws = length ws ∨
  (num_exited ws < length ws)%nat ∧ ∃ i w, ws !! i = Some w ∧ exited w = false.
Proof.
  induction ws as [|w ws IH]; [by left|]. unfold num_exited in *. cbn. destruct (exited w) eqn:Hw; cbn.
  - destruct IH as [[-> ->]|[Hlt (i & w' & Hi & Hx)]]; [by left|]. right. split; [lia|]. by exists (S i), w'.
  - right. split; [|by exists 0%nat, w]. destruct IH as [[_ ->]|[Hlt _]]; lia.
Qed.

Lemma held_underway s bs i w : workers s !! i = Some w → held w ≠ [] → (length bs < length (underway s bs))%nat.
Proof.
  intros Hi Hh. unfold underway, in_hand. rewrite !length_app.
  destruct (workers_split (workers s) i w w Hi) as (l1 & l2 & -> & _). rewrite bind_app, length_app. cbn.
  rewrite length_app. destruct (held w); [done|cbn; lia].
Qed.

Lemma stopping_moves s r sent : results_fit → inv s → main s = Stopping r sent → ∃ s', step s s'.
Proof.
  intros Hfit [Hw Hb (bs & Hd & Hp)] Hm. rewrite Hm in Hp.
  destruct Hp as (Q1 & Q2 & (p & Q3 & Q4 & Q5) & Q6 & Q7 & Q8).
  destruct (decide (sent < W + 1 ∧ stopChan s < W)%nat) as [[Hs1 Hs2]|Hsend].
  { eexists. exists Main. cbn. unfold fire_main. rewrite Hm. by rewrite !decide_True by done. }
  destruct (all_exited (workers s)) as [[He Hn]|[Hn (i & w & Hi & Hx)]].
  - destruct (producer s) as [b|] eqn:Epr.
    + rewrite (Q5 ltac:(by eexists)) in Q4. destruct (stopChan s) as [|n] eqn:Es; [lia|].
      eexists. exists StopProducer. cbn. by rewrite Epr, Es.
    + eexists. exists Main. cbn. unfold fire_main. rewrite Hm, decide_False by lia. by rewrite Epr, He.
  - eapply (worker_moves s i w Hi).
    + intros Hh. pose proof (held_underway s bs i w Hi Hh) as Hlen. rewrite Hd, length_fmap.
      assert (0 ≤ unproduced s) as Hu by (unfold unproduced; destruct (producer s) eqn:Epr; [specialize (Hb _ eq_refl)|]; lia).
      destruct Hfit as [Hok|Hfew]; [|lia]. destruct r as [err|].
      * destruct Q7 as (b & Hrange & Herr). by rewrite Hok in Herr.
      * destruct (Q8 eq_refl) as [Hnil _]. rewrite Hnil in Hlen. cbn in Hlen. lia.
    + intros _. right. lia.
    + intros ->. done.
Qed.

Lemma moves s : results_fit → inv s → (∃ r, returned s r) ∨ ∃ s', step s s'.
Proof.
  intros Hfit Hs. destruct (main s) as [block wm|r sent|r] eqn:Hm.
  - right. by eapply collecting_moves.
  - right. by eapply stopping_moves.
  - left. by exists r.
Qed.

Lemma inv_outcome s r : inv s → returned s r → outcome r.
Proof. intros [_ _ (bs & _ & Hp)] Hm. unfold returned in Hm. rewrite Hm in Hp. by destruct Hp as (_ & _ & _ & _ & ? & _). Qed.

(** C39: the pool always ends.  Whatever the scheduler does, [Execute] returns
    when every task succeeds, and also when tasks fail as long as there are not
    more blocks than [doneChan] can hold: no goroutine is left waiting, and no
    run is infinite.  It returns nil only if every block of the range was
    executed without an error, and otherwise the error of one of them. *)
Theorem Execute_returns :
  First ≤ stop → results_fit → inevitable (λ s, ∃ r, returned s r ∧ outcome r) initial.
Proof.
  intros Hs Hfit. generalize (inv_initial Hs). generalize initial. intros s.
  remember (left s) as n eqn:Hn. revert s Hn. induction n as [n IH] using lt_wf_ind. intros s -> Hi.
  destruct (moves s Hfit Hi) as [[r Hr]|Hmove].
  - apply now_there. exists r. split; [done|by eapply inv_outcome].
  - apply next_there; [done|]. intros s' [a Ha]. eapply IH; [by eapply fire_left|done|]. eapply inv_step; [done|by exists a].
Qed.
End pool.

(** ** Execute and ExecuteTest *)

(** The blocks from [First] to [Last]; a block that fails stops the pool. *)
Definition Execute (pool : SubstateTaskPool) (GetBlockSubstates : Z → list (Z * Substate)) (First Last : Z)
    : PoolState → PoolState → Prop :=
  step (Workers pool) (Last + 1) (λ block, snd (ExecuteBlock pool block (GetBlockSubstates block))).

(** The rounds of a test, with [TestBlock] of a round. *)
Definition ExecuteTest {E} (workers : nat) (TestBlock : Z → bool * option E) (Round : Z) : PoolState → PoolState → Prop :=
  step workers Round (λ round, snd (TestBlock round)).

(** A run of the actions a scheduler chooses. *)
Definition schedule {E} (W : nat) (stop : Z) (exec : Z → option E) (s : PoolState) (actions : list Action) : option PoolState :=
  foldl (λ s a, s ≫= fire W stop exec a) (Some s) actions.

(** ** Examples *)

Definition demo_substate : Substate :=
  mkSubstate ∅ ∅ (mkEnv 0 0 0 0 0 ∅ None) (mkSubMessage 0 true 0 21000 1 (Some 2) 0 [] None [] 0 0) (mkResult 1 [] [] 0 21000).
Definition demo_pool : SubstateTaskPool :=
  mkPool 2 false false false (λ block _ _, if block =? 6 then Some "inconsistent output"%string else None).
Definition demo_error (block : Z) : option BlockError := snd (ExecuteBlock demo_pool block [(0, demo_substate)]).

Lemma Execute_returns_witness :
  inevitable 2 9 demo_error
    (λ s, ∃ r, returned s r ∧ outcome 5 9 demo_error r) (initial 2 5 9) ∧ demo_error 6 = Some (mkBlockError 6 0 "inconsistent output").
Proof.
  split; [|reflexivity]. apply (Execute_returns 2 5 9 demo_error); [lia|lia|]. right. cbn. lia.
Defined.

(** With more blocks than the channel holds, a failing one can leave the pool
    waiting for ever: the main goroutine no longer reads [doneChan], a worker
    waits to write to it, and the main goroutine waits for that worker. *)
Definition first_fails (block : Z) : option () := if block =? 1 then Some tt else None.
Definition deadlock_actions : list Action :=
  replicate 10 Produce ++ [Take 0; Produce; Run 0; Report 0; Take 0; Produce; Run 0; Report 0] ++
  concat (replicate 8 [Take 0; Run 0; Report 0]) ++ [Take 0; Run 0; Main; Report 0; Take 0; Run 0; Main].

Example Execute_deadlock :
  match schedule 1 13 first_fails (initial 1 1 13) deadlock_actions with
  | Some s => main s = Stopping (Some tt) 1 ∧ ∀ a, fire 1 13 first_fails a s = None
  | None => False
  end.
Proof.
  destruct (schedule _ _ _ _ _) as [s|] eqn:Hs; vm_compute in Hs; [|discriminate]. injection Hs as <-. split; [done|].
  intros [| |[|i]|[|i]|[|i]|[|i]|]; reflexivity.
Qed.
