(* ===== verification/ReplayTasks.v ===== *)
(** * cmd/substate-cli/replay: replaying recorded transactions

    The tasks that the pool runs over recorded substates: [replay.go],
    [replay_hunter.go], [seed_generation.go] and [replay_fork.go].  They make a
    state of the recorded accounts, apply the recorded message to it, and compare
    what comes out with what was recorded.

    [ReplayState] is what they use of the state besides the machine's interface.
    The closure [getHash] sets [hashError] when it is asked for a hash that was
    not recorded, [hash_missing].  An environment of London without a base fee is
    outside the model: the recorder never makes one. *)

From S2P Require Import Prelude DemoState Common Params Uint256 Machine VmFacts Rlp RlpFacts RlpDecode RlpStreamFacts Tx.
From S2P Require Import State Statedb StateView StateUndo StateOps StateSim DemoDatabase StateSpec.
From S2P Require Import Vm Evm Interpreter Gas Instructions JumpTable RecorderFacts CallFacts ReadOnlyFacts Changes GasFacts GasOps GasTables EvmSpec EvmState Types Transition TransitionSpec.
From S2P Require Import ChainConfig ChainConfigFacts Substate.

Class ReplayState (S : Type) := {
  MakeOffTheChainStateDB : SubstateAlloc → Go S;
  MakeOffTheChainStateDBWithTxs : list SubstateAlloc → Go S;
  Prepare : Hash → Z → S → S;
  Finalise : bool → S → Go S;
  IntermediateRoot : bool → S → Go (S * Hash);
  state_logs : S → Hash → list Log;
  ResearchPostAlloc : S → SubstateAlloc
}.

(** The hashes a replay makes up for its transaction and its block; the replay
    of a fork has them the other way round. *)
Definition txHash : Hash := Z.shiftl 2 248.
Definition blockHash : Hash := Z.shiftl 1 248.
Definition fork_txHash : Hash := Z.shiftl 1 248.
Definition fork_blockHash : Hash := Z.shiftl 2 248.

(** The main network, without the accounts the DAO fork overwrites. *)
Definition replayChainConfig : ChainConfig := {|
  cfg_ChainID := cfg_ChainID MainnetChainConfig;
  HomesteadBlock := HomesteadBlock MainnetChainConfig;
  DAOForkBlock := DAOForkBlock MainnetChainConfig;
  DAOForkSupport := false;
  EIP150Block := EIP150Block MainnetChainConfig;
  EIP150Hash := EIP150Hash MainnetChainConfig;
  EIP155Block := EIP155Block MainnetChainConfig;
  EIP158Block := EIP158Block MainnetChainConfig;
  ByzantiumBlock := ByzantiumBlock MainnetChainConfig;
  ConstantinopleBlock := ConstantinopleBlock MainnetChainConfig;
  PetersburgBlock := PetersburgBlock MainnetChainConfig;
  IstanbulBlock := IstanbulBlock MainnetChainConfig;
  MuirGlacierBlock := MuirGlacierBlock MainnetChainConfig;
  BerlinBlock := BerlinBlock MainnetChainConfig;
  LondonBlock := LondonBlock MainnetChainConfig;
  ArrowGlacierBlock := ArrowGlacierBlock MainnetChainConfig;
  MergeForkBlock := MergeForkBlock MainnetChainConfig;
  TerminalTotalDifficulty := TerminalTotalDifficulty MainnetChainConfig
|}.

Section replay.
Context {S : Type} `{StateDB S} `{ReplayState S} `{Uint256} `{Externals}.
Context (levels : nat).

(** [vm.NewEVM]; the transaction to record into is set by its callers. *)
Definition NewEVM (blockCtx : BlockContext) (txCtx : TxContext) (statedb : S) (chainConfig : ChainConfig) (ExTx : ExternalTx)
    : EVM S :=
  Build_EVM S blockCtx txCtx statedb 0 (Config.Rules chainConfig (BlockNumber blockCtx)) false 0 [] ExTx false [] [] ∅ ∅.

Definition no_tx : ExternalTx := {| etx_BlockNumber := 0; etx_Timestamp := 0; etx_TxIndex := 0; etx_InTxs := [] |}.

Definition block_context (env : SubstateEnv) : BlockContext := {|
  GetHash num := default 0 (env_BlockHashes env !! num);
  Coinbase := env_Coinbase env;
  GasLimit := env_GasLimit env;
  BlockNumber := env_Number env;
  Time := env_Timestamp env;
  Difficulty := env_Difficulty env;
  BaseFee := default 0 (env_BaseFee env)
|}.

(** [hashError] is set: [getHash] was asked for a hash that was not recorded. *)
Definition hash_missing (env : SubstateEnv) (evm : EVM S) : bool :=
  existsb (λ num, bool_decide (env_BlockHashes env !! num = None)) (elements (hashes_asked evm)).

(** The transaction the hunter records under. *)
Definition tx_of_env (env : SubstateEnv) (tx : Z) : ExternalTx :=
  {| etx_BlockNumber := env_Number env; etx_Timestamp := env_Timestamp env; etx_TxIndex := tx; etx_InTxs := [] |}.

(** The state, the machine, the snapshot and the pool a task begins with. *)
Definition start (chainConfig : ChainConfig) (txHash : Hash) (substate : Substate) (tx : Z) (ExTx : ExternalTx)
    : Res (EVM S * Z * Z) :=
  let env := sub_Env substate in
  let msg := AsMessage (sub_Message substate) in
  s ← of_go (MakeOffTheChainStateDB (InputAlloc substate));
  gaspool ← of_go (AddGas 0 (env_GasLimit env));
  let s := Prepare txHash tx s in
  let evm := NewEVM (block_context env) {| Origin := msg_from msg; GasPrice := msg_gasPrice msg |} s chainConfig ExTx in
  let '(s, snapshot) := Snapshot s in
  Done (set_statedb evm s, snapshot, gaspool).

Definition set_BlockHash (h : Hash) (l : Log) : Log :=
  {| log_Address := log_Address l; log_Topics := log_Topics l; log_Data := log_Data l;
     log_BlockNumber := log_BlockNumber l; log_TxHash := log_TxHash l; log_TxIndex := log_TxIndex l;
     log_BlockHash := h; log_Index := log_Index l |}.

(** [StateDB.GetLogs] *)
Definition GetLogs (s : S) (hash blockHash : Hash) : list Log := set_BlockHash blockHash <$> state_logs s hash.

Definition ReceiptStatusFailed : Z := 0.
Definition ReceiptStatusSuccessful : Z := 1.

(** The end of the transaction, and what it is compared by. *)
Definition finish (chainConfig : ChainConfig) (txHash blockHash : Hash) (msg : Message) (evm : EVM S) (msgResult : ExecutionResult)
    : Res (SubstateAlloc * SubstateResult) :=
  let number := BlockNumber (Context evm) in
  s ← of_go (if Config.IsByzantium chainConfig number then Finalise true (statedb evm)
             else fst <$> IntermediateRoot (Config.IsEIP158 chainConfig number) (statedb evm));
  let logs := GetLogs s txHash blockHash in
  bloom ← of_go (BytesToBloom (LogsBloom logs));
  Done (ResearchPostAlloc s,
    mkResult (if Failed msgResult then ReceiptStatusFailed else ReceiptStatusSuccessful) bloom logs
      (match msg_to msg with None => CreateAddress (Origin (TxCtx evm)) (msg_nonce msg) | Some _ => 0 end)
      (UsedGas msgResult)).

Inductive ReplayError :=
| Refused (err : CoreError)
| HashError
| InconsistentOutput.

Definition consistent (substate : Substate) (alloc : SubstateAlloc) (result : SubstateResult) : bool :=
  let r := Result_Equal (sub_Result substate) result in
  let a := Alloc_Equal (OutputAlloc substate) alloc in
  r && a.

(** ** replay.go *)

Definition replayTask (tx : Z) (substate : Substate) : Res (option ReplayError) :=
  let msg := AsMessage (sub_Message substate) in
  '(evm, snapshot, gaspool) ← start replayChainConfig txHash substate tx no_tx;
  '(st, r) ← ApplyMessage false levels evm msg gaspool;
  match r with
  | inl err =>
      _ ← of_go (RevertToSnapshot snapshot (statedb (st_evm st)));
      Done (Some (Refused err))
  | inr msgResult =>
      if hash_missing (sub_Env substate) (st_evm st) then Done (Some HashError)
      else
        '(alloc, result) ← finish replayChainConfig txHash blockHash msg (st_evm st) msgResult;
        Done (if consistent substate alloc result then None else Some InconsistentOutput)
  end.

(** ** replay_hunter.go *)

(** Also returned: the transactions given to the collectors.  The error of the
    message is looked at before the result is known to be there. *)
Definition executeRegularMsgs (tx : Z) (substate : Substate)
    : Res (list ExternalTx * (ReplayError + SubstateAlloc * SubstateResult)) :=
  let msg := AsMessage (sub_Message substate) in
  '(evm, snapshot, gaspool) ← start replayChainConfig txHash substate tx (tx_of_env (sub_Env substate) tx);
  '(st, r) ← ApplyMessage false levels evm msg gaspool;
  match r with
  | inl err => Crash NilDereference
  | inr msgResult =>
      let collected := if decide (Err msgResult = None) then [ExTx (st_evm st)] else [] in
      if hash_missing (sub_Env substate) (st_evm st) then Done (collected, inl HashError)
      else
        '(alloc, result) ← finish replayChainConfig txHash blockHash msg (st_evm st) msgResult;
        Done (collected, inr (alloc, result))
  end.

Definition replayTaskSu (tx : Z) (substate : Substate) : Res (list ExternalTx * option ReplayError) :=
  '(collected, r) ← executeRegularMsgs tx substate;
  match r with
  | inl err => Done (collected, Some err)
  | inr (alloc, result) => Done (collected, if consistent substate alloc result then None else Some InconsistentOutput)
  end.

(** ** seed_generation.go *)

(** The environments are collected before the error is looked at. *)
Definition SeedGenerationTask (tx : Z) (substate : Substate) : Res (list ExternalTx * option ReplayError) :=
  let msg := AsMessage (sub_Message substate) in
  '(evm, snapshot, gaspool) ← start replayChainConfig txHash substate tx (tx_of_env (sub_Env substate) tx);
  '(st, r) ← ApplyMessage false levels evm msg gaspool;
  let collected := [ExTx (st_evm st)] in
  match r with
  | inl err =>
      _ ← of_go (RevertToSnapshot snapshot (statedb (st_evm st)));
      Done (collected, Some (Refused err))
  | inr msgResult =>
      if hash_missing (sub_Env substate) (st_evm st) then Done (collected, Some HashError)
      else
        '(alloc, result) ← finish replayChainConfig txHash blockHash msg (st_evm st) msgResult;
        Done (collected, if consistent substate alloc result then None else Some InconsistentOutput)
  end.

(** ** replay_fork.go *)

Inductive ReplayForkStat :=
| ForkRefused (err : CoreError)
| ForkRuntime (err : option VmError)
| ErrReplayForkInvalidAlloc
| ErrReplayForkMoreGas
| ErrReplayForkLessGas
| ErrReplayForkMisc.

(** The accounts agree but for their balances. *)
Definition fork_account (account1 : SubstateAccount) (account2 : option SubstateAccount) : bool :=
  match account2 with
  | None => false
  | Some account2 =>
      (sub_Nonce account1 =? sub_Nonce account2) && bool_decide (sub_Code account1 = sub_Code account2) &&
      (size (sub_Storage account1) =? size (sub_Storage account2))%nat &&
      forallb (λ '(k, v1), match sub_Storage account2 !! k with Some v2 => v1 =? v2 | None => false end)
        (map_to_list (sub_Storage account1))
  end.

Definition fork_alloc (outputAlloc evmAlloc : SubstateAlloc) : bool :=
  (size outputAlloc =? size evmAlloc)%nat &&
  forallb (λ '(addr, account1), fork_account account1 (evmAlloc !! addr)) (map_to_list outputAlloc).

(** What is counted for an output that differs. *)
Definition fork_stat (substate : Substate) (alloc : SubstateAlloc) (result : SubstateResult) (err : option VmError)
    : ReplayForkStat :=
  let output := sub_Result substate in
  if (res_Status output =? ReceiptStatusSuccessful) && (res_Status result =? ReceiptStatusSuccessful) then
    if negb (fork_alloc (OutputAlloc substate) alloc) then ErrReplayForkInvalidAlloc
    else if res_GasUsed output <? res_GasUsed result then ErrReplayForkMoreGas
    else if res_GasUsed result <? res_GasUsed output then ErrReplayForkLessGas
    else ErrReplayForkMisc
  else if (res_Status output =? ReceiptStatusSuccessful) && (res_Status result =? ReceiptStatusFailed) then ForkRuntime err
  else ErrReplayForkMisc.

Definition replayForkTask (ReplayForkChainConfig : ChainConfig) (tx : Z) (substate : Substate) : Res (option ReplayForkStat) :=
  let msg := AsMessage (sub_Message substate) in
  '(evm, snapshot, gaspool) ← start ReplayForkChainConfig fork_txHash substate tx no_tx;
  '(st, r) ← ApplyMessage false levels evm msg gaspool;
  match r with
  | inl err =>
      _ ← of_go (RevertToSnapshot snapshot (statedb (st_evm st)));
      Done (Some (ForkRefused err))
  | inr msgResult =>
      '(alloc, result) ← finish ReplayForkChainConfig fork_txHash fork_blockHash msg (st_evm st) msgResult;
      Done (if consistent substate alloc result then None else Some (fork_stat substate alloc result (Err msgResult)))
  end.
End replay.

(** ** Properties *)

(** A new state has a refund counter that is a word, prepared for a transaction or not. *)
Class ReplayLaws (S : Type) `{StateDB S, !ReplayState S, !RefundLaws S} : Prop := {
  prepared_ok alloc s h i : MakeOffTheChainStateDB alloc = Ret s → refund_ok (Prepare h i s);
  made_ok allocs s : MakeOffTheChainStateDBWithTxs allocs = Ret s → refund_ok s
}.

Lemma replay_ordered n : ordered_rules (Config.Rules replayChainConfig n).
Proof.
  unfold ordered_rules. cbn. unfold Config.IsBerlin, Config.IsLondon, Config.IsEIP150, isForked. cbn. lia.
Qed.

Section properties.
Context {S : Type} `{HS : StateDB S} `{!RefundLaws S} `{!ReplayState S} `{!ReplayLaws S}.
Context `{U : Uint256} `{!Uint256Range U} `{X : Externals} `{!ExternalsRange X}.
Context (levels : nat).

Lemma start_spec substate tx ex e snapshot gp :
  0 ≤ env_GasLimit (sub_Env substate) < 2 ^ 64 →
  start replayChainConfig txHash substate tx ex = Done (e, snapshot, gp) →
  fresh e ∧ refund_ok (statedb e) ∧ ExTx e = ex ∧ gp = env_GasLimit (sub_Env substate).
Proof.
  intros Hg. unfold start. destruct (MakeOffTheChainStateDB _) as [s|] eqn:Em; cbn; [|done].
  unfold AddGas, MaxUint64. destruct (Z.ltb_spec (2 ^ 64 - 1 - env_GasLimit (sub_Env substate)) 0); [lia|].
  cbn. destruct (Snapshot _) as [s' sn] eqn:Es. intros [= <- <- <-].
  split; [split; [done|]; split; [done|apply replay_ordered]|]. split; [|split; [done|]].
  - cbn. eapply refund_changes; [exact (prepared_ok (InputAlloc substate) s txHash tx Em)|eapply chg_snapshot; exact Es].
  - rewrite wrapU_small by lia. lia.
Qed.

Lemma settled_used e msg gp st res :
  refund_ok (statedb e) → 0 ≤ msg_gasLimit msg → settled e msg gp st res → 0 ≤ UsedGas res ≤ msg_gasLimit msg.
Proof.
  intros Hok Hg [_ _ _ _ (intrinsic & used & s1 & Hi & Hu & -> & Hch & _)].
  apply (IntrinsicGas_range 0) in Hi. pose proof (refund_range s1) as Hr.
  assert (0 ≤ GetRefund s1 < 2 ^ 64) as Hc.
  { apply Hr. eapply refund_changes; [exact Hok|]. eapply chg_trans; [apply chg_sub|exact Hch]. }
  assert (0 ≤ used / refund_quotient (chainRules e) ≤ used) as Hd.
  { assert (1 < refund_quotient (chainRules e)) by (unfold refund_quotient; by destruct (IsLondon _)).
    split; [apply Z.div_pos; lia|]. apply Z.div_le_upper_bound; nia. }
  unfold refunded. lia.
Qed.

(** A transaction the detector can parse: the numbers of its block, and at most
    one root, a node of the message. *)
Definition parsable (env : SubstateEnv) (tx : Z) (msg : Message) (ex : ExternalTx) : Prop :=
  etx_BlockNumber ex = env_Number env ∧ etx_Timestamp ex = env_Timestamp env ∧ etx_TxIndex ex = tx ∧
  (etx_InTxs ex = [] ∨ ∃ n, etx_InTxs ex = [n] ∧ message_node msg n).

Lemma recorded_parsable env tx msg (e e' : EVM S) :
  ExTx e = tx_of_env env tx → recorded msg e e' → parsable env tx msg (ExTx e').
Proof.
  intros He (new & Hnew & ->). rewrite He. unfold parsable, add_roots.
  destruct Hnew as [->|(n & -> & Hn)]; cbn; split_and!; try done; [by left|]. right. by exists n.
Qed.

(** What the hunter's replay of a substate comes to. *)
Definition hunted (tx : Z) (substate : Substate) (m : Res (list ExternalTx * (ReplayError + SubstateAlloc * SubstateResult)))
    : Prop :=
  match m with
  | OutOfFuel => False
  | Crash _ => True
  | Done (collected, r) =>
      (length collected ≤ 1)%nat ∧
      Forall (parsable (sub_Env substate) tx (AsMessage (sub_Message substate))) collected ∧
      match r with
      | inl err => err = HashError
      | inr (_, result) =>
          0 ≤ res_GasUsed result ≤ sm_Gas (sub_Message substate) ∧
          (res_Status result = ReceiptStatusSuccessful ↔ collected ≠ [])
      end
  end.

Lemma finish_result msg (e : EVM S) res alloc result :
  finish replayChainConfig txHash blockHash msg e res = Done (alloc, result) →
  res_GasUsed result = UsedGas res ∧ (res_Status result = ReceiptStatusSuccessful ↔ Err res = None).
Proof.
  unfold finish. destruct (of_go _) as [s|p|]; cbn; [|done|done].
  destruct (BytesToBloom _) as [bloom|]; cbn; [|done]. intros [= <- <-]. cbn. split; [done|].
  unfold Failed. case_bool_decide as Hb; split; intros He; by simplify_eq.
Qed.

Lemma of_go_ends {A B : Type} (m : Go A) (f : A → Res B) : (∀ a, f a ≠ OutOfFuel) → (of_go m ≫= f) ≠ OutOfFuel.
Proof. by destruct m; cbn. Qed.

Lemma finish_ends msg (e : EVM S) res : finish replayChainConfig txHash blockHash msg e res ≠ OutOfFuel.
Proof. apply of_go_ends. intros s. by apply of_go_ends. Qed.

Lemma start_ends substate tx ex : start (S := S) replayChainConfig txHash substate tx ex ≠ OutOfFuel.
Proof. apply of_go_ends. intros s. apply of_go_ends. intros gp. cbv zeta. by destruct (Snapshot (Prepare txHash tx s)). Qed.

(** C40: replaying a recorded transaction for the detector always ends.  It
    collects a transaction exactly when the message succeeded, and then one that
    the detector can parse: numbered as the block was, with at most one root,
    whose caller, callee, value and input are those of the message; the gas it
    reports is within the limit of the message.  But a message that is refused
    makes it dereference nil: the result is looked at before the error. *)
Theorem executeRegularMsgs_collects tx substate :
  CallCreateDepth < Z.of_nat levels →
  0 ≤ env_GasLimit (sub_Env substate) < 2 ^ 64 → 0 ≤ sm_Gas (sub_Message substate) < 2 ^ 64 →
  hunted tx substate (executeRegularMsgs levels tx substate) ∧
  (∀ e snapshot gp st err,
     start replayChainConfig txHash substate tx (tx_of_env (sub_Env substate) tx) = Done (e, snapshot, gp) →
     ApplyMessage false levels e (AsMessage (sub_Message substate)) gp = Done (st, inl err) →
     executeRegularMsgs levels tx substate = Crash NilDereference).
Proof.
  intros Hl Hgp Hg. unfold executeRegularMsgs.
  destruct (start _ _ _ _ _) as [[[e snapshot] gp]|p|] eqn:Es; cbn [mbind Res_bind].
  2: by split; [|intros].
  2: by destruct (start_ends _ _ _ Es).
  destruct (start_spec _ _ _ _ _ _ Hgp Es) as (Hf & Hok & Htx & ->).
  split.
  2: { intros e' sn' gp' st err [= <- <- <-] E. by rewrite E. }
  set (msg := AsMessage (sub_Message substate)) in *. set (gp := env_GasLimit (sub_Env substate)) in *.
  pose proof (checked_settles levels e msg gp (preCheck false) Hl Hf Hok Hgp Hg (proj1 (preCheck_spec false e msg gp Hgp Hg))) as Hs.
  unfold ApplyMessage, TransitionDb. destruct ((_ ← preCheck false; transition levels) (NewStateTransition e msg gp)) as [[st [err|res]]|p|]; [done| |done|done].
  cbn [outcome] in Hs. destruct Hs as [_ Hs]. pose proof (settled_used e msg gp st res Hok (proj1 Hg) Hs) as Hgas.
  pose proof (recorded_parsable _ _ _ _ _ Htx (settled_recorded _ _ _ _ _ Hs)) as Hp.
  set (collected := if decide (Err res = None) then [ExTx (st_evm st)] else []).
  assert ((length collected ≤ 1)%nat ∧ Forall (parsable (sub_Env substate) tx msg) collected ∧ (Err res = None ↔ collected ≠ []))
    as (Hc1 & Hc2 & Hc3).
  { unfold collected. destruct (decide (Err res = None)); (split; [cbn; lia|]); (split; [auto|]); done. }
  cbn [mbind Res_bind]. fold collected. destruct (hash_missing (sub_Env substate) (st_evm st)); [by cbn|].
  destruct (finish replayChainConfig txHash blockHash msg (st_evm st) res) as [[alloc result]|p|] eqn:Ef; cbn [mbind Res_bind hunted]; [|done|].
  - apply finish_result in Ef as [-> Hst]. split; [done|]. split; [done|]. split; [exact Hgas|]. by rewrite Hst.
  - revert Ef. apply finish_ends.
Qed.
End properties.

(** ** An example: a call of an account that stops, replayed over [Spec] *)

Definition spec_view (a : SubstateAccount) : AccView :=
  mkView (sub_Nonce a) (sub_Balance a) (Keccak256 (sub_Code a)) (sub_Code a) false
    (λ k, default 0 (sub_Storage a !! k)) (λ k, default 0 (sub_Storage a !! k)).

Definition spec_of_alloc (alloc : SubstateAlloc) : Spec :=
  mkSpec (mkAState (λ a, spec_view <$> alloc !! a) 0 0 0 ∅ 0 ∅ newAccessList) [] 0.

Definition spec_prepared (h : Hash) (i : Z) (m : Spec) : Spec :=
  let A := now m in
  mkSpec (mkAState (a_account A) (a_refund A) h i (a_logs A) (a_logSize A) (a_preimages A) newAccessList) (saved m) (next m).

#[export] Instance spec_replay : ReplayState Spec := {|
  MakeOffTheChainStateDB alloc := Ret (spec_of_alloc alloc);
  MakeOffTheChainStateDBWithTxs allocs := Ret (spec_of_alloc (foldl (λ m alloc, alloc ∪ m) ∅ allocs));
  Prepare := spec_prepared;
  Finalise _ m := Ret m;
  IntermediateRoot _ m := Ret (m, 0);
  state_logs m h := default [] (a_logs (now m) !! h);
  ResearchPostAlloc _ := ∅
|}.

#[export] Instance spec_replay_laws : ReplayLaws Spec.
Proof.
  assert (∀ alloc, refund_ok (spec_of_alloc alloc)) as Hok by (intros; split; [split; [discriminate|reflexivity]|constructor]).
  constructor; [intros alloc s h i [= <-]|intros allocs s [= <-]]; apply Hok.
Qed.

Definition demo_substate : Substate :=
  mkSubstate {[10 := NewSubstateAccount 1 100 [0x60; 0x00]]} ∅ (mkEnv 7 1 100000 13000000 5 ∅ (Some 0))
    (mkSubMessage 0 true 0 50000 sender_addr (Some 10) 0 [] None [] 0 0) (mkResult 1 [] [] 0 21003).

Definition collected_of (m : Res (list ExternalTx * (ReplayError + SubstateAlloc * SubstateResult))) : option (nat * Z) :=
  match m with Done (l, inr (_, r)) => Some (length l, res_GasUsed r) | _ => None end.

Definition demo_replay := executeRegularMsgs (S := Spec) 1025 3 demo_substate.

Lemma demo_collected : collected_of demo_replay = Some (1%nat, 21003).
Proof. vm_compute. reflexivity. Qed.

Lemma collected_one m n g : collected_of m = Some (n, g) → ∃ l a r, m = Done (l, inr (a, r)) ∧ length l = n ∧ res_GasUsed r = g.
Proof. destruct m as [[l [err|[a r]]]|p|]; cbn; [done| |done|done]. intros [= <- <-]. by exists l, a, r. Qed.

Lemma executeRegularMsgs_collects_witness :
  ∃ ex a r, demo_replay = Done ([ex], inr (a, r)) ∧ res_GasUsed r = 21003 ∧ res_Status r = ReceiptStatusSuccessful ∧
    parsable (sub_Env demo_substate) 3 (AsMessage (sub_Message demo_substate)) ex.
Proof.
  destruct (collected_one _ _ _ demo_collected) as (l & a & r & E & Hl & Hg).
  destruct l as [|ex [|? ?]]; [discriminate Hl| |discriminate Hl]. exists ex, a, r. split; [exact E|]. split; [exact Hg|].
  assert (CallCreateDepth < Z.of_nat 1025) as Hlev by reflexivity.
  destruct (executeRegularMsgs_collects (S := Spec) 1025 3 demo_substate Hlev
    ltac:(split; [discriminate|reflexivity]) ltac:(split; [discriminate|reflexivity])) as [Hh _].
  fold demo_replay in Hh. rewrite E in Hh. destruct Hh as (_ & Hp & _ & Hs).
  split; [apply Hs; discriminate|]. by inversion Hp.
Defined.
