(* ===== verification/Processor.v ===== *)
(** * core/state_processor.go and core/evm.go: processing blocks

    A block is processed transaction by transaction on one state and in one
    virtual machine; after each of them the processor records a substate in the
    database.  The engine of the chain gives the beneficiary of a block and ends
    its state; [ethash_engine] is the one of [Consensus].

    [order] gives the order in which Go iterates the block hashes of a transaction
    when its substate is stored.  The hashes recorded by BLOCKHASH are kept in the
    machine, [block_hashes], and are emptied when a transaction is prepared.  The
    cache of [GetHashFn] is threaded in [get_hash]; the machine calls it without
    one, which [get_hash_cached] justifies. *)

From S2P Require Import Prelude DemoState Common Params Uint256 Machine VmFacts Rlp RlpFacts RlpDecode RlpStreamFacts RlpDecodeFacts RlpRoundTrip Tx.
From S2P Require Import State Statedb StateView StateUndo StateOps StateSim DemoDatabase StateSpec.
From S2P Require Import Vm Evm Interpreter Gas Instructions JumpTable RecorderFacts CallFacts ReadOnlyFacts Changes GasFacts GasOps GasTables EvmSpec EvmState Types Transition TransitionSpec.
From S2P Require Import ChainConfig ChainConfigFacts Substate Codec Transactions TxSpec Consensus SubstateRlp SubstateFacts SubstateSpec ReplayTasks.

(** What the processor uses of the state besides the replay tasks. *)
Class ProcessorState (S : Type) := {
  SetBalance : Address → Z → S → S;
  TxIndex : S → Z;
  ResearchPreAlloc : S → SubstateAlloc
}.

(** ** params/dao.go *)

Definition DAORefundContract : Address := 0xbf4ed7b27f1d666546e30d74d50d173d20bca754.

Definition DAODrainList : list Address :=
  [0xd4fe7bc31cedb7bfb8a345f31e668033056b2728; 0xb3fb0e5aba0e20e5c49d252dfd30e102b171a425;
   0x2c19c7f9ae8b751e37aeb2d93a699722395ae18f; 0xecd135fa4f61a655311e86238c92adcd779555d2;
   0x1975bd06d486162d5dc297798dfc41edd5d160a7; 0xa3acf3a1e16b1d7c315e23510fdd7847b48234f6;
   0x319f70bab6845585f412ec7724b744fec6095c85; 0x06706dd3f2c9abf0a21ddcc6941d9b86f0596936;
   0x5c8536898fbb74fc7445814902fd08422eac56d0; 0x6966ab0d485353095148a2155858910e0965b6f9;
   0x779543a0491a837ca36ce8c635d6154e3c4911a6; 0x2a5ed960395e2a49b1c758cef4aa15213cfd874c;
   0x5c6e67ccd5849c0d29219c4f95f1a7a93b3f5dc5; 0x9c50426be05db97f5d64fc54bf89eff947f0a321;
   0x200450f06520bdd6c527622a273333384d870efb; 0xbe8539bfe837b67d1282b2b1d61c3f723966f049;
   0x6b0c4d41ba9ab8d8cfb5d379c69a612f2ced8ecb; 0xf1385fb24aad0cd7432824085e42aff90886fef5;
   0xd1ac8b1ef1b69ff51d1d401a476e7e612414f091; 0x8163e7fb499e90f8544ea62bbf80d21cd26d9efd;
   0x51e0ddd9998364a2eb38588679f0d2c42653e4a6; 0x627a0a960c079c21c34f7612d5d230e01b4ad4c7;
   0xf0b1aa0eb660754448a7937c022e30aa692fe0c5; 0x24c4d950dfd4dd1902bbed3508144a54542bba94;
   0x9f27daea7aca0aa0446220b98d028715e3bc803d; 0xa5dc5acd6a7968a4554d89d65e59b7fd3bff0f90;
   0xd9aef3a1e38a39c16b31d1ace71bca8ef58d315b; 0x63ed5a272de2f6d968408b4acb9024f4cc208ebf;
   0x6f6704e5a10332af6672e50b3d9754dc460dfa4d; 0x77ca7b50b6cd7e2f3fa008e24ab793fd56cb15f6;
   0x492ea3bb0f3315521c31f273e565b868fc090f17; 0x0ff30d6de14a8224aa97b78aea5388d1c51c1f00;
   0x9ea779f907f0b315b364b0cfc39a0fde5b02a416; 0xceaeb481747ca6c540a000c1f3641f8cef161fa7;
   0xcc34673c6c40e791051898567a1222daf90be287; 0x579a80d909f346fbfb1189493f521d7f48d52238;
   0xe308bd1ac5fda103967359b2712dd89deffb7973; 0x4cb31628079fb14e4bc3cd5e30c2f7489b00960c;
   0xac1ecab32727358dba8962a0f3b261731aad9723; 0x4fd6ace747f06ece9c49699c7cabc62d02211f75;
   0x440c59b325d2997a134c2c7c60a8c61611212bad; 0x4486a3d68fac6967006d7a517b889fd3f98c102b;
   0x9c15b54878ba618f494b38f0ae7443db6af648ba; 0x27b137a85656544b1ccb5a0f2e561a5703c6a68f;
   0x21c7fdb9ed8d291d79ffd82eb2c4356ec0d81241; 0x23b75c2f6791eef49c69684db4c6c1f93bf49a50;
   0x1ca6abd14d30affe533b24d7a21bff4c2d5e1f3b; 0xb9637156d330c0d605a791f1c31ba5890582fe1c;
   0x6131c42fa982e56929107413a9d526fd99405560; 0x1591fc0f688c81fbeb17f5426a162a7024d430c2;
   0x542a9515200d14b68e934e9830d91645a980dd7a; 0xc4bbd073882dd2add2424cf47d35213405b01324;
   0x782495b7b3355efb2833d56ecb34dc22ad7dfcc4; 0x58b95c9a9d5d26825e70a82b6adb139d3fd829eb;
   0x3ba4d81db016dc2890c81f3acec2454bff5aada5; 0xb52042c8ca3f8aa246fa79c3feaa3d959347c0ab;
   0xe4ae1efdfc53b73893af49113d8694a057b9c0d1; 0x3c02a7bc0391e86d91b7d144e61c2c01a25a79c5;
   0x0737a6b837f97f46ebade41b9bc3e1c509c85c53; 0x97f43a37f595ab5dd318fb46e7a155eae057317a;
   0x52c5317c848ba20c7504cb2c8052abd1fde29d03; 0x4863226780fe7c0356454236d3b1c8792785748d;
   0x5d2b2e6fcbe3b11d26b525e085ff818dae332479; 0x5f9f3392e9f62f63b8eac0beb55541fc8627f42c;
   0x057b56736d32b86616a10f619859c6cd6f59092a; 0x9aa008f65de0b923a2a4f02012ad034a5e2e2192;
   0x304a554a310c7e546dfe434669c62820b7d83490; 0x914d1b8b43e92723e64fd0a06f5bdb8dd9b10c79;
   0x4deb0033bb26bc534b197e61d19e0733e5679784; 0x07f5c1e1bc2c93e0402f23341973a0e043f7bf8a;
   0x35a051a0010aba705c9008d7a7eff6fb88f6ea7b; 0x4fa802324e929786dbda3b8820dc7834e9134a2a;
   0x9da397b9e80755301a3b32173283a91c0ef6c87e; 0x8d9edb3054ce5c5774a420ac37ebae0ac02343c6;
   0x0101f3be8ebb4bbd39a2e3b9a3639d4259832fd9; 0x5dc28b15dffed94048d73806ce4b7a4612a1d48f;
   0xbcf899e6c7d9d5a215ab1e3444c86806fa854c76; 0x12e626b0eebfe86a56d633b9864e389b45dcb260;
   0xa2f1ccba9395d7fcb155bba8bc92db9bafaeade7; 0xec8e57756626fdc07c63ad2eafbd28d08e7b0ca5;
   0xd164b088bd9108b60d0ca3751da4bceb207b0782; 0x6231b6d0d5e77fe001c2a460bd9584fee60d409b;
   0x1cba23d343a983e9b5cfd19496b9a9701ada385f; 0xa82f360a8d3455c5c41366975bde739c37bfeb8a;
   0x9fcd2deaff372a39cc679d5c5e4de7bafb0b1339; 0x005f5cee7a43331d5a3d3eec71305925a62f34b6;
   0x0e0da70933f4c7849fc0d203f5d1d43b9ae4532d; 0xd131637d5275fd1a68a3200f4ad25c71a2a9522e;
   0xbc07118b9ac290e4622f5e77a0853539789effbe; 0x47e7aa56d6bdf3f36be34619660de61275420af8;
   0xacd87e28b0c9d1254e868b81cba4cc20d9a32225; 0xadf80daec7ba8dcf15392f1ac611fff65d94f880;
   0x5524c55fb03cf21f549444ccbecb664d0acad706; 0x40b803a9abce16f50f36a77ba41180eb90023925;
   0xfe24cdd8648121a43a7c86d289be4dd2951ed49f; 0x17802f43a0137c506ba92291391a8a8f207f487d;
   0x253488078a4edf4d6f42f113d1e62836a942cf1a; 0x86af3e9626fce1957c82e88cbf04ddf3a2ed7915;
   0xb136707642a4ea12fb4bae820f03d2562ebff487; 0xdbe9b615a3ae8709af8b93336ce9b477e4ac0940;
   0xf14c14075d6c4ed84b86798af0956deef67365b5; 0xca544e5c4687d109611d0f8f928b53a25af72448;
   0xaeeb8ff27288bdabc0fa5ebb731b6f409507516c; 0xcbb9d3703e651b0d496cdefb8b92c25aeb2171f7;
   0x6d87578288b6cb5549d5076a207456a1f6a63dc0; 0xb2c6f0dfbb716ac562e2d85d6cb2f8d5ee87603e;
   0xaccc230e8a6e5be9160b8cdf2864dd2a001c28b6; 0x2b3455ec7fedf16e646268bf88846bd7a2319bb2;
   0x4613f3bca5c44ea06337a9e439fbc6d42e501d0a; 0xd343b217de44030afaa275f54d31a9317c7f441e;
   0x84ef4b2357079cd7a7c69fd7a37cd0609a679106; 0xda2fef9e4a3230988ff17df2165440f37e8b1708;
   0xf4c64518ea10f995918a454158c6b61407ea345c; 0x7602b46df5390e432ef1c307d4f2c9ff6d65cc97;
   0xbb9bc244d798123fde783fcc1c72d3bb8c189413; 0x807640a13483f8ac783c557fcdf27be11ea4ac7a].

(** ** core/evm.go: the hashes of earlier blocks *)

Section hashes.
Context (chain : Chain).

(** From a known hash and its number back to block [n]. *)
Fixpoint walk_back (fuel : nat) (n : Z) (cache : list Hash) (lastKnownHash : Hash) (lastKnownNumber : Z)
    : option (list Hash * Hash) :=
  match fuel with
  | O => None
  | S fuel =>
      match GetHeader chain lastKnownHash lastKnownNumber with
      | None => Some (cache, 0)
      | Some header =>
          let cache := cache ++ [hd_ParentHash header] in
          let lastKnownNumber := wrapU 64 (wrapU 64 (hd_Number header) - 1) in
          if n =? lastKnownNumber then Some (cache, hd_ParentHash header)
          else walk_back fuel n cache (hd_ParentHash header) lastKnownNumber
      end
  end.

(** The closure [GetHashFn] returns: what it caches, and the hash. *)
Definition get_hash (ref : Header) (cache : list Hash) (n : Z) : option (list Hash * Hash) :=
  let number := wrapU 64 (hd_Number ref) in
  let cache := match cache with [] => [hd_ParentHash ref] | _ => cache end in
  let idx := wrapU 64 (number - n - 1) in
  match (if idx <? Z.of_nat (length cache) then cache !! Z.to_nat idx else None) with
  | Some h => Some (cache, h)
  | None =>
      walk_back (Z.to_nat number + 2) n cache (default 0 (last cache)) (wrapU 64 (number - Z.of_nat (length cache)))
  end.

Definition GetHashFn (ref : Header) (n : Z) : Hash := match get_hash ref [] n with Some (_, h) => h | None => 0 end.
End hashes.

Section processor.
Context {S : Type} `{StateDB S} `{!ReplayState S} `{!ProcessorState S} `{Uint256} `{Externals} `{Secp256k1} `{!Backend}.
Context (NoBaseFee : bool) (levels : nat).

(** The engine of a chain. *)
Record Engine := mkEngine {
  engine_Author : Header → Address;
  engine_Finalize : Chain → Header → S → list Transaction → list Header → Go (S * Header)
}.

(** ** core/evm.go *)

Definition NewEVMBlockContext (header : Header) (chain : Chain) (engine : Engine) (author : option Address) : BlockContext := {|
  GetHash := GetHashFn chain header;
  Coinbase := match author with None => engine_Author engine header | Some author => author end;
  GasLimit := hd_GasLimit header;
  BlockNumber := hd_Number header;
  Time := hd_Time header;
  Difficulty := hd_Difficulty header;
  BaseFee := default 0 (hd_BaseFee header)
|}.

Definition NewEVMTxContext (msg : Message) : TxContext := {| Origin := msg_from msg; GasPrice := msg_gasPrice msg |}.

(** [EVM.Reset] *)
Definition Reset (txCtx : TxContext) (s : S) (e : EVM S) : EVM S :=
  Build_EVM S (Context e) txCtx s (depth e) (chainRules e) (abort e) (callGasTemp e) (CallStack e) (ExTx e) (readOnly e)
    (returnData e) (jumpmaps e) (block_hashes e) (hashes_asked e).

(** ** consensus/misc/dao.go *)

Definition drain (s : S) (addr : Address) : S := SetBalance addr 0 (AddBalance DAORefundContract (GetBalance s addr) s).

Definition ApplyDAOHardFork (s : S) : S :=
  let s := if Exist s DAORefundContract then s else CreateAccount DAORefundContract s in
  foldl drain s DAODrainList.

(** ** consensus/ethash: the rewards of a block *)

Definition FrontierBlockReward : Z := 5000000000000000000.
Definition ByzantiumBlockReward : Z := 3000000000000000000.
Definition ConstantinopleBlockReward : Z := 2000000000000000000.

Definition block_reward (config : ChainConfig) (number : Z) : Z :=
  if Config.IsConstantinople config number then ConstantinopleBlockReward
  else if Config.IsByzantium config number then ByzantiumBlockReward
  else FrontierBlockReward.

(** What the miner of an uncle gets, and with it the miner of the block. *)
Definition uncle_reward (blockReward : Z) (header uncle : Header) : Z := (hd_Number uncle + 8 - hd_Number header) * blockReward / 8.

Definition accumulateRewards (config : ChainConfig) (s : S) (header : Header) (uncles : list Header) : S :=
  let blockReward := block_reward config (hd_Number header) in
  let '(s, reward) := foldl (λ '(s, reward) uncle,
    (AddBalance (hd_Coinbase uncle) (uncle_reward blockReward header uncle) s, reward + blockReward / 32)) (s, blockReward) uncles in
  AddBalance (hd_Coinbase header) reward s.

Definition with_Root (r : Hash) (h : Header) : Header :=
  mkHeader (hd_ParentHash h) (hd_UncleHash h) (hd_Coinbase h) r (hd_TxHash h) (hd_ReceiptHash h) (hd_Bloom h) (hd_Difficulty h)
    (hd_Number h) (hd_GasLimit h) (hd_GasUsed h) (hd_Time h) (hd_Extra h) (hd_MixDigest h) (hd_Nonce h) (hd_BaseFee h).

Definition ethash_Finalize (chain : Chain) (header : Header) (s : S) (txs : list Transaction) (uncles : list Header) : Go (S * Header) :=
  let s := accumulateRewards (chain_config chain) s header uncles in
  '(s, root) ← IntermediateRoot (Config.IsEIP158 (chain_config chain) (hd_Number header)) s;
  Ret (s, with_Root root header).

Definition ethash_engine : Engine := mkEngine Author ethash_Finalize.

(** ** Transactions *)

(** The state, the pool and the gas counted so far are shared with the caller. *)
Definition applyTransaction (msg : Message) (config : ChainConfig) (gp : Z) (blockNumber : Z) (blockHash : Hash)
    (tx : Transaction) (usedGas : Z) (evm : EVM S) : Res (EVM S * Z * Z * (CoreError + Receipt)) :=
  let evm := Reset (NewEVMTxContext msg) (statedb evm) evm in
  '(st, r) ← ApplyMessage NoBaseFee levels evm msg gp;
  let evm := st_evm st in
  match r with
  | inl err => Done (evm, st_gp st, usedGas, inl err)
  | inr result =>
      '(s, root) ← of_go (if Config.IsByzantium config blockNumber then (λ s, (s, [])) <$> Finalise true (statedb evm)
                          else (λ '(s, root), (s, Hash_Bytes root)) <$> IntermediateRoot (Config.IsEIP158 config blockNumber) (statedb evm));
      let usedGas := wrapU 64 (usedGas + UsedGas result) in
      let hash := snd (tx_Hash tx) in
      let logs := GetLogs s hash blockHash in
      let receipt bloom :=
        mkReceipt (txType (tx_inner tx)) root (if Failed result then ReceiptStatusFailed else ReceiptStatusSuccessful) usedGas bloom logs hash
          (match msg_to msg with None => CreateAddress (Origin (TxCtx evm)) (tx_nonce (tx_inner tx)) | Some _ => 0 end)
          (UsedGas result) blockHash blockNumber (wrapU 64 (TxIndex s)) in
      bloom ← of_go (BytesToBloom (CreateBloom [receipt []]));
      Done (set_statedb evm s, st_gp st, usedGas, inr (receipt bloom))
  end.

Inductive ApplyError :=
| TxRefused (err : TxError)
| MessageRefused (err : CoreError).

(** [ApplyTransaction] *)
Definition ApplyTransaction (config : ChainConfig) (chain : Chain) (engine : Engine) (author : option Address) (gp : Z) (s : S)
    (header : Header) (tx : Transaction) (usedGas : Z) : Res (S * Z * Z * (ApplyError + Receipt)) :=
  match tx_AsMessage (MakeSigner config (hd_Number header)) (hd_BaseFee header) tx with
  | (_, inl err) => Done (s, gp, usedGas, inl (TxRefused err))
  | (tx, inr msg) =>
      let evm := NewEVM (NewEVMBlockContext header chain engine author) {| Origin := 0; GasPrice := 0 |} s config no_tx in
      '(evm, gp, usedGas, r) ← applyTransaction msg config gp (hd_Number header) (Header_Hash header) tx usedGas evm;
      Done (statedb evm, gp, usedGas, match r with inl err => inl (MessageRefused err) | inr receipt => inr receipt end)
  end.

(** ** Blocks *)

Record Processing := mkProcessing {
  pr_evm : EVM S;
  pr_gp : Z;
  pr_usedGas : Z;
  pr_receipts : list Receipt;
  pr_logs : list Log;
  pr_db : Store
}.

(** "could not apply tx %d" *)
Record ProcessError := CouldNotApply { failed_index : Z; failed_hash : Hash; failed_err : ApplyError }.

Context (order : Z → gmap Z Hash → list Z).

(** [StateDB.Prepare]; the recorded block hashes are emptied with it. *)
Definition prepare (hash : Hash) (i : Z) (e : EVM S) : EVM S :=
  set_hashes (set_statedb e (Prepare hash i (statedb e))) ∅ (hashes_asked e).

(** What is recorded of a transaction. *)
Definition recorded_substate (header : Header) (msg : Message) (receipt : Receipt) (e : EVM S) : Substate :=
  mkSubstate (ResearchPreAlloc (statedb e)) (ResearchPostAlloc (statedb e)) (NewSubstateEnv header (block_hashes e))
    (NewSubstateMessage msg) (NewSubstateResult receipt).

Definition process_tx (config : ChainConfig) (header : Header) (i : Z) (tx : Transaction) (p : Processing)
    : Res (Processing * option ProcessError) :=
  match tx_AsMessage (MakeSigner config (hd_Number header)) (hd_BaseFee header) tx with
  | (tx, inl err) => Done (p, Some (CouldNotApply i (snd (tx_Hash tx)) (TxRefused err)))
  | (tx, inr msg) =>
      let evm := prepare (snd (tx_Hash tx)) i (pr_evm p) in
      '(evm, gp, usedGas, r) ←
        applyTransaction msg config (pr_gp p) (hd_Number header) (Header_Hash header) tx (pr_usedGas p) evm;
      match r with
      | inl err =>
          Done (mkProcessing evm gp usedGas (pr_receipts p) (pr_logs p) (pr_db p),
                Some (CouldNotApply i (snd (tx_Hash tx)) (MessageRefused err)))
      | inr receipt =>
          db ← of_go (PutSubstate (order i (block_hashes evm)) (pr_db p) (NumberU64 header) i
                        (recorded_substate header msg receipt evm));
          Done (mkProcessing evm gp usedGas (pr_receipts p ++ [receipt]) (pr_logs p ++ rcpt_Logs receipt) db, None)
      end
  end.

Fixpoint process_txs (config : ChainConfig) (header : Header) (i : Z) (txs : list Transaction) (p : Processing)
    : Res (Processing * option ProcessError) :=
  match txs with
  | [] => Done (p, None)
  | tx :: txs =>
      '(p, err) ← process_tx config header i tx p;
      match err with
      | Some err => Done (p, Some err)
      | None => process_txs config header (i + 1) txs p
      end
  end.

(** The DAO fork, if it is at this block: its accounts are not in a substate. *)
Definition apply_dao_fork (config : ChainConfig) (number : Z) (s : S) : Go S :=
  if DAOForkSupport config && bool_decide (DAOForkBlock config = Some number) then
    let s := ApplyDAOHardFork s in
    Finalise (if Config.IsByzantium config number then true else Config.IsEIP158 config number) s
  else Ret s.

(** [StateProcessor.Process]: the state and the database it leaves, and an error or
    the receipts, the logs and the gas used. *)
Definition Process (config : ChainConfig) (chain : Chain) (engine : Engine) (block : Block) (s : S) (db : Store)
    : Res (S * Store * (ProcessError + list Receipt * list Log * Z)) :=
  let header := blk_header block in
  gp ← of_go (AddGas 0 (hd_GasLimit header));
  s ← of_go (apply_dao_fork config (hd_Number header) s);
  let evm := NewEVM (NewEVMBlockContext header chain engine None) {| Origin := 0; GasPrice := 0 |} s config no_tx in
  '(p, err) ← process_txs config header 0 (blk_txs block) (mkProcessing evm gp 0 [] [] db);
  match err with
  | Some err => Done (statedb (pr_evm p), pr_db p, inl err)
  | None =>
      '(s, _) ← of_go (engine_Finalize engine chain header (statedb (pr_evm p)) (blk_txs block) (blk_uncles block));
      Done (s, pr_db p, inr (pr_receipts p, pr_logs p, pr_usedGas p))
  end.
End processor.

(** ** The hashes of earlier blocks *)

Section hash_facts.
Context (chain : Chain) (ref : Header).

(** A header is found under its own number, and none under the last word. *)
Definition numbered : Prop := ∀ h n hd, GetHeader chain h n = Some hd → hd_Number hd = n ∧ 0 ≤ n < 2 ^ 64 - 1.

(** The hash of the block [k + 1] before the one of [ref], by the parents in the headers. *)
Fixpoint ancestor (k : nat) : option Hash :=
  match k with
  | O => Some (hd_ParentHash ref)
  | S k => h ← ancestor k; hd ← GetHeader chain h (wrapU 64 (hd_Number ref - 1 - Z.of_nat k)); Some (hd_ParentHash hd)
  end.

Definition cached (cache : list Hash) : Prop := ∀ k h, cache !! k = Some h → ancestor k = Some h.

Lemma ancestor_gone k j : ancestor k = None → (k ≤ j)%nat → ancestor j = None.
Proof. intros Hk. induction 1 as [|j _ IH]; [done|]. cbn. by rewrite IH. Qed.

Lemma cached_snoc cache h : cached cache → ancestor (length cache) = Some h → cached (cache ++ [h]).
Proof.
  intros Hc Hh k x. destruct (decide (k < length cache)%nat); [rewrite lookup_app_l by done; apply Hc|].
  rewrite lookup_app_r by lia. intros Hx. pose proof (lookup_lt_Some _ _ _ Hx) as Hl. cbn in Hl.
  replace (k - length cache)%nat with 0%nat in Hx by lia. injection Hx as <-. by replace k with (length cache) by lia.
Qed.

Context (Hnum : numbered) (HN : 0 ≤ hd_Number ref < 2 ^ 64).

Lemma walk_back_spec fuel n cache h :
  0 ≤ n < 2 ^ 64 → cached cache → (1 ≤ length cache)%nat → Z.of_nat (length cache) ≤ hd_Number ref + 1 →
  ancestor (length cache - 1) = Some h → hd_Number ref + 1 - Z.of_nat (length cache) < Z.of_nat fuel →
  Z.of_nat (length cache) ≤ wrapU 64 (hd_Number ref - n - 1) →
  ∃ cache', walk_back chain fuel n cache h (wrapU 64 (hd_Number ref - Z.of_nat (length cache))) =
    Some (cache', default 0 (ancestor (Z.to_nat (wrapU 64 (hd_Number ref - n - 1))))) ∧
    cached cache' ∧ Z.of_nat (length cache') ≤ hd_Number ref + 1.
Proof.
  intros Hn. set (N := hd_Number ref) in *. set (idx := wrapU 64 (N - n - 1)). revert cache h.
  induction fuel as [|fuel IH]; intros cache h Hc Hl Hl' Hh Hf Hi; [lia|]. cbn [walk_back].
  set (m := length cache) in *. assert (ancestor m = hd ← GetHeader chain h (wrapU 64 (N - Z.of_nat m)); Some (hd_ParentHash hd)) as Hm.
  { destruct m as [|m']; [lia|]. cbn [ancestor]. replace (S m' - 1)%nat with m' in Hh by lia. rewrite Hh. cbn. fold N. by replace (N - 1 - Z.of_nat m') with (N - Z.of_nat (S m')) by lia. }
  destruct (GetHeader chain h (wrapU 64 (N - Z.of_nat m))) as [hd|] eqn:E; cbn in Hm.
  2: { exists cache. rewrite (ancestor_gone m) by (done || lia). done. }
  destruct (Hnum _ _ _ E) as [Hhd Hr]. rewrite Hhd.
  assert (Z.of_nat m ≤ N) as HmN.
  { destruct (decide (Z.of_nat m = N + 1)) as [Heq|]; [|lia]. rewrite Heq in Hr. replace (N - (N + 1)) with (-1) in Hr by lia.
    change (wrapU 64 (-1)) with (2 ^ 64 - 1) in Hr. lia. }
  rewrite (wrapU_small 64 (N - Z.of_nat m)) by lia. rewrite (wrapU_small 64 (N - Z.of_nat m)) by lia.
  assert (length (cache ++ [hd_ParentHash hd]) = S m) as Hlen by (rewrite length_app; cbn; lia).
  replace (N - Z.of_nat m - 1) with (N - Z.of_nat (S m)) by lia.
  assert (n = wrapU 64 (N - Z.of_nat (S m)) ↔ idx = Z.of_nat m) as Heq.
  { unfold idx, wrapU. split; intros He.
    - subst n.
      replace (N - (N - Z.of_nat (S m)) mod 2 ^ 64 - 1) with (N - 1 - (N - Z.of_nat (S m)) mod 2 ^ 64) by lia.
      rewrite Zminus_mod_idemp_r. replace (N - 1 - (N - Z.of_nat (S m))) with (Z.of_nat m) by lia. apply Z.mod_small. lia.
    - assert ((N - 1 - (N - n - 1) mod 2 ^ 64) mod 2 ^ 64 = (N - Z.of_nat (S m)) mod 2 ^ 64) as Hx by (rewrite He; f_equal; lia).
      rewrite Zminus_mod_idemp_r in Hx. replace (N - 1 - (N - n - 1)) with n in Hx by lia. rewrite <- Hx. symmetry. by apply Z.mod_small. }
  destruct (Z.eqb_spec n (wrapU 64 (N - Z.of_nat (S m)))) as [He|He].
  - exists (cache ++ [hd_ParentHash hd]). apply Heq in He. rewrite He, Nat2Z.id, Hm. split; [done|]. split; [by apply cached_snoc|]. rewrite Hlen. lia.
  - destruct (IH (cache ++ [hd_ParentHash hd]) (hd_ParentHash hd)) as (cache' & E' & Hc'); rewrite ?Hlen; try lia.
    + by apply cached_snoc.
    + by replace (S m - 1)%nat with m by lia.
    + rewrite Hlen in E'. by exists cache'.
Qed.

(** What is cached never shows: a hash is the one the headers lead to, and [0] if
    they lead nowhere. *)
Lemma get_hash_cached cache n :
  0 ≤ n < 2 ^ 64 → cached cache → Z.of_nat (length cache) ≤ hd_Number ref + 1 →
  ∃ cache', get_hash chain ref cache n =
    Some (cache', default 0 (ancestor (Z.to_nat (wrapU 64 (hd_Number ref - n - 1))))) ∧
    cached cache' ∧ Z.of_nat (length cache') ≤ hd_Number ref + 1.
Proof.
  intros Hn Hc Hl. unfold get_hash. cbv zeta. rewrite (wrapU_small 64 (hd_Number ref)) by lia.
  set (cache0 := match cache with [] => _ | _ => _ end). set (idx := wrapU 64 (hd_Number ref - n - 1)).
  assert (cached cache0 ∧ (1 ≤ length cache0)%nat ∧ Z.of_nat (length cache0) ≤ hd_Number ref + 1) as (Hc0 & Hl0 & Hl1).
  { destruct cache; [|by split_and!; [|cbn; lia|]]. split_and!; [|cbn; lia..]. by intros [|k] h; [intros [= <-]|]. }
  clearbody cache0. assert (0 ≤ idx) as Hi by (apply wrapU_range; done).
  destruct (Z.ltb_spec idx (Z.of_nat (length cache0))) as [Hlt|Hge].
  - destruct (lookup_lt_is_Some_2 cache0 (Z.to_nat idx)) as [h Hh]; [lia|]. rewrite Hh. exists cache0.
    rewrite (Hc0 _ _ Hh). by split_and!.
  - apply walk_back_spec; try done; try lia. rewrite last_lookup. destruct (lookup_lt_is_Some_2 cache0 (pred (length cache0))) as [h Hh]; [lia|].
    rewrite Hh. cbn. replace (length cache0 - 1)%nat with (pred (length cache0)) by lia. by apply Hc0.
Qed.

Lemma GetHashFn_ancestor n : 0 ≤ n < hd_Number ref → GetHashFn chain ref n = default 0 (ancestor (Z.to_nat (hd_Number ref - 1 - n))).
Proof.
  intros Hn. unfold GetHashFn. destruct (get_hash_cached [] n) as (cache' & -> & _); [lia|by intros [|k] h|cbn; lia|].
  rewrite wrapU_small by lia. by replace (hd_Number ref - n - 1) with (hd_Number ref - 1 - n) by lia.
Qed.
End hash_facts.

(** ** Transactions and their messages *)

Lemma AsMessage_message msg : AsMessage (NewSubstateMessage msg) = msg.
Proof. destruct msg as [? ? ? ? ? ? ? ? ? ? f]. unfold AsMessage, NewSubstateMessage, NewMessage. cbn. by rewrite negb_involutive. Qed.

Lemma AsMessage_plain m : AsMessage (plain_message m) = AsMessage m.
Proof. done. Qed.

Section messages.
Context `{Externals} `{Secp256k1}.

Lemma tx_AsMessage_same s fee tx tx' r :
  tx_AsMessage s fee tx = (tx', r) →
  tx_inner tx' = tx_inner tx ∧ snd (tx_Hash tx') = snd (tx_Hash tx) ∧
  match r with inr msg => msg_gasLimit msg = tx_gas (tx_inner tx) | inl _ => True end.
Proof.
  unfold tx_AsMessage, Sender. cbv zeta. intros Ha.
  assert (tx' = tx ∨ ∃ c, tx' = mkTransaction (tx_inner tx) (tx_time tx) (tx_hash tx) (tx_size tx) c) as Htx.
  { destruct (tx_from tx) as [[s' from]|]; [destruct (Signer_Equal s' s)|];
      try destruct (Signer_Sender s (tx_inner tx)); injection Ha as <- <-; eauto. }
  assert (match r with inr msg => msg_gasLimit msg = tx_gas (tx_inner tx) | inl _ => True end) as Hg.
  { destruct (tx_from tx) as [[s' from]|]; [destruct (Signer_Equal s' s)|];
      try destruct (Signer_Sender s (tx_inner tx)); by injection Ha as <- <-. }
  destruct Htx as [->|(c & ->)]; [done|]. split_and!; [done| |done].
  unfold tx_Hash. cbn [tx_hash tx_inner]. by destruct (tx_hash tx).
Qed.
End messages.

(** ** Blocks *)

(** The refund counter stays a word when a transaction begins and ends. *)
Class ProcessorLaws (S : Type) `{StateDB S, !RefundLaws S, !ReplayState S, !ProcessorState S} : Prop := {
  prepare_refund h i s : refund_ok s → refund_ok (Prepare h i s);
  finalise_refund b s s' : refund_ok s → Finalise b s = Ret s' → refund_ok s';
  root_refund b s s' r : refund_ok s → IntermediateRoot b s = Ret (s', r) → refund_ok s';
  balance_refund a x s : refund_ok s → refund_ok (SetBalance a x s)
}.

Section process_facts.
Context {S : Type} `{HS : StateDB S} `{!RefundLaws S} `{!ReplayState S} `{!ProcessorState S} `{!ProcessorLaws S}.
Context `{U : Uint256} `{!Uint256Range U} `{X : Externals} `{!ExternalsRange X} `{B : !Backend} `{!StoreLaws} `{K : Secp256k1}.
Context (NoBaseFee : bool) (levels : nat) (order : Z → gmap Z Hash → list Z).
Context (Hlevels : CallCreateDepth < Z.of_nat levels).

(** The machine that the [i]-th transaction, of hash [h], starts from: that of the
    transaction before it, with the state prepared for the transaction, its origin and
    price, and no block hashes. *)
Definition begin_tx (h : Hash) (i : Z) (msg : Message) (e : EVM S) : EVM S :=
  Build_EVM S (Context e) {| Origin := msg_from msg; GasPrice := msg_gasPrice msg |} (Prepare h i (statedb e))
    (depth e) (chainRules e) (abort e) (callGasTemp e) (CallStack e) (ExTx e) (readOnly e) (returnData e) (jumpmaps e)
    ∅ (hashes_asked e).

(** How the state is closed after a transaction: finalised, and before Byzantium
    hashed; [root] is what the receipt has of the hash. *)
Definition closed (config : ChainConfig) (number : Z) (s s' : S) (root : bytes) : Prop :=
  if Config.IsByzantium config number then Finalise true s = Ret s' ∧ root = []
  else ∃ r, IntermediateRoot (Config.IsEIP158 config number) s = Ret (s', r) ∧ root = Hash_Bytes r.

(** The receipt of a message that was applied with the result [res], after [used] gas
    in the block; [s] is the closed state. *)
Record receipt_of (header : Header) (tx : Transaction) (msg : Message) (used : Z) (res : ExecutionResult) (s : S) (root : bytes)
    (rc : Receipt) : Prop := {
  rc_gas : rcpt_GasUsed rc = UsedGas res ∧ 0 ≤ UsedGas res ≤ msg_gasLimit msg;
  rc_total : rcpt_CumulativeGasUsed rc = used + UsedGas res;
  rc_tx : rcpt_Type rc = txType (tx_inner tx) ∧ rcpt_TxHash rc = snd (tx_Hash tx);
  rc_block : rcpt_BlockHash rc = Header_Hash header ∧ rcpt_BlockNumber rc = hd_Number header ∧
    rcpt_TransactionIndex rc = wrapU 64 (TxIndex s);
  rc_status : rcpt_Status rc = (if decide (Err res = None) then ReceiptStatusSuccessful else ReceiptStatusFailed);
  rc_root : rcpt_PostState rc = root;
  rc_contract : rcpt_ContractAddress rc =
    match msg_to msg with None => CreateAddress (msg_from msg) (tx_nonce (tx_inner tx)) | Some _ => 0 end;
  rc_logs : rcpt_Logs rc = GetLogs s (snd (tx_Hash tx)) (Header_Hash header);
  rc_bloom : rcpt_Bloom rc = LogsBloom (rcpt_Logs rc)
}.

(** The [i]-th transaction takes the machine [e] to [e'], with the receipt [rc]. *)
Definition transacted (config : ChainConfig) (header : Header) (i used : Z) (tx : Transaction) (msg : Message)
    (e e' : EVM S) (rc : Receipt) : Prop :=
  ∃ st res s root,
    let e0 := begin_tx (snd (tx_Hash tx)) i msg e in
    ApplyMessage NoBaseFee levels e0 msg (hd_GasLimit header - used) = Done (st, inr res) ∧
    settled e0 msg (hd_GasLimit header - used) st res ∧
    closed config (hd_Number header) (statedb (st_evm st)) s root ∧
    e' = set_statedb (st_evm st) s ∧ receipt_of header tx msg used res s root rc.

(** The substate of a transaction that ended in the machine [e']. *)
Definition substate_of (header : Header) (msg : Message) (e' : EVM S) (rc : Receipt) (sub : Substate) : Prop :=
  InputAlloc sub = ResearchPreAlloc (statedb e') ∧ OutputAlloc sub = ResearchPostAlloc (statedb e') ∧
  sub_Env sub = NewSubstateEnv header (block_hashes e') ∧
  sub_Message sub = NewSubstateMessage msg ∧ sub_Result sub = NewSubstateResult rc.

Definition tx_message (config : ChainConfig) (header : Header) (tx : Transaction) : TxError + Message :=
  snd (tx_AsMessage (MakeSigner config (hd_Number header)) (hd_BaseFee header) tx).

Lemma finishes_impl {A : Type} (P Q : A → Prop) (m : Res A) : (∀ a, P a → Q a) → finishes P m → finishes Q m.
Proof. destruct m; cbn; auto. Qed.

Lemma CreateBloom_one rc : CreateBloom [rc] = LogsBloom (rcpt_Logs rc).
Proof. done. Qed.

Definition applied (config : ChainConfig) (header : Header) (tx : Transaction) (msg : Message) (gp used : Z) (e : EVM S)
    (x : EVM S * Z * Z * (CoreError + Receipt)) : Prop :=
  let '(e', gp', used', r) := x in
  let e0 := Reset (NewEVMTxContext msg) (statedb e) e in
  match r with
  | inl err => used' = used ∧ ∃ st, ApplyMessage NoBaseFee levels e0 msg gp = Done (st, inl err) ∧ e' = st_evm st
  | inr rc => fresh e' ∧ refund_ok (statedb e') ∧ gp' = gp - rcpt_GasUsed rc ∧
      rcpt_GasUsed rc ≤ gp ∧ used' = used + rcpt_GasUsed rc ∧
      ∃ st res s root, ApplyMessage NoBaseFee levels e0 msg gp = Done (st, inr res) ∧ settled e0 msg gp st res ∧
        closed config (hd_Number header) (statedb (st_evm st)) s root ∧
        e' = set_statedb (st_evm st) s ∧ receipt_of header tx msg used res s root rc
  end.

Lemma applyTransaction_spec config header msg tx gp used e :
  fresh e → refund_ok (statedb e) → 0 ≤ gp → 0 ≤ used → gp + used < 2 ^ 64 → 0 ≤ msg_gasLimit msg < 2 ^ 64 →
  finishes (applied config header tx msg gp used e)
    (applyTransaction NoBaseFee levels msg config gp (hd_Number header) (Header_Hash header) tx used e).
Proof.
  intros Hf Hok Hgp Hu Hb Hg. unfold applyTransaction. cbv zeta. set (e0 := Reset _ _ e).
  assert (0 ≤ gp < 2 ^ 64) as Hgp' by lia.
  pose proof (checked_settles levels e0 msg gp (preCheck NoBaseFee) Hlevels Hf Hok Hgp' Hg (proj1 (preCheck_spec NoBaseFee e0 msg gp Hgp' Hg))) as Hs.
  change ((_ ← preCheck NoBaseFee; transition levels) (NewStateTransition e0 msg gp)) with (ApplyMessage NoBaseFee levels e0 msg gp) in Hs.
  destruct (ApplyMessage NoBaseFee levels e0 msg gp) as [[st [err|res]]|p|] eqn:Eapp; [cbn; eauto| |done|done].
  cbn [outcome] in Hs. destruct Hs as [Hle Hs]. pose proof Hs as Hsettled.
  pose proof (settled_used e0 msg gp st res Hok (proj1 Hg) Hs) as Hused.
  destruct Hs as [Hpool Hstack _ (Hdepth & _ & Hrules & _ & Hctx & _) (intrinsic & u & s1 & _ & _ & _ & Hch & Hst)].
  assert (refund_ok (statedb (st_evm st))) as Hok'.
  { rewrite Hst. do 2 (eapply refund_changes; [|apply chg_add]). eapply refund_changes; [|exact Hch]. eapply refund_changes; [exact Hok|apply chg_sub]. }
  assert (fresh (st_evm st)) as Hf' by (destruct Hf as (? & ? & ?); split; [by rewrite Hdepth|]; by rewrite Hrules).
  cbn [mbind Res_bind]. eapply (finishes_bind (λ '(s, root), refund_ok s ∧ closed config (hd_Number header) (statedb (st_evm st)) s root)).
  { apply finishes_go. intros [s root]. unfold closed. destruct (Config.IsByzantium config (hd_Number header)).
    - destruct (Finalise true (statedb (st_evm st))) as [s'|] eqn:E; [|done]. intros [= <- <-].
      split; [exact (finalise_refund _ _ _ Hok' E)|done].
    - destruct (IntermediateRoot _ (statedb (st_evm st))) as [[s' r]|] eqn:E; [|done]. intros [= <- <-].
      split; [exact (root_refund _ _ _ _ Hok' E)|by exists r]. }
  intros [s root] [Hs Hclosed]. rewrite CreateBloom_one, BytesToBloom_LogsBloom. cbn [of_go mbind Res_bind finishes applied].
  rewrite wrapU_small by lia. split; [exact Hf'|]. split; [exact Hs|]. cbn [rcpt_GasUsed].
  split; [lia|]. split; [lia|]. split; [done|]. exists st, res, s, root.
  split; [exact Eapp|]. split; [exact Hsettled|]. split; [exact Hclosed|]. split; [done|].
  split; cbn; try done.
  - unfold Failed. by destruct (Err res).
  - by rewrite Hctx.
Qed.

(** The gas that is left and the gas used make the limit of the block. *)
Record going (header : Header) (used : Z) (p : Processing (S := S)) : Prop := {
  going_fresh : fresh (pr_evm p);
  going_state : refund_ok (statedb (pr_evm p));
  going_used : pr_usedGas p = used;
  going_gas : 0 ≤ used ≤ hd_GasLimit header;
  going_pool : pr_gp p = hd_GasLimit header - used
}.

(** The transactions [txs] from the [i]-th on, after [used] gas, take the machine [e]
    and the database [db] to [e'] and [db']: each with its message, its receipt and its
    substate, which is put into the database. *)
Inductive run_of (config : ChainConfig) (header : Header) :
    Z → Z → EVM S → Store → list Transaction → list (Message * Receipt * Substate) → Z → EVM S → Store → Prop :=
| run_nil i used e db : run_of config header i used e db [] [] used e db
| run_cons i used e db tx txs msg rc sub e1 db1 xs used' e' db' :
    tx_message config header tx = inr msg →
    transacted config header i used tx msg e e1 rc →
    substate_of header msg e1 rc sub →
    PutSubstate (order i (env_BlockHashes (sub_Env sub))) db (NumberU64 header) i sub = Ret db1 →
    run_of config header (i + 1) (used + rcpt_GasUsed rc) e1 db1 txs xs used' e' db' →
    run_of config header i used e db (tx :: txs) ((msg, rc, sub) :: xs) used' e' db'.

(** Why the [i]-th transaction [tx] was not applied in the machine [e], and the
    state [s'] that the refusal leaves. *)
Definition refused (config : ChainConfig) (header : Header) (i used : Z) (tx : Transaction) (err : ProcessError)
    (e : EVM S) (s' : S) : Prop :=
  failed_index err = i ∧ failed_hash err = snd (tx_Hash tx) ∧
  match failed_err err with
  | TxRefused terr => tx_message config header tx = inl terr ∧ s' = statedb e
  | MessageRefused cerr =>
      ∃ msg st, let e0 := begin_tx (snd (tx_Hash tx)) i msg e in
        tx_message config header tx = inr msg ∧
        ApplyMessage NoBaseFee levels e0 msg (hd_GasLimit header - used) = Done (st, inl cerr) ∧
        refusal_reason e0 msg (hd_GasLimit header - used) cerr ∧ s' = statedb (st_evm st)
  end.

Definition stepped (config : ChainConfig) (header : Header) (i : Z) (tx : Transaction) (used : Z) (p : Processing (S := S))
    (x : Processing (S := S) * option ProcessError) : Prop :=
  let '(p', err) := x in
  match err with
  | Some err => refused config header i used tx err (pr_evm p) (statedb (pr_evm p')) ∧ pr_db p' = pr_db p
  | None => ∃ msg rc sub,
      run_of config header i used (pr_evm p) (pr_db p) [tx] [(msg, rc, sub)] (used + rcpt_GasUsed rc) (pr_evm p') (pr_db p') ∧
      going header (used + rcpt_GasUsed rc) p' ∧ pr_receipts p' = pr_receipts p ++ [rc] ∧ pr_logs p' = pr_logs p ++ rcpt_Logs rc
  end.

Definition gas_ok (tx : Transaction) : Prop := 0 ≤ tx_gas (tx_inner tx) < 2 ^ 64.

Lemma begin_tx_prepared h i msg (e : EVM S) :
  Reset (NewEVMTxContext msg) (statedb (prepare h i e)) (prepare h i e) = begin_tx h i msg e.
Proof. done. Qed.

Lemma process_tx_spec config header i tx used p :
  going header used p → hd_GasLimit header < 2 ^ 64 → gas_ok tx →
  finishes (stepped config header i tx used p) (process_tx NoBaseFee levels order config header i tx p).
Proof.
  intros [Hf Hok Hu Hg Hp] Hl Htx. unfold process_tx.
  destruct (tx_AsMessage _ _ tx) as [tx' [err|msg]] eqn:Em; destruct (tx_AsMessage_same _ _ _ _ _ Em) as (Hin & Hh & Hgas).
  { cbn. rewrite Hh. split; [|done]. split; [done|]. split; [done|]. cbn. unfold tx_message. by rewrite Em. }
  assert (tx_message config header tx = inr msg) as Hmsg by (unfold tx_message; by rewrite Em).
  assert (refund_ok (statedb (prepare (snd (tx_Hash tx')) i (pr_evm p)))) as Hprep by by apply prepare_refund.
  assert (0 ≤ msg_gasLimit msg < 2 ^ 64) as Hlimit by (rewrite Hgas; exact Htx).
  cbv zeta. eapply finishes_bind.
  - apply (applyTransaction_spec config header msg tx' (pr_gp p) (pr_usedGas p)); [exact Hf|exact Hprep|lia|lia|lia|exact Hlimit].
  - intros [[[e gp] used'] [err|rc]] Ha; unfold applied in Ha; rewrite begin_tx_prepared, Hh, Hp in Ha.
    { destruct Ha as (-> & st & Ha & ->). cbn. rewrite Hh. split; [|done]. split; [done|]. split; [done|]. cbn.
      exists msg, st. split; [done|]. split; [exact Ha|]. split; [|done].
      eapply ApplyMessage_refused; [exact Hlevels|exact Hf| |lia|exact Hlimit|exact Ha]. by apply prepare_refund. }
    destruct Ha as (Hf' & Hok' & -> & Hle & -> & st & res & s & root & Happ & Hset & Hcl & -> & Hrc). rewrite Hu in *.
    destruct (PutSubstate _ _ _ _ _) as [db|] eqn:Ep; [|done]. cbn [of_go mbind Res_bind finishes stepped].
    pose proof (rc_gas _ _ _ _ _ _ _ _ Hrc) as [Hgas1 Hgas2].
    eexists msg, rc, _. split_and!; [|split; cbn; done || lia|done|done].
    eapply run_cons; [exact Hmsg| | |exact Ep|apply run_nil]; [|by split_and!].
    exists st, res, s, root. split; [exact Happ|]. split; [exact Hset|]. split; [exact Hcl|]. split; [done|].
    destruct Hrc as [R1 R2 R3 R4 R5 R6 R7 R8 R9]. rewrite Hh, Hin in *. by split.
Qed.

Lemma run_of_app config header i used e db txs xs used1 e1 db1 txs' xs' used' e' db' :
  run_of config header i used e db txs xs used1 e1 db1 →
  run_of config header (i + Z.of_nat (length xs)) used1 e1 db1 txs' xs' used' e' db' →
  run_of config header i used e db (txs ++ txs') (xs ++ xs') used' e' db'.
Proof.
  induction 1 as [|i used e db tx txs msg rc sub e1 db1 xs used1 e2 db2 Hm Ht Hs Hp _ IH]; intros H'.
  - cbn in H'. by rewrite Z.add_0_r in H'.
  - cbn [app]. eapply run_cons; [done..|]. apply IH. cbn [length] in H'. by replace (i + 1 + Z.of_nat (length xs)) with (i + Z.of_nat (Datatypes.S (length xs))) by lia.
Qed.

(** What was processed of [txs]. *)
Definition processed (config : ChainConfig) (header : Header) (i : Z) (txs : list Transaction) (used : Z) (p p' : Processing (S := S))
    (err : option ProcessError) : Prop :=
  ∃ xs used' e', run_of config header i used (pr_evm p) (pr_db p) (take (length xs) txs) xs used' e' (pr_db p') ∧
    used' ≤ hd_GasLimit header ∧
    match err with
    | None => length xs = length txs ∧ going header used' p' ∧ e' = pr_evm p' ∧
        pr_receipts p' = pr_receipts p ++ (snd ∘ fst <$> xs) ∧ pr_logs p' = pr_logs p ++ ((snd ∘ fst <$> xs) ≫= rcpt_Logs)
    | Some err => ∃ tx, txs !! length xs = Some tx ∧
        refused config header (i + Z.of_nat (length xs)) used' tx err e' (statedb (pr_evm p'))
    end.

Lemma process_txs_spec config header txs i used p :
  going header used p → hd_GasLimit header < 2 ^ 64 → Forall gas_ok txs →
  finishes (λ '(p', err), processed config header i txs used p p' err) (process_txs NoBaseFee levels order config header i txs p).
Proof.
  intros Hp Hl. revert i used p Hp. induction txs as [|tx txs IH]; intros i used p Hp Htx.
  { cbn. exists [], used, (pr_evm p). split; [apply run_nil|]. pose proof (going_gas _ _ _ Hp). split; [lia|]. cbn.
    rewrite !app_nil_r. done. }
  apply Forall_cons in Htx as [Htx Htxs]. cbn [process_txs].
  eapply finishes_bind; [by apply process_tx_spec|]. intros [p1 [err|]] Hstep; cbn in Hstep.
  - destruct Hstep as (Hr & Hdb). cbn. exists [], used, (pr_evm p). cbn. rewrite Hdb. split; [apply run_nil|]. destruct Hp.
    split; [lia|]. exists tx. by rewrite Z.add_0_r.
  - destruct Hstep as (msg & rc & sub & Hrun & Hg & Hrc & Hlog). eapply finishes_impl; [|by apply IH].
    intros [p' err] (xs & used' & e' & Hrun' & Hle & Herr). exists ((msg, rc, sub) :: xs), used', e'. split; [|split; [done|]].
    + apply (run_of_app _ _ _ _ _ _ [tx] [(msg, rc, sub)] _ _ _ _ _ _ _ _ Hrun). exact Hrun'.
    + destruct err as [err|]; cbn [length].
      * destruct Herr as (tx' & Hx & Hr). exists tx'. split; [done|].
        by replace (i + Z.of_nat (Datatypes.S (length xs))) with (i + 1 + Z.of_nat (length xs)) by lia.
      * destruct Herr as (Hlen & Hg' & He & Hr' & Hl'). split; [cbn; lia|]. split; [done|]. split; [done|].
        rewrite Hr', Hl', Hrc, Hlog, <- !app_assoc. done.
Qed.

(** ** What was recorded is read back *)

(** Codes with different contents have different hashes. *)
Definition codes_apart (codes : list bytes) : Prop :=
  ∀ c c', c ∈ codes → c' ∈ codes → Keccak256Hash c = Keccak256Hash c' → c = c'.

Lemma put_keeps o s db n i db' j o' s' codes :
  storable o s → PutSubstate o db n i s = Ret db' → holds db n j o' s' →
  0 ≤ n < 2 ^ 64 → 0 ≤ i < 2 ^ 63 → 0 ≤ j < 2 ^ 63 → j ≠ i →
  codes_apart codes → substate_codes s ⊆ codes → substate_codes s' ⊆ codes → holds db' n j o' s'.
Proof.
  intros Hs Hp [(value & Hg & Hd) Hc] Hn Hi Hj Hne Hapart Hin Hin'.
  destruct (PutSubstate_spec o db n i s Hs) as (db1 & Hp' & _ & Hk). rewrite Hp in Hp'. injection Hp' as <-. split.
  - exists value. split; [|done]. destruct (Hk (Stage1SubstateKey n j)) as [->|(c & _ & He & _)]; [|done|].
    + intros He. apply Hne. assert (DecodeStage1SubstateKey (Stage1SubstateKey n j) = DecodeStage1SubstateKey (Stage1SubstateKey n i)) as Hdec by by rewrite He.
      rewrite !substate_key_decode in Hdec by lia. by injection Hdec.
    + symmetry in He. by apply code_key_ne in He.
  - intros c Hcs. specialize (Hc c Hcs). unfold GetCode in *. destruct (_ =? _); [done|].
    destruct (Hk (Stage1CodeKey (Keccak256Hash c))) as [->|(c' & Hc' & He & ->)]; [by apply code_key_ne|done|].
    apply code_key_inj in He. f_equal. symmetry. apply Hapart; [by apply Hin'|by apply Hin|done].
Qed.

(** The substates of a run can be stored. *)
Definition all_storable (i : Z) (subs : list Substate) : Prop :=
  ∀ k sub, subs !! k = Some sub → storable (order (i + Z.of_nat k) (env_BlockHashes (sub_Env sub))) sub.

Lemma all_storable_cons i sub subs :
  all_storable i (sub :: subs) → storable (order i (env_BlockHashes (sub_Env sub))) sub ∧ all_storable (i + 1) subs.
Proof.
  intros Ha. split; [specialize (Ha 0%nat sub eq_refl); by rewrite Z.add_0_r in Ha|].
  intros k s Hk. specialize (Ha (Datatypes.S k) s Hk). by replace (i + 1 + Z.of_nat k) with (i + Z.of_nat (Datatypes.S k)) by lia.
Qed.

Lemma run_holds config header i used e db txs xs used' e' db' codes :
  run_of config header i used e db txs xs used' e' db' → all_storable i (snd <$> xs) →
  codes_apart codes → Forall (λ s, substate_codes s ⊆ codes) (snd <$> xs) →
  0 ≤ i → i + Z.of_nat (length xs) ≤ 2 ^ 63 →
  (∀ k x, xs !! k = Some x →
     holds db' (NumberU64 header) (i + Z.of_nat k) (order (i + Z.of_nat k) (env_BlockHashes (sub_Env (snd x)))) (snd x)) ∧
  (∀ j o s, 0 ≤ j < i → substate_codes s ⊆ codes → holds db (NumberU64 header) j o s → holds db' (NumberU64 header) j o s).
Proof.
  assert (0 ≤ NumberU64 header < 2 ^ 64) as Hn by by apply wrapU_range.
  intros Hrun Hst Hapart. revert Hst.
  induction Hrun as [|i used e db tx txs msg rc sub e1 db1 xs used1 e2 db2 Hm Hr Hsub Hp _ IH]; intros Hst Hcodes Hi Hl.
  { split; [done|]. intros j o s Hj Hs Hh. exact Hh. }
  cbn [fmap list_fmap snd] in *. apply all_storable_cons in Hst as [Hst Hsts]. apply Forall_cons in Hcodes as [Hcode Hcodes].
  cbn [length] in Hl.
  destruct (IH Hsts Hcodes ltac:(lia) ltac:(lia)) as [IH1 IH2]. split.
  - intros [|k] x Hx.
    + injection Hx as <-. rewrite Z.add_0_r. cbn [snd]. apply IH2; [lia|done|].
      destruct (PutSubstate_spec _ db (NumberU64 header) i _ Hst) as (db' & Hp' & Hh & _). rewrite Hp in Hp'. by injection Hp' as <-.
    + specialize (IH1 k x Hx). by replace (i + Z.of_nat (Datatypes.S k)) with (i + 1 + Z.of_nat k) by lia.
  - intros j o s Hj Hs Hh. apply IH2; [lia|done|]. eapply (put_keeps _ _ db _ i db1 j); try done; lia.
Qed.

Lemma run_of_length config header i used e db txs xs used' e' db' :
  run_of config header i used e db txs xs used' e' db' → length xs = length txs.
Proof. induction 1; cbn; congruence. Qed.

(** The [k]-th transaction of a run. *)
Lemma run_of_at config header i used e db txs xs used' e' db' k msg rc sub :
  run_of config header i used e db txs xs used' e' db' → xs !! k = Some (msg, rc, sub) →
  ∃ ek, substate_of header msg ek rc sub.
Proof.
  intros Hrun. revert k. induction Hrun as [|i used e db tx txs m r su e1 db1 xs used1 e2 db2 Hm Hr Hs Hp _ IH]; intros [|k] Hk; try done.
  - injection Hk as -> -> ->. by exists e1.
  - by apply (IH k).
Qed.

(** A replay of the block runs in the context the block was processed in, but for
    the hashes it may ask for. *)
Definition same_block (b b' : BlockContext) : Prop :=
  Coinbase b = Coinbase b' ∧ GasLimit b = GasLimit b' ∧ BlockNumber b = BlockNumber b' ∧ Time b = Time b' ∧
  Difficulty b = Difficulty b' ∧ BaseFee b = BaseFee b'.

Lemma env_same_block (engine : Engine (S := S)) header chain hashes :
  engine_Author engine header = hd_Coinbase header → 0 ≤ hd_Number header < 2 ^ 64 →
  same_block (block_context (NewSubstateEnv header hashes)) (NewEVMBlockContext header chain engine None).
Proof. intros Ha Hn. unfold same_block. cbn. rewrite Ha. unfold NumberU64. rewrite wrapU_small by lia. done. Qed.

Lemma ApplyDAOHardFork_ok s : refund_ok s → refund_ok (ApplyDAOHardFork s).
Proof.
  intros Hs. unfold ApplyDAOHardFork. cbv zeta.
  assert (refund_ok (if Exist s DAORefundContract then s else CreateAccount DAORefundContract s)) as H0
    by (destruct (Exist s DAORefundContract); [done|eapply refund_changes; [exact Hs|apply chg_create]]).
  revert H0. generalize (if Exist s DAORefundContract then s else CreateAccount DAORefundContract s).
  induction DAODrainList as [|a l IH]; intros s' Hs'; [done|]. cbn. apply IH. unfold drain.
  apply balance_refund. eapply refund_changes; [exact Hs'|apply chg_add].
Qed.

Lemma apply_dao_fork_ok config number s s' : refund_ok s → apply_dao_fork config number s = Ret s' → refund_ok s'.
Proof.
  intros Hs. unfold apply_dao_fork. destruct (_ && _); [|by intros [= <-]]. cbv zeta. intros E.
  eapply finalise_refund; [apply ApplyDAOHardFork_ok, Hs|exact E].
Qed.

(** The state in which a block at the DAO fork starts has the accounts of the DAO
    drained, and finalised by the rules of the block. *)
Definition dao_forked (config : ChainConfig) (number : Z) (s s1 : S) : Prop :=
  if DAOForkSupport config && bool_decide (DAOForkBlock config = Some number)
  then Finalise (Config.IsByzantium config number || Config.IsEIP158 config number) (ApplyDAOHardFork s) = Ret s1
  else s1 = s.

Lemma apply_dao_forked config number s s1 : apply_dao_fork config number s = Ret s1 → dao_forked config number s s1.
Proof.
  unfold apply_dao_fork, dao_forked. destruct (_ && _); [|by intros [= <-]]. cbv zeta.
  by destruct (Config.IsByzantium config number).
Qed.

(** The outcome of [Process]: what was applied of the block, and how it ended. *)
Definition block_processed (config : ChainConfig) (chain : Chain) (engine : Engine (S := S)) (block : Block) (s : S) (db : Store)
    (s' : S) (db' : Store) (xs : list (Message * Receipt * Substate)) (r : ProcessError + list Receipt * list Log * Z) : Prop :=
  let header := blk_header block in
  ∃ s1 used e, dao_forked config (hd_Number header) s s1 ∧
    run_of config header 0 0
      (NewEVM (NewEVMBlockContext header chain engine None) {| Origin := 0; GasPrice := 0 |} s1 config no_tx) db
      (take (length xs) (blk_txs block)) xs used e db' ∧
    used ≤ hd_GasLimit header ∧
    match r with
    | inr (receipts, logs, gas) =>
        length xs = length (blk_txs block) ∧ receipts = (snd ∘ fst <$> xs) ∧ logs = receipts ≫= rcpt_Logs ∧ gas = used ∧
        ∃ h, engine_Finalize engine chain header (statedb e) (blk_txs block) (blk_uncles block) = Ret (s', h)
    | inl err => ∃ tx, blk_txs block !! length xs = Some tx ∧
        refused config header (Z.of_nat (length xs)) used tx err e s'
    end.

Lemma Process_spec config chain engine block s db :
  ordered_rules (Config.Rules config (hd_Number (blk_header block))) → refund_ok s →
  0 ≤ hd_GasLimit (blk_header block) < 2 ^ 64 → Forall gas_ok (blk_txs block) →
  finishes (λ '(s', db', r), ∃ xs, block_processed config chain engine block s db s' db' xs r)
    (Process NoBaseFee levels order config chain engine block s db).
Proof.
  intros Hord Hs Hg Htx. unfold Process. cbv zeta. set (header := blk_header block) in *.
  eapply finishes_bind.
  { apply (finishes_go (λ gp, gp = hd_GasLimit header)). unfold AddGas, MaxUint64. intros gp.
    destruct (Z.ltb_spec (2 ^ 64 - 1 - hd_GasLimit header) 0); [lia|]. intros [= <-]. by rewrite wrapU_small by lia. }
  intros gp ->. eapply (finishes_bind (λ s1, refund_ok s1 ∧ dao_forked config (hd_Number header) s s1)).
  { apply finishes_go. intros s1 E. split; [by eapply apply_dao_fork_ok|by apply apply_dao_forked]. }
  intros s1 [Hs1 Hdao]. eapply finishes_bind.
  { apply (process_txs_spec config header (blk_txs block) 0 0); [|lia|done]. split; cbn; try done; try lia. }
  intros [p err] (xs & used & e & Hrun & Hle & Herr). cbn [pr_evm pr_db] in Hrun. destruct err as [err|].
  - cbn. exists xs, s1, used, e. split; [done|]. split; [done|]. split; [done|]. exact Herr.
  - destruct Herr as (Hlen & [_ _ Hu _ _] & -> & Hrc & Hlog). cbn in Hrc, Hlog.
    eapply (finishes_bind (λ '(s', h), engine_Finalize engine chain header (statedb (pr_evm p)) (blk_txs block) (blk_uncles block) = Ret (s', h))).
    { apply finishes_go. by intros [s' h]. }
    intros [s' h] Hfin. cbn. exists xs, s1, used, (pr_evm p).
    split; [done|]. split; [done|]. split; [done|]. split_and!; [done|done|by rewrite Hrc|done|by exists h].
Qed.

(** C25: processing a block never runs forever, though it may panic: the recorder
    does so on a call of an address without code, and a substate may not be storable.
    If it comes to an end, a prefix of the transactions was applied in their order.
    The first starts in the state of the parent, after the DAO fork where it is at
    this block, and each in the state the one before it left, prepared for it: its
    message is applied with the gas that is left of the block, and the state closed.
    All of them were applied, with a receipt for each, their logs in a row and the sum
    of their gas, which is within the limit of the block, and the engine ended the
    state; or those before the one that is refused, which is named with the reason.
    The error does not take back what was recorded: the database has for every
    transaction applied a substate, with the accounts recorded in the state it left,
    the block hashes it asked for, its message and its receipt.  Those that can be
    stored are read back, and a replay of them runs the same message in the context of
    the same block. *)
Theorem Process_records config chain engine block s db :
  ordered_rules (Config.Rules config (hd_Number (blk_header block))) → refund_ok s →
  0 ≤ hd_GasLimit (blk_header block) < 2 ^ 64 → 0 ≤ hd_Number (blk_header block) < 2 ^ 64 →
  engine_Author engine (blk_header block) = hd_Coinbase (blk_header block) →
  Forall gas_ok (blk_txs block) → Z.of_nat (length (blk_txs block)) < 2 ^ 63 →
  finishes (λ '(s', db', r), ∃ xs, block_processed config chain engine block s db s' db' xs r ∧
    (all_storable 0 (snd <$> xs) → codes_apart ((snd <$> xs) ≫= substate_codes) →
     ∀ k msg rc sub, xs !! k = Some (msg, rc, sub) →
       ∃ back, GetSubstate db' (hd_Number (blk_header block)) (Z.of_nat k) = Ret back ∧
         AsMessage (sub_Message back) = msg ∧ res_GasUsed (sub_Result back) = rcpt_GasUsed rc ∧
         res_Status (sub_Result back) = rcpt_Status rc ∧
         InputAlloc back = InputAlloc sub ∧ OutputAlloc back = OutputAlloc sub ∧
         same_block (block_context (sub_Env back)) (NewEVMBlockContext (blk_header block) chain engine None)))
    (Process NoBaseFee levels order config chain engine block s db).
Proof.
  intros Hord Hs Hg Hnum Ha Htx Hlen. eapply finishes_impl; [|by apply Process_spec].
  intros [[s' db'] r] (xs & Hp). exists xs. split; [done|]. intros Hst Hapart k msg rc sub Hk.
  destruct Hp as (s1 & used & e & _ & Hrun & _). pose proof (run_of_length _ _ _ _ _ _ _ _ _ _ _ Hrun) as Hl. rewrite length_take in Hl.
  assert (Forall (λ s, substate_codes s ⊆ (snd <$> xs) ≫= substate_codes) (snd <$> xs)) as Hsub.
  { apply Forall_forall. intros x Hx c Hc. apply list_elem_of_bind. by exists x. }
  destruct (run_holds _ _ _ _ _ _ _ _ _ _ _ _ Hrun Hst Hapart Hsub ltac:(lia) ltac:(lia)) as [Hh _].
  specialize (Hh k _ Hk). cbn [snd] in Hh. rewrite Z.add_0_l in Hh. unfold NumberU64 in Hh. rewrite wrapU_small in Hh by lia.
  assert ((snd <$> xs) !! k = Some sub) as Hks by (by rewrite list_lookup_fmap, Hk).
  destruct (Hst k sub Hks) as (Hok & _ & Ho & _). rewrite Z.add_0_l in Ho.
  destruct (run_of_at _ _ _ _ _ _ _ _ _ _ _ _ _ _ _ Hrun Hk) as (ek & Hin & Hout & He & Hm & Hr).
  exists (plain sub). split; [by apply (holds_get _ _ _ _ _ Hok Ho)|].
  cbn [plain sub_Message sub_Result sub_Env InputAlloc OutputAlloc]. rewrite Hm, Hr, He, AsMessage_plain, AsMessage_message.
  split_and!; try done. by apply env_same_block.
Qed.
End process_facts.

(** ** Examples, over [Spec] *)

#[export] Instance spec_processor : ProcessorState Spec := {|
  SetBalance a x := spec_do (OpSetBalance a x);
  TxIndex m := a_txIndex (now m);
  ResearchPreAlloc _ := ∅
|}.

#[export] Instance spec_processor_laws : ProcessorLaws Spec.
Proof.
  split.
  - intros h i s [Hn Hs]. by split.
  - by intros b s s' Hs [= <-].
  - by intros b s s' r Hs [= <- <-].
  - intros a x s Hs. by apply spec_do_refund.
Qed.

(** A transaction of a known sender, and blocks before Berlin. *)
Definition demo_tx (nonce : Z) (to : option Address) : Transaction :=
  mkTransaction (legacy_tx (mkLegacyTx nonce 0 50000 to 0 [] 27 1 1)) 0 None None
    (Some (MakeSigner MainnetChainConfig 12000000, sender_addr)).

Definition demo_block (txs : list Transaction) : Block := mkBlock (demo_header 12000000 1 100000 0 (2 ^ 40) None) txs [].
Definition demo_chain : Chain := mkChain MainnetChainConfig (λ _ _, None) (λ _ _, None).
Definition demo_order (_ : Z) (m : gmap Z Hash) : list Z := (map_to_list m).*1.
Definition demo_state : Spec := spec_of_alloc {[10 := NewSubstateAccount 1 100 [0x60; 0x00]; 11 := NewSubstateAccount 0 5 []]}.

Definition demo_process (txs : list Transaction) :=
  Process (S := Spec) false 1025 demo_order MainnetChainConfig demo_chain ethash_engine (demo_block txs) demo_state ∅.

(** What comes out of a block: the gas, the gas read back from the database for
    the first transaction, and the refused transaction. *)
Definition demo_outcome (m : Res (Spec * gmap bytes bytes * (ProcessError + list Receipt * list Log * Z)))
    : option (gmap bytes bytes) * (Z * (nat + nat)) :=
  match m with
  | Done (_, db, inr (rs, _, gas)) => (Some db, (gas, inl (length rs)))
  | Done (_, db, inl err) => (Some db, (0, inr (Z.to_nat (failed_index err))))
  | _ => (None, (0, inr 0%nat))
  end.

Definition gas_back (db : option (gmap bytes bytes)) (tx : Z) : option Z :=
  match db with
  | Some db => match GetSubstate db 12000000 tx with Ret s => Some (res_GasUsed (sub_Result s)) | Panic _ => None end
  | None => None
  end.

Example demo_two : let '(db, r) := demo_outcome (demo_process [demo_tx 0 (Some 10); demo_tx 1 (Some 10)]) in
  r = (42006, inl 2%nat) ∧ gas_back db 0 = Some 21003 ∧ gas_back db 1 = Some 21003.
Proof. vm_compute. split_and!; reflexivity. Qed.

(** The second transaction has the nonce of the first: it is refused, and the first
    stays recorded. *)
Example demo_refused : let '(db, r) := demo_outcome (demo_process [demo_tx 0 (Some 10); demo_tx 0 (Some 10)]) in
  r = (0, inr 1%nat) ∧ gas_back db 0 = Some 21003 ∧ gas_back db 1 = None.
Proof. vm_compute. split_and!; reflexivity. Qed.

(** A message to an account without code: the recorder panics, and the block with it. *)
Definition crash_of {A : Type} (m : Res A) : option GoPanic := match m with Crash p => Some p | _ => None end.
Example demo_no_code : crash_of (demo_process [demo_tx 0 (Some 11)]) = Some IndexOutOfRange.
Proof. vm_compute. reflexivity. Qed.

Lemma demo_processed : snd (demo_outcome (demo_process [demo_tx 0 (Some 10); demo_tx 1 (Some 10)])) = (42006, inl 2%nat).
Proof. vm_compute. reflexivity. Qed.

Lemma demo_outcome_done m gas n : snd (demo_outcome m) = (gas, inl n) → n ≠ 0%nat →
  ∃ s' db' rs logs, m = Done (s', db', inr (rs, logs, gas)) ∧ length rs = n.
Proof.
  destruct m as [[[s db] [err|[[rs logs] g]]]|p|]; cbn; try (intros [= <- <-]; done).
  intros [= <- <-] _. by exists s, db, rs, logs.
Qed.

Lemma Process_records_witness :
  ∃ s' db' rs logs xs, demo_process [demo_tx 0 (Some 10); demo_tx 1 (Some 10)] = Done (s', db', inr (rs, logs, 42006)) ∧
    length rs = 2%nat ∧
    block_processed false 1025 demo_order MainnetChainConfig demo_chain ethash_engine
      (demo_block [demo_tx 0 (Some 10); demo_tx 1 (Some 10)]) demo_state ∅ s' db' xs
      (inr (rs, logs, 42006)).
Proof.
  destruct (demo_outcome_done _ _ _ demo_processed) as (s' & db' & rs & logs & E & Hl); [discriminate|].
  assert (CallCreateDepth < Z.of_nat 1025) as Hlev by reflexivity.
  assert (ordered_rules (Config.Rules MainnetChainConfig 12000000)) as Hord by (cbv; done).
  assert (refund_ok demo_state) as Hok by (split; [split; [discriminate|reflexivity]|constructor]).
  pose proof (Process_records (S := Spec) false 1025 demo_order Hlev MainnetChainConfig demo_chain ethash_engine
    (demo_block [demo_tx 0 (Some 10); demo_tx 1 (Some 10)]) demo_state (∅ : gmap bytes bytes) Hord Hok
    ltac:(split; [discriminate|reflexivity]) ltac:(split; [discriminate|reflexivity]) eq_refl
    ltac:(repeat constructor; discriminate || reflexivity) eq_refl) as Hp.
  match type of Hp with finishes ?P _ => change (finishes P (demo_process [demo_tx 0 (Some 10); demo_tx 1 (Some 10)])) in Hp end.
  rewrite E in Hp. destruct Hp as (xs & Hp & _).
  exists s', db', rs, logs, xs. split; [exact E|]. split; [exact Hl|exact Hp].
Defined.
