(* ===== verification/Precompiles.v ===== *)
(** * core/vm/contracts.go: the precompiled contracts

    The gas and the results of the contracts, with the compression function of
    crypto/blake2b as the code without assembly has it.  Hashes, curves and
    pairings are parameters ([PrecompileLibs]): what is modelled is how the
    contracts read their inputs, what they refuse, what they charge and how they
    write their results.  [precompiled_externals] makes of them the contracts that
    the virtual machine takes as a parameter. *)

From Stdlib Require Import Zpow_facts.
From S2P Require Import Prelude Common Params Uint256 Machine Vm Evm VmFacts GasTables Transactions DemoState.

(** * crypto/blake2b *)

Module Blake2b.

(** blake2b_generic.go: the order in which a round takes the words of the block *)
Definition precomputed : list (list nat) := [
  [0; 2; 4; 6; 1; 3; 5; 7; 8; 10; 12; 14; 9; 11; 13; 15];
  [14; 4; 9; 13; 10; 8; 15; 6; 1; 0; 11; 5; 12; 2; 7; 3];
  [11; 12; 5; 15; 8; 0; 2; 13; 10; 3; 7; 9; 14; 6; 1; 4];
  [7; 3; 13; 11; 9; 1; 12; 14; 2; 5; 4; 15; 6; 10; 0; 8];
  [9; 5; 2; 10; 0; 7; 4; 15; 14; 11; 6; 3; 1; 12; 8; 13];
  [2; 6; 0; 8; 12; 10; 11; 3; 4; 7; 15; 1; 13; 5; 14; 9];
  [12; 1; 14; 4; 5; 15; 13; 10; 0; 6; 9; 8; 7; 3; 2; 11];
  [13; 7; 12; 3; 11; 14; 1; 9; 5; 15; 8; 2; 0; 4; 6; 10];
  [6; 14; 11; 0; 15; 9; 3; 8; 12; 13; 1; 10; 2; 7; 4; 5];
  [10; 8; 7; 1; 2; 4; 6; 5; 15; 9; 3; 13; 11; 14; 12; 0]
]%nat.

Definition iv : list Z := [
  0x6a09e667f3bcc908; 0xbb67ae8584caa73b; 0x3c6ef372fe94f82b; 0xa54ff53a5f1d36f1;
  0x510e527fade682d1; 0x9b05688c2b3e6c1f; 0x1f83d9abfb41bd6b; 0x5be0cd19137e2179].

(** [bits.RotateLeft64] *)
Definition RotateLeft64 (x k : Z) : Z :=
  let s := k mod 64 in Z.lor (wrapU 64 (Z.shiftl x s)) (Z.shiftr x (64 - s)).

(** An array of words; its indexes are constants within it. *)
Definition at_ (v : list Z) (i : nat) : Z := default 0 (v !! i).
Definition xor_at (v : list Z) (i : nat) (x : Z) : list Z := <[i := Z.lxor (at_ v i) x]> v.

(** Half of a mixing: [a += x; a += b; d ^= a; d = d <<< r1; c += d; b ^= c; b = b <<< r2]. *)
Definition half (r1 r2 : Z) (a b c d : nat) (x : Z) (v : list Z) : list Z :=
  let va := wrapU 64 (wrapU 64 (at_ v a + x) + at_ v b) in
  let vd := RotateLeft64 (Z.lxor (at_ v d) va) r1 in
  let vc := wrapU 64 (at_ v c + vd) in
  let vb := RotateLeft64 (Z.lxor (at_ v b) vc) r2 in
  <[b := vb]> (<[c := vc]> (<[d := vd]> (<[a := va]> v))).

Definition first_half := half (-32) (-24).
Definition second_half := half (-16) (-63).

(** A turn of the loop of [fGeneric], for the row [s] of [precomputed]. *)
Definition generic_round (m : list Z) (s : list nat) (v : list Z) : list Z :=
  let x i := at_ m (default O (s !! i)) in
  let v := first_half 0 4 8 12 (x 0%nat) v in
  let v := first_half 1 5 9 13 (x 1%nat) v in
  let v := first_half 2 6 10 14 (x 2%nat) v in
  let v := first_half 3 7 11 15 (x 3%nat) v in
  let v := second_half 0 4 8 12 (x 4%nat) v in
  let v := second_half 1 5 9 13 (x 5%nat) v in
  let v := second_half 2 6 10 14 (x 6%nat) v in
  let v := second_half 3 7 11 15 (x 7%nat) v in
  let v := first_half 0 5 10 15 (x 8%nat) v in
  let v := first_half 1 6 11 12 (x 9%nat) v in
  let v := first_half 2 7 8 13 (x 10%nat) v in
  let v := first_half 3 4 9 14 (x 11%nat) v in
  let v := second_half 0 5 10 15 (x 12%nat) v in
  let v := second_half 1 6 11 12 (x 13%nat) v in
  let v := second_half 2 7 8 13 (x 14%nat) v in
  second_half 3 4 9 14 (x 15%nat) v.

(** The turns from the [i]-th on; [n] are left. *)
Fixpoint rounds_from {A} (body : nat → A → A) (n i : nat) (v : A) : A :=
  match n with
  | O => v
  | S n' => rounds_from body n' (S i) (body i v)
  end.

Definition start_vector (h : list Z) (c0 c1 flag : Z) : list Z :=
  xor_at (xor_at (xor_at (h ++ iv) 12 c0) 13 c1) 14 flag.

(** [h\[i\] ^= v\[i\] ^ v\[i+8\]] *)
Definition feed_back (h v : list Z) : list Z :=
  imap (λ i x, Z.lxor x (Z.lxor (at_ v i) (at_ v (i + 8)))) h.

Definition fGeneric (h m : list Z) (c0 c1 flag rounds : Z) : list Z :=
  feed_back h
    (rounds_from (λ i, generic_round m (default [] (precomputed !! (i mod 10)%nat)))
       (Z.to_nat rounds) 0 (start_vector h c0 c1 flag)).

Definition F (h m : list Z) (c0 c1 : Z) (final : bool) (rounds : Z) : list Z :=
  fGeneric h m c0 c1 (if final then 0xFFFFFFFFFFFFFFFF else 0) rounds.

(** ** encoding/binary *)

Definition le_val (b : bytes) : Z := be_val (reverse b).
Definition PutUint64 (x : Z) : bytes := reverse (to_be 8 x).

(** The [n] words of a slice, from its start. *)
Fixpoint le_words64 (n : nat) (b : bytes) : list Z :=
  match n with
  | O => []
  | S n' => le_val (take 8 b) :: le_words64 n' (drop 8 b)
  end.
Definition put_words64 (l : list Z) : bytes := concat (map PutUint64 l).

(** ** RFC 7693: the function as it is specified *)

Definition sigma : list (list nat) := [
  [0; 1; 2; 3; 4; 5; 6; 7; 8; 9; 10; 11; 12; 13; 14; 15];
  [14; 10; 4; 8; 9; 15; 13; 6; 1; 12; 0; 2; 11; 7; 5; 3];
  [11; 8; 12; 0; 5; 2; 15; 13; 10; 14; 3; 6; 7; 1; 9; 4];
  [7; 9; 3; 1; 13; 12; 11; 14; 2; 6; 5; 10; 4; 0; 15; 8];
  [9; 0; 5; 7; 2; 4; 10; 15; 14; 1; 11; 12; 6; 8; 3; 13];
  [2; 12; 6; 10; 0; 11; 8; 3; 4; 13; 7; 5; 15; 14; 1; 9];
  [12; 5; 1; 15; 14; 13; 4; 10; 0; 7; 6; 3; 9; 2; 8; 11];
  [13; 11; 7; 14; 12; 1; 3; 9; 5; 0; 15; 4; 8; 6; 2; 10];
  [6; 15; 14; 9; 11; 3; 0; 8; 12; 2; 13; 7; 1; 4; 10; 5];
  [10; 2; 8; 4; 7; 6; 1; 5; 15; 11; 9; 14; 3; 12; 13; 0]
]%nat.

(** [G(v, a, b, c, d, x, y)]: rotations to the right by 32, 24, 16 and 63. *)
Definition G (a b c d : nat) (x y : Z) (v : list Z) : list Z :=
  second_half a b c d y (first_half a b c d x v).

Definition rfc_round (m : list Z) (s : list nat) (v : list Z) : list Z :=
  let x i := at_ m (default O (s !! i)) in
  let v := G 0 4 8 12 (x 0%nat) (x 1%nat) v in
  let v := G 1 5 9 13 (x 2%nat) (x 3%nat) v in
  let v := G 2 6 10 14 (x 4%nat) (x 5%nat) v in
  let v := G 3 7 11 15 (x 6%nat) (x 7%nat) v in
  let v := G 0 5 10 15 (x 8%nat) (x 9%nat) v in
  let v := G 1 6 11 12 (x 10%nat) (x 11%nat) v in
  let v := G 2 7 8 13 (x 12%nat) (x 13%nat) v in
  G 3 4 9 14 (x 14%nat) (x 15%nat) v.

Definition rfc_F (h m : list Z) (c0 c1 : Z) (final : bool) (rounds : Z) : list Z :=
  feed_back h
    (rounds_from (λ i, rfc_round m (default [] (sigma !! (i mod 10)%nat)))
       (Z.to_nat rounds) 0
       (start_vector h c0 c1 (if final then 2 ^ 64 - 1 else 0))).

(** ** The two agree *)

Section facts.
#[local] Opaque wrapU RotateLeft64 Z.lxor Z.add.

(** The sixteen words of a vector by name, and both sides computed. *)
Local Ltac by_words v Hl :=
  do 16 (destruct v as [|? v]; [discriminate Hl|]); destruct v; [|discriminate Hl];
  cbv -[wrapU RotateLeft64 Z.lxor Z.add]; reflexivity.

Lemma half_length r1 r2 a b c d x v : length (half r1 r2 a b c d x v) = length v.
Proof. unfold half. cbv zeta. by rewrite !length_insert. Qed.

(** A round with the mixings of a row side by side is one with them in turn. *)
Lemma interleaved x0 x1 x2 x3 x4 x5 x6 x7 v : length v = 16%nat →
  second_half 3 7 11 15 x7 (second_half 2 6 10 14 x6 (second_half 1 5 9 13 x5 (second_half 0 4 8 12 x4
    (first_half 3 7 11 15 x3 (first_half 2 6 10 14 x2 (first_half 1 5 9 13 x1 (first_half 0 4 8 12 x0 v)))))))
  = G 3 7 11 15 x3 x7 (G 2 6 10 14 x2 x6 (G 1 5 9 13 x1 x5 (G 0 4 8 12 x0 x4 v))).
Proof. intros Hl. by_words v Hl. Qed.

Lemma interleaved_diagonal x0 x1 x2 x3 x4 x5 x6 x7 v : length v = 16%nat →
  second_half 3 4 9 14 x7 (second_half 2 7 8 13 x6 (second_half 1 6 11 12 x5 (second_half 0 5 10 15 x4
    (first_half 3 4 9 14 x3 (first_half 2 7 8 13 x2 (first_half 1 6 11 12 x1 (first_half 0 5 10 15 x0 v)))))))
  = G 3 4 9 14 x3 x7 (G 2 7 8 13 x2 x6 (G 1 6 11 12 x1 x5 (G 0 5 10 15 x0 x4 v))).
Proof. intros Hl. by_words v Hl. Qed.

Definition reordered (s p : list nat) : Prop :=
  p = (λ i, default O (s !! i)) <$> [0; 2; 4; 6; 1; 3; 5; 7; 8; 10; 12; 14; 9; 11; 13; 15]%nat.

Lemma precomputed_sigma i : (i < 10)%nat →
  reordered (default [] (sigma !! i)) (default [] (precomputed !! i)).
Proof. intros Hi. do 10 (destruct i as [|i]; [reflexivity|]). lia. Qed.

Lemma round_rfc m s p v : reordered s p → length v = 16%nat → generic_round m p v = rfc_round m s v.
Proof.
  intros -> Hl. unfold generic_round, rfc_round. cbv zeta.
  rewrite interleaved by done. rewrite interleaved_diagonal; [done|].
  unfold G, first_half, second_half. by rewrite !half_length.
Qed.

Lemma generic_round_length m s v : length (generic_round m s v) = length v.
Proof. unfold generic_round, first_half, second_half. cbv zeta. by rewrite !half_length. Qed.

Lemma rounds_from_ext {A} (P : A → Prop) (f g : nat → A → A) n : ∀ i v,
  P v → (∀ i v, P v → f i v = g i v ∧ P (f i v)) → rounds_from f n i v = rounds_from g n i v.
Proof.
  induction n as [|n IH]; intros i v Hv H; [done|]. cbn.
  destruct (H i v Hv) as [E Hp]. rewrite <- E. by apply IH.
Qed.

(** The function of the code is the one of RFC 7693, for any number of rounds. *)
Lemma F_rfc h m c0 c1 final rounds :
  length h = 8%nat → F h m c0 c1 final rounds = rfc_F h m c0 c1 final rounds.
Proof.
  intros Hh. unfold F, fGeneric, rfc_F. f_equal.
  apply (rounds_from_ext (λ v, length v = 16%nat)).
  - unfold start_vector, xor_at. rewrite !length_insert, length_app, Hh. done.
  - intros i v Hv. split; [|by rewrite generic_round_length].
    apply round_rfc; [|done]. apply precomputed_sigma. apply Nat.mod_upper_bound. lia.
Qed.

Lemma feed_back_length h v : length (feed_back h v) = length h.
Proof. apply length_imap. Qed.

Lemma F_length h m c0 c1 final rounds : length (F h m c0 c1 final rounds) = length h.
Proof. apply feed_back_length. Qed.

Lemma put_words64_length l : length (put_words64 l) = (8 * length l)%nat.
Proof.
  unfold put_words64. induction l as [|x l IH]; [done|]. cbn [map concat].
  rewrite length_app, IH. unfold PutUint64. rewrite length_reverse, to_be_length. cbn [length]. lia.
Qed.

Lemma le_words64_length n b : length (le_words64 n b) = n.
Proof. revert b; induction n as [|n IH]; intros b; [done|]. cbn. by rewrite IH. Qed.
End facts.

End Blake2b.

(** * The libraries *)

Class PrecompileLibs := {
  sha256_Sum256 : bytes → bytes;
  ripemd160_Sum : bytes → bytes;
  (** crypto/bn256: the curve, its twist and the pairing *)
  G1 : Type;
  G2 : Type;
  G1_Unmarshal : bytes → string + G1;
  G1_Marshal : G1 → bytes;
  G1_Add : G1 → G1 → G1;
  G1_ScalarMult : G1 → Z → G1;
  G2_Unmarshal : bytes → string + G2;
  PairingCheck : list G1 → list G2 → bool;
  (** crypto/bls12381 *)
  PointG1 : Type;
  PointG2 : Type;
  g1_DecodePoint : bytes → string + PointG1;
  g1_EncodePoint : PointG1 → bytes;
  g1_Add : PointG1 → PointG1 → PointG1;
  g1_MulScalar : PointG1 → Z → PointG1;
  g1_MultiExp : list PointG1 → list Z → PointG1;
  g1_MapToCurve : bytes → string + PointG1;
  g1_InCorrectSubgroup : PointG1 → bool;
  g2_DecodePoint : bytes → string + PointG2;
  g2_EncodePoint : PointG2 → bytes;
  g2_Add : PointG2 → PointG2 → PointG2;
  g2_MulScalar : PointG2 → Z → PointG2;
  g2_MultiExp : list PointG2 → list Z → PointG2;
  g2_MapToCurve : bytes → string + PointG2;
  g2_InCorrectSubgroup : PointG2 → bool;
  pairing_Check : list (PointG1 * PointG2) → bool
}.

(** * The contracts *)

(** The types that implement [PrecompiledContract]. *)
Inductive Precompiled :=
| ecrecover
| sha256hash
| ripemd160hash
| dataCopy
| bigModExp (eip2565 : bool)
| bn256AddByzantium
| bn256AddIstanbul
| bn256ScalarMulByzantium
| bn256ScalarMulIstanbul
| bn256PairingByzantium
| bn256PairingIstanbul
| blake2F
| bls12381G1Add
| bls12381G1Mul
| bls12381G1MultiExp
| bls12381G2Add
| bls12381G2Mul
| bls12381G2MultiExp
| bls12381Pairing
| bls12381MapG1
| bls12381MapG2.

(** A result and an error, of a method that may panic. *)
Definition Outcome : Type := Go (string + bytes).
Definition gives (b : bytes) : Outcome := Ret (inr b).
Definition fails (msg : string) : Outcome := Ret (inl msg).

(** [x, err := m; if err != nil { return nil, err }] *)
Definition or_fail {A B} (m : string + A) (k : A → Go (string + B)) : Go (string + B) :=
  match m with inl msg => Ret (inl msg) | inr x => k x end.

Definition nth_byte (b : bytes) (i : Z) : Go Z :=
  match b !! Z.to_nat i with Some x => Ret x | None => Panic IndexOutOfRange end.

Definition EcrecoverGas : Z := 3000.
Definition Sha256BaseGas : Z := 60.
Definition Sha256PerWordGas : Z := 12.
Definition Ripemd160BaseGas : Z := 600.
Definition Ripemd160PerWordGas : Z := 120.
Definition IdentityBaseGas : Z := 15.
Definition IdentityPerWordGas : Z := 3.
Definition Bn256AddGasByzantium : Z := 500.
Definition Bn256AddGasIstanbul : Z := 150.
Definition Bn256ScalarMulGasByzantium : Z := 40000.
Definition Bn256ScalarMulGasIstanbul : Z := 6000.
Definition Bn256PairingBaseGasByzantium : Z := 100000.
Definition Bn256PairingBaseGasIstanbul : Z := 45000.
Definition Bn256PairingPerPointGasByzantium : Z := 80000.
Definition Bn256PairingPerPointGasIstanbul : Z := 34000.
Definition Bls12381G1AddGas : Z := 600.
Definition Bls12381G1MulGas : Z := 12000.
Definition Bls12381G2AddGas : Z := 4500.
Definition Bls12381G2MulGas : Z := 55000.
Definition Bls12381PairingBaseGas : Z := 115000.
Definition Bls12381PairingPerPairGas : Z := 23000.
Definition Bls12381MapG1Gas : Z := 5500.
Definition Bls12381MapG2Gas : Z := 110000.

Definition Bls12381MultiExpDiscountTable : list Z := [
  1200; 888; 764; 641; 594; 547; 500; 453; 438; 423; 408; 394; 379; 364; 349; 334; 330; 326; 322; 318;
  314; 310; 306; 302; 298; 294; 289; 285; 281; 277; 273; 269; 268; 266; 265; 263; 262; 260; 259; 257;
  256; 254; 253; 251; 250; 248; 247; 245; 244; 242; 241; 239; 238; 236; 235; 233; 232; 231; 229; 228;
  226; 225; 223; 222; 221; 220; 219; 219; 218; 217; 216; 216; 215; 214; 213; 213; 212; 211; 211; 210;
  209; 208; 208; 207; 206; 205; 205; 204; 203; 202; 202; 201; 200; 199; 199; 198; 197; 196; 196; 195;
  194; 193; 193; 192; 191; 191; 190; 189; 188; 188; 187; 186; 185; 185; 184; 183; 182; 182; 181; 180;
  179; 179; 178; 177; 176; 176; 175; 174].

(** ** Gas *)

(** [uint64(len(input)+31)/32*perWord + base] *)
Definition word_gas (perWord base : Z) (input : bytes) : Z :=
  wrapU 64 (wrapU 64 (wrapU 64 (len input + 31) / 32 * perWord) + base).

(** [base + uint64(len(input)/size)*perPair] *)
Definition pair_gas (base size perPair : Z) (input : bytes) : Z :=
  wrapU 64 (base + wrapU 64 (len input / size * perPair)).

Definition modexpMultComplexity (x : Z) : Z :=
  if x <=? 64 then x * x
  else if x <=? 1024 then x * x / 4 + (96 * x - 3072)
  else x * x / 16 + (480 * x - 199680).

(** [input\[96:\]], or nothing. *)
Definition modexp_operands (input : bytes) : bytes := if 96 <? len input then drop 96 input else [].

Definition adjusted_length (input : bytes) (baseLen expLen : Z) : Go Z :=
  expHead ← (if len input <=? baseLen then Ret 0
             else if 32 <? expLen then be_val <$> getData input (big_Uint64 baseLen) 32
             else be_val <$> getData input (big_Uint64 baseLen) (big_Uint64 expLen));
  let bitlen := big_BitLen expHead in
  let msb := if 0 <? bitlen then bitlen - 1 else 0 in
  Ret ((if 32 <? expLen then 8 * (expLen - 32) else 0) + msb).

Definition modexp_cost (eip2565 : bool) (modLen baseLen adjExpLen : Z) : Z :=
  let gas := Z.max modLen baseLen in
  if eip2565 then
    let gas := (gas + 7) / 8 in
    let gas := gas * gas * Z.max adjExpLen 1 / 3 in
    if 64 <? big_BitLen gas then MaxUint64
    else if big_Uint64 gas <? 200 then 200
    else big_Uint64 gas
  else
    let gas := modexpMultComplexity gas * Z.max adjExpLen 1 / 20 in
    if 64 <? big_BitLen gas then MaxUint64 else big_Uint64 gas.

Definition bigModExp_RequiredGas (eip2565 : bool) (input : bytes) : Go Z :=
  baseLen ← be_val <$> getData input 0 32;
  expLen ← be_val <$> getData input 32 32;
  modLen ← be_val <$> getData input 64 32;
  adjExpLen ← adjusted_length (modexp_operands input) baseLen expLen;
  Ret (modexp_cost eip2565 modLen baseLen adjExpLen).

Definition blake2FInputLength : Z := 213.

Definition blake2F_RequiredGas (input : bytes) : Go Z :=
  if negb (len input =? blake2FInputLength) then Ret 0
  else s ← subslice input 0 4; Ret (wrapU 32 (be_val s)).

(** [k] pairs, each of [size] bytes, at a price of [mul] for one. *)
Definition multiexp_gas (size mul : Z) (input : bytes) : Go Z :=
  let k := len input / size in
  if k =? 0 then Ret 0
  else
    let dLen := len Bls12381MultiExpDiscountTable in
    discount ← nth_byte Bls12381MultiExpDiscountTable (if k <? dLen then k - 1 else dLen - 1);
    Ret (wrapU 64 (wrapU 64 (k * mul) * discount) / 1000).

Definition contract_RequiredGas (p : Precompiled) (input : bytes) : Go Z :=
  match p with
  | ecrecover => Ret EcrecoverGas
  | sha256hash => Ret (word_gas Sha256PerWordGas Sha256BaseGas input)
  | ripemd160hash => Ret (word_gas Ripemd160PerWordGas Ripemd160BaseGas input)
  | dataCopy => Ret (word_gas IdentityPerWordGas IdentityBaseGas input)
  | bigModExp eip2565 => bigModExp_RequiredGas eip2565 input
  | bn256AddByzantium => Ret Bn256AddGasByzantium
  | bn256AddIstanbul => Ret Bn256AddGasIstanbul
  | bn256ScalarMulByzantium => Ret Bn256ScalarMulGasByzantium
  | bn256ScalarMulIstanbul => Ret Bn256ScalarMulGasIstanbul
  | bn256PairingByzantium => Ret (pair_gas Bn256PairingBaseGasByzantium 192 Bn256PairingPerPointGasByzantium input)
  | bn256PairingIstanbul => Ret (pair_gas Bn256PairingBaseGasIstanbul 192 Bn256PairingPerPointGasIstanbul input)
  | blake2F => blake2F_RequiredGas input
  | bls12381G1Add => Ret Bls12381G1AddGas
  | bls12381G1Mul => Ret Bls12381G1MulGas
  | bls12381G1MultiExp => multiexp_gas 160 Bls12381G1MulGas input
  | bls12381G2Add => Ret Bls12381G2AddGas
  | bls12381G2Mul => Ret Bls12381G2MulGas
  | bls12381G2MultiExp => multiexp_gas 288 Bls12381G2MulGas input
  | bls12381Pairing => Ret (pair_gas Bls12381PairingBaseGas 384 Bls12381PairingPerPairGas input)
  | bls12381MapG1 => Ret Bls12381MapG1Gas
  | bls12381MapG2 => Ret Bls12381MapG2Gas
  end.

(** ** Results *)

Section run.
Context `{Externals} `{Secp256k1} `{PrecompileLibs}.

Definition ecrecover_Run (input : bytes) : Outcome :=
  let input := RightPadBytes input 128 in
  r ← be_val <$> subslice input 64 96;
  s ← be_val <$> subslice input 96 128;
  v ← (λ x, wrapU 8 (x - 27)) <$> nth_byte input 63;
  high ← subslice input 32 63;
  if negb (allZero high) || negb (ValidateSignatureValues v r s false) then gives []
  else
    rs ← subslice input 64 128;
    hash ← subslice input 0 32;
    match Ecrecover hash (rs ++ [v]) with
    | inl _ => gives []
    | inr pubKey =>
        key ← subslice pubKey 1 (len pubKey);
        h ← subslice (Keccak256 key) 12 (len (Keccak256 key));
        gives (LeftPadBytes h 32)
    end.

(** [big.Int.Bytes]: without leading zeros. *)
Definition big_Bytes (x : Z) : bytes := to_be (Z.to_nat ((big_BitLen x + 7) / 8)) (Z.abs x).

(** [big.Int.Exp], for a modulus that is not zero and an exponent that is not negative. *)
Definition big_Exp (x y m : Z) : Z := Zpow_mod x y (Z.abs m).

Definition bigModExp_Run (input : bytes) : Outcome :=
  baseLen ← (λ b, big_Uint64 (be_val b)) <$> getData input 0 32;
  expLen ← (λ b, big_Uint64 (be_val b)) <$> getData input 32 32;
  modLen ← (λ b, big_Uint64 (be_val b)) <$> getData input 64 32;
  let input := modexp_operands input in
  if (baseLen =? 0) && (modLen =? 0) then gives []
  else
    base ← be_val <$> getData input 0 baseLen;
    exp ← be_val <$> getData input baseLen expLen;
    mod_ ← be_val <$> getData input (wrapU 64 (baseLen + expLen)) modLen;
    if big_BitLen mod_ =? 0 then gives (LeftPadBytes [] (Z.to_nat (wrapS 64 modLen)))
    else gives (LeftPadBytes (big_Bytes (big_Exp base exp mod_)) (Z.to_nat (wrapS 64 modLen))).

Definition newCurvePoint (blob : bytes) : string + G1 := G1_Unmarshal blob.
Definition newTwistPoint (blob : bytes) : string + G2 := G2_Unmarshal blob.

Definition runBn256Add (input : bytes) : Outcome :=
  b ← getData input 0 64;
  or_fail (newCurvePoint b) (λ x,
    b ← getData input 64 64;
    or_fail (newCurvePoint b) (λ y, gives (G1_Marshal (G1_Add x y)))).

Definition runBn256ScalarMul (input : bytes) : Outcome :=
  b ← getData input 0 64;
  or_fail (newCurvePoint b) (λ p,
    e ← be_val <$> getData input 64 32;
    gives (G1_Marshal (G1_ScalarMult p e))).

Definition true32Byte : bytes := replicate 31 0 ++ [1].
Definition false32Byte : bytes := replicate 32 0.

(** The loop over the pairs, with what it has read; [n] are left. *)
Fixpoint bn256_pairs (n : nat) (i : Z) (input : bytes) (cs : list G1) (ts : list G2) : Go (string + (list G1 * list G2)) :=
  match n with
  | O => Ret (inr (cs, ts))
  | S n' =>
      b ← subslice input i (i + 64);
      or_fail (newCurvePoint b) (λ c,
        b ← subslice input (i + 64) (i + 192);
        or_fail (newTwistPoint b) (λ t, bn256_pairs n' (i + 192) input (cs ++ [c]) (ts ++ [t])))
  end.

Definition runBn256Pairing (input : bytes) : Outcome :=
  if 0 <? len input mod 192 then fails "bad elliptic curve pairing size"
  else
    res ← bn256_pairs (Z.to_nat (len input / 192)) 0 input [] [];
    or_fail res (λ '(cs, ts), gives (if PairingCheck cs ts then true32Byte else false32Byte)).

Definition blake2F_Run (input : bytes) : Outcome :=
  if negb (len input =? blake2FInputLength) then fails "invalid input length"
  else
    flag ← nth_byte input 212;
    if negb (flag =? 0) && negb (flag =? 1) then fails "invalid final flag"
    else
      rounds ← (λ b, wrapU 32 (be_val b)) <$> subslice input 0 4;
      h ← Blake2b.le_words64 8 <$> subslice input 4 68;
      m ← Blake2b.le_words64 16 <$> subslice input 68 196;
      t0 ← Blake2b.le_val <$> subslice input 196 204;
      t1 ← Blake2b.le_val <$> subslice input 204 212;
      gives (Blake2b.put_words64 (Blake2b.F h m t0 t1 (flag =? 1) rounds)).

Definition invalid_length : string := "invalid input length".

Definition bls12381G1Add_Run (input : bytes) : Outcome :=
  if negb (len input =? 256) then fails invalid_length
  else
    b ← subslice input 0 128;
    or_fail (g1_DecodePoint b) (λ p0,
      b ← subslice input 128 (len input);
      or_fail (g1_DecodePoint b) (λ p1, gives (g1_EncodePoint (g1_Add p0 p1)))).

Definition bls12381G1Mul_Run (input : bytes) : Outcome :=
  if negb (len input =? 160) then fails invalid_length
  else
    b ← subslice input 0 128;
    or_fail (g1_DecodePoint b) (λ p0,
      e ← be_val <$> subslice input 128 (len input);
      gives (g1_EncodePoint (g1_MulScalar p0 e))).

Definition bls12381G2Add_Run (input : bytes) : Outcome :=
  if negb (len input =? 512) then fails invalid_length
  else
    b ← subslice input 0 256;
    or_fail (g2_DecodePoint b) (λ p0,
      b ← subslice input 256 (len input);
      or_fail (g2_DecodePoint b) (λ p1, gives (g2_EncodePoint (g2_Add p0 p1)))).

Definition bls12381G2Mul_Run (input : bytes) : Outcome :=
  if negb (len input =? 288) then fails invalid_length
  else
    b ← subslice input 0 256;
    or_fail (g2_DecodePoint b) (λ p0,
      e ← be_val <$> subslice input 256 (len input);
      gives (g2_EncodePoint (g2_MulScalar p0 e))).

(** Points and scalars: a point takes [point] bytes and a scalar the 32 after it. *)
Fixpoint multiexp_pairs {P} (decode : bytes → string + P) (point : Z) (n : nat) (off : Z) (input : bytes)
    (points : list P) (scalars : list Z) : Go (string + (list P * list Z)) :=
  match n with
  | O => Ret (inr (points, scalars))
  | S n' =>
      b ← subslice input off (off + point);
      or_fail (decode b) (λ p,
        e ← be_val <$> subslice input (off + point) (off + point + 32);
        multiexp_pairs decode point n' (off + point + 32) input (points ++ [p]) (scalars ++ [e]))
  end.

Definition multiexp_Run {P} (decode : bytes → string + P) (multiExp : list P → list Z → P) (encode : P → bytes)
    (point : Z) (input : bytes) : Outcome :=
  let size := point + 32 in
  if (len input =? 0) || negb (len input mod size =? 0) then fails invalid_length
  else
    res ← multiexp_pairs decode point (Z.to_nat (len input / size)) 0 input [] [];
    or_fail res (λ '(points, scalars), gives (encode (multiExp points scalars))).

Fixpoint bls_pairs (n : nat) (off : Z) (input : bytes) (e : list (PointG1 * PointG2))
    : Go (string + list (PointG1 * PointG2)) :=
  match n with
  | O => Ret (inr e)
  | S n' =>
      b ← subslice input off (off + 128);
      or_fail (g1_DecodePoint b) (λ p1,
        b ← subslice input (off + 128) (off + 384);
        or_fail (g2_DecodePoint b) (λ p2,
          if negb (g1_InCorrectSubgroup p1) then Ret (inl "g1 point is not on correct subgroup"%string)
          else if negb (g2_InCorrectSubgroup p2) then Ret (inl "g2 point is not on correct subgroup"%string)
          else bls_pairs n' (off + 384) input (e ++ [(p1, p2)])))
  end.

Definition bls12381Pairing_Run (input : bytes) : Outcome :=
  if (len input =? 0) || negb (len input mod 384 =? 0) then fails invalid_length
  else
    res ← bls_pairs (Z.to_nat (len input / 384)) 0 input [];
    or_fail res (λ e, gives (if pairing_Check e then true32Byte else false32Byte)).

Definition decodeBLS12381FieldElement (in_ : bytes) : string + bytes :=
  if negb (len in_ =? 64) then inl "invalid field element length"%string
  else if negb (allZero (take 16 in_)) then inl "invalid field element top bytes"%string
  else inr (drop 16 in_).

Definition bls12381MapG1_Run (input : bytes) : Outcome :=
  if negb (len input =? 64) then fails invalid_length
  else
    or_fail (decodeBLS12381FieldElement input) (λ fe,
      or_fail (g1_MapToCurve fe) (λ r, gives (g1_EncodePoint r))).

(** The second coefficient comes first in what [MapToCurve] takes. *)
Definition bls12381MapG2_Run (input : bytes) : Outcome :=
  if negb (len input =? 128) then fails invalid_length
  else
    b ← subslice input 0 64;
    or_fail (decodeBLS12381FieldElement b) (λ c0,
      b ← subslice input 64 (len input);
      or_fail (decodeBLS12381FieldElement b) (λ c1,
        or_fail (g2_MapToCurve (c1 ++ c0)) (λ r, gives (g2_EncodePoint r)))).

Definition contract_Run (p : Precompiled) (input : bytes) : Outcome :=
  match p with
  | ecrecover => ecrecover_Run input
  | sha256hash => gives (sha256_Sum256 input)
  | ripemd160hash => gives (LeftPadBytes (ripemd160_Sum input) 32)
  | dataCopy => gives input
  | bigModExp _ => bigModExp_Run input
  | bn256AddByzantium | bn256AddIstanbul => runBn256Add input
  | bn256ScalarMulByzantium | bn256ScalarMulIstanbul => runBn256ScalarMul input
  | bn256PairingByzantium | bn256PairingIstanbul => runBn256Pairing input
  | blake2F => blake2F_Run input
  | bls12381G1Add => bls12381G1Add_Run input
  | bls12381G1Mul => bls12381G1Mul_Run input
  | bls12381G1MultiExp => multiexp_Run g1_DecodePoint g1_MultiExp g1_EncodePoint 128 input
  | bls12381G2Add => bls12381G2Add_Run input
  | bls12381G2Mul => bls12381G2Mul_Run input
  | bls12381G2MultiExp => multiexp_Run g2_DecodePoint g2_MultiExp g2_EncodePoint 256 input
  | bls12381Pairing => bls12381Pairing_Run input
  | bls12381MapG1 => bls12381MapG1_Run input
  | bls12381MapG2 => bls12381MapG2_Run input
  end.
End run.

(** ** The contracts of a fork *)

Definition at_addresses {A} (first : Z) (l : list A) : gmap Address A :=
  list_to_map (imap (λ i p, (first + Z.of_nat i, p)) l).

Definition contracts_Homestead : gmap Address Precompiled :=
  at_addresses 1 [ecrecover; sha256hash; ripemd160hash; dataCopy].

Definition contracts_Byzantium : gmap Address Precompiled :=
  at_addresses 1 [ecrecover; sha256hash; ripemd160hash; dataCopy; bigModExp false; bn256AddByzantium;
                  bn256ScalarMulByzantium; bn256PairingByzantium].

Definition contracts_Istanbul : gmap Address Precompiled :=
  at_addresses 1 [ecrecover; sha256hash; ripemd160hash; dataCopy; bigModExp false; bn256AddIstanbul;
                  bn256ScalarMulIstanbul; bn256PairingIstanbul; blake2F].

Definition contracts_Berlin : gmap Address Precompiled :=
  at_addresses 1 [ecrecover; sha256hash; ripemd160hash; dataCopy; bigModExp true; bn256AddIstanbul;
                  bn256ScalarMulIstanbul; bn256PairingIstanbul; blake2F].

Definition contracts_BLS : gmap Address Precompiled :=
  at_addresses 10 [bls12381G1Add; bls12381G1Mul; bls12381G1MultiExp; bls12381G2Add; bls12381G2Mul;
                   bls12381G2MultiExp; bls12381Pairing; bls12381MapG1; bls12381MapG2].

Definition to_result (r : string + bytes) : bytes * option VmError :=
  match r with inl msg => ([], Some (ErrPrecompile msg)) | inr b => (b, None) end.

(** The contracts as the virtual machine takes them.  A method that panics has
    nothing to give: [precompiles_run] shows that none does whose gas is paid. *)
Definition as_contract `{Externals} `{Secp256k1} `{PrecompileLibs} (p : Precompiled) : PrecompiledContract := {|
  RequiredGas input := match contract_RequiredGas p input with Ret g => g | Panic _ => 0 end;
  run_precompile input :=
    match contract_Run p input with Ret r => to_result r | Panic _ => ([], None) end
|}.

(** The libraries of the virtual machine, from Keccak, the curves and the hashes. *)
Definition precompiled_externals (keccak : Externals) `{Secp256k1} `{PrecompileLibs} : Externals := {|
  Keccak256 := @Keccak256 keccak;
  PrecompiledContractsHomestead := as_contract <$> contracts_Homestead;
  PrecompiledContractsByzantium := as_contract <$> contracts_Byzantium;
  PrecompiledContractsIstanbul := as_contract <$> contracts_Istanbul;
  PrecompiledContractsBerlin := as_contract <$> contracts_Berlin
|}.

(** * What the contracts promise *)

(** The [size] bytes from [start], with zeros beyond the end of the data. *)
Definition window (data : bytes) (start size : Z) : bytes :=
  take (Z.to_nat size) (drop (Z.to_nat start) data) ++
  zeros (size - Z.min size (len data - Z.min start (len data))).

(** EIP-198: the lengths of base, exponent and modulus, the numbers, and
    [base ** exponent % modulus] in as many bytes as the modulus has. *)
Definition modexp_result (input : bytes) : bytes :=
  let baseLen := be_val (window input 0 32) in
  let expLen := be_val (window input 32 32) in
  let modLen := be_val (window input 64 32) in
  let base := be_val (window input 96 baseLen) in
  let exp := be_val (window input (96 + baseLen) expLen) in
  let mod_ := be_val (window input (96 + baseLen + expLen) modLen) in
  to_be (Z.to_nat modLen) (if mod_ =? 0 then 0 else base ^ exp mod mod_).

(** EIP-152: rounds, state, block, offsets and the mark of the last block. *)
Definition blake2F_result (input : bytes) : string + bytes :=
  if negb (len input =? 213) then inl "invalid input length"%string
  else
    match input !! 212%nat with
    | Some 0 | Some 1 =>
        let rounds := be_val (take 4 input) in
        let h := Blake2b.le_words64 8 (take 64 (drop 4 input)) in
        let m := Blake2b.le_words64 16 (take 128 (drop 68 input)) in
        let t0 := Blake2b.le_val (take 8 (drop 196 input)) in
        let t1 := Blake2b.le_val (take 8 (drop 204 input)) in
        inr (Blake2b.put_words64 (Blake2b.rfc_F h m t0 t1 (bool_decide (input !! 212%nat = Some 1)) rounds))
    | _ => inl "invalid final flag"%string
    end.

Definition good_length (n : Z) (r : string + bytes) : Prop := ∀ out, r = inr out → len out = n.
Definition refuses (bad : bool) (r : string + bytes) : Prop := bad = true → ∃ msg, r = inl msg.

Definition promised (p : Precompiled) (input : bytes) (r : string + bytes) : Prop :=
  match p with
  | ecrecover => ∃ out, r = inr out ∧ (out = [] ∨ ∃ a, out = zeros 12 ++ a ∧ len a = 20)
  | sha256hash => ∃ out, r = inr out ∧ len out = 32
  | ripemd160hash => ∃ out, r = inr (zeros 12 ++ out) ∧ len out = 20
  | dataCopy => r = inr input
  | bigModExp _ => r = inr (modexp_result input)
  | bn256AddByzantium | bn256AddIstanbul | bn256ScalarMulByzantium | bn256ScalarMulIstanbul => good_length 64 r
  | bn256PairingByzantium | bn256PairingIstanbul => good_length 32 r ∧ refuses (negb (len input mod 192 =? 0)) r
  | blake2F => r = blake2F_result input
  | bls12381G1Add => good_length 128 r ∧ refuses (negb (len input =? 256)) r
  | bls12381G1Mul => good_length 128 r ∧ refuses (negb (len input =? 160)) r
  | bls12381G1MultiExp => good_length 128 r ∧ refuses ((len input =? 0) || negb (len input mod 160 =? 0)) r
  | bls12381G2Add => good_length 256 r ∧ refuses (negb (len input =? 512)) r
  | bls12381G2Mul => good_length 256 r ∧ refuses (negb (len input =? 288)) r
  | bls12381G2MultiExp => good_length 256 r ∧ refuses ((len input =? 0) || negb (len input mod 288 =? 0)) r
  | bls12381Pairing => good_length 32 r ∧ refuses ((len input =? 0) || negb (len input mod 384 =? 0)) r
  | bls12381MapG1 => good_length 128 r ∧ refuses (negb (len input =? 64)) r
  | bls12381MapG2 => good_length 256 r ∧ refuses (negb (len input =? 128)) r
  end.

(** What the libraries document: the sizes of hashes, keys and encoded points. *)
Class PrecompileLaws `{Externals} `{Secp256k1} `{PrecompileLibs} : Prop := {
  Keccak256_size b : len (Keccak256 b) = 32;
  Ecrecover_size h sig key : Ecrecover h sig = inr key → len key = 65;
  sha256_size b : len (sha256_Sum256 b) = 32;
  ripemd160_size b : len (ripemd160_Sum b) = 20;
  G1_Marshal_size p : len (G1_Marshal p) = 64;
  g1_EncodePoint_size p : len (g1_EncodePoint p) = 128;
  g2_EncodePoint_size p : len (g2_EncodePoint p) = 256
}.

(** The computation returns, with a result that has the property. *)
Definition returns {A} (m : Go A) (P : A → Prop) : Prop := ∃ a, m = Ret a ∧ P a.

Lemma returns_Ret {A} (a : A) (P : A → Prop) : P a → returns (Ret a) P.
Proof. intros. by exists a. Qed.
Lemma returns_bind {A B} (m : Go A) (k : A → Go B) Q P :
  returns m Q → (∀ a, Q a → returns (k a) P) → returns (m ≫= k) P.
Proof. intros (a & -> & Hq) Hk. by apply Hk. Qed.
Lemma returns_fmap {A B} (f : A → B) (m : Go A) Q P :
  returns m Q → (∀ a, Q a → P (f a)) → returns (f <$> m) P.
Proof. intros (a & -> & Hq) Hk. exists (f a). split; [done|by apply Hk]. Qed.
Lemma returns_or_fail {A B} (m : string + A) (k : A → Go (string + B)) (P : string + B → Prop) :
  (∀ msg, m = inl msg → P (inl msg)) → (∀ a, m = inr a → returns (k a) P) → returns (or_fail m k) P.
Proof. intros Hl Hr. destruct m; cbn; [by apply returns_Ret, Hl|by apply Hr]. Qed.

(** ** Reading the input *)

Section reading.

Lemma subslice_eq b i j : 0 ≤ i ≤ j → j ≤ len b →
  subslice b i j = Ret (take (Z.to_nat (j - i)) (drop (Z.to_nat i) b)).
Proof. intros. unfold subslice. by rewrite (proj2 (Z.leb_le 0 i)), (proj2 (Z.leb_le i j)), (proj2 (Z.leb_le j _)) by lia. Qed.

Lemma subslice_returns b i j : 0 ≤ i ≤ j → j ≤ len b → returns (subslice b i j) (λ s, len s = j - i).
Proof.
  intros. rewrite subslice_eq by done. apply returns_Ret. unfold len in *. rewrite length_take, length_drop. lia.
Qed.

Lemma nth_byte_returns b i : 0 ≤ i < len b → returns (nth_byte b i) (λ x, b !! Z.to_nat i = Some x).
Proof.
  intros Hi. unfold nth_byte. destruct (lookup_lt_is_Some_2 b (Z.to_nat i)) as [x E]; [unfold len in *; lia|].
  rewrite E. by apply returns_Ret.
Qed.

Lemma getData_returns data start size :
  0 ≤ start → 0 ≤ size < 2 ^ 63 → len data + size < 2 ^ 64 →
  returns (getData data start size) (λ w, w = window data start size).
Proof. intros. rewrite getData_spec by done. by apply returns_Ret. Qed.

Lemma window_length data start size : 0 ≤ start → 0 ≤ size → length (window data start size) = Z.to_nat size.
Proof.
  intros. unfold window, zeros. rewrite length_app, length_take, length_drop, length_replicate. unfold len. lia.
Qed.

Lemma window_bytes data start size : Forall is_byte data → Forall is_byte (window data start size).
Proof.
  intros. unfold window. apply Forall_app. split; [by apply Forall_take, Forall_drop|].
  apply Forall_replicate. by unfold is_byte.
Qed.

Lemma window_val data start size : 0 ≤ start → 0 ≤ size → Forall is_byte data →
  0 ≤ be_val (window data start size) < 256 ^ size.
Proof.
  intros Hs Hz Hb. pose proof (be_val_bound _ (window_bytes data start size Hb)) as Hv.
  rewrite window_length, Z2Nat.id in Hv by done. done.
Qed.

Lemma window_operands input start size : 0 ≤ start → 0 ≤ size →
  window (modexp_operands input) start size = window input (96 + start) size.
Proof.
  intros Hs Hz. unfold window, modexp_operands. destruct (Z.ltb_spec 96 (len input)) as [Hl|Hl].
  - rewrite drop_drop. f_equal; [f_equal; f_equal; lia|]. f_equal. unfold len in *. rewrite length_drop. lia.
  - rewrite !drop_ge by (unfold len in *; cbn; lia). f_equal. f_equal. unfold len in *. cbn. lia.
Qed.

Lemma operands_bytes input : Forall is_byte input → Forall is_byte (modexp_operands input).
Proof. intros. unfold modexp_operands. destruct (_ <? _); [by apply Forall_drop|constructor]. Qed.
Lemma operands_len input : len (modexp_operands input) ≤ len input.
Proof. unfold modexp_operands, len. destruct (_ <? _); [rewrite length_drop|cbn]; lia. Qed.

Lemma to_be_pad n k v : (k ≤ n)%nat → 0 ≤ v < 256 ^ Z.of_nat k → to_be n v = replicate (n - k) 0 ++ to_be k v.
Proof.
  intros Hk Hv. assert (Forall is_byte (replicate (n - k) 0 ++ to_be k v)) as Hb.
  { apply Forall_app. split; [apply Forall_replicate; by unfold is_byte|apply to_be_bytes]. }
  pose proof (to_be_be_val _ Hb) as E. rewrite length_app, length_replicate, to_be_length in E.
  replace (n - k + k)%nat with n in E by lia. rewrite <- E. f_equal. rewrite be_val_app, be_val_to_be.
  rewrite Z.mod_small by done. assert (∀ j, be_val (replicate j 0) = 0) as ->; [|lia].
  clear. intros j. induction j as [|j IH]; [done|]. rewrite replicate_S_end, be_val_app, IH. done.
Qed.

Lemma big_Bytes_pad v n : 0 ≤ v < 256 ^ Z.of_nat n → LeftPadBytes (big_Bytes v) n = to_be n v.
Proof.
  intros Hv. unfold big_Bytes. rewrite Z.abs_eq by lia.
  set (k := Z.to_nat ((big_BitLen v + 7) / 8)).
  assert (0 ≤ big_BitLen v) as Hb0.
  { unfold big_BitLen. destruct (v =? 0); [done|]. pose proof (Z.log2_nonneg (Z.abs v)). lia. }
  assert (256 ^ Z.of_nat k = 2 ^ (8 * Z.of_nat k)) as Hpow by (by rewrite Z.pow_mul_r by lia).
  assert (v < 256 ^ Z.of_nat k) as Hvk.
  { rewrite Hpow. pose proof (proj1 (big_BitLen_le v (8 * Z.of_nat k) ltac:(lia))) as Hbl.
    rewrite Z.abs_eq in Hbl by lia. apply Hbl. unfold k. rewrite Z2Nat.id by (apply Z.div_pos; lia).
    pose proof (Z.div_mod (big_BitLen v + 7) 8 ltac:(lia)). pose proof (Z.mod_pos_bound (big_BitLen v + 7) 8 ltac:(lia)). lia. }
  assert (k ≤ n)%nat as Hkn.
  { assert (big_BitLen v ≤ 8 * Z.of_nat n) as Hbl.
    { apply big_BitLen_le; [lia|]. rewrite Z.abs_eq, Z.pow_mul_r by lia. apply Hv. }
    unfold k. apply Nat2Z.inj_le. rewrite Z2Nat.id by (apply Z.div_pos; lia).
    apply Z.lt_succ_r, Z.div_lt_upper_bound; lia. }
  rewrite (to_be_pad n k v) by lia. unfold LeftPadBytes. rewrite to_be_length.
  case_decide; [|done]. replace (n - k)%nat with O by lia. done.
Qed.
End reading.

(** ** Gas *)

Section gas.

Lemma word_range x : 0 ≤ wrapU 64 x < 2 ^ 64.
Proof. apply Z.mod_pos_bound. lia. Qed.

Lemma words_returns {A} (data : bytes) start (k : Z → Go A) P :
  Forall is_byte data → len data < 2 ^ 32 → 0 ≤ start →
  (0 ≤ be_val (window data start 32) < 2 ^ 256 → returns (k (be_val (window data start 32))) P) →
  returns ((be_val <$> getData data start 32) ≫= k) P.
Proof.
  intros Hb Hl Hs Hk. eapply (returns_bind _ _ (λ v, v = be_val (window data start 32))).
  - eapply returns_fmap; [apply getData_returns; lia|]. by intros ? ->.
  - intros ? ->. apply Hk. pose proof (window_val data start 32 Hs ltac:(lia) Hb). done.
Qed.

Lemma big_BitLen_nonneg x : 0 ≤ big_BitLen x.
Proof. unfold big_BitLen. destruct (x =? 0); [done|]. pose proof (Z.log2_nonneg (Z.abs x)). lia. Qed.

Lemma adjusted_returns data baseLen expLen :
  Forall is_byte data → len data < 2 ^ 32 → 0 ≤ baseLen → 0 ≤ expLen →
  returns (adjusted_length data baseLen expLen) (λ a, 0 ≤ a ∧ 8 * (expLen - 32) ≤ a).
Proof.
  intros Hb Hl H0 H1. unfold adjusted_length. eapply (returns_bind _ _ (λ _, True)).
  - destruct (Z.leb_spec (len data) baseLen); [by apply returns_Ret|].
    assert (big_Uint64 baseLen = baseLen) as -> by (unfold big_Uint64; rewrite Z.abs_eq, wrapU_small; lia).
    destruct (Z.ltb_spec 32 expLen).
    + eapply returns_fmap; [apply getData_returns; lia|done].
    + assert (big_Uint64 expLen = expLen) as -> by (unfold big_Uint64; rewrite Z.abs_eq, wrapU_small; lia).
      eapply returns_fmap; [apply getData_returns; lia|done].
  - intros e _. apply returns_Ret. cbv zeta. pose proof (big_BitLen_nonneg e).
    destruct (Z.ltb_spec 32 expLen), (Z.ltb_spec 0 (big_BitLen e)); lia.
Qed.

Lemma modexp_cost_range e m b a : 0 ≤ modexp_cost e m b a < 2 ^ 64.
Proof.
  unfold modexp_cost. cbv zeta. destruct e.
  - destruct (_ <? _); [by unfold MaxUint64|]. destruct (_ <? _); [done|]. apply word_range.
  - destruct (_ <? _); [by unfold MaxUint64|]. apply word_range.
Qed.

(** Either the cost is what was computed, or it is not one that can be paid. *)
Lemma capped_cost g bound : 0 ≤ g → bound < MaxUint64 →
  (if 64 <? big_BitLen g then MaxUint64 else big_Uint64 g) ≤ bound → g ≤ bound.
Proof.
  intros Hg Hb. destruct (Z.ltb_spec 64 (big_BitLen g)); [lia|].
  pose proof (proj1 (big_BitLen_le g 64 ltac:(lia)) ltac:(done)) as Hlt. rewrite Z.abs_eq in Hlt by done.
  unfold big_Uint64. by rewrite Z.abs_eq, wrapU_small by lia.
Qed.

Lemma complexity_large x : 1 ≤ x → x ≤ modexpMultComplexity x ∧ (2 ^ 40 ≤ x → 2 ^ 76 ≤ modexpMultComplexity x).
Proof.
  intros Hx. unfold modexpMultComplexity.
  destruct (Z.leb_spec x 64); [split; [nia|lia]|]. destruct (Z.leb_spec x 1024).
  { split; [|lia]. assert (0 ≤ x * x / 4) by (apply Z.div_pos; nia). lia. }
  assert (0 ≤ x * x / 16) by (apply Z.div_pos; nia). split; [lia|]. intros Hl.
  assert (2 ^ 76 ≤ x * x / 16) by (apply Z.div_le_lower_bound; nia). lia.
Qed.

Lemma complexity_nonneg x : 0 ≤ x → 0 ≤ modexpMultComplexity x.
Proof. intros. destruct (Z.eq_dec x 0) as [->|]; [done|]. destruct (complexity_large x); lia. Qed.

(** Lengths whose cost is at most 2^60 are far from the bounds of machine integers. *)
Lemma modexp_cost_bounds e m b a el :
  0 ≤ m → 0 ≤ b → 0 ≤ a → 8 * (el - 32) ≤ a → ¬ (b = 0 ∧ m = 0) →
  modexp_cost e m b a ≤ 2 ^ 60 → m < 2 ^ 40 ∧ b < 2 ^ 40 ∧ el < 2 ^ 62.
Proof.
  intros Hm Hb Ha Hel Hnz. unfold modexp_cost. cbv zeta. set (x := Z.max m b). assert (1 ≤ x) as Hx by lia.
  enough (∀ c d, 1 ≤ c → (2 ^ 40 ≤ x → 2 ^ 70 ≤ c) → 0 < d ≤ 20 → c * Z.max a 1 / d ≤ 2 ^ 60 → m < 2 ^ 40 ∧ b < 2 ^ 40 ∧ el < 2 ^ 62) as Hc.
  - destruct e.
    + set (w := (x + 7) / 8). intros Hg.
      assert (1 ≤ w) by (apply Z.div_le_lower_bound; lia).
      assert (2 ^ 40 ≤ x → 2 ^ 37 ≤ w) by (intros; apply Z.div_le_lower_bound; lia).
      apply (Hc (w * w) 3); [nia|intros; nia|lia|].
      apply capped_cost; [apply Z.div_pos; nia|by unfold MaxUint64|].
      destruct (64 <? _); [done|]. destruct (Z.ltb_spec (big_Uint64 (w * w * Z.max a 1 / 3)) 200); lia.
    + destruct (complexity_large x Hx) as [H1 H2]. intros Hg.
      apply (Hc (modexpMultComplexity x) 20); [lia|lia|lia|].
      apply capped_cost; [apply Z.div_pos; nia|by unfold MaxUint64|done].
  - intros c d Hc1 Hc2 Hd Hle.
    assert (c * Z.max a 1 < 20 * (2 ^ 60 + 1)) as Hlt.
    { pose proof (Z.div_mod (c * Z.max a 1) d ltac:(lia)). pose proof (Z.mod_pos_bound (c * Z.max a 1) d ltac:(lia)). nia. }
    assert (x < 2 ^ 40). { destruct (Z.lt_ge_cases x (2 ^ 40)) as [|Hge]; [done|]. specialize (Hc2 Hge). nia. }
    assert (a < 20 * (2 ^ 60 + 1)) by nia. lia.
Qed.

Lemma multiexp_gas_returns size mul input : 0 < size → returns (multiexp_gas size mul input) (λ g, 0 ≤ g < 2 ^ 64).
Proof.
  intros Hs. unfold multiexp_gas. cbv zeta. destruct (Z.eqb_spec (len input / size) 0); [by apply returns_Ret|].
  assert (0 ≤ len input / size) by (apply Z.div_pos; unfold len; lia).
  eapply returns_bind; [apply nth_byte_returns; change (len Bls12381MultiExpDiscountTable) with 128;
    destruct (Z.ltb_spec (len input / size) 128); lia|].
  intros d _. apply returns_Ret. pose proof (word_range (wrapU 64 (len input / size * mul) * d)).
  split; [apply Z.div_pos; lia|apply Z.div_lt_upper_bound; lia].
Qed.

Lemma modexp_gas_returns e input : Forall is_byte input → len input < 2 ^ 32 →
  returns (bigModExp_RequiredGas e input) (λ g, 0 ≤ g < 2 ^ 64 ∧
    (g ≤ 2 ^ 60 →
       let b := be_val (window input 0 32) in let m := be_val (window input 64 32) in
       b = 0 ∧ m = 0 ∨ m < 2 ^ 40 ∧ b < 2 ^ 40 ∧ be_val (window input 32 32) < 2 ^ 62)).
Proof.
  intros Hb Hl. unfold bigModExp_RequiredGas.
  do 3 (apply words_returns; [done|done|lia|intros ?]).
  eapply returns_bind.
  { apply adjusted_returns; [by apply operands_bytes|pose proof (operands_len input); lia|lia|lia]. }
  intros a [Ha Hel]. apply returns_Ret. split; [apply modexp_cost_range|]. intros Hg. cbv zeta.
  destruct (decide (be_val (window input 0 32) = 0 ∧ be_val (window input 64 32) = 0)) as [|Hnz]; [by left|].
  right. eapply modexp_cost_bounds; [| |exact Ha|exact Hel|exact Hnz|exact Hg]; lia.
Qed.

(** The gas of every contract is computed, and is an unsigned integer. *)
Lemma gas_returns p input : Forall is_byte input → len input < 2 ^ 32 →
  returns (contract_RequiredGas p input) (λ g, 0 ≤ g < 2 ^ 64).
Proof.
  intros Hb Hl. destruct p; cbn [contract_RequiredGas]; try (apply returns_Ret; done || apply word_range);
    try (apply multiexp_gas_returns; lia).
  - destruct (modexp_gas_returns eip2565 input Hb Hl) as (g & -> & Hg & _). by apply returns_Ret.
  - unfold blake2F_RequiredGas. destruct (Z.eqb_spec (len input) blake2FInputLength) as [E|]; cbn [negb]; [|by apply returns_Ret].
    unfold blake2FInputLength in E. eapply returns_bind; [apply subslice_returns; lia|].
    intros s _. apply returns_Ret. unfold wrapU. pose proof (Z.mod_pos_bound (be_val s) (2 ^ 32) ltac:(lia)). lia.
Qed.
End gas.

(** ** Results *)

Section results.
Context `{Externals} `{Secp256k1} `{!PrecompileLibs} `{!PrecompileLaws}.

Lemma ok_good n out : len out = n → good_length n (inr out).
Proof. by intros ? ? [= <-]. Qed.
Lemma fails_good n msg : good_length n (inl msg).
Proof. done. Qed.
Lemma accepts r : refuses false r.
Proof. done. Qed.
Lemma failed_refuses b msg : refuses b (inl msg).
Proof. intros _. by exists msg. Qed.
Lemma marshalled p : good_length 64 (inr (G1_Marshal p)).
Proof. apply ok_good, G1_Marshal_size. Qed.
Lemma encoded_g1 p : good_length 128 (inr (g1_EncodePoint p)).
Proof. apply ok_good, g1_EncodePoint_size. Qed.
Lemma encoded_g2 p : good_length 256 (inr (g2_EncodePoint p)).
Proof. apply ok_good, g2_EncodePoint_size. Qed.
#[local] Hint Resolve ok_good fails_good accepts failed_refuses marshalled encoded_g1 encoded_g2 : idw.

(** A slice within bounds, whose content does not matter. *)
Lemma sliced {B} b i j (k : bytes → Go B) P :
  0 ≤ i ≤ j → j ≤ len b → (∀ s, len s = j - i → returns (k s) P) → returns (subslice b i j ≫= k) P.
Proof. intros. by eapply returns_bind; [by apply subslice_returns|]. Qed.
Lemma sliced_val {B} b i j (k : Z → Go B) P :
  0 ≤ i ≤ j → j ≤ len b → (∀ v, returns (k v) P) → returns ((be_val <$> subslice b i j) ≫= k) P.
Proof.
  intros. eapply (returns_bind _ _ (λ _, True)); [eapply returns_fmap; [by apply subslice_returns|done]|auto].
Qed.
Lemma got {B} b start size (k : bytes → Go B) P :
  0 ≤ start → 0 ≤ size < 2 ^ 63 → len b < 2 ^ 32 → (∀ s, returns (k s) P) → returns (getData b start size ≫= k) P.
Proof. intros. eapply returns_bind; [apply getData_returns; lia|auto]. Qed.

Lemma got_val {B} b start size (k : Z → Go B) P :
  0 ≤ start → 0 ≤ size < 2 ^ 63 → len b < 2 ^ 32 →
  returns (k (be_val (window b start size))) P → returns ((be_val <$> getData b start size) ≫= k) P.
Proof.
  intros. eapply (returns_bind _ _ (λ v, v = be_val (window b start size))); [|by intros ? ->].
  eapply returns_fmap; [apply getData_returns; lia|]. by intros ? ->.
Qed.

Lemma ecrecover_returns input : len input < 2 ^ 32 → returns (ecrecover_Run input) (promised ecrecover input).
Proof.
  intros Hl. unfold ecrecover_Run. set (i := RightPadBytes input 128).
  assert (128 ≤ len i) as Hi.
  { unfold i, RightPadBytes, len. destruct (Z.leb_spec 128 (Z.of_nat (length input))); [lia|].
    rewrite length_app, length_replicate. lia. }
  assert (returns (gives []) (promised ecrecover input)) as Hnil by (apply returns_Ret; eexists; split; [done|by left]).
  apply sliced_val; [lia..|intros r]. apply sliced_val; [lia..|intros s].
  eapply (returns_bind _ _ (λ _, True)); [eapply returns_fmap; [apply nth_byte_returns; lia|done]|intros v _].
  apply sliced; [lia..|intros high _]. destruct (negb _ || negb _); [done|].
  apply sliced; [lia..|intros rs _]. apply sliced; [lia..|intros hash _].
  destruct (Ecrecover hash (rs ++ [v])) as [|key] eqn:E; [done|].
  pose proof (Ecrecover_size _ _ _ E). apply sliced; [lia..|intros k _].
  apply sliced; [rewrite ?Keccak256_size; lia..|intros h Hh]. rewrite Keccak256_size in Hh.
  apply returns_Ret. eexists. split; [done|]. right. exists h. unfold LeftPadBytes.
  unfold len in Hh. case_decide; [lia|]. replace (32 - length h)%nat with 12%nat by lia. split; [done|]. unfold len. lia.
Qed.

Lemma big_Uint64_small x : 0 ≤ x < 2 ^ 64 → big_Uint64 x = x.
Proof. intros. unfold big_Uint64. rewrite Z.abs_eq, wrapU_small; lia. Qed.

Lemma modexp_returns e input g : Forall is_byte input → len input < 2 ^ 32 →
  bigModExp_RequiredGas e input = Ret g → g ≤ 2 ^ 60 →
  returns (bigModExp_Run input) (λ r, r = inr (modexp_result input)).
Proof.
  intros Hb Hl Eg Hg. destruct (modexp_gas_returns e input Hb Hl) as (g' & Eg' & _ & Hd).
  rewrite Eg in Eg'. injection Eg' as <-. specialize (Hd Hg). cbv zeta in Hd.
  unfold bigModExp_Run, modexp_result. cbv zeta.
  set (b := be_val (window input 0 32)) in *. set (el := be_val (window input 32 32)) in *.
  set (m := be_val (window input 64 32)) in *.
  pose proof (window_val input 0 32 ltac:(lia) ltac:(lia) Hb) as Hb0.
  pose proof (window_val input 32 32 ltac:(lia) ltac:(lia) Hb) as He0.
  pose proof (window_val input 64 32 ltac:(lia) ltac:(lia) Hb) as Hm0. fold b in Hb0. fold el in He0. fold m in Hm0.
  assert (∀ start, 0 ≤ start → returns ((λ b0, big_Uint64 (be_val b0)) <$> getData input start 32)
    (λ v, v = big_Uint64 (be_val (window input start 32)))) as Hread.
  { intros start Hs. eapply returns_fmap; [apply getData_returns; lia|]. by intros ? ->. }
  do 3 (eapply returns_bind; [apply Hread; lia|intros ? ->]). fold b el m.
  destruct Hd as [[Hbz Hmz]|(Hm & Hbl & Hel)].
  { rewrite Hbz, Hmz. cbn. by apply returns_Ret. }
  rewrite !big_Uint64_small by lia.
  assert (len (modexp_operands input) < 2 ^ 32) as Hlo by (pose proof (operands_len input); lia).
  destruct ((b =? 0) && (m =? 0)) eqn:Ez.
  { apply andb_true_iff in Ez as [_ ->%Z.eqb_eq]. by apply returns_Ret. }
  do 2 (apply got_val; [lia..|]). rewrite wrapU_small by lia. apply got_val; [lia..|].
  rewrite !window_operands, Z.add_0_r, Z.add_assoc, wrapS_small by lia.
  pose proof (window_val input (96 + b + el) m ltac:(lia) ltac:(lia) Hb) as Hmd.
  set (md := be_val (window input (96 + b + el) m)) in *.
  assert ((big_BitLen md =? 0) = (md =? 0)) as ->.
  { destruct (Z.eqb_spec md 0) as [->|Hnz]; [done|]. apply Z.eqb_neq. intros Hbl0.
    pose proof (proj1 (big_BitLen_le md 0 ltac:(lia)) ltac:(lia)). lia. }
  destruct (Z.eqb_spec md 0) as [Hz|Hz]; apply returns_Ret; f_equal.
  - rewrite <- big_Bytes_pad; [done|]. rewrite Z2Nat.id by lia. lia.
  - unfold big_Exp. rewrite Z.abs_eq, Zpow_mod_correct by lia. apply big_Bytes_pad.
    rewrite Z2Nat.id by lia.
    pose proof (Z.mod_pos_bound (be_val (window input 96 b) ^ be_val (window input (96 + b) el)) md ltac:(lia)). lia.
Qed.

Lemma blake2F_returns input : Forall is_byte input → returns (blake2F_Run input) (promised blake2F input).
Proof.
  intros Hb. unfold blake2F_Run, promised, blake2F_result. change blake2FInputLength with 213.
  destruct (Z.eqb_spec (len input) 213) as [Hl|]; cbn [negb]; [|by apply returns_Ret].
  eapply returns_bind; [apply nth_byte_returns; lia|]. cbv beta. change (Z.to_nat 212) with 212%nat. intros flag Ef. rewrite Ef.
  destruct (decide (flag = 0 ∨ flag = 1)) as [Hf|Hf].
  2: { rewrite !(proj2 (Z.eqb_neq _ _)) by lia. destruct flag as [|[]|]; try (by apply returns_Ret); lia. }
  replace (negb (flag =? 0) && negb (flag =? 1)) with false by (destruct Hf as [-> | ->]; done).
  rewrite !subslice_eq by lia. cbn [fmap Go_fmap mbind Go_bind]. apply returns_Ret.
  change (Z.to_nat (4 - 0)) with 4%nat. change (Z.to_nat 0) with 0%nat. rewrite drop_0.
  rewrite Blake2b.F_rfc by apply Blake2b.le_words64_length.
  pose proof (be_val_bound (take 4 input) ltac:(by apply Forall_take)) as Hr.
  rewrite wrapU_small; [by destruct Hf as [-> | ->]|].
  assert (256 ^ Z.of_nat (length (take 4 input)) ≤ 2 ^ 32); [|lia].
  change (2 ^ 32) with (256 ^ 4). apply Z.pow_le_mono_r; [done|]. rewrite length_take. lia.
Qed.

Lemma bn256_add_returns input : len input < 2 ^ 32 → returns (runBn256Add input) (good_length 64).
Proof.
  intros Hl. unfold runBn256Add. apply got; [lia..|intros b]. apply returns_or_fail; [auto with idw|intros x _].
  apply got; [lia..|intros c]. apply returns_or_fail; [auto with idw|intros y _]. apply returns_Ret. auto with idw.
Qed.

Lemma bn256_mul_returns input : len input < 2 ^ 32 → returns (runBn256ScalarMul input) (good_length 64).
Proof.
  intros Hl. unfold runBn256ScalarMul. apply got; [lia..|intros b]. apply returns_or_fail; [auto with idw|intros x _].
  apply got_val; [lia..|]. apply returns_Ret. auto with idw.
Qed.

Lemma bn256_pairs_returns input n : ∀ i cs ts, 0 ≤ i → i + 192 * Z.of_nat n ≤ len input →
  returns (bn256_pairs n i input cs ts) (λ _, True).
Proof.
  induction n as [|n IH]; intros i cs ts Hi Hl; [by apply returns_Ret|]. cbn [bn256_pairs].
  apply sliced; [lia..|intros b _]. apply returns_or_fail; [done|intros c _].
  apply sliced; [lia..|intros d _]. apply returns_or_fail; [done|intros t _]. apply IH; lia.
Qed.

Lemma whole_pairs size l : 0 < size → 0 ≤ l → 0 + size * Z.of_nat (Z.to_nat (l / size)) ≤ l.
Proof. intros. rewrite Z2Nat.id by (apply Z.div_pos; lia). pose proof (Z.mul_div_le l size). lia. Qed.

Lemma len_at_least_0 (b : bytes) : 0 ≤ len b.
Proof. unfold len. lia. Qed.
#[local] Hint Resolve len_at_least_0 : idw.

Lemma bn256_pairing_returns input :
  returns (runBn256Pairing input) (λ r, good_length 32 r ∧ refuses (negb (len input mod 192 =? 0)) r).
Proof.
  unfold runBn256Pairing. pose proof (Z.mod_pos_bound (len input) 192 ltac:(lia)).
  destruct (Z.ltb_spec 0 (len input mod 192)); [apply returns_Ret; auto with idw|].
  replace (len input mod 192) with 0 by lia. cbn [Z.eqb negb].
  eapply returns_bind; [apply bn256_pairs_returns; [lia|apply whole_pairs; auto with idw; lia]|intros res _].
  apply returns_or_fail; [auto with idw|intros [cs ts] _]. apply returns_Ret.
  split; [|apply accepts]. apply ok_good. by destruct (PairingCheck cs ts).
Qed.

Lemma multiexp_pairs_returns {P} (decode : bytes → string + P) point input n : ∀ off points scalars,
  0 ≤ point → 0 ≤ off → off + (point + 32) * Z.of_nat n ≤ len input →
  returns (multiexp_pairs decode point n off input points scalars) (λ _, True).
Proof.
  induction n as [|n IH]; intros off points scalars Hp Ho Hl; [by apply returns_Ret|]. cbn [multiexp_pairs].
  apply sliced; [lia..|intros b _]. apply returns_or_fail; [done|intros q _].
  apply sliced_val; [lia..|intros v]. apply IH; lia.
Qed.

Lemma multiexp_returns {P} (decode : bytes → string + P) multiExp encode point n input :
  0 ≤ point → (∀ p, len (encode p) = n) →
  returns (multiexp_Run decode multiExp encode point input)
    (λ r, good_length n r ∧ refuses ((len input =? 0) || negb (len input mod (point + 32) =? 0)) r).
Proof.
  intros Hp He. unfold multiexp_Run. cbv zeta. destruct (_ || _); [apply returns_Ret; auto with idw|].
  eapply returns_bind; [apply multiexp_pairs_returns; [done|lia|apply whole_pairs; auto with idw; lia]|intros res _].
  apply returns_or_fail; [auto with idw|intros [ps es] _]. apply returns_Ret. auto with idw.
Qed.

Lemma bls_pairs_returns input n : ∀ off e, 0 ≤ off → off + 384 * Z.of_nat n ≤ len input →
  returns (bls_pairs n off input e) (λ _, True).
Proof.
  induction n as [|n IH]; intros off e Ho Hl; [by apply returns_Ret|]. cbn [bls_pairs].
  apply sliced; [lia..|intros b _]. apply returns_or_fail; [done|intros p1 _].
  apply sliced; [lia..|intros c _]. apply returns_or_fail; [done|intros p2 _].
  destruct (negb _); [by apply returns_Ret|]. destruct (negb _); [by apply returns_Ret|]. apply IH; lia.
Qed.

Lemma bls_pairing_returns input :
  returns (bls12381Pairing_Run input) (λ r, good_length 32 r ∧ refuses ((len input =? 0) || negb (len input mod 384 =? 0)) r).
Proof.
  unfold bls12381Pairing_Run. destruct (_ || _); [apply returns_Ret; auto with idw|].
  eapply returns_bind; [apply bls_pairs_returns; [lia|apply whole_pairs; auto with idw; lia]|intros res _].
  apply returns_or_fail; [auto with idw|intros e _]. apply returns_Ret.
  split; [|apply accepts]. apply ok_good. by destruct (pairing_Check e).
Qed.

(** The contracts of a fixed input size: any other is refused, and then slices are
    within bounds and every step that decodes may fail. *)
Lemma sized n m input (k : Outcome) :
  (len input = m → returns k (good_length n)) →
  returns (if negb (len input =? m) then fails invalid_length else k)
    (λ r, good_length n r ∧ refuses (negb (len input =? m)) r).
Proof.
  intros Hk. destruct (Z.eqb_spec (len input) m) as [E|]; cbn [negb]; [|apply returns_Ret; auto with idw].
  destruct (Hk E) as (r & -> & Hr). apply returns_Ret. auto with idw.
Qed.

Local Ltac bls := unfold bls12381G1Add_Run, bls12381G1Mul_Run, bls12381G2Add_Run, bls12381G2Mul_Run,
    bls12381MapG1_Run, bls12381MapG2_Run; apply sized; intros ?;
  repeat ((apply sliced; [lia..|intros ? _]) || (apply sliced_val; [lia..|intros ?]) || (apply returns_or_fail; [auto with idw|intros ? _]));
  apply returns_Ret; auto with idw.

(** What a contract whose gas can be paid does: it returns, with what it promises. *)
Lemma run_returns p input g : Forall is_byte input → len input < 2 ^ 32 →
  contract_RequiredGas p input = Ret g → g ≤ 2 ^ 60 → returns (contract_Run p input) (promised p input).
Proof.
  intros Hb Hl Eg Hg. destruct p; cbn [contract_Run promised contract_RequiredGas] in *.
  - by apply ecrecover_returns.
  - apply returns_Ret. eexists. split; [done|apply sha256_size].
  - apply returns_Ret. exists (ripemd160_Sum input). pose proof (ripemd160_size input) as Hr. split; [|done].
    unfold LeftPadBytes. unfold len in Hr. case_decide; [lia|]. by replace (32 - _)%nat with 12%nat by lia.
  - by apply returns_Ret.
  - by eapply modexp_returns.
  - by apply bn256_add_returns.
  - by apply bn256_add_returns.
  - by apply bn256_mul_returns.
  - by apply bn256_mul_returns.
  - apply bn256_pairing_returns.
  - apply bn256_pairing_returns.
  - by apply blake2F_returns.
  - bls.
  - bls.
  - apply (multiexp_returns _ _ _ 128 128); [lia|apply g1_EncodePoint_size].
  - bls.
  - bls.
  - apply (multiexp_returns _ _ _ 256 256); [lia|apply g2_EncodePoint_size].
  - apply bls_pairing_returns.
  - bls.
  - bls.
Qed.
End results.

(** The price per word of the input cannot overflow: the sources leave it unchecked. *)
Lemma word_gas_exact perWord base input : 0 ≤ perWord < 2 ^ 16 → 0 ≤ base < 2 ^ 16 → len input < 2 ^ 32 →
  word_gas perWord base input = (len input + 31) / 32 * perWord + base.
Proof.
  intros Hp Hb Hl. unfold word_gas. assert (0 ≤ len input) by (unfold len; lia).
  rewrite (wrapU_small 64 (len input + 31)) by lia.
  assert (0 ≤ (len input + 31) / 32 < 2 ^ 32) by (split; [apply Z.div_pos; lia|apply Z.div_lt_upper_bound; lia]).
  rewrite (wrapU_small 64 ((len input + 31) / 32 * perWord)) by nia. apply wrapU_small. nia.
Qed.

(** ** The virtual machine with these contracts *)

Lemma as_contract_range `{Externals} `{Secp256k1} `{PrecompileLibs} p input : 0 ≤ RequiredGas (as_contract p) input.
Proof.
  assert (∀ x, 0 ≤ wrapU 64 x) as Hw by (intros x; by apply Z.mod_pos_bound).
  cbn. destruct p; cbn [contract_RequiredGas]; try (done || apply Hw).
  - unfold bigModExp_RequiredGas, mbind, Go_bind, fmap, Go_fmap. repeat case_match; simplify_eq; try done. apply modexp_cost_range.
  - unfold blake2F_RequiredGas, mbind, Go_bind. repeat case_match; simplify_eq; try done. by apply Z.mod_pos_bound.
  - pose proof (multiexp_gas_returns 160 Bls12381G1MulGas input ltac:(lia)) as (g & -> & Hg). lia.
  - pose proof (multiexp_gas_returns 288 Bls12381G2MulGas input ltac:(lia)) as (g & -> & Hg). lia.
Qed.

(** What the theorems about executions ask of the contracts they run. *)
#[export] Instance precompiled_range keccak `{Secp256k1} `{PrecompileLibs} :
  ExternalsRange (precompiled_externals keccak).
Proof.
  split. intros r addr p input Hp.
  assert (∃ m : gmap Address Precompiled, @precompile (precompiled_externals keccak) r addr = (as_contract <$> m) !! addr) as [m E].
  { unfold precompile. repeat (destruct (_ : bool); [by eexists|]). by eexists. }
  rewrite E, lookup_fmap in Hp. destruct (m !! addr) as [q|]; [|done]. injection Hp as <-. apply as_contract_range.
Qed.

(** C20: A precompiled contract computes a price that fits in a word.  With
    less gas nothing runs and no gas is left.  With enough of it, up to 2^60, no
    contract panics and each one gives what it promises, for the rest of the gas:
    the modular power of EIP-198 with all lengths taken from the input, the
    compression of RFC 7693, points and hashes of the documented sizes, and errors
    for inputs of a wrong size. *)
Theorem precompiles_run `{Externals} `{Secp256k1} `{!PrecompileLibs} `{!PrecompileLaws} p input supplied :
  Forall is_byte input → len input < 2 ^ 32 → 0 ≤ supplied ≤ 2 ^ 60 →
  ∃ g, contract_RequiredGas p input = Ret g ∧ 0 ≤ g < 2 ^ 64 ∧
    (supplied < g → RunPrecompiledContract (as_contract p) input supplied = ([], 0, Some ErrOutOfGas)) ∧
    (g ≤ supplied → ∃ r, contract_Run p input = Ret r ∧ promised p input r ∧
       RunPrecompiledContract (as_contract p) input supplied = ((to_result r).1, supplied - g, (to_result r).2)).
Proof.
  intros Hb Hl Hs. destruct (gas_returns p input Hb Hl) as (g & Eg & Hg). exists g. split; [done|]. split; [done|].
  unfold RunPrecompiledContract. cbn [RequiredGas as_contract run_precompile]. rewrite Eg. split.
  - intros Hlt. by rewrite (proj2 (Z.ltb_lt _ _)).
  - intros Hle. destruct (run_returns p input g Hb Hl Eg ltac:(lia)) as (r & Er & Hr). exists r.
    split; [done|]. split; [done|]. rewrite (proj2 (Z.ltb_ge _ _)) by done. rewrite Er. by destruct r.
Qed.

(** ** Examples *)

(** Libraries in which points are their encodings and every key is recovered. *)
Definition pad (n : Z) (b : bytes) : bytes := take (Z.to_nat n) (b ++ zeros n).

Lemma pad_length n b : 0 ≤ n → len (pad n b) = n.
Proof. intros. unfold pad, zeros, len. rewrite length_take, length_app, length_replicate. lia. Qed.

#[local] Instance demo_keys : Secp256k1 :=
  {| PrivateKey := unit; pubkey _ := []; Ecrecover h sig := inr (4 :: pad 64 h); crypto_Sign _ _ := inl "no key"%string |}.

#[local] Instance demo_libs : PrecompileLibs := {|
  sha256_Sum256 := pad 32; ripemd160_Sum := pad 20;
  G1 := bytes; G2 := bytes;
  G1_Unmarshal b := inr b; G1_Marshal := pad 64; G1_Add x _ := x; G1_ScalarMult x _ := x;
  G2_Unmarshal b := inr b; PairingCheck _ _ := true;
  PointG1 := bytes; PointG2 := bytes;
  g1_DecodePoint b := inr b; g1_EncodePoint := pad 128; g1_Add x _ := x; g1_MulScalar x _ := x;
  g1_MultiExp l _ := default [] (head l); g1_MapToCurve b := inr b; g1_InCorrectSubgroup _ := true;
  g2_DecodePoint b := inr b; g2_EncodePoint := pad 256; g2_Add x _ := x; g2_MulScalar x _ := x;
  g2_MultiExp l _ := default [] (head l); g2_MapToCurve b := inr b; g2_InCorrectSubgroup _ := true;
  pairing_Check _ := true
|}.

#[local] Instance demo_laws : PrecompileLaws.
Proof.
  split; try (intros; by apply pad_length).
  - intros b. unfold len. cbn [Keccak256 demo_externals]. by rewrite to_be_length.
  - intros h sig key [= <-]. unfold len. cbn [length]. pose proof (pad_length 64 h ltac:(lia)) as E. unfold len in E. lia.
Qed.

(** 3 ^ (2^256 - 2^32 - 978) mod (2^256 - 2^32 - 977): the first example of EIP-198,
    with its price before and after EIP-2565. *)
Definition fermat_input : bytes :=
  to_be 32 1 ++ to_be 32 32 ++ to_be 32 32 ++ [3] ++ to_be 32 (2 ^ 256 - 2 ^ 32 - 978) ++ to_be 32 (2 ^ 256 - 2 ^ 32 - 977).

Example fermat : contract_Run (bigModExp true) fermat_input = gives (to_be 32 1).
Proof. vm_compute. reflexivity. Qed.
Example fermat_gas :
  contract_RequiredGas (bigModExp false) fermat_input = Ret 13056 ∧ contract_RequiredGas (bigModExp true) fermat_input = Ret 1360.
Proof. split; vm_compute; reflexivity. Qed.

(** The fifth vector of EIP-152: the digest of "abc". *)
Definition abc_input : bytes := FromHex
  "0000000c48c9bdf267e6096a3ba7ca8485ae67bb2bf894fe72f36e3cf1361d5f3af54fa5d182e6ad7f520e511f6c3e2b8c68059b6bbd41fbabd9831f79217e1319cde05b61626300000000000000000000000000000000000000000000000000000000000000000000000000000000000000000000000000000000000000000000000000000000000000000000000000000000000000000000000000000000000000000000000000000000000000000000000000000000000000000000000000000000000300000000000000000000000000000001".

Example abc : contract_Run blake2F abc_input = gives (FromHex
  "ba80a53f981c4d0d6a2797b69f12f6e94c212f14685ac4b74b12bb6fdbffa2d17d87c5392aab792dc252d5de4533cc9518d38aa8dbf1925ab92386edd4009923").
Proof. vm_compute. reflexivity. Qed.

(** An exponent of 2^64 - 1 bytes has a price that fits in a word, and reading it panics. *)
Example modexp_panics :
  let input := to_be 32 1 ++ to_be 32 (2 ^ 64 - 1) ++ to_be 32 1 ++ [2] in
  contract_RequiredGas (bigModExp false) input = Ret 7378697629483820633 ∧
  contract_Run (bigModExp false) input = Panic SliceOutOfRange.
Proof. split; vm_compute; reflexivity. Qed.

Lemma fermat_bytes : Forall is_byte fermat_input.
Proof.
  unfold fermat_input. do 3 (apply Forall_app; split; [apply to_be_bytes|]).
  apply Forall_app. split; [by apply Forall_singleton|]. apply Forall_app. split; apply to_be_bytes.
Qed.

Lemma precompiles_run_witness :
  RunPrecompiledContract (as_contract (bigModExp true)) fermat_input 2000 = (modexp_result fermat_input, 640, None) ∧
  RunPrecompiledContract (as_contract (bigModExp true)) fermat_input 1000 = ([], 0, Some ErrOutOfGas).
Proof.
  pose proof fermat_bytes as Hb. split.
  - destruct (precompiles_run (bigModExp true) fermat_input 2000 Hb eq_refl) as (g & Eg & _ & _ & Hr); [lia|].
    rewrite (proj2 fermat_gas) in Eg. injection Eg as <-.
    destruct Hr as (r & _ & Hp & ->); [lia|]. cbn [promised] in Hp. rewrite Hp. reflexivity.
  - destruct (precompiles_run (bigModExp true) fermat_input 1000 Hb eq_refl) as (g & Eg & _ & Hr & _); [lia|].
    rewrite (proj2 fermat_gas) in Eg. injection Eg as <-. apply Hr. lia.
Defined.
