(* ===== verification/MerkleTrie.v ===== *)
(** * trie: the Merkle Patricia trie and its keys

    trie/trie.go, encoding.go, node.go and hasher.go: keys in nibbles, looking up,
    inserting, deleting and hashing, with the nodes that are loaded from the
    database on the way; committer.go and database.go: storing nodes in memory and
    on the disk, which is the one of ethdb/memorydb; secure_trie.go.  Nodes are
    values here: the code copies a node before it changes it. *)

From stdpp Require Import pretty.
From S2P Require Import Prelude Common Uint256 Machine Vm Rlp.

(** * trie/encoding.go *)

Definition hasTerm (s : bytes) : bool := bool_decide (last s = Some 16).

Definition drop_last (s : bytes) : bytes := take (length s - 1) s.

(** Pairs of nibbles become bytes; an odd one out is out of range. *)
Fixpoint decodeNibbles (nibbles : bytes) : Go bytes :=
  match nibbles with
  | [] => Ret []
  | [_] => Panic IndexOutOfRange
  | a :: b :: rest => l ← decodeNibbles rest; Ret (Z.lor (wrapU 8 (Z.shiftl a 4)) b :: l)
  end.

Definition hexToCompact (hex : bytes) : Go bytes :=
  let terminator := if hasTerm hex then 1 else 0 in
  let hex := if hasTerm hex then drop_last hex else hex in
  let flag := Z.shiftl terminator 5 in
  match hex with
  | x :: rest => if Nat.odd (length hex) then l ← decodeNibbles rest; Ret (Z.lor (Z.lor flag 16) x :: l)
                 else l ← decodeNibbles hex; Ret (flag :: l)
  | [] => Ret [flag]
  end.

Definition keybytesToHex (str : bytes) : bytes := concat (map (λ b, [b / 16; b mod 16]) str) ++ [16].

Definition compactToHex (compact : bytes) : bytes :=
  match compact with
  | [] => []
  | _ =>
      let base := keybytesToHex compact in
      let base0 := default 0 (head base) in
      let base := if base0 <? 2 then drop_last base else base in
      drop (Z.to_nat (2 - Z.land base0 1)) base
  end.

Definition hexToKeybytes (hex : bytes) : Go bytes :=
  let hex := if hasTerm hex then drop_last hex else hex in
  if Nat.odd (length hex) then Panic ExplicitPanic else decodeNibbles hex.

Fixpoint prefixLen (a b : bytes) : nat :=
  match a, b with
  | x :: a', y :: b' => if x =? y then S (prefixLen a' b') else O
  | _, _ => O
  end.

(** * trie/node.go *)

Record nodeFlag := mkFlag { fl_hash : option bytes; fl_dirty : bool }.

(** The 17 children of a full node are a list of that length, with [nilNode] for nil. *)
Inductive node :=
| nilNode
| valueNode (v : bytes)
| hashNode (h : bytes)
| shortNode (Key : bytes) (Val : node) (flags : nodeFlag)
| fullNode (Children : list node) (flags : nodeFlag).

Definition cache (n : node) : option bytes * bool :=
  match n with
  | shortNode _ _ f | fullNode _ f => (fl_hash f, fl_dirty f)
  | _ => (None, true)
  end.

Definition is_nil (n : node) : bool := match n with nilNode => true | _ => false end.

Definition newFlag : nodeFlag := mkFlag None true.

(** What [rlp.Encode] writes of a node: [fullNode.EncodeRLP] replaces the children
    that are nil. *)
Fixpoint node_value (n : node) : rval :=
  match n with
  | nilNode => VNilInterface
  | valueNode v => VBytes v
  | hashNode h => VBytes h
  | shortNode k v _ => VStruct [VBytes k; node_value v]
  | fullNode cs _ => VSlice (map (λ c, if is_nil c then VBytes [] else node_value c) cs)
  end.

(** A result or an error, of a computation that may panic or run out of fuel: nodes
    of a database may refer to each other in a circle. *)
Definition try_ret {E A} (a : A) : Res (E + A) := Done (inr a).
Definition try_bind {E A B} (m : Res (E + A)) (k : A → Res (E + B)) : Res (E + B) :=
  match m with
  | Done (inr a) => k a
  | Done (inl e) => Done (inl e)
  | Crash p => Crash p
  | OutOfFuel => OutOfFuel
  end.

Local Notation "x <-? m ; k" := (try_bind m (λ x, k)) (at level 20, m at level 100, k at level 200, right associativity).
Local Notation "' p <-? m ; k" := (try_bind m (λ p, k))
  (at level 20, p pattern, m at level 100, k at level 200, right associativity).

(** ** From encoded nodes *)

Inductive DecodeError :=
| UnexpectedEOF
| ErrRlp (e : RlpError)
| ErrDecode (e : RlpError)
| ErrValueNode (e : RlpError)
| ErrElements (count : Z)
| ErrOversized (size : Z)
| ErrStringSize (size : Z)
| decodeError (what : DecodeError) (stack : list string).

Definition wrapError (err : DecodeError) (ctx : string) : DecodeError :=
  match err with
  | decodeError what stack => decodeError what (stack ++ [ctx])
  | _ => decodeError err [ctx]
  end.

Definition Parse (A : Type) : Type := Res (DecodeError + A).
Definition wrapping {A} (ctx : string) (m : Parse A) : Parse A :=
  match m with Done (inl err) => Done (inl (wrapError err ctx)) | _ => m end.
Definition split {A} (fail : RlpError → DecodeError) (m : Go (RlpError + A)) : Parse A :=
  match m with
  | Ret (inr a) => try_ret a
  | Ret (inl err) => Done (inl (fail err))
  | Panic p => Crash p
  end.

Section decode.
Context (decode : option bytes → bytes → Parse node).

Definition decodeRef (buf : bytes) : Parse (node * bytes) :=
  '(kind, val, rest) <-? split ErrRlp (Split buf);
  match kind with
  | KList =>
      let size := len buf - len rest in
      if Z.of_nat HashLength <? size then Done (inl (ErrOversized size))
      else n <-? decode None buf; try_ret (n, rest)
  | KString =>
      if len val =? 0 then try_ret (nilNode, rest)
      else if len val =? 32 then try_ret (hashNode val, rest)
      else Done (inl (ErrStringSize (len val)))
  | KByte => Done (inl (ErrStringSize (len val)))
  end.

Definition decodeShort (hash : option bytes) (elems : bytes) : Parse node :=
  '(kbuf, rest) <-? split ErrRlp (SplitString elems);
  let flag := mkFlag hash false in
  let key := compactToHex kbuf in
  if hasTerm key then
    '(val, _) <-? split ErrValueNode (SplitString rest);
    try_ret (shortNode key (valueNode val) flag)
  else
    '(r, _) <-? wrapping "val" (decodeRef rest);
    try_ret (shortNode key r flag).

(** The children from the [i]-th on, [n] of them, and what is left. *)
Fixpoint decode_children (n i : nat) (elems : bytes) : Parse (list node * bytes) :=
  match n with
  | O => try_ret ([], elems)
  | S n =>
      '(cld, rest) <-? wrapping ("[" +:+ pretty (N.of_nat i) +:+ "]") (decodeRef elems);
      '(cs, rest) <-? decode_children n (S i) rest;
      try_ret (cld :: cs, rest)
  end.

Definition decodeFull (hash : option bytes) (elems : bytes) : Parse node :=
  '(cs, elems) <-? decode_children 16 0 elems;
  '(val, _) <-? split ErrRlp (SplitString elems);
  try_ret (fullNode (cs ++ [if 0 <? len val then valueNode val else nilNode]) (mkFlag hash false)).
End decode.

(** A node within a node is shorter. *)
Fixpoint decodeNode (fuel : nat) (hash : option bytes) (buf : bytes) : Parse node :=
  match fuel with
  | O => OutOfFuel
  | S fuel =>
      if len buf =? 0 then Done (inl UnexpectedEOF)
      else
        '(elems, _) <-? split ErrDecode (SplitList buf);
        c <-? match of_run (CountValues elems) with
              | Done (inr c) => try_ret c
              | Done (inl _) => try_ret 0
              | Crash p => Crash p
              | OutOfFuel => OutOfFuel
              end;
        if c =? 2 then wrapping "short" (decodeShort (decodeNode fuel) hash elems)
        else if c =? 17 then wrapping "full" (decodeFull (decodeNode fuel) hash elems)
        else Done (inl (ErrElements c))
  end.

Definition mustDecodeNode (hash : option bytes) (buf : bytes) : Res node :=
  r ← decodeNode (S (length buf)) hash buf;
  match r with inr n => Done n | inl _ => Crash ExplicitPanic end.

(** * trie/trie.go *)

Record MissingNodeError := mkMissing { NodeHash : Hash; Path : bytes }.

(** A result or the error of a missing node. *)
Definition Try (A : Type) : Type := Res (MissingNodeError + A).

Definition byte_at (key : bytes) (i : nat) : Try Z :=
  match key !! i with Some x => try_ret x | None => Crash IndexOutOfRange end.

(** [n.Children\[i\]] *)
Definition child_at (cs : list node) (i : Z) : Try node :=
  match cs !! Z.to_nat i with Some c => try_ret c | None => Crash IndexOutOfRange end.
Definition set_child (cs : list node) (i : Z) (c : node) : list node := <[Z.to_nat i := c]> cs.

Definition no_children : list node := replicate 17 nilNode.

(** The first child that is not nil, from the [i]-th on: -1 without one, -2 with several. *)
Fixpoint only_child (cs : list node) (i pos : Z) : Z :=
  match cs with
  | [] => pos
  | c :: cs' =>
      if is_nil c then only_child cs' (i + 1) pos
      else if pos =? -1 then only_child cs' (i + 1) i
      else -2
  end.

Section trie.
(** [t.db.node]: the nodes of the database, by their hashes *)
Context (db_node : Hash → Res (option node)).

Definition resolveHash (n : bytes) (prefix : bytes) : Try node :=
  let hash := BytesToHash n in
  match db_node hash with
  | Done (Some n) => try_ret n
  | Done None => Done (inl (mkMissing hash prefix))
  | Crash p => Crash p
  | OutOfFuel => OutOfFuel
  end.

Definition resolve (n : node) (prefix : bytes) : Try node :=
  match n with hashNode h => resolveHash h prefix | _ => try_ret n end.

(** The value, the node with what was loaded, and whether anything was. *)
Fixpoint tryGet (fuel : nat) (origNode : node) (key : bytes) (pos : nat) : Try (option bytes * node * bool) :=
  match fuel with
  | O => OutOfFuel
  | S fuel =>
      match origNode with
      | nilNode => try_ret (None, nilNode, false)
      | valueNode v => try_ret (Some v, origNode, false)
      | shortNode k v f =>
          if (len key - Z.of_nat pos <? len k) || negb (bool_decide (k = take (length k) (drop pos key)))
          then try_ret (None, origNode, false)
          else
            '(value, newnode, didResolve) <-? tryGet fuel v key (pos + length k);
            try_ret (value, if didResolve : bool then shortNode k newnode f else origNode, didResolve)
      | fullNode cs f =>
          i <-? byte_at key pos;
          c <-? child_at cs i;
          '(value, newnode, didResolve) <-? tryGet fuel c key (pos + 1);
          try_ret (value, if didResolve : bool then fullNode (set_child cs i newnode) f else origNode, didResolve)
      | hashNode h =>
          child <-? resolveHash h (take pos key);
          '(value, newnode, _) <-? tryGet fuel child key pos;
          try_ret (value, newnode, true)
      end
  end.

(** Whether the trie changed, and the new node. *)
Fixpoint trie_insert (fuel : nat) (n : node) (prefix key : bytes) (value : node) : Try (bool * node) :=
  match fuel with
  | O => OutOfFuel
  | S fuel =>
      match key with
      | [] =>
          match n with
          | valueNode v =>
              match value with
              | valueNode v' => try_ret (negb (bool_decide (v = v')), value)
              | _ => Crash TypeAssertion
              end
          | _ => try_ret (true, value)
          end
      | key0 :: rest =>
          match n with
          | shortNode k v f =>
              let matchlen := prefixLen key k in
              if bool_decide (matchlen = length k) then
                '(dirty, nn) <-? trie_insert fuel v (prefix ++ take matchlen key) (drop matchlen key) value;
                if negb dirty then try_ret (false, n) else try_ret (true, shortNode k nn newFlag)
              else
                k0 <-? byte_at k matchlen;
                '(_, c0) <-? trie_insert fuel nilNode (prefix ++ take (matchlen + 1) k) (drop (matchlen + 1) k) v;
                _ <-? child_at no_children k0;
                i <-? byte_at key matchlen;
                '(_, c1) <-? trie_insert fuel nilNode (prefix ++ take (matchlen + 1) key) (drop (matchlen + 1) key) value;
                _ <-? child_at no_children i;
                let branch := fullNode (set_child (set_child no_children k0 c0) i c1) newFlag in
                if bool_decide (matchlen = O) then try_ret (true, branch)
                else try_ret (true, shortNode (take matchlen key) branch newFlag)
          | fullNode cs f =>
              c <-? child_at cs key0;
              '(dirty, nn) <-? trie_insert fuel c (prefix ++ [key0]) rest value;
              if negb dirty then try_ret (false, n) else try_ret (true, fullNode (set_child cs key0 nn) newFlag)
          | nilNode => try_ret (true, shortNode key value newFlag)
          | hashNode h =>
              rn <-? resolveHash h prefix;
              '(dirty, nn) <-? trie_insert fuel rn prefix key value;
              if negb dirty then try_ret (false, rn) else try_ret (true, nn)
          | valueNode _ => Crash ExplicitPanic
          end
      end
  end.

(** A full node whose child at [pos] alone is left becomes a short node. *)
Definition reduce (cs : list node) (pos : Z) (prefix : bytes) : Try node :=
  c <-? child_at cs pos;
  if negb (pos =? 16) then
    cnode <-? resolve c prefix;
    match cnode with
    | shortNode k v _ => try_ret (shortNode (pos :: k) v newFlag)
    | _ => try_ret (shortNode [pos] c newFlag)
    end
  else try_ret (shortNode [pos] c newFlag).

Fixpoint trie_delete (fuel : nat) (n : node) (prefix key : bytes) : Try (bool * node) :=
  match fuel with
  | O => OutOfFuel
  | S fuel =>
      match n with
      | shortNode k v f =>
          let matchlen := prefixLen key k in
          if bool_decide (matchlen < length k)%nat then try_ret (false, n)
          else if bool_decide (matchlen = length key) then try_ret (true, nilNode)
          else
            '(dirty, child) <-? trie_delete fuel v (prefix ++ take (length k) key) (drop (length k) key);
            if negb dirty then try_ret (false, n)
            else
              match child with
              | shortNode ck cv _ => try_ret (true, shortNode (k ++ ck) cv newFlag)
              | _ => try_ret (true, shortNode k child newFlag)
              end
      | fullNode cs f =>
          key0 <-? byte_at key 0;
          c <-? child_at cs key0;
          '(dirty, nn) <-? trie_delete fuel c (prefix ++ [key0]) (drop 1 key);
          if negb dirty then try_ret (false, n)
          else
            let cs := set_child cs key0 nn in
            if negb (is_nil nn) then try_ret (true, fullNode cs newFlag)
            else
              let pos := only_child cs 0 (-1) in
              if 0 <=? pos then n' <-? reduce cs pos prefix; try_ret (true, n')
              else try_ret (true, fullNode cs newFlag)
      | valueNode _ => try_ret (true, nilNode)
      | nilNode => try_ret (false, nilNode)
      | hashNode h =>
          rn <-? resolveHash h prefix;
          '(dirty, nn) <-? trie_delete fuel rn prefix key;
          if negb dirty then try_ret (false, rn) else try_ret (true, nn)
      end
  end.

Record Trie := mkTrie { root : node; unhashed : Z }.

(** Every step that takes no is_nibble loads a node, and the next one takes one. *)
Definition fuel_of (key : bytes) : nat := 2 * length key + 2.

Definition emptyRoot : Hash := 0x56e81f171bcc55a6ff8345e692c0f86e5b48e01b996cadc001622fb5e363b421.

Definition New (h : Hash) : Try Trie :=
  if (h =? 0) || (h =? emptyRoot) then try_ret (mkTrie nilNode 0)
  else rootnode <-? resolveHash (Hash_Bytes h) []; try_ret (mkTrie rootnode 0).

Definition TryGet (t : Trie) (key : bytes) : Try (option bytes * Trie) :=
  let k := keybytesToHex key in
  '(value, newroot, didResolve) <-? tryGet (fuel_of k) (root t) k 0;
  try_ret (value, if didResolve : bool then mkTrie newroot (unhashed t) else t).

(** The count of changes grows even if the update fails, and then the root stays. *)
Definition TryDelete (t : Trie) (key : bytes) : Trie * Res (option MissingNodeError) :=
  let t := mkTrie (root t) (wrapS 64 (unhashed t + 1)) in
  let k := keybytesToHex key in
  match trie_delete (fuel_of k) (root t) [] k with
  | Done (inr (_, n)) => (mkTrie n (unhashed t), Done None)
  | Done (inl e) => (t, Done (Some e))
  | Crash p => (t, Crash p)
  | OutOfFuel => (t, OutOfFuel)
  end.

Definition TryUpdate (t : Trie) (key value : bytes) : Trie * Res (option MissingNodeError) :=
  if len value =? 0 then TryDelete t key
  else
    let t := mkTrie (root t) (wrapS 64 (unhashed t + 1)) in
    let k := keybytesToHex key in
    match trie_insert (fuel_of k) (root t) [] k (valueNode value) with
    | Done (inr (_, n)) => (mkTrie n (unhashed t), Done None)
    | Done (inl e) => (t, Done (Some e))
    | Crash p => (t, Crash p)
    | OutOfFuel => (t, OutOfFuel)
    end.
End trie.

(** * trie/hasher.go *)

Section hasher.
Context `{Externals}.

(** [shortnodeToHash] and [fullnodeToHash] *)
Definition toHash (n : node) (force : bool) : Go node :=
  r ← EncodeToBytes (node_value n);
  match r with
  | inl _ => Panic ExplicitPanic
  | inr enc => Ret (if (len enc <? 32) && negb force then n else hashNode (Keccak256 enc))
  end.

Definition hash_of (hashed : node) : option bytes := match hashed with hashNode h => Some h | _ => None end.

(** The loop over the first [i] children: without one there is [nilValueNode].  The
    code may hash them in parallel, each into its own place. *)
Definition hash_children (hash_child : node → Go (node * node)) : nat → list node → Go (list node * list node) :=
  fix children (i : nat) (cs : list node) {struct cs} : Go (list node * list node) :=
    match cs, i with
    | c :: rest, S i =>
        '(cc, c') ← match c with nilNode => Ret (valueNode [], nilNode) | _ => hash_child c end;
        '(ccs, cs') ← children i rest;
        Ret (cc :: ccs, c' :: cs')
    | _, _ => Ret (cs, cs)
    end.

(** The node in collapsed form, as a hash if it is large, and with its hash cached. *)
Fixpoint hash (n : node) (force : bool) : Go (node * node) :=
  match fst (cache n) with
  | Some h => Ret (hashNode h, n)
  | None =>
      match n with
      | shortNode k v f =>
          compact ← hexToCompact k;
          '(cv, v') ← match v with
                      | shortNode _ _ _ | fullNode _ _ => hash v false
                      | _ => Ret (v, v)
                      end;
          hashed ← toHash (shortNode compact cv f) force;
          Ret (hashed, shortNode k v' (mkFlag (hash_of hashed) (fl_dirty f)))
      | fullNode cs f =>
          '(ccs, cs') ← hash_children (λ c, hash c false) 16 cs;
          hashed ← toHash (fullNode ccs f) force;
          Ret (hashed, fullNode cs' (mkFlag (hash_of hashed) (fl_dirty f)))
      | _ => Ret (n, n)
      end
  end.

(** The collapsed node, and its hash if it is large. *)
Definition proofHash (original : node) : Go (node * node) :=
  match original with
  | shortNode k v f =>
      compact ← hexToCompact k;
      '(cv, _) ← match v with
                 | shortNode _ _ _ | fullNode _ _ => hash v false
                 | _ => Ret (v, v)
                 end;
      h ← toHash (shortNode compact cv f) false;
      Ret (shortNode compact cv f, h)
  | fullNode cs f =>
      '(ccs, _) ← hash_children (λ c, hash c false) 16 cs;
      h ← toHash (fullNode ccs f) false;
      Ret (fullNode ccs f, h)
  | _ => Ret (original, original)
  end.

Definition hashRoot (t : Trie) : Go (node * Trie) :=
  match root t with
  | nilNode => Ret (hashNode (Hash_Bytes emptyRoot), mkTrie nilNode (unhashed t))
  | r => '(hashed, cached) ← hash r true; Ret (hashed, mkTrie cached 0)
  end.

Definition Trie_Hash (t : Trie) : Go (Hash * Trie) :=
  '(h, t) ← hashRoot t;
  match h with hashNode h => Ret (BytesToHash h, t) | _ => Panic TypeAssertion end.
End hasher.

(** * ethdb/memorydb and batches of writes *)

Abbreviation KeyValueStore := (gmap bytes bytes).
Record Batch := mkBatch { bt_writes : list (bytes * option bytes); bt_size : Z }.

Definition NewBatch : Batch := mkBatch [] 0.
Definition Batch_Put (b : Batch) (key value : bytes) : Batch :=
  mkBatch (bt_writes b ++ [(key, Some value)]) (bt_size b + (len key + len value)).
Definition Batch_Delete (b : Batch) (key : bytes) : Batch :=
  mkBatch (bt_writes b ++ [(key, None)]) (bt_size b + len key).
Definition write_key (db : KeyValueStore) (kv : bytes * option bytes) : KeyValueStore :=
  match kv.2 with Some v => <[kv.1 := v]> db | None => delete kv.1 db end.
Definition Batch_Write (b : Batch) (db : KeyValueStore) : KeyValueStore := foldl write_key db (bt_writes b).
Definition Batch_Replay {A} (Put : A → bytes → bytes → A) (Delete : A → bytes → Go A) (b : Batch) (w : A) : Go A :=
  go_foldl (λ w kv, match kv.2 with Some v => Ret (Put w kv.1 v) | None => Delete w kv.1 end) w (bt_writes b).
Definition IdealBatchSize : Z := 100 * 1024.

(** * trie/database.go: the nodes in memory and on the disk

    What counts references, orders the nodes for flushing and measures sizes is
    left out, with the references from the nodes of one trie to other tries, the
    entry of the zero hash that holds the roots, and the preimages of keys.  The
    clean cache holds what it has not yet forgotten; that it also remembers what
    is read from the disk changes no result and is left out. *)

(** Nodes without flags, their keys in compact form. *)
Inductive raw :=
| rawValue (v : bytes)
| rawHash (h : bytes)
| rawShortNode (Key : bytes) (Val : raw)
| rawFullNode (Children : list (option raw)).

(** The children that are not nil. *)
Definition simplify_children (simplify : node → Go raw) : list node → Go (list (option raw)) :=
  fix children (cs : list node) : Go (list (option raw)) :=
    match cs with
    | [] => Ret []
    | c :: cs =>
        r ← match c with nilNode => Ret None | _ => Some <$> simplify c end;
        rs ← children cs;
        Ret (r :: rs)
    end.

Fixpoint simplifyNode (n : node) : Go raw :=
  match n with
  | shortNode k v _ => r ← simplifyNode v; Ret (rawShortNode k r)
  | fullNode cs _ => rs ← simplify_children simplifyNode cs; Ret (rawFullNode rs)
  | valueNode v => Ret (rawValue v)
  | hashNode h => Ret (rawHash h)
  | nilNode => Panic ExplicitPanic
  end.

Fixpoint expandNode (hash : option bytes) (r : raw) : node :=
  match r with
  | rawShortNode k v => shortNode (compactToHex k) (expandNode None v) (mkFlag hash false)
  | rawFullNode rs =>
      fullNode (map (λ o, match o with Some r => expandNode None r | None => nilNode end) rs) (mkFlag hash false)
  | rawValue v => valueNode v
  | rawHash h => hashNode h
  end.

(** What [rlp.Encode] writes of a node of the cache, and [cachedNode.rlp] *)
Fixpoint raw_rval (r : raw) : rval :=
  match r with
  | rawValue v => VBytes v
  | rawHash h => VBytes h
  | rawShortNode k v => VStruct [VBytes k; raw_rval v]
  | rawFullNode rs => VSlice (map (λ o, match o with Some r => raw_rval r | None => VBytes [] end) rs)
  end.

Definition cachedNode_rlp (r : raw) : Go bytes :=
  r ← EncodeToBytes (raw_rval r);
  match r with inl _ => Panic ExplicitPanic | inr blob => Ret blob end.

(** The hashes below a node, in the order in which they are visited. *)
Fixpoint forGatherChildren (r : raw) : list Hash :=
  match r with
  | rawShortNode _ v => forGatherChildren v
  | rawFullNode rs => concat (take 16 (map (λ o, match o with Some r => forGatherChildren r | None => [] end) rs))
  | rawHash h => [BytesToHash h]
  | rawValue _ => []
  end.

Record TrieDatabase := mkTrieDb { cleans : option (gmap Hash bytes); dirties : gmap Hash raw; diskdb : KeyValueStore }.

Definition NewDatabase (diskdb : KeyValueStore) : TrieDatabase := mkTrieDb None ∅ diskdb.

(** [Database.node] *)
Definition db_node (db : TrieDatabase) (hash : Hash) : Res (option node) :=
  match (c ← cleans db; c !! hash) with
  | Some enc => n ← mustDecodeNode (Some (Hash_Bytes hash)) enc; Done (Some n)
  | None =>
      match dirties db !! hash with
      | Some r => Done (Some (expandNode (Some (Hash_Bytes hash)) r))
      | None =>
          match diskdb db !! Hash_Bytes hash with
          | None => Done None
          | Some enc => n ← mustDecodeNode (Some (Hash_Bytes hash)) enc; Done (Some n)
          end
      end
  end.

(** [Database.insert] *)
Definition db_insert (db : TrieDatabase) (hash : Hash) (n : node) : Go TrieDatabase :=
  if bool_decide (hash = 0 ∨ is_Some (dirties db !! hash)) then Ret db
  else r ← simplifyNode n; Ret (mkTrieDb (cleans db) (<[hash := r]> (dirties db)) (diskdb db)).

(** [cleaner.Put] and [cleaner.Delete] *)
Definition cleaner_Put (db : TrieDatabase) (key enc : bytes) : TrieDatabase :=
  let hash := BytesToHash key in
  match dirties db !! hash with
  | None => db
  | Some _ => mkTrieDb (insert hash enc <$> cleans db) (delete hash (dirties db)) (diskdb db)
  end.
Definition cleaner_Delete (db : TrieDatabase) (key : bytes) : Go TrieDatabase := Panic ExplicitPanic.

(** The batch is written to the disk, and what it holds leaves the cache. *)
Definition write_batch (db : TrieDatabase) (b : Batch) : Go TrieDatabase :=
  Batch_Replay cleaner_Put cleaner_Delete b (mkTrieDb (cleans db) (dirties db) (Batch_Write b (diskdb db))).

(** [Database.commit] and [Database.Commit], without a callback *)
Fixpoint commit_hash (fuel : nat) (hash : Hash) (db : TrieDatabase) (b : Batch) : Res (TrieDatabase * Batch) :=
  match fuel with
  | O => OutOfFuel
  | S fuel =>
      match dirties db !! hash with
      | None => Done (db, b)
      | Some r =>
          '(db, b) ← res_foldl (λ '(db, b) child, commit_hash fuel child db b) (db, b) (forGatherChildren r);
          enc ← of_go (cachedNode_rlp r);
          let b := Batch_Put b (Hash_Bytes hash) enc in
          if IdealBatchSize <=? bt_size b then db ← of_go (write_batch db b); Done (db, NewBatch)
          else Done (db, b)
      end
  end.

Definition Database_Commit (fuel : nat) (db : TrieDatabase) (node : Hash) : Res TrieDatabase :=
  '(db, b) ← commit_hash fuel node db NewBatch;
  of_go (write_batch db b).

(** * trie/committer.go

    A leaf callback receives the nodes through a channel, and the other end inserts
    them in the same order. *)

Definition committer_store (n : node) (db : TrieDatabase) : Go (node * TrieDatabase) :=
  match fst (cache n) with
  | None => Ret (n, db)
  | Some h => db ← db_insert db (BytesToHash h) n; Ret (hashNode h, db)
  end.

(** The first [i] children, the others as they are. *)
Definition commit_children (commit : node → TrieDatabase → Go (node * Z * TrieDatabase))
    : nat → list node → TrieDatabase → Go (list node * Z * TrieDatabase) :=
  fix children (i : nat) (cs : list node) (db : TrieDatabase) {struct cs} : Go (list node * Z * TrieDatabase) :=
    match cs, i with
    | c :: cs, S i =>
        '(c, n, db) ← match c with nilNode => Ret (nilNode, 0, db) | hashNode h => Ret (hashNode h, 0, db) | _ => commit c db end;
        '(cs, committed, db) ← children i cs db;
        Ret (c :: cs, n + committed, db)
    | _, _ => Ret (cs, 0, db)
    end.

(** The collapsed node or its hash, the number of nodes stored, and the database. *)
Fixpoint commit (n : node) (db : TrieDatabase) : Go (node * Z * TrieDatabase) :=
  match cache n with
  | (Some h, false) => Ret (hashNode h, 0, db)
  | _ =>
      match n with
      | shortNode k v f =>
          '(v, childCommitted, db) ← match v with fullNode _ _ => commit v db | _ => Ret (v, 0, db) end;
          key ← hexToCompact k;
          '(hashed, db) ← committer_store (shortNode key v f) db;
          Ret (match hashed with
               | hashNode _ => (hashed, childCommitted + 1, db)
               | _ => (shortNode key v f, childCommitted, db)
               end)
      | fullNode cs f =>
          '(cs, childCommitted, db) ← commit_children commit 16 cs db;
          '(hashed, db) ← committer_store (fullNode cs f) db;
          Ret (match hashed with
               | hashNode _ => (hashed, childCommitted + 1, db)
               | _ => (fullNode cs f, childCommitted, db)
               end)
      | hashNode _ => Ret (n, 0, db)
      | _ => Panic ExplicitPanic
      end
  end.

(** [Trie.Commit]: the root, the number of nodes stored, the trie and the database. *)
Definition Trie_Commit `{Externals} (t : Trie) (db : TrieDatabase) : Go (Hash * Z * Trie * TrieDatabase) :=
  match root t with
  | nilNode => Ret (emptyRoot, 0, t, db)
  | _ =>
      '(rootHash, t) ← Trie_Hash t;
      if negb (snd (cache (root t))) then Ret (rootHash, 0, t, db)
      else
        '(newRoot, committed, db) ← commit (root t) db;
        match newRoot with
        | hashNode _ => Ret (rootHash, committed, mkTrie newRoot (unhashed t), db)
        | _ => Panic TypeAssertion
        end
  end.

(** * trie/secure_trie.go: the keys are hashed *)

Record SecureTrie := mkSecure { st_trie : Trie; secKeyCache : gmap bytes bytes; secKeyCacheOwner : bool }.

(** A copy does not own the cache of the original and starts with one of its own. *)
Definition getSecKeyCache (t : SecureTrie) : gmap bytes bytes := if secKeyCacheOwner t then secKeyCache t else ∅.
Definition SecureTrie_Copy (t : SecureTrie) : SecureTrie := mkSecure (st_trie t) (secKeyCache t) false.

Section secure.
Context `{Externals}.

Definition hashKey (key : bytes) : bytes := Keccak256 key.

Definition Secure_TryGet db (t : SecureTrie) (key : bytes) : Try (option bytes * SecureTrie) :=
  try_bind (TryGet db (st_trie t) (hashKey key)) (λ '(v, tr), try_ret (v, mkSecure tr (secKeyCache t) (secKeyCacheOwner t))).

Definition Secure_TryUpdate db (t : SecureTrie) (key value : bytes) : SecureTrie * Res (option MissingNodeError) :=
  let hk := hashKey key in
  match TryUpdate db (st_trie t) hk value with
  | (tr, Done None) => (mkSecure tr (<[hk := key]> (getSecKeyCache t)) true, Done None)
  | (tr, r) => (mkSecure tr (secKeyCache t) (secKeyCacheOwner t), r)
  end.

Definition Secure_TryDelete db (t : SecureTrie) (key : bytes) : SecureTrie * Res (option MissingNodeError) :=
  let hk := hashKey key in
  let '(tr, r) := TryDelete db (st_trie t) hk in
  (mkSecure tr (delete hk (getSecKeyCache t)) true, r).

Definition GetKey (preimage : Hash → bytes) (t : SecureTrie) (shaKey : bytes) : bytes * SecureTrie :=
  let c := getSecKeyCache t in
  (default (preimage (BytesToHash shaKey)) (c !! shaKey), mkSecure (st_trie t) c true).
End secure.

(** * trie/proof.go: proofs of values *)

(** The nodes on the path to a key, without the value. *)
Fixpoint proof_path (db_node : Hash → Res (option node)) (fuel : nat) (tn : node) (key : bytes) : Try (list node) :=
  match fuel with
  | O => OutOfFuel
  | S fuel =>
      match key, tn with
      | [], _ | _, nilNode => try_ret []
      | key0 :: rest, _ =>
          match tn with
          | shortNode k v _ =>
              nodes <-? (if (len key <? len k) || negb (bool_decide (k = take (length k) key))
                         then proof_path db_node fuel nilNode key
                         else proof_path db_node fuel v (drop (length k) key));
              try_ret (tn :: nodes)
          | fullNode cs _ =>
              c <-? child_at cs key0;
              nodes <-? proof_path db_node fuel c rest;
              try_ret (tn :: nodes)
          | hashNode h => n <-? resolveHash db_node h []; proof_path db_node fuel n key
          | _ => Crash ExplicitPanic
          end
      end
  end.

Section proofs.
Context `{Externals}.

(** The nodes from [fromLevel] on that are large, and the root, are proof elements. *)
Fixpoint prove_nodes (i : nat) (fromLevel : Z) (nodes : list node) (proofDb : KeyValueStore) : Go KeyValueStore :=
  match nodes with
  | [] => Ret proofDb
  | n :: nodes =>
      if 0 <? fromLevel then prove_nodes (S i) (fromLevel - 1) nodes proofDb
      else
        '(n, hn) ← proofHash n;
        match hn, i with
        | hashNode _, _ | _, O =>
            r ← EncodeToBytes (node_value n);
            let enc := match r with inr enc => enc | inl _ => [] end in
            let hash := match hn with hashNode h => h | _ => Keccak256 enc end in
            prove_nodes (S i) fromLevel nodes (<[hash := enc]> proofDb)
        | _, _ => prove_nodes (S i) fromLevel nodes proofDb
        end
  end.

Definition Prove (db_node : Hash → Res (option node)) (t : Trie) (key : bytes) (fromLevel : Z) (proofDb : KeyValueStore)
    : Try KeyValueStore :=
  let k := keybytesToHex key in
  nodes <-? proof_path db_node (fuel_of k) (root t) k;
  match prove_nodes 0 fromLevel nodes proofDb with Ret proofDb => try_ret proofDb | Panic p => Crash p end.
End proofs.

(** The child of a resolved node, or with [skipResolved] the first one on the path
    that is not. *)
Fixpoint get (tn : node) (key : bytes) (skipResolved : bool) : Go (bytes * node) :=
  match tn with
  | shortNode k v _ =>
      if (len key <? len k) || negb (bool_decide (k = take (length k) key)) then Ret ([], nilNode)
      else
        let key := drop (length k) key in
        if skipResolved then get v key skipResolved else Ret (key, v)
  | fullNode cs _ =>
      match key with
      | [] => Panic IndexOutOfRange
      | key0 :: key =>
          (fix child (cs : list node) (j : nat) : Go (bytes * node) :=
            match cs, j with
            | c :: _, O => if skipResolved then get c key skipResolved else Ret (key, c)
            | _ :: cs, S j => child cs j
            | [], _ => Panic IndexOutOfRange
            end) cs (Z.to_nat key0)
      end
  | hashNode _ => Ret (key, tn)
  | nilNode => Ret (key, nilNode)
  | valueNode _ => Ret ([], tn)
  end.

Inductive ProofError :=
| ProofNodeMissing (i : Z) (hash : Hash)
| BadProofNode (i : Z) (err : DecodeError).

(** The loop of [VerifyProof] from the [i]-th node on. *)
Fixpoint verify_from (fuel : nat) (i : Z) (wantHash : Hash) (key : bytes) (proofDb : KeyValueStore) : Res (ProofError + option bytes) :=
  match fuel with
  | O => OutOfFuel
  | S fuel =>
      match proofDb !! Hash_Bytes wantHash with
      | None => Done (inl (ProofNodeMissing i wantHash))
      | Some buf =>
          match decodeNode (S (length buf)) (Some (Hash_Bytes wantHash)) buf with
          | Crash p => Crash p
          | OutOfFuel => OutOfFuel
          | Done (inl err) => Done (inl (BadProofNode i err))
          | Done (inr n) =>
              '(keyrest, cld) ← of_go (get n key true);
              match cld with
              | nilNode => try_ret None
              | hashNode h =>
                  let wantHash := be_val (take HashLength h ++ drop (length h) (Hash_Bytes wantHash)) in
                  verify_from fuel (i + 1) wantHash keyrest proofDb
              | valueNode v => try_ret (Some v)
              | _ => verify_from fuel (i + 1) wantHash key proofDb
              end
          end
      end
  end.

Definition VerifyProof (fuel : nat) (rootHash : Hash) (key : bytes) (proofDb : KeyValueStore) : Res (ProofError + option bytes) :=
  verify_from fuel 0 rootHash (keybytesToHex key) proofDb.
