(* ===== verification/TrieFacts.v ===== *)
(** * The operations of a trie on the tree it stands for

    A tree is a trie without hashes and flags, in minimal form.  Reading gives what
    the tree holds; inserting and deleting give the tree that holds the rest; and a
    tree is determined by what it holds. *)

From S2P Require Import Prelude Common Uint256 Machine VmFacts Vm Rlp RlpFacts MerkleTrie.

Local Notation "x <-? m ; k" := (try_bind m (λ x, k)) (at level 20, m at level 100, k at level 200, right associativity).

(** * The tree of a trie

    A tree is a trie without what is only there for speed: hashes that stand for
    nodes of the database, and flags. *)

Inductive tree :=
| TValue (v : bytes)
| TShort (k : bytes) (t : tree)
| TFull (ts : list (option tree)).

(** The value under a key in nibbles. *)
Fixpoint content (t : tree) (k : bytes) : option bytes :=
  match t with
  | TValue v => match k with [] => Some v | _ => None end
  | TShort p t => if decide (p `prefix_of` k) then content t (drop (length p) k) else None
  | TFull ts =>
      match k with
      | [] => None
      | i :: k =>
          if i <? 0 then None
          else
            (fix child (ts : list (option tree)) (j : nat) : option bytes :=
              match ts, j with
              | o :: _, O => match o with Some t => content t k | None => None end
              | _ :: ts, S j => child ts j
              | [], _ => None
              end) ts (Z.to_nat i)
      end
  end.

Definition ocontent (o : option tree) (k : bytes) : option bytes := t ← o; content t k.

Definition is_nibble (x : Z) : Prop := 0 ≤ x < 16.
(** A key of a trie: nibbles and the terminator. *)
Definition term (k : bytes) : Prop := ∃ ks, k = ks ++ [16] ∧ Forall is_nibble ks.

(** Minimal form: a short node leads to a value or to a full node, and a full node
    has at least two children; the last one is the value of the key that ends there. *)
Inductive canon : tree → Prop :=
| canon_leaf k v : term k → v ≠ [] → canon (TShort k (TValue v))
| canon_ext k ts : k ≠ [] → Forall is_nibble k → canon (TFull ts) → canon (TShort k (TFull ts))
| canon_full ts :
    length ts = 17%nat →
    (∀ i t, (i < 16)%nat → ts !! i = Some (Some t) → canon t) →
    (∀ t, ts !! 16%nat = Some (Some t) → ∃ v, t = TValue v ∧ v ≠ []) →
    (∃ i j t u, i ≠ j ∧ ts !! i = Some (Some t) ∧ ts !! j = Some (Some u)) →
    canon (TFull ts).

(** ** The hash of a tree *)

(** Pairs of nibbles, and the key in the compact encoding of the Yellow Paper. *)
Fixpoint pairs (k : bytes) : bytes :=
  match k with
  | a :: b :: rest => a * 16 + b :: pairs rest
  | _ => []
  end.
Definition compact (k : bytes) : bytes :=
  let flag := if hasTerm k then 32 else 0 in
  let k := if hasTerm k then drop_last k else k in
  match k with
  | x :: rest => if Nat.odd (length k) then flag + 16 + x :: pairs rest else flag :: pairs k
  | [] => [flag]
  end.

Section tree_hash.
Context `{Externals}.

(** What a node holds for a child: a value or a small node itself, or a hash. *)
Definition ref_of (t : tree) (v : rval) : rval :=
  match t with
  | TValue _ => v
  | _ => if len (rlp v) <? 32 then v else VBytes (Keccak256 (rlp v))
  end.

Fixpoint tree_value (t : tree) : rval :=
  match t with
  | TValue v => VBytes v
  | TShort k t => VStruct [VBytes (compact k); ref_of t (tree_value t)]
  | TFull ts => VSlice (map (λ o, match o with None => VBytes [] | Some t => ref_of t (tree_value t) end) ts)
  end.

Definition tree_hash (t : tree) : bytes := Keccak256 (rlp (tree_value t)).
Definition large (t : tree) : Prop := 32 ≤ len (rlp (tree_value t)).
#[export] Instance large_dec t : Decision (large t).
Proof. unfold large. apply _. Defined.

(** ** The nodes that stand for a tree

    The database holds a large node, or a root, with the hashes of its large
    children and its small children in full. *)
Definition is_hashNode (n : node) : bool := match n with hashNode _ => true | _ => false end.
Definition is_value (t : tree) : bool := match t with TValue _ => true | _ => false end.

Definition child_of (t : tree) (n : node) : node :=
  if is_value t then n else if 32 <=? len (rlp (tree_value t)) then hashNode (tree_hash t) else n.

Fixpoint expanded (h : option bytes) (t : tree) : node :=
  match t with
  | TValue v => valueNode v
  | TShort k t => shortNode k (child_of t (expanded None t)) (mkFlag h false)
  | TFull ts => fullNode (map (λ o, match o with Some t => child_of t (expanded None t) | None => nilNode end) ts) (mkFlag h false)
  end.

(** The nodes that are large, or at the root, have their hashes cached. *)
Inductive known : bool → node → tree → Prop :=
| known_value top v : known top (valueNode v) (TValue v)
| known_hash top h t : known top (hashNode h) t
| known_short top k c t f :
    known false c t → (top = true ∨ large (TShort k t) → fl_hash f ≠ None) → known top (shortNode k c f) (TShort k t)
| known_full top cs ts f :
    (∀ i c t, cs !! i = Some c → ts !! i = Some (Some t) → known false c t) →
    (top = true ∨ large (TFull ts) → fl_hash f ≠ None) → known top (fullNode cs f) (TFull ts).

(** The trees that have hashes of their own within a tree: the large ones, and the
    whole at the root. *)
Inductive each_hashed (P : tree → Prop) : bool → tree → Prop :=
| each_value top v : each_hashed P top (TValue v)
| each_short top k t :
    each_hashed P false t → (top = true ∨ large (TShort k t) → P (TShort k t)) → each_hashed P top (TShort k t)
| each_full top ts :
    (∀ i t, ts !! i = Some (Some t) → each_hashed P false t) → (top = true ∨ large (TFull ts) → P (TFull ts)) →
    each_hashed P top (TFull ts).

Lemma each_hashed_impl (P Q : tree → Prop) top t : (∀ u, P u → Q u) → each_hashed P top t → each_hashed Q top t.
Proof. intros HPQ. induction 1; constructor; auto. Qed.

Section rep.
Context (db : Hash → Res (option node)).

Definition in_db (t : tree) : Prop := db (BytesToHash (tree_hash t)) = Done (Some (expanded (Some (tree_hash t)) t)).
Definition stored : bool → tree → Prop := each_hashed in_db.

(** A cached hash is the hash of the tree; a small node is hashed at the root only;
    what is not marked as changed is in the database. *)
Record flag_ok (top : bool) (f : nodeFlag) (t : tree) : Prop := {
  fl_known h : fl_hash f = Some h → h = tree_hash t ∧ (top = false → large t) ∧ (fl_dirty f = false → stored top t);
  fl_unknown : fl_hash f = None → fl_dirty f = false → top = false ∧ ¬ large t
}.

Inductive rep : bool → node → tree → Prop :=
| rep_value top v : rep top (valueNode v) (TValue v)
| rep_short top k c t f :
    rep false c t → flag_ok top f (TShort k t) → (fl_hash f ≠ None → known false c t) → rep top (shortNode k c f) (TShort k t)
| rep_full top cs ts f :
    length cs = length ts →
    (∀ i c t, cs !! i = Some c → ts !! i = Some (Some t) → rep false c t) →
    (∀ i c, cs !! i = Some c → ts !! i = Some None → c = nilNode) →
    flag_ok top f (TFull ts) →
    (fl_hash f ≠ None → ∀ i c t, cs !! i = Some c → ts !! i = Some (Some t) → known false c t) →
    rep top (fullNode cs f) (TFull ts)
| rep_hash top h t :
    h = tree_hash t → (top = false → large t) → is_value t = false → stored top t → rep top (hashNode h) t.

Lemma stored_known top t : stored top t → known false (child_of t (expanded None t)) t.
Proof.
  assert (∀ t, is_value t = false → (¬ large t → known false (expanded None t) t) → known false (child_of t (expanded None t)) t) as Hc.
  { intros u Hv Hk. unfold child_of. rewrite Hv. destruct (Z.leb_spec 32 (len (rlp (tree_value u)))); [constructor|].
    apply Hk. unfold large. lia. }
  induction 1 as [top v|top k t Hs IH _|top ts Hs IH _].
  - constructor.
  - apply Hc; [done|]. intros Hl. cbn [expanded]. constructor; [done|]. by intros [|].
  - apply Hc; [done|]. intros Hl. cbn [expanded]. constructor; [|by intros [|]].
    intros i c t Ei Et. rewrite list_lookup_fmap, Et in Ei. injection Ei as <-. by eapply IH.
Qed.

Lemma expanded_known top t h : stored top t → known top (expanded (Some h) t) t.
Proof.
  intros Hs. destruct Hs as [top v|top k t Hs _|top ts Hs _]; cbn [expanded].
  - constructor.
  - constructor; [by eapply stored_known|done].
  - constructor; [|done]. intros i c t Ei Et. rewrite list_lookup_fmap, Et in Ei. injection Ei as <-. by eapply stored_known, Hs.
Qed.

(** The nodes of a stored tree stand for it. *)
Lemma stored_rep top t : stored top t → ∀ h,
  (h = Some (tree_hash t) ∧ (top = false → large t) ∨ h = None ∧ top = false ∧ ¬ large t) → rep top (expanded h t) t.
Proof.
  assert (∀ top t h, stored top t →
    (h = Some (tree_hash t) ∧ (top = false → large t) ∨ h = None ∧ top = false ∧ ¬ large t) → flag_ok top (mkFlag h false) t) as Hf.
  { intros top' u h Hs [[-> Hl]|(-> & -> & Hl)]; split; cbn; try done. by intros ? [= <-]. }
  assert (∀ t, stored false t → (∀ h, h = Some (tree_hash t) ∧ (false = false → large t) ∨ h = None ∧ false = false ∧ ¬ large t → rep false (expanded h t) t) →
    rep false (child_of t (expanded None t)) t) as Hc.
  { intros u Hs IH. unfold child_of. destruct (is_value u) eqn:Hv; [destruct u; [constructor|done..]|].
    destruct (Z.leb_spec 32 (len (rlp (tree_value u)))) as [Hl|Hl]; [by constructor|].
    apply IH. right. split; [done|]. split; [done|]. unfold large. lia. }
  induction 1 as [top v|top k t Hs IH Hdb|top ts Hs IH Hdb]; intros h Hh.
  - constructor.
  - cbn [expanded]. constructor; [by apply Hc|apply Hf; [by constructor|done]|]. intros _. by eapply stored_known.
  - cbn [expanded]. constructor; [by rewrite length_map| | |apply Hf; [by constructor|done]|].
    + intros i c t Ei Et. rewrite list_lookup_fmap, Et in Ei. injection Ei as <-. apply Hc; [by eapply Hs|by eapply IH].
    + intros i c Ei Et. rewrite list_lookup_fmap, Et in Ei. by injection Ei as <-.
    + intros _ i c t Ei Et. rewrite list_lookup_fmap, Et in Ei. injection Ei as <-. by eapply stored_known, Hs.
Qed.

(** A hash in a trie leads to a node. *)
Lemma hash_resolves top h t : rep top (hashNode h) t → ∃ n, db (BytesToHash h) = Done (Some n) ∧ is_hashNode n = false ∧ rep top n t ∧ known top n t.
Proof.
  inversion 1 as [| | |? ? ? -> Hl Hv Hs]; subst. exists (expanded (Some (tree_hash t)) t).
  split; [|split; [by destruct t|split; [apply stored_rep; [done|by left]|by apply expanded_known]]].
  assert (top = true ∨ large t) as Ht by (destruct top; [by left|right; by apply Hl]).
  destruct Hs as [|? ? ? _ Hdb|? ? _ Hdb]; [done|by apply Hdb..].
Qed.
End rep.
End tree_hash.

(** ** Keys *)

Section keys.

Lemma term_cons x k : term (x :: k) ↔ x = 16 ∧ k = [] ∨ is_nibble x ∧ term k.
Proof.
  split.
  - intros (ks & E & Hk). destruct ks as [|y ks]; injection E as -> ->; [by left|].
    apply Forall_cons in Hk as [? ?]. right. split; [done|by exists ks].
  - intros [[-> ->]|[Hx (ks & -> & Hk)]]; [by exists []|]. exists (x :: ks). split; [done|by constructor].
Qed.

Lemma term_nil : ¬ term [].
Proof. intros ([|] & E & _); discriminate. Qed.

Lemma term_app p k : Forall is_nibble p → term (p ++ k) ↔ term k.
Proof.
  induction 1 as [|x p Hx _ IH]; [done|]. cbn. rewrite term_cons, IH. split; [|by right].
  intros [[-> _]|[_ ?]]; [unfold is_nibble in Hx; lia|done].
Qed.

(** No key is a proper prefix of another. *)
Lemma term_prefix k k' : term k → term k' → k `prefix_of` k' → k = k'.
Proof.
  revert k'. induction k as [|x k IH]; intros k' Hk Hk' Hp; [by apply term_nil in Hk|].
  destruct k' as [|y k']; [by apply prefix_nil_not in Hp|].
  pose proof (prefix_cons_inv_1 _ _ _ _ Hp) as <-. apply prefix_cons_inv_2 in Hp.
  apply term_cons in Hk as [[-> ->]|[Hx Hk]]; apply term_cons in Hk' as [[? ->]|[Hx' Hk']]; unfold is_nibble in *; try (done || lia).
  - f_equal. by apply IH.
Qed.

Lemma term_not_prefix k p : term k → Forall is_nibble p → ¬ k `prefix_of` p.
Proof.
  intros (ks & -> & _) Hp [r ->]. apply Forall_app in Hp as [Hp _]. apply Forall_app in Hp as [_ Hp].
  apply Forall_cons in Hp as [Hp _]. unfold is_nibble in Hp. lia.
Qed.

Lemma term_take k n : term k → (n < length k)%nat → Forall is_nibble (take n k).
Proof.
  intros (ks & -> & Hk) Hn. rewrite length_app in Hn. cbn in Hn. rewrite take_app_le by lia. by apply Forall_take.
Qed.

(** The is_nibble or terminator at a place of a key, and what comes after it. *)
Lemma term_at k n : term k → (n < length k)%nat →
  ∃ x, k !! n = Some x ∧ drop n k = x :: drop (S n) k ∧ term (x :: drop (S n) k).
Proof.
  intros Hk Hn. destruct (lookup_lt_is_Some_2 k n Hn) as [x E]. exists x. split; [done|].
  assert (drop n k = x :: drop (S n) k) as Ed by (by apply drop_S). split; [done|]. rewrite <- Ed.
  pose proof (term_take k n Hk Hn) as Ht. rewrite <- (take_drop n k) in Hk. by apply term_app in Hk.
Qed.

Lemma keybytes_term key : Forall is_byte key → term (keybytesToHex key).
Proof.
  intros Hb. exists (concat (map (λ b, [b / 16; b mod 16]) key)). split; [done|].
  induction Hb as [|b key Hb _ IH]; [constructor|]. cbn. unfold is_byte in Hb.
  constructor; [split; [apply Z.div_pos; lia|apply Z.div_lt_upper_bound; lia]|].
  constructor; [apply Z.mod_pos_bound; lia|done].
Qed.

Lemma keybytes_inj key key' : keybytesToHex key = keybytesToHex key' → key = key'.
Proof.
  unfold keybytesToHex. intros E. apply app_inj_tail in E as [E _]. revert key' E.
  induction key as [|b key IH]; intros [|b' key'] E; try done. cbn in E. injection E as E1 E2 E.
  f_equal; [|by apply IH]. rewrite (Z.div_mod b 16), (Z.div_mod b' 16) by lia. congruence.
Qed.

(** ** The common prefix *)

Lemma prefixLen_le a b : (prefixLen a b ≤ length a ∧ prefixLen a b ≤ length b)%nat.
Proof.
  revert b. induction a as [|x a IH]; intros [|y b]; cbn; [lia..|].
  destruct (x =? y); [|lia]. destruct (IH b). lia.
Qed.

Lemma prefixLen_take a b : take (prefixLen a b) a = take (prefixLen a b) b.
Proof.
  revert b. induction a as [|x a IH]; intros [|y b]; cbn; try done.
  destruct (Z.eqb_spec x y) as [->|]; [|done]. cbn. by rewrite IH.
Qed.

Lemma prefixLen_differ a b x y : a !! prefixLen a b = Some x → b !! prefixLen a b = Some y → x ≠ y.
Proof.
  revert b. induction a as [|u a IH]; intros [|w b]; cbn; try done.
  destruct (Z.eqb_spec u w) as [->|Hne]; cbn; [apply IH|]. by intros [= <-] [= <-].
Qed.

Lemma prefixLen_whole a b : prefixLen a b = length b ↔ b `prefix_of` a.
Proof.
  revert b. induction a as [|x a IH]; intros [|y b]; cbn.
  - split; [intros; by apply prefix_nil|done].
  - split; [done|]. intros Hp. by apply prefix_nil_not in Hp.
  - split; [intros; apply prefix_nil|done].
  - destruct (Z.eqb_spec x y) as [->|Hne].
    + split; [intros [= E]; apply prefix_cons; by apply IH|]. intros Hp%prefix_cons_inv_2. f_equal. by apply IH.
    + split; [done|]. intros Hp. by apply prefix_cons_inv_1 in Hp.
Qed.
End keys.

(** ** What trees hold *)

Section content.

Definition child_content (ts : list (option tree)) (i : Z) (k : bytes) : option bytes :=
  if i <? 0 then None else t ← (o ← ts !! Z.to_nat i; o); content t k.

Lemma content_full ts i k : content (TFull ts) (i :: k) = child_content ts i k.
Proof.
  unfold child_content. cbn [content]. destruct (i <? 0); [done|]. generalize (Z.to_nat i) as j. clear i.
  induction ts as [|o ts IH]; intros [|j]; cbn [mbind option_bind lookup list_lookup]; done || apply IH.
Qed.

Lemma content_short p t k : content (TShort p t) k = if decide (p `prefix_of` k) then content t (drop (length p) k) else None.
Proof. done. Qed.

Lemma content_short_app p t k : content (TShort p t) (p ++ k) = content t k.
Proof. rewrite content_short, decide_True by (by exists k). by rewrite drop_app_length. Qed.

Lemma content_short_other p t k : ¬ p `prefix_of` k → content (TShort p t) k = None.
Proof. intros. by rewrite content_short, decide_False. Qed.

(** Trees with the same content below a common beginning. *)
Lemma content_split p q t k : content (TShort (p ++ q) t) k = content (TShort p (TShort q t)) k.
Proof.
  destruct (decide (p `prefix_of` k)) as [[r ->]|Hn].
  - rewrite content_short_app. rewrite !content_short. destruct (decide (q `prefix_of` r)) as [[r' ->]|Hq].
    + rewrite app_assoc, decide_True by (by exists r'). by rewrite !drop_app_length.
    + rewrite decide_False; [done|]. intros [r' E]. apply Hq. rewrite <- app_assoc in E. apply app_inv_head in E. by exists r'.
  - rewrite !content_short_other; [done|done|]. intros [r ->]. apply Hn. rewrite <- app_assoc. by eexists.
Qed.

Lemma content_nil_short t k : content (TShort [] t) k = content t k.
Proof. by rewrite content_short, decide_True by apply prefix_nil. Qed.

(** What holds below each key holds below its continuation. *)
Lemma content_short_ext p t u k : (∀ k, content t k = content u k) → content (TShort p t) k = content (TShort p u) k.
Proof. intros E. rewrite !content_short. by destruct (decide _). Qed.

(** Only whole keys have values. *)
Lemma canon_content_term t : canon t → ∀ k v, content t k = Some v → term k ∧ v ≠ [].
Proof.
  induction 1 as [p v Hp Hv|p ts Hp Hn Hc IH|ts Hl Hc IH Hv Hj]; intros k w Hk.
  - rewrite content_short in Hk. destruct (decide _) as [[r ->]|]; [|done]. rewrite drop_app_length in Hk.
    destruct r; [|done]. injection Hk as <-. by rewrite app_nil_r.
  - rewrite content_short in Hk. destruct (decide _) as [[r ->]|]; [|done]. rewrite drop_app_length in Hk.
    apply IH in Hk as [Hr ?]. split; [|done]. by apply term_app.
  - destruct k as [|i k]; [done|]. rewrite content_full in Hk. unfold child_content in Hk.
    destruct (Z.ltb_spec i 0); [done|]. destruct (ts !! Z.to_nat i) as [[t|]|] eqn:E; [|done..]. cbn in Hk.
    destruct (decide (Z.to_nat i = 16%nat)) as [Ei|Hi].
    + rewrite Ei in E. destruct (Hv t E) as (u & -> & Hu). destruct k; [|done]. injection Hk as <-.
      split; [|done]. apply term_cons. left. split; [lia|done].
    + assert (Z.to_nat i < 16)%nat as Hi16 by (apply lookup_lt_Some in E; lia).
      destruct (IH _ _ Hi16 E _ _ Hk) as [Hk' ?]. split; [|done]. apply term_cons. right. split; [unfold is_nibble; lia|done].
Qed.

Lemma canon_short k t : canon (TShort k t) →
  (∃ v, t = TValue v ∧ term k ∧ v ≠ []) ∨ (∃ ts, t = TFull ts ∧ k ≠ [] ∧ Forall is_nibble k ∧ canon (TFull ts)).
Proof. inversion 1; subst; [left|right]; by eexists. Qed.

(** The child at a nibble, or the value at the terminator. *)
Definition child_ok (i : Z) (t : tree) : Prop :=
  is_nibble i ∧ canon t ∨ i = 16 ∧ ∃ v, t = TValue v ∧ v ≠ [].

Lemma canon_child ts i t : canon (TFull ts) → 0 ≤ i → ts !! Z.to_nat i = Some (Some t) → child_ok i t.
Proof.
  intros Hc Hi E. inversion Hc as [| |? Hl Hn Hv _]; subst. destruct (decide (i = 16)) as [->|].
  - right. split; [done|]. by apply Hv.
  - apply lookup_lt_Some in E as Hlt. left. split; [unfold is_nibble; lia|]. apply (Hn (Z.to_nat i)); [lia|done].
Qed.

Lemma child_ok_canon ts :
  length ts = 17%nat → (∀ i t, 0 ≤ i → ts !! Z.to_nat i = Some (Some t) → child_ok i t) →
  (∃ i j t u, i ≠ j ∧ ts !! i = Some (Some t) ∧ ts !! j = Some (Some u)) → canon (TFull ts).
Proof.
  intros Hl Hc Hj. constructor; [done| | |done].
  - intros i t Hi E. destruct (Hc (Z.of_nat i) t) as [[_ ?]|[? _]]; [lia|by rewrite Nat2Z.id|done|lia].
  - intros t E. destruct (Hc 16 t) as [[Hb _]|[_ ?]]; [lia|done|unfold is_nibble in Hb; lia|done].
Qed.

Lemma child_content_set ts i o j k : 0 ≤ i < Z.of_nat (length ts) →
  child_content (<[Z.to_nat i := o]> ts) j k = if decide (i = j) then ocontent o k else child_content ts j k.
Proof.
  intros Hi. unfold child_content, ocontent. case_decide as E.
  - subst j. destruct (Z.ltb_spec i 0); [lia|]. rewrite list_lookup_insert_eq by lia. done.
  - destruct (Z.ltb_spec j 0); [done|]. rewrite list_lookup_insert_ne by lia. done.
Qed.

Lemma child_content_index ts i k : 0 ≤ i → child_content ts i k = ocontent (o ← ts !! Z.to_nat i; o) k.
Proof. intros. unfold child_content, ocontent. by destruct (Z.ltb_spec i 0); [lia|]. Qed.
End content.

Section content_more.

Lemma content_leaf p v k : content (TShort p (TValue v)) k = if decide (k = p) then Some v else None.
Proof.
  rewrite content_short. destruct (decide (p `prefix_of` k)) as [[r ->]|Hn].
  - rewrite drop_app_length. destruct r as [|x r]; cbn.
    + by rewrite app_nil_r, decide_True.
    + rewrite decide_False; [done|]. intros E. rewrite <- (app_nil_r p) in E at 2. by apply app_inv_head in E.
  - rewrite decide_False; [done|]. intros ->. by apply Hn.
Qed.

Lemma content_short_cons x p t y k :
  content (TShort (x :: p) t) (y :: k) = if decide (x = y) then content (TShort p t) k else None.
Proof.
  case_decide as E; [subst; rewrite !content_short|].
  - destruct (decide (p `prefix_of` k)) as [Hp|Hp].
    + rewrite decide_True by (by apply prefix_cons). done.
    + rewrite decide_False; [done|]. intros Hq. by apply prefix_cons_inv_2 in Hq.
  - rewrite content_short_other; [done|]. intros Hq. by apply prefix_cons_inv_1 in Hq.
Qed.

Lemma content_short_nil x p t : content (TShort (x :: p) t) [] = None.
Proof. apply content_short_other. apply prefix_nil_not. Qed.

(** The tree with two branches below a common beginning. *)
Definition two_branches (i j : Z) (t u : tree) : list (option tree) :=
  <[Z.to_nat j := Some u]> (<[Z.to_nat i := Some t]> (replicate 17 None)).

Lemma child_ok_index i t : child_ok i t → 0 ≤ i < 17.
Proof. unfold child_ok, is_nibble. lia. Qed.

Lemma fork_lookup i j t u l : 0 ≤ i < 17 → 0 ≤ j < 17 → i ≠ j →
  two_branches i j t u !! l = if decide (l = Z.to_nat j) then Some (Some u) else if decide (l = Z.to_nat i) then Some (Some t)
                      else if decide (l < 17)%nat then Some None else None.
Proof.
  intros Hi Hj Hne. unfold two_branches. case_decide as E; [subst l; by rewrite list_lookup_insert_eq by (rewrite length_insert, length_replicate; lia)|].
  rewrite list_lookup_insert_ne by done. case_decide as E'; [subst l; by rewrite list_lookup_insert_eq by (rewrite length_replicate; lia)|].
  rewrite list_lookup_insert_ne by done. case_decide; [by apply lookup_replicate_2|].
  apply lookup_ge_None_2. rewrite length_replicate. lia.
Qed.

Lemma fork_canon i j t u : i ≠ j → child_ok i t → child_ok j u → canon (TFull (two_branches i j t u)).
Proof.
  intros Hne Ht Hu. pose proof (child_ok_index _ _ Ht). pose proof (child_ok_index _ _ Hu).
  apply child_ok_canon.
  - unfold two_branches. by rewrite !length_insert, length_replicate.
  - intros l w Hl. rewrite fork_lookup by done. case_decide as E; [intros [= <-]; by replace l with j by lia|].
    case_decide as E'; [intros [= <-]; by replace l with i by lia|]. by case_decide.
  - exists (Z.to_nat i), (Z.to_nat j), t, u. split; [lia|]. rewrite !fork_lookup by done.
    rewrite decide_False, decide_True, decide_True by lia. done.
Qed.

Lemma fork_content i j t u l k : i ≠ j → 0 ≤ i < 17 → 0 ≤ j < 17 →
  content (TFull (two_branches i j t u)) (l :: k) = if decide (j = l) then content u k else if decide (i = l) then content t k else None.
Proof.
  intros Hne Hi Hj. rewrite content_full. unfold two_branches.
  rewrite child_content_set by (rewrite length_insert, length_replicate; lia).
  case_decide; [done|]. rewrite child_content_set by (rewrite length_replicate; lia). case_decide; [done|].
  unfold child_content. destruct (l <? 0); [done|]. destruct (replicate _ _ !! _) as [o|] eqn:E; [|done].
  by apply lookup_replicate_1 in E as [-> _].
Qed.
End content_more.

(** * Insertion *)

Section insertion.
Context `{Externals} (db_node : Hash → Res (option node)).
#[local] Abbreviation rep := (rep db_node).

(** A node, or none, at an inner place of a trie. *)
Definition slot (top : bool) (n : node) (o : option tree) : Prop :=
  match o with None => n = nilNode | Some t => rep top n t ∧ canon t end.

Definition need (n : node) (key : bytes) : nat := 2 * length key + (if is_hashNode n then 2 else 1).

(** What inserting [v] under [key] makes of the place [o]. *)
Record inserted (top : bool) (o : option tree) (key v : bytes) (dirty : bool) (n' : node) (t' : tree) : Prop := {
  ins_rep : rep top n' t';
  ins_content k : content t' k = if decide (k = key) then Some v else ocontent o k;
  ins_same : dirty = false → ocontent o key = Some v
}.

Lemma rep_newFlag top t : flag_ok db_node top newFlag t.
Proof. by split. Qed.

Lemma rep_short_new top k c t : rep false c t → rep top (shortNode k c newFlag) (TShort k t).
Proof. intros. constructor; [done|apply rep_newFlag|done]. Qed.

(** A short node loses the beginning of its key. *)
Lemma moved fuel prefix k c t m k0 : rep false c t → canon (TShort k t) → k !! m = Some k0 →
  ∃ c0 t0, trie_insert db_node (S fuel) nilNode prefix (drop (m + 1) k) c = try_ret (true, c0) ∧
    rep false c0 t0 ∧ child_ok k0 t0 ∧ ∀ r, content t0 r = content (TShort (drop (m + 1) k) t) r.
Proof.
  intros Hr Hc Hk. rewrite Nat.add_1_r. pose proof (drop_S _ _ _ Hk) as Ed.
  assert (is_nibble k0 ∧ drop (S m) k ≠ [] ∧ canon (TShort (drop (S m) k) t) ∨ drop (S m) k = [] ∧ child_ok k0 t) as Hcases.
  { inversion Hc as [? v Ht Hv|? ts Hn Hk' Hf|]; subst.
    - destruct (term_at k m Ht) as (x & Ex & _ & Hx); [by eapply lookup_lt_Some|].
      rewrite Hk in Ex. injection Ex as <-. apply term_cons in Hx as [[-> E]|[Hx Hd]].
      + right. split; [done|]. right. split; [done|by exists v].
      + left. split; [done|]. split; [intros E; rewrite E in Hd; by apply term_nil in Hd|by constructor].
    - assert (is_nibble k0) as H0 by (eapply Forall_lookup_1; done).
      destruct (drop (S m) k) as [|x r] eqn:E; [right; split; [done|by left]|].
      left. split; [done|]. split; [done|]. constructor; [done| |done]. rewrite <- E. by apply Forall_drop. }
  destruct (drop (S m) k) as [|x r] eqn:E.
  - destruct Hcases as [(_ & ? & _)|[_ Hok]]; [done|]. exists c, t. split; [by destruct c|].
    split; [done|]. split; [done|]. intros r. by rewrite content_nil_short.
  - destruct Hcases as [(Hn & _ & Hcan)|[? _]]; [|done]. exists (shortNode (x :: r) c newFlag), (TShort (x :: r) t).
    split; [done|]. split; [by apply rep_short_new|]. split; [by left|done].
Qed.

(** The short node and the new key part after [m] nibbles. *)
Lemma split_content p k0 r0 t i r1 v t0 t1 k : k0 ≠ i → 0 ≤ k0 < 17 → 0 ≤ i < 17 →
  (∀ r, content t0 r = content (TShort r0 t) r) → (∀ r, content t1 r = content (TShort r1 (TValue v)) r) →
  content (TShort p (TFull (two_branches k0 i t0 t1))) k =
    if decide (k = p ++ i :: r1) then Some v else content (TShort (p ++ k0 :: r0) t) k.
Proof.
  intros Hne H0 Hi E0 E1. rewrite content_split. destruct (decide (p `prefix_of` k)) as [[s ->]|Hn].
  - rewrite !content_short_app. destruct s as [|j s].
    + rewrite content_short_nil, decide_False; [done|]. intros E. by apply app_inv_head in E.
    + rewrite fork_content by done. rewrite content_short_cons, E0, E1, content_leaf.
      case_decide as Ej; [subst j|].
      * rewrite (decide_False (P := k0 = i)) by done. case_decide as Es; [subst; by rewrite decide_True|].
        rewrite decide_False; [done|]. intros E. apply app_inv_head in E. congruence.
      * rewrite (decide_False (P := p ++ j :: s = _)); [done|]. intros E. apply app_inv_head in E. congruence.
  - rewrite !content_short_other by done. rewrite decide_False; [done|]. intros ->. apply Hn. by eexists.
Qed.

Lemma rep_fork i j c d t u : i ≠ j → 0 ≤ i < 17 → 0 ≤ j < 17 → rep false c t → rep false d u →
  ∀ top, rep top (fullNode (set_child (set_child no_children i c) j d) newFlag) (TFull (two_branches i j t u)).
Proof.
  intros Hne Hi Hj Hc Hd top. unfold set_child, no_children.
  assert (∀ l, <[Z.to_nat j := d]> (<[Z.to_nat i := c]> (replicate 17 nilNode)) !! l =
    if decide (l = Z.to_nat j) then Some d else if decide (l = Z.to_nat i) then Some c
    else if decide (l < 17)%nat then Some nilNode else None) as El.
  { intros l. case_decide as E; [subst; by rewrite list_lookup_insert_eq by (rewrite length_insert, length_replicate; lia)|].
    rewrite list_lookup_insert_ne by done. case_decide as E'; [subst; by rewrite list_lookup_insert_eq by (rewrite length_replicate; lia)|].
    rewrite list_lookup_insert_ne by done. case_decide; [by apply lookup_replicate_2|].
    apply lookup_ge_None_2. rewrite length_replicate. lia. }
  constructor; [unfold two_branches; by rewrite !length_insert, !length_replicate| | |apply rep_newFlag|done].
  - intros l x w. rewrite El, fork_lookup by done. repeat (case_decide; [by intros [= <-] [= <-] || done|]). done.
  - intros l x. rewrite El, fork_lookup by done. repeat case_decide; by intros [= <-].
Qed.

Lemma child_at_Some cs i c : cs !! Z.to_nat i = Some c → child_at cs i = try_ret c.
Proof. intros E. unfold child_at. by rewrite E. Qed.

Lemma no_child_at i : 0 ≤ i < 17 → child_at no_children i = try_ret nilNode.
Proof. intros. apply child_at_Some, lookup_replicate_2. lia. Qed.

(** The key leaves the short node before its end: the node forks. *)
Lemma insert_split fuel top k c f t prefix key v :
  rep false c t → canon (TShort k t) → term key → v ≠ [] → ¬ k `prefix_of` key →
  ∃ n' t', trie_insert db_node (S (S fuel)) (shortNode k c f) prefix key (valueNode v) = try_ret (true, n') ∧
    canon t' ∧ inserted top (Some (TShort k t)) key v true n' t'.
Proof.
  intros Hr Hc Hkey Hv Hnp. set (m := prefixLen key k).
  assert (m < length k)%nat as Hmk.
  { destruct (prefixLen_le key k). fold m in H1. destruct (decide (m = length k)) as [E|]; [|lia].
    exfalso. apply Hnp. by apply prefixLen_whole. }
  assert (take m key = take m k) as Et by apply prefixLen_take.
  assert (m < length key)%nat as Hmkey.
  { destruct (prefixLen_le key k). fold m in H0. destruct (decide (m = length key)) as [E|]; [|lia]. exfalso.
    assert (key `prefix_of` k) as Hp by (exists (drop m k); rewrite <- (take_drop m k) at 1; f_equal; rewrite <- Et, E; apply take_ge; lia).
    inversion Hc as [? ? Ht|? ? _ Hn|]; subst; [|by eapply term_not_prefix].
    apply Hnp. by rewrite (term_prefix key k). }
  destruct (lookup_lt_is_Some_2 k m Hmk) as [k0 E0]. destruct (lookup_lt_is_Some_2 key m Hmkey) as [i Ei].
  assert (k0 ≠ i) as Hne by (intros ->; by eapply (prefixLen_differ key k)).
  destruct (moved fuel (prefix ++ take (m + 1) k) k c t m k0 Hr Hc E0) as (c0 & t0 & Q0 & R0 & O0 & C0).
  destruct (moved fuel (prefix ++ take (m + 1) key) key (valueNode v) (TValue v) m i) as (c1 & t1 & Q1 & R1 & O1 & C1);
    [constructor|by constructor|done|].
  pose proof (child_ok_index _ _ O0) as I0. pose proof (child_ok_index _ _ O1) as I1.
  set (branch := fullNode (set_child (set_child no_children k0 c0) i c1) newFlag).
  exists (if decide (m = O) then branch else shortNode (take m key) branch newFlag).
  exists (if decide (m = O) then TFull (two_branches k0 i t0 t1) else TShort (take m key) (TFull (two_branches k0 i t0 t1))).
  assert (canon (TFull (two_branches k0 i t0 t1))) as Hfork by (by apply fork_canon).
  assert (∀ top, rep top branch (TFull (two_branches k0 i t0 t1))) as Hb by (intros; by apply rep_fork).
  split; [|split; [case_decide; [done|]|split]].
  - remember (S fuel) as fuel1. destruct key as [|x r]; [by apply term_nil in Hkey|]. cbn [trie_insert].
    fold m. rewrite bool_decide_eq_false_2 by lia. unfold byte_at. rewrite E0. cbn [try_bind try_ret].
    rewrite Q0. cbn [try_bind try_ret]. rewrite no_child_at by done. cbn [try_bind try_ret]. rewrite Ei. cbn [try_bind try_ret].
    rewrite Q1. cbn [try_bind try_ret]. rewrite no_child_at by done. cbn [try_bind try_ret]. fold branch.
    destruct (decide (m = O)); [by rewrite bool_decide_eq_true_2|by rewrite bool_decide_eq_false_2].
  - constructor; [|by apply term_take|done]. destruct key as [|x r]; [done|]. by destruct m.
  - case_decide; [apply Hb|]. apply rep_short_new, Hb.
  - intros r. replace (ocontent (Some (TShort k t)) r) with (content (TShort (take m key ++ k0 :: drop (m + 1) k) t) r)
      by (rewrite Et, Nat.add_1_r, <- drop_S by done; by rewrite take_drop).
    replace (content (if decide (m = O) then _ else _) r) with (content (TShort (take m key) (TFull (two_branches k0 i t0 t1))) r)
      by (case_decide as Em; [rewrite Em; apply content_nil_short|done]).
    rewrite (split_content _ _ _ _ _ _ v _ _ _ Hne I0 I1 C0 C1).
    by replace (take m key ++ i :: drop (m + 1) key) with key by (rewrite Nat.add_1_r, <- drop_S by done; by rewrite take_drop).
  - done.
Qed.

(** A node of an inner place that is not a hash. *)
Lemma rep_live top n t : rep top n t → canon t → is_hashNode n = false →
  (∃ k c t' f, n = shortNode k c f ∧ t = TShort k t' ∧ rep false c t') ∨ (∃ cs f ts, n = fullNode cs f ∧ t = TFull ts).
Proof.
  intros Hr Hc Hh. destruct Hr as [|? k c t f Hrc _ _|? cs ts f _ _ _ _ _|]; [by inversion Hc| | |done].
  - left. by exists k, c, t, f.
  - right. by exists cs, f, ts.
Qed.

(** What insertion promises at an inner place, with some fuel. *)
Definition inserts (fuel : nat) : Prop := ∀ top n o prefix key v,
  slot top n o → term key → v ≠ [] → (need n key ≤ fuel)%nat →
  ∃ dirty n' t', trie_insert db_node fuel n prefix key (valueNode v) = try_ret (dirty, n') ∧ canon t' ∧
    inserted top o key v dirty n' t' ∧ (∀ ts, o = Some (TFull ts) → ∃ ts', t' = TFull ts').

(** At the end of a key, there is a value or nothing. *)
Lemma insert_end fuel prefix v n o : (o = None ∧ n = nilNode ∨ ∃ w, o = Some (TValue w) ∧ rep false n (TValue w)) →
  ∃ dirty, trie_insert db_node (S fuel) n prefix [] (valueNode v) = try_ret (dirty, valueNode v) ∧
    inserted false o [] v dirty (valueNode v) (TValue v).
Proof.
  intros [[-> ->]|(w & -> & Hr)].
  - eexists. split; [done|]. split; [constructor| |done]. by intros [|x k].
  - inversion Hr; subst; [|done]. eexists. split; [done|]. split; [constructor|by intros [|x k]|].
    intros E%negb_false_iff%bool_decide_eq_true_1. by subst.
Qed.

Lemma full_child top cs f ts i : rep top (fullNode cs f) (TFull ts) → canon (TFull ts) → 0 ≤ i < 17 →
  ∃ c o, child_at cs i = try_ret c ∧ cs !! Z.to_nat i = Some c ∧ ts !! Z.to_nat i = Some o ∧
    match o with None => c = nilNode | Some t => rep false c t ∧ child_ok i t end.
Proof.
  intros Hr Hc Hi. inversion Hr as [| |? ? ? ? Hl H1 H2 _ _|]; subst. inversion Hc as [| |? Hl' _ _ _]; subst.
  destruct (lookup_lt_is_Some_2 cs (Z.to_nat i)) as [c Ec]; [lia|].
  destruct (lookup_lt_is_Some_2 ts (Z.to_nat i)) as [o Eo]; [lia|].
  exists c, o. split; [by apply child_at_Some|]. split; [done|]. split; [done|]. destruct o as [t|]; [|exact (H2 _ _ Ec Eo)].
  split; [exact (H1 _ _ _ Ec Eo)|]. exact (canon_child ts i t Hc ltac:(lia) Eo).
Qed.

(** Another child at an index. *)
Lemma rep_set_child top cs f ts i c t : rep top (fullNode cs f) (TFull ts) → 0 ≤ i < Z.of_nat (length ts) → rep false c t →
  rep top (fullNode (set_child cs i c) newFlag) (TFull (<[Z.to_nat i := Some t]> ts)).
Proof.
  intros Hr Hi Hc. inversion Hr as [| |? ? ? ? Hl H1 H2 _ _|]; subst. unfold set_child.
  constructor; [by rewrite !length_insert| | |apply rep_newFlag|done].
  - intros l d u. destruct (decide (Z.to_nat i = l)) as [<-|Hne].
    + rewrite !list_lookup_insert_eq by lia. by intros [= <-] [= <-].
    + rewrite !list_lookup_insert_ne by done. apply H1.
  - intros l d. destruct (decide (Z.to_nat i = l)) as [<-|Hne].
    + rewrite !list_lookup_insert_eq by lia. done.
    + rewrite !list_lookup_insert_ne by done. apply H2.
Qed.

Lemma canon_set_child ts i t : canon (TFull ts) → child_ok i t → canon (TFull (<[Z.to_nat i := Some t]> ts)).
Proof.
  intros Hc Ht. pose proof (child_ok_index _ _ Ht) as Hi. inversion Hc as [| |? Hl _ _ (a & b & u & w & Hne & Ea & Eb)]; subst.
  apply child_ok_canon; [by rewrite length_insert| |].
  - intros l x Hl0 E. destruct (decide (i = l)) as [<-|Hil].
    + rewrite list_lookup_insert_eq in E by lia. by injection E as <-.
    + rewrite list_lookup_insert_ne in E by lia. by eapply canon_child.
  - assert (∀ l x, ts !! l = Some (Some x) → ∃ y, <[Z.to_nat i := Some t]> ts !! l = Some (Some y)) as Hk.
    { intros l x E. destruct (decide (Z.to_nat i = l)) as [<-|]; [rewrite list_lookup_insert_eq by lia; by eexists|].
      rewrite list_lookup_insert_ne by done. by eexists. }
    destruct (Hk a u Ea) as [u' ?], (Hk b w Eb) as [w' ?]. by exists a, b, u', w'.
Qed.

Lemma insert_full fuel top cs f ts prefix key v :
  inserts fuel → rep top (fullNode cs f) (TFull ts) → canon (TFull ts) → term key → v ≠ [] → (2 * length key ≤ fuel)%nat →
  ∃ dirty n' ts', trie_insert db_node (S fuel) (fullNode cs f) prefix key (valueNode v) = try_ret (dirty, n') ∧
    canon (TFull ts') ∧ inserted top (Some (TFull ts)) key v dirty n' (TFull ts').
Proof.
  intros IH Hr Hc Hkey Hv Hf. destruct key as [|i rest]; [by apply term_nil in Hkey|]. cbn [length] in Hf.
  assert (0 ≤ i < 17) as Hi by (apply term_cons in Hkey as [[-> _]|[Hx _]]; [lia|unfold is_nibble in Hx; lia]).
  destruct (full_child _ _ _ _ i Hr Hc Hi) as (c & o & Ec & Ec' & Eo & Ho).
  assert (∃ dirty n' t', trie_insert db_node fuel c (prefix ++ [i]) rest (valueNode v) = try_ret (dirty, n') ∧ child_ok i t' ∧
    inserted false o rest v dirty n' t') as (dirty & n' & t' & E & Hok & Hins).
  { apply term_cons in Hkey as [[-> ->]|[Hn Hrest]].
    - destruct fuel as [|fuel]; [lia|]. destruct (insert_end fuel (prefix ++ [16]) v c o) as (d & E & Hins).
      + destruct o as [t|]; [right|by left]. destruct Ho as [Ht [[Hn _]|[_ (w & -> & _)]]]; [unfold is_nibble in Hn; lia|by exists w].
      + exists d, (valueNode v), (TValue v). split; [done|]. split; [right; split; [done|by exists v]|done].
    - destruct (IH false c o (prefix ++ [i]) rest v) as (d & n' & t' & E & Hcan & Hins & _); [|done|done| |].
      + destruct o as [t|]; [|done]. destruct Ho as [Ht [[_ Hcan]|[-> _]]]; [done|unfold is_nibble in Hn; lia].
      + unfold need. destruct (is_hashNode c); lia.
      + exists d, n', t'. split; [done|]. split; [by left|done]. }
  inversion Hc as [| |? Hl _ _ _]; subst. destruct Hins as [R C D].
  assert (∀ k, content (TFull (<[Z.to_nat i:=Some t']> ts)) k
    = if decide (k = i :: rest) then Some v else ocontent (Some (TFull ts)) k) as HC.
  { intros [|j k]; [done|]. cbn [ocontent mbind option_bind]. rewrite !content_full, child_content_set by lia.
    case_decide as Ej; [subst j|].
    - cbn [ocontent]. change (ocontent (Some t') k) with (content t' k). rewrite C, child_content_index, Eo by lia.
      cbn [mbind option_bind]. destruct (decide (k = rest)) as [->|]; [by rewrite decide_True|].
      by rewrite decide_False by congruence.
    - by rewrite decide_False by congruence. }
  cbn [trie_insert]. rewrite Ec. cbn [try_bind try_ret]. rewrite E. cbn [try_bind try_ret]. destruct dirty.
  - exists true, (fullNode (set_child cs i n') newFlag), (<[Z.to_nat i := Some t']> ts).
    split; [done|]. split; [by apply canon_set_child|]. split; [|done|done]. eapply rep_set_child; [done|lia|done].
  - exists false, (fullNode cs f), ts. split; [done|]. split; [done|].
    assert (ocontent (Some (TFull ts)) (i :: rest) = Some v) as Hsame.
    { cbn [ocontent mbind option_bind]. rewrite content_full, child_content_index, Eo by lia. by apply D. }
    split; [done| |done]. intros k. case_decide as Ek; [|done]. by rewrite Ek.
Qed.

(** The key goes on below the short node. *)
Lemma insert_below fuel top k c f t prefix key v :
  inserts fuel → rep top (shortNode k c f) (TShort k t) → canon (TShort k t) → term key → v ≠ [] →
  (2 * length key ≤ fuel)%nat → k `prefix_of` key →
  ∃ dirty n' t', trie_insert db_node (S fuel) (shortNode k c f) prefix key (valueNode v) = try_ret (dirty, n') ∧
    canon t' ∧ inserted top (Some (TShort k t)) key v dirty n' t'.
Proof.
  intros IH Hr Hc Hkey Hv Hf Hp. inversion Hr as [|? ? ? ? ? Hrc Hflag Hkn| |]; subst.
  assert (0 < length key)%nat as Hlk by (destruct key; [by apply term_nil in Hkey|cbn; lia]).
  pose proof (proj2 (prefixLen_whole key k) Hp) as Hm.
  assert (take (length k) key = k) as Ht by (rewrite <- Hm, prefixLen_take, Hm; by apply take_ge).
  remember (drop (length k) key) as rest eqn:Erest. assert (key = k ++ rest) as Ek by (rewrite Erest; rewrite <- Ht at 1; by rewrite take_drop).
  assert (∃ dirty n' t', trie_insert db_node fuel c (prefix ++ k) rest (valueNode v) = try_ret (dirty, n') ∧ canon (TShort k t') ∧
    inserted false (Some t) rest v dirty n' t') as (dirty & n' & t' & E & Hcan & [R C D]).
  { destruct (canon_short _ _ Hc) as [(w & -> & Hk & Hw)|(ts & -> & Hn & Hk & Hfull)].
    - assert (rest = []) as ->.
      { rewrite Erest. pose proof (term_prefix k key Hk Hkey Hp) as <-. apply drop_all. }
      destruct fuel as [|fuel]; [lia|]. destruct (insert_end fuel (prefix ++ k) v c (Some (TValue w))) as (d & E & Hins); [right; by exists w|].
      exists d, (valueNode v), (TValue v). split; [done|]. split; [by constructor|done].
    - assert (term rest) as Hrest by (rewrite Ek in Hkey; by apply term_app in Hkey).
      destruct (IH false c (Some (TFull ts)) (prefix ++ k) rest v) as (d & n' & t' & E & Hcan & Hins & Hts); [done|done|done| |].
      + assert (0 < length k)%nat by (destruct k; [done|cbn; lia]). unfold need. rewrite Erest, length_drop. destruct (is_hashNode c); lia.
      + destruct (Hts ts eq_refl) as [ts' ->]. exists d, n', (TFull ts'). split; [done|]. split; [by constructor|done]. }
  assert (∀ r, content (TShort k t') r = if decide (r = key) then Some v else ocontent (Some (TShort k t)) r) as HC.
  { intros r. cbn [ocontent mbind option_bind]. destruct (decide (k `prefix_of` r)) as [[q ->]|Hnp].
    - rewrite !content_short_app, C. rewrite Ek. destruct (decide (q = rest)) as [->|]; [by rewrite decide_True|].
      rewrite decide_False; [done|]. intros Eq. by apply app_inv_head in Eq.
    - rewrite !content_short_other by done. rewrite decide_False; [done|]. by intros ->. }
  destruct key as [|x r]; [by apply term_nil in Hkey|]. cbn [trie_insert]. rewrite Hm, bool_decide_eq_true_2, Ht, <- Erest by done.
  rewrite E. cbn [try_bind try_ret]. destruct dirty.
  - exists true, (shortNode k n' newFlag), (TShort k t'). split; [done|]. split; [done|]. split; [|done|done].
    by apply rep_short_new.
  - exists false, (shortNode k c f), (TShort k t). split; [done|]. split; [done|].
    assert (ocontent (Some (TShort k t)) (x :: r) = Some v) as Hsame.
    { rewrite Ek. cbn [ocontent mbind option_bind]. rewrite content_short_app. by apply D. }
    split; [done| |done]. intros q. case_decide as Eq; [|done]. by rewrite Eq.
Qed.

Lemma canon_no_value v : ¬ canon (TValue v).
Proof. by inversion 1. Qed.

Lemma insert_inserts fuel : inserts fuel.
Proof.
  induction fuel as [|fuel IH]; intros top n o prefix key v Hs Hkey Hv Hf; [unfold need in Hf; destruct (is_hashNode n); lia|].
  destruct o as [t|].
  2: { cbn in Hs. subst n. destruct key as [|x r] eqn:Ek; [by apply term_nil in Hkey|]. rewrite <- Ek in *.
    exists true, (shortNode key (valueNode v) newFlag), (TShort key (TValue v)). split; [by rewrite Ek|].
    split; [by constructor|]. split; [|done]. split; [apply rep_short_new; constructor| |done].
    intros r'. by rewrite content_leaf. }
  destruct Hs as [Hr Hc]. destruct Hr as [top v'|top k c t f Hrc Hflag Hkn|top cs ts f Hl H1 H2 Hflag Hkn|top h t Eh Hlarge Hnv Hst].
  - by apply canon_no_value in Hc.
  - unfold need in Hf. cbn [is_hashNode] in Hf. assert (0 < length key)%nat by (destruct key; [by apply term_nil in Hkey|cbn; lia]).
    destruct (decide (k `prefix_of` key)) as [Hp|Hp].
    + destruct (insert_below fuel top k c f t prefix key v) as (d & n' & t' & E & Hcan & Hins); try done; [by constructor|lia|].
      exists d, n', t'. done.
    + destruct fuel as [|fuel]; [lia|].
      destruct (insert_split fuel top k c f t prefix key v) as (n' & t' & E & Hcan & Hins); try done. exists true, n', t'. done.
  - unfold need in Hf. cbn [is_hashNode] in Hf.
    destruct (insert_full fuel top cs f ts prefix key v) as (d & n' & ts' & E & Hcan & Hins); try done; [by constructor|lia|].
    exists d, n', (TFull ts'). split; [done|]. split; [done|]. split; [done|]. intros; by eexists.
  - destruct (hash_resolves db_node top h t) as (n & Hdb & Hnh & Hr & Hrk); [by constructor|].
    destruct key as [|x r] eqn:Ek; [by apply term_nil in Hkey|]. rewrite <- Ek in *.
    destruct (IH top n (Some t) prefix key v) as (d & n' & t' & E & Hcan & Hins & Hts); [done|done|done| |].
    { unfold need in *. rewrite Hnh. cbn [is_hashNode] in Hf. lia. }
    assert (trie_insert db_node (S fuel) (hashNode h) prefix key (valueNode v) = try_ret (if negb d then (false, n) else (true, n'))) as ->.
    { rewrite Ek. cbn [trie_insert]. unfold resolveHash. rewrite Hdb. cbn [try_bind try_ret]. rewrite <- Ek, E. by destruct d. }
    destruct d; cbn [negb]; [exists true, n', t'; done|].
    exists false, n, t. split; [done|]. split; [done|]. split; [|intros ts [= ->]; by exists ts].
    split; [done| |by apply Hins]. intros r'. case_decide as Eq; [|done]. rewrite Eq. by apply (ins_same _ _ _ _ _ _ _ Hins).
Qed.
End insertion.

(** * Looking up *)

Section lookup.
Context `{Externals} (db_node : Hash → Res (option node)).
#[local] Abbreviation rep := (rep db_node).

(** The value below a place, and a node for the same tree. *)
Definition gets (fuel : nat) : Prop := ∀ top n t key pos,
  rep top n t → canon t → term (drop pos key) → (need n (drop pos key) ≤ fuel)%nat →
  ∃ n' b, tryGet db_node fuel n key pos = try_ret (content t (drop pos key), n', b) ∧ rep top n' t ∧ (known top n t → known top n' t).

Lemma get_short fuel top k c f t key pos :
  gets fuel → rep top (shortNode k c f) (TShort k t) → canon (TShort k t) → term (drop pos key) →
  (2 * length (drop pos key) ≤ fuel)%nat →
  ∃ n' b, tryGet db_node (S fuel) (shortNode k c f) key pos = try_ret (content (TShort k t) (drop pos key), n', b) ∧ rep top n' (TShort k t) ∧
    (known top (shortNode k c f) (TShort k t) → known top n' (TShort k t)).
Proof.
  intros IH Hr Hc Hkey Hf. inversion Hr as [|? ? ? ? ? Hrc Hflag Hkn| |]; subst. cbn [tryGet].
  set (s := drop pos key) in *.
  assert (0 < length s)%nat as Hls by (destruct s; [by apply term_nil in Hkey|cbn; lia]).
  assert (len key - Z.of_nat pos = Z.of_nat (length s)) as -> by (unfold s in *; rewrite length_drop in *; unfold len; lia).
  destruct (decide (k `prefix_of` s)) as [[r Er]|Hnp].
  - assert ((Z.of_nat (length s) <? len k) = false) as -> by (apply Z.ltb_ge; rewrite Er, length_app; unfold len; lia).
    rewrite (bool_decide_eq_true_2 (k = take _ s)) by (by rewrite Er, take_app_length). cbn [orb negb].
    assert (drop (pos + length k) key = r) as Edrop by (rewrite <- drop_drop; fold s; by rewrite Er, drop_app_length).
    assert (∃ n' b, tryGet db_node fuel c key (pos + length k) = try_ret (content t r, n', b) ∧ rep false n' t ∧
      (known false c t → known false n' t)) as (n' & b & -> & Hn' & Hkn').
    { destruct (canon_short _ _ Hc) as [(w & -> & Hk & Hw)|(ts & -> & Hn & Hk & Hfull)].
      - assert (r = []) as ->.
        { pose proof (term_prefix k s Hk Hkey (ex_intro _ r Er)) as E. rewrite <- E in Er.
          rewrite <- (app_nil_r k) in Er at 1. by apply app_inv_head in Er. }
        inversion Hrc; subst; [|done]. destruct fuel as [|fuel]; [lia|]. eexists _, _. split; [done|]. split; [constructor|done].
      - destruct (IH false c (TFull ts) key (pos + length k)%nat) as (n' & b & E & Hn' & Hkn'); [done|done| | |].
        + rewrite Edrop. rewrite Er in Hkey. by apply term_app in Hkey.
        + rewrite Edrop. rewrite Er, length_app in Hf. assert (0 < length k)%nat by (destruct k; [done|cbn; lia]).
          unfold need. destruct (is_hashNode c); lia.
        + rewrite Edrop in E. by exists n', b. }
    cbn [try_bind try_ret]. rewrite Er, content_short_app. eexists _, b. split; [done|].
    destruct b; [|done]. split; [constructor; auto|]. inversion 1; subst. constructor; auto.
  - rewrite content_short_other by done. exists (shortNode k c f), false. split; [|done].
    replace ((Z.of_nat (length s) <? len k) || negb (bool_decide (k = take (length k) s))) with true; [done|].
    symmetry. apply orb_true_iff. destruct (decide (k = take (length k) s)) as [E|E].
    + exfalso. apply Hnp. rewrite E. exists (drop (length k) s). by rewrite take_drop.
    + right. by rewrite bool_decide_eq_false_2.
Qed.

(** Another node for the same child; the node keeps its flags. *)
Lemma known_same_child cs ts i c t : length cs = length ts → ts !! Z.to_nat i = Some (Some t) →
  (∀ c', cs !! Z.to_nat i = Some c' → known false c' t → known false c t) →
  (∀ l d u, cs !! l = Some d → ts !! l = Some (Some u) → known false d u) →
  ∀ l d u, set_child cs i c !! l = Some d → ts !! l = Some (Some u) → known false d u.
Proof.
  intros Hl Et Hc Hk l d u El Eu. unfold set_child in El. destruct (decide (Z.to_nat i = l)) as [<-|Hne].
  - assert (Z.to_nat i < length cs)%nat as Hlt by (rewrite Hl; by eapply lookup_lt_Some).
    destruct (lookup_lt_is_Some_2 cs _ Hlt) as [c' Ec]. rewrite list_lookup_insert_eq in El by done.
    assert (u = t) as -> by congruence. injection El as <-. by eapply Hc, Hk.
  - rewrite list_lookup_insert_ne in El by done. by eapply Hk.
Qed.

Lemma rep_same_child top cs f ts i c t : rep top (fullNode cs f) (TFull ts) → ts !! Z.to_nat i = Some (Some t) → rep false c t →
  (∀ c', cs !! Z.to_nat i = Some c' → known false c' t → known false c t) →
  rep top (fullNode (set_child cs i c) f) (TFull ts).
Proof.
  intros Hr Et Hc Hkc. inversion Hr as [| |? ? ? ? Hl H1 H2 Hf Hkn|]; subst. unfold set_child.
  constructor; [by rewrite length_insert| | |done|intros Hfl; eapply known_same_child; [done|done|done|by apply Hkn]].
  - intros l d u El Eu. destruct (decide (Z.to_nat i = l)) as [<-|Hne].
    + rewrite list_lookup_insert_eq in El by (rewrite Hl; by eapply lookup_lt_Some). congruence.
    + rewrite list_lookup_insert_ne in El by done. by eapply H1.
  - intros l d El Eu. destruct (decide (Z.to_nat i = l)) as [<-|Hne]; [congruence|].
    rewrite list_lookup_insert_ne in El by done. by eapply H2.
Qed.

Lemma get_full fuel top cs f ts key pos :
  gets fuel → rep top (fullNode cs f) (TFull ts) → canon (TFull ts) → term (drop pos key) →
  (2 * length (drop pos key) ≤ fuel)%nat →
  ∃ n' b, tryGet db_node (S fuel) (fullNode cs f) key pos = try_ret (content (TFull ts) (drop pos key), n', b) ∧ rep top n' (TFull ts) ∧
    (known top (fullNode cs f) (TFull ts) → known top n' (TFull ts)).
Proof.
  intros IH Hr Hc Hkey Hf. destruct (drop pos key) as [|i rest] eqn:Es; [by apply term_nil in Hkey|]. cbn [length] in Hf.
  assert (key !! pos = Some i) as Ei by (rewrite <- (Nat.add_0_r pos), <- lookup_drop; by rewrite Es).
  assert (drop (pos + 1) key = rest) as Edrop by (rewrite <- drop_drop, Es; done).
  assert (0 ≤ i < 17) as Hi by (apply term_cons in Hkey as [[-> _]|[Hx _]]; [lia|unfold is_nibble in Hx; lia]).
  destruct (full_child db_node _ _ _ _ i Hr Hc Hi) as (c & o & Ec & Ec' & Eo & Ho).
  cbn [tryGet]. unfold byte_at. rewrite Ei. cbn [try_bind try_ret]. rewrite Ec. cbn [try_bind try_ret].
  rewrite content_full, child_content_index, Eo by lia. cbn [mbind option_bind].
  destruct fuel as [|fuel]; [lia|]. destruct o as [t|].
  2: { subst c. exists (fullNode cs f), false. done. }
  destruct Ho as [Ht Hok].
  assert (∃ n' b, tryGet db_node (S fuel) c key (pos + 1) = try_ret (content t rest, n', b) ∧ rep false n' t ∧
    (known false c t → known false n' t)) as (n' & b & -> & Hn' & Hkn').
  { apply term_cons in Hkey as [[-> ->]|[Hn Hrest]].
    - destruct Hok as [[Hn _]|[_ (w & -> & _)]]; [unfold is_nibble in Hn; lia|].
      inversion Ht; subst; [|done]. eexists _, _. split; [done|]. split; [constructor|done].
    - destruct Hok as [[_ Hcan]|[-> _]]; [|unfold is_nibble in Hn; lia].
      destruct (IH false c t key (pos + 1)%nat) as (n' & b & E & Hn' & Hkn'); [done|done|by rewrite Edrop| |].
      + rewrite Edrop. unfold need. destruct (is_hashNode c); lia.
      + rewrite Edrop in E. by exists n', b. }
  cbn [try_bind try_ret ocontent mbind option_bind]. eexists _, b. split; [done|].
  destruct b; [|done]. assert (∀ c', cs !! Z.to_nat i = Some c' → known false c' t → known false n' t) as Hkc by (intros c' E'; assert (c' = c) as -> by congruence; done).
  split; [by eapply rep_same_child|]. inversion 1; subst. constructor; [|done].
  inversion Hr; subst. by eapply known_same_child.
Qed.

Lemma get_gets fuel : gets fuel.
Proof.
  induction fuel as [|fuel IH]; intros top n t key pos Hr Hc Hkey Hf; [unfold need in Hf; destruct (is_hashNode n); lia|].
  destruct Hr as [top v'|top k c t f Hrc Hflag Hkn|top cs ts f Hl H1 H2 Hflag Hkn|top h t Eh Hlarge Hnv Hst].
  - by apply canon_no_value in Hc.
  - apply get_short; try done; [by constructor|]. unfold need in Hf. cbn [is_hashNode] in Hf. lia.
  - apply get_full; try done; [by constructor|]. unfold need in Hf. cbn [is_hashNode] in Hf. lia.
  - destruct (hash_resolves db_node top h t) as (n & Hdb & Hnh & Hr & Hrk); [by constructor|].
    destruct (IH top n t key pos) as (n' & b & E & Hn' & Hkn); [done|done|done| |].
    { unfold need in *. rewrite Hnh. cbn [is_hashNode] in Hf. lia. }
    exists n', true. split; [|split; [done|intros _; by apply Hkn]]. cbn [tryGet]. unfold resolveHash. rewrite Hdb. cbn [try_bind try_ret]. by rewrite E.
Qed.
End lookup.

(** * Deletion *)

Section deletion.
Context `{Externals} (db_node : Hash → Res (option node)).
#[local] Abbreviation rep := (rep db_node).
#[local] Abbreviation slot := (slot db_node).

(** What deleting [key] makes of the place [o]. *)
Record deleted (o : option tree) (key : bytes) (dirty : bool) (o' : option tree) : Prop := {
  del_content k : ocontent o' k = if decide (k = key) then None else ocontent o k;
  del_same : dirty = false → ocontent o key = None
}.

Definition deletes (fuel : nat) : Prop := ∀ top n o prefix key,
  slot top n o → term key → (need n key ≤ fuel)%nat →
  ∃ dirty n' o', trie_delete db_node fuel n prefix key = try_ret (dirty, n') ∧ slot top n' o' ∧ deleted o key dirty o' ∧
    (∀ ts, o = Some (TFull ts) → dirty = true → is_hashNode n' = false ∧ o' ≠ None).

Lemma deleted_same o key : ocontent o key = None → deleted o key false o.
Proof. intros E. split; [|done]. intros k. case_decide as Ek; [by rewrite Ek|done]. Qed.

Lemma delete_short_ext fuel top k c f ts prefix key :
  deletes fuel → rep top (shortNode k c f) (TShort k (TFull ts)) → canon (TShort k (TFull ts)) → term key →
  (2 * length key ≤ fuel)%nat → k `prefix_of` key →
  ∃ dirty n' o', trie_delete db_node (S fuel) (shortNode k c f) prefix key = try_ret (dirty, n') ∧
    slot top n' o' ∧ deleted (Some (TShort k (TFull ts))) key dirty o'.
Proof.
  intros IH Hr Hc Hkey Hf Hp. inversion Hr as [|? ? ? ? ? Hrc Hflag Hkn| |]; subst.
  destruct (canon_short _ _ Hc) as [(w & E & _)|(ts' & E & Hn & Hk & Hfull)]; [done|]. injection E as <-.
  pose proof (proj2 (prefixLen_whole key k) Hp) as Hm. destruct Hp as [rest Ek].
  assert (term rest) as Hrest by (rewrite Ek in Hkey; by apply term_app in Hkey).
  assert (0 < length k)%nat as Hlk by (destruct k; [done|cbn; lia]).
  assert (0 < length rest)%nat as Hlr by (destruct rest; [by apply term_nil in Hrest|cbn; lia]).
  assert (length key = length k + length rest)%nat as Hlen by (by rewrite Ek, length_app).
  destruct (IH false c (Some (TFull ts)) (prefix ++ take (length k) key) rest) as (d & child & o' & E & Hs & [C D] & Hfl);
    [done|done|unfold need; destruct (is_hashNode c); lia|].
  assert (∀ t', o' = Some t' → deleted (Some (TShort k (TFull ts))) key d (Some (TShort k t'))) as Hdel.
  { intros t' ->. split.
    - intros r. cbn [ocontent mbind option_bind] in *. destruct (decide (k `prefix_of` r)) as [[q ->]|Hnp].
      + rewrite !content_short_app, C, Ek.
        destruct (decide (q = rest)) as [->|]; [by rewrite decide_True|].
        rewrite decide_False; [done|]. intros Eq. by apply app_inv_head in Eq.
      + rewrite !content_short_other by done. by case_decide.
    - intros Ed. cbn [ocontent mbind option_bind]. rewrite Ek, content_short_app. by apply D. }
  cbn [trie_delete]. rewrite Hm, bool_decide_eq_false_2, bool_decide_eq_false_2 by lia.
  assert (drop (length k) key = rest) as -> by (by rewrite Ek, drop_app_length). rewrite E. cbn [try_bind try_ret].
  destruct d; cbn [negb].
  - destruct (Hfl ts eq_refl eq_refl) as [Hnh Ho]. destruct o' as [t'|]; [|done]. destruct Hs as [Hrt Hct].
    specialize (Hdel t' eq_refl).
    destruct (rep_live _ _ _ _ Hrt Hct Hnh) as [(ck & cv & ct & cf & -> & -> & Hcv)|(cs & cf & us & -> & ->)].
    + exists true, (shortNode (k ++ ck) cv newFlag), (Some (TShort (k ++ ck) ct)). split; [done|]. split; [split|].
      * by apply rep_short_new.
      * destruct (canon_short _ _ Hct) as [(w & -> & Hck & Hw)|(us & -> & Hcn & Hck & Hus)].
        -- constructor; [by apply term_app|done].
        -- constructor; [by destruct k|by apply Forall_app|done].
      * destruct Hdel as [C' D']. split; [|done]. intros r. rewrite <- C'. apply content_split.
    + exists true, (shortNode k (fullNode cs cf) newFlag), (Some (TShort k (TFull us))). split; [done|]. split; [split|done].
      * by apply rep_short_new.
      * by constructor.
  - exists false, (shortNode k c f), (Some (TShort k (TFull ts))). split; [done|]. split; [done|].
    apply deleted_same. cbn [ocontent mbind option_bind]. rewrite Ek, content_short_app. by apply D.
Qed.

Lemma delete_short fuel top k c f t prefix key :
  deletes fuel → rep top (shortNode k c f) (TShort k t) → canon (TShort k t) → term key → (2 * length key ≤ fuel)%nat →
  ∃ dirty n' o', trie_delete db_node (S fuel) (shortNode k c f) prefix key = try_ret (dirty, n') ∧
    slot top n' o' ∧ deleted (Some (TShort k t)) key dirty o'.
Proof.
  intros IH Hr Hc Hkey Hf. destruct (decide (k `prefix_of` key)) as [Hp|Hp].
  - destruct (canon_short _ _ Hc) as [(w & -> & Hk & Hw)|(ts & -> & Hn & Hk & Hfull)]; [|by apply delete_short_ext].
    pose proof (term_prefix k key Hk Hkey Hp) as <-. cbn [trie_delete].
    rewrite (proj2 (prefixLen_whole k k) Hp), bool_decide_eq_false_2, bool_decide_eq_true_2 by lia.
    exists true, nilNode, None. split; [done|]. split; [done|]. split; [|done].
    intros r. cbn [ocontent mbind option_bind]. rewrite content_leaf. by case_decide.
  - cbn [trie_delete]. assert (prefixLen key k < length k)%nat as Hlt.
    { destruct (prefixLen_le key k) as [_ Hle]. destruct (decide (prefixLen key k = length k)) as [E|]; [|lia].
      by apply prefixLen_whole in E. }
    rewrite bool_decide_eq_true_2 by done. exists false, (shortNode k c f), (Some (TShort k t)).
    split; [done|]. split; [done|]. apply deleted_same. cbn [ocontent mbind option_bind]. by apply content_short_other.
Qed.

(** ** Full nodes that lose a child *)

Definition present (cs : list node) (i : nat) : Prop := ∃ c, cs !! i = Some c ∧ is_nil c = false.

Lemma only_child_kept cs i pos : pos ≠ -1 →
  only_child cs i pos = pos ∧ (∀ j, ¬ present cs j) ∨ only_child cs i pos = -2 ∧ ∃ j, present cs j.
Proof.
  intros Hpos. revert i. induction cs as [|c cs IH]; intros i; cbn [only_child].
  - left. split; [done|]. by intros j (? & ? & _).
  - destruct (is_nil c) eqn:En.
    + destruct (IH (i + 1)) as [[E Hn]|[E [j Hj]]].
      * left. split; [done|]. intros [|j] (d & Ed & Hd); [cbn in Ed; congruence|]. apply (Hn j). by exists d.
      * right. split; [done|]. by exists (S j).
    + rewrite (proj2 (Z.eqb_neq _ _)) by done. right. split; [done|]. exists O, c. done.
Qed.

Lemma only_child_spec cs i : 0 ≤ i →
  (∀ j, ¬ present cs j) ∧ only_child cs i (-1) = -1 ∨
  (∃ j, present cs j ∧ (∀ l, present cs l → l = j) ∧ only_child cs i (-1) = i + Z.of_nat j) ∨
  (∃ j l, j ≠ l ∧ present cs j ∧ present cs l) ∧ only_child cs i (-1) = -2.
Proof.
  revert i. induction cs as [|c cs IH]; intros i Hi; cbn [only_child].
  - left. split; [by intros j (? & ? & _)|done].
  - assert (∀ j, present (c :: cs) (S j) ↔ present cs j) as Hs by done.
    destruct (is_nil c) eqn:En.
    + assert (¬ present (c :: cs) 0) as H0 by (intros (d & [= <-] & Hd); congruence).
      destruct (IH (i + 1) ltac:(lia)) as [[Hn E]|[(j & Hj & Hu & E)|[(j & l & Hne & Hj & Hl) E]]].
      * left. split; [|done]. intros [|j]; [done|apply Hn].
      * right. left. exists (S j). split; [done|]. split; [|lia]. intros [|l] Hl; [done|]. f_equal. by apply Hu.
      * right. right. split; [|done]. exists (S j), (S l). split; [congruence|done].
    + assert (present (c :: cs) 0) as H0 by (by exists c).
      change (-1 =? -1) with true. destruct (only_child_kept cs (i + 1) i) as [[E Hn]|[E [j Hj]]]; [lia| |].
      * right. left. exists O. split; [done|]. split; [|cbn; lia]. intros [|l] Hl; [done|]. by apply Hn in Hl.
      * right. right. split; [|done]. exists O, (S j). done.
Qed.

Lemma rep_not_nil top c t : rep top c t → is_nil c = false.
Proof. by inversion 1. Qed.

Lemma present_rep top cs f ts i : rep top (fullNode cs f) (TFull ts) → present cs i ↔ ∃ t, ts !! i = Some (Some t).
Proof.
  intros Hr. inversion Hr as [| |? ? ? ? Hl H1 H2 _ _|]; subst. split.
  - intros (c & Ec & Hn). destruct (lookup_lt_is_Some_2 ts i) as [o Eo]; [rewrite <- Hl; by eapply lookup_lt_Some|].
    destruct o as [t|]; [by exists t|]. by rewrite (H2 _ _ Ec Eo) in Hn.
  - intros [t Et]. destruct (lookup_lt_is_Some_2 cs i) as [c Ec]; [rewrite Hl; by eapply lookup_lt_Some|].
    exists c. split; [done|]. eapply rep_not_nil. by eapply H1.
Qed.

Lemma rep_unset_child top cs f ts i : rep top (fullNode cs f) (TFull ts) → 0 ≤ i < Z.of_nat (length ts) →
  rep top (fullNode (set_child cs i nilNode) newFlag) (TFull (<[Z.to_nat i := None]> ts)).
Proof.
  intros Hr Hi. inversion Hr as [| |? ? ? ? Hl H1 H2 _ _|]; subst. unfold set_child.
  constructor; [by rewrite !length_insert| | |apply rep_newFlag|done].
  - intros l d u. destruct (decide (Z.to_nat i = l)) as [<-|Hne].
    + rewrite !list_lookup_insert_eq by lia. done.
    + rewrite !list_lookup_insert_ne by done. apply H1.
  - intros l d. destruct (decide (Z.to_nat i = l)) as [<-|Hne].
    + rewrite !list_lookup_insert_eq by lia. by intros [= <-].
    + rewrite !list_lookup_insert_ne by done. apply H2.
Qed.

(** The child that is left takes the place of the full node. *)
Lemma reduce_spec cs pos c t prefix top : cs !! Z.to_nat pos = Some c → rep false c t → child_ok pos t →
  ∃ n' t', reduce db_node cs pos prefix = try_ret n' ∧ rep top n' t' ∧ canon t' ∧ is_hashNode n' = false ∧
    ∀ k, content t' k = content (TShort [pos] t) k.
Proof.
  intros Ec Hr Hok. unfold reduce. rewrite (child_at_Some _ _ _ Ec). cbn [try_bind try_ret].
  destruct Hok as [[Hn Hc]|(-> & w & -> & Hw)].
  2: { cbn [Z.eqb negb]. exists (shortNode [16] c newFlag), (TShort [16] (TValue w)). split; [done|].
    split; [by apply rep_short_new|]. split; [|done]. constructor; [by exists []|done]. }
  rewrite (proj2 (Z.eqb_neq pos 16)) by (unfold is_nibble in Hn; lia). cbn [negb].
  assert (∃ n, resolve db_node c prefix = try_ret n ∧ rep false n t ∧ is_hashNode n = false) as (n & -> & Hrn & Hnh).
  { destruct (is_hashNode c) eqn:Eh; [|exists c; split; [by destruct c|done]].
    destruct c as [| |h| |]; try done. destruct (hash_resolves _ _ _ _ Hr) as (n & Hdb & Hnh & Hrn & _). exists n. split; [|done].
    cbn. unfold resolveHash. by rewrite Hdb. }
  cbn [try_bind try_ret]. destruct (rep_live _ _ _ _ Hrn Hc Hnh) as [(k & v & t' & f & -> & -> & Hv)|(us & f & ts & -> & ->)].
  - exists (shortNode (pos :: k) v newFlag), (TShort (pos :: k) t'). split; [done|].
    split; [by apply rep_short_new|]. split; [|split; [done|intros r; apply (content_split [pos] k)]].
    destruct (canon_short _ _ Hc) as [(w & -> & Hk & Hw)|(us & -> & Hkn & Hk & Hus)].
    + constructor; [apply term_cons; by right|done].
    + constructor; [done|by constructor|done].
  - exists (shortNode [pos] c newFlag), (TShort [pos] (TFull ts)). split; [done|].
    split; [by apply rep_short_new|]. split; [|done]. apply canon_ext; [done|by constructor|done].
Qed.

(** With one child the tree holds what is below it, under its index. *)
Lemma single_content ts i t : 0 ≤ i → ts !! Z.to_nat i = Some (Some t) →
  (∀ l u, ts !! l = Some (Some u) → l = Z.to_nat i) → ∀ k, content (TFull ts) k = content (TShort [i] t) k.
Proof.
  intros Hi Et Hu [|j k]; [by rewrite content_short_nil|].
  rewrite content_full, content_short_cons, content_nil_short. case_decide as E.
  - subst j. rewrite child_content_index, Et by done. done.
  - unfold child_content. destruct (Z.ltb_spec j 0); [done|]. destruct (ts !! Z.to_nat j) as [[u|]|] eqn:Ej; [|done..].
    apply Hu in Ej. lia.
Qed.

(** The full node after its child at [i] is gone. *)
Lemma shrink top cs f ts i prefix :
  rep top (fullNode cs f) (TFull ts) → canon (TFull ts) → 0 ≤ i < 17 →
  let cs' := set_child cs i nilNode in
  let pos := only_child cs' 0 (-1) in
  ∃ n' t', (if 0 <=? pos then n'' <-? reduce db_node cs' pos prefix; try_ret (true, n'') else try_ret (true, fullNode cs' newFlag)) = try_ret (true, n') ∧
    rep top n' t' ∧ canon t' ∧ is_hashNode n' = false ∧ ∀ k, content t' k = content (TFull (<[Z.to_nat i := None]> ts)) k.
Proof.
  intros Hr Hc Hi cs' pos. inversion Hc as [| |? Hl _ _ (a & b & u & w & Hne & Ea & Eb)]; subst.
  pose proof (rep_unset_child _ _ _ _ i Hr ltac:(lia)) as Hr'. fold cs' in Hr'.
  set (ts' := <[Z.to_nat i := None]> ts) in *.
  assert (∀ l x, ts' !! l = Some (Some x) → l ≠ Z.to_nat i ∧ ts !! l = Some (Some x)) as Hold.
  { intros l x. unfold ts'. destruct (decide (Z.to_nat i = l)) as [<-|]; [rewrite list_lookup_insert_eq by lia; done|].
    rewrite list_lookup_insert_ne by done. done. }
  assert (∀ l, present cs' l ↔ ∃ x, ts' !! l = Some (Some x)) as Hp by (intros; by eapply present_rep).
  assert (∀ l x, 0 ≤ l → ts' !! Z.to_nat l = Some (Some x) → child_ok l x) as Hok.
  { intros l x H0 El. apply Hold in El as [_ El]. by eapply canon_child. }
  unfold pos. destruct (only_child_spec cs' 0 ltac:(done)) as [[Hn E]|[(j & Hj & Hu & E)|[(j & l & Hjl & Hj & Hl') E]]].
  - exfalso. destruct (decide (a = Z.to_nat i)) as [->|Hai].
    + apply (Hn b), Hp. exists w. unfold ts'. by rewrite list_lookup_insert_ne by done.
    + apply (Hn a), Hp. exists u. unfold ts'. by rewrite list_lookup_insert_ne by done.
  - rewrite E, Z.add_0_l, (proj2 (Z.leb_le _ _)) by lia. destruct (proj1 (Hp j) Hj) as [t Et].
    rewrite <- (Nat2Z.id j) in Et. destruct Hj as (c & Ec & _).
    assert (rep false c t) as Hrc by (inversion Hr' as [| |? ? ? ? _ H1 _ _ _|]; subst; rewrite Nat2Z.id in Et; by eapply H1).
    destruct (reduce_spec cs' (Z.of_nat j) c t prefix top) as (n' & t' & -> & Hrn & Hcn & Hh & C); [by rewrite Nat2Z.id|done|by apply Hok; [lia|]|].
    exists n', t'. split; [done|]. split; [done|]. split; [done|]. split; [done|]. intros k. rewrite C. symmetry.
    apply single_content; [lia|done|]. intros l x El. rewrite Nat2Z.id. apply Hu, Hp. by exists x.
  - rewrite E. exists (fullNode cs' newFlag), (TFull ts'). split; [done|]. split; [done|]. split; [|done].
    apply child_ok_canon; [unfold ts'; by rewrite length_insert|done|].
    destruct (proj1 (Hp j) Hj) as [x Ex], (proj1 (Hp l) Hl') as [y Ey]. by exists j, l, x, y.
Qed.

Lemma delete_full fuel top cs f ts prefix key :
  deletes fuel → rep top (fullNode cs f) (TFull ts) → canon (TFull ts) → term key → (2 * length key ≤ fuel)%nat →
  ∃ dirty n' t', trie_delete db_node (S fuel) (fullNode cs f) prefix key = try_ret (dirty, n') ∧
    rep top n' t' ∧ canon t' ∧ deleted (Some (TFull ts)) key dirty (Some t') ∧ is_hashNode n' = false.
Proof.
  intros IH Hr Hc Hkey Hf. destruct key as [|i rest]; [by apply term_nil in Hkey|]. cbn [length] in Hf.
  assert (0 ≤ i < 17) as Hi by (apply term_cons in Hkey as [[-> _]|[Hx _]]; [lia|unfold is_nibble in Hx; lia]).
  destruct (full_child _ _ _ _ _ i Hr Hc Hi) as (c & o & Ec & Ec' & Eo & Ho).
  assert (∃ dirty n' o', trie_delete db_node fuel c (prefix ++ [i]) rest = try_ret (dirty, n') ∧
    match o' with None => n' = nilNode | Some t' => rep false n' t' ∧ child_ok i t' end ∧ deleted o rest dirty o')
    as (dirty & n' & o' & E & Ho' & Hdel).
  { apply term_cons in Hkey as [[-> ->]|[Hn Hrest]].
    - destruct fuel as [|fuel]; [lia|]. destruct o as [t|].
      + destruct Ho as [Ht [[Hn _]|[_ (w & -> & _)]]]; [unfold is_nibble in Hn; lia|]. inversion Ht; subst; [|done].
        exists true, nilNode, None. split; [done|]. split; [done|]. split; [|done]. by intros [|x k].
      + subst c. exists false, nilNode, None. split; [done|]. split; [done|]. by apply deleted_same.
    - destruct (IH false c o (prefix ++ [i]) rest) as (d & n' & o' & E & Hs & Hdel & _); [|done| |].
      + destruct o as [t|]; [|done]. destruct Ho as [Ht [[_ Hcan]|[-> _]]]; [done|unfold is_nibble in Hn; lia].
      + unfold need. destruct (is_hashNode c); lia.
      + exists d, n', o'. split; [done|]. split; [|done]. destruct o' as [t'|]; [|done]. split; [apply Hs|left; split; [done|apply Hs]]. }
  inversion Hc as [| |? Hl _ _ _]; subst. destruct Hdel as [C D].
  assert (∀ k, content (TFull (<[Z.to_nat i:=o']> ts)) k
    = if decide (k = i :: rest) then None else ocontent (Some (TFull ts)) k) as HC.
  { intros [|j k]; [done|]. cbn [ocontent mbind option_bind]. rewrite !content_full, child_content_set by lia.
    case_decide as Ej; [subst j|].
    - rewrite C, child_content_index, Eo by lia. cbn [mbind option_bind].
      destruct (decide (k = rest)) as [->|]; [by rewrite decide_True|]. by rewrite decide_False by congruence.
    - by rewrite decide_False by congruence. }
  cbn [trie_delete]. change (byte_at (i :: rest) 0) with (try_ret i : Try Z). cbn [try_bind try_ret]. rewrite Ec. cbn [try_bind try_ret drop].
  change (drop 0 rest) with rest. rewrite E. cbn [try_bind try_ret]. destruct dirty; cbn [negb].
  - destruct o' as [t'|].
    + destruct Ho' as [Hrt Hok]. rewrite (rep_not_nil _ _ _ Hrt). cbn [negb].
      exists true, (fullNode (set_child cs i n') newFlag), (TFull (<[Z.to_nat i := Some t']> ts)). split; [done|].
      split; [eapply rep_set_child; [done|lia|done]|]. split; [by apply canon_set_child|]. split; [|done]. by split.
    + subst n'. cbn [is_nil negb]. destruct (shrink top cs f ts i prefix Hr Hc Hi) as (m & t' & -> & Hrm & Hcm & Hh & Cm).
      exists true, m, t'. split; [done|]. split; [done|]. split; [done|]. split; [|done]. split; [|done].
      intros k. cbn [ocontent mbind option_bind]. rewrite Cm. apply HC.
  - exists false, (fullNode cs f), (TFull ts). split; [done|]. split; [done|]. split; [done|]. split; [|done].
    apply deleted_same. cbn [ocontent mbind option_bind]. rewrite content_full, child_content_index, Eo by lia. by apply D.
Qed.

Lemma delete_deletes fuel : deletes fuel.
Proof.
  induction fuel as [|fuel IH]; intros top n o prefix key Hs Hkey Hf; [unfold need in Hf; destruct (is_hashNode n); lia|].
  destruct o as [t|].
  2: { cbn in Hs. subst n. exists false, nilNode, None. split; [done|]. split; [done|]. split; [by apply deleted_same|done]. }
  destruct Hs as [Hr Hc]. destruct Hr as [top v'|top k c t f Hrc Hflag Hkn|top cs ts f Hl H1 H2 Hflag Hkn|top h t Eh Hlarge Hnv Hst].
  - by apply canon_no_value in Hc.
  - unfold need in Hf. cbn [is_hashNode] in Hf.
    destruct (delete_short fuel top k c f t prefix key) as (d & n' & o' & E & Hs & Hdel); try done; [by constructor|lia|].
    exists d, n', o'. done.
  - unfold need in Hf. cbn [is_hashNode] in Hf.
    destruct (delete_full fuel top cs f ts prefix key) as (d & n' & t' & E & Hr' & Hc' & Hdel & Hh); try done; [by constructor|lia|].
    exists d, n', (Some t'). done.
  - destruct (hash_resolves db_node top h t) as (n & Hdb & Hnh & Hr & Hrk); [by constructor|].
    destruct (IH top n (Some t) prefix key) as (d & n' & o' & E & Hs & Hdel & Hfl); [done|done| |].
    { unfold need in *. rewrite Hnh. cbn [is_hashNode] in Hf. lia. }
    assert (trie_delete db_node (S fuel) (hashNode h) prefix key = try_ret (if negb d then (false, n) else (true, n'))) as ->.
    { cbn [trie_delete]. unfold resolveHash. rewrite Hdb. cbn [try_bind try_ret]. rewrite E. by destruct d. }
    destruct d; cbn [negb]; [exists true, n', o'; done|].
    exists false, n, (Some t). split; [done|]. split; [done|]. split; [|done]. apply deleted_same. by apply Hdel.
Qed.
End deletion.

(** * The tree is determined by what it holds *)

Section canonical.

Definition holds (t : tree) (k : bytes) : Prop := ∃ v, content t k = Some v.

Lemma canon_holds t : canon t → ∃ k, holds t k.
Proof.
  induction 1 as [k v Hk Hv|k ts Hn Hk Hc [k' [v IH]]|ts Hl Hc IH Hv (i & j & t & u & Hne & Ei & Ej)].
  - exists k, v. by rewrite content_leaf, decide_True.
  - exists (k ++ k'), v. by rewrite content_short_app.
  - assert (∃ k, holds t k) as [k Hk].
    { destruct (decide (i = 16%nat)) as [->|]; [destruct (Hv t Ei) as (v & -> & _); by exists [], v|].
      apply (IH i t); [apply lookup_lt_Some in Ei; lia|done]. }
    exists (Z.of_nat i :: k). destruct Hk as [v Hk]. exists v. rewrite content_full, child_content_index, Nat2Z.id, Ei by lia. done.
Qed.

Lemma child_holds i t : child_ok i t → ∃ k, holds t k.
Proof. intros [[_ Hc]|(_ & v & -> & _)]; [by apply canon_holds|by exists [], v]. Qed.

(** A full node has keys that differ at once. *)
Lemma full_branches ts : canon (TFull ts) → ∃ i j a b, i ≠ j ∧ holds (TFull ts) (i :: a) ∧ holds (TFull ts) (j :: b).
Proof.
  intros Hc. inversion Hc as [| |? Hl _ _ (i & j & t & u & Hne & Ei & Ej)]; subst.
  assert (∀ l x, ts !! l = Some (Some x) → ∃ a, holds (TFull ts) (Z.of_nat l :: a)) as Hh.
  { intros l x El. rewrite <- (Nat2Z.id l) in El. destruct (child_holds _ _ (canon_child ts (Z.of_nat l) x Hc ltac:(lia) El)) as [a [v Ha]].
    exists a, v. rewrite content_full, child_content_index, El by lia. done. }
  destruct (Hh i t Ei) as [a Ha], (Hh j u Ej) as [b Hb]. exists (Z.of_nat i), (Z.of_nat j), a, b. split; [lia|done].
Qed.

(** The trees that are not leaves: what all keys begin with, and a full node. *)
Definition stem (t : tree) : bytes * list (option tree) :=
  match t with
  | TShort k (TFull ts) => (k, ts)
  | TFull ts => ([], ts)
  | _ => ([], [])
  end.

Lemma canon_cases t : canon t →
  (∃ k v, t = TShort k (TValue v)) ∨
  canon (TFull (stem t).2) ∧ ∀ k, content t k = content (TShort (stem t).1 (TFull (stem t).2)) k.
Proof.
  intros Hc. destruct Hc as [k v Hk Hv|k ts Hn Hk Hc|ts Hl Hc Hv Hj]; [left; by exists k, v|right; done|right].
  split; [by constructor|]. intros k. cbn [stem fst snd]. by rewrite content_nil_short.
Qed.

Lemma branch_prefix (q p a b : bytes) i j : i ≠ j → q `prefix_of` p ++ i :: a → q `prefix_of` p ++ j :: b → q `prefix_of` p.
Proof.
  intros Hne. revert p. induction q as [|x q IH]; intros p Ha Hb; [apply prefix_nil|]. destruct p as [|y p]; cbn in *.
  - apply prefix_cons_inv_1 in Ha. apply prefix_cons_inv_1 in Hb. congruence.
  - pose proof (prefix_cons_inv_1 _ _ _ _ Ha) as ->. apply prefix_cons. apply IH; by eapply prefix_cons_inv_2.
Qed.

Lemma holds_stem p t k : holds (TShort p t) k → p `prefix_of` k.
Proof. intros [v Hk]. rewrite content_short in Hk. by destruct (decide _). Qed.

Lemma stems_prefix p q ts us : canon (TFull ts) → (∀ k, content (TShort p (TFull ts)) k = content (TShort q (TFull us)) k) → q `prefix_of` p.
Proof.
  intros Hc E. destruct (full_branches ts Hc) as (i & j & a & b & Hne & [v Ha] & [w Hb]).
  apply (branch_prefix q p a b i j Hne); eapply holds_stem; eexists; rewrite <- E, content_short_app; done.
Qed.

(** A leaf holds one key, other trees more. *)
Lemma leaf_or_stem k v p ts : canon (TFull ts) → ¬ ∀ r, content (TShort k (TValue v)) r = content (TShort p (TFull ts)) r.
Proof.
  intros Hc E. destruct (full_branches ts Hc) as (i & j & a & b & Hne & [x Ha] & [y Hb]).
  pose proof (E (p ++ i :: a)) as E1. pose proof (E (p ++ j :: b)) as E2.
  rewrite content_leaf, content_short_app in E1, E2. rewrite Ha in E1. rewrite Hb in E2.
  destruct (decide (p ++ i :: a = k)) as [K1|]; [|done]. destruct (decide (p ++ j :: b = k)) as [K2|]; [|done].
  rewrite <- K2 in K1. apply app_inv_head in K1. congruence.
Qed.

Lemma canon_full_eq ts us :
  canon (TFull ts) → canon (TFull us) →
  (∀ i t u, (i < 16)%nat → ts !! i = Some (Some t) → canon u → (∀ k, content t k = content u k) → t = u) →
  (∀ k, content (TFull ts) k = content (TFull us) k) → ts = us.
Proof.
  intros Hc Hd IH E. inversion Hc as [| |? Hl _ _ _]; subst. inversion Hd as [| |? Hl' _ _ _]; subst.
  assert (∀ i k, ocontent (o ← ts !! i; o) k = ocontent (o ← us !! i; o) k) as Ec.
  { intros i k. pose proof (E (Z.of_nat i :: k)) as Ek. rewrite !content_full, !child_content_index, Nat2Z.id in Ek by lia. done. }
  assert (∀ vs i x, canon (TFull vs) → vs !! i = Some (Some x) → child_ok (Z.of_nat i) x) as Hok.
  { intros vs i x Hcv Ex. rewrite <- (Nat2Z.id i) in Ex. by eapply canon_child; [|lia|]. }
  apply list_eq_same_length with 17%nat; [done|done|]. intros i ot ou Hi Et Eu.
  specialize (Ec i). rewrite Et, Eu in Ec. cbn [mbind option_bind] in Ec.
  destruct ot as [t|], ou as [u|]; [| | |done].
  - f_equal. pose proof (Hok _ _ _ Hc Et) as Ot. pose proof (Hok _ _ _ Hd Eu) as Ou.
    destruct (decide (i = 16%nat)) as [->|].
    + destruct Ot as [[Hn _]|(_ & v & -> & _)]; [unfold is_nibble in Hn; lia|].
      destruct Ou as [[Hn _]|(_ & w & -> & _)]; [unfold is_nibble in Hn; lia|].
      specialize (Ec []). cbn in Ec. congruence.
    + destruct Ou as [[_ Hcu]|[Ei _]]; [|lia]. apply (IH i); [lia|done|done|apply Ec].
  - destruct (child_holds _ _ (Hok _ _ _ Hc Et)) as [k [v Hk]]. specialize (Ec k). cbn [ocontent mbind option_bind] in Ec. congruence.
  - destruct (child_holds _ _ (Hok _ _ _ Hd Eu)) as [k [v Hk]]. specialize (Ec k). cbn [ocontent mbind option_bind] in Ec. congruence.
Qed.

(** Two trees in minimal form that hold the same are the same. *)
Lemma canon_unique t : canon t → ∀ u, canon u → (∀ k, content t k = content u k) → t = u.
Proof.
  induction 1 as [k v Hk Hv|k ts Hn Hk Hc IH|ts Hl Hc IH Hv Hj]; intros u Hu E.
  - destruct (canon_cases u Hu) as [(k' & v' & ->)|[Hf Hs]].
    + pose proof (E k) as Ek. rewrite !content_leaf, decide_True in Ek by done. destruct (decide (k = k')) as [->|]; [|done]. congruence.
    + exfalso. apply (leaf_or_stem k v (stem u).1 _ Hf). intros r. by rewrite E.
  - inversion Hu as [k' v' _ _|k' us Hn' Hk' Hc'|us Hl' Hc' Hv' Hj']; subst.
    + exfalso. apply (leaf_or_stem k' v' k _ Hc). intros r. by rewrite E.
    + assert (k = k') as <-.
      { destruct (stems_prefix _ _ _ _ Hc E) as [r Er].
        destruct (stems_prefix _ _ _ _ Hc' (λ r, eq_sym (E r))) as [r' Er'].
        rewrite Er' in Er. rewrite <- app_assoc in Er. rewrite <- (app_nil_r k) in Er at 1. apply app_inv_head in Er.
        symmetry in Er. apply app_nil in Er as [-> _]. by rewrite app_nil_r in Er'. }
      f_equal. apply IH; [done|]. intros r. pose proof (E (k ++ r)) as Er. by rewrite !content_short_app in Er.
    + exfalso. destruct (stems_prefix [] k us ts) as [r Er]; [done|intros r; by rewrite content_nil_short|].
      symmetry in Er. by apply app_nil in Er as [-> _].
  - inversion Hu as [k' v' _ _|k' us Hn' Hk' Hc'|us Hl' Hc' Hv' Hj']; subst.
    + exfalso. apply (leaf_or_stem k' v' [] ts); [by constructor|]. intros r. by rewrite content_nil_short.
    + exfalso. destruct (stems_prefix [] k' ts us) as [r Er]; [by constructor|intros r; by rewrite content_nil_short|].
      symmetry in Er. by apply app_nil in Er as [-> _].
    + f_equal. apply canon_full_eq; [by constructor|done| |done]. intros i t u Hi Et Hcu Ec. by apply (IH i t Hi Et).
Qed.
End canonical.
