(* ===== verification/TrieSpec.v ===== *)
(** * A trie is a map

    Hashing computes the hash of the tree that a trie stands for.  With the lemmas
    on the operations, a trie represents a map from keys to values, and its root is
    determined by this map. *)

From S2P Require Import Prelude Common Uint256 Machine VmFacts Vm Rlp RlpFacts RlpRoundTrip MerkleTrie TrieFacts DemoState.

(** * Hashing *)

(** Keccak-256 gives 32 bytes. *)
Class KeccakLaws `{Externals} : Prop := { keccak_bytes b : length (Keccak256 b) = 32%nat ∧ Forall is_byte (Keccak256 b) }.

Section hashing.
Context `{KeccakLaws} (db_node : Hash → Res (option node)).
#[local] Abbreviation rep := (rep db_node).

(** ** The compact encoding *)

Lemma nibbles_byte a b : is_nibble a → is_nibble b → Z.lor (wrapU 8 (Z.shiftl a 4)) b = a * 16 + b ∧ is_byte (a * 16 + b).
Proof.
  intros Ha Hb. split; [|unfold is_nibble, is_byte in *; lia].
  assert (forallb (λ a, forallb (λ b, Z.lor (wrapU 8 (Z.shiftl a 4)) b =? a * 16 + b) (seqZ 0 16)) (seqZ 0 16) = true) as Hall by (by vm_compute).
  rewrite forallb_forall in Hall. pose proof (Hall a) as Ha'. rewrite <- list_elem_of_In, elem_of_seqZ in Ha'.
  specialize (Ha' ltac:(unfold is_nibble in *; lia)). rewrite forallb_forall in Ha'. specialize (Ha' b).
  rewrite <- list_elem_of_In, elem_of_seqZ in Ha'. apply Z.eqb_eq, Ha'. unfold is_nibble in *. lia.
Qed.

(** Induction on lists two elements at a time. *)
Lemma pair_ind {A} (P : list A → Prop) : P [] → (∀ x, P [x]) → (∀ x y l, P l → P (x :: y :: l)) → ∀ l, P l.
Proof.
  intros P0 P1 P2. assert (∀ l, P l ∧ ∀ x, P (x :: l)) as Hall; [|intros l; apply Hall].
  induction l as [|x l [IH IH']]; [split; auto|]. split; [apply IH'|]. intros y. by apply P2.
Qed.

Lemma decode_pairs k : Forall is_nibble k → Nat.odd (length k) = false →
  decodeNibbles k = Ret (pairs k) ∧ Forall is_byte (pairs k) ∧ (length (pairs k) ≤ length k)%nat.
Proof.
  induction k as [|x|x y k IH] using pair_ind; intros Hk Ho; [split_and!; [done|constructor|done]|done|].
  apply Forall_cons in Hk as [Hx Hk]. apply Forall_cons in Hk as [Hy Hk].
  destruct (IH Hk Ho) as (E & Hb & Hl). destruct (nibbles_byte x y Hx Hy) as [Exy Hxy]. cbn [decodeNibbles pairs length].
  rewrite E. cbn [mbind Go_bind]. rewrite Exy. split_and!; [done|by constructor|lia].
Qed.

Definition flag_byte (b x : Z) : Prop := Z.lor (Z.lor b 16) x = b + 16 + x ∧ is_byte (b + 16 + x).

Lemma flag_ok_byte b x : b = 0 ∨ b = 32 → is_nibble x → flag_byte b x.
Proof.
  intros Hb Hx. unfold flag_byte. split; [|unfold is_nibble, is_byte in *; lia].
  assert (forallb (λ b, forallb (λ x, Z.lor (Z.lor b 16) x =? b + 16 + x) (seqZ 0 16)) [0; 32] = true) as Hall by (by vm_compute).
  rewrite forallb_forall in Hall. specialize (Hall b). rewrite forallb_forall in Hall. apply Z.eqb_eq, Hall.
  - destruct Hb as [-> | ->]; cbn; auto.
  - rewrite <- list_elem_of_In, elem_of_seqZ. unfold is_nibble in Hx. lia.
Qed.

(** Nibbles, with or without the terminator. *)
Definition hex_key (k : bytes) : Prop := Forall is_nibble k ∨ term k.

Lemma hex_body k : hex_key k → ∃ ks, Forall is_nibble ks ∧ (length ks ≤ length k)%nat ∧
  (if hasTerm k then drop_last k else k) = ks.
Proof.
  intros [Hk|(ks & -> & Hk)].
  - exists k. split; [done|]. split; [done|]. unfold hasTerm. rewrite bool_decide_eq_false_2; [done|].
    intros E. apply last_Some in E as [l ->]. apply Forall_app in Hk as [_ Hk]. apply Forall_cons in Hk as [Hk _]. unfold is_nibble in Hk. lia.
  - exists ks. split; [done|]. split; [rewrite length_app; lia|]. unfold hasTerm. rewrite last_snoc, bool_decide_eq_true_2 by done.
    unfold drop_last. rewrite length_app. cbn. rewrite Nat.add_sub. apply take_app_length.
Qed.

Lemma hexToCompact_compact k : hex_key k →
  hexToCompact k = Ret (compact k) ∧ Forall is_byte (compact k) ∧ len (compact k) ≤ len k + 1.
Proof.
  intros Hk. destruct (hex_body k Hk) as (ks & Hn & Hl & E). unfold hexToCompact, compact. rewrite E.
  assert (Z.shiftl (if hasTerm k then 1 else 0) 5 = if hasTerm k then 32 else 0) as -> by (by destruct (hasTerm k)).
  set (b := if hasTerm k then 32 else 0). assert (b = 0 ∨ b = 32) as Hb by (unfold b; destruct (hasTerm k); auto).
  assert (is_byte b) as Hbb by (unfold is_byte; lia). destruct ks as [|x r]; [split; [done|]; split; [by constructor|unfold len; cbn; lia]|].
  apply Forall_cons in Hn as Hxr. destruct Hxr as [Hx Hr]. destruct (Nat.odd (length (x :: r))) eqn:Eo.
  - assert (Nat.odd (length r) = false) as Eo' by (cbn [length] in Eo; rewrite Nat.odd_succ, <- Nat.negb_odd in Eo; by destruct (Nat.odd _)).
    destruct (decode_pairs r Hr Eo') as (-> & Hp & Hlp). destruct (flag_ok_byte b x Hb Hx) as [Ef Hf]. cbn [mbind Go_bind].
    rewrite Ef. split; [done|]. split; [by constructor|]. unfold len in *. cbn [length] in *. lia.
  - destruct (decode_pairs (x :: r) Hn Eo) as (E' & Hp & Hlp). rewrite E'. cbn [mbind Go_bind].
    split; [done|]. split; [by constructor|]. unfold len in *. cbn [length] in *. lia.
Qed.

(** ** The encodings are small enough to be written *)

Definition sized (t : tree) : Prop := ∀ k v, content t k = Some v → len k < 2 ^ 32 ∧ Forall is_byte v ∧ len v < 2 ^ 32.

Lemma len_concat_le l n : Forall (λ v, len (rlp v) ≤ n) l → len (concat (map rlp l)) ≤ n * Z.of_nat (length l).
Proof.
  induction 1 as [|v l Hv _ IH]; [unfold len; cbn [map concat length]; lia|]. cbn [map concat length]. rewrite len_app. lia.
Qed.

(** A value that can be encoded, in at most 2^40 bytes. *)
Definition encodable (v : rval) : Prop := wf v ∧ len (rlp v) < 2 ^ 40.

Lemma encodable_encodes v : encodable v → EncodeToBytes v = Ret (inr (rlp v)).
Proof. intros [Hw Hl]. apply EncodeToBytes_rlp; [done|lia]. Qed.

Lemma ref_small t v : encodable v → (∀ w, t = TValue w → v = VBytes w ∧ len w < 2 ^ 32) →
  wf (ref_of t v) ∧ len (rlp (ref_of t v)) ≤ 2 ^ 33.
Proof.
  intros [Hw Hl] Hv. destruct (is_value t) eqn:Et.
  - destruct t as [w| |]; [|done..]. destruct (Hv w eq_refl) as [-> Hlw]. split; [done|]. cbn.
    pose proof (len_rlp_string_le w ltac:(lia)). lia.
  - assert (ref_of t v = if len (rlp v) <? 32 then v else VBytes (Keccak256 (rlp v))) as -> by (by destruct t).
    destruct (Z.ltb_spec (len (rlp v)) 32); [split; [done|lia]|]. destruct (keccak_bytes (rlp v)) as [Hk Hb].
    split; [done|]. cbn [rlp]. pose proof (len_rlp_string_le (Keccak256 (rlp v))) as Hs. unfold len in *. rewrite Hk in Hs. lia.
Qed.

Lemma sized_value w : sized (TValue w) → Forall is_byte w ∧ len w < 2 ^ 32.
Proof. intros Hs. by destruct (Hs [] w eq_refl) as (_ & ? & ?). Qed.

Lemma sized_short k t : sized (TShort k t) → sized t.
Proof.
  intros Hs r v E. destruct (Hs (k ++ r) v) as (Hl & ?); [by rewrite content_short_app|]. rewrite len_app in Hl.
  split; [unfold len in *; lia|done].
Qed.

Lemma sized_key k t : sized (TShort k t) → (∃ r, holds t r) → len k < 2 ^ 32.
Proof.
  intros Hs (r & v & E). destruct (Hs (k ++ r) v) as (Hl & _); [by rewrite content_short_app|].
  rewrite len_app in Hl. unfold len in *. lia.
Qed.

Lemma sized_child ts i t : sized (TFull ts) → ts !! i = Some (Some t) → sized t.
Proof.
  intros Hs Ei k v E. destruct (Hs (Z.of_nat i :: k) v) as (Hl & ?).
  { rewrite content_full, child_content_index, Nat2Z.id, Ei by lia. done. }
  rewrite len_cons in Hl. split; [lia|done].
Qed.

Lemma short_encodable k t : hex_key k → len k < 2 ^ 32 → wf (ref_of t (tree_value t)) → len (rlp (ref_of t (tree_value t))) ≤ 2 ^ 33 →
  encodable (tree_value (TShort k t)).
Proof.
  intros Hk Hl Hw Hr. destruct (hexToCompact_compact k Hk) as (_ & Hb & Hc). cbn [tree_value].
  split; [done|]. cbn [rlp map concat]. pose proof (len_rlp_string_le (compact k) ltac:(lia)).
  set (out := rlp_string (compact k) ++ rlp (ref_of t (tree_value t)) ++ []).
  assert (len out < 2 ^ 35) by (unfold out; rewrite !len_app; unfold len in *; cbn [length]; lia).
  pose proof (len_rlp_list_le out ltac:(lia)). lia.
Qed.

Lemma full_encodable ts : length ts = 17%nat →
  (∀ i t, ts !! i = Some (Some t) → wf (ref_of t (tree_value t)) ∧ len (rlp (ref_of t (tree_value t))) ≤ 2 ^ 33) →
  encodable (tree_value (TFull ts)).
Proof.
  intros Hl Hc. cbn [tree_value]. set (g := λ o : option tree, match o with None => VBytes [] | Some t => ref_of t (tree_value t) end).
  assert (Forall (λ v, wf v ∧ len (rlp v) ≤ 2 ^ 33) (map g ts)) as Hall.
  { apply Forall_map, Forall_lookup. intros i [t|] Ei; cbn; [by eapply Hc|]. split; [constructor|done]. }
  apply Forall_and in Hall as [Hw Hs]. split; [by apply wf_list|]. cbn [rlp].
  pose proof (len_concat_le _ _ Hs) as Hlen. rewrite length_map, Hl in Hlen.
  pose proof (len_rlp_list_le (concat (map rlp (map g ts))) ltac:(lia)). lia.
Qed.

Lemma value_ref w : sized (TValue w) → wf (ref_of (TValue w) (tree_value (TValue w))) ∧ len (rlp (ref_of (TValue w) (tree_value (TValue w)))) ≤ 2 ^ 33.
Proof.
  intros [Hb Hl]%sized_value. split; [done|]. cbn. pose proof (len_rlp_string_le w ltac:(lia)). lia.
Qed.

Lemma tree_encodable t : canon t → sized t → encodable (tree_value t).
Proof.
  assert (∀ t, canon t → encodable (tree_value t) → wf (ref_of t (tree_value t)) ∧ len (rlp (ref_of t (tree_value t))) ≤ 2 ^ 33) as Href.
  { intros u Hu Hw. apply ref_small; [done|]. intros w ->. by apply canon_no_value in Hu. }
  induction 1 as [k v Hk Hv|k ts Hn Hk Hc IH|ts Hl Hc IH Hv Hj]; intros Hs.
  - destruct (value_ref v (sized_short _ _ Hs)). apply short_encodable; [by right|by eapply sized_key; [|exists [], v]|done|done].
  - pose proof (sized_short _ _ Hs) as Hs'. destruct (Href _ Hc (IH Hs')).
    apply short_encodable; [by left|eapply sized_key; [done|by apply canon_holds]|done|done].
  - apply full_encodable; [done|]. intros i t Ei. pose proof (sized_child _ _ _ Hs Ei) as Hs'.
    destruct (decide (i = 16%nat)) as [->|]; [destruct (Hv t Ei) as (w & -> & _); by apply value_ref|].
    assert (i < 16)%nat by (apply lookup_lt_Some in Ei; lia). apply Href; [by eapply Hc|]. by eapply IH.
Qed.

(** ** What hashing computes *)

(** The node that stands for a tree in its parent, or the hash at the root. *)
Definition hashed_value (top : bool) (t : tree) : rval :=
  match t with
  | TValue v => VBytes v
  | _ => if top then VBytes (tree_hash t) else ref_of t (tree_value t)
  end.

Record hashes (top : bool) (n : node) (t : tree) (hashed cached : node) : Prop := {
  hs_value : node_value hashed = hashed_value top t;
  hs_rep : rep top cached t;
  hs_known : known top cached t;
  hs_nil : is_nil hashed = false;
  hs_root : top = true → is_value t = false → hashed = hashNode (tree_hash t);
  hs_keep : is_value t = true → hashed = n ∧ cached = n
}.

Lemma large_ref t : is_value t = false → large t → ref_of t (tree_value t) = VBytes (tree_hash t).
Proof. unfold large. intros Hv Hl. destruct t; [done| |]; cbn [ref_of]; by rewrite (proj2 (Z.ltb_ge _ _)). Qed.

Lemma hash_known top n t h : is_value t = false → rep top n t → known top n t → h = tree_hash t → (top = false → large t) → hashes top n t (hashNode h) n.
Proof.
  intros Hv Hr Hk -> Hl. split; [|done..|by rewrite Hv]. destruct t as [| |]; [done| |]; cbn [node_value hashed_value];
    (destruct top; [done|]; symmetry; by apply large_ref, Hl).
Qed.

(** From the collapsed node to its hash. *)
Lemma toHash_hashes top n collapsed t cached :
  is_value t = false → encodable (tree_value t) → node_value collapsed = tree_value t → is_nil collapsed = false → is_hashNode collapsed = false →
  (∀ fl, flag_ok db_node top fl t → rep top (cached fl) t) →
  (∀ fl, (top = true ∨ large t → fl_hash fl ≠ None) → known top (cached fl) t) →
  ∀ dirty, (dirty = false → top = false ∧ ¬ large t) → ∃ hashed, toHash collapsed top = Ret hashed ∧ hashes top n t hashed (cached (mkFlag (hash_of hashed) dirty)).
Proof.
  intros Hv Hw Hc Hn Hnh Hcached Hknown dirty Hd. unfold toHash. rewrite Hc, (encodable_encodes _ Hw). cbn [mbind Go_bind].
  eexists. split; [done|]. unfold tree_hash in *.
  assert (hashed_value top t = if top then VBytes (tree_hash t) else ref_of t (tree_value t)) as Hhv by (by destruct t).
  assert (ref_of t (tree_value t) = if len (rlp (tree_value t)) <? 32 then tree_value t else VBytes (tree_hash t)) as Href by (by destruct t).
  assert (hash_of collapsed = None) as Hho by (by destruct collapsed).
  split.
  - rewrite Hhv, Href. destruct top, (Z.ltb_spec (len (rlp (tree_value t))) 32); cbn [andb negb]; done.
  - apply Hcached. unfold large in *. split; cbn [fl_hash fl_dirty].
    + intros h Eh. destruct dirty; [|destruct (Hd eq_refl) as [-> Hl]]; destruct (Z.ltb_spec (len (rlp (tree_value t))) 32);
        try lia; try destruct top; cbn [andb negb hash_of] in Eh; rewrite ?Hho in Eh; simplify_eq; done.
    + intros _. exact Hd.
  - apply Hknown. cbn [fl_hash]. unfold large. intros Ht.
    destruct (Z.ltb_spec (len (rlp (tree_value t))) 32), top; cbn [andb negb hash_of]; try done. destruct Ht; [done|lia].
  - by destruct (_ && _).
  - intros -> _. by rewrite andb_false_r.
  - by rewrite Hv.
Qed.

(** A place whose node can be hashed: a value, or an inner place of bounded size. *)
Definition hashable (t : tree) : Prop := (canon t ∨ is_value t = true) ∧ sized t.

Lemma hashable_ref t : hashable t → wf (ref_of t (tree_value t)) ∧ len (rlp (ref_of t (tree_value t))) ≤ 2 ^ 33.
Proof.
  intros [[Hc|Hv] Hs]; [|destruct t; [by apply value_ref|done..]].
  apply ref_small; [by apply tree_encodable|]. intros w ->. by apply canon_no_value in Hc.
Qed.

Lemma child_hashable ts i t : canon (TFull ts) → sized (TFull ts) → ts !! i = Some (Some t) → hashable t.
Proof.
  intros Hc Hs Ei. split; [|by eapply sized_child]. rewrite <- (Nat2Z.id i) in Ei.
  destruct (canon_child ts (Z.of_nat i) t Hc ltac:(lia) Ei) as [[_ ?]|(_ & v & -> & _)]; [by left|by right].
Qed.

Lemma short_hashable k t : canon (TShort k t) → sized (TShort k t) → hashable t.
Proof.
  intros Hc Hs. split; [|by eapply sized_short].
  destruct (canon_short _ _ Hc) as [(w & -> & _)|(ts & -> & _ & _ & ?)]; [by right|by left].
Qed.

Lemma canon_hex k t : canon (TShort k t) → hex_key k.
Proof. intros Hc. destruct (canon_short _ _ Hc) as [(w & -> & ? & _)|(ts & -> & _ & ? & _)]; [by right|by left]. Qed.

Lemma hashed_value_child t : hashed_value false t = ref_of t (tree_value t).
Proof. by destruct t. Qed.

(** A child of a full node, hashed or absent. *)
Definition child_hashes (c : node) (o : option tree) : Prop :=
  match o with
  | None => c = nilNode
  | Some t => ∃ hashed cached, hash c false = Ret (hashed, cached) ∧ hashes false c t hashed cached
  end.

Definition child_value (c : node) : rval := if is_nil c then VBytes [] else node_value c.
Definition tree_child_value (o : option tree) : rval :=
  match o with None => VBytes [] | Some t => ref_of t (tree_value t) end.

Lemma hash_children_hashes i : ∀ cs ts, Forall2 child_hashes cs ts →
  (∀ j t, (i ≤ j)%nat → ts !! j = Some (Some t) → is_value t = true) →
  ∃ ccs cs', hash_children (λ c, hash c false) i cs = Ret (ccs, cs') ∧
    map child_value ccs = map tree_child_value ts ∧
    Forall2 (λ c o, match o with None => c = nilNode | Some t => rep false c t ∧ known false c t end) cs' ts.
Proof.
  intros cs ts Hall. revert i. induction Hall as [|c o cs ts Hc Hall IH]; intros i Hv.
  { exists [], []. split; [by destruct i|]. done. }
  destruct i as [|i].
  - exists (c :: cs), (c :: cs). split; [done|].
    destruct (IH O) as (ccs & cs' & E & Hm & Hr); [intros j t _ Ej; by apply (Hv (S j) t); [lia|]|].
    assert (hash_children (λ c, hash c false) 0 cs = Ret (cs, cs)) as E0 by (by destruct cs). rewrite E0 in E. injection E as <- <-.
    cbn [map]. rewrite Hm. destruct o as [t|].
    + destruct Hc as (hc & cc & _ & Hh). destruct (hs_keep _ _ _ _ _ Hh (Hv O t (le_n _) eq_refl)) as [-> ->].
      split; [|constructor; [split; apply Hh|done]]. f_equal. unfold child_value. rewrite (hs_nil _ _ _ _ _ Hh), (hs_value _ _ _ _ _ Hh).
      apply hashed_value_child.
    + cbn in Hc. subst c. split; [done|by constructor].
  - destruct (IH i) as (ccs & cs' & E & Hm & Hr); [intros j t Hj Ej; by apply (Hv (S j) t); [lia|]|].
    change (hash_children (λ c, hash c false) (S i) (c :: cs)) with
      ('(cc, c') ← match c with nilNode => Ret (valueNode [], nilNode) | _ => hash c false end;
       '(ccs, cs') ← hash_children (λ c, hash c false) i cs; Ret (cc :: ccs, c' :: cs')).
    rewrite E. destruct o as [t|].
    + destruct Hc as (hc & cc & Eh & Hh). assert (match c with nilNode => Ret (valueNode [], nilNode) | _ => hash c false end = Ret (hc, cc)) as ->.
      { rewrite <- Eh. destruct c; try done. cbn in Eh. injection Eh as <- <-. by pose proof (hs_nil _ _ _ _ _ Hh). }
      cbn [mbind Go_bind]. exists (hc :: ccs), (cc :: cs'). split; [done|]. split; [|constructor; [split; apply Hh|done]].
      cbn [map]. rewrite Hm. f_equal. unfold child_value. rewrite (hs_nil _ _ _ _ _ Hh), (hs_value _ _ _ _ _ Hh).
      apply hashed_value_child.
    + cbn in Hc. subst c. cbn [mbind Go_bind]. exists (valueNode [] :: ccs), (nilNode :: cs'). split; [done|].
      split; [cbn [map]; by rewrite Hm|by constructor].
Qed.

Lemma hash_cached top n t h : is_value t = false → rep top n t → fst (cache n) = Some h → hashes top n t (hashNode h) n.
Proof.
  intros Hv Hr Eh. destruct Hr as [|? k c t f Hrc Hf Hkn|? cs ts f Hl H1 H2 Hf Hkn|]; try done; cbn in Eh;
    assert (fl_hash f ≠ None) as Hfl by congruence;
    destruct (fl_known _ _ _ _ Hf h Eh) as (E & Hlarge & _); apply hash_known; try done; constructor; auto; by apply Hkn.
Qed.

Lemma hash_hashes top n t : rep top n t → hashable t →
  ∃ hashed cached, hash n top = Ret (hashed, cached) ∧ hashes top n t hashed cached.
Proof.
  induction 1 as [top v|top k c t f Hrc IH Hf Hkn|top cs ts f Hl H1 IH H2 Hf Hkn|top h t Eh Hlarge Hnv Hst]; intros Hh.
  - exists (valueNode v), (valueNode v). split; [done|]. split; [done|constructor|constructor|done..].
  - destruct (fl_hash f) as [h|] eqn:Efl.
    { exists (hashNode h), (shortNode k c f). split; [cbn; by rewrite Efl|]. apply hash_cached; [done|constructor; try done; intros _; by apply Hkn|done]. }
    destruct Hh as [[Hc|] Hs]; [|done]. destruct (IH (short_hashable _ _ Hc Hs)) as (cv & v' & Ec & Hcv).
    assert (match c with shortNode _ _ _ | fullNode _ _ => hash c false | _ => Ret (c, c) end = Ret (cv, v')) as E by (rewrite <- Ec; by destruct c).
    destruct (hexToCompact_compact k (canon_hex _ _ Hc)) as (Ek & _).
    destruct (toHash_hashes top (shortNode k c f) (shortNode (compact k) cv f) (TShort k t) (shortNode k v')) with (dirty := fl_dirty f)
      as (hd & Eh & Hhd); [done|by apply tree_encodable| |done|done|intros fl Hfl; constructor; [apply Hcv|done|intros _; apply Hcv]|intros fl Hfl; constructor; [apply Hcv|done]|by apply Hf|].
    { cbn [node_value tree_value]. by rewrite (hs_value _ _ _ _ _ Hcv), hashed_value_child. }
    eexists _, _. split; [|exact Hhd]. cbn [hash cache fst]. rewrite Efl, Ek. cbn [mbind Go_bind]. rewrite E. cbn [mbind Go_bind]. by rewrite Eh.
  - destruct (fl_hash f) as [h|] eqn:Efl.
    { exists (hashNode h), (fullNode cs f). split; [cbn; by rewrite Efl|]. apply hash_cached; [done|constructor; try done; intros _; by apply Hkn|done]. }
    destruct Hh as [[Hc|] Hs]; [|done].
    assert (Forall2 child_hashes cs ts) as Hall.
    { apply Forall2_same_length_lookup. split; [done|]. intros i c [t|] Ei Et; [|by eapply H2].
      eapply (IH i); [done|done|]. by eapply child_hashable. }
    destruct (hash_children_hashes 16 cs ts Hall) as (ccs & cs' & Ec & Hm & Hr').
    { intros j t Hj Ej. inversion Hc as [| |? Hl' _ Hv _]; subst. pose proof (lookup_lt_Some _ _ _ Ej).
      replace j with 16%nat in Ej by lia. by destruct (Hv t Ej) as (w & -> & _). }
    destruct (toHash_hashes top (fullNode cs f) (fullNode ccs f) (TFull ts) (fullNode cs')) with (dirty := fl_dirty f)
      as (hd & Eh & Hhd); [done|by apply tree_encodable| |done|done| | |by apply Hf|].
    { cbn [node_value tree_value]. f_equal. exact Hm. }
    { intros fl Hfl. apply Forall2_same_length_lookup in Hr' as [Hl' Hr']. constructor; [done| | |done|].
      - intros i c t Ei Et. apply (Hr' i c (Some t) Ei Et).
      - intros i c Ei Et. apply (Hr' i c None Ei Et).
      - intros _ i c t Ei Et. apply (Hr' i c (Some t) Ei Et). }
    { intros fl Hfl. apply Forall2_same_length_lookup in Hr' as [Hl' Hr']. constructor; [|done].
      intros i c t Ei Et. apply (Hr' i c (Some t) Ei Et). }
    eexists _, _. split; [|exact Hhd]. cbn [hash cache fst]. rewrite Efl, Ec. cbn [mbind Go_bind]. by rewrite Eh.
  - exists (hashNode h), (hashNode h). split; [done|]. apply hash_known; [done| |constructor|done|done]. by constructor.
Qed.
End hashing.

(** * A trie is a map *)

Section maps.
Context `{KeccakLaws}.

(** Keys and values are bytes, of less than 2^30 and 2^32 of them. *)
Definition key_ok (key : bytes) : Prop := Forall is_byte key ∧ len key < 2 ^ 30.
Definition value_ok (v : bytes) : Prop := Forall is_byte v ∧ len v < 2 ^ 32.
Definition map_ok (m : gmap bytes bytes) : Prop := ∀ key v, m !! key = Some v → key_ok key ∧ v ≠ [] ∧ value_ok v.

Definition holds_map (o : option tree) (m : gmap bytes bytes) : Prop :=
  ∀ k v, ocontent o k = Some v ↔ ∃ key, k = keybytesToHex key ∧ m !! key = Some v.

(** The trie stands for a tree in minimal form that holds the map. *)
Definition represents (db_node : Hash → Res (option node)) (t : Trie) (m : gmap bytes bytes) : Prop :=
  map_ok m ∧ ∃ o, slot db_node true (root t) o ∧ holds_map o m.

Lemma holds_map_lookup o m key : holds_map o m → ocontent o (keybytesToHex key) = m !! key.
Proof.
  intros Ho. destruct (m !! key) as [v|] eqn:E; [apply Ho; by exists key|].
  destruct (ocontent o (keybytesToHex key)) as [v|] eqn:Eo; [|done].
  apply Ho in Eo as (key' & <-%keybytes_inj & E'). congruence.
Qed.

Lemma holds_map_insert o o' m key v : holds_map o m →
  (∀ k, ocontent o' k = if decide (k = keybytesToHex key) then Some v else ocontent o k) → holds_map o' (<[key := v]> m).
Proof.
  intros Ho E k w. rewrite E. case_decide as Ek.
  - subst k. split; [intros [= <-]; exists key; by rewrite lookup_insert_eq|].
    intros (key' & <-%keybytes_inj & E'). by rewrite lookup_insert_eq in E'.
  - rewrite (Ho k w). split; intros (key' & -> & E'); exists key'; (split; [done|]).
    + rewrite lookup_insert_ne; [done|congruence].
    + rewrite lookup_insert_ne in E'; [done|congruence].
Qed.

Lemma holds_map_delete o o' m key : holds_map o m →
  (∀ k, ocontent o' k = if decide (k = keybytesToHex key) then None else ocontent o k) → holds_map o' (delete key m).
Proof.
  intros Ho E k w. rewrite E. case_decide as Ek.
  - subst k. split; [done|]. intros (key' & <-%keybytes_inj & E'). by rewrite lookup_delete_eq in E'.
  - rewrite (Ho k w). split; intros (key' & -> & E'); exists key'; (split; [done|]).
    + rewrite lookup_delete_ne; [done|congruence].
    + rewrite lookup_delete_ne in E'; [done|congruence].
Qed.

Lemma holds_map_unique db1 db2 n1 n2 o1 o2 m : slot db1 true n1 o1 → slot db2 true n2 o2 →
  holds_map o1 m → holds_map o2 m → o1 = o2.
Proof.
  intros S1 S2 M1 M2. assert (∀ k, ocontent o1 k = ocontent o2 k) as E.
  { intros k. destruct (ocontent o1 k) as [v|] eqn:E1.
    - symmetry. by apply M2, M1.
    - destruct (ocontent o2 k) as [v|] eqn:E2; [|done]. apply M2, M1 in E2. congruence. }
  destruct o1 as [t|], o2 as [u|]; [| | |done].
  - f_equal. apply canon_unique; [apply S1|apply S2|exact E].
  - destruct (canon_holds t (proj2 S1)) as [k [v Hk]]. specialize (E k). cbn [ocontent mbind option_bind] in E. congruence.
  - destruct (canon_holds u (proj2 S2)) as [k [v Hk]]. specialize (E k). cbn [ocontent mbind option_bind] in E. congruence.
Qed.

Lemma keybytes_length key : length (keybytesToHex key) = S (2 * length key).
Proof.
  unfold keybytesToHex. rewrite length_app. cbn [length]. induction key as [|b key IH]; [done|]. cbn [map concat app length] in *. lia.
Qed.

Lemma need_fuel n key : (need n key ≤ fuel_of key)%nat.
Proof. unfold need, fuel_of. destruct (is_hashNode n); lia. Qed.

Lemma map_sized t m : holds_map (Some t) m → map_ok m → sized t.
Proof.
  intros Ho Hm k v E. destruct (proj1 (Ho k v) E) as (key & -> & Ek). destruct (Hm key v Ek) as ([_ Hl] & _ & Hb & Hv).
  split; [|done]. unfold len in *. rewrite keybytes_length. lia.
Qed.

Lemma represents_empty db : represents db (mkTrie nilNode 0) ∅.
Proof. split; [by intros ? ?|]. exists None. split; [done|]. intros k v. split; [done|]. by intros (? & _ & ?). Qed.

Lemma TryGet_represents db t m key : represents db t m → Forall is_byte key →
  ∃ t', TryGet db t key = try_ret (m !! key, t') ∧ represents db t' m.
Proof.
  intros (Hm & o & Hs & Ho) Hk. unfold TryGet. rewrite <- (holds_map_lookup _ _ key Ho).
  pose proof (keybytes_term key Hk) as Ht. destruct o as [tr|].
  - destruct Hs as [Hr Hc]. destruct (get_gets db (fuel_of (keybytesToHex key)) true (root t) tr (keybytesToHex key) O Hr Hc)
      as (n' & b & E & Hr' & _); [done|apply need_fuel|]. rewrite E. cbn [try_bind try_ret drop]. eexists. split; [done|].
    split; [done|]. exists (Some tr). split; [by destruct b|done].
  - cbn in Hs. unfold fuel_of. rewrite Nat.add_comm. cbn [Nat.add tryGet]. rewrite Hs. cbn [try_bind try_ret]. eexists. split; [done|].
    split; [done|]. by exists None.
Qed.

Lemma map_ok_delete m key : map_ok m → map_ok (delete key m).
Proof. intros Hm k v [_ E]%lookup_delete_Some. by apply Hm. Qed.

Lemma map_ok_insert m key v : map_ok m → key_ok key → v ≠ [] → value_ok v → map_ok (<[key := v]> m).
Proof. intros Hm Hk Hv Hvo k w [[-> <-]|[_ E]]%lookup_insert_Some; [done|by apply Hm]. Qed.

Lemma TryDelete_represents db t m key : represents db t m → Forall is_byte key →
  ∃ t', TryDelete db t key = (t', Done None) ∧ represents db t' (delete key m).
Proof.
  intros (Hm & o & Hs & Ho) Hk. unfold TryDelete. cbv zeta. cbn [root].
  destruct (delete_deletes db (fuel_of (keybytesToHex key)) true (root t) o [] (keybytesToHex key) Hs)
    as (d & n' & o' & E & Hs' & [C _] & _); [by apply keybytes_term|apply need_fuel|].
  rewrite E. eexists. split; [done|]. split; [by apply map_ok_delete|]. exists o'. split; [done|]. by eapply holds_map_delete.
Qed.

Lemma TryUpdate_represents db t m key v : represents db t m → key_ok key → value_ok v →
  ∃ t', TryUpdate db t key v = (t', Done None) ∧ represents db t' (if len v =? 0 then delete key m else <[key := v]> m).
Proof.
  intros Hr [Hk Hl] Hv. unfold TryUpdate. destruct (Z.eqb_spec (len v) 0) as [|Hne]; [by apply TryDelete_represents|].
  assert (v ≠ []) as Hnil by (by intros ->). destruct Hr as (Hm & o & Hs & Ho). cbv zeta. cbn [root].
  destruct (insert_inserts db (fuel_of (keybytesToHex key)) true (root t) o [] (keybytesToHex key) v Hs)
    as (d & n' & t' & E & Hc & [R C _] & _); [by apply keybytes_term|done|apply need_fuel|].
  rewrite E. eexists. split; [done|]. split; [by apply map_ok_insert|]. exists (Some t'). split; [done|]. by eapply holds_map_insert.
Qed.

(** The root hash of a map. *)
Definition root_hash (o : option tree) : Hash :=
  match o with None => emptyRoot | Some t => BytesToHash (tree_hash t) end.

Lemma Hash_tree db t tr : rep db true (root t) tr → canon tr → sized tr →
  ∃ cached, Trie_Hash t = Ret (BytesToHash (tree_hash tr), mkTrie cached 0) ∧ rep db true cached tr ∧ known true cached tr.
Proof.
  intros Hr Hc Hs. assert (is_value tr = false) as Hv by (destruct tr; [by apply canon_no_value in Hc|done..]).
  destruct (hash_hashes db true (root t) tr Hr) as (hd & cached & E & Hh); [by split; [left|]|].
  rewrite (hs_root _ _ _ _ _ _ Hh eq_refl Hv) in E. exists cached. split; [|split; apply Hh]. unfold Trie_Hash, hashRoot.
  destruct (root t); [by apply rep_not_nil in Hr|..]; by rewrite E.
Qed.

Lemma Hash_represents db t m o : slot db true (root t) o → holds_map o m → map_ok m →
  ∃ t', Trie_Hash t = Ret (root_hash o, t') ∧ represents db t' m.
Proof.
  intros Hs Ho Hm. destruct o as [tr|].
  - destruct Hs as [Hr Hc]. destruct (Hash_tree db t tr Hr Hc) as (cached & E & Hr' & _); [by eapply map_sized|].
    eexists. split; [done|]. split; [done|]. by exists (Some tr).
  - cbn in Hs. unfold Trie_Hash, hashRoot. rewrite Hs. cbn [mbind Go_bind]. eexists. split; [done|]. split; [done|]. by exists None.
Qed.

End maps.

(** C21: A trie is a map.  The empty one represents the empty map; whatever
    the operations so far, and whichever nodes are still in the database, reading
    gives the value of the map and changes nothing, updates insert, or delete if
    the value is empty, deletions delete, none of them fails, and the root hash is
    a function of the map alone: every trie that represents it, over any database,
    has the same, whatever the order of the changes that led to it. *)
Theorem trie_is_map `{KeccakLaws} db :
  represents db (mkTrie nilNode 0) ∅ ∧
  ∀ t m, represents db t m →
    (∀ key, key_ok key → ∃ t', TryGet db t key = try_ret (m !! key, t') ∧ represents db t' m) ∧
    (∀ key v, key_ok key → value_ok v → ∃ t', TryUpdate db t key v = (t', Done None) ∧
       represents db t' (if len v =? 0 then delete key m else <[key := v]> m)) ∧
    (∀ key, key_ok key → ∃ t', TryDelete db t key = (t', Done None) ∧ represents db t' (delete key m)) ∧
    (∃ h, ∀ db' u, represents db' u m → ∃ u', Trie_Hash u = Ret (h, u') ∧ represents db' u' m).
Proof.
  split; [apply represents_empty|]. intros t m Hr. split_and!.
  - intros key [Hk _]. by apply TryGet_represents.
  - intros key v. by apply TryUpdate_represents.
  - intros key [Hk _]. by apply TryDelete_represents.
  - destruct Hr as (Hm & o & Hs & Ho). exists (root_hash o). intros db' u (_ & o' & Hs' & Ho').
    rewrite (holds_map_unique _ _ _ _ _ _ _ Hs Hs' Ho Ho'). by apply Hash_represents.
Qed.

(** * Examples *)

#[export] Instance demo_keccak_laws : KeccakLaws (H := demo_externals).
Proof. split. intros b. split; [apply to_be_length|apply to_be_bytes]. Qed.

Definition no_nodes : Hash → Res (option node) := λ _, Done None.
Definition updated (t : Trie) (key v : bytes) : Trie := (TryUpdate no_nodes t key v).1.

(** Two keys in both orders, and a third one that comes and goes. *)
Lemma trie_is_map_witness :
  let a := updated (updated (mkTrie nilNode 0) [18; 52] [7]) [18; 53] [8] in
  let b := updated (updated (updated (updated (mkTrie nilNode 0) [18; 53] [8]) [9] [1]) [18; 52] [7]) [9] [] in
  (∃ a', TryGet no_nodes a [18; 53] = try_ret (Some [8], a')) ∧ (∃ h a' b', Trie_Hash a = Ret (h, a') ∧ Trie_Hash b = Ret (h, b')).
Proof.
  assert (∀ l, forallb (λ b, (0 <=? b) && (b <? 256)) l = true → len l < 2 ^ 30 → key_ok l ∧ value_ok l) as Hok.
  { intros l Hb Hl. assert (Forall is_byte l) as Hf.
    { apply Forall_forall. intros x Hx%list_elem_of_In. rewrite forallb_forall in Hb. specialize (Hb x Hx). unfold is_byte. lia. }
    repeat split; try done. lia. }
  destruct (trie_is_map no_nodes) as [He Hm].
  assert (∀ t m k v, represents no_nodes t m → key_ok k → value_ok v →
    represents no_nodes (updated t k v) (if len v =? 0 then delete k m else <[k := v]> m)) as Hu.
  { intros t m k v Ht Hk Hv. destruct (proj1 (proj2 (Hm t m Ht)) k v Hk Hv) as (t' & E & Hr). unfold updated. by rewrite E. }
  cbv zeta. assert (key_ok [18; 52]) as K1 by (by apply Hok). assert (key_ok [18; 53]) as K2 by (by apply Hok).
  assert (key_ok [9]) as K3 by (by apply Hok).
  pose proof (Hu _ _ _ [8] (Hu _ _ _ [7] He K1 (proj2 (Hok [7] eq_refl eq_refl))) K2 (proj2 (Hok [8] eq_refl eq_refl))) as Ha.
  pose proof (Hu _ _ _ [] (Hu _ _ _ [7] (Hu _ _ _ [1] (Hu _ _ _ [8] He K2 (proj2 (Hok [8] eq_refl eq_refl))) K3 (proj2 (Hok [1] eq_refl eq_refl)))
    K1 (proj2 (Hok [7] eq_refl eq_refl))) K3 (proj2 (Hok [] eq_refl eq_refl))) as Hb.
  destruct (Hm _ _ Ha) as (Hg & _ & _ & h & Hh). split.
  { destruct (Hg [18; 53] K2) as (a' & E & _). exists a'. rewrite E. change (len [8] =? 0) with false. by rewrite lookup_insert_eq. }
  destruct (Hh _ _ Ha) as (a' & Ea & _). destruct (Hh no_nodes _ Hb) as (b' & Eb & _). exists h, a', b'. exact (conj Ea Eb).
Defined.

(** The sibling of a deleted child is missing: the error gives the path of their
    parent and not, as its comment says, that of the missing node. *)
Example missing_sibling :
  let below := fullNode (set_child (set_child no_children 1 (hashNode (to_be 32 77))) 2 (shortNode [16] (valueNode [5]) newFlag)) newFlag in
  (TryDelete no_nodes (mkTrie (shortNode [4] below newFlag) 0) [66]).2 = Done (Some (mkMissing 77 [4])) ∧
  TryGet no_nodes (mkTrie (shortNode [4] below newFlag) 0) [65] = Done (inl (mkMissing 77 [4; 1])).
Proof. split; vm_compute; reflexivity. Qed.
