(* ===== verification/TrieDisk.v ===== *)
(** * Tries are read back from the disk

    The compact form of keys and the encoding of nodes lead back to them.
    Committing puts the nodes of a tree into the database, and writing the database
    to the disk keeps what it holds.  A proof of a value is the nodes on its path. *)

From S2P Require Import Prelude Common Uint256 Machine VmFacts Vm Rlp RlpFacts RlpRoundTrip MerkleTrie TrieFacts DemoState TrieSpec.

(** * Keys *)

Section keys.

Lemma keybytes_cons b k : keybytesToHex (b :: k) = b / 16 :: b mod 16 :: keybytesToHex k.
Proof. done. Qed.

Lemma keybytes_pairs k : Forall is_nibble k → Nat.odd (length k) = false → keybytesToHex (pairs k) = k ++ [16].
Proof.
  induction k as [|x|x y k IH] using pair_ind; intros Hk Ho; [done|done|].
  apply Forall_cons in Hk as [Hx Hk]. apply Forall_cons in Hk as [Hy Hk]. cbn [pairs].
  rewrite keybytes_cons, IH by done. cbn [app]. unfold is_nibble in *.
  rewrite Z.div_add_l, (Z.div_small y), Z.add_0_r, (Z.add_comm (x * 16)), Z.mod_add, Z.mod_small by lia. done.
Qed.

Lemma drop_last_snoc (l : bytes) x : drop_last (l ++ [x]) = l.
Proof. unfold drop_last. rewrite length_app. cbn. rewrite Nat.add_sub. apply take_app_length. Qed.

(** The compact form of a key leads back to it. *)
Lemma compact_roundtrip k : hex_key k → compactToHex (compact k) = k.
Proof.
  intros Hk. assert (∃ ks, Forall is_nibble ks ∧ (if hasTerm k then drop_last k else k) = ks ∧ k = ks ++ if hasTerm k then [16] else [])
    as (ks & Hn & E & Ek).
  { destruct Hk as [Hk|(ks & -> & Hk)].
    - destruct (hex_body k (or_introl Hk)) as (ks & Hn & _ & E). exists ks. split; [done|]. split; [done|].
      destruct (hasTerm k) eqn:Eh; [|by rewrite app_nil_r]. unfold hasTerm in Eh. apply bool_decide_eq_true_1 in Eh.
      apply last_Some in Eh as [l ->]. apply Forall_app in Hk as [_ Hk]. apply Forall_cons in Hk as [Hk _]. unfold is_nibble in Hk. lia.
    - exists ks. unfold hasTerm. rewrite last_snoc, bool_decide_eq_true_2 by done. by rewrite drop_last_snoc. }
  unfold compact. rewrite E. set (f := if hasTerm k then 32 else 0).
  assert (∀ q : bool, f = (if hasTerm k then 32 else 0)) as Hf by done.
  destruct ks as [|x r]; [rewrite Ek; by destruct (hasTerm k)|].
  destruct (Nat.odd (length (x :: r))) eqn:Eo.
  - apply Forall_cons in Hn as [Hx Hr].
    assert (Nat.odd (length r) = false) as Eo' by (cbn [length] in Eo; rewrite Nat.odd_succ, <- Nat.negb_odd in Eo; by destruct (Nat.odd _)).
    assert ((f + 16 + x) / 16 = f / 16 + 1 ∧ (f + 16 + x) mod 16 = x) as [Ed Em].
    { unfold is_nibble in Hx. unfold f. replace (_ + 16 + x) with ((if hasTerm k then 3 else 1) * 16 + x) by (destruct (hasTerm k); lia).
      rewrite Z.div_add_l, (Z.div_small x), (Z.add_comm _ x), Z.mod_add, Z.mod_small by lia. by destruct (hasTerm k). }
    unfold compactToHex. rewrite keybytes_cons, keybytes_pairs, Ed, Em by done. unfold f. clear -Ek. destruct (hasTerm k); rewrite Ek; cbn [head default from_option id]; [done|].
    change (0 / 16 + 1) with 1. change (1 <? 2) with true. change (Z.to_nat (2 - Z.land 1 1)) with 1%nat.
    change (1 :: x :: r ++ [16]) with ((1 :: x :: r) ++ [16]). rewrite drop_last_snoc. by rewrite app_nil_r.
  - unfold compactToHex. rewrite keybytes_cons, keybytes_pairs by done. unfold f. clear -Ek. destruct (hasTerm k); rewrite Ek; cbn [head default from_option id]; [done|].
    change (0 / 16) with 0. change (0 mod 16) with 0. change (0 <? 2) with true. change (Z.to_nat (2 - Z.land 0 1)) with 2%nat.
    change (0 :: 0 :: (x :: r) ++ [16]) with ((0 :: 0 :: x :: r) ++ [16]). rewrite drop_last_snoc. by rewrite app_nil_r.
Qed.
End keys.

(** ** What the database holds for a tree *)

Section committing.
Context `{KeccakLaws}.

(** The node of the cache, its keys compact, with hashes for large children. *)
Definition raw_child (t : tree) (r : raw) : raw :=
  if is_value t then r else if 32 <=? len (rlp (tree_value t)) then rawHash (tree_hash t) else r.

Fixpoint raw_of (t : tree) : raw :=
  match t with
  | TValue v => rawValue v
  | TShort k t => rawShortNode (compact k) (raw_child t (raw_of t))
  | TFull ts => rawFullNode (map (λ o, match o with Some t => Some (raw_child t (raw_of t)) | None => None end) ts)
  end.

(** What stands for a tree below another, or at the root. *)
Definition raw_ref (top : bool) (t : tree) : raw :=
  if is_value t then raw_of t else if top || (32 <=? len (rlp (tree_value t))) then rawHash (tree_hash t) else raw_of t.

Lemma raw_ref_child t : raw_ref false t = raw_child t (raw_of t).
Proof. done. Qed.

(** Places of a tree in minimal form. *)
Definition place (t : tree) : Prop := canon t ∨ is_value t = true.

Lemma child_place ts i t : canon (TFull ts) → ts !! i = Some (Some t) → place t.
Proof.
  intros Hc Ei. rewrite <- (Nat2Z.id i) in Ei.
  destruct (canon_child ts (Z.of_nat i) t Hc ltac:(lia) Ei) as [[_ ?]|(_ & v & -> & _)]; [by left|by right].
Qed.

Lemma short_place k t : canon (TShort k t) → place t.
Proof. intros Hc. destruct (canon_short _ _ Hc) as [(w & -> & _)|(ts & -> & _ & _ & ?)]; [by right|by left]. Qed.

(** Induction on the places of trees in minimal form. *)
Lemma place_ind (P : tree → Prop) :
  (∀ v, P (TValue v)) → (∀ k t, canon (TShort k t) → place t → P t → P (TShort k t)) →
  (∀ ts, canon (TFull ts) → (∀ i t, ts !! i = Some (Some t) → place t ∧ P t) → P (TFull ts)) → ∀ t, place t → P t.
Proof.
  intros Pv Ps Pf. assert (∀ t, canon t → P t) as Hc.
  { induction 1 as [k v Hk Hv|k ts Hn Hk Hc IH|ts Hl Hc IH Hv Hj].
    - apply Ps; [by constructor|by right|apply Pv].
    - apply Ps; [by constructor|by left|done].
    - assert (canon (TFull ts)) as Hcan by by constructor. apply Pf; [done|]. intros i t Ei. split; [by eapply child_place|].
      destruct (decide (i = 16%nat)) as [->|]; [destruct (Hv t Ei) as (w & -> & _); apply Pv|].
      assert (i < 16)%nat by (apply lookup_lt_Some in Ei; lia). by eapply IH. }
  intros t [|Hv]; [by apply Hc|]. by destruct t.
Qed.

Lemma raw_encodes t : raw_rval (raw_of t) = tree_value t.
Proof.
  assert (∀ u, raw_rval (raw_of u) = tree_value u → raw_rval (raw_child u (raw_of u)) = ref_of u (tree_value u)) as Hch.
  { intros u E. unfold raw_child. rewrite Z.leb_antisym. destruct u as [v|k u|ts]; [done|..]; cbn [is_value ref_of];
      (destruct (_ <? _); [exact E|done]). }
  revert t. fix IH 1. intros [v|k u|ts]; [done|..].
  - cbn [raw_of raw_rval tree_value]. by rewrite Hch by apply IH.
  - cbn [raw_of raw_rval tree_value]. f_equal. rewrite map_map. induction ts as [|[u|] ts IHts]; [done|..]; cbn [map]; f_equal; try done.
    apply Hch, IH.
Qed.

Lemma expand_raw t : place t → ∀ h, expandNode h (raw_of t) = expanded h t.
Proof.
  assert (∀ t, expandNode None (raw_of t) = expanded None t → expandNode None (raw_child t (raw_of t)) = child_of t (expanded None t)) as Hch.
  { intros u E. unfold raw_child, child_of. destruct (is_value u); [done|]. by destruct (32 <=? _). }
  revert t. apply (place_ind (λ t, ∀ h, expandNode h (raw_of t) = expanded h t)); [done| |].
  - intros k u Hc _ IH h. cbn [raw_of expandNode expanded]. rewrite compact_roundtrip by by eapply canon_hex. by rewrite Hch.
  - intros ts Hc IH h. cbn [raw_of expandNode expanded]. f_equal. rewrite map_map. apply map_ext_in. intros [u|] Hu; [|done].
    apply list_elem_of_In, list_elem_of_lookup in Hu as [i Ei]. by apply Hch, (IH i u Ei).
Qed.
(** ** Encoded nodes are decoded to the nodes that stand for the tree *)

Definition place_child (o : option tree) : node := match o with None => nilNode | Some t => child_of t (expanded None t) end.

(** What decoding gives, with more bytes after the node. *)
Definition decodes (fuel : nat) (t : tree) : Prop := ∀ h r, len (rlp (tree_value t) ++ r) < 2 ^ 62 →
  decodeNode fuel h (rlp (tree_value t) ++ r) = try_ret (expanded h t).

Lemma tree_list t : is_value t = false → ∃ c, rlp (tree_value t) = rlp_list c.
Proof. destruct t; [done|by eexists..]. Qed.

Lemma slot_item o : (∀ t, o = Some t → place t ∧ sized t) → item (rlp (tree_child_value o)).
Proof.
  intros Ho. destruct o as [t|]; [|left; by exists []]. destruct (Ho t eq_refl) as [Hp Hs]. cbn [tree_child_value].
  destruct (is_value t) eqn:Hv.
  - destruct t as [w| |]; [|done..]. left. exists w. split; [by apply sized_value|done].
  - replace (ref_of t (tree_value t)) with (if len (rlp (tree_value t)) <? 32 then tree_value t else VBytes (Keccak256 (rlp (tree_value t)))) by by destruct t.
    destruct (_ <? _); [right; by apply tree_list|]. left. exists (Keccak256 (rlp (tree_value t))). split; [apply keccak_bytes|done].
Qed.

Lemma decodeRef_slot fuel o r : (∀ t, o = Some t → canon t ∧ (len (rlp (tree_value t)) < 32 → decodes fuel t)) →
  len (rlp (tree_child_value o) ++ r) < 2 ^ 62 → decodeRef (decodeNode fuel) (rlp (tree_child_value o) ++ r) = try_ret (place_child o, r).
Proof.
  intros Ho Hl. unfold decodeRef. destruct o as [t|].
  - destruct (Ho t eq_refl) as [Hc Hd]. assert (is_value t = false) as Hv by (destruct t; [by apply canon_no_value in Hc|done..]).
    cbn [tree_child_value place_child] in *. unfold child_of. rewrite Hv.
    replace (ref_of t (tree_value t)) with (if len (rlp (tree_value t)) <? 32 then tree_value t else VBytes (Keccak256 (rlp (tree_value t)))) in * by by destruct t.
    destruct (Z.ltb_spec (len (rlp (tree_value t))) 32) as [Hs|Hs].
    + destruct (Z.leb_spec 32 (len (rlp (tree_value t)))); [lia|]. destruct (tree_list t Hv) as [c Ec].
      pose proof (len_rlp_list c) as Hlc. rewrite <- Ec in Hlc. pose proof Hl as Hl'. rewrite len_app in Hl'.
      assert (Split (rlp (tree_value t) ++ r) = Ret (inr (KList, c, r))) as -> by (rewrite Ec; apply Split_list; rewrite len_app; lia).
      cbn [split try_bind try_ret]. rewrite len_app.
      destruct (Z.ltb_spec (Z.of_nat HashLength) (len (rlp (tree_value t)) + len r - len r)); [change (Z.of_nat HashLength) with 32 in *; lia|].
      by rewrite (Hd Hs None r).
    + destruct (Z.leb_spec 32 (len (rlp (tree_value t)))); [|lia]. cbn [rlp] in *. destruct (keccak_bytes (rlp (tree_value t))) as [Hk Hb].
      pose proof (len_rlp_string (Keccak256 (rlp (tree_value t)))). rewrite len_app in Hl. unfold tree_hash.
      destruct (Split_string (Keccak256 (rlp (tree_value t))) r Hb) as (k & -> & Hkind); [rewrite len_app; lia|].
      assert (len (Keccak256 (rlp (tree_value t))) = 32) as H32 by (unfold len; by rewrite Hk). rewrite H32 in Hkind.
      destruct Hkind as [-> | [_ ?]]; [|done]. cbn [split try_bind try_ret]. by rewrite H32.
  - cbn [tree_child_value place_child rlp] in *. destruct (Split_string [] r) as (k & -> & [-> | [_ ?]]); [constructor| |done|done].
    rewrite len_app in *. change (len (rlp_string [])) with 1 in Hl. change (len (@nil Z)) with 0. lia.
Qed.

Lemma decode_children_slots fuel os i r :
  (∀ t, Some t ∈ os → canon t ∧ (len (rlp (tree_value t)) < 32 → decodes fuel t)) → len (concat (map (λ o, rlp (tree_child_value o)) os) ++ r) < 2 ^ 62 →
  decode_children (decodeNode fuel) (length os) i (concat (map (λ o, rlp (tree_child_value o)) os) ++ r) = try_ret (map place_child os, r).
Proof.
  revert i. induction os as [|o os IH]; intros i Ho Hl; [done|]. cbn [map concat length decode_children] in *.
  rewrite <- app_assoc in *. rewrite decodeRef_slot; [|intros t ->; apply Ho; by constructor|done].
  cbn [wrapping try_bind try_ret]. rewrite IH; [done|intros t Ht; apply Ho; by constructor|].
  rewrite len_app in Hl. pose proof (len_0 (rlp (tree_child_value o))). lia.
Qed.
Lemma decodeNode_items fuel h items r : Forall item items → len (concat items ++ r) < 2 ^ 62 →
  decodeNode (S fuel) h (rlp_list (concat items) ++ r) =
    let c := Z.of_nat (length items) in
    if c =? 2 then wrapping "short" (decodeShort (decodeNode fuel) h (concat items))
    else if c =? 17 then wrapping "full" (decodeFull (decodeNode fuel) h (concat items))
    else Done (inl (ErrElements c)).
Proof.
  intros Hi Hl. pose proof Hl as Hl'. rewrite len_app in Hl'. pose proof (len_0 r). pose proof (len_0 (concat items)). cbn [decodeNode].
  assert ((len (rlp_list (concat items) ++ r) =? 0) = false) as ->.
  { apply Z.eqb_neq. unfold rlp_list, rlp_head. destruct (_ <? _); cbv zeta; cbn [app]; rewrite len_cons; pose proof (len_0 r);
      match goal with |- 1 + len ?l ≠ 0 => pose proof (len_0 l) end; lia. }
  rewrite SplitList_list by done. cbn [split try_bind try_ret]. rewrite CountValues_items by (done || lia). done.
Qed.

Lemma decode_short fuel k u : hex_key k → wf (ref_of u (tree_value u)) → item (rlp (ref_of u (tree_value u))) →
  (∀ h, len (rlp_string (compact k) ++ rlp (ref_of u (tree_value u))) < 2 ^ 62 →
    decodeShort (decodeNode fuel) h (rlp_string (compact k) ++ rlp (ref_of u (tree_value u))) = try_ret (expanded h (TShort k u))) →
  decodes (S fuel) (TShort k u).
Proof.
  intros Hk Hw Hi Hd h r Hl. destruct (hexToCompact_compact k Hk) as (_ & Hb & _). cbn [tree_value rlp map] in *.
  change (rlp (VBytes (compact k))) with (rlp_string (compact k)) in *.
  set (items := [rlp_string (compact k); rlp (ref_of u (tree_value u))]) in *.
  assert (len (concat items) + len r < 2 ^ 62) as Hl'.
  { rewrite len_app in Hl. pose proof (len_rlp_list (concat items)). lia. }
  pose proof (len_0 r). rewrite decodeNode_items; [|constructor; [left; by eexists|by constructor]|rewrite len_app; lia].
  cbn [length items]. change (Z.of_nat 2 =? 2) with true. cbv zeta iota. unfold items in *. cbn [concat] in *. rewrite app_nil_r in *.
  by rewrite Hd by lia.
Qed.

Lemma hasTerm_nibbles k : Forall is_nibble k → hasTerm k = false.
Proof.
  intros Hk. apply bool_decide_eq_false_2. intros E. apply last_Some in E as [l ->]. apply Forall_app in Hk as [_ Hk].
  apply Forall_cons in Hk as [Hk _]. unfold is_nibble in Hk. lia.
Qed.

Lemma hasTerm_term k : term k → hasTerm k = true.
Proof. intros (ks & -> & _). unfold hasTerm. by rewrite last_snoc, bool_decide_eq_true_2. Qed.

Lemma decode_leaf fuel k v : term k → Forall is_byte v → decodes (S fuel) (TShort k (TValue v)).
Proof.
  intros Hk Hv. apply decode_short; [by right|done|left; by exists v|]. intros h Hl. cbn [ref_of tree_value rlp] in *.
  destruct (hexToCompact_compact k (or_intror Hk)) as (_ & Hb & _). pose proof (len_rlp_string (compact k)).
  pose proof (len_rlp_string v). pose proof (len_0 v). pose proof (len_0 (compact k)). rewrite len_app in Hl.
  unfold decodeShort. rewrite SplitString_string by (done || (rewrite len_app; lia)). cbn [split try_bind try_ret].
  rewrite compact_roundtrip by by right. rewrite hasTerm_term by done.
  rewrite <- (app_nil_r (rlp_string v)). rewrite SplitString_string by (done || (rewrite app_nil_r; lia)). done.
Qed.

Lemma decode_ext fuel k u : Forall is_nibble k → canon u → wf (ref_of u (tree_value u)) → item (rlp (ref_of u (tree_value u))) →
  (len (rlp (tree_value u)) < 32 → decodes fuel u) → decodes (S fuel) (TShort k u).
Proof.
  intros Hk Hc Hw Hi Hd. apply decode_short; [by left|done|done|]. intros h Hl.
  destruct (hexToCompact_compact k (or_introl Hk)) as (_ & Hb & _). pose proof (len_rlp_string (compact k)). pose proof (len_0 (compact k)).
  rewrite len_app in Hl. pose proof (len_0 (rlp (ref_of u (tree_value u)))).
  unfold decodeShort. rewrite SplitString_string by (done || (rewrite len_app; lia)). cbn [split try_bind try_ret].
  rewrite compact_roundtrip by by left. rewrite hasTerm_nibbles by done.
  pose proof (decodeRef_slot fuel (Some u) []) as E. cbn [tree_child_value place_child] in E. rewrite app_nil_r in E.
  rewrite E; [done|by intros t [= <-]|lia].
Qed.

Lemma decode_full fuel ts : canon (TFull ts) → sized (TFull ts) →
  (∀ i t, (i < 16)%nat → ts !! i = Some (Some t) → len (rlp (tree_value t)) < 32 → decodes fuel t) → decodes (S fuel) (TFull ts).
Proof.
  intros Hc Hs Hd h r Hl. inversion Hc as [| |? Hlen Hcan Hval _]; subst.
  assert (rlp (tree_value (TFull ts)) = rlp_list (concat (map (λ o, rlp (tree_child_value o)) ts))) as E.
  { cbn [tree_value rlp]. by rewrite map_map. }
  rewrite E in *. set (items := map (λ o, rlp (tree_child_value o)) ts) in *.
  assert (len (concat items) + len r < 2 ^ 62) as Hl'.
  { rewrite len_app in Hl. pose proof (len_rlp_list (concat items)). lia. }
  pose proof (len_0 r). rewrite decodeNode_items; [| |rewrite len_app; lia].
  2: { apply Forall_map, Forall_lookup. intros i o Ei. apply slot_item. intros t ->. split; [by eapply child_place|by eapply sized_child]. }
  assert (length items = 17%nat) as -> by (unfold items; by rewrite length_map). cbv zeta. change (Z.of_nat 17 =? 2) with false. change (Z.of_nat 17 =? 17) with true.
  cbv iota. unfold decodeFull.
  destruct (lookup_lt_is_Some_2 ts 16) as [o Eo]; [lia|]. assert (ts = take 16 ts ++ [o]) as Ets.
  { rewrite <- (take_drop 16 ts) at 1. f_equal. erewrite drop_S by done. f_equal. apply drop_ge. lia. }
  assert (concat items = concat (map (λ o, rlp (tree_child_value o)) (take 16 ts)) ++ rlp (tree_child_value o)) as Eit.
  { unfold items. rewrite Ets at 1. rewrite map_app, concat_app. cbn. by rewrite app_nil_r. }
  assert (length (take 16 ts) = 16%nat) as H16 by (rewrite length_take; lia).
  rewrite Eit in *. pose proof (decode_children_slots fuel (take 16 ts) 0 (rlp (tree_child_value o))) as Ed. rewrite H16 in Ed.
  rewrite Ed; clear Ed; [| |rewrite len_app in *; lia].
  2: { intros t [i Ei]%list_elem_of_lookup. apply lookup_take_Some in Ei as [Ei Hi]. split; [by eapply Hcan|by eapply Hd]. }
  cbn [try_bind try_ret]. rewrite len_app in Hl'. pose proof (len_0 (concat (map (λ o, rlp (tree_child_value o)) (take 16 ts)))).
  assert (SplitString (rlp (tree_child_value o)) = Ret (inr (match o with Some (TValue v) => v | _ => [] end, []))
    ∧ place_child o = match o with Some (TValue v) => valueNode v | _ => nilNode end ∧
    match o with Some t => ∃ v, t = TValue v ∧ v ≠ [] | None => True end) as (-> & Ech & Hov).
  { destruct o as [t|]; [|done]. destruct (Hval t Eo) as (v & -> & Hv). split; [|split; [done|by exists v]].
    destruct (sized_value v (sized_child _ _ _ Hs Eo)). cbn [tree_child_value ref_of tree_value rlp] in *.
    rewrite <- (app_nil_r (rlp_string v)). apply SplitString_string; [done|]. rewrite app_nil_r. lia. }
  cbn [split try_bind expanded].
  assert (map place_child ts = map place_child (take 16 ts) ++ [place_child o]) as E2 by (rewrite Ets at 1; by rewrite map_app).
  change (try_ret (fullNode (map place_child (take 16 ts) ++
    [if 0 <? len match o with Some (TValue v) => v | _ => [] end then valueNode match o with Some (TValue v) => v | _ => [] end else nilNode])
    (mkFlag h false)) = try_ret (E := DecodeError) (fullNode (map place_child ts) (mkFlag h false))).
  rewrite E2, Ech. destruct o as [t|]; [|done]. destruct Hov as (v & -> & Hv). by destruct v.
Qed.

Lemma ref_item u : canon u → sized u → item (rlp (ref_of u (tree_value u))).
Proof. intros Hc Hs. apply (slot_item (Some u)). intros t [= <-]. split; [by left|done]. Qed.

(** Small nodes are shorter than those they are in. *)
Lemma small_in_list u l : len (rlp (tree_value u)) < 32 → rlp (ref_of u (tree_value u)) ∈ l →
  len (rlp (tree_value u)) < len (rlp_list (concat l)).
Proof.
  intros Hu Hin. eapply Z.le_lt_trans; [|apply len_rlp_list].
  assert (rlp (ref_of u (tree_value u)) = rlp (tree_value u)) as E.
  { destruct u as [v| |]; [done|..]; cbn [ref_of]; by rewrite (proj2 (Z.ltb_lt _ _)). }
  rewrite E in Hin. clear Hu E. induction Hin as [e l|e e' l _ IH]; cbn [concat]; rewrite len_app.
  - pose proof (len_0 (concat l)). lia.
  - pose proof (len_0 e'). lia.
Qed.

Lemma decode_tree t : canon t → sized t → ∀ fuel, (length (rlp (tree_value t)) < fuel)%nat → decodes fuel t.
Proof.
  induction 1 as [k v Hk Hv|k ts Hn Hk Hc IH|ts Hl Hc IH Hv Hj]; intros Hs fuel Hf; (destruct fuel as [|fuel]; [lia|]).
  - apply decode_leaf; [done|]. by apply (sized_value v), (sized_short k).
  - pose proof (sized_short _ _ Hs) as Hs'. apply decode_ext; [done|done| |by apply ref_item|].
    + apply (hashable_ref (TFull ts)). split; [by left|done].
    + intros Hu. apply IH; [done|].
      pose proof (small_in_list (TFull ts) [rlp_string (compact k); rlp (ref_of (TFull ts) (tree_value (TFull ts)))] Hu) as Hlt.
      assert (rlp (tree_value (TShort k (TFull ts))) = rlp_list (concat [rlp_string (compact k); rlp (ref_of (TFull ts) (tree_value (TFull ts)))])) as E by done.
      rewrite E in Hf. specialize (Hlt ltac:(right; by left)). unfold len in Hlt. lia.
  - apply decode_full; [by constructor|done|]. intros i u Hi Ei Hu. apply (IH i); [done|done|by eapply sized_child|].
    pose proof (small_in_list u (map (λ o, rlp (tree_child_value o)) ts) Hu) as Hlt.
    assert (rlp (tree_value (TFull ts)) = rlp_list (concat (map (λ o, rlp (tree_child_value o)) ts))) as E by (cbn [tree_value rlp]; by rewrite map_map).
    rewrite E in Hf. assert (len (rlp (tree_value u)) < len (rlp_list (concat (map (λ o, rlp (tree_child_value o)) ts)))); [|unfold len in *; lia].
    apply Hlt. apply list_elem_of_In, in_map_iff. exists (Some u). split; [done|]. apply list_elem_of_In. by eapply list_elem_of_lookup_2.
Qed.

(** An encoded tree on the disk is the node that stands for it. *)
Lemma mustDecode_tree t h : canon t → sized t → mustDecodeNode h (rlp (tree_value t)) = Done (expanded h t).
Proof.
  intros Hc Hs. unfold mustDecodeNode. pose proof (decode_tree t Hc Hs (S (length (rlp (tree_value t)))) ltac:(lia) h []) as E.
  rewrite app_nil_r in E. rewrite E; [done|]. destruct (tree_encodable t Hc Hs) as [_ Hl]. lia.
Qed.
End committing.

(** ** Whatever is on the disk, decoding it ends and does not panic *)

Definition ends {A} (m : Parse A) : Prop := ∃ r, m = Done r.

Lemma parse_ends {A B} (m : Parse A) (k : A → Parse B) : ends m → (∀ a, m = try_ret a → ends (k a)) → ends (try_bind m k).
Proof. intros [[e|a] ->] Hk; [by eexists|]. by apply Hk. Qed.

Lemma ends_wrapping {A} ctx (m : Parse A) : ends m → ends (wrapping ctx m).
Proof. intros [[e|a] ->]; by eexists. Qed.

Lemma ends_split {A} fail (m : Go (RlpError + A)) r : m = Ret r → ends (split fail m).
Proof. intros ->. destruct r; by eexists. Qed.

(** The part of the input that is left, of bytes. *)
Definition part_of (b b' : bytes) : Prop := Forall is_byte b' ∧ (length b' ≤ length b)%nat.

Lemma decodeRef_ends decode b : Forall is_byte b → len b < 2 ^ 63 → (∀ h, ends (decode h b)) →
  ends (decodeRef decode b) ∧ ∀ n rest, decodeRef decode b = try_ret (n, rest) → part_of b rest.
Proof.
  intros Hb Hl Hd. unfold decodeRef. destruct (Split_total b Hb Hl) as ([e|[[k val] rest]] & -> & Hr); [split; [by eexists|done]|].
  destruct (Hr _ _ _ eq_refl) as (_ & Hrest & _ & Hlen & _). assert (part_of b rest) as Hp by (split; [done|lia]). cbn [split try_bind try_ret].
  destruct k; [split; [by eexists|done]| |].
  - destruct (_ =? 0); [split; [by eexists|]; by intros ? ? [= _ <-]|]. destruct (_ =? 32); (split; [by eexists|]); [by intros ? ? [= _ <-]|done].
  - destruct (_ <? _); [split; [by eexists|done]|]. destruct (Hd None) as [[e|n] ->]; (split; [by eexists|]); [done|]. by intros ? ? [= _ <-].
Qed.

Lemma SplitString_total b : Forall is_byte b → len b < 2 ^ 63 →
  ∃ r, SplitString b = Ret r ∧ ∀ val rest, r = inr (val, rest) → part_of b rest.
Proof.
  intros Hb Hl. unfold SplitString. destruct (Split_total b Hb Hl) as ([e|[[k val] rest]] & -> & Hr); cbn [mbind Go_bind]; [by eexists|].
  destruct (Hr _ _ _ eq_refl) as (_ & Hrest & _ & Hlen & _). eexists. split; [done|].
  intros v r E. assert (k ≠ KList ∧ rest = r) as [_ <-] by (destruct k; by simplify_eq). split; [done|lia].
Qed.

Lemma decode_children_ends decode n i b : Forall is_byte b → len b < 2 ^ 63 → (∀ h b', part_of b b' → ends (decode h b')) →
  ends (decode_children decode n i b) ∧ ∀ cs rest, decode_children decode n i b = try_ret (cs, rest) → part_of b rest.
Proof.
  revert i b. induction n as [|n IH]; intros i b Hb Hl Hd; cbn [decode_children].
  - split; [by eexists|]. intros cs rest [= _ <-]. by split.
  - destruct (decodeRef_ends decode b Hb Hl) as [[[e|[c rest]] E] Hr]; [intros h; apply Hd; by split|rewrite E; split; [by eexists|done]|].
    destruct (Hr c rest E) as [Hrest Hlen]. rewrite E. cbn [wrapping try_bind try_ret].
    destruct (IH (S i) rest Hrest) as [[[e|[cs r2]] E2] Hr2]; [unfold len in *; lia| |rewrite E2; split; [by eexists|done]|].
    { intros h b' [Hb' Hl']. apply Hd. split; [done|lia]. }
    rewrite E2. cbn [try_bind try_ret]. split; [by eexists|]. intros cs' r' [= _ <-]. destruct (Hr2 cs r2 E2). split; [done|lia].
Qed.

Lemma decodeShort_ends decode h b : Forall is_byte b → len b < 2 ^ 63 → (∀ h b', part_of b b' → ends (decode h b')) → ends (decodeShort decode h b).
Proof.
  intros Hb Hl Hd. unfold decodeShort. destruct (SplitString_total b Hb Hl) as (r & E & Hr). rewrite E. destruct r as [e|[kbuf rest]]; [by eexists|].
  destruct (Hr _ _ eq_refl) as [Hrest Hlen]. assert (len rest < 2 ^ 63) as Hlr by (unfold len in *; lia). cbn [split try_bind try_ret].
  destruct (hasTerm _).
  - destruct (SplitString_total rest Hrest Hlr) as ([e|[v r2]] & -> & _); by eexists.
  - apply parse_ends; [|by intros [r2 ?] _; eexists]. apply ends_wrapping. apply decodeRef_ends; [done..|]. intros h'. by apply Hd.
Qed.

Lemma decodeFull_ends decode h b : Forall is_byte b → len b < 2 ^ 63 → (∀ h b', part_of b b' → ends (decode h b')) → ends (decodeFull decode h b).
Proof.
  intros Hb Hl Hd. unfold decodeFull. destruct (decode_children_ends decode 16 0 b Hb Hl Hd) as [He Hr]. apply parse_ends; [done|].
  intros [cs rest] E. destruct (Hr cs rest E) as [Hrest Hlen].
  destruct (SplitString_total rest Hrest) as ([e|[v r2]] & -> & _); [unfold len in *; lia|by eexists..].
Qed.

(** A node is longer than the nodes in it. *)
Lemma decodeNode_ends fuel h b : Forall is_byte b → len b < 2 ^ 63 → (length b < fuel)%nat → ends (decodeNode fuel h b).
Proof.
  revert h b. induction fuel as [|fuel IH]; intros h b Hb Hl Hf; [lia|]. cbn [decodeNode]. destruct (len b =? 0); [by eexists|].
  unfold SplitList. destruct (Split_total b Hb Hl) as ([e|[[k val] rest]] & -> & Hr); cbn [mbind Go_bind]; [by eexists|].
  destruct (Hr _ _ _ eq_refl) as (Hval & _ & _ & _ & Hlen). destruct k; [by eexists..|]. specialize (Hlen eq_refl). cbn [split try_bind try_ret].
  assert (len val < 2 ^ 63) as Hlv by (unfold len in *; lia).
  assert (∀ h b', part_of val b' → ends (decodeNode fuel h b')) as Hd.
  { intros h' b' [Hb' Hl']. apply IH; [done| |lia]. unfold len in *. lia. }
  destruct (CountValues_total val Hval Hlv) as ([e|c] & ->); cbn [of_run of_go try_bind try_ret]; [by eexists|].
  destruct (c =? 2); [by apply ends_wrapping, decodeShort_ends|]. destruct (c =? 17); [by apply ends_wrapping, decodeFull_ends|by eexists].
Qed.

(** ** A database whose nodes have names

    No two trees in use have the same hash: a naming gives each hash in use the
    only tree that has it, with the trees that have hashes below it. *)

Section below.
Context `{Externals}.

(** The trees that have hashes below a tree. *)
Definition below (P : tree → Prop) (t : tree) : Prop :=
  match t with
  | TValue _ => True
  | TShort _ t => each_hashed P false t
  | TFull ts => ∀ i t, ts !! i = Some (Some t) → each_hashed P false t
  end.

Lemma each_from_below P top t : below P t → (top = true ∨ large t → P t) → each_hashed P top t.
Proof. destruct t; intros Hb Ht; by constructor. Qed.

Lemma each_below P top t : each_hashed P top t → below P t ∧ (is_value t = false → top = true ∨ large t → P t).
Proof. destruct 1; by split. Qed.

Lemma below_impl (P Q : tree → Prop) t : (∀ u, P u → Q u) → below P t → below Q t.
Proof. intros HPQ. destruct t; cbn; [done|by apply each_hashed_impl|]. intros Hs i t Ei. by eapply each_hashed_impl, Hs. Qed.
End below.

Section database.
Context `{KeccakLaws} (named : Hash → option tree).

Definition is_named (t : tree) : Prop := named (BytesToHash (tree_hash t)) = Some t.
Definition on_disk (db : TrieDatabase) (t : tree) : Prop := diskdb db !! tree_hash t = Some (rlp (tree_value t)).

Record naming : Prop := {
  nm_canon h t : named h = Some t → canon t ∧ sized t;
  nm_hash h t : named h = Some t → BytesToHash (tree_hash t) = h;
  nm_below h t : named h = Some t → each_hashed is_named true t;
  nm_free h t : named h = Some t → h ≠ 0 ∧ h ≠ emptyRoot
}.

(** What is on the disk under a name is the encoded tree, with all that is below;
    the clean cache repeats it, and the dirty nodes are named. *)
Record consistent_db (db : TrieDatabase) : Prop := {
  db_clean c h enc : cleans db = Some c → c !! h = Some enc → diskdb db !! Hash_Bytes h = Some enc;
  db_dirty h r : dirties db !! h = Some r → ∃ t, named h = Some t ∧ r = raw_of t;
  db_disk h enc t : diskdb db !! Hash_Bytes h = Some enc → named h = Some t → enc = rlp (tree_value t) ∧ each_hashed (on_disk db) true t
}.

Lemma tree_hash_round t : is_hash (BytesToHash (tree_hash t)) ∧ Hash_Bytes (BytesToHash (tree_hash t)) = tree_hash t.
Proof. apply BytesToHash_round; apply keccak_bytes. Qed.

Lemma named_hash h t : naming → named h = Some t → is_hash h ∧ Hash_Bytes h = tree_hash t.
Proof. intros Hn E. rewrite <- (nm_hash Hn h t E). apply tree_hash_round. Qed.

(** A named hash leads to its node, or to none. *)
Lemma named_node db h t : naming → consistent_db db → named h = Some t →
  db_node db h = Done None ∧ dirties db !! h = None ∧ diskdb db !! Hash_Bytes h = None ∨
  db_node db h = Done (Some (expanded (Some (tree_hash t)) t)).
Proof.
  intros Hn Hdb E. destruct (nm_canon Hn h t E) as [Hc Hs]. destruct (named_hash h t Hn E) as [_ Eh]. unfold db_node.
  assert (∀ enc, diskdb db !! Hash_Bytes h = Some enc →
    (n ← mustDecodeNode (Some (Hash_Bytes h)) enc; Done (Some n)) = Done (Some (expanded (Some (tree_hash t)) t))) as Hd.
  { intros enc Ed. destruct (db_disk _ Hdb h enc t Ed E) as [-> _]. rewrite mustDecode_tree by done. by rewrite Eh. }
  destruct (cleans db) as [c|] eqn:Ec; cbn [mbind option_bind].
  - destruct (c !! h) as [enc|] eqn:Eenc; [right; apply Hd; by eapply db_clean|].
    destruct (dirties db !! h) as [r|] eqn:Er.
    + right. destruct (db_dirty _ Hdb h r Er) as (t' & E' & ->). assert (t' = t) as -> by congruence. rewrite expand_raw by by left. by rewrite Eh.
    + destruct (diskdb db !! Hash_Bytes h) as [enc|] eqn:Ed; [right; by apply Hd|by left].
  - destruct (dirties db !! h) as [r|] eqn:Er.
    + right. destruct (db_dirty _ Hdb h r Er) as (t' & E' & ->). assert (t' = t) as -> by congruence. rewrite expand_raw by by left. by rewrite Eh.
    + destruct (diskdb db !! Hash_Bytes h) as [enc|] eqn:Ed; [right; by apply Hd|by left].
Qed.

(** What one database finds, the other finds as well. *)
Definition db_le (db db' : TrieDatabase) : Prop :=
  ∀ h n, is_hash h → db_node db h = Done (Some n) → db_node db' h = Done (Some n).

Lemma in_db_le db db' t : db_le db db' → in_db (db_node db) t → in_db (db_node db') t.
Proof. intros Hle. apply Hle, tree_hash_round. Qed.

Lemma stored_le db db' top t : db_le db db' → stored (db_node db) top t → stored (db_node db') top t.
Proof. intros Hle. apply each_hashed_impl. intros u. by apply in_db_le. Qed.

Lemma rep_le db db' top n t : db_le db db' → rep (db_node db) top n t → rep (db_node db') top n t.
Proof.
  intros Hle. assert (∀ top f t, flag_ok (db_node db) top f t → flag_ok (db_node db') top f t) as Hf.
  { intros top' f u [Hk Hu]. split; [|done]. intros h Eh. destruct (Hk h Eh) as (? & ? & Hst). split; [done|]. split; [done|].
    intros Hd. by eapply stored_le, Hst. }
  induction 1; constructor; auto. by eapply stored_le.
Qed.

Lemma slot_le db db' top n o : db_le db db' → slot (db_node db) top n o → slot (db_node db') top n o.
Proof. intros Hle. destruct o as [t|]; [|done]. intros [Hr Hc]. split; [by eapply rep_le|done]. Qed.

(** *** Storing a node *)

Lemma insert_named db h t n : naming → consistent_db db → named h = Some t → simplifyNode n = Ret (raw_of t) →
  ∃ db', db_insert db h n = Ret db' ∧ consistent_db db' ∧ db_le db db' ∧ in_db (db_node db') t ∧ is_Some (dirties db' !! h) ∧
    dirties db ⊆ dirties db' ∧ diskdb db' = diskdb db.
Proof.
  intros Hn Hdb E Hs. destruct (named_hash h t Hn E) as [Hh Eh]. destruct (nm_free Hn h t E) as [Hz _].
  assert (∀ db, consistent_db db → is_Some (dirties db !! h) → in_db (db_node db) t) as Hin.
  { intros db1 Hdb1 [r Er]. unfold in_db. rewrite (nm_hash Hn h t E).
    destruct (named_node db1 h t Hn Hdb1 E) as [(_ & Ed & _)|]; [congruence|done]. }
  unfold db_insert. destruct (decide (is_Some (dirties db !! h))) as [Hd|Hd].
  - rewrite bool_decide_eq_true_2 by by right. exists db. split; [done|]. split; [done|]. split; [by intros ? ? ?|].
    split; [by apply Hin|done].
  - rewrite bool_decide_eq_false_2 by by intros [|]. rewrite Hs. cbn [mbind Go_bind].
    set (db' := mkTrieDb _ _ _). assert (consistent_db db') as Hdb'.
    { split; cbn; [apply Hdb| |apply Hdb]. intros h' r [[<- <-]|[_ Er]]%lookup_insert_Some; [by exists t|by eapply db_dirty]. }
    exists db'. split; [done|]. split; [done|]. split.
    + intros h' n' Hh' En. destruct (decide (h' = h)) as [->|Hne].
      * destruct (named_node db h t Hn Hdb E) as [(E1 & _)|E1]; [congruence|].
        destruct (named_node db' h t Hn Hdb' E) as [(_ & E2 & _)|E2]; [cbn in E2; by rewrite lookup_insert_eq in E2|congruence].
      * unfold db_node in *. cbn. by rewrite lookup_insert_ne.
    + split; [apply Hin; [done|]; cbn; by rewrite lookup_insert_eq|]. cbn. split; [by rewrite lookup_insert_eq|].
      split; [|done]. apply insert_subseteq. by apply eq_None_not_Some.
Qed.
(** *** Committing nodes *)

Context (Hnames : naming).

Definition raw_slot (o : option tree) : option raw := match o with Some t => Some (raw_child t (raw_of t)) | None => None end.

(** A node of [db0] is stored in a database that has grown since. *)
Record committed (top : bool) (t : tree) (db : TrieDatabase) (n' : node) (count : Z) (db' : TrieDatabase) : Prop := {
  cm_raw : simplifyNode n' = Ret (raw_ref top t);
  cm_root : top = true → n' = hashNode (tree_hash t);
  cm_nil : is_nil n' = false;
  cm_count : 0 ≤ count;
  cm_consistent : consistent_db db';
  cm_le : db_le db db';
  cm_stored : stored (db_node db') top t
}.

Definition commits (db0 : TrieDatabase) (top : bool) (n : node) (t : tree) : Prop :=
  ∀ db, db_le db0 db → consistent_db db → ∃ n' count db', commit n db = Ret (n', count, db') ∧ committed top t db n' count db'.

Lemma db_le_refl db : db_le db db.
Proof. by intros h n. Qed.
Lemma db_le_trans db1 db2 db3 : db_le db1 db2 → db_le db2 db3 → db_le db1 db3.
Proof. intros H1 H2 h n Hh E. by apply H2, H1. Qed.

Lemma raw_ref_hashed top t : is_value t = false → top = true ∨ large t → raw_ref top t = rawHash (tree_hash t).
Proof.
  intros Hv Ht. unfold raw_ref, large in *. rewrite Hv. destruct top; [done|]. cbn [orb].
  destruct (Z.leb_spec 32 (len (rlp (tree_value t)))); [done|]. destruct Ht; [done|lia].
Qed.

Lemma raw_ref_small t : is_value t = false → ¬ large t → raw_ref false t = raw_of t.
Proof. intros Hv Ht. unfold raw_ref, large in *. rewrite Hv. cbn [orb]. by destruct (Z.leb_spec 32 (len (rlp (tree_value t)))). Qed.

(** The tree is stored if all below it is and it is, if it has a hash. *)
Definition stored_below (db : TrieDatabase) (t : tree) : Prop := below (in_db (db_node db)) t.

Lemma stored_all db top t : stored_below db t → (top = true ∨ large t → in_db (db_node db) t) → stored (db_node db) top t.
Proof. apply each_from_below. Qed.

Lemma stored_below_le db db' t : db_le db db' → stored_below db t → stored_below db' t.
Proof. intros Hle. apply below_impl. intros u. by apply in_db_le. Qed.

Lemma store_node top t n f d db0 db : cache n = (fl_hash f, d) → is_nil n = false → simplifyNode n = Ret (raw_of t) →
  is_value t = false → flag_ok (db_node db0) top f t → (top = true ∨ large t → fl_hash f ≠ None) → (top = true ∨ large t → is_named t) →
  consistent_db db → stored_below db t → ∀ count, 0 ≤ count →
  ∃ hd db', committer_store n db = Ret (hd, db') ∧
    committed top t db (match hd with hashNode _ => hd | _ => n end) (match hd with hashNode _ => count + 1 | _ => count end) db'.
Proof.
  intros Ec Hnil Hs Hv Hf Hkn Hnamed Hdb Hb count Hcount. unfold committer_store. rewrite Ec. cbn [fst].
  destruct (fl_hash f) as [h|] eqn:Eh.
  - destruct (fl_known _ _ _ _ Hf h Eh) as (-> & Hl & _). assert (top = true ∨ large t) as Ht by (destruct top; [by left|right; by apply Hl]).
    destruct (insert_named db _ t n Hnames Hdb (Hnamed Ht) Hs) as (db' & -> & Hdb' & Hle & Hin & _). cbn [mbind Go_bind].
    eexists _, db'. split; [done|]. split; try done; [cbn; by rewrite raw_ref_hashed|lia|].
    apply stored_all; [by eapply stored_below_le|done].
  - assert (¬ (top = true ∨ large t)) as Hn by (intros Ht; by apply (Hkn Ht)).
    destruct top; [by destruct Hn; left|]. assert (¬ large t) as Hl by (intros ?; by apply Hn; right).
    exists n, db. split; [done|]. split.
    + rewrite raw_ref_small by done. by destruct n.
    + done.
    + by destruct n.
    + destruct n; lia.
    + done.
    + apply db_le_refl.
    + apply stored_all; [done|]. intros Ht. by destruct Hn.
Qed.

Definition child_commits (db0 : TrieDatabase) (c : node) (o : option tree) : Prop :=
  match o with
  | None => c = nilNode
  | Some t => is_value t = false ∧ is_nil c = false ∧ commits db0 false c t
  end.

Lemma commit_child db0 c o db : child_commits db0 c o → db_le db0 db → consistent_db db →
  ∃ c' k db1, match c with nilNode => Ret (nilNode, 0, db) | hashNode h => Ret (hashNode h, 0, db) | _ => commit c db end = Ret (c', k, db1) ∧
    match c' with nilNode => Ret None | _ => Some <$> simplifyNode c' end = Ret (raw_slot o) ∧ 0 ≤ k ∧ consistent_db db1 ∧ db_le db db1 ∧
    (∀ t, o = Some t → stored (db_node db1) false t).
Proof.
  intros Hco Hle Hdb. destruct o as [t|]; cbn in Hco.
  - destruct Hco as (Hvt & Hnil & Hcm). destruct (Hcm db Hle Hdb) as (c' & k & db1 & E1 & [Hraw _ Hn' Hk Hdb1 Hle1 Hst]).
    exists c', k, db1. split; [rewrite <- E1; by destruct c|]. split.
    { assert (match c' with nilNode => Ret None | _ => Some <$> simplifyNode c' end = Some <$> simplifyNode c') as -> by by destruct c'.
      by rewrite Hraw, raw_ref_child. }
    split; [done|]. split; [done|]. split; [done|]. by intros ? [= <-].
  - subst c. exists nilNode, 0, db. split; [done|]. split; [done|]. split; [done|]. split; [done|]. split; [apply db_le_refl|done].
Qed.

(** The places after the first [i] hold values. *)
Lemma commit_children_commits db0 i cs ts :
  length cs = length ts → (∀ j c o, (j < i)%nat → cs !! j = Some c → ts !! j = Some o → child_commits db0 c o) →
  (∀ j c o, (i ≤ j)%nat → cs !! j = Some c → ts !! j = Some o → o = None ∧ c = nilNode ∨ ∃ v, o = Some (TValue v) ∧ c = valueNode v) →
  ∀ db, db_le db0 db → consistent_db db → ∃ cs' count db', commit_children commit i cs db = Ret (cs', count, db') ∧
    simplify_children simplifyNode cs' = Ret (map raw_slot ts) ∧ 0 ≤ count ∧ consistent_db db' ∧ db_le db db' ∧
    (∀ j t, ts !! j = Some (Some t) → stored (db_node db') false t).
Proof.
  revert i ts. induction cs as [|c cs IH]; intros i ts Hl Hc Hv db Hle Hdb; (destruct ts as [|o ts]); try done.
  - exists [], 0, db. split; [by destruct i|]. split; [done|]. split; [done|]. split; [done|]. split; [apply db_le_refl|done].
  - injection Hl as Hl. assert (∀ i', (∀ j c o, (j < i')%nat → cs !! j = Some c → ts !! j = Some o → child_commits db0 c o) →
      (∀ j c o, (i' ≤ j)%nat → cs !! j = Some c → ts !! j = Some o → o = None ∧ c = nilNode ∨ ∃ v, o = Some (TValue v) ∧ c = valueNode v) →
      ∀ db, db_le db0 db → consistent_db db → ∃ cs' count db', commit_children commit i' cs db = Ret (cs', count, db') ∧
      simplify_children simplifyNode cs' = Ret (map raw_slot ts) ∧ 0 ≤ count ∧ consistent_db db' ∧ db_le db db' ∧
      (∀ j t, ts !! j = Some (Some t) → stored (db_node db') false t)) as Hrest by (intros i'; by apply IH).
    destruct i as [|i].
    + destruct (Hrest 0%nat) with (db := db) as (cs' & count & db' & E & Es & Hco & Hdb' & Hle' & Hst); [lia| |done|done|].
      { intros j c' o' _ Ec Eo. apply (Hv (S j) c' o' ltac:(lia) Ec Eo). }
      assert (cs' = cs ∧ count = 0 ∧ db' = db) as (-> & -> & ->) by (destruct cs; cbn in E; by simplify_eq).
      exists (c :: cs), 0, db. split; [done|]. cbn [simplify_children map]. split.
      { destruct (Hv 0%nat c o ltac:(lia) eq_refl eq_refl) as [[-> ->]|(v & -> & ->)]; cbn [mbind Go_bind fmap]; cbn; by rewrite Es. }
      split; [done|]. split; [done|]. split; [done|]. intros [|j] t Ej; [|by eapply Hst]. injection Ej as ->.
      destruct (Hv 0%nat c (Some t) ltac:(lia) eq_refl eq_refl) as [[? _]|(v & [= ->] & _)]; [done|constructor].
    + destruct (commit_child db0 c o db (Hc 0%nat c o ltac:(lia) eq_refl eq_refl) Hle Hdb) as (c' & k & db1 & E1 & Es1 & Hk & Hdb1 & Hle1 & Hst1).
      destruct (Hrest i) with (db := db1) as (cs' & count & db' & E & Es & Hco & Hdb' & Hle' & Hst); [| |by eapply db_le_trans|done|].
      { intros j c2 o2 Hj Ec Eo. apply (Hc (S j) c2 o2 ltac:(lia) Ec Eo). }
      { intros j c2 o2 Hj Ec Eo. apply (Hv (S j) c2 o2 ltac:(lia) Ec Eo). }
      exists (c' :: cs'), (k + count), db'. split; [cbn [commit_children]; rewrite E1; cbn [mbind Go_bind]; by rewrite E|].
      split; [cbn [simplify_children map]; rewrite Es1; cbn [mbind Go_bind]; by rewrite Es|]. split; [lia|]. split; [done|].
      split; [by eapply db_le_trans|]. intros [|j] t Ej; [|by eapply Hst]. injection Ej as ->. eapply stored_le; [done|by apply Hst1].
Qed.
Lemma committed_from top t db1 db n count db' : db_le db db1 → committed top t db1 n count db' → committed top t db n count db'.
Proof. intros Hle [H1 H2 H3 H4 H5 H6 H7]. split; try done. by eapply db_le_trans. Qed.

(** A node that is clean is in the database already. *)
Lemma commit_clean db0 db top t h f : consistent_db db → db_le db0 db → fl_hash f = Some h → fl_dirty f = false → is_value t = false →
  flag_ok (db_node db0) top f t → committed top t db (hashNode h) 0 db.
Proof.
  intros Hdb Hle Eh Ed Hv Hf. destruct (fl_known _ _ _ _ Hf h Eh) as (-> & Hl & Hst). split; try done.
  - rewrite raw_ref_hashed; [done|done|]. destruct top; [by left|right; by apply Hl].
  - apply db_le_refl.
  - by eapply stored_le, Hst.
Qed.

Lemma clean_or_not (c : option bytes * bool) : (∃ h, c = (Some h, false)) ∨ ¬ ∃ h, c = (Some h, false).
Proof. destruct c as [[h|] [|]]; [right; by intros [? ?]|left; by exists h|right; by intros [? ?]..]. Qed.

Lemma commit_commits db0 top n t : rep (db_node db0) top n t →
  known top n t → place t → is_value t = false → each_hashed is_named top t → commits db0 top n t.
Proof.
  induction 1 as [top v|top k c t f Hr IH Hf Hkn|top cs ts f Hl H1 IH H2 Hf Hkn|top h t Eh Hlarge Hnv Hst]; intros Hk Hp Hv Hnm db Hle Hdb; [done|..].
  - destruct Hp as [Hc|]; [|done]. inversion Hk as [| |? ? ? ? ? Hkc Hkf|]; subst. inversion Hnm as [|? ? ? Hnc Hnt|]; subst.
    destruct (clean_or_not (cache (shortNode k c f))) as [(h & E)|Hd].
    { exists (hashNode h), 0, db. split; [cbn [commit]; by rewrite E|]. cbn in E. injection E as E1 E2. by eapply commit_clean. }
    assert (∃ v childCommitted db1, match c with fullNode _ _ => commit c db | _ => Ret (c, 0, db) end = Ret (v, childCommitted, db1) ∧
      committed false t db v childCommitted db1) as (v & cc & db1 & E1 & Hcm).
    { destruct (canon_short _ _ Hc) as [(w & -> & _)|(ts & -> & _ & _ & Hcf)].
      - inversion Hr; subst; [|done]. exists (valueNode w), 0, db. split; [done|]. split; try done; [apply db_le_refl|constructor].
      - destruct (IH Hkc ltac:(by left) eq_refl Hnc db Hle Hdb) as (v & cc & db1 & E1 & Hcm). exists v, cc, db1. split; [|done].
        inversion Hr; subst; [done|]. cbn in E1. by simplify_eq. }
    destruct Hcm as [Hraw _ _ Hcc Hdb1 Hle1 Hst1]. destruct (hexToCompact_compact k (canon_hex _ _ Hc)) as (Ek & _).
    destruct (store_node top (TShort k t) (shortNode (compact k) v f) f (fl_dirty f) db0 db1) with (count := cc) as (hd & db' & Es & Hcm);
      [done|done|cbn; by rewrite Hraw, raw_ref_child|done|done|done|done|done|done|done|].
    eexists _, _, db'. split; [|by eapply committed_from].
    cbn [commit]. destruct (cache (shortNode k c f)) as [[h|] [|]] eqn:Ecache; [..|by destruct Hd; exists h| |];
      rewrite E1; cbn [mbind Go_bind]; rewrite Ek; cbn [mbind Go_bind]; rewrite Es; cbn [mbind Go_bind]; by destruct hd.
  - destruct Hp as [Hc|]; [|done]. inversion Hk as [| | |? ? ? ? Hkc Hkf]; subst. inversion Hnm as [| |? ? Hnc Hnt]; subst.
    destruct (clean_or_not (cache (fullNode cs f))) as [(h & E)|Hd].
    { exists (hashNode h), 0, db. split; [cbn [commit]; by rewrite E|]. cbn in E. injection E as E1 E2. by eapply commit_clean. }
    inversion Hc as [| |? Hl17 Hcan Hval _]; subst.
    destruct (commit_children_commits db0 16 cs ts Hl) with (db := db) as (cs' & cc & db1 & E1 & Es1 & Hcc & Hdb1 & Hle1 & Hst1); [| |done|done|].
    { intros j c o Hj Ec Eo. destruct o as [t|]; [|by eapply H2]. pose proof (Hcan j t Hj Eo) as Hct.
      assert (is_value t = false) as Hvt by (destruct t; [by apply canon_no_value in Hct|done..]).
      split; [done|]. split; [by eapply rep_not_nil, H1|]. eapply IH; try done; [by eapply Hkc|by left|by eapply Hnc]. }
    { intros j c o Hj Ec Eo. apply lookup_lt_Some in Eo as Hlt. assert (j = 16%nat) as -> by lia. destruct o as [t|]; [|left; split; [done|by eapply H2]].
      destruct (Hval t Eo) as (v & -> & _). right. exists v. split; [done|]. pose proof (H1 _ _ _ Ec Eo) as Hrv. by inversion Hrv. }
    destruct (store_node top (TFull ts) (fullNode cs' f) f (fl_dirty f) db0 db1) with (count := cc) as (hd & db' & Es & Hcm);
      [done|done|cbn; by rewrite Es1|done|done|done|done|done|done|done|].
    eexists _, _, db'. split; [|by eapply committed_from].
    cbn [commit]. destruct (cache (fullNode cs f)) as [[h|] [|]] eqn:Ecache; [..|by destruct Hd; exists h| |];
      rewrite E1; cbn [mbind Go_bind]; rewrite Es; cbn [mbind Go_bind]; by destruct hd.
  - exists (hashNode h), 0, db. split; [done|]. subst h. split; try done.
    + rewrite raw_ref_hashed; [done|done|]. destruct top; [by left|right; by apply Hlarge].
    + apply db_le_refl.
    + by eapply stored_le.
Qed.
(** *** Writing to the disk *)

Definition queued (b : Batch) (t : tree) : Prop := (tree_hash t, Some (rlp (tree_value t))) ∈ bt_writes b.
Definition written (db : TrieDatabase) (b : Batch) (t : tree) : Prop := on_disk db t ∨ queued b t.
(** A node that is not only in the clean cache. *)
Definition kept (db : TrieDatabase) (t : tree) : Prop := is_Some (dirties db !! BytesToHash (tree_hash t)) ∨ on_disk db t.

(** The batch holds named nodes, with all below them in it or on the disk. *)
Record flushing (db : TrieDatabase) (b : Batch) : Prop := {
  fs_consistent : consistent_db db;
  fs_batch kv : kv ∈ bt_writes b → ∃ t, is_named t ∧ kv = (tree_hash t, Some (rlp (tree_value t))) ∧ kept db t ∧ each_hashed (written db b) true t
}.

(** What a step of the commit keeps. *)
Record advances (db : TrieDatabase) (b : Batch) (db' : TrieDatabase) (b' : Batch) : Prop := {
  gr_node h : is_hash h → db_node db' h = db_node db h;
  gr_written t : written db b t → written db' b' t;
  gr_kept t : is_named t → kept db t → kept db' t
}.

Lemma advances_refl db b : advances db b db b.
Proof. by split. Qed.
Lemma advances_trans db1 b1 db2 b2 db3 b3 : advances db1 b1 db2 b2 → advances db2 b2 db3 b3 → advances db1 b1 db3 b3.
Proof.
  intros [N1 W1 K1] [N2 W2 K2]. split; [|auto..]. intros h Hh. by rewrite N2, N1.
Qed.

Lemma named_unique t u : is_named t → is_named u → tree_hash t = tree_hash u → t = u.
Proof. unfold is_named. intros Ht Hu E. rewrite E in Ht. congruence. Qed.

(** The blob of a name. *)
Definition blob (key : bytes) : bytes := match named (BytesToHash key) with Some t => rlp (tree_value t) | None => [] end.

Lemma blob_named t : is_named t → blob (tree_hash t) = rlp (tree_value t).
Proof. intros E. unfold blob. by rewrite E. Qed.

Lemma write_lookup (ws : list (bytes * option bytes)) (db : KeyValueStore) (k : bytes) : Forall (λ kv, kv.2 = Some (blob kv.1)) ws →
  foldl write_key db ws !! k = if decide (k ∈ ws.*1) then Some (blob k) else db !! k.
Proof.
  intros Hws. revert db. induction Hws as [|[key v] ws Hv _ IH]; intros db; [done|]. cbn in Hv. subst v. cbn [foldl fmap list_fmap].
  change (write_key db (key, Some (blob key))) with (<[key := blob key]> db). rewrite IH. destruct (decide (k ∈ ws.*1)) as [Hin|Hin].
  - rewrite decide_True; [done|by constructor].
  - destruct (decide (k = key)) as [->|Hne].
    + rewrite decide_True by constructor. by rewrite lookup_insert_eq.
    + rewrite decide_False; [by rewrite lookup_insert_ne|]. by intros [|]%elem_of_cons.
Qed.

(** What replaying a batch on the cleaner leaves. *)
Record cleaned (ws : list (bytes * option bytes)) (db db' : TrieDatabase) : Prop := {
  cl_disk : diskdb db' = diskdb db;
  cl_dirty h : dirties db' !! h = if decide (h ∈ BytesToHash ∘ fst <$> ws) then None else dirties db !! h;
  cl_other h : h ∉ BytesToHash ∘ fst <$> ws → (c ← cleans db'; c !! h) = (c ← cleans db; c !! h);
  cl_clean h enc : (c ← cleans db'; c !! h) = Some enc →
    (c ← cleans db; c !! h) = Some enc ∨ ∃ key, key ∈ ws.*1 ∧ BytesToHash key = h ∧ enc = blob key
}.

Lemma cleaner_Put_clean db key v : cleaned [(key, v)] db (cleaner_Put db key (blob key)).
Proof.
  unfold cleaner_Put. destruct (dirties db !! BytesToHash key) as [r|] eqn:E; split; cbn.
  - done.
  - intros h. destruct (decide (h = BytesToHash key)) as [->|Hne].
    + rewrite decide_True by constructor. by rewrite lookup_delete_eq.
    + rewrite decide_False by (by intros [->|?%elem_of_nil]%elem_of_cons). by rewrite lookup_delete_ne.
  - intros h Hh. destruct (cleans db) as [c|]; [|done]. cbn. rewrite lookup_insert_ne; [done|]. intros <-. apply Hh. constructor.
  - intros h enc. destruct (cleans db) as [c|]; [|done]. cbn. intros [[<- <-]|[_ Ec]]%lookup_insert_Some; [|by left].
    right. exists key. split; [constructor|done].
  - done.
  - intros h. case_decide as Hh; [|done]. by apply elem_of_cons in Hh as [->|?%elem_of_nil].
  - done.
  - intros h enc Ec. by left.
Qed.

Lemma cleaned_app ws1 ws2 db1 db2 db3 : cleaned ws1 db1 db2 → cleaned ws2 db2 db3 → cleaned (ws1 ++ ws2) db1 db3.
Proof.
  intros [D1 R1 O1 C1] [D2 R2 O2 C2]. split.
  - congruence.
  - intros h. rewrite fmap_app, R2, R1. destruct (decide (h ∈ BytesToHash ∘ fst <$> ws2)), (decide (h ∈ BytesToHash ∘ fst <$> ws1));
      [rewrite decide_True by set_solver..|rewrite decide_False by set_solver]; done.
  - intros h. rewrite fmap_app. intros Hh. rewrite O2, O1 by set_solver. done.
  - intros h enc Ec. apply C2 in Ec as [Ec|(key & Hk & E)]; [apply C1 in Ec as [Ec|(key & Hk & E)]; [by left|]|];
      right; exists key; (split; [rewrite fmap_app; set_solver|done]).
Qed.

Lemma replay_cleaned ws sz db : Forall (λ kv, kv.2 = Some (blob kv.1)) ws →
  ∃ db', Batch_Replay cleaner_Put cleaner_Delete (mkBatch ws sz) db = Ret db' ∧ cleaned ws db db'.
Proof.
  unfold Batch_Replay. cbn [bt_writes]. intros Hws. revert db. induction Hws as [|[key v] ws Hv _ IH]; intros db.
  - exists db. split; [done|]. split; [done|intros h; by rewrite decide_False by apply not_elem_of_nil|done|by left].
  - cbn in Hv. subst v. cbn [go_foldl snd fst]. destruct (IH (cleaner_Put db key (blob key))) as (db' & E & Hc).
    exists db'. split; [exact E|]. apply (cleaned_app [_] ws _ (cleaner_Put db key (blob key))); [apply cleaner_Put_clean|done].
Qed.
Lemma batch_blobs db b : flushing db b → Forall (λ kv, kv.2 = Some (blob kv.1)) (bt_writes b).
Proof.
  intros Hf. apply Forall_forall. intros kv Hin. destruct (fs_batch _ _ Hf kv Hin) as (t & Ht & -> & _). cbn. by rewrite blob_named.
Qed.

Lemma batch_key db b k : flushing db b → k ∈ (bt_writes b).*1 → ∃ t, is_named t ∧ k = tree_hash t ∧ queued b t ∧ kept db t ∧ each_hashed (written db b) true t.
Proof.
  intros Hf Hk. apply list_elem_of_fmap in Hk as (kv & -> & Hin). destruct (fs_batch _ _ Hf kv Hin) as (t & Ht & E & Hk & Hb).
  exists t. split; [done|]. split; [by rewrite E|]. split; [unfold queued; by rewrite <- E|done].
Qed.

Lemma queued_key b t : queued b t → tree_hash t ∈ (bt_writes b).*1.
Proof. intros Hq. apply list_elem_of_fmap. by exists (tree_hash t, Some (rlp (tree_value t))). Qed.

(** The batch goes to the disk and leaves the memory. *)
Lemma write_batch_flushes db b : flushing db b →
  ∃ db', write_batch db b = Ret db' ∧ flushing db' NewBatch ∧ advances db b db' NewBatch ∧ (∀ t, written db b t → on_disk db' t).
Proof.
  intros Hf. pose proof (batch_blobs _ _ Hf) as Hb. pose proof (fs_consistent _ _ Hf) as Hdb. unfold write_batch.
  destruct (replay_cleaned (bt_writes b) (bt_size b) (mkTrieDb (cleans db) (dirties db) (Batch_Write b (diskdb db))) Hb) as (db' & E & [Cd Cr Co Cc]).
  assert (b = mkBatch (bt_writes b) (bt_size b)) as Eb by by destruct b. rewrite <- Eb in E. cbn [diskdb dirties cleans] in *.
  assert (∀ k, diskdb db' !! k = if decide (k ∈ (bt_writes b).*1) then Some (blob k) else diskdb db !! k) as Hdisk.
  { intros k. rewrite Cd. by apply write_lookup. }
  assert (∀ t, is_named t → is_hash (BytesToHash (tree_hash t)) ∧ Hash_Bytes (BytesToHash (tree_hash t)) = tree_hash t) as Hround.
  { intros t _. apply tree_hash_round. }
  assert (∀ t, on_disk db t → on_disk db' t) as Hmono.
  { intros t Ht. unfold on_disk in *. rewrite Hdisk. case_decide as Hk; [|done].
    destruct (batch_key _ _ _ Hf Hk) as (u & Hu & Eu & _). rewrite Eu, blob_named by done.
    destruct (db_disk _ Hdb (BytesToHash (tree_hash u)) (rlp (tree_value t)) u) as [Ev _]; [|done|by rewrite Ev].
    rewrite (proj2 (Hround u Hu)). by rewrite <- Eu. }
  assert (∀ t, written db b t → on_disk db' t) as Hw.
  { intros t [Ht|Hq]; [by apply Hmono|]. unfold on_disk. rewrite Hdisk. rewrite decide_True by by apply queued_key.
    destruct (fs_batch _ _ Hf _ Hq) as (u & Hu & [= Eu Ev] & _). rewrite Eu, blob_named by done. by rewrite Ev. }
  assert (consistent_db db') as Hdb'.
  { split.
    - intros c h enc Ec Eh. destruct (Cc h enc) as [Ec'|(key & Hk & <- & ->)]; [by rewrite Ec| |].
      + destruct (cleans db) as [c0|] eqn:Ec0; [|done]. cbn in Ec'. pose proof (db_clean _ Hdb c0 h enc Ec0 Ec') as Ed.
        rewrite Hdisk. case_decide as Hk; [|done]. destruct (batch_key _ _ _ Hf Hk) as (u & Hu & Eu & _). rewrite Eu, blob_named by done.
        destruct (db_disk _ Hdb (BytesToHash (tree_hash u)) enc u) as [Ev _]; [|done|by rewrite Ev].
        rewrite (proj2 (Hround u Hu)). by rewrite <- Eu.
      + destruct (batch_key _ _ _ Hf Hk) as (u & Hu & -> & _). rewrite (proj2 (Hround u Hu)), Hdisk. by rewrite decide_True.
    - intros h r. rewrite Cr. case_decide; [done|]. apply Hdb.
    - intros h enc t. rewrite Hdisk. case_decide as Hk.
      + intros [= <-] Et. destruct (batch_key _ _ _ Hf Hk) as (u & Hu & Eu & _ & _ & Hbel).
        destruct (named_hash h t Hnames Et) as [_ Eh]. assert (t = u) as ->.
        { apply named_unique; [unfold is_named; by rewrite (nm_hash Hnames h t Et)|done|congruence]. }
        rewrite Eu, blob_named by done. split; [done|]. by eapply each_hashed_impl, Hbel.
      + intros Ed Et. destruct (db_disk _ Hdb h enc t Ed Et) as [-> Hbel]. split; [done|]. by eapply each_hashed_impl, Hbel. }
  exists db'. split; [exact E|]. split; [split; [done|]; by intros kv ?%elem_of_nil|]. split; [|done]. split.
  - intros h Hh. destruct (decide (h ∈ BytesToHash ∘ fst <$> bt_writes b)) as [Hin|Hin].
    + apply list_elem_of_fmap in Hin as (kv & -> & Hin). destruct (fs_batch _ _ Hf kv Hin) as (t & Ht & -> & Hk & _). cbn [compose fst].
      assert (on_disk db' t) as Hod by (apply Hw; by right).
      destruct (named_node db' _ t Hnames Hdb' Ht) as [(_ & _ & E2)| ->].
      { rewrite (proj2 (Hround t Ht)) in E2. unfold on_disk in Hod. congruence. }
      destruct (named_node db _ t Hnames Hdb Ht) as [(_ & E2 & E3)| ->]; [|done]. destruct Hk as [[r Er]|Hod']; [congruence|].
      rewrite (proj2 (Hround t Ht)) in E3. unfold on_disk in Hod'. congruence.
    + unfold db_node. rewrite (Co h Hin), Cr, decide_False by done. rewrite Hdisk, decide_False; [done|].
      intros Hk. apply Hin. apply list_elem_of_fmap in Hk as (kv & Ek & Hkv). apply list_elem_of_fmap. exists kv. split; [|done].
      cbn. rewrite <- Ek. symmetry. by apply BytesToHash_Bytes.
  - intros t Ht. left. by apply Hw.
  - intros t Ht [Hd|Hod]; [|right; by apply Hmono]. unfold kept. rewrite Cr. case_decide as Hin; [|by left]. right.
    apply list_elem_of_fmap in Hin as (kv & Ek & Hkv). destruct (fs_batch _ _ Hf kv Hkv) as (u & Hu & -> & _). cbn in Ek.
    apply Hw. right. assert (t = u) as ->; [|done]. unfold is_named in *. congruence.
Qed.
(** A list of hashes is visited: if what has hashes in some part of a tree is named
    and kept, it is written afterwards. *)
Definition visits (fuel : nat) (l : list Hash) (part : (tree → Prop) → Prop) : Prop :=
  ∀ db b, flushing db b → part (λ u, is_named u ∧ kept db u) →
    ∃ db' b', res_foldl (λ '(db, b) child, commit_hash fuel child db b) (db, b) l = Done (db', b') ∧
      flushing db' b' ∧ advances db b db' b' ∧ part (written db' b').

Definition monotone (part : (tree → Prop) → Prop) : Prop := ∀ P Q : tree → Prop, (∀ u, P u → Q u) → part P → part Q.

Lemma visits_nil fuel (part : (tree → Prop) → Prop) : (∀ P, part P) → visits fuel [] part.
Proof. intros Hp db b Hf _. exists db, b. split; [done|]. split; [done|]. split; [apply advances_refl|apply Hp]. Qed.

Lemma res_foldl_app {A B : Type} (body : B → A → Res B) b l1 l2 :
  res_foldl body b (l1 ++ l2) = (b ← res_foldl body b l1; res_foldl body b l2).
Proof.
  revert b. induction l1 as [|a l1 IH]; intros b; [done|]. cbn [app res_foldl]. destruct (body b a) as [b'| |]; [apply IH|done..].
Qed.

Lemma visits_app fuel l1 l2 part1 part2 : monotone part1 → monotone part2 → visits fuel l1 part1 → visits fuel l2 part2 →
  visits fuel (l1 ++ l2) (λ P, part1 P ∧ part2 P).
Proof.
  intros M1 M2 V1 V2 db b Hf [P1 P2]. destruct (V1 db b Hf P1) as (db1 & b1 & E1 & Hf1 & G1 & W1).
  destruct (V2 db1 b1 Hf1) as (db2 & b2 & E2 & Hf2 & G2 & W2).
  { eapply M2, P2. intros u [Hu Hk]. split; [done|by apply G1]. }
  exists db2, b2. split; [rewrite res_foldl_app, E1; exact E2|]. split; [done|]. split; [by eapply advances_trans|].
  split; [|done]. eapply M1, W1. intros u. apply G2.
Qed.

Lemma visits_part fuel l (part part' : (tree → Prop) → Prop) :
  (∀ P, part' P → part P) → (∀ P, part P → part' P) → visits fuel l part → visits fuel l part'.
Proof.
  intros H1 H2 V db b Hf HP. destruct (V db b Hf (H1 _ HP)) as (db' & b' & E & Hf' & G & W). exists db', b'.
  split; [done|]. split; [done|]. split; [done|by apply H2].
Qed.

Lemma written_closed db b t : flushing db b → is_named t → written db b t → each_hashed (written db b) true t.
Proof.
  intros Hf Ht [Hd|Hq].
  - eapply each_hashed_impl; [|eapply (db_disk db); [apply Hf| |exact Ht]]; [intros u Hu; by left|].
    rewrite (proj2 (tree_hash_round t)). exact Hd.
  - destruct (fs_batch _ _ Hf _ Hq) as (u & Hu & [= Eu _] & _ & Hb). by rewrite (named_unique t u Ht Hu Eu).
Qed.

(** A named tree below which everything is visited. *)
Lemma commit_hash_named fuel t : is_named t → visits fuel (forGatherChildren (raw_of t)) (λ P, below P t) →
  ∀ db b, flushing db b → kept db t → below (λ u, is_named u ∧ kept db u) t →
  ∃ db' b', commit_hash (S fuel) (BytesToHash (tree_hash t)) db b = Done (db', b') ∧ flushing db' b' ∧ advances db b db' b' ∧ written db' b' t.
Proof.
  intros Ht V db b Hf Hk Hb. cbn [commit_hash]. destruct (dirties db !! BytesToHash (tree_hash t)) as [r|] eqn:Er.
  2: { exists db, b. split; [done|]. split; [done|]. split; [apply advances_refl|]. left. destruct Hk as [[r Er']|]; [congruence|done]. }
  destruct (db_dirty _ (fs_consistent _ _ Hf) _ r Er) as (t' & Et' & ->). assert (t' = t) as -> by (unfold is_named in Ht; congruence).
  destruct (V db b Hf Hb) as (db1 & b1 & E & Hf1 & G1 & W1). rewrite E. cbn [mbind Res_bind].
  destruct (nm_canon Hnames _ _ Ht) as [Hc Hs]. assert (cachedNode_rlp (raw_of t) = Ret (rlp (tree_value t))) as ->.
  { unfold cachedNode_rlp. rewrite raw_encodes. by rewrite encodable_encodes by by apply tree_encodable. }
  cbn [of_go mbind Res_bind]. rewrite (proj2 (tree_hash_round t)). set (b2 := Batch_Put b1 _ _).
  assert (queued b2 t) as Hq by (unfold queued, b2; cbn; apply elem_of_app; right; constructor).
  assert (∀ u, written db1 b1 u → written db1 b2 u) as Hw.
  { intros u [|Hu]; [by left|right]. unfold queued, b2; cbn. apply elem_of_app. by left. }
  assert (flushing db1 b2) as Hf2.
  { split; [apply Hf1|]. intros kv [Hin|Hin]%elem_of_app.
    - destruct (fs_batch _ _ Hf1 kv Hin) as (u & Hu & -> & Hku & Hbu). exists u. split; [done|]. split; [done|]. split; [done|].
      by eapply each_hashed_impl, Hbu.
    - apply elem_of_cons in Hin as [->|?%elem_of_nil]; [|done]. exists t. split; [done|]. split; [done|]. split; [by apply G1|].
      apply each_from_below; [by eapply below_impl, W1|]. intros _. by right. }
  assert (advances db1 b1 db1 b2) as G2 by by split.
  destruct (IdealBatchSize <=? bt_size b2).
  - destruct (write_batch_flushes db1 b2 Hf2) as (db3 & -> & Hf3 & G3 & Hod). cbn [of_go mbind Res_bind]. exists db3, NewBatch.
    split; [done|]. split; [done|]. split; [by eapply advances_trans, advances_trans|]. left. apply Hod. by right.
  - exists db1, b2. split; [done|]. split; [done|]. split; [by eapply advances_trans|]. by right.
Qed.
Definition enough (V : nat → Prop) : Prop := ∃ least, ∀ fuel, (least ≤ fuel)%nat → V fuel.

Lemma each_top_inner (P : tree → Prop) t : each_hashed P true t → each_hashed P false t.
Proof. intros [Hb HP]%each_below. destruct t; [constructor|..]; (apply each_from_below; [done|]; intros _; apply HP; [done|by left]). Qed.

Lemma visits_child u : enough (λ fuel, visits fuel (forGatherChildren (raw_of u)) (λ P, below P u)) →
  enough (λ fuel, visits fuel (forGatherChildren (raw_child u (raw_of u))) (λ P, each_hashed P false u)).
Proof.
  intros [least V]. unfold raw_child. destruct (is_value u) eqn:Hv.
  { exists O. intros fuel _. destruct u; [|done..]. apply visits_nil. intros P. constructor. }
  destruct (Z.leb_spec 32 (len (rlp (tree_value u)))) as [Hl|Hl].
  - exists (S least). intros [|fuel] Hfuel db b Hf Hp; [lia|]. apply each_below in Hp as [Hb Hu]. destruct (Hu Hv) as [Hn Hk]; [by right|].
    destruct (commit_hash_named fuel u Hn) with (db := db) (b := b) as (db' & b' & E & Hf' & G & W); [apply V; lia|done..|].
    exists db', b'. cbn [forGatherChildren res_foldl]. rewrite E. split; [done|]. split; [done|]. split; [done|].
    apply each_top_inner. by apply written_closed.
  - exists least. intros fuel Hfuel. eapply visits_part; [| |by apply V]; [by intros P [? _]%each_below|].
    intros P HP. apply each_from_below; [done|]. unfold large. intros [|]; [done|lia].
Qed.

(** The children of a full node in order. *)
Lemma visits_slots os :
  (∀ u, Some u ∈ os → enough (λ fuel, visits fuel (forGatherChildren (raw_child u (raw_of u))) (λ P, each_hashed P false u))) →
  enough (λ fuel, visits fuel (concat (map (λ o, match raw_slot o with Some r => forGatherChildren r | None => [] end) os))
    (λ P, ∀ u, Some u ∈ os → each_hashed P false u)).
Proof.
  induction os as [|o os IH]; intros Ho.
  - exists O. intros fuel _. apply visits_nil. by intros P u ?%elem_of_nil.
  - destruct IH as [f1 V1]; [intros u Hu; apply Ho; by right|].
    assert (enough (λ fuel, visits fuel (match raw_slot o with Some r => forGatherChildren r | None => [] end)
      (λ P, ∀ u, o = Some u → each_hashed P false u))) as [f2 V2].
    { destruct o as [u|]; cbn [raw_slot]; [|exists O; intros fuel _; by apply visits_nil].
      destruct (Ho u ltac:(by left)) as [f2 V2]. exists f2. intros fuel Hfuel. eapply visits_part; [| |by apply V2].
      - intros P HP. by apply HP.
      - by intros P HP ? [= <-]. }
    exists (max f1 f2). intros fuel Hfuel. cbn [map concat]. eapply visits_part; [| |apply visits_app; [| |apply V2; lia|apply V1; lia]].
    + intros P HP. split; [intros u ->; apply HP; by left|intros u Hu; apply HP; by right].
    + intros P [H1 H2] u [<-|Hu]%elem_of_cons; [by apply H1|by apply H2].
    + intros P Q HPQ HP u Eu. by eapply each_hashed_impl, HP.
    + intros P Q HPQ HP u Eu. by eapply each_hashed_impl, HP.
Qed.

Lemma visits_below t : place t → enough (λ fuel, visits fuel (forGatherChildren (raw_of t)) (λ P, below P t)).
Proof.
  revert t. apply place_ind.
  - intros v. exists O. intros fuel _. by apply visits_nil.
  - intros k u _ _ V. by apply visits_child in V.
  - intros ts Hc IH. inversion Hc as [| |? Hlen _ Hval _]; subst.
    destruct (visits_slots (take 16 ts)) as [least V].
    { intros u [i Ei]%list_elem_of_lookup. apply lookup_take_Some in Ei as [Ei _]. apply visits_child. by eapply IH. }
    exists least. intros fuel Hfuel.
    assert (forGatherChildren (raw_of (TFull ts)) = concat (map (λ o, match raw_slot o with Some r => forGatherChildren r | None => [] end) (take 16 ts))) as ->.
    { cbn [raw_of forGatherChildren]. rewrite map_map. by rewrite firstn_map. }
    eapply visits_part; [| |by apply V].
    + intros P HP u [i Ei]%list_elem_of_lookup. apply lookup_take_Some in Ei as [Ei _]. by eapply HP.
    + intros P HP i u Ei. destruct (decide (i < 16)%nat) as [Hi|Hi].
      * apply HP, list_elem_of_lookup. exists i. by apply lookup_take_Some.
      * apply lookup_lt_Some in Ei as Hlt. assert (i = 16%nat) as -> by lia. destruct (Hval u Ei) as (v & -> & _). constructor.
Qed.
(** *** From the root *)

Lemma in_db_kept db t : consistent_db db → is_named t → in_db (db_node db) t → kept db t.
Proof.
  intros Hdb Ht Hin. unfold kept, on_disk. destruct (dirties db !! BytesToHash (tree_hash t)) as [r|] eqn:Er; [by left; exists r|]. right.
  pose proof (proj2 (tree_hash_round t)) as Eh. destruct (diskdb db !! tree_hash t) as [enc|] eqn:Ed.
  - destruct (db_disk _ Hdb (BytesToHash (tree_hash t)) enc t) as [-> _]; [by rewrite Eh|done..].
  - unfold in_db, db_node in Hin. rewrite Er, Eh, Ed in Hin. destruct (cleans db) as [c|] eqn:Ec; cbn in Hin; [|done].
    destruct (c !! BytesToHash (tree_hash t)) as [enc|] eqn:Eenc; [|done]. pose proof (db_clean _ Hdb c _ enc Ec Eenc) as E. rewrite Eh in E. congruence.
Qed.

Lemma each_and (P Q : tree → Prop) top t : each_hashed P top t → each_hashed Q top t → each_hashed (λ u, P u ∧ Q u) top t.
Proof.
  induction 1 as [top v|top k t _ IH HP|top ts _ IH HP]; intros HQ; [constructor|inversion HQ; subst; constructor; eauto..].
Qed.

Lemma Database_Commit_tree db t : consistent_db db → is_named t → stored (db_node db) true t →
  enough (λ fuel, ∃ db', Database_Commit fuel db (BytesToHash (tree_hash t)) = Done db' ∧ consistent_db db' ∧
    (∀ h, is_hash h → db_node db' h = db_node db h) ∧ each_hashed (on_disk db') true t).
Proof.
  intros Hdb Ht Hst. destruct (nm_canon Hnames _ _ Ht) as [Hc _]. destruct (visits_below t) as [least V]; [by left|].
  exists (S least). intros [|fuel] Hfuel; [lia|]. unfold Database_Commit.
  assert (flushing db NewBatch) as Hf by (split; [done|]; by intros kv ?%elem_of_nil).
  assert (each_hashed (λ u, is_named u ∧ kept db u) true t) as Hk.
  { eapply each_hashed_impl; [|apply (each_and _ _ _ _ (nm_below Hnames _ _ Ht) Hst)]. intros u [Hu Hin]. split; [done|by apply in_db_kept]. }
  apply each_below in Hk as [Hb Hk]. assert (is_value t = false) as Hv by (destruct t; [by apply canon_no_value in Hc|done..]).
  destruct (commit_hash_named fuel t Ht) with (db := db) (b := NewBatch) as (db1 & b1 & -> & Hf1 & G1 & W1); [apply V; lia|done| |done|].
  { apply Hk; [done|by left]. }
  cbn [mbind Res_bind]. destruct (write_batch_flushes db1 b1 Hf1) as (db2 & -> & Hf2 & G2 & Hod). exists db2. split; [done|].
  split; [apply Hf2|]. split; [intros h Hh; by rewrite (gr_node _ _ _ _ G2), (gr_node _ _ _ _ G1)|].
  eapply each_hashed_impl; [exact Hod|]. by apply written_closed.
Qed.

Lemma Database_Commit_empty fuel db : consistent_db db → Database_Commit (S fuel) db emptyRoot = Done db.
Proof.
  intros Hdb. unfold Database_Commit. cbn [commit_hash]. destruct (dirties db !! emptyRoot) as [r|] eqn:Er.
  - destruct (db_dirty _ Hdb _ r Er) as (t & Et & _). by destruct (nm_free Hnames _ _ Et).
  - cbn [mbind Res_bind]. by destruct db.
Qed.

(** The disk alone is a database. *)
Lemma disk_consistent_db db : consistent_db db → consistent_db (NewDatabase (diskdb db)).
Proof. intros Hdb. split; [done|intros h r Er; cbn in Er; by rewrite lookup_empty in Er|apply Hdb]. Qed.

Lemma disk_stored db t : consistent_db db → is_named t → each_hashed (on_disk db) true t → stored (db_node (NewDatabase (diskdb db))) true t.
Proof.
  intros Hdb Ht Hod. eapply each_hashed_impl; [|apply (each_and _ _ _ _ (nm_below Hnames _ _ Ht) Hod)]. intros u [Hu Hd].
  destruct (named_node _ _ u Hnames (disk_consistent_db db Hdb) Hu) as [(_ & _ & E)|E]; [|exact E].
  rewrite (proj2 (tree_hash_round u)) in E. cbn in E. unfold on_disk in Hd. congruence.
Qed.

Lemma New_tree db t : is_named t → stored (db_node db) true t →
  ∃ n, New (db_node db) (BytesToHash (tree_hash t)) = try_ret (mkTrie n 0) ∧ rep (db_node db) true n t.
Proof.
  intros Ht Hst. destruct (nm_free Hnames _ _ Ht) as [Hz He]. destruct (nm_canon Hnames _ _ Ht) as [Hc _].
  unfold New, resolveHash. rewrite (proj2 (Z.eqb_neq _ _) Hz), (proj2 (Z.eqb_neq _ _) He). cbn [orb].
  rewrite (proj2 (tree_hash_round t)). assert (in_db (db_node db) t) as Hin.
  { apply each_below in Hst as [_ Hin]. apply Hin; [|by left]. destruct t; [by apply canon_no_value in Hc|done..]. }
  rewrite Hin. cbn [try_bind]. eexists. split; [done|]. apply stored_rep; [done|]. by left.
Qed.
End database.

(** * Tries and their databases *)

Section maps.
Context `{KeccakLaws}.

(** The trie represents the map with a tree that has its name. *)
Definition represents_named (named : Hash → option tree) (db : TrieDatabase) (t : Trie) (m : gmap bytes bytes) : Prop :=
  map_ok m ∧ ∃ o, slot (db_node db) true (root t) o ∧ holds_map o m ∧ match o with Some tr => is_named named tr | None => True end.

Lemma represents_le db db' t m : db_le db db' → represents (db_node db) t m → represents (db_node db') t m.
Proof. intros Hle (Hm & o & Hs & Ho). split; [done|]. exists o. split; [by eapply slot_le|done]. Qed.

Lemma Commit_tree named db t tr : naming named → consistent_db named db → rep (db_node db) true (root t) tr → is_named named tr →
  ∃ count t' db', Trie_Commit t db = Ret (BytesToHash (tree_hash tr), count, t', db') ∧ 0 ≤ count ∧ consistent_db named db' ∧ db_le db db' ∧
    stored (db_node db') true tr ∧ rep (db_node db') true (root t') tr.
Proof.
  intros Hn Hdb Hr Ht. destruct (nm_canon _ Hn _ _ Ht) as [Hc Hs]. assert (is_value tr = false) as Hv by (destruct tr; [by apply canon_no_value in Hc|done..]).
  destruct (Hash_tree _ t tr Hr Hc Hs) as (cached & E & Hr' & Hk). unfold Trie_Commit.
  assert (∀ A (x y : A), match root t with nilNode => x | _ => y end = y) as Hroot by (destruct (root t); [by apply rep_not_nil in Hr|done..]).
  rewrite Hroot, E. clear Hroot. cbn [mbind Go_bind root].
  destruct (snd (cache cached)) eqn:Ed; cbn [negb].
  - destruct (commit_commits named Hn db true cached tr) with (db := db) as (n' & count & db' & -> & [Hraw Hroot _ Hco Hdb' Hle Hst]);
      [done|done|by left|done|by apply (nm_below _ Hn _ _ Ht)|apply db_le_refl|done|]. cbn [mbind Go_bind]. rewrite Hroot by done.
    eexists _, _, db'. split; [done|]. split; [done|]. split; [done|]. split; [done|]. split; [done|]. by constructor.
  - eexists _, _, db. split; [done|]. split; [done|]. split; [done|]. split; [apply db_le_refl|]. split; [|done].
    inversion Hk as [| |? k c u f _ Hf|? cs ts f _ Hf]; subst; try done; cbn in Ed.
    + inversion Hr' as [|? ? ? ? ? _ Hfo _| |]; subst. destruct (fl_hash f) as [h|] eqn:Eh; [|by destruct Hf; [left|]].
      by apply (fl_known _ _ _ _ Hfo h Eh).
    + inversion Hr' as [| |? ? ? ? _ _ _ Hfo _|]; subst. destruct (fl_hash f) as [h|] eqn:Eh; [|by destruct Hf; [left|]].
      by apply (fl_known _ _ _ _ Hfo h Eh).
Qed.
End maps.

(** * Proofs of values *)

Section proofs.
Context `{KeccakLaws}.

(** The trees with hashes on the path to a key. *)
Inductive on_path (P : tree → Prop) : bool → tree → bytes → Prop :=
| path_value top v k : on_path P top (TValue v) k
| path_miss top p t k : ¬ p `prefix_of` k → (top = true ∨ large (TShort p t) → P (TShort p t)) → on_path P top (TShort p t) k
| path_hit top p t k : on_path P false t k → (top = true ∨ large (TShort p t) → P (TShort p t)) → on_path P top (TShort p t) (p ++ k)
| path_full top ts i k :
    (∀ t, ts !! Z.to_nat i = Some (Some t) → on_path P false t k) → (top = true ∨ large (TFull ts) → P (TFull ts)) →
    on_path P top (TFull ts) (i :: k).

Lemma path_short P top p t k : on_path P top (TShort p t) (p ++ k) → on_path P false t k.
Proof.
  inversion 1 as [|? ? ? ? Hn _|? ? ? k' Hp _ E1 E2|]; subst; [destruct Hn; by eexists|].
  match goal with E : p ++ _ = p ++ k |- _ => by apply app_inv_head in E as -> end.
Qed.

Lemma path_child P top ts i k t : on_path P top (TFull ts) (i :: k) → ts !! Z.to_nat i = Some (Some t) → on_path P false t k.
Proof. inversion 1; subst. auto. Qed.

Lemma path_top P t k : large t → on_path P false t k → on_path P true t k.
Proof.
  intros Hl. inversion 1; subst; [apply path_value|apply path_miss; auto|apply path_hit; auto|apply path_full; auto].
Qed.

Lemma prefix_check (k key : bytes) :
  (len key <? len k) || negb (bool_decide (k = take (length k) key)) = negb (bool_decide (k `prefix_of` key)).
Proof.
  destruct (decide (k `prefix_of` key)) as [[r ->]|Hn].
  - rewrite (bool_decide_eq_true_2 (k `prefix_of` _)) by by exists r. rewrite take_app_length, bool_decide_eq_true_2 by done.
    rewrite len_app. pose proof (len_0 r). by destruct (Z.ltb_spec (len k + len r) (len k)); [lia|].
  - rewrite (bool_decide_eq_false_2 (k `prefix_of` _)) by done. apply orb_true_iff.
    destruct (decide (k = take (length k) key)) as [E|E]; [|right; by rewrite bool_decide_eq_false_2].
    destruct Hn. rewrite E. exists (drop (length k) key). by rewrite take_drop.
Qed.

Lemma get_children cs f i key : get (fullNode cs f) (i :: key) true = match cs !! Z.to_nat i with Some c => get c key true | None => Panic IndexOutOfRange end.
Proof. cbn [get]. generalize (Z.to_nat i) as j. induction cs as [|c cs IH]; intros [|j]; done || apply IH. Qed.

(** What [get] finds in the node of a tree: the end of the path, or the hash of a
    tree further down. *)
Definition found (t : tree) (key : bytes) (rest : bytes) (cld : node) : Prop :=
  cld = nilNode ∧ content t key = None ∨
  (∃ v, cld = valueNode v ∧ content t key = Some v) ∨
  ∃ u, cld = hashNode (tree_hash u) ∧ canon u ∧ large u ∧ term rest ∧ (length rest < length key)%nat ∧ content t key = content u rest ∧
    (∀ P top, each_hashed P top t → each_hashed P false u) ∧ (∀ P top, on_path P top t key → on_path P false u rest).

Lemma found_below t u key key' rest cld : found u key' rest cld → content t key = content u key' → (length key' ≤ length key)%nat →
  (∀ P top, each_hashed P top t → each_hashed P false u) → (∀ P top, on_path P top t key → on_path P false u key') → found t key rest cld.
Proof.
  intros Hf Ec Hl He Hp. unfold found in *. rewrite Ec. destruct Hf as [?|[?|(w & E & Hc & Hlw & Ht & Hlen & Ew & He' & Hp')]]; [by left|by right; left|].
  right; right. exists w. split; [done|]. split; [done|]. split; [done|]. split; [done|]. split; [lia|]. split; [done|].
  split; intros P top HP; [eapply He', He, HP|eapply Hp', Hp, HP].
Qed.

Lemma get_child u key : canon u → term key → (∀ h, ∃ rest cld, get (expanded h u) key true = Ret (rest, cld) ∧ found u key rest cld) →
  ∀ t k, content t k = content u key → (length key < length k)%nat →
  (∀ P top, each_hashed P top t → each_hashed P false u) → (∀ P top, on_path P top t k → on_path P false u key) →
  ∃ rest cld, get (child_of u (expanded None u)) key true = Ret (rest, cld) ∧ found t k rest cld.
Proof.
  intros Hc Hk Hg t k Ec Hl He Hp. assert (is_value u = false) as Hv by (destruct u; [by apply canon_no_value in Hc|done..]).
  unfold child_of. rewrite Hv. destruct (Z.leb_spec 32 (len (rlp (tree_value u)))) as [Hlarge|_].
  - exists key, (hashNode (tree_hash u)). split; [done|]. right; right. exists u. repeat split; done.
  - destruct (Hg None) as (rest & cld & E & Hf). exists rest, cld. split; [done|]. eapply found_below; [done|done|lia|done|done].
Qed.

Lemma get_expanded t : canon t → ∀ key h, term key → ∃ rest cld, get (expanded h t) key true = Ret (rest, cld) ∧ found t key rest cld.
Proof.
  induction 1 as [p v Hp Hv|p ts Hn Hp Hc IH|ts Hl Hc IH Hv Hj]; intros key h Hk.
  - cbn [expanded get]. rewrite prefix_check. destruct (decide (p `prefix_of` key)) as [Hpre|Hpre].
    + rewrite bool_decide_eq_true_2 by done. cbn [negb]. rewrite (term_prefix p key Hp Hk Hpre), drop_all. exists [], (valueNode v).
      split; [done|]. right; left. exists v. split; [done|]. by rewrite content_leaf, decide_True.
    + rewrite bool_decide_eq_false_2 by done. exists [], nilNode. split; [done|]. left. split; [done|]. by apply content_short_other.
  - cbn [expanded get]. rewrite prefix_check. destruct (decide (p `prefix_of` key)) as [Hpre|Hpre].
    + rewrite bool_decide_eq_true_2 by done. destruct Hpre as [r ->]. cbn [negb]. rewrite drop_app_length. apply term_app in Hk; [|done].
      apply (get_child (TFull ts) r Hc Hk); [intros h'; by apply IH|by apply content_short_app| | |].
      * rewrite length_app. destruct p; [done|cbn; lia].
      * intros P top Hall. by inversion Hall.
      * intros P top. apply path_short.
    + rewrite bool_decide_eq_false_2 by done. exists [], nilNode. split; [done|]. left. split; [done|]. by apply content_short_other.
  - destruct key as [|i key]; [by apply term_nil in Hk|]. cbn [expanded]. rewrite get_children, list_lookup_fmap.
    assert (0 ≤ i < 17) as Hi by (apply term_cons in Hk as [[-> _]|[Hx _]]; [lia|unfold is_nibble in Hx; lia]).
    destruct (lookup_lt_is_Some_2 ts (Z.to_nat i)) as [o Eo]; [lia|]. rewrite Eo. cbn [fmap option_fmap option_map].
    assert (content (TFull ts) (i :: key) = ocontent o key) as Ec by (rewrite content_full, child_content_index by lia; by rewrite Eo).
    destruct o as [u|]; [|exists key, nilNode; split; [done|]; by left].
    apply term_cons in Hk as [[-> ->]|[Hx Hkey]].
    + destruct (Hv u Eo) as (v & -> & _). exists [], (valueNode v). split; [done|]. right; left. by exists v.
    + unfold is_nibble in Hx. assert (canon u) as Hcu by (eapply (Hc (Z.to_nat i)); [lia|done]).
      apply (get_child u key Hcu Hkey); [intros h'; eapply (IH (Z.to_nat i)); [lia|done|done]|done|cbn; lia| |].
      * intros P top Hall. inversion Hall; subst. eauto.
      * intros P top Hpath. by eapply path_child.
Qed.

(** *** Verification *)

Section verify.
Context (named : Hash → option tree) (Hnames : naming named) (proofDb : KeyValueStore).
(** What the proof has for the hash of a named tree is its encoding. *)
Context (Hgenuine : ∀ u blob, is_named named u → proofDb !! tree_hash u = Some blob → blob = rlp (tree_value u)).

Lemma verify_genuine fuel i t key : is_named named t → term key → (length key < fuel)%nat →
  (∃ j h, verify_from fuel i (BytesToHash (tree_hash t)) key proofDb = Done (inl (ProofNodeMissing j h)) ∧
    ¬ on_path (λ u, is_Some (proofDb !! tree_hash u)) true t key) ∨
  verify_from fuel i (BytesToHash (tree_hash t)) key proofDb = try_ret (content t key).
Proof.
  revert i t key. induction fuel as [|fuel IH]; intros i t key Hn Hk Hf; [lia|]. cbn [verify_from].
  pose proof (proj2 (tree_hash_round t)) as Eh. rewrite Eh. destruct (nm_canon _ Hnames _ _ Hn) as [Hc Hs].
  assert (is_value t = false) as Hv by (destruct t; [by apply canon_no_value in Hc|done..]).
  destruct (proofDb !! tree_hash t) as [buf|] eqn:Eb.
  2: { left. exists i, (BytesToHash (tree_hash t)). split; [done|]. intros Hp.
    assert (is_Some (proofDb !! tree_hash t)) as [b E] by (inversion Hp; subst; auto; done). congruence. }
  rewrite (Hgenuine t buf Hn Eb). pose proof (mustDecode_tree t (Some (tree_hash t)) Hc Hs) as Ed. unfold mustDecodeNode in Ed.
  destruct (decodeNode _ _ _) as [[e|n]| |]; try done. injection Ed as ->.
  destruct (get_expanded t Hc key (Some (tree_hash t)) Hk) as (rest & cld & -> & Hfound). cbn [of_go mbind Res_bind].
  destruct Hfound as [[-> ->]|[(v & -> & ->)|(u & -> & Hcu & Hlu & Hku & Hlen & -> & He & Hp)]]; [by right..|].
  assert (is_named named u) as Hnu.
  { pose proof (He _ _ (nm_below _ Hnames _ _ Hn)) as Hu. apply each_below in Hu as [_ Hu]. apply Hu; [|by right].
    destruct u; [by apply canon_no_value in Hcu|done..]. }
  assert (be_val (take HashLength (tree_hash u) ++ drop (length (tree_hash u)) (tree_hash t)) = BytesToHash (tree_hash u)) as ->.
  { destruct (keccak_bytes (rlp (tree_value u))) as [Hlk _]. unfold tree_hash. rewrite Hlk, take_ge by (rewrite Hlk; done).
    rewrite drop_ge by (destruct (keccak_bytes (rlp (tree_value t))) as [-> _]; done). rewrite app_nil_r. unfold BytesToHash, crop_left. by rewrite Hlk. }
  destruct (IH (i + 1) u rest Hnu Hku ltac:(lia)) as [(j & h & E & Hno)|E]; [left|by right].
  exists j, h. split; [done|]. intros Hpath. by apply Hno, path_top, (Hp _ true).
Qed.
End verify.

(** *** Construction *)

Section prove.
Context (named : Hash → option tree) (Hnames : naming named) (db_node : Hash → Res (option node)).

Lemma toHash_collapsed c t : node_value c = tree_value t → encodable (tree_value t) →
  toHash c false = Ret (if 32 <=? len (rlp (tree_value t)) then hashNode (tree_hash t) else c).
Proof.
  intros E He. unfold toHash. rewrite E, (encodable_encodes _ He). cbn [mbind Go_bind]. rewrite andb_true_r, Z.leb_antisym.
  by destruct (len (rlp (tree_value t)) <? 32).
Qed.

Lemma proofHash_node top n t : rep db_node top n t → canon t → sized t → is_hashNode n = false →
  ∃ c, proofHash n = Ret (c, if 32 <=? len (rlp (tree_value t)) then hashNode (tree_hash t) else c) ∧
    node_value c = tree_value t ∧ is_hashNode c = false.
Proof.
  intros Hr Hc Hs Hn. pose proof (tree_encodable t Hc Hs) as He. destruct Hr as [|top k c t f Hrc Hf _|top cs ts f Hl H1 H2 Hf _|]; try done.
  - by apply canon_no_value in Hc.
  - destruct (hash_hashes db_node false c t Hrc) as (cv & v' & Ec & Hcv); [by eapply short_hashable|].
    assert (match c with shortNode _ _ _ | fullNode _ _ => hash c false | _ => Ret (c, c) end = Ret (cv, v')) as E by (rewrite <- Ec; by destruct c).
    destruct (hexToCompact_compact k (canon_hex _ _ Hc)) as (Ek & _). cbn [proofHash]. rewrite Ek. cbn [mbind Go_bind]. rewrite E. cbn [mbind Go_bind].
    assert (node_value (shortNode (compact k) cv f) = tree_value (TShort k t)) as Ev.
    { cbn [node_value tree_value]. by rewrite (hs_value _ _ _ _ _ _ Hcv), hashed_value_child. }
    rewrite (toHash_collapsed _ _ Ev He). by eexists.
  - assert (Forall2 (child_hashes db_node) cs ts) as Hall.
    { apply Forall2_same_length_lookup. split; [done|]. intros i c [t|] Ei Et; [|by eapply H2].
      eapply (hash_hashes db_node); [by eapply H1|by eapply child_hashable]. }
    destruct (hash_children_hashes db_node 16 cs ts Hall) as (ccs & cs' & Ec & Hm & _).
    { intros j t Hj Ej. inversion Hc as [| |? Hl' _ Hv _]; subst. pose proof (lookup_lt_Some _ _ _ Ej).
      replace j with 16%nat in Ej by lia. by destruct (Hv t Ej) as (w & -> & _). }
    cbn [proofHash]. rewrite Ec. cbn [mbind Go_bind].
    assert (node_value (fullNode ccs f) = tree_value (TFull ts)) as Ev by (cbn [node_value tree_value]; f_equal; exact Hm).
    rewrite (toHash_collapsed _ _ Ev He). by eexists.
Qed.

(** What a proof holds is named. *)
Definition genuine (proofDb : KeyValueStore) : Prop :=
  ∀ key enc, proofDb !! key = Some enc → ∃ u, is_named named u ∧ key = tree_hash u ∧ enc = rlp (tree_value u).

Definition on_the_path (n : node) (u : tree) : Prop := (∃ top, rep db_node top n u) ∧ canon u ∧ sized u ∧ is_hashNode n = false.

Lemma prove_nodes_proves nodes trees i proofDb : Forall2 on_the_path nodes trees → genuine proofDb →
  (∀ j u, trees !! j = Some u → (i + j = 0)%nat ∨ large u → is_named named u) →
  ∃ proofDb', prove_nodes i 0 nodes proofDb = Ret proofDb' ∧ genuine proofDb' ∧
    (∀ key, is_Some (proofDb !! key) → is_Some (proofDb' !! key)) ∧
    (∀ j u, trees !! j = Some u → (i + j = 0)%nat ∨ large u → is_Some (proofDb' !! tree_hash u)).
Proof.
  intros Hall. revert i proofDb. induction Hall as [|n u nodes trees (  (top & Hr) & Hc & Hs & Hn) _ IH]; intros i proofDb Hg Hnm; [by exists proofDb|].
  assert (∀ P, genuine P → (∀ key, is_Some (proofDb !! key) → is_Some (P !! key)) → ((i + 0 = 0)%nat ∨ large u → is_Some (P !! tree_hash u)) →
    ∃ P', prove_nodes (S i) 0 nodes P = Ret P' ∧ genuine P' ∧ (∀ key, is_Some (proofDb !! key) → is_Some (P' !! key)) ∧
      (∀ j v, (u :: trees) !! j = Some v → (i + j = 0)%nat ∨ large v → is_Some (P' !! tree_hash v))) as Hrest.
  { intros P HgP Hk Hu. destruct (IH (S i) P HgP) as (P' & E & Hg' & Hk' & Hu'); [intros j v Ej Hv; apply (Hnm (S j) v Ej); destruct Hv; [lia|by right]|].
    exists P'. split; [done|]. split; [done|]. split; [intros key HP; by apply Hk', Hk|]. intros [|j] v Ej Hv; [injection Ej as <-; by apply Hk', Hu|].
    apply (Hu' j v Ej). destruct Hv; [lia|by right]. }
  destruct (proofHash_node top n u Hr Hc Hs Hn) as (c & Ep & Ev & Hcn). cbn [prove_nodes]. change (0 <? 0) with false. cbv iota.
  rewrite Ep. cbn [mbind Go_bind]. pose proof (tree_encodable u Hc Hs) as He. rewrite Ev, (encodable_encodes _ He).
  set (hn := if 32 <=? len (rlp (tree_value u)) then hashNode (tree_hash u) else c).
  assert (∀ P, match hn with hashNode h => h | _ => Keccak256 (rlp (tree_value u)) end = tree_hash u ∧
    (match hn, i with hashNode _, _ | _, O => P | _, _ => prove_nodes (S i) 0 nodes proofDb end =
      if decide (i = O ∨ large u) then P else prove_nodes (S i) 0 nodes proofDb)) as Hhn.
  { intros P. unfold hn, large. destruct (Z.leb_spec 32 (len (rlp (tree_value u)))); (split; [by destruct c|]).
    - rewrite decide_True by (by right). done.
    - destruct i as [|i]; [rewrite decide_True by (by left); by destruct c|]. rewrite decide_False by lia. by destruct c. }
  cbn [mbind Go_bind]. rewrite (proj1 (Hhn (Ret proofDb))), (proj2 (Hhn _)). case_decide as Hi.
  - apply Hrest.
    + intros key enc [[<- <-]|[_ E]]%lookup_insert_Some; [|by apply Hg]. exists u. split; [|done]. apply (Hnm O u eq_refl).
      destruct Hi as [->|]; [by left|by right].
    + intros key HP. destruct (decide (key = tree_hash u)) as [->|Hne]; [by rewrite lookup_insert_eq|by rewrite lookup_insert_ne].
    + intros _. by rewrite lookup_insert_eq.
  - apply Hrest; [done|done|]. intros [|]; destruct Hi; [left; lia|by right].
Qed.
(** The trees of the nodes on a path: those with hashes are all that matter. *)
Definition the_path (top : bool) (t : tree) (key : bytes) (nodes : list node) (trees : list tree) : Prop :=
  Forall2 on_the_path nodes trees ∧
  (∀ P : tree → Prop, (∀ j u, trees !! j = Some u → j = O ∧ top = true ∨ large u → P u) → on_path P top t key) ∧
  (∀ (Q : tree → Prop) j u, each_hashed Q top t → trees !! j = Some u → j = O ∧ top = true ∨ large u → Q u).

Lemma the_path_one top n t key : on_the_path n t → (∀ P : tree → Prop, (top = true ∨ large t → P t) → on_path P top t key) →
  the_path top t key [n] [t].
Proof.
  intros Hn Hp. assert (is_value t = false) as Hv by (destruct Hn as (_ & Hc & _); destruct t; [by apply canon_no_value in Hc|done..]).
  split; [by constructor|]. split.
  - intros P HP. apply Hp. intros Ht. apply (HP O t eq_refl). destruct Ht; [by left|by right].
  - intros Q [|j] u HQ E Hu; [|done]. injection E as <-. apply each_below in HQ as [_ HQ]. apply HQ; [done|]. destruct Hu as [[_ ->]|]; [by left|by right].
Qed.

Lemma the_path_cons top n t key u key' nodes trees : on_the_path n t → the_path false u key' nodes trees →
  (∀ P : tree → Prop, (top = true ∨ large t → P t) → on_path P false u key' → on_path P top t key) →
  (∀ Q : tree → Prop, each_hashed Q top t → each_hashed Q false u) → the_path top t key (n :: nodes) (t :: trees).
Proof.
  intros Hn (Hall & Hp & Hq) Hpath Heach. assert (is_value t = false) as Hv by (destruct Hn as (_ & Hc & _); destruct t; [by apply canon_no_value in Hc|done..]).
  split; [by constructor|]. split.
  - intros P HP. apply Hpath.
    + intros Ht. apply (HP O t eq_refl). destruct Ht; [by left|by right].
    + apply Hp. intros j v E [[_ ?]|Hl]; [done|]. apply (HP (S j) v E). by right.
  - intros Q [|j] v HQ E Hv'.
    + injection E as <-. apply each_below in HQ as [_ HQ]. apply HQ; [done|]. destruct Hv' as [[_ ->]|]; [by left|by right].
    + apply (Hq Q j v); [by apply Heach|done|]. destruct Hv' as [[? _]|]; [done|by right].
Qed.

Lemma proof_path_path fuel : ∀ top n t key, rep db_node top n t → canon t → sized t → term key → (need n key ≤ fuel)%nat →
  ∃ nodes trees, proof_path db_node fuel n key = try_ret nodes ∧ the_path top t key nodes trees.
Proof.
  induction fuel as [|fuel IH]; intros top n t key Hr Hc Hs Hk Hf; [unfold need in Hf; destruct (is_hashNode n); lia|].
  destruct key as [|i key]; [by apply term_nil in Hk|].
  assert (∀ fuel k, (0 < fuel)%nat → proof_path db_node fuel nilNode k = try_ret []) as Hnil.
  { intros [|f] k Hlt; [lia|]. by destruct k. }
  assert (∀ fuel m, (0 < fuel)%nat → proof_path db_node fuel m [] = try_ret []) as Hend by (by intros [|f] m Hlt; [lia|]).
  pose proof Hr as Hr0. destruct Hr as [|top k c t f Hrc _ _|top cs ts f Hl H1 H2 _ _|top h t Eh Hlarge Hnv Hst]; [by apply canon_no_value in Hc|..].
  - assert (on_the_path (shortNode k c f) (TShort k t)) as Hon by (split; [by eexists|done]).
    cbn [need is_hashNode length] in Hf. unfold need in Hf. cbn [is_hashNode length] in Hf.
    cbn [proof_path]. rewrite prefix_check. destruct (decide (k `prefix_of` (i :: key))) as [Hpre|Hpre].
    + rewrite bool_decide_eq_true_2 by done. cbn [negb]. destruct (canon_short _ _ Hc) as [(w & -> & Hkt & Hw)|(ts & -> & Hne & Hkn & Hfull)].
      * pose proof (term_prefix k _ Hkt Hk Hpre) as Ek. rewrite <- Ek, drop_all, Hend by lia. cbn [try_bind try_ret].
        eexists _, [TShort k (TValue w)]. split; [done|]. apply the_path_one; [done|]. intros P HP. rewrite <- (app_nil_r k) at 2. apply path_hit; [constructor|done].
      * destruct Hpre as [r Er]. rewrite Er, drop_app_length in *. apply term_app in Hk; [|done].
        destruct (IH false c (TFull ts) r Hrc Hfull (sized_short _ _ Hs) Hk) as (nodes & trees & -> & Hpath).
        { assert (length (i :: key) = length k + length r)%nat as El by (by rewrite Er, length_app). cbn [length] in El.
          assert (0 < length k)%nat by (destruct k; [done|cbn; lia]). unfold need. destruct (is_hashNode c); lia. }
        cbn [try_bind try_ret]. eexists _, (TShort k (TFull ts) :: trees). split; [done|].
        eapply the_path_cons; [done|exact Hpath|intros P HP Hp; by apply path_hit|]. intros Q HQ. by inversion HQ.
    + rewrite bool_decide_eq_false_2, Hnil by (done || lia). cbn [negb try_bind try_ret]. eexists _, [TShort k t]. split; [done|].
      apply the_path_one; [done|]. intros P HP. by apply path_miss.
  - assert (on_the_path (fullNode cs f) (TFull ts)) as Hon by (split; [by eexists|done]).
    unfold need in Hf. cbn [is_hashNode length] in Hf. inversion Hc as [| |? Hlen Hcan Hval _]; subst.
    assert (0 ≤ i < 17) as Hi by (apply term_cons in Hk as [[-> _]|[Hx _]]; [lia|unfold is_nibble in Hx; lia]).
    destruct (lookup_lt_is_Some_2 ts (Z.to_nat i)) as [o Eo]; [lia|]. destruct (lookup_lt_is_Some_2 cs (Z.to_nat i)) as [c Ec]; [lia|].
    cbn [proof_path]. rewrite (child_at_Some _ _ _ Ec). cbn [try_bind try_ret].
    assert (proof_path db_node fuel c key = try_ret [] ∧ (∀ P, on_path P false (default (TValue []) o) key) ∨
      ∃ u nodes trees, o = Some u ∧ proof_path db_node fuel c key = try_ret nodes ∧ the_path false u key nodes trees) as Hchild.
    { destruct o as [u|]; [|left; rewrite (H2 _ _ Ec Eo); split; [apply Hnil; lia|constructor]].
      apply term_cons in Hk as [[-> ->]|[Hx Hk]].
      - left. destruct (Hval u Eo) as (v & -> & _). split; [apply Hend; lia|constructor].
      - unfold is_nibble in Hx. right. destruct (IH false c u key) as (nodes & trees & E & Hp); [by eapply H1|eapply (Hcan (Z.to_nat i)); [lia|done]|by eapply sized_child|done| |by exists u, nodes, trees].
        unfold need. destruct (is_hashNode c); lia. }
    assert (∀ u (P : tree → Prop), o = Some u → (top = true ∨ large (TFull ts) → P (TFull ts)) → on_path P false u key → on_path P top (TFull ts) (i :: key)) as Hfull.
    { intros u P -> HP Hp. apply path_full; [|done]. intros u' Eu'. by assert (u' = u) as -> by congruence. }
    destruct Hchild as [[-> Hp]|(u & nodes & trees & -> & -> & Hp)]; cbn [try_bind try_ret].
    + eexists _, [TFull ts]. split; [done|]. apply the_path_one; [done|]. intros P HP. destruct o as [u|]; [by apply (Hfull u)|].
      apply path_full; [|done]. intros u' Eu'. congruence.
    + eexists _, (TFull ts :: trees). split; [done|]. eapply the_path_cons; [done|exact Hp|intros P HP Hp'; by eapply Hfull|].
      intros Q HQ. inversion HQ; subst. eauto.
  - destruct (hash_resolves db_node top h t Hr0) as (n & Hdb & Hnh & Hrn & _).
    destruct (IH top n t (i :: key) Hrn Hc Hs Hk) as (nodes & trees & E & Hp); [unfold need in *; rewrite Hnh; cbn [is_hashNode] in Hf; lia|].
    exists nodes, trees. split; [|done]. cbn [proof_path]. unfold resolveHash. by rewrite Hdb.
Qed.
End prove.
End proofs.

(** C30: Proofs are complete and cannot lie.  For a trie that represents a map that
    is not empty, and for every key, [Prove] gives a proof with which [VerifyProof]
    finds the value of the key under the root hash, or that it has none.  With anything else in place of the proof,
    where what lies under the hash of a node in use is that node (as it is if every
    blob lies under its own hash and no two have the same), [VerifyProof] ends and
    finds the same, or it reports that a node is missing. *)
Theorem proofs_verify `{KeccakLaws} named db t m key :
  naming named → represents_named named db t m → m ≠ ∅ → key_ok key →
  ∃ h u proof, Trie_Hash t = Ret (h, u) ∧ Prove (db_node db) t key 0 ∅ = try_ret proof ∧
    ∀ fuel, (length (keybytesToHex key) < fuel)%nat → VerifyProof fuel h key proof = try_ret (m !! key) ∧
      ∀ proofDb, (∀ u blob, is_named named u → proofDb !! tree_hash u = Some blob → blob = rlp (tree_value u)) →
        VerifyProof fuel h key proofDb = try_ret (m !! key) ∨ ∃ i x, VerifyProof fuel h key proofDb = Done (inl (ProofNodeMissing i x)).
Proof.
  intros Hn (Hm & o & Hs & Ho & Hnm) Hne [Hk _]. destruct o as [tr|].
  2: { destruct Hne. apply map_eq. intros k. rewrite lookup_empty. symmetry. by apply (holds_map_lookup None m k). }
  destruct Hs as [Hr Hc]. assert (sized tr) as Hsz by (by eapply map_sized). pose proof (keybytes_term key Hk) as Ht.
  destruct (Hash_tree _ t tr Hr Hc Hsz) as (c & Eh & _).
  destruct (proof_path_path (db_node db) (fuel_of (keybytesToHex key)) true (root t) tr (keybytesToHex key) Hr Hc Hsz Ht (need_fuel _ _))
    as (nodes & trees & Ep & Hall & Hpath & Heach).
  destruct (prove_nodes_proves named (db_node db) nodes trees 0 ∅ Hall) as (proof & Epr & Hg & _ & Hin); [by intros k enc E|..].
  { intros j u Ej Hu. apply (Heach _ j u (nm_below _ Hn _ _ Hnm) Ej). destruct Hu; [left; split; [lia|done]|by right]. }
  exists (BytesToHash (tree_hash tr)), (mkTrie c 0), proof. split; [exact Eh|]. split; [unfold Prove; rewrite Ep; cbn [try_bind try_ret]; by rewrite Epr|].
  rewrite <- (holds_map_lookup _ _ key Ho). cbn [ocontent mbind option_bind].
  assert (∀ P fuel, (∀ u blob, is_named named u → P !! tree_hash u = Some blob → blob = rlp (tree_value u)) → (length (keybytesToHex key) < fuel)%nat → _)
    as Hv by exact (λ P fuel HP, verify_genuine named Hn P HP fuel 0 tr (keybytesToHex key) Hnm Ht).
  intros fuel Hfuel. split.
  - destruct (Hv proof fuel) as [(j & x & _ & Hno)|E]; [|done| |exact E].
    + intros u blob Hu Eb. destruct (Hg _ _ Eb) as (w & Hw & Ew & ->). by rewrite (named_unique named u w Hu Hw Ew).
    + destruct Hno. apply Hpath. intros j' u Ej Hu. apply (Hin j' u Ej). destruct Hu as [[? _]|]; [left; lia|by right].
  - intros proofDb HP. destruct (Hv proofDb fuel HP Hfuel) as [(j & x & E & _)|E]; [right; by exists j, x|by left].
Qed.

(** C37: Committing a trie stores the map.  As long as no two nodes in use have the
    same hash, [Trie.Commit] returns the root hash, the trie then still represents
    the map over the new database, and so do all other tries over the old one.
    After [Database.Commit] of the root, which ends, nothing that could be read has
    been lost; and from the disk alone, without what was in memory, opening the root
    gives a trie that represents the map. *)
Theorem committed_trie_persists `{KeccakLaws} named db t m :
  naming named → consistent_db named db → represents_named named db t m →
  ∃ h count t' db', Trie_Commit t db = Ret (h, count, t', db') ∧ (∃ u, Trie_Hash t = Ret (h, u)) ∧ 0 ≤ count ∧ consistent_db named db' ∧
    represents (db_node db') t' m ∧ (∀ u m', represents (db_node db) u m' → represents (db_node db') u m') ∧
    ∃ least, ∀ fuel, (least ≤ fuel)%nat → ∃ db'', Database_Commit fuel db' h = Done db'' ∧ consistent_db named db'' ∧
      (∀ u m', represents (db_node db') u m' → represents (db_node db'') u m') ∧
      let disk := db_node (NewDatabase (diskdb db'')) in ∃ t'', New disk h = try_ret t'' ∧ represents disk t'' m.
Proof.
  intros Hn Hdb (Hm & o & Hs & Ho & Hnm). destruct o as [tr|].
  - destruct Hs as [Hr Hc]. destruct (Commit_tree named db t tr Hn Hdb Hr Hnm) as (count & t' & db' & E & Hco & Hdb' & Hle & Hst & Hr').
    eexists _, count, t', db'. split; [exact E|]. split; [destruct (Hash_tree _ t tr Hr Hc) as (c & Eh & _); [by eapply map_sized|by eexists]|].
    split; [done|]. split; [done|]. split; [split; [done|]; by exists (Some tr)|]. split; [intros u m'; by apply represents_le|].
    destruct (Database_Commit_tree named Hn db' tr Hdb' Hnm Hst) as [least HD]. exists least. intros fuel Hfuel.
    destruct (HD fuel Hfuel) as (db'' & E2 & Hdb'' & Hnode & Hod). exists db''. split; [done|]. split; [done|].
    split; [intros u m'; apply represents_le; intros h n Hh; by rewrite Hnode|].
    cbv zeta. destruct (New_tree named Hn (NewDatabase (diskdb db'')) tr Hnm) as (n & -> & Hrn); [by eapply disk_stored|].
    eexists. split; [done|]. split; [done|]. by exists (Some tr).
  - cbn in Hs. exists emptyRoot, 0, t, db. unfold Trie_Commit, Trie_Hash, hashRoot. rewrite Hs. split; [done|]. split; [by eexists|].
    assert (∀ d, represents d t m) as Hr by (intros d; split; [done|]; by exists None).
    split; [done|]. split; [done|]. split; [done|]. split; [done|]. exists 1%nat. intros [|fuel] Hfuel; [lia|].
    exists db. split; [by eapply Database_Commit_empty|]. split; [done|]. split; [done|]. cbv zeta. exists (mkTrie nilNode 0). split; [done|].
    split; [done|]. by exists None.
Qed.

(** * Examples *)

(** A trie of one key, named by its only tree. *)
Definition one_key : Trie := updated (mkTrie nilNode 0) [18; 52] [7].
#[local] Abbreviation one_value := ({[ [18; 52] := [7] ]} : gmap bytes bytes).

Lemma one_key_ok : key_ok [18; 52].
Proof. split; [|done]. repeat constructor; unfold is_byte; lia. Qed.

Lemma one_key_named : ∃ named, naming named ∧ consistent_db named (NewDatabase ∅) ∧ represents_named named (NewDatabase ∅) one_key one_value.
Proof.
  assert (root one_key = shortNode (keybytesToHex [18; 52]) (valueNode [7]) newFlag) as Et by (vm_compute; reflexivity).
  assert (BytesToHash (tree_hash (TShort (keybytesToHex [18; 52]) (TValue [7]))) ≠ 0 ∧
    BytesToHash (tree_hash (TShort (keybytesToHex [18; 52]) (TValue [7]))) ≠ emptyRoot) as Hfree.
  { split; apply Z.eqb_neq; vm_compute; reflexivity. }
  generalize dependent one_key. intros t0 Et.
  assert (Forall is_byte [18; 52]) as Hk by (repeat constructor; unfold is_byte; lia).
  pose proof (keybytes_term _ Hk) as Hterm. remember (keybytesToHex [18; 52]) as k eqn:Ek.
  set (tr := TShort k (TValue [7])) in *. remember (BytesToHash (tree_hash tr)) as h eqn:Eh.
  assert (map_ok one_value) as Hm.
  { intros key v [<- <-]%lookup_singleton_Some. split; [split; [exact Hk|done]|]. split; [done|]. split; [|done]. repeat constructor; unfold is_byte; lia. }
  assert (canon tr) as Hc by (by constructor).
  assert (holds_map (Some tr) one_value) as Ho.
  { intros k' v. cbn [ocontent mbind option_bind]. unfold tr. rewrite content_leaf. case_decide as E.
    - split; [intros [= <-]; exists [18; 52]; split; [by rewrite E|by rewrite lookup_singleton_eq]|].
      intros (key & _ & [_ <-]%lookup_singleton_Some). done.
    - split; [done|]. intros (key & Ekey & [<- _]%lookup_singleton_Some). destruct E. by rewrite Ekey. }
  set (named := λ x : Hash, if decide (x = h) then Some tr else None).
  assert (is_named named tr) as Hn by (unfold is_named, named; by rewrite decide_True by by symmetry).
  assert (naming named) as Hnaming.
  { split; unfold named; intros x t E; case_decide as Ex; try done; injection E as <-.
    - split; [done|]. by eapply map_sized.
    - by rewrite Ex, Eh.
    - apply each_from_below; [constructor|by intros _].
    - by rewrite Ex. }
  assert (consistent_db named (NewDatabase ∅)) as Hdb.
  { split; [done|intros x r E; cbn in E; by rewrite lookup_empty in E|intros x enc t E; cbn in E; by rewrite lookup_empty in E]. }
  exists named. split; [done|]. split; [done|]. split; [exact Hm|]. exists (Some tr). split; [|split; [exact Ho|exact Hn]].
  split; [|exact Hc]. rewrite Et. apply rep_short; [constructor|by split|done].
Qed.

Lemma committed_trie_persists_witness :
  ∃ h count t' db' fuel db'' t'' u,
    Trie_Commit one_key (NewDatabase ∅) = Ret (h, count, t', db') ∧
    Database_Commit fuel db' h = Done db'' ∧ New (db_node (NewDatabase (diskdb db''))) h = try_ret t'' ∧
    TryGet (db_node (NewDatabase (diskdb db''))) t'' [18; 52] = try_ret (Some [7], u).
Proof.
  destruct one_key_named as (named & Hn & Hdb & Hr).
  destruct (committed_trie_persists named (NewDatabase ∅) one_key one_value Hn Hdb Hr) as (x & count & t' & db' & E & _ & _ & _ & _ & _ & least & HD).
  destruct (HD least (Nat.le_refl _)) as (db'' & E2 & _ & _ & t'' & E3 & Hr2).
  destruct (TryGet_represents _ _ _ [18; 52] Hr2 (proj1 one_key_ok)) as (u & E4 & _). rewrite lookup_singleton_eq in E4.
  exists x, count, t', db', least, db'', t'', u. split; [exact E|]. split; [exact E2|]. split; [exact E3|exact E4].
Defined.

Lemma proofs_verify_witness :
  ∃ h u proof, Trie_Hash one_key = Ret (h, u) ∧ Prove (db_node (NewDatabase ∅)) one_key [18; 52] 0 ∅ = try_ret proof ∧
    VerifyProof 6 h [18; 52] proof = try_ret (Some [7]) ∧ ∃ i x, VerifyProof 6 h [18; 52] ∅ = Done (inl (ProofNodeMissing i x)).
Proof.
  destruct one_key_named as (named & Hn & Hdb & Hr).
  destruct (proofs_verify named (NewDatabase ∅) one_key one_value [18; 52] Hn Hr (map_non_empty_singleton _ _) one_key_ok)
    as (h & u & proof & E1 & E2 & HV).
  destruct (HV 6%nat ltac:(cbn; lia)) as [E3 Hany]. exists h, u, proof. split; [exact E1|]. split; [exact E2|].
  rewrite lookup_singleton_eq in E3. split; [exact E3|].
  destruct (Hany ∅) as [E|E]; [intros ? ? _ E0; by rewrite lookup_empty in E0| |exact E].
  unfold VerifyProof in E. cbn [verify_from] in E. by rewrite lookup_empty in E.
Defined.

(** Several nodes with hashes of their own, through the disk; with the stand-in for
    Keccak of the other examples, two of them would have the same hash. *)
Definition mixing_externals : Externals := {|
  Keccak256 b := to_be 32 (foldl (λ acc x, (acc * 1000003 + x + 1) mod (2 ^ 255 - 19)) 7 b);
  PrecompiledContractsHomestead := ∅;
  PrecompiledContractsByzantium := ∅;
  PrecompiledContractsIstanbul := ∅;
  PrecompiledContractsBerlin := ∅
|}.

Definition through_disk `{Externals} (kvs : list (bytes * bytes)) (key : bytes) : option (Z * nat * option bytes) :=
  let t := foldl (λ t kv, updated t kv.1 kv.2) (mkTrie nilNode 0) kvs in
  match Trie_Commit t (NewDatabase ∅) with
  | Ret (h, count, _, db) =>
      match Database_Commit 10 db h with
      | Done db =>
          let disk := db_node (NewDatabase (diskdb db)) in
          match New disk h with
          | Done (inr t) => match TryGet disk t key with Done (inr (v, _)) => Some (count, size (diskdb db), v) | _ => None end
          | _ => None
          end
      | _ => None
      end
  | _ => None
  end.

Definition five : list (bytes * bytes) :=
  [([18; 52], repeat 1 40); ([18; 53], repeat 2 40); ([18; 53; 6], [3]); ([200], repeat 4 40); ([18], [5])].

Example five_keys :
  through_disk (H := mixing_externals) five [18; 53; 6] = Some (7, 7%nat, Some [3]) ∧ through_disk (H := mixing_externals) five [18; 52] = Some (7, 7%nat, Some (repeat 1 40)).
Proof. split; vm_compute; reflexivity. Qed.

(** A key that is there and one that is not, and a proof that lacks its root. *)
Definition proved `{Externals} (kvs : list (bytes * bytes)) (without : nat) (key : bytes) : option (ProofError + option bytes) :=
  let t := foldl (λ t kv, updated t kv.1 kv.2) (mkTrie nilNode 0) kvs in
  match Prove no_nodes t key 0 ∅, Trie_Hash t with
  | Done (inr proof), Ret (h, _) =>
      match VerifyProof 20 h key (list_to_map (drop without (map_to_list proof))) with Done r => Some r | _ => None end
  | _, _ => None
  end.

Example five_proofs :
  proved (H := mixing_externals) five 0 [18; 53; 6] = Some (inr (Some [3])) ∧
  proved (H := mixing_externals) five 0 [18; 54] = Some (inr None) ∧
  match proved (H := mixing_externals) five 9 [18; 54] with Some (inl (ProofNodeMissing 0 _)) => True | _ => False end.
Proof. vm_compute. repeat split. Qed.
