(* ===== verification/Text.v ===== *)
(** * Text: strconv, strings and math/big conversions the sources use

    Decimal parsing with its errors and clamping, splitting and trimming, on
    ASCII text; decimal printing is [pretty].  Printing and parsing are inverse. *)

From S2P Require Import Prelude Common.

(** ** Decimal numbers *)

Definition digit_of (c : Ascii.ascii) : option Z :=
  let x := code c in if (48 <=? x) && (x <=? 57) then Some (x - 48) else None.

Inductive ParseErr := ErrSyntax | ErrRange.

(** The loop of [strconv.ParseUint] in base 10 for 64 bits: the value and error. *)
Fixpoint parse_uint_loop (n : Z) (s : string) : Z * option ParseErr :=
  match s with
  | EmptyString => (n, None)
  | String c s' =>
      match digit_of c with
      | None => (0, Some ErrSyntax)
      | Some d =>
          if (2 ^ 64 - 1) / 10 + 1 <=? n then (2 ^ 64 - 1, Some ErrRange)
          else
            let n1 := n * 10 + d in
            if 2 ^ 64 - 1 <? n1 then (2 ^ 64 - 1, Some ErrRange) else parse_uint_loop n1 s'
      end
  end.

Definition ParseUint (s : string) : Z * option ParseErr :=
  match s with EmptyString => (0, Some ErrSyntax) | _ => parse_uint_loop 0 s end.

Definition ParseInt (s : string) : Z * option ParseErr :=
  let '(neg, s') :=
    match s with
    | String c s' => if code c =? 43 then (false, s') else if code c =? 45 then (true, s') else (false, s)
    | EmptyString => (false, s)
    end in
  match s with
  | EmptyString => (0, Some ErrSyntax)
  | _ =>
      let '(un, err) := ParseUint s' in
      match err with
      | Some ErrSyntax => (0, err)
      | _ =>
          if negb neg && (2 ^ 63 <=? un) then (2 ^ 63 - 1, Some ErrRange)
          else if neg && (2 ^ 63 <? un) then (- 2 ^ 63, Some ErrRange)
          else (if neg then - un else un, err)
      end
  end.

(** [strconv.Atoi], on a 64-bit machine. *)
Definition Atoi (s : string) : Z * option ParseErr := ParseInt s.

(** [new(big.Int).SetString(s, 10)] *)
Fixpoint digits_val (n : Z) (s : string) : option Z :=
  match s with
  | EmptyString => Some n
  | String c s' => d ← digit_of c; digits_val (n * 10 + d) s'
  end.

Definition nat_of_text (s : string) : option Z :=
  match s with EmptyString => None | _ => digits_val 0 s end.

Definition SetString10 (s : string) : option Z :=
  match s with
  | String c s' =>
      if code c =? 45 then Z.opp <$> nat_of_text s'
      else if code c =? 43 then nat_of_text s'
      else nat_of_text s
  | EmptyString => None
  end.

(** [x.String()] of a [*big.Int] that may be nil. *)
Definition big_String (x : option Z) : string :=
  match x with Some n => pretty n | None => "<nil>" end.

(** ** Splitting and trimming *)

Definition is_space (c : Ascii.ascii) : bool :=
  let x := code c in ((9 <=? x) && (x <=? 13)) || (x =? 32).

Fixpoint trim_left (s : string) : string :=
  match s with
  | EmptyString => EmptyString
  | String c s' => if is_space c then trim_left s' else s
  end.

Fixpoint all_space (s : string) : bool :=
  match s with EmptyString => true | String c s' => is_space c && all_space s' end.

Fixpoint trim_right (s : string) : string :=
  match s with
  | EmptyString => EmptyString
  | String c s' => if all_space s then EmptyString else String c (trim_right s')
  end.

Definition TrimSpace (s : string) : string := trim_left (trim_right s).

(** [strings.Split] at a separator of one character. *)
Fixpoint Split (s : string) (sep : Ascii.ascii) : list string :=
  match s with
  | EmptyString => [EmptyString]
  | String c s' =>
      if bool_decide (c = sep) then EmptyString :: Split s' sep
      else match Split s' sep with
           | w :: ws => String c w :: ws
           | [] => [String c EmptyString]
           end
  end.

Definition dot : Ascii.ascii := chr 46.
Definition underscore : Ascii.ascii := chr 95.
Definition semicolon : Ascii.ascii := chr 59.

(** [strings.Split(strings.Split(name, ".")\[0\], "_")] *)
Definition name_parts (name : string) : list string :=
  Split (default EmptyString (head (Split name dot))) underscore.

(** The block number of a file of recorded data. *)
Definition file_block (name : string) : Z :=
  (ParseUint (default EmptyString (head (name_parts name)))).1.

(** [record\[i\]] *)
Definition field (record : list string) (i : nat) : Go string :=
  match record !! i with Some s => Ret s | None => Panic IndexOutOfRange end.

(** ** Facts *)

Lemma Split_nonempty s sep : Split s sep ≠ [].
Proof.
  destruct s as [|c s]; [done|]. cbn. case_bool_decide; [done|]. by destruct (Split s sep).
Qed.

Fixpoint char_free (sep : Ascii.ascii) (s : string) : Prop :=
  match s with EmptyString => True | String c s' => c ≠ sep ∧ char_free sep s' end.

Lemma Split_char_free sep s : char_free sep s → Split s sep = [s].
Proof.
  induction s as [|c s IH]; [done|]. intros [Hc Hs]. cbn. rewrite bool_decide_false by done. by rewrite IH.
Qed.

Lemma append_empty s : String.append "" s = s.
Proof. done. Qed.

Lemma append_String c s t : String.append (String c s) t = String c (String.append s t).
Proof. done. Qed.

Lemma append_assoc s t u : String.append (String.append s t) u = String.append s (String.append t u).
Proof. induction s as [|c s IH]; [done|]. by rewrite !append_String, IH. Qed.

Lemma Split_at sep s t :
  char_free sep s → Split (String.append s (String sep t)) sep = s :: Split t sep.
Proof.
  induction s as [|c s IH]; intros Hs.
  - rewrite append_empty. cbn. by rewrite bool_decide_true.
  - destruct Hs as [Hc Hs]. rewrite append_String. cbn. rewrite bool_decide_false by done. by rewrite IH.
Qed.

(** *** Printed numbers *)

(** A non-empty string of digits that denotes [n] after the prefix value [k]. *)
Lemma digit_of_pretty (x : N) : (x < 10)%N → digit_of (pretty_N_char x) = Some (Z.of_N x).
Proof.
  intros Hx.
  assert (x = 0 ∨ x = 1 ∨ x = 2 ∨ x = 3 ∨ x = 4 ∨ x = 5 ∨ x = 6 ∨ x = 7 ∨ x = 8 ∨ x = 9)%N as H by lia.
  by repeat destruct H as [->|H]; subst.
Qed.

Lemma digits_val_pretty_go (x : N) s (k : Z) :
  digits_val 0 (pretty_N_go x s) = digits_val (Z.of_N x) s.
Proof.
  revert s. induction (N.lt_wf_0 x) as [x _ IH]; intros s.
  destruct (decide (0 < x)%N) as [Hx|].
  - rewrite pretty_N_go_step by done. rewrite IH by by apply N.div_lt. cbn.
    rewrite digit_of_pretty by by apply N.mod_lt. cbn. f_equal.
    rewrite (N.div_mod x 10) at 3 by done. lia.
  - replace x with 0%N by lia. by rewrite pretty_N_go_0.
Qed.

Lemma nat_of_text_pretty (x : N) : nat_of_text (pretty x) = Some (Z.of_N x).
Proof.
  unfold pretty, pretty_N. case_decide as Hx; [by subst|].
  assert (digits_val 0 (pretty_N_go x "") = Some (Z.of_N x)) as H by by rewrite (digits_val_pretty_go _ _ 0).
  unfold nat_of_text. destruct (pretty_N_go x "") as [|c s] eqn:E; [|done]. exfalso.
  cbn in H. injection H as H. lia.
Qed.

Lemma pretty_head_digit (x : N) : ∃ c s d, pretty x = String c s ∧ digit_of c = Some d.
Proof.
  pose proof (nat_of_text_pretty x) as H. destruct (pretty x) as [|c s]; [done|].
  cbn in H. destruct (digit_of c) as [d|] eqn:E; [|done]. eauto.
Qed.

Lemma digit_not_sign c d : digit_of c = Some d → (code c =? 45) = false ∧ (code c =? 43) = false.
Proof.
  unfold digit_of. intros H. destruct (_ && _) eqn:E; [|done].
  apply andb_true_iff in E as [E1%Z.leb_le E2%Z.leb_le]. lia.
Qed.

(** Parsing a printed number gives it back. *)
Lemma SetString10_pretty (n : Z) : SetString10 (pretty n) = Some n.
Proof.
  destruct n as [|p|p]; [done| |].
  - change (pretty (Z.pos p)) with (pretty (N.pos p)).
    pose proof (nat_of_text_pretty (N.pos p)) as H. destruct (pretty_head_digit (N.pos p)) as (c & s & d & E & Hd).
    rewrite E in *. unfold SetString10. by destruct (digit_not_sign _ _ Hd) as [-> ->].
  - change (pretty (Z.neg p)) with (String.append "-" (pretty (N.pos p))).
    rewrite append_String, append_empty. unfold SetString10. change (code _ =? 45) with true.
    cbn iota. by rewrite nat_of_text_pretty.
Qed.

Lemma parse_uint_digits n s m :
  0 ≤ n < 2 ^ 64 → digits_val n s = Some m → m < 2 ^ 64 → parse_uint_loop n s = (m, None).
Proof.
  revert n. induction s as [|c s IH]; intros n Hn; cbn; [by intros [= ->]|].
  destruct (digit_of c) as [d|] eqn:Ed; cbn; [|done]. intros Hv Hm.
  assert (0 ≤ d ≤ 9) as Hd.
  { unfold digit_of in Ed. destruct (_ && _) eqn:E; [|done]. injection Ed as <-.
    apply andb_true_iff in E as [E1%Z.leb_le E2%Z.leb_le]. lia. }
  assert (n * 10 + d ≤ m) as Hle.
  { clear -Hv Hn Hd. revert Hv. assert (0 ≤ n * 10 + d) as H by lia. revert H. generalize (n * 10 + d).
    induction s as [|c s IH]; intros k Hk; cbn; [intros [= ->]; lia|].
    destruct (digit_of c) as [d'|] eqn:E; cbn; [|done].
    unfold digit_of in E. destruct (_ && _) eqn:E'; [|done]. injection E as <-.
    apply andb_true_iff in E' as [E1%Z.leb_le E2%Z.leb_le]. intros Hv%IH; lia. }
  destruct (Z.leb_spec ((2 ^ 64 - 1) / 10 + 1) n) as [Hc|Hc].
  { exfalso. assert ((2 ^ 64 - 1) / 10 = 1844674407370955161) as E by reflexivity. rewrite E in Hc. lia. }
  destruct (Z.ltb_spec (2 ^ 64 - 1) (n * 10 + d)); [lia|]. by apply IH; [lia|..].
Qed.

Lemma ParseUint_pretty n : 0 ≤ n < 2 ^ 64 → ParseUint (pretty n) = (n, None).
Proof.
  intros Hn. pose proof (nat_of_text_pretty (Z.to_N n)) as H.
  assert (pretty n = pretty (Z.to_N n)) as E by (by destruct n; try lia). rewrite E.
  unfold nat_of_text, ParseUint in *. destruct (pretty (Z.to_N n)) as [|c s]; [done|].
  rewrite Z2N.id in H by lia. apply parse_uint_digits; [lia|done|lia].
Qed.

Lemma char_free_pretty_N_go sep x s :
  digit_of sep = None → char_free sep s → char_free sep (pretty_N_go x s).
Proof.
  intros Hsep. revert s. induction (N.lt_wf_0 x) as [x _ IH]; intros s Hs.
  destruct (decide (0 < x)%N) as [Hx|].
  - rewrite pretty_N_go_step by done. apply IH; [by apply N.div_lt|]. split; [|done].
    intros E. rewrite <- E, digit_of_pretty in Hsep by by apply N.mod_lt. done.
  - replace x with 0%N by lia. by rewrite pretty_N_go_0.
Qed.

Lemma char_free_pretty sep (n : Z) : digit_of sep = None → (code sep =? 45) = false → char_free sep (pretty n).
Proof.
  intros Hd Hm.
  assert (∀ x : N, char_free sep (pretty x)) as HN.
  { intros x. unfold pretty, pretty_N. case_decide; [|by apply char_free_pretty_N_go].
    split; [|done]. intros <-. done. }
  destruct n as [|p|p]; [|apply (HN (N.pos p))|].
  - split; [|done]. intros <-. done.
  - split; [|apply (HN (N.pos p))]. intros <-. done.
Qed.

(** The name of a recorded transaction gives back its block. *)
Lemma file_block_name b rest :
  0 ≤ b < 2 ^ 64 → char_free dot rest →
  file_block (String.append (pretty b) (String underscore (String.append rest ".json"))) = b.
Proof.
  intros Hb Hrest. unfold file_block, name_parts.
  assert (String.append (pretty b) (String underscore (String.append rest ".json")) =
          String.append (String.append (pretty b) (String underscore rest)) (String dot "json")) as ->.
  { by rewrite append_assoc. }
  rewrite Split_at.
  - cbn [head default from_option]. unfold id. rewrite Split_at by by apply char_free_pretty. cbn [head default from_option]; unfold id.
    by rewrite ParseUint_pretty.
  - assert (char_free dot (pretty b)) as H by by apply char_free_pretty. revert H.
    induction (pretty b) as [|c s IH]; rewrite ?append_empty, ?append_String; [by split|].
    intros [? ?]. split; [done|by apply IH].
Qed.
