(* ===== verification/Abi.v ===== *)
(** * accounts/abi: types, values, decoding and method lookup

    [accounts/abi/type.go], [unpack.go], [argument.go] and the lookups of
    [abi.go].  Reflection values are the inductive type [Val]; an error result
    is [None].  [abi.JSON], which builds an [ABI] from a JSON text, is not
    modelled: an [ABI] is an input. *)

From S2P Require Import Prelude Common.

(** ** Types *)

Inductive Ty :=
| IntTy (Size : Z)
| UintTy (Size : Z)
| BoolTy
| StringTy
| SliceTy (Elem : Ty)
| ArrayTy (Size : nat) (Elem : Ty)
| TupleTy (TupleElems : list Ty)
| AddressTy
| FixedBytesTy (Size : nat)
| BytesTy
| HashTy
| FixedPointTy
| FunctionTy.

(** Go values of the types [GetType] gives: fixed-width integers carry their
    width, [VBig] is a [*big.Int], [VNil] is a nil interface. *)
Inductive Val :=
| VUint (w : Z) (x : Z)
| VInt (w : Z) (x : Z)
| VBig (x : Z)
| VBool (b : bool)
| VString (s : bytes)
| VBytes (s : bytes)
| VFixedBytes (s : bytes)
| VAddress (a : Address)
| VHash (h : Hash)
| VList (l : list Val)
| VTuple (l : list Val)
| VNil.

Record Argument := { arg_name : string; arg_type : Ty; arg_indexed : bool }.

(** A [nil] slice of arguments is [None] where the code tells it from an empty one. *)
Record Method := {
  m_name : string;
  m_ID : bytes;
  m_mutability : string;
  m_payable : bool;
  m_inputs : list Argument;
  m_outputs : option (list Argument)
}.

Record ABI := {
  abi_methods : gmap string Method;
  abi_events : gmap string (option (list Argument))
}.

Definition requiresLengthPrefix (t : Ty) : bool :=
  match t with StringTy | BytesTy | SliceTy _ => true | _ => false end.

Fixpoint isDynamicType (t : Ty) : bool :=
  match t with
  | TupleTy elems => existsb isDynamicType elems
  | StringTy | BytesTy | SliceTy _ => true
  | ArrayTy _ e => isDynamicType e
  | _ => false
  end.

Fixpoint getTypeSize (t : Ty) : nat :=
  match t with
  | ArrayTy n e =>
      if isDynamicType e then 32
      else match e with
           | ArrayTy _ _ | TupleTy _ => (n * getTypeSize e)%nat
           | _ => (n * 32)%nat
           end
  | TupleTy elems =>
      if existsb isDynamicType elems then 32%nat
      else foldr (λ e acc, (getTypeSize e + acc)%nat) 0%nat elems
  | _ => 32
  end.

(** ** Decoding *)

Definition slice (b : bytes) (i n : nat) : bytes := take n (drop i b).

(** The last [n] bytes of [b], as a number. *)
Definition be_tail (n : nat) (b : bytes) : Z := be_val (drop (length b - n) b).

Definition ReadInteger (t : Ty) (b : bytes) : Val :=
  match t with
  | UintTy 8 => VUint 8 (be_tail 1 b)
  | UintTy 16 => VUint 16 (be_tail 2 b)
  | UintTy 32 => VUint 32 (be_tail 4 b)
  | UintTy 64 => VUint 64 (be_tail 8 b)
  | UintTy _ => VBig (be_val b)
  | IntTy 8 => VInt 8 (wrapS 8 (be_tail 1 b))
  | IntTy 16 => VInt 16 (wrapS 16 (be_tail 2 b))
  | IntTy 32 => VInt 32 (wrapS 32 (be_tail 4 b))
  | IntTy 64 => VInt 64 (wrapS 64 (be_tail 8 b))
  | _ =>
      let ret := be_val b in
      VBig (if Z.testbit ret 255 then - ((2 ^ 256 - 1) + - ret + 1) else ret)
  end.

Definition readBool (word : bytes) : option bool :=
  if forallb (λ b, b =? 0) (take 31 word) then
    match word !! 31%nat with
    | Some 0 => Some false
    | Some 1 => Some true
    | _ => None
    end
  else None.

Definition readFunctionType (word : bytes) : option Val :=
  if be_val (slice word 24 8) =? 0 then Some (VFixedBytes (take 24 word)) else None.

(** [x.BitLen() > 63], for [x >= 0]. *)
Definition exceeds_int64 (x : Z) : bool := 2 ^ 63 <=? x.

Definition lengthPrefixPointsTo (index : nat) (output : bytes) : option (nat * nat) :=
  let bigOffsetEnd := be_val (slice output index 32) + 32 in
  let outputLength := Z.of_nat (length output) in
  if bigOffsetEnd >? outputLength then None
  else if exceeds_int64 bigOffsetEnd then None
  else
    let offsetEnd := Z.to_nat bigOffsetEnd in
    let lengthBig := be_val (slice output (offsetEnd - 32) 32) in
    let totalSize := bigOffsetEnd + lengthBig in
    if exceeds_int64 totalSize then None
    else if totalSize >? outputLength then None
    else Some (offsetEnd, Z.to_nat lengthBig).

Definition tuplePointsTo (index : nat) (output : bytes) : option nat :=
  let offset := be_val (slice output index 32) in
  if offset >? Z.of_nat (length output) then None
  else if exceeds_int64 offset then None
  else Some (Z.to_nat offset).


(** The words of an inline array or tuple as the code computes them: [-1] for an
    empty one. *)
Definition virtualArgs_incr (t : Ty) : Z :=
  match t with
  | ArrayTy _ _ | TupleTy _ =>
      if isDynamicType t then 0 else Z.of_nat (getTypeSize t) / 32 - 1
  | _ => 0
  end.

(** [n] elements of the same type, [elemSize] bytes apart. *)
Fixpoint unpack_elems (dec : nat → option Val) (elemSize i n : nat) : option (list Val) :=
  match n with
  | O => Some []
  | S n' => v ← dec i; vs ← unpack_elems dec elemSize (i + elemSize) n'; Some (v :: vs)
  end.

Definition forEachUnpack (dec : nat → option Val) (elemSize : nat) (output : bytes)
    (start size : nat) : option Val :=
  if decide (length output < start + 32 * size)%nat then None
  else VList <$> unpack_elems dec elemSize start size.

(** Values of consecutive types; [k] is the index of the word the first is at. *)
Fixpoint unpack_seq (dec : nat → Ty → option Val) (k : Z) (ts : list Ty) : option (list Val) :=
  match ts with
  | [] => Some []
  | t :: ts' =>
      v ← dec (Z.to_nat (k * 32)) t;
      vs ← unpack_seq dec (k + 1 + virtualArgs_incr t) ts';
      Some (v :: vs)
  end.

Fixpoint toGoType (index : nat) (t : Ty) (output : bytes) {struct t} : option Val :=
  if decide (length output < index + 32)%nat then None
  else
    let returnOutput := slice output index 32 in
    match t with
    | TupleTy elems =>
        let tuple out :=
          VTuple <$> (fix go (k : Z) (ts : list Ty) : option (list Val) :=
            match ts with
            | [] => Some []
            | t' :: ts' =>
                v ← toGoType (Z.to_nat (k * 32)) t' out;
                vs ← go (k + 1 + virtualArgs_incr t') ts';
                Some (v :: vs)
            end) 0 elems in
        if isDynamicType t then
          begin ← tuplePointsTo index output; tuple (drop begin output)
        else tuple (drop index output)
    | SliceTy e =>
        '(begin, length) ← lengthPrefixPointsTo index output;
        let out := drop begin output in
        forEachUnpack (λ i, toGoType i e out) (getTypeSize e) out 0 length
    | ArrayTy n e =>
        if isDynamicType e then
          let offset := be_tail 8 returnOutput in
          if offset >? Z.of_nat (length output) then None
          else
            let out := drop (Z.to_nat offset) output in
            forEachUnpack (λ i, toGoType i e out) (getTypeSize e) out 0 n
        else
          let out := drop index output in
          forEachUnpack (λ i, toGoType i e out) (getTypeSize e) out 0 n
    | StringTy =>
        '(begin, length) ← lengthPrefixPointsTo index output;
        Some (VString (slice output begin length))
    | BytesTy =>
        '(begin, length) ← lengthPrefixPointsTo index output;
        Some (VBytes (slice output begin length))
    | IntTy _ | UintTy _ => Some (ReadInteger t returnOutput)
    | BoolTy => VBool <$> readBool returnOutput
    | AddressTy => Some (VAddress (BytesToAddress returnOutput))
    | HashTy => Some (VHash (BytesToHash returnOutput))
    | FixedBytesTy n => Some (VFixedBytes (take n returnOutput))
    | FunctionTy => readFunctionType returnOutput
    | FixedPointTy => None
    end.

(** ** Arguments *)

Definition NonIndexed (args : list Argument) : list Argument :=
  List.filter (λ a, negb (arg_indexed a)) args.

Definition UnpackValues (args : list Argument) (data : bytes) : option (list Val) :=
  unpack_seq (λ i t, toGoType i t data) 0 (map arg_type (NonIndexed args)).

Definition Arguments_Unpack (args : list Argument) (data : bytes) : option (list Val) :=
  match data, args with
  | [], _ :: _ => None
  | [], [] => Some []
  | _, _ => UnpackValues args data
  end.

(** ** Lookups *)

(** [abi.MethodById]: the first method in range order with the selector. *)
Definition MethodById (o : RangeOracle) (n : nat) (abi : ABI) (sigdata : bytes) : option Method :=
  if decide (length sigdata < 4)%nat then None
  else List.find (λ m, bool_decide (m_ID m = take 4 sigdata)) (range_map o n (abi_methods abi)).*2.

Definition getArguments (abi : ABI) (name : string) (data : bytes) : option (list Argument) :=
  match abi_methods abi !! name with
  | Some m =>
      if decide (length data mod 32 = 0)%nat then
        match abi_events abi !! name with Some args => args | None => m_outputs m end
      else None
  | None => mjoin (abi_events abi !! name)
  end.

Definition ABI_Unpack (abi : ABI) (name : string) (data : bytes) : option (list Val) :=
  args ← getArguments abi name data; Arguments_Unpack args data.

(** ** Facts *)

(** Induction over a type and the types inside it. *)
Lemma Ty_ind' (P : Ty → Prop) :
  (∀ n, P (IntTy n)) → (∀ n, P (UintTy n)) → P BoolTy → P StringTy →
  (∀ e, P e → P (SliceTy e)) → (∀ n e, P e → P (ArrayTy n e)) →
  (∀ ts, Forall P ts → P (TupleTy ts)) → P AddressTy → (∀ n, P (FixedBytesTy n)) →
  P BytesTy → P HashTy → P FixedPointTy → P FunctionTy →
  ∀ t, P t.
Proof.
  intros HI HU HB HS HSl HA HT HAd HF HBy HH HFp HFn.
  refine (fix IH t := match t with
    | IntTy n => HI n | UintTy n => HU n | BoolTy => HB | StringTy => HS
    | SliceTy e => HSl e (IH e) | ArrayTy n e => HA n e (IH e)
    | TupleTy ts => HT ts _
    | AddressTy => HAd | FixedBytesTy n => HF n | BytesTy => HBy | HashTy => HH
    | FixedPointTy => HFp | FunctionTy => HFn end).
  induction ts; constructor; auto.
Qed.

Lemma toGoType_short index t output :
  (length output < index + 32)%nat → toGoType index t output = None.
Proof. intros. destruct t; simpl; by rewrite decide_True. Qed.

(** The decoded tuple components are an [unpack_seq]. *)
Lemma toGoType_tuple index elems output :
  (index + 32 ≤ length output)%nat →
  toGoType index (TupleTy elems) output =
    if isDynamicType (TupleTy elems) then
      begin ← tuplePointsTo index output;
      VTuple <$> unpack_seq (λ i t, toGoType i t (drop begin output)) 0 elems
    else VTuple <$> unpack_seq (λ i t, toGoType i t (drop index output)) 0 elems.
Proof.
  intros. cbn [toGoType]. rewrite decide_False by lia.
  assert (∀ out k ts,
    (fix go (k : Z) (ts : list Ty) : option (list Val) :=
       match ts with
       | [] => Some []
       | t' :: ts' =>
           v ← toGoType (Z.to_nat (k * 32)) t' out;
           vs ← go (k + 1 + virtualArgs_incr t') ts';
           Some (v :: vs)
       end) k ts = unpack_seq (λ i t, toGoType i t out) k ts) as Hgo.
  { intros out k ts. revert k. induction ts as [|t ts IH]; intros k; [done|].
    cbn [unpack_seq]. by rewrite IH. }
  case_match; [|by rewrite Hgo].
  destruct (tuplePointsTo index output); [|done]. simpl. by rewrite Hgo.
Qed.

(** A method found by its selector is one of the ABI with that selector. *)
Lemma MethodById_Some o n abi data m :
  MethodById o n abi data = Some m →
  (4 ≤ length data)%nat ∧ m_ID m = take 4 data ∧ ∃ key, abi_methods abi !! key = Some m.
Proof.
  unfold MethodById. case_decide; [done|]. intros Hf.
  apply find_some in Hf as [Hin Hid]. apply bool_decide_eq_true in Hid.
  split; [lia|]. split; [done|].
  apply list_elem_of_In, list_elem_of_fmap in Hin as ([key m'] & -> & Hin).
  exists key. by eapply elem_of_range_map.
Qed.

Lemma MethodById_None o n abi data :
  MethodById o n abi data = None →
  (length data < 4)%nat ∨ ∀ key m, abi_methods abi !! key = Some m → m_ID m ≠ take 4 data.
Proof.
  unfold MethodById. case_decide; [by left|]. intros Hf. right. intros key m Hm Hid.
  assert (m ∈ (range_map o n (abi_methods abi)).*2) as Hin.
  { apply list_elem_of_fmap. exists (key, m). split; [done|]. by apply elem_of_range_map. }
  apply list_elem_of_In in Hin.
  eapply find_none in Hf; [|exact Hin]. by apply bool_decide_eq_false in Hf.
Qed.

(** The lookup does not depend on the iteration order when selectors are unique. *)
Lemma MethodById_order o1 n1 o2 n2 abi data :
  (∀ k1 m1 k2 m2, abi_methods abi !! k1 = Some m1 → abi_methods abi !! k2 = Some m2 →
     m_ID m1 = m_ID m2 → m1 = m2) →
  MethodById o1 n1 abi data = MethodById o2 n2 abi data.
Proof.
  intros Huniq.
  destruct (MethodById o1 n1 abi data) as [m1|] eqn:E1;
    destruct (MethodById o2 n2 abi data) as [m2|] eqn:E2; [|exfalso..|done].
  - apply MethodById_Some in E1 as (_ & H1 & k1 & L1). apply MethodById_Some in E2 as (_ & H2 & k2 & L2).
    f_equal. eapply Huniq; eauto. congruence.
  - apply MethodById_Some in E1 as (? & H1 & k1 & L1). apply MethodById_None in E2 as [|Hn]; [lia|].
    by apply (Hn _ _ L1).
  - apply MethodById_Some in E2 as (? & H1 & k1 & L1). apply MethodById_None in E1 as [|Hn]; [lia|].
    by apply (Hn _ _ L1).
Qed.

(** ** The ERC-20 [Transfer] event *)

Definition erc20_Transfer_inputs : list Argument := [
  {| arg_name := "from"; arg_type := AddressTy; arg_indexed := true |};
  {| arg_name := "to"; arg_type := AddressTy; arg_indexed := true |};
  {| arg_name := "value"; arg_type := UintTy 256; arg_indexed := false |}].

(** What the event extraction relies on: [Transfer] is the ERC-20 event and not
    the name of a method. *)
Definition has_Transfer (abi : ABI) : Prop :=
  abi_methods abi !! "Transfer" = None ∧
  abi_events abi !! "Transfer" = Some (Some erc20_Transfer_inputs).

Definition erc20_abi : ABI :=
  {| abi_methods := ∅; abi_events := {[ "Transfer" := Some erc20_Transfer_inputs ]} |}.

Lemma erc20_abi_has_Transfer : has_Transfer erc20_abi.
Proof. by split. Qed.

Lemma Unpack_Transfer abi data :
  has_Transfer abi →
  ABI_Unpack abi "Transfer" data =
    if decide (length data < 32)%nat then None else Some [VBig (be_val (take 32 data))].
Proof.
  intros [Hm He]. unfold ABI_Unpack, getArguments. rewrite Hm, He. cbn [mbind option_bind mjoin option_join].
  unfold Arguments_Unpack, UnpackValues. cbn -[toGoType].
  destruct data as [|b data']; [done|].
  destruct (decide _) as [Hs|Hl].
  - by rewrite toGoType_short.
  - cbn [toGoType]. rewrite decide_False by (simpl in *; lia). done.
Qed.

(** * accounts/abi: encoding

    [accounts/abi/pack.go], the [pack] method of [type.go], the type checks of
    [error_handling.go] and [Pack] of [argument.go] and [abi.go].  An error is
    [Ret None].  Reflection is on [Val]: a list value stands for a slice or an
    array of one element type, and an empty one has the element type asked for;
    the fields of a struct value are in the order of the tuple. *)

(** ** Kinds *)

Inductive Kind :=
| KInvalid | KInt (w : Z) | KUint (w : Z) | KPtr | KBool | KString | KSlice | KArray | KStruct.

#[export] Instance Kind_eq_dec : EqDecision Kind.
Proof. solve_decision. Defined.

(** [reflect.Value.Kind] *)
Definition kind_of (v : Val) : Kind :=
  match v with
  | VUint w _ => KUint w
  | VInt w _ => KInt w
  | VBig _ => KPtr
  | VBool _ => KBool
  | VString _ => KString
  | VBytes _ => KSlice
  | VFixedBytes _ | VAddress _ | VHash _ => KArray
  | VList _ => KSlice
  | VTuple _ => KStruct
  | VNil => KInvalid
  end.

Definition reflectIntType (unsigned : bool) (size : Z) : Kind :=
  if (size =? 8) || (size =? 16) || (size =? 32) || (size =? 64)
  then if unsigned then KUint size else KInt size
  else KPtr.

(** The kind of [t.GetType()]. *)
Definition GetType (t : Ty) : Kind :=
  match t with
  | IntTy w => reflectIntType false w
  | UintTy w => reflectIntType true w
  | BoolTy => KBool
  | StringTy => KString
  | SliceTy _ | BytesTy => KSlice
  | ArrayTy _ _ | AddressTy | FixedBytesTy _ | HashTy | FixedPointTy | FunctionTy => KArray
  | TupleTy _ => KStruct
  end.

(** The kinds of a list value are those of a slice and of an array. *)
Definition kind_matches (want have : Kind) : bool :=
  bool_decide (want = have).

Definition is_list_kind (v : Val) : bool :=
  match v with VList _ => true | _ => false end.

(** [sliceTypeCheck]: [Ret false] is the error, and the zero [Value] of a nil
    interface panics in the message. *)
Fixpoint sliceTypeCheck (t : Ty) (v : Val) : Go bool :=
  match t with
  | SliceTy e | ArrayTy _ e =>
      match v with
      | VNil => Panic NilDereference
      | VList l =>
          if match t with ArrayTy n _ => negb (bool_decide (length l = n)) | _ => false end then Ret false
          else
            match e, l with
            | (SliceTy _ | ArrayTy _ _), x :: _ => sliceTypeCheck e x
            | _, [] => Ret true
            | _, x :: _ => Ret (kind_matches (GetType e) (kind_of x))
            end
      | _ => Ret false
      end
  | _ => Ret false
  end.

Definition val_len (v : Val) : nat :=
  match v with
  | VString s | VBytes s | VFixedBytes s => length s
  | VAddress _ => 20
  | VHash _ => 32
  | VList l => length l
  | _ => 0
  end.

Definition typeCheck (t : Ty) (v : Val) : Go bool :=
  match t with
  | SliceTy _ | ArrayTy _ _ => sliceTypeCheck t v
  | FixedBytesTy n => Ret (kind_matches KArray (kind_of v) && bool_decide (val_len v = n))
  | _ => Ret (kind_matches (GetType t) (kind_of v))
  end.

(** ** Elements *)

(** [math.U256Bytes] *)
Definition U256Bytes (n : Z) : bytes := to_be 32 (wrapU 256 n).

Definition packNum (n : Z) : bytes := U256Bytes n.

Definition packBytesSlice (b : bytes) (l : nat) : bytes :=
  packNum (Z.of_nat l) ++ RightPadBytes b (Z.of_nat ((l + 31) / 32 * 32)).

(** The bytes of an array or slice of bytes. *)
Definition val_bytes (v : Val) : option bytes :=
  match v with
  | VBytes s | VFixedBytes s => Some s
  | VAddress a => Some (Address_Bytes a)
  | VHash h => Some (Hash_Bytes h)
  | _ => None
  end.

Definition packElement (t : Ty) (v : Val) : Go (option bytes) :=
  match t with
  | IntTy _ | UintTy _ =>
      match v with
      | VUint _ x | VInt _ x | VBig x => Ret (Some (packNum x))
      | _ => Panic ExplicitPanic
      end
  | StringTy => match v with VString s => Ret (Some (packBytesSlice s (length s))) | _ => Ret None end
  | AddressTy => Ret ((λ s, LeftPadBytes s 32) <$> val_bytes v)
  | BoolTy => match v with VBool b => Ret (Some (to_be 32 (if b then 1 else 0))) | _ => Ret None end
  | BytesTy => Ret ((λ s, packBytesSlice s (length s)) <$> val_bytes v)
  | FixedBytesTy _ | FunctionTy => Ret ((λ s, RightPadBytes s 32) <$> val_bytes v)
  | _ => Ret None
  end.

(** ** Composite types *)

(** [m] and then [k] on its value; an error ends the computation. *)
Definition go_then {A B : Type} (m : Go (option A)) (k : A → Go (option B)) : Go (option B) :=
  match m with
  | Ret (Some a) => k a
  | Ret None => Ret None
  | Panic p => Panic p
  end.

(** The elements of a slice or array: [ret], [tail] and [offset] are the variables
    of the loop. *)
Fixpoint pack_elems (pack : Val → Go (option bytes)) (offsetReq : bool) (l : list Val)
    (ret tail : bytes) (offset : Z) : Go (option bytes) :=
  match l with
  | [] => Ret (Some (ret ++ tail))
  | v :: l' =>
      go_then (pack v) (λ val,
        if offsetReq
        then pack_elems pack offsetReq l' (ret ++ packNum offset) (tail ++ val) (offset + Z.of_nat (length val))
        else pack_elems pack offsetReq l' (ret ++ val) tail offset)
  end.

(** [t.pack(v)] *)
Fixpoint pack (t : Ty) (v : Val) {struct t} : Go (option bytes) :=
  ok ← typeCheck t v;
  if negb ok then Ret None
  else
    match t with
    | SliceTy e | ArrayTy _ e =>
        let l := match v with VList l => l | _ => [] end in
        let ret := if requiresLengthPrefix t then packNum (Z.of_nat (length l)) else [] in
        let offsetReq := isDynamicType e in
        let offset := if offsetReq then Z.of_nat (getTypeSize e) * Z.of_nat (length l) else 0 in
        pack_elems (pack e) offsetReq l ret [] offset
    | TupleTy elems =>
        let vs := match v with VTuple vs => vs | _ => [] end in
        let offset := foldr (λ e acc, Z.of_nat (getTypeSize e) + acc) 0 elems in
        (fix fields (ts : list Ty) (vs : list Val) (ret tail : bytes) (offset : Z) : Go (option bytes) :=
           match ts, vs with
           | [], _ => Ret (Some (ret ++ tail))
           | _ :: _, [] => Ret None
           | t' :: ts', v' :: vs' =>
               go_then (pack t' v') (λ val,
                 if isDynamicType t'
                 then fields ts' vs' (ret ++ packNum offset) (tail ++ val) (offset + Z.of_nat (length val))
                 else fields ts' vs' (ret ++ val) tail offset)
           end) elems vs [] [] offset
    | _ => packElement t v
    end.

(** ** Arguments and methods *)

(** The loop of [Arguments.Pack]. *)
Fixpoint pack_args (args : list (Argument * Val)) (ret variableInput : bytes) (inputOffset : Z)
    : Go (option bytes) :=
  match args with
  | [] => Ret (Some (ret ++ variableInput))
  | (input, a) :: args' =>
      go_then (pack (arg_type input) a) (λ packed,
        if isDynamicType (arg_type input)
        then pack_args args' (ret ++ packNum inputOffset) (variableInput ++ packed)
               (inputOffset + Z.of_nat (length packed))
        else pack_args args' (ret ++ packed) variableInput inputOffset)
  end.

Definition Arguments_Pack (arguments : list Argument) (args : list Val) : Go (option bytes) :=
  if decide (length args = length arguments) then
    pack_args (zip arguments args) [] []
      (foldr (λ a acc, Z.of_nat (getTypeSize (arg_type a)) + acc) 0 arguments)
  else Ret None.

Definition ABI_Pack (abi : ABI) (name : string) (args : list Val) : Go (option bytes) :=
  match abi_methods abi !! name with
  | None => Ret None
  | Some method => go_then (Arguments_Pack (m_inputs method) args) (λ arguments, Ret (Some (m_ID method ++ arguments)))
  end.
