(* ===== verification/Extractor.v ===== *)
(** * hunter/defi/extractor.go: token flows of recorded transactions

    [TxExtractor] walks the call tree of every historical transaction,
    classifies each call of a proxy as a deposit or a withdrawal by its method
    name, and collects the token transfers it caused; [ExtractActionInfoList]
    then attributes the transfers to users and relates users to each other. *)

From S2P Require Import Prelude BigFloat Common Text Abi Tx.

(** ** Data *)

Record TokenTx := mkTokenTx {
  tt_BlockNumber : Z;
  tt_TxIndex : Z;
  tt_EventIndex : Z;
  tt_Sender : Address;
  tt_To : Address;
  tt_Amount : option Z;
  tt_TokenAddress : Address;
  tt_Action : string
}.

Abbreviation TokenTxMap := (gmap Address (list TokenTx)).
Abbreviation UserTokenTxMap := (gmap Address TokenTxMap).
Abbreviation RelatedMap := (gmap Address Z).
Abbreviation UserRelatedMap := (gmap Address RelatedMap).

Record ProxyInfo := {
  pi_Name : string;
  pi_CreateAt : option Z;
  pi_Deposit : gmap string bool;
  pi_Withdraw : gmap string bool;
  pi_ProxyContracts : list Address;
  pi_LPTokens : list Address
}.

Record StableToken := mkStableToken {
  st_Symbol : string;
  st_Decimals : Z;
  st_XToken : Address;
  st_RateToXToken : Z
}.

(** The zero value a lookup of a missing key gives. *)
Definition zero_StableToken : StableToken := mkStableToken "" 0 0 0.

Record TokenSwap := {
  ts_Symbol : string;
  ts_TokenAddress : Address;
  ts_SwapToken : string;
  ts_RateMap : gmap string float64
}.

Record ActionInfo := {
  ai_Action : string;
  ai_BlockNumber : Z;
  ai_TxIndex : Z;
  ai_TokenTxList : list TokenTx
}.

(** [RelatedToken] is the one map that some callers leave nil: [None].  The field
    [te_tick] numbers the loops over maps executed so far. *)
Record TxExtractor := mkTxExtractor {
  te_ActionMap : gmap string string;
  te_ProxyInfo : ProxyInfo;
  te_ProxyABI : gmap Address ABI;
  te_UserTokenTxMap : UserTokenTxMap;
  te_UserRelatedMap : UserRelatedMap;
  te_ActionInfoList : gmap nat ActionInfo;
  te_AddressCountMap : gmap Address Z;
  te_CommonAddressMap : gmap Address bool;
  te_RelatedToken : option (gmap Address Z);
  te_FlowMergeMode : string;
  te_MethodCountMap : gmap string Z;
  te_LPTokenMap : gmap Address bool;
  te_StableTokenMap : gmap Address StableToken;
  te_TokenSwapMap : gmap Address TokenSwap;
  te_tick : nat
}.

(** ** Assignment to the fields that the methods change *)

Definition set_ProxyABI v (s : TxExtractor) : TxExtractor :=
  let '(mkTxExtractor a b _ d e f g h i j k l m n o) := s in mkTxExtractor a b v d e f g h i j k l m n o.
Definition set_UserTokenTxMap v (s : TxExtractor) : TxExtractor :=
  let '(mkTxExtractor a b c _ e f g h i j k l m n o) := s in mkTxExtractor a b c v e f g h i j k l m n o.
Definition set_UserRelatedMap v (s : TxExtractor) : TxExtractor :=
  let '(mkTxExtractor a b c d _ f g h i j k l m n o) := s in mkTxExtractor a b c d v f g h i j k l m n o.
Definition set_ActionInfoList v (s : TxExtractor) : TxExtractor :=
  let '(mkTxExtractor a b c d e _ g h i j k l m n o) := s in mkTxExtractor a b c d e v g h i j k l m n o.
Definition set_AddressCountMap v (s : TxExtractor) : TxExtractor :=
  let '(mkTxExtractor a b c d e f _ h i j k l m n o) := s in mkTxExtractor a b c d e f v h i j k l m n o.
Definition set_CommonAddressMap v (s : TxExtractor) : TxExtractor :=
  let '(mkTxExtractor a b c d e f g _ i j k l m n o) := s in mkTxExtractor a b c d e f g v i j k l m n o.
Definition set_RelatedToken v (s : TxExtractor) : TxExtractor :=
  let '(mkTxExtractor a b c d e f g h _ j k l m n o) := s in mkTxExtractor a b c d e f g h v j k l m n o.
Definition set_FlowMergeMode v (s : TxExtractor) : TxExtractor :=
  let '(mkTxExtractor a b c d e f g h i _ k l m n o) := s in mkTxExtractor a b c d e f g h i v k l m n o.
Definition set_MethodCountMap v (s : TxExtractor) : TxExtractor :=
  let '(mkTxExtractor a b c d e f g h i j _ l m n o) := s in mkTxExtractor a b c d e f g h i j v l m n o.
Definition set_LPTokenMap v (s : TxExtractor) : TxExtractor :=
  let '(mkTxExtractor a b c d e f g h i j k _ m n o) := s in mkTxExtractor a b c d e f g h i j k v m n o.
Definition next_tick (k : nat) (s : TxExtractor) : TxExtractor :=
  let '(mkTxExtractor a b c d e f g h i j k' l m n o) := s in mkTxExtractor a b c d e f g h i j k' l m n (k + o)%nat.

Section extractor.
Context (o : RangeOracle) (erc20 : ABI).

Definition zeroAddress : Address := 0.
Definition empty_ABI : ABI := {| abi_methods := ∅; abi_events := ∅ |}.

(** ** The action of a call *)

(** The loop over [ActionMap]: a key with action "none" decides at once,
    otherwise the last matching key wins. *)
Fixpoint match_action (lname : string) (entries : list (string * string)) (action : string) : string :=
  match entries with
  | [] => action
  | (name, temp_action) :: rest =>
      if Contains lname name then
        if String.eqb temp_action "none" then "none" else match_action lname rest temp_action
      else match_action lname rest action
  end.

Definition method_string (m : Method) : string :=
  String.append (m_name m) (String.append "(0x" (String.append (EncodeToString (m_ID m)) ")")).

Definition extractAction (input : bytes) (proxy : Address) (s : TxExtractor) : TxExtractor * string :=
  let abi := default empty_ABI (te_ProxyABI s !! proxy) in
  match MethodById o (te_tick s) abi input with
  | None => (next_tick 1 s, "none")
  | Some method =>
      let s' := set_MethodCountMap (map_incr (method_string method) (te_MethodCountMap s)) s in
      (next_tick 2 s',
       match_action (ToLower (m_name method)) (range_map o (S (te_tick s)) (te_ActionMap s)) "none")
  end.

(** ** Events *)

Definition transfer_topic : string :=
  "0xddf252ad1be2c89b69c2b068fc378daa952ba7f163c4a11628f55a4df523b3ef".

Definition is_transfer (event : Event) : bool :=
  match ev_Topics event with
  | [t0; _; _] => String.eqb (Hash_String t0) transfer_topic
  | _ => false
  end.

Definition zero_TokenTx : TokenTx := mkTokenTx 0 0 0 0 0 None 0 "".

(** The result is the transfer and whether the event is one; [res\[0\]] panics
    when the data does not decode. *)
Definition extractEvent (event : Event) : Go (TokenTx * bool) :=
  if is_transfer event then
    match ABI_Unpack erc20 "Transfer" (ev_Data event), ev_Topics event with
    | Some (r :: _), _ :: t1 :: t2 :: _ =>
        let amount := match r with VBig x => Some x | _ => None end in
        Ret (mkTokenTx 0 0 (ev_Index event) (HexToAddress (Hash_String t1))
               (HexToAddress (Hash_String t2)) amount (ev_Address event) "", true)
    | _, _ => Panic IndexOutOfRange
    end
  else Ret (zero_TokenTx, false).

(** ** Walking a call tree *)

(** The transfer of ether a call makes, if any. *)
Definition ether_transfer (tx : InternalTx) : list TokenTx :=
  match itx_Value tx with
  | Some v => if v >? 0 then [mkTokenTx 0 0 0 (itx_From tx) (itx_To tx) (Some (v + 0)) 0 ""] else []
  | None => []
  end.

Definition collect_event (l : list TokenTx) (event : Event) : Go (list TokenTx) :=
  '(tokenTx, isTokenTx) ← extractEvent event;
  Ret (if isTokenTx : bool then l ++ [tokenTx] else l).

(** One transfer of an action: a mint or burn marks a pool token, any other
    transfer counts its two addresses. *)
Definition count_transfer (s : TxExtractor) (t : TokenTx) : TxExtractor :=
  if bool_decide (te_StableTokenMap s !! tt_TokenAddress t = None) &&
     ((tt_Sender t =? zeroAddress) || (tt_To t =? zeroAddress))
  then set_LPTokenMap (<[tt_TokenAddress t := true]> (te_LPTokenMap s)) s
  else set_AddressCountMap
         (map_incr (tt_To t) (map_incr (tt_Sender t) (te_AddressCountMap s))) s.

Definition add_action (ExTx : ExternalTx) (action : string) (l : list TokenTx)
    (s : TxExtractor) : TxExtractor :=
  set_ActionInfoList
    (<[size (te_ActionInfoList s) :=
        {| ai_Action := action; ai_BlockNumber := etx_BlockNumber ExTx;
           ai_TxIndex := etx_TxIndex ExTx; ai_TokenTxList := l |}]> (te_ActionInfoList s)) s.

(** The action of the call, before its children are visited. *)
Definition call_action (tx : InternalTx) (s : TxExtractor) : TxExtractor * string :=
  if bool_decide (is_Some (te_ProxyABI s !! itx_To tx)) && (4 <=? Z.of_nat (length (itx_Input tx)))
  then extractAction (itx_Input tx) (itx_To tx) s
  else (s, "none").

(** What happens to the transfers of a call once its children and events are
    collected: those of an action are recorded, the others go to the caller. *)
Definition finish_call (ExTx : ExternalTx) (action : string) (l : list TokenTx)
    (s : TxExtractor) : TxExtractor * list TokenTx :=
  if String.eqb action "none" then (s, l)
  else (add_action ExTx action l (foldl count_transfer s l), []).

Fixpoint extractInTxInfo (ExTx : ExternalTx) (tx : InternalTx) (s : TxExtractor)
    : Go (TxExtractor * list TokenTx) :=
  let '(s, action) := call_action tx s in
  '(s, l) ← (fix children (txs : list InternalTx) (s : TxExtractor) (l : list TokenTx)
               : Go (TxExtractor * list TokenTx) :=
               match txs with
               | [] => Ret (s, l)
               | t :: txs' =>
                   match extractInTxInfo ExTx t s with
                   | Ret (s', l') => children txs' s' (l ++ l')
                   | Panic p => Panic p
                   end
               end) (itx_InTxs tx) s (ether_transfer tx);
  l ← go_foldl collect_event l (itx_Events tx);
  Ret (finish_call ExTx action l s).

Definition ExtractTokenTx (ExTx : ExternalTx) (s : TxExtractor) : Go TxExtractor :=
  match etx_InTxs ExTx with
  | [tx] => '(s', _) ← extractInTxInfo ExTx tx s; Ret s'
  | _ => Ret s
  end.

(** ** Common addresses *)

Definition is_common (count length : Z) : bool :=
  (count >? 350) || f64_gt_scaled count length f64_0_8.

Definition UpdateCommonAddressMap (s : TxExtractor) : TxExtractor :=
  let length := Z.of_nat (size (te_ActionInfoList s)) in
  let m0 := foldl (λ m '(proxy, _), <[proxy := true]> m) ∅
              (range_map o (te_tick s) (te_ProxyABI s)) in
  let m1 := foldl (λ m '(address, count), if is_common count length then <[address := true]> m else m)
              m0 (range_map o (S (te_tick s)) (te_AddressCountMap s)) in
  next_tick 2 (set_CommonAddressMap m1 s).

(** ** Related users *)

(** [m\[mainUser\]\[relatedUser\]] keeps the least block number. *)
Definition updateUserRelatedMap (m : UserRelatedMap) (mainUser relatedUser : Address)
    (blockNumber : Z) : UserRelatedMap :=
  if mainUser =? relatedUser then m
  else
    let rm := default ∅ (m !! mainUser) in
    match rm !! relatedUser with
    | None => <[mainUser := <[relatedUser := blockNumber]> rm]> m
    | Some b => if b >? blockNumber then <[mainUser := <[relatedUser := blockNumber]> rm]> m
                else <[mainUser := rm]> m
    end.

(** ** Attributing transfers to users *)

(** The first loop over the transfers of an action: pool-token mints and burns
    name the beneficiaries, the other pool-token transfers are dropped. *)
Record SplitTransfers := mkSplit {
  sp_depositTo : list Address;
  sp_withdrawFrom : list Address;
  sp_withoutLP : list TokenTx
}.

Definition split_transfer (lp : gmap Address bool) (acc : SplitTransfers) (t : TokenTx) : SplitTransfers :=
  let '(mkSplit d w l) := acc in
  if bool_decide (is_Some (lp !! tt_TokenAddress t)) then
    if tt_Sender t =? zeroAddress then mkSplit (d ++ [tt_To t]) w l
    else if tt_To t =? zeroAddress then mkSplit d (w ++ [tt_Sender t]) l
    else acc
  else mkSplit d w (l ++ [t]).

Definition append_tokenTx (m : UserTokenTxMap) (user token : Address) (t : TokenTx) : UserTokenTxMap :=
  let tm := default ∅ (m !! user) in
  <[user := <[token := default [] (tm !! token) ++ [t]]> tm]> m.

Definition incr_RelatedToken (token : Address) (s : TxExtractor) : Go TxExtractor :=
  match te_RelatedToken s with
  | Some m => Ret (set_RelatedToken (Some (map_incr token m)) s)
  | None => Panic NilMapWrite
  end.

(** The second loop: one transfer that is not of a pool token. *)
Definition attribute_transfer (ai : ActionInfo) (sp : SplitTransfers) (s : TxExtractor) (t0 : TokenTx)
    : Go TxExtractor :=
  let t := mkTokenTx (ai_BlockNumber ai) (ai_TxIndex ai) (tt_EventIndex t0) (tt_Sender t0)
             (tt_To t0) (tt_Amount t0) (tt_TokenAddress t0) (ai_Action ai) in
  let token := tt_TokenAddress t in
  if String.eqb (ai_Action ai) "withdraw" then
    if default false (te_CommonAddressMap s !! tt_Sender t) then
      let s := set_UserTokenTxMap (append_tokenTx (te_UserTokenTxMap s) (tt_To t) token t) s in
      let s := set_UserRelatedMap
                 (foldl (λ m relatedUser, updateUserRelatedMap m (tt_To t) relatedUser (ai_BlockNumber ai))
                    (te_UserRelatedMap s) (sp_withdrawFrom sp)) s in
      incr_RelatedToken token s
    else Ret s
  else if String.eqb (ai_Action ai) "deposit" then
    if default false (te_CommonAddressMap s !! tt_To t) then
      let s := set_UserTokenTxMap (append_tokenTx (te_UserTokenTxMap s) (tt_Sender t) token t) s in
      let s := set_UserRelatedMap
                 (foldl (λ m relatedUser, updateUserRelatedMap m relatedUser (tt_Sender t) (ai_BlockNumber ai))
                    (te_UserRelatedMap s) (sp_depositTo sp)) s in
      incr_RelatedToken token s
    else Ret s
  else Ret s.

Definition attribute_action (s : TxExtractor) (ai : ActionInfo) : Go TxExtractor :=
  let sp := foldl (split_transfer (te_LPTokenMap s)) (mkSplit [] [] []) (ai_TokenTxList ai) in
  go_foldl (attribute_transfer ai sp) s (sp_withoutLP sp).

(** The mode in which flows of different tokens are merged. *)
Definition token_mode (st : gmap Address StableToken) (token : Address) : string :=
  let x := st_XToken (default zero_StableToken (st !! token)) in
  if x =? 1 then "eth" else if x =? 2 then "usd" else if x =? 3 then "btc" else "others".

Definition merge_mode (modeMap : gmap string Z) : string :=
  let n k := default 0 (modeMap !! k) in
  if bool_decide (size modeMap = 1%nat) then
    if n "eth" >? 0 then "eth"
    else if n "usd" >? 0 then "usd"
    else if n "btc" >? 0 then "btc"
    else if n "others" >? 1 then "mix"
    else "single"
  else "mix".

Definition ExtractActionInfoList (s : TxExtractor) : Go TxExtractor :=
  s ← go_foldl (λ s '(_, ai), attribute_action s ai) s (range_map o (te_tick s) (te_ActionInfoList s));
  let modeMap := foldl (λ m '(token, _), map_incr (token_mode (te_StableTokenMap s) token) m) ∅
                   (range_map o (S (te_tick s)) (default ∅ (te_RelatedToken s))) in
  Ret (next_tick 2 (set_FlowMergeMode (merge_mode modeMap) s)).

(** ** Transfers of pool tokens between users *)

Definition stake_event (block : Z) (s : TxExtractor) (event : Event) : Go TxExtractor :=
  '(t, isTokenTx) ← extractEvent event;
  if (isTokenTx : bool) && bool_decide (is_Some (te_LPTokenMap s !! tt_TokenAddress t)) &&
     negb (tt_Sender t =? zeroAddress) && negb (tt_To t =? zeroAddress)
  then Ret (set_UserRelatedMap (updateUserRelatedMap (te_UserRelatedMap s) (tt_To t) (tt_Sender t) block) s)
  else Ret s.

Fixpoint extractInTxForStake (ExTx : ExternalTx) (tx : InternalTx) (s : TxExtractor) : Go TxExtractor :=
  s ← (fix children (txs : list InternalTx) (s : TxExtractor) : Go TxExtractor :=
         match txs with
         | [] => Ret s
         | t :: txs' =>
             match extractInTxForStake ExTx t s with
             | Ret s' => children txs' s'
             | Panic p => Panic p
             end
         end) (itx_InTxs tx) s;
  go_foldl (stake_event (etx_BlockNumber ExTx)) s (itx_Events tx).

Definition ExtractStakeTokenTx (ExTx : ExternalTx) (s : TxExtractor) : Go TxExtractor :=
  match etx_InTxs ExTx with
  | [tx] => extractInTxForStake ExTx tx s
  | _ => Ret s
  end.

(** [Init], with the ABI of each proxy contract already loaded. *)
Definition Init (load : Address → ABI) (s : TxExtractor) : TxExtractor :=
  let s := set_ProxyABI (foldl (λ m proxy, <[proxy := load proxy]> m) ∅
                           (pi_ProxyContracts (te_ProxyInfo s))) s in
  set_LPTokenMap (foldl (λ m token, <[token := true]> m) ∅ (pi_LPTokens (te_ProxyInfo s))) s.

(** [LoadActionMap], with the JSON file already decoded. *)
Definition LoadActionMap (n : nat) (temp_map : gmap string (list string)) : gmap string string :=
  foldl (λ m '(action, names), foldl (λ m name, <[name := action]> m) m names) ∅
    (range_map o n temp_map).

(** ** Loading the history

    A directory listing in the order of [ioutil.ReadDir], with the files already
    loaded. *)
Definition InitTokenUserTxMap (block : Z) (files : list (string * ExternalTx)) (s : TxExtractor) : Go TxExtractor :=
  go_foldl (λ s '(name, ExTx), if file_block name <=? block then ExtractTokenTx ExTx s else Ret s) s files.

(** This loop stops at the first file that is too recent. *)
Fixpoint InitUserRelatedMapWithStake (block : Z) (files : list (string * ExternalTx)) (s : TxExtractor)
    : Go TxExtractor :=
  match files with
  | [] => Ret s
  | (name, ExTx) :: files' =>
      if file_block name <=? block then
        s ← ExtractStakeTokenTx ExTx s; InitUserRelatedMapWithStake block files' s
      else Ret s
  end.

(** ** Copies *)

Definition DeepCpUserTokenTxMap (n : nat) (m : UserTokenTxMap) : UserTokenTxMap :=
  foldl (λ acc '(user, tm),
    <[user := foldl (λ acc' '(token, l),
        foldl (λ acc'' t, <[token := default [] (acc'' !! token) ++ [t]]> acc'') acc' l) ∅
        (range_map o (S n) tm)]> acc) ∅ (range_map o n m).

Definition DeepCpUserRelatedMap (n : nat) (m : UserRelatedMap) : UserRelatedMap :=
  foldl (λ acc '(user, rm),
    <[user := foldl (λ acc' '(related, b), <[related := b]> acc') ∅ (range_map o (S n) rm)]> acc)
    ∅ (range_map o n m).
End extractor.

(** * hunter/defi: configuration files, collectors and common addresses of a relation

    [defi.go], [token.go] and [collector.go].  A CSV file is the list of its
    records after the header row, already split into fields; a directory is the
    list of its file names with their contents; a file written is its path and
    the recorded transaction. *)

(** ** defi.go *)

Definition clean (s : string) : string := ToLower (TrimSpace s).

(** One record of the list of applications. *)
Definition load_proxy (proxyInfoMap : gmap string ProxyInfo) (record : list string) : Go (gmap string ProxyInfo) :=
  r0 ← field record 0; r1 ← field record 1; r4 ← field record 4;
  let proxyName := TrimSpace (ToLower r0) in
  let proxyContracts := HexToAddress <$> Split (clean r4) semicolon in
  r2 ← field record 2; r3 ← field record 3;
  let signatures r := foldl (λ m signature, <[signature := true]> m) ∅ (Split (clean r) semicolon) in
  r5 ← field record 5;
  let LPTokens := if (42 <=? Z.of_nat (String.length r5)) then HexToAddress <$> Split (clean r5) semicolon else [] in
  Ret (<[proxyName := {| pi_Name := proxyName; pi_CreateAt := SetString10 (TrimSpace r1);
                         pi_Deposit := signatures r2; pi_Withdraw := signatures r3;
                         pi_ProxyContracts := proxyContracts; pi_LPTokens := LPTokens |}]> proxyInfoMap).

(** The loop over the records ends at an empty one. *)
Fixpoint csv_loop {A : Type} (step : A → list string → Go A) (acc : A) (records : list (list string)) : Go A :=
  match records with
  | [] => Ret acc
  | [] :: _ => Ret acc
  | record :: records' => acc' ← step acc record; csv_loop step acc' records'
  end.

Definition LoadDefi (records : list (list string)) : Go (gmap string ProxyInfo) := csv_loop load_proxy ∅ records.

(** Count in how many relations an address occurs. *)
Definition FindCommonAddress (o : RangeOracle) (n : nat) (userRelatedMap : UserRelatedMap) : gmap Address bool :=
  let '(userCount, counts) :=
    foldl (λ '(userCount, counts) '(_, rm),
             (userCount + 1,
              foldl (λ counts '(relatedAddress, _), map_incr relatedAddress counts) counts (range_map o (S n) rm)))
      (0, ∅ : gmap Address Z) (range_map o n userRelatedMap) in
  foldl (λ m '(relatedAddress, count),
           if f64_gt_scaled count userCount f64_0_9 then <[relatedAddress := true]> m else m) ∅
    (range_map o (S (S n)) counts).

(** ** token.go *)

Record Token := { tk_Symbol : string; tk_Address : Address; tk_Decimals : Z }.

(** [LoadTokenSwapInfo]: the rate files of a directory, already decoded. *)
Definition load_token_swap (tokenMap : gmap string Token) (m : gmap Address TokenSwap)
    (f : string * gmap string float64) : Go (gmap Address TokenSwap) :=
  let '(name, rates) := f in
  match name_parts name with
  | atoken :: btoken :: _ =>
      let tokenAddress := match tokenMap !! atoken with Some t => tk_Address t | None => 0 end in
      Ret (<[tokenAddress := {| ts_Symbol := atoken; ts_TokenAddress := tokenAddress;
                                ts_SwapToken := btoken; ts_RateMap := rates |}]> m)
  | _ => Panic IndexOutOfRange
  end.

Definition LoadTokenSwapInfo (tokenMap : gmap string Token) (files : list (string * gmap string float64))
    : Go (gmap Address TokenSwap) :=
  go_foldl (load_token_swap tokenMap) ∅ files.

Definition xtoken_of (name : string) : Address :=
  if String.eqb name "stableTokenToETH.csv" then HexToAddress "0x1"
  else if String.eqb name "stableTokenToUSD.csv" then HexToAddress "0x2"
  else if String.eqb name "stableTokenToBTC.csv" then HexToAddress "0x3"
  else 0.

Definition load_stable (xtoken : Address) (m : gmap Address StableToken) (record : list string)
    : Go (gmap Address StableToken) :=
  r0 ← field record 0; r1 ← field record 1; r2 ← field record 2; r3 ← field record 3;
  Ret (<[HexToAddress (clean r1) :=
          {| st_Symbol := clean r0; st_Decimals := (Atoi (TrimSpace r3)).1; st_XToken := xtoken;
             st_RateToXToken := (ParseInt (TrimSpace r2)).1 |}]> m).

Definition LoadStableTokenInfo (files : list (string * list (list string))) : Go (gmap Address StableToken) :=
  go_foldl (λ m '(name, records), csv_loop (load_stable (xtoken_of name)) m records) ∅ files.

Record TokenInfo := { tki_Symbol : string; tki_SwapToWeth : Address }.

Definition zero_address_text : string := "0x0000000000000000000000000000000000000000".

Definition load_init_token (acc : gmap string string * gmap Address TokenInfo) (record : list string)
    : Go (gmap string string * gmap Address TokenInfo) :=
  let '(swaps, infos) := acc in
  r0 ← field record 0; r3 ← field record 3; r4 ← field record 4; r2 ← field record 2;
  let symbol := TrimSpace (ToLower r0) in
  let btoken := TrimSpace (ToLower r3) in
  let swaps := if negb (String.eqb (clean r2) zero_address_text)
               then <[clean r4 := String.append symbol (String.append "_" btoken)]> swaps else swaps in
  Ret (swaps, <[HexToAddress (clean r4) := {| tki_Symbol := symbol; tki_SwapToWeth := HexToAddress (clean r2) |}]> infos).

Definition LoadInitTokenInfo (records : list (list string)) : Go (gmap string string * gmap Address TokenInfo) :=
  csv_loop load_init_token (∅, ∅) records.

(** ** Collectors

    The paths under which a recorded transaction is stored.  [keccak256] is a
    parameter: the addresses are printed with their checksum and lower-cased. *)
Section collectors.
Context (keccak256 : bytes → bytes) (o : RangeOracle) (erc20 : ABI).

Definition callTo (tx : InternalTx) : string := ToLower (Address_String keccak256 (itx_To tx)).

(** The related applications found so far: of proxies and of staked tokens. *)
Abbreviation DumpDicts := (gmap string string * gmap string string)%type.

Section tx_collector.
Context (ProxyMap StakeMap : gmap string string).

(** The head of [ParseTxTreeUtil], shared by the collectors of transactions and
    of environments. *)
Definition collect_call (d : DumpDicts) (tx : InternalTx) : DumpDicts :=
  let '(proxy, stake) := d in
  let proxy := match ProxyMap !! callTo tx with Some n => <[callTo tx := n]> proxy | None => proxy end in
  let stake := match StakeMap !! callTo tx with
               | Some n => if negb (String.eqb (itx_CallType tx) "StaticCall") then <[callTo tx := n]> stake else stake
               | None => stake
               end in
  (proxy, stake).

Definition collector_event (d : DumpDicts) (event : Event) : Go DumpDicts :=
  let '(proxy, stake) := d in
  if is_transfer event then
    match ABI_Unpack erc20 "Transfer" (ev_Data event), ev_Topics event with
    | Some (_ :: _), _ :: t1 :: t2 :: _ =>
        let text t := ToLower (Address_String keccak256 (HexToAddress (Hash_String t))) in
        Ret (match ProxyMap !! text t1 with
             | Some n => <[text t1 := n]> proxy
             | None => match ProxyMap !! text t2 with Some n => <[text t2 := n]> proxy | None => proxy end
             end, stake)
    | _, _ => Panic IndexOutOfRange
    end
  else Ret d.

Fixpoint ParseTxTreeUtil (tx : InternalTx) (d : DumpDicts) : Go DumpDicts :=
  d ← (fix children (txs : list InternalTx) (d : DumpDicts) : Go DumpDicts :=
         match txs with
         | [] => Ret d
         | t :: txs' => match ParseTxTreeUtil t d with Ret d' => children txs' d' | Panic p => Panic p end
         end) (itx_InTxs tx) (collect_call d tx);
  go_foldl collector_event d (itx_Events tx).

(** The paths [ParseTxAndDump] writes to. *)
Definition ParseTxAndDump (n : nat) (ExTx : ExternalTx) : Go (list string) :=
  '(proxy, stake) ← match etx_InTxs ExTx with [tx] => ParseTxTreeUtil tx (∅, ∅) | _ => Ret (∅, ∅) end;
  Ret (((λ '(_, name), String.append "hunter/dataset/" (String.append name "/proxy")) <$> range_map o n proxy) ++
       ((λ '(_, name), String.append "hunter/dataset/" (String.append name "/stake")) <$> range_map o (S n) stake)).

(** *** hunter/fuzz/env.go: environments, found by the calls alone *)

Fixpoint env_ParseTxTreeUtil (tx : InternalTx) (d : DumpDicts) : DumpDicts :=
  (fix children (txs : list InternalTx) (d : DumpDicts) : DumpDicts :=
     match txs with [] => d | t :: txs' => children txs' (env_ParseTxTreeUtil t d) end)
    (itx_InTxs tx) (collect_call d tx).

Definition env_file (ExTx : ExternalTx) (name : string) : string :=
  String.append "hunter/seed_and_env/"
    (String.append name
      (String.append "/statedb/output/"
        (String.append (pretty (etx_BlockNumber ExTx))
          (String.append "_" (String.append (pretty (etx_TxIndex ExTx)) ".json"))))).

(** The paths [CollectEnv] writes the allocation after the transaction to; a
    staked token is looked up in the dictionary of proxies. *)
Definition CollectEnv (n : nat) (ExTx : ExternalTx) : list string :=
  let '(proxy, stake) := match etx_InTxs ExTx with [tx] => env_ParseTxTreeUtil tx (∅, ∅) | _ => (∅, ∅) end in
  ((λ '(_, name), env_file ExTx name) <$> range_map o n proxy) ++
  ((λ '(token, _), env_file ExTx (default "" (proxy !! token))) <$> range_map o (S n) stake).
End tx_collector.

(** *** Swaps of token pairs *)

Definition functionSignature (input : bytes) : string :=
  if 8 <=? Z.of_nat (String.length (EncodeToString input))
  then String.append "0x" (String.substring 0 8 (EncodeToString input)) else "".

Fixpoint collectTokenSwapUtil (TokenSwapMap : gmap string string) (tx : InternalTx) (d : gmap string string)
    : gmap string string :=
  let d := match TokenSwapMap !! callTo tx with
           | Some n => if String.eqb (functionSignature (itx_Input tx)) "0x022c0d9f" then <[callTo tx := n]> d else d
           | None => d
           end in
  (fix children (txs : list InternalTx) (d : gmap string string) : gmap string string :=
     match txs with [] => d | t :: txs' => children txs' (collectTokenSwapUtil TokenSwapMap t d) end) (itx_InTxs tx) d.

Definition CollectTokenSwap (n : nat) (TokenSwapMap : gmap string string) (DumpPath : string) (ExTx : ExternalTx)
    : list string :=
  let d := match etx_InTxs ExTx with [tx] => collectTokenSwapUtil TokenSwapMap tx ∅ | _ => ∅ end in
  (λ '(_, name), String.append DumpPath (String.append "/" name)) <$> range_map o n d.
End collectors.
