(* ===== verification/Fuzz.v ===== *)
(** * hunter/fuzz: seeds and generated messages

    [args.go], [seedPool.go], [seed.go] and [msg.go]: recorded calls are taken
    apart into pools of values, from which new calls are generated or mutated.
    Randomness (crypto/rand and math/rand) is an oracle that numbers its draws. *)

From S2P Require Import Prelude Common Text Abi Tx Extractor.

(** ** Randomness *)

(** [draw k max] is the [k]-th number drawn below [max]. *)
Record Random := {
  draw : nat → Z → Z;
  draw_range : ∀ k max, 0 < max → 0 ≤ draw k max < max
}.

Lemma draw_mod_range (k : nat) max : 0 < max → 0 ≤ Z.of_nat k mod max < max.
Proof. apply Z.mod_pos_bound. Qed.

Definition counting_random : Random := {| draw := λ k max, Z.of_nat k mod max; draw_range := draw_mod_range |}.

(** Computations that draw numbers, may panic, and count the draws. *)
Definition Rnd (A : Type) : Type := nat → Go (A * nat).

Definition rnd_ret {A} (a : A) : Rnd A := λ k, Ret (a, k).
Definition rnd_bind {A B} (m : Rnd A) (f : A → Rnd B) : Rnd B :=
  λ k, match m k with Ret (a, k') => f a k' | Panic p => Panic p end.
Definition rnd_go {A} (m : Go A) : Rnd A := λ k, match m with Ret a => Ret (a, k) | Panic p => Panic p end.

Notation "x ←ʳ m ; k" := (rnd_bind m (λ x, k)) (at level 100, m at next level, right associativity) : idw_scope.
#[local] Open Scope idw_scope.

Section random.
Context (r : Random).

(** [cryptoRand.Int] panics on a bound that is not positive. *)
Definition crypto_Int (max : Z) : Rnd Z :=
  λ k, if max <=? 0 then Panic ExplicitPanic else Ret (draw r k max, S k).

(** [mathRand.Read] *)
Fixpoint rand_bytes (n : nat) : Rnd bytes :=
  match n with
  | O => rnd_ret []
  | S n' => b ←ʳ (λ k, Ret (draw r k 256, S k)); bs ←ʳ rand_bytes n'; rnd_ret (b :: bs)
  end.

(** An element of a list; [l\[n\]] does not panic as the draw is in range. *)
Definition pick_from {A} (l : list A) : Rnd A :=
  n ←ʳ crypto_Int (Z.of_nat (length l));
  rnd_go (match l !! Z.to_nat n with Some x => Ret x | None => Panic IndexOutOfRange end).

(** ** args.go *)

Definition AddressPool : list string :=
  ["0x0000000000000000000000000000000000000000"; "0xffffffffffffffffffffffffffffffffffffffff"].

Definition IntPool : list string :=
  ["-1"; "-2"; "-10"; "-100"; "-1000"; "-100000"; "-100000000"; "-100000000000"; "-1000000000000000";
   "-100000000000000000000"; "0"; "1"; "2"; "10"; "100"; "1000"; "100000"; "100000000"; "100000000000";
   "1000000000000000"; "100000000000000000000"].

Definition UintPool : list string :=
  ["0"; "1"; "2"; "10"; "100"; "1000"; "100000"; "100000000"; "100000000000"; "1000000000000000";
   "100000000000000000000"].

Definition EtherPool : list string :=
  ["0"; "1"; "2"; "10"; "100"; "1000"; "100000"; "100000000"; "100000000000"; "1000000000000000";
   "1000000000000000000"; "2000000000000000000"; "100000000000000000000"].

(** ** seedPool.go *)

(** The maps are [None] when nil, as in the pool [updateMapToList] returns. *)
Record SeedPool := {
  sp_AddressSeedMap : option (gmap Address Z);
  sp_AddressSeedList : list Address;
  sp_UintSeedMap : option (gmap Z Z);
  sp_UintSeedList : list Z;
  sp_IntSeedMap : option (gmap Z Z);
  sp_IntSeedList : list Z;
  sp_EtherAmountSeedMap : option (gmap string Z);
  sp_EtherAmountSeedList : list string
}.

Definition empty_pool : SeedPool := Build_SeedPool None [] None [] None [] None [].

(** [m\[k\] += 1] on a map that may be nil. *)
Definition incr_opt {K} `{Countable K} (k : K) (m : option (gmap K Z)) : Go (option (gmap K Z)) :=
  match m with Some m => Ret (Some (map_incr k m)) | None => Panic NilMapWrite end.

Definition count_all {K} `{Countable K} (l : list K) : gmap K Z := foldl (λ m k, map_incr k m) ∅ l.

Definition initSeedPool (p : SeedPool) : SeedPool :=
  {| sp_AddressSeedMap := Some (count_all (HexToAddress <$> AddressPool));
     sp_AddressSeedList := sp_AddressSeedList p;
     sp_UintSeedMap := Some (count_all ((λ s, (ParseUint s).1) <$> UintPool));
     sp_UintSeedList := sp_UintSeedList p;
     sp_IntSeedMap := Some (count_all ((λ s, (ParseInt s).1) <$> IntPool));
     sp_IntSeedList := sp_IntSeedList p;
     sp_EtherAmountSeedMap := Some (count_all EtherPool);
     sp_EtherAmountSeedList := sp_EtherAmountSeedList p |}.

Definition keys_of {K} `{Countable K} (o : RangeOracle) (n : nat) (m : option (gmap K Z)) : list K :=
  (range_map o n (default ∅ m)).*1.

(** The pool of lists that the code goes on with: its maps are nil. *)
Definition pool_lists (o : RangeOracle) (n : nat) (p : SeedPool) : SeedPool :=
  {| sp_AddressSeedMap := None; sp_AddressSeedList := keys_of o (n + 2) (sp_AddressSeedMap p);
     sp_UintSeedMap := None; sp_UintSeedList := keys_of o (n + 1) (sp_UintSeedMap p);
     sp_IntSeedMap := None; sp_IntSeedList := keys_of o n (sp_IntSeedMap p);
     sp_EtherAmountSeedMap := None; sp_EtherAmountSeedList := keys_of o (n + 3) (sp_EtherAmountSeedMap p) |}.

Record Contract := {
  ct_Abi : ABI;
  ct_MethodCallMap : gmap string (list bytes);
  ct_MethodList : list string
}.

(** [args\[index\].(T)]: the argument of a declared type, with the assertion that
    it has the Go type [T]. *)
Definition nth_arg (args : list Val) (index : nat) : Go Val :=
  match args !! index with Some v => Ret v | None => Panic IndexOutOfRange end.

Definition as_big (v : Val) : Go Z := match v with VBig x => Ret x | _ => Panic TypeAssertion end.
Definition as_address (v : Val) : Go Address := match v with VAddress a => Ret a | _ => Panic TypeAssertion end.

Definition set_ints (m : option (gmap Z Z)) (p : SeedPool) : SeedPool :=
  Build_SeedPool (sp_AddressSeedMap p) (sp_AddressSeedList p) (sp_UintSeedMap p) (sp_UintSeedList p)
    m (sp_IntSeedList p) (sp_EtherAmountSeedMap p) (sp_EtherAmountSeedList p).
Definition set_uints (m : option (gmap Z Z)) (p : SeedPool) : SeedPool :=
  Build_SeedPool (sp_AddressSeedMap p) (sp_AddressSeedList p) m (sp_UintSeedList p)
    (sp_IntSeedMap p) (sp_IntSeedList p) (sp_EtherAmountSeedMap p) (sp_EtherAmountSeedList p).
Definition set_addresses (m : option (gmap Address Z)) (p : SeedPool) : SeedPool :=
  Build_SeedPool m (sp_AddressSeedList p) (sp_UintSeedMap p) (sp_UintSeedList p)
    (sp_IntSeedMap p) (sp_IntSeedList p) (sp_EtherAmountSeedMap p) (sp_EtherAmountSeedList p).
Definition set_ethers (m : option (gmap string Z)) (p : SeedPool) : SeedPool :=
  Build_SeedPool (sp_AddressSeedMap p) (sp_AddressSeedList p) (sp_UintSeedMap p) (sp_UintSeedList p)
    (sp_IntSeedMap p) (sp_IntSeedList p) m (sp_EtherAmountSeedList p).

(** The case of one argument. *)
Definition parse_arg (args : list Val) (p : SeedPool) (e : nat * Argument) : Go SeedPool :=
  let '(index, arg) := e in
  match arg_type arg with
  | IntTy _ =>
      v ← nth_arg args index; x ← as_big v; m ← incr_opt (wrapS 64 x) (sp_IntSeedMap p); Ret (set_ints m p)
  | UintTy _ =>
      v ← nth_arg args index; x ← as_big v; m ← incr_opt (wrapU 64 x) (sp_UintSeedMap p); Ret (set_uints m p)
  | AddressTy =>
      v ← nth_arg args index; a ← as_address v; m ← incr_opt a (sp_AddressSeedMap p); Ret (set_addresses m p)
  | _ => Ret p
  end.

(** The call is recorded with its method, and its arguments go to the pools; a
    decoding error leaves no arguments. *)
Definition parseMethodArgs (o : RangeOracle) (n : nat) (contract : Contract) (data : bytes) (p : SeedPool)
    : Go (Contract * SeedPool) :=
  match MethodById o n (ct_Abi contract) data with
  | None => Ret (contract, p)
  | Some method =>
      let calls := default [] (ct_MethodCallMap contract !! m_name method) ++ [data] in
      let contract := {| ct_Abi := ct_Abi contract;
                         ct_MethodCallMap := <[m_name method := calls]> (ct_MethodCallMap contract);
                         ct_MethodList := ct_MethodList contract |} in
      let args := default [] (Arguments_Unpack (m_inputs method) (drop 4 data)) in
      p ← go_foldl (parse_arg args) p (imap pair (NonIndexed (m_inputs method)));
      Ret (contract, p)
  end.

(** *** Generation of values *)

Definition selectInt (p : SeedPool) (size : Z) : Rnd Val :=
  x ←ʳ pick_from (sp_IntSeedList p);
  rnd_ret (if (size =? 8) || (size =? 16) || (size =? 32) || (size =? 64)
           then VInt size (wrapS size x) else VBig x).

Definition selectUint (p : SeedPool) (size : Z) : Rnd Val :=
  x ←ʳ pick_from (sp_UintSeedList p);
  rnd_ret (if (size =? 8) || (size =? 16) || (size =? 32) || (size =? 64)
           then VUint size (wrapU size x) else VBig x).

(** The sender itself for 51 of 100 draws with rate 50. *)
Definition selectAddress (p : SeedPool) (rateForFrom : Z) (from : Address) : Rnd Address :=
  x ←ʳ crypto_Int 100;
  if x <=? rateForFrom then rnd_ret from else pick_from (sp_AddressSeedList p).

(** [None] is the nil of a text that is not a number. *)
Definition SelectEtherAmount (p : SeedPool) : Rnd (option Z) :=
  s ←ʳ pick_from (sp_EtherAmountSeedList p); rnd_ret (SetString10 s).

Definition letter (n : Z) : Z := if n <? 26 then 97 + n else 65 + (n - 26).

Fixpoint rand_letters (n : nat) : Rnd bytes :=
  match n with
  | O => rnd_ret []
  | S n' => x ←ʳ (λ k, Ret (draw r k 52, S k)); bs ←ʳ rand_letters n'; rnd_ret (letter x :: bs)
  end.

Definition generateString : Rnd bytes := n ←ʳ crypto_Int 100; rand_letters (Z.to_nat n).

Definition fixed_lengths : list nat := [4; 8; 32; 64; 96; 128; 160; 192; 224; 256]%nat.

Definition generateFixBytes (length : nat) : Rnd Val :=
  if bool_decide (length ∈ fixed_lengths)
  then bs ←ʳ rand_bytes length; rnd_ret (VFixedBytes bs)
  else rnd_ret (VFixedBytes []).

Definition length_list : list nat := [0; 32; 64; 96; 128; 160; 192; 224; 256]%nat.

Definition generateBytes : Rnd bytes :=
  n ←ʳ crypto_Int 9; rand_bytes (default 0%nat (length_list !! Z.to_nat n)).

Definition generateTypeInput (p : SeedPool) (t : Ty) (from : Address) : Rnd Val :=
  match t with
  | IntTy size => selectInt p size
  | UintTy size => selectUint p size
  | BoolTy => n ←ʳ crypto_Int 2; rnd_ret (VBool (n =? 0))
  | AddressTy => a ←ʳ selectAddress p 50 from; rnd_ret (VAddress a)
  | FixedBytesTy size => generateFixBytes size
  | BytesTy => b ←ʳ generateBytes; rnd_ret (VBytes b)
  | StringTy => s ←ʳ generateString; rnd_ret (VString s)
  | _ => rnd_ret VNil
  end.
End random.

(** * hunter/fuzz: the seed of a fuzzing run and the messages it generates

    [seed.go] and [msg.go], on the pools and generators of [Fuzz]. *)

#[local] Open Scope idw_scope.

(** ** Messages *)

(** [types.Message]; the access list is always empty here. *)
Record Message := {
  msg_from : Address;
  msg_to : option Address;
  msg_nonce : Z;
  msg_amount : option Z;
  msg_gasLimit : Z;
  msg_gasPrice : Z;
  msg_gasFeeCap : Z;
  msg_gasTipCap : Z;
  msg_data : bytes;
  msg_isFake : bool
}.

Definition new_message (from to : Address) (amount : option Z) (data : bytes) : Message :=
  {| msg_from := from; msg_to := Some to; msg_nonce := 0; msg_amount := amount; msg_gasLimit := 8000000;
     msg_gasPrice := 350000000000; msg_gasFeeCap := 350000000000; msg_gasTipCap := 350000000000;
     msg_data := data; msg_isFake := false |}.

(** The path under which a message is stored, per related application. *)
Section collector.
Context (keccak256 : bytes → bytes) (ProxyMap StakeMap : gmap string string).

Definition msg_path (name kind : string) (blockNumber txIndex : Z) : string :=
  String.append "hunter/seed_and_env/"
    (String.append name
      (String.append kind (String.append (pretty blockNumber) (String.append "_" (String.append (pretty txIndex) ".json"))))).

(** A message of a staked token is named by the map of proxies. *)
Definition CollectMsg (msg : Message) (blockNumber txIndex : Z) : Go (list string) :=
  match msg_to msg with
  | None => Panic NilDereference
  | Some to =>
      let callTo := ToLower (Address_String keccak256 to) in
      Ret ((match ProxyMap !! callTo with
            | Some name => [msg_path name "/msg/proxy/" blockNumber txIndex]
            | None => []
            end) ++
           (if bool_decide (is_Some (StakeMap !! callTo))
            then [msg_path (default "" (ProxyMap !! callTo)) "/msg/stake/" blockNumber txIndex] else []))
  end.
End collector.

(** [LoadMsgs] and [LoadAllocs]: the files before the block, up to the first that
    is not. *)
Fixpoint load_before {A : Type} (block : Z) (files : list (string * A)) : list A :=
  match files with
  | [] => []
  | (name, a) :: files' => if file_block name <? block then a :: load_before block files' else []
  end.

(** [LoadTxs]: all the files up to the block. *)
Definition LoadTxs {A : Type} (block : Z) (files : list (string * A)) : list A :=
  (filter (λ f, file_block f.1 <= block) files).*2.

(** ** The seed *)

Record Seed := {
  sd_SenderSeedMap : gmap Address Z;
  sd_SenderSeedList : list Address;
  sd_ToSeedMap : gmap Address Z;
  sd_ToSeedList : list Address;
  sd_Contracts : gmap Address Contract;
  sd_SeedPoolMap : gmap Address SeedPool
}.

Definition set_Contracts c (s : Seed) : Seed :=
  Build_Seed (sd_SenderSeedMap s) (sd_SenderSeedList s) (sd_ToSeedMap s) (sd_ToSeedList s) c (sd_SeedPoolMap s).
Definition set_SeedPoolMap p (s : Seed) : Seed :=
  Build_Seed (sd_SenderSeedMap s) (sd_SenderSeedList s) (sd_ToSeedMap s) (sd_ToSeedList s) (sd_Contracts s) p.
Definition set_SenderSeedMap m (s : Seed) : Seed :=
  Build_Seed m (sd_SenderSeedList s) (sd_ToSeedMap s) (sd_ToSeedList s) (sd_Contracts s) (sd_SeedPoolMap s).
Definition set_SenderSeedList l (s : Seed) : Seed :=
  Build_Seed (sd_SenderSeedMap s) l (sd_ToSeedMap s) (sd_ToSeedList s) (sd_Contracts s) (sd_SeedPoolMap s).
Definition set_ToSeedMap m (s : Seed) : Seed :=
  Build_Seed (sd_SenderSeedMap s) (sd_SenderSeedList s) m (sd_ToSeedList s) (sd_Contracts s) (sd_SeedPoolMap s).
Definition set_ToSeedList l (s : Seed) : Seed :=
  Build_Seed (sd_SenderSeedMap s) (sd_SenderSeedList s) (sd_ToSeedMap s) l (sd_Contracts s) (sd_SeedPoolMap s).

Section seed.
Context (o : RangeOracle) (load : Address → string → ABI).

(** [n] numbers the loop over the methods of the contract. *)
Definition initContract (n : nat) (contractAddress : Address) (name : string) (s : Seed) : Seed :=
  let abi := load contractAddress name in
  set_Contracts
    (<[contractAddress :=
        {| ct_Abi := abi; ct_MethodCallMap := ∅;
           ct_MethodList := (filter (λ e, m_mutability e.2 ≠ "view") (range_map o n (abi_methods abi))).*1 |}]>
      (sd_Contracts s)) s.

Definition init_proxy (name : string) (s : Seed) (e : nat * Address) : Seed :=
  let '(n, proxy) := e in
  let s := initContract n proxy name s in
  set_ToSeedList (sd_ToSeedList s ++ [proxy]) s.

Definition init_token (name : string) (s : Seed) (e : nat * Address) : Seed :=
  let '(n, token) := e in
  if bool_decide (token ≠ HexToAddress "0") && bool_decide (sd_Contracts s !! token = None)
  then let s := initContract n token name s in set_ToSeedList (sd_ToSeedList s ++ [token]) s
  else s.

Definition InitSeed (info : ProxyInfo) (s : Seed) : Seed :=
  let s := set_Contracts ∅ (set_SeedPoolMap ∅ (set_ToSeedMap ∅ (set_SenderSeedMap ∅ s))) in
  let s := foldl (init_proxy (pi_Name info)) s (imap pair (pi_ProxyContracts info)) in
  foldl (init_token (pi_Name info)) s
    (imap (λ i t, ((length (pi_ProxyContracts info) + i)%nat, t)) (pi_LPTokens info)).

(** [append(l\[:index\], l\[index+1:\]...)] *)
Definition RemoveSender (index : Z) (s : Seed) : Go Seed :=
  let l := sd_SenderSeedList s in
  if (0 <=? index) && (index <? Z.of_nat (length l))
  then Ret (set_SenderSeedList (take (Z.to_nat index) l ++ drop (S (Z.to_nat index)) l) s)
  else Panic SliceOutOfRange.

Section generation.
Context (r : Random).

Definition SelectSender (s : Seed) : Rnd (Address * Z) :=
  n ←ʳ crypto_Int r (Z.of_nat (length (sd_SenderSeedList s)));
  rnd_go (match sd_SenderSeedList s !! Z.to_nat n with Some a => Ret (a, n) | None => Panic IndexOutOfRange end).

Definition SelectTo (s : Seed) : Rnd Address := pick_from r (sd_ToSeedList s).

(** The pool of the sender; the zero pool when it has none. *)
Definition pool_of (s : Seed) (from : Address) : SeedPool := default empty_pool (sd_SeedPoolMap s !! from).

Definition zero_method : Method :=
  {| m_name := ""; m_ID := []; m_mutability := ""; m_payable := false; m_inputs := []; m_outputs := None |}.

Definition method_of (c : Contract) (name : string) : Method := default zero_method (abi_methods (ct_Abi c) !! name).

(** Packing an invalid value leaves no data. *)
Definition packed (c : Contract) (name : string) (args : list Val) : Go bytes :=
  b ← ABI_Pack (ct_Abi c) name args; Ret (default [] b).

Fixpoint generate_args (p : SeedPool) (inputs : list Argument) (from : Address) : Rnd (list Val) :=
  match inputs with
  | [] => rnd_ret []
  | input :: inputs' =>
      v ←ʳ generateTypeInput r p (arg_type input) from;
      vs ←ʳ generate_args p inputs' from;
      rnd_ret (v :: vs)
  end.

Definition generateInputData (s : Seed) (c : Contract) (name : string) (from : Address) : Rnd bytes :=
  args ←ʳ generate_args (pool_of s from) (m_inputs (method_of c name)) from;
  rnd_go (packed c name args).

(** Arguments of the four simple kinds are drawn anew, the others kept. *)
Fixpoint mutate_args (p : SeedPool) (originArgs : list Val) (index : nat) (inputs : list Argument) (from : Address)
    : Rnd (list Val) :=
  match inputs with
  | [] => rnd_ret []
  | input :: inputs' =>
      v ←ʳ (match arg_type input with
            | IntTy _ | UintTy _ | AddressTy | BoolTy => generateTypeInput r p (arg_type input) from
            | _ => rnd_go (nth_arg originArgs index)
            end);
      vs ←ʳ mutate_args p originArgs (S index) inputs' from;
      rnd_ret (v :: vs)
  end.

Definition mutateInputData (s : Seed) (c : Contract) (name : string) (data : bytes) (from : Address) : Rnd bytes :=
  let method := method_of c name in
  originData ←ʳ rnd_go (if decide (length data < 4)%nat then Panic SliceOutOfRange else Ret (drop 4 data));
  let originArgs := default [] (Arguments_Unpack (m_inputs method) originData) in
  args ←ʳ mutate_args (pool_of s from) originArgs 0 (m_inputs method) from;
  rnd_go (packed c name args).

(** [seed.Contracts\[to\]], dereferenced. *)
Definition contract_at (s : Seed) (to : Address) : Rnd Contract :=
  rnd_go (match sd_Contracts s !! to with Some c => Ret c | None => Panic NilDereference end).

Definition GenerateMsgWithMethod (s : Seed) (from to : Address) (name : string) : Rnd Message :=
  c ←ʳ contract_at s to;
  data ←ʳ generateInputData s c name from;
  rnd_ret (new_message from to (Some 0) data).

Definition GenerateMsg (s : Seed) (from to : Address) : Rnd Message :=
  c ←ʳ contract_at s to;
  name ←ʳ pick_from r (ct_MethodList c);
  msgValue ←ʳ (if m_payable (method_of c name) then SelectEtherAmount r (pool_of s from) else rnd_ret (Some 0));
  data ←ʳ (match ct_MethodCallMap c !! name with
           | Some calls => data ←ʳ pick_from r calls; mutateInputData s c name data from
           | None => generateInputData s c name from
           end);
  rnd_ret (new_message from to msgValue data).
End generation.

(** ** Seeds from recorded transactions and messages

    All lookups of methods use the loop numbered [n]: the order matters only for
    methods that share a selector. *)

(** The call and then its children. *)
Fixpoint ParseTxForSeedUtil (n : nat) (tx : InternalTx) (acc : Seed * SeedPool) : Go (Seed * SeedPool) :=
  let '(s, p) := acc in
  acc ← match sd_Contracts s !! itx_To tx with
        | Some c =>
            '(c, p) ← parseMethodArgs o n c (itx_Input tx) p;
            m ← incr_opt (big_String (itx_Value tx)) (sp_EtherAmountSeedMap p);
            Ret (set_Contracts (<[itx_To tx := c]> (sd_Contracts s)) s, set_ethers m p)
        | None => Ret acc
        end;
  (fix children (txs : list InternalTx) (acc : Seed * SeedPool) : Go (Seed * SeedPool) :=
     match txs with
     | [] => Ret acc
     | t :: txs' => match ParseTxForSeedUtil n t acc with Ret acc' => children txs' acc' | Panic p => Panic p end
     end) (itx_InTxs tx) acc.

Definition ParseTxForSeed (n : nat) (ExTx : ExternalTx) (s : Seed) : Go Seed :=
  match etx_InTxs ExTx with
  | [tx] =>
      let s := set_SenderSeedMap (map_incr (itx_From tx) (sd_SenderSeedMap s)) s in
      let p := match sd_SeedPoolMap s !! itx_From tx with Some p => p | None => initSeedPool empty_pool end in
      '(s, p) ← ParseTxForSeedUtil n tx (s, p);
      Ret (set_SeedPoolMap (<[itx_From tx := p]> (sd_SeedPoolMap s)) s)
  | _ => Ret s
  end.

(** [seed.updateMapToList] *)
Definition seed_updateMapToList (n : nat) (s : Seed) : Seed :=
  set_SenderSeedList (sd_SenderSeedList s ++ (range_map o n (sd_SenderSeedMap s)).*1) s.

Definition InitSeedFromFrontTxs (n : nat) (TxList : list ExternalTx) (s : Seed) : Go Seed :=
  s ← go_foldl (λ s ExTx, ParseTxForSeed n ExTx s) s TxList;
  Ret (seed_updateMapToList n (set_SeedPoolMap (pool_lists o n <$> sd_SeedPoolMap s) s)).

Definition parse_msg (n : nat) (s : Seed) (msg : Message) : Go Seed :=
  match msg_to msg with
  | None => Panic NilDereference
  | Some to =>
      match sd_Contracts s !! to with
      | None => Ret s
      | Some c =>
          let p := match sd_SeedPoolMap s !! to with Some p => p | None => initSeedPool empty_pool end in
          '(c, p) ← parseMethodArgs o n c (msg_data msg) p;
          let s := set_Contracts (<[to := c]> (sd_Contracts s)) s in
          let s := set_SenderSeedMap (map_incr (msg_from msg) (sd_SenderSeedMap s)) s in
          let s := set_ToSeedMap (map_incr to (sd_ToSeedMap s)) s in
          Ret (set_SeedPoolMap (<[to := p]> (sd_SeedPoolMap s)) s)
      end
  end.

(** The lists of the pools are computed and dropped. *)
Definition InitSeedFromFrontMsg (n : nat) (msgList : list Message) (s : Seed) : Go Seed :=
  s ← go_foldl (parse_msg n) s msgList;
  Ret (seed_updateMapToList n s).
End seed.
