(* ===== verification/ExtractorFacts.v ===== *)
(** * Properties of the extraction of token flows

    Transfers are conserved by the walk over a call tree, the walk panics exactly
    on a Transfer event whose data does not decode, and the maps built from the
    recorded actions do not depend on the order in which Go visits its maps. *)

From S2P Require Import Prelude BigFloat Common Abi Tx Extractor.

(** ** Specifications *)

Section spec.
Context (o : RangeOracle) (erc20 : ABI).

(** The transfer an event stands for, if it is one that decodes. *)
Definition event_transfer (event : Event) : list TokenTx :=
  match extractEvent erc20 event with Ret (t, true) => [t] | _ => [] end.

(** The transfers a call makes itself: of ether, and the logged ones. *)
Definition own_transfers (tx : InternalTx) : list TokenTx :=
  ether_transfer tx ++ (itx_Events tx ≫= event_transfer).

Definition tree_transfers (tx : InternalTx) : list TokenTx := tx_preorder tx ≫= own_transfers.
Definition tree_events (tx : InternalTx) : list Event := tx_preorder tx ≫= itx_Events.

(** A Transfer event carries the 32 bytes of its amount. *)
Definition decodable (event : Event) : Prop :=
  is_transfer event = true → (32 ≤ length (ev_Data event))%nat.

(** [ActionInfoList] holds the actions of [l], under the keys 0, 1, 2, ... *)
Definition actions (s : TxExtractor) (l : list ActionInfo) : Prop :=
  te_ActionInfoList s = map_seq 0 l.

Definition recorded_by (ExTx : ExternalTx) (ai : ActionInfo) : Prop :=
  ai_Action ai ≠ "none" ∧ ai_BlockNumber ai = etx_BlockNumber ExTx ∧
  ai_TxIndex ai = etx_TxIndex ExTx.

(** ** Shape of the walk *)

Definition visit_child (ExTx : ExternalTx) (acc : TxExtractor * list TokenTx) (t : InternalTx)
    : Go (TxExtractor * list TokenTx) :=
  '(s', l') ← extractInTxInfo o erc20 ExTx t acc.1; Ret (s', acc.2 ++ l').

Lemma extractInTxInfo_eq ExTx tx s :
  extractInTxInfo o erc20 ExTx tx s =
    (let '(s1, action) := call_action o tx s in
     '(s2, l) ← go_foldl (visit_child ExTx) (s1, ether_transfer tx) (itx_InTxs tx);
     l' ← go_foldl (collect_event erc20) l (itx_Events tx);
     Ret (finish_call ExTx action l' s2)).
Proof.
  destruct tx as [f t c v ty i evs txs]. cbn [extractInTxInfo itx_InTxs itx_Events].
  destruct (call_action _ _ s) as [s1 action]. generalize (ether_transfer (mkInternalTx f t c v ty i evs txs)).
  intros l. f_equal. revert s1 l. induction txs as [|x txs IH]; intros s1 l; [done|].
  cbn [go_foldl]. unfold visit_child at 1. cbn [fst snd].
  destruct (extractInTxInfo o erc20 ExTx x s1) as [[s' l']|p]; simpl; [apply IH|done].
Qed.

Lemma actions_set_LPTokenMap v s l : actions (set_LPTokenMap v s) l ↔ actions s l.
Proof. by destruct s. Qed.
Lemma actions_set_AddressCountMap v s l : actions (set_AddressCountMap v s) l ↔ actions s l.
Proof. by destruct s. Qed.
Lemma actions_set_MethodCountMap v s l : actions (set_MethodCountMap v s) l ↔ actions s l.
Proof. by destruct s. Qed.
Lemma actions_next_tick k s l : actions (next_tick k s) l ↔ actions s l.
Proof. by destruct s. Qed.

#[local] Hint Rewrite actions_set_LPTokenMap actions_set_AddressCountMap
  actions_set_MethodCountMap actions_next_tick : idw_rw.

Lemma call_action_actions tx s l : actions (call_action o tx s).1 l ↔ actions s l.
Proof.
  unfold call_action, extractAction. repeat case_match; simplify_eq/=; by autorewrite with idw_rw.
Qed.

Lemma count_transfers_actions ts s l : actions (foldl count_transfer s ts) l ↔ actions s l.
Proof.
  revert s; induction ts as [|t ts IH]; intros s; simpl; [done|]. rewrite IH.
  unfold count_transfer. case_match; by autorewrite with idw_rw.
Qed.

Lemma size_map_seq {A} (l : list A) : size (map_seq (M:=gmap nat A) 0 l) = length l.
Proof.
  induction l as [|x l IH] using rev_ind; [done|].
  rewrite map_seq_snoc, length_app, map_size_insert_None; simpl; [lia|].
  rewrite lookup_map_seq_0. by apply lookup_ge_None.
Qed.

Lemma add_action_actions ExTx action ts s l :
  actions s l →
  actions (add_action ExTx action ts s)
    (l ++ [{| ai_Action := action; ai_BlockNumber := etx_BlockNumber ExTx;
              ai_TxIndex := etx_TxIndex ExTx; ai_TokenTxList := ts |}]).
Proof.
  unfold actions, add_action. intros H. destruct s; simpl in *. rewrite H.
  by rewrite map_seq_snoc, size_map_seq.
Qed.

(** ** Events *)

Lemma collect_event_eq l event :
  collect_event erc20 l event = ('(t, b) ← extractEvent erc20 event; Ret (if b : bool then l ++ [t] else l)).
Proof. done. Qed.

Lemma collect_events evs l l' :
  go_foldl (collect_event erc20) l evs = Ret l' → l' = l ++ (evs ≫= event_transfer).
Proof.
  revert l; induction evs as [|e evs IH]; intros l; cbn [go_foldl].
  - intros [= ->]. by rewrite app_nil_r.
  - unfold collect_event, event_transfer.
    destruct (extractEvent erc20 e) as [[t []]|p] eqn:E; simpl; [..|done]; intros Hf;
      apply IH in Hf; rewrite Hf; cbn; rewrite E; [by rewrite <- app_assoc|done].
Qed.

(** ** Conservation of transfers *)

Definition conserved (tx : InternalTx) : Prop :=
  ∀ ExTx s l0 s' l, actions s l0 → extractInTxInfo o erc20 ExTx tx s = Ret (s', l) →
  ∃ ais, actions s' (l0 ++ ais) ∧ Forall (recorded_by ExTx) ais ∧
         tree_transfers tx ≡ₚ l ++ (ais ≫= ai_TokenTxList).

Lemma visit_children_conserved ExTx txs s l0 acc s' l :
  Forall conserved txs → actions s l0 →
  go_foldl (visit_child ExTx) (s, acc) txs = Ret (s', l) →
  ∃ ais, actions s' (l0 ++ ais) ∧ Forall (recorded_by ExTx) ais ∧
         acc ++ (txs ≫= tree_transfers) ≡ₚ l ++ (ais ≫= ai_TokenTxList).
Proof.
  intros HF. revert s l0 acc. induction HF as [|x txs Hx HF IH]; intros s l0 acc Ha; cbn [go_foldl].
  - intros [= -> ->]. exists []. by rewrite !app_nil_r.
  - unfold visit_child at 1. cbn [fst snd].
    destruct (extractInTxInfo o erc20 ExTx x s) as [[s1 l1]|p] eqn:E; simpl; [|done].
    intros Hrest. destruct (Hx _ _ _ _ _ Ha E) as (ais1 & Ha1 & Hr1 & Hp1).
    destruct (IH _ _ _ Ha1 Hrest) as (ais2 & Ha2 & Hr2 & Hp2).
    exists (ais1 ++ ais2). rewrite app_assoc. split; [done|]. split; [by apply Forall_app|].
    cbn. rewrite bind_app, Hp1.
    transitivity ((ais1 ≫= ai_TokenTxList) ++ ((acc ++ l1) ++ (txs ≫= tree_transfers))); [solve_Permutation|].
    rewrite Hp2. solve_Permutation.
Qed.

Lemma tree_transfers_eq tx :
  tree_transfers tx = own_transfers tx ++ (itx_InTxs tx ≫= tree_transfers).
Proof.
  unfold tree_transfers. rewrite tx_preorder_eq. cbn. f_equal.
  generalize (itx_InTxs tx). intros l. induction l as [|x l IH]; [done|].
  cbn. by rewrite bind_app, IH.
Qed.

Lemma extract_conserved tx : conserved tx.
Proof.
  induction tx as [f t c v ty i evs txs HF] using InternalTx_ind'.
  set (tx := mkInternalTx f t c v ty i evs txs). intros ExTx s l0 s' l Ha.
  rewrite extractInTxInfo_eq.
  change (itx_InTxs tx) with txs. change (itx_Events tx) with evs. destruct (call_action o tx s) as [s1 action] eqn:Ec.
  assert (actions s1 l0) as Ha1.
  { replace s1 with (call_action o tx s).1 by (by rewrite Ec). by apply call_action_actions. }
  destruct (go_foldl (visit_child ExTx) (s1, ether_transfer tx) txs) as [[s2 l2]|p] eqn:Ev; simpl; [|done].
  destruct (go_foldl (collect_event erc20) l2 evs) as [l3|p] eqn:El; simpl; [|done].
  apply collect_events in El. subst l3.
  destruct (visit_children_conserved _ _ _ _ _ _ _ HF Ha1 Ev) as (ais & Ha2 & Hr & Hp).
  assert (tree_transfers tx ≡ₚ (l2 ++ (evs ≫= event_transfer)) ++ (ais ≫= ai_TokenTxList)) as Hall.
  { rewrite tree_transfers_eq. unfold own_transfers. change (itx_InTxs tx) with txs. change (itx_Events tx) with evs.
    transitivity ((ether_transfer tx ++ (txs ≫= tree_transfers)) ++ (evs ≫= event_transfer));
      [solve_Permutation|].
    rewrite Hp. solve_Permutation. }
  unfold finish_call. destruct (String.eqb_spec action "none"); intros [= <- <-].
  - by exists ais.
  - eexists (ais ++ [_]). split; [|split].
    + rewrite app_assoc. apply add_action_actions. by apply count_transfers_actions.
    + apply Forall_app; split; [done|]. by repeat constructor.
    + rewrite Hall, bind_app. cbn. solve_Permutation.
Qed.

(** ** Panics *)

Lemma extractEvent_transfer event :
  has_Transfer erc20 →
  extractEvent erc20 event =
    if is_transfer event then
      match ev_Topics event with
      | [_; t1; t2] =>
          if decide (length (ev_Data event) < 32)%nat then Panic IndexOutOfRange
          else Ret (mkTokenTx 0 0 (ev_Index event) (t1 mod 2 ^ 160) (t2 mod 2 ^ 160)
                      (Some (be_val (take 32 (ev_Data event)))) (ev_Address event) "", true)
      | _ => Panic IndexOutOfRange
      end
    else Ret (zero_TokenTx, false).
Proof.
  intros Herc. unfold extractEvent. rewrite Unpack_Transfer by done.
  destruct (is_transfer event) eqn:E; [|done]. unfold is_transfer in E.
  destruct (ev_Topics event) as [|t0 [|t1 [|t2 []]]]; try done.
  case_decide; [done|]. by rewrite !HexToAddress_Hash_String.
Qed.

Lemma extractEvent_is_ret event :
  has_Transfer erc20 → is_ret (extractEvent erc20 event) ↔ decodable event.
Proof.
  intros Herc. rewrite extractEvent_transfer by done. unfold decodable.
  destruct (is_transfer event) eqn:E; [|split; [done|intros; apply is_ret_Ret]].
  unfold is_transfer in E. destruct (ev_Topics event) as [|t0 [|t1 [|t2 []]]]; try done.
  case_decide; split; intros; auto with idw; [no_panic|lia|lia].
Qed.

Lemma collect_events_is_ret l evs :
  has_Transfer erc20 → is_ret (go_foldl (collect_event erc20) l evs) ↔ Forall decodable evs.
Proof.
  intros Herc. apply go_foldl_is_ret. intros l' event _.
  rewrite <- (extractEvent_is_ret event Herc). unfold collect_event.
  destruct (extractEvent erc20 event) as [[]|]; simpl; split; intros; eauto with idw;
    no_panic.
Qed.

Lemma tree_events_eq tx :
  tree_events tx = itx_Events tx ++ (itx_InTxs tx ≫= tree_events).
Proof.
  unfold tree_events. rewrite tx_preorder_eq. cbn. f_equal.
  generalize (itx_InTxs tx). intros l. induction l as [|x l IH]; [done|].
  cbn. by rewrite bind_app, IH.
Qed.

Lemma extract_is_ret tx :
  has_Transfer erc20 →
  ∀ ExTx s, is_ret (extractInTxInfo o erc20 ExTx tx s) ↔ Forall decodable (tree_events tx).
Proof.
  intros Herc. induction tx as [f t c v ty i evs txs HF] using InternalTx_ind'. intros ExTx s.
  rewrite extractInTxInfo_eq, tree_events_eq, Forall_app. cbn [itx_Events itx_InTxs].
  destruct (call_action _ _ s) as [s1 action].
  rewrite (is_ret_bind _ _ (Forall decodable evs)).
  - rewrite (go_foldl_is_ret (λ x, Forall decodable (tree_events x))).
    + rewrite Forall_bind. tauto.
    + intros [s' l'] x Hx. rewrite Forall_forall in HF. rewrite <- (HF x Hx ExTx s').
      unfold visit_child. simpl.
      destruct (extractInTxInfo o erc20 ExTx x s') as [[]|]; simpl; split; intros; eauto with idw;
        no_panic.
  - intros [s2 l]. rewrite (is_ret_bind _ _ True), collect_events_is_ret by (auto with idw || (intros; split; auto with idw)).
    tauto.
Qed.
End spec.

(** * Properties of the classification of calls and of common addresses *)

(** ** Keys and method names *)

Definition is_upper (c : Ascii.ascii) : bool := (65 <=? code c) && (code c <=? 90).

Fixpoint has_upper (s : string) : bool :=
  match s with EmptyString => false | String c s' => is_upper c || has_upper s' end.

Lemma lower_char_not_upper c : is_upper (lower_char c) = false.
Proof.
  unfold is_upper, lower_char. pose proof (code_bound c).
  destruct (Z.leb_spec 65 (code c)), (Z.leb_spec (code c) 90); simpl;
    rewrite ?code_chr by lia;
    repeat (match goal with |- context [?a <=? ?b] => destruct (Z.leb_spec a b) end; simpl); lia || done.
Qed.

Lemma has_upper_ToLower s : has_upper (ToLower s) = false.
Proof. induction s as [|c s IH]; simpl; [done|]. by rewrite lower_char_not_upper. Qed.

Lemma prefix_no_upper sub s :
  String.prefix sub s = true → has_upper s = false → has_upper sub = false.
Proof.
  revert s; induction sub as [|c sub IH]; intros [|c' s]; simpl; try done.
  destruct (Ascii.ascii_dec c c') as [->|]; [|done].
  intros Hp [H1 H2]%orb_false_iff. rewrite H1. by apply (IH s).
Qed.

Lemma Contains_no_upper s sub :
  Contains s sub = true → has_upper s = false → has_upper sub = false.
Proof.
  induction s as [|c s IH]; intros [Hp|Hc]%orb_true_iff Hs; try done.
  - by apply (prefix_no_upper sub EmptyString).
  - by apply (prefix_no_upper sub (String c s)).
  - simpl in Hs. apply orb_false_iff in Hs as [_ Hs]. by apply IH.
Qed.

(** A key with an upper-case letter matches no lower-cased name. *)
Lemma upper_key_never_matches name key :
  has_upper key = true → Contains (ToLower name) key = false.
Proof.
  intros Hk. destruct (Contains (ToLower name) key) eqn:E; [|done].
  apply Contains_no_upper in E; [congruence|apply has_upper_ToLower].
Qed.

(** ** The loop over the action map *)

Definition matches (name : string) (e : string * string) : Prop :=
  Contains (ToLower name) e.1 = true.

Lemma match_action_none lname l a :
  (∃ k, (k, "none") ∈ l ∧ Contains lname k = true) → match_action lname l a = "none".
Proof.
  revert a; induction l as [|[k v] l IH]; intros a (k' & Hin & Hm); [by apply not_elem_of_nil in Hin|].
  simpl. apply elem_of_cons in Hin as [[= -> <-]|Hin].
  - by rewrite Hm.
  - destruct (Contains lname k); [destruct (String.eqb_spec v "none"); [done|]|]; apply IH; eauto.
Qed.

Lemma match_action_no_match lname l a :
  (∀ k v, (k, v) ∈ l → Contains lname k = false) → match_action lname l a = a.
Proof.
  revert a; induction l as [|[k v] l IH]; intros a Hno; simpl; [done|].
  rewrite (Hno k v) by (by left). apply IH. intros. eapply Hno. by right.
Qed.

(** Without a deciding "none", the last matching key wins. *)
Lemma match_action_last lname l1 k v l2 a :
  (∀ k' v', (k', v') ∈ l1 ++ (k, v) :: l2 → Contains lname k' = true → v' ≠ "none") →
  Contains lname k = true →
  (∀ k' v', (k', v') ∈ l2 → Contains lname k' = false) →
  match_action lname (l1 ++ (k, v) :: l2) a = v.
Proof.
  revert a; induction l1 as [|[k1 v1] l1 IH]; intros a Hnn Hk Hl2; simpl.
  - rewrite Hk. destruct (String.eqb_spec v "none") as [->|].
    + exfalso. eapply Hnn; [|exact Hk|done]. by left.
    + by apply match_action_no_match.
  - assert (∀ k' v', (k', v') ∈ l1 ++ (k, v) :: l2 → Contains lname k' = true → v' ≠ "none") as Hnn'
      by (intros ?? Hin; apply Hnn; by right).
    destruct (Contains lname k1) eqn:E; [|by apply IH].
    destruct (String.eqb_spec v1 "none") as [->|]; [|by apply IH].
    exfalso. eapply Hnn; [|exact E|done]. by left.
Qed.

Lemma match_action_cases lname l a :
  match_action lname l a = a ∨
  ∃ k, (k, match_action lname l a) ∈ l ∧ Contains lname k = true.
Proof.
  revert a; induction l as [|[k v] l IH]; intros a; simpl; [by left|].
  destruct (Contains lname k) eqn:E.
  - right. destruct (String.eqb_spec v "none") as [->|]; [exists k; split; [by left|done]|].
    destruct (IH v) as [->|(k' & Hin & Hm)]; [exists k; split; [by left|done]|].
    exists k'. split; [by right|done].
  - destruct (IH a) as [->|(k' & Hin & Hm)]; [by left|]. right. exists k'. split; [by right|done].
Qed.

(** An oracle that visits the [i]-th entry of every map last. *)
Definition to_last {A} (i : nat) (l : list A) : list A :=
  match l !! i with Some x => delete i l ++ [x] | None => l end.

Lemma to_last_perm {A} (i : nat) (l : list A) : to_last i l ≡ₚ l.
Proof.
  unfold to_last. destruct (l !! i) eqn:E; [|done].
  transitivity (a :: delete i l); [by rewrite Permutation_app_comm|].
  symmetry. by apply delete_Permutation.
Qed.

Definition range_last (i : nat) : RangeOracle :=
  {| pick := λ A _ l, to_last i l; pick_perm := λ A _ l, to_last_perm i l |}.

(** Each matching key decides under some iteration order. *)
Lemma match_action_reachable lname (m : gmap string string) k v :
  (∀ k' v', m !! k' = Some v' → Contains lname k' = true → v' ≠ "none") →
  m !! k = Some v → Contains lname k = true →
  ∃ o, ∀ n a, match_action lname (range_map o n m) a = v.
Proof.
  intros Hnn Hk Hm. apply elem_of_map_to_list in Hk as Hin.
  apply list_elem_of_lookup in Hin as [i Hi].
  exists (range_last i). intros n a.
  assert (range_map (range_last i) n m = delete i (map_to_list m) ++ [(k, v)]) as Hr.
  { unfold range_map. cbn. unfold to_last. by rewrite Hi. }
  rewrite Hr. apply match_action_last; [|done|by intros ?? ?%not_elem_of_nil].
  rewrite <- Hr. intros k' v' Hin'%elem_of_range_map. eauto.
Qed.

(** The action map of [hunter/defi/ActionMap.json]. *)
Definition ActionMap_json : gmap string (list string) := {[
  "deposit" := ["mint"; "deposit"; "lendToWarpVault"; "stake"; "lendto"; "add_liquidity"; "lend";
                "supply"; "liquidateBorrow"; "staking"];
  "withdraw" := ["burn"; "withdraw"; "redeem"; "unstake"; "reward"; "remove_liquidity"; "collectfee"];
  "none" := ["admin"]
]}.

(** ** Common addresses *)

Lemma foldl_insert_true {A} (f : A → option Address) (l : list A) (m : gmap Address bool) a :
  (foldl (λ m x, match f x with Some k => <[k := true]> m | None => m end) m l) !! a = Some true ↔
  m !! a = Some true ∨ ∃ x, x ∈ l ∧ f x = Some a.
Proof.
  revert m; induction l as [|x l IH]; intros m; cbn [foldl].
  - split; [by left|]. intros [|(y & Hy & _)]; [done|]. by apply not_elem_of_nil in Hy.
  - rewrite IH. destruct (f x) as [k|] eqn:E.
    + rewrite lookup_insert_Some. split.
      * intros [[[-> _]|[? ?]]|(y & Hy & Ef)]; eauto.
        -- right. exists x. split; [by left|done].
        -- right. exists y. split; [by right|done].
      * intros [Hm|(y & [->|Hy]%elem_of_cons & Ef)].
        -- left. destruct (decide (k = a)); auto.
        -- left; left. split; congruence.
        -- right; eauto.
    + split.
      * intros [|(y & Hy & Ef)]; [by left|]. right. exists y. split; [by right|done].
      * intros [|(y & [->|Hy]%elem_of_cons & Ef)]; [by left|congruence|right; eauto].
Qed.

Lemma is_common_spec count length :
  0 ≤ count < 2 ^ 49 → 0 ≤ length < 2 ^ 49 →
  is_common count length = true ↔ 350 < count ∨ 4 * length < 5 * count.
Proof.
  intros. unfold is_common. rewrite orb_true_iff, f64_gt_0_8 by done.
  rewrite !Z.gtb_lt. done.
Qed.

Lemma UpdateCommonAddressMap_spec o s a :
  te_CommonAddressMap (UpdateCommonAddressMap o s) !! a = Some true ↔
  is_Some (te_ProxyABI s !! a) ∨
  ∃ c, te_AddressCountMap s !! a = Some c ∧
       is_common c (Z.of_nat (size (te_ActionInfoList s))) = true.
Proof.
  unfold UpdateCommonAddressMap. destruct s as [am pi pabi utt ur al ac ca rt fm mc lp st ts n].
  cbn [next_tick set_CommonAddressMap te_CommonAddressMap te_ProxyABI te_AddressCountMap te_ActionInfoList te_tick].
  set (len := Z.of_nat (size al)).
  rewrite (foldl_ext _ (λ m (x : Address * Z),
    match (if is_common x.2 len then Some x.1 else None) with Some k => <[k:=true]> m | None => m end)) by (intros ? []; simpl; by case_match).
  rewrite foldl_insert_true.
  rewrite (foldl_ext _ (λ m (x : Address * ABI),
    match Some x.1 with Some k => <[k:=true]> m | None => m end)) by (by intros ? []).
  rewrite (foldl_insert_true (λ x : Address * ABI, Some x.1)). rewrite lookup_empty.
  split.
  - intros [[?|([k v] & Hin%elem_of_range_map & [= <-])]|([k c] & Hin%elem_of_range_map & Hc)]; [done|..].
    + left. simpl. eauto.
    + right. simpl in Hc. destruct (is_common c len) eqn:E; simplify_eq. eauto.
  - intros [[v Hv]|(c & Hc & E)].
    + left. right. exists (a, v). by rewrite elem_of_range_map.
    + right. exists (a, c). rewrite elem_of_range_map. simpl. by rewrite E.
Qed.

(** * Properties of the attribution of transfers to users

    [ExtractActionInfoList] visits the recorded actions in the order of a Go map.
    Its effect is specified by what each action contributes: the transfers
    attributed to users ([attributed]) and the pairs of related users
    ([relations]); the result is a function of the collected contributions. *)

(** ** Views of the maps *)

Definition txs_of (m : UserTokenTxMap) (u k : Address) : list TokenTx :=
  default [] (m !! u ≫= (.!! k)).

Definition related (m : UserRelatedMap) (u r : Address) : option Z := m !! u ≫= (.!! r).

Definition min_opt (b : option Z) (n : Z) : option Z :=
  Some (match b with None => n | Some b => Z.min b n end).

(** The contribution of a list of pairs, each seen at a block, to one entry. *)
Definition relate (u r : Address) (b : option Z) (rs : list (Address * Address * Z)) : option Z :=
  foldl (λ b '(x, y, n), if (x =? u) && (y =? r) && negb (x =? y) then min_opt b n else b) b rs.

Definition picks (u k : Address) (l : list (Address * TokenTx)) : list TokenTx :=
  (filter (λ e : Address * TokenTx, e.1 = u ∧ tt_TokenAddress e.2 = k) l).*2.

Definition token_count (s : TxExtractor) (k : Address) : Z :=
  default 0 (te_RelatedToken s ≫= (.!! k)).

Lemma txs_of_append m u k t u' k' :
  txs_of (append_tokenTx m u k t) u' k' =
    if decide (u' = u ∧ k' = k) then txs_of m u' k' ++ [t] else txs_of m u' k'.
Proof.
  unfold txs_of, append_tokenTx. destruct (decide (u' = u)) as [->|Hu].
  - rewrite lookup_insert_eq. cbn. destruct (decide (k' = k)) as [->|Hk].
    + rewrite lookup_insert_eq, decide_True by done. cbn. f_equal. by destruct (m !! u).
    + rewrite lookup_insert_ne, decide_False by naive_solver. by destruct (m !! u).
  - by rewrite lookup_insert_ne, decide_False by naive_solver.
Qed.

Lemma related_update m x y n u r :
  related (updateUserRelatedMap m x y n) u r =
    if (x =? u) && (y =? r) && negb (x =? y) then min_opt (related m u r) n else related m u r.
Proof.
  unfold related, updateUserRelatedMap. destruct (Z.eqb_spec x y) as [->|Hxy]; [by rewrite andb_false_r|].
  rewrite andb_true_r. set (rm := default ∅ (m !! x)).
  assert (∀ r, rm !! r = m !! x ≫= (.!! r)) as Hrm by (intros; unfold rm; by destruct (m !! x)).
  destruct (Z.eqb_spec x u) as [->|Hu]; simpl.
  - rewrite <- !Hrm. destruct (Z.eqb_spec y r) as [->|Hr].
    + destruct (rm !! r) as [b|] eqn:E; cbn.
      * rewrite Z.gtb_ltb. destruct (Z.ltb_spec n b); rewrite lookup_insert_eq; cbn;
          rewrite ?lookup_insert_eq, ?E; unfold min_opt; f_equal; lia.
      * by rewrite lookup_insert_eq; cbn; rewrite lookup_insert_eq.
    + repeat case_match; rewrite lookup_insert_eq; cbn; by rewrite ?lookup_insert_ne.
  - repeat case_match; by rewrite lookup_insert_ne.
Qed.

Lemma relate_app u r b l1 l2 : relate u r b (l1 ++ l2) = relate u r (relate u r b l1) l2.
Proof. apply foldl_app. Qed.

Lemma picks_app u k l1 l2 : picks u k (l1 ++ l2) = picks u k l1 ++ picks u k l2.
Proof. unfold picks. by rewrite filter_app, fmap_app. Qed.

#[export] Instance picks_perm u k : Proper ((≡ₚ) ==> (≡ₚ)) (picks u k).
Proof. intros l1 l2 H. unfold picks. by rewrite H. Qed.

Lemma min_opt_comm b n1 n2 : min_opt (min_opt b n1) n2 = min_opt (min_opt b n2) n1.
Proof. unfold min_opt. f_equal. destruct b; lia. Qed.

(** The least block is independent of the order of the contributions. *)
#[export] Instance relate_perm u r b : Proper ((≡ₚ) ==> (=)) (relate u r b).
Proof.
  intros l1 l2 H. revert b. induction H as [|[[x y] n] l1 l2 H IH|[[x y] n] [[x' y'] n'] l|l1 l2 l3 H1 IH1 H2 IH2];
    intros b; cbn [relate foldl]; auto.
  - apply IH.
  - f_equal. repeat case_match; auto using min_opt_comm.
  - by rewrite IH1.
Qed.

(** ** What an action contributes *)

Section contributions.
Context (lp : gmap Address bool) (common : gmap Address bool).

Definition is_lp (t : TokenTx) : bool := bool_decide (is_Some (lp !! tt_TokenAddress t)).

Definition stamp (ai : ActionInfo) (t : TokenTx) : TokenTx :=
  mkTokenTx (ai_BlockNumber ai) (ai_TxIndex ai) (tt_EventIndex t) (tt_Sender t) (tt_To t)
    (tt_Amount t) (tt_TokenAddress t) (ai_Action ai).

(** A withdrawal is attributed to the receiver of a transfer from a common
    address, a deposit to the sender of a transfer to one. *)
Definition attribution (ai : ActionInfo) (t : TokenTx) : option (Address * TokenTx) :=
  if is_lp t then None
  else if String.eqb (ai_Action ai) "withdraw" then
    if default false (common !! tt_Sender t) then Some (tt_To t, stamp ai t) else None
  else if String.eqb (ai_Action ai) "deposit" then
    if default false (common !! tt_To t) then Some (tt_Sender t, stamp ai t) else None
  else None.

Definition attributed (ai : ActionInfo) : list (Address * TokenTx) :=
  omap (attribution ai) (ai_TokenTxList ai).

Definition depositTo (ai : ActionInfo) : list Address :=
  tt_To <$> filter (λ t, is_lp t = true ∧ tt_Sender t = 0) (ai_TokenTxList ai).

Definition withdrawFrom (ai : ActionInfo) : list Address :=
  tt_Sender <$> filter (λ t, is_lp t = true ∧ tt_Sender t ≠ 0 ∧ tt_To t = 0) (ai_TokenTxList ai).

(** The receiver of a withdrawal is related to the owners of the burnt pool
    tokens, the receivers of minted ones to the sender of a deposit. *)
Definition relations_of (ai : ActionInfo) (e : Address * TokenTx) : list (Address * Address * Z) :=
  if String.eqb (ai_Action ai) "withdraw"
  then (λ x, (e.1, x, ai_BlockNumber ai)) <$> withdrawFrom ai
  else (λ x, (x, e.1, ai_BlockNumber ai)) <$> depositTo ai.

Definition relations (ai : ActionInfo) : list (Address * Address * Z) :=
  attributed ai ≫= relations_of ai.

Lemma split_transfers l acc :
  foldl (split_transfer lp) acc l =
    mkSplit (sp_depositTo acc ++ (tt_To <$> filter (λ t, is_lp t = true ∧ tt_Sender t = 0) l))
      (sp_withdrawFrom acc ++
        (tt_Sender <$> filter (λ t, is_lp t = true ∧ tt_Sender t ≠ 0 ∧ tt_To t = 0) l))
      (sp_withoutLP acc ++ filter (λ t, is_lp t = false) l).
Proof.
  revert acc; induction l as [|t l IH]; intros [d w n]; cbn [foldl];
    [cbn; by rewrite !app_nil_r|].
  rewrite IH. clear IH. unfold split_transfer, zeroAddress. fold (is_lp t). rewrite !filter_cons.
  destruct (is_lp t) eqn:E; 
    [|rewrite !decide_False, decide_True by naive_solver; cbn; by rewrite <- app_assoc].
  destruct (Z.eqb_spec (tt_Sender t) 0) as [E1|E1].
  { rewrite decide_True, !decide_False by naive_solver. cbn. by rewrite <- app_assoc. }
  destruct (Z.eqb_spec (tt_To t) 0) as [E2|E2].
  - rewrite decide_False, decide_True, decide_False by naive_solver. cbn. by rewrite <- app_assoc.
  - by rewrite !decide_False by naive_solver.
Qed.

Lemma attributed_filter ai (l : list TokenTx) :
  omap (attribution ai) (filter (λ t, is_lp t = false) l) = omap (attribution ai) l.
Proof.
  induction l as [|t l IH]; [done|]. rewrite filter_cons. cbn.
  case_decide as E; cbn; [by rewrite IH|]. unfold attribution at 2.
  by destruct (is_lp t).
Qed.
End contributions.

(** ** The effect of a step *)

#[local] Arguments append_tokenTx : simpl never.
#[local] Arguments map_incr : simpl never.
#[local] Arguments updateUserRelatedMap : simpl never.
#[local] Arguments txs_of : simpl never.
#[local] Arguments picks : simpl never.
#[local] Arguments related : simpl never.
#[local] Arguments relate : simpl never.
#[local] Arguments token_count : simpl never.

Record effect (s s' : TxExtractor) (l : list (Address * TokenTx))
    (rs : list (Address * Address * Z)) : Prop := {
  eff_lp : te_LPTokenMap s' = te_LPTokenMap s;
  eff_common : te_CommonAddressMap s' = te_CommonAddressMap s;
  eff_stable : te_StableTokenMap s' = te_StableTokenMap s;
  eff_actions : te_ActionInfoList s' = te_ActionInfoList s;
  eff_txs : ∀ u k, txs_of (te_UserTokenTxMap s') u k = txs_of (te_UserTokenTxMap s) u k ++ picks u k l;
  eff_related : ∀ u r, related (te_UserRelatedMap s') u r = relate u r (related (te_UserRelatedMap s) u r) rs;
  eff_count : ∀ k, token_count s' k = token_count s k +
    Z.of_nat (length (filter (λ e, tt_TokenAddress e.2 = k) l));
  eff_nil : is_Some (te_RelatedToken s') ↔ is_Some (te_RelatedToken s)
}.

Lemma effect_refl s : effect s s [] [].
Proof. split; intros; cbn; auto; [by rewrite app_nil_r|lia]. Qed.

Lemma effect_trans s1 s2 s3 l1 l2 r1 r2 :
  effect s1 s2 l1 r1 → effect s2 s3 l2 r2 → effect s1 s3 (l1 ++ l2) (r1 ++ r2).
Proof.
  intros [] []. split; intros; try congruence.
  - by rewrite picks_app, (assoc_L app), <- eff_txs0.
  - by rewrite relate_app, <- eff_related0.
  - rewrite filter_app, length_app, eff_count1, eff_count0. lia.
  - by rewrite eff_nil1.
Qed.

(** One attributed transfer: the three maps that change. *)
Definition apply_attribution (ai : ActionInfo) (rs : list (Address * Address * Z)) (s : TxExtractor)
    (e : Address * TokenTx) : Go TxExtractor :=
  incr_RelatedToken (tt_TokenAddress e.2)
    (set_UserRelatedMap (foldl (λ m '(x, y, n), updateUserRelatedMap m x y n) (te_UserRelatedMap s) rs)
       (set_UserTokenTxMap (append_tokenTx (te_UserTokenTxMap s) e.1 (tt_TokenAddress e.2) e.2) s)).

Lemma related_foldl (m : UserRelatedMap) u r rs :
  related (foldl (λ m '(x, y, n), updateUserRelatedMap m x y n) m rs) u r = relate u r (related m u r) rs.
Proof.
  revert m; induction rs as [|[[x y] n] rs IH]; intros m; [done|]. cbn [foldl relate].
  by rewrite IH, related_update.
Qed.

Lemma apply_attribution_effect ai rs s e s' :
  apply_attribution ai rs s e = Ret s' → effect s s' [e] rs.
Proof.
  unfold apply_attribution, incr_RelatedToken. destruct e as [u t], s. cbn.
  destruct te_RelatedToken as [m|]; [|done]. intros [= <-].
  split; intros; cbn; auto.
  - rewrite txs_of_append. unfold picks. rewrite filter_cons. cbn.
    destruct (decide (u0 = u ∧ k = tt_TokenAddress t)) as [[-> ->]|].
    + by rewrite decide_True.
    + rewrite decide_False by naive_solver. cbn. by rewrite app_nil_r.
  - apply related_foldl.
  - unfold token_count. cbn. rewrite map_incr_lookup. repeat case_decide; cbn; (lia || done).
  - by split; eauto.
Qed.

Section actions.
Context (ai : ActionInfo).
Context (lp common : gmap Address bool).
#[local] Abbreviation sp := (foldl (split_transfer lp) (mkSplit [] [] []) (ai_TokenTxList ai)).

Lemma foldl_fmap_pairs {A} (f : A → Address * Address * Z) (l : list A) (m : UserRelatedMap) :
  foldl (λ m '(x, y, n), updateUserRelatedMap m x y n) m (f <$> l) =
  foldl (λ m x, updateUserRelatedMap m (f x).1.1 (f x).1.2 (f x).2) m l.
Proof.
  revert m; induction l as [|x l IH]; intros m; [done|]. cbn.
  destruct (f x) as [[? ?] ?] eqn:E. by rewrite IH.
Qed.

Lemma attribute_transfer_eq s t :
  te_LPTokenMap s = lp → te_CommonAddressMap s = common → is_lp lp t = false →
  attribute_transfer ai sp s t =
    match attribution lp common ai t with
    | None => Ret s
    | Some e => apply_attribution ai (relations_of lp ai e) s e
    end.
Proof.
  intros <- <- Hlp. rewrite split_transfers. unfold attribution. rewrite Hlp.
  unfold attribute_transfer, apply_attribution, relations_of, withdrawFrom, depositTo.
  cbn [tt_Sender tt_To tt_TokenAddress sp_withdrawFrom sp_depositTo].
  destruct (String.eqb_spec (ai_Action ai) "withdraw") as [E|E].
  - destruct (default false _); [|done]. cbn [fst snd tt_TokenAddress stamp].
    rewrite foldl_fmap_pairs. by destruct s.
  - destruct (String.eqb (ai_Action ai) "deposit"); [|done].
    destruct (default false _); [|done]. cbn [fst snd tt_TokenAddress stamp].
    rewrite foldl_fmap_pairs. by destruct s.
Qed.

Lemma attribute_transfers_effect l s s' :
  te_LPTokenMap s = lp → te_CommonAddressMap s = common →
  Forall (λ t, is_lp lp t = false) l →
  go_foldl (attribute_transfer ai sp) s l = Ret s' →
  effect s s' (omap (attribution lp common ai) l)
    (omap (attribution lp common ai) l ≫= relations_of lp ai).
Proof.
  intros Hlp Hc Hl. revert s Hlp Hc. induction Hl as [|t l Ht Hl IH]; intros s Hlp Hc; cbn [go_foldl].
  - intros [= <-]. apply effect_refl.
  - rewrite attribute_transfer_eq by done. cbn [omap list_omap].
    destruct (attribution lp common ai t) as [e|]; [|by apply IH].
    destruct (apply_attribution ai _ s e) as [s1|] eqn:Ea; [|done].
    intros Hrest. apply apply_attribution_effect in Ea.
    change (e :: ?l) with ([e] ++ l). rewrite bind_app. cbn [mbind list_bind] in *.
    rewrite app_nil_r. eapply effect_trans; [exact Ea|].
    apply IH; [by rewrite (eff_lp _ _ _ _ Ea)|by rewrite (eff_common _ _ _ _ Ea)|done].
Qed.

Lemma attribute_transfers_is_ret l s :
  te_LPTokenMap s = lp → te_CommonAddressMap s = common →
  Forall (λ t, is_lp lp t = false) l →
  is_ret (go_foldl (attribute_transfer ai sp) s l) ↔
  is_Some (te_RelatedToken s) ∨ omap (attribution lp common ai) l = [].
Proof.
  intros Hlp Hc Hl. revert s Hlp Hc. induction Hl as [|t l Ht Hl IH]; intros s Hlp Hc; cbn [go_foldl].
  - split; [by right|intros; apply is_ret_Ret].
  - rewrite attribute_transfer_eq by done. cbn [omap list_omap].
    destruct (attribution lp common ai t) as [e|]; [|by apply IH].
    destruct (apply_attribution ai _ s e) as [s1|] eqn:Ea.
    + pose proof (apply_attribution_effect _ _ _ _ _ Ea) as Heff.
      rewrite IH, (eff_nil _ _ _ _ Heff);
        [|by rewrite (eff_lp _ _ _ _ Heff)|by rewrite (eff_common _ _ _ _ Heff)].
      assert (is_Some (te_RelatedToken s)) as Hs; [|naive_solver].
      unfold apply_attribution, incr_RelatedToken in Ea. destruct s, te_RelatedToken; [eauto|done].
    + unfold apply_attribution, incr_RelatedToken in Ea. destruct s, te_RelatedToken; [done|].
      split; [intros; no_panic|]. by intros [[? ?]|?].
Qed.
End actions.

Section action.
Context (ai : ActionInfo).
#[local] Abbreviation att s := (attributed (te_LPTokenMap s) (te_CommonAddressMap s) ai).

Lemma without_lp s :
  Forall (λ t, is_lp (te_LPTokenMap s) t = false)
    (filter (λ t, is_lp (te_LPTokenMap s) t = false) (ai_TokenTxList ai)).
Proof. apply Forall_forall. intros t Ht. by apply list_elem_of_filter in Ht as [? _]. Qed.

Lemma attribute_action_effect s s' :
  attribute_action s ai = Ret s' →
  effect s s' (att s) (relations (te_LPTokenMap s) (te_CommonAddressMap s) ai).
Proof.
  unfold attribute_action. intros H. unfold relations, attributed. rewrite <- attributed_filter.
  eapply attribute_transfers_effect; [done..|apply without_lp|].
  rewrite split_transfers in H at 2. exact H.
Qed.

Lemma attribute_action_is_ret s :
  is_ret (attribute_action s ai) ↔ is_Some (te_RelatedToken s) ∨ att s = [].
Proof.
  unfold attribute_action, attributed. rewrite <- attributed_filter.
  rewrite split_transfers at 2. cbn [sp_withoutLP app].
  apply attribute_transfers_is_ret; [done..|apply without_lp].
Qed.
End action.

(** ** All actions *)

Lemma attribute_actions_effect (l : list (nat * ActionInfo)) s s' :
  go_foldl (λ s '(_, ai), attribute_action s ai) s l = Ret s' →
  effect s s' (l.*2 ≫= attributed (te_LPTokenMap s) (te_CommonAddressMap s))
    (l.*2 ≫= relations (te_LPTokenMap s) (te_CommonAddressMap s)).
Proof.
  revert s; induction l as [|[i ai] l IH]; intros s; cbn [go_foldl].
  - intros [= <-]. apply effect_refl.
  - destruct (attribute_action s ai) as [s1|] eqn:E; [|done]. intros Hrest.
    apply attribute_action_effect in E. apply IH in Hrest.
    rewrite (eff_lp _ _ _ _ E), (eff_common _ _ _ _ E) in Hrest.
    cbn. by eapply effect_trans.
Qed.

Lemma attribute_actions_is_ret (l : list (nat * ActionInfo)) s :
  is_ret (go_foldl (λ s '(_, ai), attribute_action s ai) s l) ↔
  is_Some (te_RelatedToken s) ∨
  l.*2 ≫= attributed (te_LPTokenMap s) (te_CommonAddressMap s) = [].
Proof.
  revert s; induction l as [|[i ai] l IH]; intros s; cbn [go_foldl].
  - split; [by right|intros; apply is_ret_Ret].
  - pose proof (attribute_action_is_ret ai s) as Hai.
    destruct (attribute_action s ai) as [s1|] eqn:E.
    + pose proof (attribute_action_effect _ _ _ E) as Heff.
      rewrite IH, (eff_nil _ _ _ _ Heff), (eff_lp _ _ _ _ Heff), (eff_common _ _ _ _ Heff).
      cbn. assert (is_Some (te_RelatedToken s) ∨ attributed (te_LPTokenMap s) (te_CommonAddressMap s) ai = [])
        as [?|Hnil] by (apply Hai, is_ret_Ret); [naive_solver|]. by rewrite Hnil.
    + cbn. split; [intros; no_panic|]. intros [?|[Hnil _]%app_eq_nil]; exfalso;
        apply (is_ret_Panic (A:=TxExtractor) p), Hai; auto.
Qed.

Section final.
Context (o : RangeOracle) (s : TxExtractor).
#[local] Abbreviation recorded := ((map_to_list (te_ActionInfoList s)).*2).
#[local] Abbreviation all_attributed :=
  (recorded ≫= attributed (te_LPTokenMap s) (te_CommonAddressMap s)).
#[local] Abbreviation all_relations :=
  (recorded ≫= relations (te_LPTokenMap s) (te_CommonAddressMap s)).

Lemma ExtractActionInfoList_is_ret :
  is_ret (ExtractActionInfoList o s) ↔ is_Some (te_RelatedToken s) ∨ all_attributed = [].
Proof.
  unfold ExtractActionInfoList. rewrite (is_ret_bind _ _ True) by (intros; split; auto with idw).
  rewrite attribute_actions_is_ret. unfold range_map.
  assert (((pick o (te_tick s) (map_to_list (te_ActionInfoList s))).*2) ≡ₚ recorded) as Hp
    by by rewrite (pick_perm o).
  assert (∀ l : list (Address * TokenTx), l = [] ↔ l ≡ₚ []) as Hnil
    by (intros; split; [by intros ->|apply Permutation_nil_r]).
  rewrite !Hnil, Hp. tauto.
Qed.

Lemma ExtractActionInfoList_effect s' :
  ExtractActionInfoList o s = Ret s' →
  (∀ u k, txs_of (te_UserTokenTxMap s') u k ≡ₚ
          txs_of (te_UserTokenTxMap s) u k ++ picks u k all_attributed) ∧
  (∀ u r, related (te_UserRelatedMap s') u r =
          relate u r (related (te_UserRelatedMap s) u r) all_relations) ∧
  (∀ k, token_count s' k = token_count s k +
          Z.of_nat (length (filter (λ e, tt_TokenAddress e.2 = k) all_attributed))).
Proof.
  unfold ExtractActionInfoList.
  destruct (go_foldl _ s _) as [s1|] eqn:E; [|done]. intros [= <-].
  apply attribute_actions_effect in E as []. unfold range_map in *.
  assert (((pick o (te_tick s) (map_to_list (te_ActionInfoList s))).*2) ≡ₚ recorded) as Hp
    by by rewrite (pick_perm o).
  split_and!; intros.
  - rewrite <- Hp. transitivity (txs_of (te_UserTokenTxMap s1) u k); [by destruct s1|].
    by rewrite eff_txs0.
  - rewrite <- Hp, <- eff_related0. by destruct s1.
  - rewrite <- Hp, <- eff_count0. by destruct s1.
Qed.
End final.

(** * What the extraction leaves alone *)

(** The fields that no walk over a tree changes. *)
Definition kept_fields (s : TxExtractor) :=
  (te_RelatedToken s, te_UserTokenTxMap s, te_StableTokenMap s, te_TokenSwapMap s).

Section kept.
Context (o : RangeOracle) (erc20 : ABI).

Lemma call_action_fields tx s : kept_fields (call_action o tx s).1 = kept_fields s.
Proof. unfold call_action, extractAction. destruct s. by repeat case_match; simplify_eq/=. Qed.

Lemma finish_call_fields ExTx action l s : kept_fields (finish_call ExTx action l s).1 = kept_fields s.
Proof.
  unfold finish_call. case_match; [done|]. cbn [fst]. transitivity (kept_fields (foldl count_transfer s l)); [by destruct (foldl _ _ _)|].
  revert s. induction l as [|t l IH]; intros s; [done|]. cbn. rewrite IH. unfold count_transfer. destruct s. by case_match.
Qed.

Lemma extractInTxInfo_fields tx : ∀ ExTx s s' l,
  extractInTxInfo o erc20 ExTx tx s = Ret (s', l) → kept_fields s' = kept_fields s.
Proof.
  induction tx as [f t c v ty i evs txs HF] using InternalTx_ind'. intros ExTx s s' l. rewrite extractInTxInfo_eq.
  set (tx := mkInternalTx f t c v ty i evs txs). pose proof (call_action_fields tx s) as Hc.
  destruct (call_action o tx s) as [s1 action]. cbn in Hc.
  change (itx_InTxs tx) with txs.
  destruct (go_foldl (visit_child o erc20 ExTx) _ txs) as [[s2 l2]|p] eqn:Ev; simpl; [|done].
  destruct (go_foldl (collect_event erc20) l2 _) as [l3|p]; simpl; [|done]. intros [= Hs].
  pose proof (finish_call_fields ExTx action l3 s2) as Hf. rewrite Hs in Hf. cbn in Hf. rewrite Hf, <- Hc.
  eapply (go_foldl_ind (λ a, kept_fields a.1 = kept_fields s1)) in Ev; [exact Ev|done|].
  intros [s3 l4] x [s4 l5] Hx H3. unfold visit_child. cbn [fst snd] in *. rewrite Forall_forall in HF.
  destruct (extractInTxInfo o erc20 ExTx x s3) as [[s5 l6]|] eqn:E; simpl; [|done]. intros [= <- _].
  rewrite <- H3. by eapply HF.
Qed.

Lemma ExtractTokenTx_fields ExTx s s' : ExtractTokenTx o erc20 ExTx s = Ret s' → kept_fields s' = kept_fields s.
Proof.
  unfold ExtractTokenTx. destruct (etx_InTxs ExTx) as [|tx [|? ?]]; [by intros [= <-]| |by intros [= <-]].
  destruct (extractInTxInfo _ _ _ _ _) as [[s1 l]|] eqn:E; simpl; [|done]. intros [= <-]. by eapply extractInTxInfo_fields.
Qed.

(** The transfers of pool tokens only change the relations. *)
Section stake.
Context {T : Type} (proj : TxExtractor → T) (Hproj : ∀ v s, proj (set_UserRelatedMap v s) = proj s).

Lemma stake_event_proj block s e s' : stake_event erc20 block s e = Ret s' → proj s' = proj s.
Proof.
  unfold stake_event. destruct (extractEvent _ _) as [[t b]|]; simpl; [|done]. case_match; intros [= <-]; [apply Hproj|done].
Qed.

Lemma extractInTxForStake_proj tx : ∀ ExTx s s',
  extractInTxForStake erc20 ExTx tx s = Ret s' → proj s' = proj s.
Proof.
  induction tx as [f t c v ty i evs txs HF] using InternalTx_ind'. intros ExTx s s'. cbn [extractInTxForStake itx_InTxs itx_Events].
  match goal with |- ((?m ≫= _) = _) → _ => destruct m as [s1|p] eqn:Ec end; simpl; [|done]. intros Hev.
  transitivity (proj s1).
  - eapply (go_foldl_ind (λ x, proj x = proj s1)); [done| |exact Hev].
    intros x e x' _ <-. apply stake_event_proj.
  - clear Hev. revert s Ec. induction HF as [|x txs Hx HF IH]; intros s; [by intros [= <-]|].
    destruct (extractInTxForStake erc20 ExTx x s) as [s2|] eqn:E; [|done]. intros Hr. rewrite (IH _ Hr). by eapply Hx.
Qed.

Lemma ExtractStakeTokenTx_proj ExTx s s' : ExtractStakeTokenTx erc20 ExTx s = Ret s' → proj s' = proj s.
Proof.
  unfold ExtractStakeTokenTx. destruct (etx_InTxs ExTx) as [|tx [|? ?]]; [by intros [= <-]| |by intros [= <-]].
  apply extractInTxForStake_proj.
Qed.
End stake.

Lemma ExtractStakeTokenTx_fields ExTx s s' :
  ExtractStakeTokenTx erc20 ExTx s = Ret s' → kept_fields s' = kept_fields s ∧ te_ActionInfoList s' = te_ActionInfoList s.
Proof. intros E. split; eapply ExtractStakeTokenTx_proj; try exact E; by intros ? []. Qed.
End kept.
