(* ===== verification/Flow.v ===== *)
(** * hunter/defi/check.go: the flows of users and the detection

    [GenerateUserFlow] turns the transfers attributed to a user into flows with
    running totals, per token, per class of stable tokens, and merged over all
    tokens; [MergeFlowInTx] groups the flows by transaction.  [CheckAttack] adds
    the totals of a user to those of the users it is related to. *)

From S2P Require Import Prelude BigFloat Common Extractor.

(** ** Data *)

Record TokenFlow := mkTokenFlow {
  tf_BlockNumber : Z;
  tf_TxIndex : Z;
  tf_Amount : Float;
  tf_Action : string;
  tf_TotalDeposit : Float;
  tf_TotalWithdraw : Float
}.

Abbreviation TokenFlowMap := (gmap Address (list TokenFlow)).
Abbreviation UserTokenFlowMap := (gmap Address TokenFlowMap).

Record TokenFlowTx := mkTokenFlowTx {
  tx_BlockNumber : Z;
  tx_TxIndex : Z;
  tx_TotalDeposit : Float;
  tx_TotalWithdraw : Float
}.

Abbreviation FlowTxMap := (gmap string TokenFlowTx).
Abbreviation TokenFlowTxMap := (gmap Address FlowTxMap).
Abbreviation UserTokenFlowTxMap := (gmap Address TokenFlowTxMap).

(** ** Orders *)

(** [TokenFlowList.Less]: by block only. *)
Definition TokenFlowList_Less (a b : TokenFlow) : bool := tf_BlockNumber a <? tf_BlockNumber b.

(** [TokenTxList.Less]: by block, transaction and event. *)
Definition TokenTxList_Less (a b : TokenTx) : bool :=
  if tt_BlockNumber a <? tt_BlockNumber b then true
  else if tt_BlockNumber a =? tt_BlockNumber b then
    if tt_TxIndex a <? tt_TxIndex b then true
    else if tt_TxIndex a =? tt_TxIndex b then tt_EventIndex a <? tt_EventIndex b
    else false
  else false.

(** ** Running totals *)

(** The variables of a flow loop: the flows so far and the two totals. *)
Record FlowState := mkFlowState {
  fs_flows : list TokenFlow;
  fs_deposit : Float;
  fs_withdraw : Float
}.

Definition first_flow : TokenFlow := mkTokenFlow 0 0 newFloat "" newFloat newFloat.
Definition init_flow : FlowState := mkFlowState [first_flow] newFloat newFloat.

(** Add [amount] to the total of the action and append a flow. *)
Definition push_flow (st : FlowState) (t : TokenTx) (amount flowAmount : Float) : FlowState :=
  let d := if String.eqb (tt_Action t) "deposit" then Add newFloat (fs_deposit st) amount
           else fs_deposit st in
  let w := if String.eqb (tt_Action t) "deposit" then fs_withdraw st
           else if String.eqb (tt_Action t) "withdraw" then Add newFloat (fs_withdraw st) amount
           else fs_withdraw st in
  mkFlowState (fs_flows st ++ [mkTokenFlow (tt_BlockNumber t) (tt_TxIndex t) flowAmount (tt_Action t) d w]) d w.

(** The loop body of a single token. *)
Definition single_step (st : FlowState) (t : TokenTx) : Go FlowState :=
  match tt_Amount t with
  | None => Panic NilDereference
  | Some a =>
      if a >? 0 then
        let amount := SetInt a in Ret (push_flow st t amount (Add newFloat amount newFloat))
      else Ret st
  end.

(** [int64(math.Pow(10, float64(n)))], on a machine whose out-of-range conversion
    gives the least [int64]. *)
Definition pow10_int64 (n : Z) : Z :=
  if n <? 0 then 0 else if n <=? 18 then 10 ^ n else - 2 ^ 63.

Definition stable_rate (st : StableToken) : Float :=
  SetInt64 (wrapS 64 (st_RateToXToken st * pow10_int64 (18 - st_Decimals st))).

Section flow.
Context (so : Sorter).
Context (stableTokenMap : gmap Address StableToken).
Context (LPTokenMap : gmap Address bool).
Context (tokenSwapMap : gmap Address TokenSwap).

Definition stable_of (token : Address) : StableToken :=
  default zero_StableToken (stableTokenMap !! token).

(** The loop body of a class of stable tokens. *)
Definition stable_step (st : FlowState) (t : TokenTx) : Go FlowState :=
  match tt_Amount t with
  | None => Panic NilDereference
  | Some a =>
      if a >? 0 then
        let amount := Mul newFloat (SetInt a) (stable_rate (stable_of (tt_TokenAddress t))) in
        Ret (push_flow st t amount amount)
      else Ret st
  end.

Definition WETH : Address := HexToAddress "0xc02aaa39b223fe8d0a0e5c4f27ead9083c756cc2".
Definition WBTC : Address := HexToAddress "0x2260fac5e5542a773aa44fbcfedf7c193bc2c599".

(** The token whose price history converts a token that is not stable for USD. *)
Definition price_token (token : Address) : Address :=
  if bool_decide (is_Some (stableTokenMap !! token)) then
    if st_XToken (stable_of token) =? 1 then WETH
    else if st_XToken (stable_of token) =? 3 then WBTC
    else token
  else token.

(** The price of the 500-block period, 0 where there is none. *)
Definition swap_rate (token : Address) (blockNumber : Z) : Float :=
  let block := wrapU 64 (Z.abs blockNumber) in
  let block := (block / 500) * 500 in
  let rates := match tokenSwapMap !! token with Some ts => ts_RateMap ts | None => ∅ end in
  SetFloat64 (default (mkF64 0 0) (rates !! pretty block)).

Definition merged_rate (t : TokenTx) : option Float :=
  let token := tt_TokenAddress t in
  let inTokenSwapMap := bool_decide (is_Some (tokenSwapMap !! token)) in
  let inStableTokenMap := bool_decide (is_Some (stableTokenMap !! token)) in
  if inTokenSwapMap || inStableTokenMap then
    if inStableTokenMap && (st_XToken (stable_of token) =? 2)
    then Some (stable_rate (stable_of token))
    else Some (swap_rate (price_token token) (tt_BlockNumber t))
  else None.

(** The loop body of the merged flow, which also counts unsupported tokens. *)
Definition merged_step (acc : FlowState * gmap Address Z) (t : TokenTx) : Go (FlowState * gmap Address Z) :=
  let '(st, unSupportToken) := acc in
  match tt_Amount t with
  | None => Panic NilDereference
  | Some a =>
      if a >? 0 then
        match merged_rate t with
        | Some rate =>
            let amount := Mul newFloat (SetInt a) rate in
            Ret (push_flow st t amount amount, unSupportToken)
        | None => Ret (st, map_incr (tt_TokenAddress t) unSupportToken)
        end
      else Ret (st, unSupportToken)
  end.

(** ** One user *)

(** The variables of the loop over the tokens of a user.  [ua_txs] is the user's
    map itself, whose lists are sorted in place. *)
Record UserAcc := mkUserAcc {
  ua_merged : list TokenTx;
  ua_stable : gmap Address (list TokenTx);
  ua_flows : TokenFlowMap;
  ua_txs : TokenTxMap
}.

Definition token_step (acc : UserAcc) (e : Address * list TokenTx) : Go UserAcc :=
  let '(token, l) := e in
  let merged := ua_merged acc ++ l in
  let stable := match stableTokenMap !! token with
                | Some st => <[st_XToken st := default [] (ua_stable acc !! st_XToken st) ++ l]> (ua_stable acc)
                | None => ua_stable acc
                end in
  if bool_decide (stableTokenMap !! token = None) && default false (LPTokenMap !! token)
  then Ret (mkUserAcc merged stable (ua_flows acc) (ua_txs acc))
  else
    let sorted := sort_by so TokenTxList_Less l in
    st ← go_foldl single_step init_flow sorted;
    Ret (mkUserAcc merged stable (<[token := fs_flows st]> (ua_flows acc))
           (<[token := sorted]> (ua_txs acc))).

Definition stable_flow (flows : TokenFlowMap) (e : Address * list TokenTx) : Go TokenFlowMap :=
  let '(xToken, l) := e in
  st ← go_foldl stable_step init_flow (sort_by so TokenTxList_Less l);
  Ret (<[xToken := fs_flows st]> flows).

Definition MERGED : Address := 4.

Definition user_flow (o : RangeOracle) (tokenTxMap : TokenTxMap) (unSupportToken : gmap Address Z)
    : Go (TokenFlowMap * TokenTxMap * gmap Address Z) :=
  acc ← go_foldl token_step (mkUserAcc [] ∅ ∅ tokenTxMap) (range_map o 0 tokenTxMap);
  flows ← go_foldl stable_flow (ua_flows acc) (range_map o 1 (ua_stable acc));
  '(st, unSupportToken) ← go_foldl merged_step (init_flow, unSupportToken)
                            (sort_by so TokenTxList_Less (ua_merged acc));
  Ret (<[MERGED := fs_flows st]> flows, ua_txs acc, unSupportToken).
End flow.

(** ** All users

    [o] orders the loop over the users, [os user] the loops of one user.  The
    result has the flows, the unsupported tokens, and the map of transfers with
    its lists sorted in place. *)
Definition user_step (so : Sorter) (os : Address → RangeOracle) (s : TxExtractor)
    (acc : UserTokenFlowMap * gmap Address Z * UserTokenTxMap) (e : Address * TokenTxMap)
    : Go (UserTokenFlowMap * gmap Address Z * UserTokenTxMap) :=
  let '(flowMap, unSupportToken, txMap) := acc in
  let '(user, tokenTxMap) := e in
  '(flows, txs, unSupportToken) ←
    user_flow so (te_StableTokenMap s) (te_LPTokenMap s) (te_TokenSwapMap s) (os user) tokenTxMap unSupportToken;
  Ret (<[user := flows]> flowMap, unSupportToken, <[user := txs]> txMap).

Definition GenerateUserFlow (so : Sorter) (o : RangeOracle) (os : Address → RangeOracle) (s : TxExtractor)
    : Go (UserTokenFlowMap * gmap Address Z * UserTokenTxMap) :=
  go_foldl (user_step so os s) (∅, ∅, te_UserTokenTxMap s) (range_map o 0 (te_UserTokenTxMap s)).

(** ** Flows grouped by transaction *)

(** The key of a transaction. *)
Definition block_tx (blockNumber txIndex : Z) : string :=
  String.append (pretty blockNumber) (String.append "_" (pretty txIndex)).

(** [tokenFlowTx] is a copy of the entry of the map whose two totals are the
    pointers of the entry, so the additions in place update the entry. *)
Definition merge_flow (m : FlowTxMap) (f : TokenFlow) : FlowTxMap :=
  let key := block_tx (tf_BlockNumber f) (tf_TxIndex f) in
  let e := default (mkTokenFlowTx (tf_BlockNumber f) (tf_TxIndex f) newFloat newFloat) (m !! key) in
  let d := tx_TotalDeposit e in
  let w := tx_TotalWithdraw e in
  let e' :=
    if String.eqb (tf_Action f) "deposit"
    then mkTokenFlowTx (tx_BlockNumber e) (tx_TxIndex e) (Add d d (tf_Amount f)) w
    else if String.eqb (tf_Action f) "withdraw"
    then mkTokenFlowTx (tx_BlockNumber e) (tx_TxIndex e) d (Add w w (tf_Amount f))
    else e in
  <[key := e']> m.

(** The loops over users and tokens write disjoint entries, so the maps are built
    pointwise. *)
Definition MergeFlowInTx (m : UserTokenFlowMap) : UserTokenFlowTxMap :=
  (λ tm : TokenFlowMap, (λ l, foldl merge_flow ∅ l) <$> tm) <$> m.

(** * Related users and the abnormal rate

    The totals of a user are added to those of the users it is related to,
    directly or through other users, and a user is reported when the ratio of
    withdrawals to deposits is abnormal. *)

Definition ABNORMAL_RATE : Z := 3.
Definition SINGLE_ABNORMAL_RATE : Z := 1.

Record AttackInfo := mkAttackInfo {
  at_BlockNumber : Z;
  at_TotalDeposit : Float;
  at_TotalWithdraw : Float;
  at_TokenFlowList : list TokenFlow;
  at_RelatedUserMap : RelatedMap;
  at_RelatedTokenFlowMap : gmap Address (list TokenFlow)
}.

(** [m\[user\]\[token\]], nil where there is no such entry. *)
Definition flows_of (m : UserTokenFlowMap) (user token : Address) : list TokenFlow :=
  default [] (m !! user ≫= (.!! token)).

(** ** The traversal of related users

    Both [GetRelatedTokenFlow] and [GetRelatedTokenFlowInTx] add the totals of a
    user to those of every related user not visited before.  They differ in the
    user's own totals, and in that the first sorts the flows in place: [S] is the
    state that [own] may change. *)
Section related.
Context {S : Type}.
Context (o : RangeOracle) (userRelatedMap : UserRelatedMap) (commonAddressMap : gmap Address bool).
Context (blockNumber : Z).
Context (own : S → Address → Float * Float * S).

Record Totals := mkTotals {
  to_deposit : Float;
  to_withdraw : Float;
  to_used : gset Address;
  to_state : S
}.

(** The related users of a user, in the order of the loop that starts when [used]
    has been visited. *)
Definition related_entries (used : gset Address) (user : Address) : list (Address * Z) :=
  range_map o (size used) (default ∅ (userRelatedMap !! user)).

(** The guards of the loop body. *)
Definition follow (used : gset Address) (relatedUser : Address) (since : Z) : bool :=
  bool_decide (commonAddressMap !! relatedUser = None) && bool_decide (relatedUser ∉ used) &&
  (since <=? blockNumber).

(** The loop body, given the recursive call [rec]. *)
Definition related_step (rec : Address → gset Address → S → option Totals)
    (acc : Totals) (e : Address * Z) : option Totals :=
  let '(relatedUser, since) := e in
  if follow (to_used acc) relatedUser since then
    r ← rec relatedUser ({[relatedUser]} ∪ to_used acc) (to_state acc);
    Some (mkTotals (Add (to_deposit acc) (to_deposit acc) (to_deposit r))
            (Add (to_withdraw acc) (to_withdraw acc) (to_withdraw r)) (to_used r) (to_state r))
  else Some acc.

Fixpoint related_loop (rec : Address → gset Address → S → option Totals)
    (acc : Totals) (l : list (Address * Z)) : option Totals :=
  match l with
  | [] => Some acc
  | e :: l' => acc' ← related_step rec acc e; related_loop rec acc' l'
  end.

(** The recursion, [None] when the fuel runs out. *)
Fixpoint get_related (fuel : nat) (user : Address) (used : gset Address) (st : S) : option Totals :=
  match fuel with
  | O => None
  | Datatypes.S fuel' =>
      let '(d, w, st') := own st user in
      related_loop (get_related fuel') (mkTotals d w used st') (related_entries used user)
  end.

(** The same loop as the callers run it, on totals of their own. *)
Definition add_related (fuel : nat) (user : Address) (d w : Float) (st : S) : option Totals :=
  related_loop (get_related fuel) (mkTotals d w ∅ st) (related_entries ∅ user).
End related.
Arguments Totals S : clear implicits.
Arguments mkTotals {S}.
Arguments to_deposit {S}.
Arguments to_withdraw {S}.
Arguments to_used {S}.
Arguments to_state {S}.

(** More fuel than there are related users suffices ([get_related_total]). *)
Definition related_fuel (m : UserRelatedMap) : nat :=
  Datatypes.S (size (⋃ ((λ e : Address * RelatedMap, dom e.2) <$> map_to_list m) : gset Address)).

(** ** Across transactions *)

(** The flow is not after [this]. *)
Definition not_after (this f : TokenFlow) : bool :=
  negb ((tf_BlockNumber this <? tf_BlockNumber f) ||
        ((tf_BlockNumber f =? tf_BlockNumber this) && (tf_TxIndex this <? tf_TxIndex f))).

(** The totals of the last flow before the loop breaks. *)
Fixpoint totals_until (this : TokenFlow) (l : list TokenFlow) (d w : Float) : Float * Float :=
  match l with
  | [] => (d, w)
  | f :: l' =>
      if not_after this f
      then totals_until this l' (Add newFloat (tf_TotalDeposit f) newFloat)
             (Add newFloat (tf_TotalWithdraw f) newFloat)
      else (d, w)
  end.

(** [sort.Sort] on the slice of a map of maps. *)
Definition sort_flows (so : Sorter) (m : UserTokenFlowMap) (user token : Address) : UserTokenFlowMap :=
  match m !! user ≫= (.!! token) with
  | Some l => <[user := <[token := sort_by so TokenFlowList_Less l]> (default ∅ (m !! user))]> m
  | None => m
  end.

Definition own_flow (so : Sorter) (token : Address) (this : TokenFlow) (m : UserTokenFlowMap)
    (user : Address) : Float * Float * UserTokenFlowMap :=
  let m' := sort_flows so m user token in
  (totals_until this (flows_of m' user token) newFloat newFloat, m').

Definition GetRelatedTokenFlow (o : RangeOracle) (so : Sorter) (fuel : nat) (m : UserTokenFlowMap)
    (user token : Address) (userRelatedMap : UserRelatedMap) (used : gset Address)
    (commonAddressMap : gmap Address bool) (this : TokenFlow) : option (Totals UserTokenFlowMap) :=
  get_related o userRelatedMap commonAddressMap (tf_BlockNumber this) (own_flow so token this)
    fuel user used m.

(** [rate >= float64(c)] for the rate of two totals. *)
Definition rate_ge_const (w d : Float) (c : Z) : Go bool :=
  r ← rate_of w d; Ret (f64_ge r c).

Definition rate_gt_const (w d : Float) (c : Z) : Go bool :=
  r ← rate_of w d; Ret (f64_gt r c).

Definition is_gt (c : comparison) : bool := match c with Gt => true | _ => false end.
Definition is_eq (c : comparison) : bool := match c with Eq => true | _ => false end.

(** The condition under which the totals are abnormal. *)
Definition abnormal (totalDeposit totalWithdraw : Float) : Go bool :=
  if is_gt (Cmp totalDeposit newFloat) then rate_ge_const totalWithdraw totalDeposit ABNORMAL_RATE
  else Ret (is_eq (Cmp totalDeposit newFloat) && is_gt (Cmp totalWithdraw newFloat)).

Definition abnormalDetection (totalDeposit totalWithdraw : Float) (m : UserTokenFlowMap)
    (user token : Address) (used : gset Address) (userRelatedMap : UserRelatedMap)
    (this : TokenFlow) : Go (option AttackInfo) :=
  flag ← abnormal totalDeposit totalWithdraw;
  Ret (if flag : bool then
         Some (mkAttackInfo (tf_BlockNumber this) totalDeposit totalWithdraw (flows_of m user token)
                 (default ∅ (userRelatedMap !! user))
                 (set_to_map (λ r, (r, flows_of m r token)) used))
       else None).

Section check.
Context (so : Sorter) (s : TxExtractor).
#[local] Abbreviation userRelatedMap := (te_UserRelatedMap s).
#[local] Abbreviation commonAddressMap := (te_CommonAddressMap s).
#[local] Abbreviation fuel := (related_fuel (te_UserRelatedMap s)).

(** The totals that decide at one flow of a token. *)
Definition flow_totals (o : RangeOracle) (m : UserTokenFlowMap) (user token : Address) (f : TokenFlow)
    : option (Totals UserTokenFlowMap) :=
  add_related o userRelatedMap commonAddressMap (tf_BlockNumber f) (own_flow so token f) fuel user
    (Add newFloat (tf_TotalDeposit f) newFloat) (Add newFloat (tf_TotalWithdraw f) newFloat) m.

(** The loop over the flows of a token from [index] on, [n] of them left; the
    slice is read again at every index, as it may have been sorted in between.
    [None] is the exhaustion of fuel, which does not occur. *)
Fixpoint flow_loop (os : nat → RangeOracle) (user token : Address) (index n : nat) (m : UserTokenFlowMap)
    : option (Go (UserTokenFlowMap * option AttackInfo)) :=
  match n with
  | O => Some (Ret (m, None))
  | Datatypes.S n' =>
      match flows_of m user token !! index with
      | None => Some (Panic IndexOutOfRange)
      | Some f =>
          if String.eqb (tf_Action f) "deposit" then flow_loop os user token (Datatypes.S index) n' m
          else
            t ← flow_totals (os index) m user token f;
            match abnormalDetection (to_deposit t) (to_withdraw t) (to_state t) user token
                    (to_used t) userRelatedMap f with
            | Panic p => Some (Panic p)
            | Ret (Some info) => Some (Ret (to_state t, Some info))
            | Ret None => flow_loop os user token (Datatypes.S index) n' (to_state t)
            end
      end
  end.

(** One token of the user. *)
Definition check_token (os : Address → nat → RangeOracle) (user : Address)
    (acc : UserTokenFlowMap * gmap Address AttackInfo) (token : Address)
    : option (Go (UserTokenFlowMap * gmap Address AttackInfo)) :=
  let '(m, attackInfoMap) := acc in
  if bool_decide (is_Some (te_StableTokenMap s !! token)) then Some (Ret acc)
  else
    let m := sort_flows so m user token in
    run_bind (flow_loop (os token) user token 0 (length (flows_of m user token)) m)
      (λ '(m', info),
         Some (Ret (m', match info with
                        | Some i => <[token := i]> attackInfoMap
                        | None => attackInfoMap
                        end))).

(** The result has the attacks, whether there is one, and the flows as sorted. *)
Definition CheckAttack (o : RangeOracle) (os : Address → nat → RangeOracle) (user : Address)
    (m : UserTokenFlowMap) : option (Go (gmap Address AttackInfo * bool * UserTokenFlowMap)) :=
  if bool_decide (is_Some (commonAddressMap !! user)) then Some (Ret (∅, false, m))
  else
    run_bind (run_foldl (check_token os user) (m, ∅) (range_map o 0 (default ∅ (m !! user))).*1)
      (λ '(m', attackInfoMap),
         Some (Ret (attackInfoMap,
                    negb (bool_decide (attackInfoMap = ∅ :> gmap Address AttackInfo)), m'))).

(** ** Within one transaction *)

Definition txs_flow (m : UserTokenFlowTxMap) (user token : Address) (key : string) : option TokenFlowTx :=
  tm ← m !! user; fm ← tm !! token; fm !! key.

Definition own_flow_tx (m : UserTokenFlowTxMap) (token : Address) (key : string) (_ : unit) (user : Address)
    : Float * Float * unit :=
  match txs_flow m user token key with
  | Some e => (Add newFloat (tx_TotalDeposit e) newFloat, Add newFloat (tx_TotalWithdraw e) newFloat, tt)
  | None => (newFloat, newFloat, tt)
  end.

Definition GetRelatedTokenFlowInTx (o : RangeOracle) (n : nat) (m : UserTokenFlowTxMap)
    (user token : Address) (used : gset Address) (key : string) (blockNumber : Z) : option (Totals unit) :=
  get_related o userRelatedMap commonAddressMap blockNumber (own_flow_tx m token key) n user used tt.

(** A line that [CheckAttackInTx] prints. *)
Record TxReport := mkTxReport {
  rp_user : Address;
  rp_token : Address;
  rp_TotalDeposit : Float;
  rp_TotalWithdraw : Float;
  rp_BlockNumber : Z;
  rp_TxIndex : Z
}.

(** The body of the loop over the transactions of a user and a token. *)
Definition check_tx (o : RangeOracle) (m : UserTokenFlowTxMap) (user token : Address)
    (reports : list TxReport) (e : string * TokenFlowTx) : option (Go (list TxReport)) :=
  let '(key, f) := e in
  if is_gt (Cmp (tx_TotalDeposit f) newFloat) then
    t ← add_related o userRelatedMap commonAddressMap (tx_BlockNumber f) (own_flow_tx m token key) fuel user
          (Add newFloat (tx_TotalDeposit f) newFloat) (Add newFloat (tx_TotalWithdraw f) newFloat) tt;
    Some (flag ← rate_gt_const (to_withdraw t) (to_deposit t) SINGLE_ABNORMAL_RATE;
          Ret (if flag : bool then
                 reports ++ [mkTxReport user token (to_deposit t) (to_withdraw t)
                               (tx_BlockNumber f) (tx_TxIndex f)]
               else reports))
  else Some (Ret reports).

Definition check_user_txs (os : Address → Address → string → RangeOracle) (o : RangeOracle)
    (m : UserTokenFlowTxMap) (reports : list TxReport) (e : Address * TokenFlowTxMap)
    : option (Go (list TxReport)) :=
  let '(user, tm) := e in
  if bool_decide (is_Some (commonAddressMap !! user)) then Some (Ret reports)
  else if default 0 (te_RelatedToken s ≫= (.!! user)) >? 0 then Some (Ret reports)
  else
    run_foldl (λ reports '(token, fm),
      run_foldl (λ reports e, check_tx (os user token e.1) m user token reports e)
        reports (range_map o 2 fm)) reports (range_map o 1 tm).

Definition CheckAttackInTx (o : RangeOracle) (os : Address → Address → string → RangeOracle)
    (flows : UserTokenFlowMap) : option (Go (list TxReport)) :=
  let m := MergeFlowInTx flows in
  run_foldl (check_user_txs os o m) [] (range_map o 0 m).
End check.
