(* ===== verification/Approx.v ===== *)
(** * Sums of floating-point numbers

    A chain of [n] additions of non-negative numbers at 64 bits or more returns
    the exact sum up to [n] relative roundings.  Flows and totals of related users
    are such chains. *)

From S2P Require Import Prelude BigFloat.
From Stdlib Require Import QArith Qpower Lqa.
#[local] Open Scope Z_scope.

(** The values the program computes with: not negative, and either the zero of an
    unset precision or of at least 64 bits. *)
Definition amount_like (x : Float) : Prop :=
  0 ≤ f_mant x ∧ (f_prec x = 0 ∧ f_mant x = 0 ∨ 64 ≤ f_prec x).

Definition unit64 : Q := roundoff 64.

Lemma unit64_bounds : (0 <= 1 - unit64 <= 1 ∧ 1 <= 1 + unit64)%Q.
Proof. unfold unit64, roundoff. split; [split|]; vm_compute; discriminate. Qed.

(** Powers with a natural exponent. *)
Fixpoint powQ (x : Q) (n : nat) : Q :=
  match n with O => 1%Q | S n' => (x * powQ x n')%Q end.

Definition approx (n : nat) (exact x : Q) : Prop :=
  (exact * powQ (1 - unit64) n <= x ∧ x <= exact * powQ (1 + unit64) n)%Q.

#[export] Instance powQ_proper : Proper (Qeq ==> eq ==> Qeq) powQ.
Proof. intros x y Hxy n ? <-. induction n; simpl; [done|]. by rewrite IHn, Hxy. Qed.

#[export] Instance approx_proper n : Proper (Qeq ==> Qeq ==> iff) (approx n).
Proof. intros x y Hxy a b Hab. unfold approx. by rewrite Hxy, Hab. Qed.

Lemma powQ_low n : (0 <= powQ (1 - unit64) n <= 1)%Q.
Proof.
  destruct unit64_bounds as [Hu _]. induction n as [|n IH]; cbn [powQ]; [lra|].
  set (p := powQ _ n) in *. nra.
Qed.

Lemma powQ_high n : (1 <= powQ (1 + unit64) n)%Q.
Proof.
  destruct unit64_bounds as [_ Hu]. induction n as [|n IH]; cbn [powQ]; [lra|].
  set (p := powQ _ n) in *. nra.
Qed.

Lemma powQ_low_mono n m : (n ≤ m)%nat → (powQ (1 - unit64) m <= powQ (1 - unit64) n)%Q.
Proof.
  destruct unit64_bounds as [Hu _]. induction 1 as [|m _ IH]; cbn [powQ]; [lra|].
  pose proof (powQ_low m). set (p := powQ _ m) in *. nra.
Qed.

Lemma powQ_high_mono n m : (n ≤ m)%nat → (powQ (1 + unit64) n <= powQ (1 + unit64) m)%Q.
Proof.
  destruct unit64_bounds as [_ Hu]. induction 1 as [|m _ IH]; cbn [powQ]; [lra|].
  pose proof (powQ_high m). set (p := powQ _ m) in *. nra.
Qed.

Lemma approx_refl x : approx 0 x x.
Proof. unfold approx. cbn [powQ]. lra. Qed.

Lemma approx_mono n m s x : (n ≤ m)%nat → (0 <= s)%Q → approx n s x → approx m s x.
Proof.
  intros Hnm Hs [Hl Hh]. pose proof (powQ_low_mono _ _ Hnm). pose proof (powQ_high_mono _ _ Hnm).
  split; nra.
Qed.

Lemma approx_nonneg n s x : (0 <= s)%Q → approx n s x → (0 <= x)%Q.
Proof. intros Hs [Hl _]. pose proof (powQ_low n). nra. Qed.

(** One more rounding of a sum. *)
Lemma approx_sum n s t x y z :
  (0 <= s)%Q → (0 <= t)%Q → approx n s x → approx n t y →
  ((x + y) * (1 - unit64) <= z)%Q → (z <= (x + y) * (1 + unit64))%Q →
  approx (S n) (s + t) z.
Proof.
  intros Hs Ht [Hx1 Hx2] [Hy1 Hy2] Hz1 Hz2. destruct unit64_bounds as [Hu1 Hu2].
  unfold approx. cbn [powQ].
  set (p := powQ (1 - unit64) n) in *. set (q := powQ (1 + unit64) n) in *. split.
  - apply Qle_trans with ((x + y) * (1 - unit64))%Q; [|done].
    assert ((s + t) * ((1 - unit64) * p) == (s * p + t * p) * (1 - unit64))%Q as -> by ring.
    apply Qmult_le_compat_r; lra.
  - apply Qle_trans with ((x + y) * (1 + unit64))%Q; [done|].
    assert ((s + t) * ((1 + unit64) * q) == (s * q + t * q) * (1 + unit64))%Q as -> by ring.
    apply Qmult_le_compat_r; lra.
Qed.

Lemma roundoff_mono p : 64 ≤ p → (roundoff p <= unit64)%Q.
Proof.
  intros Hp. unfold unit64, roundoff. apply Qpower_le_compat_l; [lia|by vm_compute].
Qed.

Lemma roundoff_nonneg p : (0 <= roundoff p)%Q.
Proof. apply Qlt_le_weak, two_pow_pos. Qed.

Lemma amount_like_0 : amount_like newFloat.
Proof. split; [done|by left]. Qed.

Lemma amount_like_nonneg x : amount_like x → (0 <= toQ x)%Q.
Proof. intros [? _]. by apply toQ_nonneg. Qed.

Lemma amount_like_SetInt a : 0 ≤ a → amount_like (SetInt a).
Proof. split; [by apply SetInt_nonneg|]. right. apply SetInt_prec. Qed.

(** ** Exact sums *)

Definition sumQ (l : list Q) : Q := foldr Qplus 0%Q l.

Lemma sumQ_app l1 l2 : (sumQ (l1 ++ l2) == sumQ l1 + sumQ l2)%Q.
Proof. induction l1 as [|x l1 IH]; simpl; [ring|]. rewrite IH. ring. Qed.

#[export] Instance sumQ_perm : Proper ((≡ₚ) ==> Qeq) sumQ.
Proof. induction 1; simpl; [done|by rewrite IHPermutation|ring|by etrans]. Qed.

Lemma sumQ_nonneg l : Forall (λ x, 0 <= x)%Q l → (0 <= sumQ l)%Q.
Proof. induction 1; simpl; [lra|]. lra. Qed.

(** Approximations compose. *)
Lemma powQ_add x n m : (powQ x (n + m) == powQ x n * powQ x m)%Q.
Proof. induction n as [|n IH]; cbn [powQ Nat.add]; [ring|]. rewrite IH. ring. Qed.

Lemma approx_trans n m x y z : (0 <= x)%Q → approx n x y → approx m y z → approx (n + m) x z.
Proof.
  intros Hx [Hn1 Hn2] [Hm1 Hm2]. pose proof (powQ_low m). pose proof (powQ_high m).
  unfold approx. rewrite !powQ_add, !Qmult_assoc. split.
  - eapply Qle_trans; [apply Qmult_le_compat_r; [exact Hn1|lra]|done].
  - eapply Qle_trans; [done|]. apply Qmult_le_compat_r; [done|lra].
Qed.

Lemma approx_plus n a b x y : approx n a x → approx n b y → approx n (a + b) (x + y).
Proof. unfold approx. rewrite !Qmult_plus_distr_l. intros [? ?] [? ?]. lra. Qed.

(** Sums of approximations, term by term. *)
Lemma approx_sumQ {A} n (f g : A → Q) (l : list A) :
  Forall (λ a, 0 <= f a ∧ approx n (f a) (g a))%Q l → approx n (sumQ (f <$> l)) (sumQ (g <$> l)).
Proof.
  unfold approx. induction 1 as [|a l [Hf [H1 H2]] _ [IH1 IH2]]; cbn; [lra|].
  unfold sumQ in *. rewrite !Qmult_plus_distr_l. lra.
Qed.

(** The receivers of the program's additions. *)
Definition receiver (z x : Float) : Prop := z = newFloat ∨ z = x.

Lemma op_prec_cases z x y :
  receiver z x → amount_like x → amount_like y →
  64 ≤ op_prec z x y ∨
  (op_prec z x y = 0 ∧ (f_prec x = 0 ∧ f_mant x = 0) ∧ (f_prec y = 0 ∧ f_mant y = 0)).
Proof.
  intros Hz [_ Hx] [_ Hy]. unfold op_prec, umax32.
  assert (f_prec z = 0 ∨ z = x) as [->| ->] by (destruct Hz as [->|]; auto); simpl;
    [|destruct (Z.eqb_spec (f_prec x) 0)]; rewrite ?Z.gtb_ltb;
    try destruct (Z.ltb_spec (f_prec y) (f_prec x)); lia.
Qed.

Lemma amount_like_Add z x y :
  receiver z x → amount_like x → amount_like y → amount_like (Add z x y).
Proof.
  intros Hz Hx Hy. split; [apply Add_nonneg; [apply Hx|apply Hy]|].
  rewrite Add_prec. destruct (op_prec_cases z x y Hz Hx Hy) as [?|(-> & [_ E1] & [_ E2])]; [by right|left].
  split; [done|]. unfold Add. rewrite f_mant_mk_rounded, E1, E2. cbn. apply rnd_zero.
Qed.

Lemma Add_near z x y :
  receiver z x → amount_like x → amount_like y →
  ((toQ x + toQ y) * (1 - unit64) <= toQ (Add z x y) ∧
   toQ (Add z x y) <= (toQ x + toQ y) * (1 + unit64))%Q.
Proof.
  intros Hz Hx Hy. pose proof (amount_like_nonneg _ Hx). pose proof (amount_like_nonneg _ Hy).
  pose proof (amount_like_Add z x y Hz Hx Hy) as Ha.
  destruct (op_prec_cases z x y Hz Hx Hy) as [Hp|(Hp & [_ E1] & [_ E2])].
  - pose proof (roundoff_mono _ Hp). destruct (Add_relative z x y) as [Hl Hh];
      [lia|apply Hx|apply Hy|].
    assert (0 <= (toQ x + toQ y) * (unit64 - roundoff (op_prec z x y)))%Q
      by (apply Qmult_le_0_compat; lra).
    split; lra.
  - assert (f_mant (Add z x y) = 0) as E by (unfold Add; rewrite f_mant_mk_rounded, E1, E2; apply rnd_zero).
    unfold toQ, dyad. rewrite E, E1, E2. rewrite !Qmult_0_l. lra.
Qed.

(** The sum of two approximations. *)
Lemma approx_Add z x y n m s t :
  receiver z x → amount_like x → amount_like y → (0 <= s)%Q → (0 <= t)%Q →
  approx n s (toQ x) → approx m t (toQ y) →
  approx (S (Nat.max n m)) (s + t) (toQ (Add z x y)).
Proof.
  intros Hz Hx Hy Hs Ht Hn Hm. destruct (Add_near z x y Hz Hx Hy).
  apply (approx_sum _ _ _ (toQ x) (toQ y)); [done|done| | |done|done].
  - apply (approx_mono n); [lia|done..].
  - apply (approx_mono m); [lia|done..].
Qed.

#[export] Hint Resolve amount_like_0 amount_like_nonneg amount_like_SetInt amount_like_Add : idw.
