(* ===== verification/RelatedFacts.v ===== *)
(** * Properties of the traversal of related users

    The recursion of [GetRelatedTokenFlow] terminates, visits exactly the users
    reachable over the eligible relations, and adds up the totals of each visited
    user once, up to the rounding of the additions. *)

From S2P Require Import Prelude BigFloat Common Extractor Flow Approx.
From Stdlib Require Import QArith Qpower Lqa Relations.
#[local] Open Scope Z_scope.

(** The own totals of users as they were read, in the order of the visits. *)
Abbreviation VisitLog := (list (Address * (Float * Float))).

Section related.
Context {S : Type}.
Context (o : RangeOracle) (userRelatedMap : UserRelatedMap) (commonAddressMap : gmap Address bool).
Context (blockNumber : Z).
Context (own : S → Address → Float * Float * S).

#[local] Abbreviation get_related := (get_related o userRelatedMap commonAddressMap blockNumber own).
#[local] Abbreviation related_loop := (related_loop commonAddressMap blockNumber).
#[local] Abbreviation related_step := (related_step commonAddressMap blockNumber).

(** An eligible relation: known by the block, and not to a common address. *)
Definition edge (u r : Address) : Prop :=
  ∃ since, default ∅ (userRelatedMap !! u) !! r = Some since ∧
           commonAddressMap !! r = None ∧ since ≤ blockNumber.

(** Reachable over at least one relation. *)
Definition reach : Address → Address → Prop := clos_trans _ edge.

Definition candidates : gset Address :=
  ⋃ ((λ e : Address * RelatedMap, dom e.2) <$> map_to_list userRelatedMap).

Lemma candidates_spec u r since :
  default ∅ (userRelatedMap !! u) !! r = Some since → r ∈ candidates.
Proof.
  intros H. unfold candidates. apply elem_of_union_list.
  destruct (userRelatedMap !! u) as [rm|] eqn:E; [|by cbn in H; rewrite lookup_empty in H].
  exists (dom rm). split; [|by apply elem_of_dom].
  apply list_elem_of_fmap. exists (u, rm). by rewrite elem_of_map_to_list.
Qed.

Lemma elem_of_related_entries used user r since :
  (r, since) ∈ related_entries o userRelatedMap used user ↔
  default ∅ (userRelatedMap !! user) !! r = Some since.
Proof. apply elem_of_range_map. Qed.

Lemma follow_spec used r since :
  follow commonAddressMap blockNumber used r since = true ↔
  commonAddressMap !! r = None ∧ (r ∉ used) ∧ since ≤ blockNumber.
Proof.
  unfold follow. rewrite !andb_true_iff, !bool_decide_eq_true, Z.leb_le. tauto.
Qed.

(** ** Termination *)

Lemma unvisited_shrinks (X : gset Address) r :
  r ∈ candidates → r ∉ X → (size (candidates ∖ ({[r]} ∪ X)) < size (candidates ∖ X))%nat.
Proof. intros. apply subset_size. set_solver. Qed.

Lemma unvisited_mono (X Y : gset Address) :
  X ⊆ Y → (size (candidates ∖ Y) ≤ size (candidates ∖ X))%nat.
Proof. intros. apply subseteq_size. set_solver. Qed.

Definition total_on (n : nat) (rec : Address → gset Address → S → option (Totals S)) : Prop :=
  ∀ user used st, (size (candidates ∖ used) < n)%nat →
    ∃ t, rec user used st = Some t ∧ used ⊆ to_used t.

Lemma related_loop_total n rec l acc :
  total_on n rec → (size (candidates ∖ to_used acc) ≤ n)%nat →
  Forall (λ e, e.1 ∈ candidates) l →
  ∃ t, related_loop rec acc l = Some t ∧ to_used acc ⊆ to_used t.
Proof.
  intros Hrec Hn Hl. revert acc Hn. induction Hl as [|[r since] l Hr Hl IH]; intros acc Hn; cbn [Flow.related_loop].
  { by exists acc. }
  unfold Flow.related_step at 1. destruct (follow _ _ (to_used acc) r since) eqn:Ef; cbn; [|by apply IH].
  apply follow_spec in Ef as (_ & Hnew & _). cbn in Hr. pose proof (unvisited_shrinks _ _ Hr Hnew).
  destruct (Hrec r ({[r]} ∪ to_used acc) (to_state acc)) as (t & -> & Hsub); [lia|]. cbn.
  pose proof (unvisited_mono _ _ Hsub).
  destruct (IH (mkTotals (Add (to_deposit acc) (to_deposit acc) (to_deposit t))
    (Add (to_withdraw acc) (to_withdraw acc) (to_withdraw t)) (to_used t) (to_state t))) as (t' & Ht' & Hsub');
    cbn [to_used] in *; [lia|].
  exists t'. split; [exact Ht'|set_solver].
Qed.

Lemma get_related_total fuel : total_on fuel (get_related fuel).
Proof.
  induction fuel as [|fuel IH]; intros user used st Hf; [lia|]. cbn [Flow.get_related].
  destruct (own st user) as [[d w] st'].
  apply (related_loop_total fuel); [done|cbn; lia|].
  apply Forall_forall. intros [r since] Hin%elem_of_related_entries. by eapply candidates_spec.
Qed.

(** The fuel of the callers is enough. *)
Lemma related_fuel_enough used :
  (size (candidates ∖ used) < related_fuel userRelatedMap)%nat.
Proof.
  unfold related_fuel. fold candidates.
  assert (size (candidates ∖ used) ≤ size candidates)%nat by (apply subseteq_size; set_solver). lia.
Qed.

(** ** The visited users *)

(** What a run from [user] guarantees of the set it returns. *)
Record visits (user : Address) (used used' : gset Address) : Prop := {
  vis_mono : used ⊆ used';
  vis_reach : ∀ x, x ∈ used' → x ∉ used → reach user x;
  vis_closed : ∀ x y, x ∈ used' → x ∉ used → edge x y → y ∈ used'
}.

Definition rec_visits (rec : Address → gset Address → S → option (Totals S)) : Prop :=
  ∀ user used st t, rec user used st = Some t →
    visits user used (to_used t) ∧ ∀ y, edge user y → y ∈ to_used t.

Lemma related_loop_visits rec user l acc t :
  rec_visits rec →
  (∀ r since, (r, since) ∈ l → default ∅ (userRelatedMap !! user) !! r = Some since) →
  related_loop rec acc l = Some t →
  visits user (to_used acc) (to_used t) ∧
  ∀ r since, (r, since) ∈ l → commonAddressMap !! r = None → since ≤ blockNumber → r ∈ to_used t.
Proof.
  intros Hrec. revert acc. induction l as [|[r since] l IH]; intros acc Hl; cbn [Flow.related_loop].
  { intros [= <-]. split; [split; [done|by intros..]|by intros ?? ?%not_elem_of_nil]. }
  unfold Flow.related_step at 1. destruct (follow _ _ (to_used acc) r since) eqn:Ef; cbn.
  - apply follow_spec in Ef as (Hc & Hnew & Hs).
    destruct (rec r _ _) as [t1|] eqn:E1; cbn; [|done]. intros Hrest.
    destruct (Hrec _ _ _ _ E1) as [[Hm1 Hr1 Hc1] Hsucc].
    destruct (IH _ (λ r' s' H, Hl r' s' ltac:(by right)) Hrest) as [[Hm2 Hr2 Hc2] Hall]. cbn in *.
    assert (edge user r) as Hedge.
    { exists since. split_and!; [apply Hl; by left|done..]. }
    split; [split|].
    + set_solver.
    + intros x Hx Hnx. destruct (decide (x ∈ to_used t1)) as [H1|]; [|by apply Hr2].
      destruct (decide (x = r)) as [->|]; [by apply t_step|].
      eapply t_trans; [by apply t_step|]. apply Hr1; set_solver.
    + intros x y Hx Hnx Hxy. destruct (decide (x ∈ to_used t1)) as [H1|]; [|by eapply Hc2].
      apply Hm2. destruct (decide (x = r)) as [->|]; [by apply Hsucc|].
      eapply Hc1; [exact H1|set_solver|done].
    + intros r' s' [[= -> ->]|Hin]%elem_of_cons ? ?; [set_solver|by eapply Hall].
  - intros Hrest. destruct (IH _ (λ r' s' H, Hl r' s' ltac:(by right)) Hrest) as [Hv Hall].
    split; [done|]. intros r' s' [[= -> ->]|Hin]%elem_of_cons Hc Hs; [|by eapply Hall].
    apply (vis_mono _ _ _ Hv). apply dec_stable. intros Hn.
    assert (follow commonAddressMap blockNumber (to_used acc) r since = true) by by apply follow_spec.
    congruence.
Qed.

Lemma get_related_visits fuel : rec_visits (get_related fuel).
Proof.
  induction fuel as [|fuel IH]; intros user used st t; cbn [Flow.get_related]; [done|].
  destruct (own st user) as [[d w] st']. intros H.
  eapply related_loop_visits in H as [Hv Hall]; [|done|by intros r since ?%elem_of_related_entries].
  split; [done|]. intros y (since & Hy & Hc & Hs).
  eapply Hall; [by apply elem_of_related_entries|done..].
Qed.

(** From the top, the visited users are exactly the reachable ones. *)
Lemma add_related_reach fuel user d w st t :
  add_related o userRelatedMap commonAddressMap blockNumber own fuel user d w st = Some t →
  ∀ x, x ∈ to_used t ↔ reach user x.
Proof.
  unfold add_related. intros H.
  eapply (related_loop_visits _ user) in H as [[_ Hr Hc] Hall]; [|apply get_related_visits|by intros r since ?%elem_of_related_entries].
  cbn in *. intros x. split; [intros Hx; apply Hr; [done|set_solver]|].
  intros Hx. apply clos_trans_tn1 in Hx. induction Hx as [y (since & Hy & Hcy & Hs)|y z Hyz _ IH].
  - eapply Hall; [by apply elem_of_related_entries|done..].
  - by eapply Hc; [exact IH|set_solver|].
Qed.

(** ** What [own] preserves *)
Section invariant.
Context (Inv : S → Prop).
Context (own_inv : ∀ st u d w st', Inv st → own st u = (d, w, st') → Inv st').

Lemma related_loop_inv (rec : Address → gset Address → S → option (Totals S)) l acc t :
  (∀ user used st t, Inv st → rec user used st = Some t → Inv (to_state t)) →
  Inv (to_state acc) → related_loop rec acc l = Some t → Inv (to_state t).
Proof.
  intros Hrec. revert acc. induction l as [|[r since] l IH]; intros acc Hi; cbn [Flow.related_loop].
  { by intros [= <-]. }
  unfold Flow.related_step at 1. destruct (follow _ _ _ _ _); cbn; [|by apply IH].
  destruct (rec _ _ _) as [t1|] eqn:E1; cbn; [|done]. apply IH. cbn. by eapply Hrec.
Qed.

Lemma get_related_inv fuel user used st t :
  Inv st → get_related fuel user used st = Some t → Inv (to_state t).
Proof.
  revert user used st t. induction fuel as [|fuel IH]; intros user used st t Hi; cbn [Flow.get_related]; [done|].
  destruct (own st user) as [[d w] st'] eqn:E. intros H. eapply related_loop_inv; [exact IH| |exact H]. by eapply own_inv.
Qed.

Lemma add_related_inv fuel user d w st t :
  Inv st → add_related o userRelatedMap commonAddressMap blockNumber own fuel user d w st = Some t →
  Inv (to_state t).
Proof. intros Hi. apply related_loop_inv; [intros *; apply get_related_inv|done]. Qed.
End invariant.

(** An invariant that may depend on the users visited so far: [own] is only run for
    a visited user. *)
Section used_invariant.
Context (Inv : gset Address → S → Prop).
Context (inv_mono : ∀ X Y st, X ⊆ Y → Inv X st → Inv Y st).
Context (own_inv : ∀ X st u d w st', u ∈ X → Inv X st → own st u = (d, w, st') → Inv X st').

Lemma related_loop_used_inv (rec : Address → gset Address → S → option (Totals S)) l acc t :
  (∀ user used st t, user ∈ used → Inv used st → rec user used st = Some t → Inv (to_used t) (to_state t)) →
  Inv (to_used acc) (to_state acc) → related_loop rec acc l = Some t → Inv (to_used t) (to_state t).
Proof using All.
  intros Hrec. revert acc. induction l as [|[r since] l IH]; intros acc Hi; cbn [Flow.related_loop].
  { by intros [= <-]. }
  unfold Flow.related_step at 1. destruct (follow _ _ _ _ _); cbn; [|by apply IH].
  destruct (rec _ _ _) as [t1|] eqn:E1; cbn; [|done]. apply IH. cbn. eapply Hrec; [|eapply inv_mono, Hi|exact E1]; set_solver.
Qed.

Lemma get_related_used_inv fuel user used st t :
  user ∈ used → Inv used st → get_related fuel user used st = Some t → Inv (to_used t) (to_state t).
Proof using All.
  revert user used st t. induction fuel as [|fuel IH]; intros user used st t Hu Hi; cbn [Flow.get_related]; [done|].
  destruct (own st user) as [[d w] st'] eqn:E. apply related_loop_used_inv; [exact IH|]. by eapply own_inv.
Qed.

Lemma add_related_used_inv fuel user d w st t :
  Inv ∅ st → add_related o userRelatedMap commonAddressMap blockNumber own fuel user d w st = Some t →
  Inv (to_used t) (to_state t).
Proof using All. intros Hi. apply related_loop_used_inv; [intros *; apply get_related_used_inv|done]. Qed.
End used_invariant.

(** ** The totals *)

(** The totals of [t] are the sums of the log up to as many roundings as it has
    entries. *)
Record summed (log : VisitLog) (d w : Float) : Prop := {
  sum_deposit_like : amount_like d;
  sum_withdraw_like : amount_like w;
  sum_deposit : approx (length log) (sumQ ((λ e, toQ e.2.1) <$> log)) (toQ d);
  sum_withdraw : approx (length log) (sumQ ((λ e, toQ e.2.2) <$> log)) (toQ w)
}.

Section totals.
Context (Inv : S → Prop) (Own : Address → Float → Float → Prop).

Definition like_entry (e : Address * (Float * Float)) : Prop :=
  amount_like e.2.1 ∧ amount_like e.2.2.

Definition log_entry (e : Address * (Float * Float)) : Prop :=
  Own e.1 e.2.1 e.2.2 ∧ like_entry e.

Lemma log_entry_like (log : VisitLog) : Forall log_entry log → Forall like_entry log.
Proof. intros H. eapply Forall_impl; [exact H|]. by intros ? []. Qed.

Context (own_ok : ∀ st u d w st', Inv st → own st u = (d, w, st') →
  Inv st' ∧ log_entry (u, (d, w))).

(** The log of the users added to [used] to make [used']. *)
Record logged (log : VisitLog) (used used' : gset Address) : Prop := {
  log_nodup : NoDup log.*1;
  log_new : ∀ x, x ∈ log.*1 → x ∉ used;
  log_used : used' = list_to_set log.*1 ∪ used;
  log_own : Forall log_entry log
}.

Lemma log_nonneg (log : VisitLog) :
  Forall like_entry log →
  (0 <= sumQ ((λ e, toQ e.2.1) <$> log) ∧ 0 <= sumQ ((λ e, toQ e.2.2) <$> log))%Q.
Proof.
  intros H. split; apply sumQ_nonneg, Forall_fmap; (eapply Forall_impl; [exact H|]);
    intros ? (? & ?); by apply amount_like_nonneg.
Qed.

Lemma summed_one u d w : like_entry (u, (d, w)) → summed [(u, (d, w))] d w.
Proof.
  intros (Hd & Hw). split; [done..| |]; cbn in *; rewrite Qplus_0_r;
    (apply (approx_mono 0); [lia|by apply amount_like_nonneg|apply approx_refl]).
Qed.

Lemma summed_app log1 log2 d1 w1 d2 w2 :
  (1 ≤ length log1)%nat → (1 ≤ length log2)%nat → Forall like_entry log1 → Forall like_entry log2 →
  summed log1 d1 w1 → summed log2 d2 w2 →
  summed (log1 ++ log2) (Add d1 d1 d2) (Add w1 w1 w2).
Proof.
  intros Hl1 Hl2 [Hd1 Hw1]%log_nonneg [Hd2 Hw2]%log_nonneg [] [].
  split; [apply amount_like_Add; by try right..| |]; rewrite fmap_app, sumQ_app, length_app;
    (eapply approx_mono; [|lra|by apply approx_Add; try right]; lia).
Qed.

Definition rec_logged (rec : Address → gset Address → S → option (Totals S)) : Prop :=
  ∀ user used st t, Inv st → rec user used st = Some t →
    Inv (to_state t) ∧ ∃ d w log, log_entry (user, (d, w)) ∧ logged log used (to_used t) ∧
      summed ((user, (d, w)) :: log) (to_deposit t) (to_withdraw t).

Lemma logged_cons r d w log1 log2 used used1 used2 :
  r ∉ used → log_entry (r, (d, w)) → logged log1 ({[r]} ∪ used) used1 → logged log2 used1 used2 →
  logged (((r, (d, w)) :: log1) ++ log2) used used2.
Proof.
  intros Hr He [Hnd1 Hnew1 -> Ho1] [Hnd2 Hnew2 -> Ho2].
  split; rewrite ?fmap_app, ?fmap_cons; cbn.
  - constructor.
    + rewrite elem_of_app. intros [H|H]; [apply Hnew1 in H|apply Hnew2 in H]; set_solver.
    + apply NoDup_app. split_and!; [done| |done]. intros x Hx1 Hx2%Hnew2. set_solver.
  - intros x [->|[H|H]%elem_of_app]%elem_of_cons; [done|apply Hnew1 in H|apply Hnew2 in H]; set_solver.
  - rewrite list_to_set_app_L. set_solver.
  - constructor; [done|]. by apply Forall_app.
Qed.

Lemma related_loop_logged rec l acc t :
  rec_logged rec → Inv (to_state acc) → related_loop rec acc l = Some t →
  Inv (to_state t) ∧ ∃ log, logged log (to_used acc) (to_used t) ∧
    ∀ log0, (1 ≤ length log0)%nat → Forall like_entry log0 →
      summed log0 (to_deposit acc) (to_withdraw acc) →
      summed (log0 ++ log) (to_deposit t) (to_withdraw t).
Proof.
  intros Hrec. revert acc. induction l as [|[r since] l IH]; intros acc Hi; cbn [Flow.related_loop].
  { intros [= <-]. split; [done|]. exists []. split; [split; [constructor|set_solver|set_solver|constructor]|].
    intros log0 _ _ H. by rewrite app_nil_r. }
  unfold Flow.related_step at 1. destruct (follow _ _ (to_used acc) r since) eqn:Ef; cbn; [|by apply IH].
  apply follow_spec in Ef as (_ & Hnew & _).
  destruct (rec r _ _) as [t1|] eqn:E1; cbn; [|done]. intros Hrest.
  destruct (Hrec _ _ _ _ Hi E1) as (Hi1 & d & w & log1 & He & Hlog1 & Hsum1).
  apply IH in Hrest as (Hi2 & log2 & Hlog2 & Hsum2); [|done]. cbn in *.
  split; [done|]. exists (((r, (d, w)) :: log1) ++ log2).
  pose proof (log_own _ _ _ Hlog1). split; [by eapply logged_cons|].
  intros log0 Hn Ho Hsum0. rewrite (assoc_L app). apply Hsum2.
  - rewrite length_app. lia.
  - apply Forall_app. split; [done|]. constructor; [apply He|by apply log_entry_like].
  - apply summed_app; [done|cbn; lia|done| |done..]. constructor; [apply He|by apply log_entry_like].
Qed.

Lemma get_related_logged fuel : rec_logged (get_related fuel).
Proof.
  induction fuel as [|fuel IH]; intros user used st t Hi; cbn [Flow.get_related]; [done|].
  destruct (own st user) as [[d w] st'] eqn:E. apply own_ok in E as [Hi' He]; [|done]. intros H.
  apply related_loop_logged in H as (Hi2 & log & Hlog & Hsum); [|done..].
  split; [done|]. exists d, w, log. split_and!; [done..|].
  apply (Hsum [(user, (d, w))]); [cbn; lia|constructor; [apply He|constructor]|by apply summed_one, He].
Qed.

(** The totals are those of the user and of each visited user, counted once. *)
Lemma add_related_logged fuel user d w st t :
  Inv st → like_entry (user, (d, w)) →
  add_related o userRelatedMap commonAddressMap blockNumber own fuel user d w st = Some t →
  Inv (to_state t) ∧ ∃ log, logged log ∅ (to_used t) ∧
    summed ((user, (d, w)) :: log) (to_deposit t) (to_withdraw t).
Proof.
  intros Hi He H. unfold add_related in H.
  apply related_loop_logged in H as (Hi2 & log & Hlog & Hsum); [|apply get_related_logged|done].
  split; [done|]. exists log. split; [done|].
  apply (Hsum [(user, (d, w))]); [cbn; lia|by constructor|by apply summed_one].
Qed.

End totals.

Lemma add_related_total user d w st :
  ∃ t, add_related o userRelatedMap commonAddressMap blockNumber own (related_fuel userRelatedMap) user d w st = Some t.
Proof.
  unfold add_related.
  destruct (related_loop_total (related_fuel userRelatedMap)
    (get_related (related_fuel userRelatedMap)) (related_entries o userRelatedMap ∅ user)
    (mkTotals d w ∅ st)) as (t & Ht & _); [apply get_related_total| | |by exists t].
  - cbn. pose proof (related_fuel_enough ∅). lia.
  - apply Forall_forall. intros [r since] Hin%elem_of_related_entries. by eapply candidates_spec.
Qed.
End related.
