(* ===== verification/FlowFacts.v ===== *)
(** * Properties of the flows of users

    The flows of a token are the transfers with a positive amount in order, each
    with the totals of the transfers up to it. *)

From S2P Require Import Prelude BigFloat Approx Common Extractor Flow.
From Stdlib Require Import QArith Lqa.
#[local] Open Scope Z_scope.

(** ** The orders are strict weak orders *)

Lemma TokenFlowList_Less_weak : StrictWeak TokenFlowList_Less.
Proof. split; unfold le_of, TokenFlowList_Less; intros *; rewrite ?Z.ltb_lt, ?Z.ltb_ge; lia. Qed.

(** Position of a transfer in the chain. *)
Definition lex3 (a b c a' b' c' : Z) : Prop := a < a' ∨ (a = a' ∧ (b < b' ∨ (b = b' ∧ c < c'))).

Lemma TokenTxList_Less_spec x y :
  TokenTxList_Less x y = true ↔
  lex3 (tt_BlockNumber x) (tt_TxIndex x) (tt_EventIndex x)
       (tt_BlockNumber y) (tt_TxIndex y) (tt_EventIndex y).
Proof.
  unfold TokenTxList_Less, lex3.
  repeat (case_match; rewrite ?Z.ltb_lt, ?Z.ltb_ge, ?Z.eqb_eq, ?Z.eqb_neq in * ); rewrite ?Z.ltb_lt; lia.
Qed.

Lemma TokenTxList_Less_weak : StrictWeak TokenTxList_Less.
Proof.
  split; unfold le_of.
  - intros x. apply not_true_iff_false. rewrite TokenTxList_Less_spec. unfold lex3. lia.
  - intros x y. rewrite <- not_true_iff_false, !TokenTxList_Less_spec. unfold lex3. lia.
  - intros x y z. rewrite <- !not_true_iff_false, !TokenTxList_Less_spec. unfold lex3. lia.
Qed.

#[export] Hint Resolve TokenFlowList_Less_weak TokenTxList_Less_weak : idw.

(** ** The loops as pure folds *)

Definition has_amount (t : TokenTx) : Prop := is_Some (tt_Amount t).
Definition pos_amount (t : TokenTx) : bool := default 0 (tt_Amount t) >? 0.
Definition amount_of (t : TokenTx) : Z := default 0 (tt_Amount t).

#[export] Instance has_amount_dec t : Decision (has_amount t).
Proof. unfold has_amount. apply _. Defined.

Section pushes.
Context (amt flowamt : TokenTx → Float).

Definition push (st : FlowState) (t : TokenTx) : FlowState := push_flow st t (amt t) (flowamt t).

(** The running total of an action. *)
Definition run_total (action : string) (l : list TokenTx) : Float :=
  foldl (λ d t, if String.eqb (tt_Action t) action then Add newFloat d (amt t) else d) newFloat l.

(** The flow of a transfer after the transfers [l]. *)
Definition flow_after (l : list TokenTx) (t : TokenTx) : TokenFlow :=
  mkTokenFlow (tt_BlockNumber t) (tt_TxIndex t) (flowamt t) (tt_Action t)
    (run_total "deposit" (l ++ [t])) (run_total "withdraw" (l ++ [t])).

Lemma run_total_snoc action l t :
  run_total action (l ++ [t]) =
  if String.eqb (tt_Action t) action then Add newFloat (run_total action l) (amt t) else run_total action l.
Proof. unfold run_total. by rewrite foldl_app. Qed.

(** The state after the transfers [l]. *)
Definition flows_after (l : list TokenTx) : list TokenFlow :=
  first_flow :: imap (λ i t, flow_after (take i l) t) l.

Lemma flows_after_snoc l t : flows_after (l ++ [t]) = flows_after l ++ [flow_after l t].
Proof.
  unfold flows_after. rewrite imap_app. cbn [imap]. rewrite Nat.add_0_r, take_app_length. cbn [app]. do 2 f_equal.
  apply imap_ext. intros i x Hx%lookup_lt_Some. by rewrite take_app_le by lia.
Qed.

Lemma push_spec l :
  foldl push init_flow l = mkFlowState (flows_after l) (run_total "deposit" l) (run_total "withdraw" l).
Proof.
  induction l as [|t l IH] using rev_ind; [done|].
  rewrite foldl_app, IH, flows_after_snoc. cbn [foldl]. unfold push, push_flow, flow_after.
  cbn [fs_deposit fs_withdraw fs_flows]. rewrite !run_total_snoc.
  destruct (String.eqb_spec (tt_Action t) "deposit") as [->|]; [done|].
  by destruct (String.eqb_spec (tt_Action t) "withdraw").
Qed.

(** The transfers of an action. *)
Definition of_action (action : string) (l : list TokenTx) : list TokenTx :=
  filter (λ t, tt_Action t = action) l.

Context (Hamt : ∀ t, pos_amount t = true → amount_like (amt t)).

Lemma run_total_approx action l :
  Forall (λ t, pos_amount t = true) l →
  amount_like (run_total action l) ∧
  approx (length (of_action action l)) (sumQ ((λ t, toQ (amt t)) <$> of_action action l))
    (toQ (run_total action l)).
Proof using Hamt.
  induction l as [|t l IH] using rev_ind; intros Hl.
  { split; [apply amount_like_0|apply approx_refl]. }
  apply Forall_app in Hl as [Hl Ht]. apply (proj1 (Forall_singleton _ _)) in Ht. destruct (IH Hl) as [Hlike Happ].
  unfold of_action in *. rewrite run_total_snoc, filter_app, filter_cons, filter_nil.
  pose proof (Hamt _ Ht) as Hat.
  assert (0 <= sumQ ((λ t, toQ (amt t)) <$> filter (λ t, tt_Action t = action) l))%Q.
  { apply sumQ_nonneg, Forall_fmap, Forall_forall. intros x [_ Hx]%list_elem_of_filter.
    apply amount_like_nonneg, Hamt. rewrite Forall_forall in Hl. by apply Hl. }
  destruct (String.eqb_spec (tt_Action t) action); case_decide; simplify_eq.
  - split; [apply amount_like_Add; by try left|].
    rewrite fmap_app, sumQ_app, length_app. cbn. rewrite Qplus_0_r, Nat.add_1_r.
    rewrite <- (Nat.max_0_r (length _)).
    apply approx_Add; auto using approx_refl with idw. by left.
  - by rewrite !app_nil_r.
Qed.
End pushes.

(** ** The three loops *)

Lemma go_foldl_filter {A S} (P : A → Prop) (keep : A → bool) (body : S → A → Go S) (f : S → A → S) l s :
  (∀ s x, P x → body s x = Ret (if keep x then f s x else s)) →
  Forall P l → go_foldl body s l = Ret (foldl f s (filter (λ x, keep x = true) l)).
Proof.
  intros Hb. revert s. induction l as [|x l IH]; intros s; [done|].
  intros [Hx Hl]%Forall_cons. rewrite filter_cons. cbn [go_foldl]. rewrite (Hb _ _ Hx).
  destruct (keep x); case_decide; try done; by apply IH.
Qed.

Definition single_amt (t : TokenTx) : Float := SetInt (amount_of t).
Definition single_flowamt (t : TokenTx) : Float := Add newFloat (single_amt t) newFloat.

Lemma single_loop l :
  Forall has_amount l →
  go_foldl single_step init_flow l =
  Ret (mkFlowState (flows_after single_amt single_flowamt (filter (λ t, pos_amount t = true) l))
         (run_total single_amt "deposit" (filter (λ t, pos_amount t = true) l))
         (run_total single_amt "withdraw" (filter (λ t, pos_amount t = true) l))).
Proof.
  intros Hl. rewrite <- push_spec. apply (go_foldl_filter has_amount); [|done].
  intros s t [a Ha]. unfold single_step, pos_amount, push, single_flowamt, single_amt, amount_of.
  rewrite Ha. cbn. by destruct (a >? 0).
Qed.

Lemma single_amt_like t : pos_amount t = true → amount_like (single_amt t).
Proof.
  unfold pos_amount, single_amt, amount_of. rewrite Z.gtb_lt. intros. apply amount_like_SetInt. lia.
Qed.

Lemma single_amt_exact t : pos_amount t = true → (toQ (single_amt t) == inject_Z (amount_of t))%Q.
Proof. unfold pos_amount. rewrite Z.gtb_lt. intros. apply SetInt_exact. unfold amount_of. lia. Qed.

#[export] Hint Resolve single_amt_like : idw.

(** ** One user *)

Section user.
Context (so : Sorter) (stableTokenMap : gmap Address StableToken) (LPTokenMap : gmap Address bool).
Context (tokenSwapMap : gmap Address TokenSwap).
#[local] Abbreviation token_step := (token_step so stableTokenMap LPTokenMap).
#[local] Abbreviation stable_flow := (stable_flow so stableTokenMap).
#[local] Abbreviation user_flow := (user_flow so stableTokenMap LPTokenMap tokenSwapMap).

Definition stable_amt (t : TokenTx) : Float :=
  Mul newFloat (SetInt (amount_of t)) (stable_rate (stable_of stableTokenMap (tt_TokenAddress t))).

Lemma stable_loop l :
  Forall has_amount l →
  go_foldl (stable_step stableTokenMap) init_flow l =
  Ret (foldl (push stable_amt stable_amt) init_flow (filter (λ t, pos_amount t = true) l)).
Proof.
  apply (go_foldl_filter has_amount).
  intros st t [a Ha]. unfold stable_step, pos_amount, push, stable_amt, amount_of.
  rewrite Ha. cbn. by destruct (a >? 0).
Qed.

Definition has_rate (t : TokenTx) : bool :=
  bool_decide (is_Some (merged_rate stableTokenMap tokenSwapMap t)).

Definition merged_amt (t : TokenTx) : Float :=
  Mul newFloat (SetInt (amount_of t)) (default newFloat (merged_rate stableTokenMap tokenSwapMap t)).

(** The transfers that the merged flow converts, and those it counts as unsupported. *)
Definition merged_txs (l : list TokenTx) : list TokenTx := filter (λ t, pos_amount t && has_rate t = true) l.
Definition unsupported_txs (l : list TokenTx) : list TokenTx := filter (λ t, pos_amount t && negb (has_rate t) = true) l.

Lemma merged_step_eq st uns t :
  has_amount t →
  merged_step stableTokenMap tokenSwapMap (st, uns) t =
  Ret (if pos_amount t && has_rate t then push merged_amt merged_amt st t else st,
       if pos_amount t && negb (has_rate t) then map_incr (tt_TokenAddress t) uns else uns).
Proof.
  intros [a Ha]. unfold merged_step, pos_amount, has_rate, push, merged_amt, amount_of.
  rewrite Ha. cbn [default from_option]. unfold id.
  destruct (a >? 0); [|done]. by destruct (merged_rate _ _ t).
Qed.

Lemma merged_loop l st uns :
  Forall has_amount l →
  go_foldl (merged_step stableTokenMap tokenSwapMap) (st, uns) l =
  Ret (foldl (push merged_amt merged_amt) st (merged_txs l),
       foldl (λ m t, map_incr (tt_TokenAddress t) m) uns (unsupported_txs l)).
Proof.
  unfold merged_txs, unsupported_txs. revert st uns. induction l as [|t l IH]; intros st uns; [done|].
  intros [Ht Hl]%Forall_cons. rewrite !filter_cons. cbn [go_foldl]. rewrite merged_step_eq by done.
  destruct (pos_amount t), (has_rate t); repeat case_decide; try done; by rewrite IH.
Qed.

(** The tokens of a user whose flows are not generated. *)
Definition skipped (token : Address) : bool :=
  bool_decide (stableTokenMap !! token = None) && default false (LPTokenMap !! token).

Definition token_flows (l : list TokenTx) : list TokenFlow :=
  flows_after single_amt single_flowamt (filter (λ t, pos_amount t = true) (sort_by so TokenTxList_Less l)).

Lemma sorted_has_amount l : Forall has_amount l → Forall has_amount (sort_by so TokenTxList_Less l).
Proof. by rewrite sort_perm. Qed.

(** The class of stable tokens a token belongs to. *)
Definition in_class (x : Z) (e : Address * list TokenTx) : bool :=
  match stableTokenMap !! e.1 with Some st => st_XToken st =? x | None => false end.

Definition class_txs (x : Z) (entries : list (Address * list TokenTx)) : list TokenTx :=
  concat (filter (λ e, in_class x e = true) entries).*2.

Lemma token_step_eq acc token l :
  Forall has_amount l ∨ skipped token = true →
  token_step acc (token, l) =
  Ret (mkUserAcc (ua_merged acc ++ l)
        (match stableTokenMap !! token with
         | Some st => <[st_XToken st := default [] (ua_stable acc !! st_XToken st) ++ l]> (ua_stable acc)
         | None => ua_stable acc
         end)
        (if skipped token then ua_flows acc else <[token := token_flows l]> (ua_flows acc))
        (if skipped token then ua_txs acc else <[token := sort_by so TokenTxList_Less l]> (ua_txs acc))).
Proof.
  unfold Flow.token_step. fold (skipped token). intros H.
  destruct (skipped token); [done|]. destruct H as [H|]; [|done].
  by rewrite single_loop by by apply sorted_has_amount.
Qed.

Lemma class_txs_cons x e entries :
  class_txs x (e :: entries) = if in_class x e then e.2 ++ class_txs x entries else class_txs x entries.
Proof. unfold class_txs. rewrite filter_cons. destruct (in_class x e); by case_decide. Qed.

Lemma token_loop entries acc :
  NoDup entries.*1 → Forall (λ e, Forall has_amount e.2) entries →
  ∃ acc', go_foldl token_step acc entries = Ret acc' ∧
    ua_merged acc' = ua_merged acc ++ concat entries.*2 ∧
    (∀ x, default [] (ua_stable acc' !! x) = default [] (ua_stable acc !! x) ++ class_txs x entries) ∧
    (∀ x, is_Some (ua_stable acc' !! x) ↔ is_Some (ua_stable acc !! x) ∨ ∃ e, e ∈ entries ∧ in_class x e = true) ∧
    (∀ token l, (token, l) ∈ entries → skipped token = false → ua_flows acc' !! token = Some (token_flows l)) ∧
    (∀ token, (token ∉ entries.*1 ∨ skipped token = true) → ua_flows acc' !! token = ua_flows acc !! token).
Proof.
  revert acc. induction entries as [|[token l] entries IH]; intros acc Hnd Hall.
  { exists acc. split_and!; cbn; [done|by rewrite app_nil_r|intros; by rewrite app_nil_r|set_solver|set_solver|done]. }
  apply NoDup_cons in Hnd as [Hnot Hnd]. apply Forall_cons in Hall as [Hl Hall].
  cbn [go_foldl]. rewrite token_step_eq by by left.
  edestruct IH as (acc' & -> & Hm & Hs & Hs' & Hf & Hf'); [done..|]. exists acc'. split; [done|].
  cbn [ua_merged ua_stable ua_flows] in *. cbn in Hnot. split_and!.
  - by rewrite Hm, <- (assoc_L app).
  - intros x. rewrite Hs, class_txs_cons. unfold in_class. cbn [fst snd].
    destruct (stableTokenMap !! token) as [st|]; [|done].
    rewrite lookup_insert. destruct (Z.eqb_spec (st_XToken st) x); case_decide; try done.
    subst. cbn. by rewrite (assoc_L app).
  - intros x. rewrite Hs'. setoid_rewrite elem_of_cons. split.
    + intros [H|(e & He & Hc)]; [|by right; eauto].
      destruct (stableTokenMap !! token) as [st|] eqn:E; [|by left].
      destruct (decide (st_XToken st = x)) as [<-|]; [|left; by rewrite lookup_insert_ne in H].
      right. exists (token, l). split; [by left|]. unfold in_class. cbn. rewrite E. apply Z.eqb_refl.
    + intros [H|(e & [->|He] & Hc)]; [| |by right; eauto]; left; unfold in_class in *; cbn in *;
        destruct (stableTokenMap !! token) as [st|]; try done.
      * rewrite lookup_insert. case_decide; [by eexists|done].
      * apply Z.eqb_eq in Hc as ->. rewrite lookup_insert_eq. by eexists.
  - intros tok l' [[= -> ->]|Hin]%elem_of_cons Hsk; [|by apply Hf].
    rewrite Hf' by by left. rewrite Hsk. by rewrite lookup_insert_eq.
  - intros tok Htok. rewrite Hf' by set_solver.
    destruct (skipped token) eqn:Esk; [done|]. rewrite lookup_insert_ne; [done|].
    intros ->. destruct Htok as [Ht|?]; [|congruence]. apply Ht. cbn. by left.
Qed.

Definition stable_flows (l : list TokenTx) : list TokenFlow :=
  fs_flows (foldl (push stable_amt stable_amt) init_flow
    (filter (λ t, pos_amount t = true) (sort_by so TokenTxList_Less l))).

Lemma stable_class_loop entries flows :
  NoDup entries.*1 → Forall (λ e, Forall has_amount e.2) entries →
  ∃ flows', go_foldl stable_flow flows entries = Ret flows' ∧
    (∀ x l, (x, l) ∈ entries → flows' !! x = Some (stable_flows l)) ∧
    (∀ x, x ∉ entries.*1 → flows' !! x = flows !! x).
Proof.
  revert flows. induction entries as [|[x l] entries IH]; intros flows Hnd Hall.
  { exists flows. split_and!; [done|set_solver|done]. }
  apply NoDup_cons in Hnd as [Hnot Hnd]. apply Forall_cons in Hall as [Hl Hall].
  cbn [go_foldl]. unfold Flow.stable_flow at 1. rewrite stable_loop by by apply sorted_has_amount.
  cbn [mbind Go_bind]. fold (stable_flows l).
  edestruct IH as (flows' & -> & Hf & Hf'); [done..|]. exists flows'. split; [done|]. split.
  - intros y l' [[= -> ->]|Hin]%elem_of_cons; [|by apply Hf].
    rewrite Hf' by done. by rewrite lookup_insert_eq.
  - intros y Hy. cbn in Hy. rewrite Hf' by set_solver. rewrite lookup_insert_ne by set_solver. done.
Qed.

Definition complete (tokenTxMap : TokenTxMap) : Prop :=
  ∀ token l, tokenTxMap !! token = Some l → Forall has_amount l.

Lemma range_map_complete o n tokenTxMap :
  complete tokenTxMap → Forall (λ e, Forall has_amount e.2) (range_map o n tokenTxMap).
Proof. intros H. apply Forall_forall. intros [token l] Hin%elem_of_range_map. by eapply H. Qed.

Lemma concat_Forall {A} (P : A → Prop) (ls : list (list A)) : Forall P (concat ls) ↔ Forall (Forall P) ls.
Proof. induction ls as [|l ls IH]; cbn; [by split; constructor|]. by rewrite Forall_app, Forall_cons, IH. Qed.

Lemma elem_of_concat {A} (x : A) ls : x ∈ concat ls ↔ ∃ l, x ∈ l ∧ l ∈ ls.
Proof. induction ls as [|l ls IH]; cbn; [set_solver|]. rewrite elem_of_app, IH. set_solver. Qed.

(** The transfers of a class of stable tokens, in the order of the map. *)
Definition class_of (x : Z) : gmap Address (list TokenTx) → list TokenTx :=
  λ m, class_txs x (map_to_list m).

Lemma class_txs_perm x l1 l2 : l1 ≡ₚ l2 → class_txs x l1 ≡ₚ class_txs x l2.
Proof. intros H. unfold class_txs. by rewrite H. Qed.

(** The keys of the flows that are not token addresses. *)
Definition reserved (tokenTxMap : TokenTxMap) (token : Address) : Prop :=
  token = MERGED ∨ ∃ e, e ∈ map_to_list tokenTxMap ∧ in_class token e = true.

(** What the flows of one user are. *)
Record user_flow_spec (tokenTxMap : TokenTxMap) (flows : TokenFlowMap) : Prop := {
  uf_token : ∀ token l, tokenTxMap !! token = Some l → skipped token = false →
    ¬ reserved tokenTxMap token → flows !! token = Some (token_flows l);
  uf_class : ∀ x, x ≠ MERGED → reserved tokenTxMap x →
    ∃ l, l ≡ₚ class_of x tokenTxMap ∧ flows !! x = Some (stable_flows l);
  uf_merged : ∃ l, l ≡ₚ concat (map_to_list tokenTxMap).*2 ∧
    flows !! MERGED = Some (fs_flows (foldl (push merged_amt merged_amt) init_flow
                              (merged_txs (sort_by so TokenTxList_Less l))));
  uf_only : ∀ token, is_Some (flows !! token) →
    reserved tokenTxMap token ∨
    (is_Some (tokenTxMap !! token) ∧ skipped token = false ∧ ¬ reserved tokenTxMap token)
}.

Lemma user_flow_complete o tokenTxMap uns :
  complete tokenTxMap →
  ∃ flows txs uns', user_flow o tokenTxMap uns = Ret (flows, txs, uns') ∧ user_flow_spec tokenTxMap flows.
Proof.
  intros Hc. unfold Flow.user_flow.
  pose proof (range_map_complete o 0 _ Hc) as Hall.
  destruct (token_loop (range_map o 0 tokenTxMap) (mkUserAcc [] ∅ ∅ tokenTxMap))
    as (acc & -> & Hm & Hs & Hs' & Hf & Hf'); [apply range_map_NoDup|done|].
  cbn [mbind Go_bind]. cbn [ua_merged ua_stable ua_flows] in *.
  assert (range_map o 0 tokenTxMap ≡ₚ map_to_list tokenTxMap) as Hperm by apply pick_perm.
  assert (∀ x, default [] (ua_stable acc !! x) ≡ₚ class_of x tokenTxMap) as Hclass.
  { intros x. rewrite Hs, lookup_empty. by apply class_txs_perm. }
  assert (Forall (λ e, Forall has_amount e.2) (range_map o 1 (ua_stable acc))) as Hall2.
  { apply range_map_complete. intros x l Hx. pose proof (Hclass x) as Hp. rewrite Hx in Hp. cbn in Hp.
    rewrite Hp. unfold class_of, class_txs. apply concat_Forall, Forall_fmap.
    apply Forall_forall. intros e [_ He]%list_elem_of_filter. rewrite Hperm in Hall.
    rewrite Forall_forall in Hall. by apply Hall. }
  destruct (stable_class_loop (range_map o 1 (ua_stable acc)) (ua_flows acc))
    as (flows & -> & Hst & Hst'); [apply range_map_NoDup|done|].
  cbn [mbind Go_bind]. rewrite merged_loop.
  2:{ apply sorted_has_amount. rewrite Hm. cbn. apply concat_Forall. by rewrite Forall_fmap. }
  cbn. do 3 eexists. split; [done|].
  assert (∀ x, is_Some (ua_stable acc !! x) ↔ ∃ e, e ∈ map_to_list tokenTxMap ∧ in_class x e = true) as Hres.
  { intros x. rewrite Hs', lookup_empty. setoid_rewrite Hperm. split; [intros [[? [=]]|?]; done|by right]. }
  assert (∀ x, x ∈ (range_map o 1 (ua_stable acc)).*1 ↔ is_Some (ua_stable acc !! x)) as Hdom.
  { intros x. rewrite list_elem_of_fmap. split.
    - intros ([y l] & -> & Hin%elem_of_range_map). cbn. by eexists.
    - intros [l Hl]. exists (x, l). split; [done|]. by apply elem_of_range_map. }
  split.
  - intros token l Hl Hsk Hr. rewrite lookup_insert_ne by (intros <-; apply Hr; by left).
    rewrite Hst'. { apply Hf; [by apply elem_of_range_map|done]. }
    rewrite Hdom, Hres. intros H. apply Hr. by right.
  - intros x Hx [?|Hr]; [done|]. rewrite <- Hres in Hr. destruct Hr as [l Hl].
    exists l. split; [by rewrite <- Hclass, Hl|]. rewrite lookup_insert_ne by done.
    apply Hst. by apply elem_of_range_map.
  - exists (ua_merged acc). split; [rewrite Hm; cbn; by rewrite Hperm|]. by rewrite lookup_insert_eq.
  - intros token. destruct (decide (token = MERGED)) as [->|]; [by left; left|].
    rewrite lookup_insert_ne by done.
    destruct (decide (is_Some (ua_stable acc !! token))) as [Hr|Hr]; [left; right; by apply Hres|].
    rewrite Hst' by by rewrite Hdom.
    destruct (skipped token) eqn:Esk; [rewrite Hf' by (by right); rewrite lookup_empty; by intros [? [=]]|].
    destruct (decide (token ∈ (range_map o 0 tokenTxMap).*1)) as [Hin|Hin].
    + intros _. right. apply list_elem_of_fmap in Hin as ([y l] & -> & Hin%elem_of_range_map).
      split_and!; [by eexists|done|]. intros [?|Hc']; [done|]. apply Hr. by apply Hres.
    + rewrite Hf' by by left. rewrite lookup_empty. by intros [? [=]].
Qed.

(** The merged loop reads every transfer, so a missing amount is a panic. *)
Lemma token_loop_merged entries acc acc' :
  go_foldl token_step acc entries = Ret acc' → ua_merged acc' = ua_merged acc ++ concat entries.*2.
Proof.
  revert acc. induction entries as [|[token l] entries IH]; intros acc; cbn [go_foldl].
  { intros [= <-]. cbn. by rewrite app_nil_r. }
  destruct (token_step acc (token, l)) as [acc1|] eqn:E; [|done]. intros H.
  rewrite (IH _ H). cbn. rewrite (assoc_L app). f_equal.
  unfold Flow.token_step in E. destruct (_ && _); [by inversion E|].
  destruct (go_foldl _ _ _); [by inversion E|done].
Qed.

Lemma merged_loop_ret l acc acc' :
  go_foldl (merged_step stableTokenMap tokenSwapMap) acc l = Ret acc' → Forall has_amount l.
Proof.
  revert acc. induction l as [|t l IH]; intros acc; [constructor|]. cbn [go_foldl].
  destruct (merged_step _ _ acc t) as [acc1|] eqn:E; [|done]. intros H. constructor; [|by eapply IH].
  unfold merged_step in E. destruct acc. destruct (tt_Amount t) eqn:Ea; [|done]. by eexists.
Qed.

Lemma user_flow_ret o tokenTxMap uns r :
  user_flow o tokenTxMap uns = Ret r → complete tokenTxMap.
Proof.
  unfold Flow.user_flow. intros H.
  destruct (go_foldl token_step _ _) as [acc|] eqn:E1; [|done]. cbn in H.
  destruct (go_foldl stable_flow _ _) as [flows|]; [|done]. cbn in H.
  destruct (go_foldl (merged_step _ _) _ _) as [acc2|] eqn:E2; [|done].
  apply merged_loop_ret in E2. rewrite sort_perm in E2.
  rewrite (token_loop_merged _ _ _ E1) in E2. cbn in E2. apply (proj1 (concat_Forall _ _)) in E2. rewrite Forall_fmap, Forall_forall in E2.
  intros token l Hl. apply (E2 (token, l)). by apply elem_of_range_map.
Qed.
End user.
