(* ===== verification/CheckFacts.v ===== *)
(** * Properties of the detection

    The abnormal condition against the exact ratio, the absence of panics, and
    what the reports of [CheckAttack] say. *)

From S2P Require Import Prelude BigFloat Approx Common Extractor Flow RelatedFacts FlowFacts.
From Stdlib Require Import QArith Lqa Relation_Operators.
#[local] Open Scope Z_scope.

(** ** The abnormal condition *)

Lemma Cmp_newFloat x : is_gt (Cmp x newFloat) = true ↔ 0 < f_mant x.
Proof.
  rewrite toQ_pos. unfold Cmp, is_gt. pose proof (cmp_at_gt (f_mant x) (f_exp x) 0 0) as H.
  cbn [f_mant f_exp newFloat]. destruct (cmp_at _ _ _ _); rewrite <- newFloat_val; unfold toQ at 1;
    cbn [f_mant f_exp newFloat]; intuition congruence.
Qed.

Lemma Cmp_newFloat_eq x : is_eq (Cmp x newFloat) = true ↔ f_mant x = 0.
Proof.
  unfold Cmp, cmp_at, is_eq. cbn [f_mant f_exp newFloat]. rewrite Z.mul_0_l.
  assert (0 < 2 ^ (f_exp x - Z.min (f_exp x) 0)) by (apply Z.pow_pos_nonneg; lia).
  destruct (Z.compare_spec (f_mant x * 2 ^ (f_exp x - Z.min (f_exp x) 0)) 0); split; try done; nia.
Qed.

Lemma Quo_ret w d : 0 < f_mant d → is_ret (rate_of w d).
Proof.
  intros Hd. unfold rate_of, Quo. destruct (Z.eqb_spec (f_mant d) 0); [lia|].
  repeat case_match; apply is_ret_Ret.
Qed.

Lemma abnormal_ret d w : is_ret (abnormal d w).
Proof.
  unfold abnormal. destruct (is_gt _) eqn:E; [|apply is_ret_Ret].
  apply Cmp_newFloat in E. unfold rate_ge_const. destruct (Quo_ret w d E) as [r ->]. apply is_ret_Ret.
Qed.

Lemma rate_prec w d : amount_like w → amount_like d → 0 < f_mant d → 53 ≤ op_prec newFloat w d.
Proof.
  intros [_ Hw] [_ Hd] Hp. unfold op_prec, umax32. cbn. rewrite Z.gtb_ltb.
  destruct (Z.ltb_spec (f_prec d) (f_prec w)); lia.
Qed.

Lemma toQ_zero x : f_mant x = 0 → (toQ x == 0)%Q.
Proof. intros H. unfold toQ, dyad. rewrite H. by rewrite Qmult_0_l. Qed.

Lemma rate_of_zero w d : 0 < f_mant d → f_mant w = 0 → ∃ f, rate_of w d = Ret (FinF f) ∧ (toQ f == 0)%Q.
Proof.
  intros Hd Hw. unfold rate_of, Quo. destruct (Z.eqb_spec (f_mant d) 0); [lia|].
  destruct (quo_pos _ _ _ _ _) as [m e]. rewrite Hw. cbn [mbind Go_bind Float64 f_mant f_exp Z.sgn].
  rewrite !Z.mul_0_l. unfold Float64_fin. pose proof (rnd_zero (f64_prec 0 e) e) as Hz.
  destruct (rnd (f64_prec 0 e) 0 e) as [m' e']. cbn in Hz. subst. rewrite andb_false_r.
  eexists. split; [done|]. by apply toQ_zero.
Qed.

Lemma f64_ge_ext r c : f64_ge r c = true ↔ ext_ge r c 0.
Proof.
  destruct r as [f|[]]; cbn; [|done..].
  pose proof (cmp_at_lt (f_mant f) (f_exp f) c 0) as H. unfold toQ.
  destruct (cmp_at _ _ _ _); split; try done.
  all: try (intros; apply Qnot_lt_le; intros Hl; apply H in Hl; done).
  intros Hle. exfalso. apply (Qle_not_lt _ _ Hle). by apply H.
Qed.

(** The largest double below 3. *)
Definition below3 : Q := dyad (3 * 2 ^ 51 - 1) (-51).

Lemma abnormal_complete d w :
  amount_like d → amount_like w → (0 < toQ w)%Q → (inject_Z 3 * toQ d <= toQ w)%Q →
  abnormal d w = Ret true.
Proof.
  intros Hd Hw Hpos Hle. unfold abnormal. apply toQ_pos in Hpos.
  destruct (is_gt (Cmp d newFloat)) eqn:E.
  - apply Cmp_newFloat in E. unfold rate_ge_const.
    destruct (rate_ge w d 3 0) as (r & -> & Hr); [done|done|by apply rate_prec|done..|].
    cbn. f_equal. by apply f64_ge_ext.
  - assert (f_mant d = 0) as Hz.
    { apply not_true_iff_false in E. rewrite Cmp_newFloat in E. destruct Hd. lia. }
    f_equal. apply andb_true_iff. split; [by apply Cmp_newFloat_eq|by apply Cmp_newFloat].
Qed.

Lemma abnormal_sound d w :
  amount_like d → amount_like w → abnormal d w = Ret true →
  (0 < toQ w ∧ below3 * toQ d < toQ w)%Q.
Proof.
  intros Hd Hw. unfold abnormal. destruct (is_gt (Cmp d newFloat)) eqn:E.
  - apply Cmp_newFloat in E. unfold rate_ge_const. intros H.
    destruct (Z.eq_dec (f_mant w) 0) as [Hz|Hz].
    { destruct (rate_of_zero w d E Hz) as (f & Er & Hf). rewrite Er in H. injection H as Ht.
      apply (f64_ge_ext (FinF f)) in Ht. unfold ext_ge in Ht. rewrite Hf in Ht. by vm_compute in Ht. }
    assert (0 < f_mant w) as Hpw by (destruct Hw; lia). split; [by apply toQ_pos|].
    apply Qnot_le_lt. intros Hle.
    destruct (rate_le w d (3 * 2 ^ 51 - 1) (-51)) as (r & Er & Hr);
      [done|done|by apply rate_prec|done|done|reflexivity|exact Hle|].
    rewrite Er in H. cbn [mbind Go_bind] in H. injection H as Ht. apply f64_ge_ext in Ht.
    destruct r as [f|[]]; cbn in *; try done.
    pose proof (Qle_trans _ _ _ Ht Hr) as Hc. by vm_compute in Hc.
  - intros [= H]. apply andb_true_iff in H as [Hz Hp]. apply Cmp_newFloat_eq in Hz. apply Cmp_newFloat in Hp.
    apply toQ_pos in Hp. split; [done|]. unfold toQ at 1, dyad. rewrite Hz, Qmult_0_l, Qmult_0_r. done.
Qed.

(** ** Sorting in place *)

Lemma sort_nil (so : Sorter) {A} (less : A → A → bool) : sort_by so less [] = [].
Proof. apply Permutation_nil_r, sort_perm. Qed.

Lemma flows_of_sort so m u t u' t' :
  flows_of (sort_flows so m u t) u' t' =
  if decide (u = u' ∧ t = t') then sort_by so TokenFlowList_Less (flows_of m u' t') else flows_of m u' t'.
Proof.
  unfold sort_flows, flows_of. destruct (m !! u) as [tm|] eqn:Eu; cbn.
  - destruct (tm !! t) as [l|] eqn:Et; cbn.
    + destruct (decide (u = u')) as [<-|].
      * rewrite lookup_insert_eq. cbn. rewrite Eu. cbn.
        destruct (decide (t = t')) as [<-|].
        -- rewrite lookup_insert_eq, decide_True by done. by rewrite Et.
        -- rewrite lookup_insert_ne, decide_False by naive_solver. done.
      * rewrite lookup_insert_ne, decide_False by naive_solver. done.
    + case_decide as H; [|done]. destruct H as [<- <-]. rewrite Eu. cbn. rewrite Et. cbn. by rewrite sort_nil.
  - case_decide as H; [|done]. destruct H as [<- <-]. rewrite Eu. cbn. by rewrite sort_nil.
Qed.

Lemma flows_of_sort_length so m u t u' t' :
  length (flows_of (sort_flows so m u t) u' t') = length (flows_of m u' t').
Proof. rewrite flows_of_sort. case_decide; [|done]. apply Permutation_length, sort_perm. Qed.

(** ** [CheckAttack] returns *)

Lemma flow_totals_total so s o m user token f :
  ∃ t, flow_totals so s o m user token f = Some t ∧
    ∀ u t', length (flows_of (to_state t) u t') = length (flows_of m u t').
Proof.
  unfold flow_totals. match goal with |- context [add_related ?o ?a ?b ?c ?d _ ?u ?x ?y ?z] =>
    destruct (add_related_total o a b c d u x y z) as [t Ht] end. rewrite Ht. exists t. split; [done|].
  revert Ht. apply (add_related_inv _ _ _ _ _ (λ m', ∀ u t', length (flows_of m' u t') = length (flows_of m u t'))); [|done].
  intros st u d w st' Hinv. unfold own_flow. intros [= _ <-] u' t'. by rewrite flows_of_sort_length.
Qed.

Lemma abnormalDetection_ret d w m user token used rm f :
  ∃ info, abnormalDetection d w m user token used rm f = Ret info.
Proof. unfold abnormalDetection. destruct (abnormal_ret d w) as [b ->]. by eexists. Qed.

Lemma flow_loop_total so s os user token n index m :
  (index + n = length (flows_of m user token))%nat →
  ∃ r, flow_loop so s os user token index n m = Some (Ret r).
Proof.
  revert index m. induction n as [|n IH]; intros index m Hlen; cbn [flow_loop]; [by eexists|].
  destruct (lookup_lt_is_Some_2 (flows_of m user token) index) as [f Hf]; [lia|]. rewrite Hf.
  destruct (String.eqb _ _); [apply IH; lia|].
  destruct (flow_totals_total so s (os index) m user token f) as (t & -> & Hl). cbn.
  destruct (abnormalDetection_ret (to_deposit t) (to_withdraw t) (to_state t) user token (to_used t)
    (te_UserRelatedMap s) f) as [[i|] ->]; [by eexists|]. apply IH. rewrite Hl. lia.
Qed.

Lemma check_token_total so s os user acc token :
  ∃ acc', check_token so s os user acc token = Some (Ret acc').
Proof.
  destruct acc as [m am]. unfold check_token. case_bool_decide; [by eexists|].
  edestruct flow_loop_total as [[m' info] ->]; [done|]. by eexists.
Qed.

Lemma CheckAttack_returns so s o os user m :
  ∃ r, CheckAttack so s o os user m = Some (Ret r).
Proof.
  unfold CheckAttack. case_bool_decide; [by eexists|].
  edestruct (run_foldl_total (λ _, True) (check_token so s os user)) as ([m' am] & -> & _).
  - intros acc token _ _. destruct (check_token_total so s os user acc token) as [acc' ->]. by eexists.
  - done.
  - by eexists.
Qed.

(** ** What the reports of [CheckAttack] say

    The flows are in the order of blocks already when [CheckAttack] runs, but it sorts
    them again, and [sort.Sort] may permute the flows of one block.  The maps it
    meets hold the same flows as [m] in some order of blocks. *)
Definition flows_sorted (m : UserTokenFlowMap) : Prop :=
  ∀ u t, StronglySorted (le_of TokenFlowList_Less) (flows_of m u t).

Record arranged (m m' : UserTokenFlowMap) : Prop := {
  arr_perm : ∀ u t, flows_of m' u t ≡ₚ flows_of m u t;
  arr_sorted : flows_sorted m'
}.

Lemma arranged_refl m : flows_sorted m → arranged m m.
Proof. by split. Qed.

Lemma arranged_sort so m m' u t : arranged m m' → arranged m (sort_flows so m' u t).
Proof.
  intros [Hp Hs]. split; intros u' t'; rewrite flows_of_sort; case_decide; try done.
  - by rewrite sort_perm.
  - apply sort_sorted. auto with idw.
Qed.

Lemma flows_blocks_sorted (l : list TokenFlow) :
  StronglySorted (le_of TokenFlowList_Less) l → StronglySorted Z.le (tf_BlockNumber <$> l).
Proof.
  intros H. apply StronglySorted_fmap. eapply StronglySorted_impl; [|exact H].
  intros x y Hle. by apply Z.ltb_ge in Hle.
Qed.

(** The blocks are at the same places in every arrangement. *)
Lemma arranged_blocks m m1 m2 u t :
  arranged m m1 → arranged m m2 → tf_BlockNumber <$> flows_of m1 u t = tf_BlockNumber <$> flows_of m2 u t.
Proof.
  intros [Hp1 Hs1] [Hp2 Hs2]. apply (StronglySorted_unique Z.le); [by apply flows_blocks_sorted..|].
  by rewrite Hp1, Hp2.
Qed.

Definition flows_amounts (m : UserTokenFlowMap) : Prop :=
  ∀ u t f, f ∈ flows_of m u t → amount_like (tf_TotalDeposit f) ∧ amount_like (tf_TotalWithdraw f).

Definition copy (x : Float) : Float := Add newFloat x newFloat.

Lemma amount_like_copy x : amount_like x → amount_like (copy x).
Proof. intros. apply amount_like_Add; [by left|done|apply amount_like_0]. Qed.

Definition copies (f : TokenFlow) : Float * Float := (copy (tf_TotalDeposit f), copy (tf_TotalWithdraw f)).

(** [g] can be the last of the flows [l] that are read at the flow [f]: it is not
    after [f], and no block before that of [f] has flows later than [g]; nor has the
    block of [f] itself when all of its flows are at or before [f]. *)
Record latest (l : list TokenFlow) (f g : TokenFlow) : Prop := {
  lat_not_after : not_after f g = true;
  lat_before : ∀ h, h ∈ l → tf_BlockNumber h < tf_BlockNumber f → tf_BlockNumber h ≤ tf_BlockNumber g;
  lat_within : (∀ h, h ∈ l → tf_BlockNumber h = tf_BlockNumber f → not_after f h = true) →
    ∀ h, h ∈ l → tf_BlockNumber h ≤ tf_BlockNumber f → tf_BlockNumber h ≤ tf_BlockNumber g
}.

(** The flows [l] can all be skipped at [f]: one of the first block is after [f]. *)
Definition skippable (l : list TokenFlow) (f : TokenFlow) : Prop :=
  l = [] ∨ ∃ h, h ∈ l ∧ not_after f h = false ∧ ∀ h', h' ∈ l → tf_BlockNumber h ≤ tf_BlockNumber h'.

(** The totals that can be read off the flows [l] at [f]. *)
Definition totals_read (l : list TokenFlow) (f : TokenFlow) (p : Float * Float) : Prop :=
  (skippable l f ∧ p = (newFloat, newFloat)) ∨ ∃ g, g ∈ l ∧ latest l f g ∧ p = copies g.

Lemma totals_until_last f l d w :
  (totals_until f l d w = (d, w) ∧ (l = [] ∨ ∃ h l2, l = h :: l2 ∧ not_after f h = false)) ∨
  ∃ l1 g l2, l = l1 ++ g :: l2 ∧ not_after f g = true ∧ totals_until f l d w = copies g ∧
    (l2 = [] ∨ ∃ h l3, l2 = h :: l3 ∧ not_after f h = false).
Proof.
  revert d w. induction l as [|x l IH]; intros d w; cbn [totals_until]; [left; auto|].
  destruct (not_after f x) eqn:Ex; [|left; split; [done|right; eauto]]. right.
  destruct (IH (copy (tf_TotalDeposit x)) (copy (tf_TotalWithdraw x))) as [[E Hl]|(l1 & g & l2 & -> & Hg & E & Hl)].
  - exists [], x, l. done.
  - exists (x :: l1), g, l2. done.
Qed.

Lemma not_after_true f h :
  not_after f h = true ↔
  tf_BlockNumber h < tf_BlockNumber f ∨ (tf_BlockNumber h = tf_BlockNumber f ∧ tf_TxIndex h ≤ tf_TxIndex f).
Proof.
  unfold not_after. rewrite negb_true_iff, orb_false_iff, andb_false_iff, !Z.ltb_ge, Z.eqb_neq. lia.
Qed.

Lemma not_after_false f h : not_after f h = false → tf_BlockNumber f ≤ tf_BlockNumber h.
Proof. rewrite <- not_true_iff_false, not_after_true. lia. Qed.

Lemma sorted_around (l1 l2 : list TokenFlow) g h :
  StronglySorted Z.le (tf_BlockNumber <$> l1 ++ g :: l2) →
  (h ∈ l1 ++ [g] → tf_BlockNumber h ≤ tf_BlockNumber g) ∧ (h ∈ l2 → tf_BlockNumber g ≤ tf_BlockNumber h).
Proof.
  induction l1 as [|x l1 IH]; cbn; intros Hs; inversion Hs as [|? ? Hs' Hall]; subst.
  - split; [by intros ->%list_elem_of_singleton|]. intros Hin. rewrite Forall_fmap, Forall_forall in Hall. by apply Hall.
  - destruct (IH Hs') as [H1 H2]. split; [|done]. intros [->|?]%elem_of_cons; [|by apply H1].
    rewrite Forall_fmap, Forall_forall in Hall. apply Hall. apply elem_of_app. right. by left.
Qed.

(** What [totals_until] returns on an arrangement of the flows. *)
Lemma totals_until_read f l l' :
  l' ≡ₚ l → StronglySorted (le_of TokenFlowList_Less) l' →
  totals_read l f (totals_until f l' newFloat newFloat).
Proof.
  intros Hp Hs%flows_blocks_sorted.
  destruct (totals_until_last f l' newFloat newFloat) as [[-> Hl]|(l1 & g & l2 & -> & Hg & -> & Hl)].
  - left. split; [|done]. destruct Hl as [->|(h & l2 & -> & Hh)]; [left; by apply Permutation_nil in Hp|].
    right. exists h. split; [rewrite <- Hp; by left|]. split; [done|]. intros h'. rewrite <- Hp.
    intros [->|Hin]%elem_of_cons; [done|]. by apply (sorted_around [] l2 h h').
  - right. exists g. assert (g ∈ l) as Hgl by (rewrite <- Hp; apply elem_of_app; right; by left).
    split; [done|]. split; [|done].
    assert (∀ h, h ∈ l → tf_BlockNumber h ≤ tf_BlockNumber g ∨
      (h ∈ l2 ∧ ∃ h0 l3, l2 = h0 :: l3 ∧ not_after f h0 = false ∧ h0 ∈ l ∧ tf_BlockNumber h0 ≤ tf_BlockNumber h)) as Hcase.
    { intros h. rewrite <- Hp at 1. rewrite cons_middle, (assoc_L app), elem_of_app.
      destruct (sorted_around l1 l2 g h Hs) as [H1 _]. intros [Hin|Hin]; [left; by apply H1|right].
      split; [done|]. destruct Hl as [->|(h0 & l3 & -> & Hh0)]; [by apply not_elem_of_nil in Hin|].
      exists h0, l3. split_and!; [done..|rewrite <- Hp, elem_of_app; right; right; by left|].
      apply elem_of_cons in Hin as [->|Hin]; [done|]. rewrite cons_middle, (assoc_L app) in Hs.
      by apply (sorted_around (l1 ++ [g]) l3 h0 h). }
    split; [done|..].
    + intros h Hin Hlt. destruct (Hcase h Hin) as [?|(_ & h0 & l3 & _ & Hh0%not_after_false & _ & ?)]; [done|lia].
    + intros Hall h Hin Hle. destruct (Hcase h Hin) as [?|(_ & h0 & l3 & _ & Hh0 & Hin0 & Hle0)]; [done|].
      pose proof (not_after_false _ _ Hh0). rewrite Hall in Hh0; [done|done|lia].
Qed.

Definition is_stable (s : TxExtractor) (token : Address) : Prop := is_Some (te_StableTokenMap s !! token).

#[export] Instance is_stable_dec s token : Decision (is_stable s token).
Proof. unfold is_stable. apply _. Defined.

Section reports.
Context (so : Sorter) (s : TxExtractor) (m : UserTokenFlowMap).
Context (Hsorted : flows_sorted m) (Hamounts : flows_amounts m).
#[local] Abbreviation reached f user := (reach (te_UserRelatedMap s) (te_CommonAddressMap s) (tf_BlockNumber f) user).

(** [d] and [w] decide at the flow [f] of [user]: the totals of the user at [f]
    and of every user reachable over relations known by the block, each counted
    once, summed up to one rounding per user. *)
Definition decisive (user token : Address) (f : TokenFlow) (d w : Float) : Prop :=
  ∃ log : VisitLog,
    NoDup log.*1 ∧ (∀ x, x ∈ log.*1 ↔ reached f user x) ∧
    Forall (λ e, totals_read (flows_of m e.1 token) f e.2) log ∧
    summed ((user, copies f) :: log) d w.

Lemma arranged_in m' u t f : arranged m m' → f ∈ flows_of m' u t ↔ f ∈ flows_of m u t.
Proof. intros [Hp _]. by rewrite Hp. Qed.

Lemma totals_read_like u token f p :
  totals_read (flows_of m u token) f p → amount_like p.1 ∧ amount_like p.2.
Proof using All.
  intros [[_ ->]|(g & Hg & _ & ->)]; [split; apply amount_like_0|].
  destruct (Hamounts _ _ _ Hg). split; by apply amount_like_copy.
Qed.

Lemma flow_totals_spec o user token f m' t :
  arranged m m' → f ∈ flows_of m user token → flow_totals so s o m' user token f = Some t →
  arranged m (to_state t) ∧ decisive user token f (to_deposit t) (to_withdraw t) ∧
  (¬ reached f user user → flows_of (to_state t) user token = flows_of m' user token).
Proof using All.
  intros Harr Hf Ht. unfold flow_totals in *.
  pose proof (add_related_reach _ _ _ _ _ _ _ _ _ _ _ Ht) as Hused.
  assert ((λ X m1, user ∉ X → flows_of m1 user token = flows_of m' user token) (to_used t) (to_state t)) as Hinv.
  { eapply add_related_used_inv; [| | |exact Ht]; [set_solver| |done].
    intros X st u d w st' Hu IH. unfold own_flow. intros [= _ <-] Hn.
    rewrite flows_of_sort, decide_False; [by apply IH|by intros [-> _]]. }
  apply (add_related_logged _ _ _ _ _ (arranged m) (λ u d w, totals_read (flows_of m u token) f (d, w))) in Ht;
    [| |done|].
  - destruct Ht as (Hst & log & [Hnd _ Hu Hown] & Hsum). split_and!; [done| |].
    + exists log. split_and!; [done| | |done].
      * intros x. rewrite <- Hused, Hu. set_solver.
      * eapply Forall_impl; [exact Hown|]. intros [x [d w]] [He _]. exact He.
    + intros Hn. apply Hinv. by rewrite Hused.
  - intros st u d w st' Hst E. unfold own_flow in E. injection E as Edw <-.
    pose proof (arranged_sort so m st u token Hst) as Hst'. split; [done|].
    assert (totals_read (flows_of m u token) f (d, w)) as Hr.
    { rewrite <- Edw. destruct Hst' as [Hp Hs]. by apply totals_until_read. }
    split; [exact Hr|]. apply (totals_read_like u token f (d, w) Hr).
  - destruct (Hamounts _ _ _ Hf). split; by apply amount_like_copy.
Qed.

Definition attack_at (user token : Address) (f : TokenFlow) (i : AttackInfo) : Prop :=
  tf_Action f ≠ "deposit" ∧ at_BlockNumber i = tf_BlockNumber f ∧
  at_TokenFlowList i ≡ₚ flows_of m user token ∧
  decisive user token f (at_TotalDeposit i) (at_TotalWithdraw i) ∧
  abnormal (at_TotalDeposit i) (at_TotalWithdraw i) = Ret true.

Definition normal_at (user token : Address) (f : TokenFlow) : Prop :=
  tf_Action f = "deposit" ∨
  ∃ d w, decisive user token f d w ∧ abnormal d w = Ret false.

(** The flow [f] of the user keeps its place while the loop runs: the user is not
    related to itself, so that its flows are not sorted again, or [f] is the only
    flow in its block. *)
Definition in_place (user token : Address) (f : TokenFlow) : Prop :=
  ¬ reached f user user ∨
  ∀ g, g ∈ flows_of m user token → tf_BlockNumber g = tf_BlockNumber f → g = f.

(** What is reported for a token: an abnormal flow, or nothing when every flow that
    keeps its place is normal. *)
Definition verdict (user token : Address) (info : option AttackInfo) : Prop :=
  match info with
  | Some i => ∃ f, f ∈ flows_of m user token ∧ attack_at user token f i
  | None => ∀ f, f ∈ flows_of m user token → in_place user token f → normal_at user token f
  end.

Lemma edge_mono b b' x y :
  b ≤ b' → reach (te_UserRelatedMap s) (te_CommonAddressMap s) b x y →
  reach (te_UserRelatedMap s) (te_CommonAddressMap s) b' x y.
Proof.
  intros Hb. induction 1 as [x y (since & H & Hc & Hs)|x y z _ IH1 _ IH2]; [|by eapply t_trans].
  apply t_step. exists since. split_and!; [done..|lia].
Qed.

(** A flow later in the list stays where it is when the flow at [index] is decided. *)
Lemma in_place_kept user token o index m' g t j f :
  arranged m m' → flows_of m' user token !! index = Some g → flow_totals so s o m' user token g = Some t →
  in_place user token f → (index < j)%nat → flows_of m' user token !! j = Some f →
  flows_of (to_state t) user token !! j = Some f.
Proof using All.
  intros Harr Hg Ht Hplace Hj Hf. pose proof Harr as [Hp Hs].
  assert (g ∈ flows_of m user token) as Hgin by (rewrite <- (arranged_in m') by done; by eapply list_elem_of_lookup_2).
  destruct (flow_totals_spec _ _ _ _ _ _ Harr Hgin Ht) as (Harr' & _ & Hsame).
  destruct Hplace as [Hn|Honly].
  - rewrite Hsame; [done|]. intros Hr. apply Hn. eapply edge_mono, Hr.
    pose proof (flows_blocks_sorted _ (Hs user token)) as Hb.
    apply (StronglySorted_lookup _ _ index j _ _ Hb); [done|by rewrite list_lookup_fmap, Hg|by rewrite list_lookup_fmap, Hf].
  - pose proof (arranged_blocks m m' (to_state t) user token Harr Harr') as E.
    apply (f_equal (.!! j)) in E. rewrite !list_lookup_fmap, Hf in E. cbn in E.
    destruct (flows_of (to_state t) user token !! j) as [f'|] eqn:Ef; [|done]. injection E as E.
    rewrite (Honly f'); [done| |done]. rewrite <- (arranged_in (to_state t)) by done. by eapply list_elem_of_lookup_2.
Qed.

(** The loop reports an abnormal flow, or every flow from [index] on that keeps its
    place is normal. *)
Lemma flow_loop_spec os user token n index m' r :
  arranged m m' → (index + n = length (flows_of m' user token))%nat →
  flow_loop so s os user token index n m' = Some (Ret r) →
  arranged m r.1 ∧
  match r.2 with
  | Some i => verdict user token (Some i)
  | None => ∀ j f, (index ≤ j)%nat → flows_of m' user token !! j = Some f → in_place user token f → normal_at user token f
  end.
Proof using All.
  revert index m'. induction n as [|n IH]; intros index m' Harr Hlen; cbn [flow_loop].
  { intros [= <-]. split; [done|]. intros j g Hj Hg%lookup_lt_Some. lia. }
  destruct (flows_of m' user token !! index) as [f|] eqn:Ef; [|done].
  assert (∀ m1, arranged m m1 → normal_at user token f →
    (∀ j g, (index < j)%nat → flows_of m' user token !! j = Some g → in_place user token g →
       flows_of m1 user token !! j = Some g) →
    flow_loop so s os user token (S index) n m1 = Some (Ret r) →
    arranged m r.1 ∧
    match r.2 with
    | Some i => verdict user token (Some i)
    | None => ∀ j g, (index ≤ j)%nat → flows_of m' user token !! j = Some g → in_place user token g → normal_at user token g
    end) as Hnext.
  { intros m1 Harr1 Hn Hkept Hr. apply IH in Hr as [Hm Hr]; [|done|].
    - split; [done|]. destruct (r.2) as [i|]; [done|].
      intros j g Hj Hg Hpl. destruct (decide (j = index)) as [->|]; [by simplify_eq|].
      apply (Hr j); [lia|apply Hkept; [lia|done..]|done].
    - rewrite (Permutation_length (arr_perm _ _ Harr1 user token)), <- (Permutation_length (arr_perm _ _ Harr user token)). lia. }
  destruct (String.eqb_spec (tf_Action f) "deposit") as [Ed|Ed]; [apply Hnext; [done|by left|done]|].
  destruct (flow_totals _ _ _ _ _ _ _) as [t|] eqn:Et; [|done]. cbn.
  assert (f ∈ flows_of m user token) as Hin by (rewrite <- (arranged_in m') by done; by eapply list_elem_of_lookup_2).
  pose proof (flow_totals_spec _ _ _ _ _ _ Harr Hin Et) as (Harr' & Hd & _).
  unfold abnormalDetection. destruct (abnormal_ret (to_deposit t) (to_withdraw t)) as [flag Eflag].
  rewrite Eflag. cbn. destruct flag.
  - intros [= <-]. split; [done|]. exists f. split; [done|]. split_and!; [done..| |done|done].
    apply (arr_perm _ _ Harr').
  - apply Hnext; [done|right; by exists (to_deposit t), (to_withdraw t)|].
    intros j g Hj Hg Hpl. exact (in_place_kept _ _ _ _ _ _ _ _ _ Harr Ef Et Hpl Hj Hg).
Qed.

Lemma flow_loop_verdict os user token m' r :
  arranged m m' → flow_loop so s os user token 0 (length (flows_of m' user token)) m' = Some (Ret r) →
  arranged m r.1 ∧ verdict user token r.2.
Proof using All.
  intros Harr H. apply flow_loop_spec in H as [Hm Hr]; [|done..]. split; [done|]. destruct (r.2) as [i|]; [done|].
  intros f Hf. rewrite <- (arranged_in m') in Hf by done. apply list_elem_of_lookup in Hf as [j Hj].
  apply (Hr j); [lia|done].
Qed.

Lemma check_tokens_spec os user toks m' am r :
  arranged m m' → NoDup toks → run_foldl (check_token so s os user) (m', am) toks = Some (Ret r) →
  arranged m r.1 ∧
  (∀ token, token ∉ toks ∨ is_stable s token → r.2 !! token = am !! token) ∧
  (∀ token, token ∈ toks → ¬ is_stable s token → am !! token = None → verdict user token (r.2 !! token)).
Proof using All.
  revert m' am. induction toks as [|tok toks IH]; intros m' am Harr Hnd; cbn [run_foldl].
  { intros [= <-]. split_and!; [done|done|]. intros ? H. by apply not_elem_of_nil in H. }
  apply NoDup_cons in Hnd as [Hnot Hnd].
  unfold check_token at 1. case_bool_decide as Hst; cbn [run_bind].
  { intros (Hm & Hk & Hv)%IH; [|done..]. split_and!; [done| |].
    - intros token Ht. apply Hk. set_solver.
    - intros token [->|Hin]%elem_of_cons Hns; [done|by apply Hv]. }
  destruct (flow_loop _ _ _ _ _ _ _ _) as [[[m1 info]|]|] eqn:El; cbn; [|done..].
  apply flow_loop_verdict in El as [Em Hinfo]; [|by apply arranged_sort]. cbn in Em, Hinfo.
  intros (Hm & Hk & Hv)%IH; [|done..]. split_and!; [done| |].
  - intros token Ht. rewrite Hk by set_solver. destruct info; [|done].
    rewrite lookup_insert_ne; [done|]. intros ->. destruct Ht as [Ht|?]; [apply Ht; by left|done].
  - intros token Hin Hns Ham. destruct (decide (token = tok)) as [->|Hne].
    + rewrite Hk by by left. destruct info; [by rewrite lookup_insert_eq|by rewrite Ham].
    + apply Hv; [set_solver|done|]. destruct info; [by rewrite lookup_insert_ne|done].
Qed.

(** [CheckAttack] reports, for every token of a user that is not common and that is
    not a stable token, the verdict of its flows, and nothing else. *)
Lemma CheckAttack_verdicts o os user am found m' :
  CheckAttack so s o os user m = Some (Ret (am, found, m')) →
  arranged m m' ∧ (found = true ↔ am ≠ ∅) ∧
  ∀ token, if decide (te_CommonAddressMap s !! user = None ∧ is_Some (default ∅ (m !! user) !! token) ∧ ¬ is_stable s token)
    then verdict user token (am !! token) else am !! token = None.
Proof using All.
  unfold CheckAttack. case_bool_decide as Hc.
  { intros [= <- <- <-]. split_and!; [by apply arranged_refl|done|]. intros token.
    destruct (decide _) as [(Hn & _)|]; [|done]. rewrite Hn in Hc. by destruct Hc as [? [=]]. }
  destruct (run_foldl _ _ _) as [[[m1 am1]|]|] eqn:E; cbn; [|done..]. intros [= <- <- <-].
  apply check_tokens_spec in E as (Hm & Hk & Hv); [|by apply arranged_refl|apply range_map_NoDup]. cbn in *.
  split_and!; [done| |].
  { rewrite negb_true_iff, bool_decide_eq_false. done. }
  assert (∀ token, token ∈ (range_map o 0 (default ∅ (m !! user))).*1 ↔ is_Some (default ∅ (m !! user) !! token)) as Hdom.
  { intros token. rewrite list_elem_of_fmap. split.
    - intros ([y l] & -> & Hin%elem_of_range_map). by eexists.
    - intros [l Hl]. exists (token, l). split; [done|]. by apply elem_of_range_map. }
  intros token. destruct (decide _) as [(Hn & Hs & Hns)|Hno].
  - apply Hv; [by apply Hdom|done|apply lookup_empty].
  - rewrite Hk; [apply lookup_empty|]. rewrite Hdom. apply not_and_l in Hno.
    assert (te_CommonAddressMap s !! user = None) as Hn by by apply eq_None_not_Some.
    destruct Hno as [?|Hno]; [done|]. destruct (decide (is_stable s token)); [by right|left]. tauto.
Qed.
End reports.
