(* ===== verification/DetectFacts.v ===== *)
(** * From transfers to reports

    The flows that [GenerateUserFlow] builds and the detection of [CheckAttack]
    put together: a report against the exact sums of the transfers. *)

From S2P Require Import Prelude BigFloat Approx Common Extractor Flow RelatedFacts FlowFacts CheckFacts.
From Stdlib Require Import QArith Lqa.

#[local] Open Scope Z_scope.

(** ** All users *)

Section generate.
Context (so : Sorter) (s : TxExtractor).

Definition all_complete : Prop :=
  ∀ user txs, te_UserTokenTxMap s !! user = Some txs → complete txs.

Definition flow_spec : TokenTxMap → TokenFlowMap → Prop :=
  user_flow_spec so (te_StableTokenMap s) (te_LPTokenMap s) (te_TokenSwapMap s).

Lemma user_steps os entries acc :
  NoDup entries.*1 → Forall (λ e, complete e.2) entries →
  ∃ r, go_foldl (user_step so os s) acc entries = Ret r ∧
    (∀ user txs, (user, txs) ∈ entries → ∃ flows, r.1.1 !! user = Some flows ∧ flow_spec txs flows) ∧
    (∀ user, user ∉ entries.*1 → r.1.1 !! user = acc.1.1 !! user).
Proof.
  revert acc. induction entries as [|[user txs] entries IH]; intros [[fm uns] txm] Hnd Hall.
  { eexists. split_and!; [done|intros ?? H; by apply not_elem_of_nil in H|done]. }
  apply NoDup_cons in Hnd as [Hnot Hnd]. apply Forall_cons in Hall as [Hc Hall].
  cbn [go_foldl]. unfold user_step at 1.
  destruct (user_flow_complete so (te_StableTokenMap s) (te_LPTokenMap s) (te_TokenSwapMap s) (os user) txs uns Hc)
    as (flows & txs' & uns' & -> & Hspec).
  cbn [mbind Go_bind]. edestruct IH as (r & -> & Hr & Hr'); [done..|]. exists r. split_and!; [done| |].
  - intros user' txs'' [[= -> ->]|Hin]%elem_of_cons; [|by apply Hr].
    rewrite Hr' by done. cbn. rewrite lookup_insert_eq. by exists flows.
  - intros user' Hu. cbn in Hu. rewrite Hr' by set_solver. cbn. rewrite lookup_insert_ne by set_solver. done.
Qed.

Lemma GenerateUserFlow_complete o os :
  all_complete →
  ∃ r, GenerateUserFlow so o os s = Ret r ∧
    (∀ user txs, te_UserTokenTxMap s !! user = Some txs → ∃ flows, r.1.1 !! user = Some flows ∧ flow_spec txs flows) ∧
    (∀ user, te_UserTokenTxMap s !! user = None → r.1.1 !! user = None).
Proof.
  intros Hc. unfold GenerateUserFlow.
  edestruct (user_steps os (range_map o 0 (te_UserTokenTxMap s))) as (r & -> & Hr & Hr').
  - apply range_map_NoDup.
  - apply Forall_forall. intros [user txs] Hin%elem_of_range_map. by eapply Hc.
  - exists r. split_and!; [done| |].
    + intros user txs Hu. apply Hr. by apply elem_of_range_map.
    + intros user Hu. rewrite Hr'; [apply lookup_empty|].
      intros ([y l] & -> & Hin%elem_of_range_map)%list_elem_of_fmap. cbn in Hu. congruence.
Qed.

Lemma GenerateUserFlow_ret o os : is_ret (GenerateUserFlow so o os s) ↔ all_complete.
Proof.
  split.
  - unfold GenerateUserFlow. intros [r Hr] user txs Hu.
    assert ((user, txs) ∈ range_map o 0 (te_UserTokenTxMap s)) as Hin by by apply elem_of_range_map.
    revert Hr Hin. generalize (∅ : UserTokenFlowMap, ∅ : gmap Address Z, te_UserTokenTxMap s).
    induction (range_map _ _ _) as [|e entries IH]; intros acc; cbn [go_foldl]; [by intros _ ?%not_elem_of_nil|].
    destruct (user_step so os s acc e) as [acc'|] eqn:E; [|done]. intros Hr [<-|Hin]%elem_of_cons; [|by eapply IH].
    destruct acc as [[fm uns] txm]. unfold user_step in E.
    destruct (user_flow _ _ _ _ _ _ _) eqn:Ef; [|done]. by eapply user_flow_ret.
  - intros Hc. destruct (GenerateUserFlow_complete o os Hc) as (r & -> & _). apply is_ret_Ret.
Qed.

(** The transfers of a user and a token. *)
Definition transfers (user token : Address) : list TokenTx :=
  default [] (te_UserTokenTxMap s !! user ≫= (.!! token)).

Lemma transfers_Forall (P : TokenTx → Prop) user token :
  map_Forall (λ _ txs, map_Forall (λ _ l, Forall P l) txs) (te_UserTokenTxMap s) →
  Forall P (transfers user token).
Proof.
  intros H. unfold transfers. destruct (te_UserTokenTxMap s !! user) as [txs|] eqn:Eu; cbn; [|constructor].
  destruct (txs !! token) as [l|] eqn:Et; cbn; [|constructor]. by eapply (H user txs Eu token).
Qed.

(** A token whose flows are its own: not a staked token, not the key of a class. *)
Definition plain (token : Address) : Prop :=
  skipped (te_StableTokenMap s) (te_LPTokenMap s) token = false ∧ token ≠ MERGED ∧
  ∀ t st, te_StableTokenMap s !! t = Some st → st_XToken st ≠ token.

Lemma plain_not_reserved token txs : plain token → ¬ reserved (te_StableTokenMap s) txs token.
Proof.
  intros (_ & Hm & Hx) [?|(e & _ & Hc)]; [done|]. unfold in_class in Hc.
  destruct (te_StableTokenMap s !! e.1) as [st|] eqn:E; [|done]. apply Z.eqb_eq in Hc. by eapply Hx.
Qed.

Lemma generated_flows o os r user token :
  GenerateUserFlow so o os s = Ret r → plain token →
  flows_of r.1.1 user token = token_flows so (transfers user token) ∨
  (flows_of r.1.1 user token = [] ∧ transfers user token = []).
Proof.
  intros Hr Hp. assert (all_complete) as Hc by (apply (GenerateUserFlow_ret o os); by exists r).
  destruct (GenerateUserFlow_complete o os Hc) as (r' & Hr' & Hs & Hn). rewrite Hr' in Hr. injection Hr as ->.
  unfold flows_of, transfers. destruct (te_UserTokenTxMap s !! user) as [txs|] eqn:Eu; cbn.
  - destruct (Hs _ _ Eu) as (flows & -> & [Ht _ _ Ho]). cbn.
    destruct (txs !! token) as [l|] eqn:Et; cbn.
    + left. rewrite (Ht _ _ Et); [done|apply Hp|by apply plain_not_reserved].
    + right. split; [|done]. destruct (flows !! token) eqn:Ef; [|done]. exfalso.
      destruct (Ho token) as [?|([l' ?] & _ & _)]; [by eexists|by eapply plain_not_reserved|congruence].
  - right. by rewrite (Hn _ Eu).
Qed.
End generate.

(** ** The totals at a flow *)

Definition tx_before (f : TokenFlow) (t : TokenTx) : bool :=
  (tt_BlockNumber t <? tf_BlockNumber f) ||
  ((tt_BlockNumber t =? tf_BlockNumber f) && (tt_TxIndex t <=? tf_TxIndex f)).

Lemma not_after_flow f t amt flowamt l :
  not_after f (flow_after amt flowamt l t) = tx_before f t.
Proof.
  apply eq_bool_prop_intro. rewrite !Is_true_true. unfold not_after, tx_before. cbn.
  rewrite negb_true_iff, !orb_true_iff, orb_false_iff, andb_false_iff, andb_true_iff.
  rewrite !Z.ltb_lt, !Z.ltb_ge, !Z.eqb_neq, Z.leb_le, !Z.eqb_eq. lia.
Qed.

Lemma tx_before_sorted f x y :
  le_of TokenTxList_Less x y → tx_before f y = true → tx_before f x = true.
Proof.
  unfold le_of. rewrite <- not_true_iff_false, TokenTxList_Less_spec. unfold lex3, tx_before.
  rewrite !orb_true_iff, !andb_true_iff, !Z.ltb_lt, !Z.leb_le, !Z.eqb_eq. lia.
Qed.

Lemma not_after_first f : 0 ≤ tf_TxIndex f → 0 ≤ tf_BlockNumber f → not_after f first_flow = true.
Proof.
  intros Ht Hb. unfold not_after. cbn. destruct (Z.ltb_spec (tf_BlockNumber f) 0), (Z.eqb_spec 0 (tf_BlockNumber f)),
    (Z.ltb_spec (tf_TxIndex f) 0); cbn; try done; lia.
Qed.

(** The flow [k] after a chain of transfers. *)
Lemma flows_after_lookup amt flowamt l k f :
  flows_after amt flowamt l !! S k = Some f ↔
  ∃ t, l !! k = Some t ∧ f = flow_after amt flowamt (take k l) t.
Proof.
  unfold flows_after. rewrite lookup_cons, list_lookup_imap. cbn [Nat.pred]. rewrite fmap_Some. naive_solver.
Qed.

(** ** Exact sums *)

Definition exact_sum (action : string) (l : list TokenTx) : Q :=
  sumQ ((λ t, inject_Z (amount_of t)) <$> of_action action l).

Lemma exact_sum_perm action l1 l2 : l1 ≡ₚ l2 → (exact_sum action l1 == exact_sum action l2)%Q.
Proof. intros H. unfold exact_sum, of_action. by rewrite H. Qed.

Lemma exact_sum_nonneg action l : Forall (λ t, pos_amount t = true) l → (0 <= exact_sum action l)%Q.
Proof.
  intros H. apply sumQ_nonneg, Forall_fmap, Forall_forall. intros t [_ Ht]%list_elem_of_filter. cbn.
  rewrite Forall_forall in H. specialize (H t Ht). unfold pos_amount in H. apply Z.gtb_lt in H.
  rewrite <- (Zle_Qle 0). unfold amount_of. lia.
Qed.

Lemma sumQ_ext {A} (f g : A → Q) l : Forall (λ x, f x == g x)%Q l → (sumQ (f <$> l) == sumQ (g <$> l))%Q.
Proof. induction 1 as [|x l Hx _ IH]; cbn; [done|]. unfold sumQ in IH. by rewrite Hx, IH. Qed.

Lemma run_total_exact action l :
  Forall (λ t, pos_amount t = true) l →
  amount_like (run_total single_amt action l) ∧
  approx (length l) (exact_sum action l) (toQ (run_total single_amt action l)).
Proof.
  intros Hl. destruct (run_total_approx single_amt single_amt_like action l Hl) as [Hlike Happ].
  split; [done|]. pose proof (exact_sum_nonneg action l Hl) as Hnn.
  assert (sumQ ((λ t, toQ (single_amt t)) <$> of_action action l) == exact_sum action l)%Q as E.
  { apply sumQ_ext, Forall_forall. intros t [_ Ht]%list_elem_of_filter. apply single_amt_exact.
    rewrite Forall_forall in Hl. by apply Hl. }
  rewrite E in Happ. eapply approx_mono; [|done|exact Happ].
  unfold of_action. apply length_filter.
Qed.

Lemma copy_exact n e x : amount_like x → (0 <= e)%Q → approx n e (toQ x) → approx (S n) e (toQ (copy x)).
Proof.
  intros Hx He Hn. unfold copy. rewrite <- (Nat.max_0_r n). rewrite <- (Qplus_0_r e).
  apply approx_Add; [by left|done|apply amount_like_0|done|done|done|]. apply approx_refl.
Qed.

Lemma filter_take {A} (P : A → Prop) `{∀ x, Decision (P x)} k (l : list A) :
  (∀ i x, l !! i = Some x → P x ↔ (i < k)%nat) → filter P l = take k l.
Proof.
  revert k. induction l as [|x l IH]; intros k Hl; [by rewrite take_nil|]. rewrite filter_cons.
  pose proof (Hl 0%nat x eq_refl) as Hx. destruct k as [|k]; cbn [take].
  - rewrite decide_False by (rewrite Hx; lia). rewrite (IH 0%nat), take_0; [done|].
    intros i y Hy. rewrite (Hl (S i) y Hy). lia.
  - rewrite decide_True by (rewrite Hx; lia). f_equal. apply IH. intros i y Hy. rewrite (Hl (S i) y Hy). lia.
Qed.

(** The positive transfers of a user and a token at or before a flow. *)
Definition counted (s : TxExtractor) (f : TokenFlow) (user token : Address) : list TokenTx :=
  filter (λ t, pos_amount t && tx_before f t = true) (transfers s user token).

Lemma counted_positive s f user token : Forall (λ t, pos_amount t = true) (counted s f user token).
Proof. apply Forall_forall. intros t [[H _]%andb_true_iff _]%list_elem_of_filter. done. Qed.

(** The positive transfers of a user and a token in order. *)
Definition ordered (so : Sorter) (s : TxExtractor) (user token : Address) : list TokenTx :=
  filter (λ t, pos_amount t = true) (sort_by so TokenTxList_Less (transfers s user token)).

Lemma ordered_sorted so s user token :
  StronglySorted (le_of TokenTxList_Less) (ordered so s user token).
Proof. apply StronglySorted_filter, sort_sorted. auto with idw. Qed.

Lemma ordered_positive so s user token : Forall (λ t, pos_amount t = true) (ordered so s user token).
Proof. apply Forall_forall. by intros t [? _]%list_elem_of_filter. Qed.

Lemma ordered_length so s user token : (length (ordered so s user token) ≤ length (transfers s user token))%nat.
Proof. unfold ordered. etrans; [apply length_filter|]. by rewrite sort_perm. Qed.

Lemma filter_filter_andb {A} (p q : A → bool) (l : list A) :
  filter (λ x, q x = true) (filter (λ x, p x = true) l) = filter (λ x, p x && q x = true) l.
Proof.
  induction l as [|x l IH]; [done|]. rewrite !filter_cons. destruct (p x) eqn:Ep.
  - rewrite (decide_True (P := true = true)) by done. rewrite filter_cons. cbn.
    destruct (q x); repeat case_decide; try done; by rewrite IH.
  - rewrite !decide_False by done. exact IH.
Qed.

Lemma ordered_before so s f user token :
  filter (λ t, tx_before f t = true) (ordered so s user token) ≡ₚ counted s f user token.
Proof. unfold ordered, counted. rewrite filter_filter_andb. by rewrite sort_perm. Qed.

Lemma flows_after_blocks amt flowamt l :
  tf_BlockNumber <$> flows_after amt flowamt l = 0 :: (tt_BlockNumber <$> l).
Proof.
  unfold flows_after. rewrite fmap_cons, fmap_imap. f_equal.
  induction l as [|t l IH] using rev_ind; [done|].
  rewrite imap_app, fmap_app. cbn [imap]. cbn [compose fmap list_fmap]. f_equal.
  rewrite <- IH. apply imap_ext. intros i x Hx%lookup_lt_Some. done.
Qed.

Lemma flows_after_sorted amt flowamt l :
  StronglySorted (le_of TokenTxList_Less) l → Forall (λ t, 0 ≤ tt_BlockNumber t) l →
  StronglySorted (le_of TokenFlowList_Less) (flows_after amt flowamt l).
Proof.
  intros Hs Hn.
  apply (StronglySorted_impl (λ x y, tf_BlockNumber x ≤ tf_BlockNumber y)).
  { intros x y Hle. unfold le_of, TokenFlowList_Less. by apply Z.ltb_ge. }
  apply (StronglySorted_fmap tf_BlockNumber Z.le). rewrite flows_after_blocks. constructor.
  - apply StronglySorted_fmap. eapply StronglySorted_impl; [|exact Hs].
    intros x y. unfold le_of. rewrite <- not_true_iff_false, TokenTxList_Less_spec. unfold lex3. lia.
  - by apply Forall_fmap.
Qed.

(** Positions are not negative. *)
Definition nonneg_positions (s : TxExtractor) (token : Address) : Prop :=
  ∀ user t, t ∈ transfers s user token → 0 ≤ tt_BlockNumber t ∧ 0 ≤ tt_TxIndex t.

Section own.
Context (so : Sorter) (s : TxExtractor) (o : RangeOracle) (os : Address → RangeOracle).
Context (m : UserTokenFlowMap) (uns : gmap Address Z) (txm : UserTokenTxMap) (token : Address).
Context (Hgen : GenerateUserFlow so o os s = Ret (m, uns, txm)).
Context (Hplain : plain s token) (Hpos : nonneg_positions s token).

Lemma flows_of_generated user :
  flows_of m user token = flows_after single_amt single_flowamt (ordered so s user token) ∨
  (flows_of m user token = [] ∧ transfers s user token = []).
Proof using Hgen Hplain. exact (generated_flows so s o os _ user token Hgen Hplain). Qed.

(** The flow [k] of a user and its own totals. *)
Lemma flow_at user k f :
  flows_of m user token !! k = Some f →
  0 ≤ tf_TxIndex f ∧ 0 ≤ tf_BlockNumber f ∧
  amount_like (tf_TotalDeposit f) ∧ amount_like (tf_TotalWithdraw f) ∧
  approx (length (transfers s user token)) (exact_sum "deposit" (take k (ordered so s user token)))
    (toQ (tf_TotalDeposit f)) ∧
  approx (length (transfers s user token)) (exact_sum "withdraw" (take k (ordered so s user token)))
    (toQ (tf_TotalWithdraw f)).
Proof using Hgen Hplain Hpos.
  destruct (flows_of_generated user) as [->|[-> _]]; [|done].
  unfold flows_after. destruct k as [|k]; [|rewrite lookup_cons; cbn [Nat.pred]].
  { intros [= <-]. cbn. split_and!; try lia; try apply amount_like_0;
      (apply (approx_mono 0); [lia|done|apply approx_refl]). }
  rewrite list_lookup_imap. intros (t & Ht & Hf)%fmap_Some. cbn in Hf. subst f.
  assert (t ∈ transfers s user token) as Hin.
  { apply list_elem_of_lookup_2 in Ht. apply list_elem_of_filter in Ht as [_ Ht]. by rewrite sort_perm in Ht. }
  destruct (Hpos _ _ Hin). cbn. rewrite <- (take_S_r _ _ _ Ht).
  pose proof (Forall_take _ (S k) _ (ordered_positive so s user token)) as Hall.
  pose proof (ordered_length so s user token).
  assert (length (take (S k) (ordered so s user token)) ≤ length (transfers s user token))%nat
    by (rewrite length_take; lia).
  destruct (run_total_exact "deposit" _ Hall), (run_total_exact "withdraw" _ Hall).
  split_and!; try done; (eapply approx_mono; [eassumption|by apply exact_sum_nonneg|done]).
Qed.

(** The first [k] transfers of a user can be those read at the flow [f]. *)
Definition cut_at (f : TokenFlow) (user : Address) (k : nat) : Prop :=
  match flows_of m user token with
  | [] => k = 0%nat
  | fl => ∃ g, fl !! k = Some g ∧ latest fl f g
  end.

Lemma cut_at_some f user k g :
  flows_of m user token !! k = Some g → latest (flows_of m user token) f g → cut_at f user k.
Proof. unfold cut_at. intros Hk Hl. destruct (flows_of m user token); [done|]. by exists g. Qed.

Lemma latest_first f user :
  0 ≤ tf_TxIndex f → 0 ≤ tf_BlockNumber f → flows_of m user token ≠ [] →
  skippable (flows_of m user token) f →
  flows_of m user token !! 0%nat = Some first_flow ∧ latest (flows_of m user token) f first_flow.
Proof using Hgen Hplain.
  intros Ht Hb Hne [?|(h & Hin & Hh & Hmin)]; [done|].
  destruct (flows_of_generated user) as [E|[E _]]; [|done].
  assert (flows_of m user token !! 0%nat = Some first_flow) as H0 by by rewrite E.
  assert (tf_BlockNumber h ≤ 0) as Hle by (by apply (Hmin first_flow), (list_elem_of_lookup_2 _ 0)).
  pose proof (not_after_false _ _ Hh). split; [done|]. split; [by apply not_after_first|..].
  - intros h' Hin' Hlt. specialize (Hmin h' Hin'). lia.
  - intros Hall. rewrite Hall in Hh; [done|done|lia].
Qed.

(** The totals read off the flows of a user are the sums of a cut. *)
Lemma totals_read_cut f user p :
  0 ≤ tf_TxIndex f → 0 ≤ tf_BlockNumber f → totals_read (flows_of m user token) f p →
  ∃ k, cut_at f user k ∧
    approx (S (length (transfers s user token))) (exact_sum "deposit" (take k (ordered so s user token))) (toQ p.1) ∧
    approx (S (length (transfers s user token))) (exact_sum "withdraw" (take k (ordered so s user token))) (toQ p.2).
Proof using Hgen Hplain Hpos.
  intros Ht Hb [[Hs ->]|(g & [k Hk]%list_elem_of_lookup & Hl & ->)].
  - exists 0%nat. split.
    + destruct (decide (flows_of m user token = [])) as [E|Hne]; [unfold cut_at; by rewrite E|].
      destruct (latest_first f user Ht Hb Hne Hs). by eapply cut_at_some.
    + split; (apply (approx_mono 0); [lia|done|apply approx_refl]).
  - exists k. split; [by eapply cut_at_some|].
    destruct (flow_at _ _ _ Hk) as (_ & _ & Hd & Hw & Had & Haw).
    split; (apply copy_exact; [done|apply exact_sum_nonneg, Forall_take, ordered_positive|done]).
Qed.

(** Where the flows of a user are in different blocks, the cut is exact. *)
Definition one_per_block (user : Address) : Prop := NoDup (tf_BlockNumber <$> flows_of m user token).

Lemma one_per_block_lt user i j g h :
  one_per_block user → flows_of m user token !! i = Some g → flows_of m user token !! j = Some h → (i < j)%nat →
  tf_BlockNumber g < tf_BlockNumber h.
Proof using Hgen Hplain Hpos.
  intros Hone Hi Hj Hlt. destruct (flows_of_generated user) as [E|[E _]]; [|by rewrite E in Hi].
  assert (StronglySorted (le_of TokenFlowList_Less) (flows_of m user token)) as Hs%flows_blocks_sorted.
  { rewrite E. apply flows_after_sorted; [apply ordered_sorted|]. apply Forall_forall.
    intros t [_ Ht]%list_elem_of_filter. rewrite sort_perm in Ht. by destruct (Hpos user t). }
  assert ((tf_BlockNumber <$> flows_of m user token) !! i = Some (tf_BlockNumber g)) as Ei by by rewrite list_lookup_fmap, Hi.
  assert ((tf_BlockNumber <$> flows_of m user token) !! j = Some (tf_BlockNumber h)) as Ej by by rewrite list_lookup_fmap, Hj.
  pose proof (StronglySorted_lookup _ _ _ _ _ _ Hs Hlt Ei Ej) as Hle. cbn in Hle.
  assert (tf_BlockNumber g ≠ tf_BlockNumber h); [|lia]. intros Heq. rewrite Heq in Ei.
  pose proof (NoDup_lookup _ _ _ _ Hone Ei Ej). lia.
Qed.

Lemma cut_before f user k i t :
  one_per_block user → cut_at f user k → ordered so s user token !! i = Some t →
  (i < k)%nat ↔ tx_before f t = true.
Proof using Hgen Hplain Hpos.
  intros Hone Hcut Hi. pose proof (one_per_block_lt user) as Hlt.
  destruct (flows_of_generated user) as [E|[_ E]].
  2:{ unfold ordered in Hi. rewrite E, sort_nil in Hi. done. }
  assert (flows_of m user token !! S i = Some (flow_after single_amt single_flowamt (take i (ordered so s user token)) t))
    as Hfi by (rewrite E; apply flows_after_lookup; by exists t).
  rewrite <- (not_after_flow f t single_amt single_flowamt (take i (ordered so s user token))).
  revert Hfi. generalize (flow_after single_amt single_flowamt (take i (ordered so s user token)) t). intros fi Hfi.
  assert (∃ g, flows_of m user token !! k = Some g ∧ latest (flows_of m user token) f g) as (g & Hk & [Hg Hbef Hwith]).
  { unfold cut_at in Hcut. by destruct (flows_of m user token). }
  apply not_after_true in Hg. rewrite not_after_true. split.
  - intros Hik. destruct (decide (S i = k)) as [<-|Hne]; [by simplify_eq|].
    specialize (Hlt _ _ _ _ Hone Hfi Hk). lia.
  - intros Hn. apply dec_stable. intros Hge. specialize (Hlt k (S i) g fi Hone Hk Hfi ltac:(lia)).
    pose proof (list_elem_of_lookup_2 _ _ _ Hfi) as Hin.
    destruct Hn as [Hn|[Hn Hx]]; [specialize (Hbef fi Hin Hn); lia|].
    enough (tf_BlockNumber fi ≤ tf_BlockNumber g) by lia. apply Hwith; [|done|lia].
    intros h [j Hj]%list_elem_of_lookup Hh. apply not_after_true. right.
    assert (h = fi) as ->; [|done].
    assert (j = S i) as ->; [|by simplify_eq].
    apply (NoDup_lookup _ _ _ (tf_BlockNumber f) Hone); rewrite list_lookup_fmap.
    + rewrite Hj. cbn. by rewrite Hh.
    + rewrite Hfi. cbn. by rewrite Hn.
Qed.

Lemma cut_exact f user k :
  one_per_block user → cut_at f user k → take k (ordered so s user token) ≡ₚ counted s f user token.
Proof using Hgen Hplain Hpos.
  intros Hone Hcut. rewrite <- (ordered_before so), (filter_take _ k); [done|].
  intros i t Hi. symmetry. by apply (cut_before f user).
Qed.
End own.

(** ** The generated flows are sorted and their totals are sums of amounts *)

Lemma run_total_like amt action l :
  Forall (λ t, amount_like (amt t)) l → amount_like (run_total amt action l).
Proof.
  induction l as [|t l IH] using rev_ind; intros Hl; [apply amount_like_0|].
  apply Forall_app in Hl as [Hl Ht]. apply (proj1 (Forall_singleton _ _)) in Ht.
  rewrite run_total_snoc. destruct (String.eqb _ _); [|by apply IH].
  apply amount_like_Add; [by left|by apply IH|done].
Qed.

Lemma flows_after_like amt flowamt l f :
  Forall (λ t, amount_like (amt t) ∧ amount_like (flowamt t)) l → f ∈ flows_after amt flowamt l →
  amount_like (tf_Amount f) ∧ amount_like (tf_TotalDeposit f) ∧ amount_like (tf_TotalWithdraw f).
Proof.
  intros Hl [->|Hin]%elem_of_cons; [split_and!; apply amount_like_0|].
  apply elem_of_lookup_imap_1 in Hin as (i & t & -> & Ht). cbn. rewrite <- (take_S_r _ _ _ Ht).
  apply Forall_and in Hl as [Ha Hf]. split; [|split; by apply run_total_like, Forall_take].
  rewrite Forall_forall in Hf. apply list_elem_of_lookup_2 in Ht. by apply Hf.
Qed.

Lemma amount_like_Mul x y :
  amount_like x → 64 ≤ f_prec x → 0 ≤ f_mant y → amount_like (Mul newFloat x y).
Proof.
  intros [Hx _] Hp Hy. unfold Mul. split.
  - rewrite f_mant_mk_rounded. apply rnd_nonneg. nia.
  - right. rewrite f_prec_mk_rounded. unfold op_prec, umax32. cbn. rewrite Z.gtb_ltb.
    destruct (Z.ltb_spec (f_prec y) (f_prec x)); lia.
Qed.

(** Rates of stable tokens and prices are not negative. *)
Definition nonneg_rates (s : TxExtractor) : Prop :=
  (∀ token, 0 ≤ f_mant (stable_rate (stable_of (te_StableTokenMap s) token))) ∧
  (∀ token block, 0 ≤ f_mant (swap_rate (te_TokenSwapMap s) token block)).

Lemma and_dup (P : Prop) : P → P ∧ P.
Proof. by split. Qed.

(** Every list of flows of a user is a chain of transfers with some amounts. *)
Definition chain (s : TxExtractor) (fl : list TokenFlow) : Prop :=
  ∃ amt flowamt l, fl = flows_after amt flowamt l ∧ StronglySorted (le_of TokenTxList_Less) l ∧
    (∀ t, t ∈ l → ∃ user token, t ∈ transfers s user token) ∧
    (nonneg_rates s → Forall (λ t, amount_like (amt t) ∧ amount_like (flowamt t)) l).

Section chains.
Context (so : Sorter) (s : TxExtractor) (user : Address) (txs : TokenTxMap).
Context (Huser : te_UserTokenTxMap s !! user = Some txs).

Lemma chain_of (P : TokenTx → Prop) `{∀ t, Decision (P t)} amt flowamt l :
  (∀ t, P t → pos_amount t = true) →
  (∀ t, t ∈ l → ∃ token, t ∈ transfers s user token) →
  (nonneg_rates s → ∀ t, P t → amount_like (amt t) ∧ amount_like (flowamt t)) →
  chain s (fs_flows (foldl (push amt flowamt) init_flow (filter P (sort_by so TokenTxList_Less l)))).
Proof.
  intros Hpos Hin Hlike. rewrite push_spec. cbn [fs_flows]. eexists _, _, _. split; [done|]. split_and!.
  - apply StronglySorted_filter, sort_sorted. auto with idw.
  - intros t [_ Ht]%list_elem_of_filter. rewrite sort_perm in Ht. destruct (Hin t Ht) as [token ?]. by exists user, token.
  - intros Hr. apply Forall_forall. intros t [HP _]%list_elem_of_filter. by apply Hlike.
Qed.

Lemma concat_transfers (entries : list (Address * list TokenTx)) t :
  (∀ e, e ∈ entries → txs !! e.1 = Some e.2) → t ∈ concat entries.*2 → ∃ token, t ∈ transfers s user token.
Proof using Huser.
  intros He Ht. apply elem_of_concat in Ht as (l & Ht & Hl).
  apply list_elem_of_fmap in Hl as (e & -> & Hin). exists e.1.
  unfold transfers. rewrite Huser. cbn. by rewrite (He _ Hin).
Qed.

Lemma user_chains flows token fl :
  flow_spec so s txs flows → flows !! token = Some fl → chain s fl.
Proof using Huser.
  intros [Ht Hc Hm Ho] Hfl.
  assert (∀ e, e ∈ map_to_list txs → txs !! e.1 = Some e.2) as He by (intros []; apply elem_of_map_to_list).
  destruct (decide (token = MERGED)) as [->|Hne].
  { destruct Hm as (l & Hl & Hf). rewrite Hfl in Hf. injection Hf as ->. unfold merged_txs.
    apply (chain_of _ _ _ l); [by intros t [? _]%andb_true_iff|intros t Htl; rewrite Hl in Htl; by eapply concat_transfers|].
    intros [Hr1 Hr2] t [Hpos Hrate]%andb_true_iff. apply and_dup, amount_like_Mul.
    - apply amount_like_SetInt. unfold pos_amount in Hpos. apply Z.gtb_lt in Hpos. unfold amount_of. lia.
    - apply SetInt_prec.
    - unfold merged_rate. repeat case_match; cbn; auto; done. }
  destruct (Ho token) as [Hres|([l Hl] & Hsk & Hnr)]; [by eexists| |].
  - destruct (Hc token Hne Hres) as (l & Hl & Hf). rewrite Hfl in Hf. injection Hf as ->. unfold stable_flows.
    apply (chain_of _ _ _ l); [done| |].
    + intros t Htl. rewrite Hl in Htl. unfold class_of, class_txs in Htl. eapply concat_transfers, Htl.
      intros e [_ Hin]%list_elem_of_filter. by apply He.
    + intros [Hr1 _] t Hpos. apply and_dup, amount_like_Mul; [by apply single_amt_like|apply SetInt_prec|apply Hr1].
  - rewrite (Ht _ _ Hl Hsk Hnr) in Hfl. injection Hfl as <-. unfold token_flows.
    eexists _, _, _. split; [done|]. split_and!.
    + apply StronglySorted_filter, sort_sorted. auto with idw.
    + intros t [_ Htl]%list_elem_of_filter. rewrite sort_perm in Htl. exists user, token.
      unfold transfers. rewrite Huser. cbn. by rewrite Hl.
    + intros _. apply Forall_forall. intros t [? _]%list_elem_of_filter. split; [|apply amount_like_copy]; by apply single_amt_like.
Qed.
End chains.

(** ** The detection against exact sums *)

Section detection.
Context (so : Sorter) (s : TxExtractor) (o : RangeOracle) (os : Address → RangeOracle).
Context (m : UserTokenFlowMap) (uns : gmap Address Z) (txm : UserTokenTxMap).
Context (Hgen : GenerateUserFlow so o os s = Ret (m, uns, txm)).
Context (Hpos : ∀ token, nonneg_positions s token) (Hrates : nonneg_rates s).

Lemma generated_chain user token : flows_of m user token = [] ∨ chain s (flows_of m user token).
Proof using Hgen.
  assert (all_complete s) as Hc by (apply (GenerateUserFlow_ret so s o os); by eexists).
  destruct (GenerateUserFlow_complete so s o os Hc) as (r' & Hr' & Hs & Hn). rewrite Hgen in Hr'. injection Hr' as <-.
  cbn [fst snd] in Hs, Hn. unfold flows_of. destruct (te_UserTokenTxMap s !! user) as [txs|] eqn:Eu.
  - destruct (Hs _ _ Eu) as (flows & -> & Hspec). cbn.
    destruct (flows !! token) as [fl|] eqn:Ef; cbn; [right|by left]. by eapply user_chains.
  - left. by rewrite (Hn _ Eu).
Qed.

Lemma generated_sorted : flows_sorted m.
Proof using Hgen Hpos.
  intros user token. destruct (generated_chain user token) as [->|(amt & fa & l & -> & Hs & Hin & _)]; [constructor|].
  apply flows_after_sorted; [done|]. apply Forall_forall. intros t Ht.
  destruct (Hin t Ht) as (u & tok & Hu). by destruct (Hpos _ _ _ Hu).
Qed.

Lemma generated_amounts : flows_amounts m.
Proof using Hgen Hrates.
  intros user token f Hf. destruct (generated_chain user token) as [E|(amt & fa & l & E & _ & _ & Hl)];
    rewrite E in Hf; [by apply not_elem_of_nil in Hf|]. by eapply flows_after_like; [apply Hl|].
Qed.

Lemma generated_flow_amounts user token : Forall (λ f, amount_like (tf_Amount f)) (flows_of m user token).
Proof using Hgen Hrates.
  apply Forall_forall. intros f Hf. destruct (generated_chain user token) as [E|(amt & fa & l & E & _ & _ & Hl)];
    rewrite E in Hf; [by apply not_elem_of_nil in Hf|]. by eapply flows_after_like; [apply Hl|].
Qed.

(** The transfers that decide at the flow [k] of a user: its own up to the flow,
    and for each of the [reads] the first transfers of a user. *)
Definition deciding_sum (action : string) (user token : Address) (k : nat) (reads : list (Address * nat)) : Q :=
  (exact_sum action (take k (ordered so s user token)) +
   sumQ ((λ e, exact_sum action (take e.2 (ordered so s e.1 token))) <$> reads))%Q.

Lemma prefix_sum_nonneg action user token k : (0 <= exact_sum action (take k (ordered so s user token)))%Q.
Proof. apply exact_sum_nonneg, Forall_take, ordered_positive. Qed.

Lemma deciding_sum_nonneg action user token k reads : (0 <= deciding_sum action user token k reads)%Q.
Proof.
  pose proof (prefix_sum_nonneg action user token k).
  assert (0 <= sumQ ((λ e, exact_sum action (take e.2 (ordered so s e.1 token))) <$> reads))%Q.
  { apply sumQ_nonneg, Forall_fmap, Forall_forall. intros u _. apply prefix_sum_nonneg. }
  unfold deciding_sum. lra.
Qed.

Context (user token : Address) (Hplain : plain s token).
Context (K : nat) (HK : ∀ u, (length (transfers s u token) ≤ K)%nat).

(** The users whose totals count at the flow [f], each once, with the number of its
    transfers that are read. *)
Record counted_reads (f : TokenFlow) (reads : list (Address * nat)) : Prop := {
  cr_nodup : NoDup reads.*1;
  cr_reach : ∀ x, x ∈ reads.*1 ↔ reach (te_UserRelatedMap s) (te_CommonAddressMap s) (tf_BlockNumber f) user x;
  cr_cut : Forall (λ e, cut_at m token f e.1 e.2) reads
}.

Definition roundings (reads : list (Address * nat)) : nat := S K + S (length reads).

(** A user, the number of its transfers that are read, and the totals. *)
Definition read_entry (f : TokenFlow) (x : Address * nat * (Float * Float)) : Prop :=
  cut_at m token f x.1.1 x.1.2 ∧
  approx (S K) (exact_sum "deposit" (take x.1.2 (ordered so s x.1.1 token))) (toQ x.2.1) ∧
  approx (S K) (exact_sum "withdraw" (take x.1.2 (ordered so s x.1.1 token))) (toQ x.2.2).

Lemma log_reads f (log : VisitLog) :
  0 ≤ tf_TxIndex f → 0 ≤ tf_BlockNumber f →
  Forall (λ e, totals_read (flows_of m e.1 token) f e.2) log →
  ∃ xs, log = (λ x, (x.1.1, x.2)) <$> xs ∧ Forall (read_entry f) xs.
Proof using Hgen Hpos Hplain HK.
  intros Ht Hb. induction 1 as [|[u p] log Hr _ (xs & -> & Hxs)]; [by exists []|].
  edestruct totals_read_cut as (k & Hk & Hd & Hw); [exact Hgen|done|apply Hpos|done|done|exact Hr|].
  exists ((u, k, p) :: xs). split; [done|]. constructor; [|done]. cbn.
  split_and!; [done|..]; (eapply approx_mono; [|apply prefix_sum_nonneg|eassumption]); specialize (HK u); cbn; lia.
Qed.

(** One of the two totals. *)
Lemma decisive_one (sel : Float * Float → Float) action k base (xs : list (Address * nat * (Float * Float))) x :
  amount_like base →
  approx (length (transfers s user token)) (exact_sum action (take k (ordered so s user token))) (toQ base) →
  Forall (λ x, approx (S K) (exact_sum action (take x.1.2 (ordered so s x.1.1 token))) (toQ (sel x.2))) xs →
  approx (S (length xs)) (toQ (copy base) + sumQ ((λ x, toQ (sel x.2)) <$> xs)) x →
  approx (S K + S (length xs)) (deciding_sum action user token k xs.*1) x.
Proof using HK.
  intros Hbl Hbase Hothers Hx.
  eapply approx_trans; [apply deciding_sum_nonneg| |exact Hx].
  unfold deciding_sum. apply approx_plus.
  - apply copy_exact; [done|apply prefix_sum_nonneg|].
    eapply approx_mono; [apply HK|apply prefix_sum_nonneg|exact Hbase].
  - rewrite <- list_fmap_compose. apply approx_sumQ. eapply Forall_impl; [exact Hothers|].
    intros e He. cbn. split; [apply prefix_sum_nonneg|exact He].
Qed.

Lemma decisive_exact k f d w :
  flows_of m user token !! k = Some f → decisive s m user token f d w →
  ∃ reads, counted_reads f reads ∧ amount_like d ∧ amount_like w ∧
    approx (roundings reads) (deciding_sum "deposit" user token k reads) (toQ d) ∧
    approx (roundings reads) (deciding_sum "withdraw" user token k reads) (toQ w).
Proof using Hgen Hpos Hplain HK.
  intros Hk (log & Hnd & Hreach & Hown & [Hd Hw Hsd Hsw]).
  edestruct flow_at as (Ht & Hb & Hfd & Hfw & Had & Haw); [exact Hgen|done|apply Hpos|exact Hk|].
  destruct (log_reads f log Ht Hb Hown) as (xs & -> & Hxs).
  assert (((λ x : Address * nat * (Float * Float), (x.1.1, x.2)) <$> xs).*1 = xs.*1.*1) as E
    by (by rewrite <- !list_fmap_compose).
  rewrite E in *. unfold roundings. cbn [length fmap list_fmap sumQ foldr fst snd copies] in Hsd, Hsw.
  rewrite length_fmap, <- list_fmap_compose in *.
  exists xs.*1. rewrite length_fmap. split; [split; [done..|]|].
  { apply Forall_fmap. eapply Forall_impl; [exact Hxs|]. by intros ? (? & _). }
  split_and!; [done..| |].
  - eapply (decisive_one fst); [exact Hfd|done| |exact Hsd]. eapply Forall_impl; [exact Hxs|]. by intros ? (_ & ? & _).
  - eapply (decisive_one snd); [exact Hfw|done| |exact Hsw]. eapply Forall_impl; [exact Hxs|]. by intros ? (_ & _ & ?).
Qed.

(** Bounds of the sums between which rounding may decide either way. *)
Definition clearly_abnormal (n : nat) (D W : Q) : Prop :=
  (0 < W ∧ inject_Z 3 * (D * powQ (1 + unit64) n) <= W * powQ (1 - unit64) n)%Q.

Definition possibly_abnormal (n : nat) (D W : Q) : Prop :=
  (0 < W ∧ below3 * (D * powQ (1 - unit64) n) < W * powQ (1 + unit64) n)%Q.

Lemma powQ_low_pos n : (0 < powQ (1 - unit64) n)%Q.
Proof.
  induction n as [|n IH]; cbn [powQ]; [done|].
  apply Qmult_lt_0_compat; [by vm_compute|done].
Qed.

Lemma abnormal_clearly n D W d w :
  amount_like d → amount_like w → approx n D (toQ d) → approx n W (toQ w) →
  clearly_abnormal n D W → abnormal d w = Ret true.
Proof.
  intros Hd Hw [_ Had] [Haw _] [HposW Hc]. pose proof (powQ_low_pos n). apply abnormal_complete; [done..| |].
  - eapply Qlt_le_trans; [|exact Haw]. by apply Qmult_lt_0_compat.
  - unfold inject_Z in *. lra.
Qed.

Lemma abnormal_possibly n D W d w :
  amount_like d → amount_like w → (0 <= W)%Q → approx n D (toQ d) → approx n W (toQ w) →
  abnormal d w = Ret true → possibly_abnormal n D W.
Proof.
  intros Hd Hw HW [Had _] [_ Haw] Ha. destruct (abnormal_sound _ _ Hd Hw Ha) as [HposW Hlt]. split.
  - destruct (Qlt_le_dec 0 W) as [|Hle]; [done|]. exfalso. assert (W == 0)%Q as E by lra.
    rewrite E in Haw. lra.
  - assert (0 < below3)%Q by by vm_compute.
    apply Qle_lt_trans with (below3 * toQ d)%Q; [|lra]. rewrite !(Qmult_comm below3).
    apply Qmult_le_compat_r; lra.
Qed.

Lemma attack_exact f i :
  f ∈ flows_of m user token → attack_at s m user token f i →
  ∃ k reads, flows_of m user token !! k = Some f ∧ counted_reads f reads ∧
    possibly_abnormal (roundings reads) (deciding_sum "deposit" user token k reads)
      (deciding_sum "withdraw" user token k reads).
Proof using Hgen Hpos Hplain HK.
  intros [k Hk]%list_elem_of_lookup (_ & _ & _ & Hdec & Hab).
  eapply decisive_exact in Hdec as (reads & Hu & Hd & Hw & Hsd & Hsw); [|exact Hk].
  exists k, reads. split_and!; [done..|].
  eapply abnormal_possibly; [exact Hd|exact Hw|apply deciding_sum_nonneg|done..].
Qed.

Lemma normal_exact k f :
  flows_of m user token !! k = Some f → normal_at s m user token f → tf_Action f ≠ "deposit" →
  ∃ reads, counted_reads f reads ∧
    ¬ clearly_abnormal (roundings reads) (deciding_sum "deposit" user token k reads)
        (deciding_sum "withdraw" user token k reads).
Proof using Hgen Hpos Hplain HK.
  intros Hk [?|(d & w & Hdec & Hab)] Ha; [done|].
  eapply decisive_exact in Hdec as (reads & Hu & Hd & Hw & Hsd & Hsw); [|exact Hk].
  exists reads. split; [done|]. intros Hc.
  pose proof (abnormal_clearly _ _ _ _ _ Hd Hw Hsd Hsw Hc). congruence.
Qed.
End detection.

(** * Properties of the flows grouped by transaction

    [MergeFlowInTx] sums the amounts of the flows of each transaction: the keys
    of different transactions are different strings. *)

#[local] Open Scope Z_scope.

(** ** Keys *)

Fixpoint no_sep (s : string) : Prop :=
  match s with EmptyString => True | String c s' => c ≠ Ascii.ascii_of_nat 95 ∧ no_sep s' end.

Lemma no_sep_pretty_N_go x s : no_sep s → no_sep (pretty_N_go x s).
Proof.
  revert s. induction (N.lt_wf_0 x) as [x _ IH]; intros s Hs.
  destruct (decide (0 < x)%N) as [Hx|].
  - rewrite pretty_N_go_step by done. apply IH; [by apply N.div_lt|]. split; [|done].
    unfold pretty_N_char. by repeat case_match.
  - replace x with 0%N by lia. by rewrite pretty_N_go_0.
Qed.

Lemma no_sep_pretty_N (x : N) : no_sep (pretty x).
Proof.
  unfold pretty, pretty_N. case_decide; [by split|]. by apply no_sep_pretty_N_go.
Qed.

Lemma no_sep_pretty (x : Z) : no_sep (pretty x).
Proof.
  destruct x as [|p|p]; cbn; [by split|apply no_sep_pretty_N|]. split; [done|apply no_sep_pretty_N].
Qed.

Lemma sep_unique a b a' b' :
  no_sep a → no_sep a' →
  String.append a (String.append "_" b) = String.append a' (String.append "_" b') → a = a' ∧ b = b'.
Proof.
  revert a'. induction a as [|c a IH]; intros [|c' a'] Ha Ha' H; cbn in *.
  - split; [done|]. by injection H.
  - injection H as Hc _. by destruct Ha' as [[] _].
  - injection H as Hc _. by destruct Ha as [[] _].
  - destruct Ha as [_ Ha], Ha' as [_ Ha']. injection H as -> H. by destruct (IH a' Ha Ha' H) as [-> ->].
Qed.

Lemma block_tx_inj b t b' t' : block_tx b t = block_tx b' t' → b = b' ∧ t = t'.
Proof.
  intros H. apply sep_unique in H as [H1 H2]; [|apply no_sep_pretty..].
  by apply (inj pretty) in H1; apply (inj pretty) in H2.
Qed.

(** ** Sums *)

(** The flows of a transaction. *)
Definition flows_in (b t : Z) (l : list TokenFlow) : list TokenFlow :=
  filter (λ f, tf_BlockNumber f = b ∧ tf_TxIndex f = t) l.

Definition sum_action (action : string) (d : Float) (l : list TokenFlow) : Float :=
  foldl (λ d f, if String.eqb (tf_Action f) action then Add d d (tf_Amount f) else d) d l.

(** The entry of a transaction after more flows. *)
Definition entry_after (b t : Z) (e : option TokenFlowTx) (l : list TokenFlow) : option TokenFlowTx :=
  match l with
  | [] => e
  | _ =>
      let e := default (mkTokenFlowTx b t newFloat newFloat) e in
      Some (mkTokenFlowTx (tx_BlockNumber e) (tx_TxIndex e)
              (sum_action "deposit" (tx_TotalDeposit e) l) (sum_action "withdraw" (tx_TotalWithdraw e) l))
  end.

Lemma merge_flow_lookup m f b t :
  merge_flow m f !! block_tx b t = entry_after b t (m !! block_tx b t) (flows_in b t [f]).
Proof.
  unfold merge_flow, flows_in. rewrite filter_cons, filter_nil. case_decide as H.
  - destruct H as [-> ->]. rewrite lookup_insert_eq. cbn.
    set (e := default _ _). destruct e as [eb et d w]. cbn.
    destruct (String.eqb_spec (tf_Action f) "deposit") as [->|]; [done|].
    by destruct (String.eqb_spec (tf_Action f) "withdraw").
  - rewrite lookup_insert_ne; [done|]. intros E. apply H. by apply block_tx_inj in E.
Qed.

Lemma entry_after_app b t e l1 l2 :
  entry_after b t e (l1 ++ l2) = entry_after b t (entry_after b t e l1) l2.
Proof.
  destruct l1 as [|f1 l1]; [done|]. destruct l2 as [|f2 l2]; [by rewrite app_nil_r|].
  cbn -[sum_action]. unfold sum_action. by rewrite !app_comm_cons, !foldl_app.
Qed.

Lemma merge_flows_lookup m l b t :
  foldl merge_flow m l !! block_tx b t = entry_after b t (m !! block_tx b t) (flows_in b t l).
Proof.
  revert m. induction l as [|f l IH]; intros m; [done|].
  cbn [foldl]. rewrite IH, merge_flow_lookup, <- entry_after_app. f_equal. unfold flows_in.
  by rewrite <- filter_app.
Qed.

Lemma MergeFlowInTx_lookup m user token fl b t :
  m !! user ≫= (.!! token) = Some fl →
  (tm ← MergeFlowInTx m !! user; fm ← tm !! token; fm !! block_tx b t) =
  entry_after b t None (flows_in b t fl).
Proof.
  intros H. unfold MergeFlowInTx. rewrite lookup_fmap.
  destruct (m !! user) as [tm|]; cbn in *; [|done]. rewrite lookup_fmap, H. cbn.
  rewrite merge_flows_lookup. by rewrite lookup_empty.
Qed.

(** The totals of a transaction, up to one rounding per flow. *)
Lemma sum_action_approx action d e n l :
  amount_like d → (0 <= e)%Q → approx n e (toQ d) → Forall (λ f, amount_like (tf_Amount f)) l →
  amount_like (sum_action action d l) ∧
  approx (n + length l) (e + sumQ ((λ f, toQ (tf_Amount f)) <$> filter (λ f, tf_Action f = action) l))
    (toQ (sum_action action d l)).
Proof.
  intros Hd He Hn Hl. revert d e n Hd He Hn. induction Hl as [|f l Hf Hl IH]; intros d e n Hd He Hn.
  { split; [done|]. cbn. rewrite Nat.add_0_r, Qplus_0_r. done. }
  cbn [sum_action foldl]. rewrite filter_cons. pose proof (amount_like_nonneg _ Hf).
  destruct (String.eqb_spec (tf_Action f) action); case_decide; try done.
  - destruct (IH (Add d d (tf_Amount f)) (e + toQ (tf_Amount f))%Q (S n)) as [H1 H2].
    + by apply amount_like_Add; [right|..].
    + apply Qle_trans with (0 + 0)%Q; [done|]. by apply Qplus_le_compat.
    + rewrite <- (Nat.max_0_r n). apply approx_Add; [by right|done..|apply approx_refl].
    + split; [done|]. cbn. rewrite Qplus_assoc. replace (n + S (length l))%nat with (S n + length l)%nat by lia. done.
  - destruct (IH d e n) as [H1 H2]; [done..|]. split; [done|].
    eapply approx_mono; [| |exact H2]; [cbn; lia|].
    apply Qle_trans with (0 + 0)%Q; [done|]. apply Qplus_le_compat; [done|].
    apply sumQ_nonneg, Forall_fmap, Forall_forall. intros g [_ Hg]%list_elem_of_filter. cbn.
    apply amount_like_nonneg. rewrite Forall_forall in Hl. by apply Hl.
Qed.

(** ** [CheckAttackInTx] returns *)

(** The totals of every transaction of every user and token can be added up. *)
Definition tx_amounts (m : UserTokenFlowTxMap) : Prop :=
  map_Forall (λ _ tm, map_Forall (λ _ fm, map_Forall
    (λ _ e, amount_like (tx_TotalDeposit e) ∧ amount_like (tx_TotalWithdraw e)) fm) tm) m.

Lemma merge_flow_like (fm : gmap string TokenFlowTx) f :
  amount_like (tf_Amount f) →
  map_Forall (λ _ e, amount_like (tx_TotalDeposit e) ∧ amount_like (tx_TotalWithdraw e)) fm →
  map_Forall (λ _ e, amount_like (tx_TotalDeposit e) ∧ amount_like (tx_TotalWithdraw e)) (merge_flow fm f).
Proof.
  intros Hf Hfm. unfold merge_flow. set (e := default _ _).
  assert (amount_like (tx_TotalDeposit e) ∧ amount_like (tx_TotalWithdraw e)) as [Hd Hw].
  { subst e. destruct (fm !! _) as [e|] eqn:E; cbn; [by apply (Hfm _ _ E)|split; apply amount_like_0]. }
  apply map_Forall_insert_2; [|done].
  destruct (String.eqb (tf_Action f) "deposit"); [|destruct (String.eqb (tf_Action f) "withdraw"); [|by split]];
    cbn; split; try done; by apply amount_like_Add; [right|..].
Qed.

Lemma MergeFlowInTx_like (m : UserTokenFlowMap) :
  (∀ user token, Forall (λ f, amount_like (tf_Amount f)) (flows_of m user token)) → tx_amounts (MergeFlowInTx m).
Proof.
  intros Hm user tm Hu token fm Ht. unfold MergeFlowInTx in Hu. rewrite lookup_fmap in Hu.
  apply fmap_Some in Hu as (tm0 & Hu & ->). rewrite lookup_fmap in Ht. apply fmap_Some in Ht as (l & Hl & ->).
  assert (Forall (λ f, amount_like (tf_Amount f)) l) as Hall.
  { specialize (Hm user token). unfold flows_of in Hm. rewrite Hu in Hm. cbn in Hm. by rewrite Hl in Hm. }
  assert (map_Forall (λ _ e, amount_like (tx_TotalDeposit e) ∧ amount_like (tx_TotalWithdraw e))
    (∅ : gmap string TokenFlowTx)) as H0 by apply map_Forall_empty.
  clear Hl. revert H0. generalize (∅ : gmap string TokenFlowTx). induction Hall as [|f l Hf _ IH]; intros fm Hfm; [done|].
  by apply IH, merge_flow_like.
Qed.

Lemma unit64_lt : (0 < 1 - unit64)%Q.
Proof. by vm_compute. Qed.

Section in_tx.
Context (s : TxExtractor) (m : UserTokenFlowTxMap) (Hm : tx_amounts m).

Lemma own_flow_tx_like token key st u d w st' :
  own_flow_tx m token key st u = (d, w, st') → amount_like d ∧ amount_like w.
Proof using Hm.
  unfold own_flow_tx, txs_flow. destruct (m !! u) as [tm|] eqn:Eu; cbn; [|by intros [= <- <- <-]; split; apply amount_like_0].
  destruct (tm !! token) as [fm|] eqn:Et; cbn; [|by intros [= <- <- <-]; split; apply amount_like_0].
  destruct (fm !! key) as [e|] eqn:Ek; [|by intros [= <- <- <-]; split; apply amount_like_0].
  intros [= <- <- <-]. destruct (Hm _ _ Eu _ _ Et _ _ Ek). split; by apply amount_like_copy.
Qed.

Lemma check_tx_total o user token reports key f tm fm :
  m !! user = Some tm → tm !! token = Some fm → fm !! key = Some f →
  ∃ reports', check_tx s o m user token reports (key, f) = Some (Ret reports').
Proof using Hm.
  intros Hu Ht Hk. destruct (Hm _ _ Hu _ _ Ht _ _ Hk) as [Hd Hw]. unfold check_tx.
  destruct (is_gt _) eqn:E; [|by eexists]. apply Cmp_newFloat in E.
  match goal with |- context [add_related ?o ?a ?b ?c ?d _ ?u ?x ?y ?z] =>
    destruct (add_related_total o a b c d u x y z) as [t Et] end. rewrite Et. cbn [mbind option_bind].
  assert (0 < f_mant (to_deposit t)) as Hpos.
  { apply (add_related_logged _ _ _ _ _ (λ _, True) (λ _ _ _, True)) in Et as (_ & log & Hlog & [Hsd _ Hs _]).
    - apply toQ_pos. destruct Hs as [Hs _]. cbn [fmap list_fmap sumQ foldr fst snd length] in Hs.
      assert (0 < toQ (Add newFloat (tx_TotalDeposit f) newFloat))%Q as Hown.
      { apply toQ_pos in E. destruct (Add_near newFloat (tx_TotalDeposit f) newFloat) as [Hn _];
          [by left|done|apply amount_like_0|]. eapply Qlt_le_trans; [|exact Hn].
        apply Qmult_lt_0_compat; [|apply unit64_lt]. rewrite newFloat_val. by rewrite Qplus_0_r. }
      pose proof (proj1 (log_nonneg log (log_entry_like _ _ (log_own _ _ _ _ Hlog)))) as Hl.
      eapply Qlt_le_trans; [|exact Hs]. apply Qmult_lt_0_compat; [|apply powQ_low_pos].
      eapply Qlt_le_trans; [exact Hown|]. rewrite <- (Qplus_0_r (toQ _)) at 1. by apply Qplus_le_compat; [apply Qle_refl|].
    - intros st u d w st' _ Ho. split; [done|]. split; [done|]. by eapply own_flow_tx_like.
    - done.
    - split; by apply amount_like_copy. }
  unfold rate_gt_const. destruct (Quo_ret (to_withdraw t) (to_deposit t) Hpos) as [r ->]. by eexists.
Qed.

Lemma CheckAttackInTx_loop o os :
  ∃ reports, run_foldl (check_user_txs s os o m) [] (range_map o 0 m) = Some (Ret reports).
Proof using Hm.
  apply run_foldl_returns. intros reports [user tm] Hin%elem_of_range_map. unfold check_user_txs.
  case_bool_decide; [by eexists|]. destruct (_ >? 0); [by eexists|].
  apply run_foldl_returns. intros reports' [token fm] Ht%elem_of_range_map.
  apply run_foldl_returns. intros reports'' [key f] Hk%elem_of_range_map.
  exact (check_tx_total (os user token key) user token reports'' key f tm fm Hin Ht Hk).
Qed.
End in_tx.

Lemma CheckAttackInTx_returns s o os flows :
  (∀ user token, Forall (λ f, amount_like (tf_Amount f)) (flows_of flows user token)) →
  ∃ reports, CheckAttackInTx s o os flows = Some (Ret reports).
Proof. intros Hf. by apply CheckAttackInTx_loop, MergeFlowInTx_like. Qed.
