(* ===== verification/HunterSpec.v ===== *)
(** * What the detector guarantees

    The main properties of the packages under hunter/defi, each with a witness
    on a small history: a user deposits 10 and later withdraws 50 of a token that
    a related user deposited 1 of. *)

From S2P Require Import Prelude BigFloat Approx Common Abi Tx Extractor Flow.
From S2P Require Import ExtractorFacts RelatedFacts FlowFacts CheckFacts DetectFacts.
From Stdlib Require Import QArith.
#[local] Open Scope Z_scope.

(** ** A small history *)

Definition demo_tx (block : Z) (action : string) (amount : Z) : TokenTx :=
  mkTokenTx block 0 0 7 8 (Some amount) 100 action.

Definition demo_txs : UserTokenTxMap := {[
  10 := {[ 100 := [demo_tx 6 "withdraw" 50; demo_tx 5 "deposit" 10] ]};
  20 := {[ 100 := [demo_tx 3 "deposit" 1] ]}
]}.

Definition no_proxy : ProxyInfo := Build_ProxyInfo "demo" None ∅ ∅ [] [].

Definition demo_extractor : TxExtractor :=
  mkTxExtractor ∅ no_proxy ∅ demo_txs {[ 10 := {[ 20 := 2 ]} ]} ∅ ∅ ∅ (Some ∅) "" ∅ ∅ ∅ ∅ 0.

Definition demo_flows : UserTokenFlowMap :=
  match GenerateUserFlow insertion_sorter range_id (λ _, range_id) demo_extractor with
  | Ret (m, _, _) => m
  | Panic _ => ∅
  end.

Definition all_transfers (P : TokenTx → Prop) : Prop :=
  map_Forall (λ _ txs, map_Forall (λ _ l, Forall P l) txs) demo_txs.

Lemma demo_complete : all_complete demo_extractor.
Proof.
  assert (all_transfers has_amount) as H by decide_now.
  intros user txs Hu token l Hl. by eapply (H user txs Hu token).
Qed.

Lemma demo_generates :
  ∃ uns txm, GenerateUserFlow insertion_sorter range_id (λ _, range_id) demo_extractor = Ret (demo_flows, uns, txm).
Proof.
  unfold demo_flows.
  destruct (proj2 (GenerateUserFlow_ret insertion_sorter demo_extractor range_id (λ _, range_id)) demo_complete)
    as [[[m u] t] ->].
  by exists u, t.
Qed.

Lemma demo_positions token : nonneg_positions demo_extractor token.
Proof.
  assert (all_transfers (λ t, 0 ≤ tt_BlockNumber t ∧ 0 ≤ tt_TxIndex t)) as H by decide_now.
  intros user t Ht. pose proof (transfers_Forall demo_extractor _ user token H) as Hall.
  rewrite Forall_forall in Hall. by apply Hall.
Qed.

Lemma demo_rates : nonneg_rates demo_extractor.
Proof.
  split; intros.
  - unfold stable_of. cbn [te_StableTokenMap demo_extractor]. rewrite lookup_empty. by vm_compute.
  - unfold swap_rate. cbn [te_TokenSwapMap demo_extractor]. rewrite lookup_empty. rewrite lookup_empty. by vm_compute.
Qed.

Lemma demo_plain : plain demo_extractor 100.
Proof. split_and!; [reflexivity|done|]. intros t st H. by vm_compute in H. Qed.

Lemma demo_bound u : (length (transfers demo_extractor u 100) ≤ 2)%nat.
Proof.
  unfold transfers. cbn [te_UserTokenTxMap demo_extractor].
  assert (map_Forall (λ _ (txs : TokenTxMap), Nat.le (length (default [] (txs !! 100))) 2) demo_txs) as H
    by decide_now.
  destruct (demo_txs !! u) as [txs|] eqn:E; cbn; [by eapply H|lia].
Qed.

Lemma demo_reach x :
  x ∈ [20] ↔ reach (te_UserRelatedMap demo_extractor) (te_CommonAddressMap demo_extractor) 6 10 x.
Proof.
  destruct (add_related range_id (te_UserRelatedMap demo_extractor) (te_CommonAddressMap demo_extractor) 6
    (λ st _, (newFloat, newFloat, st)) 2 10 newFloat newFloat tt) as [t|] eqn:E; [|by vm_compute in E].
  rewrite <- (add_related_reach _ _ _ _ _ _ _ _ _ _ _ E).
  vm_compute in E. injection E as <-. cbn [to_used].
  rewrite list_elem_of_singleton. transitivity (x ∈ ({[20]} : gset Address)); [by rewrite elem_of_singleton|done].
Qed.

(** ** The detection *)

(** C1: A report of [CheckAttack] on generated flows is justified, whatever the sort
    does with flows of one block: the user is not a common address, and at the
    reported flow, which is not a deposit, the exact sums of the user's transfers up
    to it and of those read of each user reachable over relations known by its block,
    each counted once, exceed the abnormal rate up to the roundings of the
    computation.  Of a user are read the transfers up to one of the last block with
    transfers at or before the flow, and exactly those at or before the flow when the
    user has at most one in each block. *)
Theorem detection_sound so s o os m uns txm user token K o' os' am found m' i :
  GenerateUserFlow so o os s = Ret (m, uns, txm) →
  (∀ token, nonneg_positions s token) → nonneg_rates s →
  plain s token → (∀ u, (length (transfers s u token) ≤ K)%nat) →
  CheckAttack so s o' os' user m = Some (Ret (am, found, m')) → am !! token = Some i →
  te_CommonAddressMap s !! user = None ∧
  ∃ k f reads, flows_of m user token !! k = Some f ∧ tf_Action f ≠ "deposit" ∧
    at_BlockNumber i = tf_BlockNumber f ∧ at_TokenFlowList i ≡ₚ flows_of m user token ∧
    counted_reads s m user token f reads ∧
    possibly_abnormal (roundings K reads) (deciding_sum so s "deposit" user token k reads)
      (deciding_sum so s "withdraw" user token k reads) ∧
    ∀ u n, (u, n) ∈ reads → one_per_block m token u → take n (ordered so s u token) ≡ₚ counted s f u token.
Proof.
  intros Hgen Hpos Hr Hp HK Hc Hi.
  pose proof (generated_sorted _ _ _ _ _ _ _ Hgen Hpos) as Hs.
  pose proof (generated_amounts _ _ _ _ _ _ _ Hgen Hr) as Ha.
  destruct (CheckAttack_verdicts so s m Hs Ha o' os' user am found m' Hc) as (_ & _ & Hv).
  specialize (Hv token). rewrite Hi in Hv. case_decide as Hd; [|done]. split; [apply Hd|].
  destruct Hv as (f & Hf & Hat). pose proof Hat as (Hact & Hb & Hl & _).
  destruct (attack_exact so s o os m uns txm Hgen Hpos user token Hp K HK f i Hf Hat) as (k & reads & Hk & Hreads & Hab).
  exists k, f, reads. split_and!; [done..|]. intros u n Hin Hone.
  apply (cut_exact so s o os m uns txm token Hgen Hp (Hpos token)); [done|].
  pose proof (cr_cut _ _ _ _ _ _ Hreads) as Hcut. rewrite Forall_forall in Hcut. exact (Hcut _ Hin).
Qed.

Lemma detection_sound_witness :
  ∃ am found m' i, CheckAttack insertion_sorter demo_extractor range_id (λ _ _, range_id) 10 demo_flows =
      Some (Ret (am, found, m')) ∧ am !! (100 : Address) = Some i ∧
    ∃ k f reads, flows_of demo_flows 10 100 !! k = Some f ∧ tf_Action f ≠ "deposit" ∧
      at_BlockNumber i = tf_BlockNumber f ∧ counted_reads demo_extractor demo_flows 10 100 f reads ∧
      possibly_abnormal (roundings 2 reads) (deciding_sum insertion_sorter demo_extractor "deposit" 10 100 k reads)
        (deciding_sum insertion_sorter demo_extractor "withdraw" 10 100 k reads).
Proof.
  destruct demo_generates as (uns & txm & Hgen).
  destruct (CheckAttack insertion_sorter demo_extractor range_id (λ _ _, range_id) 10 demo_flows)
    as [[[[am found] m']|]|] eqn:E; [|by vm_compute in E..].
  destruct (am !! (100 : Address)) as [i|] eqn:Ei; [|by vm_compute in E; injection E as <- <- <-; vm_compute in Ei].
  exists am, found, m', i. split_and!; [done..|].
  destruct (detection_sound insertion_sorter demo_extractor range_id (λ _, range_id) demo_flows uns txm 10 100 2
    range_id (λ _ _, range_id) am found m' i Hgen demo_positions demo_rates demo_plain demo_bound E Ei)
    as (_ & k & f & reads & H1 & H2 & H3 & _ & H4 & H5 & _).
  exists k, f, reads. exact (conj H1 (conj H2 (conj H3 (conj H4 H5)))).
Defined.

(** C2: [CheckAttack] misses nothing clear: when the sums of a flow of a token,
    neither a deposit nor of a stable token, reach the abnormal rate by more than the
    roundings, for all transfers that can be read of the users related to a user that
    is not common, the user is reported for the token.  The flow is of a user that is
    not related to itself, or the only one in its block: the flows of a user related
    to itself are sorted while they are checked. *)
Theorem detection_complete so s o os m uns txm user token K o' os' am found m' k f :
  GenerateUserFlow so o os s = Ret (m, uns, txm) →
  (∀ token, nonneg_positions s token) → nonneg_rates s →
  plain s token → (∀ u, (length (transfers s u token) ≤ K)%nat) →
  CheckAttack so s o' os' user m = Some (Ret (am, found, m')) →
  te_CommonAddressMap s !! user = None → te_StableTokenMap s !! token = None →
  flows_of m user token !! k = Some f → tf_Action f ≠ "deposit" → in_place s m user token f →
  (∀ reads, counted_reads s m user token f reads →
     clearly_abnormal (roundings K reads) (deciding_sum so s "deposit" user token k reads)
       (deciding_sum so s "withdraw" user token k reads)) →
  found = true ∧ is_Some (am !! token).
Proof.
  intros Hgen Hpos Hr Hp HK Hc Hcommon Hst Hf Ha Hplace Hab.
  pose proof (generated_sorted _ _ _ _ _ _ _ Hgen Hpos) as Hs.
  pose proof (generated_amounts _ _ _ _ _ _ _ Hgen Hr) as Ham.
  destruct (CheckAttack_verdicts so s m Hs Ham o' os' user am found m' Hc) as (_ & Hfound & Hv).
  assert (is_Some (am !! token)) as Hsome; [|split; [|done]].
  - specialize (Hv token). rewrite decide_True in Hv.
    + destruct (am !! token) as [i|] eqn:E; [by eexists|]. exfalso.
      destruct (normal_exact so s o os m uns txm Hgen Hpos user token Hp K HK k f) as (reads & Hreads & Hn); [done| |done|].
      * apply Hv; [by eapply list_elem_of_lookup_2|done].
      * by apply Hn, Hab.
    + split_and!; [done| |].
      * unfold flows_of in Hf. destruct (m !! user) as [tm|]; cbn in *; [|done].
        destruct (tm !! token); [by eexists|done].
      * intros [? H]. unfold is_stable in *. congruence.
  - apply Hfound. intros ->. destruct Hsome as [? H]. by rewrite lookup_empty in H.
Qed.

(** The only transfer of the related user is read. *)
Lemma demo_reads f reads :
  tf_BlockNumber f = 6 → tf_TxIndex f = 0 → counted_reads demo_extractor demo_flows 10 100 f reads → reads = [(20, 1%nat)].
Proof.
  intros Hb Ht [Hnd Hreach Hcut]. rewrite Hb in Hreach. setoid_rewrite <- demo_reach in Hreach.
  assert (reads.*1 ≡ₚ [20]) as E%Permutation_singleton_r by by apply NoDup_Permutation, Hreach; [|apply NoDup_singleton].
  destruct reads as [|[u k] [|]]; try done. injection E as ->. do 2 f_equal.
  apply (proj1 (Forall_singleton _ _)) in Hcut. cbn [fst snd] in Hcut. unfold cut_at in Hcut.
  destruct (flows_of demo_flows 20 100) as [|g0 [|g1 [|]]] eqn:Efl; try by vm_compute in Efl.
  assert (tf_BlockNumber g0 = 0 ∧ tf_BlockNumber g1 = 3) as [H0 H1] by (vm_compute in Efl; by injection Efl as <- <-).
  destruct Hcut as (g & Hg & [_ Hbefore _]). destruct k as [|[|]]; cbn in Hg; try done. injection Hg as <-.
  specialize (Hbefore g1). rewrite H0, H1, Hb in Hbefore. exfalso.
  assert (3 ≤ 0) by (apply Hbefore; [right; by left|lia]). lia.
Qed.

Lemma detection_complete_witness :
  ∃ am found m', CheckAttack insertion_sorter demo_extractor range_id (λ _ _, range_id) 10 demo_flows =
    Some (Ret (am, found, m')) ∧ found = true ∧ is_Some (am !! (100 : Address)).
Proof.
  destruct demo_generates as (uns & txm & Hgen).
  destruct (CheckAttack_returns insertion_sorter demo_extractor range_id (λ _ _, range_id) 10 demo_flows)
    as [[[am found] m'] E].
  exists am, found, m'. split; [done|].
  destruct (flows_of demo_flows 10 100 !! 2%nat) as [f|] eqn:Ef; [|by vm_compute in Ef].
  assert (tf_BlockNumber f = 6 ∧ tf_TxIndex f = 0 ∧ tf_Action f = "withdraw") as (Hb & Ht & Ha)
    by (vm_compute in Ef; injection Ef as <-; split_and!; reflexivity).
  eapply (detection_complete insertion_sorter demo_extractor range_id (λ _, range_id) demo_flows uns txm 10 100 2
    range_id (λ _ _, range_id) am found m' 2 f);
    [exact Hgen|exact demo_positions|exact demo_rates|exact demo_plain|exact demo_bound|exact E|reflexivity|reflexivity|
     exact Ef|..].
  - by rewrite Ha.
  - left. rewrite Hb, <- demo_reach. by intros ?%list_elem_of_singleton.
  - intros reads ->%demo_reads; [|done..]. split; vm_compute; [reflexivity|discriminate].
Defined.

(** *** The sort decides

    Another sort that is as lawful: it puts an element before its equals. *)
Fixpoint insert_before {A} (less : A → A → bool) (x : A) (l : list A) : list A :=
  match l with
  | [] => [x]
  | y :: l' => if less y x then y :: insert_before less x l' else x :: y :: l'
  end.

Lemma insert_before_perm {A} (less : A → A → bool) x l : insert_before less x l ≡ₚ x :: l.
Proof.
  induction l as [|y l IH]; cbn; [done|]. destruct (less y x); [|done]. rewrite IH. apply Permutation_swap.
Qed.

Lemma insert_before_sorted {A} (less : A → A → bool) x l :
  StrictWeak less → StronglySorted (le_of less) l → StronglySorted (le_of less) (insert_before less x l).
Proof.
  intros Hsw. induction 1 as [|y l Hl IH Hall]; cbn; [by repeat constructor|].
  destruct (less y x) eqn:E.
  - constructor; [done|]. rewrite insert_before_perm. constructor; [by apply (sw_asym _ Hsw)|done].
  - constructor; [by constructor|]. constructor; [done|]. eapply Forall_impl; [exact Hall|]. intros z.
    by apply (sw_trans _ Hsw).
Qed.

Definition sort_before {A} (less : A → A → bool) (l : list A) : list A := foldr (insert_before less) [] (reverse l).

Lemma sort_before_perm {A} (less : A → A → bool) l : sort_before less l ≡ₚ l.
Proof.
  unfold sort_before. rewrite <- (reverse_Permutation l) at 2.
  induction (reverse l) as [|x l' IH]; cbn; [done|]. by rewrite insert_before_perm, IH.
Qed.

Lemma sort_before_sorted {A} (less : A → A → bool) l :
  StrictWeak less → StronglySorted (le_of less) (sort_before less l).
Proof.
  intros Hsw. unfold sort_before. induction (reverse l) as [|x l' IH]; cbn; [constructor|].
  by apply insert_before_sorted.
Qed.

Definition reversing_sorter : Sorter := {|
  sort_by := @sort_before;
  sort_perm := @sort_before_perm;
  sort_sorted := @sort_before_sorted
|}.

(** The related user deposits 1 and then 100 in one block. *)
Definition one_block_extractor : TxExtractor :=
  mkTxExtractor ∅ no_proxy ∅ {[
    10 := {[ 100 := [demo_tx 6 "withdraw" 50] ]};
    20 := {[ 100 := [mkTokenTx 5 0 0 7 8 (Some 1) 100 "deposit"; mkTokenTx 5 0 1 7 8 (Some 100) 100 "deposit"] ]}
  ]} {[ 10 := {[ 20 := 2 ]} ]} ∅ ∅ ∅ (Some ∅) "" ∅ ∅ ∅ ∅ 0.

(** Whether [CheckAttack] reports user 10. *)
Definition reported (so : Sorter) (s : TxExtractor) : option bool :=
  match GenerateUserFlow so range_id (λ _, range_id) s with
  | Ret (m, _, _) =>
      match CheckAttack so s range_id (λ _ _, range_id) 10 m with
      | Some (Ret (_, found, _)) => Some found
      | _ => None
      end
  | Panic _ => None
  end.

(** The same transfers are reported or not depending on how the sort orders the
    flows of one block. *)
Lemma sort_decides_report :
  reported insertion_sorter one_block_extractor = Some false ∧
  reported reversing_sorter one_block_extractor = Some true.
Proof. split; by vm_compute. Qed.

(** C3: [CheckAttack] terminates and never panics, in every state, for every order
    of the maps and every sort. *)
Theorem CheckAttack_total so s o os user m :
  ∃ am found m', CheckAttack so s o os user m = Some (Ret (am, found, m')).
Proof. destruct (CheckAttack_returns so s o os user m) as [[[am found] m'] H]. eauto. Qed.

(** C4: The abnormal condition decides the exact ratio of the totals: a ratio of
    at least 3 (or a withdrawal without deposit) is abnormal, and an abnormal pair
    exceeds the largest double below 3; the evaluation never divides zero by zero. *)
Theorem abnormal_spec d w :
  amount_like d → amount_like w →
  ∃ flag, abnormal d w = Ret flag ∧
    ((0 < toQ w)%Q → (inject_Z 3 * toQ d <= toQ w)%Q → flag = true) ∧
    (flag = true → (0 < toQ w ∧ below3 * toQ d < toQ w)%Q).
Proof.
  intros Hd Hw. destruct (abnormal_ret d w) as [flag E]. exists flag. split_and!; [done| |].
  - intros Hpos Hle. pose proof (abnormal_complete d w Hd Hw Hpos Hle). congruence.
  - intros ->. by apply abnormal_sound.
Qed.

Lemma abnormal_spec_witness :
  amount_like (SetInt 11) ∧ amount_like (SetInt 50) ∧ abnormal (SetInt 11) (SetInt 50) = Ret true ∧
  ∃ flag, abnormal (SetInt 11) (SetInt 50) = Ret flag.
Proof.
  split_and!; [by apply amount_like_SetInt|by apply amount_like_SetInt|reflexivity|].
  destruct (abnormal_spec (SetInt 11) (SetInt 50)) as (flag & H & _);
    [by apply amount_like_SetInt..|]. by exists flag.
Defined.

(** C5: The traversal of related users terminates and visits exactly the users
    reachable over relations to addresses that are not common and that were known
    by the block. *)
Theorem related_users_reached o userRelatedMap commonAddressMap blockNumber {S} (own : S → Address → Float * Float * S)
    user d w st :
  ∃ t, add_related o userRelatedMap commonAddressMap blockNumber own (related_fuel userRelatedMap) user d w st = Some t ∧
    ∀ x, x ∈ to_used t ↔ reach userRelatedMap commonAddressMap blockNumber user x.
Proof.
  destruct (add_related_total o userRelatedMap commonAddressMap blockNumber own user d w st) as [t Ht].
  exists t. split; [done|]. by eapply add_related_reach.
Qed.

(** C7: The flows of a token of a user are an initial empty flow followed by one
    flow per transfer of positive amount, in the order of block, transaction and
    event, each with the block, index and action of its transfer and with running
    totals whose values are the exact sums of deposits and withdrawals up to it,
    up to one rounding per transfer. *)
Theorem token_flow_totals so s o os m uns txm user token k f :
  GenerateUserFlow so o os s = Ret (m, uns, txm) → plain s token → nonneg_positions s token →
  flows_of m user token !! k = Some f →
  let txs := ordered so s user token in
  StronglySorted (le_of TokenTxList_Less) txs ∧
  (k = 0%nat → f = first_flow) ∧
  (∀ j, k = S j → ∃ t, txs !! j = Some t ∧ tf_BlockNumber f = tt_BlockNumber t ∧
     tf_TxIndex f = tt_TxIndex t ∧ tf_Action f = tt_Action t) ∧
  approx (length (transfers s user token)) (exact_sum "deposit" (take k txs)) (toQ (tf_TotalDeposit f)) ∧
  approx (length (transfers s user token)) (exact_sum "withdraw" (take k txs)) (toQ (tf_TotalWithdraw f)).
Proof.
  intros Hgen Hp Hpos Hk txs. split; [apply ordered_sorted|].
  destruct (flow_at so s o os m uns txm token Hgen Hp Hpos user k f Hk) as (_ & _ & _ & _ & Hd & Hw).
  split_and!; [| |done|done]; destruct (flows_of_generated so s o os m uns txm token Hgen Hp user) as [E|[E _]];
    rewrite E in Hk; try done.
  - intros ->. by injection Hk as <-.
  - intros j ->. unfold flows_after in Hk. rewrite lookup_cons, list_lookup_imap in Hk.
    apply fmap_Some in Hk as (t & Ht & ->). by exists t.
Qed.

Lemma token_flow_totals_witness :
  ∃ f, flows_of demo_flows 10 100 !! 2%nat = Some f ∧ tf_Action f = "withdraw" ∧
    approx 2 (inject_Z 50) (toQ (tf_TotalWithdraw f)).
Proof.
  destruct demo_generates as (uns & txm & Hgen).
  destruct (flows_of demo_flows 10 100 !! 2%nat) as [f|] eqn:Ef; [|by vm_compute in Ef].
  exists f. split; [done|].
  destruct (token_flow_totals insertion_sorter demo_extractor range_id (λ _, range_id) demo_flows uns txm 10 100 2 f
    Hgen demo_plain (demo_positions 100) Ef) as (_ & _ & _ & _ & Hw).
  split; [by vm_compute in Ef; injection Ef as <-|].
  eapply approx_proper; [..|exact Hw]; reflexivity.
Defined.

(** ** The extraction *)

(** A call to a proxy that mints 5 pool tokens: an ether transfer and an event. *)
Definition demo_event : Event :=
  {| ev_Address := 100; ev_Topics := [HexToHash transfer_topic; 10; 30]; ev_Data := to_be 32 5; ev_Index := 0 |}.

Definition demo_call : InternalTx := mkInternalTx 10 30 true (Some 3) "CALL" [] [demo_event] [].

(** C8: No transfer of a call tree is lost or invented: the ether transfers and the
    decoded Transfer events of all calls are, up to order, those recorded with an
    action of the transaction together with those returned to the caller; the new
    actions are appended under consecutive keys. *)
Theorem transfers_conserved o erc20 ExTx tx s l0 s' l :
  te_ActionInfoList s = map_seq 0 l0 →
  extractInTxInfo o erc20 ExTx tx s = Ret (s', l) →
  ∃ ais, te_ActionInfoList s' = map_seq 0 (l0 ++ ais) ∧ Forall (recorded_by ExTx) ais ∧
    tree_transfers erc20 tx ≡ₚ l ++ (ais ≫= ai_TokenTxList).
Proof. intros Ha He. exact (extract_conserved o erc20 tx ExTx s l0 s' l Ha He). Qed.

Lemma transfers_conserved_witness :
  ∃ s' l ais, extractInTxInfo range_id erc20_abi (Build_ExternalTx 7 0 0 [demo_call]) demo_call demo_extractor = Ret (s', l) ∧
    te_ActionInfoList s' = map_seq 0 ais ∧ length (tree_transfers erc20_abi demo_call) = 2%nat ∧
    tree_transfers erc20_abi demo_call ≡ₚ l ++ (ais ≫= ai_TokenTxList).
Proof.
  destruct (extractInTxInfo range_id erc20_abi (Build_ExternalTx 7 0 0 [demo_call]) demo_call demo_extractor)
    as [[s' l]|] eqn:E; [|by vm_compute in E].
  destruct (transfers_conserved range_id erc20_abi _ demo_call demo_extractor [] s' l eq_refl E) as (ais & H1 & _ & H2).
  exists s', l, ais. split_and!; [done|done|by vm_compute|done].
Defined.

(** C9: With an ABI that declares the Transfer event, the walk over a call tree
    panics exactly when some Transfer event with three topics carries fewer than
    the 32 bytes of its amount. *)
Theorem extraction_panics_iff o erc20 ExTx tx s :
  has_Transfer erc20 →
  (∃ r, extractInTxInfo o erc20 ExTx tx s = Ret r) ↔
  ∀ call event, call ∈ tx_preorder tx → event ∈ itx_Events call → is_transfer event = true →
    (32 ≤ length (ev_Data event))%nat.
Proof.
  intros Herc. change (∃ r, extractInTxInfo o erc20 ExTx tx s = Ret r) with (is_ret (extractInTxInfo o erc20 ExTx tx s)).
  rewrite extract_is_ret, Forall_forall by done. unfold tree_events, decodable. setoid_rewrite list_elem_of_bind.
  split; [intros H call event Hc He; apply (H event); eauto|intros H event (call & He & Hc); eauto].
Qed.

Lemma extraction_panics_iff_witness :
  has_Transfer erc20_abi ∧
  ∃ r, extractInTxInfo range_id erc20_abi (Build_ExternalTx 7 0 0 [demo_call]) demo_call demo_extractor = Ret r.
Proof.
  split; [apply erc20_abi_has_Transfer|].
  apply (extraction_panics_iff range_id erc20_abi _ demo_call demo_extractor erc20_abi_has_Transfer).
  intros call event Hc He _. cbn in Hc. apply list_elem_of_singleton in Hc as ->.
  apply list_elem_of_singleton in He as ->. apply Nat.leb_le. reflexivity.
Defined.

(** C10: [ExtractActionInfoList] panics only on the nil map of related tokens and
    some attributed transfer; when it returns, whatever the order in which Go
    visits the actions, each user has its old transfers and those attributed to
    it, each pair of related users has the least block of all their relations, and
    each token counts its attributed transfers. *)
Theorem attribution_effect o s :
  let recorded := (map_to_list (te_ActionInfoList s)).*2 in
  let attributed_all := recorded ≫= attributed (te_LPTokenMap s) (te_CommonAddressMap s) in
  let relations_all := recorded ≫= relations (te_LPTokenMap s) (te_CommonAddressMap s) in
  ((∃ s', ExtractActionInfoList o s = Ret s') ↔ is_Some (te_RelatedToken s) ∨ attributed_all = []) ∧
  ∀ s', ExtractActionInfoList o s = Ret s' →
    (∀ u k, txs_of (te_UserTokenTxMap s') u k ≡ₚ txs_of (te_UserTokenTxMap s) u k ++ picks u k attributed_all) ∧
    (∀ u r, related (te_UserRelatedMap s') u r = relate u r (related (te_UserRelatedMap s) u r) relations_all) ∧
    (∀ k, token_count s' k = token_count s k +
       Z.of_nat (length (filter (λ e, tt_TokenAddress e.2 = k) attributed_all))).
Proof. split; [apply ExtractActionInfoList_is_ret|apply ExtractActionInfoList_effect]. Qed.

(** The action of a method depends on the order in which Go visits the action
    map: every matching key decides under some order, unless one means "none". *)
Theorem action_order_dependent lname (m : gmap string string) k v :
  (∀ k' v', m !! k' = Some v' → Contains lname k' = true → v' ≠ "none") →
  m !! k = Some v → Contains lname k = true →
  ∃ o, ∀ n a, match_action lname (range_map o n m) a = v.
Proof. apply match_action_reachable. Qed.

(** "unstake" is a deposit for the key "stake" and a withdrawal for "unstake". *)
Lemma action_order_dependent_witness :
  ∃ o1 o2, match_action "unstake" (range_map o1 0 (LoadActionMap range_id 0 ActionMap_json)) "none" = "deposit" ∧
           match_action "unstake" (range_map o2 0 (LoadActionMap range_id 0 ActionMap_json)) "none" = "withdraw".
Proof.
  set (m := LoadActionMap range_id 0 ActionMap_json).
  assert (map_Forall (λ k' v', Contains "unstake" k' = true → v' ≠ "none") m) as Hn by decide_now.
  destruct (action_order_dependent "unstake" m "stake" "deposit") as [o1 H1]; [exact Hn|reflexivity|reflexivity|].
  destruct (action_order_dependent "unstake" m "unstake" "withdraw") as [o2 H2]; [exact Hn|reflexivity|reflexivity|].
  exists o1, o2. split; [apply H1|apply H2].
Defined.

(** The common addresses are the proxies and the addresses that take part in
    more than 350 transfers, or in more than 0.8 per recorded action; the floating
    point comparison is exact. *)
Theorem common_addresses o s a :
  (∀ c, te_AddressCountMap s !! a = Some c → 0 ≤ c < 2 ^ 49) →
  Z.of_nat (size (te_ActionInfoList s)) < 2 ^ 49 →
  te_CommonAddressMap (UpdateCommonAddressMap o s) !! a = Some true ↔
  is_Some (te_ProxyABI s !! a) ∨
  ∃ c, te_AddressCountMap s !! a = Some c ∧
       (350 < c ∨ 4 * Z.of_nat (size (te_ActionInfoList s)) < 5 * c).
Proof.
  intros Hc Hn. rewrite UpdateCommonAddressMap_spec. apply or_iff_compat_l.
  split; intros (c & Ha & H); exists c; (split; [done|]); apply is_common_spec in H || apply is_common_spec;
    try done; try (by apply Hc); lia.
Qed.

Definition demo_counted : TxExtractor := set_AddressCountMap {[ 5 := 3; 6 := 400 ]} demo_extractor.

Lemma common_addresses_witness :
  te_CommonAddressMap (UpdateCommonAddressMap range_id demo_counted) !! 6 = Some true.
Proof.
  apply (common_addresses range_id demo_counted 6).
  - intros c H. vm_compute in H. injection H as <-. lia.
  - vm_compute. done.
  - right. exists 400. split; [reflexivity|lia].
Defined.

(** [MergeFlowInTx] groups by transaction: the entry of a block and index holds
    the sums of the amounts deposited and withdrawn by exactly the flows of that
    transaction, up to one rounding each, and there is none when it has no flow. *)
Theorem transaction_totals m user token fl b t :
  m !! user ≫= (.!! token) = Some fl → Forall (λ f, amount_like (tf_Amount f)) fl →
  let here := flows_in b t fl in
  let amounts action := sumQ ((λ f, toQ (tf_Amount f)) <$> filter (λ f, tf_Action f = action) here) in
  match tm ← MergeFlowInTx m !! user; fm ← tm !! token; fm !! block_tx b t with
  | None => here = []
  | Some e => here ≠ [] ∧ tx_BlockNumber e = b ∧ tx_TxIndex e = t ∧
      approx (length here) (amounts "deposit") (toQ (tx_TotalDeposit e)) ∧
      approx (length here) (amounts "withdraw") (toQ (tx_TotalWithdraw e))
  end.
Proof.
  intros Hm Hl here amounts. rewrite (MergeFlowInTx_lookup _ _ _ _ _ _ Hm). fold here.
  assert (Forall (λ f, amount_like (tf_Amount f)) here) as Hh.
  { apply Forall_forall. intros f [_ Hf]%list_elem_of_filter. rewrite Forall_forall in Hl. by apply Hl. }
  assert (∀ a, approx (length here) (amounts a) (toQ (sum_action a newFloat here))) as Hs.
  { intros a. destruct (sum_action_approx a newFloat 0 0 here) as [_ H]; auto using amount_like_0, approx_refl; [done|].
    unfold amounts. by rewrite <- (Qplus_0_l (sumQ _)). }
  unfold entry_after. destruct here as [|f l] eqn:E; [done|]. split_and!; [done..| |]; apply Hs.
Qed.

Lemma transaction_totals_witness :
  ∃ e, (tm ← MergeFlowInTx demo_flows !! (10 : Address); fm ← tm !! (100 : Address); fm !! block_tx 6 0) = Some e ∧
    approx 1 (inject_Z 50) (toQ (tx_TotalWithdraw e)).
Proof.
  pose proof (transaction_totals demo_flows 10 100 (flows_of demo_flows 10 100) 6 0) as H.
  destruct (tm ← MergeFlowInTx demo_flows !! (10 : Address); fm ← tm !! (100 : Address); fm !! block_tx 6 0)
    as [e|] eqn:E; [|by vm_compute in E].
  exists e. split; [done|].
  assert (Forall (λ f, amount_like (tf_Amount f)) (flows_of demo_flows 10 100)) as Ha.
  { vm_compute. repeat constructor; try discriminate; (left; split; reflexivity) || (right; discriminate). }
  destruct (H ltac:(by vm_compute) Ha) as (_ & _ & _ & _ & Hw).
  eapply approx_proper; [..|exact Hw]; reflexivity.
Defined.
