(* ===== verification/HunterMain.v ===== *)
(** * hunter/main.go: the detector from end to end

    [main] loads the configuration and the history of an application, attributes
    the transfers, and checks every user.  The files are given decoded; what the
    checks print is returned: the lines of the check within transactions, and the
    attacks of every user that was checked. *)

From S2P Require Import Prelude BigFloat Common Text Abi Tx Extractor Flow Vm.
From S2P Require Import Approx RelatedFacts ExtractorFacts FlowFacts CheckFacts DetectFacts.

Record MainFiles := {
  mf_Proxies : list (list string);
  mf_ActionMap : gmap string (list string);
  mf_ProxyABI : Address → ABI;
  mf_StableTokens : list (string * list (list string));
  mf_Tokens : gmap string Token;
  mf_Prices : list (string * gmap string float64);
  mf_ProxyTxs : list (string * ExternalTx);
  mf_StakeTxs : list (string * ExternalTx)
}.

Definition dapp : string := "bzx".
Definition main_block : Z := 13000000.

(** The application when it is not configured. *)
Definition zero_ProxyInfo : ProxyInfo := Build_ProxyInfo "" None ∅ ∅ [] [].

Section main.
Context (o : RangeOracle) (os : Address → RangeOracle) (ox : Address → Address → string → RangeOracle).
Context (oc : Address → RangeOracle) (ocs : Address → Address → nat → RangeOracle).
Context (so : Sorter) (erc20 : ABI).

(** The extractor, with every map made. *)
Definition main_extractor (files : MainFiles) : Go TxExtractor :=
  proxyInfoMap ← LoadDefi (mf_Proxies files);
  stable ← LoadStableTokenInfo (mf_StableTokens files);
  swaps ← LoadTokenSwapInfo (mf_Tokens files) (mf_Prices files);
  Ret (Init (mf_ProxyABI files)
    (mkTxExtractor (LoadActionMap o 0 (mf_ActionMap files)) (default zero_ProxyInfo (proxyInfoMap !! dapp)) ∅ ∅ ∅ ∅ ∅ ∅
      (Some ∅) "" ∅ ∅ stable swaps 0)).

Definition main_history (files : MainFiles) (s : TxExtractor) : Go TxExtractor :=
  s ← InitTokenUserTxMap o erc20 main_block (mf_ProxyTxs files) s;
  s ← InitUserRelatedMapWithStake erc20 main_block (mf_StakeTxs files) s;
  ExtractActionInfoList o (UpdateCommonAddressMap o s).

Definition checked (s : TxExtractor) (user : Address) : bool :=
  negb (default false (te_CommonAddressMap s !! user)) && (default 0 (te_RelatedToken s ≫= (.!! user)) =? 0).

(** A turn of the loop over the users; the flows stay as they were sorted. *)
Definition main_check (s : TxExtractor) (acc : list (Address * gmap Address AttackInfo) * UserTokenFlowMap) (user : Address)
    : Res (list (Address * gmap Address AttackInfo) * UserTokenFlowMap) :=
  let '(attacks, flows) := acc in
  if checked s user then
    '(attackInfoMap, _, flows) ← of_run (CheckAttack so s (oc user) (ocs user) user flows);
    Done (attacks ++ [(user, attackInfoMap)], flows)
  else Done (attacks, flows).

Definition main (files : MainFiles) : Res (list TxReport * list (Address * gmap Address AttackInfo)) :=
  s ← of_go (main_extractor files);
  s ← of_go (main_history files s);
  '(flows, _, txm) ← of_go (GenerateUserFlow so o os s);
  let s := set_UserTokenTxMap txm s in
  reports ← of_run (CheckAttackInTx s o ox flows);
  '(attacks, _) ← res_foldl (main_check s) ([], flows) (range_map o 1 flows).*1;
  Done (reports, attacks).
End main.

(** ** The transfers that are loaded *)

(** The files of the stakes are read up to the first that is too recent. *)
Fixpoint stakes_until (block : Z) (files : list (string * ExternalTx)) : list ExternalTx :=
  match files with
  | [] => []
  | (name, tx) :: files => if file_block name <=? block then tx :: stakes_until block files else []
  end.

Definition loaded_txs (files : MainFiles) : list ExternalTx :=
  (filter (λ f, file_block f.1 <= main_block) (mf_ProxyTxs files)).*2 ++ stakes_until main_block (mf_StakeTxs files).

(** Transactions with other than one root are skipped. *)
Definition tx_events (tx : ExternalTx) : list Event :=
  match etx_InTxs tx with [t] => tree_events t | _ => [] end.

(** The extractor so far: its transfers have amounts and can be attributed. *)
Record sane (s : TxExtractor) (s0 : TxExtractor) : Prop := {
  sane_kept : kept_fields s = kept_fields s0;
  sane_actions : ∃ l, actions s l ∧ Forall (λ ai, Forall has_amount (ai_TokenTxList ai)) l
}.

Section history.
Context (o : RangeOracle) (erc20 : ABI) (Herc : has_Transfer erc20).

Lemma own_transfers_amount tx : Forall has_amount (own_transfers erc20 tx).
Proof using Herc.
  unfold own_transfers. apply Forall_app. split.
  - unfold ether_transfer. destruct (itx_Value tx) as [v|]; [|constructor]. destruct (v >? 0); repeat constructor. by eexists.
  - apply Forall_bind. apply Forall_forall. intros event _. cbn. unfold event_transfer. rewrite (extractEvent_transfer erc20 event Herc).
    destruct (is_transfer event); [|constructor]. destruct (ev_Topics event) as [|? [|? [|? [|]]]]; try constructor.
    case_decide; constructor; [by eexists|constructor].
Qed.

Lemma tree_transfers_amount tx : Forall has_amount (tree_transfers erc20 tx).
Proof using Herc. unfold tree_transfers. apply Forall_bind, Forall_forall. intros t _. apply own_transfers_amount. Qed.

Lemma ExtractTokenTx_ret tx s : is_ret (ExtractTokenTx o erc20 tx s) ↔ Forall decodable (tx_events tx).
Proof using Herc.
  unfold ExtractTokenTx, tx_events. destruct (etx_InTxs tx) as [|t [|? ?]];
    [split; [constructor|intros; apply is_ret_Ret]| |split; [constructor|intros; apply is_ret_Ret]].
  rewrite (is_ret_bind _ _ True) by (intros []; split; auto with idw). rewrite extract_is_ret by done. tauto.
Qed.

Lemma extractInTxForStake_ret tx : ∀ ExTx s,
  is_ret (extractInTxForStake erc20 ExTx tx s) ↔ Forall decodable (tree_events tx).
Proof using Herc.
  induction tx as [f t c v ty i evs txs HF] using InternalTx_ind'. intros ExTx s.
  rewrite tree_events_eq, Forall_app. cbn [extractInTxForStake itx_InTxs itx_Events].
  rewrite (is_ret_bind _ _ (Forall decodable evs)).
  - assert (∀ s, is_ret ((fix children (txs : list InternalTx) (s : TxExtractor) : Go TxExtractor :=
         match txs with
         | [] => Ret s
         | t :: txs' => match extractInTxForStake erc20 ExTx t s with Ret s' => children txs' s' | Panic p => Panic p end
         end) txs s) ↔ Forall decodable (txs ≫= tree_events)) as ->; [|tauto].
    clear s. induction HF as [|x txs Hx _ IH]; intros s; cbn; [split; [constructor|intros; apply is_ret_Ret]|].
    rewrite Forall_app, <- (Hx ExTx s). destruct (extractInTxForStake erc20 ExTx x s) as [s'|].
    + rewrite IH. split; [intros; split; auto with idw|by intros []].
    + split; [intros; no_panic|intros [? _]; no_panic].
  - intros s'. apply go_foldl_is_ret. intros s1 event _. rewrite <- (extractEvent_is_ret erc20 event Herc). unfold stake_event.
    destruct (extractEvent erc20 event) as [[]|]; simpl; [|split; intros; no_panic]. case_match; split; intros; apply is_ret_Ret.
Qed.

Lemma ExtractStakeTokenTx_ret tx s : is_ret (ExtractStakeTokenTx erc20 tx s) ↔ Forall decodable (tx_events tx).
Proof using Herc.
  unfold ExtractStakeTokenTx, tx_events. destruct (etx_InTxs tx) as [|t [|? ?]];
    [split; [constructor|intros; apply is_ret_Ret]|apply extractInTxForStake_ret|split; [constructor|intros; apply is_ret_Ret]].
Qed.
End history.

Section sane.
Context (o : RangeOracle) (erc20 : ABI) (Herc : has_Transfer erc20).

Lemma ExtractTokenTx_sane tx s s' s0 : sane s s0 → ExtractTokenTx o erc20 tx s = Ret s' → sane s' s0.
Proof using Herc.
  intros [Hk (l & Ha & Hl)] E. split; [by rewrite (ExtractTokenTx_fields o erc20 tx s s' E)|].
  unfold ExtractTokenTx in E. destruct (etx_InTxs tx) as [|t [|? ?]]; [|destruct (extractInTxInfo _ _ _ _ _) as [[s1 l1]|] eqn:E1|];
    simpl in E; try done; injection E as <-; [by exists l| |by exists l].
  destruct (extract_conserved o erc20 t tx s l s1 l1 Ha E1) as (ais & Ha' & _ & Hp). exists (l ++ ais). split; [done|].
  apply Forall_app. split; [done|]. pose proof (tree_transfers_amount erc20 Herc t) as Ht. rewrite Hp, Forall_app, Forall_bind in Ht.
  apply Ht.
Qed.

Lemma ExtractStakeTokenTx_sane tx s s' s0 : sane s s0 → ExtractStakeTokenTx erc20 tx s = Ret s' → sane s' s0.
Proof using Type.
  intros [Hk (l & Ha & Hl)] E. apply ExtractStakeTokenTx_fields in E as [Hk' Ha']. split; [by rewrite Hk'|].
  exists l. unfold actions in *. by rewrite Ha'.
Qed.

(** The loops over the files. *)
Lemma InitTokenUserTxMap_sane block files s s0 :
  sane s s0 →
  (is_ret (InitTokenUserTxMap o erc20 block files s) ↔
     Forall (λ tx, Forall decodable (tx_events tx)) (filter (λ f, file_block f.1 <= block) files).*2) ∧
  ∀ s', InitTokenUserTxMap o erc20 block files s = Ret s' → sane s' s0.
Proof using Herc.
  intros Hs. split.
  - unfold InitTokenUserTxMap. rewrite (go_foldl_is_ret (λ f, file_block f.1 <= block → Forall decodable (tx_events f.2))).
    + rewrite Forall_fmap, !Forall_forall. split.
      * intros Hf f [Hb Hin]%list_elem_of_filter. by apply Hf.
      * intros Hf f Hin Hb. by apply Hf, list_elem_of_filter.
    + intros s1 [name tx] _. cbn. destruct (Z.leb_spec (file_block name) block); [rewrite ExtractTokenTx_ret by done; tauto|].
      split; [lia|intros; apply is_ret_Ret].
  - intros s'. apply (go_foldl_ind (λ s, sane s s0)); [done|]. intros s1 [name tx] s2 _ Hs1. case_match; [|by intros [= <-]].
    by apply ExtractTokenTx_sane.
Qed.

Lemma InitUserRelatedMapWithStake_sane block files s0 : ∀ s,
  sane s s0 →
  (is_ret (InitUserRelatedMapWithStake erc20 block files s) ↔
     Forall (λ tx, Forall decodable (tx_events tx)) (stakes_until block files)) ∧
  ∀ s', InitUserRelatedMapWithStake erc20 block files s = Ret s' → sane s' s0.
Proof using Herc.
  induction files as [|[name tx] files IH]; intros s Hs; cbn [InitUserRelatedMapWithStake stakes_until].
  { split; [split; [constructor|intros; apply is_ret_Ret]|by intros s' [= <-]]. }
  destruct (Z.leb_spec (file_block name) block).
  2: { split; [split; [constructor|intros; apply is_ret_Ret]|by intros s' [= <-]]. }
  rewrite Forall_cons, <- (ExtractStakeTokenTx_ret erc20 Herc tx s).
  destruct (ExtractStakeTokenTx erc20 tx s) as [s1|] eqn:E; cbn [mbind Go_bind].
  - destruct (IH s1) as [-> Hr]; [by eapply ExtractStakeTokenTx_sane|]. split; [|exact Hr].
    split; [intros; split; auto with idw|by intros []].
  - split; [|done]. split; [intros; no_panic|intros [? _]; no_panic].
Qed.
End sane.

Definition rate_maps (s : TxExtractor) := (te_StableTokenMap s, te_TokenSwapMap s).

Lemma attribute_transfer_rates ai sp s t s' : attribute_transfer ai sp s t = Ret s' → rate_maps s' = rate_maps s.
Proof.
  unfold attribute_transfer, incr_RelatedToken. destruct s. cbn. repeat case_match; simplify_eq/=; by intros [= <-].
Qed.

Lemma ExtractActionInfoList_rates o s s' : ExtractActionInfoList o s = Ret s' → rate_maps s' = rate_maps s.
Proof.
  unfold ExtractActionInfoList. destruct (go_foldl _ s _) as [s1|] eqn:E; [|done]. intros [= <-].
  transitivity (rate_maps s1); [by destruct s1|].
  eapply (go_foldl_ind (λ x, rate_maps x = rate_maps s)); [done| |exact E]. intros x [i ai] x' _ <-. unfold attribute_action. intros E'.
  eapply (go_foldl_ind (λ y, rate_maps y = rate_maps x)); [done| |exact E']. intros y t y' _ <-. apply attribute_transfer_rates.
Qed.

(** What is attributed has an amount. *)
Lemma attributed_amount lp common l :
  Forall (λ ai, Forall has_amount (ai_TokenTxList ai)) l → Forall (λ e, has_amount e.2) (l ≫= attributed lp common).
Proof.
  intros Hl. apply Forall_bind. eapply Forall_impl; [exact Hl|]. intros ai Ha. cbn. unfold attributed.
  apply Forall_forall. intros e (t & Ht & He)%list_elem_of_omap. rewrite Forall_forall in Ha. specialize (Ha t Ht).
  unfold attribution in He. repeat case_match; simplify_eq; done.
Qed.

Lemma ExtractActionInfoList_complete o s s' :
  te_UserTokenTxMap s = ∅ → (∃ l, actions s l ∧ Forall (λ ai, Forall has_amount (ai_TokenTxList ai)) l) →
  ExtractActionInfoList o s = Ret s' → all_complete s'.
Proof.
  intros Ht (l & Ha & Hl) E. apply ExtractActionInfoList_effect in E as [E _].
  assert ((map_to_list (te_ActionInfoList s)).*2 ≡ₚ l) as Hp.
  { unfold actions in Ha. rewrite Ha, map_to_list_seq, snd_zip; [done|]. by rewrite length_seq. }
  intros user txs Hu token l' Hl'. specialize (E user token).
  unfold txs_of at 1 in E. rewrite Hu in E. cbn in E. rewrite Hl' in E. cbn in E. rewrite E, Ht. unfold txs_of. cbn.
  rewrite Hp. unfold picks. apply Forall_fmap, Forall_forall. intros e [_ He]%list_elem_of_filter.
  pose proof (attributed_amount (te_LPTokenMap s) (te_CommonAddressMap s) l Hl) as Hall. rewrite Forall_forall in Hall. by apply Hall.
Qed.

(** ** The whole run *)

Section whole.
Context (o : RangeOracle) (os : Address → RangeOracle) (ox : Address → Address → string → RangeOracle).
Context (oc : Address → RangeOracle) (ocs : Address → Address → nat → RangeOracle).
Context (so : Sorter) (erc20 : ABI) (Herc : has_Transfer erc20).

Lemma main_extractor_start files s :
  main_extractor o files = Ret s →
  actions s [] ∧ te_UserTokenTxMap s = ∅ ∧ te_RelatedToken s = Some ∅.
Proof using Type.
  unfold main_extractor. destruct (LoadDefi _); simpl; [|done]. destruct (LoadStableTokenInfo _); simpl; [|done].
  destruct (LoadTokenSwapInfo _ _); simpl; [|done]. by intros [= <-].
Qed.

(** The history loads exactly when its events decode, and leaves users whose
    transfers have amounts. *)
Lemma main_history_spec files s0 :
  main_extractor o files = Ret s0 →
  (is_ret (main_history o erc20 files s0) ↔ Forall (λ tx, Forall decodable (tx_events tx)) (loaded_txs files)) ∧
  ∀ s, main_history o erc20 files s0 = Ret s → all_complete s ∧ rate_maps s = rate_maps s0.
Proof using Herc.
  intros (Ha & Ht & Hr)%main_extractor_start. assert (sane s0 s0) as Hs0 by (split; [done|by exists []]).
  unfold main_history, loaded_txs. rewrite Forall_app.
  destruct (InitTokenUserTxMap_sane o erc20 Herc main_block (mf_ProxyTxs files) s0 s0 Hs0) as [H1 Hs1].
  destruct (InitTokenUserTxMap _ _ _ _ _) as [s1|]; simpl; [|split; [rewrite <- H1; split; [intros; no_panic|intros [? _]; no_panic]|done]].
  destruct (InitUserRelatedMapWithStake_sane erc20 Herc main_block (mf_StakeTxs files) s0 s1 (Hs1 s1 eq_refl)) as [H2 Hs2].
  destruct (InitUserRelatedMapWithStake _ _ _ _) as [s2|]; simpl; [|split; [rewrite <- H2; split; [intros; no_panic|intros [_ ?]; no_panic]|done]].
  destruct (Hs2 s2 eq_refl) as [Hk Hl]. unfold kept_fields in Hk. injection Hk as Hk1 Hk2 Hk3 Hk4.
  set (s3 := UpdateCommonAddressMap o s2).
  assert (te_RelatedToken s3 = Some ∅ ∧ te_UserTokenTxMap s3 = ∅ ∧ rate_maps s3 = rate_maps s0 ∧
    ∃ l, actions s3 l ∧ Forall (λ ai, Forall has_amount (ai_TokenTxList ai)) l) as (Hr3 & Ht3 & Hm3 & Hl3).
  { unfold rate_maps. rewrite <- Hr, <- Ht, <- Hk1, <- Hk2, <- Hk3, <- Hk4. subst s3. by destruct s2. }
  split.
  - rewrite ExtractActionInfoList_is_ret, Hr3, <- H1, <- H2. split; [intros; split; auto with idw|intros; left; by eexists].
  - intros s E. split; [by eapply ExtractActionInfoList_complete|]. by rewrite (ExtractActionInfoList_rates o s3 s E).
Qed.

(** The loop over the users returns; it checks the users it should, in order. *)
Lemma main_check_loop s users : ∀ attacks flows,
  ∃ attacks' flows', res_foldl (main_check oc ocs so s) (attacks, flows) users = Done (attacks', flows') ∧
    attacks'.*1 = attacks.*1 ++ filter (λ u, checked s u = true) users.
Proof using Type.
  induction users as [|u users IH]; intros attacks flows; cbn [res_foldl]; [exists attacks, flows; by rewrite app_nil_r|].
  rewrite filter_cons. destruct (checked s u) eqn:Ec.
  - destruct (CheckAttack_returns so s (oc u) (ocs u) u flows) as [[[am found] flows1] E].
    assert (main_check oc ocs so s (attacks, flows) u = Done (attacks ++ [(u, am)], flows1)) as ->
      by (unfold main_check; by rewrite Ec, E).
    destruct (IH (attacks ++ [(u, am)]) flows1) as (a' & f' & E' & Hf).
    exists a', f'. split; [exact E'|]. rewrite Hf, fmap_app, decide_True by done. cbn. by rewrite <- app_assoc.
  - assert (main_check oc ocs so s (attacks, flows) u = Done (attacks, flows)) as -> by (unfold main_check; by rewrite Ec).
    destruct (IH attacks flows) as (a' & f' & E' & Hf). exists a', f'. split; [exact E'|]. by rewrite Hf, decide_False.
Qed.

(** C6: hunter/main runs to its end exactly when every Transfer event in the
    history it loads carries the 32 bytes of an amount: with rates that are not
    negative nothing else panics, attribution, flows and rates included, in any
    order of the maps.  It then checks, once each, the users that have flows,
    except the common addresses and those that are related tokens. *)
Theorem main_returns files s0 :
  main_extractor o files = Ret s0 → nonneg_rates s0 →
  let run := main o os ox oc ocs so erc20 files in
  run ≠ OutOfFuel ∧
  ((∃ r, run = Done r) ↔ Forall (λ tx, Forall decodable (tx_events tx)) (loaded_txs files)) ∧
  (∀ reports attacks, run = Done (reports, attacks) →
     ∃ s flows uns txm, main_history o erc20 files s0 = Ret s ∧ GenerateUserFlow so o os s = Ret (flows, uns, txm) ∧
       NoDup attacks.*1 ∧ ∀ user, user ∈ attacks.*1 ↔ is_Some (flows !! user) ∧ checked s user = true).
Proof using Herc.
  intros E0 Hrates run. subst run. unfold main. rewrite E0. cbn [of_go mbind Res_bind].
  destruct (main_history_spec files s0 E0) as [Hret Hs].
  destruct (main_history o erc20 files s0) as [s|p]; cbn [of_go mbind Res_bind].
  2: { split; [done|]. split; [|done]. rewrite <- Hret. split; [by intros [? ?]|intros; no_panic]. }
  destruct (Hs s eq_refl) as [Hc Hm].
  destruct (proj2 (GenerateUserFlow_ret so s o os) Hc) as [[[flows uns] txm] Eg]. rewrite Eg. cbn [of_go mbind Res_bind]. cbv zeta.
  set (s' := set_UserTokenTxMap txm s).
  assert (nonneg_rates s) as Hr by (unfold nonneg_rates, rate_maps in *; injection Hm as -> ->; exact Hrates).
  destruct (CheckAttackInTx_returns s' o ox flows) as [reports Er].
  { intros user token. by apply (generated_flow_amounts so s o os flows uns txm). }
  rewrite Er. cbn [of_run of_go mbind Res_bind].
  destruct (main_check_loop s' (range_map o 1 flows).*1 [] flows) as (attacks & flows' & Ea & Hu). rewrite Ea. cbn [mbind Res_bind].
  split; [done|]. split; [split; [intros _; apply Hret, is_ret_Ret|intros _; by eexists]|].
  intros reports' attacks' [= <- <-]. exists s, flows, uns, txm. split; [done|]. split; [done|].
  cbn in Hu. rewrite Hu. split; [apply NoDup_filter, range_map_NoDup|]. intros user.
  assert (checked s' user = checked s user) as Hch by by destruct s.
  rewrite list_elem_of_filter, Hch, list_elem_of_fmap. split.
  - intros [Hk ([u fl] & -> & Hin)]. apply elem_of_range_map in Hin. cbn. by split; [eexists|].
  - intros [[fl Hf] Hk]. split; [done|]. exists (user, fl). split; [done|]. by apply elem_of_range_map.
Qed.
End whole.

(** ** An example: a history with two deposits *)

Definition ping_method (name : string) : Method :=
  {| m_name := name; m_ID := [1; 2; 3; 4]; m_mutability := "nonpayable"; m_payable := false; m_inputs := []; m_outputs := None |}.
Definition ping_ABI (name : string) : ABI := {| abi_methods := {[ name := ping_method name ]}; abi_events := ∅ |}.

(** 5 of the token 0xEE from an address to the application. *)
Definition pay_event (from : Address) : Event :=
  {| ev_Address := 0xEE; ev_Topics := [0xddf252ad1be2c89b69c2b068fc378daa952ba7f163c4a11628f55a4df523b3ef; from; 10];
     ev_Data := replicate 31 0 ++ [5]; ev_Index := 0 |}.

Definition ping_tx (from : Address) (events : list Event) : ExternalTx :=
  {| etx_BlockNumber := 3; etx_Timestamp := 0; etx_TxIndex := 0;
     etx_InTxs := [mkInternalTx from 10 true (Some 0) "Call" [1; 2; 3; 4] events []] |}.

Definition main_files : MainFiles := {|
  mf_Proxies := [["bzx"; "1"; ""; ""; "0x000000000000000000000000000000000000000a"; ""]]%string;
  mf_ActionMap := {[ "deposit"%string := ["deposit"%string] ]};
  mf_ProxyABI _ := ping_ABI "deposit";
  mf_StableTokens := []; mf_Tokens := ∅; mf_Prices := [];
  mf_ProxyTxs := [("3_0.json"%string, ping_tx 0x50 [pay_event 0x50]); ("4_0.json"%string, ping_tx 0x51 [pay_event 0x51])];
  mf_StakeTxs := []
|}.

Definition demo_main := main range_id (λ _, range_id) (λ _ _ _, range_id) (λ _, range_id) (λ _ _ _, range_id)
  insertion_sorter erc20_abi main_files.

Lemma main_files_extractor : is_ret (main_extractor range_id main_files).
Proof. by eexists. Qed.

Lemma main_files_rates s : main_extractor range_id main_files = Ret s → nonneg_rates s.
Proof.
  intros [= <-]. split; intros; cbn -[stable_rate swap_rate].
  - unfold stable_of. rewrite lookup_empty. by vm_compute.
  - unfold swap_rate. by rewrite !lookup_empty.
Qed.

Lemma demo_main_users : match demo_main with Done (_, attacks) => attacks.*1 | _ => [] end = [0x51; 0x50].
Proof. vm_compute. reflexivity. Qed.

Lemma main_returns_witness :
  ∃ reports attacks, demo_main = Done (reports, attacks) ∧ attacks.*1 = [0x51; 0x50] ∧ NoDup attacks.*1.
Proof.
  destruct main_files_extractor as [s0 E0].
  destruct (main_returns range_id (λ _, range_id) (λ _ _ _, range_id) (λ _, range_id) (λ _ _ _, range_id) insertion_sorter
    erc20_abi erc20_abi_has_Transfer main_files s0 E0 (main_files_rates s0 E0)) as (_ & [_ Hret] & Hd).
  destruct Hret as [[reports attacks] E].
  - repeat constructor.
  - exists reports, attacks. split; [exact E|].
    destruct (Hd reports attacks E) as (_ & _ & _ & _ & _ & _ & Hn & _).
    change (demo_main = Done (reports, attacks)) in E. pose proof demo_main_users as Hu. rewrite E in Hu. by split.
Defined.
