(* ===== verification/FuzzTask.v ===== *)
(** * cmd/substate-cli/replay/test_hunter.go: a round of the fuzzer

    [TestTask] puts the parts of the hunter together: it loads the history of an
    application, generates messages from it, applies them to a state of recorded
    accounts, and looks for an attack in the token flows after every epoch.

    What it reads from files is a record, already decoded; the clock is a
    predicate on epochs; every loop over a map has an order of its own ([Orders]).
    The closure [getHash] sets [hashError] only when the map of block hashes is
    nil, which that of a stored substate never is.  The names of the files it writes are left out. *)

From S2P Require Import Prelude DemoState BigFloat Common Text Abi Tx Extractor Flow Fuzz.
From S2P Require Import Params Uint256 Machine VmFacts Rlp RlpFacts RlpDecode RlpStreamFacts State Statedb StateView StateUndo StateOps StateSim DemoDatabase StateSpec.
From S2P Require Import Vm Evm Interpreter Gas Instructions JumpTable RecorderFacts CallFacts ReadOnlyFacts Changes GasFacts GasOps GasTables EvmSpec EvmState Types Transition TransitionSpec.
From S2P Require Import ChainConfig ChainConfigFacts Substate ReplayTasks ExtractorFacts HunterMain.

(** The orders of the loops over maps: of the seed and of the extractor, and by
    epoch of the copies, the users, the flows and the checks of a user. *)
Record Orders := {
  ord_seed : RangeOracle;
  ord_extractor : RangeOracle;
  ord_copy : nat → RangeOracle;
  ord_users : nat → RangeOracle;
  ord_flow : nat → RangeOracle;
  ord_flows : nat → Address → RangeOracle;
  ord_check : nat → Address → RangeOracle;
  ord_checks : nat → Address → Address → nat → RangeOracle
}.

(** The files of an application. *)
Record TestFiles := {
  tf_ActionMap : gmap string (list string);
  tf_ProxyInfo : ProxyInfo;
  tf_ProxyABI : Address → ABI;
  tf_SeedABI : Address → string → ABI;
  tf_Allocs : list (string * SubstateAlloc);
  tf_ProxyTxs : list (string * ExternalTx);
  tf_StakeTxs : list (string * ExternalTx)
}.

Abbreviation UserTokenAttackMap := (gmap Address (gmap Address AttackInfo)).

(** Without the durations. *)
Record TestResult := mkTestResult {
  tr_UserTokenAttackMap : UserTokenAttackMap;
  tr_ExistAttack : bool;
  tr_TestStartBlock : Z
}.

Definition SomeEther : Z := 1000000000000000000000.
Definition limit : nat := 50.
Definition epoch : nat := Z.to_nat 1000000.

(** The extractor of a round: five of its maps are not set. *)
Definition new_extractor (o : RangeOracle) (files : TestFiles) : TxExtractor :=
  mkTxExtractor (LoadActionMap o 0 (tf_ActionMap files)) (tf_ProxyInfo files) ∅ ∅ ∅ ∅ ∅ ∅ None "" ∅ ∅ ∅ ∅ 0.

Definition empty_seed : Seed := Build_Seed ∅ [] ∅ [] ∅ ∅.

Definition core_message (msg : Fuzz.Message) (amount : Z) : Message :=
  NewMessage (Fuzz.msg_from msg) (Fuzz.msg_to msg) (Fuzz.msg_nonce msg) amount (Fuzz.msg_gasLimit msg)
    (Fuzz.msg_gasPrice msg) (Fuzz.msg_gasFeeCap msg) (Fuzz.msg_gasTipCap msg) (Fuzz.msg_data msg) [] (Fuzz.msg_isFake msg).

Section fuzz.
Context {S : Type} `{StateDB S} `{ReplayState S} `{Uint256} `{Externals}.
Context (levels : nat).
Context (ord : Orders) (r : Random) (so : Sorter) (erc20 : ABI).

(** [core.ApplyMessageTest]; an amount that is nil is dereferenced when the gas
    is bought, after the other checks. *)
Definition ApplyGenerated (evm : EVM S) (msg : Fuzz.Message) (gp : Z)
    : Res (StateTransition S * (CoreError + ExecutionResult)) :=
  match Fuzz.msg_amount msg with
  | Some amount => ApplyMessageTest false levels evm (core_message msg amount) gp
  | None =>
      let m := core_message msg 0 in
      let checks : Transition.Tx () := _ ← (if msg_isFake m then mret tt else check_sender); check_fees false in
      '(st, r) ← checks (NewStateTransition evm m gp);
      match r with
      | inl err => Done (st, inl err)
      | inr _ => Crash NilDereference
      end
  end.

(** ** The messages of an epoch *)

Record EpochRun := mkEpochRun {
  run_evm : EVM S;
  run_gaspool : Z;
  run_extractor : TxExtractor;
  run_draws : nat;
  run_msgs : list Fuzz.Message
}.

Definition number_tx (env : SubstateEnv) (step : nat) (ex : ExternalTx) : ExternalTx :=
  {| etx_BlockNumber := wrapU 64 (env_Number env + Z.of_nat step); etx_Timestamp := etx_Timestamp ex;
     etx_TxIndex := 0; etx_InTxs := etx_InTxs ex |}.

(** What a message that succeeded adds to the token flows. *)
Definition extract_tx (tx : ExternalTx) (s : TxExtractor) : Go TxExtractor :=
  s ← ExtractTokenTx (ord_extractor ord) erc20 tx s; ExtractStakeTokenTx erc20 tx s.

Definition fuzz_step (env : SubstateEnv) (seed : Seed) (attacker : Address) (st : EpochRun) (step : nat) : Res EpochRun :=
  '(toContract, k) ← of_go (SelectTo r seed (run_draws st));
  '(msg, k) ← of_go (GenerateMsg r seed attacker toContract k);
  let evm := run_evm st in
  let evm := set_statedb evm (AddBalance (Fuzz.msg_from msg) SomeEther (statedb evm)) in
  let evm := set_recording evm (CallStack evm) (number_tx env step (ExTx evm)) in
  gp ← of_go (AddGas (run_gaspool st) (env_GasLimit env));
  '(t, res) ← ApplyGenerated evm msg gp;
  let evm := st_evm t in
  '(ex, msgs) ← match res with
                | inr msgResult =>
                    match Err msgResult with
                    | None => ex ← of_go (extract_tx (ExTx evm) (run_extractor st)); Done (ex, run_msgs st ++ [msg])
                    | Some _ => Done (run_extractor st, run_msgs st)
                    end
                | inl err => Done (run_extractor st, run_msgs st)
                end;
  Done (mkEpochRun (set_recording evm (CallStack evm) no_tx) (st_gp t) ex k msgs).

(** ** An epoch *)

(** The flows of every user, and the extractor with its lists sorted. *)
Definition user_flows (n : nat) (s : TxExtractor) : Res (UserTokenFlowMap * TxExtractor) :=
  '(flows, _, txm) ← of_go (GenerateUserFlow so (ord_flow ord n) (ord_flows ord n) s);
  Done (flows, set_UserTokenTxMap txm s).

Definition users_of (n : nat) (flows : UserTokenFlowMap) : list Address := (range_map (ord_users ord n) 0 flows).*1.

Definition check_user (n : nat) (s : TxExtractor) (acc : bool * UserTokenAttackMap * UserTokenFlowMap) (user : Address)
    : Res (bool * UserTokenAttackMap * UserTokenFlowMap) :=
  let '(existAttack, attacks, flows) := acc in
  '(tokenAttackMap, isAttack, flows) ← of_run (CheckAttack so s (ord_check ord n user) (ord_checks ord n user) user flows);
  Done (if isAttack : bool then (true, <[user := tokenAttackMap]> attacks, flows) else (existAttack, attacks, flows)).

(** The check before the first epoch keeps the flag of the last user. *)
Definition check_user_init (s : TxExtractor) (acc : bool * UserTokenFlowMap) (user : Address) : Res (bool * UserTokenFlowMap) :=
  '(_, isAttack, flows) ← of_run (CheckAttack so s (ord_check ord 0 user) (ord_checks ord 0 user) user (snd acc));
  Done (isAttack, flows).

(** What goes from an epoch to the next. *)
Record Fuzzer := mkFuzzer {
  fz_statedb : S;
  fz_gaspool : Z;
  fz_seed : Seed;
  fz_extractor : TxExtractor;
  fz_draws : nat
}.

(** The extractor at the start of an epoch. *)
Definition reset_extractor (n : nat) (txs : UserTokenTxMap) (related : UserRelatedMap) (s : TxExtractor) : TxExtractor :=
  set_UserRelatedMap (DeepCpUserRelatedMap (ord_copy ord n) 2 related)
    (set_UserTokenTxMap (DeepCpUserTokenTxMap (ord_copy ord n) 0 txs) (set_ActionInfoList ∅ s)).

Definition run_epoch (env : SubstateEnv) (txCtx : TxContext) (txs : UserTokenTxMap) (related : UserRelatedMap)
    (n : nat) (f : Fuzzer) : Res (Fuzzer * option (UserTokenAttackMap * list Fuzz.Message)) :=
  '((attacker, attacker_index), k) ← of_go (SelectSender r (fz_seed f) (fz_draws f));
  let ex := reset_extractor n txs related (fz_extractor f) in
  let evm := NewEVM (block_context env) txCtx (fz_statedb f) replayChainConfig no_tx in
  run ← res_foldl (fuzz_step env (fz_seed f) attacker) (mkEpochRun evm (fz_gaspool f) ex k []) (seq 0 limit);
  seed ← (if decide (run_msgs run = []) then of_go (RemoveSender attacker_index (fz_seed f)) else Done (fz_seed f));
  ex ← of_go (ExtractActionInfoList (ord_extractor ord) (run_extractor run));
  '(flows, ex) ← user_flows n ex;
  '(existAttack, attacks, _) ← res_foldl (check_user n ex) (false, ∅, flows) (users_of n flows);
  Done (mkFuzzer (statedb (run_evm run)) (run_gaspool run) seed ex (run_draws run),
        if existAttack : bool then Some (attacks, run_msgs run) else None).

(** The epochs from [n] on, until an attack is found or the time is up. *)
Fixpoint run_epochs (timeout : nat → bool) (env : SubstateEnv) (txCtx : TxContext) (txs : UserTokenTxMap)
    (related : UserRelatedMap) (i n : nat) (f : Fuzzer)
    : Res (Fuzzer * option (UserTokenAttackMap * list Fuzz.Message)) :=
  match i with
  | O => Done (f, None)
  | Datatypes.S i =>
      if timeout n then Done (f, None)
      else
        '(f, found) ← run_epoch env txCtx txs related n f;
        match found with
        | Some x => Done (f, Some x)
        | None => run_epochs timeout env txCtx txs related i (Datatypes.S n) f
        end
  end.

(** ** A round *)

(** The extractor after the history up to the block is loaded. *)
Definition load_history (files : TestFiles) (block : Z) : Go TxExtractor :=
  let ex := Extractor.Init (tf_ProxyABI files) (new_extractor (ord_extractor ord) files) in
  ex ← InitTokenUserTxMap (ord_extractor ord) erc20 block (tf_ProxyTxs files) ex;
  ex ← InitUserRelatedMapWithStake erc20 block (tf_StakeTxs files) ex;
  Ret (UpdateCommonAddressMap (ord_extractor ord) ex).

Definition load_seed (files : TestFiles) (block : Z) : Go Seed :=
  let info := tf_ProxyInfo files in
  let seed := InitSeed (ord_seed ord) (tf_SeedABI files) info empty_seed in
  InitSeedFromFrontTxs (ord_seed ord) (length (pi_ProxyContracts info) + length (pi_LPTokens info)) (LoadTxs block (tf_ProxyTxs files)) seed.

(** Also returned: what it writes, the result and the messages of an attack. *)
Definition TestTask (timeout : nat → bool) (files : TestFiles) (block : Z) (substate : Substate)
    : Res (bool * option ReplayError * option (TestResult * option (list Fuzz.Message))) :=
  let env := sub_Env substate in
  let msg := AsMessage (sub_Message substate) in
  let allocs := load_before block (tf_Allocs files) in
  s ← of_go (MakeOffTheChainStateDBWithTxs allocs);
  gaspool ← of_go (AddGas 0 (env_GasLimit env));
  let txCtx := {| Origin := msg_from msg; GasPrice := msg_gasPrice msg |} in
  seed ← of_go (load_seed files block);
  ex ← of_go (load_history files block);
  ex ← of_go (ExtractActionInfoList (ord_extractor ord) ex);
  let txs := DeepCpUserTokenTxMap (ord_copy ord 0) 0 (te_UserTokenTxMap ex) in
  let related := DeepCpUserRelatedMap (ord_copy ord 0) 2 (te_UserRelatedMap ex) in
  '(flows, ex) ← user_flows 0 ex;
  '(existAttack, _) ← res_foldl (check_user_init ex) (false, flows) (users_of 0 flows);
  if existAttack : bool then Done (true, None, None)
  else
    s ← of_go (MakeOffTheChainStateDBWithTxs allocs);
    '(f, found) ← run_epochs timeout env txCtx txs related epoch 1 (mkFuzzer s gaspool seed ex 0);
    let existAttack := bool_decide (is_Some found) in
    let attacks := match found with Some (attacks, _) => attacks | None => ∅ end in
    Done (existAttack, None,
          Some (mkTestResult attacks existAttack block, snd <$> found)).
End fuzz.

(** ** Nothing is attributed

    [RelatedToken] is nil in every extractor of a round, so an attribution panics. *)

Definition nothing (s : TxExtractor) : Prop := te_RelatedToken s = None ∧ te_UserTokenTxMap s = ∅.

Lemma nothing_fields s s' : kept_fields s' = kept_fields s → nothing s → nothing s'.
Proof. unfold kept_fields, nothing. by intros [= -> -> _ _]. Qed.

Section extraction.
Context (o : RangeOracle) (erc20 : ABI).

Lemma attribute_transfer_none ai sp s t s' :
  te_RelatedToken s = None → attribute_transfer ai sp s t = Ret s' → s' = s.
Proof.
  intros Hn. unfold attribute_transfer, incr_RelatedToken. destruct s. cbn in Hn |- *. subst.
  repeat case_match; by intros [= <-].
Qed.

Lemma ExtractActionInfoList_nothing s s' : nothing s → ExtractActionInfoList o s = Ret s' → nothing s'.
Proof.
  intros Hn. unfold ExtractActionInfoList. destruct (go_foldl _ s _) as [s1|] eqn:E; [|done]. intros [= <-].
  assert (s1 = s) as ->; [|by destruct s].
  eapply (go_foldl_ind (λ x, x = s)); [done| |exact E]. intros x [i ai] x' _ ->. unfold attribute_action. intros E'.
  eapply (go_foldl_ind (λ x, x = s)); [done| |exact E']. intros y t y' _ ->. apply attribute_transfer_none, Hn.
Qed.

End extraction.

Lemma range_map_empty {K V : Type} `{Countable K} (o : RangeOracle) n : range_map (K := K) (V := V) o n ∅ = [].
Proof. apply Permutation_nil_r. unfold range_map. by rewrite pick_perm, map_to_list_empty. Qed.

Section history.
Context (ord : Orders) (r : Random) (so : Sorter) (erc20 : ABI).

Lemma load_history_nothing files block s : load_history ord erc20 files block = Ret s → nothing s.
Proof.
  unfold load_history. set (s0 := Init _ _).
  destruct (InitTokenUserTxMap _ _ _ _ _) as [s1|] eqn:E1; simpl; [|done].
  destruct (InitUserRelatedMapWithStake _ _ _ _) as [s2|] eqn:E2; simpl; [|done]. intros [= <-].
  assert (nothing s0) as H0 by done.
  assert (nothing s1) as H1.
  { eapply (go_foldl_ind nothing); [exact H0| |exact E1]. intros s [name ExTx] s' _ Hn. case_match; [|by intros [= <-]].
    intros E. eapply nothing_fields; [by eapply ExtractTokenTx_fields|exact Hn]. }
  assert (nothing s2) as H2.
  { clear -H1 E2. revert s1 E2 H1. induction (tf_StakeTxs files) as [|[name ExTx] l IH]; intros s1; cbn; [by intros [= <-]|].
    case_match; [|by intros [= <-]]. destruct (ExtractStakeTokenTx _ _ _) as [s3|] eqn:E; cbn; [|done].
    intros E2 H1. eapply IH; [exact E2|]. eapply nothing_fields; [by eapply ExtractStakeTokenTx_fields|exact H1]. }
  eapply nothing_fields; [|exact H2]. by destruct s2.
Qed.

Lemma reset_nothing n related s : nothing s → nothing (reset_extractor ord n ∅ related s).
Proof.
  intros [H1 H2]. unfold reset_extractor, DeepCpUserTokenTxMap. rewrite range_map_empty. destruct s. by split.
Qed.

Lemma user_flows_nothing n s : nothing s → user_flows ord so n s = Done (∅, s).
Proof.
  intros [_ Ht]. unfold user_flows, GenerateUserFlow. rewrite Ht, range_map_empty. cbn. do 2 f_equal.
  destruct s. cbn in *. by subst.
Qed.

Lemma users_of_nothing n : users_of ord n ∅ = [].
Proof. unfold users_of. by rewrite range_map_empty. Qed.

Lemma extract_tx_nothing tx s s' : nothing s → extract_tx ord erc20 tx s = Ret s' → nothing s'.
Proof.
  intros Hn. unfold extract_tx. destruct (ExtractTokenTx _ _ _ _) as [s1|] eqn:E; cbn; [|done]. intros E'.
  eapply nothing_fields; [by eapply ExtractStakeTokenTx_fields|]. eapply nothing_fields; [by eapply ExtractTokenTx_fields|done].
Qed.
End history.

(** ** Generated messages *)

Lemma rnd_bind_ret {A B : Type} (m : Rnd A) (f : A → Rnd B) k b k' :
  rnd_bind m f k = Ret (b, k') → ∃ a k1, m k = Ret (a, k1) ∧ f a k1 = Ret (b, k').
Proof. unfold rnd_bind. destruct (m k) as [[a k1]|]; [|done]. by exists a, k1. Qed.

Lemma GenerateMsg_gas r s from to k msg k' : GenerateMsg r s from to k = Ret (msg, k') → Fuzz.msg_gasLimit msg = 8000000.
Proof.
  unfold GenerateMsg. intros H. do 4 (apply rnd_bind_ret in H as (? & ? & _ & H)). by injection H as <- _.
Qed.

(** ** The machine stays ready *)

Section ready.
Context {S : Type} `{HS : StateDB S} `{!RefundLaws S} `{!ReplayState S} `{!ReplayLaws S}.
Context `{U : Uint256} `{!Uint256Range U} `{X : Externals} `{!ExternalsRange X}.
Context (levels : nat) (Hlevels : CallCreateDepth < Z.of_nat levels).

Definition ready (e : EVM S) : Prop := fresh e ∧ refund_ok (statedb e).

Lemma ready_state e s : ready e → changes (statedb e) s → ready (set_statedb e s).
Proof. intros [Hf Hr] Hc. split; [exact Hf|]. by eapply refund_changes. Qed.

Lemma ready_recording e tx : ready e → ready (set_recording e (CallStack e) tx).
Proof. done. Qed.

Lemma NewEVM_ready blockCtx txCtx s : refund_ok s → ready (NewEVM blockCtx txCtx s replayChainConfig no_tx).
Proof. intros Hs. split; [|done]. split; [done|]. split; [done|]. apply replay_ordered. Qed.

Lemma settled_ready e msg gp st res : ready e → settled e msg gp st res → ready (st_evm st).
Proof.
  intros [(Hd & Hc & Ho) Hr] [_ Hs _ (Hde & _ & Hru & _) (i & u & s1 & _ & _ & _ & Hch & Hst)]. split.
  - split; [congruence|]. split; [done|by rewrite Hru].
  - rewrite Hst. eapply refund_changes; [exact Hr|]. eapply chg_trans; [apply chg_sub|]. eapply chg_trans; [exact Hch|].
    eapply chg_trans; apply chg_add.
Qed.

Lemma ApplyGenerated_ready (e : EVM S) msg gp :
  ready e → 0 ≤ gp < 2 ^ 64 → 0 ≤ Fuzz.msg_gasLimit msg < 2 ^ 64 →
  finishes (λ p, ready (st_evm (fst p)) ∧ 0 ≤ st_gp (fst p) < 2 ^ 64) (ApplyGenerated levels e msg gp).
Proof.
  intros He Hgp Hg. unfold ApplyGenerated. destruct (Fuzz.msg_amount msg) as [amount|].
  - set (m := core_message msg amount). destruct He as [Hf Hr].
    pose proof (checked_settles levels e m gp (preCheckSu false) Hlevels Hf Hr Hgp Hg (proj2 (preCheck_spec false e m gp Hgp Hg))) as Hs.
    unfold ApplyMessageTest, TransitionDbTest.
    destruct ((_ ← preCheckSu false; transition levels) (NewStateTransition e m gp)) as [[st [err|res]]|p|]; [| |done|done];
      cbn [outcome finishes fst] in *.
    + destruct Hs as [->|(_ & Hle & Hp & He)]; [done|]. rewrite Hp, He. split; [by apply ready_state; [|apply chg_sub]|].
      change (msg_gasLimit m) with (Fuzz.msg_gasLimit msg) in *. lia.
    + destruct Hs as [Hle Hs]. split; [by eapply settled_ready; [split|]|].
      pose proof (settled_used e m gp st res Hr (proj1 Hg) Hs) as Hu. destruct Hs as [-> _ _ _ _]. lia.
  - set (m := core_message msg 0).
    assert (looks (_ ← (if msg_isFake m then mret tt else check_sender); check_fees false : Transition.Tx ())) as Hl.
    { apply looks_bind; [|apply check_fees_looks]. destruct (msg_isFake m); [apply looks_ret|apply check_sender_looks]. }
    destruct (Hl (NewStateTransition e m gp)) as [[err ->]| ->]; cbn; [done|done].
Qed.

Context (ord : Orders) (r : Random) (so : Sorter) (erc20 : ABI).

Definition run_ok (st : EpochRun (S := S)) : Prop :=
  ready (run_evm st) ∧ 0 ≤ run_gaspool st < 2 ^ 64 ∧ nothing (run_extractor st).
Definition fuzzer_ok (f : Fuzzer (S := S)) : Prop :=
  refund_ok (fz_statedb f) ∧ 0 ≤ fz_gaspool f < 2 ^ 64 ∧ nothing (fz_extractor f).

Lemma AddGas_range gp amount gp' : AddGas gp amount = Ret gp' → 0 ≤ gp' < 2 ^ 64.
Proof. unfold AddGas. case_match; [done|]. intros [= <-]. by apply wrapU_range. Qed.

Lemma fuzz_step_ok env seed attacker st step :
  run_ok st → finishes run_ok (fuzz_step levels ord r erc20 env seed attacker st step).
Proof.
  intros (He & Hgp & Hn). unfold fuzz_step.
  eapply (finishes_bind (λ _, True)); [by apply finishes_go|]. intros [toContract k] _.
  eapply (finishes_bind (λ p, Fuzz.msg_gasLimit (fst p) = 8000000)).
  { apply finishes_go. intros [msg k'] E. by eapply GenerateMsg_gas. }
  intros [msg k'] Hg. cbn [fst] in Hg. cbv zeta.
  eapply (finishes_bind (λ gp, 0 ≤ gp < 2 ^ 64)); [apply finishes_go; intros gp; apply AddGas_range|]. intros gp Hgp'.
  eapply finishes_bind.
  { apply ApplyGenerated_ready; [|exact Hgp'|lia]. apply ready_recording, ready_state; [exact He|apply chg_add]. }
  intros [t res] [Ht Htp]. cbn [fst] in *.
  eapply (finishes_bind (λ p, nothing (fst p))).
  { destruct res as [err|res]; [exact Hn|]. destruct (Err res); [exact Hn|].
    eapply (finishes_bind nothing); [apply finishes_go; intros ex; apply extract_tx_nothing, Hn|]. done. }
  intros [ex msgs] Hex. split; [by apply ready_recording|]. by split.
Qed.

Lemma run_epoch_ok env txCtx related n f :
  fuzzer_ok f → finishes (λ p, fuzzer_ok (fst p) ∧ snd p = None)
    (run_epoch levels ord r so erc20 env txCtx ∅ related n f).
Proof.
  intros (Hs & Hgp & Hn). unfold run_epoch.
  eapply (finishes_bind (λ _, True)); [by apply finishes_go|]. intros [[attacker index] k] _. cbv zeta.
  eapply (finishes_bind run_ok).
  { apply finishes_foldl; [|intros; by apply fuzz_step_ok]. split; [by apply NewEVM_ready|]. split; [exact Hgp|by apply reset_nothing]. }
  intros run ([_ Hr] & Hp & Hx).
  eapply (finishes_bind (λ _, True)); [destruct (decide _); [by apply finishes_go|done]|]. intros seed _.
  eapply (finishes_bind nothing); [apply finishes_go; intros ex; by apply ExtractActionInfoList_nothing|]. intros ex He.
  rewrite (user_flows_nothing ord so n ex He). cbn [mbind Res_bind]. rewrite users_of_nothing. cbn. done.
Qed.

Lemma run_epochs_ok timeout env txCtx related i : ∀ n f,
  fuzzer_ok f → finishes (λ p, fuzzer_ok (fst p) ∧ snd p = None)
    (run_epochs levels ord r so erc20 timeout env txCtx ∅ related i n f).
Proof.
  induction i as [|i IH]; intros n f Hf; cbn [run_epochs]; [done|]. destruct (timeout n); [done|].
  eapply finishes_bind; [by apply run_epoch_ok|]. intros [f' found] [Hf' Hnone]. cbn in *. subst found. by apply IH.
Qed.

(** What a round comes to when it finds nothing. *)
Definition found_nothing (block : Z)
    (m : Res (bool * option ReplayError * option (TestResult * option (list Fuzz.Message)))) : Prop :=
  finishes (λ '(existAttack, _, written), existAttack = false ∧ written = Some (mkTestResult ∅ false block, None)) m.

(** The transfers of the history that belong to a user. *)
Definition attributions (s : TxExtractor) : list (Address * TokenTx) :=
  (map_to_list (te_ActionInfoList s)).*2 ≫= attributed (te_LPTokenMap s) (te_CommonAddressMap s).

(** C23: A round of the fuzzer always ends, whatever it generates and runs and in
    whatever order it visits its maps, and it never reports an attack: the
    extractor it makes has no map of related tokens, so the round panics as soon
    as a transfer is attributed to a user, and with no such transfer there is no
    flow to check.  In particular it panics on every history with a transfer to
    attribute. *)
Theorem TestTask_finds_nothing timeout files block substate :
  let m := TestTask levels ord r so erc20 timeout files block substate in
  found_nothing block m ∧
  (∀ s, load_history ord erc20 files block = Ret s → attributions s ≠ [] → ∃ p, m = Crash p).
Proof.
  intros m. subst m. unfold TestTask, found_nothing. split.
  - eapply (finishes_bind (λ _, True)); [by apply finishes_go|]. intros s0 _.
    eapply (finishes_bind (λ gp, 0 ≤ gp < 2 ^ 64)); [apply finishes_go; intros gp; apply AddGas_range|]. intros gp Hgp. cbv zeta.
    eapply (finishes_bind (λ _, True)); [by apply finishes_go|]. intros seed _.
    eapply (finishes_bind nothing); [apply finishes_go; intros ex; apply load_history_nothing|]. intros ex He.
    eapply (finishes_bind nothing); [apply finishes_go; intros ex'; by apply ExtractActionInfoList_nothing|]. clear ex He. intros ex He.
    rewrite (user_flows_nothing ord so 0 ex He). cbn [mbind Res_bind]. rewrite users_of_nothing. cbn [res_foldl mbind Res_bind].
    eapply (finishes_bind refund_ok); [apply finishes_go; intros s; apply made_ok|]. intros s Hs.
    unfold DeepCpUserTokenTxMap at 1. destruct He as [Hn Ht]. rewrite Ht, range_map_empty. cbn [foldl].
    eapply finishes_bind; [apply run_epochs_ok; split; [exact Hs|]; split; [exact Hgp|by split]|]. intros [f found] [_ Hf]. cbn [snd] in Hf. subst found. done.
  - intros s E Ha. destruct (MakeOffTheChainStateDBWithTxs _) as [s0|p]; [|by exists p].
    destruct (AddGas _ _) as [gp|p]; [|by exists p]. cbn [of_go mbind Res_bind]. cbv zeta.
    destruct (load_seed _ _ _) as [seed|p]; [|by exists p]. cbn [of_go mbind Res_bind]. rewrite E. cbn [of_go mbind Res_bind].
    pose proof (load_history_nothing _ _ _ _ _ E) as [Hn _].
    destruct (ExtractActionInfoList _ s) as [s'|p] eqn:E'; [|by exists p]. exfalso.
    destruct (proj1 (ExtractActionInfoList_is_ret (ord_extractor ord) s)) as [[x Hx]|?]; [by eexists|congruence|done].
Qed.
End ready.

(** ** An example: an application with one method, which stops

    Its history is a call by the sender.  If the call pays a token to the
    application, the method being a deposit, the round panics. *)

Definition ping_files (name : string) (events : list Event) : TestFiles := {|
  tf_ActionMap := {[ "deposit"%string := ["deposit"%string] ]};
  tf_ProxyInfo := Build_ProxyInfo "demo" None ∅ ∅ [10] [];
  tf_ProxyABI _ := ping_ABI name;
  tf_SeedABI _ _ := ping_ABI name;
  tf_Allocs := [("3_0.json"%string, {[10 := NewSubstateAccount 1 0 [0x60; 0x00]]})];
  tf_ProxyTxs := [("3_0.json"%string, ping_tx sender_addr events)];
  tf_StakeTxs := []
|}.

Definition demo_orders : Orders := {|
  ord_seed := range_id; ord_extractor := range_id; ord_copy _ := range_id; ord_users _ := range_id; ord_flow _ := range_id;
  ord_flows _ _ := range_id; ord_check _ _ := range_id; ord_checks _ _ _ _ := range_id
|}.

(** One epoch. *)
Definition demo_round (name : string) (events : list Event) :=
  TestTask (S := Spec) 1025 demo_orders counting_random insertion_sorter erc20_abi
    (λ n, (1 <? n)%nat) (ping_files name events) 5 demo_substate.

Definition flag_of {A B C : Type} (m : Res (A * B * C)) : option A := match m with Done (a, _, _) => Some a | _ => None end.

Lemma demo_flag : flag_of (demo_round "ping" []) = Some false.
Proof. vm_compute. reflexivity. Qed.

Lemma demo_panics : match demo_round "deposit" [pay_event sender_addr] with Crash p => Some p | _ => None end = Some NilMapWrite.
Proof. vm_compute. reflexivity. Qed.

Definition attributed_by (m : Go TxExtractor) : nat := match m with Ret s => length (attributions s) | Panic _ => 0 end.

Lemma demo_attributed : attributed_by (load_history demo_orders erc20_abi (ping_files "deposit" [pay_event sender_addr]) 5) = 1%nat.
Proof. vm_compute. reflexivity. Qed.

Lemma attributed_some m : attributed_by m ≠ 0%nat → ∃ s, m = Ret s ∧ attributions s ≠ [].
Proof. destruct m as [s|p]; [|done]. intros Hn. exists s. split; [done|]. intros E. apply Hn. cbn. by rewrite E. Qed.

Lemma flag_done {A B C : Type} (m : Res (A * B * C)) a : flag_of m = Some a → ∃ b c, m = Done (a, b, c).
Proof. destruct m as [[[x b] c]|p|]; [|done|done]. intros [= <-]. by exists b, c. Qed.

Lemma TestTask_finds_nothing_witness :
  (∃ err, demo_round "ping" [] = Done (false, err, Some (mkTestResult ∅ false 5, None))) ∧
  (∃ p, demo_round "deposit" [pay_event sender_addr] = Crash p).
Proof.
  assert (CallCreateDepth < Z.of_nat 1025) as Hl by reflexivity. split.
  - destruct (flag_done _ _ demo_flag) as (err & written & E). exists err.
    destruct (TestTask_finds_nothing (S := Spec) 1025 Hl demo_orders counting_random insertion_sorter erc20_abi
      (λ n, (1 <? n)%nat) (ping_files "ping" []) 5 demo_substate) as [Hf _].
    fold (demo_round "ping" []) in Hf. rewrite E in Hf |- *. destruct Hf as [_ ->]. reflexivity.
  - destruct (TestTask_finds_nothing (S := Spec) 1025 Hl demo_orders counting_random insertion_sorter erc20_abi
      (λ n, (1 <? n)%nat) (ping_files "deposit" [pay_event sender_addr]) 5 demo_substate) as [_ Hp].
    destruct (attributed_some (load_history demo_orders erc20_abi (ping_files "deposit" [pay_event sender_addr]) 5)) as (s & Es & Ha).
    + rewrite demo_attributed. discriminate.
    + exact (Hp s Es Ha).
Defined.
